(* ===== verification/_CoqProject ===== *)
-Q . S2P
Prelude.v
Cells.v
Vector.v
Ring.v
CircularQueue.v
Queue.v
Pipe.v
AvlMap.v
Bitmap.v
PhysicalPage.v
BuddyZone.v
PhysicalRegion.v
Frames.v
VMObject.v
PageDirectory.v
VMSpace.v
AddressSpace.v
ByteMem.v
CString.v
KernelString.v
KString.v
Ctype.v
LibcStdlib.v
LibcEnv.v
Words.v
Liballoc.v
LiballocHeap.v
LiballocOps.v
LiballocPages.v
LiballocClient.v
KernelHeap.v
Mutex.v
Scheduler.v
SchedulerInv.v
SchedulerSteps.v
SchedulerRun.v
ByteBuf.v
LRUCache.v
WordQueue.v
Disk.v
Pata.v
DiskCache.v
FileBlocks.v
Partition.v
Ext2.v
Ext2Inv.v
Ext2Alloc.v
Ext2Inode.v
Ext2Tree.v
Ext2Pointers.v
Ext2Entry.v
Ext2File.v
Ext2FileOk.v
Ext2Trunc.v
Ext2Shrink.v
Ext2Mount.v
Ext2Spec.v
Ext2Dir.v
Ext2DirBytes.v
Ext2DirOk.v
Ext2DirSpec.v
Ext2Create.v
Ext2InodeAlloc.v
Ext2CreateSpec.v
Vfs.v
VfsSpec.v
VfsGuard.v
VfsCreate.v
VfsExt2.v
FileCalls.v
Stdio.v
StdioSpec.v
StdioFile.v
