(* ===== verification/Prelude.v ===== *)
(** * A verification library for nusaOS

    nusaOS is a small Unix-like operating system for i386: a kernel (src/kernel),
    the C library and the libraries above it (src/libraries), services and
    programs.  This library models the memory of the system, from page frames
    to [malloc], mutexes and the scheduler, the ext2 filesystem and the disk under it,
    the containers of the kernel that the rest is written with, pipes, and a part
    of the C library with its streams, as Rocq functions, and proves what makes them correct.

    ** How the code is modelled

    A function of the source is a function here, under the name it has there.  Code
    that can fail gives an [outcome]: a value, [Panic] (a failed [ASSERT] or
    [PANIC]), [Undef] (an access outside an allocation, or to memory without a
    value) or [NoFuel].  Errors the code returns are values of [result].  State is
    passed explicitly: an object is a record with the fields of the class, the
    cells of an allocation are a list of optional objects ([cells]), pointers
    between nodes are keys of a map of nodes ([VMSpace]) or addresses of a memory of
    bytes ([ByteMem]).  Machine integers are [Z], with [u8], [u16], [u32], [s32]
    where the code wraps.

    A loop without a bound of its own runs on fuel.  The fuel is a function of
    the data the loop walks over (the number of mapped bytes, of list nodes, of
    orders), never a constant, and the theorems state results, so that they show
    the fuel to be enough.

    ** The files and the code they model

    - [Prelude]: outcomes, machine integers, cells, shared lemmas and tactics.
    - Containers of the kernel: [Cells] and [Vector] (kstd/vector.hpp), [Ring],
      [CircularQueue] (kstd/circular_queue.hpp), [Queue] (kstd/queue.hpp; [WordQueue] is
      the queue of numbers, whose [contains] reads cells without elements), [AvlMap]
      (kstd/map.hpp), [Bitmap] (kstd/Bitmap.h), [KString] (kstd/string.cpp).  Each is
      refined to its mathematical counterpart (list, double-ended queue, finite
      map), for every sequence of operations.
    - [Pipe] (filesystem/Pipe.cpp): a stream of bytes, on [CircularQueue].
    - Page frames: [PhysicalPage], [BuddyZone] (memory/BuddyZone.cpp) on [Bitmap],
      [PhysicalRegion] (PhysicalRegion.cpp and the page part of MemoryManager.cpp);
      [Frames] states what they promise as the class [FrameAllocator].
    - Virtual memory: [VMObject] (VMObject.cpp, AnonymousVMObject.cpp,
      InodeVMObject.cpp) against [FrameAllocator]; [PageDirectory]
      (arch/i386/PageDirectory.cpp); [VMSpace] (VMSpace.cpp), and [AddressSpace],
      which puts the three together for mapping, page faults and [fork].
    - The C library: [ByteMem] and [CString] (libc/string.c), [Ctype] (ctype.c),
      [LibcStdlib] (numbers and sorting in stdlib.c) and [LibcEnv] (the environment, in
      stdlib.c and crt0.c); [KernelString] has the kernel's own string and number
      functions (kstd/cstring.cpp, kstd/kstdlib.cpp).
    - The memory allocator, one text for the C library and the kernel: [Words]
      (structures in byte memory), [Liballoc] (the code), [LiballocHeap] (its
      invariant), [LiballocOps] (its operations, against the class [PageSource]),
      [LiballocPages] (where the C library gets its pages, libc/sys/liballoc.cpp and
      mman.c, an instance of [PageSource] over system calls of the class [Mmap]),
      [LiballocClient] (programs that use it), [KernelHeap] (where the kernel's
      version gets its pages, an instance of [PageSource] until paging is set up).
    - Threads: [Mutex] (tasking/Mutex.cpp and the critical sections of
      TaskManager.cpp); [Scheduler] (the run queue, preemption, blocking, stopping,
      reaping, and the start and end of processes in TaskManager.cpp, Thread.cpp, Process.cpp, Reaper.cpp),
      [SchedulerInv] (its invariant), [SchedulerSteps] (that each operation keeps it)
      and [SchedulerRun] (runs from boot).
    - Disks: [ByteBuf] (buffers of bytes), [LRUCache] (kstd/LRUCache.h), [Disk]
      (device/DiskDevice.cpp, and byte ranges of arch/i386/device/PATADevice.cpp)
      against the class [Drive], [Pata] (the transfers of PATADevice.cpp, an instance
      of [Drive] for a controller of the class [Controller]) and [DiskCache] (that a
      disk is an array of bytes).
    - Filesystems on a file: [FileBlocks] (filesystem/FileBasedFilesystem.cpp)
      against the class [ByteFile], of which a disk is an instance, and so is a
      partition of another one ([Partition], device/PartitionDevice.cpp).
    - ext2 (filesystem/ext2): [Ext2] (groups, bitmaps and blocks of
      Ext2Filesystem.cpp and Ext2BlockGroup.cpp), [Ext2Inv] (the invariant),
      [Ext2Alloc] (allocating and freeing); [Ext2Inode] (inodes and their pointers in
      Ext2Inode.cpp), [Ext2Tree], [Ext2Pointers] and [Ext2Entry] (the trees of
      pointers and the table of inodes); [Ext2File] (read, write, truncate),
      [Ext2FileOk], [Ext2Trunc] and [Ext2Shrink] (that they do what they should);
      [Ext2Mount] (mounting); [Ext2Spec] (files as bodies, that is the bytes of their
      blocks and their sizes, and as lists of bytes, and a small
      filesystem on a partition of a disk behind its cache).  Directories: [Ext2Dir]
      (the code), [Ext2DirBytes] (blocks as lists of entries), [Ext2DirOk] and
      [Ext2DirSpec] (listing, looking up, adding).  [Ext2Create] has the allocation of
      inodes, and the creating and removing of entries, over the inodes in memory;
      [Ext2InodeAlloc] and [Ext2CreateSpec] prove them for files.
    - The virtual filesystem: [Vfs] (filesystem/VFS.cpp, Inode.cpp, LinkedInode.cpp,
      FileDescriptor.cpp, the permissions of InodeMetadata.cpp, and User.cpp) over
      filesystems of the class [Inodes], the virtual functions of inodes.  [VfsSpec] has the
      class [InodesSpec] of what they promise, and what a path means; [VfsGuard] what a
      user can change, [VfsCreate] the creating of files, and [VfsExt2] the instance for
      ext2 and the two together.  Resolving a path takes as much fuel as the path is long,
      and at most six levels of links, as in the code.
    - Processes and files: [FileCalls] (the calls on open files and on paths of
      kernel/syscall) over the VFS.  Streams: [Stdio] (libraries/libc/stdio.c) over the
      class [Kernel] of system calls, [StdioSpec] (what they promise, [KernelSpec], and
      that a stream is a file and a position), [StdioFile] (that [FileCalls] on ext2 is an
      instance).  The loops of [fread] and [fwrite] have fuel for two rounds for each byte
      and a few more, as a round either moves a byte or fills or empties the buffer.

    ** What the theorems show

    Memory handed out is private: blocks of the buddy allocator are disjoint and
    merge back, objects that share frames copy-on-write behave as if they did not,
    a write fault ends with a private page mapped, a space stays tiled by its
    regions, and a program that uses [malloc] in any order never sees the bytes of a
    block change, and every call ends for as long as there are pages.  At most one thread has a mutex; the scheduler loses no thread that
    can run, and each gets its turn.  A disk behind its cache is an array of bytes,
    and the files of an ext2 filesystem on such an array are lists of bytes, each
    with its own blocks, as long as there are zeros behind their ends (a cut inside the last
    block does not clear it); its directories are lists of entries, and creating and removing
    a file takes and gives back an inode and keeps everything else.  Resolving a path
    always ends; the full path of a file leads to it, a file that is created by its path
    is found by it, and what users can change is what the checks of the code say, which
    is what they are allowed to but for three operations that test the wrong thing.  A buffered stream
    behaves as the file under it, and what has been written to it is on the disk when it
    is flushed.  Containers behave as what they stand for.  Conversions between numbers and
    text are inverse.  The rest are results on error paths, and on inputs for which the
    code does not do what it is meant to; these are stated as theorems about the code as
    it is.

    ** Not modelled

    Outside [Mutex], [Scheduler] and [VMObject] threads run one at a time: a section
    guarded by a mutex is a single step, and the lock itself is left out; where
    two threads can meet between sections ([VMObject]) the interleaving is
    explicit.  The theorems on ext2 are for blocks of 1024 bytes and a disk without
    errors; those on creating and removing are for files, while the code for directories
    is modelled and run on examples.  The theorems on the VFS over ext2 are for a tree whose
    inodes are all in memory, on one filesystem; other filesystems (procfs, ptyfs, socketfs)
    are not modelled, nor are the counts that descriptors keep for pipes and terminals.
    Streams are modelled one at a time, without their list and without formatted input and
    output; the theorems on them are for full buffering, for files that are not opened to
    append, and for reads that do not directly follow a write.  Of the system calls those
    on processes, signals, sockets and terminals, and [readdir], are not modelled.
    Directories whose entries leave so much room at the ends of blocks that they need one
    block more than they fill, and cuts that leave pointers to freed blocks in the trees of
    large files, are outside the theorems on ext2, since the code damages them.  What the kernel's
    heap does once paging is set up is an argument of [KernelHeap].
    Destructors that only release memory are left out.  The port to aarch64 (arch/aarch64)
    and code that only talks to hardware, draws, or calls the system are not
    modelled, nor is floating point. *)

From stdpp Require Import base numbers list option.

Local Open Scope Z_scope.

(** ** Outcomes of a kernel computation *)

(** What running a piece of kernel code gives: a value, a kernel panic (a
    failed [ASSERT] or a call of [PANIC]), undefined behaviour (an access
    outside an allocation, or to an object that is not alive), or [NoFuel], the
    iteration bound of the model (never the end of a run of the code: the
    theorems state that the bound given is enough). *)
Inductive outcome (A : Type) : Type :=
  | Done (a : A)
  | Panic
  | Undef
  | NoFuel.
Arguments Done {A} _.
Arguments Panic {A}.
Arguments Undef {A}.
Arguments NoFuel {A}.

#[export] Instance outcome_ret : MRet outcome := λ A a, Done a.
#[export] Instance outcome_bind : MBind outcome := λ A B f o,
  match o with Done a => f a | Panic => Panic | Undef => Undef | NoFuel => NoFuel end.

(** [ASSERT(cond)] of kernel/kstd/kstdio.h. *)
Definition kassert (b : bool) : outcome unit := if b then Done tt else Panic.

Lemma bind_Done {A B} (o : outcome A) (f : A → outcome B) b :
  o ≫= f = Done b ↔ ∃ a, o = Done a ∧ f a = Done b.
Proof. destruct o; cbn; split; naive_solver. Qed.

Lemma bind_assoc {A B C} (o : outcome A) (f : A → outcome B) (g : B → outcome C) :
  (o ≫= f) ≫= g = o ≫= (λ a, f a ≫= g).
Proof. by destruct o. Qed.

(** A computation that does not end with a value. *)
Definition not_done {A} (o : outcome A) : Prop := ∀ a, o ≠ Done a.

Lemma not_done_bind {A B} (o : outcome A) (f : A → outcome B) : not_done o → not_done (o ≫= f).
Proof. intros Ho b. destruct o as [a| | |]; cbn; try done. by destruct (Ho a). Qed.

Lemma kassert_Done b u : kassert b = Done u ↔ b = true.
Proof. destruct b, u; naive_solver. Qed.

(** ** Results: [Result] and [ResultRet<T>] of kernel/Result.hpp *)

(** A [ResultRet<T>]: a value, or the error code the callee passed on. *)
Inductive result (T : Type) : Type :=
  | Ok (t : T)
  | Err (code : Z).
Arguments Ok {T} _.
Arguments Err {T} _.

#[export] Instance result_eq_dec `{EqDecision T} : EqDecision (result T).
Proof. solve_decision. Defined.

Definition is_error {T} (r : result T) : bool :=
  match r with Ok _ => false | Err _ => true end.

(** ** Machine integers *)

Definition u8 (z : Z) : Z := z mod 2 ^ 8.
Definition u16 (z : Z) : Z := z mod 2 ^ 16.
Definition u32 (z : Z) : Z := z mod 2 ^ 32.

(** Two's complement reading of the low [w] bits. *)
Definition sext (w z : Z) : Z :=
  let r := z mod 2 ^ w in if r <? 2 ^ (w - 1) then r else r - 2 ^ w.
Definition s16 : Z → Z := sext 16.
Definition s32 : Z → Z := sext 32.

Lemma u32_id z : 0 ≤ z < 2 ^ 32 → u32 z = z.
Proof. intros. unfold u32. by rewrite Z.mod_small. Qed.

Lemma u32_add_l a b : u32 (u32 a + b) = u32 (a + b).
Proof. apply Zplus_mod_idemp_l. Qed.
Lemma u32_sub_l a b : u32 (u32 a - b) = u32 (a - b).
Proof. apply Zminus_mod_idemp_l. Qed.

Lemma u32_range z : 0 ≤ u32 z < 2 ^ 32.
Proof. unfold u32. apply Z.mod_pos_bound. lia. Qed.

Lemma u16_id z : 0 ≤ z < 2 ^ 16 → u16 z = z.
Proof. intros. unfold u16. by rewrite Z.mod_small. Qed.

Lemma u8_id z : 0 ≤ z < 2 ^ 8 → u8 z = z.
Proof. intros. unfold u8. by rewrite Z.mod_small. Qed.

Lemma sext_id w z : 0 < w → - 2 ^ (w - 1) ≤ z < 2 ^ (w - 1) → sext w z = z.
Proof.
  intros Hw Hz. unfold sext.
  assert (2 ^ w = 2 * 2 ^ (w - 1)) as Hp.
  { rewrite <-Z.pow_succ_r by lia. f_equal. lia. }
  assert (0 < 2 ^ (w - 1)) by (apply Z.pow_pos_nonneg; lia).
  destruct (decide (0 ≤ z)).
  - rewrite Z.mod_small by lia. by rewrite (proj2 (Z.ltb_lt _ _)) by lia.
  - rewrite <-(Z_mod_plus_full z 1), Z.mul_1_l, Z.mod_small by lia.
    rewrite (proj2 (Z.ltb_ge _ _)) by lia. lia.
Qed.

Lemma s16_id z : - 2 ^ 15 ≤ z < 2 ^ 15 → s16 z = z.
Proof. intros. by apply (sext_id 16). Qed.

Lemma s32_id z : - 2 ^ 31 ≤ z < 2 ^ 31 → s32 z = z.
Proof. intros. by apply (sext_id 32). Qed.

Lemma s16_u16 z : s16 (u16 z) = s16 z.
Proof. unfold s16, sext, u16. by rewrite Z.mod_mod. Qed.

(** A signed computation on [w] bits: overflow is undefined. *)
Definition signed (w z : Z) : outcome Z :=
  if (- 2 ^ (w - 1) <=? z) && (z <? 2 ^ (w - 1)) then Done z else Undef.

Lemma signed_Done w z : - 2 ^ (w - 1) ≤ z < 2 ^ (w - 1) → signed w z = Done z.
Proof. intros Hz. unfold signed. by rewrite (proj2 (Z.leb_le _ _)), (proj2 (Z.ltb_lt _ _)) by lia. Qed.

Lemma signed_Undef w z : z < - 2 ^ (w - 1) ∨ 2 ^ (w - 1) ≤ z → signed w z = Undef.
Proof.
  intros Hz. unfold signed. destruct (Z.leb_spec (- 2 ^ (w - 1)) z), (Z.ltb_spec z (2 ^ (w - 1))); cbn; (done || lia).
Qed.

(** ** Arrays of objects *)

(** A C++ allocation of [n] cells of type [T]: a cell is [Some v] while it
    holds a live object, and [None] when it is raw memory (never constructed,
    or destroyed). *)
Abbreviation cells T := (list (option T)).

Section cells.
Context {T : Type}.
Implicit Types (m : cells T) (i : Z) (v : T).

(** The cells that [kcalloc(n, sizeof(T))] returns, cast to a [T] array. *)
Definition kcalloc (n : Z) : cells T := replicate (Z.to_nat n) None.

(** Whether index [i] is inside the allocation. *)
Definition in_alloc m i : bool := (0 <=? i) && (i <? Z.of_nat (length m)).

(** Reading (or copying from) the object in cell [i]. *)
Definition cell_read m i : outcome T :=
  if in_alloc m i then
    match m !! Z.to_nat i with Some (Some v) => Done v | _ => Undef end
  else Undef.

(** [new (&m[i]) T(v)]. *)
Definition cell_write m i v : outcome (cells T) :=
  if in_alloc m i then Done (<[Z.to_nat i := Some v]> m) else Undef.

(** [m[i].~T()], of a live object. *)
Definition cell_destroy m i : outcome (cells T) :=
  _ ← cell_read m i; Done (<[Z.to_nat i := None]> m).

Lemma in_alloc_true m i : in_alloc m i = true ↔ 0 ≤ i < Z.of_nat (length m).
Proof. unfold in_alloc. lia. Qed.

Lemma length_kcalloc n : 0 ≤ n → Z.of_nat (length (kcalloc n)) = n.
Proof. intros. unfold kcalloc. rewrite length_replicate. lia. Qed.

Lemma cell_read_Done m i v :
  0 ≤ i → m !! Z.to_nat i = Some (Some v) → cell_read m i = Done v.
Proof.
  intros Hi Hm. unfold cell_read. pose proof (lookup_lt_Some _ _ _ Hm).
  rewrite (proj2 (in_alloc_true m i)) by lia. by rewrite Hm.
Qed.

Lemma cell_write_Done m i v :
  0 ≤ i < Z.of_nat (length m) → cell_write m i v = Done (<[Z.to_nat i := Some v]> m).
Proof. intros. unfold cell_write. by rewrite (proj2 (in_alloc_true m i)). Qed.

Lemma cell_destroy_Done m i v :
  0 ≤ i → m !! Z.to_nat i = Some (Some v) →
  cell_destroy m i = Done (<[Z.to_nat i := None]> m).
Proof. intros. unfold cell_destroy. by rewrite (cell_read_Done m i v). Qed.
End cells.

(** ** Counted loops *)

(** [for (i = a; i < a + n; i++) body], threading a state. *)
Fixpoint for_range {S} (n : nat) (a : Z) (body : Z → S → outcome S) (s : S) : outcome S :=
  match n with
  | O => Done s
  | S n => s ← body a s; for_range n (a + 1) body s
  end.

(** A loop keeps an invariant indexed by the number of iterations done. *)
Lemma for_range_inv {S} (I : nat → S → Prop) n body : ∀ a s k,
  I k s →
  (∀ j s, (k ≤ j < k + n)%nat → I j s →
     ∃ s', body (a + Z.of_nat (j - k)) s = Done s' ∧ I (Datatypes.S j) s') →
  ∃ s', for_range n a body s = Done s' ∧ I (k + n)%nat s'.
Proof.
  induction n as [|n IH]; intros a s k Hi Hb; cbn [for_range].
  { exists s. by rewrite Nat.add_0_r. }
  destruct (Hb k s ltac:(lia) Hi) as (s'&Hs&Hi').
  replace (a + Z.of_nat (k - k)) with a in Hs by lia. rewrite Hs. cbn.
  destruct (IH (a + 1) s' (Datatypes.S k) Hi') as (s''&Hs''&?).
  { intros j s1 Hj Hi1. destruct (Hb j s1 ltac:(lia) Hi1) as (s2&Hs2&?).
    exists s2. split; [|done]. rewrite <-Hs2. f_equal. lia. }
  exists s''. split; [done|]. by replace (k + Datatypes.S n)%nat with (Datatypes.S k + n)%nat by lia.
Qed.

(** The same for a loop known to have ended. *)
Lemma for_range_done {S} (I : nat → S → Prop) n body : ∀ a s k s',
  for_range n a body s = Done s' → I k s →
  (∀ j s s', (k ≤ j < k + n)%nat → I j s → body (a + Z.of_nat (j - k)) s = Done s' → I (Datatypes.S j) s') →
  I (k + n)%nat s'.
Proof.
  induction n as [|n IH]; intros a s k s' Hr Hi Hb; cbn [for_range] in Hr.
  { injection Hr as <-. by rewrite Nat.add_0_r. }
  apply bind_Done in Hr as (s1&Hs1&Hr).
  replace (k + Datatypes.S n)%nat with (Datatypes.S k + n)%nat by lia.
  apply (IH (a + 1) s1 (Datatypes.S k) s' Hr).
  - apply (Hb k s); [lia|done|]. by replace (a + Z.of_nat (k - k)) with a by lia.
  - intros j s2 s3 Hj Hi2 Hs3. apply (Hb j s2 s3); [lia|done|].
    by replace (a + Z.of_nat (j - k)) with (a + 1 + Z.of_nat (j - Datatypes.S k)) by lia.
Qed.

(** ** Error numbers of kernel/api/errno.h *)

Definition SUCCESS : Z := 0.
Definition EPERM : Z := 1.
Definition ENOENT : Z := 2.
Definition ESRCH : Z := 3.
Definition EINTR : Z := 4.
Definition EIO : Z := 5.
Definition EBADF : Z := 9.
Definition ECHILD : Z := 10.
Definition ENOMEM : Z := 12.
Definition EACCES : Z := 13.
Definition EBUSY : Z := 16.
Definition EEXIST : Z := 17.
Definition EXDEV : Z := 18.
Definition ENOTDIR : Z := 20.
Definition EISDIR : Z := 21.
Definition EINVAL : Z := 22.
Definition ENOSPC : Z := 28.
Definition ESPIPE : Z := 29.
Definition EPIPE : Z := 32.
Definition ERANGE : Z := 34.
Definition ENOTEMPTY : Z := 90.
Definition ENAMETOOLONG : Z := 91.
Definition ELOOP : Z := 92.
Definition EADDRINUSE : Z := 112.
Definition EHOSTUNREACH : Z := 118.
Definition EINPROGRESS : Z := 119.
Definition ECONNREFUSED : Z := 111.
Definition EOVERFLOW : Z := 139.

(** ** Tactics *)

(** Turn boolean comparisons of the context and the goal into propositions by
    case analysis, then finish what linear arithmetic can. *)
Ltac zbool :=
  repeat match goal with
  | |- context [?a <? ?b] => destruct (Z.ltb_spec a b)
  | |- context [?a <=? ?b] => destruct (Z.leb_spec a b)
  | |- context [?a =? ?b] => destruct (Z.eqb_spec a b)
  | H : context [?a <? ?b] |- _ => destruct (Z.ltb_spec a b)
  | H : context [?a <=? ?b] |- _ => destruct (Z.leb_spec a b)
  | H : context [?a =? ?b] |- _ => destruct (Z.eqb_spec a b)
  end.

(** Normal form of appends: associated to the right, conses outside. *)
Ltac app_norm := repeat first
  [progress cbn [app] | rewrite <-app_assoc | rewrite <-app_comm_cons | rewrite app_nil_r].

(** Decompose a computation known to end in [Done]. *)
Ltac inv_done :=
  repeat match goal with
  | H : Done _ = Done _ |- _ => injection H as H; simplify_eq
  | H : (_ ≫= _) = Done _ |- _ => apply bind_Done in H as (? & ? & H)
  | H : kassert _ = Done _ |- _ => apply kassert_Done in H
  | H : Panic = Done _ |- _ => discriminate H
  | H : Undef = Done _ |- _ => discriminate H
  | H : NoFuel = Done _ |- _ => discriminate H
  end.

(** The same, through the pairs that [let '(a, b)] takes apart. *)
Ltac inv_done_pairs :=
  repeat (progress inv_done ||
    match goal with H : (let '(_, _) := ?x in _) = Done _ |- _ => destruct x end).

Create HintDb nusa.
#[export] Hint Resolve u32_range : nusa.
Create Rewrite HintDb nusa.
#[export] Hint Rewrite @length_insert @length_replicate : nusa.

(** ** Pairwise relations *)

(** A symmetric relation between any two elements of a list. *)
Fixpoint pairwise {A} (R : A → A → Prop) (l : list A) : Prop :=
  match l with [] => True | x :: l => Forall (R x) l ∧ pairwise R l end.

Section pairwise.
Context {A : Type} (R : A → A → Prop) (R_sym : ∀ x y, R x y → R y x).

Lemma pairwise_perm l l' : l ≡ₚ l' → pairwise R l → pairwise R l'.
Proof.
  induction 1 as [|x l l' HP IH|x y l|l1 l2 l3 _ IH1 _ IH2]; cbn; [done| | |auto].
  - intros [Hx Hl]. split; [|auto]. rewrite list.Forall_forall in *. intros y Hy. apply Hx. by rewrite HP.
  - intros (Hx&Hy&Hl). inversion Hx; subst. split_and!; [|done|done]. by constructor; [apply R_sym|].
Qed.

Lemma pairwise_elem l1 x l2 y : pairwise R (l1 ++ x :: l2) → y ∈ l1 ++ l2 → R x y.
Proof.
  intros Hl%(pairwise_perm _ (x :: l1 ++ l2)) Hy; [|symmetry; apply Permutation_middle].
  destruct Hl as [HF _].
  rewrite list.Forall_forall in HF. by apply HF.
Qed.

Lemma pairwise_app l1 l2 : pairwise R l1 → pairwise R l2 → (∀ x y, x ∈ l1 → y ∈ l2 → R x y) → pairwise R (l1 ++ l2).
Proof.
  induction l1 as [|x l1 IH]; cbn; [done|]. intros [Hx H1] H2 HR. split.
  - apply list.Forall_app. split; [done|]. apply list.Forall_forall. intros y Hy. apply HR; [by left|done].
  - apply IH; [done|done|]. intros y z Hy. apply HR. by right.
Qed.

End pairwise.
