(* ===== verification/Cells.v ===== *)
(** * Arrays of objects under construction

    The loops with which [kstd::vector] and [kstd::queue] construct, copy, move
    and destroy the objects of an allocation, and the shape of the allocation
    while they run: [holes l1 k l2 n] is an array of [n] cells with live objects
    [l1], then [k] raw cells, then live objects [l2], and raw cells to the end. *)

From stdpp Require Import base numbers list option.
From S2P Require Import Prelude.

Local Open Scope Z_scope.

Section loops.
Context {T : Type}.

(** [for (i = from; i < to; i++) _storage[i].~T()]. *)
Definition destroy_cells (st : cells T) (from to : Z) : outcome (cells T) :=
  for_range (Z.to_nat (to - from)) from (λ i st, cell_destroy st i) st.

(** [for (i = 0; i < n; i++) new (&dst[i]) T(src[i])]. *)
Definition copy_cells (src dst : cells T) (n : Z) : outcome (cells T) :=
  for_range (Z.to_nat n) 0 (λ i dst, x ← cell_read src i; cell_write dst i x) dst.
End loops.

(** ** The shape of the storage during the loops *)

Section shape.
Context {T : Type}.
Implicit Types (l : list T) (x : T) (n k : nat).

(** [n] cells: live objects [l1], [k] raw cells, live objects [l2], raw cells. *)
Definition holes l1 k l2 n : cells T :=
  (Some <$> l1) ++ replicate k None ++ (Some <$> l2) ++
  replicate (n - length l1 - k - length l2) None.

Abbreviation live l n := (holes l 0 [] n).

Lemma length_holes l1 k l2 n :
  (length l1 + k + length l2 ≤ n)%nat → length (holes l1 k l2 n) = n.
Proof. intros. unfold holes. rewrite !length_app, !length_replicate, !length_fmap. lia. Qed.

Lemma holes_nil l k n : (length l + k ≤ n)%nat → holes l k [] n = live l n.
Proof.
  intros. unfold holes. cbn. f_equal. rewrite <-replicate_add. f_equal. lia.
Qed.

Lemma holes_zero l1 l2 n : holes l1 0 l2 n = live (l1 ++ l2) n.
Proof.
  unfold holes. cbn. rewrite fmap_app, <-app_assoc, length_app. do 3 f_equal. lia.
Qed.

Lemma live_raw n : live [] n = kcalloc (Z.of_nat n).
Proof. unfold holes, kcalloc. cbn. f_equal. lia. Qed.

Lemma holes_lookup_left l1 k l2 n i x :
  l1 !! i = Some x → holes l1 k l2 n !! i = Some (Some x).
Proof.
  intros Hi. unfold holes. rewrite lookup_app_l by (rewrite length_fmap; by eapply lookup_lt_Some).
  by rewrite list_lookup_fmap, Hi.
Qed.

Lemma holes_lookup_right l1 k x l2 n :
  holes l1 k (x :: l2) n !! (length l1 + k)%nat = Some (Some x).
Proof.
  unfold holes. rewrite fmap_cons, app_assoc, <-app_comm_cons, list_lookup_middle; [done|].
  by rewrite length_app, length_fmap, length_replicate.
Qed.

Lemma holes_destroy l1 k x l2 n :
  <[(length l1 + k)%nat := None]> (holes l1 k (x :: l2) n) = holes l1 (S k) l2 n.
Proof.
  unfold holes. rewrite app_assoc, insert_app_r_alt; rewrite length_app, length_fmap, length_replicate; [|lia].
  rewrite Nat.sub_diag, fmap_cons, <-app_comm_cons. cbn [insert list_insert length].
  rewrite replicate_S_end. app_norm. do 4 f_equal. f_equal. lia.
Qed.

Lemma holes_write l1 k l2 n x :
  <[length l1 := Some x]> (holes l1 (S k) l2 n) = holes (l1 ++ [x]) k l2 n.
Proof.
  unfold holes. rewrite insert_app_r_alt; rewrite length_fmap; [|lia].
  rewrite Nat.sub_diag, fmap_app, <-app_assoc, length_app. cbn. do 4 f_equal. f_equal. lia.
Qed.

(** The cell operations on that shape. *)
Lemma read_left l1 k l2 n (i : Z) x :
  0 ≤ i → l1 !! Z.to_nat i = Some x → cell_read (holes l1 k l2 n) i = Done x.
Proof. intros. apply cell_read_Done; [done|]. by apply holes_lookup_left. Qed.

Lemma read_right l1 k x l2 n :
  cell_read (holes l1 k (x :: l2) n) (Z.of_nat (length l1 + k)) = Done x.
Proof. apply cell_read_Done; [lia|]. rewrite Nat2Z.id. apply holes_lookup_right. Qed.

Lemma destroy_right l1 k x l2 n :
  cell_destroy (holes l1 k (x :: l2) n) (Z.of_nat (length l1 + k)) = Done (holes l1 (S k) l2 n).
Proof.
  rewrite (cell_destroy_Done _ _ x); rewrite ?Nat2Z.id; [|lia|apply holes_lookup_right].
  by rewrite holes_destroy.
Qed.

Lemma write_left l1 k l2 n x : (length l1 + S k + length l2 ≤ n)%nat →
  cell_write (holes l1 (S k) l2 n) (Z.of_nat (length l1)) x = Done (holes (l1 ++ [x]) k l2 n).
Proof.
  intros. rewrite cell_write_Done by (rewrite length_holes; lia).
  by rewrite Nat2Z.id, holes_write.
Qed.

Lemma write_end l n x : (length l < n)%nat →
  cell_write (live l n) (Z.of_nat (length l)) x = Done (live (l ++ [x]) n).
Proof.
  intros. rewrite <-(holes_nil l 1) by lia. apply write_left. cbn. lia.
Qed.

(** The loops. *)
Lemma destroy_cells_live l1 l2 n : (length (l1 ++ l2) ≤ n)%nat →
  destroy_cells (live (l1 ++ l2) n) (Z.of_nat (length l1)) (Z.of_nat (length (l1 ++ l2))) =
    Done (live l1 n).
Proof.
  intros Hn. rewrite length_app in *. unfold destroy_cells.
  replace (Z.to_nat _) with (length l2) by lia.
  destruct (for_range_inv (λ j st, st = holes l1 j (drop j l2) n) (length l2)
    (λ i st, cell_destroy st i) (Z.of_nat (length l1)) (live (l1 ++ l2) n) 0) as (st&->&->).
  - by rewrite (holes_zero _ (drop 0 _)).
  - intros j st Hj ->. destruct (lookup_lt_is_Some_2 l2 j) as [x Hx]; [lia|].
    rewrite (drop_S _ _ _ Hx). eexists. split; [|done].
    rewrite <-destroy_right with (x := x). f_equal. lia.
  - cbn. rewrite drop_all. by rewrite holes_nil by lia.
Qed.

Lemma destroy_all_live l n : (length l ≤ n)%nat →
  destroy_cells (live l n) 0 (Z.of_nat (length l)) = Done (live [] n).
Proof. exact (destroy_cells_live [] l n). Qed.

Lemma fill_live l n m x : (length l + m ≤ n)%nat →
  for_range m (Z.of_nat (length l)) (λ i st, cell_write st i x) (live l n) =
    Done (live (l ++ replicate m x) n).
Proof.
  intros Hn. destruct (for_range_inv (λ j st, st = live (l ++ replicate j x) n) m
    (λ i st, cell_write st i x) (Z.of_nat (length l)) (live l n) 0) as (st&->&->).
  - by rewrite app_nil_r.
  - intros j st Hj ->. eexists. split; [|done].
    rewrite replicate_S_end, app_assoc, <-write_end by (rewrite length_app, length_replicate; lia).
    f_equal. rewrite length_app, length_replicate. lia.
  - done.
Qed.

Lemma copy_cells_live l n n' : (length l ≤ n')%nat →
  copy_cells (live l n) (live [] n') (Z.of_nat (length l)) = Done (live l n').
Proof.
  intros Hn. unfold copy_cells. rewrite Nat2Z.id.
  destruct (for_range_inv (λ j st, st = live (take j l) n') (length l)
    (λ i dst, x ← cell_read (live l n) i; cell_write dst i x) 0 (live [] n') 0) as (st&->&->).
  - done.
  - intros j st Hj ->. destruct (lookup_lt_is_Some_2 l j) as [x Hx]; [lia|].
    replace (0 + Z.of_nat (j - 0)) with (Z.of_nat j) by lia.
    rewrite (read_left _ _ _ _ _ x) by (rewrite ?Nat2Z.id; done || lia). cbn.
    eexists. split; [|done]. rewrite (take_S_r _ _ _ Hx), <-write_end by (rewrite length_take; lia).
    f_equal. rewrite length_take. lia.
  - cbn [Nat.add]. by rewrite firstn_all.
Qed.

Lemma move_cells_live l n n' : (length l ≤ n)%nat → (length l ≤ n')%nat →
  for_range (length l) 0
    (λ i '(st, tmp),
       x ← cell_read st i; tmp ← cell_write tmp i x; st ← cell_destroy st i; Done (st, tmp))
    (live l n, live [] n') = Done (live [] n, live l n').
Proof.
  intros Hn Hn'.
  edestruct (for_range_inv (λ j s, s = (holes [] j (drop j l) n, live (take j l) n')) (length l))
    as (st&->&->).
  - by rewrite (holes_zero _ (drop 0 _)).
  - intros j st Hj ->. destruct (lookup_lt_is_Some_2 l j) as [x Hx]; [lia|].
    rewrite (drop_S _ _ _ Hx), (take_S_r _ _ _ Hx).
    replace (0 + Z.of_nat (j - 0)) with (Z.of_nat (length (@nil T) + j)) by (cbn; lia).
    rewrite read_right. cbn [mbind outcome_bind].
    assert (cell_write (live (take j l) n') (Z.of_nat (length (@nil T) + j)) x =
      Done (live (take j l ++ [x]) n')) as ->.
    { rewrite <-write_end by (rewrite length_take; lia). f_equal. rewrite length_take. cbn. lia. }
    cbn [mbind outcome_bind].
    rewrite destroy_right. by eexists.
  - cbn [Nat.add]. rewrite drop_all, firstn_all. by rewrite holes_nil by (cbn; lia).
Qed.
End shape.
Abbreviation live l n := (holes l 0 [] n).
