(* ===== verification/Vector.v ===== *)
(** * kstd::vector (kernel/kstd/vector.hpp)

    The growable array of the kernel.  Its storage is a null pointer or an
    allocation of cells ([cells T]); constructing an object in a cell,
    destroying it and reading it are the operations of the prelude, so a read
    of raw memory, a second destruction or an index outside the allocation is
    [Undef], and a failed [ASSERT] is [Panic].  The vector is refined to the
    list of its elements. *)

From stdpp Require Import base numbers list option.
From S2P Require Import Prelude.
From S2P Require Import Cells.

Local Open Scope Z_scope.

Section vector.
Context {T : Type}.

Record vector : Type := mk_vector {
  _storage : option (cells T);
  _capacity : Z;
  _size : Z;
}.

(** Access through [_storage]: a null pointer has no cells. *)
Definition storage_cells (v : vector) : outcome (cells T) :=
  match _storage v with Some st => Done st | None => Undef end.

Definition vector_new : vector := mk_vector None 0 0.

Definition vector_fill (size : Z) (value : T) : outcome vector :=
  st ← for_range (Z.to_nat size) 0 (λ i st, cell_write st i value) (kcalloc size);
  Done (mk_vector (Some st) size size).

Definition vector_copy (other : vector) : outcome vector :=
  st ← copy_cells (default [] (_storage other)) (kcalloc (_size other)) (_size other);
  Done (mk_vector (Some st) (_capacity other) (_size other)).

(** The new vector and what is left of [other]. *)
Definition vector_move (other : vector) : vector * vector :=
  (mk_vector (_storage other) (_capacity other) (_size other), mk_vector None 0 0).

(** The cells handed to [kfree], if any. *)
Definition destructor (v : vector) : outcome (option (cells T)) :=
  match _storage v with
  | None => Done None
  | Some st => st ← destroy_cells st 0 (_size v); Done (Some st)
  end.

Definition realloc (v : vector) (new_capacity : Z) : outcome vector :=
  if new_capacity =? _capacity v then Done v
  else match _storage v with
  | None => Done (mk_vector (Some (kcalloc new_capacity)) new_capacity (_size v))
  | Some st =>
      '(st, sz) ← (if new_capacity <? _size v
                   then st ← destroy_cells st new_capacity (_size v); Done (st, new_capacity)
                   else Done (st, _size v));
      '(_, tmp) ← for_range (Z.to_nat sz) 0
        (λ i '(st, tmp),
           x ← cell_read st i;
           tmp ← cell_write tmp i x;
           st ← cell_destroy st i;
           Done (st, tmp))
        (st, kcalloc new_capacity);
      Done (mk_vector (Some tmp) new_capacity sz)
  end.

Definition push_back (v : vector) (elem : T) : outcome vector :=
  v ← (if _capacity v <? u32 (_size v + 1)
       then realloc v (if _capacity v =? 0 then 1 else u32 (_capacity v * 2))
       else Done v);
  st ← storage_cells v;
  st ← cell_write st (_size v) elem;
  Done (mk_vector (Some st) (_capacity v) (u32 (_size v + 1))).

(** [dflt] is [T()]. *)
Definition resize (dflt : T) (v : vector) (new_size : Z) : outcome vector :=
  if _size v =? new_size then Done v
  else
    v ← (if _capacity v <? new_size then realloc v new_size else Done v);
    st ← storage_cells v;
    st ← (if _size v <? new_size
          then for_range (Z.to_nat (new_size - _size v)) (_size v)
                 (λ i st, cell_write st i dflt) st
          else destroy_cells st new_size (_size v));
    Done (mk_vector (Some st) (_capacity v) new_size).

Definition erase (v : vector) (elem : Z) : outcome vector :=
  _ ← kassert (elem <? _size v);
  st ← storage_cells v;
  st ← cell_destroy st elem;
  st ← for_range (Z.to_nat (_size v - 1 - elem)) elem
    (λ i st,
       x ← cell_read st (i + 1);
       st ← cell_write st i x;
       cell_destroy st (i + 1))
    st;
  Done (mk_vector (Some st) (_capacity v) (_size v - 1)).

Definition reserve (v : vector) (new_capacity : Z) : outcome vector :=
  if _capacity v <? new_capacity then realloc v new_capacity else Done v.

Definition shrink_to_fit (v : vector) : outcome vector := realloc v (_size v).

Definition empty (v : vector) : bool := _size v =? 0.

(** [at] and [operator[]]. *)
Definition at_index (v : vector) (index : Z) : outcome T :=
  _ ← kassert (index <? _size v);
  st ← storage_cells v;
  cell_read st index.

Definition front (v : vector) : outcome T :=
  match _storage v with None => Panic | Some st => cell_read st 0 end.

Definition back (v : vector) : outcome T :=
  match _storage v with None => Panic | Some st => cell_read st (u32 (_size v - 1)) end.

(** [operator=(const vector&)], of a vector other than itself. *)
Definition assign_copy (v other : vector) : outcome vector :=
  _ ← (match _storage v with Some st => destroy_cells st 0 (_size v) | None => Done [] end);
  st ← copy_cells (default [] (_storage other)) (kcalloc (_capacity other)) (_size other);
  Done (mk_vector (Some st) (_capacity other) (_size other)).

(** [operator=(vector&&)]: the vector and what is left of [other]. *)
Definition assign_move (v other : vector) : outcome (vector * vector) :=
  _ ← (match _storage v with Some st => destroy_cells st 0 (_size v) | None => Done [] end);
  Done (mk_vector (_storage other) (_capacity other) (_size other), mk_vector None 0 0).

End vector.
Arguments vector T : clear implicits.

(** ** The operations refine the list of elements *)

Section refinement.
Context {T : Type}.
Implicit Types (v : vector T) (l : list T) (x : T).

Definition vec_rep v l : Prop :=
  match _storage v with
  | None => l = [] ∧ _capacity v = 0 ∧ _size v = 0
  | Some st => ∃ n, st = live l n ∧ _capacity v = Z.of_nat n ∧ _size v = Z.of_nat (length l) ∧
      (length l ≤ n)%nat ∧ Z.of_nat n < 2 ^ 32
  end.

Lemma vec_rep_live l n :
  (length l ≤ n)%nat → Z.of_nat n < 2 ^ 32 →
  vec_rep (mk_vector (Some (live l n)) (Z.of_nat n) (Z.of_nat (length l))) l.
Proof. intros. exists n. by split_and!. Qed.

Lemma vec_rep_size v l : vec_rep v l →
  _size v = Z.of_nat (length l) ∧ 0 ≤ _size v ≤ _capacity v ∧ _capacity v < 2 ^ 32.
Proof.
  unfold vec_rep. destruct (_storage v) as [st|].
  - intros (n&->&->&->&?&?). lia.
  - intros (->&->&->). cbn. lia.
Qed.

(** A vector with some capacity has storage. *)
Lemma vec_rep_storage v l : vec_rep v l → 0 < _capacity v →
  ∃ n, v = mk_vector (Some (live l n)) (Z.of_nat n) (Z.of_nat (length l)) ∧
    (length l ≤ n)%nat ∧ Z.of_nat n < 2 ^ 32.
Proof.
  destruct v as [[st|] c s]; cbn.
  - intros (n&->&->&->&?&?) _. by exists n.
  - intros (_&->&_). lia.
Qed.

Lemma vec_realloc_rep v l (c : nat) : vec_rep v l → Z.of_nat c < 2 ^ 32 →
  ∃ v', realloc v (Z.of_nat c) = Done v' ∧ vec_rep v' (take c l) ∧ _capacity v' = Z.of_nat c.
Proof.
  intros Hv Hc. unfold realloc. destruct (Z.eqb_spec (Z.of_nat c) (_capacity v)) as [He|He].
  { exists v. pose proof (vec_rep_size _ _ Hv). rewrite take_ge by lia. done. }
  destruct v as [[st|] cap s]; cbn [vec_rep _storage _capacity _size] in *.
  - destruct Hv as (n&->&->&->&Hln&Hn). set (l1 := take c l).
    assert ((if Z.of_nat c <? Z.of_nat (length l)
      then st ← destroy_cells (live l n) (Z.of_nat c) (Z.of_nat (length l)); Done (st, Z.of_nat c)
      else Done (live l n, Z.of_nat (length l))) = Done (live l1 n, Z.of_nat (length l1))) as ->.
    { unfold l1. destruct (Z.ltb_spec (Z.of_nat c) (Z.of_nat (length l))).
      - pose proof (destroy_cells_live (take c l) (drop c l) n) as Hd.
        rewrite take_drop, length_take, Nat.min_l in Hd by lia. rewrite Hd by lia. cbn.
        by rewrite length_take, Nat.min_l by lia.
      - by rewrite take_ge by lia. }
    cbn [mbind outcome_bind]. rewrite Nat2Z.id, <-live_raw.
    assert (length l1 ≤ c)%nat by (unfold l1; rewrite length_take; lia).
    assert (length l1 ≤ n)%nat by (unfold l1; rewrite length_take; lia).
    rewrite move_cells_live by done. eexists. split; [done|]. split; [by apply vec_rep_live|done].
  - destruct Hv as (->&->&->). eexists. split; [done|]. split; [|done].
    rewrite take_nil. exists c. rewrite live_raw. cbn. split_and!; (done || lia).
Qed.

Lemma vec_push_back_rep v l x : vec_rep v l → Z.of_nat (length l) < 2 ^ 31 →
  ∃ v', push_back v x = Done v' ∧ vec_rep v' (l ++ [x]).
Proof.
  intros Hv Hl. pose proof (vec_rep_size _ _ Hv) as (Hs&?&?). unfold push_back.
  rewrite (u32_id (_size v + 1)) by lia.
  assert (∃ v1, (if _capacity v <? _size v + 1
    then realloc v (if _capacity v =? 0 then 1 else u32 (_capacity v * 2)) else Done v) = Done v1 ∧
    vec_rep v1 l ∧ Z.of_nat (length l) < _capacity v1) as (v1&->&Hv1&Hc).
  { destruct (Z.ltb_spec (_capacity v) (_size v + 1)); [|exists v; split_and!; (done || lia)].
    destruct (vec_realloc_rep v l (Z.to_nat (if _capacity v =? 0 then 1 else u32 (_capacity v * 2))) Hv)
      as (v1&Hr&Hv1&Hc).
    - zbool; [done|]. rewrite u32_id; lia.
    - exists v1. zbool; rewrite ?(u32_id (_capacity v * 2)), Z2Nat.id in * by lia;
        rewrite take_ge in Hv1 by lia; split_and!; (done || lia). }
  destruct (vec_rep_storage v1 l Hv1 ltac:(lia)) as (n&->&?&?).
  cbn [mbind outcome_bind storage_cells _storage _capacity _size] in *.
  rewrite write_end by lia. eexists. split; [done|].
  rewrite u32_id by lia. replace (Z.of_nat (length l) + 1) with (Z.of_nat (length (l ++ [x])))
    by (rewrite length_app; cbn; lia).
  apply vec_rep_live; [rewrite length_app; cbn; lia|done].
Qed.

Lemma vec_resize_rep dflt v l (n : nat) : vec_rep v l → Z.of_nat n < 2 ^ 32 →
  ∃ v', resize dflt v (Z.of_nat n) = Done v' ∧
    vec_rep v' (take n l ++ replicate (n - length l) dflt).
Proof.
  intros Hv Hn. pose proof (vec_rep_size _ _ Hv) as (Hs&?&?). unfold resize.
  destruct (Z.eqb_spec (_size v) (Z.of_nat n)).
  { exists v. replace (n - length l)%nat with 0%nat by lia.
    by rewrite take_ge, app_nil_r by lia. }
  assert (∃ v1, (if _capacity v <? Z.of_nat n then realloc v (Z.of_nat n) else Done v) = Done v1 ∧
    vec_rep v1 l ∧ Z.of_nat n ≤ _capacity v1 ∧ 0 < _capacity v1) as (v1&->&Hv1&Hc&Hp).
  { destruct (Z.ltb_spec (_capacity v) (Z.of_nat n)); [|exists v; split_and!; (done || lia)].
    destruct (vec_realloc_rep v l n Hv Hn) as (v1&->&Hv1&Hc). exists v1.
    rewrite take_ge in Hv1 by lia. split_and!; (done || lia). }
  destruct (vec_rep_storage v1 l Hv1 Hp) as (c&->&?&?).
  cbn [mbind outcome_bind storage_cells _storage _capacity _size] in *.
  set (l' := take n l ++ replicate (n - length l) dflt).
  assert (length l' = n) as Hl' by (unfold l'; rewrite length_app, length_take, length_replicate; lia).
  assert ((if Z.of_nat (length l) <? Z.of_nat n
    then for_range (Z.to_nat (Z.of_nat n - Z.of_nat (length l))) (Z.of_nat (length l))
           (λ i st, cell_write st i dflt) (live l c)
    else destroy_cells (live l c) (Z.of_nat n) (Z.of_nat (length l))) = Done (live l' c)) as ->.
  { unfold l'. destruct (Z.ltb_spec (Z.of_nat (length l)) (Z.of_nat n)).
    - rewrite fill_live by lia. rewrite take_ge by lia. do 4 f_equal. lia.
    - replace (n - length l)%nat with 0%nat by lia. rewrite app_nil_r.
      pose proof (destroy_cells_live (take n l) (drop n l) c) as Hd.
      rewrite take_drop, length_take, Nat.min_l in Hd by lia. apply Hd. lia. }
  eexists. split; [done|]. rewrite <-Hl'. apply vec_rep_live; lia.
Qed.

Lemma vec_erase_loop l1 l2 n : (length l1 + S (length l2) ≤ n)%nat →
  for_range (length l2) (Z.of_nat (length l1))
    (λ i st, x ← cell_read st (i + 1); st ← cell_write st i x; cell_destroy st (i + 1))
    (holes l1 1 l2 n) = Done (live (l1 ++ l2) n).
Proof.
  intros Hn.
  edestruct (for_range_inv (λ j st, st = holes (l1 ++ take j l2) 1 (drop j l2) n) (length l2))
    as (st&->&->).
  - rewrite take_0, drop_0. by rewrite app_nil_r.
  - intros j st Hj ->. destruct (lookup_lt_is_Some_2 l2 j) as [x Hx]; [lia|].
    rewrite (drop_S _ _ _ Hx), (take_S_r _ _ _ Hx).
    assert (length (l1 ++ take j l2) = (length l1 + j)%nat) as Hlen
      by (rewrite length_app, length_take; lia).
    replace (Z.of_nat (length l1) + Z.of_nat (j - 0) + 1)
      with (Z.of_nat (length (l1 ++ take j l2) + 1)) by lia.
    rewrite read_right. cbn [mbind outcome_bind].
    replace (Z.of_nat (length l1) + Z.of_nat (j - 0))
      with (Z.of_nat (length (l1 ++ take j l2))) by lia.
    rewrite write_left by (rewrite Hlen; cbn; rewrite length_drop; lia).
    cbn [mbind outcome_bind]. rewrite <-app_assoc.
    replace (length (l1 ++ take j l2) + 1)%nat with (length (l1 ++ take j l2 ++ [x]) + 0)%nat
      by (rewrite app_assoc, length_app, Hlen; cbn; lia).
    rewrite destroy_right. by eexists.
  - cbn [Nat.add]. rewrite drop_all, firstn_all. rewrite holes_nil; [done|].
    rewrite length_app. lia.
Qed.

Lemma vec_erase_rep v l1 x l2 : vec_rep v (l1 ++ x :: l2) →
  ∃ v', erase v (Z.of_nat (length l1)) = Done v' ∧ vec_rep v' (l1 ++ l2).
Proof.
  intros Hv. pose proof (vec_rep_size _ _ Hv) as (Hs&?&?). rewrite length_app in Hs. cbn in Hs.
  destruct (vec_rep_storage _ _ Hv ltac:(lia)) as (n&->&Hln&?). unfold erase.
  rewrite length_app in *. cbn [length _size _capacity _storage storage_cells] in *.
  rewrite (proj2 (Z.ltb_lt _ _)) by lia. cbn [kassert mbind outcome_bind].
  rewrite <-holes_zero.
  pose proof (destroy_right l1 0 x l2 n) as Hd. rewrite Nat.add_0_r in Hd. rewrite Hd.
  cbn [mbind outcome_bind].
  replace (Z.to_nat _) with (length l2) by lia. rewrite vec_erase_loop by lia.
  eexists. split; [done|].
  replace (_ - 1) with (Z.of_nat (length (l1 ++ l2))) by (rewrite length_app; lia).
  apply vec_rep_live; [rewrite length_app|]; lia.
Qed.

Lemma vec_at_index_rep v l (i : nat) : vec_rep v l →
  at_index v (Z.of_nat i) = match l !! i with Some x => Done x | None => Panic end.
Proof.
  intros Hv. pose proof (vec_rep_size _ _ Hv) as (Hs&?&?). unfold at_index. rewrite Hs.
  destruct (l !! i) as [x|] eqn:Hi.
  - pose proof (lookup_lt_Some _ _ _ Hi).
    destruct (vec_rep_storage _ _ Hv ltac:(lia)) as (n&->&Hln&?).
    rewrite (proj2 (Z.ltb_lt _ _)) by lia. cbn.
    apply read_left; [lia|by rewrite Nat2Z.id].
  - apply lookup_ge_None in Hi. rewrite (proj2 (Z.ltb_ge _ _)) by lia. done.
Qed.

Lemma vec_destructor_rep v l : vec_rep v l → ∃ st, destructor v = Done st ∧
  match st with Some st => ∃ n, st = kcalloc (Z.of_nat n) | None => _storage v = None end.
Proof.
  intros Hv. unfold destructor. destruct v as [[st|] c s]; cbn [vec_rep _storage _capacity _size] in *;
    [|by exists None].
  destruct Hv as (n&->&->&->&?&?). rewrite destroy_all_live by done. eexists. split; [done|]. exists n. by rewrite live_raw.
Qed.

Lemma vec_assign_copy_rep v l v2 l2 : vec_rep v l → vec_rep v2 l2 →
  ∃ v', assign_copy v v2 = Done v' ∧ vec_rep v' l2.
Proof.
  intros Hv Hv2. unfold assign_copy.
  assert (∃ st, (match _storage v with Some st => destroy_cells st 0 (_size v) | None => Done [] end)
    = Done st) as [st ->].
  { destruct v as [[st|] c s]; cbn [vec_rep _storage _capacity _size] in *; [|by exists []].
    destruct Hv as (n&->&->&->&?&?). exists (live [] n). by apply destroy_all_live. }
  destruct v2 as [[st2|] c2 s2]; cbn [vec_rep from_option id _storage _capacity _size mbind outcome_bind] in *.
  - destruct Hv2 as (n&->&->&->&?&?). rewrite <-live_raw, copy_cells_live by done.
    eexists. split; [done|]. by apply vec_rep_live.
  - destruct Hv2 as (->&->&->). eexists. split; [done|]. by apply (vec_rep_live [] 0).
Qed.

(** Sequences of operations on a vector and on a list. *)
Inductive vec_op : Type :=
  | VPush (x : T) | VResize (n : nat) | VErase (i : nat) | VReserve (n : nat) | VShrink
  | VAt (i : nat) | VFront | VBack | VSize.

Inductive vec_out : Type := VONone | VOVal (x : T) | VOSize (n : Z).

Definition vec_exec (dflt : T) (o : vec_op) (v : vector T) : outcome (vec_out * vector T) :=
  match o with
  | VPush x => v ← push_back v x; Done (VONone, v)
  | VResize n => v ← resize dflt v (Z.of_nat n); Done (VONone, v)
  | VErase i => v ← erase v (Z.of_nat i); Done (VONone, v)
  | VReserve n => v ← reserve v (Z.of_nat n); Done (VONone, v)
  | VShrink => v ← shrink_to_fit v; Done (VONone, v)
  | VAt i => x ← at_index v (Z.of_nat i); Done (VOVal x, v)
  | VFront => x ← front v; Done (VOVal x, v)
  | VBack => x ← back v; Done (VOVal x, v)
  | VSize => Done (VOSize (_size v), v)
  end.

(** The elements, and whether the vector has ever had room for one. *)
Definition contents : Type := list T * bool.

(** [front] and [back] of an empty vector: the assertion only tests for storage. *)
Definition end_elem (x : option T) (allocated : bool) : outcome T :=
  match x with Some x => Done x | None => if allocated then Undef else Panic end.

Definition list_exec (dflt : T) (o : vec_op) (c : contents) : outcome (vec_out * contents) :=
  let '(l, a) := c in
  match o with
  | VPush x => Done (VONone, (l ++ [x], true))
  | VResize n => Done (VONone, (take n l ++ replicate (n - length l) dflt, a || negb (length l =? n)%nat))
  | VErase i => if decide (i < length l)%nat then Done (VONone, (delete i l, a)) else Panic
  | VReserve n => Done (VONone, (l, a || (0 <? n)%nat))
  | VShrink => Done (VONone, (l, a))
  | VAt i => match l !! i with Some x => Done (VOVal x, (l, a)) | None => Panic end
  | VFront => x ← end_elem (l !! 0%nat) a; Done (VOVal x, (l, a))
  | VBack => x ← end_elem (l !! pred (length l)) a; Done (VOVal x, (l, a))
  | VSize => Done (VOSize (Z.of_nat (length l)), (l, a))
  end.

(** Sizes that fit: what an operation may be applied to. *)
Definition vec_fits (o : vec_op) (c : contents) : Prop :=
  match o with
  | VPush _ => Z.of_nat (length c.1) < 2 ^ 31
  | VResize n | VReserve n => Z.of_nat n < 2 ^ 32
  | _ => True
  end.

Definition has_storage v : bool := match _storage v with Some _ => true | None => false end.

Definition vec_is v (c : contents) : Prop := vec_rep v c.1 ∧ has_storage v = c.2.

(** A vector computation and a list computation agree: both end with the same
    result and related states, or both fail an assertion, or both are undefined. *)
Definition vec_agree {A} (c : outcome (A * vector T)) (d : outcome (A * contents)) : Prop :=
  match d with
  | Done (a, l) => ∃ v, c = Done (a, v) ∧ vec_is v l
  | Panic => c = Panic
  | Undef => c = Undef
  | NoFuel => False
  end.

Lemma realloc_has v n v' : realloc v n = Done v' → has_storage v' = has_storage v || negb (n =? _capacity v).
Proof.
  unfold realloc. destruct (n =? _capacity v); [intros [= <-]; by rewrite orb_false_r|]. rewrite orb_true_r.
  destruct (_storage v) as [st|]; [|by intros [= <-]]. intros ([st' sz]&_&([st2 tmp]&_&[= <-])%bind_Done)%bind_Done. done.
Qed.

Lemma push_has v x v' : push_back v x = Done v' → has_storage v' = true.
Proof. unfold push_back. intros (v1&_&(st&_&(st'&_&[= <-])%bind_Done)%bind_Done)%bind_Done. done. Qed.

Lemma resize_has dflt v n v' : resize dflt v n = Done v' → has_storage v' = has_storage v || negb (_size v =? n).
Proof.
  unfold resize. destruct (_size v =? n); [intros [= <-]; by rewrite orb_false_r|]. rewrite orb_true_r.
  intros (v1&_&(st&_&(st'&_&[= <-])%bind_Done)%bind_Done)%bind_Done. done.
Qed.

Lemma erase_has v i v' : erase v i = Done v' → has_storage v' = has_storage v.
Proof.
  unfold erase. intros (?&_&(st&Hst&(st1&_&(st2&_&[= <-])%bind_Done)%bind_Done)%bind_Done)%bind_Done.
  unfold storage_cells in Hst. unfold has_storage. by destruct (_storage v).
Qed.

Lemma vec_front_rep v l : vec_rep v l → front v = end_elem (l !! 0%nat) (has_storage v).
Proof.
  intros Hv. unfold front, has_storage. destruct v as [[st|] c s]; cbn [vec_rep _storage _capacity _size] in *; [|by destruct Hv as (->&_)].
  destruct Hv as (n&->&_&_&Hn&_). destruct l as [|x l]; [|apply read_left; [cbn in *; lia|done]].
  unfold cell_read. rewrite live_raw. unfold kcalloc. rewrite Nat2Z.id. destruct n; done.
Qed.

Lemma vec_back_rep v l : vec_rep v l → back v = end_elem (l !! pred (length l)) (has_storage v).
Proof.
  intros Hv. unfold back, has_storage. destruct v as [[st|] c s]; cbn [vec_rep _storage _capacity _size] in *; [|by destruct Hv as (->&_)].
  destruct Hv as (n&->&_&->&Hn&Hlt). destruct l as [|x l _] using rev_ind.
  - cbn [length Z.of_nat]. change (u32 (0 - 1)) with (2 ^ 32 - 1). unfold cell_read, in_alloc. rewrite live_raw. unfold kcalloc. rewrite length_replicate, (proj2 (Z.ltb_ge (2 ^ 32 - 1) _)) by lia. by rewrite andb_false_r.
  - rewrite length_app in *. cbn [length] in *. rewrite u32_id by lia. rewrite Nat.add_1_r. cbn [pred].
    rewrite list_lookup_middle by done. cbn [end_elem]. apply read_left; [lia|]. by rewrite list_lookup_middle by lia.
Qed.

Lemma vec_exec_refines dflt o v c : vec_is v c → vec_fits o c →
  vec_agree (vec_exec dflt o v) (list_exec dflt o c).
Proof.
  destruct c as [l a]. intros [Hv Ha] Hf. cbn [fst snd] in *. pose proof (vec_rep_size _ _ Hv) as (Hs&?&?).
  destruct o as [x|n|i|n| |i| | |]; cbn [vec_exec list_exec vec_agree vec_fits fst] in *.
  - destruct (vec_push_back_rep v l x Hv Hf) as (v'&E&?). rewrite E. exists v'. split; [done|]. split; [done|by apply (push_has v x)].
  - destruct (vec_resize_rep dflt v l n Hv Hf) as (v'&E&?). rewrite E. exists v'. split; [done|]. split; [done|].
    rewrite (resize_has _ _ _ _ E), Ha, Hs. cbn [snd]. do 2 f_equal. apply eq_bool_prop_intro. rewrite Is_true_true, Is_true_true, Z.eqb_eq, Nat.eqb_eq. lia.
  - case_decide as Hi.
    + destruct (lookup_lt_is_Some_2 l i Hi) as [x Hx].
      pose proof Hv as Hv2. rewrite <-(take_drop_middle l i x Hx) in Hv2. apply vec_erase_rep in Hv2 as (v'&He&?).
      rewrite length_take, Nat.min_l in He by lia. rewrite He.
      exists v'. split; [done|]. split; [by rewrite delete_take_drop|]. by rewrite (erase_has _ _ _ He).
    + unfold erase. rewrite (proj2 (Z.ltb_ge _ _)) by lia. done.
  - unfold reserve. destruct (Z.ltb_spec (_capacity v) (Z.of_nat n)).
    + destruct (vec_realloc_rep v l n Hv Hf) as (v'&E&?&_). rewrite E. exists v'. split; [done|]. split; [by rewrite take_ge in * by lia|].
      rewrite (realloc_has _ _ _ E), Ha, (proj2 (Z.eqb_neq _ _)), (proj2 (Nat.ltb_lt _ _)) by lia. done.
    + exists v. split; [done|]. split; [done|]. cbn [snd]. destruct a; [done|]. cbn [orb]. rewrite Ha. symmetry. apply Nat.ltb_ge.
      unfold has_storage in Ha. destruct v as [[st|] c s]; [done|]. destruct Hv as (_&Hc&_). cbn in *. lia.
  - unfold shrink_to_fit. rewrite Hs.
    destruct (vec_realloc_rep v l (length l) Hv) as (v'&E&?&_); [lia|]. rewrite E.
    exists v'. split; [done|]. split; [by rewrite firstn_all in *|]. rewrite (realloc_has _ _ _ E), Ha. cbn [snd]. destruct a; [done|]. cbn [orb].
    unfold has_storage in Ha. destruct v as [[st|] c s]; [done|]. destruct Hv as (->&Hc&_). cbn in *. by rewrite Hc.
  - rewrite (vec_at_index_rep v l i Hv). destruct (l !! i) as [x|]; [by exists v|done].
  - rewrite (vec_front_rep v l Hv), Ha. destruct (l !! 0%nat) as [x|]; [by exists v|]. cbn [end_elem]. by destruct a.
  - rewrite (vec_back_rep v l Hv), Ha. destruct (l !! pred (length l)) as [x|]; [by exists v|]. cbn [end_elem]. by destruct a.
  - rewrite Hs. by exists v.
Qed.

Fixpoint vec_run (dflt : T) (os : list vec_op) (v : vector T) : outcome (list vec_out * vector T) :=
  match os with
  | [] => Done ([], v)
  | o :: os => '(a, v) ← vec_exec dflt o v; '(outs, v) ← vec_run dflt os v; Done (a :: outs, v)
  end.

Fixpoint list_run (dflt : T) (os : list vec_op) (c : contents) : outcome (list vec_out * contents) :=
  match os with
  | [] => Done ([], c)
  | o :: os => '(a, c) ← list_exec dflt o c; '(outs, c) ← list_run dflt os c; Done (a :: outs, c)
  end.

(** Every operation of a run fits the list it is applied to. *)
Fixpoint run_fits (dflt : T) (os : list vec_op) (c : contents) : Prop :=
  match os with
  | [] => True
  | o :: os => vec_fits o c ∧
      match list_exec dflt o c with Done (_, c) => run_fits dflt os c | _ => True end
  end.

Lemma vec_run_refines dflt os : ∀ v c, vec_is v c → run_fits dflt os c →
  vec_agree (vec_run dflt os v) (list_run dflt os c).
Proof.
  induction os as [|o os IH]; intros v c Hv Hf; cbn; [by exists v|].
  destruct Hf as [Hf Hfs]. pose proof (vec_exec_refines dflt o v c Hv Hf) as Ha.
  destruct (list_exec dflt o c) as [[a c']| | |]; cbn in *; [|by rewrite Ha|by rewrite Ha|done].
  destruct Ha as (v'&->&Hv'). cbn. specialize (IH v' c' Hv' Hfs).
  destruct (list_run dflt os c') as [[outs c'']| | |]; cbn in *; [|by rewrite IH|by rewrite IH|done].
  destruct IH as (v''&->&?). by exists v''.
Qed.
End refinement.

(** ** Theorems *)

(** C26: a vector is the list of its elements: every sequence of [push_back],
    [resize], [erase], [reserve], [shrink_to_fit], [at], [front], [back] and
    [size] on a new vector (with room left in [size_t] to double it) gives the
    results of the same sequence on a list, or fails the same assertion,
    whatever reallocations happen in between. No cell is read raw, destroyed
    twice or addressed outside the allocation, with one exception that the list
    has as well: [front] and [back] of an empty vector fail their assertion as
    long as nothing has ever been stored or reserved, and from then on read a
    cell that holds no element. *)
Theorem vector_refines_list {T} (dflt : T) (os : list (@vec_op T)) :
  run_fits dflt os ([], false) →
  vec_agree (vec_run dflt os vector_new) (list_run dflt os ([], false)).
Proof. intros. by apply vec_run_refines. Qed.

(** Copying a vector that has spare capacity keeps the capacity but only
    allocates cells for the elements, so the next [push_back] on the copy
    writes past its allocation. *)
Theorem vector_copy_push_overflows {T} (v : vector T) (l : list T) (x : T) :
  vec_rep v l → _size v < _capacity v →
  ∃ v', vector_copy v = Done v' ∧ push_back v' x = Undef.
Proof.
  intros Hv Hlt. pose proof (vec_rep_size _ _ Hv) as (Hs&?&?).
  destruct (vec_rep_storage _ _ Hv ltac:(lia)) as (n&->&?&?).
  unfold vector_copy. cbn [from_option id _storage _capacity _size] in *.
  rewrite <-live_raw, copy_cells_live by done. eexists. split; [done|].
  unfold push_back. cbn [_storage _capacity _size].
  rewrite (proj2 (Z.ltb_ge _ _)) by (rewrite u32_id; lia).
  cbn [mbind outcome_bind storage_cells _storage _size]. unfold cell_write, in_alloc.
  rewrite length_holes by (cbn; lia). rewrite Z.ltb_irrefl, andb_false_r. done.
Qed.

(** ** Witnesses *)

Definition sample_vec_ops : list (@vec_op Z) :=
  [VPush 1; VPush 2; VPush 3; VErase 1; VAt 1; VResize 5; VFront; VBack; VResize 2; VShrink; VSize; VResize 0; VBack].

Lemma vector_refines_list_witness :
  run_fits 0 sample_vec_ops ([], false) ∧
  vec_agree (vec_run 0 sample_vec_ops vector_new) (list_run 0 sample_vec_ops ([], false)) ∧
  list_run 0 sample_vec_ops ([], false) = Undef ∧ list_run 0 [VBack] (@nil Z, false) = Panic ∧
  (λ r, match r with Done (outs, _) => Some outs | _ => None end)
    (vec_run 0 (take 11 sample_vec_ops) vector_new) =
    Some [VONone; VONone; VONone; VONone; VOVal 3; VONone; VOVal 1; VOVal 0; VONone; VONone; VOSize 2].
Proof.
  assert (run_fits 0 sample_vec_ops ([], false)) as Hf by (vm_compute; repeat split).
  split; [exact Hf|]. split; [exact (vector_refines_list 0 sample_vec_ops Hf)|].
  split_and!; vm_compute; reflexivity.
Defined.

Lemma vector_copy_push_overflows_witness :
  ∃ v', vector_copy (mk_vector (Some [Some 7; None]) 2 1) = Done v' ∧ push_back v' 8 = Undef.
Proof.
  apply (vector_copy_push_overflows (mk_vector (Some [Some 7; None]) 2 1) [7] 8).
  - exact (vec_rep_live [7] 2 ltac:(cbn; lia) ltac:(lia)).
  - cbn. lia.
Defined.
