(* ===== verification/Ring.v ===== *)
(** * Ring buffers

    The representation shared by [kstd::circular_queue] (CircularQueue.v) and
    [kstd::queue] (Queue.v): an array of cells used as a ring, with the index
    of the front and of the back element.  [ring st sz f b l] says that the
    ring holds exactly the elements [l], front first, and that every other
    cell is raw memory. *)

From stdpp Require Import base numbers list option.
From S2P Require Import Prelude.

Local Open Scope Z_scope.

(** [a % b] on [size_t]: division by zero is undefined. *)
Definition umod (a b : Z) : outcome Z := if b =? 0 then Undef else Done (a mod b).

Lemma umod_Done a b : b ≠ 0 → umod a b = Done (a mod b).
Proof. unfold umod. intros. by rewrite (proj2 (Z.eqb_neq b 0)). Qed.

Section ring.
Context {T : Type}.
Implicit Types (st : cells T) (l : list T).

Definition ring (st : cells T) (sz f b : Z) (l : list T) : Prop :=
  let c := Z.of_nat (length st) in
  c < 2 ^ 32 ∧ sz = Z.of_nat (length l) ∧ sz ≤ c ∧
  (if decide (l = []) then f = 0 ∧ b = 0
   else 0 ≤ f < c ∧ b = (f + sz - 1) mod c) ∧
  (∀ j, 0 ≤ j < c → st !! Z.to_nat j = Some (l !! Z.to_nat ((j - f) mod c))).

(** The cell at distance [k] from [f] is cell [(f + k) mod c]. *)
Lemma ring_dist c f j k :
  0 ≤ j < c → 0 ≤ k < c → (j - f) mod c = k ↔ j = (f + k) mod c.
Proof.
  intros Hj Hk. split.
  - intros <-. rewrite Zplus_mod_idemp_r.
    replace (f + (j - f)) with j by lia. by rewrite Z.mod_small.
  - intros ->. rewrite Zminus_mod_idemp_l.
    replace (f + k - f) with k by lia. by apply Z.mod_small.
Qed.

Lemma ring_raw n : 0 ≤ n < 2 ^ 32 → ring (kcalloc n) 0 0 0 [].
Proof.
  intros Hn. unfold ring. rewrite length_kcalloc by lia.
  rewrite decide_True by done. split_and!; [lia|done|cbn; lia|done|done|].
  intros j Hj. rewrite lookup_nil. unfold kcalloc.
  apply lookup_replicate_2. lia.
Qed.

Lemma ring_bounds st sz f b l : ring st sz f b l →
  Z.of_nat (length st) < 2 ^ 32 ∧ sz = Z.of_nat (length l) ∧
  sz ≤ Z.of_nat (length st).
Proof. unfold ring. naive_solver. Qed.

(** An element is found in the cell that its distance gives. *)
Lemma ring_lookup st sz f b l (k : nat) x :
  ring st sz f b l → l !! k = Some x →
  st !! Z.to_nat ((f + Z.of_nat k) mod Z.of_nat (length st)) = Some (Some x).
Proof.
  intros (Hc & -> & Hsz & Hfb & Hst) Hk.
  pose proof (lookup_lt_Some _ _ _ Hk).
  set (c := Z.of_nat (length st)) in *.
  assert (0 ≤ (f + Z.of_nat k) mod c < c) as Hj by (apply Z.mod_pos_bound; lia).
  rewrite Hst by done.
  rewrite (proj2 (ring_dist c f _ (Z.of_nat k) Hj ltac:(lia))) by done.
  by rewrite Nat2Z.id, Hk.
Qed.

Lemma ring_front st sz f b x l :
  ring st sz f b (x :: l) → 0 ≤ f < Z.of_nat (length st) ∧
  st !! Z.to_nat f = Some (Some x).
Proof.
  intros Hr. pose proof Hr as (_ & _ & _ & Hfb & _).
  rewrite decide_False in Hfb by done. destruct Hfb as [Hf _].
  split; [done|]. pose proof (ring_lookup _ _ _ _ _ 0 x Hr eq_refl) as Hl.
  by rewrite Z.add_0_r, Z.mod_small in Hl.
Qed.

Lemma ring_back st sz f b x l :
  ring st sz f b (l ++ [x]) → 0 ≤ b < Z.of_nat (length st) ∧
  st !! Z.to_nat b = Some (Some x).
Proof.
  intros Hr. pose proof Hr as (_ & Hsz & ? & Hfb & _).
  rewrite decide_False in Hfb by (by destruct l). destruct Hfb as [Hf ->].
  rewrite length_app in Hsz. cbn in Hsz.
  split; [apply Z.mod_pos_bound; lia|].
  replace (f + sz - 1) with (f + Z.of_nat (length l)) by lia.
  apply (ring_lookup _ _ _ _ _ _ _ Hr). apply list_lookup_middle. done.
Qed.

(** Where [push_back] puts its element. *)
Definition ring_next (c sz b : Z) : Z := if sz =? 0 then 0 else (b + 1) mod c.

Lemma ring_push st sz f b l x :
  ring st sz f b l → sz < Z.of_nat (length st) →
  let b' := ring_next (Z.of_nat (length st)) sz b in
  0 ≤ b' < Z.of_nat (length st) ∧
  ring (<[Z.to_nat b' := Some x]> st) (sz + 1) (if sz =? 0 then 0 else f) b' (l ++ [x]).
Proof.
  intros Hr Hlt b'. pose proof Hr as (Hc & Hsz & _ & Hfb & Hst).
  set (c := Z.of_nat (length st)) in *.
  assert (0 ≤ (if sz =? 0 then 0 else f) < c ∧
    b' = ((if sz =? 0 then 0 else f) + sz) mod c) as [Hf Hb'].
  { unfold b', ring_next. destruct (decide (l = [])) as [->|Hl].
    - cbn in Hsz. subst sz. rewrite Z.eqb_refl, Z.add_0_l, Z.mod_0_l by lia. lia.
    - assert (sz ≠ 0) as Hne by (destruct l; cbn in *; [done|lia]).
      rewrite (proj2 (Z.eqb_neq sz 0)) by done. destruct Hfb as [? ->].
      split; [done|]. rewrite Zplus_mod_idemp_l. f_equal. lia. }
  assert (0 ≤ b' < c) as Hb by (rewrite Hb'; apply Z.mod_pos_bound; lia).
  split; [done|]. unfold ring. rewrite length_insert. fold c.
  rewrite decide_False by (by destruct l).
  rewrite length_app. cbn. split_and!; [lia|lia|lia|lia|lia| |].
  { rewrite Hb'. f_equal. lia. }
  set (f' := if sz =? 0 then 0 else f) in *.
  intros j Hj. destruct (decide (j = b')) as [->|Hne].
  - rewrite list_lookup_insert_eq by lia.
    rewrite (proj2 (ring_dist c f' b' sz Hb ltac:(lia))) by done.
    subst sz. rewrite Nat2Z.id. by rewrite list_lookup_middle.
  - rewrite list_lookup_insert_ne by lia. rewrite Hst by done.
    assert ((j - f') mod c ≠ sz) as Hd
      by (rewrite ring_dist by lia; congruence).
    f_equal. unfold f' in *. destruct (Z.eqb_spec sz 0) as [->|Hsz0].
    + destruct l; [|cbn in *; lia]. rewrite lookup_nil. symmetry.
      apply lookup_ge_None_2. cbn.
      pose proof (Z.mod_pos_bound (j - 0) c ltac:(lia)). lia.
    + destruct (decide ((j - f) mod c < sz)).
      * rewrite lookup_app_l; [done|]. pose proof (Z.mod_pos_bound (j - f) c). lia.
      * rewrite !lookup_ge_None_2; [done| |]; rewrite ?length_app; cbn; lia.
Qed.

Lemma ring_pop_front st sz f b x l :
  ring st sz f b (x :: l) →
  ring (<[Z.to_nat f := None]> st) (sz - 1)
    (if sz - 1 =? 0 then 0 else (f + 1) mod Z.of_nat (length st))
    (if sz - 1 =? 0 then 0 else b) l.
Proof.
  intros Hr. pose proof Hr as (Hc & Hsz & Hle & Hfb & Hst).
  rewrite decide_False in Hfb by done. destruct Hfb as [Hf Hb].
  set (c := Z.of_nat (length st)) in *. cbn in Hsz.
  unfold ring. rewrite length_insert. fold c.
  split_and!; [lia|lia|lia| |].
  { destruct (Z.eqb_spec (sz - 1) 0).
    - destruct l; [|cbn in *; lia]. by rewrite decide_True.
    - rewrite decide_False by (destruct l; cbn in *; [lia|done]).
      split; [apply Z.mod_pos_bound; lia|].
      rewrite Hb. replace ((f + 1) mod c + (sz - 1) - 1) with ((f + 1) mod c + (sz - 2)) by lia.
      rewrite Zplus_mod_idemp_l. f_equal. lia. }
  intros j Hj. destruct (Z.eqb_spec (sz - 1) 0) as [He|He].
  { destruct l; [|cbn in *; lia]. rewrite lookup_nil.
    destruct (decide (j = f)) as [->|].
    - rewrite list_lookup_insert_eq by lia. done.
    - rewrite list_lookup_insert_ne by lia. rewrite Hst by done. f_equal.
      apply lookup_ge_None_2. cbn.
      assert ((j - f) mod c ≠ 0).
      { rewrite ring_dist by lia. rewrite Z.add_0_r, Z.mod_small by lia. done. }
      pose proof (Z.mod_pos_bound (j - f) c). lia. }
  assert ((j - (f + 1) mod c) mod c = ((j - f) mod c - 1) mod c) as ->.
  { rewrite Zminus_mod_idemp_r, Zminus_mod_idemp_l. f_equal. lia. }
  destruct (decide (j = f)) as [->|Hne].
  - rewrite list_lookup_insert_eq by lia. f_equal. rewrite Z.sub_diag, Z.mod_0_l by lia.
    replace ((0 - 1) mod c) with (c - 1).
    + symmetry. apply lookup_ge_None_2. lia.
    + rewrite <-(Z_mod_plus_full (0 - 1) 1 c), Z.mod_small; lia.
  - rewrite list_lookup_insert_ne by lia. rewrite Hst by done. f_equal.
    assert ((j - f) mod c ≠ 0) as Hd.
    { rewrite ring_dist by lia. rewrite Z.add_0_r, Z.mod_small by lia. done. }
    pose proof (Z.mod_pos_bound (j - f) c ltac:(lia)).
    rewrite (Z.mod_small ((j - f) mod c - 1)) by lia.
    replace (Z.to_nat ((j - f) mod c)) with (S (Z.to_nat ((j - f) mod c - 1))) by lia.
    done.
Qed.

Lemma ring_pop_back st sz f b x l :
  ring st sz f b (l ++ [x]) →
  ring (<[Z.to_nat b := None]> st) (sz - 1)
    (if sz - 1 =? 0 then 0 else f)
    (if sz - 1 =? 0 then 0 else if b =? 0 then Z.of_nat (length st) - 1 else b - 1) l.
Proof.
  intros Hr. pose proof Hr as (Hc & Hsz & Hle & Hfb & Hst).
  destruct (ring_back _ _ _ _ _ _ Hr) as [Hb _].
  rewrite decide_False in Hfb by (by destruct l). destruct Hfb as [Hf Hbe].
  set (c := Z.of_nat (length st)) in *. rewrite length_app in Hsz. cbn in Hsz.
  unfold ring. rewrite length_insert. fold c.
  split_and!; [lia|lia|lia| |].
  { destruct (Z.eqb_spec (sz - 1) 0).
    - destruct l; [|cbn in *; lia]. by rewrite decide_True.
    - rewrite decide_False by (destruct l; cbn in *; [lia|done]).
      split; [done|].
      replace (f + (sz - 1) - 1) with ((f + sz - 1) - 1) by lia.
      rewrite <-(Zminus_mod_idemp_l (f + sz - 1)), <-Hbe.
      destruct (Z.eqb_spec b 0) as [->|].
      + rewrite <-(Z_mod_plus_full (0 - 1) 1 c), Z.mod_small; lia.
      + rewrite Z.mod_small; lia. }
  assert (b = (f + (sz - 1)) mod c) as Hbd by (rewrite Hbe; f_equal; lia).
  assert ((b - f) mod c = sz - 1) as Hdist by (apply ring_dist; lia).
  intros j Hj. destruct (decide (j = b)) as [->|Hne].
  - rewrite list_lookup_insert_eq by lia. f_equal. symmetry.
    apply lookup_ge_None_2. destruct (Z.eqb_spec (sz - 1) 0); [|lia].
    pose proof (Z.mod_pos_bound (b - 0) c). lia.
  - rewrite list_lookup_insert_ne by lia. rewrite Hst by done. f_equal.
    assert ((j - f) mod c ≠ sz - 1) by (rewrite ring_dist by lia; congruence).
    destruct (Z.eqb_spec (sz - 1) 0) as [He|He].
    + destruct l; [|cbn in *; lia]. rewrite lookup_nil. apply lookup_ge_None_2. cbn.
      pose proof (Z.mod_pos_bound (j - f) c). lia.
    + destruct (decide ((j - f) mod c < sz - 1)).
      * rewrite lookup_app_l; [done|]. pose proof (Z.mod_pos_bound (j - f) c). lia.
      * rewrite !lookup_ge_None_2; [done| |]; rewrite ?length_app; cbn; lia.
Qed.

(** *** Rings being destroyed from the front *)

(** The cells once the first [i] elements of [l] are destroyed. *)
Definition ring_cut (st : cells T) (f i : Z) (l : list T) : Prop :=
  let c := Z.of_nat (length st) in
  ∀ j, 0 ≤ j < c →
    let d := (j - f) mod c in
    st !! Z.to_nat j = Some (if d <? i then None else l !! Z.to_nat d).

Lemma ring_cut_start st sz f b l : ring st sz f b l → ring_cut st f 0 l.
Proof.
  intros (_&_&_&_&Hst). unfold ring_cut. cbv zeta. set (c := Z.of_nat (length st)) in *.
  intros j Hj. rewrite Hst by done. set (d := (j - f) mod c).
  pose proof (Z.mod_pos_bound (j - f) c ltac:(lia)).
  by rewrite (proj2 (Z.ltb_ge d 0)) by (unfold d; lia).
Qed.

Lemma ring_cut_step st f i l x :
  ring_cut st f i l → 0 ≤ i < Z.of_nat (length st) → l !! Z.to_nat i = Some x →
  let j0 := (f + i) mod Z.of_nat (length st) in
  0 ≤ j0 < Z.of_nat (length st) ∧ st !! Z.to_nat j0 = Some (Some x) ∧
  ring_cut (<[Z.to_nat j0 := None]> st) f (i + 1) l.
Proof.
  intros Hst Hi Hx j0. unfold ring_cut in *. cbv zeta in *. rewrite length_insert.
  set (c := Z.of_nat (length st)) in *.
  assert (0 ≤ j0 < c) as Hj0 by (apply Z.mod_pos_bound; lia).
  assert ((j0 - f) mod c = i) as Hd0 by (apply ring_dist; lia).
  split; [done|]. split; [by rewrite Hst, Hd0, Z.ltb_irrefl, Hx by done|].
  intros j Hj. set (d := (j - f) mod c). destruct (decide (j = j0)) as [->|Hne].
  - rewrite list_lookup_insert_eq by lia. unfold d. rewrite Hd0.
    by rewrite (proj2 (Z.ltb_lt _ _)) by lia.
  - rewrite list_lookup_insert_ne by lia. rewrite Hst by done. fold d. f_equal.
    assert (d ≠ i) by (intros Hdi; apply ring_dist in Hdi; [done|lia..]).
    destruct (Z.ltb_spec d i), (Z.ltb_spec d (i + 1)); lia || done.
Qed.

Lemma ring_cut_end st f l :
  ring_cut st f (Z.of_nat (length l)) l → st = replicate (length st) None.
Proof.
  intros Hst. apply list_eq. intros j. destruct (decide (j < length st)%nat) as [Hj|Hj].
  - rewrite lookup_replicate_2 by done.
    specialize (Hst (Z.of_nat j) ltac:(lia)). cbn in Hst. rewrite Nat2Z.id in Hst.
    rewrite Hst. f_equal. case_match; [done|]. apply lookup_ge_None_2. zbool; lia.
  - rewrite !lookup_ge_None_2; [done| |]; rewrite ?length_replicate; lia.
Qed.
End ring.
