(* ===== verification/CircularQueue.v ===== *)
(** * kstd::circular_queue (kernel/kstd/circular_queue.hpp)

    The fixed-capacity ring buffer behind pipes, the TTYs and the keyboard.
    The operations are translated one by one; [repr] ties a queue to the list
    of its elements and the refinement theorems say that every operation is the
    operation of a bounded double-ended queue.  The copy operations do not
    respect the ring: [cq_copy_push_overflows] shows what they do to a
    queue that is not full. *)

From stdpp Require Import base numbers list option.
From S2P Require Import Prelude.
From S2P Require Import Ring.

Local Open Scope Z_scope.

Record circular_queue (T : Type) : Type := mk_circular_queue {
  _storage : cells T;
  _capacity : Z;
  _size : Z;
  _front : Z;
  _back : Z;
}.
Arguments mk_circular_queue {T} _ _ _ _ _.
Arguments _storage {T} _.
Arguments _capacity {T} _.
Arguments _size {T} _.
Arguments _front {T} _.
Arguments _back {T} _.

Section ops.
Context {T : Type}.
Implicit Types (q : circular_queue T).

Definition circular_queue_new (capacity : Z) : circular_queue T :=
  mk_circular_queue (kcalloc capacity) capacity 0 0 0.

Definition empty q : bool := _size q =? 0.
Definition size q : Z := _size q.
Definition capacity q : Z := _capacity q.
Definition front q : outcome T := cell_read (_storage q) (_front q).
Definition back q : outcome T := cell_read (_storage q) (_back q).

Definition push_back q (elem : T) : outcome (bool * circular_queue T) :=
  if size q =? _capacity q then Done (false, q)
  else
    '(f, b) ← (if _size q =? 0 then Done (0, 0)
               else b ← umod (u32 (_back q + 1)) (_capacity q); Done (_front q, b));
    st ← cell_write (_storage q) b elem;
    Done (true, mk_circular_queue st (_capacity q) (u32 (_size q + 1)) f b).

Definition pop_front q : outcome (T * circular_queue T) :=
  ret ← cell_read (_storage q) (_front q);
  st ← cell_destroy (_storage q) (_front q);
  let sz := u32 (_size q - 1) in
  '(f, b) ← (if sz =? 0 then Done (0, 0)
             else f ← umod (u32 (_front q + 1)) (_capacity q); Done (f, _back q));
  Done (ret, mk_circular_queue st (_capacity q) sz f b).

Definition pop_back q : outcome (T * circular_queue T) :=
  ret ← cell_read (_storage q) (_back q);
  st ← cell_destroy (_storage q) (_back q);
  let sz := u32 (_size q - 1) in
  let '(f, b) :=
    if sz =? 0 then (0, 0)
    else if _back q =? 0 then (_front q, u32 (_capacity q - 1))
    else (_front q, u32 (_back q - 1)) in
  Done (ret, mk_circular_queue st (_capacity q) sz f b).

(** [for(i = 0; i < n; i++) new (&dst[i]) T(src[i])]. *)
Fixpoint copy_cells (n : nat) (i : Z) (dst src : cells T) : outcome (cells T) :=
  match n with
  | O => Done dst
  | S n =>
      v ← cell_read src i;
      dst ← cell_write dst i v;
      copy_cells n (i + 1) dst src
  end.

(** [for(i = 0; i < n; i++) st[i].~T()]. *)
Fixpoint destroy_cells (n : nat) (i : Z) (st : cells T) : outcome (cells T) :=
  match n with
  | O => Done st
  | S n => st ← cell_destroy st i; destroy_cells n (i + 1) st
  end.

(** [circular_queue(circular_queue<T>& other)]. *)
Definition circular_queue_copy (other : circular_queue T) : outcome (circular_queue T) :=
  st ← copy_cells (Z.to_nat (_size other)) 0 (kcalloc (_size other)) (_storage other);
  Done (mk_circular_queue st (_capacity other) (_size other) (_front other) (_back other)).

(** [circular_queue(circular_queue<T>&& other)]: the new queue and what is
    left of [other]. *)
Definition circular_queue_move (other : circular_queue T)
    : circular_queue T * circular_queue T :=
  (mk_circular_queue (_storage other) (_capacity other) (_size other)
     (_front other) (_back other),
   mk_circular_queue [] 0 0 0 0).

(** [operator=(const circular_queue<T>& other)], [this != &other]. *)
Definition assign_copy q (other : circular_queue T) : outcome (circular_queue T) :=
  _ ← destroy_cells (Z.to_nat (_size q)) 0 (_storage q);
  st ← copy_cells (Z.to_nat (_size other)) 0 (kcalloc (_capacity other)) (_storage other);
  Done (mk_circular_queue st (_capacity other) (_size other) (_front other) (_back other)).

(** [operator=(circular_queue<T>&& other)], [this != &other]. *)
Definition assign_move q (other : circular_queue T)
    : outcome (circular_queue T * circular_queue T) :=
  _ ← destroy_cells (Z.to_nat (_size q)) 0 (_storage q);
  Done (mk_circular_queue (_storage other) (_capacity other) (_size other)
          (_front other) (_back other),
        mk_circular_queue [] 0 0 0 0).

(** [~circular_queue()]: the cells when [kfree] is called. *)
Fixpoint destructor_loop (n : nat) (i : Z) q (st : cells T) : outcome (cells T) :=
  match n with
  | O => Done st
  | S n =>
      j ← umod (u32 (_front q + i)) (_capacity q);
      st ← cell_destroy st j;
      destructor_loop n (i + 1) q st
  end.
Definition destructor q : outcome (cells T) :=
  destructor_loop (Z.to_nat (_size q)) 0 q (_storage q).
End ops.

(** ** The elements of a queue *)

Section repr.
Context {T : Type}.
Implicit Types (q : circular_queue T) (l : list T).

(** [q] holds [l], front first. *)
Definition repr q l : Prop :=
  _capacity q = Z.of_nat (length (_storage q)) ∧
  ring (_storage q) (_size q) (_front q) (_back q) l.

Lemma cq_repr_new n : 0 ≤ n < 2 ^ 32 → repr (circular_queue_new n) [].
Proof. intros. split; cbn; [by rewrite length_kcalloc by lia|by apply ring_raw]. Qed.

Lemma cq_repr_size q l : repr q l → _size q = Z.of_nat (length l) ∧
  Z.of_nat (length l) ≤ _capacity q < 2 ^ 32.
Proof. intros [-> (?&?&?)%ring_bounds]. lia. Qed.

Lemma cq_push_back_full q l x :
  repr q l → Z.of_nat (length l) = _capacity q → push_back q x = Done (false, q).
Proof.
  intros [? ?]%cq_repr_size ?. unfold push_back, size. by rewrite (proj2 (Z.eqb_eq _ _)) by lia.
Qed.

Lemma cq_push_back_repr q l x :
  repr q l → Z.of_nat (length l) < _capacity q →
  ∃ q', push_back q x = Done (true, q') ∧ _capacity q' = _capacity q ∧ repr q' (l ++ [x]).
Proof.
  intros Hr Hlt. pose proof (cq_repr_size _ _ Hr) as [Hsz Hc]. destruct Hr as [Hcap Hr].
  destruct (ring_push _ _ _ _ _ x Hr ltac:(lia)) as [Hb' Hr'].
  unfold push_back, size. rewrite (proj2 (Z.eqb_neq _ _)) by lia.
  unfold ring_next in *. rewrite <-Hcap in *.
  destruct (Z.eqb_spec (_size q) 0) as [He|He]; cbn.
  - rewrite cell_write_Done by lia. cbn. eexists. split; [done|]. split; [done|].
    split; cbn; [by rewrite length_insert|]. rewrite u32_id by lia. done.
  - assert (0 ≤ _back q < _capacity q).
    { destruct Hr as (_&_&_&Hfb&_). rewrite decide_False in Hfb by (by intros ->).
      destruct Hfb as [_ ->]. rewrite Hcap. apply Z.mod_pos_bound. lia. }
    rewrite umod_Done by lia. cbn. rewrite (u32_id (_back q + 1)) by lia.
    rewrite cell_write_Done by lia. cbn. eexists. split; [done|]. split; [done|].
    split; cbn; [by rewrite length_insert|]. by rewrite u32_id by lia.
Qed.

Lemma cq_pop_front_repr q x l :
  repr q (x :: l) →
  ∃ q', pop_front q = Done (x, q') ∧ _capacity q' = _capacity q ∧ repr q' l.
Proof.
  intros Hr. pose proof (cq_repr_size _ _ Hr) as [Hsz Hc]. destruct Hr as [Hcap Hr].
  cbn in Hsz, Hc. destruct (ring_front _ _ _ _ _ _ Hr) as [Hf Hx].
  pose proof (ring_pop_front _ _ _ _ _ _ Hr) as Hr'. rewrite <-Hcap in *.
  unfold pop_front. rewrite (cell_read_Done _ _ x) by (lia || done).
  cbn. rewrite (cell_destroy_Done _ _ x) by (lia || done). cbn. rewrite (u32_id (_size q - 1)) by lia.
  destruct (Z.eqb_spec (_size q - 1) 0); cbn.
  - eexists. split; [done|]. split; [done|]. split; cbn; [by rewrite length_insert|done].
  - rewrite umod_Done by lia. cbn. rewrite u32_id by lia.
    eexists. split; [done|]. split; [done|]. split; cbn; [by rewrite length_insert|done].
Qed.

Lemma cq_pop_back_repr q x l :
  repr q (l ++ [x]) →
  ∃ q', pop_back q = Done (x, q') ∧ _capacity q' = _capacity q ∧ repr q' l.
Proof.
  intros Hr. pose proof (cq_repr_size _ _ Hr) as [Hsz Hc]. destruct Hr as [Hcap Hr].
  rewrite length_app in Hsz, Hc. cbn in Hsz, Hc.
  destruct (ring_back _ _ _ _ _ _ Hr) as [Hb Hx].
  pose proof (ring_pop_back _ _ _ _ _ _ Hr) as Hr'. rewrite <-Hcap in *.
  unfold pop_back. rewrite (cell_read_Done _ _ x) by (lia || done).
  cbn. rewrite (cell_destroy_Done _ _ x) by (lia || done). cbn. rewrite (u32_id (_size q - 1)) by lia.
  destruct (Z.eqb_spec (_size q - 1) 0); cbn; [|destruct (Z.eqb_spec (_back q) 0)];
    (eexists; split; [done|]; split; [done|]; split; cbn;
     [by rewrite length_insert|rewrite ?u32_id by lia; done]).
Qed.

Lemma cq_front_repr q x l : repr q (x :: l) → front q = Done x.
Proof. intros [_ [? ?]%ring_front]. apply cell_read_Done; [lia|done]. Qed.

Lemma cq_back_repr q x l : repr q (l ++ [x]) → back q = Done x.
Proof. intros [_ [? ?]%ring_back]. apply cell_read_Done; [lia|done]. Qed.

Lemma cq_empty_repr q l : repr q l → empty q = bool_decide (l = []).
Proof.
  intros [Hsz _]%cq_repr_size. unfold empty. rewrite Hsz.
  destruct l; [by rewrite bool_decide_true|].
  rewrite bool_decide_false by done. cbn. by rewrite (proj2 (Z.eqb_neq _ _)) by lia.
Qed.
End repr.

(** ** Refinement of a bounded double-ended queue *)

Section spec.
Context {T : Type}.

Inductive deque_op := PushBack (x : T) | PopFront | PopBack.
Inductive deque_ret := RBool (b : bool) | RElem (x : T).

(** A deque of at most [cap] elements; popping from an empty one is outside
    the contract. *)
Definition spec_step (cap : Z) (l : list T) (o : deque_op) : option (deque_ret * list T) :=
  match o with
  | PushBack x =>
      if Z.of_nat (length l) <? cap then Some (RBool true, l ++ [x]) else Some (RBool false, l)
  | PopFront => match l with [] => None | x :: l => Some (RElem x, l) end
  | PopBack =>
      match reverse l with [] => None | x :: l => Some (RElem x, reverse l) end
  end.

Fixpoint spec_run (cap : Z) (l : list T) (os : list deque_op)
    : option (list deque_ret * list T) :=
  match os with
  | [] => Some ([], l)
  | o :: os =>
      '(r, l) ← spec_step cap l o;
      '(rs, l) ← spec_run cap l os;
      Some (r :: rs, l)
  end.

Definition impl_step (q : circular_queue T) (o : deque_op)
    : outcome (deque_ret * circular_queue T) :=
  match o with
  | PushBack x => '(b, q) ← push_back q x; Done (RBool b, q)
  | PopFront => '(x, q) ← pop_front q; Done (RElem x, q)
  | PopBack => '(x, q) ← pop_back q; Done (RElem x, q)
  end.

Fixpoint impl_run (q : circular_queue T) (os : list deque_op)
    : outcome (list deque_ret * circular_queue T) :=
  match os with
  | [] => Done ([], q)
  | o :: os =>
      '(r, q) ← impl_step q o;
      '(rs, q) ← impl_run q os;
      Done (r :: rs, q)
  end.

Lemma cq_step_refines q l o r l' :
  repr q l → spec_step (_capacity q) l o = Some (r, l') →
  ∃ q', impl_step q o = Done (r, q') ∧ _capacity q' = _capacity q ∧ repr q' l'.
Proof.
  intros Hr Hs. destruct o as [x| |]; cbn in *.
  - pose proof (cq_repr_size _ _ Hr). destruct (Z.ltb_spec (Z.of_nat (length l)) (_capacity q)).
    + simplify_eq. destruct (cq_push_back_repr q l x Hr) as (q'&->&?&?); [lia|].
      cbn. eauto.
    + simplify_eq. rewrite (cq_push_back_full _ _ _ Hr) by lia. cbn. eauto.
  - destruct l as [|x l]; [done|]. simplify_eq.
    destruct (cq_pop_front_repr _ _ _ Hr) as (q'&->&?&?). cbn. eauto.
  - destruct l as [|x l _] using rev_ind; [done|].
    rewrite reverse_snoc in Hs. simplify_eq. rewrite reverse_involutive.
    destruct (cq_pop_back_repr _ _ _ Hr) as (q'&->&?&?). cbn. eauto.
Qed.

Lemma cq_run_simulates os : ∀ q l rs l',
  repr q l → spec_run (_capacity q) l os = Some (rs, l') →
  ∃ q', impl_run q os = Done (rs, q') ∧ repr q' l'.
Proof.
  induction os as [|o os IH]; intros q l rs l' Hr Hs; cbn in *.
  - simplify_eq. eauto.
  - apply bind_Some in Hs as ([r l1]&Ho&Hs). apply bind_Some in Hs as ([rs1 l2]&Hs&Heq).
    simplify_eq. destruct (cq_step_refines _ _ _ _ _ Hr Ho) as (q1&->&Hc&Hr1).
    cbn. rewrite <-Hc in Hs. destruct (IH _ _ _ _ Hr1 Hs) as (q2&->&?). cbn. eauto.
Qed.

(** C27: every sequence of operations on a new [circular_queue] of capacity
    [cap] returns, without undefined behaviour, exactly what a double-ended
    queue bounded by [cap] returns, and ends holding the same elements; a
    push on a full queue returns [false] and changes nothing. *)
Theorem circular_queue_refines_deque cap os rs l :
  0 ≤ cap < 2 ^ 32 → spec_run cap [] os = Some (rs, l) →
  ∃ q, impl_run (circular_queue_new cap) os = Done (rs, q) ∧ repr q l.
Proof.
  intros Hc. apply (cq_run_simulates os (circular_queue_new cap) []). by apply cq_repr_new.
Qed.
End spec.
Arguments deque_op T : clear implicits.
Arguments deque_ret T : clear implicits.

Lemma circular_queue_refines_deque_witness :
  ∃ q, impl_run (circular_queue_new 2)
         [PushBack 1; PushBack 2; PushBack 3; PopFront; PushBack 4; PopBack; PopFront]
       = Done ([RBool true; RBool true; RBool false; RElem 1; RBool true; RElem 4; RElem 2], q)
       ∧ repr q [].
Proof. apply (circular_queue_refines_deque 2 _ _ []); [lia|reflexivity]. Defined.

(** ** Destruction and copies *)

Section lifetime.
Context {T : Type}.
Implicit Types (q : circular_queue T).

Lemma cq_destructor_loop q l n : ∀ i st,
  ring_cut st (_front q) i l → Z.of_nat (length st) = _capacity q →
  0 ≤ i → i + Z.of_nat n = Z.of_nat (length l) →
  0 ≤ _front q ≤ _capacity q → Z.of_nat (length l) ≤ _capacity q < 2 ^ 31 →
  ∃ st', destructor_loop n i q st = Done st' ∧ length st' = length st ∧
    ring_cut st' (_front q) (Z.of_nat (length l)) l.
Proof.
  induction n as [|n IH]; intros i st Hd Hlen Hi Hn Hf Hc; cbn [destructor_loop].
  { exists st. by replace (Z.of_nat (length l)) with i by lia. }
  rewrite umod_Done by lia. cbn. rewrite u32_id by lia.
  destruct (lookup_lt_is_Some_2 l (Z.to_nat i)) as [x Hx]; [lia|].
  destruct (ring_cut_step _ _ _ _ _ Hd ltac:(lia) Hx) as (Hj&Hc0&Hd').
  rewrite Hlen in *. rewrite (cell_destroy_Done _ _ x) by (lia || done). cbn.
  destruct (IH (i + 1) _ Hd') as (st'&?&Hl'&?); [rewrite length_insert; lia|lia..|].
  exists st'. rewrite length_insert in Hl'. done.
Qed.

(** Destroying a queue destroys each of its elements exactly once and
    leaves no live object behind. *)
Theorem cq_destructor_destroys_all q l :
  repr q l → _capacity q < 2 ^ 31 →
  destructor q = Done (replicate (length (_storage q)) None).
Proof.
  intros Hr Hc. pose proof (cq_repr_size _ _ Hr) as [Hsz Hle].
  destruct Hr as [Hcap Hr]. pose proof Hr as (_&_&_&Hfb&_).
  destruct (cq_destructor_loop q l (length l) 0 (_storage q)) as (st'&Hrun&Hlen&Hst');
    [by eapply ring_cut_start|lia|lia|lia|destruct (decide (l = [])); lia|lia|].
  unfold destructor. rewrite Hsz, Nat2Z.id, Hrun. f_equal. rewrite <-Hlen.
  by eapply ring_cut_end.
Qed.

Lemma cq_copy_cells (l : list T) (src : cells T) n : ∀ k dst,
  (k + n = length l)%nat → (∀ j x, l !! j = Some x → src !! j = Some (Some x)) →
  (length l ≤ length dst)%nat →
  copy_cells n (Z.of_nat k) dst src =
    Done (take k dst ++ (Some <$> drop k l) ++ drop (length l) dst).
Proof.
  induction n as [|n IH]; intros k dst Hk Hsrc Hlen; cbn [copy_cells].
  - rewrite drop_ge by lia. cbn. replace (length l) with k by lia. by rewrite take_drop.
  - destruct (lookup_lt_is_Some_2 l k) as [x Hx]; [lia|].
    rewrite (cell_read_Done _ _ x) by (rewrite ?Nat2Z.id; auto with lia). cbn.
    rewrite cell_write_Done by lia. cbn. rewrite Nat2Z.id.
    replace (Z.of_nat k + 1) with (Z.of_nat (S k)) by lia.
    rewrite IH by (rewrite ?length_insert; auto with lia). f_equal.
    rewrite (drop_S _ _ _ Hx), fmap_cons.
    rewrite drop_insert_lt by lia. rewrite (take_S_r _ _ (Some x)).
    + rewrite take_insert_ge by lia. by rewrite <-app_assoc.
    + apply list_lookup_insert_eq. lia.
Qed.

(** The cells of a queue whose front is cell 0. *)
Lemma cq_repr_front0 q l : repr q l → _front q = 0 →
  ∀ j x, l !! j = Some x → _storage q !! j = Some (Some x).
Proof.
  intros [Hcap Hr] Hf j x Hj. pose proof (ring_lookup _ _ _ _ _ _ _ Hr Hj) as Hl.
  pose proof (lookup_lt_Some _ _ _ Hj). destruct (ring_bounds _ _ _ _ _ Hr) as (?&?&?).
  rewrite Hf, Z.add_0_l, Z.mod_small, Nat2Z.id in Hl by lia. done.
Qed.

(** The copy constructor allocates only [_size] cells but keeps
    [_capacity]: after copying a queue that is not full, the first push
    writes outside the copy's storage. *)
Theorem cq_copy_push_overflows q l x :
  repr q l → _front q = 0 → Z.of_nat (length l) < _capacity q →
  ∃ q', circular_queue_copy q = Done q' ∧ push_back q' x = Undef.
Proof.
  intros Hr Hf Hlt. pose proof (cq_repr_size _ _ Hr) as [Hsz Hle].
  unfold circular_queue_copy. rewrite Hsz, Nat2Z.id.
  rewrite (cq_copy_cells l _ _ 0 _) by
    (eauto using cq_repr_front0 || unfold kcalloc; rewrite ?length_replicate; lia).
  cbn. eexists. split; [done|]. unfold push_back, size. cbn.
  rewrite (proj2 (Z.eqb_neq _ _)) by lia.
  rewrite (drop_ge (kcalloc _)) by (unfold kcalloc; rewrite length_replicate; lia).
  rewrite app_nil_r. destruct Hr as [Hcap (_&_&_&Hfb&_)].
  destruct (decide (l = [])) as [->|Hne]; cbn; [done|].
  rewrite (proj2 (Z.eqb_neq _ _)) by (destruct l; cbn; [done|lia]).
  rewrite <-Hcap in Hfb. destruct Hfb as [_ Hb].
  rewrite Hf, Hsz, Z.mod_small in Hb by (destruct l; cbn in *; [done|lia]).
  rewrite Hb, umod_Done by lia. cbn.
  rewrite (u32_id (0 + Z.of_nat (length l) - 1 + 1)) by lia.
  rewrite Z.mod_small by lia. unfold cell_write, in_alloc.
  rewrite length_app, length_fmap, length_take, drop_0. 
  rewrite (proj2 (Z.ltb_ge _ _)) by lia. by rewrite andb_false_r.
Qed.

Lemma cq_move_repr q l : repr q l →
  repr (circular_queue_move q).1 l ∧ repr (circular_queue_move q).2 [].
Proof.
  intros Hr. split; [by destruct q|]. split; [done|]. apply (ring_raw 0). lia.
Qed.
End lifetime.

Lemma cq_copy_push_overflows_witness :
  ∃ q', circular_queue_copy (circular_queue_new 4096 : circular_queue Z) = Done q' ∧
        push_back q' 7 = Undef.
Proof.
  apply (cq_copy_push_overflows _ []); [apply cq_repr_new; lia|done|cbn; lia].
Defined.

Lemma cq_destructor_destroys_all_witness :
  destructor (circular_queue_new 3 : circular_queue Z) = Done [None; None; None].
Proof.
  apply (cq_destructor_destroys_all (circular_queue_new 3) []); [apply cq_repr_new; lia|cbn; lia].
Defined.

(** Copying after the front has moved reads a destroyed cell. *)
Example cq_copy_rotated :
  ('(_, q) ← push_back (circular_queue_new 2) 1;
   '(_, q) ← push_back q 2;
   '(_, q) ← pop_front q;
   circular_queue_copy q) = Undef.
Proof. reflexivity. Qed.
