(* ===== verification/Queue.v ===== *)
(** * kstd::queue (kernel/kstd/queue.hpp)

    The growable ring buffer: the thread queues of the scheduler, the byte
    queues of sockets and terminals.  It shares the ring representation of
    Ring.v; [realloc] moves the elements to the start of a new allocation. *)

From stdpp Require Import base numbers list option.
From S2P Require Import Prelude.
From S2P Require Import Cells.
From S2P Require Import Ring.

Local Open Scope Z_scope.

Record queue (T : Type) : Type := mk_queue {
  _storage : option (cells T);
  _capacity : Z;
  _size : Z;
  _front : Z;
  _back : Z;
}.
Arguments mk_queue {T} _ _ _ _ _.
Arguments _storage {T} _.
Arguments _capacity {T} _.
Arguments _size {T} _.
Arguments _front {T} _.
Arguments _back {T} _.

Section ops.
Context {T : Type}.
Implicit Types (q : queue T).

(** Access through [_storage]: a null pointer has no cells. *)
Definition storage_cells q : cells T := default [] (_storage q).

Definition queue_new : queue T := mk_queue None 0 0 0 0.

Definition queue_copy (other : queue T) : outcome (queue T) :=
  st ← copy_cells (storage_cells other) (kcalloc (_size other)) (_size other);
  Done (mk_queue (Some st) (_capacity other) (_size other) (_front other) (_back other)).

Definition queue_move (other : queue T) : queue T * queue T :=
  (mk_queue (_storage other) (_capacity other) (_size other) (_front other) (_back other),
   mk_queue None 0 0 0 0).

(** The cells handed to [kfree]. *)
Definition destructor q : outcome (cells T) :=
  for_range (Z.to_nat (_size q)) 0
    (λ i st, j ← umod (u32 (_front q + i)) (_capacity q); cell_destroy st j)
    (storage_cells q).

(** One iteration of the move loop of [realloc]. *)
Definition realloc_step (front capacity : Z) (i : Z) (s : cells T * cells T)
    : outcome (cells T * cells T) :=
  let '(st, tmp) := s in
  old_index ← umod (u32 (front + i)) capacity;
  x ← cell_read st (s32 old_index);
  tmp ← cell_write tmp i x;
  st ← cell_destroy st (s32 old_index);
  Done (st, tmp).

Definition realloc q (new_capacity : Z) : outcome (queue T) :=
  if new_capacity =? _capacity q then Done q
  else match _storage q with
  | None =>
      Done (mk_queue (Some (kcalloc new_capacity)) new_capacity (_size q) (_front q) (_back q))
  | Some st =>
      '(st, sz) ← (if new_capacity <? _size q
                   then st ← destroy_cells st new_capacity (_size q); Done (st, new_capacity)
                   else Done (st, _size q));
      '(_, tmp) ← for_range (Z.to_nat sz) 0 (realloc_step (_front q) (_capacity q))
        (st, kcalloc new_capacity);
      Done (mk_queue (Some tmp) new_capacity sz 0 (u32 (sz - 1)))
  end.

Definition push_back q (elem : T) : outcome (queue T) :=
  q ← (if _size q =? _capacity q
       then realloc q (if _capacity q =? 0 then 1 else u32 (_capacity q * 2))
       else Done q);
  '(f, b) ← (if _size q =? 0 then Done (0, 0)
             else b ← umod (u32 (_back q + 1)) (_capacity q); Done (_front q, b));
  st ← cell_write (storage_cells q) b elem;
  Done (mk_queue (Some st) (_capacity q) (u32 (_size q + 1)) f b).

Definition pop_front q : outcome (T * queue T) :=
  _ ← kassert (negb (_size q =? 0));
  ret ← cell_read (storage_cells q) (_front q);
  st ← cell_destroy (storage_cells q) (_front q);
  let sz := _size q - 1 in
  '(f, b) ← (if sz =? 0 then Done (0, 0)
             else f ← umod (u32 (_front q + 1)) (_capacity q); Done (f, _back q));
  Done (ret, mk_queue (Some st) (_capacity q) sz f b).

Definition pop_back q : outcome (T * queue T) :=
  _ ← kassert (negb (_size q =? 0));
  ret ← cell_read (storage_cells q) (_back q);
  st ← cell_destroy (storage_cells q) (_back q);
  let sz := _size q - 1 in
  let '(f, b) :=
    if sz =? 0 then (0, 0)
    else if _back q =? 0 then (_front q, u32 (_capacity q - 1))
    else (_front q, u32 (_back q - 1)) in
  Done (ret, mk_queue (Some st) (_capacity q) sz f b).

Definition front q : outcome T :=
  _ ← kassert (negb (_size q =? 0)); cell_read (storage_cells q) (_front q).

Definition back q : outcome T :=
  _ ← kassert (negb (_size q =? 0)); cell_read (storage_cells q) (_back q).

Definition empty q : bool := _size q =? 0.

(** The [do ... while] of [contains]; [eqb] is the element's [operator==]. *)
Fixpoint contains_loop (eqb : T → T → bool) (fuel : nat) q (value : T) (i : Z) : outcome bool :=
  match fuel with
  | O => NoFuel
  | S fuel =>
      x ← cell_read (storage_cells q) i;
      if eqb x value then Done true
      else
        i ← umod (u32 (i + 1)) (_capacity q);
        stop ← umod (u32 (_back q + 1)) (_size q);
        if i =? stop then Done false else contains_loop eqb fuel q value i
  end.

Definition contains (eqb : T → T → bool) q (value : T) : outcome bool :=
  if empty q then Done false
  else contains_loop eqb (Z.to_nat (_capacity q)) q value (_front q).

Definition assign_copy q (other : queue T) : outcome (queue T) :=
  _ ← destroy_cells (storage_cells q) 0 (_size q);
  st ← copy_cells (storage_cells other) (kcalloc (_capacity other)) (_size other);
  Done (mk_queue (Some st) (_capacity other) (_size other) (_front other) (_back other)).

Definition assign_move q (other : queue T) : outcome (queue T * queue T) :=
  _ ← destroy_cells (storage_cells q) 0 (_size q);
  Done (mk_queue (_storage other) (_capacity other) (_size other) (_front other) (_back other),
        mk_queue None 0 0 0 0).
End ops.

(** ** The elements of a queue *)

Section repr.
Context {T : Type}.
Implicit Types (q : queue T) (l : list T).

(** [q] holds [l], front first. *)
Definition q_rep q l : Prop :=
  _capacity q = Z.of_nat (length (storage_cells q)) ∧ _capacity q < 2 ^ 31 ∧
  (_storage q = None ∨ 0 < _capacity q) ∧
  ring (storage_cells q) (_size q) (_front q) (_back q) l.

Lemma q_rep_new : q_rep queue_new [].
Proof.
  split_and!; [done|done|by left|]. apply (ring_raw 0). lia.
Qed.

Lemma q_rep_size q l : q_rep q l → _size q = Z.of_nat (length l) ∧
  Z.of_nat (length l) ≤ _capacity q < 2 ^ 31.
Proof. intros (->&?&_&(?&?&?)%ring_bounds). lia. Qed.

(** The ring of the elements moved to the start of an allocation. *)
Lemma ring_live l n : (0 < length l ≤ n)%nat → Z.of_nat n < 2 ^ 32 →
  ring (live l n) (Z.of_nat (length l)) 0 (Z.of_nat (length l) - 1) l.
Proof.
  intros Hl Hn. unfold ring. cbv zeta. rewrite length_holes by (cbn; lia).
  rewrite decide_False by (destruct l; cbn in *; [lia|done]).
  rewrite Z.mod_small by lia. split_and!; [lia|done|lia|lia|lia|lia|].
  intros j Hj. rewrite Z.sub_0_r, Z.mod_small by lia.
  destruct (l !! Z.to_nat j) as [x|] eqn:Hx; [by apply holes_lookup_left|].
  apply lookup_ge_None in Hx. unfold holes. cbn.
  rewrite lookup_app_r by (rewrite length_fmap; lia). apply lookup_replicate_2.
  rewrite length_fmap. lia.
Qed.

(** The loop of [realloc] moves every element. *)
Lemma q_realloc_loop st sz f b l c c' :
  ring st sz f b l → c = Z.of_nat (length st) → c < 2 ^ 31 → 0 ≤ f ≤ c → (length l ≤ c')%nat →
  ∃ st', for_range (length l) 0 (realloc_step f c) (st, live [] c') = Done (st', live l c').
Proof.
  intros Hr Hc Hc31 Hf Hc'. pose proof (ring_bounds _ _ _ _ _ Hr) as (?&?&?).
  destruct (for_range_inv (λ j s, ring_cut s.1 f (Z.of_nat j) l ∧
    Z.of_nat (length s.1) = c ∧ s.2 = live (take j l) c') (length l) (realloc_step f c) 0 (st, live [] c') 0)
    as ([st' tmp]&->&_&_&Ht).
  - split_and!; [by eapply ring_cut_start|done|done].
  - intros j [s tmp] Hj (Hcut&Hlen&Htmp). cbn [fst snd] in *. subst tmp. unfold realloc_step.
    replace (0 + Z.of_nat (j - 0)) with (Z.of_nat j) by lia.
    destruct (lookup_lt_is_Some_2 l j) as [x Hx]; [lia|].
    destruct (ring_cut_step _ _ (Z.of_nat j) _ x Hcut) as (Hj0&Hrd&Hcut'); [lia|by rewrite Nat2Z.id|].
    rewrite Hlen in *. rewrite umod_Done by lia. cbn [mbind outcome_bind].
    rewrite (u32_id (f + _)) by lia. rewrite s32_id by lia.
    rewrite (cell_read_Done _ _ x) by (lia || done). cbn [mbind outcome_bind].
    rewrite (take_S_r _ _ _ Hx).
    assert (cell_write (live (take j l) c') (Z.of_nat j) x = Done (live (take j l ++ [x]) c')) as ->.
    { rewrite <-write_end by (rewrite length_take; lia). f_equal. rewrite length_take. lia. }
    cbn [mbind outcome_bind]. rewrite (cell_destroy_Done _ _ x) by (lia || done).
    eexists. split; [done|]. cbn [fst snd]. rewrite length_insert.
    split_and!; [|done|done]. by replace (Z.of_nat (S j)) with (Z.of_nat j + 1) by lia.
  - cbn [snd Nat.add] in Ht. rewrite firstn_all in Ht. subst tmp. by exists st'.
Qed.

(** The index fields stay inside the allocation. *)
Lemma ring_index st sz f b l : ring st sz f b l → l ≠ [] →
  0 ≤ f < Z.of_nat (length st) ∧ 0 ≤ b < Z.of_nat (length st).
Proof.
  intros (_&->&?&Hfb&_) Hl. rewrite decide_False in Hfb by done. destruct Hfb as [? ->].
  split; [done|]. apply Z.mod_pos_bound. lia.
Qed.

(** The grown queue holds the same elements. *)
Lemma q_realloc_grow q l c : q_rep q l → _size q = _capacity q → _capacity q < c < 2 ^ 31 →
  ∃ q', realloc q c = Done q' ∧ _capacity q' = c ∧ _size q' = _size q ∧
    q_rep q' l.
Proof.
  intros Hq Hsz Hc. pose proof (q_rep_size _ _ Hq) as [Hs Hle]. destruct Hq as (Hcap&_&Hst&Hr).
  unfold realloc. rewrite (proj2 (Z.eqb_neq _ _)) by lia.
  destruct q as [[st|] cap sz f b]; cbn [storage_cells from_option id _storage _capacity _size _front _back] in *.
  - rewrite (proj2 (Z.ltb_ge _ _)) by lia. cbn [mbind outcome_bind].
    assert (0 ≤ f ≤ cap) as Hf.
    { destruct (decide (l = [])) as [->|Hl]; [destruct Hr as (_&_&_&[-> _]&_); lia|].
      destruct (ring_index _ _ _ _ _ Hr Hl). lia. }
    destruct (q_realloc_loop _ _ _ _ _ _ (Z.to_nat c) Hr Hcap) as (st'&Hl); [lia|done|lia|].
    rewrite live_raw, Z2Nat.id in Hl by lia. rewrite Hs, Nat2Z.id, Hl. eexists. split; [done|]. split_and!; [done|cbn; lia|].
    assert (0 < length l)%nat by (destruct Hst; [done|lia]).
    split_and!; cbn [_storage _capacity storage_cells from_option id _size _front _back];
      [rewrite length_holes by (cbn; lia); lia|lia|right; lia|].
    rewrite u32_id by lia. apply ring_live; lia.
  - eexists. split; [done|]. split_and!; [done..|]. cbn in Hcap.
    destruct l; [|cbn in *; lia].
    split_and!; cbn; [by rewrite length_kcalloc by lia|lia|right; lia|].
    destruct Hr as (_&->&_&[-> ->]&_). cbn. apply ring_raw. lia.
Qed.

Lemma q_push_back_rep q l x : q_rep q l → Z.of_nat (length l) < 2 ^ 29 →
  ∃ q', push_back q x = Done q' ∧ q_rep q' (l ++ [x]).
Proof.
  intros Hq Hl. pose proof (q_rep_size _ _ Hq) as [Hs Hle]. unfold push_back.
  assert (∃ q1, (if _size q =? _capacity q
    then realloc q (if _capacity q =? 0 then 1 else u32 (_capacity q * 2)) else Done q) = Done q1 ∧
    q_rep q1 l ∧ Z.of_nat (length l) < _capacity q1) as (q1&->&Hq1&Hlt).
  { destruct (Z.eqb_spec (_size q) (_capacity q)); [|exists q; split_and!; (done || lia)].
    set (c := if _capacity q =? 0 then 1 else u32 (_capacity q * 2)).
    assert (_capacity q < c < 2 ^ 31) as Hc by (unfold c; zbool; rewrite ?u32_id; lia).
    destruct (q_realloc_grow q l c Hq ltac:(done) Hc) as (q1&->&?&?&?). exists q1.
    split_and!; (done || lia). }
  clear q Hq Hs Hle. cbn [mbind outcome_bind].
  pose proof (q_rep_size _ _ Hq1) as [Hs Hle]. destruct Hq1 as (Hcap&_&_&Hr).
  destruct (ring_push _ _ _ _ _ x Hr ltac:(lia)) as [Hb' Hr']. unfold ring_next in *.
  rewrite <-Hcap in *.
  destruct (Z.eqb_spec (_size q1) 0) as [He|He]; cbn [mbind outcome_bind].
  - rewrite cell_write_Done by lia. eexists. split; [done|].
    split_and!; cbn; [by rewrite length_insert|lia|right; lia|]. by rewrite u32_id by lia.
  - destruct (ring_index _ _ _ _ _ Hr) as [??]; [by intros ->|].
    rewrite umod_Done by lia. cbn [mbind outcome_bind]. rewrite (u32_id (_back q1 + 1)) by lia.
    rewrite cell_write_Done by lia. eexists. split; [done|].
    split_and!; cbn; [by rewrite length_insert|lia|right; lia|]. by rewrite u32_id by lia.
Qed.

Lemma q_nonempty q l : q_rep q l → l ≠ [] → negb (_size q =? 0) = true ∧
  ∃ st, _storage q = Some st ∧ storage_cells q = st.
Proof.
  intros Hq Hl. pose proof (q_rep_size _ _ Hq) as [Hs Hle].
  assert (0 < length l)%nat by (destruct l; cbn; [done|lia]).
  rewrite (proj2 (Z.eqb_neq _ _)) by lia. split; [done|].
  destruct Hq as (Hc&_). unfold storage_cells in *. destruct (_storage q); [eauto|cbn in *; lia].
Qed.

Lemma q_pop_front_rep q x l : q_rep q (x :: l) →
  ∃ q', pop_front q = Done (x, q') ∧ q_rep q' l.
Proof.
  intros Hq. pose proof (q_rep_size _ _ Hq) as [Hs Hle].
  destruct (q_nonempty _ _ Hq) as [Hn _]; [done|]. destruct Hq as (Hcap&_&Hst&Hr).
  cbn in Hs, Hle. destruct (ring_front _ _ _ _ _ _ Hr) as [Hf Hx].
  pose proof (ring_pop_front _ _ _ _ _ _ Hr) as Hr'. rewrite <-Hcap in *.
  unfold pop_front. rewrite Hn. cbn [kassert mbind outcome_bind].
  rewrite (cell_read_Done _ _ x), (cell_destroy_Done _ _ x) by (lia || done).
  cbn [mbind outcome_bind]. destruct (Z.eqb_spec (_size q - 1) 0); cbn [mbind outcome_bind].
  - eexists. split; [done|]. split_and!; cbn; [by rewrite length_insert|lia|right; lia|done].
  - rewrite umod_Done by lia. rewrite u32_id by lia.
    eexists. split; [done|]. split_and!; cbn; [by rewrite length_insert|lia|right; lia|done].
Qed.

Lemma q_pop_back_rep q x l : q_rep q (l ++ [x]) →
  ∃ q', pop_back q = Done (x, q') ∧ q_rep q' l.
Proof.
  intros Hq. pose proof (q_rep_size _ _ Hq) as [Hs Hle].
  destruct (q_nonempty _ _ Hq) as [Hn _]; [by destruct l|]. destruct Hq as (Hcap&_&Hst&Hr).
  rewrite length_app in Hs, Hle. cbn in Hs, Hle.
  destruct (ring_back _ _ _ _ _ _ Hr) as [Hb Hx].
  pose proof (ring_pop_back _ _ _ _ _ _ Hr) as Hr'. rewrite <-Hcap in *.
  unfold pop_back. rewrite Hn. cbn [kassert mbind outcome_bind].
  rewrite (cell_read_Done _ _ x), (cell_destroy_Done _ _ x) by (lia || done).
  cbn [mbind outcome_bind].
  destruct (Z.eqb_spec (_size q - 1) 0); [|destruct (Z.eqb_spec (_back q) 0)];
    (eexists; split; [done|]; split_and!; cbn;
     [by rewrite length_insert|lia|right; lia|rewrite ?u32_id by lia; done]).
Qed.

Lemma q_front_rep q x l : q_rep q (x :: l) → front q = Done x.
Proof.
  intros Hq. destruct (q_nonempty _ _ Hq) as [Hn _]; [done|]. unfold front. rewrite Hn.
  destruct Hq as (_&_&_&[? ?]%ring_front). apply cell_read_Done; [lia|done].
Qed.

Lemma q_back_rep q x l : q_rep q (l ++ [x]) → back q = Done x.
Proof.
  intros Hq. destruct (q_nonempty _ _ Hq) as [Hn _]; [by destruct l|]. unfold back. rewrite Hn.
  destruct Hq as (_&_&_&[? ?]%ring_back). apply cell_read_Done; [lia|done].
Qed.

Lemma q_empty_rep q l : q_rep q l → empty q = match l with [] => true | _ => false end.
Proof.
  intros [Hs _]%q_rep_size. unfold empty. rewrite Hs. destruct l; [done|].
  cbn [length]. by rewrite (proj2 (Z.eqb_neq _ _)) by lia.
Qed.

Lemma q_destructor_rep q l : q_rep q l →
  destructor q = Done (replicate (length (storage_cells q)) None).
Proof.
  intros Hq. pose proof (q_rep_size _ _ Hq) as [Hs Hle]. destruct Hq as (Hcap&_&_&Hr).
  unfold destructor. rewrite Hs, Nat2Z.id.
  destruct (for_range_inv (λ j st, ring_cut st (_front q) (Z.of_nat j) l ∧
      length st = length (storage_cells q)) (length l)
    (λ i st, j ← umod (u32 (_front q + i)) (_capacity q); cell_destroy st j) 0
    (storage_cells q) 0) as (st&->&Hcut&<-).
  - split; [by eapply ring_cut_start|done].
  - intros j st Hj [Hcut Hlen]. replace (0 + Z.of_nat (j - 0)) with (Z.of_nat j) by lia.
    destruct (lookup_lt_is_Some_2 l j) as [x Hx]; [lia|].
    destruct (ring_index _ _ _ _ _ Hr) as [??]; [by intros ->|].
    destruct (ring_cut_step _ _ (Z.of_nat j) _ x Hcut) as (Hj0&Hrd&Hcut');
      [lia|by rewrite Nat2Z.id|].
    rewrite Hlen, <-Hcap in *. rewrite umod_Done by lia. cbn [mbind outcome_bind].
    rewrite u32_id by lia. rewrite (cell_destroy_Done _ _ x) by (lia || done).
    eexists. split; [done|]. rewrite length_insert.
    by replace (Z.of_nat (S j)) with (Z.of_nat j + 1) by lia.
  - by rewrite (ring_cut_end _ _ _ Hcut) at 1.
Qed.
End repr.

(** ** Refinement of a double-ended queue *)

Section spec.
Context {T : Type}.
Implicit Types (q : queue T) (l : list T).

Inductive q_op : Type := QPush (x : T) | QPopFront | QPopBack | QFront | QBack | QEmpty.
Inductive q_out : Type := QNone | QElem (x : T) | QBool (b : bool).

Definition q_exec (o : q_op) q : outcome (q_out * queue T) :=
  match o with
  | QPush x => q ← push_back q x; Done (QNone, q)
  | QPopFront => '(x, q) ← pop_front q; Done (QElem x, q)
  | QPopBack => '(x, q) ← pop_back q; Done (QElem x, q)
  | QFront => x ← front q; Done (QElem x, q)
  | QBack => x ← back q; Done (QElem x, q)
  | QEmpty => Done (QBool (empty q), q)
  end.

(** On a list; removing from or looking at an empty queue fails an assertion. *)
Definition dq_exec (o : q_op) l : outcome (q_out * list T) :=
  match o with
  | QPush x => Done (QNone, l ++ [x])
  | QPopFront => match l with [] => Panic | x :: l => Done (QElem x, l) end
  | QPopBack => match reverse l with [] => Panic | x :: l => Done (QElem x, reverse l) end
  | QFront => match l with [] => Panic | x :: _ => Done (QElem x, l) end
  | QBack => match reverse l with [] => Panic | x :: _ => Done (QElem x, l) end
  | QEmpty => Done (QBool (match l with [] => true | _ => false end), l)
  end.

Fixpoint q_run (os : list q_op) q : outcome (list q_out * queue T) :=
  match os with
  | [] => Done ([], q)
  | o :: os => '(a, q) ← q_exec o q; '(outs, q) ← q_run os q; Done (a :: outs, q)
  end.

Fixpoint dq_run (os : list q_op) l : outcome (list q_out * list T) :=
  match os with
  | [] => Done ([], l)
  | o :: os => '(a, l) ← dq_exec o l; '(outs, l) ← dq_run os l; Done (a :: outs, l)
  end.

Definition q_agree {A} (c : outcome (A * queue T)) (d : outcome (A * list T)) : Prop :=
  match d with
  | Done (a, l) => ∃ q, c = Done (a, q) ∧ q_rep q l
  | Panic => c = Panic
  | _ => False
  end.

Lemma q_empty_panics q : q_rep q [] →
  pop_front q = Panic ∧ pop_back q = Panic ∧ front q = Panic ∧ back q = Panic.
Proof.
  intros [Hs _]%q_rep_size. cbn in Hs. unfold pop_front, pop_back, front, back.
  by rewrite (proj2 (Z.eqb_eq (_size q) 0) Hs).
Qed.

Lemma q_exec_refines o q l : q_rep q l → Z.of_nat (length l) < 2 ^ 29 →
  q_agree (q_exec o q) (dq_exec o l).
Proof.
  intros Hq Hl. destruct o as [x| | | | |]; cbn.
  - destruct (q_push_back_rep q l x Hq Hl) as (q'&->&?). by exists q'.
  - destruct l as [|x l]; [by destruct (q_empty_panics q Hq) as (->&_)|].
    destruct (q_pop_front_rep q x l Hq) as (q'&->&?). by exists q'.
  - destruct l as [|x l _] using rev_ind; [by destruct (q_empty_panics q Hq) as (_&->&_)|].
    rewrite reverse_snoc, reverse_involutive.
    destruct (q_pop_back_rep q x l Hq) as (q'&->&?). by exists q'.
  - destruct l as [|x l]; [by destruct (q_empty_panics q Hq) as (_&_&->&_)|].
    rewrite (q_front_rep q x l Hq). by exists q.
  - destruct l as [|x l _] using rev_ind; [by destruct (q_empty_panics q Hq) as (_&_&_&->)|].
    rewrite reverse_snoc, (q_back_rep q x l Hq). by exists q.
  - rewrite (q_empty_rep q l Hq). by exists q.
Qed.

Lemma dq_exec_length o l a l' : dq_exec o l = Done (a, l') → (length l' ≤ S (length l))%nat.
Proof.
  destruct o; cbn; intros Hd; repeat case_match; simplify_eq; cbn; rewrite ?length_app; cbn; try lia.
  apply (f_equal length) in H. rewrite length_reverse in *. cbn in H. lia.
Qed.

Lemma q_run_refines os : ∀ q l, q_rep q l → Z.of_nat (length l + length os) < 2 ^ 29 →
  q_agree (q_run os q) (dq_run os l).
Proof.
  induction os as [|o os IH]; intros q l Hq Hl; cbn [q_run dq_run length] in *; [by exists q|].
  pose proof (q_exec_refines o q l Hq ltac:(lia)) as Ha.
  destruct (dq_exec o l) as [[a l']| | |] eqn:He; cbn in *; [|by rewrite Ha|done..].
  destruct Ha as (q'&->&Hq'). cbn. apply dq_exec_length in He.
  specialize (IH q' l' Hq' ltac:(lia)).
  destruct (dq_run os l') as [[outs l'']| | |]; cbn in *; [|by rewrite IH|done..].
  destruct IH as (q''&->&?). by exists q''.
Qed.
End spec.

(** ** Membership *)

Section contains.
Context {T : Type} (eqb : T → T → bool).
Implicit Types (q : queue T) (l : list T).

(** [contains_loop] at the element [k] of [l], one iteration. *)
Lemma contains_loop_step fuel q l v (k : nat) x :
  q_rep q l → l !! k = Some x → _capacity q < 2 ^ 31 →
  contains_loop eqb (S fuel) q v ((_front q + Z.of_nat k) mod _capacity q) =
    if eqb x v then Done true
    else if (_front q + Z.of_nat (S k)) mod _capacity q =? (_back q + 1) mod _size q then Done false
    else contains_loop eqb fuel q v ((_front q + Z.of_nat (S k)) mod _capacity q).
Proof.
  intros Hq Hx Hc31. pose proof (q_rep_size _ _ Hq) as [Hs Hle].
  pose proof (lookup_lt_Some _ _ _ Hx). destruct Hq as (Hcap&_&_&Hr).
  assert (l ≠ []) as Hl by (by intros ->). destruct (ring_index _ _ _ _ _ Hr Hl) as [Hf Hb].
  pose proof (ring_lookup _ _ _ _ _ _ _ Hr Hx) as Hrd. rewrite <-Hcap in *.
  pose proof (Z.mod_pos_bound (_front q + Z.of_nat k) (_capacity q) ltac:(lia)).
  cbn [contains_loop]. rewrite (cell_read_Done _ _ x) by (lia || done). cbn [mbind outcome_bind].
  destruct (eqb x v); [done|]. rewrite !umod_Done by lia. cbn [mbind outcome_bind].
  rewrite (u32_id (_ mod _ + 1)), (u32_id (_back q + 1)) by lia.
  rewrite Zplus_mod_idemp_l. by replace (_front q + Z.of_nat k + 1) with (_front q + Z.of_nat (S k)) by lia.
Qed.

(** In a full queue the loop stops when it is back at the front. *)
Lemma contains_full_loop q l v : q_rep q l → Z.of_nat (length l) = _capacity q →
  ∀ rest (k : nat), drop k l = rest → rest ≠ [] →
  contains_loop eqb (length rest) q v ((_front q + Z.of_nat k) mod _capacity q) =
    Done (existsb (λ x, eqb x v) rest).
Proof.
  intros Hq Hfull. pose proof (q_rep_size _ _ Hq) as [Hs Hle].
  induction rest as [|x rest IH]; intros k Hk Hne; [done|].
  assert (l !! k = Some x) as Hx by (rewrite <-(Nat.add_0_r k), <-lookup_drop, Hk; done).
  pose proof (lookup_lt_Some _ _ _ Hx). assert (l ≠ []) as Hl by (by intros ->).
  assert (drop (S k) l = rest) as Hk' by (by rewrite (drop_S _ _ _ Hx) in Hk; simplify_eq).
  cbn [length existsb]. rewrite (contains_loop_step _ q l v k x) by (done || lia).
  destruct (eqb x v); [done|]. cbn [orb].
  destruct (proj2 (proj2 (proj2 Hq))) as (_&_&_&Hfb&_).
  rewrite decide_False in Hfb by done. destruct Hfb as [Hf Hb].
  destruct Hq as (Hcap&_). rewrite <-Hcap in *.
  assert ((_back q + 1) mod _size q = _front q) as ->.
  { rewrite Hb, Hs, Hfull, Zplus_mod_idemp_l.
    replace (_front q + _capacity q - 1 + 1) with (_front q + 1 * _capacity q) by lia.
    rewrite Z_mod_plus_full. by apply Z.mod_small. }
  apply (f_equal length) in Hk' as Hlen. rewrite length_drop in Hlen.
  destruct rest as [|y rest].
  - cbn in Hlen. replace (_front q + Z.of_nat (S k)) with (_front q + 1 * _capacity q) by lia.
    rewrite Z_mod_plus_full, Z.mod_small, Z.eqb_refl by lia. done.
  - rewrite (proj2 (Z.eqb_neq _ _)); [by apply IH|]. intros Heq. symmetry in Heq. cbn in Hlen.
    apply (ring_dist _ _ (_front q) (Z.of_nat (S k))) in Heq; [|lia..].
    rewrite Z.sub_diag, Z.mod_0_l in Heq; lia.
Qed.

(** In a queue with room behind its elements the loop runs past them. *)
Lemma contains_partial_loop q l v : q_rep q l → _front q = 0 → l ≠ [] →
  Z.of_nat (length l) < _capacity q → Forall (λ x, eqb x v = false) l →
  ∀ rest (k fuel : nat), drop k l = rest → (k ≤ length l)%nat → (length rest < fuel)%nat →
  contains_loop eqb fuel q v ((_front q + Z.of_nat k) mod _capacity q) = Undef.
Proof.
  intros Hq Hf0 Hl Hroom Hno. pose proof (q_rep_size _ _ Hq) as [Hs Hle].
  induction rest as [|x rest IH]; intros k fuel Hk Hkl Hfuel;
    (destruct fuel as [|fuel]; [lia|]).
  - apply (f_equal length) in Hk. rewrite length_drop in Hk. cbn in Hk.
    cbn [contains_loop]. rewrite Hf0, Z.add_0_l, Z.mod_small by lia.
    destruct Hq as (Hcap&_&_&(_&_&_&_&Hst)). unfold cell_read.
    rewrite (proj2 (in_alloc_true _ _)) by lia.
    rewrite Hst, Hf0, Z.sub_0_r, Z.mod_small by lia. by rewrite lookup_ge_None_2 by lia.
  - assert (l !! k = Some x) as Hx by (rewrite <-(Nat.add_0_r k), <-lookup_drop, Hk; done).
    pose proof (lookup_lt_Some _ _ _ Hx).
    rewrite (contains_loop_step _ q l v k x) by (done || lia).
    rewrite (Forall_lookup_1 _ _ _ _ Hno Hx).
    destruct (proj2 (proj2 (proj2 Hq))) as (_&_&_&Hfb&_).
    rewrite decide_False in Hfb by done. destruct Hfb as [Hf Hb].
    rewrite <-(proj1 Hq), Hf0, Z.add_0_l, Z.mod_small in Hb by lia.
    assert ((_back q + 1) mod _size q = 0) as ->.
    { rewrite Hb. replace (_size q - 1 + 1) with (_size q) by lia. apply Z.mod_same. lia. }
    rewrite (proj2 (Z.eqb_neq _ _)).
    + apply IH; [|lia|cbn in Hfuel; lia]. by rewrite (drop_S _ _ _ Hx) in Hk; simplify_eq.
    + rewrite Hf0, Z.mod_small by lia. lia.
Qed.
End contains.

(** ** Theorems *)

(** a queue is the list of its elements: every sequence of [push_back],
    [pop_front], [pop_back], [front], [back] and [empty] on an empty queue
    gives the results of the same sequence on a double-ended queue without a
    bound, or fails the same assertion, across all the reallocations. *)
Theorem queue_refines_deque {T} (os : list (@q_op T)) :
  Z.of_nat (length os) < 2 ^ 29 → q_agree (q_run os queue_new) (dq_run os []).
Proof. intros. apply q_run_refines; [apply q_rep_new|done]. Qed.

(** On a full queue [contains] decides membership. *)
Theorem queue_contains_full {T} (eqb : T → T → bool) (q : queue T) (l : list T) (v : T) :
  q_rep q l → Z.of_nat (length l) = _capacity q →
  contains eqb q v = Done (existsb (λ x, eqb x v) l).
Proof.
  intros Hq Hfull. unfold contains. rewrite (q_empty_rep q l Hq).
  destruct l as [|x l]; [done|].
  pose proof (contains_full_loop eqb q (x :: l) v Hq Hfull (x :: l) 0 eq_refl ltac:(done)) as Hc.
  destruct (proj2 (proj2 (proj2 Hq))) as (_&_&_&[Hf _]&_).
  rewrite <-(proj1 Hq) in Hf. rewrite Z.add_0_r, Z.mod_small in Hc by lia.
  by rewrite <-Hfull, Nat2Z.id.
Qed.

(** On a queue that is not full and starts at cell 0, [contains] reads the
    raw cell behind the last element when the value is absent: its end test
    takes [_back + 1] modulo [_size] instead of [_capacity]. *)
Theorem queue_contains_reads_raw {T} (eqb : T → T → bool) (q : queue T) (l : list T) (v : T) :
  q_rep q l → _front q = 0 → l ≠ [] → Z.of_nat (length l) < _capacity q →
  Forall (λ x, eqb x v = false) l → contains eqb q v = Undef.
Proof.
  intros Hq Hf Hl Hroom Hno. unfold contains. rewrite (q_empty_rep q l Hq).
  pose proof (q_rep_size _ _ Hq). destruct l as [|x l]; [done|].
  rewrite <-(contains_partial_loop eqb q (x :: l) v Hq Hf Hl Hroom Hno (x :: l) 0
    (Z.to_nat (_capacity q)) eq_refl ltac:(lia) ltac:(lia)).
  by rewrite Hf, Z.mod_0_l by lia.
Qed.

(** ** Witnesses *)

Definition sample_q_ops : list (@q_op Z) :=
  [QPush 1; QPush 2; QPopFront; QPush 3; QPush 4; QPush 5; QFront; QBack; QPopBack; QPopFront;
   QEmpty].

Lemma queue_refines_deque_witness :
  q_agree (q_run sample_q_ops queue_new) (dq_run sample_q_ops []) ∧
  (λ r, match r with Done (outs, _) => Some outs | _ => None end) (q_run sample_q_ops queue_new) =
    Some [QNone; QNone; QElem 1; QNone; QNone; QNone; QElem 2; QElem 5; QElem 5; QElem 2;
          QBool false].
Proof.
  split; [apply (queue_refines_deque sample_q_ops); cbn; lia|]. vm_compute. reflexivity.
Defined.

(** A queue of capacity 4 that starts at cell 0. *)
Lemma q_rep_live l n : (0 < length l ≤ n)%nat → Z.of_nat n < 2 ^ 31 →
  q_rep (mk_queue (Some (live l n)) (Z.of_nat n) (Z.of_nat (length l)) 0
           (Z.of_nat (length l) - 1)) (l : list Z).
Proof.
  intros. split_and!; cbn [storage_cells from_option id _storage _capacity _size _front _back];
    [rewrite length_holes by (cbn; lia); lia|lia|right; lia|apply ring_live; lia].
Qed.

Lemma queue_contains_full_witness :
  contains Z.eqb (mk_queue (Some (live [5; 6; 7; 8] 4)) 4 4 0 3) 7 = Done true.
Proof.
  exact (queue_contains_full Z.eqb _ [5; 6; 7; 8] 7
    (q_rep_live [5; 6; 7; 8] 4 ltac:(cbn; lia) ltac:(lia)) eq_refl).
Defined.

Lemma queue_contains_reads_raw_witness :
  contains Z.eqb (mk_queue (Some (live [5; 6] 4)) 4 2 0 1) 7 = Undef.
Proof.
  apply (queue_contains_reads_raw Z.eqb _ [5; 6] 7
    (q_rep_live [5; 6] 4 ltac:(cbn; lia) ltac:(lia)) eq_refl); [done|cbn; lia|].
  repeat constructor.
Defined.
