(* ===== verification/Pipe.v ===== *)
(** * Pipes (kernel/filesystem/Pipe.cpp)

    A pipe is a [circular_queue] of bytes, the number of open read and write
    ends, and a [BooleanBlocker] on which readers sleep, with its flags [ready]
    and [_interrupted].  The buffer a caller passes is a function from index to
    byte when the pipe reads it, and the list of the bytes stored at 0, 1, ...
    when the pipe fills it.  A read that has to sleep ([Thread::block]) is
    [Sleeps]; when the thread has been woken and runs again, it goes on with
    [resume]. *)

From stdpp Require Import base numbers list option relations.
From S2P Require Import Prelude.
From S2P Require Import Ring.
From S2P Require Import CircularQueue.

Local Open Scope Z_scope.

Definition PIPE_SIZE : Z := 4096.

Record Pipe : Type := mk_pipe {
  _queue : circular_queue Z;
  _readers : Z;
  _writers : Z;
  _blocker_ready : bool;
  _interrupted : bool;
}.

Definition pipe_new : Pipe := mk_pipe (circular_queue_new PIPE_SIZE) 0 0 false false.

Definition add_reader (p : Pipe) : Pipe :=
  mk_pipe (_queue p) (u32 (_readers p + 1)) (_writers p) (_blocker_ready p) (_interrupted p).

Definition add_writer (p : Pipe) : Pipe :=
  mk_pipe (_queue p) (_readers p) (u32 (_writers p + 1)) (_blocker_ready p) (_interrupted p).

Definition remove_reader (p : Pipe) : Pipe :=
  mk_pipe (_queue p) (u32 (_readers p - 1)) (_writers p) (_blocker_ready p) (_interrupted p).

Definition remove_writer (p : Pipe) : Pipe :=
  let w := u32 (_writers p - 1) in
  mk_pipe (_queue p) (_readers p) w (if w =? 0 then true else _blocker_ready p) (_interrupted p).

Inductive read_result : Type :=
  | Sleeps
  | Returns (ret : Z) (buffer : list Z).

(** [for(size_t i = 0; i < count; i++) buffer.set(i, _queue.pop_front())]. *)
Fixpoint read_loop (count : nat) (q : circular_queue Z) : outcome (list Z * circular_queue Z) :=
  match count with
  | O => Done ([], q)
  | S n =>
      '(b, q) ← pop_front q;
      '(bs, q) ← read_loop n q;
      Done (b :: bs, q)
  end.

(** [Blocker::interrupt]. *)
Definition interrupt (p : Pipe) : Pipe := mk_pipe (_queue p) (_readers p) (_writers p) (_blocker_ready p) true.

(** What [Pipe::read] does once the thread does not sleep, or no longer. *)
Definition resume (p : Pipe) (count : Z) : outcome (Z * list Z * Pipe) :=
  if _interrupted p then Done (- EINTR, [], p)
  else
    let count := if size (_queue p) <? count then size (_queue p) else count in
    '(bs, q) ← read_loop (Z.to_nat count) (_queue p);
    Done (count, bs,
          mk_pipe q (_readers p) (_writers p)
            (if empty q && negb (_writers p =? 0) then false else _blocker_ready p) (_interrupted p)).

(** [Pipe::read]; [pending] says whether the thread has a signal that is not
    handled yet: [Thread::block] then interrupts the blocker instead of sleeping. *)
Definition read (p : Pipe) (pending : bool) (count : Z) : outcome (read_result * Pipe) :=
  if (_writers p =? 0) && empty (_queue p) then Done (Returns 0 [], p)
  else if negb (_blocker_ready p) && negb pending then Done (Sleeps, p)
  else
    '(ret, bs, p) ← resume (if _blocker_ready p then p else interrupt p) count;
    Done (Returns ret bs, p).

(** [Thread::should_unblock] of a thread that sleeps on the blocker. *)
Definition should_unblock (p : Pipe) : bool := _blocker_ready p || _interrupted p.

(** [while(nwrote < count && flag) { flag = _queue.push_back(..); nwrote++; }],
    where [n] bounds the iterations left. *)
Fixpoint write_loop (n : nat) (nwrote : Z) (buffer : Z → Z) (q : circular_queue Z)
    : outcome (Z * circular_queue Z) :=
  match n with
  | O => Done (nwrote, q)
  | S n =>
      '(flag, q) ← push_back q (buffer nwrote);
      if flag : bool then write_loop n (nwrote + 1) buffer q else Done (nwrote + 1, q)
  end.

(** [Pipe::write]: the signal sent to the caller, if any, and the return value. *)
Definition write (p : Pipe) (buffer : Z → Z) (count : Z)
    : outcome (option Z * Z * Pipe) :=
  if _readers p =? 0 then Done (Some 13 (* SIGPIPE *), - EPIPE, p)
  else
    '(nwrote, q) ← write_loop (Z.to_nat count) 0 buffer (_queue p);
    Done (None, nwrote,
          mk_pipe q (_readers p) (_writers p)
            (if nwrote =? 0 then _blocker_ready p else true) (_interrupted p)).

Definition can_read (p : Pipe) (fd_is_fifo_writer : bool) : bool :=
  negb (empty (_queue p)) && negb fd_is_fifo_writer.

(** ** The bytes in a pipe *)

(** The bytes [buffer[i], ..., buffer[i + n - 1]]. *)
Fixpoint bytes_of (buffer : Z → Z) (i : Z) (n : nat) : list Z :=
  match n with O => [] | S n => buffer i :: bytes_of buffer (i + 1) n end.

Lemma length_bytes_of buffer n : ∀ i, length (bytes_of buffer i n) = n.
Proof. induction n; intros; cbn; auto. Qed.

Lemma read_loop_repr n : ∀ q l,
  repr q l → (n ≤ length l)%nat →
  ∃ q', read_loop n q = Done (take n l, q') ∧ _capacity q' = _capacity q ∧ repr q' (drop n l).
Proof.
  induction n as [|n IH]; intros q l Hr Hn; cbn [read_loop].
  - rewrite drop_0. eauto.
  - destruct l as [|x l]; cbn in Hn; [lia|].
    destruct (cq_pop_front_repr _ _ _ Hr) as (q1&->&?&Hr1). cbn.
    destruct (IH _ _ Hr1 ltac:(lia)) as (q2&->&?&?). cbn. eexists. split; [done|].
    split; [congruence|done].
Qed.

Lemma write_loop_repr n : ∀ nw buffer q l,
  repr q l →
  let room := Z.to_nat (_capacity q - Z.of_nat (length l)) in
  ∃ q', write_loop n nw buffer q =
          Done (nw + Z.of_nat (n `min` (room + 1)), q') ∧
        _capacity q' = _capacity q ∧ repr q' (l ++ bytes_of buffer nw (n `min` room)).
Proof.
  induction n as [|n IH]; intros nw buffer q l Hr room; cbn [write_loop].
  - cbn. rewrite Z.add_0_r, app_nil_r. eauto.
  - pose proof (cq_repr_size _ _ Hr) as [Hsz Hc].
    destruct (decide (Z.of_nat (length l) = _capacity q)) as [Hfull|Hroom].
    + rewrite (cq_push_back_full _ _ _ Hr Hfull). cbn.
      replace room with 0%nat by (unfold room; lia).
      cbn. rewrite app_nil_r. rewrite Nat.min_0_r. eauto.
    + destruct (cq_push_back_repr _ _ (buffer nw) Hr ltac:(lia)) as (q1&->&Hc1&Hr1). cbn.
      destruct (IH (nw + 1) buffer q1 _ Hr1) as (q2&->&Hc2&Hr2).
      assert (room = S (Z.to_nat (_capacity q1 - Z.of_nat (length (l ++ [buffer nw]))))) as Hrm
        by (rewrite length_app; cbn; unfold room; lia).
      exists q2. split; [|split; [congruence|]].
      * do 2 f_equal. rewrite Hrm. cbn. lia.
      * rewrite Hrm. cbn. by rewrite <-app_assoc in Hr2.
Qed.

(** ** Reachable pipes *)

Inductive pipe_op : Type :=
  | AddReader | AddWriter | RemoveReader | RemoveWriter
  | Read (pending : bool) (count : Z)
  | Wake | Interrupt | Resume (count : Z)
  | Write (buffer : Z → Z) (count : Z).

(** The bytes an operation takes into the queue: as many as there is room for. *)
Definition accepted (p : Pipe) (o : pipe_op) : list Z :=
  match o with
  | Write buffer count =>
      if _readers p =? 0 then []
      else bytes_of buffer 0
             (Z.to_nat count `min` Z.to_nat (capacity (_queue p) - size (_queue p)))
  | _ => []
  end.

(** A pipe, and the readers that sleep and those that have been woken but have
    not run yet, with the numbers of bytes they want. *)
Record pipe_state : Type := mk_pipe_state {
  ps_pipe : Pipe;
  ps_asleep : list Z;
  ps_woken : list Z;
}.

(** One operation: [out] is what it gives to a reader.  A write end is only
    removed when there is one, and the count of write ends does not wrap.  The
    scheduler wakes a reader that should be unblocked, a signal wakes it and
    interrupts the blocker, and in both cases it goes on at any time later. *)
Inductive pipe_step : pipe_state → pipe_op → list Z → pipe_state → Prop :=
  | step_add_reader p sl wk : pipe_step (mk_pipe_state p sl wk) AddReader [] (mk_pipe_state (add_reader p) sl wk)
  | step_add_writer p sl wk : _writers p + 1 < 2 ^ 32 →
      pipe_step (mk_pipe_state p sl wk) AddWriter [] (mk_pipe_state (add_writer p) sl wk)
  | step_remove_reader p sl wk : pipe_step (mk_pipe_state p sl wk) RemoveReader [] (mk_pipe_state (remove_reader p) sl wk)
  | step_remove_writer p sl wk : 0 < _writers p →
      pipe_step (mk_pipe_state p sl wk) RemoveWriter [] (mk_pipe_state (remove_writer p) sl wk)
  | step_read p sl wk pending count ret out p' :
      0 ≤ count → read p pending count = Done (Returns ret out, p') →
      pipe_step (mk_pipe_state p sl wk) (Read pending count) out (mk_pipe_state p' sl wk)
  | step_read_sleeps p sl wk pending count p' :
      0 ≤ count → read p pending count = Done (Sleeps, p') →
      pipe_step (mk_pipe_state p sl wk) (Read pending count) [] (mk_pipe_state p' (count :: sl) wk)
  | step_wake p sl1 count sl2 wk : should_unblock p = true →
      pipe_step (mk_pipe_state p (sl1 ++ count :: sl2) wk) Wake [] (mk_pipe_state p (sl1 ++ sl2) (count :: wk))
  | step_interrupt p sl1 count sl2 wk :
      pipe_step (mk_pipe_state p (sl1 ++ count :: sl2) wk) Interrupt [] (mk_pipe_state (interrupt p) (sl1 ++ sl2) (count :: wk))
  | step_resume p sl wk1 count wk2 ret out p' : resume p count = Done (ret, out, p') →
      pipe_step (mk_pipe_state p sl (wk1 ++ count :: wk2)) (Resume count) out (mk_pipe_state p' sl (wk1 ++ wk2))
  | step_write p sl wk buffer count sig ret p' :
      0 ≤ count → write p buffer count = Done (sig, ret, p') →
      pipe_step (mk_pipe_state p sl wk) (Write buffer count) [] (mk_pipe_state p' sl wk).

(** Runs from a new pipe, with the bytes accepted and delivered so far. *)
Inductive pipe_run : list Z → list Z → pipe_state → Prop :=
  | run_new : pipe_run [] [] (mk_pipe_state pipe_new [] [])
  | run_step ins outs s o out s' :
      pipe_run ins outs s → pipe_step s o out s' →
      pipe_run (ins ++ accepted (ps_pipe s) o) (outs ++ out) s'.

(** What holds of every reachable pipe that holds the bytes [l]. *)
Definition pipe_inv (l : list Z) (p : Pipe) : Prop :=
  repr (_queue p) l ∧ _capacity (_queue p) = PIPE_SIZE ∧
  (l ≠ [] → _blocker_ready p = true) ∧ 0 ≤ _writers p < 2 ^ 32.

(** A reader only sleeps as long as there may be something to wait for. *)
Definition state_inv (l : list Z) (s : pipe_state) : Prop :=
  pipe_inv l (ps_pipe s) ∧ (ps_asleep s ≠ [] → _blocker_ready (ps_pipe s) = true ∨ 0 < _writers (ps_pipe s)) ∧
  Forall (λ count, 0 ≤ count) (ps_asleep s ++ ps_woken s).

Lemma pipe_inv_new : pipe_inv [] pipe_new.
Proof. split_and!; [by apply cq_repr_new|done..]. Qed.

Lemma pipe_inv_interrupt l p : pipe_inv l p → pipe_inv l (interrupt p).
Proof. done. Qed.

(** What a read that does not sleep gives: an error if the blocker has ever been
    interrupted, otherwise all the bytes asked for that are there. *)
Definition answer (p : Pipe) (count ret : Z) (out : list Z) : Prop :=
  if _interrupted p then ret = - EINTR ∧ out = []
  else ret = Z.of_nat (length out) ∧ Z.of_nat (length out) = count `min` size (_queue p).

Lemma pipe_resume_spec p l count : pipe_inv l p → 0 ≤ count →
  ∃ ret out p' l', resume p count = Done (ret, out, p') ∧ l = out ++ l' ∧ pipe_inv l' p' ∧ answer p count ret out ∧
    (_blocker_ready p = true ∨ 0 < _writers p → _blocker_ready p' = true ∨ 0 < _writers p').
Proof.
  intros (Hr&Hc&Hready&Hw) Hcount. unfold resume, answer, size. pose proof (cq_repr_size _ _ Hr) as [Hsz Hle].
  destruct (_interrupted p) eqn:Ei; [by exists (- EINTR), [], p, l|].
  set (n := if _ <? count then _ else count).
  assert (n = count `min` _size (_queue p)) as Hn by (unfold n; zbool; lia).
  destruct (read_loop_repr (Z.to_nat n) _ _ Hr) as (q'&->&Hcap&Hr'); [lia|]. cbn [mbind outcome_bind].
  eexists n, (take (Z.to_nat n) l), _, (drop (Z.to_nat n) l). rewrite take_drop. split_and!; [done|done| |rewrite length_take; lia|rewrite length_take; lia|].
  - split_and!; cbn; [done|congruence| |lia..]. intros Hne.
    rewrite (cq_empty_repr _ _ Hr'), bool_decide_false by done. cbn. apply Hready.
    intros ->. by rewrite drop_nil in Hne.
  - cbn. intros Hor. destruct (empty q' && negb (_writers p =? 0)) eqn:E; [|done]. right.
    apply andb_true_iff in E as [_ E%negb_true_iff%Z.eqb_neq]. lia.
Qed.

(** [read] sleeps, or answers at once. *)
Lemma pipe_read_spec p l pending count : pipe_inv l p → 0 ≤ count →
  (read p pending count = Done (Sleeps, p) ∧ l = [] ∧ 0 < _writers p ∧ _blocker_ready p = false) ∨
  (∃ ret out p' l', read p pending count = Done (Returns ret out, p') ∧ l = out ++ l' ∧ pipe_inv l' p' ∧
    (_blocker_ready p = true ∨ 0 < _writers p → _blocker_ready p' = true ∨ 0 < _writers p') ∧
    (_writers p = 0 ∧ l = [] ∧ ret = 0 ∧ out = [] ∨
     answer (if _blocker_ready p then p else interrupt p) count ret out)).
Proof.
  intros Hp Hcount. pose proof Hp as (Hr&Hc&Hready&Hw). unfold read. rewrite (cq_empty_repr _ _ Hr).
  destruct ((_writers p =? 0) && bool_decide (l = [])) eqn:E.
  { apply andb_true_iff in E as [E1%Z.eqb_eq E2%bool_decide_eq_true]. subst l. right. exists 0, [], p, []. split_and!; try done. by left. }
  destruct (_blocker_ready p) eqn:Erdy; cbn [negb andb].
  - destruct (pipe_resume_spec p l count Hp Hcount) as (ret&out&p'&l'&E'&?&?&?&?). right. exists ret, out, p', l'. rewrite E'. rewrite Erdy in *. split_and!; try done. by right.
  - destruct pending; cbn [negb].
    + destruct (pipe_resume_spec (interrupt p) l count (pipe_inv_interrupt _ _ Hp) Hcount) as (ret&out&p'&l'&E'&?&?&?&Hk). right. exists ret, out, p', l'. rewrite E'. cbn in Hk. rewrite Erdy in Hk. split_and!; try done. by right.
    + left. destruct l as [|x l]; [|discriminate Hready; done]. split_and!; [done|done| |done]. rewrite bool_decide_true, andb_true_r in E by done. apply Z.eqb_neq in E. lia.
Qed.

Lemma pipe_write_spec p l buffer count sig ret p' :
  pipe_inv l p → 0 ≤ count → write p buffer count = Done (sig, ret, p') →
  pipe_inv (l ++ accepted p (Write buffer count)) p' ∧ _writers p' = _writers p ∧ (_blocker_ready p = true → _blocker_ready p' = true).
Proof.
  intros (Hr&Hc&Hready&Hw) Hcount Hwr. unfold write in Hwr. unfold accepted, capacity, size.
  pose proof (cq_repr_size _ _ Hr) as [Hsz Hle].
  case_match eqn:E1; inv_done.
  { rewrite app_nil_r. done. }
  destruct (write_loop_repr (Z.to_nat count) 0 buffer _ _ Hr) as (q'&Hl&Hcap&Hr').
  rewrite Hl in *. inv_done. rewrite Hsz. split; [|split; [done|intros ?; cbn; by case_match]].
  split_and!; cbn; [done|congruence| |lia..].
  intros Hne. destruct (decide (Z.to_nat count = 0%nat)) as [H0|H0].
  - rewrite H0 in *. cbn in *. rewrite app_nil_r in *. by apply Hready.
  - rewrite (proj2 (Z.eqb_neq _ _)) by lia. done.
Qed.

Lemma pipe_step_inv s o out s' l : state_inv l s → pipe_step s o out s' → ∃ l', l ++ accepted (ps_pipe s) o = out ++ l' ∧ state_inv l' s'.
Proof.
  intros (Hp&Hs&Hf) Hstep. destruct Hstep as [p sl wk|p sl wk Hlt|p sl wk|p sl wk Hlt|p sl wk pending count ret out p' Hc Hrd|p sl wk pending count p' Hc Hrd|p sl1 count sl2 wk Hu|p sl1 count sl2 wk|p sl wk1 count wk2 ret out p' Hrs|p sl wk buffer count sig ret p' Hc Hwr];
    cbn [ps_pipe ps_asleep ps_woken] in *; cbn [accepted app]; rewrite ?app_nil_r; try (exists l; split; [done|]).
  - split_and!; [by destruct Hp as (?&?&?&?)|done|done].
  - destruct Hp as (?&?&?&?). split_and!; [|cbn; intros Hne; destruct (Hs Hne); [by left|right; rewrite u32_id; lia]|done]. split_and!; cbn; [done..| |]; rewrite u32_id; lia.
  - split_and!; [by destruct Hp as (?&?&?&?)|done|done].
  - destruct Hp as (?&?&Hrdy&?). split_and!; [split_and!; cbn; [done|done|intros Hne; case_match; [done|by apply Hrdy]|apply u32_range|apply u32_range]| |done].
    cbn. intros Hne. rewrite u32_id by lia. destruct (Z.eqb_spec (_writers p - 1) 0); [by left|right; lia].
  - destruct (pipe_read_spec p l pending count Hp Hc) as [[E _]|(ret'&out'&p2&l'&E&->&Hp'&Hk&_)]; rewrite Hrd in E; [done|]. injection E as -> -> ->. exists l'. split; [done|]. split_and!; [done|auto|done].
  - destruct (pipe_read_spec p l pending count Hp Hc) as [(E&->&Hw&_)|(ret'&out'&p2&l'&E&_)]; rewrite Hrd in E; [|done]. injection E as ->. split_and!; [done|by right|]. by constructor.
  - split_and!; [done|intros _; apply Hs; by destruct sl1|]. cbn. apply Forall_app in Hf as [[? [??]%Forall_cons]%Forall_app ?]. rewrite !Forall_app, Forall_cons. done.
  - split_and!; [done|intros _; apply Hs; by destruct sl1|]. cbn. apply Forall_app in Hf as [[? [??]%Forall_cons]%Forall_app ?]. rewrite !Forall_app, Forall_cons. done.
  - apply Forall_app in Hf as [? [? [Hc ?]%Forall_cons]%Forall_app]. destruct (pipe_resume_spec p l count Hp Hc) as (ret'&out'&p2&l'&E&->&Hp'&_&Hk). rewrite Hrs in E. injection E as -> -> ->. exists l'. split; [done|]. split_and!; [done|auto|]. cbn. by rewrite !Forall_app.
  - destruct (pipe_write_spec _ _ _ _ _ _ _ Hp Hc Hwr) as (Hp'&Ew&Hk). eexists. split; [done|]. split_and!; [done| |done]. cbn. intros Hne. destruct (Hs Hne); [left; auto|right; by rewrite Ew].
Qed.

Lemma pipe_run_inv ins outs s :
  pipe_run ins outs s → ∃ l, ins = outs ++ l ∧ state_inv l s.
Proof.
  induction 1 as [|ins outs s o out s' _ (l&->&Hinv) Hstep].
  { exists []. split; [done|]. split_and!; [apply pipe_inv_new|done|constructor]. }
  destruct (pipe_step_inv _ _ _ _ _ Hinv Hstep) as (l'&E&Hinv'). exists l'. rewrite <-!app_assoc, E. done.
Qed.

(** C24: a pipe is a byte stream.  After any run of operations, the bytes
    delivered to readers followed by the bytes still queued are exactly the
    bytes accepted from writers, in order: nothing is lost, duplicated or
    reordered. *)
Theorem pipe_is_stream ins outs s :
  pipe_run ins outs s → ∃ l, repr (_queue (ps_pipe s)) l ∧ ins = outs ++ l ∧
    Z.of_nat (length l) ≤ PIPE_SIZE.
Proof.
  intros (l&->&(Hr&Hc&_)&_)%pipe_run_inv. exists l.
  pose proof (cq_repr_size _ _ Hr) as [_ ?]. rewrite Hc in *. split_and!; [done|done|lia].
Qed.

(** C39: no lost wake-up.  In every state a pipe and its readers can get into:
    if the pipe holds bytes or has no writer left, then a read does not sleep
    but returns, and the scheduler wakes every reader that sleeps; and a reader
    that has been woken returns when it runs. Each of them gets all the bytes it
    asks for that are there, as long as the blocker has never been interrupted;
    from the first signal that reaches a sleeping reader on it gets [-EINTR], as
    nothing clears the flag (0 from [read] if there are no bytes and no writers). *)
Theorem pipe_read_progress ins outs s pending count :
  pipe_run ins outs s → 0 ≤ count →
  (empty (_queue (ps_pipe s)) = false ∨ _writers (ps_pipe s) = 0 →
     (∃ ret out p', read (ps_pipe s) pending count = Done (Returns ret out, p') ∧
        if empty (_queue (ps_pipe s)) then ret = 0 ∧ out = [] else answer (ps_pipe s) count ret out) ∧
     (ps_asleep s ≠ [] → should_unblock (ps_pipe s) = true)) ∧
  (count ∈ ps_woken s → ∃ ret out p', resume (ps_pipe s) count = Done (ret, out, p') ∧ answer (ps_pipe s) count ret out).
Proof.
  intros (l&->&Hp&Hs&Hf)%pipe_run_inv Hcount. pose proof Hp as (Hr&_&Hready&Hw). rewrite (cq_empty_repr _ _ Hr). split.
  - intros Hor. split.
    + destruct (pipe_read_spec (ps_pipe s) l pending count Hp Hcount) as [(_&->&?&_)|(ret&out&p'&l'&E&El&_&_&Ha)]; [destruct Hor as [Hor|?]; [by rewrite bool_decide_true in Hor|lia]|].
      exists ret, out, p'. split; [done|]. destruct Ha as [(Hw0&->&->&->)|Ha]; [by rewrite bool_decide_true|].
      case_bool_decide as Hl; [|by rewrite (Hready Hl) in Ha]. subst l. destruct Hor as [Hor|Hw0]; [done|].
      unfold read in E. rewrite Hw0, (cq_empty_repr _ _ Hr), bool_decide_true in E by done. cbn in E. by injection E as <- <- _.
    + intros Hne. unfold should_unblock. destruct (Hs Hne) as [->|?]; [done|]. destruct Hor as [Hor|?]; [|lia]. apply bool_decide_eq_false in Hor. by rewrite Hready.
  - intros _. destruct (pipe_resume_spec (ps_pipe s) l count Hp Hcount) as (ret&out&p'&l'&E&_&_&Ha&_). by exists ret, out, p'.
Qed.

(** a write that does not fit stores what there is room for but returns one
    more than it stored: the byte refused by the full queue is counted too. *)
Theorem pipe_write_overcounts p l buffer count :
  repr (_queue p) l → _readers p ≠ 0 → 0 ≤ count →
  let room := _capacity (_queue p) - Z.of_nat (length l) in
  ∃ p', write p buffer count = Done (None, count `min` (room + 1), p') ∧
    repr (_queue p') (l ++ bytes_of buffer 0 (Z.to_nat (count `min` room))).
Proof.
  intros Hr Hrd Hcount room. unfold write. rewrite (proj2 (Z.eqb_neq _ _)) by done.
  pose proof (cq_repr_size _ _ Hr) as [Hsz Hle].
  destruct (write_loop_repr (Z.to_nat count) 0 buffer _ _ Hr) as (q'&->&_&Hr'). cbn.
  eexists. split.
  - do 3 f_equal. unfold room. lia.
  - cbn. replace (Z.to_nat (count `min` room))
      with (Z.to_nat count `min` Z.to_nat (_capacity (_queue p) - Z.of_nat (length l)))%nat
      by (unfold room; lia). done.
Qed.

(** ** Witnesses *)

(** A pipe with one reader and the bytes 65, 66 written to it, and a reader
    that has been asleep since before. *)
Definition demo_pipe : Pipe :=
  match write (add_reader (add_writer pipe_new)) (λ i, i + 65) 2 with
  | Done (_, _, p) => p
  | _ => pipe_new
  end.
Definition demo_state : pipe_state := mk_pipe_state demo_pipe [7] [].

Lemma demo_pipe_run : pipe_run [65; 66] [] demo_state.
Proof.
  apply (run_step [] [] (mk_pipe_state (add_reader (add_writer pipe_new)) [7] []) (Write (λ i, i + 65) 2) [] demo_state).
  - apply (run_step [] [] (mk_pipe_state (add_reader (add_writer pipe_new)) [] []) (Read false 7) []).
    + apply (run_step [] [] (mk_pipe_state (add_writer pipe_new) [] []) AddReader []); [|constructor].
      apply (run_step [] [] (mk_pipe_state pipe_new [] []) AddWriter []); constructor. vm_compute. reflexivity.
    + apply step_read_sleeps; [lia|]. vm_compute. reflexivity.
  - apply (step_write _ _ _ (λ i, i + 65) 2 None 2); [lia|]. vm_compute. reflexivity.
Qed.

Lemma pipe_is_stream_witness :
  ∃ l, repr (_queue demo_pipe) l ∧ [65; 66] = [] ++ l ∧ Z.of_nat (length l) ≤ PIPE_SIZE.
Proof. apply (pipe_is_stream [65; 66] [] demo_state). apply demo_pipe_run. Defined.

Lemma pipe_read_progress_witness :
  (∃ ret out p', read demo_pipe true 1 = Done (Returns ret out, p') ∧ answer demo_pipe 1 ret out) ∧ should_unblock demo_pipe = true.
Proof.
  destruct (pipe_read_progress [65; 66] [] demo_state true 1 demo_pipe_run ltac:(lia)) as [Hp _].
  destruct (Hp (or_introl eq_refl)) as [Hr Hw]. split; [exact Hr|apply Hw; discriminate].
Defined.

(** Once a sleeping reader has been interrupted, a pipe with bytes in it gives
    nothing but errors, to readers without signals as well. *)
Example interrupted_for_ever : read (interrupt demo_pipe) false 1 = Done (Returns (- EINTR) [], interrupt demo_pipe).
Proof. vm_compute. reflexivity. Qed.

(** Of two readers that were woken by one write, the second finds nothing and
    returns 0, which means the end of the data, although there is a writer. *)
Example second_reader_gets_nothing : match resume demo_pipe 7 with Done (_, _, p) => match resume p 7 with Done (ret, out, p) => Some (ret, out, _writers p) | _ => None end | _ => None end = Some (0, [], 1).
Proof. vm_compute. reflexivity. Qed.

Lemma pipe_write_overcounts_witness :
  ∃ p', write (add_reader pipe_new) (λ _, 7) 5000 = Done (None, 4097, p') ∧
    repr (_queue p') (bytes_of (λ _, 7) 0 4096).
Proof.
  apply (pipe_write_overcounts (add_reader pipe_new) [] (λ _, 7) 5000);
    [by apply cq_repr_new|discriminate|lia].
Defined.
