(* ===== verification/AvlMap.v ===== *)
(** * kstd::map (kernel/kstd/map.hpp)

    The AVL tree behind every keyed table of the kernel (shared memory, TCP and
    UDP sockets, ARP entries, caches).  A node with its [left], [right] and
    [height] fields is a [Node]; the [parent] pointers are the frames of the
    path to a node, so a pointer to a node inside the tree is a location
    [(node, path)], the nearest parent first.  [update_height_and_balance]
    walks up that path as the code does, rotating where the stored heights ask
    for it. *)

From stdpp Require Import base numbers list option gmap sorting.
From S2P Require Import Prelude.

Local Open Scope Z_scope.

(** ** Keys *)

(** What the map needs of a key type: its [operator==] and [operator<]. *)
Class KeyOrder (K : Type) : Type := {
  key_eqb : K → K → bool;
  key_ltb : K → K → bool;
  key_eqb_eq : ∀ a b, key_eqb a b = true ↔ a = b;
  key_ltb_irrefl : ∀ a, key_ltb a a = false;
  key_ltb_trans : ∀ a b c, key_ltb a b = true → key_ltb b c = true → key_ltb a c = true;
  key_ltb_total : ∀ a b, a ≠ b → key_ltb a b = false → key_ltb b a = true;
}.

#[export, refine] Instance Z_KeyOrder : KeyOrder Z :=
  {| key_eqb := Z.eqb; key_ltb := Z.ltb |}.
Proof. all: intros; lia. Defined.

Section map.
Context {K V : Type}.

(** ** Trees and locations *)

Inductive tree : Type :=
  | Leaf
  | Node (data : K * V) (left right : tree) (height : Z).

(** A parent on the path to a node: the node is its left, or its right child. *)
Inductive frame : Type :=
  | FL (data : K * V) (right : tree) (height : Z)
  | FR (data : K * V) (left : tree) (height : Z).

Definition path : Type := list frame.

Definition plug (f : frame) (t : tree) : tree :=
  match f with
  | FL d r h => Node d t r h
  | FR d l h => Node d l t h
  end.

(** The whole tree, from a node and its path. *)
Fixpoint zip (p : path) (t : tree) : tree :=
  match p with [] => t | f :: p => zip p (plug f t) end.

Definition ht (t : tree) : Z := match t with Leaf => 0 | Node _ _ _ h => h end.

(** ** Node operations *)

Definition balance_factor (t : tree) : Z :=
  match t with Leaf => 0 | Node _ l r _ => 0 - ht l + ht r end.

Definition update_own_height (t : tree) : tree :=
  match t with
  | Leaf => Leaf
  | Node d l r _ => Node d l r (Z.max (ht r) (ht l) + 1)
  end.

(** [rotate_left] on the node of a location: afterwards the node is the left
    child of what was its right child. *)
Definition rotate_left (t : tree) (p : path) : outcome (tree * path) :=
  match t with
  | Node d l (Node dr rl rr hr) h =>
      let this := update_own_height (Node d l rl h) in
      let hr' := ht (update_own_height (Node dr this rr hr)) in
      Done (this, FL dr rr hr' :: p)
  | _ => Undef
  end.

Definition rotate_right (t : tree) (p : path) : outcome (tree * path) :=
  match t with
  | Node d (Node dl ll lr hl) r h =>
      let this := update_own_height (Node d lr r h) in
      let hl' := ht (update_own_height (Node dl ll this hl)) in
      Done (this, FR dl ll hl' :: p)
  | _ => Undef
  end.

(** [balance] on the node of a location: the location of the same node
    afterwards. *)
Definition balance (t : tree) (p : path) : outcome (tree * path) :=
  match t with
  | Leaf => Undef
  | Node d l r h =>
      let bfc := balance_factor t in
      if (-2 <? bfc) && (bfc <? 2) then Done (t, p)
      else if bfc <? -1 then
        _ ← kassert (match l with Leaf => false | _ => true end);
        l ← (if 0 <? balance_factor l
             then '(c, q) ← rotate_left l []; Done (zip q c)
             else Done l);
        rotate_right (Node d l r h) p
      else
        _ ← kassert (match r with Leaf => false | _ => true end);
        r ← (if balance_factor r <? 0
             then '(c, q) ← rotate_right r []; Done (zip q c)
             else Done r);
        rotate_left (Node d l r h) p
  end.

(** [update_height_and_balance]: the loop up to the root; the root it ends at. *)
Fixpoint update_height_and_balance (fuel : nat) (t : tree) (p : path) : outcome tree :=
  match fuel with
  | O => NoFuel
  | S fuel =>
      '(t, p) ← balance (update_own_height t) p;
      match p with
      | [] => Done t
      | f :: p => update_height_and_balance fuel (plug f t) p
      end
  end.

(** Each parent is visited at most twice: once itself, once as the child of
    the node that a rotation put above it. *)
Definition walk_fuel (p : path) : nat := 2 * length p + 2.

(** The location of the leftmost node: its data, right child and path. *)
Fixpoint leftmost (t : tree) (p : path) : option ((K * V) * tree * path) :=
  match t with
  | Leaf => None
  | Node d l r h => match l with Leaf => Some (d, r, p) | _ => leftmost l (FL d r h :: p) end
  end.

Fixpoint rightmost (t : tree) (p : path) : option ((K * V) * tree * path) :=
  match t with
  | Leaf => None
  | Node d l r h => match r with Leaf => Some (d, l, p) | _ => rightmost r (FR d l h :: p) end
  end.

(** ** Map operations *)

Record map : Type := mk_map { m_root : tree; m_size : Z }.

Definition map_new : map := mk_map Leaf 0.

Context `{KeyOrder K}.

(** The loop of [find_node]. *)
Fixpoint find_node (t : tree) (key : K) : option (K * V) :=
  match t with
  | Leaf => None
  | Node d l r _ =>
      if key_eqb d.1 key then Some d
      else if key_ltb key d.1 then find_node l key
      else find_node r key
  end.

Definition get (m : map) (key : K) : option V := snd <$> find_node (m_root m) key.

Definition contains (m : map) (key : K) : bool :=
  match find_node (m_root m) key with Some _ => true | None => false end.

(** The lambda [insert_at]: [f] is the parent with the slot the new node goes to. *)
Definition insert_at (m : map) (elem : K * V) (f : frame) (p : path) : outcome (bool * map) :=
  let node := plug f (Node elem Leaf Leaf 1) in
  root ← (if ht node =? 1 then update_height_and_balance (walk_fuel p) node p
          else Done (zip p node));
  Done (true, mk_map root (u32 (m_size m + 1))).

(** The loop of [insert]; [false] when the key is already there. *)
Fixpoint insert_loop (m : map) (elem : K * V) (t : tree) (p : path) : outcome (bool * map) :=
  match t with
  | Leaf => Undef
  | Node d l r h =>
      if key_eqb d.1 elem.1 then Done (false, m)
      else if key_ltb elem.1 d.1 then
        match l with
        | Leaf => insert_at m elem (FL d r h) p
        | _ => insert_loop m elem l (FL d r h :: p)
        end
      else
        match r with
        | Leaf => insert_at m elem (FR d l h) p
        | _ => insert_loop m elem r (FR d l h :: p)
        end
  end.

Definition insert (m : map) (elem : K * V) : outcome (bool * map) :=
  match m_root m with
  | Leaf => Done (true, mk_map (Node elem Leaf Leaf 1) (u32 (m_size m + 1)))
  | t => insert_loop m elem t []
  end.

(** Putting the successor's data in the node of a location and unlinking the
    successor; without one the left child moves up.  The result is where
    [update_height_and_balance] starts. *)
Definition replace_with_successor (l r : tree) (h : Z) (p : path) : outcome (tree * path) :=
  match leftmost r [] with
  | Some (ds, sr, []) => Done (Node ds l sr h, p)
  | Some (ds, sr, f :: q) => Done (plug f sr, q ++ FR ds l h :: p)
  | None =>
      match l with
      | Leaf => Undef
      | Node dl ll lr _ => Done (Node dl ll lr h, p)
      end
  end.

Definition replace_with_predecessor (l r : tree) (h : Z) (p : path) : outcome (tree * path) :=
  match rightmost l [] with
  | Some (ds, sl, []) => Done (Node ds sl r h, p)
  | Some (ds, sl, f :: q) => Done (plug f sl, q ++ FL ds r h :: p)
  | None =>
      match r with
      | Leaf => Undef
      | Node dr rl rr _ => Done (Node dr rl rr h, p)
      end
  end.

(** Unlinking the node of a location, whose key matched; [None] when the tree
    becomes empty. *)
Definition erase_unlink (l r : tree) (h : Z) (p : path) : outcome (option (tree * path)) :=
  match l, r with
  | Leaf, Leaf =>
      match p with
      | f :: p => Done (Some (plug f Leaf, p))
      | [] => Done None
      end
  | _, _ =>
      match p with
      | [] | FR _ _ _ :: _ => s ← replace_with_successor l r h p; Done (Some s)
      | FL _ _ _ :: _ => s ← replace_with_predecessor l r h p; Done (Some s)
      end
  end.

(** The root after erasing the node of a location. *)
Definition erase_at (l r : tree) (h : Z) (p : path) : outcome tree :=
  start ← erase_unlink l r h p;
  match start with
  | None => Done Leaf
  | Some (t, q) => update_height_and_balance (walk_fuel q) t q
  end.

Fixpoint erase_loop (m : map) (key : K) (t : tree) (p : path) : outcome map :=
  match t with
  | Leaf => Done m
  | Node d l r h =>
      if key_eqb d.1 key then
        root ← erase_at l r h p; Done (mk_map root (u32 (m_size m - 1)))
      else if key_ltb key d.1 then erase_loop m key l (FL d r h :: p)
      else erase_loop m key r (FR d l h :: p)
  end.

Definition erase (m : map) (key : K) : outcome map := erase_loop m key (m_root m) [].

(** [operator[]]: the value found, or the default value inserted. *)
Definition index (m : map) (key : K) (default : V) : outcome (V * map) :=
  match find_node (m_root m) key with
  | Some d => Done (d.2, m)
  | None => '(_, m) ← insert m (key, default); Done (default, m)
  end.

(** ** Iterators: a location, or the end *)

Definition iterator : Type := option (tree * path).

(** Down the left edge. *)
Fixpoint go_leftmost (t : tree) (p : path) : iterator :=
  match t with
  | Leaf => None
  | Node d l r h => match l with Leaf => Some (t, p) | _ => go_leftmost l (FL d r h :: p) end
  end.

Fixpoint go_rightmost (t : tree) (p : path) : iterator :=
  match t with
  | Leaf => None
  | Node d l r h => match r with Leaf => Some (t, p) | _ => go_rightmost r (FR d l h :: p) end
  end.

Definition begin (m : map) : iterator := go_leftmost (m_root m) [].

(** Up while the node is a right child, then to the parent. *)
Fixpoint climb_right (t : tree) (p : path) : iterator :=
  match p with
  | [] => None
  | FR d l h :: p => climb_right (Node d l t h) p
  | FL d r h :: p => Some (Node d t r h, p)
  end.

Fixpoint climb_left (t : tree) (p : path) : iterator :=
  match p with
  | [] => None
  | FL d r h :: p => climb_left (Node d t r h) p
  | FR d l h :: p => Some (Node d l t h, p)
  end.

Definition inorder_successor (t : tree) (p : path) : iterator :=
  match t with
  | Leaf => None
  | Node d l r h =>
      match r with Leaf => climb_right t p | _ => go_leftmost r (FR d l h :: p) end
  end.

Definition inorder_predecessor (t : tree) (p : path) : iterator :=
  match t with
  | Leaf => None
  | Node d l r h =>
      match l with Leaf => climb_left t p | _ => go_rightmost l (FL d r h :: p) end
  end.

(** [operator++]. *)
Definition next (i : iterator) : iterator :=
  match i with None => None | Some (t, p) => inorder_successor t p end.

(** [operator--]: from the end, the rightmost element of the map. *)
Definition prev (m : map) (i : iterator) : iterator :=
  match i with
  | None => go_rightmost (m_root m) []
  | Some (t, p) => inorder_predecessor t p
  end.

(** [operator+]: steps forward or back. *)
Definition iter_add (m : map) (i : iterator) (diff : Z) : iterator :=
  if 0 <? diff then Nat.iter (Z.to_nat diff) next i
  else Nat.iter (Z.to_nat (- diff)) (prev m) i.

(** The data an iterator points to. *)
Definition deref (i : iterator) : option (K * V) :=
  match i with Some (Node d _ _ _, _) => Some d | _ => None end.

(** [operator<]: both operands of the comparison are the iterator's own key. *)
Definition iter_ltb (i other : iterator) : outcome bool :=
  match deref i with Some d => Done (key_ltb d.1 d.1) | None => Undef end.

End map.
Arguments tree K V : clear implicits.
Arguments frame K V : clear implicits.
Arguments path K V : clear implicits.
Arguments map K V : clear implicits.
Arguments iterator K V : clear implicits.

(** ** The elements of a tree *)

Section elements.
Context {K V : Type}.
Implicit Types (t l r : tree K V) (p q : path K V) (f : frame K V) (d : K * V).

(** In-order traversal. *)
Fixpoint elements t : list (K * V) :=
  match t with Leaf => [] | Node d l r _ => elements l ++ d :: elements r end.

(** What lies to the left and to the right of a location. *)
Fixpoint before p : list (K * V) :=
  match p with
  | [] => []
  | FL _ _ _ :: p => before p
  | FR d l _ :: p => before p ++ elements l ++ [d]
  end.
Fixpoint after p : list (K * V) :=
  match p with
  | [] => []
  | FL d r _ :: p => d :: elements r ++ after p
  | FR _ _ _ :: p => after p
  end.

Lemma elements_Node d l r h : elements (Node d l r h) = elements l ++ d :: elements r.
Proof. done. Qed.

Lemma elements_zip p : ∀ t, elements (zip p t) = before p ++ elements t ++ after p.
Proof.
  induction p as [|[d r h|d l h] p IH]; intros t; cbn.
  - by rewrite app_nil_r.
  - rewrite IH. cbn. by app_norm.
  - rewrite IH. cbn. by app_norm.
Qed.

Lemma before_app p q : before (p ++ q) = before q ++ before p.
Proof.
  induction p as [|[] p IH]; cbn; [by rewrite app_nil_r|done|].
  rewrite IH. by rewrite <-app_assoc.
Qed.

Lemma after_app p q : after (p ++ q) = after p ++ after q.
Proof.
  induction p as [|[] p IH]; cbn; [done| |done]. rewrite IH. by rewrite <-app_assoc.
Qed.

Lemma zip_app p : ∀ q t, zip (p ++ q) t = zip q (zip p t).
Proof. induction p as [|f p IH]; intros; cbn; auto. Qed.

Lemma elements_update_own_height t : elements (update_own_height t) = elements t.
Proof. by destruct t. Qed.

Lemma elements_rotate_left t p t' p' :
  rotate_left t p = Done (t', p') → elements (zip p' t') = elements (zip p t).
Proof.
  unfold rotate_left. intros Hr. repeat case_match; inv_done_pairs. cbn.
  rewrite !elements_zip. cbn. by app_norm.
Qed.

Lemma elements_rotate_right t p t' p' :
  rotate_right t p = Done (t', p') → elements (zip p' t') = elements (zip p t).
Proof.
  unfold rotate_right. intros Hr. repeat case_match; inv_done_pairs. cbn.
  rewrite !elements_zip. cbn. by app_norm.
Qed.

Lemma elements_balance t p t' p' :
  balance t p = Done (t', p') → elements (zip p' t') = elements (zip p t).
Proof.
  unfold balance. intros Hb. destruct t as [|d l r h]; [done|].
  case_match; inv_done_pairs; [done|]. case_match; inv_done_pairs.
  - rewrite (elements_rotate_right _ _ _ _ Hb), !elements_zip. cbn.
    destruct (0 <? _); inv_done_pairs; [|done].
    match goal with Hc : rotate_left _ _ = _ |- _ =>
      by rewrite (elements_rotate_left _ _ _ _ Hc) end.
  - rewrite (elements_rotate_left _ _ _ _ Hb), !elements_zip. cbn.
    destruct (_ <? 0); inv_done_pairs; [|done].
    match goal with Hc : rotate_right _ _ = _ |- _ =>
      by rewrite (elements_rotate_right _ _ _ _ Hc) end.
Qed.

Lemma elements_walk fuel : ∀ t p t',
  update_height_and_balance fuel t p = Done t' → elements t' = elements (zip p t).
Proof.
  induction fuel as [|fuel IH]; intros t p t' Hw; cbn in Hw; [done|].
  apply bind_Done in Hw as ([t1 p1] & Hb & Hw). apply elements_balance in Hb.
  rewrite !elements_zip, elements_update_own_height, <-!elements_zip in Hb.
  destruct p1 as [|f p1]; inv_done_pairs; [done|]. by rewrite (IH _ _ _ Hw).
Qed.

Lemma leftmost_zip t : ∀ p d r q,
  leftmost t p = Some (d, r, q) →
  ∃ q' h, q = q' ++ p ∧ t = zip q' (Node d Leaf r h) ∧ before q' = [].
Proof.
  induction t as [|d l IHl r _ h]; intros p d' r' q Hm; cbn in Hm; [done|].
  destruct l as [|dl ll lr hl]; simplify_eq; [by exists [], h|].
  apply IHl in Hm as (q'&h'&->&Hz&Hb). exists (q' ++ [FL d r h]), h'.
  rewrite before_app, zip_app, Hb, Hz. by rewrite <-app_assoc.
Qed.

Lemma rightmost_zip t : ∀ p d l q,
  rightmost t p = Some (d, l, q) →
  ∃ q' h, q = q' ++ p ∧ t = zip q' (Node d l Leaf h) ∧ after q' = [].
Proof.
  induction t as [|d l _ r IHr h]; intros p d' l' q Hm; cbn in Hm; [done|].
  destruct r as [|dr rl rr hr]; simplify_eq; [by exists [], h|].
  apply IHr in Hm as (q'&h'&->&Hz&Hb). exists (q' ++ [FR d l h]), h'.
  rewrite after_app, zip_app, Hb, Hz. by rewrite <-app_assoc.
Qed.

Lemma leftmost_None t p : leftmost t p = None → t = Leaf.
Proof.
  revert p. induction t as [|d l IHl r _ h]; intros p Hm; [done|]. cbn in Hm.
  destruct l; [done|]. by apply IHl in Hm.
Qed.

Lemma rightmost_None t p : rightmost t p = None → t = Leaf.
Proof.
  revert p. induction t as [|d l _ r IHr h]; intros p Hm; [done|]. cbn in Hm.
  destruct r; [done|]. by apply IHr in Hm.
Qed.

(** The cases of [replace_with_successor] and [replace_with_predecessor]: the
    location they end at, as a slot [f] of the tree and what is put there. *)
Lemma replace_with_successor_cases l r h p :
  (l ≠ Leaf ∨ r ≠ Leaf) →
  (∃ ds sr hs f q q', replace_with_successor l r h p = Done (plug f sr, q) ∧
     f :: q = q' ++ FR ds l h :: p ∧ before q' = [] ∧ r = zip q' (Node ds Leaf sr hs)) ∨
  (∃ dl ll lr hl, replace_with_successor l r h p = Done (Node dl ll lr h, p) ∧
     r = Leaf ∧ l = Node dl ll lr hl).
Proof.
  intros Hn. unfold replace_with_successor.
  destruct (leftmost r []) as [[[ds sr] q]|] eqn:Hl.
  - apply leftmost_zip in Hl as (q'&hs&->&->&Hb). rewrite app_nil_r.
    left. exists ds, sr, hs. destruct q' as [|f q'].
    + by eexists (FR _ _ _), p, [].
    + by exists f, (q' ++ FR ds l h :: p), (f :: q').
  - apply leftmost_None in Hl as ->. destruct l as [|dl ll lr hl]; [naive_solver|].
    right. by exists dl, ll, lr, hl.
Qed.

Lemma replace_with_predecessor_cases l r h p :
  (l ≠ Leaf ∨ r ≠ Leaf) →
  (∃ ds sl hs f q q', replace_with_predecessor l r h p = Done (plug f sl, q) ∧
     f :: q = q' ++ FL ds r h :: p ∧ after q' = [] ∧ l = zip q' (Node ds sl Leaf hs)) ∨
  (∃ dr rl rr hr, replace_with_predecessor l r h p = Done (Node dr rl rr h, p) ∧
     l = Leaf ∧ r = Node dr rl rr hr).
Proof.
  intros Hn. unfold replace_with_predecessor.
  destruct (rightmost l []) as [[[ds sl] q]|] eqn:Hl.
  - apply rightmost_zip in Hl as (q'&hs&->&->&Hb). rewrite app_nil_r.
    left. exists ds, sl, hs. destruct q' as [|f q'].
    + by eexists (FL _ _ _), p, [].
    + by exists f, (q' ++ FL ds r h :: p), (f :: q').
  - apply rightmost_None in Hl as ->. destruct r as [|dr rl rr hr]; [naive_solver|].
    right. by exists dr, rl, rr, hr.
Qed.

(** [erase_unlink] through its three cases. *)
Lemma erase_unlink_cases l r h p :
  (l = Leaf ∧ r = Leaf ∧
     erase_unlink l r h p = Done (match p with f :: p => Some (plug f Leaf, p) | [] => None end)) ∨
  ((l ≠ Leaf ∨ r ≠ Leaf) ∧
     ((erase_unlink l r h p = s ← replace_with_successor l r h p; Done (Some s)) ∨
      (erase_unlink l r h p = s ← replace_with_predecessor l r h p; Done (Some s)))).
Proof.
  destruct l as [|dl ll lr hl], r as [|dr rl rr hr]; [by left; destruct p|..];
    right; (split; [by auto|]); destruct p as [|[]]; cbn [erase_unlink]; auto.
Qed.

Lemma elements_replace l r h p t q :
  (l ≠ Leaf ∨ r ≠ Leaf) →
  replace_with_successor l r h p = Done (t, q) ∨ replace_with_predecessor l r h p = Done (t, q) →
  elements (zip q t) = before p ++ (elements l ++ elements r) ++ after p.
Proof.
  intros Hn [Hs|Hs].
  - destruct (replace_with_successor_cases l r h p Hn)
      as [(ds&sr&hs&f&q1&q2&Hd&Heq&Hb&->)|(dl&ll&lr&hl&Hd&->&->)];
      rewrite Hd in Hs; injection Hs as <- <-.
    + change (zip q1 (plug f sr)) with (zip (f :: q1) sr) in *.
      rewrite Heq, zip_app, !elements_zip, Hb. cbn. by app_norm.
    + rewrite elements_zip. cbn. by app_norm.
  - destruct (replace_with_predecessor_cases l r h p Hn)
      as [(ds&sl&hs&f&q1&q2&Hd&Heq&Hb&->)|(dl&ll&lr&hl&Hd&->&->)];
      rewrite Hd in Hs; injection Hs as <- <-.
    + change (zip q1 (plug f sl)) with (zip (f :: q1) sl) in *.
      rewrite Heq, zip_app, !elements_zip, Hb. cbn. by app_norm.
    + rewrite elements_zip. cbn. by app_norm.
Qed.

(** Erasing a node removes exactly its data. *)
Lemma elements_erase_at l r h p root :
  erase_at l r h p = Done root →
  elements root = before p ++ (elements l ++ elements r) ++ after p.
Proof.
  unfold erase_at.
  destruct (erase_unlink_cases l r h p) as [(->&->&->)|[Hn [-> | ->]]]; intros He; inv_done_pairs.
  - destruct p as [|f p]; inv_done_pairs; [done|]. apply elements_walk in He as ->.
    change (zip p (plug f Leaf)) with (zip (f :: p) (@Leaf K V)). by rewrite elements_zip.
  - apply elements_walk in He as ->. apply (elements_replace _ _ h); auto.
  - apply elements_walk in He as ->. apply (elements_replace _ _ h); auto.
Qed.
End elements.

(** ** The AVL invariant *)

Section avl.
Context {K V : Type}.
Implicit Types (t l r : tree K V) (p q : path K V) (f : frame K V) (d : K * V).

(** Every stored height is the height and no node is out of balance. *)
Fixpoint avl t : Prop :=
  match t with
  | Leaf => True
  | Node _ l r h => avl l ∧ avl r ∧ h = Z.max (ht l) (ht r) + 1 ∧ -1 ≤ ht r - ht l ≤ 1
  end.

(** The path around an AVL subtree of height [h] in an AVL tree. *)
Fixpoint ctx_avl p (h : Z) : Prop :=
  match p with
  | [] => True
  | FL _ s h' :: p | FR _ s h' :: p =>
      avl s ∧ -1 ≤ ht s - h ≤ 1 ∧ h' = Z.max h (ht s) + 1 ∧ ctx_avl p h'
  end.

Lemma avl_ht t : avl t → 0 ≤ ht t ∧ (ht t = 0 ↔ t = Leaf).
Proof.
  induction t as [|d l IHl r IHr h]; cbn; [done|].
  intros (?&?&->&?). destruct IHl, IHr; [done..|]. split; [lia|split; [lia|done]].
Qed.

Lemma avl_zip p : ∀ t, avl (zip p t) ↔ avl t ∧ ctx_avl p (ht t).
Proof.
  induction p as [|[d s h|d s h] p IH]; intros t; cbn; [tauto|..]; rewrite IH; cbn.
  - split; intros; destruct_and!; split_and!; (done || lia).
  - split; intros; destruct_and!; split_and!; (done || lia).
Qed.

Lemma ctx_avl_data q : ∀ d d' l r h p x,
  (ctx_avl (q ++ FL d r h :: p) x → ctx_avl (q ++ FL d' r h :: p) x) ∧
  (ctx_avl (q ++ FR d l h :: p) x → ctx_avl (q ++ FR d' l h :: p) x).
Proof.
  induction q as [|[] q IH]; intros; cbn; [done|..];
    split; intros (?&?&?&?); split_and!; (done || lia || by eapply IH).
Qed.

Lemma avl_Node t : avl t → 0 < ht t → ∃ d l r h, t = Node d l r h ∧ avl l ∧ avl r ∧
  h = Z.max (ht l) (ht r) + 1 ∧ -1 ≤ ht r - ht l ≤ 1 ∧ 0 ≤ ht l ∧ 0 ≤ ht r.
Proof.
  destruct t as [|d l r h]; cbn; [lia|]. intros (Hl&Hr&?&?) ?.
  exists d, l, r, h. pose proof (avl_ht _ Hl). pose proof (avl_ht _ Hr). naive_solver.
Qed.

(** Heights of the pieces of concrete trees. *)
Ltac heights := cbn [avl ht plug zip update_own_height balance_factor] in *.

(** [balance] of a left-heavy node, both kinds of rotation. *)
Lemma balance_left_heavy d l r p :
  avl l → avl r → ht r - ht l = -2 →
  ∃ t' g, balance (Node d l r (ht l + 1)) p = Done (t', g :: p) ∧
    avl (plug g t') ∧ t' ≠ Leaf ∧ ht l ≤ ht (plug g t') ≤ ht l + 1.
Proof.
  intros Hl Hr Hb. pose proof (avl_ht _ Hr) as [Hr0 _].
  destruct (avl_Node l Hl) as (dl&ll&lr&hl&->&?&?&?&?&?&?); [lia|]. heights.
  unfold balance. heights. rewrite (proj2 (andb_false_iff _ _)) by lia.
  rewrite (proj2 (Z.ltb_lt _ (-1))) by lia. cbn [kassert mbind outcome_bind].
  destruct (Z.ltb_spec 0 (0 - ht ll + ht lr)).
  - destruct (avl_Node lr) as (dm&ml&mr&hm&->&?&?&?&?&?&?); [done|lia|].
    eexists _, _. split; [reflexivity|]. heights. split_and!; (done || lia).
  - eexists _, _. split; [reflexivity|]. heights. split_and!; (done || lia).
Qed.

Lemma balance_right_heavy d l r p :
  avl l → avl r → ht r - ht l = 2 →
  ∃ t' g, balance (Node d l r (ht r + 1)) p = Done (t', g :: p) ∧
    avl (plug g t') ∧ t' ≠ Leaf ∧ ht r ≤ ht (plug g t') ≤ ht r + 1.
Proof.
  intros Hl Hr Hb. pose proof (avl_ht _ Hl) as [Hl0 _].
  destruct (avl_Node r Hr) as (dr&rl&rr&hr&->&?&?&?&?&?&?); [lia|]. heights.
  unfold balance. heights. rewrite (proj2 (andb_false_iff _ _)) by lia.
  rewrite (proj2 (Z.ltb_ge _ (-1))) by lia. cbn [kassert mbind outcome_bind].
  destruct (Z.ltb_spec (0 - ht rl + ht rr) 0).
  - destruct (avl_Node rl) as (dm&ml&mr&hm&->&?&?&?&?&?&?); [done|lia|].
    eexists _, _. split; [reflexivity|]. heights. split_and!; (done || lia).
  - eexists _, _. split; [reflexivity|]. heights. split_and!; (done || lia).
Qed.

Lemma balance_avl t p : avl t → t ≠ Leaf → balance (update_own_height t) p = Done (t, p).
Proof.
  destruct t as [|d l r h]; [done|]. intros (?&?&->&?) _. unfold balance. heights.
  rewrite (proj2 (andb_true_iff _ _)) by lia. by rewrite Z.max_comm.
Qed.

(** The walk goes through an AVL node without changing it. *)
Lemma walk_avl_node fuel t p : avl t → t ≠ Leaf →
  update_height_and_balance (S fuel) t p =
    match p with [] => Done t | f :: p => update_height_and_balance fuel (plug f t) p end.
Proof. intros. cbn. by rewrite balance_avl. Qed.

(** Where a walk may start: a slot that holds an AVL tree whose height differs
    by at most one from the height the rest of the tree was balanced for. *)
Definition walk_start t p : Prop :=
  ∃ f t' h, t = plug f t' ∧ avl t' ∧ ctx_avl (f :: p) h ∧ -1 ≤ ht t' - h ≤ 1.

Lemma walk_unfold fuel d l r h h' p : h' = Z.max (ht r) (ht l) + 1 →
  update_height_and_balance (S fuel) (Node d l r h) p =
    '(t, p) ← balance (Node d l r h') p;
    match p with [] => Done t | f :: p => update_height_and_balance fuel (plug f t) p end.
Proof. by intros ->. Qed.

(** One step of the walk: the subtree at [p] becomes AVL, in one iteration, or
    in two when a rotation put a new parent above the node; its height differs
    by at most one from what [p] was balanced for. *)
Lemma walk_step t p : walk_start t p →
  ∃ t1 h n, (n ≤ 1)%nat ∧ avl t1 ∧ t1 ≠ Leaf ∧ ctx_avl p h ∧ -1 ≤ ht t1 - h ≤ 1 ∧
  ∀ fuel, update_height_and_balance (S (n + fuel)) t p =
    match p with [] => Done t1 | f :: p => update_height_and_balance fuel (plug f t1) p end.
Proof.
  intros (f&t'&h&->&Ht'&Hc&Hh).
  assert (∃ d l r h', plug f t' = Node d l r h' ∧ avl l ∧ avl r ∧ ctx_avl p h' ∧
    (-1 ≤ ht r - ht l ≤ 1 ∧ -1 ≤ Z.max (ht l) (ht r) + 1 - h' ≤ 1 ∨
     (ht r - ht l = -2 ∨ ht r - ht l = 2) ∧ 0 ≤ Z.max (ht l) (ht r) + 1 - h' ≤ 1))
    as (d&l&r&h'&->&Hl&Hr&Hp&Hb).
  { destruct f as [d s h'|d s h']; cbn in Hc; destruct Hc as (?&?&?&?);
      eexists _, _, _, _; split_and!; (done || lia). }
  destruct Hb as [Hb|[[Hb|Hb] Hb']].
  - exists (Node d l r (Z.max (ht r) (ht l) + 1)), h', 0%nat.
    split_and!; heights; try (done || lia); [split_and!; (done || lia)|].
    intros fuel. rewrite <-(walk_avl_node fuel); heights; [done| |done].
    split_and!; (done || lia).
  - destruct (balance_left_heavy d l r p) as (t2&g&Hbal&?&?&?); [done..|].
    exists (plug g t2), h', 1%nat. split_and!; try (done || lia); [by destruct g|].
    intros fuel. rewrite <-(walk_avl_node fuel); [|done|by destruct g].
    cbn [Nat.add]. rewrite (walk_unfold _ _ _ _ _ (ht l + 1)) by lia. by rewrite Hbal.
  - destruct (balance_right_heavy d l r p) as (t2&g&Hbal&?&?&?); [done..|].
    exists (plug g t2), h', 1%nat. split_and!; try (done || lia); [by destruct g|].
    intros fuel. rewrite <-(walk_avl_node fuel); [|done|by destruct g].
    cbn [Nat.add]. rewrite (walk_unfold _ _ _ _ _ (ht r + 1)) by lia. by rewrite Hbal.
Qed.

(** The walk terminates within its fuel and leaves an AVL tree. *)
Lemma walk_avl p : ∀ t fuel, walk_start t p → (walk_fuel p ≤ fuel)%nat →
  ∃ root, update_height_and_balance fuel t p = Done root ∧ avl root.
Proof.
  unfold walk_fuel. induction p as [|f p IH]; intros t fuel Hs Hf;
    destruct (walk_step _ _ Hs) as (t1&h&n&?&?&?&?&?&Hw); cbn [length] in Hf.
  - replace fuel with (S (n + (fuel - S n)))%nat by lia. rewrite Hw. eauto.
  - replace fuel with (S (n + (fuel - S n)))%nat by lia. rewrite Hw.
    apply IH; [|lia]. by exists f, t1, h.
Qed.

(** ** Insertion and removal keep the tree AVL *)

Lemma avl_fill_slot elem f p :
  ctx_avl (f :: p) 0 → ht (plug f Leaf) = 1 → walk_start (plug f (Node elem Leaf Leaf 1)) p.
Proof. intros Hc Hh. exists f, (Node elem Leaf Leaf 1), 0. cbn. split_and!; (done || lia). Qed.

Lemma avl_fill_full elem f p :
  ctx_avl (f :: p) 0 → ht (plug f Leaf) ≠ 1 → avl (zip (f :: p) (Node elem Leaf Leaf 1)).
Proof.
  intros Hc Hh. apply avl_zip. heights.
  assert (∀ s, avl s → 0 ≤ ht s) by (intros; by apply avl_ht).
  destruct f as [d s h|d s h]; cbn in *; destruct Hc as (?&?&->&Hc);
    assert (ht s = 1) as Hs by (pose proof (H s); naive_solver lia);
    rewrite Hs in *; split_and!; (done || lia).
Qed.

(** The only child of an AVL node has no children itself. *)
Lemma walk_start_only_child d l r h h' p :
  avl (Node d l r h) → h ≤ 1 → h' = h + 1 → ctx_avl p h' → walk_start (Node d l r h') p.
Proof.
  intros (Hl&Hr&->&?) Hh -> Hc. apply avl_ht in Hl as [? [Hl _]], Hr as [? [Hr _]].
  rewrite (Hl ltac:(lia)), (Hr ltac:(lia)) in *. exists (FR d Leaf 2), Leaf, 1.
  heights. split_and!; (done || lia).
Qed.

Lemma replace_with_successor_avl d l r h p :
  avl (zip p (Node d l r h)) → (l ≠ Leaf ∨ r ≠ Leaf) →
  ∃ t q, replace_with_successor l r h p = Done (t, q) ∧ walk_start t q.
Proof.
  intros Ha Hn. destruct (replace_with_successor_cases l r h p Hn)
    as [(ds&sr&hs&f&q1&q2&Hd&Heq&Hb&->)|(dl&ll&lr&hl&Hd&->&->)];
    (eexists _, _; split; [exact Hd|]).
  - exists f, sr, (ht (Node ds Leaf sr hs)). split; [done|]. rewrite Heq.
    change (avl (zip (FR d l h :: p) (zip q2 (Node ds Leaf sr hs)))) in Ha.
    rewrite <-zip_app in Ha. apply avl_zip in Ha as [(_&?&?&_) Hc].
    destruct (avl_ht sr); [done|]. heights.
    split_and!; [done| |lia|lia]. by eapply ctx_avl_data.
  - apply avl_zip in Ha as [(?&_&?&?) Hc].
    destruct (avl_ht (Node dl ll lr hl)); [done|].
    apply (walk_start_only_child _ _ _ hl); [done|heights; lia..|done].
Qed.

Lemma replace_with_predecessor_avl d l r h p :
  avl (zip p (Node d l r h)) → (l ≠ Leaf ∨ r ≠ Leaf) →
  ∃ t q, replace_with_predecessor l r h p = Done (t, q) ∧ walk_start t q.
Proof.
  intros Ha Hn. destruct (replace_with_predecessor_cases l r h p Hn)
    as [(ds&sl&hs&f&q1&q2&Hd&Heq&Hb&->)|(dr&rl&rr&hr&Hd&->&->)];
    (eexists _, _; split; [exact Hd|]).
  - exists f, sl, (ht (Node ds sl Leaf hs)). split; [done|]. rewrite Heq.
    change (avl (zip (FL d r h :: p) (zip q2 (Node ds sl Leaf hs)))) in Ha.
    rewrite <-zip_app in Ha. apply avl_zip in Ha as [(?&_&?&_) Hc].
    destruct (avl_ht sl); [done|]. heights.
    split_and!; [done| |lia|lia]. by eapply ctx_avl_data.
  - apply avl_zip in Ha as [(_&?&?&?) Hc].
    destruct (avl_ht (Node dr rl rr hr)); [done|].
    apply (walk_start_only_child _ _ _ hr); [done|heights; lia..|done].
Qed.

Lemma erase_at_avl d l r h p :
  avl (zip p (Node d l r h)) → ∃ root, erase_at l r h p = Done root ∧ avl root.
Proof.
  intros Ha. unfold erase_at.
  destruct (erase_unlink_cases l r h p) as [(->&->&->)|[Hn [-> | ->]]].
  - apply avl_zip in Ha as [(_&_&->&_) Hc]. destruct p as [|f p]; cbn; [by exists Leaf|].
    apply walk_avl; [|done]. exists f, Leaf, 1. heights. split_and!; (done || lia).
  - destruct (replace_with_successor_avl _ _ _ _ _ Ha Hn) as (t&q&->&?). by apply walk_avl.
  - destruct (replace_with_predecessor_avl _ _ _ _ _ Ha Hn) as (t&q&->&?). by apply walk_avl.
Qed.
End avl.

(** ** The search order *)

Section order.
Context {K V : Type} `{KeyOrder K} `{Countable K}.
Implicit Types (t : tree K V) (p : path K V) (k : K) (xs ys : list (K * V)).

Definition below k xs : Prop := Forall (λ x, key_ltb x.1 k = true) xs.
Definition above k xs : Prop := Forall (λ x, key_ltb k x.1 = true) xs.

Fixpoint ordered xs : Prop :=
  match xs with [] => True | x :: xs => above x.1 xs ∧ ordered xs end.

Lemma below_trans k k' xs : below k xs → key_ltb k k' = true → below k' xs.
Proof. intros Hb ?. eapply Forall_impl; [exact Hb|]. cbn. eauto using key_ltb_trans. Qed.
Lemma above_trans k k' xs : above k xs → key_ltb k' k = true → above k' xs.
Proof. intros Hb ?. eapply Forall_impl; [exact Hb|]. cbn. eauto using key_ltb_trans. Qed.

Lemma ordered_mid xs d ys :
  ordered (xs ++ d :: ys) ↔ ordered (xs ++ ys) ∧ below d.1 xs ∧ above d.1 ys.
Proof.
  unfold below, above. induction xs as [|x xs IH]; cbn.
  - rewrite Forall_nil. unfold above. naive_solver.
  - rewrite IH. unfold above. rewrite Forall_cons, !Forall_app, Forall_cons. split.
    + naive_solver.
    + intros ([[??]?]&[??]&?). split_and!; done.
Qed.

Lemma ordered_app_inv xs ys : ordered (xs ++ ys) → ordered xs ∧ ordered ys.
Proof.
  induction xs as [|x xs IH]; cbn; [done|]. unfold above. rewrite Forall_app. naive_solver.
Qed.

Lemma below_lookup k xs : below k xs → (list_to_map xs : gmap K V) !! k = None.
Proof.
  induction 1 as [|[k' v] xs Hk Hxs IH]; cbn in *; [done|].
  rewrite lookup_insert_ne; [done|]. intros ->. by rewrite key_ltb_irrefl in Hk.
Qed.
Lemma above_lookup k xs : above k xs → (list_to_map xs : gmap K V) !! k = None.
Proof.
  induction 1 as [|[k' v] xs Hk Hxs IH]; cbn in *; [done|].
  rewrite lookup_insert_ne; [done|]. intros ->. by rewrite key_ltb_irrefl in Hk.
Qed.

Lemma mid_lookup_None xs ys k : below k xs → above k ys →
  (list_to_map (xs ++ ys) : gmap K V) !! k = None.
Proof.
  intros. rewrite list_to_map_app. apply lookup_union_None.
  split; [by apply below_lookup|by apply above_lookup].
Qed.

Lemma mid_insert xs ys d : below d.1 xs → above d.1 ys →
  (list_to_map (xs ++ d :: ys) : gmap K V) = <[d.1 := d.2]> (list_to_map (xs ++ ys)).
Proof.
  destruct d as [k v]. intros. rewrite !list_to_map_app, list_to_map_cons.
  symmetry. apply insert_union_r. by apply below_lookup.
Qed.

Lemma ordered_size xs : ordered xs → size (list_to_map xs : gmap K V) = length xs.
Proof.
  induction xs as [|[k v] xs IH]; cbn; [done|]. intros [Ha Ho].
  rewrite map_size_insert_None by (by apply above_lookup). by rewrite IH.
Qed.

Lemma ordered_elem k v xs : ordered xs → (k, v) ∈ xs →
  (list_to_map xs : gmap K V) !! k = Some v.
Proof.
  intros Ho (l1&l2&->)%list_elem_of_split. apply ordered_mid in Ho as (_&?&?).
  by rewrite mid_insert, lookup_insert_eq.
Qed.

(** [find_node] finds the element with the key, and only that. *)
Lemma find_node_spec t k : ordered (elements t) →
  find_node t k = pair k <$> (list_to_map (elements t) : gmap K V) !! k.
Proof.
  induction t as [|d l IHl r IHr h]; cbn [elements find_node]; [done|]. intros Ho.
  apply ordered_mid in Ho as (Ho&Hb&Ha). apply ordered_app_inv in Ho as [Hol Hor].
  rewrite mid_insert by done. destruct d as [k' v]. cbn [fst snd] in *.
  destruct (key_eqb k' k) eqn:He.
  { apply key_eqb_eq in He as ->. by rewrite lookup_insert_eq. }
  assert (k' ≠ k) as Hne by (intros ?%key_eqb_eq; congruence).
  rewrite lookup_insert_ne, list_to_map_app by done.
  destruct (key_ltb k k') eqn:Hlt.
  - rewrite lookup_union_l by (apply above_lookup; by eapply above_trans). auto.
  - rewrite lookup_union_r; [auto|]. apply below_lookup. eapply below_trans; [done|].
    by apply key_ltb_total.
Qed.
End order.

(** ** Refinement: the map is a finite map *)

Section refinement.
Context {K V : Type} `{KeyOrder K} `{Countable K}.
Implicit Types (t : tree K V) (p : path K V) (k : K) (m : map K V) (g : gmap K V).

Definition map_rep m g : Prop :=
  avl (m_root m) ∧ ordered (elements (m_root m)) ∧
  list_to_map (elements (m_root m)) = g ∧ m_size m = u32 (Z.of_nat (size g)).

(** Filling the slot [f] of an AVL tree. *)
Lemma insert_at_spec m elem f p :
  avl (zip (f :: p) Leaf) →
  ∃ root, insert_at m elem f p = Done (true, mk_map root (u32 (m_size m + 1))) ∧ avl root ∧
    elements root = before (f :: p) ++ elem :: after (f :: p).
Proof.
  intros [_ Hc]%avl_zip. unfold insert_at.
  replace (ht (plug f (Node elem Leaf Leaf 1))) with (ht (plug f (@Leaf K V))) by by destruct f.
  destruct (Z.eqb_spec (ht (plug f (@Leaf K V))) 1).
  - destruct (walk_avl p (plug f (Node elem Leaf Leaf 1)) (walk_fuel p)) as (root&Hw&?);
      [by apply avl_fill_slot|done|].
    exists root. rewrite Hw. split_and!; [done..|]. rewrite (elements_walk _ _ _ _ Hw).
    exact (elements_zip (f :: p) (Node elem Leaf Leaf 1)).
  - exists (zip (f :: p) (Node elem Leaf Leaf 1)).
    split_and!; [done|by apply avl_fill_full|]. by rewrite elements_zip.
Qed.

(** The bounds on the search key that the path keeps. *)
Lemma search_left d l r h p k : ordered (elements (zip p (Node d l r h))) →
  key_ltb k d.1 = true → above k (after p) → above k (after (FL d r h :: p)).
Proof.
  rewrite elements_zip. intros [_ Ho]%ordered_app_inv ??. cbn in Ho.
  apply ordered_app_inv in Ho as [(_&_&?)%ordered_mid _].
  apply Forall_cons. split; [done|]. apply Forall_app. split; [by eapply above_trans|done].
Qed.

Lemma search_right d l r h p k : ordered (elements (zip p (Node d l r h))) →
  key_ltb d.1 k = true → below k (before p) → below k (before (FR d l h :: p)).
Proof.
  rewrite elements_zip. intros [_ Ho]%ordered_app_inv ??. cbn in Ho.
  apply ordered_app_inv in Ho as [(_&?&_)%ordered_mid _].
  apply Forall_app. split; [done|]. apply Forall_app. split; [by eapply below_trans|].
  by apply Forall_singleton.
Qed.

Lemma key_above d k : key_eqb d k = false → key_ltb k d = false → key_ltb d k = true.
Proof. intros He Hl. apply key_ltb_total; [|done]. intros ?%eq_sym%key_eqb_eq. congruence. Qed.

Lemma insert_loop_spec m elem t : ∀ p,
  t ≠ Leaf → avl (zip p t) → ordered (elements (zip p t)) →
  below elem.1 (before p) → above elem.1 (after p) →
  (∃ v, (elem.1, v) ∈ elements t ∧ insert_loop m elem t p = Done (false, m)) ∨
  (∃ root xs ys, insert_loop m elem t p = Done (true, mk_map root (u32 (m_size m + 1))) ∧
    avl root ∧ elements (zip p t) = xs ++ ys ∧ elements root = xs ++ elem :: ys ∧
    below elem.1 xs ∧ above elem.1 ys).
Proof.
  induction t as [|d l IHl r IHr h]; intros p Ht Ha Ho Hb Hab; [done|].
  cbn [insert_loop]. destruct (key_eqb d.1 elem.1) eqn:He.
  { left. apply key_eqb_eq in He. exists d.2. rewrite <-He. destruct d. cbn. set_solver. }
  destruct (key_ltb elem.1 d.1) eqn:Hlt.
  - pose proof (search_left _ _ _ _ _ _ Ho Hlt Hab).
    destruct l as [|dl ll lr hl].
    + right. destruct (insert_at_spec m elem (FL d r h) p Ha) as (root&?&?&?).
      eexists root, _, _. split_and!; [done..| |done|done|done].
      exact (elements_zip (FL d r h :: p) Leaf).
    + destruct (IHl (FL d r h :: p)) as [(v&?&?)|?]; [done..| |by right].
      left. exists v. rewrite (elements_Node d). set_solver.
  - apply key_above in Hlt; [|done]. pose proof (search_right _ _ _ _ _ _ Ho Hlt Hb).
    destruct r as [|dr rl rr hr].
    + right. destruct (insert_at_spec m elem (FR d l h) p Ha) as (root&?&?&?).
      eexists root, _, _. split_and!; [done..| |done|done|done].
      exact (elements_zip (FR d l h :: p) Leaf).
    + destruct (IHr (FR d l h :: p)) as [(v&?&?)|?]; [done..| |by right].
      left. exists v. rewrite (elements_Node d). set_solver.
Qed.

Lemma erase_loop_spec m k t : ∀ p,
  avl (zip p t) → ordered (elements (zip p t)) → below k (before p) → above k (after p) →
  (below k (before p) ∧ erase_loop m k t p = Done m ∧
    (list_to_map (elements (zip p t)) : gmap K V) !! k = None) ∨
  (∃ root xs d ys, erase_loop m k t p = Done (mk_map root (u32 (m_size m - 1))) ∧
    avl root ∧ elements (zip p t) = xs ++ d :: ys ∧ d.1 = k ∧ elements root = xs ++ ys).
Proof.
  induction t as [|d l IHl r IHr h]; intros p Ha Ho Hb Hab; cbn [erase_loop].
  { left. split_and!; [done..|]. rewrite elements_zip. by apply mid_lookup_None. }
  destruct (key_eqb d.1 k) eqn:He.
  { right. apply key_eqb_eq in He. destruct (erase_at_avl _ _ _ _ _ Ha) as (root&Hr&?).
    rewrite Hr. exists root, (before p ++ elements l), d, (elements r ++ after p).
    split_and!; [done|done| |done|].
    - rewrite elements_zip. cbn. by app_norm.
    - rewrite (elements_erase_at _ _ _ _ _ Hr). by app_norm. }
  destruct (key_ltb k d.1) eqn:Hlt.
  - pose proof (search_left _ _ _ _ _ _ Ho Hlt Hab).
    destruct (IHl (FL d r h :: p)) as [(?&?&?)|?]; [done..|by left|by right].
  - apply key_above in Hlt; [|done]. pose proof (search_right _ _ _ _ _ _ Ho Hlt Hb).
    destruct (IHr (FR d l h :: p)) as [(?&?&?)|?]; [done..|by left|by right].
Qed.

(** The operations, one by one. *)
Lemma insert_nonempty m elem :
  m_root m ≠ Leaf → insert m elem = insert_loop m elem (m_root m) [].
Proof. intros. unfold insert. by destruct (m_root m). Qed.

Lemma insert_rep m g k v : map_rep m g →
  ∃ m', insert m (k, v) = Done (bool_decide (g !! k = None), m') ∧
    map_rep m' (if decide (g !! k = None) then <[k := v]> g else g).
Proof.
  destruct m as [root n]. intros (Ha&Ho&<-&Hs). cbn [m_root m_size] in *.
  assert (root = Leaf ∨ root ≠ Leaf) as [->|Hn] by (destruct root; auto).
  { subst. cbn [elements]. rewrite list_to_map_nil, lookup_empty, decide_True by done.
    eexists. split; [done|]. unfold map_rep. cbn [m_root m_size].
    rewrite map_size_insert_None, map_size_empty by done.
    split_and!; cbn; [lia|by repeat constructor|done..]. }
  rewrite insert_nonempty by done. cbn [m_root].
  destruct (insert_loop_spec (mk_map root n) (k, v) root []) as [(v'&Hv&Hr)|
    (root'&xs&ys&Hr&?&Heq&Hel&?&?)]; [done..|apply List.Forall_nil|apply List.Forall_nil| |];
    rewrite Hr; cbn [fst] in *.
  - apply ordered_elem in Hv; [|done]. rewrite Hv. eexists. split; [done|]. by split_and!.
  - cbn [zip] in Heq. rewrite Heq, mid_lookup_None, decide_True by done.
    eexists. split; [done|]. unfold map_rep; cbn [m_root m_size].
    rewrite Hel, mid_insert, Hs, u32_add_l, Heq by done. split_and!; [done|..|done|].
    + apply ordered_mid. split; [by rewrite <-Heq|done].
    + rewrite map_size_insert_None by (by apply mid_lookup_None). f_equal. lia.
Qed.

Lemma erase_rep m g k : map_rep m g →
  ∃ m', erase m k = Done m' ∧ map_rep m' (delete k g).
Proof.
  destruct m as [root n]. intros (Ha&Ho&<-&Hs). unfold erase. cbn [m_root m_size] in *.
  destruct (erase_loop_spec (mk_map root n) k root []) as [(_&Hr&Hn)|
    (root'&xs&d&ys&Hr&?&Heq&<-&Hel)]; [done|done|apply List.Forall_nil|apply List.Forall_nil|..];
    rewrite Hr; (eexists; split; [done|]); cbn [zip] in *.
  - rewrite delete_id by done. by split_and!.
  - rewrite Heq in *. pose proof Ho as (?&?&?)%ordered_mid.
    unfold map_rep; cbn [m_root m_size].
    rewrite mid_insert, delete_insert_id in * by (done || by apply mid_lookup_None).
    rewrite Hel, Hs. split_and!; [done..|].
    rewrite map_size_insert_None by (by apply mid_lookup_None).
    rewrite u32_sub_l. f_equal. lia.
Qed.

Lemma get_rep m g k : map_rep m g → get m k = g !! k.
Proof.
  intros (_&Ho&<-&_). unfold get. rewrite find_node_spec by done.
  by destruct (_ !! k).
Qed.

Lemma find_rep m g k : map_rep m g → find_node (m_root m) k = pair k <$> g !! k.
Proof. intros (_&Ho&<-&_). by rewrite find_node_spec. Qed.

Lemma index_rep m g k v : map_rep m g →
  ∃ m', index m k v = Done (default v (g !! k), m') ∧
    map_rep m' (if decide (g !! k = None) then <[k := v]> g else g).
Proof.
  intros Hm. unfold index. rewrite (find_rep _ _ _ Hm).
  destruct (insert_rep m g k v Hm) as (m'&Hi&Hm').
  destruct (g !! k) as [w|] eqn:Hk; cbn.
  - exists m. by rewrite decide_False in * by done.
  - exists m'. by rewrite Hi.
Qed.

(** Sequences of operations, on the tree and on a finite map. *)
Inductive map_op : Type :=
  | OpInsert (k : K) (v : V) | OpErase (k : K) | OpIndex (k : K) (v : V)
  | OpGet (k : K) | OpContains (k : K) | OpSize.

Inductive map_out : Type :=
  | OutNode (inserted : bool) | OutNone | OutVal (v : option V) | OutBool (b : bool)
  | OutSize (n : Z).

Definition map_exec (o : map_op) (m : map K V) : outcome (map_out * map K V) :=
  match o with
  | OpInsert k v => '(b, m) ← insert m (k, v); Done (OutNode b, m)
  | OpErase k => m ← erase m k; Done (OutNone, m)
  | OpIndex k v => '(w, m) ← index m k v; Done (OutVal (Some w), m)
  | OpGet k => Done (OutVal (get m k), m)
  | OpContains k => Done (OutBool (contains m k), m)
  | OpSize => Done (OutSize (m_size m), m)
  end.

Definition gmap_exec (o : map_op) (g : gmap K V) : map_out * gmap K V :=
  match o with
  | OpInsert k v =>
      if decide (g !! k = None) then (OutNode true, <[k := v]> g) else (OutNode false, g)
  | OpErase k => (OutNone, delete k g)
  | OpIndex k v =>
      (OutVal (Some (default v (g !! k))),
       if decide (g !! k = None) then <[k := v]> g else g)
  | OpGet k => (OutVal (g !! k), g)
  | OpContains k => (OutBool (bool_decide (is_Some (g !! k))), g)
  | OpSize => (OutSize (u32 (Z.of_nat (size g))), g)
  end.

Fixpoint map_run (os : list map_op) (m : map K V) : outcome (list map_out * map K V) :=
  match os with
  | [] => Done ([], m)
  | o :: os => '(a, m) ← map_exec o m; '(outs, m) ← map_run os m; Done (a :: outs, m)
  end.

Fixpoint gmap_run (os : list map_op) (g : gmap K V) : list map_out * gmap K V :=
  match os with
  | [] => ([], g)
  | o :: os => let '(a, g) := gmap_exec o g in let '(outs, g) := gmap_run os g in (a :: outs, g)
  end.

Lemma map_exec_refines o m g : map_rep m g →
  ∃ m', map_exec o m = Done ((gmap_exec o g).1, m') ∧ map_rep m' (gmap_exec o g).2.
Proof.
  intros Hm. destruct o as [k v|k|k v|k|k|]; cbn.
  - destruct (insert_rep m g k v Hm) as (m'&->&Hm'). cbn. exists m'.
    revert Hm'. by destruct (g !! k).
  - destruct (erase_rep m g k Hm) as (m'&->&Hm'). by exists m'.
  - destruct (index_rep m g k v Hm) as (m'&->&Hm'). by exists m'.
  - exists m. by rewrite (get_rep m g k).
  - exists m. split; [|done]. unfold contains. rewrite (find_rep m g k) by done.
    by destruct (g !! k).
  - exists m. by pose proof Hm as (_&_&_&->).
Qed.

Lemma map_run_refines os : ∀ m g, map_rep m g →
  ∃ m', map_run os m = Done ((gmap_run os g).1, m') ∧ map_rep m' (gmap_run os g).2.
Proof.
  induction os as [|o os IH]; intros m g Hm; cbn; [by exists m|].
  destruct (map_exec_refines o m g Hm) as (m'&->&Hm'). destruct (gmap_exec o g) as [a g'].
  cbn in *. destruct (IH m' g' Hm') as (m''&->&Hm''). cbn. exists m''.
  by destruct (gmap_run os g').
Qed.

Lemma map_new_rep : map_rep map_new ∅.
Proof. by split_and!. Qed.
End refinement.

(** ** Depth *)

(** A tree of height [h] has at least [2^(h/2) - 1] elements. *)
Lemma avl_depth {K V} (t : tree K V) :
  avl t → 2 ^ ht t ≤ (Z.of_nat (length (elements t)) + 1) ^ 2.
Proof.
  induction t as [|d l IHl r IHr h]; cbn [avl ht elements]; [done|].
  intros (Hl&Hr&->&Hb). specialize (IHl Hl). specialize (IHr Hr).
  apply avl_ht in Hl as [Hl _], Hr as [Hr _]. rewrite length_app, length_cons.
  set (a := Z.of_nat (length (elements l)) + 1) in *.
  set (b := Z.of_nat (length (elements r)) + 1) in *.
  replace (Z.of_nat _ + 1) with (a + b) by lia.
  assert (0 < a ∧ 0 < b) as [??] by lia.
  assert (∀ x y X, 0 < x → 0 < y → 0 < X → 2 * X ≤ x ^ 2 → X ≤ y ^ 2 → 4 * X ≤ (x + y) ^ 2) as Hq.
  { intros x y X ?????. assert (X ≤ x * y) by nia. nia. }
  assert (∀ n, 0 ≤ n → 2 ^ (n + 1) = 2 * 2 ^ n) as Hp by (intros; apply Z.pow_succ_r; lia).
  assert (∀ n, 0 ≤ n → 0 < 2 ^ n) as Hpos by (intros; lia).
  destruct (Z.max_spec (ht l) (ht r)) as [[? ->]|[? ->]].
  - replace (ht r) with (ht l + 1) in * by lia. rewrite (Z.add_comm a b), !Hp by lia.
    rewrite Hp in IHr by lia.
    pose proof (Hq b a (2 ^ ht l)). pose proof (Hpos (ht l)). nia.
  - assert (2 ^ ht l ≤ 2 * 2 ^ ht r) by (rewrite <-Hp by lia; apply Z.pow_le_mono_r; lia).
    rewrite Hp by lia. destruct (Z.eq_dec (ht l) (ht r)) as [He|].
    + rewrite He in *. nia.
    + replace (ht l) with (ht r + 1) in * by lia. rewrite Hp in IHl |- * by lia.
      pose proof (Hq a b (2 ^ ht r)). pose proof (Hpos (ht r)). lia.
Qed.

(** ** Iteration *)

Section iteration.
Context {K V : Type}.
Implicit Types (t : tree K V) (p : path K V) (m : map K V) (i : iterator K V).

(** [i] is at position [n] of the elements of [m]; the end is at the end. *)
Definition at_pos m i (n : nat) : Prop :=
  match i with
  | None => n = length (elements (m_root m))
  | Some (Leaf, _) => False
  | Some (Node d l r h, p) =>
      zip p (Node d l r h) = m_root m ∧ n = length (before p ++ elements l)
  end.

Lemma go_leftmost_spec t : ∀ p, t ≠ Leaf → ∃ d r h p',
  go_leftmost t p = Some (Node d Leaf r h, p') ∧ zip p' (Node d Leaf r h) = zip p t ∧
  before p' = before p.
Proof.
  induction t as [|d l IHl r _ h]; intros p Ht; [done|]. destruct l as [|dl ll lr hl].
  - by exists d, r, h, p.
  - destruct (IHl (FL d r h :: p)) as (d'&r'&h'&p'&?&?&?); [done|]. by exists d', r', h', p'.
Qed.

Lemma go_rightmost_spec t : ∀ p, t ≠ Leaf → ∃ d l h p',
  go_rightmost t p = Some (Node d l Leaf h, p') ∧ zip p' (Node d l Leaf h) = zip p t ∧
  after p' = after p.
Proof.
  induction t as [|d l _ r IHr h]; intros p Ht; [done|]. destruct r as [|dr rl rr hr].
  - by exists d, l, h, p.
  - destruct (IHr (FR d l h :: p)) as (d'&l'&h'&p'&?&?&?); [done|]. by exists d', l', h', p'.
Qed.

Lemma climb_right_spec p : ∀ t,
  (climb_right t p = None ∧ after p = []) ∨
  (∃ d l r h p', climb_right t p = Some (Node d l r h, p') ∧
    zip p' (Node d l r h) = zip p t ∧ before p' ++ elements l = before p ++ elements t).
Proof.
  induction p as [|[d s h|d s h] p IH]; intros t; [by left| |].
  - right. by exists d, t, s, h, p.
  - destruct (IH (Node d s t h)) as [?|(d'&l&r&h'&p'&Hc&?&Hb)]; [by left|].
    right. exists d', l, r, h', p'. split_and!; [done..|]. rewrite Hb. cbn. by app_norm.
Qed.

Lemma climb_left_spec p : ∀ t,
  (climb_left t p = None ∧ before p = []) ∨
  (∃ d l r h p', climb_left t p = Some (Node d l r h, p') ∧
    zip p' (Node d l r h) = zip p t ∧ before p = before p' ++ elements l ++ [d]).
Proof.
  induction p as [|[d s h|d s h] p IH]; intros t; [by left| |].
  - destruct (IH (Node d t s h)) as [?|(d'&l&r&h'&p'&Hc&?&Hb)]; [by left|].
    right. by exists d', l, r, h', p'.
  - right. by exists d, s, t, h, p.
Qed.

Lemma begin_at m : at_pos m (begin m) 0.
Proof.
  unfold begin. destruct (m_root m) as [|d l r h] eqn:Hr; [cbn; by rewrite Hr|].
  destruct (go_leftmost_spec (m_root m) []) as (d'&r'&h'&p'&Hg&?&Hb); [by rewrite Hr|].
  rewrite <-Hr, Hg. cbn. by rewrite Hb.
Qed.

Lemma at_pos_length m d l r h p : zip p (Node d l r h) = m_root m →
  length (elements (m_root m)) =
    (length (before p ++ elements l) + S (length (elements r ++ after p)))%nat.
Proof. intros <-. rewrite elements_zip. cbn [elements]. repeat (rewrite !length_app; cbn [length]). lia. Qed.

Lemma next_at m i n : at_pos m i n → (n < length (elements (m_root m)))%nat →
  at_pos m (next i) (S n).
Proof.
  destruct i as [[t p]|]; cbn [at_pos]; [|lia]. destruct t as [|d l r h]; [done|].
  intros [Hz ->] _. pose proof (at_pos_length m _ _ _ _ _ Hz) as Hlen.
  cbn [next inorder_successor]. destruct r as [|dr rl rr hr].
  - destruct (climb_right_spec p (Node d l Leaf h)) as [[-> Ha]|(d'&l'&r'&h'&p'&->&Hz'&Hb)]; cbn.
    + rewrite Ha in Hlen. cbn in Hlen. lia.
    + rewrite Hz', Hb. split; [done|]. cbn. rewrite !length_app. cbn. lia.
  - destruct (go_leftmost_spec (Node dr rl rr hr) (FR d l h :: p))
      as (d'&r'&h'&p'&->&Hz'&Hb); [done|]. cbn.
    rewrite Hz', Hb. split; [done|]. cbn. rewrite !length_app. cbn. lia.
Qed.

Lemma prev_at m i n : at_pos m i (S n) → at_pos m (prev m i) n.
Proof.
  destruct i as [[t p]|]; cbn [at_pos].
  - destruct t as [|d l r h]; [done|]. intros [Hz Hn].
    cbn [prev inorder_predecessor]. destruct l as [|dl ll lr hl].
    + cbn in Hn. rewrite app_nil_r in Hn.
      destruct (climb_left_spec p (Node d Leaf r h)) as [[-> Ha]|(d'&l'&r'&h'&p'&->&Hz'&Hb)].
      * by rewrite Ha in Hn.
      * cbn. rewrite Hz'. split; [done|]. rewrite Hb, !length_app in Hn. cbn in Hn.
        rewrite length_app. lia.
    + destruct (go_rightmost_spec (Node dl ll lr hl) (FL d r h :: p))
        as (d'&l'&h'&p'&->&Hz'&Ha); [done|]. cbn.
      split; [by rewrite Hz'|]. apply (f_equal elements) in Hz'.
      rewrite !elements_zip, Ha in Hz'. rewrite length_app in *.
      apply (f_equal length) in Hz'. rewrite !length_app in Hz'. cbn in *.
      rewrite !length_app in *. cbn in *. lia.
  - intros Hn. cbn. assert (m_root m ≠ Leaf) as Hr by (intros Hr; by rewrite Hr in Hn).
    destruct (go_rightmost_spec (m_root m) [] Hr) as (d'&l'&h'&p'&->&Hz'&Ha). cbn.
    split; [done|]. cbn in Hz'. rewrite <-Hz', elements_zip, Ha in Hn. cbn in Hn.
    rewrite !length_app in *. cbn in *. lia.
Qed.

Lemma deref_at m i n : at_pos m i n → deref i = elements (m_root m) !! n.
Proof.
  destruct i as [[[|d l r h] p]|]; cbn; [done| |].
  - intros [<- ->]. rewrite elements_zip. cbn. app_norm. rewrite app_assoc.
    by rewrite list_lookup_middle.
  - intros ->. by rewrite lookup_ge_None_2.
Qed.

Lemma next_end n : Nat.iter n next (None : iterator K V) = None.
Proof. induction n as [|n IH]; [done|]. by rewrite Nat.iter_succ, IH. Qed.

(** Stepping forward [n] times, or back [n] times, moves by [n], up to the end. *)
Lemma iter_next_at m n i k : at_pos m i k → (k + n ≤ length (elements (m_root m)))%nat →
  at_pos m (Nat.iter n next i) (k + n).
Proof.
  intros Hi. induction n as [|n IH]; rewrite ?Nat.iter_succ; intros Hn.
  - by rewrite Nat.add_0_r.
  - replace (k + S n)%nat with (S (k + n)) by lia. apply next_at; [|lia]. apply IH. lia.
Qed.

Lemma iter_prev_at m n i k : at_pos m i (n + k) → at_pos m (Nat.iter n (prev m) i) k.
Proof.
  revert k. induction n as [|n IH]; intros k Hi; [done|].
  rewrite Nat.iter_succ. apply prev_at. apply IH. by replace (n + S k)%nat with (S n + k)%nat by lia.
Qed.

Lemma iter_next_deref m n :
  deref (Nat.iter n next (begin m)) = elements (m_root m) !! n.
Proof.
  destruct (decide (n ≤ length (elements (m_root m)))%nat) as [Hn|Hn].
  - apply deref_at, (iter_next_at m n (begin m) 0); [apply begin_at|done].
  - rewrite lookup_ge_None_2 by lia.
    set (k := length (elements (m_root m))) in *.
    replace n with ((n - k) + k)%nat by lia. rewrite Nat.iter_add.
    assert (at_pos m (Nat.iter k next (begin m)) k) as Hk
      by (apply (iter_next_at m k (begin m) 0); [apply begin_at|done]).
    destruct (Nat.iter k next (begin m)) as [[[|d l r h] p]|]; cbn in Hk; [done| |].
    + destruct Hk as [Hz Hk]. pose proof (at_pos_length m _ _ _ _ _ Hz). lia.
    + by rewrite next_end.
Qed.
End iteration.

(** ** Theorems *)

(** C23: any sequence of insertions, removals, [operator[]] accesses, lookups and
    size queries on an empty map runs to completion (no assertion fails, no
    null pointer is followed, no walk runs out of fuel) and gives the results
    of the same sequence on a finite map; the tree it leaves is a height
    balanced search tree of exactly that finite map. *)
Theorem avl_map_refines_gmap {K V} `{KeyOrder K} `{Countable K} (os : list (@map_op K V)) :
  ∃ m', map_run os map_new = Done ((gmap_run os ∅).1, m') ∧ map_rep m' (gmap_run os ∅).2.
Proof. apply map_run_refines, map_new_rep. Qed.

(** The tree of a map with [n] elements has a height of at most
    [2 log2 (n + 1)]: lookups, insertions and removals are logarithmic. *)
Theorem avl_map_depth {K V} `{KeyOrder K} `{Countable K} (m : map K V) (g : gmap K V) :
  map_rep m g → 2 ^ ht (m_root m) ≤ (Z.of_nat (size g) + 1) ^ 2.
Proof. intros (Ha&Ho&<-&_). rewrite ordered_size by done. by apply avl_depth. Qed.

(** Iterating with [operator++] from [begin] visits the elements of the map
    in increasing key order, each once, and stops at the end; iterating with
    [operator--] from the end visits them in the opposite order. *)
Theorem map_iteration_in_order {K V} `{KeyOrder K} `{Countable K} (m : map K V) (g : gmap K V) :
  map_rep m g → ∃ xs, ordered xs ∧ list_to_map xs = g ∧ length xs = size g ∧
    (∀ n, deref (iter_add m (begin m) (Z.of_nat n)) = xs !! n) ∧
    (∀ n, (n < length xs)%nat →
       deref (iter_add m None (- Z.of_nat (S n))) = reverse xs !! n).
Proof.
  intros (_&Ho&<-&_). exists (elements (m_root m)).
  split_and!; [done|done|by rewrite ordered_size|..].
  - intros n. unfold iter_add. rewrite <-iter_next_deref. destruct n as [|n]; [done|].
    rewrite (proj2 (Z.ltb_lt 0 _)) by lia. by rewrite Nat2Z.id.
  - intros n Hn. unfold iter_add. rewrite (proj2 (Z.ltb_ge 0 _)) by lia.
    rewrite Z.opp_involutive, Nat2Z.id, reverse_lookup by done.
    apply deref_at, iter_prev_at. cbn. lia.
Qed.

(** Ordering two iterators compares an iterator with itself, so an iterator
    into the map is never before another one, whatever their positions. *)
Theorem iter_ltb_never {K V} `{KeyOrder K} (i other : iterator K V) :
  iter_ltb i other ≠ Done true.
Proof. unfold iter_ltb. destruct (deref i); [|done]. by rewrite key_ltb_irrefl. Qed.

(** ** Witnesses *)

(** Ascending keys rotate left, and removals rotate back. *)
Definition sample_ops : list (@map_op Z Z) :=
  [OpInsert 1 10; OpInsert 2 20; OpInsert 3 30; OpInsert 4 40; OpInsert 5 50;
   OpInsert 3 33; OpErase 1; OpErase 2; OpIndex 7 70; OpGet 4; OpContains 2; OpSize].

Definition sample_map : map Z Z :=
  match map_run sample_ops map_new with Done (_, m) => m | _ => map_new end.

Example sample_run :
  map_run sample_ops map_new = Done
    ([OutNode true; OutNode true; OutNode true; OutNode true; OutNode true; OutNode false;
      OutNone; OutNone; OutVal (Some 70); OutVal (Some 40); OutBool false; OutSize 4], sample_map).
Proof. vm_compute. reflexivity. Qed.

Lemma sample_rep : map_rep sample_map (gmap_run sample_ops (∅ : gmap Z Z)).2.
Proof.
  destruct (map_run_refines sample_ops map_new ∅ map_new_rep) as (m&Hr&Hm).
  unfold sample_map. by rewrite Hr.
Qed.

Lemma avl_map_depth_witness :
  2 ^ ht (m_root sample_map) ≤ (Z.of_nat (size (gmap_run sample_ops (∅ : gmap Z Z)).2) + 1) ^ 2
  ∧ ht (m_root sample_map) = 3.
Proof. split; [exact (avl_map_depth _ _ sample_rep)|by vm_compute]. Defined.

Lemma map_iteration_in_order_witness :
  ∃ xs, ordered xs ∧ list_to_map xs = (gmap_run sample_ops (∅ : gmap Z Z)).2 ∧
    length xs = size (gmap_run sample_ops (∅ : gmap Z Z)).2 ∧
    (∀ n, deref (iter_add sample_map (begin sample_map) (Z.of_nat n)) = xs !! n) ∧
    (∀ n, (n < length xs)%nat →
       deref (iter_add sample_map None (- Z.of_nat (S n))) = reverse xs !! n).
Proof. exact (map_iteration_in_order _ _ sample_rep). Defined.
