(* ===== verification/Bitmap.v ===== *)
(** * kstd::Bitmap (kernel/kstd/Bitmap.h)

    The bit arrays of the buddy allocator, as the bytes [m_bits] points to.
    [bm_rep b n f] says that the first [n] bits of [b] are given by [f]. *)

From stdpp Require Import base numbers list option.
From S2P Require Import Prelude.

Local Open Scope Z_scope.

Record Bitmap : Type := mk_Bitmap {
  m_bits : option (list Z);
  m_num_bits : Z;
}.

Definition bitmap_empty : Bitmap := mk_Bitmap None 0.

(** The bytes of [n] bits. *)
Definition bitmap_bytes (n : Z) : Z := (n + 7) / 8.

(** [memset] of the first bytes. *)
Definition set_all (b : Bitmap) (value : bool) : outcome Bitmap :=
  match m_bits b with
  | None => if bitmap_bytes (m_num_bits b) =? 0 then Done b else Undef
  | Some bytes =>
      let n := Z.to_nat (bitmap_bytes (m_num_bits b)) in
      if (n <=? length bytes)%nat then
        Done (mk_Bitmap (Some (replicate n (if value then 255 else 0) ++ drop n bytes))
                (m_num_bits b))
      else Undef
  end.

(** [Bitmap(num_bits, default_value)]; [raw] is what [kmalloc] returns. *)
Definition bitmap_new (raw : list Z) (num_bits : Z) (default_value : bool) : outcome Bitmap :=
  set_all (mk_Bitmap (Some (take (Z.to_nat (bitmap_bytes num_bits)) raw)) num_bits) default_value.

(** [Bitmap(Bitmap&&)]: the new bitmap and what is left of [other]. *)
Definition bitmap_move (other : Bitmap) : Bitmap * Bitmap :=
  (mk_Bitmap (m_bits other) (m_num_bits other), mk_Bitmap None 0).

(** [operator=(Bitmap&&)]: the number of bits is not taken over. *)
Definition assign_move (b other : Bitmap) : Bitmap * Bitmap :=
  (mk_Bitmap (m_bits other) (m_num_bits b), mk_Bitmap None (m_num_bits other)).

Definition get (b : Bitmap) (index : Z) : outcome bool :=
  match m_bits b with
  | None => Panic
  | Some bytes =>
      match bytes !! Z.to_nat (index / 8) with
      | Some byte => Done (negb (Z.land byte (Z.shiftl 1 (index mod 8)) =? 0))
      | None => Undef
      end
  end.

Definition set (b : Bitmap) (index : Z) (value : bool) : outcome Bitmap :=
  match m_bits b with
  | None => Panic
  | Some bytes =>
      match bytes !! Z.to_nat (index / 8) with
      | Some byte =>
          let byte := if value then u8 (Z.lor byte (Z.shiftl 1 (index mod 8)))
                      else u8 (Z.land byte (Z.lnot (Z.shiftl 1 (index mod 8)))) in
          Done (mk_Bitmap (Some (<[Z.to_nat (index / 8) := byte]> bytes)) (m_num_bits b))
      | None => Undef
      end
  end.

(** ** The bits *)

(** A bit of a byte, as the code tests it. *)
Lemma test_bit x k : 0 ≤ k → negb (Z.land x (Z.shiftl 1 k) =? 0) = Z.testbit x k.
Proof.
  intros Hk. destruct (Z.testbit x k) eqn:Ht.
  - destruct (Z.eqb_spec (Z.land x (Z.shiftl 1 k)) 0) as [He|]; [|done].
    apply (f_equal (λ z, Z.testbit z k)) in He.
    rewrite Z.land_spec, Ht, Z.shiftl_1_l, Z.pow2_bits_true, Z.bits_0 in He by done. done.
  - rewrite (proj2 (Z.eqb_eq _ _)); [done|]. apply Z.bits_inj_0. intros i.
    rewrite Z.land_spec, Z.shiftl_1_l, Z.pow2_bits_eqb by done.
    destruct (Z.eqb_spec k i) as [->|]; [by rewrite Ht|by rewrite andb_false_r].
Qed.

Lemma set_bit_spec x k (v : bool) i : 0 ≤ k < 8 → 0 ≤ i < 8 →
  Z.testbit (if v then u8 (Z.lor x (Z.shiftl 1 k)) else u8 (Z.land x (Z.lnot (Z.shiftl 1 k)))) i =
    if i =? k then v else Z.testbit x i.
Proof.
  intros Hk Hi. unfold u8. replace (2 ^ 8) with (2 ^ Z.of_nat 8) by done.
  destruct v; rewrite Z.mod_pow2_bits_low by lia.
  - rewrite Z.lor_spec, Z.shiftl_1_l, Z.pow2_bits_eqb by lia.
    destruct (Z.eqb_spec i k) as [->|].
    + by rewrite Z.eqb_refl, orb_true_r.
    + rewrite (proj2 (Z.eqb_neq k i)) by lia. by rewrite orb_false_r.
  - rewrite Z.land_spec, Z.lnot_spec, Z.shiftl_1_l, Z.pow2_bits_eqb by lia.
    destruct (Z.eqb_spec i k) as [->|].
    + by rewrite Z.eqb_refl, andb_false_r.
    + rewrite (proj2 (Z.eqb_neq k i)) by lia. by rewrite andb_true_r.
Qed.

Definition bm_rep (b : Bitmap) (n : Z) (f : Z → bool) : Prop :=
  ∃ bytes, m_bits b = Some bytes ∧ n ≤ 8 * Z.of_nat (length bytes) ∧
    ∀ i, 0 ≤ i < n → ∃ byte, bytes !! Z.to_nat (i / 8) = Some byte ∧ Z.testbit byte (i mod 8) = f i.

Lemma bm_rep_ext b n f g : (∀ i, 0 ≤ i < n → f i = g i) → bm_rep b n f → bm_rep b n g.
Proof.
  intros Hfg (bytes&?&?&Hf). exists bytes. split_and!; [done..|].
  intros i Hi. rewrite <-Hfg by done. by apply Hf.
Qed.

Lemma bm_get b n f i : bm_rep b n f → 0 ≤ i < n → get b i = Done (f i).
Proof.
  intros (bytes&Hb&_&Hf) Hi. unfold get. rewrite Hb. destruct (Hf i Hi) as (byte&->&<-).
  rewrite test_bit; [done|]. pose proof (Z.mod_pos_bound i 8). lia.
Qed.

Lemma bm_set b n f i v : bm_rep b n f → 0 ≤ i < n →
  ∃ b', set b i v = Done b' ∧ bm_rep b' n (λ j, if j =? i then v else f j).
Proof.
  intros (bytes&Hb&Hn&Hf) Hi. unfold set. rewrite Hb. destruct (Hf i Hi) as (byte&Hby&Hbi).
  rewrite Hby. eexists. split; [done|]. eexists. split; [done|]. rewrite length_insert.
  split; [done|]. intros j Hj. destruct (Hf j Hj) as (bj&Hbj&Htj).
  pose proof (lookup_lt_Some _ _ _ Hby).
  pose proof (Z.mod_pos_bound i 8). pose proof (Z.mod_pos_bound j 8).
  pose proof (Z.div_mod i 8). pose proof (Z.div_mod j 8).
  pose proof (Z.div_pos i 8). pose proof (Z.div_pos j 8).
  destruct (decide (i / 8 = j / 8)) as [He|He].
  - rewrite He, list_lookup_insert_eq by (rewrite <-He; done). eexists. split; [done|].
    rewrite set_bit_spec by lia. rewrite He in Hby. simplify_eq.
    destruct (Z.eqb_spec (j mod 8) (i mod 8)), (Z.eqb_spec j i); (done || lia).
  - rewrite list_lookup_insert_ne by lia. exists bj. split; [done|].
    by rewrite (proj2 (Z.eqb_neq j i)) by (by intros ->).
Qed.

Lemma bm_new raw n : 0 ≤ n → bitmap_bytes n ≤ Z.of_nat (length raw) →
  ∃ b, bitmap_new raw n false = Done b ∧ bm_rep b n (λ _, false).
Proof.
  intros Hn Hraw. unfold bitmap_new, set_all. cbn [m_bits m_num_bits].
  assert (0 ≤ bitmap_bytes n) by (unfold bitmap_bytes; apply Z.div_pos; lia).
  rewrite length_take, Nat.min_l, Nat.leb_refl by lia. eexists. split; [done|].
  eexists. split; [done|]. rewrite drop_ge by (rewrite length_take; lia). rewrite app_nil_r.
  rewrite length_replicate. unfold bitmap_bytes in *.
  pose proof (Z.div_mod (n + 7) 8). pose proof (Z.mod_pos_bound (n + 7) 8).
  split; [lia|]. intros i Hi. exists 0. rewrite Z.bits_0. split; [|done].
  apply lookup_replicate_2. pose proof (Z.div_mod i 8). pose proof (Z.mod_pos_bound i 8).
  pose proof (Z.div_pos i 8). lia.
Qed.

Lemma assign_move_rep b other n f :
  bm_rep other n f → bm_rep (assign_move b other).1 n f.
Proof. intros (bytes&?&?&?). by exists bytes. Qed.

(** Taking over a bitmap by assignment keeps its bits but not its size: on a
    bitmap assigned over an empty one, as the buckets of a buddy zone are,
    [set_all] changes no bit at all. *)
Lemma bitmap_assign_loses_size other bytes v : m_bits other = Some bytes →
  set_all (assign_move bitmap_empty other).1 v = Done (assign_move bitmap_empty other).1.
Proof. intros Hb. unfold set_all, assign_move. cbn. by rewrite Hb. Qed.
