(* ===== verification/PhysicalPage.v ===== *)
(** * Physical page frames (kernel/memory/PhysicalPage.h, PhysicalPage.cpp)

    [PhysicalPage] is a union of two 16-bit halves.  While the page is in use
    the low half is its reference count and the first byte of the high half its
    [reserved] flag; while the page is free the halves are the [next] and
    [prev] links of the buddy allocator's free lists.  The array
    [m_physical_pages] is a list of pages, indexed by page number. *)

From stdpp Require Import base numbers list option.
From S2P Require Import Prelude.

Local Open Scope Z_scope.

Record PhysicalPage : Type := mk_page { pp_lo : Z; pp_hi : Z }.

#[export] Instance PhysicalPage_eq_dec : EqDecision PhysicalPage.
Proof. solve_decision. Defined.

(** The fields of the two structs of the union. *)
Definition ref_count (p : PhysicalPage) : Z := pp_lo p.
Definition reserved (p : PhysicalPage) : bool := negb (pp_hi p mod 2 ^ 8 =? 0).
Definition free_next (p : PhysicalPage) : Z := s16 (pp_lo p).
Definition free_prev (p : PhysicalPage) : Z := s16 (pp_hi p).

Definition set_ref_count (v : Z) (p : PhysicalPage) : PhysicalPage := mk_page (u16 v) (pp_hi p).
Definition set_reserved (b : bool) (p : PhysicalPage) : PhysicalPage :=
  mk_page (pp_lo p) (pp_hi p - pp_hi p mod 2 ^ 8 + (if b then 1 else 0)).
Definition set_free_next (v : Z) (p : PhysicalPage) : PhysicalPage := mk_page (u16 v) (pp_hi p).
Definition set_free_prev (v : Z) (p : PhysicalPage) : PhysicalPage := mk_page (pp_lo p) (u16 v).

Abbreviation pages := (list PhysicalPage).

(** [get_physical_page]: an index outside the array is undefined behaviour. *)
Definition page_get (ps : pages) (i : Z) : outcome PhysicalPage :=
  if (0 <=? i) && (i <? Z.of_nat (length ps)) then
    match ps !! Z.to_nat i with Some p => Done p | None => Undef end
  else Undef.

Definition page_update (ps : pages) (i : Z) (f : PhysicalPage → PhysicalPage) : outcome pages :=
  p ← page_get ps i; Done (<[Z.to_nat i := f p]> ps).

Lemma page_get_Done ps i p : 0 ≤ i → ps !! Z.to_nat i = Some p → page_get ps i = Done p.
Proof.
  intros Hi Hp. unfold page_get. pose proof (lookup_lt_Some _ _ _ Hp).
  rewrite (proj2 (andb_true_iff _ _)) by lia. by rewrite Hp.
Qed.

Lemma page_update_Done ps i f p : 0 ≤ i → ps !! Z.to_nat i = Some p →
  page_update ps i f = Done (<[Z.to_nat i := f p]> ps).
Proof. intros. unfold page_update. by rewrite (page_get_Done ps i p). Qed.

Lemma free_next_set v p : - 2 ^ 15 ≤ v < 2 ^ 15 → free_next (set_free_next v p) = v.
Proof. intros. unfold free_next. cbn. rewrite s16_u16. by apply s16_id. Qed.
Lemma free_prev_set v p : - 2 ^ 15 ≤ v < 2 ^ 15 → free_prev (set_free_prev v p) = v.
Proof. intros. unfold free_prev. cbn. rewrite s16_u16. by apply s16_id. Qed.
Lemma free_next_set_prev v p : free_next (set_free_prev v p) = free_next p.
Proof. done. Qed.
Lemma free_prev_set_next v p : free_prev (set_free_next v p) = free_prev p.
Proof. done. Qed.

(** [ref()]: the count must not overflow. *)
Definition page_ref (p : PhysicalPage) : outcome PhysicalPage :=
  if ref_count p =? 65535 then Panic else Done (set_ref_count (ref_count p + 1) p).

(** [unref()] up to [release()]: the page, and whether it must be handed back
    to the memory manager. *)
Definition page_unref (p : PhysicalPage) : outcome (PhysicalPage * bool) :=
  let p' := set_ref_count (ref_count p - 1) p in
  _ ← kassert (negb (ref_count p =? 0));
  if ref_count p =? 1 then
    _ ← kassert (ref_count p' =? 0);
    Done (p', negb (reserved p'))
  else Done (p', false).

(** Clearing a link while the page is in use sets its [reserved] flag. *)
Lemma set_prev_reserves p : reserved (set_free_prev (-1) p) = true.
Proof. done. Qed.
