(* ===== verification/BuddyZone.v ===== *)
(** * The buddy allocator (kernel/memory/BuddyZone.h, BuddyZone.cpp)

    A zone of [2^h] page frames.  The free blocks of each order are a doubly
    linked list through the free pages themselves, and one bit per pair of
    buddies says whether exactly one of the two is free.  [alloc_block_internal]
    and [free_block_internal] recurse to the next order to split or to merge. *)

From stdpp Require Import base numbers list option sets relations.
From S2P Require Import Prelude.
From S2P Require Import Bitmap.
From S2P Require Import PhysicalPage.

Local Open Scope Z_scope.

(** ** Data *)

(** [BuddyState]: [BOTH] is [false], [MIXED] is [true]. *)
Definition BOTH : bool := false.
Definition MIXED : bool := true.

Record BuddyOrder : Type := mk_order {
  order : Z;
  block_map : Bitmap;
  freelist : Z;
}.

Record BuddyZone : Type := mk_zone {
  m_orders : list BuddyOrder;
  m_first_page : Z;
  m_highest_order : Z;
  m_num_pages : Z;
  m_free_pages : Z;
}.

Definition MAX_ORDER : Z := 10.

(** ** Helpers *)

(** [__builtin_clz] of a 32-bit value, undefined at 0. *)
Definition clz (n : Z) : outcome Z := if n =? 0 then Undef else Done (31 - Z.log2 n).

Definition order_for (num_pages : Z) : outcome Z :=
  c ← clz num_pages;
  let highest_bit := 32 - c - 1 in
  Done (if num_pages - Z.shiftl 1 highest_bit =? 0 then highest_bit else highest_bit + 1).

Definition size_of_order (k : Z) : Z := Z.shiftl 1 k.

Definition bit_index (bk : BuddyOrder) (block_index : Z) : Z :=
  u32 (Z.shiftr block_index (order bk)) / 2.

Definition get_bit (bk : BuddyOrder) (block_index : Z) : outcome bool :=
  get (block_map bk) (bit_index bk block_index).

Definition set_bit (bk : BuddyOrder) (block_index : Z) (val : bool) : outcome BuddyOrder :=
  m ← set (block_map bk) (bit_index bk block_index) val;
  Done (mk_order (order bk) m (freelist bk)).

Definition set_freelist (bk : BuddyOrder) (v : Z) : BuddyOrder :=
  mk_order (order bk) (block_map bk) v.

(** [m_orders[k]]. *)
Definition bucket (z : BuddyZone) (k : Z) : outcome BuddyOrder :=
  match m_orders z !! Z.to_nat k with Some bk => Done bk | None => Undef end.

Definition set_bucket (z : BuddyZone) (k : Z) (bk : BuddyOrder) : BuddyZone :=
  mk_zone (<[Z.to_nat k := bk]> (m_orders z)) (m_first_page z) (m_highest_order z)
    (m_num_pages z) (m_free_pages z).

Definition set_free_pages (z : BuddyZone) (n : Z) : BuddyZone :=
  mk_zone (m_orders z) (m_first_page z) (m_highest_order z) (m_num_pages z) n.

Definition page_of_block (z : BuddyZone) (index : Z) : Z := u32 (m_first_page z + index).

Definition contains_page (z : BuddyZone) (page : Z) : bool :=
  (m_first_page z <=? page) && (page <? u32 (m_first_page z + m_num_pages z)).

(** ** Construction *)

(** The bucket of order [i] of a new zone; [raw] is the memory [kmalloc] gives. *)
Definition new_bucket (raw : list Z) (num_pages i : Z) : outcome BuddyOrder :=
  let num_blocks := num_pages / size_of_order i in
  let order_bitmap_size := (num_blocks + 1) / 2 in
  m ← (if order_bitmap_size =? 0 then Done bitmap_empty
       else b ← bitmap_new raw order_bitmap_size false; Done (assign_move bitmap_empty b).1);
  Done (mk_order i m (-1)).

(** The loop over the orders up to the highest. *)
Fixpoint new_buckets (raw : list Z) (num_pages : Z) (n : nat) (i : Z) : outcome (list BuddyOrder) :=
  match n with
  | O => Done []
  | S n => bk ← new_bucket raw num_pages i; bks ← new_buckets raw num_pages n (i + 1);
           Done (bk :: bks)
  end.

(** The buckets above the highest order keep their defaults; their [order]
    field is never read. *)
Definition zone_new (raw : list Z) (first_page num_pages : Z) : outcome BuddyZone :=
  highest ← order_for num_pages;
  _ ← kassert (size_of_order highest =? num_pages);
  _ ← kassert (highest <=? MAX_ORDER);
  bks ← new_buckets raw num_pages (Z.to_nat (highest + 1)) 0;
  let orders := bks ++ replicate (Z.to_nat (MAX_ORDER - highest)) (mk_order 0 bitmap_empty (-1)) in
  let z := mk_zone orders first_page highest num_pages num_pages in
  bk ← bucket z highest;
  bk ← set_bit (set_freelist bk 0) 0 MIXED;
  Done (set_bucket z highest bk).

(** ** Allocation *)

(** The pages and the zone are the state; [fuel] bounds the recursion over the
    orders. *)
Fixpoint alloc_block_internal (fuel : nat) (z : BuddyZone) (ps : pages) (k : Z)
    : outcome (result Z * BuddyZone * pages) :=
  match fuel with
  | O => NoFuel
  | S fuel =>
      _ ← kassert (k <=? m_highest_order z);
      bk ← bucket z k;
      if freelist bk =? -1 then
        '(r, z, ps) ← alloc_block_internal fuel z ps (k + 1);
        match r with
        | Err e => Done (Err e, z, ps)
        | Ok higher_order_block =>
            bk ← bucket z k;
            bk ← set_bit bk higher_order_block MIXED;
            let bk := set_freelist bk (higher_order_block + size_of_order k) in
            ps ← page_update ps (page_of_block z (freelist bk)) (set_free_next (-1));
            ps ← page_update ps (page_of_block z (freelist bk)) (set_free_prev (-1));
            Done (Ok higher_order_block, set_bucket z k bk, ps)
        end
      else
        let block := freelist bk in
        state ← get_bit bk block;
        _ ← kassert (Bool.eqb state MIXED);
        bk ← set_bit bk block BOTH;
        p ← page_get ps (page_of_block z block);
        let bk := set_freelist bk (free_next p) in
        ps ← page_update ps (page_of_block z (freelist bk)) (set_free_prev (-1));
        Done (Ok block, set_bucket z k bk, ps)
  end.

(** Enough for every order of a zone and the failing one above. *)
Definition order_fuel : nat := 12.

Definition alloc_block (z : BuddyZone) (ps : pages) (num_pages : Z)
    : outcome (result Z * BuddyZone * pages) :=
  if m_free_pages z <? num_pages then Done (Err ENOMEM, z, ps)
  else
    k ← order_for num_pages;
    '(r, z, ps) ← alloc_block_internal order_fuel z ps k;
    match r with
    | Err e => Done (Err e, z, ps)
    | Ok block_index =>
        Done (Ok (u32 (m_first_page z + block_index)),
              set_free_pages z (u32 (m_free_pages z - num_pages)), ps)
    end.

(** ** Freeing *)

Definition remove_from_freelist (z : BuddyZone) (ps : pages) (block k : Z)
    : outcome (BuddyZone * pages) :=
  p ← page_get ps (page_of_block z block);
  ps ← (if free_next p =? -1 then Done ps
        else page_update ps (page_of_block z (free_next p)) (set_free_prev (free_prev p)));
  p ← page_get ps (page_of_block z block);
  ps ← (if free_prev p =? -1 then Done ps
        else page_update ps (page_of_block z (free_prev p)) (set_free_next (free_next p)));
  bk ← bucket z k;
  if freelist bk =? block then
    p ← page_get ps (page_of_block z block);
    _ ← kassert (free_prev p =? -1);
    Done (set_bucket z k (set_freelist bk (free_next p)), ps)
  else Done (z, ps).

Fixpoint free_block_internal (fuel : nat) (z : BuddyZone) (ps : pages) (block k : Z)
    : outcome (BuddyZone * pages) :=
  match fuel with
  | O => NoFuel
  | S fuel =>
      _ ← kassert (k <=? m_highest_order z);
      bk ← bucket z k;
      state ← get_bit bk block;
      if Bool.eqb state MIXED then
        bk ← set_bit bk block BOTH;
        let z := set_bucket z k bk in
        let first_buddy_index := bit_index bk block * 2 * size_of_order k in
        '(z, ps) ← (if block =? first_buddy_index
                    then remove_from_freelist z ps (first_buddy_index + size_of_order k) k
                    else remove_from_freelist z ps first_buddy_index k);
        free_block_internal fuel z ps first_buddy_index (k + 1)
      else
        bk ← set_bit bk block MIXED;
        ps ← (if freelist bk =? -1 then Done ps
              else page_update ps (page_of_block z (freelist bk)) (set_free_prev (s16 block)));
        ps ← page_update ps (page_of_block z block) (set_free_next (s16 (freelist bk)));
        ps ← page_update ps (page_of_block z block) (set_free_prev (-1));
        Done (set_bucket z k (set_freelist bk block), ps)
  end.

Definition free_block (z : BuddyZone) (ps : pages) (start_page num_pages : Z)
    : outcome (BuddyZone * pages) :=
  _ ← kassert (m_first_page z <=? start_page);
  _ ← kassert (u32 (start_page + num_pages) <=? u32 (m_first_page z + m_num_pages z));
  k ← order_for num_pages;
  _ ← kassert (size_of_order k =? num_pages);
  '(z, ps) ← free_block_internal order_fuel z ps (start_page - m_first_page z) k;
  Done (set_free_pages z (u32 (m_free_pages z + num_pages)), ps).

(** ** Doubly linked lists through the pages *)

Section dll.
Context (first : Z).
Implicit Types (ps : pages) (l : list Z) (b : Z).

(** The page of block [b] of a zone that starts at page [first]. *)
Definition pg ps b : option PhysicalPage := ps !! Z.to_nat (first + b).

Definition first_of (d : Z) l : Z := match l with [] => d | b :: _ => b end.
Fixpoint last_of (d : Z) l : Z := match l with [] => d | b :: l => last_of b l end.

(** The pages of [l] are linked: the first one has [prev] before it, the last
    one [nxt] behind it. *)
Fixpoint dll ps (prev : Z) l (nxt : Z) : Prop :=
  match l with
  | [] => True
  | b :: l => (∃ p, pg ps b = Some p ∧ free_prev p = prev ∧ free_next p = first_of nxt l) ∧
      dll ps b l nxt
  end.

Lemma first_of_app d l1 l2 : first_of d (l1 ++ l2) = first_of (first_of d l2) l1.
Proof. by destruct l1. Qed.
Lemma last_of_snoc d l b : last_of d (l ++ [b]) = b.
Proof. revert d. induction l as [|x l IH]; intros d; cbn; [done|apply IH]. Qed.

Lemma dll_app ps l1 : ∀ prev l2 nxt,
  dll ps prev (l1 ++ l2) nxt ↔ dll ps prev l1 (first_of nxt l2) ∧ dll ps (last_of prev l1) l2 nxt.
Proof.
  induction l1 as [|b l1 IH]; intros prev l2 nxt; cbn; [tauto|].
  rewrite IH, first_of_app. tauto.
Qed.

Lemma dll_frame ps ps' l : ∀ prev nxt,
  (∀ b, b ∈ l → pg ps' b = pg ps b) → dll ps prev l nxt → dll ps' prev l nxt.
Proof.
  induction l as [|b l IH]; intros prev nxt Hf; cbn; [done|].
  intros [(p&?&?&?) ?]. split; [exists p; rewrite Hf by set_solver; done|].
  apply IH; [|done]. intros. apply Hf. set_solver.
Qed.

Lemma dll_page ps l prev nxt b : dll ps prev l nxt → b ∈ l → is_Some (pg ps b).
Proof.
  revert prev. induction l as [|x l IH]; intros prev; cbn; [set_solver|].
  intros [(p&?&_) ?] [->|?]%elem_of_cons; [by eexists|by eapply IH].
Qed.

(** Updating the page of one block. *)
Lemma pg_insert ps b b' q : 0 ≤ first + b → 0 ≤ first + b' → is_Some (pg ps b) →
  pg (<[Z.to_nat (first + b) := q]> ps) b' = if decide (b' = b) then Some q else pg ps b'.
Proof.
  unfold pg. intros ?? [p Hp]. case_decide as Hd.
  - subst. apply list_lookup_insert_eq. by eapply lookup_lt_Some.
  - apply list_lookup_insert_ne. lia.
Qed.

Lemma dll_set_prev ps prev b l nxt v p :
  dll ps prev (b :: l) nxt → b ∉ l → (∀ x, x ∈ b :: l → 0 ≤ first + x) → -2 ^ 15 ≤ v < 2 ^ 15 →
  pg ps b = Some p →
  dll (<[Z.to_nat (first + b) := set_free_prev v p]> ps) v (b :: l) nxt.
Proof.
  intros [(p'&Hp&_&Hn) Hl] Hb Hpos Hv Hp'. simplify_eq. split.
  - exists (set_free_prev v p'). rewrite pg_insert, decide_True by (set_solver || eauto).
    by rewrite free_prev_set.
  - eapply dll_frame; [|exact Hl]. intros x Hx.
    rewrite pg_insert, decide_False by (set_solver || eauto). done.
Qed.

Lemma dll_set_next ps prev l b nxt v p :
  dll ps prev (l ++ [b]) nxt → b ∉ l → (∀ x, x ∈ l ++ [b] → 0 ≤ first + x) → -2 ^ 15 ≤ v < 2 ^ 15 →
  pg ps b = Some p →
  dll (<[Z.to_nat (first + b) := set_free_next v p]> ps) prev (l ++ [b]) v.
Proof.
  rewrite !dll_app. intros [Hl [(p'&Hp&Hpr&_) _]] Hb Hpos Hv Hp'. simplify_eq. split; [|split; [|done]].
  - eapply dll_frame; [|exact Hl]. intros x Hx.
    rewrite pg_insert, decide_False by (set_solver || eauto). done.
  - exists (set_free_next v p'). rewrite pg_insert, decide_True by (set_solver || eauto).
    by rewrite free_next_set.
Qed.
End dll.

(** ** Blocks and buddies *)

(** [b] is the first page of a block of order [k] of a zone of order [h]. *)
Definition block (h k b : Z) : Prop := 0 ≤ k ≤ h ∧ 0 ≤ b ∧ b + 2 ^ k ≤ 2 ^ h ∧ (2 ^ k | b).

(** The pair a block belongs to, and the other block of the pair. *)
Definition pair_of (k b : Z) : Z := b / 2 ^ (k + 1).
Definition buddy (k b : Z) : Z := 2 * (pair_of k b * 2 ^ (k + 1)) + 2 ^ k - b.

Lemma pow2_pos k : 0 ≤ k → 0 < 2 ^ k.
Proof. intros. by apply Z.pow_pos_nonneg. Qed.

Lemma pow2_S k : 0 ≤ k → 2 ^ (k + 1) = 2 * 2 ^ k.
Proof. intros. rewrite Z.add_1_r. by apply Z.pow_succ_r. Qed.

(** A block is the first or the second of its pair. *)
Lemma block_pair h k b : block h k b →
  (b = pair_of k b * 2 ^ (k + 1) ∧ buddy k b = b + 2 ^ k) ∨
  (b = pair_of k b * 2 ^ (k + 1) + 2 ^ k ∧ buddy k b = b - 2 ^ k).
Proof.
  intros (Hk&?&?&[m ->]). unfold buddy, pair_of. pose proof (pow2_pos k ltac:(lia)) as Hp.
  rewrite pow2_S, (Z.mul_comm 2 (2 ^ k)), <-Z.div_div, Z.div_mul by lia.
  pose proof (Z.div_mod m 2 ltac:(lia)). pose proof (Z.mod_pos_bound m 2 ltac:(lia)).
  assert (m mod 2 = 0 ∨ m mod 2 = 1) as [Hm|Hm] by lia; [left|right]; nia.
Qed.

Lemma pair_of_buddy h k b : block h k b → pair_of k (buddy k b) = pair_of k b.
Proof.
  intros Hb. pose proof Hb as (?&_). pose proof (pow2_pos k ltac:(lia)).
  destruct (block_pair _ _ _ Hb) as [[He ->]|[He ->]]; rewrite He; unfold pair_of;
    rewrite pow2_S in * by lia; set (P := b / (2 * 2 ^ k)) in *; clearbody P.
  - replace (P * (2 * 2 ^ k) / (2 * 2 ^ k)) with P by (by rewrite Z.div_mul by lia).
    symmetry. apply (Z.div_unique_pos _ _ _ (2 ^ k)); nia.
  - replace ((P * (2 * 2 ^ k) + 2 ^ k) / (2 * 2 ^ k)) with P
      by (apply (Z.div_unique_pos _ _ _ (2 ^ k)); nia).
    symmetry. apply (Z.div_unique_pos _ _ _ 0); nia.
Qed.

Lemma buddy_buddy h k b : block h k b → buddy k (buddy k b) = b.
Proof. intros Hb. unfold buddy at 1. rewrite (pair_of_buddy h) by done. unfold buddy. lia. Qed.

Lemma pair_of_range h k b : block h k b → 0 ≤ pair_of k b < (2 ^ (h - k) + 1) / 2.
Proof.
  intros (Hk&?&Hh&[m ->]). unfold pair_of. pose proof (pow2_pos k ltac:(lia)) as Hp.
  rewrite pow2_S, (Z.mul_comm 2 (2 ^ k)), <-Z.div_div, Z.div_mul by lia.
  assert (m + 1 ≤ 2 ^ (h - k)).
  { replace (2 ^ h) with (2 ^ (h - k) * 2 ^ k) in Hh by (rewrite <-Z.pow_add_r by lia; f_equal; lia).
    nia. }
  assert (0 ≤ m) by nia. split; [apply Z.div_pos; lia|].
  pose proof (Z.div_le_mono (m + 1 * 2) (2 ^ (h - k) + 1) 2 ltac:(lia) ltac:(lia)) as Hd.
  rewrite Z.div_add in Hd by lia. lia.
Qed.

(** The bit index that the code computes. *)
Lemma bit_index_pair h bk b : block h (order bk) b → h ≤ 10 → bit_index bk b = pair_of (order bk) b.
Proof.
  intros (?&?&?&?) ?. unfold bit_index, pair_of.
  pose proof (Z.pow_le_mono_r 2 h 10 ltac:(lia) ltac:(lia)).
  pose proof (pow2_pos (order bk) ltac:(lia)).
  rewrite Z.shiftr_div_pow2 by lia. rewrite u32_id.
  - by rewrite pow2_S, (Z.mul_comm 2), Z.div_div by lia.
  - split; [apply Z.div_pos; lia|]. apply Z.div_lt_upper_bound; [lia|]. nia.
Qed.

(** The merged block. *)
Lemma block_merge h k b : block h k b → k < h → block h (k + 1) (pair_of k b * 2 ^ (k + 1)).
Proof.
  intros Hb Hk. pose proof (pair_of_range _ _ _ Hb) as Hr. destruct Hb as (?&?&?&_).
  assert (2 ^ h = 2 ^ (h - (k + 1)) * 2 ^ (k + 1)) as Hh
    by (rewrite <-Z.pow_add_r by lia; f_equal; lia).
  replace (h - k) with (h - (k + 1) + 1) in Hr by lia. rewrite pow2_S in Hr by lia.
  rewrite (Z.mul_comm 2), Z.div_add_l, Z.add_0_r in Hr by lia.
  pose proof (pow2_pos (k + 1) ltac:(lia)).
  split_and!; [lia|lia|nia|nia|by exists (pair_of k b)].
Qed.

(** The two halves of a block. *)
Lemma block_split h k b : block h (k + 1) b → 0 ≤ k →
  block h k b ∧ block h k (b + 2 ^ k) ∧ pair_of k b = b / 2 ^ (k + 1) ∧
  pair_of k b * 2 ^ (k + 1) = b ∧ pair_of k (b + 2 ^ k) = pair_of k b.
Proof.
  intros (?&?&?&[m ->]) Hk. unfold pair_of. pose proof (pow2_pos k Hk). rewrite pow2_S in * by lia.
  assert ((m * (2 * 2 ^ k) + 2 ^ k) / (2 * 2 ^ k) = m) as ->.
  { symmetry. apply (Z.div_unique_pos _ _ _ (2 ^ k)); nia. }
  rewrite Z.div_mul by lia. split_and!; try done.
  - split_and!; try lia. exists (2 * m). lia.
  - split_and!; try lia. exists (2 * m + 1). lia.
Qed.

(** ** The invariant of a zone *)

(** The free lists of a zone, by order. *)
Definition lists : Type := Z → list Z.

Definition upd (F : lists) (k : Z) (l : list Z) : lists := λ j, if j =? k then l else F j.

Lemma upd_eq F k l : upd F k l k = l.
Proof. unfold upd. by rewrite Z.eqb_refl. Qed.
Lemma upd_ne F k l j : j ≠ k → upd F k l j = F j.
Proof. intros. unfold upd. by rewrite (proj2 (Z.eqb_neq j k)). Qed.

(** Free blocks are blocks, pairwise disjoint, and never both of a pair. *)
Record lists_ok (h : Z) (F : lists) : Prop := {
  lo_block k b : 0 ≤ k ≤ h → b ∈ F k → block h k b;
  lo_nodup k : 0 ≤ k ≤ h → NoDup (F k);
  lo_disj k1 k2 b1 b2 : 0 ≤ k1 ≤ h → 0 ≤ k2 ≤ h → b1 ∈ F k1 → b2 ∈ F k2 →
    (k1 = k2 ∧ b1 = b2) ∨ b1 + 2 ^ k1 ≤ b2 ∨ b2 + 2 ^ k2 ≤ b1;
  lo_buddy k b : 0 ≤ k ≤ h → b ∈ F k → buddy k b ∉ F k;
}.

(** The page with index [x] in the zone is free. *)
Definition free_in (h : Z) (F : lists) (x : Z) : Prop :=
  ∃ k b, 0 ≤ k ≤ h ∧ b ∈ F k ∧ b ≤ x < b + 2 ^ k.

(** The bit of pair [i]: exactly one of the two is free. *)
Definition mixed (F : lists) (k i : Z) : bool :=
  xorb (bool_decide (i * 2 ^ (k + 1) ∈ F k)) (bool_decide (i * 2 ^ (k + 1) + 2 ^ k ∈ F k)).

Lemma mixed_block h F k b : block h k b →
  mixed F k (pair_of k b) = xorb (bool_decide (b ∈ F k)) (bool_decide (buddy k b ∈ F k)).
Proof.
  intros Hb. unfold mixed. destruct (block_pair _ _ _ Hb) as [[He ->]|[He ->]].
  - by rewrite <-He.
  - replace (pair_of k b * 2 ^ (k + 1)) with (b - 2 ^ k) by lia.
    replace (b - 2 ^ k + 2 ^ k) with b by lia. apply xorb_comm.
Qed.

(** The bits of order [k] after its list changed at one pair only. *)
Lemma mixed_upd h F k l b j : block h k b →
  (∀ x, x ≠ b → x ≠ buddy k b → x ∈ l ↔ x ∈ F k) →
  mixed (upd F k l) k j =
    if j =? pair_of k b then xorb (bool_decide (b ∈ l)) (bool_decide (buddy k b ∈ l))
    else mixed F k j.
Proof.
  intros Hb Hl. pose proof Hb as (?&_). pose proof (pow2_pos k ltac:(lia)).
  destruct (Z.eqb_spec j (pair_of k b)) as [->|Hj].
  - rewrite (mixed_block h) by done. by rewrite upd_eq.
  - unfold mixed. rewrite upd_eq. rewrite pow2_S by lia.
    destruct (block_pair _ _ _ Hb) as [[He Hb']|[He Hb']]; rewrite pow2_S in He by lia;
      rewrite (bool_decide_ext _ _ (Hl (j * (2 * 2 ^ k)) ltac:(nia) ltac:(nia)));
      rewrite (bool_decide_ext _ _ (Hl (j * (2 * 2 ^ k) + 2 ^ k) ltac:(nia) ltac:(nia))); done.
Qed.

Definition bucket_ok (h : Z) (F : lists) (k : Z) (bk : BuddyOrder) : Prop :=
  order bk = k ∧ freelist bk = first_of (-1) (F k) ∧
  bm_rep (block_map bk) ((2 ^ (h - k) + 1) / 2) (mixed F k).

Record zone_ok (z : BuddyZone) (ps : pages) (F : lists) : Prop := {
  zo_order : 0 ≤ m_highest_order z ≤ MAX_ORDER;
  zo_num : m_num_pages z = 2 ^ m_highest_order z;
  zo_first : 1 ≤ m_first_page z;
  zo_pages : m_first_page z + 2 ^ m_highest_order z ≤ Z.of_nat (length ps) < 2 ^ 32;
  zo_bucket k : 0 ≤ k ≤ m_highest_order z →
    ∃ bk, m_orders z !! Z.to_nat k = Some bk ∧ bucket_ok (m_highest_order z) F k bk;
  zo_dll k : 0 ≤ k ≤ m_highest_order z → dll (m_first_page z) ps (-1) (F k) (-1);
  zo_lists : lists_ok (m_highest_order z) F;
}.

(** Blocks have small indices. *)
Lemma block_range h k b : block h k b → h ≤ 10 → 0 ≤ b ∧ b + 2 ^ k ≤ 2 ^ h ≤ 1024.
Proof.
  intros (?&?&?&_) ?. pose proof (Z.pow_le_mono_r 2 h 10 ltac:(lia) ltac:(lia)).
  replace (2 ^ 10) with 1024 in * by done. lia.
Qed.

(** The zone lies inside the page array, not at its start. *)
Definition zone_bounds (z : BuddyZone) (ps : pages) : Prop :=
  0 ≤ m_highest_order z ≤ MAX_ORDER ∧ 1 ≤ m_first_page z ∧
  m_first_page z + 2 ^ m_highest_order z ≤ Z.of_nat (length ps) < 2 ^ 32.

Lemma zone_ok_bounds z ps F : zone_ok z ps F → zone_bounds z ps.
Proof. by intros []. Qed.

Lemma zone_page z ps b : zone_bounds z ps → -1 ≤ b < 2 ^ m_highest_order z →
  page_of_block z b = m_first_page z + b ∧ 0 ≤ m_first_page z + b ∧
  ∃ p, pg (m_first_page z) ps b = Some p.
Proof.
  intros (?&?&?) Hb. unfold page_of_block. rewrite u32_id by lia. split_and!; [done|lia|].
  apply lookup_lt_is_Some_2. lia.
Qed.

(** One order of a zone gets a new list: what has to be shown. *)
Lemma zone_ok_update z ps F k l bk ps' :
  zone_ok z ps F → 0 ≤ k ≤ m_highest_order z → length ps' = length ps →
  lists_ok (m_highest_order z) (upd F k l) →
  bucket_ok (m_highest_order z) (upd F k l) k bk →
  dll (m_first_page z) ps' (-1) l (-1) →
  (∀ j b, 0 ≤ j ≤ m_highest_order z → j ≠ k → b ∈ F j →
     pg (m_first_page z) ps' b = pg (m_first_page z) ps b) →
  zone_ok (set_bucket z k bk) ps' (upd F k l).
Proof.
  intros [] Hk Hlen Hlists Hbk Hdll Hframe.
  split; cbn [m_highest_order m_num_pages m_first_page m_orders set_bucket]; try done.
  - by rewrite Hlen.
  - intros j Hj. destruct (decide (j = k)) as [->|Hne].
    + exists bk. split; [|done]. apply list_lookup_insert_eq.
      destruct (zo_bucket0 k Hk) as (?&?&_). by eapply lookup_lt_Some.
    + destruct (zo_bucket0 j Hj) as (bj&Hbj&?&?&?). exists bj.
      rewrite list_lookup_insert_ne by lia. split; [done|].
      split_and!; [done|by rewrite upd_ne|]. unfold mixed. by rewrite upd_ne.
  - intros j Hj. destruct (decide (j = k)) as [->|Hne]; [by rewrite upd_eq|].
    rewrite upd_ne by done. eapply dll_frame; [|by apply zo_dll0].
    intros b Hb. by apply (Hframe j).
Qed.

(** ** Changing the lists *)

Section lists.
Context (h : Z) (F : lists).
Implicit Types (k b x : Z) (l : list Z).

(** Taking blocks out of a list. *)
Lemma lists_ok_sub k l : lists_ok h F → 0 ≤ k ≤ h → NoDup l → (∀ x, x ∈ l → x ∈ F k) →
  lists_ok h (upd F k l).
Proof.
  intros [] Hk Hnd Hsub.
  assert (∀ j x, x ∈ upd F k l j → x ∈ F j) as Hin.
  { intros j x. destruct (decide (j = k)) as [->|]; [rewrite upd_eq; auto|by rewrite upd_ne]. }
  split.
  - eauto.
  - intros j ?. destruct (decide (j = k)) as [->|]; [by rewrite upd_eq|rewrite upd_ne by done; auto].
  - eauto.
  - intros j b Hj Hb Hbud. apply (lo_buddy0 j b Hj); by apply Hin.
Qed.

(** Adding a block that is not free and whose buddy is not free. *)
Lemma lists_ok_add k b : lists_ok h F → block h k b →
  (∀ x, b ≤ x < b + 2 ^ k → ¬ free_in h F x) → buddy k b ∉ F k →
  lists_ok h (upd F k (b :: F k)).
Proof.
  intros [] Hb Hfree Hbud. pose proof Hb as (Hk&_). pose proof (pow2_pos k ltac:(lia)).
  assert (∀ j x, x ∈ upd F k (b :: F k) j → (j = k ∧ x = b) ∨ x ∈ F j) as Hin.
  { intros j x. destruct (decide (j = k)) as [->|]; [rewrite upd_eq; set_solver|rewrite upd_ne by done; auto]. }
  assert (∀ j x, 0 ≤ j ≤ h → x ∈ F j → b + 2 ^ k ≤ x ∨ x + 2 ^ j ≤ b) as Hdis.
  { intros j x Hj Hx. destruct (lo_block0 j x Hj Hx) as (_&?&?&_). pose proof (pow2_pos j ltac:(lia)).
    destruct (decide (b + 2 ^ k ≤ x)); [lia|]. destruct (decide (x + 2 ^ j ≤ b)); [lia|].
    exfalso. apply (Hfree (Z.max b x)); [lia|]. exists j, x. split_and!; (done || lia). }
  split.
  - intros j x Hj [[-> ->]|]%Hin; auto.
  - intros j Hj. destruct (decide (j = k)) as [->|]; [rewrite upd_eq|rewrite upd_ne by done; auto].
    constructor; [|auto]. intros Hx. destruct (Hdis k b Hj Hx); lia.
  - intros j1 j2 x1 x2 Hj1 Hj2 [[-> ->]|H1]%Hin [[-> ->]|H2]%Hin; [by left|..].
    + right. destruct (Hdis _ _ Hj2 H2); lia.
    + right. destruct (Hdis _ _ Hj1 H1); lia.
    + eauto.
  - intros j x Hj Hx Hbx. apply Hin in Hx as [[-> ->]|Hx], Hbx as [[? Hbx]|Hbx].
    + destruct (block_pair _ _ _ Hb) as [[]|[]]; lia.
    + done.
    + subst j. apply Hbud. rewrite <-Hbx.
      by rewrite (buddy_buddy h) by auto.
    + by apply (lo_buddy0 j x).
Qed.

(** The free pages when a block is taken out, or added. *)
Lemma free_in_remove k b l x : lists_ok h F → 0 ≤ k ≤ h → b ∈ F k →
  (∀ y, y ∈ l ↔ y ∈ F k ∧ y ≠ b) →
  free_in h (upd F k l) x ↔ free_in h F x ∧ ¬ (b ≤ x < b + 2 ^ k).
Proof.
  intros [] Hk Hb Hl. split.
  - intros (j&y&Hj&Hy&Hx). assert (y ∈ F j ∧ (j = k → y ≠ b)) as [Hy' Hne].
    { destruct (decide (j = k)) as [->|]; [rewrite upd_eq in Hy; naive_solver|].
      by rewrite upd_ne in Hy. }
    split; [by exists j, y|]. intros Hbx.
    destruct (lo_disj0 j k y b Hj Hk Hy' Hb) as [[-> ->]|]; [naive_solver|lia].
  - intros [(j&y&Hj&Hy&Hx) Hnx]. exists j, y. split_and!; [lia|lia| |lia|lia].
    destruct (decide (j = k)) as [->|]; [|by rewrite upd_ne].
    rewrite upd_eq. apply Hl. split; [done|]. by intros ->.
Qed.

Lemma free_in_add k b l x : 0 ≤ k ≤ h → (∀ y, y ∈ l ↔ y ∈ F k ∨ y = b) →
  free_in h (upd F k l) x ↔ free_in h F x ∨ (b ≤ x < b + 2 ^ k).
Proof.
  intros Hk Hl. split.
  - intros (j&y&Hj&Hy&Hx). destruct (decide (j = k)) as [->|].
    + rewrite upd_eq in Hy. apply Hl in Hy as [Hy| ->]; [left; by exists k, y|by right].
    + rewrite upd_ne in Hy by done. left. by exists j, y.
  - intros [(j&y&Hj&Hy&Hx)|Hx].
    + exists j, y. split_and!; [lia|lia| |lia|lia].
      destruct (decide (j = k)) as [->|]; [rewrite upd_eq; apply Hl; by left|by rewrite upd_ne].
    + exists k, b. rewrite upd_eq. split_and!; [lia|lia|apply Hl; by right|lia|lia].
Qed.
End lists.

(** ** Buckets *)

Lemma bucket_get_bit h F k bk b : bucket_ok h F k bk → block h k b → h ≤ 10 →
  get_bit bk b = Done (xorb (bool_decide (b ∈ F k)) (bool_decide (buddy k b ∈ F k))).
Proof.
  intros (<-&_&Hm) Hb Hh. unfold get_bit. rewrite (bit_index_pair h) by done.
  rewrite (bm_get _ _ _ _ Hm) by (by apply pair_of_range). f_equal. by apply (mixed_block h).
Qed.

(** Setting the bit of a pair to what a new list says about it. *)
Lemma bucket_set_bit h F k bk b l v : bucket_ok h F k bk → block h k b → h ≤ 10 →
  (∀ x, x ≠ b → x ≠ buddy k b → x ∈ l ↔ x ∈ F k) →
  v = xorb (bool_decide (b ∈ l)) (bool_decide (buddy k b ∈ l)) →
  ∃ bk', set_bit bk b v = Done bk' ∧ freelist bk' = freelist bk ∧
    bit_index bk' b = pair_of k b ∧
    bucket_ok h (upd F k l) k (set_freelist bk' (first_of (-1) l)).
Proof.
  intros (Ho&_&Hm) Hb Hh Hl ->. unfold set_bit.
  rewrite (bit_index_pair h) by (by rewrite ?Ho).
  destruct (bm_set _ _ _ (pair_of (order bk) b)
    (xorb (bool_decide (b ∈ l)) (bool_decide (buddy k b ∈ l))) Hm) as (m&->&Hm').
  { rewrite Ho. by apply pair_of_range. }
  eexists. split; [done|]. split; [done|]. split.
  - rewrite (bit_index_pair h) by (cbn; by rewrite ?Ho). cbn. by rewrite Ho.
  - split_and!; cbn; [done|by rewrite upd_eq|].
    eapply bm_rep_ext; [|exact Hm']. intros i _. cbn. rewrite Ho. symmetry.
    by apply (mixed_upd h).
Qed.

(** The parts of a zone that allocation does not change. *)
Definition same_zone (z z' : BuddyZone) : Prop :=
  m_first_page z' = m_first_page z ∧ m_highest_order z' = m_highest_order z ∧
  m_num_pages z' = m_num_pages z ∧ m_free_pages z' = m_free_pages z.

(** Pages outside [W] (indices relative to the zone) keep their contents. *)
Definition frame (z : BuddyZone) (ps ps' : pages) (W : Z → Prop) : Prop :=
  length ps' = length ps ∧
  ∀ i, ps' !! i ≠ ps !! i → W (Z.of_nat i - m_first_page z).

Lemma frame_refl z ps W : frame z ps ps W.
Proof. by split. Qed.

Lemma frame_trans z ps1 ps2 ps3 (W : Z → Prop) :
  frame z ps1 ps2 W → frame z ps2 ps3 W → frame z ps1 ps3 W.
Proof.
  intros [? H1] [? H2]. split; [congruence|]. intros i Hi.
  destruct (decide (ps2 !! i = ps1 !! i)) as [He|He]; [|by apply H1].
  apply H2. by rewrite He.
Qed.

Lemma frame_weaken z ps ps' (W W' : Z → Prop) :
  (∀ x, W x → W' x) → frame z ps ps' W → frame z ps ps' W'.
Proof. intros HW [? H]. split; auto. Qed.

Lemma frame_insert z ps b p (W : Z → Prop) : 0 ≤ m_first_page z + b → W b →
  frame z ps (<[Z.to_nat (m_first_page z + b) := p]> ps) W.
Proof.
  intros Hb HW. split; [by rewrite length_insert|]. intros i Hi.
  destruct (decide (i = Z.to_nat (m_first_page z + b))) as [->|Hne].
  - replace (Z.of_nat _ - m_first_page z) with b by lia. done.
  - by rewrite list_lookup_insert_ne in Hi.
Qed.

(** Updating the page of a block of the zone, or the page before the zone. *)
Lemma zone_page_update z ps b f : zone_bounds z ps → -1 ≤ b < 2 ^ m_highest_order z →
  ∃ p, pg (m_first_page z) ps b = Some p ∧
    page_update ps (page_of_block z b) f =
      Done (<[Z.to_nat (m_first_page z + b) := f p]> ps).
Proof.
  intros Hz Hb. destruct (zone_page z ps b Hz Hb) as (->&?&p&Hp). exists p.
  split; [done|]. by apply page_update_Done.
Qed.

Lemma zone_bounds_length z ps ps' : zone_bounds z ps → length ps' = length ps → zone_bounds z ps'.
Proof. intros (?&?&?) Hl. unfold zone_bounds. by rewrite Hl. Qed.

Lemma bucket_Done z k bk : m_orders z !! Z.to_nat k = Some bk → bucket z k = Done bk.
Proof. intros Hk. unfold bucket. by rewrite Hk. Qed.

(** What a block of a list means for its index. *)
Lemma zone_block z ps F k b : zone_ok z ps F → 0 ≤ k ≤ m_highest_order z → b ∈ F k →
  block (m_highest_order z) k b ∧ 0 ≤ b < 2 ^ m_highest_order z ∧ 2 ^ m_highest_order z ≤ 1024.
Proof.
  intros [] Hk Hb. pose proof (lo_block _ _ zo_lists0 k b Hk Hb) as Hbl.
  pose proof (block_range _ _ _ Hbl ltac:(unfold MAX_ORDER in *; lia)).
  pose proof (pow2_pos k ltac:(lia)). split_and!; (done || lia).
Qed.

(** The head of a free list is in the zone, or [-1]. *)
Lemma zone_first_of z ps F k l : zone_ok z ps F → 0 ≤ k ≤ m_highest_order z →
  (∀ x, x ∈ l → x ∈ F k) →
  -1 ≤ first_of (-1) l < 2 ^ m_highest_order z ∧ 2 ^ m_highest_order z ≤ 1024.
Proof.
  intros Hz Hk Hl. assert (2 ^ m_highest_order z ≤ 1024).
  { destruct Hz as [? _ _ _ _ _ _]. unfold MAX_ORDER in *.
    apply (Z.pow_le_mono_r 2 _ 10); lia. }
  destruct l as [|b l]; cbn.
  - destruct Hz as [? _ _ _ _ _ _]. pose proof (pow2_pos (m_highest_order z)). lia.
  - destruct (zone_block z ps F k b Hz Hk) as (_&?&_); [apply Hl; set_solver|lia].
Qed.

(** Blocks of different lists are different pages. *)
Lemma zone_lists_ne z ps F j k x y : zone_ok z ps F → 0 ≤ j ≤ m_highest_order z →
  0 ≤ k ≤ m_highest_order z → j ≠ k → x ∈ F j → y ∈ F k → x ≠ y.
Proof.
  intros [] Hj Hk Hne Hx Hy ->. pose proof (pow2_pos j ltac:(lia)). pose proof (pow2_pos k ltac:(lia)).
  destruct (lo_disj _ _ zo_lists0 j k y y Hj Hk Hx Hy); lia.
Qed.

(** ** Allocation *)

(** Taking the first block of a list. *)
Lemma alloc_pop fuel z ps F k b l :
  zone_ok z ps F → 0 ≤ k ≤ m_highest_order z → F k = b :: l →
  ∃ z' ps', alloc_block_internal (S fuel) z ps k = Done (Ok b, z', ps') ∧
    zone_ok z' ps' (upd F k l) ∧ same_zone z z' ∧
    frame z ps ps' (λ x, x = first_of (-1) l) ∧
    ∃ q, pg (m_first_page z) ps' (first_of (-1) l) = Some (set_free_prev (-1) q).
Proof.
  intros Hz Hk HF. assert (b ∈ F k) as Hb by (rewrite HF; set_solver).
  destruct (zone_block _ _ _ _ _ Hz Hk Hb) as (Hbl&Hb0&Hh).
  assert (m_highest_order z ≤ 10) as Hh10 by (destruct Hz; unfold MAX_ORDER in *; lia).
  destruct (zo_bucket _ _ _ Hz k Hk) as (bk&Hbk&Hok). pose proof Hok as (_&Hfl&_).
  pose proof (lo_nodup _ _ (zo_lists _ _ _ Hz) k Hk) as Hnd. rewrite HF in Hnd.
  apply NoDup_cons in Hnd as [Hbl' Hnd].
  pose proof (lo_buddy _ _ (zo_lists _ _ _ Hz) k b Hk Hb) as Hbud.
  assert (∀ x, x ∈ l → x ∈ F k) as Hsub by (rewrite HF; set_solver).
  cbn [alloc_block_internal]. rewrite (proj2 (Z.leb_le _ _)) by lia. cbn [kassert mbind outcome_bind].
  rewrite (bucket_Done _ _ _ Hbk). cbn [mbind outcome_bind]. rewrite Hfl, HF. cbn [first_of].
  rewrite (proj2 (Z.eqb_neq b (-1))) by lia.
  rewrite (bucket_get_bit _ _ _ _ _ Hok Hbl Hh10).
  rewrite (bool_decide_true (b ∈ F k)), (bool_decide_false (buddy k b ∈ F k)) by done.
  cbn [xorb mbind outcome_bind Bool.eqb MIXED kassert].
  destruct (bucket_set_bit _ _ _ _ b l BOTH Hok Hbl Hh10) as (bk'&->&_&_&Hbk').
  { intros x Hx _. rewrite HF. set_solver. }
  { rewrite !bool_decide_false; [done|by intros ?%Hsub|done]. }
  cbn [mbind outcome_bind].
  destruct (zone_page z ps b (zone_ok_bounds _ _ _ Hz) ltac:(lia)) as (->&?&p&Hp).
  rewrite (page_get_Done _ _ p) by done. cbn [mbind outcome_bind].
  pose proof (zo_dll _ _ _ Hz k Hk) as Hdll. rewrite HF in Hdll.
  destruct Hdll as [(p'&Hp'&_&Hnext) Hdll]. simplify_eq. rewrite Hnext.
  destruct (zone_first_of z ps F k l Hz Hk Hsub) as [Hw _].
  destruct (zone_page_update z ps (first_of (-1) l) (set_free_prev (-1)) (zone_ok_bounds _ _ _ Hz) Hw)
    as (q&Hq&Hu). cbn [freelist set_freelist]. rewrite Hu. cbn [mbind outcome_bind].
  eexists _, _. split; [done|]. split_and!; [|done|..].
  2:{ apply frame_insert; [destruct Hz; lia|done]. }
  2:{ exists q. by rewrite pg_insert, decide_True by (destruct Hz; lia || by eexists). }
  assert (∀ x, x ∈ F k → 0 ≤ m_first_page z + x) as Hpos.
  { intros x Hx. destruct (zone_block _ _ _ _ _ Hz Hk Hx), Hz; lia. }
  apply zone_ok_update with (ps := ps); [done|done|by rewrite length_insert| |done| |].
  - apply lists_ok_sub; [apply Hz|done..].
  - destruct l as [|b' l]; [done|]. cbn [first_of] in *. apply NoDup_cons in Hnd as [??].
    eapply dll_set_prev; [exact Hdll|done| |lia|done]. intros x Hx. by apply Hpos, Hsub.
  - intros j x Hj Hne Hx. rewrite pg_insert; [|destruct Hz; lia| |by eexists].
    + rewrite decide_False; [done|]. intros ->. destruct l as [|b' l]; cbn [first_of] in *.
      * destruct (zone_block _ _ _ _ _ Hz Hj Hx); lia.
      * by apply (zone_lists_ne z ps F j k b' b' Hz Hj Hk Hne Hx); [apply Hsub; set_solver|].
    + destruct (zone_block _ _ _ _ _ Hz Hj Hx), Hz; lia.
Qed.

(** The number of free pages. *)
Definition count_orders (F : lists) (ks : list Z) : Z :=
  foldr (λ j n, n + 2 ^ j * Z.of_nat (length (F j))) 0 ks.
Definition free_count (h : Z) (F : lists) : Z := count_orders F (seqZ 0 (h + 1)).

Lemma count_orders_upd F k l ks : NoDup ks →
  count_orders (upd F k l) ks = count_orders F ks +
    (if decide (k ∈ ks) then 2 ^ k * (Z.of_nat (length l) - Z.of_nat (length (F k))) else 0).
Proof.
  unfold count_orders. induction 1 as [|j ks Hj Hnd IH]; cbn [foldr];
    [by rewrite decide_False by set_solver|]. rewrite IH. destruct (decide (j = k)) as [->|Hne].
  - rewrite upd_eq, decide_False, decide_True by set_solver. lia.
  - rewrite upd_ne by done. rewrite (decide_ext (k ∈ j :: ks) (k ∈ ks)) by set_solver. lia.
Qed.

Lemma free_count_upd h F k l : 0 ≤ k ≤ h →
  free_count h (upd F k l) =
    free_count h F + 2 ^ k * (Z.of_nat (length l) - Z.of_nat (length (F k))).
Proof.
  intros Hk. unfold free_count. rewrite count_orders_upd by apply NoDup_seqZ.
  by rewrite decide_True by (apply elem_of_seqZ; lia).
Qed.

(** What a successful allocation of a block of order [k] at [b] means. *)
Record alloc_ok (z : BuddyZone) (ps : pages) (F : lists) (k b : Z)
    (z' : BuddyZone) (ps' : pages) (F' : lists) : Prop := {
  ao_zone : zone_ok z' ps' F';
  ao_same : same_zone z z';
  ao_block : block (m_highest_order z) k b;
  ao_free x : b ≤ x < b + 2 ^ k → free_in (m_highest_order z) F x;
  ao_rest x : free_in (m_highest_order z) F' x ↔
    free_in (m_highest_order z) F x ∧ ¬ (b ≤ x < b + 2 ^ k);
  ao_lower j : j < k → F' j = F j;
  ao_count : free_count (m_highest_order z) F' = free_count (m_highest_order z) F - 2 ^ k;
  ao_frame : frame z ps ps' (λ x, x = -1 ∨ free_in (m_highest_order z) F x);
}.

Lemma alloc_pop_ok z ps F k b l z' ps' :
  zone_ok z ps F → 0 ≤ k ≤ m_highest_order z → F k = b :: l →
  zone_ok z' ps' (upd F k l) → same_zone z z' → frame z ps ps' (λ x, x = first_of (-1) l) →
  alloc_ok z ps F k b z' ps' (upd F k l).
Proof.
  intros Hz Hk HF Hz' Hs Hf. assert (b ∈ F k) as Hb by (rewrite HF; set_solver).
  pose proof (lo_nodup _ _ (zo_lists _ _ _ Hz) k Hk) as Hnd. rewrite HF in Hnd.
  apply NoDup_cons in Hnd as [Hbl' Hnd]. split; try done.
  - by destruct (zone_block _ _ _ _ _ Hz Hk Hb).
  - intros x Hx. by exists k, b.
  - intros x. apply free_in_remove; [apply Hz|done|done|]. rewrite HF. set_solver.
  - intros j Hj. apply upd_ne. lia.
  - rewrite free_count_upd, HF by done. cbn. lia.
  - eapply frame_weaken; [|done]. cbn. intros x ->. destruct l as [|b' l]; [by left|right].
    exists k, b'. rewrite HF. pose proof (pow2_pos k ltac:(lia)). cbn. split_and!; (lia || set_solver).
Qed.

(** Writing both links of a page. *)
Lemma zone_page_links z ps b v : zone_bounds z ps → 0 ≤ b < 2 ^ m_highest_order z →
  -2 ^ 15 ≤ v < 2 ^ 15 →
  ∃ p, (ps ← page_update ps (page_of_block z b) (set_free_next v);
        page_update ps (page_of_block z b) (set_free_prev (-1))) =
    Done (<[Z.to_nat (m_first_page z + b) := p]> ps) ∧
    is_Some (pg (m_first_page z) ps b) ∧ free_next p = v ∧ free_prev p = -1.
Proof.
  intros Hz Hb Hv.
  destruct (zone_page_update z ps b (set_free_next v) Hz ltac:(lia)) as (p&Hp&->).
  cbn [mbind outcome_bind].
  destruct (zone_page_update z (<[Z.to_nat (m_first_page z + b):=set_free_next v p]> ps) b
    (set_free_prev (-1))) as (q&Hq&->);
    [eapply zone_bounds_length; [done|by rewrite length_insert]|lia|].
  rewrite pg_insert, decide_True in Hq by (done || by eexists || destruct Hz as (?&?&?); lia).
  simplify_eq. eexists. rewrite list_insert_insert_eq.
  split_and!; [done|by eexists| |done]. rewrite free_next_set_prev. by apply free_next_set.
Qed.

(** The state after splitting: the second half of the block of the next order
    is the only free block of this order. *)
Lemma alloc_split_ok z ps F k b z1 ps1 F1 bk p :
  alloc_ok z ps F (k + 1) b z1 ps1 F1 → 0 ≤ k → F1 k = [] →
  bucket_ok (m_highest_order z1) (upd F1 k [b + 2 ^ k]) k bk →
  is_Some (pg (m_first_page z1) ps1 (b + 2 ^ k)) → free_next p = -1 → free_prev p = -1 →
  alloc_ok z ps F k b (set_bucket z1 k bk)
    (<[Z.to_nat (m_first_page z1 + (b + 2 ^ k)) := p]> ps1) (upd F1 k [b + 2 ^ k]).
Proof.
  intros [Hz1 (Hs1&Hs2&Hs3&Hs4) Hbl Hfree Hrest Hlow Hcount Hframe] Hk HF1 Hbk Hpg Hn Hpr.
  destruct (block_split _ _ _ Hbl Hk) as (Hbl1&Hbl2&_&Hp1&_).
  assert (buddy k (b + 2 ^ k) = b) as Hbud.
  { replace (b + 2 ^ k) with (buddy k b) by (unfold buddy; rewrite Hp1; lia).
    by apply (buddy_buddy (m_highest_order z)). }
  pose proof (pow2_pos k Hk). rewrite pow2_S in * by lia. destruct Hbl as (?&?&?&_).
  assert (∀ x, free_in (m_highest_order z1) F1 x → ¬ (b ≤ x < b + 2 * 2 ^ k)) as Hout
    by (intros x; rewrite Hs2, Hrest; tauto).
  split; try done.
  - apply zone_ok_update with (ps := ps1); [done|lia|by rewrite length_insert| |done| |].
    + rewrite <-HF1, Hs2. apply lists_ok_add; [rewrite <-Hs2; apply Hz1|done| |by rewrite Hbud, HF1; set_solver].
      intros x Hx Hf. rewrite <-Hs2 in Hf. apply Hout in Hf. lia.
    + cbn. split; [|done]. exists p.
      rewrite pg_insert, decide_True by (done || destruct Hz1; lia). done.
    + intros j x Hj Hne Hx. destruct (zone_block _ _ _ _ _ Hz1 Hj Hx) as (?&?&?).
      rewrite pg_insert, decide_False; [done| |destruct Hz1; lia..|done].
      intros ->. apply (Hout (b + 2 ^ k)); [|lia]. pose proof (pow2_pos j ltac:(lia)).
      exists j, (b + 2 ^ k). split_and!; (done || lia).
  - intros x Hx. apply Hfree. lia.
  - intros x. rewrite free_in_add with (b := b + 2 ^ k); [|lia|rewrite HF1; set_solver].
    rewrite Hrest. split; [|destruct (decide (b + 2 ^ k ≤ x < b + 2 ^ k + 2 ^ k)); [tauto|]; naive_solver lia].
    intros [[? ?]|?]; [split; [done|lia]|split; [apply Hfree; lia|lia]].
  - intros j Hj. rewrite upd_ne by lia. apply Hlow. lia.
  - rewrite free_count_upd, HF1, Hcount by lia. cbn. lia.
  - eapply frame_trans; [exact Hframe|]. rewrite Hs1. apply frame_insert; [destruct Hz1; lia|].
    right. apply Hfree. lia.
Qed.

(** Splitting a block of the next order. *)
Lemma alloc_split fuel z ps F k b z1 ps1 F1 :
  zone_ok z ps F → 0 ≤ k → k < m_highest_order z → F k = [] →
  alloc_block_internal fuel z ps (k + 1) = Done (Ok b, z1, ps1) →
  alloc_ok z ps F (k + 1) b z1 ps1 F1 →
  ∃ z' ps' F', alloc_block_internal (S fuel) z ps k = Done (Ok b, z', ps') ∧
    alloc_ok z ps F k b z' ps' F'.
Proof.
  intros Hz Hk0 Hkh HF Hrec Hok1. pose proof Hok1 as [Hz1 (Hs1&Hs2&_) Hbl _ _ Hlow _ _].
  destruct (zo_bucket _ _ _ Hz k ltac:(lia)) as (bk&Hbk&_&Hfl&_).
  cbn [alloc_block_internal]. rewrite (proj2 (Z.leb_le _ _)) by lia. cbn [kassert mbind outcome_bind].
  rewrite (bucket_Done _ _ _ Hbk). cbn [mbind outcome_bind]. rewrite Hfl, HF. cbn [first_of].
  rewrite Z.eqb_refl, Hrec. cbn [mbind outcome_bind].
  destruct (block_split _ _ _ Hbl Hk0) as (Hbl1&Hbl2&_&Hp1&_).
  assert (buddy k b = b + 2 ^ k) as Hbud by (unfold buddy; rewrite Hp1; lia).
  pose proof (pow2_pos k Hk0).
  assert (m_highest_order z1 ≤ 10) as Hh10 by (destruct Hz1; unfold MAX_ORDER in *; lia).
  rewrite <-Hs2 in Hbl1, Hbl2, Hkh.
  destruct (zo_bucket _ _ _ Hz1 k ltac:(lia)) as (bk1&Hbk1&Hbok1).
  rewrite (bucket_Done _ _ _ Hbk1). cbn [mbind outcome_bind].
  assert (F1 k = []) as HF1 by (rewrite Hlow by lia; done).
  destruct (bucket_set_bit _ _ _ _ b [b + 2 ^ k] MIXED Hbok1 Hbl1 Hh10) as (bk2&->&_&_&Hbk2).
  { intros x Hx1 Hx2. rewrite HF1, Hbud in *. set_solver. }
  { rewrite Hbud, bool_decide_false, bool_decide_true by set_solver by lia. done. }
  cbn [mbind outcome_bind freelist set_freelist]. unfold size_of_order. rewrite Z.shiftl_1_l.
  pose proof (block_range _ _ _ Hbl2 Hh10) as [? ?].
  destruct (zone_page_links z1 ps1 (b + 2 ^ k) (-1) (zone_ok_bounds _ _ _ Hz1) ltac:(lia) ltac:(lia))
    as (p&Hu&Hpg&Hn&Hpr).
  apply bind_Done in Hu as (ps2&->&Hu). cbn [mbind outcome_bind]. rewrite Hu.
  eexists _, _, _. split; [done|]. by apply alloc_split_ok.
Qed.

(** An empty list passes a failure on. *)
Lemma alloc_empty_panics fuel z ps F k : zone_ok z ps F → 0 ≤ k ≤ m_highest_order z → F k = [] →
  alloc_block_internal fuel z ps (k + 1) = Panic → alloc_block_internal (S fuel) z ps k = Panic.
Proof.
  intros Hz Hk HF Hrec. destruct (zo_bucket _ _ _ Hz k Hk) as (bk&Hbk&_&Hfl&_).
  cbn [alloc_block_internal]. rewrite (proj2 (Z.leb_le _ _)) by lia. cbn [kassert mbind outcome_bind].
  rewrite (bucket_Done _ _ _ Hbk). cbn [mbind outcome_bind]. rewrite Hfl, HF. cbn [first_of].
  by rewrite Z.eqb_refl, Hrec.
Qed.

Lemma alloc_above_panics fuel z ps k : m_highest_order z < k →
  alloc_block_internal (S fuel) z ps k = Panic.
Proof. intros. cbn. by rewrite (proj2 (Z.leb_gt _ _)) by lia. Qed.

(** Allocation of a block of order [k]: it succeeds when some list of that
    order or above has a block, and fails its assertion when none has. *)
Lemma alloc_internal_spec (n : nat) : ∀ fuel z ps F k,
  zone_ok z ps F → 0 ≤ k → k + Z.of_nat n = m_highest_order z → (n + 2 ≤ fuel)%nat →
  ((∃ j, k ≤ j ≤ m_highest_order z ∧ F j ≠ []) ∧
     ∃ b z' ps' F', alloc_block_internal fuel z ps k = Done (Ok b, z', ps') ∧
       alloc_ok z ps F k b z' ps' F') ∨
  ((∀ j, k ≤ j ≤ m_highest_order z → F j = []) ∧ alloc_block_internal fuel z ps k = Panic).
Proof.
  induction n as [|n IH]; intros fuel z ps F k Hz Hk Hn Hfuel;
    (destruct fuel as [|fuel]; [lia|]); destruct (F k) as [|b l] eqn:HF.
  2,4: left; split; [exists k; rewrite HF; split; [lia|done]|];
    destruct (alloc_pop fuel z ps F k b l Hz ltac:(lia) HF) as (z'&ps'&?&?&?&?&_);
    exists b, z', ps', (upd F k l); (split; [done|]); apply alloc_pop_ok; (done || lia).
  - right. split; [intros j Hj; by replace j with k by lia|].
    apply (alloc_empty_panics _ _ _ F); [done|lia|done|].
    destruct fuel; [lia|]. apply alloc_above_panics. lia.
  - destruct (IH fuel z ps F (k + 1) Hz) as [[(j&?&?) (b&z1&ps1&F1&Hrec&Hok)]|[Hno Hrec]]; [lia..| |].
    + left. split; [exists j; split; [lia|done]|].
      destruct (alloc_split _ _ _ _ _ _ _ _ _ Hz Hk ltac:(lia) HF Hrec Hok) as (z'&ps'&F'&?&?).
      by exists b, z', ps', F'.
    + right. split; [|by apply (alloc_empty_panics _ _ _ F); [done|lia|..]].
      intros j Hj. destruct (decide (j = k)) as [->|]; [done|]. apply Hno. lia.
Qed.

(** ** Freeing *)

Lemma set_bucket_id z k bk : m_orders z !! Z.to_nat k = Some bk →
  set_bucket z k (set_freelist bk (freelist bk)) = z.
Proof.
  intros Hk. unfold set_bucket, set_freelist. destruct bk as [o m f], z as [os a b c d].
  cbn in *. by rewrite list_insert_id.
Qed.

(** Relinking the page behind the removed one. *)
Lemma relink_next z ps l2 x v : zone_bounds z ps →
  dll (m_first_page z) ps x l2 (-1) → NoDup l2 → (∀ y, y ∈ l2 → 0 ≤ y < 2 ^ m_highest_order z) →
  -2 ^ 15 ≤ v < 2 ^ 15 →
  ∃ ps', (if first_of (-1) l2 =? -1 then Done ps
          else page_update ps (page_of_block z (first_of (-1) l2)) (set_free_prev v)) = Done ps' ∧
    dll (m_first_page z) ps' v l2 (-1) ∧ frame z ps ps' (λ y, y ∈ l2).
Proof.
  intros Hb Hd Hnd Hr Hv. destruct l2 as [|y l2]; cbn [first_of].
  { rewrite Z.eqb_refl. exists ps. split_and!; [done|done|apply frame_refl]. }
  pose proof (Hr y ltac:(set_solver)). rewrite (proj2 (Z.eqb_neq _ _)) by lia.
  destruct (zone_page_update z ps y (set_free_prev v) Hb ltac:(lia)) as (p&Hp&->).
  apply NoDup_cons in Hnd as [??]. destruct Hb as (?&?&?).
  eexists. split; [done|]. split; [|apply frame_insert; [lia|set_solver]].
  eapply dll_set_prev; [exact Hd|done| |done|done]. intros w Hw. specialize (Hr w Hw). lia.
Qed.

(** Relinking the page before the removed one. *)
Lemma relink_prev z ps l1 x v : zone_bounds z ps →
  dll (m_first_page z) ps (-1) l1 x → NoDup l1 → (∀ y, y ∈ l1 → 0 ≤ y < 2 ^ m_highest_order z) →
  -2 ^ 15 ≤ v < 2 ^ 15 →
  ∃ ps', (if last_of (-1) l1 =? -1 then Done ps
          else page_update ps (page_of_block z (last_of (-1) l1)) (set_free_next v)) = Done ps' ∧
    dll (m_first_page z) ps' (-1) l1 v ∧ frame z ps ps' (λ y, y ∈ l1).
Proof.
  intros Hb Hd Hnd Hr Hv. destruct l1 as [|y l1 _] using rev_ind; [|rewrite last_of_snoc].
  { cbn. exists ps. split_and!; [done|done|apply frame_refl]. }
  pose proof (Hr y ltac:(set_solver)). rewrite (proj2 (Z.eqb_neq _ _)) by lia.
  destruct (zone_page_update z ps y (set_free_next v) Hb ltac:(lia)) as (p&Hp&->).
  apply NoDup_app in Hnd as (?&Hy&_). destruct Hb as (?&?&?).
  eexists. split; [done|]. split; [|apply frame_insert; [lia|set_solver]].
  eapply dll_set_next; [exact Hd| | |done|done]; [set_solver|].
  intros w Hw. specialize (Hr w Hw). lia.
Qed.

(** A page outside a frame is read unchanged. *)
Lemma frame_pg z ps ps' (W : Z → Prop) b : frame z ps ps' W → 0 ≤ m_first_page z + b → ¬ W b →
  pg (m_first_page z) ps' b = pg (m_first_page z) ps b.
Proof.
  intros [_ Hf] Hb HW. unfold pg. destruct (decide (ps' !! Z.to_nat (m_first_page z + b) =
    ps !! Z.to_nat (m_first_page z + b))) as [|Hne]; [done|].
  apply Hf in Hne. by replace (Z.of_nat _ - m_first_page z) with b in Hne by lia.
Qed.

Lemma zone_bounds_1024 z ps : zone_bounds z ps → 2 ^ m_highest_order z ≤ 1024.
Proof. intros (?&_). unfold MAX_ORDER in *. apply (Z.pow_le_mono_r 2 _ 10); lia. Qed.

Lemma first_of_range (P : Z → Prop) l : P (-1) → (∀ y, y ∈ l → P y) → P (first_of (-1) l).
Proof. intros. destruct l; cbn; [done|set_solver]. Qed.
Lemma last_of_range (P : Z → Prop) l : P (-1) → (∀ y, y ∈ l → P y) → P (last_of (-1) l).
Proof. intros. destruct l as [|y l _] using rev_ind; cbn; [done|]. rewrite last_of_snoc. set_solver. Qed.

Lemma remove_spec z ps k bk l1 x l2 :
  zone_bounds z ps → m_orders z !! Z.to_nat k = Some bk →
  freelist bk = first_of (-1) (l1 ++ x :: l2) → NoDup (l1 ++ x :: l2) →
  (∀ y, y ∈ l1 ++ x :: l2 → 0 ≤ y < 2 ^ m_highest_order z) →
  dll (m_first_page z) ps (-1) (l1 ++ x :: l2) (-1) →
  ∃ ps', remove_from_freelist z ps x k =
      Done (set_bucket z k (set_freelist bk (first_of (-1) (l1 ++ l2))), ps') ∧
    dll (m_first_page z) ps' (-1) (l1 ++ l2) (-1) ∧ frame z ps ps' (λ y, y ∈ l1 ++ l2).
Proof.
  intros Hb Hbk Hfl Hnd Hr Hd. pose proof (zone_bounds_1024 _ _ Hb) as Hh.
  apply dll_app in Hd as [Hd1 [(p&Hp&Hprev&Hnext) Hd2]]. cbn [first_of] in Hd1.
  apply NoDup_app in Hnd as (Hnd1&Hx1&[Hx2 Hnd2]%NoDup_cons).
  assert (-2 ^ 15 ≤ last_of (-1) l1 < 2 ^ 15) as Hlast
    by (apply last_of_range; [lia|]; intros y Hy; specialize (Hr y ltac:(set_solver)); lia).
  assert (-2 ^ 15 ≤ first_of (-1) l2 < 2 ^ 15) as Hfirst
    by (apply first_of_range; [lia|]; intros y Hy; specialize (Hr y ltac:(set_solver)); lia).
  pose proof (Hr x ltac:(set_solver)) as Hrx. assert (0 ≤ m_first_page z + x) by (destruct Hb as (?&?&?); lia).
  destruct (zone_page z ps x Hb ltac:(lia)) as (Hpx&_).
  unfold remove_from_freelist. rewrite Hpx, (page_get_Done _ _ p) by done. cbn [mbind outcome_bind].
  destruct (relink_next z ps l2 x (last_of (-1) l1) Hb Hd2 Hnd2) as (ps1&Hu1&Hd2'&Hf1); [set_solver|done|].
  rewrite Hnext, Hprev, Hu1. cbn [mbind outcome_bind].
  assert (zone_bounds z ps1) as Hb1 by (eapply zone_bounds_length; [done|apply Hf1]).
  rewrite (page_get_Done _ _ p); [|done|rewrite <-Hp; by apply (frame_pg z _ _ _ x Hf1)].
  cbn [mbind outcome_bind]. rewrite Hnext, Hprev.
  assert (dll (m_first_page z) ps1 (-1) l1 x) as Hd1'.
  { eapply dll_frame; [|exact Hd1]. intros y Hy. apply (frame_pg z _ _ _ y Hf1); [|set_solver].
    specialize (Hr y ltac:(set_solver)). destruct Hb as (?&?&?). lia. }
  destruct (relink_prev z ps1 l1 x (first_of (-1) l2) Hb1 Hd1' Hnd1) as (ps2&Hu2&Hd1''&Hf2); [set_solver|done|].
  rewrite Hu2. cbn [mbind outcome_bind]. rewrite (bucket_Done _ _ _ Hbk). cbn [mbind outcome_bind].
  exists ps2. split; [|split].
  - rewrite Hfl. destruct l1 as [|y l1]; cbn [first_of app].
    + rewrite Z.eqb_refl. rewrite (page_get_Done _ _ p); [|done|].
      * cbn [mbind outcome_bind]. by rewrite Hprev, Hnext.
      * rewrite <-Hp, <-(frame_pg z _ _ _ x Hf1) by (done || set_solver).
        apply (frame_pg z _ _ _ x Hf2); [done|set_solver].
    + rewrite (proj2 (Z.eqb_neq y x)) by set_solver.
      cbn [first_of app] in Hfl. by rewrite <-Hfl, set_bucket_id.
  - apply dll_app. split; [done|]. eapply dll_frame; [|exact Hd2']. intros y Hy.
    apply (frame_pg z _ _ _ y Hf2); [|set_solver].
    specialize (Hr y ltac:(set_solver)). destruct Hb as (?&?&?). lia.
  - eapply frame_trans; (eapply frame_weaken; [|done]); set_solver.
Qed.

(** What freeing the block of order [k] at [b] means. *)
Record free_ok (z : BuddyZone) (ps : pages) (F : lists) (k b : Z)
    (z' : BuddyZone) (ps' : pages) (F' : lists) : Prop := {
  fo_zone : zone_ok z' ps' F';
  fo_same : same_zone z z';
  fo_rest x : free_in (m_highest_order z) F' x ↔
    free_in (m_highest_order z) F x ∨ b ≤ x < b + 2 ^ k;
  fo_count : free_count (m_highest_order z) F' = free_count (m_highest_order z) F + 2 ^ k;
  fo_frame : frame z ps ps' (λ x, free_in (m_highest_order z) F x ∨ b ≤ x < b + 2 ^ k);
}.

Lemma free_push_ok z ps F k b bk ps1 p :
  zone_ok z ps F → block (m_highest_order z) k b →
  (∀ x, b ≤ x < b + 2 ^ k → ¬ free_in (m_highest_order z) F x) → buddy k b ∉ F k →
  bucket_ok (m_highest_order z) (upd F k (b :: F k)) k bk →
  dll (m_first_page z) ps1 b (F k) (-1) → frame z ps ps1 (λ y, y ∈ F k) →
  is_Some (pg (m_first_page z) ps1 b) → free_next p = first_of (-1) (F k) → free_prev p = -1 →
  free_ok z ps F k b (set_bucket z k bk)
    (<[Z.to_nat (m_first_page z + b) := p]> ps1) (upd F k (b :: F k)).
Proof.
  intros Hz Hbl Hfree Hbud Hbk Hd Hf Hpg Hn Hpr.
  pose proof Hbl as (Hk&?&_). pose proof (pow2_pos k ltac:(lia)).
  assert (∀ j x, 0 ≤ j ≤ m_highest_order z → x ∈ F j → x ≠ b) as Hneb.
  { intros j x Hj Hx ->. pose proof (pow2_pos j ltac:(lia)).
    apply (Hfree b); [lia|]. exists j, b. split_and!; (done || lia). }
  assert (∀ j x, 0 ≤ j ≤ m_highest_order z → x ∈ F j → 0 ≤ m_first_page z + x) as Hpos.
  { intros j x Hj Hx. destruct (zone_block _ _ _ _ _ Hz Hj Hx), Hz. lia. }
  assert (0 ≤ m_first_page z + b) by (destruct Hz; lia).
  split.
  - apply zone_ok_update with (ps := ps); [done|lia|rewrite length_insert; apply Hf| |done| |].
    + apply lists_ok_add; [apply Hz|done..].
    + cbn. split; [exists p; by rewrite pg_insert, decide_True by done|].
      eapply dll_frame; [|exact Hd]. intros y Hy.
      rewrite pg_insert, decide_False by (eauto || done). done.
    + intros j x Hj Hne Hx. rewrite pg_insert, decide_False by (eauto || done).
      apply (frame_pg z _ _ _ x Hf); [by eapply Hpos|].
      intros Hx'. by apply (zone_lists_ne z ps F j k x x Hz Hj Hk Hne Hx Hx').
  - done.
  - intros x. apply free_in_add; [done|set_solver].
  - rewrite free_count_upd by done. cbn [length]. lia.
  - eapply frame_trans; [|apply frame_insert; [done|right; lia]].
    eapply frame_weaken; [|exact Hf]. cbn. intros x Hx. left. exists k, x. split_and!; (done || lia).
Qed.

(** The block has a buddy in use: it becomes the head of its list. *)
Lemma free_push fuel z ps F k b :
  zone_ok z ps F → block (m_highest_order z) k b →
  (∀ x, b ≤ x < b + 2 ^ k → ¬ free_in (m_highest_order z) F x) → buddy k b ∉ F k →
  ∃ z' ps', free_block_internal (S fuel) z ps b k = Done (z', ps') ∧
    free_ok z ps F k b z' ps' (upd F k (b :: F k)).
Proof.
  intros Hz Hbl Hfree Hbud. pose proof Hbl as (Hk&_). pose proof (pow2_pos k ltac:(lia)).
  pose proof (zone_ok_bounds _ _ _ Hz) as Hb. pose proof (zone_bounds_1024 _ _ Hb) as Hh.
  assert (m_highest_order z ≤ 10) as Hh10 by (destruct Hz; unfold MAX_ORDER in *; lia).
  assert (b ∉ F k) as Hnb by (intros ?; apply (Hfree b); [lia|]; exists k, b; split_and!; (done || lia)).
  destruct (zo_bucket _ _ _ Hz k Hk) as (bk&Hbk&Hok). pose proof Hok as (_&Hfl&_).
  cbn [free_block_internal]. rewrite (proj2 (Z.leb_le _ _)) by lia. cbn [kassert mbind outcome_bind].
  rewrite (bucket_Done _ _ _ Hbk). cbn [mbind outcome_bind].
  rewrite (bucket_get_bit _ _ _ _ _ Hok Hbl Hh10), !bool_decide_false by done.
  cbn [xorb mbind outcome_bind Bool.eqb].
  destruct (bucket_set_bit _ _ _ _ b (b :: F k) MIXED Hok Hbl Hh10) as (bk'&->&Hfl'&_&Hbk').
  { set_solver. }
  { rewrite bool_decide_true, bool_decide_false; [done| |set_solver].
    destruct (block_pair _ _ _ Hbl) as [[? He]|[? He]]; rewrite He in *; set_solver by lia. }
  cbn [mbind outcome_bind]. rewrite Hfl', Hfl.
  assert (∀ y, y ∈ F k → 0 ≤ y < 2 ^ m_highest_order z) as Hr
    by (intros y Hy; by destruct (zone_block _ _ _ _ _ Hz Hk Hy) as (_&?&_)).
  pose proof (block_range _ _ _ Hbl Hh10) as [? ?].
  destruct (relink_next z ps (F k) (-1) b Hb (zo_dll _ _ _ Hz k Hk)) as (ps1&Hu1&Hd1&Hf1);
    [apply (lo_nodup _ _ (zo_lists _ _ _ Hz) k Hk)|done|lia|].
  rewrite (s16_id b) by lia. rewrite Hu1. cbn [mbind outcome_bind].
  assert (-2 ^ 15 ≤ first_of (-1) (F k) < 2 ^ 15) as Hfo
    by (apply first_of_range; [lia|]; intros y Hy; specialize (Hr y Hy); lia).
  rewrite (s16_id (first_of _ _)) by lia.
  destruct (zone_page_links z ps1 b (first_of (-1) (F k))) as (p&Hu&Hpg&Hn&Hpr);
    [eapply zone_bounds_length; [done|apply Hf1]|lia|lia|].
  apply bind_Done in Hu as (ps2&->&Hu). cbn [mbind outcome_bind]. rewrite Hu.
  eexists _, _. split; [done|]. by apply free_push_ok.
Qed.

(** Only blocks below the highest order have a buddy in the zone. *)
Lemma buddy_below h k b : block h k b → block h k (buddy k b) → k < h.
Proof.
  intros Hb (?&?&?&_). pose proof Hb as (?&?&?&_). destruct (decide (k = h)) as [->|]; [|lia].
  destruct (block_pair _ _ _ Hb) as [[? ?]|[? ?]]; pose proof (pow2_pos h ltac:(lia)); lia.
Qed.

(** A pair of buddies is the block above. *)
Lemma pair_cover h k b x : block h k b →
  pair_of k b * 2 ^ (k + 1) ≤ x < pair_of k b * 2 ^ (k + 1) + 2 ^ (k + 1) ↔
  b ≤ x < b + 2 ^ k ∨ buddy k b ≤ x < buddy k b + 2 ^ k.
Proof.
  intros Hb. pose proof Hb as (?&_). pose proof (pow2_pos k ltac:(lia)).
  destruct (block_pair _ _ _ Hb) as [[He ->]|[He ->]]; rewrite pow2_S in * by lia; lia.
Qed.

(** Taking the free buddy out of its list, with the bit of the pair reset. *)
Lemma free_unlink z ps F k b :
  zone_ok z ps F → block (m_highest_order z) k b → b ∉ F k → buddy k b ∈ F k →
  ∃ bk bk' z1 ps1 l, m_orders z !! Z.to_nat k = Some bk ∧ set_bit bk b BOTH = Done bk' ∧
    bit_index bk' b = pair_of k b ∧
    remove_from_freelist (set_bucket z k bk') ps (buddy k b) k = Done (z1, ps1) ∧
    zone_ok z1 ps1 (upd F k l) ∧ same_zone z z1 ∧ frame z ps ps1 (λ y, y ∈ F k) ∧
    (∀ y, y ∈ l ↔ y ∈ F k ∧ y ≠ buddy k b) ∧ length (F k) = S (length l).
Proof.
  intros Hz Hbl Hnb Hbud. pose proof Hbl as (Hk&_).
  pose proof (zone_ok_bounds _ _ _ Hz) as Hb.
  assert (m_highest_order z ≤ 10) as Hh10 by (destruct Hz; unfold MAX_ORDER in *; lia).
  destruct (zo_bucket _ _ _ Hz k Hk) as (bk&Hbk&Hok). pose proof Hok as (_&Hfl&_).
  pose proof Hbud as (l1&l2&HF)%list_elem_of_split.
  pose proof (lo_nodup _ _ (zo_lists _ _ _ Hz) k Hk) as Hnd. rewrite HF in Hnd.
  assert (∀ y, y ∈ l1 ++ l2 ↔ y ∈ F k ∧ y ≠ buddy k b) as Hl.
  { apply NoDup_app in Hnd as (?&?&[? ?]%NoDup_cons). rewrite HF. set_solver. }
  destruct (bucket_set_bit _ _ _ _ b (l1 ++ l2) BOTH Hok Hbl Hh10) as (bk'&Hset&Hfl'&Hbi&Hbk').
  { intros x Hx Hx'. rewrite Hl. tauto. }
  { rewrite !bool_decide_false by (rewrite Hl; tauto). done. }
  assert (m_orders (set_bucket z k bk') !! Z.to_nat k = Some bk') as Hbk1.
  { cbn. apply list_lookup_insert_eq. by eapply lookup_lt_Some. }
  destruct (remove_spec (set_bucket z k bk') ps k bk' l1 (buddy k b) l2) as (ps1&Hrm&Hd&Hf);
    [done|done|by rewrite Hfl', Hfl, HF|done| | |].
  { rewrite <-HF. intros y Hy. by destruct (zone_block _ _ _ _ _ Hz Hk Hy) as (_&?&_). }
  { rewrite <-HF. apply (zo_dll _ _ _ Hz k Hk). }
  assert (frame z ps ps1 (λ y, y ∈ F k)) as Hf'.
  { eapply (frame_weaken z); [|exact Hf]. cbn. intros y Hy. by apply Hl in Hy as [? _]. }
  eexists bk, bk', _, ps1, (l1 ++ l2). split_and!; [done|done|done|exact Hrm| |done|done|done|].
  - unfold set_bucket at 1. cbn [m_orders set_bucket m_first_page m_highest_order m_num_pages m_free_pages].
    rewrite list_insert_insert_eq.
    apply (zone_ok_update z ps); [done|done|apply Hf| |done|done|].
    + apply NoDup_app in Hnd as (?&Hdis&[? ?]%NoDup_cons).
      apply lists_ok_sub; [apply Hz|done| |intros x Hx; by apply Hl in Hx as [? _]].
      apply NoDup_app. split_and!; [done| |done]. set_solver.
    + intros j x Hj Hne Hx. apply (frame_pg z _ _ _ x Hf').
      * destruct (zone_block _ _ _ _ _ Hz Hj Hx), Hz. lia.
      * intros Hx'. by apply (zone_lists_ne z ps F j k x x Hz Hj Hk Hne Hx Hx').
  - rewrite HF, !length_app. cbn. lia.
Qed.

(** Merging with the free buddy. *)
Lemma free_merge_ok z ps F k b z1 ps1 l z' ps' F' :
  zone_ok z ps F → block (m_highest_order z) k b → buddy k b ∈ F k →
  same_zone z z1 → frame z ps ps1 (λ y, y ∈ F k) →
  (∀ y, y ∈ l ↔ y ∈ F k ∧ y ≠ buddy k b) → length (F k) = S (length l) →
  free_ok z1 ps1 (upd F k l) (k + 1) (pair_of k b * 2 ^ (k + 1)) z' ps' F' →
  free_ok z ps F k b z' ps' F'.
Proof.
  intros Hz Hbl Hbud (Hs1&Hs2&Hs3&Hs4) Hf Hl Hlen [Hz' (Hs1'&Hs2'&Hs3'&Hs4') Hrest Hcount Hframe].
  pose proof Hbl as (Hk&_). pose proof (pow2_pos k ltac:(lia)). rewrite Hs2 in *.
  assert (∀ x, free_in (m_highest_order z) (upd F k l) x ↔
    free_in (m_highest_order z) F x ∧ ¬ (buddy k b ≤ x < buddy k b + 2 ^ k)) as Hrem
    by (intros x; apply free_in_remove; [apply Hz|done..]).
  assert (∀ x, buddy k b ≤ x < buddy k b + 2 ^ k → free_in (m_highest_order z) F x) as Hbf
    by (intros x Hx; by exists k, (buddy k b)).
  assert (∀ x, buddy k b ≤ x < buddy k b + 2 ^ k ∨ ¬ (buddy k b ≤ x < buddy k b + 2 ^ k)) as Hdec by lia.
  split.
  - done.
  - unfold same_zone. by rewrite Hs1', Hs2', Hs3', Hs4', Hs1, Hs3, Hs4.
  - intros x. rewrite Hrest, Hrem, (pair_cover (m_highest_order z)) by done.
    specialize (Hbf x). specialize (Hdec x). tauto.
  - rewrite Hcount, free_count_upd, Hlen, pow2_S by lia. lia.
  - eapply frame_trans.
    + eapply frame_weaken; [|exact Hf]. cbn. intros x Hx. left. exists k, x. split_and!; (done || lia).
    + destruct Hframe as [? Hfr]. split; [done|]. intros i Hi. specialize (Hfr i Hi).
      rewrite Hs1 in Hfr. rewrite Hrem, (pair_cover (m_highest_order z)) in Hfr by done.
      specialize (Hbf (Z.of_nat i - m_first_page z)). tauto.
Qed.

Lemma free_internal_spec (n : nat) : ∀ fuel z ps F k b,
  zone_ok z ps F → block (m_highest_order z) k b →
  (∀ x, b ≤ x < b + 2 ^ k → ¬ free_in (m_highest_order z) F x) →
  k + Z.of_nat n = m_highest_order z → (n < fuel)%nat →
  ∃ z' ps' F', free_block_internal fuel z ps b k = Done (z', ps') ∧ free_ok z ps F k b z' ps' F'.
Proof.
  induction n as [|n IH]; intros fuel z ps F k b Hz Hbl Hfree Hn Hfuel;
    (destruct fuel as [|fuel]; [lia|]); destruct (decide (buddy k b ∈ F k)) as [Hbud|Hbud].
  2,4: destruct (free_push fuel z ps F k b Hz Hbl Hfree Hbud) as (z'&ps'&?&?); by eexists _, _, _.
  { pose proof Hbl as (Hk&_). destruct (zone_block _ _ _ _ _ Hz Hk Hbud) as (Hbb&_).
    pose proof (buddy_below _ _ _ Hbl Hbb). lia. }
  pose proof Hbl as (Hk&_). pose proof (pow2_pos k ltac:(lia)).
  assert (m_highest_order z ≤ 10) as Hh10 by (destruct Hz; unfold MAX_ORDER in *; lia).
  assert (b ∉ F k) as Hnb by (intros ?; apply (Hfree b); [lia|]; exists k, b; split_and!; (done || lia)).
  destruct (free_unlink z ps F k b Hz Hbl Hnb Hbud) as (bk&bk'&z1&ps1&l&Hbk&Hset&Hbi&Hrm&Hz1&Hs&Hf&Hl&Hlen).
  destruct (zo_bucket _ _ _ Hz k Hk) as (bk0&Hbk0&Hok). simplify_eq.
  cbn [free_block_internal]. rewrite (proj2 (Z.leb_le _ _)) by lia. cbn [kassert mbind outcome_bind].
  rewrite (bucket_Done _ _ _ Hbk). cbn [mbind outcome_bind].
  rewrite (bucket_get_bit _ _ _ _ _ Hok Hbl Hh10), bool_decide_false, bool_decide_true by done.
  cbn [xorb mbind outcome_bind Bool.eqb MIXED]. rewrite Hset. cbn [mbind outcome_bind].
  rewrite Hbi. unfold size_of_order. rewrite Z.shiftl_1_l.
  replace (pair_of k b * 2 * 2 ^ k) with (pair_of k b * 2 ^ (k + 1)) by (rewrite pow2_S by lia; lia).
  assert ((if b =? pair_of k b * 2 ^ (k + 1)
    then remove_from_freelist (set_bucket z k bk') ps (pair_of k b * 2 ^ (k + 1) + 2 ^ k) k
    else remove_from_freelist (set_bucket z k bk') ps (pair_of k b * 2 ^ (k + 1)) k) =
    Done (z1, ps1)) as ->.
  { rewrite <-Hrm. destruct (block_pair _ _ _ Hbl) as [[He ->]|[He ->]].
    - rewrite <-He, Z.eqb_refl. done.
    - rewrite (proj2 (Z.eqb_neq _ _)) by lia. f_equal. lia. }
  cbn [mbind outcome_bind]. pose proof Hs as (_&Hs2&_).
  destruct (IH fuel z1 ps1 (upd F k l) (k + 1) (pair_of k b * 2 ^ (k + 1)) Hz1) as (z'&ps'&F'&Hrec&Hfo).
  - rewrite Hs2. apply block_merge; [done|lia].
  - rewrite Hs2. intros x Hx%(pair_cover (m_highest_order z)); [|done].
    rewrite free_in_remove; [|apply Hz|done..]. intros [Hfx ?]. destruct Hx as [Hx|Hx]; [|done].
    by apply (Hfree x).
  - lia.
  - lia.
  - exists z', ps', F'. split; [done|]. by eapply free_merge_ok.
Qed.

(** ** The public operations *)

Lemma order_for_pow2 k : 0 ≤ k < 32 → order_for (2 ^ k) = Done k.
Proof.
  intros Hk. pose proof (pow2_pos k ltac:(lia)). unfold order_for, clz.
  rewrite (proj2 (Z.eqb_neq _ _)) by lia. cbn [mbind outcome_bind].
  rewrite Z.log2_pow2 by lia. replace (32 - (31 - k) - 1) with k by lia.
  rewrite Z.shiftl_1_l, Z.sub_diag. done.
Qed.

(** [order_for] rounds up to the next power of two. *)
Lemma order_for_spec n : 0 < n → ∃ k, order_for n = Done k ∧ 0 ≤ k ∧ n ≤ 2 ^ k ∧ 2 ^ k < 2 * n.
Proof.
  intros Hn. unfold order_for, clz. rewrite (proj2 (Z.eqb_neq _ _)) by lia. cbn [mbind outcome_bind].
  replace (32 - (31 - Z.log2 n) - 1) with (Z.log2 n) by lia. rewrite Z.shiftl_1_l.
  pose proof (Z.log2_spec n Hn) as [H1 H2]. pose proof (Z.log2_nonneg n).
  eexists. split; [done|]. destruct (Z.eqb_spec (n - 2 ^ Z.log2 n) 0); [lia|].
  rewrite pow2_S by done. rewrite <-Z.add_1_r, pow2_S in H2 by done. lia.
Qed.

Definition zone_inv (z : BuddyZone) (ps : pages) (F : lists) : Prop :=
  zone_ok z ps F ∧ m_free_pages z = free_count (m_highest_order z) F.

Lemma count_orders_nonneg F ks : (∀ k, k ∈ ks → 0 ≤ k) → 0 ≤ count_orders F ks.
Proof.
  induction ks as [|k ks IH]; cbn; [done|]. intros Hk.
  pose proof (pow2_pos k ltac:(set_solver)). specialize (IH ltac:(set_solver)).
  unfold count_orders in IH. nia.
Qed.

Lemma free_count_ge h F j b l : 0 ≤ j ≤ h → F j = b :: l → 2 ^ j ≤ free_count h F.
Proof.
  intros Hj HF. pose proof (free_count_upd h F j l Hj) as Hc. rewrite HF in Hc. cbn [length] in Hc.
  assert (0 ≤ free_count h (upd F j l)); [|lia]. apply count_orders_nonneg.
  intros k Hk. apply elem_of_seqZ in Hk. lia.
Qed.

Lemma zone_ok_set_free z ps F n : zone_ok z ps F → zone_ok (set_free_pages z n) ps F.
Proof. by intros []. Qed.

(** The free pages as a list, order by order. *)
Definition block_pages (k b : Z) : list Z := seqZ b (2 ^ k).
Definition order_pages (F : lists) (k : Z) : list Z := F k ≫= block_pages k.
Definition free_list (h : Z) (F : lists) : list Z := seqZ 0 (h + 1) ≫= order_pages F.

Lemma elem_of_free_list h F x : lists_ok h F → x ∈ free_list h F ↔ free_in h F x.
Proof.
  intros Ho. unfold free_list, free_in. rewrite list_elem_of_bind. split.
  - intros (k&(b&Hx&Hb)%list_elem_of_bind&Hk%elem_of_seqZ). apply elem_of_seqZ in Hx.
    exists k, b. split_and!; (done || lia).
  - intros (k&b&Hk&Hb&Hx). exists k. split; [|apply elem_of_seqZ; lia].
    apply list_elem_of_bind. exists b. split; [apply elem_of_seqZ; lia|done].
Qed.

Lemma NoDup_bind_disjoint {A B} (f : A → list B) (l : list A) :
  NoDup l → (∀ a, a ∈ l → NoDup (f a)) →
  (∀ a1 a2 x, a1 ∈ l → a2 ∈ l → x ∈ f a1 → x ∈ f a2 → a1 = a2) → NoDup (l ≫= f).
Proof.
  induction 1 as [|a l Ha Hl IH]; intros Hf Hd; cbn; [constructor|].
  apply NoDup_app. split_and!; [apply Hf; set_solver| |apply IH; set_solver].
  intros x Hx (a'&Hx'&Ha')%list_elem_of_bind. assert (a = a') as -> by (eapply Hd; set_solver). done.
Qed.

Lemma NoDup_free_list h F : lists_ok h F → NoDup (free_list h F).
Proof.
  intros Ho. apply NoDup_bind_disjoint; [apply NoDup_seqZ|..].
  - intros k Hk%elem_of_seqZ. apply NoDup_bind_disjoint; [apply Ho; lia|..].
    + intros. apply NoDup_seqZ.
    + intros b1 b2 x H1 H2 Hx1%elem_of_seqZ Hx2%elem_of_seqZ.
      destruct (lo_disj _ _ Ho k k b1 b2) as [[_ ?]|]; [lia|lia|done..|lia].
  - intros k1 k2 x Hk1%elem_of_seqZ Hk2%elem_of_seqZ (b1&Hx1%elem_of_seqZ&H1)%list_elem_of_bind
      (b2&Hx2%elem_of_seqZ&H2)%list_elem_of_bind.
    destruct (lo_disj _ _ Ho k1 k2 b1 b2) as [[? _]|]; [lia|lia|done..|lia].
Qed.

Lemma length_free_list h F : Z.of_nat (length (free_list h F)) = free_count h F.
Proof.
  unfold free_list, free_count. assert (∀ k, k ∈ seqZ 0 (h + 1) → 0 ≤ k) as Hpos
    by (intros k Hk%elem_of_seqZ; lia).
  induction (seqZ 0 (h + 1)) as [|k ks IH]; cbn; [done|].
  rewrite length_app, Nat2Z.inj_add, IH by set_solver. rewrite Z.add_comm. f_equal.
  pose proof (pow2_pos k ltac:(set_solver)). unfold order_pages.
  induction (F k) as [|b l IHl]; cbn [length mbind list_bind]; [lia|].
  rewrite length_app, Nat2Z.inj_add, IHl. unfold block_pages. rewrite length_seqZ. lia.
Qed.

(** [m_free_pages] counts the free pages, which are pages of the zone. *)
Lemma free_count_le h F : lists_ok h F → 0 ≤ h → 0 ≤ free_count h F ≤ 2 ^ h.
Proof.
  intros Ho Hh. pose proof (pow2_pos h Hh). rewrite <-length_free_list.
  assert (length (free_list h F) ≤ length (seqZ 0 (2 ^ h)))%nat as Hle.
  { apply submseteq_length, NoDup_submseteq; [by apply NoDup_free_list|].
    intros x (k&b&Hk&Hb&Hx)%elem_of_free_list; [|done]. apply elem_of_seqZ.
    destruct (lo_block _ _ Ho k b Hk Hb) as (_&?&?&_). lia. }
  rewrite length_seqZ in Hle. lia.
Qed.

(** [m_free_pages] counts [w] pages that are on no list: the ones between the
    numbers of pages that were asked for and the blocks that were given. *)
Definition zone_waste (z : BuddyZone) (ps : pages) (F : lists) (w : Z) : Prop :=
  zone_ok z ps F ∧ m_free_pages z = free_count (m_highest_order z) F + w ∧
  0 ≤ w ≤ 2 ^ m_highest_order z.

Lemma zone_inv_waste z ps F : zone_inv z ps F → zone_waste z ps F 0.
Proof. intros [Hz ?]. pose proof (pow2_pos _ (proj1 (zo_order _ _ _ Hz))). split_and!; (done || lia). Qed.

(** What the caller of [alloc_block] gets for [n] pages, with [2 ^ k] the next
    power of two: a block of [2 ^ k] pages that were free. *)
Lemma alloc_block_any z ps F w n k : zone_waste z ps F w → 0 < n → order_for n = Done k →
  0 ≤ k ≤ m_highest_order z → n ≤ 2 ^ k →
  (m_free_pages z < n ∧ alloc_block z ps n = Done (Err ENOMEM, z, ps)) ∨
  (n ≤ m_free_pages z ∧ (∃ j, k ≤ j ≤ m_highest_order z ∧ F j ≠ []) ∧
   ∃ b z1 ps' F', alloc_block z ps n =
       Done (Ok (m_first_page z + b), set_free_pages z1 (m_free_pages z - n), ps') ∧
     alloc_ok z ps F k b z1 ps' F' ∧
     m_free_pages z - n = free_count (m_highest_order z) F' + (w + (2 ^ k - n))) ∨
  (n ≤ m_free_pages z ∧ (∀ j, k ≤ j ≤ m_highest_order z → F j = []) ∧
   alloc_block z ps n = Panic).
Proof.
  intros (Hz&Hcount&Hw) Hn Ho Hk Hnk. pose proof Hz as [Hh _ Hfirst Hpages _ _ _]. unfold MAX_ORDER in Hh.
  pose proof (zone_bounds_1024 _ _ (zone_ok_bounds _ _ _ Hz)).
  unfold alloc_block. destruct (Z.ltb_spec (m_free_pages z) n); [by left|]. right.
  rewrite Ho. cbn [mbind outcome_bind].
  destruct (alloc_internal_spec (Z.to_nat (m_highest_order z - k)) order_fuel z ps F k Hz)
    as [[Hj (b&z'&ps'&F'&->&Hok)]|[Hno ->]]; [lia|lia|unfold order_fuel; lia|left|by right].
  split_and!; [done|done|]. exists b, z', ps', F'. cbn [mbind outcome_bind].
  pose proof Hok as [Hz' (Hs1&Hs2&Hs3&Hs4) Hbl _ _ _ Hc _].
  pose proof (block_range _ _ _ Hbl ltac:(lia)) as [? ?].
  rewrite Hs1, Hs4, (u32_id (m_first_page z + b)) by lia.
  pose proof (free_count_le _ _ (zo_lists _ _ _ Hz)).
  rewrite u32_id by lia. split_and!; [done|done|]. rewrite Hc, Hcount. lia.
Qed.

Lemma alloc_block_spec z ps F k : zone_inv z ps F → 0 ≤ k ≤ m_highest_order z →
  (m_free_pages z < 2 ^ k ∧ alloc_block z ps (2 ^ k) = Done (Err ENOMEM, z, ps)) ∨
  ((∃ j, k ≤ j ≤ m_highest_order z ∧ F j ≠ []) ∧
   ∃ b z1 ps' F', alloc_block z ps (2 ^ k) =
       Done (Ok (m_first_page z + b), set_free_pages z1 (m_free_pages z - 2 ^ k), ps') ∧
     alloc_ok z ps F k b z1 ps' F' ∧ zone_inv (set_free_pages z1 (m_free_pages z - 2 ^ k)) ps' F') ∨
  (2 ^ k ≤ m_free_pages z ∧ (∀ j, k ≤ j ≤ m_highest_order z → F j = []) ∧
   alloc_block z ps (2 ^ k) = Panic).
Proof.
  intros Hz Hk. pose proof (zo_order _ _ _ (proj1 Hz)) as Hh. unfold MAX_ORDER in Hh.
  destruct (alloc_block_any z ps F 0 (2 ^ k) k (zone_inv_waste _ _ _ Hz)) as [?|[(_&Hj&b&z1&ps'&F'&He&Hok&Hc)|?]];
    [apply pow2_pos; lia|apply order_for_pow2; lia|done|done|by left| |by right; right].
  right; left. split; [done|]. exists b, z1, ps', F'. split_and!; [done|done|].
  split; [apply zone_ok_set_free, Hok|]. destruct Hok as [_ (_&Hs2&_) _ _ _ _ _ _]. cbn. rewrite Hs2. lia.
Qed.

Lemma free_block_any z ps F w k b : zone_waste z ps F w → block (m_highest_order z) k b →
  (∀ x, b ≤ x < b + 2 ^ k → ¬ free_in (m_highest_order z) F x) →
  ∃ z1 ps' F', free_block z ps (m_first_page z + b) (2 ^ k) =
      Done (set_free_pages z1 (m_free_pages z + 2 ^ k), ps') ∧
    free_ok z ps F k b z1 ps' F' ∧ zone_waste (set_free_pages z1 (m_free_pages z + 2 ^ k)) ps' F' w.
Proof.
  intros (Hz&Hcount&Hw) Hbl Hfree. pose proof Hbl as (Hk&_). pose proof (pow2_pos k ltac:(lia)).
  pose proof Hz as [Hh Hnum Hfirst Hpages _ _ _]. unfold MAX_ORDER in Hh.
  pose proof (zone_bounds_1024 _ _ (zone_ok_bounds _ _ _ Hz)).
  pose proof (block_range _ _ _ Hbl ltac:(lia)) as [? ?].
  unfold free_block. rewrite (proj2 (Z.leb_le (m_first_page z) _)) by lia. cbn [kassert mbind outcome_bind].
  rewrite Hnum, (proj2 (Z.leb_le _ _)) by (rewrite !u32_id; lia). cbn [kassert mbind outcome_bind].
  rewrite order_for_pow2 by lia. cbn [mbind outcome_bind]. unfold size_of_order.
  rewrite Z.shiftl_1_l, Z.eqb_refl. cbn [kassert mbind outcome_bind].
  replace (m_first_page z + b - m_first_page z) with b by lia.
  destruct (free_internal_spec (Z.to_nat (m_highest_order z - k)) order_fuel z ps F k b Hz Hbl Hfree)
    as (z'&ps'&F'&->&Hok); [lia|unfold order_fuel; lia|].
  cbn [mbind outcome_bind]. exists z', ps', F'. pose proof Hok as [Hz' (Hs1&Hs2&Hs3&Hs4) _ Hc _].
  pose proof (free_count_le _ _ (zo_lists _ _ _ Hz') ltac:(lia)) as Hle. rewrite Hs2 in Hle.
  pose proof (free_count_le _ _ (zo_lists _ _ _ Hz) ltac:(lia)).
  rewrite Hs4, u32_id by lia. split_and!; [done|done|].
  split_and!; [by apply zone_ok_set_free|cbn; rewrite Hs2, Hc; lia|lia|cbn; rewrite Hs2; lia].
Qed.

Lemma free_block_spec z ps F k b : zone_inv z ps F → block (m_highest_order z) k b →
  (∀ x, b ≤ x < b + 2 ^ k → ¬ free_in (m_highest_order z) F x) →
  ∃ z1 ps' F', free_block z ps (m_first_page z + b) (2 ^ k) =
      Done (set_free_pages z1 (m_free_pages z + 2 ^ k), ps') ∧
    free_ok z ps F k b z1 ps' F' ∧ zone_inv (set_free_pages z1 (m_free_pages z + 2 ^ k)) ps' F'.
Proof.
  intros Hz Hbl Hfree. destruct (free_block_any z ps F 0 k b (zone_inv_waste _ _ _ Hz) Hbl Hfree) as (z1&ps'&F'&He&Hok&Hz'&Hc&_).
  exists z1, ps', F'. split_and!; [done|done|]. split; [done|]. rewrite Hc. apply Z.add_0_r.
Qed.

(** ** A new zone *)

Definition new_lists (h : Z) : lists := λ k, if k =? h then [0] else [].

Lemma new_buckets_spec raw h (n : nat) : ∀ i, 0 ≤ i → i + Z.of_nat n = h + 1 → h ≤ 10 →
  64 ≤ Z.of_nat (length raw) →
  ∃ bks, new_buckets raw (2 ^ h) n i = Done bks ∧ length bks = n ∧
    ∀ j bk, bks !! j = Some bk → order bk = i + Z.of_nat j ∧ freelist bk = -1 ∧
      bm_rep (block_map bk) ((2 ^ (h - (i + Z.of_nat j)) + 1) / 2) (λ _, false).
Proof.
  induction n as [|n IH]; intros i Hi Hn Hh Hraw; cbn [new_buckets]; [by exists []|].
  assert (∃ bk, new_bucket raw (2 ^ h) i = Done bk ∧ order bk = i ∧ freelist bk = -1 ∧
    bm_rep (block_map bk) ((2 ^ (h - i) + 1) / 2) (λ _, false)) as (bk&->&?&?&?).
  { unfold new_bucket, size_of_order. rewrite Z.shiftl_1_l.
    replace (2 ^ h / 2 ^ i) with (2 ^ (h - i)) by (symmetry; rewrite <-Z.pow_sub_r by lia; done).
    assert (0 < 2 ^ (h - i) ≤ 1024) as Hp.
    { split; [apply pow2_pos; lia|]. apply (Z.pow_le_mono_r 2 _ 10); lia. }
    assert (1 ≤ (2 ^ (h - i) + 1) / 2 ≤ 512) by (Z.div_mod_to_equations; lia).
    rewrite (proj2 (Z.eqb_neq _ _)) by lia.
    destruct (bm_new raw ((2 ^ (h - i) + 1) / 2)) as (b&->&Hb);
      [lia|unfold bitmap_bytes; Z.div_mod_to_equations; lia|].
    eexists. split; [done|]. split_and!; [done|done|]. by apply assign_move_rep. }
  destruct (IH (i + 1)) as (bks&->&Hlen&Hbks); [lia..|].
  exists (bk :: bks). split; [done|]. split; [cbn; lia|]. intros [|j] bj Hj; cbn in Hj.
  - simplify_eq. by rewrite Z.add_0_r.
  - destruct (Hbks j bj Hj) as (?&?&?). replace (i + Z.of_nat (S j)) with (i + 1 + Z.of_nat j) by lia.
    done.
Qed.

Lemma new_lists_ok h : 0 ≤ h → lists_ok h (new_lists h).
Proof.
  intros Hh. pose proof (pow2_pos h Hh). unfold new_lists.
  assert (∀ k b, b ∈ (if k =? h then [0] else []) → k = h ∧ b = 0) as Hin
    by (intros k b; destruct (Z.eqb_spec k h); set_solver).
  split.
  - intros k b Hk [-> ->]%Hin. split_and!; [lia|lia|lia|lia|apply Z.divide_0_r].
  - intros k _. destruct (k =? h); repeat constructor; set_solver.
  - intros k1 k2 b1 b2 _ _ [-> ->]%Hin [-> ->]%Hin. by left.
  - intros k b Hk [-> ->]%Hin [_ Hb]%Hin. unfold buddy, pair_of in Hb. rewrite Z.div_0_l in Hb by lia. lia.
Qed.

Lemma new_free_in h x : 0 ≤ h → 0 ≤ x < 2 ^ h → free_in h (new_lists h) x.
Proof.
  intros Hh Hx. exists h, 0. unfold new_lists. rewrite Z.eqb_refl. split_and!; (lia || set_solver).
Qed.

Lemma set_bit_freelist bk b v bk' n : set_bit bk b v = Done bk' →
  set_bit (set_freelist bk n) b v = Done (set_freelist bk' n).
Proof.
  unfold set_bit, bit_index, set_freelist. cbn. destruct (set _ _ _); cbn; intros; by simplify_eq.
Qed.

Lemma count_orders_empty ks : count_orders (λ _, []) ks = 0.
Proof.
  induction ks as [|k ks IH]; [done|].
  change (count_orders (λ _, []) (k :: ks)) with (count_orders (λ _, []) ks + 2 ^ k * 0). lia.
Qed.

Lemma free_count_new h : 0 ≤ h → free_count h (new_lists h) = 2 ^ h.
Proof.
  intros. change (new_lists h) with (upd (λ _, []) h [0]). rewrite free_count_upd by lia. cbn.
  unfold free_count. rewrite count_orders_empty. lia.
Qed.

Lemma zone_new_spec raw first h ps p : 0 ≤ h ≤ MAX_ORDER → 1 ≤ first →
  first + 2 ^ h ≤ Z.of_nat (length ps) < 2 ^ 32 → 64 ≤ Z.of_nat (length raw) →
  ps !! Z.to_nat first = Some p → free_next p = -1 → free_prev p = -1 →
  ∃ z, zone_new raw first (2 ^ h) = Done z ∧ zone_inv z ps (new_lists h) ∧
    m_first_page z = first ∧ m_highest_order z = h.
Proof.
  intros Hh Hf Hps Hraw Hp Hn Hpr. unfold MAX_ORDER in Hh. pose proof (pow2_pos h ltac:(lia)).
  unfold zone_new. rewrite order_for_pow2 by lia. cbn [mbind outcome_bind].
  unfold size_of_order. rewrite Z.shiftl_1_l, Z.eqb_refl. cbn [kassert mbind outcome_bind].
  rewrite (proj2 (Z.leb_le h MAX_ORDER)) by (unfold MAX_ORDER; lia). cbn [kassert mbind outcome_bind].
  destruct (new_buckets_spec raw h (Z.to_nat (h + 1)) 0) as (bks&->&Hlen&Hbks); [lia..|].
  cbn [mbind outcome_bind]. set (orders := bks ++ _).
  set (z := mk_zone orders first h (2 ^ h) (2 ^ h)).
  assert (∀ k, 0 ≤ k ≤ h → ∃ bk, orders !! Z.to_nat k = Some bk ∧ order bk = k ∧ freelist bk = -1 ∧
    bm_rep (block_map bk) ((2 ^ (h - k) + 1) / 2) (λ _, false)) as Hor.
  { intros k Hk. destruct (lookup_lt_is_Some_2 bks (Z.to_nat k)) as [bk Hbk]; [lia|].
    exists bk. destruct (Hbks _ _ Hbk) as (?&?&?). rewrite Z2Nat.id, Z.add_0_l in * by lia.
    split; [|done]. unfold orders. by rewrite lookup_app_l by lia. }
  assert (zone_ok z ps (λ _, [])) as Hz0
    by (split; cbn; try done; split; cbn; [set_solver|constructor|set_solver|set_solver]).
  destruct (zo_bucket _ _ _ Hz0 h ltac:(cbn; lia)) as (bk&Hbk&Hok).
  assert (block h h 0) as Hbl by (split_and!; [lia|lia|lia|lia|apply Z.divide_0_r]).
  destruct (bucket_set_bit h _ _ _ 0 [0] MIXED Hok Hbl ltac:(lia)) as (bk'&Hset&_&_&Hbk').
  { set_solver. }
  { rewrite bool_decide_true, bool_decide_false; [done| |set_solver].
    destruct (block_pair _ _ _ Hbl) as [[_ ->]|[_ ->]]; intros ?%list_elem_of_singleton; lia. }
  rewrite (bucket_Done _ _ _ Hbk). cbn [mbind outcome_bind].
  rewrite (set_bit_freelist _ _ _ _ 0 Hset). cbn [mbind outcome_bind].
  eexists. split; [done|]. split_and!; [|done|done]. split.
  - apply (zone_ok_update z ps (λ _, [])); [done|cbn; lia|done|apply new_lists_ok; cbn; lia|done| |].
    + cbn. split; [|done]. exists p. unfold pg. by rewrite Z.add_0_r.
    + cbn. set_solver.
  - cbn. rewrite free_count_new; lia.
Qed.

(** ** Coalescing *)

(** A block that reaches into an aligned interval of at most its size covers it. *)
Lemma aligned_cover c b x i j : 0 ≤ i ≤ j → (2 ^ j | c) → (2 ^ i | b) →
  c ≤ x < c + 2 ^ j → b ≤ x < b + 2 ^ i → c ≤ b ∧ b + 2 ^ i ≤ c + 2 ^ j.
Proof.
  intros Hij [m ->] [n ->] ??. pose proof (pow2_pos i ltac:(lia)).
  replace (2 ^ j) with (2 ^ (j - i) * 2 ^ i) in * by (rewrite <-Z.pow_add_r by lia; f_equal; lia).
  set (P := 2 ^ i) in *. set (Q := 2 ^ (j - i)) in *. clearbody P Q.
  rewrite Z.mul_assoc in *. set (M := m * Q) in *. clearbody M.
  assert (M < n + 1) by nia. assert (n < M + Q) by nia. split; nia.
Qed.

(** The first page of the buddy of a free block is not free when no smaller
    block in it is. *)
Lemma buddy_not_free h F k b : lists_ok h F → 0 ≤ k ≤ h → b ∈ F k → block h k (buddy k b) →
  (∀ j c, 0 ≤ j < k → c ∈ F j → ¬ (buddy k b ≤ c < buddy k b + 2 ^ k)) → ¬ free_in h F (buddy k b).
Proof.
  intros Ho Hk Hb Hbb Hlow (j&c&Hj&Hc&Hx). pose proof (lo_block _ _ Ho k b Hk Hb) as Hbl.
  pose proof (pow2_pos k ltac:(lia)). pose proof (lo_block _ _ Ho j c Hj Hc) as (_&?&?&Hdiv).
  destruct (decide (j < k)) as [|Hjk].
  { apply (Hlow j c); [lia|done|]. pose proof (pow2_pos j ltac:(lia)).
    destruct (aligned_cover (buddy k b) c (buddy k b) j k) as [? ?]; [lia|apply Hbb|done|lia|lia|lia]. }
  destruct (decide (j = k)) as [->|Hne].
  - destruct (aligned_cover c (buddy k b) (buddy k b) k k) as [? ?]; [lia|done|apply Hbb|lia|lia|].
    assert (c = buddy k b) as -> by lia. by apply (lo_buddy _ _ Ho k b Hk Hb).
  - destruct (pair_cover h k b (buddy k b) Hbl) as [_ Hcov]. specialize (Hcov ltac:(lia)).
    destruct (aligned_cover c (pair_of k b * 2 ^ (k + 1)) (buddy k b) (k + 1) j) as [? ?];
      [lia|done|by exists (pair_of k b)|lia|lia|].
    destruct (pair_cover h k b b Hbl) as [_ Hcov']. specialize (Hcov' ltac:(lia)).
    destruct (pair_cover h k b (b + 2 ^ k - 1) Hbl) as [_ Hcov'']. specialize (Hcov'' ltac:(lia)).
    destruct (lo_disj _ _ Ho j k c b Hj Hk Hc Hb) as [[? _]|]; lia.
Qed.

(** The buddy of a block below the highest order is a block. *)
Lemma block_buddy h k b : block h k b → k < h → block h k (buddy k b).
Proof.
  intros Hbl Hk. pose proof (block_merge _ _ _ Hbl ltac:(lia)) as (?&?&?&_). pose proof Hbl as (?&?&?&[m Hm]).
  pose proof (pow2_pos k ltac:(lia)).
  destruct (pair_cover h k b (buddy k b) Hbl) as [_ Hc1]. specialize (Hc1 ltac:(lia)).
  destruct (pair_cover h k b (buddy k b + 2 ^ k - 1) Hbl) as [_ Hc2]. specialize (Hc2 ltac:(lia)).
  split_and!; [lia|lia|lia|lia|]. destruct (block_pair _ _ _ Hbl) as [[_ ->]|[_ ->]];
    [exists (m + 1)|exists (m - 1)]; lia.
Qed.

(** Inside a block whose pages are all free there are no smaller free blocks. *)
Lemma free_block_whole h F k b : lists_ok h F → block h k b → (∀ x, b ≤ x < b + 2 ^ k → free_in h F x) →
  ∀ (n : nat) j c, 0 ≤ j < k → j < Z.of_nat n → c ∈ F j → ¬ (b ≤ c < b + 2 ^ k).
Proof.
  intros Ho Hb Hall. pose proof Hb as (Hk&_&_&Hdb).
  induction n as [|n IH]; intros j c Hj Hn Hc Hin; [lia|]. pose proof (lo_block _ _ Ho j c ltac:(lia) Hc) as Hcb.
  pose proof (block_buddy h j c Hcb ltac:(lia)) as Hbb. pose proof (pow2_pos j ltac:(lia)).
  destruct (pair_cover h j c c Hcb) as [_ Hp]. specialize (Hp ltac:(lia)).
  destruct (pair_cover h j c (buddy j c) Hcb) as [_ Hp2]. specialize (Hp2 ltac:(lia)).
  destruct (pair_cover h j c (buddy j c + 2 ^ j - 1) Hcb) as [_ Hp3]. specialize (Hp3 ltac:(lia)).
  destruct (aligned_cover b (pair_of j c * 2 ^ (j + 1)) c (j + 1) k) as [? ?]; [lia|done|by exists (pair_of j c)|lia|lia|].
  apply (buddy_not_free h F j c Ho ltac:(lia) Hc Hbb); [|apply Hall; lia].
  intros i d Hi Hd Hdin. apply (IH i d); [lia|lia|done|lia].
Qed.

(** So it is part of a listed block. *)
Lemma free_block_listed h F k b : lists_ok h F → block h k b → (∀ x, b ≤ x < b + 2 ^ k → free_in h F x) →
  ∃ j, k ≤ j ≤ h ∧ F j ≠ [].
Proof.
  intros Ho Hb Hall. pose proof Hb as (Hk&_&_&Hdb). pose proof (pow2_pos k ltac:(lia)).
  destruct (Hall b ltac:(lia)) as (j&c&Hj&Hc&Hx). exists j. split; [|intros E; rewrite E in Hc; by apply elem_of_nil in Hc].
  destruct (decide (k ≤ j)); [lia|exfalso]. pose proof (pow2_pos j ltac:(lia)).
  destruct (aligned_cover b c b j k) as [? ?]; [lia|done|apply (lo_block _ _ Ho j c Hj Hc)|lia|lia|].
  apply (free_block_whole h F k b Ho Hb Hall (S (Z.to_nat j)) j c); [lia|lia|done|lia].
Qed.

(** When every page is free there is one free block, of the highest order. *)
Lemma lists_coalesced h F : lists_ok h F → 0 ≤ h → (∀ x, 0 ≤ x < 2 ^ h → free_in h F x) →
  (∀ k, 0 ≤ k < h → F k = []) ∧ F h = [0].
Proof.
  intros Ho Hh Hall. assert (∀ (n : nat) k, 0 ≤ k < h → k < Z.of_nat n → F k = []) as Hlow.
  { induction n as [|n IH]; intros k Hk Hn; [lia|].
    destruct (F k) as [|b l] eqn:HF; [done|exfalso]. assert (b ∈ F k) as Hb by (rewrite HF; set_solver).
    pose proof (lo_block _ _ Ho k b ltac:(lia) Hb) as Hbl. pose proof (pow2_pos k ltac:(lia)).
    pose proof (block_buddy h k b Hbl ltac:(lia)) as Hbb.
    apply (buddy_not_free h F k b Ho ltac:(lia) Hb Hbb); [|apply Hall; destruct Hbb as (?&?&?&_); lia].
    intros j c Hj Hc. rewrite (IH j) in Hc by lia. by apply elem_of_nil in Hc. }
  split; [intros k Hk; by apply (Hlow (Z.to_nat (k + 1))); [|lia]|].
  pose proof (pow2_pos h Hh).
  assert (∀ b, b ∈ F h → b = 0) as Hzero.
  { intros b Hb. destruct (lo_block _ _ Ho h b ltac:(lia) Hb) as (_&?&?&_). lia. }
  destruct (Hall 0) as (j&c&Hj&Hc&_); [lia|].
  destruct (decide (j = h)) as [->|]; [|rewrite (Hlow (Z.to_nat (j + 1)) j) in Hc by lia; set_solver].
  pose proof (lo_nodup _ _ Ho h ltac:(lia)) as Hnd.
  destruct (F h) as [|b [|b' l]]; [set_solver|by rewrite (Hzero b) by set_solver|].
  rewrite (Hzero b), (Hzero b') in Hnd by set_solver. apply NoDup_cons in Hnd as [? _]. set_solver.
Qed.

(** ** Histories of a zone *)

(** A zone in use: the zone, the page array, the ranges of pages (the first one
    and their number) that callers own, and the ranges that were taken off the
    lists to fill a block and that nobody owns. *)
Record history : Type := mk_history {
  hs_zone : BuddyZone;
  hs_pages : pages;
  hs_live : list (Z * Z);
  hs_lost : list (Z * Z);
}.

Definition covers (r : Z * Z) (x : Z) : Prop := r.1 ≤ x < r.1 + r.2.

(** A page that is in one of the ranges. *)
Definition covered (l : list (Z * Z)) (x : Z) : Prop := ∃ r, r ∈ l ∧ covers r x.

Definition disjoint (r r' : Z * Z) : Prop := ∀ x, ¬ (covers r x ∧ covers r' x).

Fixpoint disjoint_ranges (l : list (Z * Z)) : Prop :=
  match l with
  | [] => True
  | r :: l => (∀ r', r' ∈ l → disjoint r r') ∧ disjoint_ranges l
  end.

Lemma disjoint_ranges_mid l1 r l2 :
  disjoint_ranges (l1 ++ r :: l2) ↔
  disjoint_ranges (l1 ++ l2) ∧ ∀ r', r' ∈ l1 ++ l2 → disjoint r r'.
Proof.
  assert (∀ b1 b2, disjoint b1 b2 → disjoint b2 b1) as Hsym by (intros ?? Hd x; specialize (Hd x); tauto).
  induction l1 as [|b1 l1 IH]; cbn; [tauto|]. rewrite IH. split.
  - intros [H1 [H2 H3]]. split_and!; [set_solver|done|].
    intros b' [->|?]%elem_of_cons; [apply Hsym, H1; set_solver|auto].
  - intros [[H1 H2] H3]. split_and!; [|done|set_solver].
    intros b' Hb'. destruct (decide (b' = r)) as [->|]; [apply Hsym, H3; set_solver|].
    apply H1. set_solver.
Qed.

Lemma covered_app l1 l2 x : covered (l1 ++ l2) x ↔ covered l1 x ∨ covered l2 x.
Proof. unfold covered. setoid_rewrite elem_of_app. naive_solver. Qed.

Lemma covered_cons r l x : covered (r :: l) x ↔ covers r x ∨ covered l x.
Proof. unfold covered. setoid_rewrite elem_of_cons. naive_solver. Qed.

Lemma covered_nil x : ¬ covered [] x.
Proof. intros (r&Hr&_). by apply elem_of_nil in Hr. Qed.

(** The pages of ranges, and their number. *)
Definition range_pages (l : list (Z * Z)) : list Z := l ≫= λ r, seqZ r.1 r.2.

Lemma elem_of_range_pages l x : x ∈ range_pages l ↔ covered l x.
Proof.
  unfold range_pages, covered. rewrite list_elem_of_bind. split.
  - intros (r&Hx%elem_of_seqZ&Hr). by exists r.
  - intros (r&Hr&Hx). exists r. split; [by apply elem_of_seqZ|done].
Qed.

Lemma NoDup_range_pages l : disjoint_ranges l → NoDup (range_pages l).
Proof.
  induction l as [|r l IH]; [constructor|]. intros [Hr Hl]. cbn. apply NoDup_app. split_and!; [apply NoDup_seqZ| |by apply IH].
  intros x Hx%elem_of_seqZ (r'&Hr'&Hc)%elem_of_range_pages. by apply (Hr r' Hr' x).
Qed.

Definition total (l : list (Z * Z)) : Z := Z.of_nat (length (range_pages l)).

Lemma total_cons r l : 0 ≤ r.2 → total (r :: l) = r.2 + total l.
Proof. intros. unfold total. change (range_pages (r :: l)) with (seqZ r.1 r.2 ++ range_pages l). rewrite length_app, length_seqZ. lia. Qed.

(** What fills a block of order [k] when [n] pages were asked for. *)
Definition padding (b n k : Z) : list (Z * Z) := if n =? 2 ^ k then [] else [(b + n, 2 ^ k - n)].

Lemma covered_padding b n k x : n ≤ 2 ^ k → covered (padding b n k) x ↔ b + n ≤ x < b + 2 ^ k.
Proof.
  intros Hn. unfold padding. destruct (Z.eqb_spec n (2 ^ k)).
  - split; [by intros ?%covered_nil|lia].
  - rewrite covered_cons. unfold covers. cbn. split; [intros [?|?%covered_nil]; (lia || done)|lia].
Qed.

Lemma total_padding b n k l : n ≤ 2 ^ k → total (padding b n k ++ l) = 2 ^ k - n + total l.
Proof.
  intros Hn. unfold padding. destruct (Z.eqb_spec n (2 ^ k)); [cbn [app]; lia|]. cbn [app].
  rewrite total_cons; [done|cbn; lia].
Qed.

(** One step: an allocation of any number of pages, a refused one, the owner of
    a range returning it, an owner who goes on with the two parts of a range (to
    return them one by one), or writes the page structure of one of its pages
    (its reference count). The code does not check that what is returned starts
    at a multiple of its size; owners have to see to that. *)
Inductive zone_step : history → history → Prop :=
  | step_alloc z ps live lost n k p z' ps' :
      0 < n → order_for n = Done k → alloc_block z ps n = Done (Ok p, z', ps') →
      zone_step (mk_history z ps live lost)
        (mk_history z' ps' ((p - m_first_page z, n) :: live) (padding (p - m_first_page z) n k ++ lost))
  | step_refused z ps live lost n e z' ps' :
      0 < n → alloc_block z ps n = Done (Err e, z', ps') →
      zone_step (mk_history z ps live lost) (mk_history z' ps' live lost)
  | step_free z ps live1 b n live2 lost z' ps' :
      (n | b) → free_block z ps (m_first_page z + b) n = Done (z', ps') →
      zone_step (mk_history z ps (live1 ++ (b, n) :: live2) lost) (mk_history z' ps' (live1 ++ live2) lost)
  | step_part z ps live1 b n1 n2 live2 lost :
      0 < n1 → 0 < n2 →
      zone_step (mk_history z ps (live1 ++ (b, n1 + n2) :: live2) lost)
        (mk_history z ps (live1 ++ (b, n1) :: (b + n1, n2) :: live2) lost)
  | step_write z ps live lost r x q :
      r ∈ live → covers r x →
      zone_step (mk_history z ps live lost)
        (mk_history z (<[Z.to_nat (m_first_page z + x) := q]> ps) live lost).

(** What holds in every state: the ranges are in the zone and pairwise disjoint,
    the pages on the lists are those in none of them, and the ones nobody owns
    are counted as free. *)
Definition history_inv (h first : Z) (s : history) : Prop :=
  m_highest_order (hs_zone s) = h ∧ m_first_page (hs_zone s) = first ∧
  (∀ r, r ∈ hs_live s ++ hs_lost s → 0 ≤ r.1 ∧ 0 < r.2 ∧ r.1 + r.2 ≤ 2 ^ h) ∧
  disjoint_ranges (hs_live s ++ hs_lost s) ∧
  ∃ F, zone_waste (hs_zone s) (hs_pages s) F (total (hs_lost s)) ∧
    ∀ x, free_in h F x ↔ 0 ≤ x < 2 ^ h ∧ ¬ covered (hs_live s ++ hs_lost s) x.

(** Ranges of the zone have no more pages than the zone. *)
Lemma total_le h l : 0 ≤ h → disjoint_ranges l → (∀ r, r ∈ l → 0 ≤ r.1 ∧ 0 < r.2 ∧ r.1 + r.2 ≤ 2 ^ h) → 0 ≤ total l ≤ 2 ^ h.
Proof.
  intros Hh Hd Hr. pose proof (pow2_pos h Hh). unfold total. split; [lia|].
  assert (length (range_pages l) ≤ length (seqZ 0 (2 ^ h)))%nat as Hle; [|rewrite length_seqZ in Hle; lia].
  apply submseteq_length, NoDup_submseteq; [by apply NoDup_range_pages|].
  intros x (r&Hx&Hc)%elem_of_range_pages. apply elem_of_seqZ. destruct (Hr r Hx) as (?&?&?). unfold covers in Hc. lia.
Qed.

Lemma disjoint_ranges_app_r l1 l2 : disjoint_ranges (l1 ++ l2) → disjoint_ranges l2.
Proof. induction l1; cbn; [done|tauto]. Qed.

(** The order of a request. *)
Lemma order_for_order n k : 0 < n → order_for n = Done k → 0 ≤ k ∧ n ≤ 2 ^ k ∧ 2 ^ k < 2 * n.
Proof. intros Hn Ho. destruct (order_for_spec n Hn) as (k'&E&?&?&?). rewrite Ho in E. injection E as <-. done. Qed.

(** No block is larger than the zone. *)
Lemma alloc_block_above z ps n k r z' ps' : order_for n = Done k → m_highest_order z < k →
  alloc_block z ps n = Done (r, z', ps') → r = Err ENOMEM ∧ z' = z ∧ ps' = ps.
Proof.
  intros Ho Hh. unfold alloc_block, order_fuel. case_match; [by intros; simplify_eq|].
  rewrite Ho. cbn [mbind outcome_bind]. by rewrite alloc_above_panics.
Qed.

(** The ranges of a block that has just been taken from the free pages. *)
Lemma ranges_added l b n k live lost : 0 < n ≤ 2 ^ k → l = live ++ lost →
  (∀ x, b ≤ x < b + 2 ^ k → ¬ covered l x) → disjoint_ranges l →
  disjoint_ranges (((b, n) :: live) ++ padding b n k ++ lost).
Proof.
  intros Hn -> Hfree Hd. cbn [app disjoint_ranges]. split.
  - intros r' Hr' x [Hc Hc']. unfold covers in Hc. cbn in Hc.
    assert (covered (live ++ padding b n k ++ lost) x) as [Hx|[Hx|Hx]%covered_app]%covered_app by (by exists r').
    + apply (Hfree x ltac:(lia)), covered_app. by left.
    + apply covered_padding in Hx; lia.
    + apply (Hfree x ltac:(lia)), covered_app. by right.
  - unfold padding. case_match; [done|]. cbn [app]. apply disjoint_ranges_mid. split; [done|].
    intros r' Hr' x [Hc Hc']. unfold covers in Hc. cbn in Hc. apply (Hfree x ltac:(lia)). by exists r'.
Qed.

Lemma history_alloc h first z ps live lost n k p z' ps' :
  history_inv h first (mk_history z ps live lost) → 0 < n → order_for n = Done k →
  alloc_block z ps n = Done (Ok p, z', ps') →
  history_inv h first (mk_history z' ps' ((p - m_first_page z, n) :: live) (padding (p - m_first_page z) n k ++ lost)).
Proof.
  intros (Hh&Hfp&Hbl&Hdis&F&Hz&Hfree) Hn Ho Ha. cbn [hs_zone hs_pages hs_live hs_lost] in *.
  destruct (order_for_order n k Hn Ho) as (Hk&Hnk&_).
  assert (k ≤ m_highest_order z) as Hkh.
  { destruct (decide (k ≤ m_highest_order z)); [done|exfalso]. destruct (alloc_block_above z ps n k _ z' ps' Ho ltac:(lia) Ha) as [? _]. done. }
  destruct (alloc_block_any z ps F _ n k Hz Hn Ho ltac:(lia) Hnk) as [[_ He]|[(_&_&b&z1&ps1&F1&He&Hok&Hc)|(_&_&He)]];
    rewrite He in Ha; [done| |done]. simplify_eq.
  destruct Hok as [Hz1 (Hs1&Hs2&_) Hblk Hfr Hrest _ _ _].
  replace (m_first_page z + b - m_first_page z) with b by lia. destruct Hblk as (_&?&?&_).
  assert (∀ x, b ≤ x < b + 2 ^ k → ¬ covered (live ++ lost) x) as Hnew by (intros x Hx; by apply Hfr, Hfree in Hx as [_ ?]).
  pose proof (ranges_added _ b n k live lost ltac:(lia) eq_refl Hnew Hdis) as Hdis'.
  assert (∀ r, r ∈ ((b, n) :: live) ++ padding b n k ++ lost → 0 ≤ r.1 ∧ 0 < r.2 ∧ r.1 + r.2 ≤ 2 ^ m_highest_order z) as Hin.
  { intros r. rewrite !elem_of_app, elem_of_cons. intros [[->|?]|[Hr|?]]; [cbn; lia|apply Hbl, elem_of_app; tauto| |apply Hbl, elem_of_app; tauto].
    unfold padding in Hr. destruct (Z.eqb_spec n (2 ^ k)); [by apply elem_of_nil in Hr|]. apply list_elem_of_singleton in Hr as ->. cbn. lia. }
  pose proof (zo_order _ _ _ Hz1) as Hord. rewrite Hs2 in Hord.
  split_and!; cbn [hs_zone hs_pages hs_live hs_lost]; [done|done|done|done|].
  exists F1. split.
  - assert (0 ≤ total (padding b n k ++ lost) ≤ 2 ^ m_highest_order z) as Ht.
    { apply total_le; [apply Hord|by apply (disjoint_ranges_app_r ((b, n) :: live))|]. intros r Hr. apply Hin, elem_of_app. by right. }
    split; [by apply zone_ok_set_free|]. cbn [m_free_pages set_free_pages m_highest_order]. rewrite Hs2. split; [|done].
    rewrite total_padding by done. lia.
  - intros x. rewrite Hrest, Hfree, !covered_app, covered_cons, covered_padding by done. unfold covers at 1. cbn. split.
    + intros [[? Hno] Hb]. split; [done|]. intros [[?|?]|[?|?]]; (lia || tauto).
    + intros [? Hno]. split; [split; [done|tauto]|]. intros Hx. apply Hno. destruct (decide (x < b + n)); [left; left; lia|right; left; lia].
Qed.

Lemma history_free h first z ps live1 b k live2 lost :
  history_inv h first (mk_history z ps (live1 ++ (b, 2 ^ k) :: live2) lost) → 0 ≤ k → (2 ^ k | b) →
  ∃ z' ps', free_block z ps (m_first_page z + b) (2 ^ k) = Done (z', ps') ∧
    m_free_pages z' = m_free_pages z + 2 ^ k ∧
    (∀ i x, covered (live1 ++ live2) x → Z.of_nat i = first + x → ps' !! i = ps !! i) ∧
    history_inv h first (mk_history z' ps' (live1 ++ live2) lost).
Proof.
  intros (Hh&Hfp&Hbl&Hdis&F&Hz&Hfree) Hk Hdiv. cbn [hs_zone hs_pages hs_live hs_lost] in *.
  destruct (Hbl (b, 2 ^ k) ltac:(set_solver)) as (?&?&?). cbn in *. pose proof (pow2_pos k Hk).
  assert (k ≤ m_highest_order z) as Hkh. { destruct (decide (k ≤ m_highest_order z)); [done|]. pose proof (zo_order _ _ _ (proj1 Hz)). pose proof (Z.pow_lt_mono_r 2 h k); lia. }
  assert (block (m_highest_order z) k b) as Hblk by (rewrite Hh in *; split_and!; (done || lia)).
  rewrite <-app_assoc in Hdis, Hbl. cbn [app] in Hdis, Hbl. apply disjoint_ranges_mid in Hdis as [Hdis Hother].
  assert (∀ x, covered ((live1 ++ (b, 2 ^ k) :: live2) ++ lost) x ↔ covers (b, 2 ^ k) x ∨ covered ((live1 ++ live2) ++ lost) x) as Hcov
    by (intros x; rewrite !covered_app, covered_cons; tauto).
  assert (∀ x, covered ((live1 ++ live2) ++ lost) x → ¬ covers (b, 2 ^ k) x) as Hap.
  { intros x (r&Hr&Hc) Hc'. rewrite <-app_assoc in Hr. by apply (Hother r Hr x). }
  destruct (free_block_any z ps F _ k b Hz Hblk) as (z1&ps1&F1&He&Hok&Hz1).
  { rewrite Hh. intros x Hx [_ Hn]%Hfree. apply Hn, Hcov. by left. }
  eexists _, _. split; [exact He|]. split; [done|]. destruct Hok as [_ (Hs1&Hs2&_) Hrest _ [_ Hframe]]. split.
  { intros i x Hx Hi. destruct (decide (ps1 !! i = ps !! i)) as [|Hne]; [done|exfalso]. specialize (Hframe i Hne).
    rewrite Hfp, Hh in Hframe. replace (Z.of_nat i - first) with x in Hframe by lia.
    destruct Hframe as [[_ Hn]%Hfree|Hc]; [apply Hn, Hcov; right; apply covered_app; by left|]. apply (Hap x); [apply covered_app; by left|done]. }
  split_and!; cbn [hs_zone hs_pages hs_live hs_lost set_free_pages m_highest_order m_first_page];
    [by rewrite Hs2|by rewrite Hs1|intros r Hr; apply Hbl; set_solver|by rewrite <-app_assoc|].
  exists F1. split; [done|]. intros x. rewrite <-Hh at 1. rewrite Hrest, Hh, Hfree, Hcov. split.
  - intros [[? Hn]|Hx]; [tauto|]. split; [lia|]. intros Hc. by apply (Hap x).
  - intros [? Hn]. destruct (decide (b ≤ x < b + 2 ^ k)) as [|Hx]; [by right|left]. split; [done|]. intros [?|?]; tauto.
Qed.

(** Only numbers of pages that are powers of two can be returned. *)
Lemma free_block_panics z ps F w b n : zone_waste z ps F w → 0 ≤ b → 0 < n → b + n ≤ 2 ^ m_highest_order z →
  (∀ k, 0 ≤ k → n ≠ 2 ^ k) → free_block z ps (m_first_page z + b) n = Panic.
Proof.
  intros (Hz&_&_) Hb Hn Hend Hno. pose proof Hz as [Hh Hnum Hfirst Hpages _ _ _].
  unfold free_block. rewrite (proj2 (Z.leb_le (m_first_page z) _)) by lia. cbn [kassert mbind outcome_bind].
  rewrite Hnum, (proj2 (Z.leb_le _ _)) by (rewrite !u32_id; lia). cbn [kassert mbind outcome_bind].
  destruct (order_for_spec n Hn) as (k&->&Hk&_). cbn [mbind outcome_bind]. unfold size_of_order.
  rewrite Z.shiftl_1_l, (proj2 (Z.eqb_neq _ _)); [done|]. intros E. by apply (Hno k).
Qed.

(** A number is a power of two or is not. *)
Lemma power_of_two_dec n : 0 < n → (∃ k, 0 ≤ k ∧ n = 2 ^ k) ∨ ∀ k, 0 ≤ k → n ≠ 2 ^ k.
Proof.
  intros Hn. destruct (decide (n = 2 ^ Z.log2 n)) as [E|E]; [left; exists (Z.log2 n); split; [apply Z.log2_nonneg|done]|right].
  intros k Hk ->. apply E. by rewrite Z.log2_pow2.
Qed.

(** Writing to the page structure of a page in use. *)
Lemma zone_ok_write z ps F x q : zone_ok z ps F → 0 ≤ x < 2 ^ m_highest_order z →
  ¬ free_in (m_highest_order z) F x →
  zone_ok z (<[Z.to_nat (m_first_page z + x) := q]> ps) F.
Proof.
  intros Hz Hx Hn. pose proof Hz as []. split; try done; [by rewrite length_insert|].
  intros k Hk. eapply dll_frame; [|by apply zo_dll0]. intros b Hb.
  destruct (zone_block _ _ _ _ _ Hz Hk Hb) as (_&?&_).
  destruct (zone_page z ps x (zone_ok_bounds _ _ _ Hz) ltac:(lia)) as (_&_&p&Hp).
  rewrite pg_insert, decide_False; [done| |lia|lia|by eexists].
  intros ->. pose proof (pow2_pos k ltac:(lia)). apply Hn. exists k, x. split_and!; (done || lia).
Qed.

Lemma history_part h first z ps live1 b n1 n2 live2 lost : 0 < n1 → 0 < n2 →
  history_inv h first (mk_history z ps (live1 ++ (b, n1 + n2) :: live2) lost) →
  history_inv h first (mk_history z ps (live1 ++ (b, n1) :: (b + n1, n2) :: live2) lost).
Proof.
  intros H1 H2 (Hh&Hfp&Hbl&Hdis&F&Hz&Hfree). cbn [hs_zone hs_pages hs_live hs_lost] in *.
  assert (∀ x, covers (b, n1 + n2) x ↔ covers (b, n1) x ∨ covers (b + n1, n2) x) as Hc by (intros x; unfold covers; cbn; lia).
  destruct (Hbl (b, n1 + n2) ltac:(set_solver)) as (?&?&?). cbn in *.
  split_and!; cbn [hs_zone hs_pages hs_live hs_lost]; [done|done|..].
  - intros r. rewrite <-app_assoc, elem_of_app, <-!app_comm_cons, !elem_of_cons. intros [?|[->|[->|?]]]; [apply Hbl; set_solver|cbn; lia|cbn; lia|apply Hbl; set_solver].
  - rewrite <-app_assoc in Hdis |- *. cbn [app] in *. apply disjoint_ranges_mid in Hdis as [Hdis Ho].
    assert (∀ r, r ∈ live1 ++ live2 ++ lost → disjoint (b, n1) r ∧ disjoint (b + n1, n2) r) as Ho'.
    { intros r Hr. split; intros x [Hx ?]; apply (Ho r Hr x); split; try done; apply Hc; tauto. }
    apply disjoint_ranges_mid. split; [apply disjoint_ranges_mid; split; [done|intros r Hr; by apply Ho']|].
    intros r. rewrite elem_of_app, elem_of_cons. intros [?|[->|?]]; [apply Ho', elem_of_app; by left| |apply Ho', elem_of_app; by right].
    intros x. unfold covers. cbn. lia.
  - exists F. split; [done|]. intros x. rewrite Hfree, !covered_app, !covered_cons, Hc. tauto.
Qed.

Lemma history_step h first s s' : history_inv h first s → zone_step s s' → history_inv h first s'.
Proof.
  intros Hi Hs. destruct Hs as [z ps live lost n k p z' ps' Hn Ho Ha|z ps live lost n e z' ps' Hn Ha|
    z ps live1 b n live2 lost z' ps' Hdiv Hf|z ps live1 b n1 n2 live2 lost H1 H2|z ps live lost r x q Hb Hc].
  - by eapply history_alloc.
  - pose proof Hi as (Hh&_&_&_&F&Hz&_). cbn in *. destruct (order_for_spec n Hn) as (k&Ho&Hk&Hnk&_).
    destruct (decide (k ≤ m_highest_order z)).
    + destruct (alloc_block_any z ps F _ n k Hz Hn Ho ltac:(lia) Hnk) as [[_ He]|[(_&_&b&z1&ps1&F1&He&_)|(_&_&He)]]; rewrite He in Ha; by simplify_eq.
    + by destruct (alloc_block_above z ps n k _ z' ps' Ho ltac:(lia) Ha) as (_&->&->).
  - pose proof Hi as (Hh&Hfp&Hbl&_&F&Hz&_). cbn [hs_zone hs_pages hs_live hs_lost] in *. destruct (Hbl (b, n) ltac:(set_solver)) as (?&?&?). cbn in *.
    destruct (power_of_two_dec n) as [(k&Hk&->)|Hno]; [done| |].
    + destruct (history_free _ _ _ _ _ _ _ _ _ Hi Hk Hdiv) as (z1&ps1&Hf'&_&_&?). rewrite Hf in Hf'. by injection Hf' as -> ->.
    + rewrite (free_block_panics z ps F _ b n Hz) in Hf by (rewrite ?Hh; (done || lia)). done.
  - by apply history_part.
  - destruct Hi as (Hh&Hfp&Hbl&Hdis&F&(Hz&Hn&Hw)&Hfree). cbn in *.
    destruct (Hbl r ltac:(set_solver)) as (?&?&?).
    split_and!; cbn; [done..|]. exists F. split; [|done]. split; [|done].
    unfold covers in Hc. apply zone_ok_write; [done|rewrite Hh; lia|].
    rewrite Hh, Hfree. intros [_ Hno]. apply Hno, covered_app. left. by exists r.
Qed.

Lemma history_start raw first h ps p : 0 ≤ h ≤ MAX_ORDER → 1 ≤ first →
  first + 2 ^ h ≤ Z.of_nat (length ps) < 2 ^ 32 → 64 ≤ Z.of_nat (length raw) →
  ps !! Z.to_nat first = Some p → free_next p = -1 → free_prev p = -1 →
  ∃ z, zone_new raw first (2 ^ h) = Done z ∧ history_inv h first (mk_history z ps [] []).
Proof.
  intros. destruct (zone_new_spec raw first h ps p) as (z&Hz&Hi&Hf&Hh); [done..|].
  exists z. split; [done|]. split_and!; [done|done|set_solver|done|]. exists (new_lists h).
  split; [by apply zone_inv_waste|]. intros x. split.
  - intros (k&b&Hk&Hb&Hx). split; [|apply covered_nil].
    destruct (lo_block _ _ (new_lists_ok h ltac:(lia)) k b Hk Hb) as (_&?&?&_). lia.
  - intros [? _]. apply new_free_in; lia.
Qed.

(** ** Theorems *)

(** A zone of [2^h] pages from page [first] on, as [PhysicalRegion] sets it up:
    inside the page array and not at page 0, the links of its first page
    cleared, the bitmaps backed by enough memory. *)
Definition zone_start (raw : list Z) (first h : Z) (ps : pages) (z : BuddyZone) : Prop :=
  0 ≤ h ≤ MAX_ORDER ∧ 1 ≤ first ∧ first + 2 ^ h ≤ Z.of_nat (length ps) < 2 ^ 32 ∧
  64 ≤ Z.of_nat (length raw) ∧
  (∃ p, ps !! Z.to_nat first = Some p ∧ free_next p = -1 ∧ free_prev p = -1) ∧
  zone_new raw first (2 ^ h) = Done z.

Lemma zone_start_inv raw first h ps z s : zone_start raw first h ps z →
  rtc zone_step (mk_history z ps [] []) s → history_inv h first s.
Proof.
  intros (?&?&?&?&(p&?&?&?)&Hz) Hr.
  destruct (history_start raw first h ps p) as (z'&Hz'&Hi); [done..|]. rewrite Hz in Hz'. simplify_eq.
  revert Hi. induction Hr as [|s1 s2 s3 Hstep _ IH]; [done|]. intros Hi.
  apply IH. by eapply history_step.
Qed.

(** The pages of the zone that a request can be served with: nobody owns them,
    and they do not fill the block of another request. *)
Definition available (h : Z) (s : history) (x : Z) : Prop :=
  0 ≤ x < 2 ^ h ∧ ¬ covered (hs_live s) x ∧ ¬ covered (hs_lost s) x.

Lemma available_free h first s F : (∀ x, free_in h F x ↔ 0 ≤ x < 2 ^ h ∧ ¬ covered (hs_live s ++ hs_lost s) x) →
  history_inv h first s → ∀ x, free_in h F x ↔ available h s x.
Proof. intros Hfree _ x. rewrite Hfree, covered_app. unfold available. tauto. Qed.

(** The number of pages that are not in disjoint ranges of the zone. *)
Lemma uncovered_count h first s : history_inv h first s → ∃ unowned, NoDup unowned ∧
  m_free_pages (hs_zone s) = Z.of_nat (length unowned) ∧ ∀ x, x ∈ unowned ↔ 0 ≤ x < 2 ^ h ∧ ¬ covered (hs_live s) x.
Proof.
  intros Hi. pose proof Hi as (Hh&_&Hbl&Hdis&F&(Hz&Hc&_)&Hfree). rewrite Hh in Hc.
  pose proof (zo_lists _ _ _ Hz) as Ho. rewrite Hh in Ho.
  assert (∀ x, covered (hs_lost s) x → 0 ≤ x < 2 ^ h ∧ ¬ covered (hs_live s) x) as Hlost.
  { intros x (r&Hr&Hx). destruct (Hbl r ltac:(set_solver)) as (?&?&?). unfold covers in Hx. split; [lia|].
    intros (r'&Hr'&Hx'). apply list_elem_of_split in Hr' as (l1&l2&E). rewrite E, <-app_assoc in Hdis. cbn [app] in Hdis.
    apply disjoint_ranges_mid in Hdis as [_ Ho']. apply (Ho' r ltac:(set_solver) x). by split. }
  exists (free_list h F ++ range_pages (hs_lost s)). split_and!.
  - apply NoDup_app. split_and!; [by apply NoDup_free_list| |by apply NoDup_range_pages, (disjoint_ranges_app_r (hs_live s))].
    intros x Hx Hx'. apply elem_of_free_list, Hfree in Hx as [_ Hn]; [|done]. apply elem_of_range_pages in Hx'. apply Hn, covered_app. by right.
  - rewrite length_app, Nat2Z.inj_add, length_free_list. exact Hc.
  - intros x. rewrite elem_of_app, elem_of_free_list, Hfree, elem_of_range_pages, covered_app by done.
    destruct (decide (x ∈ range_pages (hs_lost s))) as [Hx|Hx]; rewrite elem_of_range_pages in Hx; [|tauto]. pose proof (Hlost x Hx). tauto.
Qed.

(** C8: in every state a buddy zone can get into, with requests for any numbers
    of pages, the ranges of pages it has handed out lie in the zone and do not
    overlap each other or the pages that fill up blocks, and [m_free_pages] is
    the number of pages that nobody owns. (Pages that fill up a block because the
    number asked for is no power of two are among them: the code counts them as
    free, though they are on no list.) *)
Theorem buddy_blocks_disjoint raw first h ps z s :
  zone_start raw first h ps z → rtc zone_step (mk_history z ps [] []) s →
  (∀ b n, (b, n) ∈ hs_live s → 0 ≤ b ∧ 0 < n ∧ b + n ≤ 2 ^ h) ∧ disjoint_ranges (hs_live s ++ hs_lost s) ∧
  ∃ unowned, NoDup unowned ∧ m_free_pages (hs_zone s) = Z.of_nat (length unowned) ∧
    ∀ x, x ∈ unowned ↔ 0 ≤ x < 2 ^ h ∧ ¬ covered (hs_live s) x.
Proof.
  intros Hs Hr. pose proof (zone_start_inv _ _ _ _ _ _ Hs Hr) as Hi. pose proof Hi as (_&_&Hbl&Hdis&_).
  split_and!; [intros b n Hb; apply (Hbl (b, n)); set_solver|done|by apply (uncovered_count h first)].
Qed.

(** C35: in every state a buddy zone can get into, a request for [n] pages is
    refused and changes nothing when [m_free_pages] is less than [n]. Otherwise,
    with [2^k] the next power of two: if there is a block of [2^k] pages,
    aligned to its size, that are all available, then such a block is given,
    [m_free_pages] goes down by [n], and only page structures of available pages
    and of the page before the zone change; and if there is none, an assertion
    fails. *)
Theorem buddy_alloc_correct raw first h ps z s n :
  zone_start raw first h ps z → rtc zone_step (mk_history z ps [] []) s → 0 < n →
  let open k b := block h k b ∧ ∀ x, b ≤ x < b + 2 ^ k → available h s x in
  (m_free_pages (hs_zone s) < n →
     alloc_block (hs_zone s) (hs_pages s) n = Done (Err ENOMEM, hs_zone s, hs_pages s)) ∧
  (n ≤ m_free_pages (hs_zone s) → ∃ k, 0 ≤ k ∧ n ≤ 2 ^ k < 2 * n ∧
     ((∃ b, open k b) →
        ∃ b z' ps', alloc_block (hs_zone s) (hs_pages s) n = Done (Ok (first + b), z', ps') ∧ open k b ∧
          m_free_pages z' = m_free_pages (hs_zone s) - n ∧
          ∀ i, ps' !! i ≠ hs_pages s !! i → Z.of_nat i = first - 1 ∨ available h s (Z.of_nat i - first)) ∧
     ((¬ ∃ b, open k b) → alloc_block (hs_zone s) (hs_pages s) n = Panic)).
Proof.
  intros Hs Hr Hn open. pose proof (zone_start_inv _ _ _ _ _ _ Hs Hr) as Hi. pose proof Hi as (Hh&Hf&_&_&F&Hz&Hfree).
  pose proof (available_free h first s F Hfree Hi) as Hav. pose proof (zo_lists _ _ _ (proj1 Hz)) as Ho. rewrite Hh in Ho.
  split; [intros Hlt; unfold alloc_block; by rewrite (proj2 (Z.ltb_lt _ _))|]. intros Hge.
  destruct (order_for_spec n Hn) as (k&Hok&Hk&Hnk&Hnk2). exists k. split_and!; [done|done|done|..].
  - intros (b&(Hkh&?&?&?)&Hopen). rewrite <-Hh in Hkh.
    destruct (alloc_block_any _ _ F _ n k Hz Hn Hok ltac:(lia) Hnk) as [[? _]|[(_&_&b'&z1&ps'&F'&->&Ha&_)|(_&Hno&_)]]; [lia| |exfalso].
    + destruct Ha as [_ _ Hbl Hfr _ _ _ [_ Hframe]]. rewrite Hh, Hf in *. eexists b', _, ps'. split; [done|]. split; [split; [done|intros x Hx; by apply Hav, Hfr]|]. split; [done|].
      intros i Hi'. destruct (Hframe i Hi') as [?|Hx]; [left; lia|right; by apply Hav].
    + destruct (free_block_listed h F k b Ho) as (j&Hj&HF); [rewrite Hh in Hkh; split_and!; (done || lia)|intros x Hx; by apply Hav, Hopen|]. apply HF, Hno. lia.
  - intros Hno. destruct (decide (k ≤ m_highest_order (hs_zone s))) as [Hkh|Hkh].
    + destruct (alloc_block_any _ _ F _ n k Hz Hn Hok ltac:(lia) Hnk) as [[? _]|[(_&_&b&z1&ps'&F'&_&Ha&_)|(_&_&?)]]; [lia| |done].
      exfalso. apply Hno. exists b. destruct Ha as [_ _ Hbl Hfr _ _ _ _]. rewrite Hh in *. split; [done|]. intros x Hx. by apply Hav, Hfr.
    + unfold alloc_block, order_fuel. rewrite (proj2 (Z.ltb_ge _ _)), Hok by lia. cbn [mbind outcome_bind]. by rewrite alloc_above_panics by lia.
Qed.

(** C36: in every state a buddy zone can get into, a range of pages that has been
    handed out, or a part of one, can be returned if the number of its pages is
    a power of two and it starts at a multiple of that: no assertion fails,
    [m_free_pages] goes up by the number, and the page structures of all other
    ranges stay as they are. If the number is no power of two, an assertion
    fails, even though [alloc_block] has given just that number. *)
Theorem buddy_free_correct raw first h ps z s live1 b n live2 :
  zone_start raw first h ps z → rtc zone_step (mk_history z ps [] []) s →
  hs_live s = live1 ++ (b, n) :: live2 → (n | b) →
  (∀ k, 0 ≤ k → n = 2 ^ k →
     ∃ z' ps', free_block (hs_zone s) (hs_pages s) (first + b) n = Done (z', ps') ∧
       m_free_pages z' = m_free_pages (hs_zone s) + n ∧
       ∀ i x, covered (live1 ++ live2) x → Z.of_nat i = first + x → ps' !! i = hs_pages s !! i) ∧
  ((∀ k, 0 ≤ k → n ≠ 2 ^ k) → free_block (hs_zone s) (hs_pages s) (first + b) n = Panic).
Proof.
  intros Hs Hr Hl Hdiv. pose proof (zone_start_inv _ _ _ _ _ _ Hs Hr) as Hi. destruct s as [z0 ps0 live lost]. cbn [hs_zone hs_pages hs_live] in *. subst live.
  pose proof Hi as (Hh&Hf&Hbl&_&F&Hz&_). cbn [hs_zone hs_pages hs_live hs_lost] in *. split.
  - intros k Hk ->. destruct (history_free _ _ _ _ _ _ _ _ _ Hi Hk Hdiv) as (z'&ps'&He&Hc&Hframe&_). rewrite Hf in He. by exists z', ps'.
  - intros Hno. destruct (Hbl (b, n) ltac:(set_solver)) as (?&?&?). cbn in *. rewrite <-Hf. apply (free_block_panics z0 ps0 F _ b n Hz); [done|done|by rewrite Hh|done].
Qed.

(** C37: once every block has been returned the free pages have been merged back
    into a single block: the whole zone can be allocated at once. *)
Theorem buddy_coalesces raw first h ps z s :
  zone_start raw first h ps z → rtc zone_step (mk_history z ps [] []) s → hs_live s = [] → hs_lost s = [] →
  ∃ z' ps', alloc_block (hs_zone s) (hs_pages s) (2 ^ h) = Done (Ok first, z', ps').
Proof.
  intros Hs Hr Hl Hlo. destruct (zone_start_inv _ _ _ _ _ _ Hs Hr) as (Hh&Hf&_&_&F&(Hz&Hc&_)&Hfree).
  pose proof Hs as (?&_). pose proof (zo_lists _ _ _ Hz) as Ho. rewrite Hh in Ho. rewrite Hl, Hlo in Hfree. rewrite Hlo in Hc. change (total []) with 0 in Hc. rewrite Z.add_0_r in Hc.
  destruct (lists_coalesced h F Ho) as [_ HF]; [lia| |].
  { intros x Hx. apply Hfree. split; [done|apply covered_nil]. }
  pose proof (free_count_ge h F h 0 [] ltac:(lia) HF).
  destruct (alloc_block_spec _ _ F h (conj Hz Hc) ltac:(lia))
    as [[Hlt _]|[[_ (b&z1&ps'&F'&->&Hok&_)]|(_&Hno&_)]].
  - rewrite Hc, Hh in Hlt. lia.
  - eexists _, _. destruct Hok as [_ _ (_&?&?&_) _ _ _ _ _]. rewrite Hh in *.
    replace b with 0 by lia. by rewrite Z.add_0_r, Hf.
  - rewrite Hh in Hno. rewrite (Hno h) in HF by lia. done.
Qed.

(** taking the last free block of an order clears the link of a page that is
    not part of the zone: the page before it, in use or not, is marked
    [reserved], so that dropping its last reference no longer frees it. *)
Theorem buddy_alloc_reserves_neighbour raw first h ps z s k bk p :
  zone_start raw first h ps z → rtc zone_step (mk_history z ps [] []) s → 0 ≤ k ≤ h →
  m_orders (hs_zone s) !! Z.to_nat k = Some bk → freelist bk ≠ -1 →
  hs_pages s !! Z.to_nat (first + freelist bk) = Some p → free_next p = -1 →
  ∃ z' ps' q, alloc_block (hs_zone s) (hs_pages s) (2 ^ k) =
      Done (Ok (first + freelist bk), z', ps') ∧
    ps' !! Z.to_nat (first - 1) = Some q ∧ reserved q = true.
Proof.
  intros Hs Hr Hk Hbk Hne Hp Hn. destruct (zone_start_inv _ _ _ _ _ _ Hs Hr) as (Hh&Hf&_&_&F&(Hz&Hc&Hw)&_).
  rewrite <-Hh in Hk. destruct (zo_bucket _ _ _ Hz k Hk) as (bk'&Hbk'&_&Hfl&_).
  assert (bk' = bk) as -> by congruence. destruct (F k) as [|b l] eqn:HF; [done|]. cbn [first_of] in Hfl. rewrite Hfl in Hp, Hne |- *.
  pose proof (zo_dll _ _ _ Hz k Hk) as Hd. rewrite HF in Hd. destruct Hd as [(p'&Hp'&_&Hn') _].
  unfold pg in Hp'. rewrite Hf in Hp'. assert (p' = p) as -> by congruence. rewrite Hn in Hn'.
  pose proof (free_count_ge _ F k b l Hk HF). pose proof Hz as [? _ ? ? _ _ _]. unfold MAX_ORDER in *.
  pose proof (free_count_le _ _ (zo_lists _ _ _ Hz) ltac:(lia)).
  pose proof (zone_bounds_1024 _ _ (zone_ok_bounds _ _ _ Hz)).
  destruct (alloc_pop 11 _ _ F k b l Hz Hk HF) as (z'&ps'&Ha&_&(Hs1&_)&_&q&Hq).
  unfold alloc_block, order_fuel. rewrite (proj2 (Z.ltb_ge _ _)) by lia.
  rewrite order_for_pow2 by lia. cbn [mbind outcome_bind]. rewrite Ha. cbn [mbind outcome_bind].
  destruct (zone_block _ _ _ _ b Hz Hk) as (_&?&_); [rewrite HF; left|].
  rewrite Hs1, Hf, (u32_id (_ + b)) by lia. eexists _, _, _. split; [done|].
  rewrite <-Hn', Hf in Hq. split; [exact Hq|apply set_prev_reserves].
Qed.

(** ** Runs, for witnesses *)

Inductive zone_op : Type := ZAlloc (n : Z) | ZFree (b n : Z) | ZPart (b n1 n2 : Z).

Fixpoint replace_range (r : Z * Z) (by_ : list (Z * Z)) (live : list (Z * Z)) : list (Z * Z) :=
  match live with
  | [] => []
  | r' :: live => if decide (r' = r) then by_ ++ live else r' :: replace_range r by_ live
  end.

Fixpoint zone_run (os : list zone_op) (s : history) : outcome history :=
  match os with
  | [] => Done s
  | ZAlloc n :: os =>
      '(r, z, ps) ← alloc_block (hs_zone s) (hs_pages s) n;
      k ← order_for n;
      match r with
      | Ok p => let b := p - m_first_page (hs_zone s) in
          zone_run os (mk_history z ps ((b, n) :: hs_live s) (padding b n k ++ hs_lost s))
      | Err _ => zone_run os (mk_history z ps (hs_live s) (hs_lost s))
      end
  | ZFree b n :: os =>
      if decide ((b, n) ∈ hs_live s) then
        '(z, ps) ← free_block (hs_zone s) (hs_pages s) (m_first_page (hs_zone s) + b) n;
        zone_run os (mk_history z ps (replace_range (b, n) [] (hs_live s)) (hs_lost s))
      else Undef
  | ZPart b n1 n2 :: os =>
      if decide ((b, n1 + n2) ∈ hs_live s) then
        zone_run os (mk_history (hs_zone s) (hs_pages s) (replace_range (b, n1 + n2) [(b, n1); (b + n1, n2)] (hs_live s)) (hs_lost s))
      else Undef
  end.

Definition op_ok (o : zone_op) : bool :=
  match o with ZAlloc n => 0 <? n | ZFree b n => (0 <? n) && (b mod n =? 0) | ZPart _ n1 n2 => (0 <? n1) && (0 <? n2) end.

Lemma replace_range_split r by_ live : r ∈ live →
  ∃ l1 l2, live = l1 ++ r :: l2 ∧ replace_range r by_ live = l1 ++ by_ ++ l2.
Proof.
  induction live as [|b live IH]; [set_solver|]. intros [->|Hb]%elem_of_cons; cbn.
  - exists [], live. by rewrite decide_True.
  - case_decide as Hd; [subst; by exists [], live|]. destruct (IH Hb) as (l1&l2&->&->).
    by exists (b :: l1), l2.
Qed.

Lemma zone_run_steps os : ∀ s s', zone_run os s = Done s' → forallb op_ok os = true → rtc zone_step s s'.
Proof.
  induction os as [|[n|b n|b n1 n2] os IH]; intros [z ps live lost] s' Hr Hok; cbn [zone_run hs_zone hs_pages hs_live hs_lost] in Hr; [by simplify_eq|..];
    apply andb_true_iff in Hok as [Ho Hos]; cbn [op_ok] in Ho.
  - apply bind_Done in Hr as ([[r z1] ps1]&Ha&Hr). apply bind_Done in Hr as (k&Hk&Hr). apply Z.ltb_lt in Ho.
    destruct r as [p|e]; (eapply rtc_l; [|apply (IH _ _ Hr Hos)]); [by apply step_alloc|by eapply step_refused].
  - apply andb_true_iff in Ho as [Hn%Z.ltb_lt Hm%Z.eqb_eq]. case_decide as Hd; [|done]. apply bind_Done in Hr as ([z1 ps1]&Ha&Hr).
    destruct (replace_range_split _ [] _ Hd) as (l1&l2&->&Hl). rewrite Hl in Hr.
    eapply rtc_l; [|apply (IH _ _ Hr Hos)]. apply step_free; [|done]. apply Z.mod_divide; [lia|done].
  - apply andb_true_iff in Ho as [H1%Z.ltb_lt H2%Z.ltb_lt]. case_decide as Hd; [|done].
    destruct (replace_range_split _ [(b, n1); (b + n1, n2)] _ Hd) as (l1&l2&->&Hl). rewrite Hl in Hr.
    eapply rtc_l; [|apply (IH _ _ Hr Hos)]. by apply step_part.
Qed.

(** ** Witnesses: a zone of four pages from page 4 on, of an array of eight *)

Definition sample_raw : list Z := replicate 64 0.
Definition sample_pages : pages := <[4%nat := mk_page 65535 65535]> (replicate 8 (mk_page 0 0)).
Definition sample_zone : BuddyZone :=
  match zone_new sample_raw 4 (2 ^ 2) with Done z => z | _ => mk_zone [] 0 0 0 0 end.
Definition sample_start : history := mk_history sample_zone sample_pages [] [].
Definition sample_after (os : list zone_op) : history :=
  match zone_run os sample_start with Done s => s | _ => sample_start end.

Lemma sample_zone_start : zone_start sample_raw 4 2 sample_pages sample_zone.
Proof.
  split; [unfold MAX_ORDER; lia|]. split; [lia|]. split; [cbn; lia|]. split; [cbn; lia|].
  split; [exists (mk_page 65535 65535); split_and!; reflexivity|]. vm_compute. reflexivity.
Qed.

Lemma sample_reach os s :
  zone_run os sample_start = Done s → forallb op_ok os = true →
  rtc zone_step (mk_history sample_zone sample_pages [] []) s.
Proof. apply zone_run_steps. Qed.

(** A request for three pages takes the whole zone; one page stays counted. *)
Definition ops_three : list zone_op := [ZAlloc 3].

Lemma buddy_blocks_disjoint_witness :
  let s := sample_after ops_three in
  ((∀ b n, (b, n) ∈ hs_live s → 0 ≤ b ∧ 0 < n ∧ b + n ≤ 2 ^ 2) ∧ disjoint_ranges (hs_live s ++ hs_lost s) ∧
   ∃ unowned, NoDup unowned ∧ m_free_pages (hs_zone s) = Z.of_nat (length unowned) ∧
     ∀ x, x ∈ unowned ↔ 0 ≤ x < 2 ^ 2 ∧ ¬ covered (hs_live s) x) ∧
  hs_live s = [(0, 3)] ∧ hs_lost s = [(3, 1)] ∧ m_free_pages (hs_zone s) = 1.
Proof.
  split; [|by vm_compute].
  apply (buddy_blocks_disjoint sample_raw 4 2 sample_pages sample_zone _ sample_zone_start).
  apply (sample_reach ops_three); vm_compute; reflexivity.
Defined.

Definition ops_two : list zone_op := [ZAlloc 1; ZAlloc 2].

(** Page 1 is left, and is given to who asks for one. *)
Lemma sample_page_left : available 2 (sample_after ops_two) 1.
Proof.
  split; [lia|]. assert (hs_live (sample_after ops_two) = [(2, 2); (0, 1)]) as -> by (vm_compute; reflexivity).
  assert (hs_lost (sample_after ops_two) = []) as -> by (vm_compute; reflexivity). split; [|apply covered_nil].
  intros [Hc|[Hc|Hc%covered_nil]%covered_cons]%covered_cons; [unfold covers in Hc; cbn in Hc; lia..|done].
Qed.

Lemma buddy_alloc_correct_witness :
  let s := sample_after ops_two in
  ∃ b z' ps', alloc_block (hs_zone s) (hs_pages s) 1 = Done (Ok (4 + b), z', ps') ∧ available 2 s b.
Proof.
  intros s. destruct (buddy_alloc_correct sample_raw 4 2 sample_pages sample_zone s 1 sample_zone_start) as [_ Hok].
  - apply (sample_reach ops_two); vm_compute; reflexivity.
  - lia.
  - destruct Hok as (k&Hk&Hn&Hok&_); [apply Z.leb_le; vm_compute; reflexivity|].
    assert (k = 0) as -> by (destruct (decide (k = 0)); [done|]; pose proof (Z.pow_le_mono_r 2 1 k ltac:(lia) ltac:(lia)); lia).
    destruct Hok as (b&z'&ps'&He&[_ Hb]&_).
    + exists 1. split; [split_and!; [lia|lia|lia|lia|apply Z.divide_1_l]|]. intros x Hx. replace x with 1 by lia. apply sample_page_left.
    + exists b, z', ps'. split; [exact He|apply Hb; lia].
Defined.

Lemma buddy_free_correct_witness :
  let s := sample_after ops_two in
  ∃ z' ps', free_block (hs_zone s) (hs_pages s) (4 + 2) 2 = Done (z', ps') ∧
    m_free_pages z' = m_free_pages (hs_zone s) + 2 ∧
    ∀ i x, covered ([] ++ [(0, 1)]) x → Z.of_nat i = 4 + x → ps' !! i = hs_pages s !! i.
Proof.
  intros s. destruct (buddy_free_correct sample_raw 4 2 sample_pages sample_zone s [] 2 2 [(0, 1)] sample_zone_start) as [Hok _].
  - apply (sample_reach ops_two); vm_compute; reflexivity.
  - vm_compute. reflexivity.
  - exists 1. reflexivity.
  - apply (Hok 1); [lia|reflexivity].
Defined.

(** Four pages are returned one by one. *)
Definition ops_returned : list zone_op := [ZAlloc 4; ZPart 0 1 3; ZPart 1 1 2; ZPart 2 1 1; ZFree 1 1; ZFree 3 1; ZFree 0 1; ZFree 2 1].

Lemma buddy_coalesces_witness :
  let s := sample_after ops_returned in
  ∃ z' ps', alloc_block (hs_zone s) (hs_pages s) (2 ^ 2) = Done (Ok 4, z', ps').
Proof.
  apply (buddy_coalesces sample_raw 4 2 sample_pages sample_zone (sample_after ops_returned)
    sample_zone_start); [|by vm_compute|by vm_compute].
  apply (sample_reach ops_returned); vm_compute; reflexivity.
Defined.

Definition sample_bucket : BuddyOrder :=
  default (mk_order 0 bitmap_empty 0) (m_orders sample_zone !! 2%nat).

Lemma buddy_alloc_reserves_neighbour_witness :
  ∃ z' ps' q, alloc_block sample_zone sample_pages (2 ^ 2) =
      Done (Ok (4 + freelist sample_bucket), z', ps') ∧
    ps' !! Z.to_nat (4 - 1) = Some q ∧ reserved q = true.
Proof.
  apply (buddy_alloc_reserves_neighbour sample_raw 4 2 sample_pages sample_zone sample_start 2
    sample_bucket (mk_page 65535 65535) sample_zone_start (rtc_refl _ _));
    [lia|by vm_compute|by vm_compute|by vm_compute|by vm_compute].
Defined.

Definition ops_fragmented : list zone_op :=
  [ZAlloc 1; ZAlloc 1; ZAlloc 1; ZAlloc 1; ZFree 0 1; ZFree 2 1].

(** a zone can get into a state where enough pages are free for a request
    but no free block is large enough; the request then brings the kernel down
    instead of being refused, although [alloc_block] reports errors. *)
Theorem buddy_fragmentation_panics :
  ∃ s, rtc zone_step sample_start s ∧ m_free_pages (hs_zone s) = 2 ∧
    alloc_block (hs_zone s) (hs_pages s) 2 = Panic.
Proof.
  exists (sample_after ops_fragmented). split; [|by vm_compute].
  apply (sample_reach ops_fragmented); vm_compute; reflexivity.
Qed.

(** after a request for three pages the fourth is counted as free but is on no
    list: the next request for one page brings the kernel down, and so does
    returning the three. *)
Theorem buddy_rounding_panics :
  ∃ s, rtc zone_step sample_start s ∧ hs_live s = [(0, 3)] ∧ m_free_pages (hs_zone s) = 1 ∧
    alloc_block (hs_zone s) (hs_pages s) 1 = Panic ∧ free_block (hs_zone s) (hs_pages s) 4 3 = Panic.
Proof.
  exists (sample_after ops_three). split; [|by vm_compute].
  apply (sample_reach ops_three); vm_compute; reflexivity.
Qed.
