(* ===== verification/PhysicalRegion.v ===== *)
(** * Physical regions and page frames (kernel/memory/PhysicalRegion.cpp, the
    physical page part of kernel/memory/MemoryManager.cpp)

    A region of usable memory is cut into buddy zones of at most [2^MAX_ORDER]
    pages; the memory manager serves requests from the first region that can
    and keeps the reference counts of the pages in the page array.  The zones
    share that array, [ps]. *)

From stdpp Require Import base numbers list option sets.
From S2P Require Import Prelude.
From S2P Require Import Bitmap.
From S2P Require Import PhysicalPage.
From S2P Require Import BuddyZone.

Local Open Scope Z_scope.

Record PhysicalRegion : Type := mk_region {
  r_zones : list BuddyZone;
  r_start_page : Z;
  r_num_pages : Z;
  r_free_pages : Z;
  r_reserved : bool;
}.

(** ** Construction *)

(** The size of the next zone: the highest power of two that fits. *)
Definition zone_size (num_pages : Z) : outcome Z :=
  c ← clz num_pages;
  let zone_order := 32 - c - 1 in
  Done (Z.shiftl 1 (if MAX_ORDER <? zone_order then MAX_ORDER else zone_order)).

(** The loop that fills the region with zones; a used region's zones are
    allocated whole. *)
Fixpoint make_zones (fuel : nat) (raw : list Z) (ps : pages) (start_page num_pages : Z) (used : bool)
    : outcome (list BuddyZone * pages) :=
  match fuel with
  | O => NoFuel
  | S fuel =>
      if num_pages =? 0 then Done ([], ps)
      else
        n ← zone_size num_pages;
        z ← zone_new raw start_page n;
        '(z, ps) ← (if used then
                      '(r, z, ps) ← alloc_block z ps n;
                      _ ← kassert (negb (is_error r));
                      Done (z, ps)
                    else Done (z, ps));
        '(zs, ps) ← make_zones fuel raw ps (start_page + n) (num_pages - n) used;
        Done (z :: zs, ps)
  end.

Definition region_new (raw : list Z) (ps : pages) (start_page num_pages : Z) (reserved used : bool)
    : outcome (PhysicalRegion * pages) :=
  let free := if used then 0 else num_pages in
  if reserved then Done (mk_region [] start_page num_pages free reserved, ps)
  else
    '(zs, ps) ← make_zones (S (Z.to_nat num_pages)) raw ps start_page num_pages used;
    Done (mk_region zs start_page num_pages free reserved, ps).

(** [init]: the links of the first page of every zone. *)
Fixpoint init_zones (zs : list BuddyZone) (ps : pages) : outcome pages :=
  match zs with
  | [] => Done ps
  | z :: zs =>
      ps ← page_update ps (m_first_page z) (set_free_prev (-1));
      ps ← page_update ps (m_first_page z) (set_free_next (-1));
      init_zones zs ps
  end.

Definition region_init (r : PhysicalRegion) (ps : pages) : outcome pages :=
  if r_reserved r then Done ps else init_zones (r_zones r) ps.

(** ** Allocation and freeing *)

Definition set_zones (r : PhysicalRegion) (zs : list BuddyZone) (free : Z) : PhysicalRegion :=
  mk_region zs (r_start_page r) (r_num_pages r) free (r_reserved r).

(** The loop over the zones: the first that serves the request. *)
Fixpoint alloc_from (zs : list BuddyZone) (ps : pages) (num_pages : Z)
    : outcome (option Z * list BuddyZone * pages) :=
  match zs with
  | [] => Done (None, [], ps)
  | z :: zs =>
      '(r, z, ps) ← alloc_block z ps num_pages;
      match r with
      | Ok p => Done (Some p, z :: zs, ps)
      | Err _ => '(o, zs, ps) ← alloc_from zs ps num_pages; Done (o, z :: zs, ps)
      end
  end.

Definition alloc_page (r : PhysicalRegion) (ps : pages) : outcome (result Z * PhysicalRegion * pages) :=
  if r_reserved r then Done (Err ENOMEM, r, ps)
  else if r_free_pages r =? 0 then Done (Err ENOMEM, r, ps)
  else
    '(o, zs, ps) ← alloc_from (r_zones r) ps 1;
    match o with
    | Some p => Done (Ok p, set_zones r zs (u32 (r_free_pages r - 1)), ps)
    | None => Done (Err ENOMEM, set_zones r zs (r_free_pages r), ps)
    end.

Definition alloc_pages (r : PhysicalRegion) (ps : pages) (num_pages : Z)
    : outcome (result Z * PhysicalRegion * pages) :=
  if r_reserved r then Done (Err ENOMEM, r, ps)
  else if r_free_pages r <? num_pages then Done (Err ENOMEM, r, ps)
  else
    order ← order_for num_pages;
    if MAX_ORDER <? order then Done (Err EINVAL, r, ps)
    else
      '(o, zs, ps) ← alloc_from (r_zones r) ps num_pages;
      match o with
      | Some p => Done (Ok p, set_zones r zs (u32 (r_free_pages r - num_pages)), ps)
      | None => Done (Err ENOMEM, set_zones r zs (r_free_pages r), ps)
      end.

(** The loop over the zones: the page goes back to the zone that holds it; past
    the last zone the code fails an assertion. *)
Fixpoint free_to (zs : list BuddyZone) (ps : pages) (page : Z) : outcome (list BuddyZone * pages) :=
  match zs with
  | [] => Panic
  | z :: zs =>
      if contains_page z page then '(z, ps) ← free_block z ps page 1; Done (z :: zs, ps)
      else '(zs, ps) ← free_to zs ps page; Done (z :: zs, ps)
  end.

Definition region_contains_page (r : PhysicalRegion) (page : Z) : bool :=
  (r_start_page r <=? page) && (page <? u32 (r_start_page r + r_num_pages r)).

Definition free_page (r : PhysicalRegion) (ps : pages) (page : Z) : outcome (PhysicalRegion * pages) :=
  _ ← kassert (negb (r_reserved r));
  _ ← kassert (region_contains_page r page);
  '(zs, ps) ← free_to (r_zones r) ps page;
  Done (set_zones r zs (u32 (r_free_pages r + 1)), ps).

(** ** The memory manager *)

Record MemoryManager : Type := mk_mm {
  m_physical_regions : list PhysicalRegion;
  m_physical_pages : pages;
}.

(** The loop over the regions of [alloc_physical_page]. *)
Fixpoint mm_alloc_from (rs : list PhysicalRegion) (ps : pages)
    : outcome (option Z * list PhysicalRegion * pages) :=
  match rs with
  | [] => Done (None, [], ps)
  | r :: rs =>
      '(res, r, ps) ← alloc_page r ps;
      match res with
      | Ok p =>
          ps ← page_update ps p (set_ref_count 1);
          ps ← page_update ps p (set_reserved false);
          Done (Some p, r :: rs, ps)
      | Err _ => '(o, rs, ps) ← mm_alloc_from rs ps; Done (o, r :: rs, ps)
      end
  end.

(** [alloc_physical_page]; [reclaim] is [DiskDevice::free_pages(4)]: how many
    pages of the disk cache were given up, and the state afterwards.  [fuel]
    bounds the retries. *)
Fixpoint alloc_physical_page (reclaim : MemoryManager → outcome (Z * MemoryManager)) (fuel : nat)
    (mm : MemoryManager) : outcome (Z * MemoryManager) :=
  match fuel with
  | O => NoFuel
  | S fuel =>
      '(o, rs, ps) ← mm_alloc_from (m_physical_regions mm) (m_physical_pages mm);
      match o with
      | Some p => Done (p, mk_mm rs ps)
      | None =>
          '(n, mm) ← reclaim (mk_mm rs ps);
          if 1 <=? n then alloc_physical_page reclaim fuel mm else Panic
      end
  end.

(** The loop over the pages of [alloc_contiguous_physical_pages]. *)
Fixpoint claim_pages (n : nat) (first : Z) (ps : pages) : outcome pages :=
  match n with
  | O => Done ps
  | S n =>
      ps ← page_update ps first (set_ref_count 1);
      ps ← page_update ps first (set_reserved false);
      claim_pages n (first + 1) ps
  end.

Fixpoint mm_alloc_contiguous (rs : list PhysicalRegion) (ps : pages) (num_pages : Z)
    : outcome (result (list Z) * list PhysicalRegion * pages) :=
  match rs with
  | [] => Done (Err ENOMEM, [], ps)
  | r :: rs =>
      '(res, r, ps) ← alloc_pages r ps num_pages;
      match res with
      | Ok p =>
          ps ← claim_pages (Z.to_nat num_pages) p ps;
          Done (Ok (seqZ p num_pages), r :: rs, ps)
      | Err _ => '(o, rs, ps) ← mm_alloc_contiguous rs ps num_pages; Done (o, r :: rs, ps)
      end
  end.

Definition alloc_contiguous_physical_pages (mm : MemoryManager) (num_pages : Z)
    : outcome (result (list Z) * MemoryManager) :=
  '(res, rs, ps) ← mm_alloc_contiguous (m_physical_regions mm) (m_physical_pages mm) num_pages;
  Done (res, mk_mm rs ps).

Fixpoint mm_free_to (rs : list PhysicalRegion) (ps : pages) (page : Z)
    : outcome (list PhysicalRegion * pages) :=
  match rs with
  | [] => Panic
  | r :: rs =>
      if region_contains_page r page then '(r, ps) ← free_page r ps page; Done (r :: rs, ps)
      else '(rs, ps) ← mm_free_to rs ps page; Done (r :: rs, ps)
  end.

Definition free_physical_page (mm : MemoryManager) (page : Z) : outcome MemoryManager :=
  p ← page_get (m_physical_pages mm) page;
  _ ← kassert (ref_count p =? 0);
  '(rs, ps) ← mm_free_to (m_physical_regions mm) (m_physical_pages mm) page;
  Done (mk_mm rs ps).

(** [PhysicalPage::ref] and [unref] on a page of the array; the last [unref]
    releases the page. *)
Definition mm_ref (mm : MemoryManager) (page : Z) : outcome MemoryManager :=
  p ← page_get (m_physical_pages mm) page;
  p ← page_ref p;
  ps ← page_update (m_physical_pages mm) page (λ _, p);
  Done (mk_mm (m_physical_regions mm) ps).

Definition mm_unref (mm : MemoryManager) (page : Z) : outcome MemoryManager :=
  p ← page_get (m_physical_pages mm) page;
  '(p, release) ← page_unref p;
  ps ← page_update (m_physical_pages mm) page (λ _, p);
  if release : bool then free_physical_page (mk_mm (m_physical_regions mm) ps) page
  else Done (mk_mm (m_physical_regions mm) ps).

(** [used_pmem], in pages. *)
Definition used_pages (mm : MemoryManager) : Z :=
  u32 (foldr (λ r n, n + (r_num_pages r - r_free_pages r)) 0 (m_physical_regions mm)).

(** ** Setting up a region *)

Fixpoint tiles (start n : Z) (zs : list BuddyZone) : Prop :=
  match zs with
  | [] => n = 0
  | z :: zs => m_first_page z = start ∧ m_num_pages z = 2 ^ m_highest_order z ∧
      0 ≤ m_highest_order z ≤ MAX_ORDER ∧
      tiles (start + 2 ^ m_highest_order z) (n - 2 ^ m_highest_order z) zs
  end.

Lemma zone_size_spec n : 0 < n → ∃ k, zone_size n = Done (2 ^ k) ∧ 0 ≤ k ≤ MAX_ORDER ∧ 2 ^ k ≤ n.
Proof.
  intros Hn. unfold zone_size, clz. rewrite (proj2 (Z.eqb_neq _ _)) by lia. cbn [mbind outcome_bind].
  replace (32 - (31 - Z.log2 n) - 1) with (Z.log2 n) by lia. rewrite Z.shiftl_1_l.
  pose proof (Z.log2_spec n Hn) as [? _]. pose proof (Z.log2_nonneg n). unfold MAX_ORDER.
  eexists. split; [done|]. destruct (Z.ltb_spec 10 (Z.log2 n)); [|lia]. split; [lia|].
  pose proof (Z.pow_le_mono_r 2 10 (Z.log2 n)). lia.
Qed.

(** A new zone before its first page's links are set. *)
Lemma zone_new_fields raw first h : 0 ≤ h ≤ MAX_ORDER → 1 ≤ first → first + 2 ^ h < 2 ^ 32 →
  64 ≤ Z.of_nat (length raw) →
  ∃ z, zone_new raw first (2 ^ h) = Done z ∧ m_first_page z = first ∧ m_highest_order z = h ∧
    m_num_pages z = 2 ^ h.
Proof.
  intros Hh Hf Hlt Hraw. set (ps := replicate (Z.to_nat (first + 2 ^ h)) (mk_page 65535 65535)).
  pose proof (pow2_pos h ltac:(lia)).
  destruct (zone_new_spec raw first h ps (mk_page 65535 65535)) as (z&Hz&[[] _]&?&?);
    [done|done|unfold ps; rewrite length_replicate; lia|done|apply lookup_replicate_2; lia|done|done|].
  exists z. split_and!; [done..|congruence].
Qed.

Lemma make_zones_spec raw ps fuel : ∀ start n, 0 ≤ n → n < Z.of_nat fuel → 1 ≤ start →
  start + n < 2 ^ 32 → 64 ≤ Z.of_nat (length raw) →
  ∃ zs, make_zones fuel raw ps start n false = Done (zs, ps) ∧ tiles start n zs ∧
    Forall (λ z, zone_new raw (m_first_page z) (2 ^ m_highest_order z) = Done z) zs.
Proof.
  induction fuel as [|fuel IH]; intros start n Hn Hfuel Hs Hlt Hraw; [lia|]. cbn [make_zones].
  destruct (Z.eqb_spec n 0) as [->|Hn0]; [by exists []|].
  destruct (zone_size_spec n) as (k&->&Hk&Hkn); [lia|]. cbn [mbind outcome_bind].
  pose proof (pow2_pos k ltac:(lia)).
  destruct (zone_new_fields raw start k) as (z&Hz&Hf&Hh&Hnum); [done|done|lia|done|].
  rewrite Hz. cbn [mbind outcome_bind].
  destruct (IH (start + 2 ^ k) (n - 2 ^ k)) as (zs&->&Ht&Hall); [lia..|].
  exists (z :: zs). split; [done|]. split; [cbn; by rewrite Hh, Hnum|].
  constructor; [by rewrite Hf, Hh|done].
Qed.

Lemma tiles_first start n zs z : tiles start n zs → z ∈ zs →
  start ≤ m_first_page z ∧ m_first_page z + 2 ^ m_highest_order z ≤ start + n ∧
  0 ≤ m_highest_order z ≤ MAX_ORDER.
Proof.
  revert start n. induction zs as [|z' zs IH]; intros start n; [set_solver|]. cbn.
  intros (Hf&_&Hh&Ht). pose proof (pow2_pos (m_highest_order z') ltac:(lia)).
  assert (0 ≤ n - 2 ^ m_highest_order z').
  { clear - Ht. revert Ht. generalize (start + 2 ^ m_highest_order z'), (n - 2 ^ m_highest_order z').
    induction zs as [|z zs IH]; cbn; intros a b; [lia|]. intros (_&_&?&Ht).
    pose proof (pow2_pos (m_highest_order z) ltac:(lia)). specialize (IH _ _ Ht). lia. }
  intros [->|Hz]%elem_of_cons; [lia|]. specialize (IH _ _ Ht Hz). lia.
Qed.

(** [init] clears the links of the first pages and touches nothing else. *)
Lemma init_zones_spec zs : ∀ start n ps, tiles start n zs → 0 ≤ start →
  start + n ≤ Z.of_nat (length ps) →
  ∃ ps', init_zones zs ps = Done ps' ∧ length ps' = length ps ∧
    (∀ i, (i < Z.to_nat start)%nat → ps' !! i = ps !! i) ∧
    ∀ z, z ∈ zs → ∃ p, ps' !! Z.to_nat (m_first_page z) = Some p ∧ free_next p = -1 ∧ free_prev p = -1.
Proof.
  induction zs as [|z zs IH]; intros start n ps Ht Hs Hlen; cbn [init_zones].
  { exists ps. split_and!; [done..|set_solver]. }
  destruct (tiles_first _ _ _ z Ht) as (?&?&Hh); [left|]. destruct Ht as (Hf&_&_&Ht).
  pose proof (pow2_pos (m_highest_order z) ltac:(lia)).
  destruct (lookup_lt_is_Some_2 ps (Z.to_nat (m_first_page z))) as [p Hp]; [lia|].
  rewrite (page_update_Done _ _ _ p) by (lia || done). cbn [mbind outcome_bind].
  rewrite (page_update_Done _ _ _ (set_free_prev (-1) p)) by
    (lia || apply list_lookup_insert_eq; lia). cbn [mbind outcome_bind].
  rewrite list_insert_insert_eq.
  set (q := set_free_next (-1) (set_free_prev (-1) p)).
  destruct (IH _ _ (<[Z.to_nat (m_first_page z) := q]> ps) Ht) as (ps'&Hi&Hl&Hlow&Hz);
    [lia|rewrite length_insert; lia|].
  exists ps'. rewrite length_insert in Hl. split_and!; [done|done| |].
  - intros i Hi'. rewrite Hlow by lia. apply list_lookup_insert_ne. lia.
  - intros z' [->|Hz']%elem_of_cons; [|by apply Hz]. exists q.
    rewrite Hlow by lia. rewrite list_lookup_insert_eq by lia. done.
Qed.

(** C38: creating a region cuts it exactly into buddy zones, one behind the
    other, whose sizes are powers of two of at most [2^MAX_ORDER] pages; after
    [init] every zone is an empty zone with all its pages free. *)
Theorem region_setup raw ps start n :
  1 ≤ start → 0 ≤ n → start + n ≤ Z.of_nat (length ps) < 2 ^ 32 → 64 ≤ Z.of_nat (length raw) →
  ∃ zs ps', region_new raw ps start n false false = Done (mk_region zs start n n false, ps) ∧
    region_init (mk_region zs start n n false) ps = Done ps' ∧ tiles start n zs ∧
    ∀ z, z ∈ zs → zone_start raw (m_first_page z) (m_highest_order z) ps' z ∧
      m_free_pages z = m_num_pages z.
Proof.
  intros Hs Hn Hlen Hraw. unfold region_new, region_init. cbn [r_reserved r_zones].
  destruct (make_zones_spec raw ps (S (Z.to_nat n)) start n) as (zs&->&Ht&Hall); [lia..|].
  destruct (init_zones_spec zs start n ps Ht) as (ps'&Hi&Hl&_&Hz); [lia..|].
  exists zs, ps'. split_and!; [done|done|done|]. intros z Hin.
  destruct (tiles_first _ _ _ _ Ht Hin) as (?&?&?).
  rewrite Forall_forall in Hall. pose proof (Hall z Hin) as Hnew.
  assert (zone_start raw (m_first_page z) (m_highest_order z) ps' z) as Hstart
    by (split_and!; (done || lia || by apply Hz)).
  split; [done|]. destruct (Hz z Hin) as (p&?&?&?).
  destruct (zone_new_spec raw (m_first_page z) (m_highest_order z) ps' p) as (z'&Hz'&[[] Hc]&_&_);
    [done|lia|lia|done..|]. rewrite Hnew in Hz'. injection Hz' as <-.
  rewrite Hc, free_count_new by lia. done.
Qed.

Lemma region_setup_witness :
  ∃ zs ps', region_new (replicate 64 0) (replicate 16 (mk_page 0 0)) 4 7 false false =
      Done (mk_region zs 4 7 7 false, replicate 16 (mk_page 0 0)) ∧
    region_init (mk_region zs 4 7 7 false) (replicate 16 (mk_page 0 0)) = Done ps' ∧ tiles 4 7 zs ∧
    ∀ z, z ∈ zs → zone_start (replicate 64 0) (m_first_page z) (m_highest_order z) ps' z ∧
      m_free_pages z = m_num_pages z.
Proof. apply (region_setup (replicate 64 0) (replicate 16 (mk_page 0 0)) 4 7); cbn; lia. Defined.

(** ** What the link before a zone does to its neighbour *)

(** A memory manager with one region. *)
Definition sample_mm (start n : Z) (len : nat) : outcome MemoryManager :=
  '(r, ps) ← region_new (replicate 64 0) (replicate len (mk_page 0 0)) start n false false;
  ps ← region_init r ps;
  Done (mk_mm [r] ps).

Inductive mm_op : Type := MAlloc | MContiguous (n : Z) | MUnref (p : Z).

(** No page can be reclaimed from the disk cache. *)
Definition no_reclaim (mm : MemoryManager) : outcome (Z * MemoryManager) := Done (0, mm).

(** A run keeps the pages its caller holds, and a caller drops only references
    to pages it holds; any other drop is outside the contract ([Undef]). *)
Fixpoint mm_run (os : list mm_op) (held : list Z) (mm : MemoryManager) :
    outcome (list Z * MemoryManager) :=
  match os with
  | [] => Done (held, mm)
  | MAlloc :: os =>
      '(p, mm) ← alloc_physical_page no_reclaim 2 mm; mm_run os (p :: held) mm
  | MContiguous n :: os =>
      '(o, mm) ← alloc_contiguous_physical_pages mm n;
      mm_run os (match o with Ok ps => ps ++ held | Err _ => held end) mm
  | MUnref p :: os =>
      if decide (p ∈ held) then
        mm ← mm_unref mm p; mm_run os (filter (λ q, q ≠ p) held) mm
      else Undef
  end.

(** In a region of three pages (a zone of two and a zone of one), all handed
    out, dropping the only reference to page 2 frees nothing: serving page 3
    from the second zone had marked page 2, the page before that zone, as
    [reserved]. Dropping page 1 instead does free it. *)
Theorem neighbour_page_leaks :
  (mm ← sample_mm 1 3 8;
   '(held, mm) ← mm_run [MAlloc; MAlloc; MAlloc] [] mm;
   '(held1, mm1) ← mm_run [MUnref 1] held mm;
   '(held2, mm2) ← mm_run [MUnref 2] held mm;
   Done (used_pages mm, (held1, used_pages mm1), (held2, used_pages mm2)))
  = Done (3, ([3; 2], 2), ([3; 1], 3)).
Proof. vm_compute. reflexivity. Qed.

(** the same write breaks the free list of the zone before it. With two zones
    side by side, a sequence in which the caller drops only pages it holds
    leaves two of the twelve pages free, and the next allocation stops at an
    assertion inside the zones: it never gets as far as running out of memory. *)
Theorem neighbour_list_corrupted :
  (mm ← sample_mm 4 12 16;
   '(held, mm) ← mm_run (replicate 8 MAlloc ++
      [MUnref 11; MUnref 5; MContiguous 4; MUnref 10; MAlloc]) [] mm;
   Done (length held, used_pages mm,
         mm_alloc_from (m_physical_regions mm) (m_physical_pages mm)))
  = Done (10%nat, 10, Panic).
Proof. vm_compute. reflexivity. Qed.
