(* ===== verification/Frames.v ===== *)
(** * Reference-counted page frames: the interface of the memory manager

    [FrameAllocator] is what the virtual memory objects rely on when they
    allocate, reference and release page frames.  [one_zone] discharges it for a
    memory of one buddy zone.  With more than one zone the interface does not
    hold: serving a page from a zone writes to the page before it (see
    [PhysicalRegion]). *)

From stdpp Require Import base numbers list option gmap sets.
From S2P Require Import Prelude.
From S2P Require Import Bitmap.
From S2P Require Import PhysicalPage.
From S2P Require Import BuddyZone.
From S2P Require Import PhysicalRegion.

Local Open Scope Z_scope.

(** The part of the memory manager that counts references: [R] gives the count
    of the pages in use.  A page allocated is one that was not in use; counts
    go up and down one by one, and the page is free again after the last. *)
Class FrameAllocator (reclaim : MemoryManager → outcome (Z * MemoryManager)) (fuel : nat)
    (inv : MemoryManager → gmap Z Z → Prop) : Prop := {
  fa_alloc mm R p mm' : inv mm R → alloc_physical_page reclaim fuel mm = Done (p, mm') →
    1 ≤ p ∧ R !! p = None ∧ inv mm' (<[p := 1]> R);
  fa_count mm R p n : inv mm R → R !! p = Some n → 1 ≤ n ≤ 65535 ∧
    ∃ pg, page_get (m_physical_pages mm) p = Done pg ∧ ref_count pg = n;
  fa_ref mm R p n : inv mm R → R !! p = Some n → n < 65535 →
    ∃ mm', mm_ref mm p = Done mm' ∧ inv mm' (<[p := n + 1]> R);
  fa_unref mm R p n : inv mm R → R !! p = Some n →
    ∃ mm', mm_unref mm p = Done mm' ∧ inv mm' (if n =? 1 then delete p R else <[p := n - 1]> R);
}.

(** ** A memory of one zone *)

Section one_zone.
Context (first h : Z).

(** The zone's free pages are the ones that are not in use. *)
Definition one_zone (mm : MemoryManager) (R : gmap Z Z) : Prop :=
  ∃ z ps F, mm = mk_mm [mk_region [z] first (2 ^ h) (m_free_pages z) false] ps ∧
    m_highest_order z = h ∧ m_first_page z = first ∧ zone_inv z ps F ∧
    (∀ x, free_in h F x ↔ 0 ≤ x < 2 ^ h ∧ R !! (first + x) = None) ∧
    ∀ p n, R !! p = Some n → first ≤ p < first + 2 ^ h ∧ 1 ≤ n ≤ 65535 ∧
      ∃ pg, ps !! Z.to_nat p = Some pg ∧ ref_count pg = n ∧ reserved pg = false.

Lemma one_zone_bounds z ps F : zone_inv z ps F → m_highest_order z = h → m_first_page z = first →
  0 ≤ h ≤ 10 ∧ 1 ≤ first ∧ first + 2 ^ h ≤ Z.of_nat (length ps) < 2 ^ 32 ∧ 0 < 2 ^ h ∧
  m_num_pages z = 2 ^ h ∧ 0 ≤ m_free_pages z ≤ 2 ^ h.
Proof.
  intros [Hz Hc] Hh Hf. pose proof Hz as []. unfold MAX_ORDER in *. rewrite Hh, Hf in *.
  pose proof (pow2_pos h ltac:(lia)). pose proof (free_count_le h F zo_lists ltac:(lia)). lia.
Qed.

(** Writing the structure of a page that is not free. *)
Lemma one_zone_write z ps F p q : zone_inv z ps F → m_highest_order z = h → m_first_page z = first →
  first ≤ p < first + 2 ^ h → ¬ free_in h F (p - first) → zone_inv z (<[Z.to_nat p := q]> ps) F.
Proof.
  intros [Hz Hc] Hh Hf Hp Hn. split; [|done].
  replace p with (m_first_page z + (p - first)) by lia. apply zone_ok_write; [done|rewrite Hh; lia|by rewrite Hh].
Qed.

(** The count of a page in use changes; the page stays in use. *)
Lemma one_zone_set_count mm R p n pg n' : one_zone mm R → R !! p = Some n →
  page_get (m_physical_pages mm) p = Done pg → 1 ≤ n' ≤ 65535 →
  one_zone (mk_mm (m_physical_regions mm)
    (<[Z.to_nat p := set_ref_count n' pg]> (m_physical_pages mm))) (<[p := n']> R).
Proof.
  intros (z&ps&F&->&Hh&Hf&Hz&Hfree&HR) Hp Hpg Hn'. cbn [m_physical_pages m_physical_regions] in *.
  destruct (HR p n Hp) as (Hin&_&pg'&Hpg'&_&Hres). pose proof (one_zone_bounds _ _ _ Hz Hh Hf).
  rewrite (page_get_Done _ _ pg') in Hpg by (lia || done). injection Hpg as ->.
  exists z, (<[Z.to_nat p := set_ref_count n' pg]> ps), F. split_and!; [done|done|done| | |].
  - apply one_zone_write; [done..|]. intros [_ HN]%Hfree.
    replace (first + (p - first)) with p in HN by lia. congruence.
  - intros x. rewrite Hfree, lookup_insert_None. split; [|tauto].
    intros [? HN]. split_and!; [lia|lia|done|]. intros He. rewrite <-He in HN. congruence.
  - intros p' m [[<- <-]|[Hne Hp']]%lookup_insert_Some.
    + split_and!; [lia|lia|lia|lia|]. exists (set_ref_count n' pg).
      rewrite list_lookup_insert_eq by (eapply lookup_lt_Some; done).
      split_and!; [done|cbn; apply u16_id; lia|done].
    + destruct (HR p' m Hp') as (?&?&pg2&?&?&?). split_and!; [lia..|]. exists pg2.
      rewrite list_lookup_insert_ne by lia. done.
Qed.

Lemma one_zone_count mm R p n : one_zone mm R → R !! p = Some n → 1 ≤ n ≤ 65535 ∧
  ∃ pg, page_get (m_physical_pages mm) p = Done pg ∧ ref_count pg = n ∧ reserved pg = false.
Proof.
  intros (z&ps&F&->&Hh&Hf&Hz&_&HR) Hp. destruct (HR p n Hp) as (?&?&pg&Hpg&?&?).
  pose proof (one_zone_bounds _ _ _ Hz Hh Hf). split; [done|]. exists pg.
  split_and!; [apply page_get_Done; [lia|done]|done|done].
Qed.

Lemma one_zone_ref mm R p n : one_zone mm R → R !! p = Some n → n < 65535 →
  ∃ mm', mm_ref mm p = Done mm' ∧ one_zone mm' (<[p := n + 1]> R).
Proof.
  intros Hi Hp Hn. destruct (one_zone_count _ _ _ _ Hi Hp) as (?&pg&Hpg&Hc&_).
  unfold mm_ref, page_ref, page_update. rewrite Hpg. cbn [mbind outcome_bind].
  rewrite Hc, (proj2 (Z.eqb_neq n _)) by lia. cbn [mbind outcome_bind].
  eexists. split; [done|]. eapply one_zone_set_count; [done..|lia].
Qed.

(** The last reference: the page goes back to the zone. *)
Lemma one_zone_free mm R p pg : one_zone mm R → R !! p = Some 1 →
  page_get (m_physical_pages mm) p = Done pg →
  ∃ mm', free_physical_page (mk_mm (m_physical_regions mm)
      (<[Z.to_nat p := set_ref_count 0 pg]> (m_physical_pages mm))) p = Done mm' ∧
    one_zone mm' (delete p R).
Proof.
  intros (z&ps&F&->&Hh&Hf&Hz&Hfree&HR) Hp Hpg. cbn [m_physical_pages m_physical_regions] in *.
  destruct (HR p 1 Hp) as (Hin&_&pg'&Hpg'&_&_). pose proof (one_zone_bounds _ _ _ Hz Hh Hf) as Hb.
  rewrite (page_get_Done _ _ pg') in Hpg by (lia || done). injection Hpg as ->.
  pose proof (lookup_lt_Some _ _ _ Hpg') as Hlt. set (q := set_ref_count 0 pg).
  assert (¬ free_in h F (p - first)) as Hnf.
  { intros [_ HN]%Hfree. replace (first + (p - first)) with p in HN by lia. congruence. }
  pose proof (one_zone_write z ps F p q Hz Hh Hf Hin Hnf) as Hz1.
  unfold free_physical_page. cbn [m_physical_pages m_physical_regions].
  rewrite (page_get_Done _ _ q) by (lia || by apply list_lookup_insert_eq).
  cbn [mbind outcome_bind]. change (ref_count q =? 0) with true. cbn [kassert mbind outcome_bind mm_free_to].
  assert (region_contains_page (mk_region [z] first (2 ^ h) (m_free_pages z) false) p = true) as Hrc.
  { unfold region_contains_page. cbn [r_start_page r_num_pages]. rewrite u32_id by lia. lia. }
  rewrite Hrc. unfold free_page. cbn [r_reserved negb kassert mbind outcome_bind]. rewrite Hrc.
  cbn [kassert mbind outcome_bind free_to r_zones].
  assert (contains_page z p = true) as ->.
  { unfold contains_page. rewrite (proj1 (proj2 (proj2 (proj2 (proj2 Hb))))), Hf, u32_id by lia. lia. }
  destruct (free_block_spec z _ F 0 (p - first) Hz1) as (z1&ps'&F'&He&Hok&Hz').
  { rewrite Hh. split_and!; [lia..|]. apply Z.divide_1_l. }
  { intros x Hx. replace x with (p - first) by lia. by rewrite Hh. }
  replace (m_first_page z + (p - first)) with p in He by lia. change (2 ^ 0) with 1 in *.
  rewrite He. cbn [mbind outcome_bind]. eexists. split; [done|].
  destruct Hok as [_ (Hs1&Hs2&Hs3&Hs4) Hrest Hcount [_ Hframe]]. rewrite Hh, Hf in *.
  exists (set_free_pages z1 (m_free_pages z + 1)), ps', F'. split_and!; [|done|done|done| |].
  - unfold set_zones. cbn. do 4 f_equal. apply u32_id.
    pose proof (one_zone_bounds _ _ _ Hz' Hs2 Hs1) as Hb'.
    cbn in Hb'. lia.
  - intros x. rewrite Hrest, Hfree, lookup_delete_None. split.
    + intros [[? ?]|?]; split; [lia|by right|lia|left; lia].
    + intros [? [->|?]]; [right; lia|by left].
  - intros p' m [Hne Hp']%lookup_delete_Some. destruct (HR p' m Hp') as (?&?&pg2&Hpg2&?&?).
    split_and!; [lia..|]. exists pg2. split; [|done].
    destruct (decide (ps' !! Z.to_nat p' = <[Z.to_nat p:=q]> ps !! Z.to_nat p')) as [->|Hd].
    { by rewrite list_lookup_insert_ne by lia. }
    exfalso. destruct (Hframe _ Hd) as [[_ HN]%Hfree|?]; [|lia].
    replace (first + (Z.of_nat (Z.to_nat p') - first)) with p' in HN by lia. congruence.
Qed.

Lemma one_zone_unref mm R p n : one_zone mm R → R !! p = Some n →
  ∃ mm', mm_unref mm p = Done mm' ∧
    one_zone mm' (if n =? 1 then delete p R else <[p := n - 1]> R).
Proof.
  intros Hi Hp. destruct (one_zone_count _ _ _ _ Hi Hp) as (?&pg&Hpg&Hc&Hres).
  unfold mm_unref, page_unref, page_update. rewrite Hpg. cbn [mbind outcome_bind].
  rewrite Hc, (proj2 (Z.eqb_neq n 0)) by lia. cbn [negb kassert mbind outcome_bind].
  destruct (Z.eqb_spec n 1) as [->|].
  - change (ref_count (set_ref_count (1 - 1) pg) =? 0) with true. cbn [kassert mbind outcome_bind].
    change (reserved (set_ref_count (1 - 1) pg)) with (reserved pg). rewrite Hres. cbn [negb].
    by eapply one_zone_free.
  - cbn [mbind outcome_bind]. eexists. split; [done|]. eapply one_zone_set_count; [done..|lia].
Qed.

(** A page served by the zone was free, and no page in use changes. *)
Lemma one_zone_serve z ps F (R : gmap Z Z) p z' ps' :
  m_highest_order z = h → m_first_page z = first → zone_inv z ps F →
  (∀ x, free_in h F x ↔ 0 ≤ x < 2 ^ h ∧ R !! (first + x) = None) →
  alloc_block z ps 1 = Done (Ok p, z', ps') →
  m_highest_order z' = h ∧ m_first_page z' = first ∧ m_free_pages z' = m_free_pages z - 1 ∧
  first ≤ p < first + 2 ^ h ∧ R !! p = None ∧
  (∀ q n, R !! q = Some n → first ≤ q < first + 2 ^ h → ps' !! Z.to_nat q = ps !! Z.to_nat q) ∧
  ∃ F', zone_inv z' ps' F' ∧
    ∀ x, free_in h F' x ↔ 0 ≤ x < 2 ^ h ∧ <[p := 1]> R !! (first + x) = None.
Proof.
  intros Hh Hf Hz Hfree Ha. pose proof (one_zone_bounds _ _ _ Hz Hh Hf) as Hb. change 1 with (2 ^ 0) in Ha.
  destruct (alloc_block_spec z ps F 0 Hz ltac:(lia)) as [[_ He]|[[_ (b&z1&ps1&F1&He&Hok&Hz1)]|(_&_&He)]];
    rewrite He in Ha; [done| |done]. injection Ha as <- <- <-.
  destruct Hok as [_ (Hs1&Hs2&Hs3&Hs4) Hbl Hfr Hrest _ _ [_ Hframe]]. rewrite Hh, Hf in *.
  change (2 ^ 0) with 1 in *. assert (free_in h F b) as [Hbr HN]%Hfree by (apply Hfr; lia).
  split_and!; [done|done|done|lia|lia|done| |].
  - intros q n Hq Hqr. destruct (decide (ps1 !! Z.to_nat q = ps !! Z.to_nat q)) as [|Hd]; [done|exfalso].
    destruct (Hframe _ Hd) as [?|[_ HN']%Hfree]; [lia|].
    replace (first + (Z.of_nat (Z.to_nat q) - first)) with q in HN' by lia. congruence.
  - exists F1. split; [done|]. intros x. rewrite Hrest, Hfree, lookup_insert_None. split.
    + intros [[? ?] ?]. split_and!; [lia|lia|done|lia].
    + intros [? [? ?]]. split_and!; [lia|lia|done|lia].
Qed.

Lemma set_reserved_false pg : reserved (set_reserved false pg) = false.
Proof.
  unfold reserved, set_reserved. cbn [pp_hi]. rewrite Z.add_0_r, Zminus_mod_idemp_r, Z.sub_diag. done.
Qed.

Lemma one_zone_alloc fuel mm R p mm' : one_zone mm R →
  alloc_physical_page no_reclaim fuel mm = Done (p, mm') →
  1 ≤ p ∧ R !! p = None ∧ one_zone mm' (<[p := 1]> R).
Proof.
  intros (z&ps&F&->&Hh&Hf&Hz&Hfree&HR) Ha. pose proof (one_zone_bounds _ _ _ Hz Hh Hf) as Hb.
  destruct fuel as [|fuel]; [done|]. cbn [alloc_physical_page m_physical_regions m_physical_pages mm_alloc_from] in Ha.
  unfold alloc_page in Ha. cbn [r_reserved r_free_pages r_zones] in Ha.
  destruct (Z.eqb_spec (m_free_pages z) 0) as [|Hne]; [done|]. cbn [alloc_from] in Ha.
  destruct (alloc_block z ps 1) as [[[[p1|e] z1] ps1]| | |] eqn:Hblk; [|done..].
  destruct (one_zone_serve z ps F R p1 z1 ps1 Hh Hf Hz Hfree Hblk)
    as (Hh1&Hf1&Hn1&Hp1&HN&Hkeep&F1&Hz1&Hfree1).
  pose proof (one_zone_bounds _ _ _ Hz1 Hh1 Hf1) as Hb1. cbn [mbind outcome_bind] in Ha.
  destruct (lookup_lt_is_Some_2 ps1 (Z.to_nat p1)) as [pg Hpg]; [lia|].
  pose proof (lookup_lt_Some _ _ _ Hpg) as Hlt.
  rewrite (page_update_Done _ _ _ pg) in Ha by (lia || done). cbn [mbind outcome_bind] in Ha.
  rewrite (page_update_Done _ _ _ (set_ref_count 1 pg)) in Ha by (lia || by apply list_lookup_insert_eq).
  cbn [mbind outcome_bind] in Ha. rewrite list_insert_insert_eq in Ha. injection Ha as <- <-.
  set (q := set_reserved false (set_ref_count 1 pg)). split_and!; [lia|done|].
  exists z1, (<[Z.to_nat p1 := q]> ps1), F1. split_and!; [|done|done| |done|].
  - unfold set_zones. cbn. do 4 f_equal. rewrite u32_id; lia.
  - apply one_zone_write; [done..|]. rewrite Hfree1. intros [_ HN1].
    replace (first + (p1 - first)) with p1 in HN1 by lia. rewrite lookup_insert_eq in HN1. done.
  - intros p' n [[<- <-]|[Hne' Hp']]%lookup_insert_Some.
    + split_and!; [lia..|]. exists q. rewrite list_lookup_insert_eq by done.
      split_and!; [done|done|apply set_reserved_false].
    + destruct (HR p' n Hp') as (?&?&pg2&?&?&?). split_and!; [lia..|]. exists pg2.
      rewrite list_lookup_insert_ne by lia. by erewrite Hkeep.
Qed.

(** A memory of one zone meets the interface. *)
#[export] Instance one_zone_frames fuel : FrameAllocator no_reclaim fuel one_zone.
Proof.
  split.
  - apply one_zone_alloc.
  - intros mm R p n Hi Hp. destruct (one_zone_count _ _ _ _ Hi Hp) as (?&pg&?&?&_).
    split; [done|]. by exists pg.
  - apply one_zone_ref.
  - apply one_zone_unref.
Qed.
End one_zone.

(** A memory manager just set up with a region of [2^h] pages. *)
Lemma one_zone_start raw ps first h z p :
  0 ≤ h ≤ MAX_ORDER → 1 ≤ first → first + 2 ^ h ≤ Z.of_nat (length ps) < 2 ^ 32 →
  64 ≤ Z.of_nat (length raw) → ps !! Z.to_nat first = Some p → free_next p = -1 → free_prev p = -1 →
  zone_new raw first (2 ^ h) = Done z →
  one_zone first h (mk_mm [mk_region [z] first (2 ^ h) (2 ^ h) false] ps) ∅.
Proof.
  intros. destruct (zone_new_spec raw first h ps p) as (z'&Hz'&[Hz Hc]&Hf&Hh); [done..|].
  assert (z' = z) as -> by congruence. exists z, ps, (new_lists h).
  pose proof (pow2_pos h ltac:(lia)). rewrite Hc, Hh, free_count_new by lia.
  split_and!; [done|done|done| | |].
  - split; [done|]. by rewrite Hc.
  - intros x. rewrite lookup_empty. split.
    + intros (k&b&Hk&Hb&Hx). split; [|done].
      destruct (lo_block _ _ (new_lists_ok h ltac:(lia)) k b Hk Hb) as (_&?&?&_). lia.
    + intros [? _]. apply new_free_in; lia.
  - intros ??. by rewrite lookup_empty.
Qed.
