(* ===== verification/VMObject.v ===== *)
(** * Virtual memory objects (kernel/memory/VMObject.cpp, AnonymousVMObject.cpp,
    InodeVMObject.cpp, and [VMProt] of VMRegion.h)

    An object is an array of page frames, [0] standing for a page that has not
    been faulted in, with a copy-on-write bit for each.  The frames come from
    the memory manager, which keeps their reference counts; [vm_mem] is what
    the frames contain.

    The object code is written against the memory manager of
    [PhysicalRegion]; its theorems are proved against the interface
    [FrameAllocator], what the object code relies on. *)

From stdpp Require Import base numbers list option gmap sets relations.
From S2P Require Import Prelude.
From S2P Require Import Bitmap.
From S2P Require Import PhysicalPage.
From S2P Require Import PhysicalRegion.
From S2P Require Import Frames.

Local Open Scope Z_scope.

Definition PAGE_SIZE : Z := 4096.

Record VMProt : Type := mk_prot { p_read : bool; p_write : bool; p_execute : bool }.

Definition prot_R : VMProt := mk_prot true false false.
Definition prot_RW : VMProt := mk_prot true true false.
Definition prot_RX : VMProt := mk_prot true false true.
Definition prot_RWX : VMProt := mk_prot true true true.

Definition prot_eqb (a b : VMProt) : bool :=
  eqb (p_read b) (p_read a) && eqb (p_write b) (p_write a) && eqb (p_execute b) (p_execute a).

(** ** The objects *)

Inductive ForkAction : Type := BecomeCoW | Share | Ignore.
Inductive AnonymousType : Type := Normal | Device.
Inductive InodeType : Type := Shared | Private.

#[export] Instance ForkAction_eq_dec : EqDecision ForkAction.
Proof. solve_decision. Defined.
#[export] Instance AnonymousType_eq_dec : EqDecision AnonymousType.
Proof. solve_decision. Defined.
#[export] Instance InodeType_eq_dec : EqDecision InodeType.
Proof. solve_decision. Defined.

(** The fields of [AnonymousVMObject]; [m_shared_owner] is not initialised by
    the constructors. *)
Record AnonymousPart : Type := mk_anon {
  m_shared_permissions : gmap Z VMProt;
  m_is_shared : bool;
  m_fork_action : ForkAction;
  m_shared_owner : option Z;
  m_shm_id : Z;
  m_num_committed_pages : Z;
  m_anon_type : AnonymousType;
}.

(** The fields of [InodeVMObject]; an inode is known by a number. *)
Record InodePart : Type := mk_inode_part {
  m_inode : Z;
  m_inode_type : InodeType;
  m_committed_pages : Z;
}.

Inductive subclass : Type :=
  | BaseObject
  | AnonymousObject (a : AnonymousPart)
  | InodeObject (i : InodePart).

Record VMObject : Type := mk_object {
  o_pages : list Z;
  o_cow : Bitmap;
  o_size : Z;
  o_sub : subclass;
}.

Definition is_device (o : VMObject) : bool :=
  match o_sub o with
  | AnonymousObject a => bool_decide (m_anon_type a = Device)
  | _ => false
  end.

Definition fork_action (o : VMObject) : ForkAction :=
  match o_sub o with
  | BaseObject => Share
  | AnonymousObject a => m_fork_action a
  | InodeObject i => if decide (m_inode_type i = Private) then BecomeCoW else Share
  end.

Definition num_committed_pages (o : VMObject) : Z :=
  match o_sub o with
  | BaseObject => 0
  | AnonymousObject a => m_num_committed_pages a
  | InodeObject i => m_committed_pages i
  end.

(** [kstd::vector<PageIndex>::operator[]], whose bounds are asserted. *)
Definition vec_get (l : list Z) (i : Z) : outcome Z :=
  if i <? Z.of_nat (length l) then
    match l !! Z.to_nat i with Some p => Done p | None => Undef end
  else Panic.

Definition vec_set (l : list Z) (i : Z) (v : Z) : outcome (list Z) :=
  if i <? Z.of_nat (length l) then Done (<[Z.to_nat i := v]> l) else Panic.

Definition physical_page_index (o : VMObject) (index : Z) : outcome Z := vec_get (o_pages o) index.

Definition page_is_cow (o : VMObject) (page : Z) : outcome bool := get (o_cow o) page.

Definition set_pages (o : VMObject) (l : list Z) : VMObject := mk_object l (o_cow o) (o_size o) (o_sub o).
Definition set_cow (o : VMObject) (b : Bitmap) : VMObject := mk_object (o_pages o) b (o_size o) (o_sub o).
Definition set_sub (o : VMObject) (s : subclass) : VMObject := mk_object (o_pages o) (o_cow o) (o_size o) s.

(** The loop of the constructor that marks the pages present. *)
Definition mark_cow (l : list Z) (b : Bitmap) : outcome Bitmap :=
  for_range (length l) 0 (λ i b, p ← vec_get l i; if p =? 0 then Done b else set b i true) b.

(** [VMObject(name, physical_pages, all_cow)]; [raw] is the memory of the bitmap. *)
Definition object_new (raw : list Z) (l : list Z) (all_cow : bool) (s : subclass) : outcome VMObject :=
  b ← bitmap_new raw (Z.of_nat (length l)) false;
  b ← (if all_cow then mark_cow l b else Done b);
  Done (mk_object l b (u32 (Z.of_nat (length l) * PAGE_SIZE)) s).

(** [~VMObject]: a reference less to every page present. *)
Fixpoint unref_pages (l : list Z) (mm : MemoryManager) : outcome MemoryManager :=
  match l with
  | [] => Done mm
  | p :: l =>
      mm ← (if p =? 0 then Done mm else mm_unref mm p);
      unref_pages l mm
  end.

(** [become_cow_and_ref_pages]. *)
Definition become_cow_and_ref_pages (o : VMObject) (mm : MemoryManager)
    : outcome (VMObject * MemoryManager) :=
  '(b, mm) ← for_range (length (o_pages o)) 0
    (λ i '(b, mm),
      p ← vec_get (o_pages o) i;
      if p =? 0 then Done (b, mm)
      else
        b ← set b i true;
        p ← vec_get (o_pages o) i;
        mm ← mm_ref mm p;
        Done (b, mm))
    (o_cow o, mm);
  Done (set_cow o b, mm).

(** What the constructors of [AnonymousVMObject] leave in its own fields. *)
Definition anon_default (committed : Z) : AnonymousPart :=
  mk_anon ∅ false BecomeCoW None 0 committed Normal.

(** [AnonymousVMObject(name, physical_pages, cow)]: every entry counts as
    committed, also one that is not present. *)
Definition anonymous_of_pages (raw l : list Z) (cow : bool) : outcome VMObject :=
  object_new raw l cow (AnonymousObject (anon_default (Z.of_nat (length l)))).

(** [AnonymousVMObject(name, n_pages, cow)]. *)
Definition anonymous_of_size (raw : list Z) (n_pages : Z) (cow : bool) : outcome VMObject :=
  object_new raw (replicate (Z.to_nat n_pages) 0) cow (AnonymousObject (anon_default 0)).

(** [AnonymousVMObject::clone]: the object, its clone, and the memory manager. *)
Definition anonymous_clone (raw : list Z) (o : VMObject) (a : AnonymousPart) (mm : MemoryManager)
    : outcome (VMObject * VMObject * MemoryManager) :=
  _ ← kassert (negb (m_is_shared a));
  '(o, mm) ← become_cow_and_ref_pages o mm;
  new_object ← anonymous_of_pages raw (o_pages o) true;
  Done (o, new_object, mm).

(** [InodeVMObject::clone]. *)
Definition inode_clone (raw : list Z) (o : VMObject) (i : InodePart) (mm : MemoryManager)
    : outcome (VMObject * VMObject * MemoryManager) :=
  _ ← kassert (bool_decide (m_inode_type i = Private));
  '(o, mm) ← become_cow_and_ref_pages o mm;
  new_object ← object_new raw (o_pages o) (bool_decide (m_inode_type i = Private))
    (InodeObject (mk_inode_part (m_inode i) (m_inode_type i) (m_committed_pages i)));
  Done (o, new_object, mm).

Definition ENOSYS : Z := 88.

(** [clone], by the class of the object. *)
Definition clone (raw : list Z) (o : VMObject) (mm : MemoryManager)
    : outcome (result VMObject * VMObject * MemoryManager) :=
  match o_sub o with
  | BaseObject => Done (Err ENOSYS, o, mm)
  | AnonymousObject a => '(o, n, mm) ← anonymous_clone raw o a mm; Done (Ok n, o, mm)
  | InodeObject i => '(o, n, mm) ← inode_clone raw o i mm; Done (Ok n, o, mm)
  end.

(** [InodeVMObject::make_for_inode], for an inode of [size] bytes. *)
Definition make_for_inode (raw : list Z) (inode size : Z) (t : InodeType) : outcome VMObject :=
  object_new raw (replicate (Z.to_nat (u32 (size + PAGE_SIZE - 1) / PAGE_SIZE)) 0) false
    (InodeObject (mk_inode_part inode t 0)).

(** ** Faults *)

(** What the page frames contain. *)
Abbreviation frames := (gmap Z (list Z)).

Definition zero_page : list Z := replicate (Z.to_nat PAGE_SIZE) 0.
Definition frame_of (mem : frames) (p : Z) : list Z := default zero_page (mem !! p).

(** [MemoryManager::copy_page]. *)
Definition copy_page (mem : frames) (src dest : Z) : frames := <[dest := frame_of mem src]> mem.

(** The first part of [try_cow_page], under the lock: the frame to copy. *)
Definition cow_check (o : VMObject) (page : Z) : outcome (result Z) :=
  _ ← kassert (page <? Z.of_nat (length (o_pages o)));
  c ← page_is_cow o page;
  if negb c then Done (Err EINVAL)
  else
    old_page_index ← vec_get (o_pages o) page;
    _ ← kassert (negb (old_page_index =? 0));
    Done (Ok old_page_index).

(** Its last part, under the lock again: the object may have changed. *)
Definition cow_commit (o : VMObject) (mm : MemoryManager) (page new_page : Z)
    : outcome (VMObject * MemoryManager) :=
  c ← page_is_cow o page;
  if negb c then
    mm ← free_physical_page mm new_page;
    Done (o, mm)
  else
    slot ← vec_get (o_pages o) page;
    mm ← mm_unref mm slot;
    l ← vec_set (o_pages o) page new_page;
    b ← set (o_cow o) page false;
    Done (set_cow (set_pages o l) b, mm).

Definition committed_one_more (o : VMObject) : VMObject :=
  match o_sub o with
  | BaseObject => o
  | AnonymousObject a =>
      set_sub o (AnonymousObject (mk_anon (m_shared_permissions a) (m_is_shared a) (m_fork_action a)
        (m_shared_owner a) (m_shm_id a) (u32 (m_num_committed_pages a + 1)) (m_anon_type a)))
  | InodeObject i =>
      set_sub o (InodeObject (mk_inode_part (m_inode i) (m_inode_type i) (u32 (m_committed_pages i + 1))))
  end.

(** The last part of both [try_fault_in_page], under the lock again. *)
Definition fault_commit (o : VMObject) (mm : MemoryManager) (page new_page : Z)
    : outcome (bool * VMObject * MemoryManager) :=
  p ← vec_get (o_pages o) page;
  if negb (p =? 0) then
    mm ← free_physical_page mm new_page;
    Done (false, o, mm)
  else
    l ← vec_set (o_pages o) page new_page;
    Done (true, committed_one_more (set_pages o l), mm).

Section faults.
(** [DiskDevice::free_pages(4)], and a bound for the retries it allows. *)
Context (reclaim : MemoryManager → outcome (Z * MemoryManager)) (fuel : nat).
(** [Inode::read(offset, length)] of an inode: the bytes read, or the error. *)
Context (inode_read : Z → Z → Z → result (list Z)).

(** [VMObject::try_cow_page] when no other thread gets in between. *)
Definition try_cow_page (o : VMObject) (page : Z) (mm : MemoryManager) (mem : frames)
    : outcome (result unit * VMObject * MemoryManager * frames) :=
  r ← cow_check o page;
  match r with
  | Err e => Done (Err e, o, mm, mem)
  | Ok old_page_index =>
      '(new_page, mm) ← alloc_physical_page reclaim fuel mm;
      let mem := copy_page mem old_page_index new_page in
      '(o, mm) ← cow_commit o mm page new_page;
      Done (Ok tt, o, mm, mem)
  end.

(** [AnonymousVMObject::try_fault_in_page]: whether a page was added. *)
Definition anonymous_fault (o : VMObject) (page : Z) (mm : MemoryManager) (mem : frames)
    : outcome (result bool * VMObject * MemoryManager * frames) :=
  if Z.of_nat (length (o_pages o)) <? page then Done (Err EINVAL, o, mm, mem)
  else
    p ← vec_get (o_pages o) page;
    if negb (p =? 0) then Done (Ok false, o, mm, mem)
    else
      '(new_page, mm) ← alloc_physical_page reclaim fuel mm;
      let mem := <[new_page := zero_page]> mem in
      '(did_read, o, mm) ← fault_commit o mm page new_page;
      Done (Ok did_read, o, mm, mem).

(** [InodeVMObject::try_fault_in_page]: the bytes read overwrite the start of
    the frame; the rest of it stays. *)
Definition inode_fault (o : VMObject) (i : InodePart) (index : Z) (mm : MemoryManager) (mem : frames)
    : outcome (result bool * VMObject * MemoryManager * frames) :=
  if Z.of_nat (length (o_pages o)) <=? index then Done (Err ERANGE, o, mm, mem)
  else
    p ← vec_get (o_pages o) index;
    if negb (p =? 0) then Done (Ok false, o, mm, mem)
    else
      '(new_page, mm) ← alloc_physical_page reclaim fuel mm;
      match inode_read (m_inode i) (u32 (index * PAGE_SIZE)) PAGE_SIZE with
      | Err e => mm ← free_physical_page mm new_page; Done (Err e, o, mm, mem)
      | Ok bytes =>
          let mem := <[new_page := bytes ++ drop (length bytes) (frame_of mem new_page)]> mem in
          '(did_read, o, mm) ← fault_commit o mm index new_page;
          Done (Ok did_read, o, mm, mem)
      end.

(** [try_fault_in_page], by the class of the object. *)
Definition try_fault_in_page (o : VMObject) (page : Z) (mm : MemoryManager) (mem : frames)
    : outcome (result bool * VMObject * MemoryManager * frames) :=
  match o_sub o with
  | BaseObject => Done (Err EINVAL, o, mm, mem)
  | AnonymousObject _ => anonymous_fault o page mm mem
  | InodeObject i => inode_fault o i page mm mem
  end.

(** [MemoryManager::alloc_physical_pages], past the attempt to empty the disk
    cache first: one page after the other. *)
Fixpoint alloc_physical_pages (n : nat) (mm : MemoryManager) : outcome (list Z * MemoryManager) :=
  match n with
  | O => Done ([], mm)
  | S n =>
      '(p, mm) ← alloc_physical_page reclaim fuel mm;
      '(ps, mm) ← alloc_physical_pages n mm;
      Done (p :: ps, mm)
  end.

(** [kstd::ceil_div] on [size_t]. *)
Definition ceil_div (a b : Z) : Z := u32 (a + (b - 1)) / b.

(** The pages of a new object are zeroed through a temporary mapping. *)
Definition zero_frames (l : list Z) (mem : frames) : frames :=
  foldl (λ mem p, <[p := zero_page]> mem) mem l.

(** [AnonymousVMObject::alloc]. *)
Definition anonymous_alloc (raw : list Z) (size : Z) (commit : bool) (mm : MemoryManager) (mem : frames)
    : outcome (VMObject * MemoryManager * frames) :=
  let num_pages := ceil_div size PAGE_SIZE in
  if negb commit then
    o ← anonymous_of_size raw num_pages false;
    Done (o, mm, mem)
  else
    '(l, mm) ← alloc_physical_pages (Z.to_nat num_pages) mm;
    o ← anonymous_of_pages raw l false;
    Done (o, mm, zero_frames l mem).

(** [AnonymousVMObject::alloc_contiguous]. *)
Definition anonymous_alloc_contiguous (raw : list Z) (size : Z) (mm : MemoryManager) (mem : frames)
    : outcome (result VMObject * MemoryManager * frames) :=
  let num_pages := ceil_div size PAGE_SIZE in
  '(r, mm) ← alloc_contiguous_physical_pages mm num_pages;
  match r with
  | Err e => Done (Err e, mm, mem)
  | Ok l =>
      o ← anonymous_of_pages raw l false;
      Done (Ok o, mm, zero_frames l mem)
  end.
End faults.

(** The loop of [map_to_physical] that writes the page structures anew. *)
Fixpoint reserve_frames (n : nat) (first : Z) (ps : pages) : outcome pages :=
  match n with
  | O => Done ps
  | S n =>
      ps ← page_update ps first (λ _, mk_page 1 1);
      reserve_frames n (first + 1) ps
  end.

(** [AnonymousVMObject::map_to_physical]. *)
Definition map_to_physical (raw : list Z) (start size : Z) (type : AnonymousType) (mm : MemoryManager)
    : outcome (result VMObject * MemoryManager) :=
  _ ← kassert (start / PAGE_SIZE * PAGE_SIZE =? start);
  let start_page := start / PAGE_SIZE in
  let num_pages := u32 (ceil_div (u32 (start + size)) PAGE_SIZE - start_page) in
  if u32 (u32 (start_page + num_pages) * PAGE_SIZE) <? u32 (start_page * PAGE_SIZE)
  then Done (Err EINVAL, mm)
  else
    ps ← reserve_frames (Z.to_nat num_pages) start_page (m_physical_pages mm);
    o ← object_new raw (seqZ start_page num_pages) false
          (AnonymousObject (mk_anon ∅ false Share None 0 0 type));
    Done (Ok o, mk_mm (m_physical_regions mm) ps).

(** ** Shared memory *)

(** The table of shared objects, by id: the objects are known by number. *)
Record shm_table : Type := mk_shm { s_cur_shm_id : Z; s_shared_objects : gmap Z Z }.

(** [AnonymousVMObject::share], of the object numbered [self]. *)
Definition share (t : shm_table) (self : Z) (a : AnonymousPart) (pid : Z) (prot : VMProt)
    : shm_table * AnonymousPart :=
  let '(t, a) :=
    if m_is_shared a then (t, a)
    else
      (mk_shm (s32 (s_cur_shm_id t + 1)) (<[s_cur_shm_id t := self]> (s_shared_objects t)),
       mk_anon (m_shared_permissions a) true Ignore (Some pid) (s_cur_shm_id t)
         (m_num_committed_pages a) (m_anon_type a)) in
  (t, mk_anon (<[pid := prot]> (m_shared_permissions a)) (m_is_shared a) (m_fork_action a)
        (m_shared_owner a) (m_shm_id a) (m_num_committed_pages a) (m_anon_type a)).

Definition get_shared (t : shm_table) (id : Z) : result Z :=
  match s_shared_objects t !! id with Some o => Ok o | None => Err ENOENT end.

Definition get_shared_permissions (a : AnonymousPart) (pid : Z) : result VMProt :=
  match m_shared_permissions a !! pid with Some p => Ok p | None => Err ENOENT end.

(** [~AnonymousVMObject], before the pages are released. *)
Definition anonymous_destroy (t : shm_table) (a : AnonymousPart) : shm_table :=
  if m_is_shared a then mk_shm (s_cur_shm_id t) (delete (m_shm_id a) (s_shared_objects t)) else t.

(** ** Objects on shared page frames *)

(** The anonymous objects of the system, by number. *)
Record vm_state : Type := mk_vm {
  vm_mm : MemoryManager;
  vm_mem : frames;
  vm_objects : gmap Z VMObject;
}.

(** What a mapping of the page shows: a page that is not present reads as zero
    once it is faulted in. *)
Definition page_view (mem : frames) (p : Z) : list Z := if p =? 0 then zero_page else frame_of mem p.
Definition object_view (mem : frames) (o : VMObject) : list (list Z) := page_view mem <$> o_pages o.
Definition vm_view (s : vm_state) : gmap Z (list (list Z)) := object_view (vm_mem s) <$> vm_objects s.

Definition get_object (s : vm_state) (id : Z) : outcome VMObject :=
  match vm_objects s !! id with Some o => Done o | None => Undef end.

Section system.
Context (reclaim : MemoryManager → outcome (Z * MemoryManager)) (fuel : nat).
(** The memory that [kmalloc] returns for a bitmap. *)
Context (raw : list Z).

(** A write fault on a page of the object: the page is read in when it is not
    present, copied when it is copy-on-write ([VMSpace::try_pagefault]). *)
Definition write_fault (o : VMObject) (page : Z) (mm : MemoryManager) (mem : frames)
    : outcome (VMObject * MemoryManager * frames) :=
  p ← physical_page_index o page;
  if negb (p =? 0) then
    c ← page_is_cow o page;
    if c : bool then
      '(r, o, mm, mem) ← try_cow_page reclaim fuel o page mm mem;
      Done (o, mm, mem)
    else Done (o, mm, mem)
  else
    '(r, o, mm, mem) ← anonymous_fault reclaim fuel o page mm mem;
    Done (o, mm, mem).

(** The processor stores a byte: only through a page that is present and
    mapped writable, that is, not copy-on-write. *)
Definition store_byte (o : VMObject) (page off b : Z) (mem : frames) : outcome frames :=
  p ← physical_page_index o page;
  c ← page_is_cow o page;
  if (p =? 0) || c then Undef
  else Done (<[p := <[Z.to_nat off := b]> (frame_of mem p)]> mem).

Inductive vm_op : Type :=
  | VNew (id n_pages : Z)
  | VClone (id new_id : Z)
  | VWrite (id page off b : Z)
  | VDestroy (id : Z).

Definition vm_step (op : vm_op) (s : vm_state) : outcome vm_state :=
  match op with
  | VNew id n_pages =>
      o ← anonymous_of_size raw n_pages false;
      Done (mk_vm (vm_mm s) (vm_mem s) (<[id := o]> (vm_objects s)))
  | VClone id new_id =>
      o ← get_object s id;
      '(r, o, mm) ← clone raw o (vm_mm s);
      match r with
      | Ok n => Done (mk_vm mm (vm_mem s) (<[new_id := n]> (<[id := o]> (vm_objects s))))
      | Err _ => Done (mk_vm mm (vm_mem s) (<[id := o]> (vm_objects s)))
      end
  | VWrite id page off b =>
      o ← get_object s id;
      '(o, mm, mem) ← write_fault o page (vm_mm s) (vm_mem s);
      mem ← store_byte o page off b mem;
      Done (mk_vm mm mem (<[id := o]> (vm_objects s)))
  | VDestroy id =>
      o ← get_object s id;
      mm ← unref_pages (o_pages o) (vm_mm s);
      Done (mk_vm mm (vm_mem s) (delete id (vm_objects s)))
  end.
End system.

(** What a user sees: every object has pages of its own. *)
Definition spec_step (op : vm_op) (v : gmap Z (list (list Z))) : gmap Z (list (list Z)) :=
  match op with
  | VNew id n_pages => <[id := replicate (Z.to_nat n_pages) zero_page]> v
  | VClone id new_id => match v !! id with Some l => <[new_id := l]> v | None => v end
  | VWrite id page off b =>
      match v !! id with
      | Some l => <[id := alter (<[Z.to_nat off := b]>) (Z.to_nat page) l]> v
      | None => v
      end
  | VDestroy id => delete id v
  end.

(** The calls the kernel makes: on objects that exist and pages inside them,
    with fresh numbers for new objects, and a bitmap that fits its memory. *)
Definition op_ok (raw : list Z) (op : vm_op) (s : vm_state) : bool :=
  match op with
  | VNew id n_pages => (0 <=? n_pages) && (bitmap_bytes n_pages <=? Z.of_nat (length raw)) &&
      negb (bool_decide (is_Some (vm_objects s !! id)))
  | VClone id new_id =>
      match vm_objects s !! id with
      | Some o => bitmap_bytes (Z.of_nat (length (o_pages o))) <=? Z.of_nat (length raw)
      | None => false
      end && negb (bool_decide (is_Some (vm_objects s !! new_id)))
  | VWrite id page _ _ =>
      match vm_objects s !! id with
      | Some o => (0 <=? page) && (page <? Z.of_nat (length (o_pages o)))
      | None => false
      end
  | VDestroy id => bool_decide (is_Some (vm_objects s !! id))
  end.

Lemma op_ok_spec raw op s : op_ok raw op s = true →
  match op with
  | VNew id n_pages => 0 ≤ n_pages ∧ bitmap_bytes n_pages ≤ Z.of_nat (length raw) ∧
      vm_objects s !! id = None
  | VClone id new_id => (∃ o, vm_objects s !! id = Some o ∧
      bitmap_bytes (Z.of_nat (length (o_pages o))) ≤ Z.of_nat (length raw)) ∧
      vm_objects s !! new_id = None
  | VWrite id page _ _ => ∃ o, vm_objects s !! id = Some o ∧ 0 ≤ page < Z.of_nat (length (o_pages o))
  | VDestroy id => is_Some (vm_objects s !! id)
  end.
Proof.
  assert (∀ id, negb (bool_decide (is_Some (vm_objects s !! id))) = true → vm_objects s !! id = None) as Hn.
  { intros id. case_bool_decide as Hs; [done|]. by rewrite eq_None_not_Some. }
  destruct op as [id n|id new_id|id page off b|id]; cbn [op_ok].
  - intros [[? ?]%andb_true_iff ?]%andb_true_iff. split_and!; [lia|lia|auto].
  - intros [Ho ?]%andb_true_iff. split; [|auto]. destruct (vm_objects s !! id) as [o|]; [|done].
    exists o. split; [done|lia].
  - destruct (vm_objects s !! id) as [o|]; [|done]. intros. exists o. split; [done|lia].
  - apply bool_decide_eq_true_1.
Qed.

(** A sequence of calls; a call the kernel does not make is outside the contract. *)
Fixpoint vm_run (reclaim : MemoryManager → outcome (Z * MemoryManager)) (fuel : nat) (raw : list Z)
    (ops : list vm_op) (s : vm_state) : outcome vm_state :=
  match ops with
  | [] => Done s
  | op :: ops =>
      if op_ok raw op s then s ← vm_step reclaim fuel raw op s; vm_run reclaim fuel raw ops s else Undef
  end.

(** *** Counting the references *)

Definition occ (p : Z) (l : list Z) : Z := Z.of_nat (length (filter (λ q, q = p) l)).
Definition slots (p : Z) (m : gmap Z VMObject) : Z := map_fold (λ _ o n, occ p (o_pages o) + n) 0 m.

Lemma occ_cons p q l : occ p (q :: l) = (if decide (q = p) then 1 else 0) + occ p l.
Proof. unfold occ. rewrite filter_cons. case_decide; cbn [length]; lia. Qed.

Lemma occ_nonneg p l : 0 ≤ occ p l.
Proof. unfold occ. lia. Qed.

Lemma occ_app p l1 l2 : occ p (l1 ++ l2) = occ p l1 + occ p l2.
Proof. unfold occ. rewrite filter_app, length_app. lia. Qed.

Lemma occ_pos p l i : l !! i = Some p → 1 ≤ occ p l.
Proof.
  intros Hi. rewrite <-(take_drop_middle l i p Hi), occ_app, occ_cons, decide_True by done.
  pose proof (occ_nonneg p (take i l)). pose proof (occ_nonneg p (drop (S i) l)). lia.
Qed.

Lemma occ_insert p l i q r : l !! i = Some q →
  occ p (<[i := r]> l) = occ p l - (if decide (q = p) then 1 else 0) + (if decide (r = p) then 1 else 0).
Proof.
  intros Hi. rewrite <-(take_drop_middle l i q Hi) at 2. pose proof (lookup_lt_Some _ _ _ Hi).
  rewrite (insert_take_drop _ _ _ H), !occ_app, !occ_cons. lia.
Qed.

Lemma occ_two p l i j : l !! i = Some p → l !! j = Some p → i ≠ j → 2 ≤ occ p l.
Proof.
  intros Hi Hj Hne. assert (<[i := p + 1]> l !! j = Some p) as Hj' by (by rewrite list_lookup_insert_ne).
  apply occ_pos in Hj'. rewrite (occ_insert p l i p (p + 1) Hi), decide_True, decide_False in Hj' by (done || lia).
  lia.
Qed.

Lemma slots_insert p m id o : m !! id = None → slots p (<[id := o]> m) = occ p (o_pages o) + slots p m.
Proof. intros. unfold slots. rewrite map_fold_insert_L; [done|intros; lia|done]. Qed.

Lemma slots_delete p m id o : m !! id = Some o → slots p (delete id m) = slots p m - occ p (o_pages o).
Proof.
  intros Hi. rewrite <-(insert_delete_id m id o Hi) at 2. rewrite slots_insert by apply lookup_delete_eq. lia.
Qed.

Lemma slots_update p m id o o' : m !! id = Some o →
  slots p (<[id := o']> m) = slots p m - occ p (o_pages o) + occ p (o_pages o').
Proof.
  intros Hi. rewrite <-insert_delete_eq, slots_insert by apply lookup_delete_eq.
  rewrite (slots_delete _ _ _ o) by done. lia.
Qed.

Lemma slots_nonneg p m : 0 ≤ slots p m.
Proof.
  induction m as [|id o m Hn IH] using map_ind; [done|]. rewrite slots_insert by done.
  pose proof (occ_nonneg p (o_pages o)). lia.
Qed.

Lemma slots_ge p m id o : m !! id = Some o → occ p (o_pages o) ≤ slots p m.
Proof. intros Hi. pose proof (slots_delete p m id o Hi). pose proof (slots_nonneg p (delete id m)). lia. Qed.

(** *** The invariant *)

(** An object's bits: a page that is not present is not copy-on-write; a page
    that is writable is referenced from nowhere else. *)
Definition object_ok (R : gmap Z Z) (o : VMObject) (f : Z → bool) : Prop :=
  bm_rep (o_cow o) (Z.of_nat (length (o_pages o))) f ∧
  (∀ i p, o_pages o !! i = Some p → (p = 0 → f (Z.of_nat i) = false) ∧
     (p ≠ 0 → f (Z.of_nat i) = false → R !! p = Some 1)) ∧
  ∃ a, o_sub o = AnonymousObject a ∧ m_is_shared a = false.

Definition counts_ok (R : gmap Z Z) (m : gmap Z VMObject) : Prop :=
  ∀ p, p ≠ 0 → default 0 (R !! p) = slots p m.

Section invariant.
Context {reclaim : MemoryManager → outcome (Z * MemoryManager)} {fuel : nat}.
Context {inv : MemoryManager → gmap Z Z → Prop} {FA : FrameAllocator reclaim fuel inv}.

Definition vm_inv (s : vm_state) (R : gmap Z Z) : Prop :=
  inv (vm_mm s) R ∧ counts_ok R (vm_objects s) ∧
  ∀ id o, vm_objects s !! id = Some o → ∃ f, object_ok R o f.

(** A page of an object that is present is in use. *)
Lemma slot_count s R id o i p : vm_inv s R → vm_objects s !! id = Some o → o_pages o !! i = Some p →
  p ≠ 0 → ∃ n, R !! p = Some n ∧ n = slots p (vm_objects s).
Proof.
  intros (Hi&Hc&_) Ho Hp Hp0. specialize (Hc p Hp0). pose proof (slots_ge p _ _ _ Ho).
  pose proof (occ_pos _ _ _ Hp). destruct (R !! p) as [n|] eqn:Hr; cbn in Hc; [by exists n|lia].
Qed.

(** A page that is not in use is in no object. *)
Lemma fresh_not_slot s R p id o : vm_inv s R → p ≠ 0 → R !! p = None → vm_objects s !! id = Some o →
  occ p (o_pages o) = 0.
Proof.
  intros (_&Hc&_) Hp Hr Ho. specialize (Hc p Hp). rewrite Hr in Hc. cbn in Hc.
  pose proof (slots_ge p _ _ _ Ho). pose proof (occ_nonneg p (o_pages o)). lia.
Qed.

(** A page with one reference is in no other object. *)
Lemma single_not_other s R p id o id' o' : vm_inv s R → p ≠ 0 → R !! p = Some 1 →
  vm_objects s !! id = Some o → 1 ≤ occ p (o_pages o) → id' ≠ id → vm_objects s !! id' = Some o' →
  occ p (o_pages o) = 1 ∧ occ p (o_pages o') = 0.
Proof.
  intros (_&Hc&_) Hp Hr Ho Hocc Hne Ho'. specialize (Hc p Hp). rewrite Hr in Hc. cbn in Hc.
  pose proof (slots_delete p _ _ _ Ho) as Hd.
  assert (delete id (vm_objects s) !! id' = Some o') as Ho2 by (by rewrite lookup_delete_ne).
  pose proof (slots_ge p _ _ _ Ho2). pose proof (occ_nonneg p (o_pages o')). lia.
Qed.

(** *** What the frames show *)

Lemma view_other (mem : frames) p c l : occ p l = 0 → page_view (<[p := c]> mem) <$> l = page_view mem <$> l.
Proof.
  induction l as [|q l IH]; [done|]. rewrite occ_cons. pose proof (occ_nonneg p l). case_decide; [lia|].
  intros. cbn. rewrite IH by lia. f_equal. unfold page_view, frame_of. by rewrite lookup_insert_ne by done.
Qed.

Lemma page_view_insert (mem : frames) p c : p ≠ 0 → page_view (<[p := c]> mem) p = c.
Proof.
  intros. unfold page_view, frame_of. by rewrite (proj2 (Z.eqb_neq p 0)), lookup_insert_eq by done.
Qed.

(** A page that occurs once: the object shows the change in one place. *)
Lemma view_single (mem : frames) p c l i : p ≠ 0 → l !! i = Some p → occ p l = 1 →
  page_view (<[p := c]> mem) <$> l = <[i := c]> (page_view mem <$> l).
Proof.
  intros Hp Hi Ho. pose proof (lookup_lt_Some _ _ _ Hi) as Hlt.
  rewrite <-(take_drop_middle l i p Hi) in Ho. rewrite occ_app, occ_cons, decide_True in Ho by done.
  pose proof (occ_nonneg p (take i l)). pose proof (occ_nonneg p (drop (S i) l)).
  rewrite <-(take_drop_middle l i p Hi) at 1.
  rewrite fmap_app, fmap_cons, !view_other, page_view_insert by (done || lia).
  rewrite insert_take_drop by (by rewrite length_fmap). by rewrite fmap_take, fmap_drop.
Qed.

(** A page of the object replaced by one that shows the same. *)
Lemma view_replace (mem : frames) (l : list Z) (i : nat) q p : l !! i = Some q → page_view mem p = page_view mem q →
  page_view mem <$> <[i := p]> l = page_view mem <$> l.
Proof.
  intros Hi Hv. rewrite list_fmap_insert, Hv. apply list_insert_id. by rewrite list_lookup_fmap, Hi.
Qed.

(** *** A new page in a slot *)

(** The slot [i] of an object gets a page [p] that was not in use and shows
    what the slot showed before; the reference to its page [q] is dropped. *)
Lemma install_counts s R id o i q p R' o' :
  vm_inv s R → vm_objects s !! id = Some o → o_pages o !! i = Some q → 1 ≤ p → R !! p = None →
  R' !! p = Some 1 → (∀ r, r ≠ 0 → r ≠ p → default 0 (R' !! r) = default 0 (R !! r) - (if decide (q = r) then 1 else 0)) →
  o_pages o' = <[i := p]> (o_pages o) → counts_ok R' (<[id := o']> (vm_objects s)).
Proof.
  intros Hv Ho Hq Hp Hfresh Hp' Hrest Hl r Hr. pose proof (proj1 (proj2 Hv) r Hr) as Hc.
  rewrite (slots_update r _ id o o' Ho), Hl, (occ_insert r _ i q p Hq).
  destruct (decide (p = r)) as [<-|Hne].
  - rewrite Hp'. rewrite Hfresh in Hc. cbn in Hc |- *.
    rewrite decide_False; [lia|]. intros ->. pose proof (fresh_not_slot s R p id o Hv Hr Hfresh Ho).
    pose proof (occ_pos _ _ _ Hq). lia.
  - rewrite Hrest by congruence. lia.
Qed.

Lemma install_other (R R' : gmap Z Z) q p r n : R !! p = None → R' !! p = Some 1 →
  (∀ r, r ≠ 0 → r ≠ p → default 0 (R' !! r) = default 0 (R !! r) - (if decide (q = r) then 1 else 0)) →
  r ≠ 0 → r ≠ q → R !! r = Some n → n ≠ 0 → R' !! r = Some n.
Proof.
  intros Hfresh Hp Hrest Hr0 Hrq Hr Hn. assert (r ≠ p) by congruence.
  specialize (Hrest r Hr0 ltac:(done)). rewrite Hr, decide_False in Hrest by congruence.
  cbn in Hrest. destruct (R' !! r); cbn in Hrest; [f_equal; lia|lia].
Qed.

Lemma install_ok s R id o f i q p R' o' mm' :
  vm_inv s R → vm_objects s !! id = Some o → object_ok R o f → o_pages o !! i = Some q →
  1 ≤ p → R !! p = None → inv mm' R' → R' !! p = Some 1 →
  (∀ r, r ≠ 0 → r ≠ p → default 0 (R' !! r) = default 0 (R !! r) - (if decide (q = r) then 1 else 0)) →
  o_pages o' = <[i := p]> (o_pages o) →
  bm_rep (o_cow o') (Z.of_nat (length (o_pages o))) (λ j, if j =? Z.of_nat i then false else f j) →
  (∃ a, o_sub o' = AnonymousObject a ∧ m_is_shared a = false) →
  object_ok R' o' (λ j, if j =? Z.of_nat i then false else f j) ∧
  vm_inv (mk_vm mm' (<[p := page_view (vm_mem s) q]> (vm_mem s)) (<[id := o']> (vm_objects s))) R'.
Proof.
  intros Hv Ho (_&Hf&_) Hq Hp Hfresh Hinv Hp' Hrest Hl Hbm Hsub.
  pose proof (lookup_lt_Some _ _ _ Hq) as Hlt.
  assert (object_ok R' o' (λ j, if j =? Z.of_nat i then false else f j)) as Hok'.
  { split_and!; [by rewrite Hl, length_insert| |done]. intros j r. rewrite Hl. intros Hj.
    destruct (decide (j = i)) as [->|Hji].
    - rewrite list_lookup_insert_eq in Hj by done. injection Hj as <-. rewrite Z.eqb_refl. done.
    - rewrite list_lookup_insert_ne in Hj by done. rewrite (proj2 (Z.eqb_neq _ _)) by lia.
      destruct (Hf j r Hj) as [Hf0 Hf1]. split; [done|]. intros Hr0 Hfj.
      specialize (Hf1 Hr0 Hfj). eapply install_other; try done.
      intros ->. pose proof (occ_two q _ _ _ Hj Hq Hji). pose proof (slots_ge q _ _ _ Ho).
      pose proof (proj1 (proj2 Hv) q Hr0) as Hc. rewrite Hf1 in Hc. cbn in Hc. lia. }
  split; [done|]. split_and!; [done|by eapply install_counts|]. cbn [vm_objects].
  intros id' o1 [[<- <-]|[Hne Ho1]]%lookup_insert_Some; [by eexists|].
  destruct (proj2 (proj2 Hv) id' o1 Ho1) as (f1&Hb1&Hf1&Hs1). exists f1. split_and!; [done| |done].
  intros j r Hj. destruct (Hf1 j r Hj) as [Hf0 Hf2]. split; [done|]. intros Hr0 Hfj.
  specialize (Hf2 Hr0 Hfj). eapply install_other; try done. intros ->.
  pose proof (occ_pos _ _ _ Hq) as Hge.
  destruct (single_not_other s R q id o id' o1 Hv Hr0 Hf2 Ho Hge ltac:(done) Ho1) as [_ H0].
  pose proof (occ_pos _ _ _ Hj). lia.
Qed.

(** The new page shows what the old one showed, so nothing is seen of it. *)
Lemma install_view s R id o i q p o' mm' : vm_inv s R → vm_objects s !! id = Some o →
  o_pages o !! i = Some q → 1 ≤ p → R !! p = None → o_pages o' = <[i := p]> (o_pages o) →
  vm_view (mk_vm mm' (<[p := page_view (vm_mem s) q]> (vm_mem s)) (<[id := o']> (vm_objects s))) = vm_view s.
Proof.
  intros Hv Ho Hq Hp Hfresh Hl. unfold vm_view. cbn [vm_mem vm_objects]. apply map_eq. intros id'.
  rewrite !lookup_fmap. destruct (decide (id' = id)) as [->|Hne].
  - rewrite lookup_insert_eq, Ho. cbn [fmap option_fmap option_map]. f_equal.
    unfold object_view. rewrite Hl, list_fmap_insert, page_view_insert by lia.
    rewrite view_other by (eapply fresh_not_slot; done || lia).
    apply list_insert_id. by rewrite list_lookup_fmap, Hq.
  - rewrite lookup_insert_ne by done. destruct (vm_objects s !! id') as [o1|] eqn:Ho1; [|done].
    cbn [fmap option_fmap option_map]. f_equal. apply view_other. eapply fresh_not_slot; (done || lia).
Qed.

(** *** Faults *)

Lemma vec_get_Done l i p : l !! i = Some p → vec_get l (Z.of_nat i) = Done p.
Proof.
  intros Hi. unfold vec_get. pose proof (lookup_lt_Some _ _ _ Hi).
  rewrite (proj2 (Z.ltb_lt _ _)) by lia. by rewrite Nat2Z.id, Hi.
Qed.

Lemma vec_set_Done l i v : (i < length l)%nat → vec_set l (Z.of_nat i) v = Done (<[i := v]> l).
Proof. intros. unfold vec_set. rewrite (proj2 (Z.ltb_lt _ _)) by lia. by rewrite Nat2Z.id. Qed.

(** A page that can be stored to: present, and its bit clear. *)
Definition writable (R : gmap Z Z) (o : VMObject) (i : nat) : Prop :=
  ∃ p f, o_pages o !! i = Some p ∧ p ≠ 0 ∧ object_ok R o f ∧ f (Z.of_nat i) = false.

(** A computation that does not end because no page can be allocated. *)
Definition no_page {A} (s : vm_state) (res : outcome A) : Prop :=
  (∀ r, alloc_physical_page reclaim fuel (vm_mm s) ≠ Done r) ∧ ∀ a, res ≠ Done a.

(** What handling a fault gives: the same contents, and a writable page. *)
Definition fault_ok (s : vm_state) (id : Z) (o : VMObject) (i : nat)
    (res : outcome (VMObject * MemoryManager * frames)) : Prop :=
  ∃ o' mm' mem' R', res = Done (o', mm', mem') ∧
    vm_inv (mk_vm mm' mem' (<[id := o']> (vm_objects s))) R' ∧
    vm_view (mk_vm mm' mem' (<[id := o']> (vm_objects s))) = vm_view s ∧ writable R' o' i.

Lemma try_cow_page_eq o f n i p mm mem : bm_rep (o_cow o) n f → Z.of_nat i < n →
  o_pages o !! i = Some p → p ≠ 0 → f (Z.of_nat i) = true →
  try_cow_page reclaim fuel o (Z.of_nat i) mm mem =
    ('(new_page, mm) ← alloc_physical_page reclaim fuel mm;
     '(o, mm) ← cow_commit o mm (Z.of_nat i) new_page;
     Done (Ok tt, o, mm, copy_page mem p new_page)).
Proof.
  intros Hbm Hn Hp Hp0 Hfi. pose proof (lookup_lt_Some _ _ _ Hp).
  unfold try_cow_page, cow_check, page_is_cow. rewrite (proj2 (Z.ltb_lt _ _)) by lia.
  cbn [kassert mbind outcome_bind]. rewrite (bm_get _ _ _ _ Hbm) by lia. rewrite Hfi. cbn [negb mbind outcome_bind].
  rewrite (vec_get_Done _ _ _ Hp). cbn [mbind outcome_bind]. by rewrite (proj2 (Z.eqb_neq p 0)) by done.
Qed.

Lemma cow_commit_eq o f n i p mm p' mm' : bm_rep (o_cow o) n f → Z.of_nat i < n →
  o_pages o !! i = Some p → f (Z.of_nat i) = true → mm_unref mm p = Done mm' →
  ∃ b, cow_commit o mm (Z.of_nat i) p' = Done (set_cow (set_pages o (<[i := p']> (o_pages o))) b, mm') ∧
    bm_rep b n (λ j, if j =? Z.of_nat i then false else f j).
Proof.
  intros Hbm Hn Hp Hfi Hun. pose proof (lookup_lt_Some _ _ _ Hp) as Hlt.
  destruct (bm_set _ _ f (Z.of_nat i) false Hbm ltac:(lia)) as (b&Hb&Hbm').
  exists b. split; [|done]. unfold cow_commit, page_is_cow. rewrite (bm_get _ _ _ _ Hbm) by lia.
  rewrite Hfi. cbn [negb mbind outcome_bind].
  rewrite (vec_get_Done _ _ _ Hp). cbn [mbind outcome_bind]. rewrite Hun. cbn [mbind outcome_bind].
  rewrite (vec_set_Done _ _ _ Hlt). cbn [mbind outcome_bind]. by rewrite Hb.
Qed.

Lemma cow_fault_ok s R id o f i p : vm_inv s R → vm_objects s !! id = Some o → object_ok R o f →
  o_pages o !! i = Some p → p ≠ 0 → f (Z.of_nat i) = true →
  no_page s (try_cow_page reclaim fuel o (Z.of_nat i) (vm_mm s) (vm_mem s)) ∨
  fault_ok s id o i ('(r, o, mm, mem) ← try_cow_page reclaim fuel o (Z.of_nat i) (vm_mm s) (vm_mem s);
                     Done (o, mm, mem)).
Proof.
  intros Hv Ho Hok Hp Hp0 Hfi. pose proof Hok as (Hbm&_&a&Ha&Hsh). pose proof (lookup_lt_Some _ _ _ Hp) as Hlt.
  rewrite (try_cow_page_eq o f (Z.of_nat (length (o_pages o))) i p _ _ Hbm ltac:(lia) Hp Hp0 Hfi). unfold no_page, fault_ok.
  destruct (alloc_physical_page reclaim fuel (vm_mm s)) as [[p' mm1]| | |] eqn:Hal; [right|by left..].
  destruct (fa_alloc _ _ _ _ (proj1 Hv) Hal) as (Hp1&Hfresh&Hinv1).
  destruct (slot_count s R id o i p Hv Ho Hp Hp0) as (n&Hn&_).
  assert (p' ≠ p) by congruence.
  destruct (fa_unref mm1 _ p n Hinv1 ltac:(by rewrite lookup_insert_ne)) as (mm2&Hun&Hinv2).
  cbn [mbind outcome_bind].
  destruct (cow_commit_eq o f (Z.of_nat (length (o_pages o))) i p mm1 p' mm2 Hbm ltac:(lia) Hp Hfi Hun) as (b'&->&Hbm').
  cbn [mbind outcome_bind]. unfold copy_page. replace (frame_of (vm_mem s) p) with (page_view (vm_mem s) p)
    by (unfold page_view; by rewrite (proj2 (Z.eqb_neq p 0))).
  set (o' := set_cow (set_pages o (<[i := p']> (o_pages o))) b').
  set (R' := if n =? 1 then delete p (<[p' := 1]> R) else <[p := n - 1]> (<[p' := 1]> R)) in *.
  destruct (install_ok s R id o f i p p' R' o' mm2) as [Hok' Hv']; try done.
  { unfold R'. case_match; [rewrite lookup_delete_ne by done|rewrite lookup_insert_ne by done]; apply lookup_insert_eq. }
  { intros r Hr Hrp. unfold R'. destruct (Z.eqb_spec n 1) as [->|]; case_decide as Hpr; subst.
    - by rewrite lookup_delete_eq, Hn.
    - rewrite lookup_delete_ne, lookup_insert_ne by done. lia.
    - by rewrite lookup_insert_eq, Hn.
    - rewrite !lookup_insert_ne by done. lia. }
  { by exists a. }
  eexists _, _, _, R'. split; [done|]. split_and!; [done|by eapply install_view|].
  exists p', (λ j, if j =? Z.of_nat i then false else f j). rewrite Z.eqb_refl.
  split_and!; [by apply list_lookup_insert_eq|lia|done|done].
Qed.

Lemma anonymous_fault_eq o i mm mem : o_pages o !! i = Some 0 →
  anonymous_fault reclaim fuel o (Z.of_nat i) mm mem =
    ('(new_page, mm) ← alloc_physical_page reclaim fuel mm;
     Done (Ok true, committed_one_more (set_pages o (<[i := new_page]> (o_pages o))), mm,
           <[new_page := zero_page]> mem)).
Proof.
  intros Hp. pose proof (lookup_lt_Some _ _ _ Hp) as Hlt.
  unfold anonymous_fault. rewrite (proj2 (Z.ltb_ge _ _)) by lia.
  rewrite (vec_get_Done _ _ _ Hp). cbn [mbind outcome_bind]. rewrite Z.eqb_refl. cbn [negb].
  destruct (alloc_physical_page reclaim fuel mm) as [[p' mm1]| | |]; [|done..].
  cbn [mbind outcome_bind]. unfold fault_commit. rewrite (vec_get_Done _ _ _ Hp). cbn [mbind outcome_bind].
  rewrite Z.eqb_refl. cbn [negb]. by rewrite (vec_set_Done _ _ _ Hlt).
Qed.

Lemma zero_fault_ok s R id o f i : vm_inv s R → vm_objects s !! id = Some o → object_ok R o f →
  o_pages o !! i = Some 0 →
  no_page s (anonymous_fault reclaim fuel o (Z.of_nat i) (vm_mm s) (vm_mem s)) ∨
  fault_ok s id o i ('(r, o, mm, mem) ← anonymous_fault reclaim fuel o (Z.of_nat i) (vm_mm s) (vm_mem s);
                     Done (o, mm, mem)).
Proof.
  intros Hv Ho Hok Hp. pose proof Hok as (Hbm&Hf&a&Ha&Hsh). pose proof (lookup_lt_Some _ _ _ Hp) as Hlt.
  rewrite (anonymous_fault_eq _ _ _ _ Hp). unfold no_page, fault_ok.
  destruct (alloc_physical_page reclaim fuel (vm_mm s)) as [[p' mm1]| | |] eqn:Hal; [right|by left..].
  destruct (fa_alloc _ _ _ _ (proj1 Hv) Hal) as (Hp1&Hfresh&Hinv1). cbn [mbind outcome_bind].
  change zero_page with (page_view (vm_mem s) 0).
  set (o' := committed_one_more (set_pages o (<[i := p']> (o_pages o)))).
  assert (o_pages o' = <[i := p']> (o_pages o) ∧ o_cow o' = o_cow o ∧
    ∃ a, o_sub o' = AnonymousObject a ∧ m_is_shared a = false) as (Hl&Hc&Hs).
  { unfold o', committed_one_more. cbn [set_pages o_sub]. rewrite Ha. cbn. split_and!; [done|done|].
    by eexists. }
  destruct (install_ok s R id o f i 0 p' (<[p' := 1]> R) o' mm1) as [Hok' Hv']; try done.
  { apply lookup_insert_eq. }
  { intros r Hr Hrp. rewrite lookup_insert_ne, decide_False by done. lia. }
  { rewrite Hc. destruct Hbm as (bytes&?&?&Hbits). exists bytes. split_and!; [done|done|].
    intros j Hj. destruct (Hbits j Hj) as (byte&?&Hby). exists byte. split; [done|]. rewrite Hby.
    destruct (Z.eqb_spec j (Z.of_nat i)) as [->|]; [by apply (Hf i 0)|done]. }
  eexists _, _, _, _. split; [done|]. split_and!; [done|by eapply install_view|].
  exists p', (λ j, if j =? Z.of_nat i then false else f j). rewrite Z.eqb_refl, Hl.
  split_and!; [by apply list_lookup_insert_eq|lia|done|done].
Qed.

Lemma write_fault_ok s R id o i : vm_inv s R → vm_objects s !! id = Some o → (i < length (o_pages o))%nat →
  no_page s (write_fault reclaim fuel o (Z.of_nat i) (vm_mm s) (vm_mem s)) ∨
  fault_ok s id o i (write_fault reclaim fuel o (Z.of_nat i) (vm_mm s) (vm_mem s)).
Proof.
  intros Hv Ho Hi. destruct (lookup_lt_is_Some_2 _ _ Hi) as [p Hp].
  destruct (proj2 (proj2 Hv) id o Ho) as (f&Hok). pose proof Hok as (Hbm&_).
  unfold write_fault, physical_page_index, page_is_cow. rewrite (vec_get_Done _ _ _ Hp). cbn [mbind outcome_bind].
  destruct (Z.eqb_spec p 0) as [->|Hp0]; cbn [negb].
  { destruct (zero_fault_ok s R id o f i Hv Ho Hok Hp) as [[? Hno]|?]; [left|by right].
    split; [done|]. intros a (r&Hr&_)%bind_Done. by eapply Hno. }
  rewrite (bm_get _ _ _ _ Hbm) by lia. cbn [mbind outcome_bind].
  destruct (f (Z.of_nat i)) eqn:Hfi.
  { destruct (cow_fault_ok s R id o f i p Hv Ho Hok Hp Hp0 Hfi) as [[? Hno]|?]; [left|by right].
    split; [done|]. intros a (r&Hr&_)%bind_Done. by eapply Hno. }
  right.
  eexists _, _, _, R. split; [done|].
  assert (mk_vm (vm_mm s) (vm_mem s) (<[id := o]> (vm_objects s)) = s) as ->.
  { rewrite insert_id by done. by destruct s. }
  split_and!; [done|done|]. by exists p, f.
Qed.

(** *** Stores *)

Lemma store_ok s R id o i off b : vm_inv s R → vm_objects s !! id = Some o → writable R o i →
  ∃ mem', store_byte o (Z.of_nat i) off b (vm_mem s) = Done mem' ∧
    vm_view (mk_vm (vm_mm s) mem' (vm_objects s)) =
      spec_step (VWrite id (Z.of_nat i) off b) (vm_view s).
Proof.
  intros Hv Ho (p&f&Hp&Hp0&(Hbm&Hf&_)&Hfi). pose proof (lookup_lt_Some _ _ _ Hp).
  unfold store_byte, physical_page_index, page_is_cow. rewrite (vec_get_Done _ _ _ Hp). cbn [mbind outcome_bind].
  rewrite (bm_get _ _ _ _ Hbm) by lia. rewrite Hfi. cbn [mbind outcome_bind].
  rewrite (proj2 (Z.eqb_neq p 0)) by done. cbn [orb]. eexists. split; [done|].
  pose proof (proj2 (Hf i p Hp) Hp0 Hfi) as H1. pose proof (occ_pos _ _ _ Hp) as Hge.
  pose proof (proj1 (proj2 Hv) p Hp0) as Hc. rewrite H1 in Hc. cbn in Hc.
  pose proof (slots_ge p _ _ _ Ho).
  unfold vm_view. cbn [vm_mem vm_objects spec_step]. rewrite lookup_fmap, Ho. cbn [fmap option_fmap option_map].
  apply map_eq. intros id'. rewrite lookup_fmap. destruct (decide (id' = id)) as [->|Hne].
  - rewrite lookup_insert_eq, Ho. cbn [fmap option_fmap option_map]. f_equal. unfold object_view.
    rewrite (view_single _ _ _ _ i) by (done || lia).
    replace (frame_of (vm_mem s) p) with (page_view (vm_mem s) p)
      by (unfold page_view; by rewrite (proj2 (Z.eqb_neq p 0))).
    rewrite Nat2Z.id. apply list_eq. intros j. destruct (decide (j = i)) as [->|].
    + rewrite list_lookup_insert_eq by (by rewrite length_fmap).
      rewrite list_lookup_alter_eq, list_lookup_fmap, Hp. done.
    + by rewrite list_lookup_insert_ne, list_lookup_alter_ne by done.
  - rewrite lookup_insert_ne, lookup_fmap by done.
    destruct (vm_objects s !! id') as [o1|] eqn:Ho1; [|done]. cbn [fmap option_fmap option_map]. f_equal.
    apply view_other. by eapply (single_not_other s R p id o id' o1).
Qed.

(** *** Cloning *)

Definition present (l : list Z) (j : Z) : bool :=
  match l !! Z.to_nat j with Some p => negb (p =? 0) | None => false end.

Lemma present_at l i p : l !! i = Some p → present l (Z.of_nat i) = negb (p =? 0).
Proof. intros Hi. unfold present. by rewrite Nat2Z.id, Hi. Qed.

(** The bits after the first [k] pages have been marked. *)
Definition marked (l : list Z) (f : Z → bool) (k : nat) (j : Z) : bool :=
  if j <? Z.of_nat k then present l j || f j else f j.

Lemma marked_step l f k p b n : l !! k = Some p → bm_rep b n (marked l f k) → Z.of_nat k < n →
  if p =? 0 then bm_rep b n (marked l f (S k))
  else ∃ b', set b (Z.of_nat k) true = Done b' ∧ bm_rep b' n (marked l f (S k)).
Proof.
  intros Hk Hb Hn. pose proof (present_at _ _ _ Hk) as Hpr. destruct (Z.eqb_spec p 0) as [->|Hp].
  - eapply bm_rep_ext; [|done]. intros j Hj. unfold marked. zbool; try (done || lia).
    replace j with (Z.of_nat k) by lia. by rewrite Hpr.
  - destruct (bm_set _ _ _ (Z.of_nat k) true Hb ltac:(lia)) as (b'&Hs&Hb'). exists b'. split; [done|].
    eapply bm_rep_ext; [|done]. intros j Hj. unfold marked. cbn beta. zbool; try (done || lia).
    replace j with (Z.of_nat k) by lia. by rewrite Hpr.
Qed.

Lemma mark_cow_ok l b : bm_rep b (Z.of_nat (length l)) (λ _, false) →
  ∃ b', mark_cow l b = Done b' ∧ bm_rep b' (Z.of_nat (length l)) (present l).
Proof.
  intros Hb. unfold mark_cow.
  destruct (for_range_inv (λ k b, bm_rep b (Z.of_nat (length l)) (marked l (λ _, false) k)) (length l)
    (λ i b, p ← vec_get l i; if p =? 0 then Done b else set b i true) 0 b 0%nat) as (b'&Hr&Hb').
  - eapply bm_rep_ext; [|done]. intros j Hj. unfold marked. by rewrite (proj2 (Z.ltb_ge _ _)) by lia.
  - intros j b1 Hj Hb1. destruct (lookup_lt_is_Some_2 l j) as [p Hp]; [lia|].
    replace (0 + Z.of_nat (j - 0)) with (Z.of_nat j) by lia.
    rewrite (vec_get_Done _ _ _ Hp). cbn [mbind outcome_bind].
    pose proof (marked_step _ _ _ _ _ _ Hp Hb1 ltac:(lia)) as Hm. destruct (p =? 0); [by exists b1|done].
  - exists b'. split; [done|]. eapply bm_rep_ext; [|done]. intros j Hj. unfold marked. cbn [Nat.add].
    rewrite (proj2 (Z.ltb_lt _ _)) by lia. by rewrite orb_false_r.
Qed.

(** The references after the pages [l] have been referenced once more each. *)
Definition bumped (R : gmap Z Z) (l : list Z) (R' : gmap Z Z) : Prop :=
  ∀ p, p ≠ 0 → R' !! p = (λ n, n + occ p l) <$> R !! p.

Lemma bumped_step R l k p R1 : l !! k = Some p → bumped R (take k l) R1 →
  if p =? 0 then bumped R (take (S k) l) R1
  else ∀ n, R !! p = Some n → bumped R (take (S k) l) (<[p := n + occ p (take k l) + 1]> R1).
Proof.
  intros Hk Hb. rewrite (take_S_r _ _ _ Hk). destruct (Z.eqb_spec p 0) as [->|Hp].
  - intros q Hq. rewrite Hb, occ_app, occ_cons, decide_False by done. unfold occ at 3. cbn.
    destruct (R !! q); [|done]. cbn. f_equal. lia.
  - intros n Hn q Hq. rewrite occ_app, occ_cons. unfold occ at 3. cbn. destruct (decide (p = q)) as [<-|].
    + rewrite lookup_insert_eq, Hn. cbn. f_equal. lia.
    + rewrite lookup_insert_ne, Hb by done. destruct (R !! q); [|done]. cbn. f_equal. lia.
Qed.

Lemma occ_take p l k q : l !! k = Some q → occ p (take k l) + (if decide (q = p) then 1 else 0) ≤ occ p l.
Proof.
  intros Hk. rewrite <-(take_drop_middle l k q Hk) at 2. rewrite occ_app, occ_cons.
  pose proof (occ_nonneg p (drop (S k) l)). lia.
Qed.

(** No count is so high that another set of references would overflow it. *)
Definition room (R : gmap Z Z) (l : list Z) : Prop := map_Forall (λ p n, p = 0 ∨ n + occ p l ≤ 65535) R.

#[export] Instance room_dec R l : Decision (room R l).
Proof. unfold room. apply _. Defined.

Lemma become_cow_ok o mm R f : inv mm R → bm_rep (o_cow o) (Z.of_nat (length (o_pages o))) f →
  (∀ i p, o_pages o !! i = Some p → p ≠ 0 → is_Some (R !! p)) → room R (o_pages o) →
  ∃ b mm' R', become_cow_and_ref_pages o mm = Done (set_cow o b, mm') ∧ inv mm' R' ∧
    bumped R (o_pages o) R' ∧
    bm_rep b (Z.of_nat (length (o_pages o))) (marked (o_pages o) f (length (o_pages o))).
Proof.
  intros Hi Hb Hin Hroom. unfold become_cow_and_ref_pages. set (l := o_pages o) in *.
  match goal with |- context [for_range _ _ ?body _] => destruct (for_range_inv
    (λ k '(b, mm), bm_rep b (Z.of_nat (length l)) (marked l f k) ∧ ∃ R', inv mm R' ∧ bumped R (take k l) R')
    (length l) body 0 (o_cow o, mm) 0%nat) as ([b' mm']&Hr&Hb'&R'&Hi'&Hbump) end.
  - split.
    + eapply bm_rep_ext; [|done]. intros j Hj. unfold marked. by rewrite (proj2 (Z.ltb_ge _ _)) by lia.
    + exists R. split; [done|]. intros p Hp. rewrite take_0. destruct (R !! p); cbn; [|done]. f_equal. unfold occ. cbn. lia.
  - intros j [b1 mm1] Hj (Hb1&R1&Hi1&Hbump1). destruct (lookup_lt_is_Some_2 l j) as [p Hp]; [lia|].
    replace (0 + Z.of_nat (j - 0)) with (Z.of_nat j) by lia.
    rewrite (vec_get_Done _ _ _ Hp). cbn [mbind outcome_bind].
    pose proof (marked_step _ _ _ _ _ _ Hp Hb1 ltac:(lia)) as Hm.
    pose proof (bumped_step _ _ _ _ _ Hp Hbump1) as Hbs.
    destruct (Z.eqb_spec p 0) as [|Hp0]; [exists (b1, mm1); split; [done|]; split; [done|]; by exists R1|].
    destruct Hm as (b2&->&Hb2). cbn [mbind outcome_bind].
    destruct (Hin j p Hp Hp0) as [n Hn]. destruct (Hroom p n Hn) as [?|Hle]; [done|].
    pose proof (occ_take p l j p Hp) as Ht. rewrite decide_True in Ht by done.
    destruct (fa_ref mm1 R1 p (n + occ p (take j l)) Hi1) as (mm2&->&Hi2);
      [by rewrite Hbump1, Hn|lia|].
    eexists (_, _). split; [done|]. split; [done|]. eexists. split; [done|]. by apply Hbs.
  - rewrite Hr. cbn [mbind outcome_bind]. exists b', mm', R'. cbn [Nat.add] in *.
    rewrite firstn_all in Hbump. done.
Qed.

(** A loop that ends leaves every count within 16 bits. *)
Lemma become_cow_room o mm R res : inv mm R →
  (∀ i p, o_pages o !! i = Some p → p ≠ 0 → is_Some (R !! p)) →
  become_cow_and_ref_pages o mm = Done res → room R (o_pages o).
Proof.
  intros Hi Hin Hd. unfold become_cow_and_ref_pages in Hd. apply bind_Done in Hd as ([b' mm']&Hd&_).
  set (l := o_pages o) in *.
  eapply (for_range_done (λ k '(b, mm), ∃ R', inv mm R' ∧ bumped R (take k l) R') _ _ _ _ 0%nat) in Hd
    as (R'&Hi'&Hb').
  - cbn [Nat.add] in Hb'. rewrite firstn_all in Hb'. intros p n Hn. destruct (decide (p = 0)); [by left|right].
    assert (R' !! p = Some (n + occ p l)) as Hp by (by rewrite Hb', Hn).
    destruct (fa_count _ _ _ _ Hi' Hp). lia.
  - exists R. split; [done|]. intros p Hp. rewrite take_0. destruct (R !! p); cbn; [|done].
    f_equal. unfold occ. cbn. lia.
  - intros j [b1 mm1] [b2 mm2] Hj (R1&Hi1&Hb1) Hs. destruct (lookup_lt_is_Some_2 l j) as [p Hp]; [lia|].
    replace (0 + Z.of_nat (j - 0)) with (Z.of_nat j) in Hs by lia.
    rewrite (vec_get_Done _ _ _ Hp) in Hs. cbn [mbind outcome_bind] in Hs.
    pose proof (bumped_step _ _ _ _ _ Hp Hb1) as Hbs.
    destruct (Z.eqb_spec p 0) as [|Hp0]; [injection Hs as <- <-; by exists R1|].
    apply bind_Done in Hs as (b3&_&Hs). cbn [mbind outcome_bind] in Hs. apply bind_Done in Hs as (mm3&Href&Hs).
    injection Hs as <- <-. destruct (Hin j p Hp Hp0) as [n Hn].
    assert (R1 !! p = Some (n + occ p (take j l))) as HR1 by (by rewrite Hb1, Hn).
    destruct (fa_count _ _ _ _ Hi1 HR1) as (Hle&pg&Hpg&Hc).
    destruct (decide (n + occ p (take j l) = 65535)) as [He|].
    { exfalso. unfold mm_ref, page_ref in Href. rewrite Hpg in Href. cbn [mbind outcome_bind] in Href.
      rewrite Hc, He in Href. done. }
    destruct (fa_ref mm1 R1 p _ Hi1 HR1) as (mm4&Href'&Hi2); [lia|]. rewrite Href in Href'. injection Href' as <-.
    eexists. split; [done|]. by apply Hbs.
Qed.

Lemma anonymous_of_pages_ok raw l : bitmap_bytes (Z.of_nat (length l)) ≤ Z.of_nat (length raw) →
  ∃ b, anonymous_of_pages raw l true = Done (mk_object l b (u32 (Z.of_nat (length l) * PAGE_SIZE))
      (AnonymousObject (anon_default (Z.of_nat (length l))))) ∧
    bm_rep b (Z.of_nat (length l)) (present l).
Proof.
  intros Hraw. unfold anonymous_of_pages, object_new.
  destruct (bm_new raw (Z.of_nat (length l)) ltac:(lia) Hraw) as (b&->&Hb). cbn [mbind outcome_bind].
  destruct (mark_cow_ok l b Hb) as (b'&->&Hb'). by exists b'.
Qed.

Lemma clone_counts s R R' id o new_id o' n : vm_inv s R → vm_objects s !! id = Some o →
  vm_objects s !! new_id = None → bumped R (o_pages o) R' → o_pages o' = o_pages o →
  o_pages n = o_pages o → counts_ok R' (<[new_id := n]> (<[id := o']> (vm_objects s))).
Proof.
  intros Hv Ho Hnew Hbump Ho' Hn p Hp. pose proof (proj1 (proj2 Hv) p Hp) as Hc.
  rewrite slots_insert by (rewrite lookup_insert_ne by congruence; done).
  rewrite (slots_update p _ id o o' Ho), Ho', Hn, Hbump by done. pose proof (slots_ge p _ _ _ Ho).
  pose proof (occ_nonneg p (o_pages o)). destruct (R !! p); cbn in *; lia.
Qed.

Lemma clone_ok raw s R id new_id o : vm_inv s R → vm_objects s !! id = Some o →
  vm_objects s !! new_id = None → bitmap_bytes (Z.of_nat (length (o_pages o))) ≤ Z.of_nat (length raw) →
  room R (o_pages o) →
  ∃ s' R', vm_step reclaim fuel raw (VClone id new_id) s = Done s' ∧ vm_inv s' R' ∧
    vm_view s' = spec_step (VClone id new_id) (vm_view s).
Proof.
  intros Hv Ho Hnew Hraw Hroom. destruct (proj2 (proj2 Hv) id o Ho) as (f&Hbm&Hf&a&Ha&Hsh).
  destruct (become_cow_ok o (vm_mm s) R f (proj1 Hv) Hbm) as (b&mm'&R'&Hcow&Hi'&Hbump&Hbm'); [|done|].
  { intros i p Hp Hp0. destruct (slot_count s R id o i p Hv Ho Hp Hp0) as (n&Hn&_). by eexists. }
  destruct (anonymous_of_pages_ok raw (o_pages o) Hraw) as (bn&Hn&Hbn).
  unfold vm_step, get_object, clone. rewrite Ho. cbn [mbind outcome_bind]. rewrite Ha.
  unfold anonymous_clone. rewrite Hsh. cbn [negb kassert mbind outcome_bind]. rewrite Hcow. cbn [mbind outcome_bind].
  change (o_pages (set_cow o b)) with (o_pages o). rewrite Hn. cbn [mbind outcome_bind].
  eexists _, R'. split; [done|]. split; [split_and!|].
  - done.
  - by eapply clone_counts.
  - cbn [vm_objects]. intros id1 o1 [[<- <-]|[Hne [[<- <-]|[Hne1 Ho1]]%lookup_insert_Some]]%lookup_insert_Some.
    + exists (present (o_pages o)). split_and!; [done| |by eexists]. cbn [o_pages]. intros i p Hp.
      rewrite (present_at _ _ _ Hp). destruct (Z.eqb_spec p 0); done.
    + exists (marked (o_pages o) f (length (o_pages o))). split_and!; [done| |by exists a].
      cbn [set_cow o_pages]. intros i p Hp. pose proof (lookup_lt_Some _ _ _ Hp). unfold marked.
      rewrite (proj2 (Z.ltb_lt _ _)), (present_at _ _ _ Hp) by lia.
      destruct (Z.eqb_spec p 0) as [->|]; [|done]. by destruct (Hf i 0 Hp).
    + destruct (proj2 (proj2 Hv) id1 o1 Ho1) as (f1&Hb1&Hf1&Hs1). exists f1. split_and!; [done| |done].
      intros i p Hp. destruct (Hf1 i p Hp) as [H0 H1]. split; [done|]. intros Hp0 Hfi.
      specialize (H1 Hp0 Hfi). rewrite Hbump, H1 by done. cbn. f_equal.
      destruct (decide (1 ≤ occ p (o_pages o))) as [Hge|]; [|pose proof (occ_nonneg p (o_pages o)); lia].
      destruct (single_not_other s R p id o id1 o1 Hv Hp0 H1 Ho Hge ltac:(done) Ho1).
      pose proof (occ_pos _ _ _ Hp). lia.
  - unfold vm_view, object_view. cbn [vm_mem vm_objects spec_step].
    rewrite !fmap_insert, lookup_fmap, Ho. cbn [fmap option_fmap option_map set_cow o_pages].
    f_equal. apply insert_id. by rewrite lookup_fmap, Ho.
Qed.

Lemma clone_overflow raw s R id new_id o s' : vm_inv s R → vm_objects s !! id = Some o →
  ¬ room R (o_pages o) → vm_step reclaim fuel raw (VClone id new_id) s ≠ Done s'.
Proof.
  intros Hv Ho Hno Hs. destruct (proj2 (proj2 Hv) id o Ho) as (f&_&_&a&Ha&Hsh).
  unfold vm_step, get_object, clone in Hs. rewrite Ho in Hs. cbn [mbind outcome_bind] in Hs. rewrite Ha in Hs.
  unfold anonymous_clone in Hs. rewrite Hsh in Hs. cbn [negb kassert mbind outcome_bind] in Hs.
  destruct (become_cow_and_ref_pages o (vm_mm s)) as [res| | |] eqn:Hcow; [|done..].
  apply Hno. eapply become_cow_room; [apply Hv| |done].
  intros i p Hp Hp0. destruct (slot_count s R id o i p Hv Ho Hp Hp0) as (n&Hn&_). by eexists.
Qed.

(** *** Destroying and creating *)

Lemma unref_pages_ok l : ∀ mm R, inv mm R → (∀ p, p ≠ 0 → occ p l ≤ default 0 (R !! p)) →
  ∃ mm' R', unref_pages l mm = Done mm' ∧ inv mm' R' ∧
    ∀ p, p ≠ 0 → default 0 (R' !! p) = default 0 (R !! p) - occ p l.
Proof.
  induction l as [|q l IH]; intros mm R Hi Hle.
  { exists mm, R. split_and!; [done|done|]. intros p Hp. unfold occ. cbn. lia. }
  cbn [unref_pages]. destruct (Z.eqb_spec q 0) as [->|Hq]; cbn [mbind outcome_bind].
  - assert (∀ p, p ≠ 0 → occ p (0 :: l) = occ p l) as Ho
      by (intros p Hp; rewrite occ_cons, decide_False by done; lia).
    destruct (IH mm R Hi) as (mm'&R'&->&?&HR'); [intros p Hp; rewrite <-Ho by done; auto|].
    exists mm', R'. split_and!; [done|done|]. intros p Hp. rewrite Ho by done. auto.
  - pose proof (Hle q Hq) as Hq1. rewrite occ_cons, decide_True in Hq1 by done. pose proof (occ_nonneg q l).
    destruct (R !! q) as [n|] eqn:Hn; cbn in Hq1; [|lia].
    destruct (fa_unref mm R q n Hi Hn) as (mm1&->&Hi1). cbn [mbind outcome_bind].
    set (R1 := if n =? 1 then delete q R else <[q := n - 1]> R) in *.
    assert (∀ p, default 0 (R1 !! p) = default 0 (R !! p) - (if decide (q = p) then 1 else 0)) as HR1.
    { intros p. unfold R1. destruct (Z.eqb_spec n 1) as [->|]; case_decide as Hqp; subst.
      - by rewrite lookup_delete_eq, Hn.
      - rewrite lookup_delete_ne by done. lia.
      - by rewrite lookup_insert_eq, Hn.
      - rewrite lookup_insert_ne by done. lia. }
    destruct (IH mm1 R1 Hi1) as (mm'&R'&->&?&HR').
    { intros p Hp. rewrite HR1. specialize (Hle p Hp). rewrite occ_cons in Hle. lia. }
    exists mm', R'. split_and!; [done|done|]. intros p Hp. rewrite HR', HR1, occ_cons by done. lia.
Qed.

Lemma destroy_ok raw s R id o : vm_inv s R → vm_objects s !! id = Some o →
  ∃ s' R', vm_step reclaim fuel raw (VDestroy id) s = Done s' ∧ vm_inv s' R' ∧
    vm_view s' = spec_step (VDestroy id) (vm_view s).
Proof.
  intros Hv Ho. unfold vm_step, get_object. rewrite Ho. cbn [mbind outcome_bind].
  destruct (unref_pages_ok (o_pages o) (vm_mm s) R (proj1 Hv)) as (mm'&R'&->&Hi&HR').
  { intros p Hp. rewrite (proj1 (proj2 Hv)) by done. by eapply slots_ge. }
  cbn [mbind outcome_bind]. eexists _, R'. split; [done|]. split; [split_and!|].
  - done.
  - intros p Hp. cbn [vm_objects]. rewrite HR', (proj1 (proj2 Hv)), (slots_delete p _ id o) by done. done.
  - cbn [vm_objects]. intros id1 o1 [Hne Ho1]%lookup_delete_Some.
    destruct (proj2 (proj2 Hv) id1 o1 Ho1) as (f1&Hb1&Hf1&Hs1). exists f1. split_and!; [done| |done].
    intros i p Hp. destruct (Hf1 i p Hp) as [H0 H1]. split; [done|]. intros Hp0 Hfi.
    specialize (H1 Hp0 Hfi). pose proof (occ_pos _ _ _ Hp) as Hge. specialize (HR' p Hp0).
    destruct (single_not_other s R p id1 o1 id o Hv Hp0 H1 Ho1 Hge ltac:(done) Ho) as [_ Hz].
    rewrite H1, Hz in HR'. cbn in HR'. destruct (R' !! p); cbn in HR'; [f_equal; lia|lia].
  - unfold vm_view. cbn [vm_mem vm_objects spec_step]. by rewrite fmap_delete.
Qed.

Lemma new_ok raw s R id n : vm_inv s R → vm_objects s !! id = None → 0 ≤ n →
  bitmap_bytes n ≤ Z.of_nat (length raw) →
  ∃ s' R', vm_step reclaim fuel raw (VNew id n) s = Done s' ∧ vm_inv s' R' ∧
    vm_view s' = spec_step (VNew id n) (vm_view s).
Proof.
  intros Hv Hnew Hn Hraw. unfold vm_step, anonymous_of_size, object_new. rewrite length_replicate, Z2Nat.id by done.
  destruct (bm_new raw n Hn Hraw) as (b&->&Hb). cbn [mbind outcome_bind].
  assert (∀ p, p ≠ 0 → occ p (replicate (Z.to_nat n) 0) = 0) as Hz.
  { intros p Hp. induction (Z.to_nat n) as [|k IH]; [done|]. cbn [replicate].
    rewrite occ_cons, decide_False by done. lia. }
  eexists _, R. split; [done|]. split; [split_and!|].
  - apply (proj1 Hv).
  - intros p Hp. cbn [vm_objects]. rewrite slots_insert by done. cbn [o_pages]. rewrite Hz by done.
    rewrite (proj1 (proj2 Hv)) by done. lia.
  - cbn [vm_objects]. intros id1 o1 [[<- <-]|[Hne Ho1]]%lookup_insert_Some; [|by eapply (proj2 (proj2 Hv))].
    exists (λ _, false). split_and!; [|  |by eexists]; cbn [o_pages o_cow].
    + by rewrite length_replicate, Z2Nat.id.
    + intros i p [-> _]%lookup_replicate. done.
  - unfold vm_view, object_view. cbn [vm_mem vm_objects spec_step]. rewrite fmap_insert. cbn [o_pages].
    by rewrite fmap_replicate.
Qed.

Lemma write_ok raw s R id o i off b : vm_inv s R → vm_objects s !! id = Some o →
  (i < length (o_pages o))%nat →
  no_page s (vm_step reclaim fuel raw (VWrite id (Z.of_nat i) off b) s) ∨
  ∃ s' R', vm_step reclaim fuel raw (VWrite id (Z.of_nat i) off b) s = Done s' ∧ vm_inv s' R' ∧
    vm_view s' = spec_step (VWrite id (Z.of_nat i) off b) (vm_view s).
Proof.
  intros Hv Ho Hi. unfold vm_step, get_object. rewrite Ho. cbn [mbind outcome_bind].
  destruct (write_fault_ok s R id o i Hv Ho Hi) as [[? Hno]|(o'&mm'&mem'&R'&Hw&Hv'&Hview&Hwr)].
  { left. split; [done|]. intros a (r&Hr&_)%bind_Done. by eapply Hno. }
  right. rewrite Hw. cbn [mbind outcome_bind].
  destruct (store_ok _ R' id o' i off b Hv' (lookup_insert_eq _ _ _) Hwr) as (mem2&Hst&Hview2).
  cbn [vm_mem vm_mm vm_objects] in Hst, Hview2. rewrite Hst. cbn [mbind outcome_bind].
  eexists _, R'. split; [done|]. split; [exact Hv'|]. by rewrite Hview2, Hview.
Qed.

(** *** Runs *)

(** What a call does in a state that satisfies the invariant. *)
Lemma vm_step_ok raw s R op : vm_inv s R → op_ok raw op s = true →
  (∃ s' R', vm_step reclaim fuel raw op s = Done s' ∧ vm_inv s' R' ∧ vm_view s' = spec_step op (vm_view s)) ∨
  ((∀ s', vm_step reclaim fuel raw op s ≠ Done s') ∧
   ((∃ id page off b, op = VWrite id page off b) ∧ (∀ r, alloc_physical_page reclaim fuel (vm_mm s) ≠ Done r) ∨
    ∃ id new_id o p, op = VClone id new_id ∧ vm_objects s !! id = Some o ∧
      65535 < slots p (vm_objects s) + occ p (o_pages o))).
Proof.
  intros Hv Hop%op_ok_spec. destruct op as [id n|id new_id|id page off b|id].
  - destruct Hop as (?&?&?). left. by apply (new_ok raw s R).
  - destruct Hop as ((o&Ho&Hraw)&Hnew). destruct (decide (room R (o_pages o))) as [Hroom|Hroom].
    { left. by apply (clone_ok raw s R id new_id o). }
    right. split; [intros s'; by eapply clone_overflow|].
    right. apply map_not_Forall in Hroom as (p&n&Hn&Hp); [|intros; apply _].
    exists id, new_id, o, p. split_and!; [done|done|]. pose proof (proj1 (proj2 Hv) p) as Hc.
    rewrite Hn in Hc. cbn in Hc. rewrite <-Hc by (intros ->; apply Hp; by left). lia.
  - destruct Hop as (o&Ho&Hpage). rewrite <-(Z2Nat.id page) by lia.
    destruct (write_ok raw s R id o (Z.to_nat page) off b Hv Ho) as [[? ?]|?]; [lia| |by left].
    right. split; [done|]. left. split; [by eexists _, _, _, _|done].
  - destruct Hop as [o Ho]. left. by apply (destroy_ok raw s R id o).
Qed.

Lemma vm_run_inv raw ops : ∀ s R s', vm_inv s R → vm_run reclaim fuel raw ops s = Done s' →
  ∃ R', vm_inv s' R' ∧ vm_view s' = foldl (λ v op, spec_step op v) (vm_view s) ops.
Proof.
  induction ops as [|op ops IH]; intros s R s' Hv Hr; cbn [vm_run] in Hr.
  { injection Hr as <-. by exists R. }
  destruct (op_ok raw op s) eqn:Hop; [|done]. apply bind_Done in Hr as (s1&Hs&Hr).
  destruct (vm_step_ok raw s R op Hv Hop) as [(s2&R1&Hs2&Hv1&Hview1)|[Hno _]]; [|by destruct (Hno s1)].
  rewrite Hs in Hs2. injection Hs2 as <-. destruct (IH s1 R1 s' Hv1 Hr) as (R'&?&Hview').
  exists R'. split; [done|]. cbn. by rewrite Hview', Hview1.
Qed.

Lemma vm_inv_start mm mem : inv mm ∅ → vm_inv (mk_vm mm mem ∅) ∅.
Proof.
  intros. split_and!; [done| |].
  - intros p Hp. by rewrite lookup_empty.
  - cbn. intros id o. by rewrite lookup_empty.
Qed.
End invariant.

(** ** Theorems *)

(** C1: anonymous objects behave as if each had pages of its own, whatever pages
    they share: after any sequence of creating, cloning, writing and destroying
    objects, each shows exactly what was written to it (a clone starting from
    what its original showed), every count of the memory manager is the number
    of references, and the next call has that effect too, unless a page that is
    needed cannot be allocated or a reference count would pass 65535. *)
Theorem vm_objects_private reclaim fuel inv raw mm0 mem0 ops s :
  FrameAllocator reclaim fuel inv → inv mm0 ∅ →
  vm_run reclaim fuel raw ops (mk_vm mm0 mem0 ∅) = Done s →
  vm_view s = foldl (λ v op, spec_step op v) ∅ ops ∧
  (∃ R, inv (vm_mm s) R ∧ ∀ p, p ≠ 0 → default 0 (R !! p) = slots p (vm_objects s)) ∧
  ∀ op, op_ok raw op s = true →
    (∃ s', vm_step reclaim fuel raw op s = Done s' ∧ vm_view s' = spec_step op (vm_view s)) ∨
    (∃ id page off b, op = VWrite id page off b) ∧
      (∀ r, alloc_physical_page reclaim fuel (vm_mm s) ≠ Done r) ∨
    (∃ id new_id o p, op = VClone id new_id ∧ vm_objects s !! id = Some o ∧
       65535 < slots p (vm_objects s) + occ p (o_pages o)).
Proof.
  intros FA Hi Hr. destruct (vm_run_inv raw ops _ ∅ s (vm_inv_start mm0 mem0 Hi) Hr) as (R&Hv&Hview).
  split_and!; [done|exists R; split; apply Hv|]. intros op Hop.
  destruct (vm_step_ok raw s R op Hv Hop) as [(s'&_&?&_&?)|[_ [?|?]]]; [left; by exists s'|auto|auto].
Qed.

(** The second look at the object that both fault handlers take before they
    install a page protects nothing: a thread that finds the page already
    resolved by another one frees its own page with its count still at one, and
    the kernel stops at the assertion of [free_physical_page]. *)
Theorem lost_fault_race_panics reclaim fuel inv mm R o page new_page n :
  FrameAllocator reclaim fuel inv → inv mm R → R !! new_page = Some n →
  (page_is_cow o page = Done false → cow_commit o mm page new_page = Panic) ∧
  (∀ p, vec_get (o_pages o) page = Done p → p ≠ 0 → fault_commit o mm page new_page = Panic).
Proof.
  intros FA Hi Hn. destruct (fa_count _ _ _ _ Hi Hn) as (?&pg&Hpg&Hc).
  assert (free_physical_page mm new_page = Panic) as Hfree.
  { unfold free_physical_page. rewrite Hpg. cbn [mbind outcome_bind].
    rewrite Hc, (proj2 (Z.eqb_neq n 0)) by lia. done. }
  split.
  - intros Hcow. unfold cow_commit. rewrite Hcow. cbn [mbind outcome_bind negb]. by rewrite Hfree.
  - intros p Hp Hp0. unfold fault_commit. rewrite Hp. cbn [mbind outcome_bind].
    rewrite (proj2 (Z.eqb_neq p 0)) by done. cbn [negb]. by rewrite Hfree.
Qed.

(** an error of the file system while a page of a mapped file is read in does
    not reach the faulting process: the handler frees the page it allocated
    with its count still at one, which stops the kernel. *)
Theorem inode_fault_error_panics reclaim fuel inv inode_read o i index mm R mem p mm' e :
  FrameAllocator reclaim fuel inv → inv mm R →
  o_pages o !! Z.to_nat index = Some 0 → 0 ≤ index →
  alloc_physical_page reclaim fuel mm = Done (p, mm') →
  inode_read (m_inode i) (u32 (index * PAGE_SIZE)) PAGE_SIZE = Err e →
  inode_fault reclaim fuel inode_read o i index mm mem = Panic.
Proof.
  intros FA Hi Hp Hidx Hal Herr. pose proof (lookup_lt_Some _ _ _ Hp).
  destruct (fa_alloc _ _ _ _ Hi Hal) as (_&_&Hi').
  destruct (fa_count _ _ p 1 Hi' (lookup_insert_eq _ _ _)) as (_&pg&Hpg&Hc).
  unfold inode_fault. rewrite (proj2 (Z.leb_gt _ _)) by lia.
  rewrite <-(Z2Nat.id index) at 1 by done. rewrite (vec_get_Done _ _ _ Hp). cbn [mbind outcome_bind].
  change (0 =? 0) with true. cbn [negb]. rewrite Hal. cbn [mbind outcome_bind]. rewrite Herr.
  unfold free_physical_page. rewrite Hpg. cbn [mbind outcome_bind]. by rewrite Hc.
Qed.

(** ** A memory of four pages *)

Definition small_raw : list Z := replicate 64 0.
Definition small_pages : pages := <[1%nat := mk_page 65535 65535]> (replicate 8 (mk_page 0 0)).
Definition small_mm : MemoryManager :=
  match sample_mm 1 4 8 with Done mm => mm | _ => mk_mm [] [] end.

Lemma small_one_zone : one_zone 1 2 small_mm ∅.
Proof.
  destruct (BuddyZone.zone_new small_raw 1 4) as [z| | |] eqn:Hz; [|by vm_compute in Hz..].
  assert (small_mm = mk_mm [mk_region [z] 1 (2 ^ 2) (2 ^ 2) false] small_pages) as ->.
  { vm_compute in Hz. injection Hz as <-. vm_compute. reflexivity. }
  apply (one_zone_start small_raw small_pages 1 2 z (mk_page 65535 65535)); try done.
Qed.

(** Two objects share a page until each of them writes to it. *)
Definition sample_ops : list vm_op :=
  [VNew 1 2; VWrite 1 0 5 7; VClone 1 2; VWrite 2 0 5 9; VWrite 1 0 6 3].
Definition sample_vm : vm_state :=
  match vm_run no_reclaim 2 small_raw sample_ops (mk_vm small_mm ∅ ∅) with
  | Done s => s | _ => mk_vm small_mm ∅ ∅
  end.

Lemma vm_objects_private_witness :
  (object_view (vm_mem sample_vm) <$> vm_objects sample_vm !! 2) =
    Some [<[5%nat := 9]> (<[5%nat := 7]> zero_page); zero_page] ∧
  vm_view sample_vm = foldl (λ v op, spec_step op v) ∅ sample_ops.
Proof.
  assert (vm_run no_reclaim 2 small_raw sample_ops (mk_vm small_mm ∅ ∅) = Done sample_vm) as Hr
    by (vm_compute; reflexivity).
  pose proof (vm_objects_private no_reclaim 2 (one_zone 1 2) small_raw small_mm ∅ sample_ops sample_vm
    (one_zone_frames 1 2 2) small_one_zone Hr) as [Hview _].
  split; [vm_compute; reflexivity|exact Hview].
Defined.

(** A page allocated for a fault that another thread has resolved. *)
Definition race_vm : vm_state :=
  match vm_run no_reclaim 2 small_raw [VNew 1 2; VWrite 1 0 5 7] (mk_vm small_mm ∅ ∅) with
  | Done s => s | _ => mk_vm small_mm ∅ ∅
  end.
Definition race_object : VMObject :=
  match get_object race_vm 1 with Done o => o | _ => mk_object [] bitmap_empty 0 BaseObject end.
Definition race_page : Z * MemoryManager :=
  match alloc_physical_page no_reclaim 2 (vm_mm race_vm) with Done r => r | _ => (0, small_mm) end.

Lemma lost_fault_race_panics_witness :
  cow_commit race_object race_page.2 0 race_page.1 = Panic ∧
  fault_commit race_object race_page.2 0 race_page.1 = Panic.
Proof.
  assert (vm_run no_reclaim 2 small_raw [VNew 1 2; VWrite 1 0 5 7] (mk_vm small_mm ∅ ∅) = Done race_vm) as Hr
    by (vm_compute; reflexivity).
  destruct (vm_run_inv small_raw _ _ ∅ _ (vm_inv_start (inv := one_zone 1 2) small_mm ∅ small_one_zone) Hr)
    as (R&Hv&_).
  assert (alloc_physical_page no_reclaim 2 (vm_mm race_vm) = Done (race_page.1, race_page.2)) as Hal
    by (vm_compute; reflexivity).
  destruct (fa_alloc _ _ _ _ (proj1 Hv) Hal) as (_&_&Hi).
  destruct (lost_fault_race_panics no_reclaim 2 (one_zone 1 2) race_page.2 _ race_object 0 race_page.1 1
    (one_zone_frames 1 2 2) Hi (lookup_insert_eq _ _ _)) as [H1 H2].
  split; [apply H1; vm_compute; reflexivity|apply (H2 1); [vm_compute; reflexivity|discriminate]].
Defined.

Lemma inode_fault_error_panics_witness :
  inode_fault no_reclaim 2 (λ _ _ _, Err EIO) (mk_object [0] bitmap_empty 4096 BaseObject)
    (mk_inode_part 7 Private 0) 0 small_mm ∅ = Panic.
Proof.
  destruct (alloc_physical_page no_reclaim 2 small_mm) as [[p mm]| | |] eqn:Hal; [|by vm_compute in Hal..].
  apply (inode_fault_error_panics no_reclaim 2 (one_zone 1 2) _ _ _ 0 small_mm ∅ ∅ p mm EIO
    (one_zone_frames 1 2 2) small_one_zone); (done || lia).
Defined.
