(* ===== verification/PageDirectory.v ===== *)
(** * Page directories (kernel/arch/i386/PageDirectory.cpp, PageTable.cpp,
    kernel/memory/PageDirectory.cpp)

    A directory entry and a page table entry are 32-bit words with the bit
    fields of the source.  A user directory owns the page tables of the lower
    three gigabytes, allocated when a first page of theirs is mapped and freed
    with the last; the tables of the upper gigabyte are the kernel's and shared
    by all directories.

    The theorems state that a user directory behaves as a finite map from
    virtual pages to physical pages with a write permission. *)

From stdpp Require Import base numbers list option gmap sets.
From S2P Require Import Prelude.
From S2P Require Import Bitmap.
From S2P Require Import PhysicalPage.
From S2P Require Import PhysicalRegion.
From S2P Require Import VMObject.

Local Open Scope Z_scope.

Definition HIGHER_HALF : Z := 3221225472.

(** ** Entries *)

(** Assigning a one-bit field. *)
Definition set_bit_field (k : Z) (v : bool) (e : Z) : Z := if v then Z.setbit e k else Z.clearbit e k.

Definition e_present (e : Z) : bool := Z.testbit e 0.
Definition e_read_write (e : Z) : bool := Z.testbit e 1.
Definition e_user (e : Z) : bool := Z.testbit e 2.

(** [set_address]: the upper 20 bits of the address, in the upper 20 bits. *)
Definition e_set_address (address : Z) (e : Z) : Z :=
  Z.lor (Z.land e (Z.ones 12)) (Z.shiftl (Z.land (Z.shiftr address 12) (Z.ones 20)) 12).
Definition e_get_address (e : Z) : Z := Z.shiftl (Z.land (Z.shiftr e 12) (Z.ones 20)) 12.

(** ** Directories *)

Inductive DirectoryType : Type := USER | KERNEL.

#[export] Instance DirectoryType_eq_dec : EqDecision DirectoryType.
Proof. solve_decision. Defined.

Record PageDirectory : Type := mk_pd {
  m_entries : list Z;
  m_page_tables : list (option (list Z));
  m_page_tables_num_mapped : list Z;
  pd_type : DirectoryType;
}.

(** The kernel's directory entries and its 256 page tables, which are static. *)
Record KernelTables : Type := mk_kernel {
  s_kernel_entries : list Z;
  s_kernel_page_tables : list (list Z);
}.

(** Access to a C array: outside of it the behaviour is undefined. *)
Definition arr_get {A} (l : list A) (i : Z) : outcome A :=
  if 0 <=? i then match l !! Z.to_nat i with Some x => Done x | None => Undef end else Undef.
Definition arr_set {A} (l : list A) (i : Z) (x : A) : outcome (list A) :=
  _ ← arr_get l i; Done (<[Z.to_nat i := x]> l).

Definition directory_index (vpage : Z) : Z := vpage / 1024 mod 1024.
Definition table_index (vpage : Z) : Z := vpage mod 1024.

(** [PageDirectory(type)]: the entries of a user directory are zeroed memory,
    with the kernel's in the upper quarter. *)
Definition pd_new (k : KernelTables) (type : DirectoryType) : PageDirectory :=
  mk_pd (match type with
         | USER => replicate 768 0 ++ drop 768 (s_kernel_entries k)
         | KERNEL => s_kernel_entries k
         end)
    (replicate 768 None) (replicate 1024 0) type.

Definition set_tables (pd : PageDirectory) (t : list (option (list Z))) : PageDirectory :=
  mk_pd (m_entries pd) t (m_page_tables_num_mapped pd) (pd_type pd).
Definition set_entries (pd : PageDirectory) (e : list Z) : PageDirectory :=
  mk_pd e (m_page_tables pd) (m_page_tables_num_mapped pd) (pd_type pd).
Definition set_num_mapped (pd : PageDirectory) (n : list Z) : PageDirectory :=
  mk_pd (m_entries pd) (m_page_tables pd) n (pd_type pd).

(** [get_physaddr]; [-1] is what it returns for an address without a table. *)
Definition get_physaddr (pd : PageDirectory) (k : KernelTables) (virtaddr : Z) : outcome Z :=
  let page := virtaddr / PAGE_SIZE in
  let di := directory_index page in
  let ti := page mod 1024 in
  if virtaddr <? HIGHER_HALF then
    e ← arr_get (m_entries pd) di;
    if negb (e_present e) then Done (u32 (-1))
    else
      t ← arr_get (m_page_tables pd) di;
      match t with
      | None => Done (u32 (-1))
      | Some entries =>
          e ← arr_get entries ti;
          Done (u32 (e_get_address e + virtaddr mod PAGE_SIZE))
      end
  else
    e ← arr_get (s_kernel_entries k) di;
    if negb (e_present e) then Done (u32 (-1))
    else
      t ← arr_get (s_kernel_page_tables k) (di - 768);
      e ← arr_get t ti;
      Done (u32 (e_get_address e + virtaddr mod PAGE_SIZE)).

Definition is_mapped (pd : PageDirectory) (k : KernelTables) (vaddr : Z) (write : bool) : outcome bool :=
  let page := vaddr / PAGE_SIZE in
  let di := directory_index page in
  if vaddr <? HIGHER_HALF then
    e ← arr_get (m_entries pd) di;
    if negb (e_present e) then Done false
    else
      t ← arr_get (m_page_tables pd) di;
      match t with
      | None => Done false
      | Some entries =>
          e ← arr_get entries (page mod 1024);
          if negb (e_present e) then Done false
          else if write && negb (e_read_write e) then Done false
          else Done true
      end
  else
    e ← arr_get (s_kernel_entries k) di;
    if negb (e_present e) then Done false
    else
      t ← arr_get (s_kernel_page_tables k) (di - 768);
      e ← arr_get t (page mod 1024);
      Done (e_present e && (negb write || e_read_write e)).

Section tables.
(** [MM.alloc_contiguous_kernel_region(4096)] in the constructor of a page
    table: the address of the region, and the kernel's tables with the region
    mapped.  Its contents are zero. *)
Context (table_region : KernelTables → outcome (Z * KernelTables)).

Definition alloc_page_table (pd : PageDirectory) (k : KernelTables) (tables_index : Z)
    : outcome (PageDirectory * KernelTables) :=
  t ← arr_get (m_page_tables pd) tables_index;
  match t with
  | Some _ => Done (pd, k)
  | None =>
      '(va, k) ← table_region k;
      t ← arr_set (m_page_tables pd) tables_index (Some (replicate 1024 0));
      let pd := set_tables pd t in
      pa ← get_physaddr pd k va;
      e ← arr_get (m_entries pd) tables_index;
      let e := e_set_address pa e in
      let e := set_bit_field 0 true e in
      let e := set_bit_field 2 true e in
      let e := set_bit_field 1 true e in
      es ← arr_set (m_entries pd) tables_index e;
      Done (set_entries pd es, k)
  end.

Definition dealloc_page_table (pd : PageDirectory) (tables_index : Z) : outcome PageDirectory :=
  t ← arr_get (m_page_tables pd) tables_index;
  match t with
  | None => Done pd
  | Some _ =>
      t ← arr_set (m_page_tables pd) tables_index None;
      es ← arr_set (m_entries pd) tables_index 0;
      Done (set_entries (set_tables pd t) es)
  end.

(** The assignments to an entry at the end of [map_page]. *)
Definition map_entry (di ppage : Z) (prot : VMProt) (e : Z) : Z :=
  let e := set_bit_field 0 true e in
  let e := set_bit_field 1 (p_write prot) e in
  let e := set_bit_field 2 (di <? 768) e in
  e_set_address (u32 (ppage * PAGE_SIZE)) e.

(** The table of a user page, allocated when it is missing. *)
Definition need_table (pd : PageDirectory) (k : KernelTables) (di : Z)
    : outcome (PageDirectory * KernelTables * list Z) :=
  t ← arr_get (m_page_tables pd) di;
  '(pd, k) ← (match t with Some _ => Done (pd, k) | None => alloc_page_table pd k di end);
  t ← arr_get (m_page_tables pd) di;
  match t with Some entries => Done (pd, k, entries) | None => Undef end.

Definition map_page (pd : PageDirectory) (k : KernelTables) (vpage ppage : Z) (prot : VMProt)
    : outcome (result unit * PageDirectory * KernelTables) :=
  let di := directory_index vpage in
  let ti := table_index vpage in
  if di <? 768 then
    if bool_decide (pd_type pd ≠ USER) then Done (Err EINVAL, pd, k)
    else
      '(pd, k, entries) ← need_table pd k di;
      e ← arr_get entries ti;
      pd ← (if negb (e_present e) then
              n ← arr_get (m_page_tables_num_mapped pd) di;
              ns ← arr_set (m_page_tables_num_mapped pd) di (n + 1);
              Done (set_num_mapped pd ns)
            else Done pd);
      entries ← arr_set entries ti (map_entry di ppage prot e);
      t ← arr_set (m_page_tables pd) di (Some entries);
      Done (Ok tt, set_tables pd t, k)
  else
    if bool_decide (pd_type pd ≠ KERNEL) then Done (Err EINVAL, pd, k)
    else
      entries ← arr_get (s_kernel_page_tables k) (di - 768);
      e ← arr_get entries ti;
      entries ← arr_set entries ti (map_entry di ppage prot e);
      t ← arr_set (s_kernel_page_tables k) (di - 768) entries;
      Done (Ok tt, pd, mk_kernel (s_kernel_entries k) t).

Definition unmap_page (pd : PageDirectory) (k : KernelTables) (vpage : Z)
    : outcome (result unit * PageDirectory * KernelTables) :=
  let di := directory_index vpage in
  let ti := table_index vpage in
  if di <? 768 then
    if bool_decide (pd_type pd ≠ USER) then Done (Err EINVAL, pd, k)
    else
      '(pd, k, entries) ← need_table pd k di;
      e ← arr_get entries ti;
      pd ← (if e_present e then
              n ← arr_get (m_page_tables_num_mapped pd) di;
              ns ← arr_set (m_page_tables_num_mapped pd) di (n - 1);
              Done (set_num_mapped pd ns)
            else Done pd);
      entries ← arr_set entries ti 0;
      t ← arr_set (m_page_tables pd) di (Some entries);
      let pd := set_tables pd t in
      n ← arr_get (m_page_tables_num_mapped pd) di;
      pd ← (if n =? 0 then dealloc_page_table pd di else Done pd);
      Done (Ok tt, pd, k)
  else
    if bool_decide (pd_type pd ≠ KERNEL) then Done (Err EINVAL, pd, k)
    else
      entries ← arr_get (s_kernel_page_tables k) (di - 768);
      entries ← arr_set entries ti 0;
      t ← arr_set (s_kernel_page_tables k) (di - 768) entries;
      Done (Ok tt, pd, mk_kernel (s_kernel_entries k) t).
End tables.

(** ** Mapping a region *)

(** A region of a memory space (kernel/memory/VMRegion.h): the object it shows,
    by number, where it is, and the offset in the object it starts from. *)
Record VMRegion : Type := mk_vmregion {
  vr_object : Z;
  vr_start : Z;
  vr_size : Z;
  vr_object_start : Z;
  vr_prot : VMProt;
  (** whether [m_space] still refers to the space *)
  vr_space : bool;
}.

Definition vr_end (r : VMRegion) : Z := u32 (vr_start r + vr_size r).
Definition vr_contains (r : VMRegion) (address : Z) : bool :=
  (vr_start r <=? address) && (address <? vr_end r).

Section regions.
Context (table_region : KernelTables → outcome (Z * KernelTables)).

(** The loop of [map], from page [page_index] on: a page that is not present is
    skipped, and an error ends it. The copy-on-write bit is looked up at the
    page's index in the region. *)
Fixpoint map_pages (n : nat) (o : VMObject) (prot : VMProt) (start_vpage page_offset page_index : Z)
    (pd : PageDirectory) (k : KernelTables) : outcome (PageDirectory * KernelTables) :=
  match n with
  | O => Done (pd, k)
  | S n =>
      ppage ← physical_page_index o (u32 (page_index + page_offset));
      if ppage =? 0 then map_pages n o prot start_vpage page_offset (page_index + 1) pd k
      else
        c ← page_is_cow o page_index;
        let page_prot := mk_prot (p_read prot) (if c : bool then false else p_write prot) (p_execute prot) in
        '(r, pd, k) ← map_page table_region pd k (u32 (start_vpage + page_index)) ppage page_prot;
        if is_error r then Done (pd, k)
        else map_pages n o prot start_vpage page_offset (page_index + 1) pd k
  end.

(** [map(region, range)]; [range] is relative to the region, of size 0 for all
    of it. *)
Definition pd_map (o : VMObject) (r : VMRegion) (range_start range_size : Z)
    (pd : PageDirectory) (k : KernelTables) : outcome (PageDirectory * KernelTables) :=
  let range_size := if range_size =? 0 then vr_size r else range_size in
  let start_index := range_start / PAGE_SIZE in
  let end_index := u32 (range_start + range_size) / PAGE_SIZE in
  _ ← kassert (p_read (vr_prot r));
  _ ← kassert (range_start mod PAGE_SIZE =? 0);
  _ ← kassert (range_size mod PAGE_SIZE =? 0);
  _ ← kassert (u32 (range_start + range_size) <=? vr_end r);
  map_pages (Z.to_nat (end_index - start_index)) o (vr_prot r) (vr_start r / PAGE_SIZE)
    (vr_object_start r / PAGE_SIZE) start_index pd k.

Fixpoint unmap_pages (n : nat) (vpage : Z) (pd : PageDirectory) (k : KernelTables)
    : outcome (PageDirectory * KernelTables) :=
  match n with
  | O => Done (pd, k)
  | S n =>
      '(r, pd, k) ← unmap_page table_region pd k (u32 vpage);
      if is_error r then Done (pd, k) else unmap_pages n (vpage + 1) pd k
  end.

(** [unmap(region, range)]. *)
Definition pd_unmap (r : VMRegion) (range_start range_size : Z) (pd : PageDirectory) (k : KernelTables)
    : outcome (PageDirectory * KernelTables) :=
  let range_size := if range_size =? 0 then vr_size r else range_size in
  let start_index := range_start / PAGE_SIZE in
  let end_index := u32 (range_start + range_size) / PAGE_SIZE in
  _ ← kassert (range_start mod PAGE_SIZE =? 0);
  _ ← kassert (range_size mod PAGE_SIZE =? 0);
  _ ← kassert (u32 (range_start + range_size) <=? vr_end r);
  if (HIGHER_HALF <? vr_end r) && bool_decide (pd_type pd ≠ KERNEL) then Done (pd, k)
  else unmap_pages (Z.to_nat (end_index - start_index)) (vr_start r / PAGE_SIZE + start_index) pd k.
End regions.

(** ** Bits of an entry *)

Lemma set_bit_field_spec k v e i : 0 ≤ k → 0 ≤ i →
  Z.testbit (set_bit_field k v e) i = if i =? k then v else Z.testbit e i.
Proof.
  intros Hk Hi. unfold set_bit_field. destruct v.
  - destruct (Z.eqb_spec i k) as [->|]; [by apply Z.setbit_eq|by apply Z.setbit_neq].
  - destruct (Z.eqb_spec i k) as [->|]; [by apply Z.clearbit_eq|by apply Z.clearbit_neq].
Qed.

Lemma e_set_address_low a e i : 0 ≤ i < 12 → Z.testbit (e_set_address a e) i = Z.testbit e i.
Proof.
  intros Hi. unfold e_set_address. rewrite Z.lor_spec, Z.land_spec, Z.ones_spec_low by lia.
  rewrite Z.shiftl_spec_low by lia. by rewrite andb_true_r, orb_false_r.
Qed.

Lemma e_get_set_address a e : 0 ≤ a < 2 ^ 20 → e_get_address (e_set_address (a * PAGE_SIZE) e) = a * PAGE_SIZE.
Proof.
  intros Ha. unfold e_get_address, e_set_address, PAGE_SIZE.
  assert (Z.shiftr (a * 4096) 12 = a) as ->
    by (rewrite Z.shiftr_div_pow2 by lia; change (2 ^ 12) with 4096; by rewrite Z.div_mul).
  assert (Z.land a (Z.ones 20) = a) as -> by (rewrite Z.land_ones by lia; by apply Z.mod_small).
  rewrite Z.shiftr_lor, Z.shiftr_shiftl_l by lia. change (12 - 12) with 0. rewrite Z.shiftl_0_r.
  assert (Z.shiftr (Z.land e (Z.ones 12)) 12 = 0) as ->.
  { rewrite Z.land_ones, Z.shiftr_div_pow2 by lia. apply Z.div_small, Z.mod_pos_bound. lia. }
  rewrite Z.lor_0_l, Z.land_ones, Z.mod_small, Z.shiftl_mul_pow2 by lia. done.
Qed.

(** What an entry says: the page and whether it is writable. *)
Definition decode (e : Z) : option (Z * bool) :=
  if e_present e then Some (e_get_address e / PAGE_SIZE, e_read_write e) else None.

Lemma map_entry_present di ppage prot e : e_present (map_entry di ppage prot e) = true.
Proof.
  unfold e_present, map_entry. rewrite e_set_address_low by lia. by rewrite !set_bit_field_spec by lia.
Qed.

Lemma map_entry_decode di ppage prot e : 0 ≤ ppage < 2 ^ 20 →
  decode (map_entry di ppage prot e) = Some (ppage, p_write prot).
Proof.
  intros Hp. unfold decode. rewrite map_entry_present. unfold map_entry, e_read_write.
  rewrite e_set_address_low, !set_bit_field_spec by lia. cbn [Z.eqb Pos.eqb].
  rewrite u32_id by (unfold PAGE_SIZE; lia). rewrite e_get_set_address, Z.div_mul by (done || unfold PAGE_SIZE; lia).
  done.
Qed.

(** ** A user directory as a map *)

(** The number of entries that are present. *)
Definition mapped_count (es : list Z) : Z := Z.of_nat (length (filter (λ e, e_present e = true) es)).

Lemma mapped_count_insert es i e e' : es !! i = Some e →
  mapped_count (<[i := e']> es) =
    mapped_count es - (if e_present e then 1 else 0) + (if e_present e' then 1 else 0).
Proof.
  intros Hi. rewrite <-(take_drop_middle es i e Hi) at 2. pose proof (lookup_lt_Some _ _ _ Hi) as Hlt.
  rewrite (insert_take_drop _ _ _ Hlt). unfold mapped_count. rewrite !filter_app, !filter_cons, !length_app.
  destruct (e_present e), (e_present e'); cbn [decide decide_rel]; repeat case_decide; try done; cbn [length]; lia.
Qed.

Lemma mapped_count_pos es i e : es !! i = Some e → e_present e = true → 0 < mapped_count es.
Proof.
  intros Hi He. rewrite <-(take_drop_middle es i e Hi). unfold mapped_count.
  rewrite filter_app, filter_cons, decide_True, length_app by done. cbn. lia.
Qed.

Lemma mapped_count_zero es i e : es !! i = Some e → mapped_count es = 0 → e_present e = false.
Proof. intros Hi H0. destruct (e_present e) eqn:He; [|done]. pose proof (mapped_count_pos _ _ _ Hi He). lia. Qed.

Lemma mapped_count_none es : (∀ i e, es !! i = Some e → e_present e = false) → mapped_count es = 0.
Proof.
  unfold mapped_count. induction es as [|e es IH]; [done|]. intros He.
  rewrite filter_cons, decide_False by (by rewrite (He 0%nat e)).
  apply IH. intros i. apply (He (S i)).
Qed.

Abbreviation pmap := (gmap Z (Z * bool)).

(** One entry of the directory with its table and count: the pages of its part
    of the address space. *)
Definition dir_ok (M : pmap) (di e : Z) (t : option (list Z)) (n : Z) : Prop :=
  match t with
  | None => e_present e = false ∧ n = 0 ∧ ∀ ti, 0 ≤ ti < 1024 → M !! (di * 1024 + ti) = None
  | Some es => e_present e = true ∧ length es = 1024%nat ∧ n = mapped_count es ∧ 0 < n ∧
      ∀ ti x, 0 ≤ ti < 1024 → es !! Z.to_nat ti = Some x → M !! (di * 1024 + ti) = decode x
  end.

Record pd_rep (pd : PageDirectory) (M : pmap) : Prop := {
  pr_type : pd_type pd = USER;
  pr_entries : length (m_entries pd) = 1024%nat;
  pr_tables : length (m_page_tables pd) = 768%nat;
  pr_num : length (m_page_tables_num_mapped pd) = 1024%nat;
  pr_dir di e t n : 0 ≤ di < 768 → m_entries pd !! Z.to_nat di = Some e →
    m_page_tables pd !! Z.to_nat di = Some t → m_page_tables_num_mapped pd !! Z.to_nat di = Some n →
    dir_ok M di e t n;
  pr_dom v : is_Some (M !! v) → 0 ≤ v < 768 * 1024;
}.

(** The directory with one entry, table and count replaced. *)
Definition upd (pd : PageDirectory) (di e : Z) (t : option (list Z)) (n : Z) : PageDirectory :=
  mk_pd (<[Z.to_nat di := e]> (m_entries pd)) (<[Z.to_nat di := t]> (m_page_tables pd))
    (<[Z.to_nat di := n]> (m_page_tables_num_mapped pd)) (pd_type pd).

Lemma pd_rep_upd pd M di e t n M' : pd_rep pd M → 0 ≤ di < 768 → dir_ok M' di e t n →
  (∀ v, v / 1024 ≠ di → M' !! v = M !! v) → pd_rep (upd pd di e t n) M'.
Proof.
  intros [] Hdi Hok HM. split; cbn; rewrite ?length_insert; try done.
  - intros di' e' t' n' Hdi' He Ht Hn. destruct (decide (di' = di)) as [->|Hne].
    + rewrite list_lookup_insert_eq in He by lia. rewrite list_lookup_insert_eq in Ht by lia.
      rewrite list_lookup_insert_eq in Hn by lia. by simplify_eq.
    + rewrite list_lookup_insert_ne in He by lia. rewrite list_lookup_insert_ne in Ht by lia.
      rewrite list_lookup_insert_ne in Hn by lia.
      assert (∀ ti, 0 ≤ ti < 1024 → M' !! (di' * 1024 + ti) = M !! (di' * 1024 + ti)) as Hsame.
      { intros ti Hti. apply HM. rewrite Z.div_add_l, (Z.div_small ti) by lia. lia. }
      pose proof (pr_dir0 di' e' t' n' Hdi' He Ht Hn) as Hd. destruct t' as [es|]; cbn in *.
      * destruct Hd as (?&?&?&?&Hes). split_and!; [done..|]. intros. rewrite Hsame by done. eauto.
      * destruct Hd as (?&?&Hes). split_and!; [done..|]. intros. rewrite Hsame by done. eauto.
  - intros v Hv. destruct (decide (v / 1024 = di)) as [He|].
    + pose proof (Z.div_mod v 1024). pose proof (Z.mod_pos_bound v 1024). lia.
    + apply pr_dom0. by rewrite <-HM.
Qed.

Lemma upd_id pd di e t n : m_entries pd !! Z.to_nat di = Some e →
  m_page_tables pd !! Z.to_nat di = Some t → m_page_tables_num_mapped pd !! Z.to_nat di = Some n →
  upd pd di e t n = pd.
Proof. intros. unfold upd. rewrite !list_insert_id by done. by destruct pd. Qed.

Lemma pd_dir_at pd M di : pd_rep pd M → 0 ≤ di < 768 → ∃ e t n,
  m_entries pd !! Z.to_nat di = Some e ∧ m_page_tables pd !! Z.to_nat di = Some t ∧
  m_page_tables_num_mapped pd !! Z.to_nat di = Some n.
Proof.
  intros [] Hdi. destruct (lookup_lt_is_Some_2 (m_entries pd) (Z.to_nat di)) as [e ?]; [lia|].
  destruct (lookup_lt_is_Some_2 (m_page_tables pd) (Z.to_nat di)) as [t ?]; [lia|].
  destruct (lookup_lt_is_Some_2 (m_page_tables_num_mapped pd) (Z.to_nat di)) as [n ?]; [lia|].
  by exists e, t, n.
Qed.

Lemma arr_get_Done {A} (l : list A) i x : 0 ≤ i → l !! Z.to_nat i = Some x → arr_get l i = Done x.
Proof. intros Hi Hx. unfold arr_get. by rewrite (proj2 (Z.leb_le _ _)), Hx by done. Qed.

Lemma arr_set_Done {A} (l : list A) i x y : 0 ≤ i → l !! Z.to_nat i = Some y →
  arr_set l i x = Done (<[Z.to_nat i := x]> l).
Proof. intros Hi Hy. unfold arr_set. by rewrite (arr_get_Done _ _ y). Qed.

(** The shape of the kernel's tables. *)
Definition kernel_ok (k : KernelTables) : Prop :=
  length (s_kernel_entries k) = 1024%nat ∧ length (s_kernel_page_tables k) = 256%nat ∧
  Forall (λ t, length t = 1024%nat) (s_kernel_page_tables k).

Lemma get_physaddr_kernel pd k va : kernel_ok k → HIGHER_HALF ≤ va < 2 ^ 32 →
  ∃ pa, get_physaddr pd k va = Done pa.
Proof.
  intros (He&Ht&Hall) Hva. unfold get_physaddr. unfold HIGHER_HALF in *. rewrite (proj2 (Z.ltb_ge _ _)) by lia.
  set (di := directory_index (va / PAGE_SIZE)).
  assert (768 ≤ di < 1024) as Hdi.
  { unfold di, directory_index, PAGE_SIZE. rewrite Zdiv_Zdiv by lia.
    assert (768 ≤ va / (4096 * 1024) < 1024) by
      (split; [apply Z.div_le_lower_bound|apply Z.div_lt_upper_bound]; lia).
    rewrite Z.mod_small; lia. }
  destruct (lookup_lt_is_Some_2 (s_kernel_entries k) (Z.to_nat di)) as [e Hde]; [lia|].
  rewrite (arr_get_Done _ _ e) by (lia || done). cbn [mbind outcome_bind].
  destruct (negb (e_present e)); [by eexists|].
  destruct (lookup_lt_is_Some_2 (s_kernel_page_tables k) (Z.to_nat (di - 768))) as [t Hdt]; [lia|].
  rewrite (arr_get_Done _ _ t) by (lia || done). cbn [mbind outcome_bind].
  assert (length t = 1024%nat) by (by apply (proj1 (Forall_lookup _ _) Hall _ _ Hdt)).
  pose proof (Z.mod_pos_bound (va / PAGE_SIZE) 1024 ltac:(lia)).
  destruct (lookup_lt_is_Some_2 t (Z.to_nat (va / PAGE_SIZE mod 1024))) as [x Hx]; [lia|].
  rewrite (arr_get_Done _ _ x) by (lia || done). by eexists.
Qed.

Section refinement.
Context (table_region : KernelTables → outcome (Z * KernelTables)).
(** The region for a page table is mapped in the kernel's part of the space. *)
Hypothesis table_region_ok : ∀ k va k', kernel_ok k → table_region k = Done (va, k') →
  HIGHER_HALF ≤ va < 2 ^ 32 ∧ kernel_ok k'.

(** What is known of the table that [map_page] and [unmap_page] work on. *)
Definition table_ok (M : pmap) (di n : Z) (es : list Z) : Prop :=
  length es = 1024%nat ∧ n = mapped_count es ∧
  ∀ ti x, 0 ≤ ti < 1024 → es !! Z.to_nat ti = Some x → M !! (di * 1024 + ti) = decode x.

Lemma alloc_page_table_ok pd k di e n : kernel_ok k → 0 ≤ di →
  m_entries pd !! Z.to_nat di = Some e → m_page_tables pd !! Z.to_nat di = Some None →
  m_page_tables_num_mapped pd !! Z.to_nat di = Some n →
  ((∀ r, table_region k ≠ Done r) ∧ ∀ r, alloc_page_table table_region pd k di ≠ Done r) ∨
  ∃ e' k', alloc_page_table table_region pd k di = Done (upd pd di e' (Some (replicate 1024 0)) n, k') ∧
    kernel_ok k' ∧ e_present e' = true.
Proof.
  intros Hk Hdi He Ht Hn. unfold alloc_page_table. rewrite (arr_get_Done _ _ None) by done. cbn [mbind outcome_bind].
  destruct (table_region k) as [[va k']| | |] eqn:Hr; [right|by left..].
  destruct (table_region_ok k va k' Hk Hr) as [Hva Hk']. cbn [mbind outcome_bind].
  rewrite (arr_set_Done _ _ _ None) by done. cbn [mbind outcome_bind].
  destruct (get_physaddr_kernel (set_tables pd (<[Z.to_nat di := Some (replicate 1024 0)]> (m_page_tables pd)))
    k' va Hk' Hva) as (pa&->). cbn [mbind outcome_bind].
  change (m_entries (set_tables pd ?t)) with (m_entries pd). rewrite (arr_get_Done _ _ e) by done.
  cbn [mbind outcome_bind]. rewrite (arr_set_Done _ _ _ e) by done. cbn [mbind outcome_bind].
  eexists _, k'. split; [|split; [done|]].
  - unfold upd, set_entries, set_tables. cbn. by rewrite (list_insert_id (m_page_tables_num_mapped pd)).
  - unfold e_present. rewrite !Z.setbit_eqb by lia. done.
Qed.

Lemma need_table_ok pd M k di e t n : pd_rep pd M → kernel_ok k → 0 ≤ di < 768 →
  m_entries pd !! Z.to_nat di = Some e → m_page_tables pd !! Z.to_nat di = Some t →
  m_page_tables_num_mapped pd !! Z.to_nat di = Some n →
  ((∀ r, table_region k ≠ Done r) ∧ ∀ r, need_table table_region pd k di ≠ Done r) ∨
  ∃ e' es k', need_table table_region pd k di = Done (upd pd di e' (Some es) n, k', es) ∧
    kernel_ok k' ∧ e_present e' = true ∧ table_ok M di n es.
Proof.
  intros Hrep Hk Hdi He Ht Hn. pose proof (pr_dir _ _ Hrep di e t n Hdi He Ht Hn) as Hd.
  pose proof (pr_tables _ _ Hrep).
  unfold need_table. rewrite (arr_get_Done _ _ t) by (lia || done). cbn [mbind outcome_bind].
  destruct t as [es|].
  - right. cbn [mbind outcome_bind]. rewrite (arr_get_Done _ _ (Some es)) by (lia || done).
    cbn [mbind outcome_bind]. destruct Hd as (?&?&?&_&?). exists e, es, k. rewrite upd_id by done. done.
  - destruct Hd as (_&->&HN). destruct (alloc_page_table_ok pd k di e 0 Hk ltac:(lia) He Ht Hn)
      as [[? Hno]|(e'&k'&->&Hk'&He')].
    { left. split; [done|]. intros r (x&Hx&_)%bind_Done. by eapply Hno. }
    right. cbn [mbind outcome_bind]. exists e', (replicate 1024 0), k'.
    rewrite (arr_get_Done _ _ (Some (replicate 1024 0))) by
      (lia || (cbn; apply list_lookup_insert_eq; lia)).
    split; [done|]. split_and!; [done|done|]. split_and!; [done|done|]. intros ti x Hti [-> _]%lookup_replicate.
    by rewrite HN.
Qed.

(** The page of the directory and the index in its table. *)
Lemma vpage_split v : 0 ≤ v < 768 * 1024 → 0 ≤ directory_index v < 768 ∧ 0 ≤ table_index v < 1024 ∧
  directory_index v * 1024 + table_index v = v ∧ v / 1024 = directory_index v.
Proof.
  intros Hv. unfold directory_index, table_index. pose proof (Z.div_mod v 1024). pose proof (Z.mod_pos_bound v 1024).
  assert (0 ≤ v / 1024 < 768) by (split; [apply Z.div_pos|apply Z.div_lt_upper_bound]; lia).
  rewrite (Z.mod_small (v / 1024)) by lia. lia.
Qed.

(** Replacing one entry of a table changes the map at one page. *)
Lemma table_ok_insert M di n es ti x e' m : table_ok M di n es → 0 ≤ ti < 1024 → es !! Z.to_nat ti = Some x →
  table_ok (partial_alter (λ _, m) (di * 1024 + ti) M) di
    (n - (if e_present x then 1 else 0) + (if e_present e' then 1 else 0)) (<[Z.to_nat ti := e']> es) ↔
  m = decode e'.
Proof.
  intros (Hlen&Hn&Hes) Hti Hx. unfold table_ok. rewrite length_insert, (mapped_count_insert _ _ x) by done.
  split.
  - intros (_&_&H). specialize (H ti e' Hti). rewrite list_lookup_insert_eq, lookup_partial_alter_eq in H by lia.
    by apply H.
  - intros ->. split_and!; [done|lia|]. intros tj y Htj Hy. destruct (decide (tj = ti)) as [->|].
    + rewrite list_lookup_insert_eq in Hy by lia. rewrite lookup_partial_alter_eq. congruence.
    + rewrite list_lookup_insert_ne in Hy by lia. rewrite lookup_partial_alter_ne by lia. by apply Hes.
Qed.

Definition map_fails {A} (k : KernelTables) (res : outcome A) : Prop :=
  (∀ r, table_region k ≠ Done r) ∧ ∀ r, res ≠ Done r.

(** [map_page] on a user page. *)
Lemma map_page_ok pd M k v ppage prot : pd_rep pd M → kernel_ok k → 0 ≤ v < 768 * 1024 → 0 ≤ ppage < 2 ^ 20 →
  map_fails k (map_page table_region pd k v ppage prot) ∨
  ∃ pd' k', map_page table_region pd k v ppage prot = Done (Ok tt, pd', k') ∧ kernel_ok k' ∧
    pd_rep pd' (<[v := (ppage, p_write prot)]> M).
Proof.
  intros Hrep Hk Hv Hp. destruct (vpage_split v Hv) as (Hdi&Hti&Hsp&Hdiv).
  set (di := directory_index v) in *. set (ti := table_index v) in *.
  destruct (pd_dir_at pd M di Hrep Hdi) as (e&t&n&He&Ht&Hn).
  unfold map_page. fold di ti. rewrite (proj2 (Z.ltb_lt _ _)) by lia.
  rewrite bool_decide_false by (by rewrite (pr_type _ _ Hrep); intros []).
  destruct (need_table_ok pd M k di e t n Hrep Hk Hdi He Ht Hn) as [[? Hno]|(e'&es&k'&->&Hk'&He'&Htab)].
  { left. split; [done|]. intros r (x&Hx&_)%bind_Done. by eapply Hno. }
  right. cbn [mbind outcome_bind]. pose proof Htab as (Hlen&_&_).
  destruct (lookup_lt_is_Some_2 es (Z.to_nat ti)) as [x Hx]; [lia|].
  rewrite (arr_get_Done es ti x) by (lia || done). cbn [mbind outcome_bind].
  set (n' := n - (if e_present x then 1 else 0) + 1).
  set (pd1 := upd pd di e' (Some es) n).
  assert ((if negb (e_present x) then
      n ← arr_get (m_page_tables_num_mapped pd1) di;
      ns ← arr_set (m_page_tables_num_mapped pd1) di (n + 1); Done (set_num_mapped pd1 ns)
    else Done pd1) = Done (upd pd di e' (Some es) n')) as ->.
  { pose proof (lookup_lt_Some _ _ _ Hn). unfold n'. destruct (e_present x); cbn [negb].
    - unfold pd1. do 2 f_equal. lia.
    - rewrite (arr_get_Done _ _ n) by (lia || by apply list_lookup_insert_eq). cbn [mbind outcome_bind].
      rewrite (arr_set_Done _ _ _ n) by (lia || by apply list_lookup_insert_eq). cbn [mbind outcome_bind].
      unfold pd1, upd, set_num_mapped. cbn. rewrite list_insert_insert_eq. do 3 f_equal. lia. }
  cbn [mbind outcome_bind]. rewrite (arr_set_Done _ _ _ x) by (lia || done). cbn [mbind outcome_bind].
  rewrite (arr_set_Done _ _ _ (Some es)) by (lia || (apply list_lookup_insert_eq, (lookup_lt_Some _ _ _ Ht))).
  cbn [mbind outcome_bind]. eexists _, k'. split; [done|]. split; [done|].
  set (es' := <[Z.to_nat ti := map_entry di ppage prot x]> es).
  assert (set_tables (upd pd di e' (Some es) n')
    (<[Z.to_nat di := Some es']> (m_page_tables (upd pd di e' (Some es) n'))) = upd pd di e' (Some es') n') as ->.
  { unfold upd, set_tables. cbn. by rewrite list_insert_insert_eq. }
  assert (table_ok (<[v := (ppage, p_write prot)]> M) di n' es') as (Hl&Hc&Hm).
  { unfold n'. pose proof (map_entry_present di ppage prot x) as Hpr. rewrite <-Hsp.
    pose proof (proj2 (table_ok_insert M di n es ti x (map_entry di ppage prot x) _ Htab Hti Hx) eq_refl) as H.
    rewrite Hpr, map_entry_decode in H by done. exact H. }
  eapply pd_rep_upd; [done|done| |].
  - split_and!; [done|done|done| |done]. rewrite Hc. eapply (mapped_count_pos es' (Z.to_nat ti)).
    + apply list_lookup_insert_eq. lia.
    + apply map_entry_present.
  - intros v' Hv'. apply lookup_insert_ne. congruence.
Qed.

(** [unmap_page] on a user page: a table without pages is freed. *)
Lemma unmap_page_ok pd M k v : pd_rep pd M → kernel_ok k → 0 ≤ v < 768 * 1024 →
  map_fails k (unmap_page table_region pd k v) ∨
  ∃ pd' k', unmap_page table_region pd k v = Done (Ok tt, pd', k') ∧ kernel_ok k' ∧ pd_rep pd' (delete v M).
Proof.
  intros Hrep Hk Hv. destruct (vpage_split v Hv) as (Hdi&Hti&Hsp&Hdiv).
  set (di := directory_index v) in *. set (ti := table_index v) in *.
  destruct (pd_dir_at pd M di Hrep Hdi) as (e&t&n&He&Ht&Hn).
  pose proof (lookup_lt_Some _ _ _ Hn). pose proof (lookup_lt_Some _ _ _ Ht). pose proof (lookup_lt_Some _ _ _ He).
  unfold unmap_page. fold di ti. rewrite (proj2 (Z.ltb_lt _ _)) by lia.
  rewrite bool_decide_false by (by rewrite (pr_type _ _ Hrep); intros []).
  destruct (need_table_ok pd M k di e t n Hrep Hk Hdi He Ht Hn) as [[? Hno]|(e'&es&k'&->&Hk'&He'&Htab)].
  { left. split; [done|]. intros r (x&Hx&_)%bind_Done. by eapply Hno. }
  right. cbn [mbind outcome_bind]. pose proof Htab as (Hlen&_&_).
  destruct (lookup_lt_is_Some_2 es (Z.to_nat ti)) as [x Hx]; [lia|].
  rewrite (arr_get_Done es ti x) by (lia || done). cbn [mbind outcome_bind].
  set (n' := n - (if e_present x then 1 else 0)).
  set (pd1 := upd pd di e' (Some es) n). set (es' := <[Z.to_nat ti := 0]> es).
  assert ((if e_present x then
      n ← arr_get (m_page_tables_num_mapped pd1) di;
      ns ← arr_set (m_page_tables_num_mapped pd1) di (n - 1); Done (set_num_mapped pd1 ns)
    else Done pd1) = Done (upd pd di e' (Some es) n')) as ->.
  { unfold n'. destruct (e_present x).
    - rewrite (arr_get_Done _ _ n) by (lia || by apply list_lookup_insert_eq). cbn [mbind outcome_bind].
      rewrite (arr_set_Done _ _ _ n) by (lia || by apply list_lookup_insert_eq). cbn [mbind outcome_bind].
      unfold pd1, upd, set_num_mapped. cbn. by rewrite list_insert_insert_eq.
    - unfold pd1. do 2 f_equal. lia. }
  cbn [mbind outcome_bind]. rewrite (arr_set_Done es ti 0 x) by (lia || done). cbn [mbind outcome_bind]. fold es'.
  rewrite (arr_set_Done (m_page_tables (upd pd di e' (Some es) n')) di _ (Some es)) by
    (lia || by apply list_lookup_insert_eq). cbn [mbind outcome_bind].
  assert (set_tables (upd pd di e' (Some es) n')
    (<[Z.to_nat di := Some es']> (m_page_tables (upd pd di e' (Some es) n'))) = upd pd di e' (Some es') n') as ->.
  { unfold upd, set_tables. cbn. by rewrite list_insert_insert_eq. }
  rewrite (arr_get_Done (m_page_tables_num_mapped (upd pd di e' (Some es') n')) di n') by
    (lia || by apply list_lookup_insert_eq). cbn [mbind outcome_bind].
  assert (table_ok (delete v M) di n' es') as (Hl&Hc&Hm).
  { unfold n'. rewrite <-Hsp.
    pose proof (proj2 (table_ok_insert M di n es ti x 0 _ Htab Hti Hx) eq_refl) as Hins.
    change (e_present 0) with false in Hins. rewrite Z.add_0_r in Hins. exact Hins. }
  assert (∀ v', v' / 1024 ≠ di → delete v M !! v' = M !! v') as Hother
    by (intros v' ?; apply lookup_delete_ne; congruence).
  destruct (Z.eqb_spec n' 0) as [Hz|Hz].
  - unfold dealloc_page_table.
    rewrite (arr_get_Done _ di (Some es')) by (lia || by apply list_lookup_insert_eq). cbn [mbind outcome_bind].
    rewrite (arr_set_Done _ di None (Some es')) by (lia || by apply list_lookup_insert_eq). cbn [mbind outcome_bind].
    rewrite (arr_set_Done (m_entries _) di 0 e') by (lia || by apply list_lookup_insert_eq).
    cbn [mbind outcome_bind]. eexists _, k'. split; [done|]. split; [done|].
    assert (set_entries (set_tables (upd pd di e' (Some es') n')
      (<[Z.to_nat di := None]> (m_page_tables (upd pd di e' (Some es') n'))))
      (<[Z.to_nat di := 0]> (m_entries (upd pd di e' (Some es') n'))) = upd pd di 0 None n') as ->.
    { unfold upd, set_tables, set_entries. cbn. by rewrite !list_insert_insert_eq. }
    eapply pd_rep_upd; [done|done| |done]. split_and!; [done|done|].
    intros tj Htj. destruct (lookup_lt_is_Some_2 es' (Z.to_nat tj)) as [y Hy]; [lia|].
    rewrite (Hm tj y Htj Hy). unfold decode. by rewrite (mapped_count_zero _ _ _ Hy) by lia.
  - cbn [mbind outcome_bind]. eexists _, k'. split; [done|]. split; [done|].
    eapply pd_rep_upd; [done|done| |done]. split_and!; [done|done|done| |done].
    unfold mapped_count in Hc. lia.
Qed.

(** The queries. *)
Lemma pd_queries pd M k va : pd_rep pd M → 0 ≤ va < HIGHER_HALF →
  (∀ w, is_mapped pd k va w = Done (match M !! (va / PAGE_SIZE) with
     | Some (_, rw) => negb w || rw | None => false end)) ∧
  (∀ p rw, M !! (va / PAGE_SIZE) = Some (p, rw) → 0 ≤ p < 2 ^ 20 →
     get_physaddr pd k va = Done (p * PAGE_SIZE + va mod PAGE_SIZE)).
Proof.
  intros Hrep Hva. unfold is_mapped, get_physaddr. rewrite (proj2 (Z.ltb_lt _ _)) by lia.
  set (v := va / PAGE_SIZE). assert (0 ≤ v < 768 * 1024) as Hv.
  { unfold v, PAGE_SIZE, HIGHER_HALF in *. split; [apply Z.div_pos|apply Z.div_lt_upper_bound]; lia. }
  destruct (vpage_split v Hv) as (Hdi&Hti&Hsp&_). change (v mod 1024) with (table_index v).
  set (di := directory_index v) in *. set (ti := table_index v) in *.
  destruct (pd_dir_at pd M di Hrep Hdi) as (e&t&n&He&Ht&Hn).
  pose proof (pr_dir _ _ Hrep di e t n Hdi He Ht Hn) as Hd.
  rewrite !(arr_get_Done (m_entries pd) di e) by (lia || done). cbn [mbind outcome_bind].
  rewrite !(arr_get_Done (m_page_tables pd) di t) by (lia || done). cbn [mbind outcome_bind].
  destruct t as [es|]; unfold dir_ok in Hd.
  - destruct Hd as (->&Hlen&_&_&Hes). cbn [negb].
    destruct (lookup_lt_is_Some_2 es (Z.to_nat ti)) as [x Hx]; [lia|].
    rewrite !(arr_get_Done es ti x) by (lia || done). cbn [mbind outcome_bind].
    pose proof (Hes ti x Hti Hx) as HM. rewrite Hsp in HM. rewrite HM. unfold decode.
    split.
    + intros w. destruct (e_present x), w, (e_read_write x); done.
    + intros p rw. destruct (e_present x); [|done]. intros [= <- <-] Hp.
      assert (e_get_address x / PAGE_SIZE * PAGE_SIZE = e_get_address x) as ->.
      { unfold e_get_address, PAGE_SIZE. rewrite Z.shiftl_mul_pow2 by lia. change (2 ^ 12) with 4096.
        by rewrite Z.div_mul by lia. }
      f_equal. apply u32_id. pose proof (Z.mod_pos_bound va PAGE_SIZE). unfold PAGE_SIZE in *.
      pose proof (Z.div_mod (e_get_address x) 4096). pose proof (Z.mod_pos_bound (e_get_address x) 4096).
      assert (e_get_address x mod 4096 = 0).
      { unfold e_get_address. rewrite Z.shiftl_mul_pow2 by lia. by apply Z.mod_mul. }
      lia.
  - destruct Hd as (->&_&HN). specialize (HN ti Hti). rewrite Hsp in HN. rewrite HN. split; [|done].
    intros w. done.
Qed.
End refinement.

(** ** Theorems *)

Inductive pd_op : Type :=
  | PMap (vpage ppage : Z) (prot : VMProt)
  | PUnmap (vpage : Z).

Definition pd_op_ok (op : pd_op) : bool :=
  match op with
  | PMap v p _ => (0 <=? v) && (v <? 768 * 1024) && (0 <=? p) && (p <? 2 ^ 20)
  | PUnmap v => (0 <=? v) && (v <? 768 * 1024)
  end.

Fixpoint pd_run (table_region : KernelTables → outcome (Z * KernelTables)) (ops : list pd_op)
    (pd : PageDirectory) (k : KernelTables) : outcome (PageDirectory * KernelTables) :=
  match ops with
  | [] => Done (pd, k)
  | PMap v p prot :: ops => '(_, pd, k) ← map_page table_region pd k v p prot; pd_run table_region ops pd k
  | PUnmap v :: ops => '(_, pd, k) ← unmap_page table_region pd k v; pd_run table_region ops pd k
  end.

Definition pd_spec (M : pmap) (op : pd_op) : pmap :=
  match op with PMap v p prot => <[v := (p, p_write prot)]> M | PUnmap v => delete v M end.

Definition pmap_ok (M : pmap) : Prop := ∀ v p rw, M !! v = Some (p, rw) → 0 ≤ p < 2 ^ 20.

Lemma pd_spec_ok M op : pmap_ok M → pd_op_ok op = true → pmap_ok (pd_spec M op).
Proof.
  intros HM Hop v p rw. destruct op as [v' p' prot|v']; cbn [pd_op_ok pd_spec] in *.
  - intros [[_ [= <- _]]|[_ Hv]]%lookup_insert_Some; [lia|by eapply HM].
  - intros [_ Hv]%lookup_delete_Some. by eapply HM.
Qed.

Lemma pd_run_ok table_region
    (Htr : ∀ k va k', kernel_ok k → table_region k = Done (va, k') → HIGHER_HALF ≤ va < 2 ^ 32 ∧ kernel_ok k')
    ops : ∀ pd k M pd' k', pd_rep pd M → pmap_ok M → kernel_ok k → forallb pd_op_ok ops = true →
  pd_run table_region ops pd k = Done (pd', k') →
  pd_rep pd' (foldl pd_spec M ops) ∧ pmap_ok (foldl pd_spec M ops) ∧ kernel_ok k'.
Proof.
  induction ops as [|op ops IH]; intros pd k M pd' k' Hrep HM Hk Hops Hr; cbn [pd_run foldl] in *.
  { by injection Hr as <- <-. }
  apply andb_true_iff in Hops as [Hop Hops]. pose proof (pd_spec_ok M op HM Hop) as HM'.
  destruct op as [v p prot|v]; cbn [pd_op_ok pd_spec] in *; apply bind_Done in Hr as ([[r pd1] k1]&Hs&Hr).
  - destruct (map_page_ok table_region Htr pd M k v p prot) as [[_ Hno]|(pd2&k2&Hs2&Hk2&Hrep2)];
      [done|done|lia|lia|by destruct (Hno (r, pd1, k1))|].
    rewrite Hs in Hs2. injection Hs2 as -> -> ->. by eapply IH.
  - destruct (unmap_page_ok table_region Htr pd M k v) as [[_ Hno]|(pd2&k2&Hs2&Hk2&Hrep2)];
      [done|done|lia|by destruct (Hno (r, pd1, k1))|].
    rewrite Hs in Hs2. injection Hs2 as -> -> ->. by eapply IH.
Qed.

Lemma pd_new_rep k : kernel_ok k → pd_rep (pd_new k USER) ∅.
Proof.
  intros (He&_&_). split; cbn [pd_new pd_type m_entries m_page_tables m_page_tables_num_mapped].
  - done.
  - rewrite length_app, length_replicate, length_drop. lia.
  - done.
  - done.
  - intros di e t n Hdi Hde Ht Hn. apply lookup_replicate in Ht as [-> _], Hn as [-> _].
    rewrite lookup_app_l in Hde by (rewrite length_replicate; lia). apply lookup_replicate in Hde as [-> _].
    split_and!; [done|done|]. intros. apply lookup_empty.
  - intros v. rewrite lookup_empty. by intros [].
Qed.

(** C22: a user page directory is a map from pages to pages: after any sequence of
    [map_page] and [unmap_page] on user pages that ends, [is_mapped] and
    [get_physaddr] answer for every user address what the last call for its
    page said, a page table exists exactly when a page of its range is mapped,
    and the next call succeeds unless the memory for a table is refused. *)
Theorem page_directory_refines_map table_region k ops pd k' :
  (∀ k va k', kernel_ok k → table_region k = Done (va, k') → HIGHER_HALF ≤ va < 2 ^ 32 ∧ kernel_ok k') →
  kernel_ok k → forallb pd_op_ok ops = true → pd_run table_region ops (pd_new k USER) k = Done (pd, k') →
  let M := foldl pd_spec ∅ ops in
  (∀ va w, 0 ≤ va < HIGHER_HALF → is_mapped pd k' va w =
     Done (match M !! (va / PAGE_SIZE) with Some (_, rw) => negb w || rw | None => false end)) ∧
  (∀ va p rw, 0 ≤ va < HIGHER_HALF → M !! (va / PAGE_SIZE) = Some (p, rw) →
     get_physaddr pd k' va = Done (p * PAGE_SIZE + va mod PAGE_SIZE)) ∧
  (∀ di t, 0 ≤ di < 768 → m_page_tables pd !! Z.to_nat di = Some t →
     (t = None ↔ ∀ ti, 0 ≤ ti < 1024 → M !! (di * 1024 + ti) = None)) ∧
  (∀ op, pd_op_ok op = true →
     (∃ r, pd_run table_region [op] pd k' = Done r) ∨ ∀ r, table_region k' ≠ Done r).
Proof.
  intros Htr Hk Hops Hr M.
  destruct (pd_run_ok table_region Htr ops (pd_new k USER) k ∅ pd k') as (Hrep&HM&Hk'); [by apply pd_new_rep|
    intros ???; by rewrite lookup_empty|done..|]. fold M in Hrep, HM.
  split_and!.
  - intros va w Hva. by apply (proj1 (pd_queries pd M k' va Hrep Hva)).
  - intros va p rw Hva Hp. eapply (proj2 (pd_queries pd M k' va Hrep Hva)); [done|by eapply HM].
  - intros di t Hdi Ht. destruct (pd_dir_at pd M di Hrep Hdi) as (e&t'&n&He&Ht'&Hn).
    rewrite Ht in Ht'. injection Ht' as <-. pose proof (pr_dir _ _ Hrep di e t n Hdi He Ht Hn) as Hd.
    destruct t as [es|]; unfold dir_ok in Hd; [|by destruct Hd as (_&_&?)].
    destruct Hd as (_&Hlen&Hcount&Hpos&Hes). split; [done|]. intros HN. exfalso.
    rewrite mapped_count_none in Hcount; [lia|]. intros i x Hx. pose proof (lookup_lt_Some _ _ _ Hx).
    pose proof (Hes (Z.of_nat i) x ltac:(lia) ltac:(by rewrite Nat2Z.id)) as Hd.
    rewrite HN in Hd by lia. unfold decode in Hd. by destruct (e_present x).
  - intros op Hop. destruct op as [v p prot|v]; cbn [pd_op_ok pd_run] in *.
    + destruct (map_page_ok table_region Htr pd M k' v p prot) as [[? _]|(pd2&k2&->&_)];
        [done|done|lia|lia|by right|left; by eexists].
    + destruct (unmap_page_ok table_region Htr pd M k' v) as [[? _]|(pd2&k2&->&_)];
        [done|done|lia|by right|left; by eexists].
Qed.

Lemma pd_run_total table_region
    (Htr : ∀ k va k', kernel_ok k → table_region k = Done (va, k') → HIGHER_HALF ≤ va < 2 ^ 32 ∧ kernel_ok k')
    (Htot : ∀ k, kernel_ok k → ∃ r, table_region k = Done r) ops : ∀ pd k M,
  pd_rep pd M → kernel_ok k → forallb pd_op_ok ops = true →
  ∃ pd' k', pd_run table_region ops pd k = Done (pd', k').
Proof.
  induction ops as [|op ops IH]; intros pd k M Hrep Hk Hops; cbn [pd_run]; [by eexists _, _|].
  apply andb_true_iff in Hops as [Hop Hops]. destruct (Htot k Hk) as [r Hr].
  destruct op as [v p prot|v]; cbn [pd_op_ok] in Hop.
  - destruct (map_page_ok table_region Htr pd M k v p prot) as [[Hno _]|(pd2&k2&->&Hk2&Hrep2)];
      [done|done|lia|lia|by destruct (Hno r)|]. by eapply IH.
  - destruct (unmap_page_ok table_region Htr pd M k v) as [[Hno _]|(pd2&k2&->&Hk2&Hrep2)];
      [done|done|lia|by destruct (Hno r)|]. by eapply IH.
Qed.

Definition sample_kernel : KernelTables := mk_kernel (replicate 1024 0) (replicate 256 (replicate 1024 0)).

Lemma sample_kernel_ok : kernel_ok sample_kernel.
Proof.
  split_and!; [apply length_replicate|apply length_replicate|]. apply Forall_replicate, length_replicate.
Qed.

(** Page tables at the start of the kernel's part. *)
Definition sample_region (k : KernelTables) : outcome (Z * KernelTables) := Done (HIGHER_HALF, k).

Lemma sample_region_ok k va k' : kernel_ok k → sample_region k = Done (va, k') →
  HIGHER_HALF ≤ va < 2 ^ 32 ∧ kernel_ok k'.
Proof. intros Hk [= <- <-]. unfold HIGHER_HALF. split; [lia|done]. Qed.

Lemma page_directory_refines_map_witness :
  ∃ pd k', pd_run sample_region [PMap 3 7 prot_RW; PMap 2000 8 prot_R; PUnmap 3] (pd_new sample_kernel USER)
      sample_kernel = Done (pd, k') ∧
    is_mapped pd k' 12288 false = Done false ∧ is_mapped pd k' 8192004 false = Done true ∧
    is_mapped pd k' 8192004 true = Done false ∧ get_physaddr pd k' 8192004 = Done 32772 ∧
    m_page_tables pd !! 0%nat = Some None.
Proof.
  set (ops := [PMap 3 7 prot_RW; PMap 2000 8 prot_R; PUnmap 3]).
  destruct (pd_run_total sample_region sample_region_ok (λ k _, ex_intro _ _ eq_refl) ops (pd_new sample_kernel USER)
    sample_kernel ∅ (pd_new_rep _ sample_kernel_ok) sample_kernel_ok eq_refl) as (pd&k'&Hr).
  destruct (page_directory_refines_map sample_region sample_kernel ops pd k' sample_region_ok sample_kernel_ok
    eq_refl Hr) as (Hm&Hp&Ht&_).
  assert (12288 < HIGHER_HALF ∧ 8192004 < HIGHER_HALF) as [? ?] by (unfold HIGHER_HALF; lia).
  exists pd, k'. split; [exact Hr|]. split; [rewrite Hm by lia; reflexivity|].
  split; [rewrite Hm by lia; reflexivity|]. split; [rewrite Hm by lia; reflexivity|].
  split; [rewrite (Hp 8192004 8 false) by (lia || reflexivity); reflexivity|].
  destruct (pd_run_ok sample_region sample_region_ok ops (pd_new sample_kernel USER) sample_kernel ∅ pd k')
    as (Hrep&_); [by apply pd_new_rep, sample_kernel_ok|intros ???; by rewrite lookup_empty|
    apply sample_kernel_ok|done|done|].
  destruct (lookup_lt_is_Some_2 (m_page_tables pd) 0) as [t Ht0]; [rewrite (pr_tables _ _ Hrep); lia|].
  rewrite Ht0. f_equal. apply (Ht 0 t); [lia|exact Ht0|]. intros ti Hti. cbn [foldl pd_spec ops].
  destruct (decide (ti = 3)) as [->|]; [reflexivity|].
  rewrite lookup_delete_ne, !lookup_insert_ne by lia. apply lookup_empty.
Defined.

(** The second page of an object is copy-on-write; a region shows the object
    from its second page on. *)
Definition shifted_object : outcome VMObject :=
  b ← bitmap_new (replicate 8 0) 2 false;
  b ← set b 1 true;
  Done (mk_object [0; 9] b 8192 (AnonymousObject (anon_default 1))).
Definition shifted_region : VMRegion := mk_vmregion 1 4096 4096 4096 prot_RW true.

(** A page that must be copied before it is written can be mapped writable:
    for a region that does not start at the beginning of its object, [map] looks
    up the copy-on-write bit of the wrong page. *)
Theorem cow_page_mapped_writable :
  (o ← shifted_object;
   c ← page_is_cow o 1;
   '(pd, k) ← pd_map sample_region o shifted_region 0 0 (pd_new sample_kernel USER) sample_kernel;
   w ← is_mapped pd k 4096 true;
   pa ← get_physaddr pd k 4096;
   Done (c, w, pa)) = Done (true, true, 9 * PAGE_SIZE).
Proof. vm_compute. reflexivity. Qed.
