(* ===== verification/VMSpace.v ===== *)
(** * Memory spaces (kernel/memory/VMSpace.cpp, VMSpace.h)

    A space is cut into regions, used or free, kept in a doubly linked list in
    address order.  The list nodes live in a heap [sp_heap] indexed by address,
    so that the pointer surgery of the code is modelled as it is written, leaks
    included.  [regions_of] relates the heap to the list of regions, and the
    theorems are about that list: it always tiles the space, neighbouring free
    regions are always merged, and [m_used] is exact. *)

From stdpp Require Import base numbers list option gmap sets relations.
From S2P Require Import Prelude.
From S2P Require Import Bitmap.
From S2P Require Import PhysicalPage.
From S2P Require Import PhysicalRegion.
From S2P Require Import Frames.
From S2P Require Import VMObject.
From S2P Require Import PageDirectory.

Local Open Scope Z_scope.

Abbreviation loc := positive.

(** ** The nodes *)

Record VMSpaceRegion : Type := mk_sr {
  sr_start : Z;
  sr_size : Z;
  sr_used : bool;
  sr_next : option loc;
  sr_prev : option loc;
  sr_vmRegion : option Z;
}.

#[export] Instance VMSpaceRegion_eq_dec : EqDecision VMSpaceRegion.
Proof. solve_decision. Defined.

Definition sr_end (r : VMSpaceRegion) : Z := u32 (sr_start r + sr_size r).
Definition sr_contains (r : VMSpaceRegion) (address : Z) : bool :=
  (sr_start r <=? address) && (address <? sr_end r).

Definition with_next (n : option loc) (r : VMSpaceRegion) : VMSpaceRegion :=
  mk_sr (sr_start r) (sr_size r) (sr_used r) n (sr_prev r) (sr_vmRegion r).
Definition with_prev (p : option loc) (r : VMSpaceRegion) : VMSpaceRegion :=
  mk_sr (sr_start r) (sr_size r) (sr_used r) (sr_next r) p (sr_vmRegion r).
Definition with_range (start size : Z) (r : VMSpaceRegion) : VMSpaceRegion :=
  mk_sr start size (sr_used r) (sr_next r) (sr_prev r) (sr_vmRegion r).
Definition with_used (u : bool) (r : VMSpaceRegion) : VMSpaceRegion :=
  mk_sr (sr_start r) (sr_size r) u (sr_next r) (sr_prev r) (sr_vmRegion r).
Definition with_vmRegion (v : option Z) (r : VMSpaceRegion) : VMSpaceRegion :=
  mk_sr (sr_start r) (sr_size r) (sr_used r) (sr_next r) (sr_prev r) v.

Abbreviation heap := (gmap loc VMSpaceRegion).

Record VMSpace : Type := mk_space {
  sp_start : Z;
  sp_size : Z;
  m_region_map : option loc;
  m_used : Z;
  sp_heap : heap;
  (** the address of the next node to be allocated *)
  sp_fresh : loc;
}.

(** Access through a pointer: a node that does not exist is undefined behaviour. *)
Definition deref (h : heap) (p : option loc) : outcome VMSpaceRegion :=
  match p with
  | Some a => match h !! a with Some r => Done r | None => Undef end
  | None => Undef
  end.

Definition update (h : heap) (a : loc) (f : VMSpaceRegion → VMSpaceRegion) : outcome heap :=
  r ← deref h (Some a); Done (<[a := f r]> h).

(** [if(p) p->... = ...]. *)
Definition update_opt (h : heap) (p : option loc) (f : VMSpaceRegion → VMSpaceRegion) : outcome heap :=
  match p with Some a => update h a f | None => Done h end.

(** A node that has been allocated and not written to. *)
Definition raw_node : VMSpaceRegion := mk_sr 0 0 false None None None.

Definition space_new (start size : Z) : VMSpace :=
  mk_space start size (Some 1%positive) 0 {[1%positive := mk_sr start size false None None None]} 2%positive.

(** The loops [while(cur_region) {... cur_region = cur_region->next;}]: the first
    node that the test accepts. *)
Fixpoint walk (fuel : nat) (h : heap) (cur : option loc) (test : VMSpaceRegion → bool)
    : outcome (option loc) :=
  match cur with
  | None => Done None
  | Some a =>
      match fuel with
      | O => NoFuel
      | S fuel =>
          r ← deref h (Some a);
          if test r then Done (Some a) else walk fuel h (sr_next r) test
      end
  end.

(** No list is longer than the heap. *)
Definition list_fuel (sp : VMSpace) : nat := S (size (sp_heap sp)).

Definition find_node (sp : VMSpace) (test : VMSpaceRegion → bool) : outcome (option loc) :=
  walk (list_fuel sp) (sp_heap sp) (m_region_map sp) test.

Definition with_heap (sp : VMSpace) (h : heap) : VMSpace :=
  mk_space (sp_start sp) (sp_size sp) (m_region_map sp) (m_used sp) h (sp_fresh sp).

(** ** Allocation *)

Definition alloc_space (sp : VMSpace) (sz : Z) : outcome (result loc * VMSpace) :=
  _ ← kassert (sz mod PAGE_SIZE =? 0);
  let new_region := sp_fresh sp in
  let fresh := Pos.succ (sp_fresh sp) in
  cur ← find_node sp (λ r, negb (sr_used r || (sr_size r <? sz)));
  match cur with
  | None => Done (Err ENOMEM, mk_space (sp_start sp) (sp_size sp) (m_region_map sp) (m_used sp) (sp_heap sp) fresh)
  | Some cur_region =>
      r ← deref (sp_heap sp) (Some cur_region);
      if sr_size r =? sz then
        h ← update (sp_heap sp) cur_region (with_used true);
        Done (Ok cur_region,
              mk_space (sp_start sp) (sp_size sp) (m_region_map sp) (u32 (m_used sp + sr_size r)) h fresh)
      else
        let h := <[new_region := mk_sr (sr_start r) sz true (Some cur_region) (sr_prev r) None]> (sp_heap sp) in
        h ← update_opt h (sr_prev r) (with_next (Some new_region));
        h ← update h cur_region (λ r, with_prev (Some new_region)
              (with_range (u32 (sr_start r + sz)) (u32 (sr_size r - sz)) r));
        let map := if decide (m_region_map sp = Some cur_region) then Some new_region else m_region_map sp in
        Done (Ok new_region, mk_space (sp_start sp) (sp_size sp) map (u32 (m_used sp + sz)) h fresh)
  end.

(** The two nodes that [alloc_space_at] allocates before it looks. *)
Definition node_before (sp : VMSpace) : loc := sp_fresh sp.
Definition node_after (sp : VMSpace) : loc := Pos.succ (sp_fresh sp).

Definition alloc_space_at (sp : VMSpace) (sz address : Z) : outcome (result loc * VMSpace) :=
  _ ← kassert (address mod PAGE_SIZE =? 0);
  _ ← kassert (sz mod PAGE_SIZE =? 0);
  let before := node_before sp in
  let after := node_after sp in
  let fresh := Pos.succ (Pos.succ (sp_fresh sp)) in
  let leaked := <[after := raw_node]> (<[before := raw_node]> (sp_heap sp)) in
  let same h := mk_space (sp_start sp) (sp_size sp) (m_region_map sp) (m_used sp) h fresh in
  cur ← find_node sp (λ r, sr_contains r address);
  match cur with
  | None => Done (Err ENOMEM, same leaked)
  | Some cur_region =>
      r ← deref (sp_heap sp) (Some cur_region);
      if sr_used r then Done (Err ENOMEM, same (sp_heap sp))
      else if sr_size r =? sz then
        h ← update (sp_heap sp) cur_region (with_used true);
        Done (Ok cur_region,
              mk_space (sp_start sp) (sp_size sp) (m_region_map sp) (u32 (m_used sp + sr_size r)) h fresh)
      else if sz <=? u32 (sr_size r - (address - sr_start r)) then
        '(h, map) ← (if sr_start r <? address then
            let h := <[before := mk_sr (sr_start r) (u32 (address - sr_start r)) false (Some cur_region)
                                   (sr_prev r) None]> (sp_heap sp) in
            h ← update_opt h (sr_prev r) (with_next (Some before));
            h ← update h cur_region (with_prev (Some before));
            Done (h, if decide (m_region_map sp = Some cur_region) then Some before else m_region_map sp)
          else Done (sp_heap sp, m_region_map sp));
        h ← (if u32 (address + sz) <? sr_end r then
            let h := <[after := mk_sr (u32 (address + sz)) (u32 (sr_end r - (address + sz))) false (sr_next r)
                                  (Some cur_region) None]> h in
            h ← update_opt h (sr_next r) (with_prev (Some after));
            update h cur_region (with_next (Some after))
          else Done h);
        h ← update h cur_region (λ r, with_used true (with_range address sz r));
        Done (Ok cur_region, mk_space (sp_start sp) (sp_size sp) map (u32 (m_used sp + sz)) h fresh)
      else Done (Err ENOMEM, same leaked)
  end.

(** ** Freeing *)

(** [free_region], its first half: the region before is merged. *)
Definition merge_prev (h : heap) (map : option loc) (region : loc)
    : outcome (heap * option loc * option loc) :=
  r ← deref h (Some region);
  match sr_prev r with
  | None => Done (h, map, None)
  | Some p =>
      rp ← deref h (Some p);
      if sr_used rp then Done (h, map, None)
      else
        h ← update h region (with_prev (sr_prev rp));
        h ← update_opt h (sr_prev rp) (with_next (Some region));
        h ← update h region (λ r, with_range (u32 (sr_start r - sr_size rp)) (u32 (sr_size r + sr_size rp)) r);
        Done (h, if decide (map = Some p) then Some region else map, Some p)
  end.

(** Its second half: the region after is merged. *)
Definition merge_next (h : heap) (region : loc) : outcome (heap * option loc) :=
  r ← deref h (Some region);
  match sr_next r with
  | None => Done (h, None)
  | Some n =>
      rn ← deref h (Some n);
      if sr_used rn then Done (h, None)
      else
        h ← update h region (with_next (sr_next rn));
        h ← update_opt h (sr_next rn) (with_prev (Some region));
        h ← update h region (λ r, with_range (sr_start r) (u32 (sr_size r + sr_size rn)) r);
        Done (h, Some n)
  end.

Definition delete_opt (h : heap) (p : option loc) : heap :=
  match p with Some a => delete a h | None => h end.

Definition free_region (sp : VMSpace) (region : loc) : outcome VMSpace :=
  r ← deref (sp_heap sp) (Some region);
  h ← update (sp_heap sp) region (λ r, with_vmRegion None (with_used false r));
  let used := u32 (m_used sp - sr_size r) in
  '(h, map, to_delete0) ← merge_prev h (m_region_map sp) region;
  '(h, to_delete1) ← merge_next h region;
  Done (mk_space (sp_start sp) (sp_size sp) map used (delete_opt (delete_opt h to_delete0) to_delete1)
          (sp_fresh sp)).

(** ** Lookups *)

Definition find_free_space (sp : VMSpace) (sz : Z) : outcome (result Z) :=
  cur ← find_node sp (λ r, negb (sr_used r) && (sz <=? sr_size r));
  match cur with
  | None => Done (Err ENOMEM)
  | Some a => r ← deref (sp_heap sp) (Some a); Done (Ok (sr_start r))
  end.

(** The region a lookup ended at, by the number of its [VMRegion]. *)
Definition region_found (sp : VMSpace) (cur : option loc) : outcome (result Z) :=
  match cur with
  | None => Done (Err ENOENT)
  | Some a =>
      r ← deref (sp_heap sp) (Some a);
      match sr_vmRegion r with Some v => Done (Ok v) | None => Done (Err ENOENT) end
  end.

Definition get_region_at (sp : VMSpace) (address : Z) : outcome (result Z) :=
  cur ← find_node sp (λ r, sr_start r =? address); region_found sp cur.

Definition get_region_containing (sp : VMSpace) (address : Z) : outcome (result Z) :=
  cur ← find_node sp (λ r, sr_contains r address); region_found sp cur.

Definition reserve_region (sp : VMSpace) (start sz : Z) : outcome (result unit * VMSpace) :=
  '(r, sp) ← alloc_space_at sp sz start;
  Done (match r with Ok _ => Ok tt | Err e => Err e end, sp).

(** The first loop of [map_stack]: the last node of the list. *)
Fixpoint walk_last (fuel : nat) (h : heap) (cur : option loc) : outcome (option loc) :=
  match fuel with
  | O => NoFuel
  | S fuel =>
      r ← deref h cur;
      match sr_next r with None => Done cur | Some n => walk_last fuel h (Some n) end
  end.

(** Its second loop: the condition looks at the node before it tests the
    pointer. *)
Fixpoint walk_back (fuel : nat) (h : heap) (cur : option loc) (sz : Z) : outcome (option loc) :=
  match fuel with
  | O => NoFuel
  | S fuel =>
      r ← deref h cur;
      if (sr_used r || (sr_size r <? sz)) && bool_decide (is_Some cur) then walk_back fuel h (sr_prev r) sz
      else Done cur
  end.

(** The address at which [map_stack] maps an object of [sz] bytes. *)
Definition stack_address (sp : VMSpace) (sz : Z) : outcome (result Z) :=
  cur ← walk_last (list_fuel sp) (sp_heap sp) (m_region_map sp);
  cur ← walk_back (list_fuel sp) (sp_heap sp) cur sz;
  match cur with
  | None => Done (Err ENOMEM)
  | Some a => r ← deref (sp_heap sp) (Some a); Done (Ok (u32 (sr_end r - sz)))
  end.

(** ** The list *)

(** A region of the list, with the address of its node. *)
Record region : Type := mk_reg {
  g_loc : loc;
  g_start : Z;
  g_size : Z;
  g_used : bool;
  g_vm : option Z;
}.

Definition node_of (g : region) (n p : option loc) : VMSpaceRegion :=
  mk_sr (g_start g) (g_size g) (g_used g) n p (g_vm g).

Definition head_loc (l : list region) (n : option loc) : option loc :=
  match l with [] => n | g :: _ => Some (g_loc g) end.
Definition last_loc (p : option loc) (l : list region) : option loc := foldl (λ _ g, Some (g_loc g)) p l.

(** The nodes of [l] are linked in the heap, from [p] before to [n] after. *)
Fixpoint seg (p : option loc) (l : list region) (n : option loc) (h : heap) : Prop :=
  match l with
  | [] => True
  | g :: l => h !! g_loc g = Some (node_of g (head_loc l n) p) ∧ seg (Some (g_loc g)) l n h
  end.

Lemma head_loc_app l1 l2 n : head_loc (l1 ++ l2) n = head_loc l1 (head_loc l2 n).
Proof. by destruct l1. Qed.

Lemma last_loc_app p l1 l2 : last_loc p (l1 ++ l2) = last_loc (last_loc p l1) l2.
Proof. apply foldl_app. Qed.

Lemma seg_app p l1 l2 n h :
  seg p (l1 ++ l2) n h ↔ seg p l1 (head_loc l2 n) h ∧ seg (last_loc p l1) l2 n h.
Proof.
  revert p. induction l1 as [|g l1 IH]; intros p; cbn; [tauto|]. rewrite IH, head_loc_app. tauto.
Qed.

Lemma seg_frame p l n h h' : (∀ g, g ∈ l → h' !! g_loc g = h !! g_loc g) → seg p l n h → seg p l n h'.
Proof.
  revert p. induction l as [|g l IH]; intros p Hh; cbn; [done|]. intros [Hg Hl].
  split; [by rewrite Hh by left|]. apply IH; [|done]. intros g' Hg'. apply Hh. by right.
Qed.

Lemma seg_insert p l n h a r : a ∉ (g_loc <$> l) → seg p l n h → seg p l n (<[a := r]> h).
Proof.
  intros Ha. apply seg_frame. intros g Hg. apply lookup_insert_ne. intros ->. apply Ha.
  apply list_elem_of_fmap. by exists g.
Qed.

Lemma seg_delete p l n h a : a ∉ (g_loc <$> l) → seg p l n h → seg p l n (delete a h).
Proof.
  intros Ha. apply seg_frame. intros g Hg. apply lookup_delete_ne. intros ->. apply Ha.
  apply list_elem_of_fmap. by exists g.
Qed.

(** Setting the link after the last node of a list, and before its first. *)
Lemma seg_set_next p l n n' h : NoDup (g_loc <$> l) → seg p l n h →
  ∃ h', update_opt h (last_loc None l) (with_next n') = Done h' ∧ seg p l n' h' ∧
    ∀ a, a ∉ (g_loc <$> l) → h' !! a = h !! a.
Proof.
  destruct l as [|g l] using rev_ind; [by exists h|]. clear IHl. rewrite fmap_app, last_loc_app.
  intros [_ [Hni _]]%NoDup_app [Hl Hg]%seg_app. cbn in Hg. destruct Hg as [Hg _].
  cbn [last_loc foldl update_opt]. unfold update, deref. rewrite Hg. cbn [mbind outcome_bind].
  eexists. split; [done|]. split.
  - apply seg_app. split.
    + apply seg_insert; [|done]. intros Ha. apply (Hni _ Ha). cbn. by left.
    + cbn. split; [|done]. by rewrite lookup_insert_eq.
  - intros a Ha. apply lookup_insert_ne. intros <-. apply Ha. rewrite elem_of_app. right. cbn. by left.
Qed.

Lemma seg_set_prev p p' l n h : NoDup (g_loc <$> l) → seg p l n h →
  ∃ h', update_opt h (head_loc l None) (with_prev p') = Done h' ∧ seg p' l n h' ∧
    ∀ a, a ∉ (g_loc <$> l) → h' !! a = h !! a.
Proof.
  destruct l as [|g l]; [by exists h|]. cbn. intros [Hni _]%NoDup_cons [Hg Hl].
  unfold update, deref. rewrite Hg. cbn [mbind outcome_bind]. eexists. split; [done|]. split.
  - split; [by rewrite lookup_insert_eq|]. by apply seg_insert.
  - intros a Ha. apply lookup_insert_ne. intros <-. apply Ha. by left.
Qed.

(** *** The list of a space *)

Record regions_of (sp : VMSpace) (l : list region) : Prop := {
  ro_head : m_region_map sp = head_loc l None;
  ro_seg : seg None l None (sp_heap sp);
  ro_nodup : NoDup (g_loc <$> l);
  ro_fresh a : is_Some (sp_heap sp !! a) → (a < sp_fresh sp)%positive;
}.

Lemma seg_lookup p l n h g : seg p l n h → g ∈ l → is_Some (h !! g_loc g).
Proof.
  revert p. induction l as [|g' l IH]; intros p; [by intros _ ?%not_elem_of_nil|]. cbn.
  intros [Hg Hl] [->|Hin]%elem_of_cons; [by rewrite Hg|eauto].
Qed.

Lemma ro_loc sp l g : regions_of sp l → g ∈ l → (g_loc g < sp_fresh sp)%positive.
Proof. intros [] Hg. by eapply ro_fresh0, seg_lookup. Qed.

Lemma ro_loc_fresh sp l a : regions_of sp l → (sp_fresh sp ≤ a)%positive → a ∉ (g_loc <$> l).
Proof.
  intros Hr Ha (g&->&Hg)%list_elem_of_fmap. pose proof (ro_loc _ _ _ Hr Hg). lia.
Qed.

Lemma ro_fuel sp l : regions_of sp l → (length l < list_fuel sp)%nat.
Proof.
  intros []. unfold list_fuel. rewrite <-(length_fmap g_loc l). apply Nat.lt_succ_r.
  rewrite <-size_dom, <-(size_list_to_set (C := gset loc)) by done. apply subseteq_size. intros a Ha.
  apply elem_of_list_to_set, list_elem_of_fmap in Ha as (g&->&Hg). apply elem_of_dom. by eapply seg_lookup.
Qed.

(** A search through the list. *)
Lemma walk_spec test t fuel l : ∀ p h, (∀ g n p, test (node_of g n p) = t g) →
  seg p l None h → (length l < fuel)%nat →
  (walk fuel h (head_loc l None) test = Done None ∧ ∀ g, g ∈ l → t g = false) ∨
  ∃ l1 g l2, l = l1 ++ g :: l2 ∧ (∀ g, g ∈ l1 → t g = false) ∧ t g = true ∧
    walk fuel h (head_loc l None) test = Done (Some (g_loc g)).
Proof.
  revert fuel. induction l as [|g l IH]; intros fuel p h Ht Hl Hf; cbn [head_loc walk].
  { destruct fuel; left; (split; [done|intros g ?%not_elem_of_nil; done]). }
  destruct fuel as [|fuel]; [cbn in Hf; lia|]. destruct Hl as [Hg Hl].
  cbn [walk]. unfold deref. rewrite Hg. cbn [mbind outcome_bind]. rewrite Ht.
  destruct (t g) eqn:Htg.
  { right. exists [], g, l. split_and!; [done|by intros ? ?%not_elem_of_nil|done|done]. }
  cbn [node_of sr_next]. cbn in Hf.
  destruct (IH fuel _ h Ht Hl ltac:(lia)) as [[-> Hn]|(l1&g'&l2&->&H1&H2&->)].
  - left. split; [done|]. intros g' [->|?]%elem_of_cons; auto.
  - right. exists (g :: l1), g', l2. split_and!; [done| |done|done].
    intros g2 [->|?]%elem_of_cons; auto.
Qed.

Lemma space_find_spec sp l test t : regions_of sp l → (∀ g n p, test (node_of g n p) = t g) →
  (find_node sp test = Done None ∧ ∀ g, g ∈ l → t g = false) ∨
  ∃ l1 g l2, l = l1 ++ g :: l2 ∧ (∀ g, g ∈ l1 → t g = false) ∧ t g = true ∧
    find_node sp test = Done (Some (g_loc g)).
Proof.
  intros Hr Ht. unfold find_node. rewrite (ro_head _ _ Hr).
  eapply walk_spec; [done|apply Hr|by apply ro_fuel].
Qed.

(** The node of a region of the list, and what changing it does. *)
Lemma regions_node sp l1 g l2 : regions_of sp (l1 ++ g :: l2) →
  sp_heap sp !! g_loc g = Some (node_of g (head_loc l2 None) (last_loc None l1)).
Proof. intros Hr. pose proof (ro_seg _ _ Hr) as [_ [Hg _]]%seg_app. done. Qed.

Lemma nodup_mid l1 g l2 : NoDup (g_loc <$> (l1 ++ g :: l2)) →
  NoDup (g_loc <$> l1) ∧ NoDup (g_loc <$> l2) ∧ (g_loc g ∉ g_loc <$> l1) ∧ (g_loc g ∉ g_loc <$> l2) ∧
  ∀ a, a ∈ (g_loc <$> l1) → a ∉ (g_loc <$> l2).
Proof.
  rewrite fmap_app, fmap_cons. intros (H1&H2&[H3 H4]%NoDup_cons)%NoDup_app.
  split_and!; [done|done| |done|].
  - intros Hin. apply (H2 _ Hin). by left.
  - intros a Ha Hb. apply (H2 _ Ha). by right.
Qed.

(** A region keeps its place and its node; its contents change. *)
Lemma seg_change p l1 g l2 h g' : NoDup (g_loc <$> (l1 ++ g :: l2)) → seg p (l1 ++ g :: l2) None h →
  g_loc g' = g_loc g →
  seg p (l1 ++ g' :: l2) None (<[g_loc g := node_of g' (head_loc l2 None) (last_loc p l1)]> h).
Proof.
  intros Hn Hs Hloc. apply nodup_mid in Hn as (_&_&Hn1&Hn2&_). apply seg_app in Hs as [Hs1 [_ Hs2]].
  apply seg_app. cbn [head_loc seg] in *. rewrite Hloc. split_and!.
  - by apply seg_insert.
  - by rewrite lookup_insert_eq.
  - by apply seg_insert.
Qed.

(** A region is put in front of another one. *)
Lemma seg_put_before l1 g l2 h new g' : NoDup (g_loc <$> (l1 ++ g :: l2)) → seg None (l1 ++ g :: l2) None h →
  g_loc g' = g_loc g → g_loc new ∉ (g_loc <$> (l1 ++ g :: l2)) →
  ∃ h1, update_opt (<[g_loc new := node_of new (Some (g_loc g)) (last_loc None l1)]> h) (last_loc None l1)
      (with_next (Some (g_loc new))) = Done h1 ∧
    h1 !! g_loc g = Some (node_of g (head_loc l2 None) (last_loc None l1)) ∧
    seg None (l1 ++ new :: g' :: l2) None
      (<[g_loc g := node_of g' (head_loc l2 None) (Some (g_loc new))]> h1) ∧
    ∀ a, is_Some (h1 !! a) → is_Some (h !! a) ∨ a = g_loc new.
Proof.
  intros Hn Hs Hloc Hnew. pose proof (nodup_mid _ _ _ Hn) as (Hd1&Hd2&Hn1&Hn2&Hn12).
  apply seg_app in Hs as [Hs1 [Hg Hs2]].
  assert ((g_loc new ∉ g_loc <$> l1) ∧ g_loc new ≠ g_loc g ∧ (g_loc new ∉ g_loc <$> l2)) as (Hw1&Hwg&Hw2).
  { rewrite fmap_app, fmap_cons in Hnew. set_solver. }
  destruct (seg_set_next None l1 _ (Some (g_loc new)) (<[g_loc new := node_of new (Some (g_loc g)) (last_loc None l1)]> h)
    Hd1 (seg_insert _ _ _ _ _ _ Hw1 Hs1)) as (h1&Hu&Hs1'&Hsame).
  exists h1. split; [done|].
  assert (h1 !! g_loc g = Some (node_of g (head_loc l2 None) (last_loc None l1))) as Hg1
    by (by rewrite Hsame, lookup_insert_ne by done).
  split; [done|]. split.
  - apply seg_app. cbn [head_loc seg]. rewrite Hloc. split_and!.
    + by apply seg_insert.
    + by rewrite lookup_insert_ne, Hsame, lookup_insert_eq by done.
    + by rewrite lookup_insert_eq.
    + apply seg_insert; [done|]. eapply seg_frame; [|done]. intros g2 Hg2.
      assert (g_loc g2 ∈ g_loc <$> l2) by (apply list_elem_of_fmap; by exists g2).
      rewrite Hsame by (intros Hin; by apply (Hn12 _ Hin)). apply lookup_insert_ne. congruence.
  - intros a Ha. destruct (decide (a ∈ g_loc <$> l1)) as [Hin|Hin].
    + left. apply list_elem_of_fmap in Hin as (g1&->&Hg1'). by apply (seg_lookup None l1 _ h g1 Hs1).
    + rewrite Hsame in Ha by done. destruct (decide (a = g_loc new)) as [->|]; [by right|left].
      by rewrite lookup_insert_ne in Ha.
Qed.

(** *** The invariant *)

(** The regions cover [s] to [e], one behind the other, in whole pages. *)
Fixpoint tiled (s : Z) (l : list region) (e : Z) : Prop :=
  match l with
  | [] => s = e
  | g :: l => g_start g = s ∧ 0 < g_size g ∧ (PAGE_SIZE | g_size g) ∧ tiled (s + g_size g) l e
  end.

(** No two neighbouring regions are free. *)
Fixpoint coalesced (l : list region) : Prop :=
  match l with
  | [] => True
  | g :: l => match l with [] => True | g' :: _ => g_used g || g_used g' = true end ∧ coalesced l
  end.

Fixpoint used_sum (l : list region) : Z :=
  match l with [] => 0 | g :: l => (if g_used g then g_size g else 0) + used_sum l end.

Record space_inv (sp : VMSpace) (l : list region) : Prop := {
  si_regions : regions_of sp l;
  si_tiled : tiled (sp_start sp) l (sp_start sp + sp_size sp);
  si_coalesced : coalesced l;
  si_used : m_used sp = used_sum l;
  si_start : 0 ≤ sp_start sp ∧ (PAGE_SIZE | sp_start sp);
  si_end : 0 < sp_size sp ∧ sp_start sp + sp_size sp < 2 ^ 32;
  si_free g : g ∈ l → g_used g = false → g_vm g = None;
}.

Lemma tiled_le s l e : tiled s l e → s ≤ e.
Proof. revert s. induction l as [|g l IH]; intros s; cbn; [lia|]. intros (_&?&_&?%IH). lia. Qed.

Lemma tiled_app s l1 l2 e : tiled s (l1 ++ l2) e ↔ ∃ m, tiled s l1 m ∧ tiled m l2 e.
Proof.
  revert s. induction l1 as [|g l1 IH]; intros s; cbn.
  - split; [by exists s|]. by intros (m&->&?).
  - rewrite IH. split.
    + intros (?&?&?&m&?&?). by exists m.
    + intros (m&(?&?&?&?)&?). split_and!; try done. by exists m.
Qed.

Lemma tiled_aligned s l e : (PAGE_SIZE | s) → tiled s l e → (PAGE_SIZE | e).
Proof.
  revert s. induction l as [|g l IH]; intros s Hs; cbn; [by intros ->|]. intros (_&_&?&?).
  eapply IH; [|done]. by apply Z.divide_add_r.
Qed.

(** Where a region of the list is. *)
Lemma tiled_mid s l1 g l2 e : tiled s (l1 ++ g :: l2) e → (PAGE_SIZE | s) →
  s ≤ g_start g ∧ 0 < g_size g ∧ g_start g + g_size g ≤ e ∧ (PAGE_SIZE | g_start g) ∧ (PAGE_SIZE | g_size g) ∧
  tiled s l1 (g_start g) ∧ tiled (g_start g + g_size g) l2 e.
Proof.
  intros (m&H1&(<-&?&?&H2))%tiled_app Hs. pose proof (tiled_le _ _ _ H1). pose proof (tiled_le _ _ _ H2).
  pose proof (tiled_aligned _ _ _ Hs H1). split_and!; done || lia.
Qed.

Lemma coalesced_app l1 l2 : coalesced (l1 ++ l2) ↔ coalesced l1 ∧ coalesced l2 ∧
  ∀ g g', (∃ l, l1 = l ++ [g]) → head l2 = Some g' → g_used g || g_used g' = true.
Proof.
  induction l1 as [|g l1 IH]; cbn.
  { split; [intros ?; split_and!; [done|done|]|tauto]. intros g g' (l&Hl). by destruct l. }
  rewrite IH. destruct l1 as [|g1 l1]; cbn.
  - split.
    + intros (Hh&_&?&_). split_and!; [done|done|done|]. intros g0 g' ([|? [|]]&[= ->]) Hg'; [|done..].
      destruct l2; [done|]. cbn in *. by simplify_eq.
    + intros (_&?&Hj). split_and!; [|done|done|by intros ?? ([]&?)]. destruct l2 as [|g' l2]; [done|].
      apply Hj; [by exists []|done].
  - split.
    + intros (?&?&?&Hj). split_and!; [tauto..|]. intros g0 g' ([|g2 l]&Hl) Hg'; [done|].
      injection Hl as <- Hl. eapply Hj; [by exists l|done].
    + intros ([? ?]&?&Hj). split_and!; [tauto..|]. intros g0 g' (l&Hl) Hg'.
      eapply Hj; [|done]. exists (g :: l). by rewrite Hl.
Qed.

Lemma used_sum_app l1 l2 : used_sum (l1 ++ l2) = used_sum l1 + used_sum l2.
Proof. induction l1 as [|g l1 IH]; cbn; [done|]. rewrite IH. lia. Qed.

Lemma used_sum_le s l e : tiled s l e → 0 ≤ used_sum l ≤ e - s.
Proof.
  revert s. induction l as [|g l IH]; intros s; cbn; [lia|]. intros (_&?&_&Hl). specialize (IH _ Hl).
  destruct (g_used g); lia.
Qed.

Definition last_used (l : list region) : Prop := ∀ l' g, l = l' ++ [g] → g_used g = true.
Definition head_used (l : list region) : Prop := ∀ g l', l = g :: l' → g_used g = true.

Lemma coalesced_mid l1 g l2 : coalesced (l1 ++ g :: l2) ↔ coalesced l1 ∧ coalesced l2 ∧
  (g_used g = false → last_used l1 ∧ head_used l2).
Proof.
  rewrite coalesced_app. cbn. split.
  - intros (?&[Hn ?]&Hj). split_and!; [done|done|]. intros Hg. split.
    + intros l' g' ->. specialize (Hj g' g ltac:(by exists l') eq_refl). rewrite Hg, orb_false_r in Hj. done.
    + intros g' l' ->. by rewrite Hg in Hn.
  - intros (?&?&Hg). split_and!; [done| |done|].
    + destruct l2 as [|g' l2]; [done|]. destruct (g_used g) eqn:Hu; [done|]. by eapply (proj2 (Hg eq_refl)).
    + intros g0 g' (l&->) [= <-]. destruct (g_used g) eqn:Hu; [apply orb_true_r|].
      rewrite orb_false_r. by eapply (proj1 (Hg eq_refl)).
Qed.

Lemma last_used_nil : last_used [].
Proof. intros [|] g; done. Qed.
Lemma head_used_nil : head_used [].
Proof. intros g l'; done. Qed.

(** *** [alloc_space] *)

(** Regions that do not fit a request of [sz] bytes. *)
Definition unfit (sz : Z) (g : region) : Prop := g_used g = true ∨ g_size g < sz.

Lemma fits_false sz g : negb (g_used g || (g_size g <? sz)) = false → unfit sz g.
Proof. unfold unfit. destruct (g_used g), (Z.ltb_spec (g_size g) sz); cbn; auto; done. Qed.

Lemma fits_true sz g : negb (g_used g || (g_size g <? sz)) = true → g_used g = false ∧ sz ≤ g_size g.
Proof. destruct (g_used g), (Z.ltb_spec (g_size g) sz); cbn; done. Qed.

(** The list after the region [g] has been given, or has given part of itself. *)
Definition taken (l1 : list region) (g : region) (l2 : list region) (a : loc) (sz : Z) : list region :=
  l1 ++ mk_reg a (g_start g) sz true None ::
    (if g_size g =? sz then l2 else mk_reg (g_loc g) (g_start g + sz) (g_size g - sz) false None :: l2).

(** What the lists of used and free regions need when a free one is replaced. *)
Lemma space_inv_taken sp l1 g l2 a sz sp' : space_inv sp (l1 ++ g :: l2) → g_used g = false →
  0 < sz ≤ g_size g → (PAGE_SIZE | sz) → regions_of sp' (taken l1 g l2 a sz) →
  sp_start sp' = sp_start sp → sp_size sp' = sp_size sp → m_used sp' = u32 (m_used sp + sz) →
  space_inv sp' (taken l1 g l2 a sz).
Proof.
  intros [] Hg Hsz Hal Hr Hs Hz Hu.
  destruct (tiled_mid _ _ _ _ _ si_tiled0 (proj2 si_start0)) as (?&?&?&?&?&Ht1&Ht2).
  apply coalesced_mid in si_coalesced0 as (Hc1&Hc2&Hc). destruct (Hc Hg) as [_ Hh].
  pose proof (used_sum_le _ _ _ Ht1). pose proof (used_sum_le _ _ _ Ht2).
  rewrite used_sum_app in si_used0. cbn in si_used0. rewrite Hg in si_used0.
  unfold taken in *. split; rewrite ?Hs, ?Hz; try done.
  - apply tiled_app. exists (g_start g). split; [done|]. cbn. split_and!; [done|lia|done|].
    destruct (Z.eqb_spec (g_size g) sz) as [<-|]; [done|]. cbn. split_and!; [done|lia|by apply Z.divide_sub_r|].
    by replace (g_start g + sz + (g_size g - sz)) with (g_start g + g_size g) by lia.
  - apply coalesced_mid. split_and!; [done| |done]. destruct (g_size g =? sz); [done|].
    apply (coalesced_mid []). split_and!; [done|done|]. intros _. split; [apply last_used_nil|done].
  - rewrite used_sum_app. cbn. rewrite Hu, u32_id by lia. destruct (Z.eqb_spec (g_size g) sz); cbn; lia.
  - intros g'. rewrite elem_of_app, elem_of_cons. intros [Hin|[->|Hin]]; [|done|].
    + apply si_free0. set_solver.
    + destruct (g_size g =? sz); [apply si_free0; set_solver|].
      apply elem_of_cons in Hin as [->|Hin]; [done|]. apply si_free0. set_solver.
Qed.

(** Changing a region in its place. *)
Lemma regions_change sp l1 g l2 g' s z u f : regions_of sp (l1 ++ g :: l2) → g_loc g' = g_loc g →
  (sp_fresh sp ≤ f)%positive →
  regions_of (mk_space s z (m_region_map sp) u
    (<[g_loc g := node_of g' (head_loc l2 None) (last_loc None l1)]> (sp_heap sp)) f) (l1 ++ g' :: l2).
Proof.
  intros Hr Hloc Hf. pose proof Hr as [Hr1 Hr2 Hr3 Hr4]. split; cbn.
  - rewrite Hr1, !head_loc_app. cbn. by rewrite Hloc.
  - by apply seg_change.
  - rewrite fmap_app, fmap_cons in Hr3 |- *. by rewrite Hloc.
  - intros a. rewrite lookup_insert_is_Some. intros [<-|[_ Ha]].
    + pose proof (ro_loc _ _ g Hr ltac:(set_solver)). lia.
    + specialize (Hr4 a Ha). lia.
Qed.

(** The head of the list when a region is put in front of another one. *)
Lemma head_put_before l1 g l2 a : NoDup (g_loc <$> (l1 ++ g :: l2)) →
  (if decide (head_loc (l1 ++ g :: l2) None = Some (g_loc g)) then Some a else head_loc (l1 ++ g :: l2) None) =
    head_loc l1 (Some a).
Proof.
  intros Hn%nodup_mid. destruct Hn as (_&_&Hn&_). destruct l1 as [|g1 l1]; cbn.
  - by rewrite decide_True.
  - rewrite decide_False; [done|]. intros [= He]. apply Hn. rewrite <-He. by left.
Qed.

Lemma regions_put_before sp l1 g l2 new g' s z u f : regions_of sp (l1 ++ g :: l2) → g_loc g' = g_loc g →
  (sp_fresh sp ≤ g_loc new < f)%positive →
  ∃ h1, update_opt (<[g_loc new := node_of new (Some (g_loc g)) (last_loc None l1)]> (sp_heap sp)) (last_loc None l1)
      (with_next (Some (g_loc new))) = Done h1 ∧
    h1 !! g_loc g = Some (node_of g (head_loc l2 None) (last_loc None l1)) ∧
    regions_of (mk_space s z
      (if decide (m_region_map sp = Some (g_loc g)) then Some (g_loc new) else m_region_map sp) u
      (<[g_loc g := node_of g' (head_loc l2 None) (Some (g_loc new))]> h1) f) (l1 ++ new :: g' :: l2).
Proof.
  intros Hr Hloc Hf. pose proof Hr as [Hr1 Hr2 Hr3 Hr4].
  pose proof (ro_loc_fresh sp _ (g_loc new) Hr ltac:(lia)) as Hnew.
  destruct (seg_put_before l1 g l2 (sp_heap sp) new g' Hr3 Hr2 Hloc Hnew) as (h1&Hu&Hg&Hs&Hdom).
  exists h1. split_and!; [done|done|]. split; cbn.
  - rewrite Hr1, head_put_before by done. by destruct l1.
  - done.
  - apply nodup_mid in Hr3 as (?&?&?&?&?). rewrite fmap_app, fmap_cons in Hnew.
    rewrite fmap_app, !fmap_cons, Hloc. apply NoDup_app. split_and!; [done| |].
    + intros a Ha. rewrite !elem_of_cons. intros [->|[->|?]]; set_solver.
    + apply NoDup_cons. split; [set_solver|]. by apply NoDup_cons.
  - intros a. rewrite lookup_insert_is_Some. intros [<-|[_ [Ha| ->]%Hdom]].
    + pose proof (ro_loc _ _ g Hr ltac:(set_solver)). lia.
    + specialize (Hr4 a Ha). lia.
    + lia.
Qed.

Lemma alloc_space_ok sp l sz : space_inv sp l → 0 < sz → (PAGE_SIZE | sz) →
  (∃ sp', alloc_space sp sz = Done (Err ENOMEM, sp') ∧ space_inv sp' l ∧ ∀ g, g ∈ l → unfit sz g) ∨
  ∃ l1 g l2 a sp', l = l1 ++ g :: l2 ∧ g_used g = false ∧ sz ≤ g_size g ∧ (∀ g, g ∈ l1 → unfit sz g) ∧
    alloc_space sp sz = Done (Ok a, sp') ∧ space_inv sp' (taken l1 g l2 a sz).
Proof.
  intros Hi Hsz Hal. pose proof (si_regions _ _ Hi) as Hr. unfold alloc_space.
  rewrite (proj2 (Z.eqb_eq _ _) (proj2 (Z.mod_divide sz PAGE_SIZE ltac:(done)) Hal)). cbn [kassert mbind outcome_bind].
  destruct (space_find_spec sp l (λ r, negb (sr_used r || (sr_size r <? sz))) (λ g, negb (g_used g || (g_size g <? sz)))
    Hr ltac:(done)) as [[-> Hno]|(l1&g&l2&->&Hno&Hfit%fits_true&->)]; cbn [mbind outcome_bind].
  - left. eexists. split; [done|]. split; [|intros; by apply fits_false, Hno].
    destruct Hi. split; try done. destruct Hr. split; try done. cbn. intros a Ha. specialize (ro_fresh0 a Ha). lia.
  - right. destruct Hfit as [Hu Hle]. unfold deref. rewrite (regions_node _ _ _ _ Hr). cbn [mbind outcome_bind node_of sr_size].
    pose proof (tiled_mid _ _ _ _ _ (si_tiled _ _ Hi) (proj2 (si_start _ _ Hi))) as (?&?&?&_).
    pose proof (si_start _ _ Hi). pose proof (si_end _ _ Hi).
    pose proof (si_free _ _ Hi g ltac:(set_solver) Hu) as Hvm.
    destruct (Z.eqb_spec (g_size g) sz) as [He|He].
    + unfold update, deref. rewrite (regions_node _ _ _ _ Hr). cbn [mbind outcome_bind].
      eexists l1, g, l2, _, _. split_and!; [done|done|done|intros; by apply fits_false, Hno|done|].
      eapply (space_inv_taken sp); [done|done|lia|done| |done|done|cbn; by rewrite He].
      unfold taken. rewrite (proj2 (Z.eqb_eq _ _) He). unfold with_used. cbn [node_of sr_start sr_size sr_next sr_prev sr_vmRegion].
      rewrite Hvm, He.
      apply (regions_change sp l1 g l2 (mk_reg (g_loc g) (g_start g) sz true None)); [done|done|lia].
    + cbn [node_of sr_start sr_prev].
      destruct (regions_put_before sp l1 g l2 (mk_reg (sp_fresh sp) (g_start g) sz true None)
        (mk_reg (g_loc g) (g_start g + sz) (g_size g - sz) false None) (sp_start sp) (sp_size sp)
        (u32 (m_used sp + sz)) (Pos.succ (sp_fresh sp)) Hr eq_refl ltac:(cbn; lia)) as (h1&Hu1&Hg1&Hr').
      unfold node_of in Hu1 at 1. cbn [g_loc g_start g_size g_used g_vm] in Hu1. rewrite Hu1. cbn [mbind outcome_bind].
      unfold update, deref. rewrite Hg1. cbn [mbind outcome_bind].
      eexists l1, g, l2, _, _. split_and!; [done|done|done|intros; by apply fits_false, Hno|done|].
      eapply (space_inv_taken sp); [done|done|lia|done| |done|done|done].
      unfold taken. rewrite (proj2 (Z.eqb_neq _ _) He).
      unfold with_prev, with_range. cbn [node_of sr_start sr_size sr_used sr_next sr_prev sr_vmRegion].
      rewrite (u32_id (g_start g + sz)), (u32_id (g_size g - sz)), Hu, Hvm by lia. exact Hr'.
Qed.

(** *** [alloc_space_at] *)

Lemma regions_put_after sp l1 g l2 new s z u f : regions_of sp (l1 ++ g :: l2) →
  (sp_fresh sp ≤ g_loc new < f)%positive →
  ∃ h1, update_opt (<[g_loc new := node_of new (head_loc l2 None) (Some (g_loc g))]> (sp_heap sp)) (head_loc l2 None)
      (with_prev (Some (g_loc new))) = Done h1 ∧
    h1 !! g_loc g = Some (node_of g (head_loc l2 None) (last_loc None l1)) ∧
    regions_of (mk_space s z (m_region_map sp) u
      (<[g_loc g := node_of g (Some (g_loc new)) (last_loc None l1)]> h1) f) (l1 ++ g :: new :: l2).
Proof.
  intros Hr Hf. pose proof Hr as [Hr1 Hr2 Hr3 Hr4].
  pose proof (ro_loc_fresh sp _ (g_loc new) Hr ltac:(lia)) as Hnew.
  pose proof (nodup_mid _ _ _ Hr3) as (Hd1&Hd2&Hn1&Hn2&Hn12).
  assert ((g_loc new ∉ g_loc <$> l1) ∧ g_loc new ≠ g_loc g ∧ (g_loc new ∉ g_loc <$> l2)) as (Hw1&Hwg&Hw2).
  { rewrite fmap_app, fmap_cons in Hnew. set_solver. }
  pose proof Hr2 as [Hs1 [Hg Hs2]]%seg_app.
  destruct (seg_set_prev _ (Some (g_loc new)) l2 None
    (<[g_loc new := node_of new (head_loc l2 None) (Some (g_loc g))]> (sp_heap sp)) Hd2 (seg_insert _ _ _ _ _ _ Hw2 Hs2))
    as (h1&Hu&Hs2'&Hsame).
  assert (h1 !! g_loc g = Some (node_of g (head_loc l2 None) (last_loc None l1))) as Hg1
    by (by rewrite Hsame, lookup_insert_ne by done).
  exists h1. split_and!; [done|done|]. split; cbn.
  - by rewrite Hr1, !head_loc_app.
  - apply seg_app. cbn [head_loc seg]. split_and!.
    + apply seg_insert; [done|]. eapply seg_frame; [|done]. intros g2 Hg2.
      assert (g_loc g2 ∈ g_loc <$> l1) by (apply list_elem_of_fmap; by exists g2).
      rewrite Hsame by (by apply Hn12). apply lookup_insert_ne. congruence.
    + by rewrite lookup_insert_eq.
    + by rewrite lookup_insert_ne, Hsame, lookup_insert_eq by done.
    + by apply seg_insert.
  - rewrite fmap_app, !fmap_cons. apply NoDup_app. split_and!; [done| |].
    + intros a Ha. rewrite !elem_of_cons. intros [->|[->|?]]; [done|done|]. by apply (Hn12 a).
    + apply NoDup_cons. split; [rewrite elem_of_cons; intros [?|?]; [congruence|done]|]. by apply NoDup_cons.
  - intros a. rewrite lookup_insert_is_Some. intros [<-|[_ Ha]].
    + pose proof (ro_loc _ _ g Hr ltac:(set_solver)). lia.
    + destruct (decide (a ∈ g_loc <$> l2)) as [(g2&->&Hg2)%list_elem_of_fmap|Hin].
      * pose proof (ro_loc _ _ g2 Hr ltac:(set_solver)). lia.
      * rewrite Hsame in Ha by done. apply lookup_insert_is_Some in Ha as [<-|[_ Ha]]; [lia|].
        specialize (Hr4 a Ha). lia.
Qed.

(** The list after part of the free region [g] has been given. *)
Definition before_part (g : region) (before : loc) (address : Z) : list region :=
  if g_start g <? address then [mk_reg before (g_start g) (address - g_start g) false None] else [].
Definition after_part (g : region) (after : loc) (e : Z) : list region :=
  if e <? g_start g + g_size g then [mk_reg after e (g_start g + g_size g - e) false None] else [].
Definition taken_at (l1 : list region) (g : region) (l2 : list region) (before after : loc) (sz address : Z)
    : list region :=
  l1 ++ before_part g before address ++
    mk_reg (g_loc g) address sz true None :: after_part g after (address + sz) ++ l2.

Lemma space_inv_taken_at sp l1 g l2 before after sz address sp' : space_inv sp (l1 ++ g :: l2) → g_used g = false →
  g_start g ≤ address → 0 < sz → address + sz ≤ g_start g + g_size g → (PAGE_SIZE | sz) → (PAGE_SIZE | address) →
  regions_of sp' (taken_at l1 g l2 before after sz address) →
  sp_start sp' = sp_start sp → sp_size sp' = sp_size sp → m_used sp' = u32 (m_used sp + sz) →
  space_inv sp' (taken_at l1 g l2 before after sz address).
Proof.
  intros [] Hg Hst Hsz Hend Hal Hal' Hr Hs Hz Hu.
  destruct (tiled_mid _ _ _ _ _ si_tiled0 (proj2 si_start0)) as (?&?&?&?&?&Ht1&Ht2).
  apply coalesced_mid in si_coalesced0 as (Hc1&Hc2&Hc). destruct (Hc Hg) as [Hl Hh].
  pose proof (used_sum_le _ _ _ Ht1). pose proof (used_sum_le _ _ _ Ht2).
  rewrite used_sum_app in si_used0. cbn in si_used0. rewrite Hg in si_used0.
  assert (used_sum (before_part g before address) = 0 ∧ used_sum (after_part g after (address + sz)) = 0) as [Hb0 Ha0].
  { unfold before_part, after_part. split; case_match; done. }
  unfold taken_at in *. split; rewrite ?Hs, ?Hz; try done.
  - apply tiled_app. exists (g_start g). split; [done|]. apply tiled_app. exists address. split.
    { unfold before_part. destruct (Z.ltb_spec (g_start g) address); cbn; [|lia].
      split_and!; [done|lia|by apply Z.divide_sub_r|lia]. }
    cbn. split_and!; [done|done|done|]. apply tiled_app. exists (g_start g + g_size g). split; [|done].
    unfold after_part. destruct (Z.ltb_spec (address + sz) (g_start g + g_size g)); cbn; [|lia].
    split_and!; [done|lia| |lia]. apply Z.divide_sub_r; by apply Z.divide_add_r.
  - rewrite app_assoc. apply coalesced_mid. split_and!; [| |done].
    + unfold before_part. case_match; [|by rewrite app_nil_r].
      apply coalesced_mid. split_and!; [done|done|]. intros _. split; [done|apply head_used_nil].
    + unfold after_part. case_match; [|done]. apply (coalesced_mid []). split_and!; [done|done|].
      intros _. split; [apply last_used_nil|done].
  - rewrite !used_sum_app. cbn. rewrite used_sum_app, Hb0, Ha0, Hu, u32_id by lia. lia.
  - intros g'. rewrite !elem_of_app, elem_of_cons, elem_of_app. intros [Hin|[Hin|[->|[Hin|Hin]]]].
    + apply si_free0. set_solver.
    + unfold before_part in Hin. case_match; [|set_solver]. by apply list_elem_of_singleton in Hin as ->.
    + done.
    + unfold after_part in Hin. case_match; [|set_solver]. by apply list_elem_of_singleton in Hin as ->.
    + apply si_free0. set_solver.
Qed.

Lemma put_before_step sp l1 g l2 address s z u : regions_of sp (l1 ++ g :: l2) → g_start g ≤ address →
  0 ≤ g_start g → address < 2 ^ 32 →
  ∃ h map, (if g_start g <? address then
      h ← update_opt (<[node_before sp := mk_sr (g_start g) (u32 (address - g_start g)) false (Some (g_loc g))
            (last_loc None l1) None]> (sp_heap sp)) (last_loc None l1) (with_next (Some (node_before sp)));
      h ← update h (g_loc g) (with_prev (Some (node_before sp)));
      Done (h, if decide (m_region_map sp = Some (g_loc g)) then Some (node_before sp) else m_region_map sp)
    else Done (sp_heap sp, m_region_map sp)) = Done (h, map) ∧
  regions_of (mk_space s z map u h (node_after sp)) (l1 ++ before_part g (node_before sp) address ++ g :: l2).
Proof.
  intros Hr Hle H0 Hlt. unfold before_part. destruct (Z.ltb_spec (g_start g) address).
  - rewrite u32_id by lia.
    destruct (regions_put_before sp l1 g l2 (mk_reg (node_before sp) (g_start g) (address - g_start g) false None)
      g s z u (node_after sp) Hr eq_refl) as (h1&Hu&Hg&Hr'); [cbn; unfold node_before, node_after; lia|].
    unfold node_of in Hu at 1. cbn [g_loc g_start g_size g_used g_vm] in Hu. rewrite Hu. cbn [mbind outcome_bind].
    unfold update, deref. rewrite Hg. cbn [mbind outcome_bind]. eexists _, _. split; [done|]. exact Hr'.
  - eexists _, _. split; [done|]. destruct Hr. split; try done. cbn. intros a Ha. specialize (ro_fresh0 a Ha).
    unfold node_after. lia.
Qed.

Lemma put_after_step sp l1 g l2 after e s z u : regions_of sp (l1 ++ g :: l2) → (sp_fresh sp ≤ after)%positive →
  0 ≤ e < 2 ^ 32 → 0 ≤ g_start g + g_size g < 2 ^ 32 →
  ∃ h, (if e <? g_start g + g_size g then
      h ← update_opt (<[after := mk_sr e (u32 (g_start g + g_size g - e)) false (head_loc l2 None)
            (Some (g_loc g)) None]> (sp_heap sp)) (head_loc l2 None) (with_prev (Some after));
      update h (g_loc g) (with_next (Some after))
    else Done (sp_heap sp)) = Done h ∧
  regions_of (mk_space s z (m_region_map sp) u h (Pos.succ after)) (l1 ++ g :: after_part g after e ++ l2).
Proof.
  intros Hr Hf He Hge. unfold after_part. destruct (Z.ltb_spec e (g_start g + g_size g)).
  - rewrite u32_id by lia.
    destruct (regions_put_after sp l1 g l2 (mk_reg after e (g_start g + g_size g - e) false None)
      s z u (Pos.succ after) Hr) as (h1&Hu&Hg&Hr'); [cbn; lia|].
    unfold node_of in Hu at 1. cbn [g_loc g_start g_size g_used g_vm] in Hu. rewrite Hu. cbn [mbind outcome_bind].
    unfold update, deref. rewrite Hg. cbn [mbind outcome_bind]. eexists. split; [done|]. exact Hr'.
  - eexists. split; [done|]. destruct Hr. split; try done. cbn. intros a Ha. specialize (ro_fresh0 a Ha). lia.
Qed.

(** Nodes that are allocated and never linked do not change the list. *)
Lemma regions_leak sp l s z u h f : regions_of sp l → (sp_fresh sp ≤ f)%positive →
  (∀ a, (a < sp_fresh sp)%positive → h !! a = sp_heap sp !! a) → (∀ a, is_Some (h !! a) → (a < f)%positive) →
  regions_of (mk_space s z (m_region_map sp) u h f) l.
Proof.
  intros Hr Hf Hh Hd. pose proof Hr as []. split; cbn; try done. eapply seg_frame; [|done].
  intros g Hg. apply Hh. by eapply ro_loc.
Qed.

(** The node that holds an address. *)
Definition g_contains (address : Z) (g : region) : bool :=
  (g_start g <=? address) && (address <? u32 (g_start g + g_size g)).

Definition lost_nodes (sp : VMSpace) : heap :=
  <[node_after sp := raw_node]> (<[node_before sp := raw_node]> (sp_heap sp)).

Inductive at_result (sp : VMSpace) (l : list region) (sz address : Z) : result loc * VMSpace → Prop :=
  (** the region that holds the address is used *)
  | at_used l1 g l2 sp' : l = l1 ++ g :: l2 → g_contains address g = true → g_used g = true →
      sp_heap sp' = sp_heap sp → space_inv sp' l → at_result sp l sz address (Err ENOMEM, sp')
  (** no region holds the address: two nodes are lost *)
  | at_absent sp' : (∀ g, g ∈ l → g_contains address g = false) → sp_heap sp' = lost_nodes sp →
      space_inv sp' l → at_result sp l sz address (Err ENOMEM, sp')
  (** the free region that holds it is too short: two nodes are lost *)
  | at_short l1 g l2 sp' : l = l1 ++ g :: l2 → g_contains address g = true → g_used g = false →
      g_size g ≠ sz → g_start g + g_size g < address + sz → sp_heap sp' = lost_nodes sp →
      space_inv sp' l → at_result sp l sz address (Err ENOMEM, sp')
  (** a free region of exactly this size, wherever it starts *)
  | at_whole l1 g l2 sp' : l = l1 ++ g :: l2 → g_contains address g = true → g_used g = false → g_size g = sz →
      space_inv sp' (taken l1 g l2 (g_loc g) sz) → at_result sp l sz address (Ok (g_loc g), sp')
  (** part of a larger free region *)
  | at_part l1 g l2 sp' : l = l1 ++ g :: l2 → g_contains address g = true → g_used g = false →
      sz < g_size g → address + sz ≤ g_start g + g_size g →
      space_inv sp' (taken_at l1 g l2 (node_before sp) (node_after sp) sz address) →
      at_result sp l sz address (Ok (g_loc g), sp').

Lemma space_inv_same sp l h f : space_inv sp l → (sp_fresh sp ≤ f)%positive →
  (∀ a, (a < sp_fresh sp)%positive → h !! a = sp_heap sp !! a) → (∀ a, is_Some (h !! a) → (a < f)%positive) →
  space_inv (mk_space (sp_start sp) (sp_size sp) (m_region_map sp) (m_used sp) h f) l.
Proof. intros [] Hf Hh Hd. split; try done. by apply regions_leak. Qed.

Lemma lost_nodes_ok sp l : regions_of sp l →
  (∀ a, (a < sp_fresh sp)%positive → lost_nodes sp !! a = sp_heap sp !! a) ∧
  (∀ a, is_Some (lost_nodes sp !! a) → (a < Pos.succ (Pos.succ (sp_fresh sp)))%positive).
Proof.
  intros Hr. unfold lost_nodes, node_after, node_before. split.
  - intros a Ha. by rewrite !lookup_insert_ne by lia.
  - intros a [<-|[_ [<-|[_ Ha]]%lookup_insert_is_Some]]%lookup_insert_is_Some; [lia|lia|].
    pose proof (ro_fresh _ _ Hr a Ha). lia.
Qed.

Lemma alloc_space_at_ok sp l sz address : space_inv sp l → 0 < sz < 2 ^ 32 → (PAGE_SIZE | sz) → (PAGE_SIZE | address) →
  ∃ res, alloc_space_at sp sz address = Done res ∧ at_result sp l sz address res.
Proof.
  intros Hi Hsz Hal Hal'. pose proof (si_regions _ _ Hi) as Hr. unfold alloc_space_at.
  rewrite (proj2 (Z.eqb_eq _ _) (proj2 (Z.mod_divide address PAGE_SIZE ltac:(done)) Hal')).
  rewrite (proj2 (Z.eqb_eq _ _) (proj2 (Z.mod_divide sz PAGE_SIZE ltac:(done)) Hal)). cbn [kassert mbind outcome_bind].
  destruct (lost_nodes_ok sp l Hr) as [Hl1 Hl2]. fold (lost_nodes sp).
  destruct (space_find_spec sp l (λ r, sr_contains r address) (g_contains address) Hr ltac:(done))
    as [[-> Hno]|(l1&g&l2&->&Hno&Hc&->)]; cbn [mbind outcome_bind].
  { eexists. split; [done|]. apply at_absent; [done|done|]. apply space_inv_same; [done|lia|done|done]. }
  pose proof (tiled_mid _ _ _ _ _ (si_tiled _ _ Hi) (proj2 (si_start _ _ Hi))) as (?&?&?&_).
  pose proof (si_start _ _ Hi). pose proof (si_end _ _ Hi). pose proof Hc as Hin. unfold g_contains in Hin.
  rewrite u32_id in Hin by lia.
  unfold deref at 1. rewrite (regions_node _ _ _ _ Hr). cbn [mbind outcome_bind node_of sr_used sr_size sr_start sr_next sr_prev].
  destruct (g_used g) eqn:Hu.
  { eexists. split; [done|]. eapply at_used; [done|done|done|done|]. apply space_inv_same; [done|lia|done|].
    intros a Ha. pose proof (ro_fresh _ _ Hr a Ha). lia. }
  pose proof (si_free _ _ Hi g ltac:(set_solver) Hu) as Hvm.
  destruct (Z.eqb_spec (g_size g) sz) as [He|He].
  { unfold update, deref. rewrite (regions_node _ _ _ _ Hr). cbn [mbind outcome_bind].
    eexists. split; [done|]. eapply at_whole; [done|done|done|done|].
    eapply (space_inv_taken sp); [done|done|lia|done| |done|done|cbn; by rewrite He].
    unfold taken. rewrite (proj2 (Z.eqb_eq _ _) He). unfold with_used. cbn [node_of sr_start sr_size sr_next sr_prev sr_vmRegion].
    rewrite Hvm, He.
    apply (regions_change sp l1 g l2 (mk_reg (g_loc g) (g_start g) sz true None)); [done|done|lia]. }
  rewrite (u32_id (g_size g - (address - g_start g))) by lia.
  destruct (Z.leb_spec sz (g_size g - (address - g_start g))) as [Hle|Hgt].
  2: { eexists. split; [done|]. eapply at_short; [done|done|done|done|lia|done|].
       apply space_inv_same; [done|lia|done|done]. }
  destruct (put_before_step sp l1 g l2 address (sp_start sp) (sp_size sp) (m_used sp) Hr ltac:(lia) ltac:(lia) ltac:(lia))
    as (h1&map&->&Hr1). cbn [mbind outcome_bind]. rewrite app_assoc in Hr1.
  unfold sr_end. cbn [node_of sr_start sr_size]. rewrite (u32_id (address + sz)), (u32_id (g_start g + g_size g)) by lia.
  destruct (put_after_step _ _ g l2 (node_after sp) (address + sz) (sp_start sp) (sp_size sp) (m_used sp) Hr1
    ltac:(cbn; lia) ltac:(lia) ltac:(lia)) as (h2&Hh2&Hr2). cbn [sp_heap] in Hh2. rewrite Hh2. cbn [mbind outcome_bind].
  unfold update, deref. pose proof (regions_node _ _ _ _ Hr2) as Hg2. cbn [sp_heap] in Hg2. rewrite Hg2.
  cbn [mbind outcome_bind]. eexists. split; [done|].
  eapply at_part; [done|done|done|lia|lia|].
  eapply (space_inv_taken_at sp); [done|done|lia|lia|lia|done|done| |done|done|done].
  unfold taken_at. rewrite app_assoc. unfold with_used, with_range. cbn [node_of sr_start sr_size sr_used sr_next sr_prev sr_vmRegion].
  rewrite Hvm.
  apply (regions_change _ _ g _ (mk_reg (g_loc g) address sz true None) _ _ _ _ Hr2 eq_refl). cbn. unfold node_after. lia.
Qed.

(** *** [free_region] *)

Lemma deref_Done h a r : h !! a = Some r → deref h (Some a) = Done r.
Proof. intros Hr. unfold deref. by rewrite Hr. Qed.

Lemma update_Done h a f r : h !! a = Some r → update h a f = Done (<[a := f r]> h).
Proof. intros Hr. unfold update. by rewrite (deref_Done _ _ _ Hr). Qed.

(** The head of the list when a region that is not the first disappears, or
    the first one is replaced by the second. *)
Lemma head_drop k1 p g l2 : NoDup (g_loc <$> (k1 ++ p :: g :: l2)) →
  (if decide (head_loc (k1 ++ p :: g :: l2) None = Some (g_loc p)) then Some (g_loc g)
   else head_loc (k1 ++ p :: g :: l2) None) = head_loc k1 (Some (g_loc g)).
Proof.
  intros (_&_&Hn&_)%nodup_mid. destruct k1 as [|g1 k1]; cbn.
  - by rewrite decide_True.
  - rewrite decide_False; [done|]. intros [= He]. apply Hn. rewrite <-He. by left.
Qed.

Lemma merge_prev_free sp k1 p g l2 s z u : regions_of sp (k1 ++ p :: g :: l2) → g_used p = false →
  ∃ h map, merge_prev (sp_heap sp) (m_region_map sp) (g_loc g) = Done (h, map, Some (g_loc p)) ∧
    (g_loc p ∉ g_loc <$> (k1 ++ g :: l2)) ∧
    regions_of (mk_space s z map u h (sp_fresh sp))
      (k1 ++ mk_reg (g_loc g) (u32 (g_start g - g_size p)) (u32 (g_size g + g_size p)) (g_used g) (g_vm g) :: l2).
Proof.
  intros Hr Hp. pose proof Hr as [Hr1 Hr2 Hr3 Hr4].
  pose proof Hr2 as [Hs1 (Hnp&Hng&Hs2)]%seg_app.
  pose proof (nodup_mid _ _ _ Hr3) as (Hd1&Hd2&Hn1&Hn2&Hn12). rewrite fmap_cons in Hd2, Hn2.
  apply NoDup_cons in Hd2 as [Hg2 Hd2]. rewrite not_elem_of_cons in Hn2. destruct Hn2 as [Hpg Hp2].
  assert (g_loc g ∉ g_loc <$> k1) as Hg1.
  { intros Hin. apply (Hn12 _ Hin). rewrite fmap_cons. by left. }
  unfold merge_prev. rewrite (deref_Done _ _ _ Hng). cbn [mbind outcome_bind node_of sr_prev].
  rewrite (deref_Done _ _ _ Hnp). cbn [mbind outcome_bind node_of sr_used]. rewrite Hp.
  rewrite (update_Done _ _ _ _ Hng). cbn [mbind outcome_bind sr_prev sr_size].
  change (sr_prev (node_of p (head_loc (g :: l2) None) (last_loc None k1))) with (last_loc None k1).
  change (sr_size (node_of p (head_loc (g :: l2) None) (last_loc None k1))) with (g_size p).
  set (ng := with_prev (last_loc None k1) (node_of g (head_loc l2 None) (Some (g_loc p)))).
  destruct (seg_set_next None k1 _ (Some (g_loc g)) (<[g_loc g := ng]> (sp_heap sp)) Hd1
    (seg_insert _ _ _ _ _ _ Hg1 Hs1)) as (h1&->&Hs1'&Hsame). cbn [mbind outcome_bind].
  rewrite (update_Done h1 (g_loc g) _ ng) by (by rewrite Hsame, lookup_insert_eq). cbn [mbind outcome_bind].
  eexists _, _. split; [done|]. split.
  { rewrite fmap_app, fmap_cons. set_solver. }
  split; cbn.
  - rewrite Hr1, head_drop by done. by destruct k1.
  - apply seg_app. cbn [head_loc seg g_loc]. split_and!.
    + by apply seg_insert.
    + by rewrite lookup_insert_eq.
    + apply seg_insert; [done|]. eapply seg_frame; [|done]. intros g2 Hin2.
      assert (g_loc g2 ∈ g_loc <$> l2) by (apply list_elem_of_fmap; by exists g2).
      rewrite Hsame; [apply lookup_insert_ne; congruence|]. intros Hin.
      apply (Hn12 _ Hin). rewrite fmap_cons. by right.
  - rewrite fmap_app, fmap_cons. apply NoDup_app. split_and!; [done| |by apply NoDup_cons].
    intros a Ha Hb. apply (Hn12 _ Ha). by rewrite fmap_cons.
  - intros a. rewrite lookup_insert_is_Some. intros [<-|[_ Ha]]; [apply (ro_loc _ _ g Hr); set_solver|].
    destruct (decide (a ∈ g_loc <$> k1)) as [(g3&->&Hg3)%list_elem_of_fmap|Hin].
    + apply (ro_loc _ _ g3 Hr). set_solver.
    + rewrite Hsame in Ha by done. apply lookup_insert_is_Some in Ha as [<-|[_ Ha]]; [|by apply Hr4].
      apply (ro_loc _ _ g Hr). set_solver.
Qed.

Lemma merge_next_free sp l1 g n k2 s z u : regions_of sp (l1 ++ g :: n :: k2) → g_used n = false →
  ∃ h, merge_next (sp_heap sp) (g_loc g) = Done (h, Some (g_loc n)) ∧
    (g_loc n ∉ g_loc <$> (l1 ++ g :: k2)) ∧
    regions_of (mk_space s z (m_region_map sp) u h (sp_fresh sp))
      (l1 ++ mk_reg (g_loc g) (g_start g) (u32 (g_size g + g_size n)) (g_used g) (g_vm g) :: k2).
Proof.
  intros Hr Hn. pose proof Hr as [Hr1 Hr2 Hr3 Hr4].
  pose proof Hr2 as [Hs1 (Hng&Hnn&Hs2)]%seg_app.
  pose proof (nodup_mid _ _ _ Hr3) as (Hd1&Hd2&Hn1&Hn2&Hn12). rewrite fmap_cons in Hd2, Hn2.
  apply NoDup_cons in Hd2 as [Hnk Hd2]. rewrite not_elem_of_cons in Hn2. destruct Hn2 as [Hgn Hgk].
  assert (g_loc n ∉ g_loc <$> l1) as Hnl1.
  { intros Hin. apply (Hn12 _ Hin). rewrite fmap_cons. by left. }
  unfold merge_next. rewrite (deref_Done _ _ _ Hng). cbn [mbind outcome_bind node_of sr_next head_loc].
  rewrite (deref_Done _ _ _ Hnn). cbn [mbind outcome_bind node_of sr_used]. rewrite Hn.
  rewrite (update_Done _ _ _ _ Hng). cbn [mbind outcome_bind sr_next sr_size].
  change (sr_next (node_of n (head_loc k2 None) (Some (g_loc g)))) with (head_loc k2 None).
  change (sr_size (node_of n (head_loc k2 None) (Some (g_loc g)))) with (g_size n).
  set (ng := with_next (head_loc k2 None) (node_of g (head_loc (n :: k2) None) (last_loc None l1))).
  destruct (seg_set_prev _ (Some (g_loc g)) k2 None (<[g_loc g := ng]> (sp_heap sp)) Hd2
    (seg_insert _ _ _ _ _ _ Hgk Hs2)) as (h1&->&Hs2'&Hsame). cbn [mbind outcome_bind].
  rewrite (update_Done h1 (g_loc g) _ ng) by (by rewrite Hsame, lookup_insert_eq). cbn [mbind outcome_bind].
  eexists. split; [done|]. split.
  { rewrite fmap_app, fmap_cons. set_solver. }
  split; cbn.
  - by rewrite Hr1, !head_loc_app.
  - apply seg_app. cbn [head_loc seg g_loc]. split_and!.
    + apply seg_insert; [done|]. eapply seg_frame; [|done]. intros g2 Hin2.
      assert (g_loc g2 ∈ g_loc <$> l1) by (apply list_elem_of_fmap; by exists g2).
      rewrite Hsame; [apply lookup_insert_ne; congruence|]. intros Hin.
      apply (Hn12 (g_loc g2)); [done|]. rewrite fmap_cons. by right.
    + by rewrite lookup_insert_eq.
    + by apply seg_insert.
  - rewrite fmap_app, fmap_cons. apply NoDup_app. split_and!; [done| |by apply NoDup_cons].
    intros a Ha. cbn. rewrite elem_of_cons. intros [->|Hb]; [done|]. apply (Hn12 _ Ha). rewrite fmap_cons. by right.
  - intros a. rewrite lookup_insert_is_Some. intros [<-|[_ Ha]]; [apply (ro_loc _ _ g Hr); set_solver|].
    destruct (decide (a ∈ g_loc <$> k2)) as [(g3&->&Hg3)%list_elem_of_fmap|Hin].
    + apply (ro_loc _ _ g3 Hr). set_solver.
    + rewrite Hsame in Ha by done. apply lookup_insert_is_Some in Ha as [<-|[_ Ha]]; [|by apply Hr4].
      apply (ro_loc _ _ g Hr). set_solver.
Qed.

(** What the first half of [free_region] makes of the regions before [g]. *)
Definition merged_before (l1 k1 : list region) (g : region) (gs gz : Z) (td : option loc) : Prop :=
  (td = None ∧ k1 = l1 ∧ gs = g_start g ∧ gz = g_size g ∧ last_used l1) ∨
  ∃ p, l1 = k1 ++ [p] ∧ g_used p = false ∧ td = Some (g_loc p) ∧
    gs = u32 (g_start g - g_size p) ∧ gz = u32 (g_size g + g_size p).

(** And the second half of those after it. *)
Definition merged_after (l2 k2 : list region) (g : region) (gz : Z) (td : option loc) : Prop :=
  (td = None ∧ k2 = l2 ∧ gz = g_size g ∧ head_used l2) ∨
  ∃ n, l2 = n :: k2 ∧ g_used n = false ∧ td = Some (g_loc n) ∧ gz = u32 (g_size g + g_size n).

Definition not_in (td : option loc) (l : list region) : Prop :=
  match td with Some a => a ∉ g_loc <$> l | None => True end.

Lemma merge_prev_ok sp l1 g l2 s z u : regions_of sp (l1 ++ g :: l2) →
  ∃ h map td k1 gs gz, merge_prev (sp_heap sp) (m_region_map sp) (g_loc g) = Done (h, map, td) ∧
    merged_before l1 k1 g gs gz td ∧ not_in td (k1 ++ g :: l2) ∧
    regions_of (mk_space s z map u h (sp_fresh sp)) (k1 ++ mk_reg (g_loc g) gs gz (g_used g) (g_vm g) :: l2).
Proof.
  intros Hr. pose proof (regions_node _ _ _ _ Hr) as Hng.
  assert (regions_of (mk_space s z (m_region_map sp) u (sp_heap sp) (sp_fresh sp)) (l1 ++ g :: l2)) as Hsame
    by (by destruct Hr; split).
  assert (mk_reg (g_loc g) (g_start g) (g_size g) (g_used g) (g_vm g) = g) as Hgid by (by destruct g).
  destruct l1 as [|p k1 _] using rev_ind.
  - exists (sp_heap sp), (m_region_map sp), None, [], (g_start g), (g_size g). rewrite Hgid.
    split_and!; [|left; split_and!; [done..|apply last_used_nil]|done|done].
    unfold merge_prev. rewrite (deref_Done _ _ _ Hng). done.
  - rewrite <-app_assoc in Hr. cbn [app] in Hr. destruct (g_used p) eqn:Hp.
    + exists (sp_heap sp), (m_region_map sp), None, (k1 ++ [p]), (g_start g), (g_size g). rewrite Hgid.
      split_and!; [|left; split_and!; [done..|]|done|done].
      * unfold merge_prev. rewrite (deref_Done _ _ _ Hng). cbn [mbind outcome_bind node_of sr_prev].
        rewrite last_loc_app. cbn [last_loc foldl]. rewrite (deref_Done _ _ _ (regions_node _ _ _ _ Hr)).
        cbn [mbind outcome_bind node_of sr_used]. by rewrite Hp.
      * intros l' g' [_ [= <-]]%app_inj_2; done.
    + destruct (merge_prev_free sp k1 p g l2 s z u Hr Hp) as (h&map&Hm&Hni&Hr').
      exists h, map, (Some (g_loc p)), k1. eexists _, _. split_and!; [done| |done|done].
      right. by exists p.
Qed.

Lemma merge_next_ok sp l1 g l2 s z u : regions_of sp (l1 ++ g :: l2) →
  ∃ h td k2 gz, merge_next (sp_heap sp) (g_loc g) = Done (h, td) ∧
    merged_after l2 k2 g gz td ∧ not_in td (l1 ++ g :: k2) ∧
    regions_of (mk_space s z (m_region_map sp) u h (sp_fresh sp))
      (l1 ++ mk_reg (g_loc g) (g_start g) gz (g_used g) (g_vm g) :: k2).
Proof.
  intros Hr. pose proof (regions_node _ _ _ _ Hr) as Hng.
  assert (regions_of (mk_space s z (m_region_map sp) u (sp_heap sp) (sp_fresh sp)) (l1 ++ g :: l2)) as Hsame
    by (by destruct Hr; split).
  assert (mk_reg (g_loc g) (g_start g) (g_size g) (g_used g) (g_vm g) = g) as Hgid by (by destruct g).
  destruct l2 as [|n k2].
  - exists (sp_heap sp), None, [], (g_size g). rewrite Hgid.
    split_and!; [|left; split_and!; [done..|apply head_used_nil]|done|done].
    unfold merge_next. rewrite (deref_Done _ _ _ Hng). done.
  - destruct (g_used n) eqn:Hn.
    + exists (sp_heap sp), None, (n :: k2), (g_size g). rewrite Hgid.
      split_and!; [|left; split_and!; [done..|]|done|done].
      * unfold merge_next. rewrite (deref_Done _ _ _ Hng). cbn [mbind outcome_bind node_of sr_next head_loc].
        pose proof (ro_seg _ _ Hr) as [_ (_&Hnn&_)]%seg_app. rewrite (deref_Done _ _ _ Hnn).
        cbn [mbind outcome_bind node_of sr_used]. by rewrite Hn.
      * by intros g' l' [= <- _].
    + destruct (merge_next_free sp l1 g n k2 s z u Hr Hn) as (h&Hm&Hni&Hr').
      exists h, (Some (g_loc n)), k2. eexists. split_and!; [done| |done|done]. right. by exists n.
Qed.

Lemma regions_delete_opt sp l td : regions_of sp l → not_in td l →
  regions_of (mk_space (sp_start sp) (sp_size sp) (m_region_map sp) (m_used sp) (delete_opt (sp_heap sp) td) (sp_fresh sp)) l.
Proof.
  intros [] Hni. destruct td as [a|]; [|by split]. split; cbn; try done.
  - by apply seg_delete.
  - intros b. rewrite lookup_delete_is_Some. intros [_ ?]. auto.
Qed.

(** The list after [g] has been freed. *)
Definition freed (l1 : list region) (g : region) (l2 : list region) (l' : list region) : Prop :=
  ∃ k1 k2 s e, l' = k1 ++ mk_reg (g_loc g) s (e - s) false None :: k2 ∧
    ((k1 = l1 ∧ s = g_start g ∧ last_used l1) ∨
     ∃ p, l1 = k1 ++ [p] ∧ g_used p = false ∧ s = g_start p) ∧
    ((k2 = l2 ∧ e = g_start g + g_size g ∧ head_used l2) ∨
     ∃ n, l2 = n :: k2 ∧ g_used n = false ∧ e = g_start n + g_size n).

Lemma freed_tiled st l1 g l2 en l' : (PAGE_SIZE | st) → tiled st (l1 ++ g :: l2) en → freed l1 g l2 l' →
  tiled st l' en.
Proof.
  intros Hst Ht (k1&k2&s&e&->&H1&H2). destruct (tiled_mid _ _ _ _ _ Ht Hst) as (?&?&?&Ha&?&Ht1&Ht2).
  assert (tiled st k1 s ∧ s ≤ g_start g ∧ (PAGE_SIZE | s)) as (Hk1&Hs&Hsa).
  { destruct H1 as [(->&->&_)|(p&->&_&->)]; [done|]. apply tiled_mid in Ht1 as (?&?&?&?&_&?&_); [|done].
    split_and!; [done|lia|done]. }
  assert (tiled e k2 en ∧ g_start g + g_size g ≤ e ∧ (PAGE_SIZE | e)) as (Hk2&He&Hea).
  { assert (PAGE_SIZE | g_start g + g_size g) by (by apply Z.divide_add_r).
    destruct H2 as [(->&->&_)|(n&->&_&->)]; [done|]. apply (tiled_mid _ []) in Ht2 as (?&?&?&?&?&_&?); [|done].
    split_and!; [done|lia|by apply Z.divide_add_r]. }
  apply tiled_app. exists s. split; [done|]. cbn. split_and!; [done|lia|by apply Z.divide_sub_r|].
  by replace (s + (e - s)) with e by lia.
Qed.

Lemma freed_used l1 g l2 l' : g_used g = true → freed l1 g l2 l' →
  used_sum l' = used_sum (l1 ++ g :: l2) - g_size g.
Proof.
  intros Hg (k1&k2&s&e&->&H1&H2). rewrite !used_sum_app. cbn. rewrite Hg.
  assert (used_sum k1 = used_sum l1) as ->.
  { destruct H1 as [(->&_)|(p&->&Hp&_)]; [done|]. rewrite used_sum_app. cbn. rewrite Hp. lia. }
  assert (used_sum k2 = used_sum l2) as ->.
  { destruct H2 as [(->&_)|(n&->&Hn&_)]; [done|]. cbn. rewrite Hn. lia. }
  lia.
Qed.

Lemma freed_coalesced l1 g l2 l' : coalesced (l1 ++ g :: l2) → freed l1 g l2 l' → coalesced l'.
Proof.
  intros (Hc1&Hc2&_)%coalesced_mid (k1&k2&s&e&->&H1&H2). apply coalesced_mid.
  assert (coalesced k1 ∧ last_used k1) as [? ?].
  { destruct H1 as [(->&_&?)|(p&->&Hp&_)]; [done|]. apply coalesced_mid in Hc1 as (?&_&H). tauto. }
  assert (coalesced k2 ∧ head_used k2) as [? ?].
  { destruct H2 as [(->&_&?)|(n&->&Hn&_)]; [done|]. apply (coalesced_mid []) in Hc2 as (_&?&H'). tauto. }
  done.
Qed.

Lemma freed_elem l1 g l2 l' g' : freed l1 g l2 l' → g' ∈ l' → g_vm g' = None ∨ g' ∈ l1 ++ g :: l2.
Proof.
  intros (k1&k2&s&e&->&H1&H2). rewrite elem_of_app, elem_of_cons. intros [Hin|[->|Hin]]; [right|by left|right].
  - destruct H1 as [(->&_)|(p&->&_)]; set_solver.
  - destruct H2 as [(->&_)|(n&->&_)]; set_solver.
Qed.

(** The result of the two halves, with the machine arithmetic resolved. *)
Lemma freed_intro st l1 g l2 en k1 k2 gs gz gz' td0 td1 : 0 ≤ st → en < 2 ^ 32 → (PAGE_SIZE | st) →
  tiled st (l1 ++ g :: l2) en → merged_before l1 k1 g gs gz td0 →
  merged_after l2 k2 (mk_reg (g_loc g) gs gz false None) gz' td1 →
  freed l1 g l2 (k1 ++ mk_reg (g_loc g) gs gz' false None :: k2).
Proof.
  intros H0 Hen Hst Ht Hb Ha. destruct (tiled_mid _ _ _ _ _ Ht Hst) as (?&?&?&Hal&?&Ht1&Ht2).
  assert (0 ≤ gs ≤ g_start g ∧ gs + gz = g_start g + g_size g ∧
    ((k1 = l1 ∧ gs = g_start g ∧ last_used l1) ∨ ∃ p, l1 = k1 ++ [p] ∧ g_used p = false ∧ gs = g_start p))
    as (Hgs&Hgz&Hbefore).
  { destruct Hb as [(_&->&->&->&?)|(p&->&Hp&_&->&->)].
    - split_and!; [lia..|]. by left.
    - apply tiled_mid in Ht1 as (?&?&?&_&_&_&Hpe); [|done]. cbn in Hpe.
      rewrite !u32_id by lia. split_and!; [lia..|]. right. exists p. split_and!; [done|done|lia]. }
  exists k1, k2, gs, (gs + gz'). split; [do 3 f_equal; lia|]. split; [done|].
  destruct Ha as [(_&->&->&?)|(n&->&Hn&_&->)]; cbn [g_size].
  - left. done.
  - apply (tiled_mid _ []) in Ht2 as (_&?&?&_&_&Hns&_); [|by apply Z.divide_add_r]. cbn in Hns.
    right. exists n. rewrite u32_id by lia. split_and!; [done|done|lia].
Qed.

Lemma free_region_ok sp l1 g l2 : space_inv sp (l1 ++ g :: l2) → g_used g = true →
  ∃ sp' l', free_region sp (g_loc g) = Done sp' ∧ freed l1 g l2 l' ∧ space_inv sp' l'.
Proof.
  intros Hi Hg. pose proof (si_regions _ _ Hi) as Hr. pose proof (regions_node _ _ _ _ Hr) as Hng.
  unfold free_region. rewrite (deref_Done _ _ _ Hng). cbn [mbind outcome_bind].
  rewrite (update_Done _ _ _ _ Hng). cbn [mbind outcome_bind].
  set (g0 := mk_reg (g_loc g) (g_start g) (g_size g) false None).
  set (u := u32 (m_used sp - g_size g)).
  pose proof (regions_change sp l1 g l2 g0 (sp_start sp) (sp_size sp) u (sp_fresh sp) Hr eq_refl ltac:(lia)) as Hr0.
  set (sp0 := mk_space _ _ _ _ _ _) in Hr0.
  destruct (merge_prev_ok sp0 l1 g0 l2 (sp_start sp) (sp_size sp) u Hr0)
    as (h1&map1&td0&k1&gs&gz&Hm1&Hb&Hni0&Hr1). cbn [sp0 sp_heap m_region_map sp_fresh] in Hm1, Hr1.
  change (with_vmRegion None (with_used false (node_of g (head_loc l2 None) (last_loc None l1))))
    with (node_of g0 (head_loc l2 None) (last_loc None l1)).
  change (g_loc g0) with (g_loc g) in *. rewrite Hm1. cbn [mbind outcome_bind].
  set (g1 := mk_reg (g_loc g) gs gz (g_used g0) (g_vm g0)) in *.
  destruct (merge_next_ok _ k1 g1 l2 (sp_start sp) (sp_size sp) u Hr1) as (h2&td1&k2&gz'&Hm2&Ha&Hni1&Hr2).
  cbn [sp_heap m_region_map sp_fresh] in Hm2, Hr2. change (g_loc g1) with (g_loc g) in *.
  rewrite Hm2. cbn [mbind outcome_bind].
  set (l' := k1 ++ mk_reg (g_loc g) (g_start g1) gz' (g_used g1) (g_vm g1) :: k2) in *.
  assert (freed l1 g l2 l') as Hfr.
  { pose proof (si_start _ _ Hi) as [? ?]. pose proof (si_end _ _ Hi) as [_ ?].
    eapply (freed_intro (sp_start sp)); [done|done|done|by apply Hi|exact Hb|exact Ha]. }
  eexists _, l'. split; [done|]. split; [done|].
  assert (not_in td0 l' ∧ not_in td1 l') as [Hd0 Hd1].
  { split.
    - destruct td0 as [a|]; [|done]. cbn in Hni0 |- *. intros Hin. apply Hni0. unfold l' in Hin.
      rewrite fmap_app, fmap_cons, elem_of_app, elem_of_cons in Hin |- *. cbn [g_loc] in Hin.
      destruct Hin as [?|[?|Hin]]; [by left|right; by left|right; right].
      destruct Ha as [(_&->&_)|(n&->&_)]; [done|]. rewrite fmap_cons. by right.
    - destruct td1 as [a|]; [|done]. cbn in Hni1 |- *. unfold l'. by rewrite fmap_app, fmap_cons in Hni1 |- *. }
  pose proof (regions_delete_opt _ _ _ (regions_delete_opt _ _ _ Hr2 Hd0) Hd1) as Hr3.
  cbn [sp_start sp_size m_region_map m_used sp_heap sp_fresh] in Hr3.
  pose proof (used_sum_le _ _ _ (freed_tiled _ _ _ _ _ _ (proj2 (si_start _ _ Hi)) (si_tiled _ _ Hi) Hfr)) as Hle.
  pose proof (si_start _ _ Hi). pose proof (si_end _ _ Hi).
  split; cbn [sp_start sp_size m_used]; try done.
  - eapply freed_tiled; [apply Hi|apply Hi|done].
  - eapply freed_coalesced; [apply Hi|done].
  - rewrite (freed_used _ _ _ _ Hg Hfr) in Hle |- *. rewrite (si_used _ _ Hi). cbn [node_of sr_size].
    apply u32_id. lia.
  - intros g' Hg' Hu. destruct (freed_elem _ _ _ _ g' Hfr Hg') as [?|Hin]; [done|]. by eapply (si_free _ _ Hi).
Qed.

(** ** Runs *)

(** The region a caller got is marked with what is mapped there ([map_object]). *)
Definition set_vmRegion (sp : VMSpace) (a : loc) (v : Z) : outcome VMSpace :=
  h ← update (sp_heap sp) a (with_vmRegion (Some v)); Done (with_heap sp h).

(** A used region of the space, by its node. *)
Definition used_region (sp : VMSpace) (a : loc) : Prop :=
  ∃ l1 g l2, regions_of sp (l1 ++ g :: l2) ∧ g_loc g = a ∧ g_used g = true.

Inductive space_step : VMSpace → VMSpace → Prop :=
  | step_space sp sz r sp' : 0 < sz < 2 ^ 32 → (PAGE_SIZE | sz) →
      alloc_space sp sz = Done (r, sp') → space_step sp sp'
  | step_space_at sp sz address r sp' : 0 < sz < 2 ^ 32 → (PAGE_SIZE | sz) → (PAGE_SIZE | address) →
      alloc_space_at sp sz address = Done (r, sp') → space_step sp sp'
  | step_set sp a v sp' : used_region sp a → set_vmRegion sp a v = Done sp' → space_step sp sp'
  | step_release sp a sp' : used_region sp a → free_region sp a = Done sp' → space_step sp sp'.

(** The list of a space is determined by its heap. *)
Lemma seg_unique p l l' h : seg p l None h → seg p l' None h → head_loc l None = head_loc l' None → l = l'.
Proof.
  revert p l'. induction l as [|g l IH]; intros p [|g' l']; cbn; try done.
  intros [Hg Hl] [Hg' Hl'] [= He]. rewrite He in Hg, Hl. rewrite Hg in Hg'. injection Hg' as Hs Hz Hu Hn Hv.
  assert (g = g') as -> by (destruct g, g'; cbn in *; congruence). f_equal. by eapply IH.
Qed.

Lemma regions_unique sp l l' : regions_of sp l → regions_of sp l' → l = l'.
Proof. intros [H1 Hs _ _] [H1' Hs' _ _]. eapply seg_unique; [done|done|]. by rewrite <-H1. Qed.

Lemma used_region_split sp l a : space_inv sp l → used_region sp a →
  ∃ l1 g l2, l = l1 ++ g :: l2 ∧ g_loc g = a ∧ g_used g = true.
Proof.
  intros Hi (l1&g&l2&Hr&Ha&Hu). exists l1, g, l2. split_and!; [|done|done].
  eapply regions_unique; [apply Hi|done].
Qed.

Lemma set_vmRegion_ok sp l1 g l2 v : space_inv sp (l1 ++ g :: l2) → g_used g = true →
  ∃ sp', set_vmRegion sp (g_loc g) v = Done sp' ∧
    space_inv sp' (l1 ++ mk_reg (g_loc g) (g_start g) (g_size g) true (Some v) :: l2).
Proof.
  intros Hi Hg. pose proof (si_regions _ _ Hi) as Hr. pose proof (regions_node _ _ _ _ Hr) as Hng.
  unfold set_vmRegion. rewrite (update_Done _ _ _ _ Hng). cbn [mbind outcome_bind]. eexists. split; [done|].
  set (g' := mk_reg (g_loc g) (g_start g) (g_size g) true (Some v)).
  pose proof (regions_change sp l1 g l2 g' (sp_start sp) (sp_size sp) (m_used sp) (sp_fresh sp) Hr eq_refl ltac:(lia)) as Hr'.
  destruct Hi. split; cbn [with_heap sp_start sp_size m_used]; try done.
  - unfold with_heap, with_vmRegion. cbn [node_of sr_start sr_size sr_used sr_next sr_prev]. rewrite Hg. exact Hr'.
  - apply tiled_app in si_tiled0 as (m&?&?). apply tiled_app. by exists m.
  - apply coalesced_mid in si_coalesced0 as (?&?&_). apply coalesced_mid. done.
  - rewrite si_used0, !used_sum_app. cbn. by rewrite Hg.
  - intros g1. rewrite elem_of_app, elem_of_cons. intros [?|[->|?]]; [|done|]; apply si_free0; set_solver.
Qed.

Lemma space_step_inv sp l sp' : space_inv sp l → space_step sp sp' → ∃ l', space_inv sp' l'.
Proof.
  intros Hi Hs. destruct Hs as [sp sz r sp' Hsz Hal Ha|sp sz address r sp' Hsz Hal Hal' Ha|
    sp a v sp' Hu Ha|sp a sp' Hu Ha].
  - destruct (alloc_space_ok sp l sz Hi ltac:(lia) Hal) as [(sp1&Ha1&?&_)|(l1&g&l2&b&sp1&_&_&_&_&Ha1&?)];
      rewrite Ha in Ha1; simplify_eq; by eexists.
  - destruct (alloc_space_at_ok sp l sz address Hi Hsz Hal Hal') as ([r1 sp1]&Ha1&Hres).
    rewrite Ha in Ha1. injection Ha1 as <- <-. inversion Hres; by eexists.
  - destruct (used_region_split _ _ _ Hi Hu) as (l1&g&l2&->&<-&Hg).
    destruct (set_vmRegion_ok sp l1 g l2 v Hi Hg) as (sp1&Ha1&?). rewrite Ha in Ha1. injection Ha1 as <-. by eexists.
  - destruct (used_region_split _ _ _ Hi Hu) as (l1&g&l2&->&<-&Hg).
    destruct (free_region_ok sp l1 g l2 Hi Hg) as (sp1&l'&Ha1&_&?). rewrite Ha in Ha1. injection Ha1 as <-. by eexists.
Qed.

(** The arguments with which the kernel creates its spaces. *)
Definition space_args (start sz : Z) : Prop :=
  0 ≤ start ∧ (PAGE_SIZE | start) ∧ 0 < sz ∧ (PAGE_SIZE | sz) ∧ start + sz < 2 ^ 32.

Lemma space_new_inv start sz : space_args start sz →
  space_inv (space_new start sz) [mk_reg 1 start sz false None].
Proof.
  intros (?&?&?&?&?). split; cbn; try done.
  - split; cbn; [done|done|apply NoDup_singleton|].
    intros a. rewrite lookup_singleton_is_Some. intros <-. lia.
  - by intros g ->%list_elem_of_singleton.
Qed.

Lemma space_reach start sz sp : space_args start sz → rtc space_step (space_new start sz) sp →
  ∃ l, space_inv sp l.
Proof.
  intros Ha Hr. assert (∃ l, space_inv (space_new start sz) l) as Hi by (eexists; by apply space_new_inv).
  induction Hr as [|sp1 sp2 sp3 Hs _ IH]; [done|]. apply IH. destruct Hi as [l Hi]. by eapply space_step_inv.
Qed.

(** Only one region holds an address. *)
Lemma contains_before s l e g address : tiled s l e → (PAGE_SIZE | s) → 0 ≤ s → e < 2 ^ 32 → e ≤ address → g ∈ l →
  g_contains address g = false.
Proof.
  intros Ht Hs H0 He Ha (l1&l2&->)%list_elem_of_split. destruct (tiled_mid _ _ _ _ _ Ht Hs) as (?&?&?&_).
  unfold g_contains. rewrite u32_id by lia. lia.
Qed.

Lemma contains_unique sp l l1 g l2 k1 g' k2 address : space_inv sp l → l = l1 ++ g :: l2 → l = k1 ++ g' :: k2 →
  (∀ x, x ∈ l1 → g_contains address x = false) → g_contains address g = true → g_contains address g' = true →
  g' = g.
Proof.
  intros Hi -> Hk Hno Hg Hg'. pose proof (si_start _ _ Hi). pose proof (si_end _ _ Hi).
  destruct (tiled_mid _ _ _ _ _ (si_tiled _ _ Hi) (proj2 (si_start _ _ Hi))) as (?&?&?&?&?&_&Ht2).
  assert (g' ∈ l1 ++ g :: l2) as Hin by (rewrite Hk; set_solver).
  apply elem_of_app in Hin as [Hin|[->|Hin]%elem_of_cons]; [by rewrite Hno in Hg'|done|].
  unfold g_contains in Hg. rewrite u32_id in Hg by lia.
  apply list_elem_of_split in Hin as (m1&m2&->).
  apply tiled_mid in Ht2 as (?&?&?&_); [|by apply Z.divide_add_r].
  unfold g_contains in Hg'. rewrite u32_id in Hg' by lia. lia.
Qed.

Lemma get_region_containing_ok sp l g address : space_inv sp l → g ∈ l → g_contains address g = true →
  get_region_containing sp address = Done (match g_vm g with Some v => Ok v | None => Err ENOENT end).
Proof.
  intros Hi Hin Hc. pose proof (si_regions _ _ Hi) as Hr. unfold get_region_containing.
  destruct (space_find_spec sp l (λ r, sr_contains r address) (g_contains address) Hr ltac:(done))
    as [[_ Hno]|(l1&g1&l2&Hl&Hno&Hc1&->)]; [by rewrite (Hno g Hin) in Hc|].
  apply list_elem_of_split in Hin as (k1&k2&Hk).
  rewrite (contains_unique sp l l1 g1 l2 k1 g k2 address Hi Hl Hk Hno Hc1 Hc).
  cbn [mbind outcome_bind region_found]. rewrite Hl in Hr. rewrite (deref_Done _ _ _ (regions_node sp l1 g1 l2 Hr)).
  cbn [mbind outcome_bind node_of sr_vmRegion]. by destruct (g_vm g1).
Qed.

(** *** [map_stack] *)

(** A search from the last node backwards. *)
Lemma last_loc_snoc l g : last_loc None (l ++ [g]) = Some (g_loc g).
Proof. by rewrite last_loc_app. Qed.

Lemma walk_last_spec fuel h l : ∀ p g, seg p (g :: l) None h → (length l < fuel)%nat →
  walk_last fuel h (Some (g_loc g)) = Done (last_loc None (g :: l)).
Proof.
  revert fuel. induction l as [|g' l IH]; intros fuel p g Hs Hf; (destruct fuel as [|fuel]; [cbn in Hf; lia|]);
    destruct Hs as [Hg Hs]; cbn [walk_last]; rewrite (deref_Done _ _ _ Hg); cbn [mbind outcome_bind node_of sr_next head_loc].
  - done.
  - cbn in Hf. by rewrite (IH fuel _ g' Hs) by lia.
Qed.

Lemma walk_back_spec fuel h sz n l : seg None l n h → (length l < fuel)%nat →
  ((∀ g, g ∈ l → unfit sz g) ∧ walk_back fuel h (last_loc None l) sz = Undef) ∨
  ∃ l1 g l2, l = l1 ++ g :: l2 ∧ (∀ g, g ∈ l2 → unfit sz g) ∧ g_used g = false ∧ sz ≤ g_size g ∧
    walk_back fuel h (last_loc None l) sz = Done (Some (g_loc g)).
Proof.
  revert fuel n. induction l as [|g l IH] using rev_ind; intros fuel n Hs Hf.
  { left. split; [set_solver|]. destruct fuel; [cbn in Hf; lia|done]. }
  rewrite length_app in Hf. cbn in Hf. destruct fuel as [|fuel]; [lia|].
  apply seg_app in Hs as [Hs [Hg _]]. rewrite last_loc_snoc. cbn [walk_back].
  rewrite (deref_Done _ _ _ Hg). cbn [mbind outcome_bind node_of sr_used sr_size sr_prev].
  rewrite bool_decide_true by (by eexists). rewrite andb_true_r.
  destruct (g_used g || (g_size g <? sz)) eqn:Hu.
  - assert (unfit sz g) as Hun by (apply fits_false; by rewrite Hu).
    destruct (IH fuel _ Hs ltac:(lia)) as [[Hno ->]|(l1&g1&l2&->&Hno&?&?&->)].
    + left. split; [|done]. intros g1 [?| ->%list_elem_of_singleton]%elem_of_app; auto.
    + right. exists l1, g1, (l2 ++ [g]). split_and!; [by rewrite <-app_assoc| |done|done|done].
      intros g2 [?| ->%list_elem_of_singleton]%elem_of_app; auto.
  - right. exists l, g, []. apply (f_equal negb), fits_true in Hu as [? ?]. split_and!; [done|set_solver|done|done|done].
Qed.

Lemma stack_address_ok sp l sz : space_inv sp l →
  ((∀ g, g ∈ l → unfit sz g) ∧ stack_address sp sz = Undef) ∨
  ∃ l1 g l2, l = l1 ++ g :: l2 ∧ (∀ g, g ∈ l2 → unfit sz g) ∧ g_used g = false ∧ sz ≤ g_size g ∧
    stack_address sp sz = Done (Ok (u32 (g_start g + g_size g - sz))).
Proof.
  intros Hi. pose proof (si_regions _ _ Hi) as Hr. pose proof (ro_fuel _ _ Hr) as Hfuel.
  pose proof (si_start _ _ Hi). pose proof (si_end _ _ Hi). unfold stack_address.
  destruct l as [|g0 l]. { pose proof (si_tiled _ _ Hi) as Ht. cbn in Ht. lia. }
  rewrite (ro_head _ _ Hr). cbn [head_loc].
  rewrite (walk_last_spec _ _ l None g0 (ro_seg _ _ Hr)) by (cbn in Hfuel; lia). cbn [mbind outcome_bind].
  destruct (walk_back_spec (list_fuel sp) (sp_heap sp) sz None (g0 :: l) (ro_seg _ _ Hr) Hfuel)
    as [[Hno ->]|(l1&g&l2&Hl&Hno&Hu&Hle&->)]; [by left|right].
  exists l1, g, l2. split_and!; [done|done|done|done|]. rewrite Hl in Hr, Hi.
  cbn [mbind outcome_bind]. rewrite (deref_Done _ _ _ (regions_node sp l1 g l2 Hr)).
  cbn [mbind outcome_bind]. unfold sr_end. cbn [node_of sr_start sr_size].
  destruct (tiled_mid _ _ _ _ _ (si_tiled _ _ Hi) (proj2 (si_start _ _ Hi))) as (?&?&?&_).
  by rewrite (u32_id (g_start g + g_size g)) by lia.
Qed.

(** *** Allocating and freeing *)

(** A region without the address of its node. *)
Definition extent (g : region) : Z * Z * bool * option Z := (g_start g, g_size g, g_used g, g_vm g).

(** Freeing the region that was taken from [g] merges it with what was left of
    [g], and with nothing else. *)
Lemma taken_freed l1 g l2 a sz k1 t k2 l' : coalesced (l1 ++ g :: l2) → g_used g = false → g_vm g = None →
  taken l1 g l2 a sz = k1 ++ t :: k2 → g_loc t = a → NoDup (g_loc <$> (k1 ++ t :: k2)) → freed k1 t k2 l' →
  extent <$> l' = extent <$> (l1 ++ g :: l2).
Proof.
  intros Hc Hu Hv Ht Ha Hn Hf. apply coalesced_mid in Hc as (_&_&Hlh). destruct (Hlh Hu) as [Hl1 Hl2].
  assert (k1 = l1 ∧ t = mk_reg a (g_start g) sz true None ∧
    k2 = if g_size g =? sz then l2 else mk_reg (g_loc g) (g_start g + sz) (g_size g - sz) false None :: l2) as (->&->&Hk2).
  { unfold taken in Ht. rewrite <-Ht in Hn. clear Hlh Hl1 Hl2 Hf. revert k1 Ht Hn. induction l1 as [|x l1 IH]; intros [|y k1] Ht Hn.
    - simplify_list_eq. by split_and!.
    - cbn in Ht. injection Ht as <- Ht. exfalso. cbn in Hn. apply NoDup_cons in Hn as [Hn _]. apply Hn.
      rewrite Ht, fmap_app, <-Ha. apply elem_of_app. right. cbn. left.
    - cbn in Ht. injection Ht as -> Ht. exfalso. cbn in Hn. apply NoDup_cons in Hn as [Hn _]. apply Hn.
      rewrite fmap_app, Ha. apply elem_of_app. right. cbn. left.
    - cbn in Ht. injection Ht as -> Ht. cbn in Hn. apply NoDup_cons in Hn as [_ Hn].
      destruct (IH k1 Ht Hn) as (->&->&->). by split_and!. }
  destruct Hf as (k1'&k2'&s&e&->&[(->&->&_)|(p&->&Hp&_)]&He); [|by rewrite (Hl1 _ _ eq_refl) in Hp].
  rewrite !fmap_app, !fmap_cons. destruct g as [ga gs gz gu gv]. cbn in *. subst gu gv.
  destruct (gz =? sz) eqn:Hz; subst k2.
  - destruct He as [(->&->&_)|(n&->&Hnu&_)]; [|by rewrite (Hl2 _ _ eq_refl) in Hnu].
    apply Z.eqb_eq in Hz. unfold extent. cbn. repeat f_equal; lia.
  - destruct He as [(_&_&Hh)|(n&[= <- <-]&_&->)]; [by specialize (Hh _ _ eq_refl)|].
    unfold extent. cbn. repeat f_equal; lia.
Qed.

(** ** What the callers of a space rely on *)

(** C21: A space that has been used in any way is tiled by its regions, no two
    neighbouring regions are free, [m_used] is the total of the used ones, and
    [alloc_space] never fails while a free region is large enough: it takes the
    first such region, from its start. *)
Theorem vmspace_first_fit start sz sp n : space_args start sz → rtc space_step (space_new start sz) sp →
  0 < n → (PAGE_SIZE | n) →
  ∃ l, space_inv sp l ∧
    ((∃ sp', alloc_space sp n = Done (Err ENOMEM, sp') ∧ space_inv sp' l ∧ ∀ g, g ∈ l → unfit n g) ∨
     ∃ l1 g l2 a sp', l = l1 ++ g :: l2 ∧ g_used g = false ∧ n ≤ g_size g ∧ (∀ g, g ∈ l1 → unfit n g) ∧
       alloc_space sp n = Done (Ok a, sp') ∧ space_inv sp' (taken l1 g l2 a n)).
Proof.
  intros Ha Hr H0 Hd. destruct (space_reach _ _ _ Ha Hr) as [l Hl]. exists l. split; [done|].
  by apply alloc_space_ok.
Qed.

(** A region that is allocated and freed again leaves the space as it was:
    the same extents in the same order, free regions merged back. *)
Theorem vmspace_alloc_free start sz sp n a sp1 : space_args start sz → rtc space_step (space_new start sz) sp →
  0 < n → (PAGE_SIZE | n) → alloc_space sp n = Done (Ok a, sp1) →
  ∃ sp2 l l2, free_region sp1 a = Done sp2 ∧ space_inv sp l ∧ space_inv sp2 l2 ∧
    extent <$> l2 = extent <$> l ∧ m_used sp2 = m_used sp.
Proof.
  intros Ha Hr H0 Hd Hal. destruct (space_reach _ _ _ Ha Hr) as [l Hl].
  destruct (alloc_space_ok _ _ n Hl H0 Hd) as [(?&Hal'&_)|(l1&g&l2&a'&sp'&->&Hu&Hz&_&Hal'&Hi)];
    [congruence|]. rewrite Hal in Hal'. injection Hal' as <- <-.
  destruct (free_region_ok sp1 l1 (mk_reg a (g_start g) n true None)
    (if g_size g =? n then l2 else mk_reg (g_loc g) (g_start g + n) (g_size g - n) false None :: l2) Hi eq_refl)
    as (sp2&l'&Hfr&Hf&Hi').
  exists sp2, (l1 ++ g :: l2), l'. cbn [g_loc] in Hfr. split_and!; [done|done|done| |].
  - eapply (taken_freed l1 g l2 a n); [apply Hl|done| |done|done|apply Hi|done].
    apply (si_free _ _ Hl); [|done]. apply elem_of_app. right. left.
  - rewrite (si_used _ _ Hi'), (si_used _ _ Hl). erewrite (freed_used _ _ _ _ _ Hf).
    rewrite !used_sum_app. cbn. rewrite Hu. destruct (g_size g =? n); cbn; lia.
    Unshelve. done.
Qed.

(** [map_stack] on a space with no free region that is large enough reads
    through a null pointer: its loop looks at the node before it tests it. *)
Theorem map_stack_full_undefined start sz sp n : space_args start sz → rtc space_step (space_new start sz) sp →
  (∃ l, space_inv sp l ∧ ∀ g, g ∈ l → unfit n g) → stack_address sp n = Undef.
Proof.
  intros Ha Hr (l&Hl&Hn). destruct (stack_address_ok sp l n Hl) as [[_ ->]|(l1&g&l2&->&_&Hu&Hz&_)]; [done|].
  destruct (Hn g) as [?|?]; [apply elem_of_app; right; left|congruence|lia].
Qed.

(** A space of four pages, with its first page in use. *)
Definition example_space : VMSpace :=
  match alloc_space (space_new 4096 16384) 4096 with Done (_, sp) => sp | _ => space_new 4096 16384 end.

Lemma example_space_args : space_args 4096 16384.
Proof. split_and!; try lia; [by exists 1|by exists 4]. Qed.

Lemma example_space_reach : rtc space_step (space_new 4096 16384) example_space.
Proof.
  eapply rtc_l; [|apply rtc_refl]. eapply (step_space _ 4096); [lia|by exists 1|]. vm_compute. reflexivity.
Qed.

Lemma vmspace_first_fit_witness : ∃ l, space_inv example_space l ∧
    ((∃ sp', alloc_space example_space 8192 = Done (Err ENOMEM, sp') ∧ space_inv sp' l ∧ ∀ g, g ∈ l → unfit 8192 g) ∨
     ∃ l1 g l2 a sp', l = l1 ++ g :: l2 ∧ g_used g = false ∧ 8192 ≤ g_size g ∧ (∀ g, g ∈ l1 → unfit 8192 g) ∧
       alloc_space example_space 8192 = Done (Ok a, sp') ∧ space_inv sp' (taken l1 g l2 a 8192)).
Proof.
  apply (vmspace_first_fit 4096 16384 example_space 8192 example_space_args example_space_reach ltac:(lia)).
  by exists 2.
Defined.

Lemma vmspace_alloc_free_witness : ∃ a sp1 sp2 l l2,
  alloc_space example_space 8192 = Done (Ok a, sp1) ∧ free_region sp1 a = Done sp2 ∧
  space_inv example_space l ∧ space_inv sp2 l2 ∧ extent <$> l2 = extent <$> l ∧ m_used sp2 = m_used example_space.
Proof.
  destruct (alloc_space example_space 8192) as [[[a|e] sp1]| | |] eqn:Ha; try (vm_compute in Ha; discriminate).
  destruct (vmspace_alloc_free 4096 16384 example_space 8192 a sp1 example_space_args example_space_reach
    ltac:(lia) ltac:(by exists 2) Ha) as (sp2&l&l2&H).
  by exists a, sp1, sp2, l, l2.
Defined.

Lemma map_stack_full_undefined_witness : stack_address example_space 16384 = Undef.
Proof.
  apply (map_stack_full_undefined 4096 16384 example_space 16384 example_space_args example_space_reach).
  destruct (alloc_space_ok _ _ 4096 (space_new_inv _ _ example_space_args) ltac:(lia) ltac:(by exists 1))
    as [(sp'&Ha&_)|(l1&g&l2&a&sp'&Hl&_&_&_&Ha&Hi)]; [by vm_compute in Ha|].
  exists (taken l1 g l2 a 4096). split; [unfold example_space; by rewrite Ha|].
  destruct l1 as [|? [|? ?]]; [|by injection Hl|by injection Hl]. injection Hl as <- <-.
  cbn. intros g' [->|[->|[]%elem_of_nil]%elem_of_cons]%elem_of_cons; [by left|right; cbn; lia].
Defined.

(** Every outcome of [alloc_space_at] on a space in use: the list is unchanged
    when it fails, and when it succeeds the request is cut out of the free
    region that holds the address, except that a region of exactly the size
    asked for is given whole; the two nodes allocated in advance are lost on
    two of the three ways to fail. *)
Theorem vmspace_alloc_at start sz sp n address : space_args start sz → rtc space_step (space_new start sz) sp →
  0 < n < 2 ^ 32 → (PAGE_SIZE | n) → (PAGE_SIZE | address) →
  ∃ l res, space_inv sp l ∧ alloc_space_at sp n address = Done res ∧ at_result sp l n address res.
Proof.
  intros Ha Hr H0 Hd Had. destruct (space_reach _ _ _ Ha Hr) as [l Hl].
  destruct (alloc_space_at_ok _ _ _ _ Hl H0 Hd Had) as (res&?&?). by exists l, res.
Qed.

Lemma vmspace_alloc_at_witness : ∃ l res, space_inv example_space l ∧
  alloc_space_at example_space 4096 12288 = Done res ∧ at_result example_space l 4096 12288 res.
Proof.
  apply (vmspace_alloc_at 4096 16384 example_space 4096 12288 example_space_args example_space_reach ltac:(lia));
    [by exists 1|by exists 3].
Defined.

(** Asked for three pages at address 12288 in a space whose free region has
    three pages from 8192 on, [alloc_space_at] gives the region at 8192. *)
Theorem alloc_space_at_misplaced :
  ('(r, sp) ← alloc_space_at example_space 12288 12288;
   match r with Ok a => n ← deref (sp_heap sp) (Some a); Done (Some (sr_start n, sr_size n)) | Err _ => Done None end)
  = Done (Some (8192, 12288)).
Proof. vm_compute. reflexivity. Qed.
