(* ===== verification/AddressSpace.v ===== *)
(** * Mapping objects into a space (the rest of kernel/memory/VMSpace.cpp and
    kernel/memory/VMRegion.cpp)

    [VMSpace] finds room, [PageDirectory] maps pages, [VMObject] provides them;
    this file has the operations of [VMSpace] that put the three together:
    mapping, unmapping, page faults and forking. *)

From stdpp Require Import base numbers list option gmap sets.
From S2P Require Import Prelude.
From S2P Require Import Bitmap.
From S2P Require Import PhysicalPage.
From S2P Require Import PhysicalRegion.
From S2P Require Import Frames.
From S2P Require Import VMObject.
From S2P Require Import PageDirectory.
From S2P Require Import VMSpace.

Local Open Scope Z_scope.

(** What all spaces share: the objects and their pages, the [VMRegion]s by
    number, and the kernel's page tables. *)
Record machine : Type := mk_machine {
  ma_vm : vm_state;
  ma_regions : gmap Z VMRegion;
  ma_next : Z;
  ma_kernel : KernelTables;
}.

(** A space with its page directory. *)
Record aspace : Type := mk_aspace { as_space : VMSpace; as_pd : PageDirectory }.

Inductive FaultType : Type := FRead | FWrite | FExecute | FUnknown.

#[export] Instance FaultType_eq_dec : EqDecision FaultType.
Proof. solve_decision. Defined.

Definition get_vmregion (m : machine) (id : Z) : outcome VMRegion :=
  match ma_regions m !! id with Some r => Done r | None => Undef end.

Definition set_vm (m : machine) (v : vm_state) : machine :=
  mk_machine v (ma_regions m) (ma_next m) (ma_kernel m).
Definition set_kernel (m : machine) (k : KernelTables) : machine :=
  mk_machine (ma_vm m) (ma_regions m) (ma_next m) k.
Definition put_region (m : machine) (id : Z) (r : VMRegion) : machine :=
  mk_machine (ma_vm m) (<[id := r]> (ma_regions m)) (ma_next m) (ma_kernel m).

Section operations.
Context (table_region : KernelTables → outcome (Z * KernelTables)).
Context (reclaim : MemoryManager → outcome (Z * MemoryManager)) (fuel : nat).
Context (inode_read : Z → Z → Z → result (list Z)) (raw : list Z).

(** The end of the mapping functions: a [VMRegion] is created for the region
    found and its pages are mapped. *)
Definition make_region (m : machine) (s : aspace) (a : loc) (object start sz object_start : Z) (prot : VMProt)
    : outcome (Z * machine * aspace) :=
  o ← get_object (ma_vm m) object;
  let r := mk_vmregion object start sz object_start prot true in
  let id := ma_next m in
  sp ← set_vmRegion (as_space s) a id;
  '(pd, k) ← pd_map table_region o r 0 0 (as_pd s) (ma_kernel m);
  Done (id, mk_machine (ma_vm m) (<[id := r]> (ma_regions m)) (id + 1) k, mk_aspace sp pd).

Definition map_object (m : machine) (s : aspace) (object : Z) (prot : VMProt)
    (range_start range_size object_start : Z) : outcome (result Z * machine * aspace) :=
  o ← get_object (ma_vm m) object;
  let range_size := if range_size =? 0 then u32 (o_size o - object_start) else range_size in
  if negb (range_start mod PAGE_SIZE =? 0) || negb (range_size mod PAGE_SIZE =? 0) ||
     negb (object_start mod PAGE_SIZE =? 0) || (o_size o <? u32 (object_start + range_size))
  then Done (Err EINVAL, m, s)
  else
    '(res, sp) ← (if negb (range_start =? 0) then alloc_space_at (as_space s) range_size range_start
                  else alloc_space (as_space s) range_size);
    let s := mk_aspace sp (as_pd s) in
    match res with
    | Err e => Done (Err e, m, s)
    | Ok a =>
        r ← deref (sp_heap sp) (Some a);
        '(id, m, s) ← make_region m s a object (sr_start r) range_size object_start prot;
        Done (Ok id, m, s)
    end.

Definition map_object_with_sentinel (m : machine) (s : aspace) (object : Z) (prot : VMProt)
    : outcome (result Z * machine * aspace) :=
  o ← get_object (ma_vm m) object;
  '(res, sp) ← alloc_space (as_space s) (u32 (o_size o + PAGE_SIZE * 2));
  let s := mk_aspace sp (as_pd s) in
  match res with
  | Err e => Done (Err e, m, s)
  | Ok a =>
      r ← deref (sp_heap sp) (Some a);
      '(id, m, s) ← make_region m s a object (u32 (sr_start r + PAGE_SIZE)) (o_size o) 0 prot;
      Done (Ok id, m, s)
  end.

Definition map_stack (m : machine) (s : aspace) (object : Z) (prot : VMProt)
    : outcome (result Z * machine * aspace) :=
  o ← get_object (ma_vm m) object;
  res ← stack_address (as_space s) (o_size o);
  match res with
  | Err e => Done (Err e, m, s)
  | Ok address => map_object m s object prot address (o_size o) 0
  end.

(** The common part of the two [unmap_region]: the node [a] is found. *)
Definition unmap_node (m : machine) (s : aspace) (a : loc) : outcome (result unit * machine * aspace) :=
  n ← deref (sp_heap (as_space s)) (Some a);
  match sr_vmRegion n with
  | None => Done (Err ENOENT, m, s)
  | Some id =>
      r ← get_vmregion m id;
      let m := put_region m id (mk_vmregion (vr_object r) (vr_start r) (vr_size r) (vr_object_start r) (vr_prot r) false) in
      '(pd, k) ← pd_unmap table_region r 0 0 (as_pd s) (ma_kernel m);
      sp ← free_region (as_space s) a;
      Done (Ok tt, set_kernel m k, mk_aspace sp pd)
  end.

(** [unmap_region(VMRegion&)]. *)
Definition unmap_region (m : machine) (s : aspace) (id : Z) : outcome (result unit * machine * aspace) :=
  cur ← find_node (as_space s) (λ n, bool_decide (sr_vmRegion n = Some id));
  match cur with
  | None => Done (Err ENOENT, m, s)
  | Some a => unmap_node m s a
  end.

(** [unmap_region(VirtualAddress)]. *)
Definition unmap_region_at (m : machine) (s : aspace) (address : Z) : outcome (result unit * machine * aspace) :=
  cur ← find_node (as_space s) (λ n, sr_start n =? address);
  match cur with
  | None => Done (Err ENOENT, m, s)
  | Some a => unmap_node m s a
  end.

(** [~VMRegion]. *)
Definition region_destroy (m : machine) (s : aspace) (id : Z) : outcome (machine * aspace) :=
  r ← get_vmregion m id;
  '(m, s) ← (if vr_space r then
               '(res, m, s) ← unmap_region m s id;
               _ ← kassert (negb (is_error res));
               Done (m, s)
             else Done (m, s));
  Done (mk_machine (ma_vm m) (delete id (ma_regions m)) (ma_next m) (ma_kernel m), s).

(** The permission check of [try_pagefault]. *)
Definition fault_denied (prot : VMProt) (type : FaultType) : bool :=
  match type with
  | FRead => negb (p_read prot)
  | FWrite => negb (p_write prot)
  | FExecute => negb (p_execute prot)
  | FUnknown => false
  end.

(** [try_pagefault] on the object, once region and permissions are checked. *)
Definition fault_in_object (m : machine) (s : aspace) (r : VMRegion) (error_page : Z)
    : outcome (result unit * machine * aspace) :=
  let object_page := u32 (error_page + vr_object_start r / PAGE_SIZE) in
  o ← get_object (ma_vm m) (vr_object r);
  let put o mm mem := set_vm m (mk_vm mm mem (<[vr_object r := o]> (vm_objects (ma_vm m)))) in
  let map_at o mm mem start :=
    '(pd, k) ← pd_map table_region o r start PAGE_SIZE (as_pd s) (ma_kernel m);
    Done (Ok tt, set_kernel (put o mm mem) k, mk_aspace (as_space s) pd) in
  p ← physical_page_index o object_page;
  if negb (p =? 0) then
    c ← (if p_write (vr_prot r) then page_is_cow o object_page else Done false);
    if c : bool then
      '(res, o, mm, mem) ← try_cow_page reclaim fuel o object_page (vm_mm (ma_vm m)) (vm_mem (ma_vm m));
      match res with
      | Err e => Done (Err e, put o mm mem, s)
      | Ok _ => map_at o mm mem (u32 (object_page * PAGE_SIZE))
      end
    else map_at o (vm_mm (ma_vm m)) (vm_mem (ma_vm m)) (u32 (object_page * PAGE_SIZE))
  else
    '(res, o, mm, mem) ← try_fault_in_page reclaim fuel inode_read o object_page (vm_mm (ma_vm m)) (vm_mem (ma_vm m));
    match res with
    | Err e => Done (Err e, put o mm mem, s)
    | Ok did_read =>
        p ← physical_page_index o object_page;
        _ ← kassert (negb (p =? 0));
        if did_read : bool then map_at o mm mem (u32 (error_page * PAGE_SIZE))
        else Done (Ok tt, put o mm mem, s)
    end.

Definition try_pagefault (m : machine) (s : aspace) (address : Z) (type : FaultType)
    : outcome (result unit * machine * aspace) :=
  cur ← find_node (as_space s) (λ n, sr_contains n address);
  match cur with
  | None => Done (Err ENOENT, m, s)
  | Some a =>
      n ← deref (sp_heap (as_space s)) (Some a);
      match sr_vmRegion n with
      | None => Done (Err EINVAL, m, s)
      | Some id =>
          r ← get_vmregion m id;
          if negb (vr_contains r address) then Done (Err ENOENT, m, s)
          else if fault_denied (vr_prot r) type then Done (Err EINVAL, m, s)
          else fault_in_object m s r ((address - vr_start r) / PAGE_SIZE)
      end
  end.
End operations.

(** ** Forking *)

(** The state of the loop of [fork]: the new list so far, its last node, and
    the new directory. *)
Record fork_state : Type := mk_fork {
  f_machine : machine;
  f_parent : aspace;
  f_heap : heap;
  f_map : option loc;
  f_prev : option loc;
  f_fresh : loc;
  f_pd : PageDirectory;
  f_regions : list Z;
}.

Section fork.
Context (table_region : KernelTables → outcome (Z * KernelTables)) (raw : list Z).

(** [case ForkAction::Share]: a region of the new space for [object]. *)
Definition fork_share (st : fork_state) (new_region : loc) (r : VMRegion) (object : Z) : outcome fork_state :=
  let m := f_machine st in
  o ← get_object (ma_vm m) object;
  let id := ma_next m in
  let nr := mk_vmregion object (vr_start r) (vr_size r) (vr_object_start r) (vr_prot r) true in
  '(pd, k) ← pd_map table_region o nr 0 0 (f_pd st) (ma_kernel m);
  h ← update (f_heap st) new_region (with_vmRegion (Some id));
  Done (mk_fork (mk_machine (ma_vm m) (<[id := nr]> (ma_regions m)) (id + 1) k) (f_parent st) h (f_map st)
          (f_prev st) (f_fresh st) pd (f_regions st ++ [id])).

(** [case ForkAction::BecomeCoW]: the object is cloned; the parent's pages are
    mapped again, now read-only. *)
Definition fork_cow (st : fork_state) (new_region : loc) (r : VMRegion) : outcome fork_state :=
  let m := f_machine st in
  o ← get_object (ma_vm m) (vr_object r);
  '(res, o, mm) ← clone raw o (vm_mm (ma_vm m));
  let objs := <[vr_object r := o]> (vm_objects (ma_vm m)) in
  '(pd, k) ← pd_map table_region o r 0 0 (as_pd (f_parent st)) (ma_kernel m);
  let s := mk_aspace (as_space (f_parent st)) pd in
  match res with
  | Err _ =>
      Done (mk_fork (mk_machine (mk_vm mm (vm_mem (ma_vm m)) objs) (ma_regions m) (ma_next m) k) s (f_heap st)
              (f_map st) (f_prev st) (f_fresh st) (f_pd st) (f_regions st))
  | Ok n =>
      let object := ma_next m in
      let m := mk_machine (mk_vm mm (vm_mem (ma_vm m)) (<[object := n]> objs)) (ma_regions m) (object + 1) k in
      fork_share (mk_fork m s (f_heap st) (f_map st) (f_prev st) (f_fresh st) (f_pd st) (f_regions st))
        new_region r object
  end.

(** One turn of the loop: the node is copied, its [vmRegion] pointer included,
    and linked to the node before. *)
Definition fork_node (st : fork_state) (first : bool) (n : VMSpaceRegion) : outcome fork_state :=
  let new_region := f_fresh st in
  let h := <[new_region := with_prev (f_prev st) n]> (f_heap st) in
  h ← update_opt h (f_prev st) (with_next (Some new_region));
  let st := mk_fork (f_machine st) (f_parent st) h (if first then Some new_region else f_map st)
              (Some new_region) (Pos.succ (f_fresh st)) (f_pd st) (f_regions st) in
  match sr_vmRegion n with
  | None => Done st
  | Some id =>
      r ← get_vmregion (f_machine st) id;
      o ← get_object (ma_vm (f_machine st)) (vr_object r);
      match fork_action o with
      | BecomeCoW => fork_cow st new_region r
      | Share => fork_share st new_region r (vr_object r)
      | Ignore => Done st
      end
  end.

Fixpoint fork_loop (fuel : nat) (cur : option loc) (st : fork_state) : outcome fork_state :=
  match cur with
  | None => Done st
  | Some a =>
      match fuel with
      | O => NoFuel
      | S fuel =>
          n ← deref (sp_heap (as_space (f_parent st))) (Some a);
          st ← fork_node st (bool_decide (m_region_map (as_space (f_parent st)) = Some a)) n;
          fork_loop fuel (sr_next n) st
      end
  end.

(** [fork(page_directory, regions_vec)]: the parent, the new space, and the
    numbers of the new regions. *)
Definition fork (m : machine) (s : aspace) (pd : PageDirectory)
    : outcome (machine * aspace * aspace * list Z) :=
  let sp := as_space s in
  st ← fork_loop (list_fuel sp) (m_region_map sp) (mk_fork m s ∅ None None 1%positive pd []);
  Done (f_machine st, f_parent st,
        mk_aspace (mk_space (sp_start sp) (sp_size sp) (f_map st) (m_used sp) (f_heap st) (f_fresh st)) (f_pd st),
        f_regions st).
End fork.

(** [calculate_regular_anonymous_total]: a used node without a [VMRegion] is
    dereferenced all the same. *)
Fixpoint total_pages (fuel : nat) (m : machine) (h : heap) (cur : option loc) : outcome Z :=
  match cur with
  | None => Done 0
  | Some a =>
      match fuel with
      | O => NoFuel
      | S fuel =>
          n ← deref h (Some a);
          c ← (if sr_used n then
                 match sr_vmRegion n with
                 | Some id =>
                     r ← get_vmregion m id;
                     o ← get_object (ma_vm m) (vr_object r);
                     Done (num_committed_pages o)
                 | None => Undef
                 end
               else Done 0);
          t ← total_pages fuel m h (sr_next n);
          Done (c + t)
      end
  end.

Definition calculate_regular_anonymous_total (m : machine) (s : aspace) : outcome Z :=
  t ← total_pages (list_fuel (as_space s)) m (sp_heap (as_space s)) (m_region_map (as_space s));
  Done (u32 (t * PAGE_SIZE)).

(** ** Write faults on anonymous memory *)

Section write_fault.
Context {reclaim : MemoryManager → outcome (Z * MemoryManager)} {fuel : nat}.
Context {inv : MemoryManager → gmap Z Z → Prop} {FA : FrameAllocator reclaim fuel inv}.
Context (table_region : KernelTables → outcome (Z * KernelTables)).
Hypothesis table_region_ok : ∀ k va k', kernel_ok k → table_region k = Done (va, k') →
  HIGHER_HALF ≤ va < 2 ^ 32 ∧ kernel_ok k'.
Context (inode_read : Z → Z → Z → result (list Z)).

(** The end of a fault that succeeds: the page is mapped. *)
Definition map_faulted (m : machine) (s : aspace) (r : VMRegion) (i : nat) (o : VMObject) (mm : MemoryManager)
    (mem : frames) : outcome (result unit * machine * aspace) :=
  '(pd, k) ← pd_map table_region o r (Z.of_nat i * PAGE_SIZE) PAGE_SIZE (as_pd s) (ma_kernel m);
  Done (Ok tt, set_kernel (set_vm m (mk_vm mm mem (<[vr_object r := o]> (vm_objects (ma_vm m))))) k,
        mk_aspace (as_space s) pd).

(** On a region that shows its object from the start, a write fault does to the
    object what [write_fault] does, and maps the page. *)
Lemma fault_in_object_eq m s r i o R : vm_inv (inv := inv) (ma_vm m) R → vm_objects (ma_vm m) !! vr_object r = Some o →
  vr_object_start r = 0 → p_write (vr_prot r) = true → Z.of_nat i * PAGE_SIZE < 2 ^ 32 →
  (i < length (o_pages o))%nat →
  fault_in_object table_region reclaim fuel inode_read m s r (Z.of_nat i) =
    ('(o, mm, mem) ← write_fault reclaim fuel o (Z.of_nat i) (vm_mm (ma_vm m)) (vm_mem (ma_vm m));
     map_faulted m s r i o mm mem).
Proof.
  intros Hv Ho Hst Hw Hi Hlt. destruct (lookup_lt_is_Some_2 _ _ Hlt) as [p Hp].
  destruct (proj2 (proj2 Hv) _ _ Ho) as (f&Hbm&_&a&Ha&_).
  unfold fault_in_object, write_fault, get_object. rewrite Ho, Hst, Hw. cbn [mbind outcome_bind].
  change (0 / PAGE_SIZE) with 0. rewrite Z.add_0_r. assert (0 ≤ Z.of_nat i < 2 ^ 32) by (unfold PAGE_SIZE in *; lia).
  rewrite (u32_id (Z.of_nat i)) by done. rewrite u32_id by (unfold PAGE_SIZE in *; lia).
  unfold physical_page_index, page_is_cow, try_fault_in_page. rewrite (vec_get_Done _ _ _ Hp), Ha. cbn [mbind outcome_bind].
  destruct (Z.eqb_spec p 0) as [->|Hp0]; cbn [negb].
  - rewrite (anonymous_fault_eq _ _ _ _ Hp).
    destruct (alloc_physical_page _ _ _) as [[q mm']| | |] eqn:Hal; cbn [mbind outcome_bind]; [|done..].
    destruct (fa_alloc _ _ _ _ (proj1 Hv) Hal) as (Hq&_).
    rewrite (vec_get_Done _ i q). 2: { unfold committed_one_more. cbn [o_sub set_pages]. rewrite Ha. cbn [o_pages]. by apply list_lookup_insert_eq. }
    cbn [mbind outcome_bind].
    by rewrite (proj2 (Z.eqb_neq q 0)) by lia.
  - rewrite (bm_get _ _ _ _ Hbm) by lia. cbn [mbind outcome_bind].
    destruct (f (Z.of_nat i)) eqn:Hfi; [|done].
    rewrite (try_cow_page_eq o f (Z.of_nat (length (o_pages o))) i p _ _ Hbm ltac:(lia) Hp Hp0 Hfi).
    destruct (alloc_physical_page _ _ _) as [[q mm']| | |]; cbn [mbind outcome_bind]; [|done..].
    by destruct (cow_commit _ _ _ _) as [[? ?]| | |].
Qed.

(** Mapping one page of a region. *)
Lemma pd_map_one o r i pd M k p : pd_rep pd M → kernel_ok k → p_read (vr_prot r) = true →
  vr_object_start r = 0 → 0 ≤ vr_start r → (PAGE_SIZE | vr_start r) →
  Z.of_nat i * PAGE_SIZE + PAGE_SIZE ≤ vr_size r → vr_start r + vr_size r ≤ HIGHER_HALF →
  o_pages o !! i = Some p → 0 < p < 2 ^ 20 → page_is_cow o (Z.of_nat i) = Done false →
  map_fails table_region k (pd_map table_region o r (Z.of_nat i * PAGE_SIZE) PAGE_SIZE pd k) ∨
  ∃ pd' k', pd_map table_region o r (Z.of_nat i * PAGE_SIZE) PAGE_SIZE pd k = Done (pd', k') ∧ kernel_ok k' ∧
    pd_rep pd' (<[vr_start r / PAGE_SIZE + Z.of_nat i := (p, p_write (vr_prot r))]> M).
Proof.
  intros Hrep Hk Hr Hst Hs0 [c Hc] Hsz Hend Hp Hpr Hcow. unfold HIGHER_HALF, PAGE_SIZE in *.
  unfold pd_map. rewrite Hr, Hst. cbn [kassert mbind outcome_bind]. unfold vr_end, PAGE_SIZE.
  change (4096 =? 0) with false. cbv iota. rewrite Z.mod_mul by lia. rewrite !u32_id by lia. rewrite (proj2 (Z.leb_le _ _)) by lia.
  cbn [Z.eqb kassert mbind outcome_bind]. change (4096 mod 4096 =? 0) with true. cbn [kassert mbind outcome_bind].
  replace (Z.of_nat i * 4096 + 4096) with ((Z.of_nat i + 1) * 4096) by lia. rewrite !Z.div_mul by lia.
  replace (Z.to_nat (Z.of_nat i + 1 - Z.of_nat i)) with 1%nat by lia. change (0 / 4096) with 0.
  cbn [map_pages]. unfold physical_page_index. rewrite Z.add_0_r, (u32_id (Z.of_nat i)) by lia.
  rewrite (vec_get_Done _ _ _ Hp). cbn [mbind outcome_bind]. rewrite (proj2 (Z.eqb_neq p 0)) by lia.
  rewrite Hcow. cbn [mbind outcome_bind]. rewrite Hc, Z.div_mul, u32_id by lia.
  set (prot := mk_prot _ _ _).
  destruct (map_page_ok table_region table_region_ok pd M k (c + Z.of_nat i) p prot Hrep Hk)
    as [[Hf Hno]|(pd'&k'&->&Hk'&Hrep')]; [lia|lia| |].
  - left. split; [done|]. intros res Hres. apply bind_Done in Hres as (x&Hx&_). by apply (Hno x).
  - right. exists pd', k'. by cbn [mbind outcome_bind is_error].
Qed.
End write_fault.

(** A region of user memory that shows an object from its start. *)
Definition user_region (r : VMRegion) (o : VMObject) : Prop :=
  vr_object_start r = 0 ∧ 0 ≤ vr_start r ∧ (PAGE_SIZE | vr_start r) ∧
  vr_size r = Z.of_nat (length (o_pages o)) * PAGE_SIZE ∧ vr_start r + vr_size r ≤ HIGHER_HALF.

Lemma user_region_page r o address : user_region r o → vr_contains r address = true →
  ∃ i : nat, (address - vr_start r) / PAGE_SIZE = Z.of_nat i ∧ (i < length (o_pages o))%nat ∧
    address / PAGE_SIZE = vr_start r / PAGE_SIZE + Z.of_nat i ∧ 0 ≤ address < HIGHER_HALF.
Proof.
  intros (_&Hs0&[c Hc]&Hsz&Hend) [H1 H2]%andb_true_iff. apply Z.leb_le in H1. apply Z.ltb_lt in H2.
  unfold vr_end, HIGHER_HALF, PAGE_SIZE in *. rewrite u32_id in H2 by lia.
  exists (Z.to_nat ((address - vr_start r) / 4096)).
  pose proof (Z.div_pos (address - vr_start r) 4096 ltac:(lia) ltac:(lia)).
  pose proof (Z.div_lt_upper_bound (address - vr_start r) 4096 (Z.of_nat (length (o_pages o))) ltac:(lia) ltac:(lia)).
  rewrite Z2Nat.id by done. split_and!; [done|lia| |lia|lia].
  rewrite Hc, Z.div_mul by lia. replace address with (c * 4096 + (address - c * 4096)) at 1 by lia.
  rewrite Z.div_add_l by lia. done.
Qed.

(** The region that a page fault is about. *)
Lemma try_pagefault_found table_region reclaim fuel inode_read m s l g id r address type :
  space_inv (as_space s) l → g ∈ l → g_contains address g = true → g_vm g = Some id → ma_regions m !! id = Some r →
  try_pagefault table_region reclaim fuel inode_read m s address type =
    if negb (vr_contains r address) then Done (Err ENOENT, m, s)
    else if fault_denied (vr_prot r) type then Done (Err EINVAL, m, s)
    else fault_in_object table_region reclaim fuel inode_read m s r ((address - vr_start r) / PAGE_SIZE).
Proof.
  intros Hi Hg Hc Hvm Hr. unfold try_pagefault.
  destruct (space_find_spec (as_space s) l (λ n, sr_contains n address) (g_contains address) (si_regions _ _ Hi))
    as [[_ Hn]|(l1&g'&l2&->&H1&H2&->)]; [done|by rewrite Hn in Hc|].
  apply list_elem_of_split in Hg as (k1&k2&Hk).
  pose proof (contains_unique _ _ _ _ _ _ _ _ address Hi eq_refl Hk H1 H2 Hc) as ->.
  cbn [mbind outcome_bind]. rewrite (deref_Done _ _ _ (regions_node _ _ _ _ (si_regions _ _ Hi))).
  cbn [mbind outcome_bind node_of sr_vmRegion]. rewrite Hvm. unfold get_vmregion. by rewrite Hr.
Qed.

(** C6: A write to private anonymous memory is always resolved: whatever the
    state of the page, not present, shared copy-on-write or already there, the
    fault ends with the page mapped writable at the faulting address, backed by a
    frame of the object that no other object shows, with every object showing
    what it showed before, and with no other page's mapping changed; the only way
    to fail is to have no frame left for the page or for a page table. *)
Theorem write_fault_resolved reclaim fuel inv table_region inode_read m s R M l g id r o address :
  FrameAllocator reclaim fuel inv →
  (∀ mm R p, inv mm R → is_Some (R !! p) → 0 ≤ p < 2 ^ 20) →
  (∀ k va k', kernel_ok k → table_region k = Done (va, k') → HIGHER_HALF ≤ va < 2 ^ 32 ∧ kernel_ok k') →
  vm_inv (inv := inv) (ma_vm m) R → pd_rep (as_pd s) M → kernel_ok (ma_kernel m) → space_inv (as_space s) l →
  g ∈ l → g_contains address g = true → g_vm g = Some id → ma_regions m !! id = Some r →
  vm_objects (ma_vm m) !! vr_object r = Some o → user_region r o → p_read (vr_prot r) && p_write (vr_prot r) = true →
  vr_contains r address = true →
  (∀ x, alloc_physical_page reclaim fuel (vm_mm (ma_vm m)) ≠ Done x) ∨
  (∀ x, table_region (ma_kernel m) ≠ Done x) ∨
  ∃ m' s' R' o' p, try_pagefault table_region reclaim fuel inode_read m s address FWrite = Done (Ok tt, m', s') ∧
    vm_inv (inv := inv) (ma_vm m') R' ∧ vm_view (ma_vm m') = vm_view (ma_vm m) ∧
    vm_objects (ma_vm m') !! vr_object r = Some o' ∧ R' !! p = Some 1 ∧
    o_pages o' !! Z.to_nat ((address - vr_start r) / PAGE_SIZE) = Some p ∧
    pd_rep (as_pd s') (<[address / PAGE_SIZE := (p, true)]> M) ∧
    is_mapped (as_pd s') (ma_kernel m') address true = Done true ∧
    get_physaddr (as_pd s') (ma_kernel m') address = Done (p * PAGE_SIZE + address mod PAGE_SIZE).
Proof.
  intros FA Hfr Htr Hv Hpd Hk Hsp Hg Hc Hvm Hr Ho Hu [Hrd Hwr]%andb_true_iff Hva.
  destruct (user_region_page r o address Hu Hva) as (i&Hi&Hlt&Hpage&Haddr).
  destruct Hu as (Hst&Hs0&Hal&Hsz&Hend).
  rewrite (try_pagefault_found table_region reclaim fuel inode_read m s l g id r address FWrite Hsp Hg Hc Hvm Hr).
  rewrite Hva, Hi. cbn [negb fault_denied]. rewrite Hwr. cbn [negb].
  assert (Z.of_nat i * PAGE_SIZE + PAGE_SIZE ≤ vr_size r) as Hib by (unfold PAGE_SIZE in *; lia).
  rewrite (fault_in_object_eq table_region inode_read m s r i o R Hv Ho Hst Hwr) by
    (done || unfold PAGE_SIZE, HIGHER_HALF in *; lia).
  destruct (write_fault_ok (ma_vm m) R (vr_object r) o i Hv Ho Hlt) as [[Hno _]|(o'&mm'&mem'&R'&->&Hv'&Hview&Hw)];
    [by left|right]. destruct Hw as (p&f&Hp&Hp0&(Hbm&Hcnt&_)&Hfi).
  destruct (Hcnt i p Hp) as [_ HR]. specialize (HR Hp0 Hfi).
  destruct (proj2 (proj2 Hv') (vr_object r) o') as (f'&Hok'); [cbn; apply lookup_insert_eq|].
  assert (0 < p < 2 ^ 20) as Hpr.
  { enough (0 ≤ p < 2 ^ 20) by lia. eapply Hfr; [apply Hv'|by rewrite HR]. }
  pose proof (lookup_lt_Some _ _ _ Hp).
  destruct (pd_map_one table_region Htr o' r i (as_pd s) M (ma_kernel m) p) as [[Hf _]|(pd'&k'&Hpm&Hk'&Hrep')];
    [done..| |by left|right].
  { unfold page_is_cow. rewrite (bm_get _ _ _ _ Hbm) by lia. by rewrite Hfi. }
  cbn [mbind outcome_bind]. unfold map_faulted. rewrite Hpm. cbn [mbind outcome_bind].
  eexists _, _, R', o', p. split; [done|]. cbn [ma_vm set_kernel set_vm as_pd ma_kernel].
  rewrite <-Hpage, Hwr in Hrep'. destruct (pd_queries pd' _ k' address Hrep' Haddr) as [Hq1 Hq2].
  split_and!; [done|done|cbn; apply lookup_insert_eq|done|by rewrite Nat2Z.id|done| |].
  - rewrite Hq1, lookup_insert_eq. done.
  - apply (Hq2 p true); [apply lookup_insert_eq|lia].
Qed.

(** A process whose memory object 1, of two pages, is mapped at address 4096; only
    the first page is present. *)
Definition example_region : VMRegion := mk_vmregion 1 4096 8192 0 prot_RW true.
Definition example_machine : machine := mk_machine race_vm {[7 := example_region]} 8 sample_kernel.
Definition example_list : list region :=
  [mk_reg 2 4096 8192 true (Some 7); mk_reg 1 12288 8192 false None].
Definition example_aspace : aspace :=
  mk_aspace (mk_space 4096 16384 (Some 2%positive) 8192
    {[2%positive := mk_sr 4096 8192 true (Some 1%positive) None (Some 7);
      1%positive := mk_sr 12288 8192 false None (Some 2%positive) None]} 3%positive)
    (pd_new sample_kernel USER).

Lemma example_aspace_inv : space_inv (as_space example_aspace) example_list.
Proof.
  split; cbn; try done; [|split_and!; try done; by exists 2|].
  - split; cbn; [done|by split_and!| |].
    + apply NoDup_cons. split; [by intros ?%list_elem_of_singleton|apply NoDup_singleton].
    + intros a [x [[<- _]|[_ [<- _]%lookup_singleton_Some]]%lookup_insert_Some]; lia.
  - intros g [->|[->|[]%elem_of_nil]%elem_of_cons]%elem_of_cons; done.
Qed.

Lemma one_zone_small_frames mm R p : one_zone 1 2 mm R → is_Some (R !! p) → 0 ≤ p < 2 ^ 20.
Proof. intros (z&ps&F&_&_&_&_&_&HR) [n Hn]. destruct (HR p n Hn) as [? _]. lia. Qed.

Lemma write_fault_resolved_witness :
  ∃ m' s' p, try_pagefault sample_region no_reclaim 2 (λ _ _ _, Err EIO) example_machine example_aspace 8200 FWrite
      = Done (Ok tt, m', s') ∧
    vm_view (ma_vm m') = vm_view race_vm ∧ is_mapped (as_pd s') (ma_kernel m') 8200 true = Done true ∧
    get_physaddr (as_pd s') (ma_kernel m') 8200 = Done (p * PAGE_SIZE + 8).
Proof.
  assert (vm_run no_reclaim 2 small_raw [VNew 1 2; VWrite 1 0 5 7] (mk_vm small_mm ∅ ∅) = Done race_vm) as Hr
    by (vm_compute; reflexivity).
  destruct (vm_run_inv small_raw _ _ ∅ _ (vm_inv_start (inv := one_zone 1 2) small_mm ∅ small_one_zone) Hr)
    as (R&Hv&_).
  destruct (write_fault_resolved no_reclaim 2 (one_zone 1 2) sample_region (λ _ _ _, Err EIO) example_machine
    example_aspace R ∅ example_list (mk_reg 2 4096 8192 true (Some 7)) 7 example_region race_object 8200
    (one_zone_frames 1 2 2) one_zone_small_frames sample_region_ok Hv
    (pd_new_rep _ sample_kernel_ok) sample_kernel_ok example_aspace_inv) as [Hn|[Hn|(m'&s'&R'&o'&p&H1&_&H2&_&_&_&_&H3&H4)]].
  - left.
  - done.
  - done.
  - done.
  - vm_compute. reflexivity.
  - split_and!; [done|done|by exists 1|vm_compute; reflexivity|done].
  - done.
  - done.
  - exfalso. destruct (alloc_physical_page no_reclaim 2 (vm_mm (ma_vm example_machine))) as [x| | |] eqn:Hx;
      [by apply (Hn x)|by vm_compute in Hx..].
  - by exfalso; apply (Hn (HIGHER_HALF, sample_kernel)).
  - exists m', s', p. split_and!; [done|done|done|]. rewrite H4. by change (8200 mod PAGE_SIZE) with 8.
Defined.

(** The same process with the second page of its object mapped alone, after both
    pages have been written. *)
Definition offset_machine : machine :=
  match vm_run no_reclaim 2 small_raw [VNew 1 2; VWrite 1 0 5 7; VWrite 1 1 5 7; VClone 1 2] (mk_vm small_mm ∅ ∅) with
  | Done v => mk_machine v {[7 := mk_vmregion 1 4096 4096 4096 prot_RW true]} 8 sample_kernel
  | _ => example_machine
  end.

(** A region that shows its object from the second page on: a write to a
    copy-on-write page of it ends in an assertion, because the page is mapped at
    its index in the object and not in the region. *)
Theorem offset_write_fault_panics :
  try_pagefault sample_region no_reclaim 2 (λ _ _ _, Err EIO) offset_machine example_aspace 4100 FWrite = Panic.
Proof. vm_compute. reflexivity. Qed.

(** A process that has shared its object 1 with other processes by number. *)
Definition shared_machine : machine :=
  match bitmap_new (replicate 8 0) 2 false with
  | Done b => mk_machine (mk_vm small_mm ∅ {[1 := mk_object [5; 6] b 8192
      (AnonymousObject (mk_anon ∅ true Ignore (Some 3) 1 2 Normal))]}) {[7 := example_region]} 8 sample_kernel
  | _ => example_machine
  end.

(** Shared memory is not supposed to be inherited by [fork], and the child
    gets no region for it; but the child's list still has the parent's region,
    so that a fault of the child maps the parent's page. *)
Theorem fork_ignore_inherits :
  ('(m, parent, child, regions) ← fork sample_region small_raw shared_machine example_aspace (pd_new sample_kernel USER);
   '(res, m, child) ← try_pagefault sample_region no_reclaim 2 (λ _ _ _, Err EIO) m child 4100 FRead;
   w ← is_mapped (as_pd child) (ma_kernel m) 4100 true;
   pa ← get_physaddr (as_pd child) (ma_kernel m) 4100;
   Done (regions, is_error res, w, pa)) = Done ([], false, true, 5 * PAGE_SIZE + 4).
Proof. vm_compute. reflexivity. Qed.
