(* ===== verification/ByteMem.v ===== *)
(** * Byte-addressed memory and the block operations (libraries/libc/string.c)

    The C library works on raw memory: [memory] gives the byte at every mapped
    address, and an access to an address that is not mapped is undefined
    behaviour.  The block operations ([memcpy], [memmove], [memset], [memcmp],
    [memchr]) and [strlen] are here; the operations on strings are in
    [CString].  The kernel's own versions (kernel/kstd/cstring.cpp) are in
    [KernelString].

    The loops over strings have no bound of their own; they are given the number
    of mapped bytes as fuel.  [strlen_loop_stops] shows that this is always enough:
    a scan reads a new address in every turn, so that it stops or leaves the
    mapped memory first. *)

From stdpp Require Import base numbers list option gmap sets.
From S2P Require Import Prelude.

Local Open Scope Z_scope.

(** ** Memory *)

Abbreviation memory := (gmap Z Z).

Definition load (m : memory) (a : Z) : outcome Z :=
  match m !! a with Some b => Done b | None => Undef end.

(** A store of a [char] or [uint8_t]: the low eight bits of the value. *)
Definition store (m : memory) (a v : Z) : outcome memory :=
  match m !! a with Some _ => Done (<[a := u8 v]> m) | None => Undef end.

(** The fuel of a loop over a string. *)
Definition scan_fuel (m : memory) : nat := S (size m).

(** ** Block operations *)

(** [rep movsb] with the direction flag clear: [n] bytes from low to high
    addresses. *)
Fixpoint movsb (n : nat) (m : memory) (dest src : Z) : outcome memory :=
  match n with
  | O => Done m
  | S n => b ← load m src; m ← store m dest b; movsb n m (dest + 1) (src + 1)
  end.

Definition memcpy (m : memory) (dest src n : Z) : outcome memory := movsb (Z.to_nat n) m dest src.

(** The loop of [memmove], from the last byte to the first. *)
Fixpoint copy_down (n : nat) (m : memory) (dest8 src8 : Z) : outcome memory :=
  match n with
  | O => Done m
  | S n => b ← load m (src8 - 1); m ← store m (dest8 - 1) b; copy_down n m (dest8 - 1) (src8 - 1)
  end.

Definition memmove (m : memory) (dest src n : Z) : outcome memory :=
  if dest <? src then memcpy m dest src n
  else copy_down (Z.to_nat n) m (dest + n) (src + n).

(** [rep stosb]. *)
Fixpoint stosb (n : nat) (m : memory) (dest al : Z) : outcome memory :=
  match n with
  | O => Done m
  | S n => m ← store m dest al; stosb n m (dest + 1) al
  end.

Definition memset (m : memory) (dest c n : Z) : outcome memory := stosb (Z.to_nat n) m dest (u8 c).

(** The loop of [memcmp], from index [i] on. *)
Fixpoint memcmp_loop (k : nat) (m : memory) (a b : Z) : outcome Z :=
  match k with
  | O => Done 0
  | S k =>
      x ← load m a; y ← load m b;
      if negb (x =? y) then Done (if x <? y then -1 else 1) else memcmp_loop k m (a + 1) (b + 1)
  end.
Definition memcmp (m : memory) (a b n : Z) : outcome Z := memcmp_loop (Z.to_nat n) m a b.

(** [memchr]: the address of the first such byte, or null. *)
Fixpoint memchr_loop (k : nat) (m : memory) (s c : Z) : outcome Z :=
  match k with
  | O => Done 0
  | S k => b ← load m s; if b =? u8 c then Done s else memchr_loop k m (s + 1) c
  end.
Definition memchr (m : memory) (s c n : Z) : outcome Z := memchr_loop (Z.to_nat n) m s c.

(** [for (s = str; *s; s++)]. *)
Fixpoint strlen_loop (fuel : nat) (m : memory) (s : Z) : outcome Z :=
  match fuel with
  | O => NoFuel
  | S fuel => b ← load m s; if b =? 0 then Done s else strlen_loop fuel m (s + 1)
  end.
Definition strlen (m : memory) (str : Z) : outcome Z :=
  s ← strlen_loop (scan_fuel m) m str; Done (s - str).

(** ** Bytes in memory *)

(** Every cell holds a byte. *)
Definition bytes_ok (m : memory) : Prop := map_Forall (λ _ b, 0 ≤ b < 256) m.

(** The [n] bytes from [a] on. *)
Fixpoint bytes_at (m : memory) (a : Z) (l : list Z) : Prop :=
  match l with [] => True | b :: l => m !! a = Some b ∧ bytes_at m (a + 1) l end.

Fixpoint write_bytes (m : memory) (a : Z) (l : list Z) : memory :=
  match l with [] => m | b :: l => write_bytes (<[a := b]> m) (a + 1) l end.

(** The addresses from [a] on that [n] bytes take. *)
Definition mapped (m : memory) (a n : Z) : Prop := ∀ i, 0 ≤ i < n → is_Some (m !! (a + i)).

(** A C string: bytes other than zero, and a zero. *)
Definition cstr (m : memory) (a : Z) (s : list Z) : Prop :=
  bytes_at m a (s ++ [0]) ∧ Forall (λ b, b ≠ 0) s.

Lemma bytes_at_lookup m a l : bytes_at m a l ↔ ∀ (i : nat) b, l !! i = Some b → m !! (a + Z.of_nat i) = Some b.
Proof.
  revert a. induction l as [|b l IH]; intros a; cbn [bytes_at].
  { split; [|done]. by intros _ i b ?. }
  rewrite IH. split.
  - intros [Hb Hl] [|i] c Hc; cbn in Hc; [by injection Hc as <-; rewrite Z.add_0_r|].
    rewrite <-(Hl i c Hc). f_equal. lia.
  - intros Hall. split; [by rewrite <-(Hall 0%nat b eq_refl), Z.add_0_r|].
    intros i c Hc. rewrite <-(Hall (S i) c Hc). f_equal. lia.
Qed.

Lemma bytes_at_app m a l1 l2 : bytes_at m a (l1 ++ l2) ↔
  bytes_at m a l1 ∧ bytes_at m (a + Z.of_nat (length l1)) l2.
Proof.
  revert a. induction l1 as [|b l1 IH]; intros a; cbn [bytes_at app length].
  - rewrite Z.add_0_r. tauto.
  - rewrite IH. replace (a + 1 + Z.of_nat (length l1)) with (a + Z.of_nat (S (length l1))) by lia. tauto.
Qed.

Lemma bytes_at_insert m a l x b : x < a ∨ a + Z.of_nat (length l) ≤ x →
  bytes_at (<[x := b]> m) a l ↔ bytes_at m a l.
Proof.
  intros Hx. rewrite !bytes_at_lookup. split; intros Hl i c Hc; pose proof (lookup_lt_Some _ _ _ Hc);
    specialize (Hl i c Hc); rewrite lookup_insert_ne in * by lia; done.
Qed.

Lemma bytes_at_mapped m a l : bytes_at m a l → mapped m a (Z.of_nat (length l)).
Proof.
  rewrite bytes_at_lookup. intros Hl i Hi. destruct (lookup_lt_is_Some_2 l (Z.to_nat i)) as [b Hb]; [lia|].
  specialize (Hl _ _ Hb). rewrite Z2Nat.id in Hl by lia. by rewrite Hl.
Qed.

Lemma mapped_bytes m a (n : nat) : mapped m a (Z.of_nat n) → ∃ l, length l = n ∧ bytes_at m a l.
Proof.
  revert a. induction n as [|n IH]; intros a Hm; [by exists []|].
  destruct (Hm 0 ltac:(lia)) as [b Hb]. rewrite Z.add_0_r in Hb.
  destruct (IH (a + 1)) as (l&Hlen&Hl).
  { intros i Hi. replace (a + 1 + i) with (a + (i + 1)) by lia. apply Hm. lia. }
  exists (b :: l). cbn. by rewrite Hlen.
Qed.

Lemma bytes_at_unique m a l1 l2 : bytes_at m a l1 → bytes_at m a l2 → length l1 = length l2 → l1 = l2.
Proof.
  revert a l2. induction l1 as [|b l1 IH]; intros a [|c l2]; cbn; try done.
  intros [Hb H1] [Hc H2] [= Hlen]. f_equal; [congruence|by eapply IH].
Qed.

Lemma bytes_at_ok m a l : bytes_ok m → bytes_at m a l → Forall (λ b, 0 ≤ b < 256) l.
Proof.
  intros Hm. revert a. induction l as [|b l IH]; intros a; cbn; [constructor|].
  intros [Hb Hl]. constructor; [by apply (Hm a b)|by eapply IH].
Qed.

Lemma mapped_insert m a n x b : mapped m a n → mapped (<[x := b]> m) a n.
Proof. intros Hm i Hi. destruct (decide (a + i = x)) as [->|]; [rewrite lookup_insert_eq|rewrite lookup_insert_ne by done]; auto. Qed.

Lemma bytes_ok_insert m x b : bytes_ok m → 0 ≤ b < 256 → bytes_ok (<[x := b]> m).
Proof. intros Hm Hb. by apply map_Forall_insert_2. Qed.

Lemma bytes_ok_write m a l : bytes_ok m → Forall (λ b, 0 ≤ b < 256) l → bytes_ok (write_bytes m a l).
Proof.
  intros Hm Hl. revert m a Hm. induction Hl as [|b l Hb Hl IH]; intros m a Hm; cbn; [done|].
  by apply IH, bytes_ok_insert.
Qed.

Lemma load_Done m a b : m !! a = Some b → load m a = Done b.
Proof. unfold load. by intros ->. Qed.

Lemma store_Done m a b : is_Some (m !! a) → 0 ≤ b < 256 → store m a b = Done (<[a := b]> m).
Proof. unfold store. intros [c ->] Hb. by rewrite u8_id. Qed.

(** Where [write_bytes] writes, and where it does not. *)
Lemma write_bytes_lookup m a l x : write_bytes m a l !! x =
  if decide (a ≤ x < a + Z.of_nat (length l)) then l !! Z.to_nat (x - a) else m !! x.
Proof.
  revert m a. induction l as [|b l IH]; intros m a; cbn [write_bytes length].
  { rewrite decide_False by lia. done. }
  rewrite IH. destruct (decide (x = a)) as [->|].
  - rewrite decide_False, lookup_insert_eq, decide_True by lia. by rewrite Z.sub_diag.
  - rewrite lookup_insert_ne by done. repeat case_decide; try lia; [|done].
    replace (Z.to_nat (x - a)) with (S (Z.to_nat (x - (a + 1)))) by lia. done.
Qed.

Lemma write_bytes_app m a l1 l2 :
  write_bytes m a (l1 ++ l2) = write_bytes (write_bytes m a l1) (a + Z.of_nat (length l1)) l2.
Proof.
  revert m a. induction l1 as [|b l1 IH]; intros m a; cbn [write_bytes app length].
  - by rewrite Z.add_0_r.
  - rewrite IH. f_equal. lia.
Qed.

Lemma write_bytes_insert m a l x b : x < a ∨ a + Z.of_nat (length l) ≤ x →
  write_bytes (<[x := b]> m) a l = <[x := b]> (write_bytes m a l).
Proof.
  intros Hx. apply map_eq. intros y. rewrite write_bytes_lookup. destruct (decide (x = y)) as [<-|].
  - rewrite decide_False by lia. by rewrite !lookup_insert_eq.
  - rewrite !lookup_insert_ne by done. by rewrite write_bytes_lookup.
Qed.

Lemma bytes_at_write m a l : bytes_at (write_bytes m a l) a l.
Proof.
  apply bytes_at_lookup. intros i b Hi. pose proof (lookup_lt_Some _ _ _ Hi).
  rewrite write_bytes_lookup, decide_True by lia. by replace (Z.to_nat (a + Z.of_nat i - a)) with i by lia.
Qed.

Lemma bytes_at_write_other m a l x l' : x + Z.of_nat (length l') ≤ a ∨ a + Z.of_nat (length l) ≤ x →
  bytes_at (write_bytes m a l) x l' ↔ bytes_at m x l'.
Proof.
  intros Hx. rewrite !bytes_at_lookup. split; intros Hl i c Hc; pose proof (lookup_lt_Some _ _ _ Hc);
    specialize (Hl i c Hc); rewrite write_bytes_lookup, decide_False in * by lia; done.
Qed.

(** Mapped bytes are counted by the size of the memory. *)
Lemma mapped_size m a (n : nat) : mapped m a (Z.of_nat n) → (n ≤ size m)%nat.
Proof.
  intros Hm. replace n with (length (seqZ a (Z.of_nat n))) by (rewrite length_seqZ; lia).
  rewrite <-size_dom, <-(size_list_to_set (C := gset Z)) by apply NoDup_seqZ.
  apply subseteq_size. intros x Hx. apply elem_of_list_to_set, elem_of_seqZ in Hx. apply elem_of_dom.
  replace x with (a + (x - a)) by lia. apply Hm. lia.
Qed.

Lemma cstr_fuel m a s : cstr m a s → (length s < scan_fuel m)%nat.
Proof.
  intros [Hb _]. apply bytes_at_mapped, mapped_size in Hb. rewrite length_app in Hb. unfold scan_fuel. cbn in Hb. lia.
Qed.

(** *** Scans *)

Lemma strlen_loop_cstr fuel m a s : cstr m a s → (length s < fuel)%nat →
  strlen_loop fuel m a = Done (a + Z.of_nat (length s)).
Proof.
  intros [Hb Hs]. revert fuel a Hb. induction Hs as [|b s Hb0 Hs IH]; intros [|fuel] a; cbn; try lia.
  - intros [Ha _] _. rewrite (load_Done _ _ _ Ha). cbn. f_equal. lia.
  - intros [Ha Hl] Hf. rewrite (load_Done _ _ _ Ha). cbn. rewrite (proj2 (Z.eqb_neq b 0) Hb0).
    rewrite IH by (done || lia). f_equal. lia.
Qed.

Lemma strlen_cstr m a s : cstr m a s → strlen m a = Done (Z.of_nat (length s)).
Proof.
  intros Hs. unfold strlen. rewrite (strlen_loop_cstr _ _ _ s Hs) by (by apply (cstr_fuel m a)). cbn. f_equal. lia.
Qed.

(** A scan that does not stop reads more and more mapped bytes. *)
Lemma strlen_loop_stops m k : ∀ a fuel, mapped m (a - Z.of_nat k) (Z.of_nat k) → (size m < k + fuel)%nat →
  (∃ s, strlen_loop fuel m a = Done (a + Z.of_nat (length s)) ∧ cstr m a s) ∨ strlen_loop fuel m a = Undef.
Proof.
  intros a fuel. revert k a. induction fuel as [|fuel IH]; intros k a Hm Hf.
  { apply mapped_size in Hm. lia. }
  cbn. unfold load. destruct (m !! a) as [b|] eqn:Hb; cbn; [|by right].
  destruct (Z.eqb_spec b 0) as [->|Hb0].
  { left. exists []. split; [f_equal; cbn; lia|]. split; [by split|constructor]. }
  destruct (IH (S k) (a + 1)) as [(s&Hs&[Hc1 Hc2])| ->]; [|lia| |by right].
  - intros i Hi. destruct (decide (i = Z.of_nat k)) as [->|].
    + replace (a + 1 - Z.of_nat (S k) + Z.of_nat k) with a by lia. by rewrite Hb.
    + replace (a + 1 - Z.of_nat (S k) + i) with (a - Z.of_nat k + i) by lia. apply Hm. lia.
  - left. exists (b :: s). rewrite Hs. split; [f_equal; cbn; lia|]. split; [by split|by constructor].
Qed.

(** *** Copies *)

Lemma movsb_spec n m dest src l : bytes_ok m → dest < src ∨ src + Z.of_nat n ≤ dest → length l = n →
  bytes_at m src l → mapped m dest (Z.of_nat n) → movsb n m dest src = Done (write_bytes m dest l).
Proof.
  revert m dest src l. induction n as [|n IH]; intros m dest src [|b l]; cbn [movsb write_bytes length bytes_at]; try done.
  intros Hok Hd [= Hlen] [Hb Hl] Hm. rewrite (load_Done _ _ _ Hb). cbn [mbind outcome_bind].
  assert (0 ≤ b < 256) by by apply (Hok src b).
  destruct (Hm 0 ltac:(lia)) as [c Hc]. rewrite Z.add_0_r in Hc. rewrite store_Done by (done || by rewrite Hc).
  cbn [mbind outcome_bind]. apply IH; [by apply bytes_ok_insert|lia|done| |].
  - apply bytes_at_insert; [lia|done].
  - apply mapped_insert. intros i Hi. replace (dest + 1 + i) with (dest + (i + 1)) by lia. apply Hm. lia.
Qed.

Lemma copy_down_spec n m dest src l : bytes_ok m → src ≤ dest → length l = n →
  bytes_at m src l → mapped m dest (Z.of_nat n) →
  copy_down n m (dest + Z.of_nat n) (src + Z.of_nat n) = Done (write_bytes m dest l).
Proof.
  revert m l. induction n as [|n IH]; intros m l Hok Hd Hlen Hl Hm; [by destruct l|].
  destruct l as [|b l _] using rev_ind; [done|]. rewrite length_app in Hlen. cbn in Hlen.
  apply bytes_at_app in Hl as [Hl [Hb _]]. replace (length l) with n in Hb by lia. cbn [copy_down].
  replace (src + Z.of_nat (S n) - 1) with (src + Z.of_nat n) by lia.
  replace (dest + Z.of_nat (S n) - 1) with (dest + Z.of_nat n) by lia.
  rewrite (load_Done _ _ _ Hb). cbn [mbind outcome_bind].
  assert (0 ≤ b < 256) by by apply (Hok _ b Hb).
  rewrite store_Done by (done || apply Hm; lia). cbn [mbind outcome_bind].
  rewrite (IH _ l); [|by apply bytes_ok_insert|done|lia| |].
  - f_equal. rewrite write_bytes_app, write_bytes_insert by lia. cbn. f_equal. f_equal. lia.
  - apply bytes_at_insert; [lia|done].
  - apply mapped_insert. intros i Hi. apply Hm. lia.
Qed.

Lemma stosb_spec n m dest c : 0 ≤ c < 256 → mapped m dest (Z.of_nat n) →
  stosb n m dest c = Done (write_bytes m dest (replicate n c)).
Proof.
  intros Hc. revert m dest. induction n as [|n IH]; intros m dest Hm; cbn [stosb replicate write_bytes]; [done|].
  rewrite store_Done; [|rewrite <-(Z.add_0_r dest); apply Hm; lia|done]. cbn [mbind outcome_bind]. apply IH.
  apply mapped_insert. intros i Hi. replace (dest + 1 + i) with (dest + (i + 1)) by lia. apply Hm. lia.
Qed.

Lemma memcpy_spec m dest src n l : bytes_ok m → dest < src ∨ src + n ≤ dest → Z.of_nat (length l) = n →
  bytes_at m src l → mapped m dest n → memcpy m dest src n = Done (write_bytes m dest l).
Proof.
  intros Hok Hd Hlen Hl Hm. subst n. unfold memcpy. rewrite Nat2Z.id. by apply movsb_spec.
Qed.

(** *** Comparison *)

(** The order of byte lists of the same length. *)
Fixpoint bytes_compare (a b : list Z) : Z :=
  match a, b with
  | x :: a, y :: b => if x =? y then bytes_compare a b else if x <? y then -1 else 1
  | _, _ => 0
  end.

Lemma memcmp_spec m a b la lb : bytes_at m a la → bytes_at m b lb → length la = length lb →
  memcmp m a b (Z.of_nat (length la)) = Done (bytes_compare la lb).
Proof.
  unfold memcmp. rewrite Nat2Z.id. revert a b lb.
  induction la as [|x la IH]; intros a b [|y lb]; cbn [length memcmp_loop bytes_at bytes_compare]; try done.
  intros [Hx Ha] [Hy Hb] [= Hlen]. rewrite (load_Done _ _ _ Hx). cbn [mbind outcome_bind].
  rewrite (load_Done _ _ _ Hy). cbn [mbind outcome_bind]. destruct (x =? y); cbn [negb]; [by apply IH|done].
Qed.

(** ** Theorems *)

(** C28: [memmove] copies as if all bytes were read before any is written, however
    the two blocks overlap; memory outside the destination does not change. *)
Theorem memmove_equiv m dest src n l : bytes_ok m → Z.of_nat (length l) = n → bytes_at m src l → mapped m dest n →
  memmove m dest src n = Done (write_bytes m dest l).
Proof.
  intros Hok Hlen Hl Hm. unfold memmove. destruct (Z.ltb_spec dest src).
  - apply memcpy_spec; (done || lia).
  - subst n. rewrite Nat2Z.id. by apply copy_down_spec.
Qed.

(** A memory of ten bytes from address 100 on. *)
Definition sample_memory : memory := write_bytes ∅ 100 (seqZ 1 10).

Lemma memmove_equiv_witness :
  memmove sample_memory 102 100 5 = Done (write_bytes sample_memory 102 (seqZ 1 5)) ∧
  memmove sample_memory 100 102 5 = Done (write_bytes sample_memory 100 (seqZ 3 5)).
Proof.
  assert (bytes_ok sample_memory) as Hok.
  { apply bytes_ok_write; [by apply map_Forall_empty|]. repeat constructor; lia. }
  split; (apply memmove_equiv; [done|done| |]).
  1,3: vm_compute; intuition.
  all: intros i Hi; assert (i = 0 ∨ i = 1 ∨ i = 2 ∨ i = 3 ∨ i = 4) as [->|[->|[->|[->| ->]]]] by lia; by eexists.
Defined.

(** [strlen] always ends: on a string it gives its length, and without a
    zero byte it leaves the mapped memory. *)
Theorem strlen_terminates m a :
  (∃ s, strlen m a = Done (Z.of_nat (length s)) ∧ cstr m a s) ∨ strlen m a = Undef.
Proof.
  unfold strlen. destruct (strlen_loop_stops m 0 a (scan_fuel m)) as [(s&Hs&Hc)|Hu].
  - intros i Hi. lia.
  - unfold scan_fuel. lia.
  - left. exists s. rewrite Hs. split; [cbn; f_equal; lia|done].
  - right. by rewrite Hu.
Qed.
