(* ===== verification/CString.v ===== *)
(** * Strings (libraries/libc/string.c)

    The string functions of the C library, on the memory of [ByteMem].  A
    function that writes returns the memory as well as its result; a null
    pointer is address 0. *)

From stdpp Require Import base numbers list option gmap sets.
From S2P Require Import Prelude.
From S2P Require Import ByteMem.

Local Open Scope Z_scope.

(** ** Copying *)

(** The loop of [strcpy]: the byte is copied before it is tested. *)
Fixpoint strcpy_loop (fuel : nat) (m : memory) (dest src : Z) : outcome memory :=
  match fuel with
  | O => NoFuel
  | S fuel =>
      c ← load m src;
      m ← store m dest c;
      if c =? 0 then Done m else strcpy_loop fuel m (dest + 1) (src + 1)
  end.
Definition strcpy (m : memory) (dest src : Z) : outcome memory := strcpy_loop (scan_fuel m) m dest src.

(** The loop [for(; i < n && src[i]; i++) dest[i + off] = src[i]] of
    [strncpy], [strncat] and [strxfrm]; [k] is [n - i]. The index it ends with. *)
Fixpoint copy_upto (k : nat) (m : memory) (dest src i : Z) : outcome (Z * memory) :=
  match k with
  | O => Done (i, m)
  | S k =>
      c ← load m (src + i);
      if c =? 0 then Done (i, m)
      else m ← store m (dest + i) c; copy_upto k m dest src (i + 1)
  end.

(** The rest of the destination is filled with zeros. *)
Definition strncpy (m : memory) (dest src n : Z) : outcome memory :=
  '(i, m) ← copy_upto (Z.to_nat n) m dest src 0;
  stosb (Z.to_nat (n - i)) m (dest + i) 0.

(** The loop of [strcat], which has no bound. *)
Fixpoint copy_all (fuel : nat) (m : memory) (dest src i : Z) : outcome (Z * memory) :=
  match fuel with
  | O => NoFuel
  | S fuel =>
      c ← load m (src + i);
      if c =? 0 then Done (i, m)
      else m ← store m (dest + i) c; copy_all fuel m dest src (i + 1)
  end.
Definition strcat (m : memory) (dest src : Z) : outcome memory :=
  destlen ← strlen m dest;
  '(i, m) ← copy_all (scan_fuel m) m (dest + destlen) src 0;
  store m (dest + (i + destlen)) 0.

Definition strncat (m : memory) (dest src n : Z) : outcome memory :=
  destlen ← strlen m dest;
  '(i, m) ← copy_upto (Z.to_nat n) m (dest + destlen) src 0;
  store m (dest + (i + destlen)) 0.

Definition strxfrm (m : memory) (dest src n : Z) : outcome (Z * memory) :=
  '(i, m) ← copy_upto (Z.to_nat n) m dest src 0;
  if i <? n then m ← store m (dest + i) 0; Done (i + 1, m) else Done (i, m).

Section allocation.
(** [malloc(size)]: the address of the block, or null, and the memory with it. *)
Context (malloc : memory → Z → outcome (Z * memory)).

Definition strdup (m : memory) (s : Z) : outcome (Z * memory) :=
  n ← strlen m s;
  '(ret, m) ← malloc m (n + 1);
  m ← strcpy m ret s;
  Done (ret, m).

Definition strndup (m : memory) (s n : Z) : outcome (Z * memory) :=
  len ← strlen m s;
  '(ret, m) ← malloc m (if n <? len then n else len);
  m ← strncpy m ret s n;
  Done (ret, m).
End allocation.

(** ** Comparison *)

Fixpoint strcmp_loop (fuel : nat) (m : memory) (s1 s2 : Z) : outcome Z :=
  match fuel with
  | O => NoFuel
  | S fuel =>
      a ← load m s1; b ← load m s2;
      if a =? b then if a =? 0 then Done 0 else strcmp_loop fuel m (s1 + 1) (s2 + 1)
      else Done (a - b)
  end.
Definition strcmp (m : memory) (s1 s2 : Z) : outcome Z := strcmp_loop (scan_fuel m) m s1 s2.
Definition strcoll (m : memory) (s1 s2 : Z) : outcome Z := strcmp m s1 s2.

(** The loop [do ... while(--n)], for [n] that is not zero. *)
Fixpoint strncmp_loop (n : nat) (m : memory) (s1 s2 : Z) : outcome Z :=
  match n with
  | O => Done 0
  | S n =>
      a ← load m s1; b ← load m s2;
      if negb (a =? b) then Done (a - b)
      else if a =? 0 then Done 0 else strncmp_loop n m (s1 + 1) (s2 + 1)
  end.
Definition strncmp (m : memory) (s1 s2 n : Z) : outcome Z :=
  if n =? 0 then Done 0 else strncmp_loop (Z.to_nat n) m s1 s2.

(** ** Search *)

Fixpoint strchr_loop (fuel : nat) (m : memory) (s c : Z) : outcome Z :=
  match fuel with
  | O => NoFuel
  | S fuel =>
      b ← load m s;
      if b =? u8 c then Done s else if b =? 0 then Done 0 else strchr_loop fuel m (s + 1) c
  end.
Definition strchr (m : memory) (s c : Z) : outcome Z := strchr_loop (scan_fuel m) m s c.

(** The inner loop of [strcspn]: whether [c1] is one of the characters of [s2],
    its terminator included. *)
Fixpoint cspn_check (fuel : nat) (m : memory) (cur_check c1 : Z) : outcome bool :=
  match fuel with
  | O => NoFuel
  | S fuel =>
      c2 ← load m cur_check;
      if c2 =? c1 then Done true else if c2 =? 0 then Done false else cspn_check fuel m (cur_check + 1) c1
  end.
Fixpoint cspn_loop (fuel : nat) (m : memory) (s1 str s2 : Z) : outcome Z :=
  match fuel with
  | O => NoFuel
  | S fuel =>
      c1 ← load m str;
      found ← cspn_check (scan_fuel m) m s2 c1;
      if found : bool then Done (str - s1) else cspn_loop fuel m s1 (str + 1) s2
  end.
Definition strcspn (m : memory) (s1 s2 : Z) : outcome Z := cspn_loop (scan_fuel m) m s1 s1 s2.

(** The loop [for(j = 0; j < s2len; j++)] of [strpbrk] and [strspn]: whether the
    byte is one of the [k] from [s2] on. *)
Fixpoint byte_among (k : nat) (m : memory) (a s2 : Z) : outcome bool :=
  match k with
  | O => Done false
  | S k => x ← load m a; y ← load m s2; if x =? y then Done true else byte_among k m a (s2 + 1)
  end.

Fixpoint pbrk_loop (k : nat) (m : memory) (s1 s2 s2len : Z) : outcome Z :=
  match k with
  | O => Done 0
  | S k =>
      found ← byte_among (Z.to_nat s2len) m s1 s2;
      if found : bool then Done s1 else pbrk_loop k m (s1 + 1) s2 s2len
  end.
Definition strpbrk (m : memory) (s1 s2 : Z) : outcome Z :=
  s1len ← strlen m s1; s2len ← strlen m s2;
  pbrk_loop (Z.to_nat s1len) m s1 s2 s2len.

Fixpoint strrchr_loop (fuel : nat) (m : memory) (s c ret : Z) : outcome Z :=
  match fuel with
  | O => NoFuel
  | S fuel =>
      cur ← load m s;
      if cur =? 0 then Done ret else strrchr_loop fuel m (s + 1) c (if cur =? u8 c then s else ret)
  end.
Definition strrchr (m : memory) (s c : Z) : outcome Z := strrchr_loop (scan_fuel m) m s c 0.

Fixpoint spn_loop (k : nat) (m : memory) (s1 s2 s2len i : Z) : outcome Z :=
  match k with
  | O => Done i
  | S k =>
      found ← byte_among (Z.to_nat s2len) m (s1 + i) s2;
      if found : bool then spn_loop k m s1 s2 s2len (i + 1) else Done i
  end.
Definition strspn (m : memory) (s1 s2 : Z) : outcome Z :=
  s1len ← strlen m s1; s2len ← strlen m s2;
  spn_loop (Z.to_nat s1len) m s1 s2 s2len 0.

(** The loops of [strstr]. *)
Fixpoint match_at (k : nat) (m : memory) (s1 s2 : Z) : outcome bool :=
  match k with
  | O => Done true
  | S k => x ← load m s1; y ← load m s2; if negb (x =? y) then Done false else match_at k m (s1 + 1) (s2 + 1)
  end.
Fixpoint strstr_loop (k : nat) (m : memory) (s1 s2 s2len : Z) : outcome Z :=
  match k with
  | O => Done 0
  | S k =>
      found ← match_at (Z.to_nat s2len) m s1 s2;
      if found : bool then Done s1 else strstr_loop k m (s1 + 1) s2 s2len
  end.
Definition strstr (m : memory) (s1 s2 : Z) : outcome Z :=
  s1len ← strlen m s1; s2len ← strlen m s2;
  if (s2len =? 0) || (s1len <? s2len) then Done 0
  else strstr_loop (Z.to_nat (s1len - s2len)) m s1 s2 s2len.

(** ** Tokens *)

(** The inner loop of [strtok_r] at [s1[i]]: the token start, and whether the end
    of a token was found. *)
Fixpoint tok_delims (k : nat) (m : memory) (a s2 tok_start tok_end : Z) (found_end : bool) : outcome (Z * bool) :=
  match k with
  | O => Done (tok_start, found_end)
  | S k =>
      x ← load m a; y ← load m s2;
      if x =? y then
        if tok_start =? tok_end then Done (tok_start + 1, found_end)
        else tok_delims k m a (s2 + 1) tok_start tok_end true
      else tok_delims k m a (s2 + 1) tok_start tok_end found_end
  end.

Fixpoint tok_loop (k : nat) (m : memory) (s1 i s2 len2 tok_start tok_end : Z) : outcome (Z * Z) :=
  match k with
  | O => Done (tok_start, tok_end)
  | S k =>
      '(tok_start, found_end) ← tok_delims (Z.to_nat len2) m (s1 + i) s2 tok_start tok_end false;
      if found_end : bool then Done (tok_start, tok_end)
      else tok_loop k m s1 (i + 1) s2 len2 tok_start (tok_end + 1)
  end.

(** [strtok_r(s1, s2, &saved)]: the token, the pointer saved, and the memory. *)
Definition strtok_r (m : memory) (s1 s2 saved : Z) : outcome (Z * Z * memory) :=
  if (s1 =? 0) && (saved =? 0) then Done (0, saved, m)
  else
    let s1 := if s1 =? 0 then saved else s1 in
    len1 ← strlen m s1; len2 ← strlen m s2;
    '(tok_start, tok_end) ← tok_loop (Z.to_nat len1) m s1 0 s2 len2 0 0;
    c ← load m (s1 + tok_start);
    if c =? 0 then Done (0, saved, m)
    else if tok_end =? 0 then Done (s1 + tok_start, 0, m)
    else
      m ← store m (s1 + tok_end) 0;
      Done (s1 + tok_start, s1 + tok_end + 1, m).

(** [strtok(s1, s2)], with the pointer in [strtok_saved]. *)
Definition strtok (m : memory) (s1 s2 strtok_saved : Z) : outcome (Z * Z * memory) := strtok_r m s1 s2 strtok_saved.

(** ** Specifications *)

Lemma cstr_cons m a c s : cstr m a (c :: s) ↔ m !! a = Some c ∧ c ≠ 0 ∧ cstr m (a + 1) s.
Proof. unfold cstr. cbn. rewrite Forall_cons. tauto. Qed.
Lemma cstr_nil m a : cstr m a [] ↔ m !! a = Some 0.
Proof. unfold cstr. cbn. split; [tauto|]. split; [by split|constructor]. Qed.

Lemma cstr_insert m a s x b : x < a ∨ a + Z.of_nat (length s) < x → cstr (<[x := b]> m) a s ↔ cstr m a s.
Proof. intros Hx. unfold cstr. rewrite bytes_at_insert by (rewrite length_app; cbn; lia). done. Qed.

Lemma scan_fuel_insert m x b : is_Some (m !! x) → scan_fuel (<[x := b]> m) = scan_fuel m.
Proof. intros Hx. unfold scan_fuel. by rewrite map_size_insert_Some. Qed.

(** [strcpy], for a destination that does not overlap the string. *)
Lemma strcpy_spec m dest src s : bytes_ok m → cstr m src s → mapped m dest (Z.of_nat (length s) + 1) →
  dest + Z.of_nat (length s) < src ∨ src + Z.of_nat (length s) < dest →
  strcpy m dest src = Done (write_bytes m dest (s ++ [0])).
Proof.
  intros Hok Hs. unfold strcpy. pose proof (cstr_fuel _ _ _ Hs) as Hf. revert Hf. generalize (scan_fuel m) as fuel.
  intros fuel. revert m dest src fuel Hok Hs. induction s as [|c s IH]; intros m dest src [|fuel] Hok Hs Hf Hm Hd;
    cbn [length] in *; try lia; cbn [strcpy_loop].
  - apply cstr_nil in Hs. rewrite (load_Done _ _ _ Hs). cbn [mbind outcome_bind].
    rewrite store_Done; [done| |lia]. rewrite <-(Z.add_0_r dest). apply Hm. lia.
  - apply cstr_cons in Hs as (Hc&Hc0&Hs). rewrite (load_Done _ _ _ Hc). cbn [mbind outcome_bind].
    assert (0 ≤ c < 256) by by apply (Hok src c).
    assert (is_Some (m !! dest)) by (rewrite <-(Z.add_0_r dest); apply Hm; lia).
    rewrite store_Done by done. cbn [mbind outcome_bind]. rewrite (proj2 (Z.eqb_neq c 0) Hc0).
    rewrite IH; [done|by apply bytes_ok_insert|apply cstr_insert; [lia|done]|lia| |lia].
    apply mapped_insert. intros i Hi. replace (dest + 1 + i) with (dest + (i + 1)) by lia. apply Hm. lia.
Qed.

(** The order of strings that [strcmp] decides: the difference of the first
    bytes that differ, where a string that has ended counts as zero. *)
Fixpoint str_compare (a b : list Z) : Z :=
  match a, b with
  | [], [] => 0
  | [], y :: _ => - y
  | x :: _, [] => x
  | x :: a, y :: b => if x =? y then str_compare a b else x - y
  end.

Lemma strcmp_loop_spec fuel m s1 s2 a b : cstr m s1 a → cstr m s2 b → (length a < fuel)%nat →
  strcmp_loop fuel m s1 s2 = Done (str_compare a b).
Proof.
  revert s1 s2 b fuel. induction a as [|x a IH]; intros s1 s2 b [|fuel]; cbn [length]; try lia;
    intros Ha Hb Hf; cbn [strcmp_loop]; destruct b as [|y b];
    rewrite ?cstr_cons, ?cstr_nil in *; destruct_and?; repeat erewrite load_Done by done; cbn [mbind outcome_bind].
  - done.
  - rewrite (proj2 (Z.eqb_neq 0 y)) by done. done.
  - rewrite (proj2 (Z.eqb_neq x 0)) by done. cbn. f_equal. lia.
  - cbn [str_compare]. rewrite (proj2 (Z.eqb_neq x 0)) by done. destruct (x =? y) eqn:Hxy; [|done].
    apply IH; (done || lia).
Qed.

Lemma strcmp_spec m s1 s2 a b : cstr m s1 a → cstr m s2 b → strcmp m s1 s2 = Done (str_compare a b).
Proof. intros Ha Hb. eapply strcmp_loop_spec; [done|done|by eapply cstr_fuel]. Qed.

Lemma strncmp_spec m s1 s2 a b n : cstr m s1 a → cstr m s2 b → 0 ≤ n →
  strncmp m s1 s2 n = Done (str_compare (take (Z.to_nat n) a) (take (Z.to_nat n) b)).
Proof.
  intros Ha Hb Hn. unfold strncmp. destruct (Z.eqb_spec n 0) as [->|Hn0]; [done|]. clear Hn0 Hn.
  generalize (Z.to_nat n) as k. clear n. intros k. revert s1 s2 a b Ha Hb.
  induction k as [|k IH]; intros s1 s2 a b Ha Hb; [done|]. cbn [strncmp_loop].
  destruct a as [|x a], b as [|y b]; rewrite ?cstr_cons, ?cstr_nil in *; destruct_and?;
    repeat erewrite load_Done by done; cbn [mbind outcome_bind take str_compare].
  - done.
  - rewrite (proj2 (Z.eqb_neq 0 y)) by done. done.
  - rewrite (proj2 (Z.eqb_neq x 0)) by done. cbn. f_equal. lia.
  - destruct (x =? y) eqn:Hxy; cbn [negb]; [|done]. rewrite (proj2 (Z.eqb_neq x 0)) by done. by apply IH.
Qed.

(** The order is total on strings of bytes, and agrees with equality. *)
Lemma str_compare_eq a b : Forall (λ c, 0 < c < 256) a → Forall (λ c, 0 < c < 256) b →
  str_compare a b = 0 ↔ a = b.
Proof.
  intros Ha. revert b. induction Ha as [|x a Hx Ha IH]; intros [|y b]; cbn;
    rewrite ?Forall_cons; intros; destruct_and?; [done|split; [lia|done]|split; [lia|done]|].
  destruct (Z.eqb_spec x y) as [->|]; [rewrite IH by done|]; split; (congruence || (intros [= ]; congruence) || lia).
Qed.

Lemma str_compare_sym a b : str_compare b a = - str_compare a b.
Proof.
  revert b. induction a as [|x a IH]; intros [|y b]; cbn; try lia.
  rewrite Z.eqb_sym. destruct (x =? y); [apply IH|lia].
Qed.

Lemma str_compare_trans a b c : Forall (λ c, 0 < c < 256) a → Forall (λ c, 0 < c < 256) b →
  Forall (λ c, 0 < c < 256) c → str_compare a b < 0 → str_compare b c < 0 → str_compare a c < 0.
Proof.
  intros Ha. revert b c. induction Ha as [|x a Hx Ha IH]; intros [|y b] [|z c]; cbn;
    rewrite ?Forall_cons; intros; destruct_and?; try lia.
  destruct (Z.eqb_spec x y), (Z.eqb_spec y z), (Z.eqb_spec x z); subst; try lia.
  by eapply (IH b c).
Qed.

Lemma cstr_chars m a s : bytes_ok m → cstr m a s → Forall (λ c, 0 < c < 256) s.
Proof.
  intros Hok [Hb Hs]. apply bytes_at_app in Hb as [Hb _]. apply (bytes_at_ok m a s Hok) in Hb.
  rewrite Forall_lookup in *. intros i c Hc. specialize (Hb i c Hc). specialize (Hs i c Hc). cbn in *. lia.
Qed.

(** ** Allocation *)

(** What the library expects of [malloc]: null and no change, or a block that was
    not mapped before. *)
Class Malloc (malloc : memory → Z → outcome (Z * memory)) : Prop := {
  malloc_block m n p m' : 0 ≤ n → malloc m n = Done (p, m') →
    (p = 0 ∧ m' = m) ∨
    (0 < p ∧ (∀ i, 0 ≤ i < n → m !! (p + i) = None ∧ ∃ b, m' !! (p + i) = Some b ∧ 0 ≤ b < 256) ∧
     ∀ x, ¬ (p ≤ x < p + n) → m' !! x = m !! x);
}.

Lemma malloc_bytes_ok `{!Malloc malloc} m n p m' : 0 ≤ n → malloc m n = Done (p, m') → bytes_ok m → bytes_ok m'.
Proof.
  intros Hn Hm Hok x b Hx. destruct (malloc_block _ _ _ _ Hn Hm) as [[_ ->]|(_&Hnew&Hold)]; [by apply (Hok x)|].
  destruct (decide (p ≤ x < p + n)) as [Hin|Hin].
  - destruct (Hnew (x - p) ltac:(lia)) as (_&c&Hc&?). replace (p + (x - p)) with x in Hc by lia. by simplify_eq.
  - rewrite Hold in Hx by done. by apply (Hok x).
Qed.

(** Bytes that were mapped before the block was are where they were. *)
Lemma malloc_old `{!Malloc malloc} m n p m' x b : 0 ≤ n → malloc m n = Done (p, m') → p ≠ 0 → m !! x = Some b →
  m' !! x = Some b ∧ ¬ (p ≤ x < p + n).
Proof.
  intros Hn Hm Hp Hx. destruct (malloc_block _ _ _ _ Hn Hm) as [[-> _]|(_&Hnew&Hold)]; [done|].
  assert (¬ (p ≤ x < p + n)) as Hout.
  { intros Hin. destruct (Hnew (x - p) ltac:(lia)) as [HN _]. replace (p + (x - p)) with x in HN by lia. congruence. }
  by rewrite Hold.
Qed.

Lemma bytes_at_disjoint m p n a l : (∀ x b, m !! x = Some b → ¬ (p ≤ x < p + n)) → 0 < n → l ≠ [] → bytes_at m a l →
  p + n ≤ a ∨ a + Z.of_nat (length l) ≤ p.
Proof.
  intros Hout Hn Hl Hb. destruct (decide (p + n ≤ a ∨ a + Z.of_nat (length l) ≤ p)); [done|exfalso].
  apply bytes_at_mapped in Hb. assert (0 < Z.of_nat (length l)) by (destruct l; [done|cbn; lia]).
  destruct (decide (a ≤ p)).
  - destruct (Hb (p - a) ltac:(lia)) as [b Hx]. apply (Hout _ _ Hx). lia.
  - destruct (Hb 0 ltac:(lia)) as [b Hx]. apply (Hout _ _ Hx). lia.
Qed.

Lemma strdup_spec `{!Malloc malloc} m a s p m1 : bytes_ok m → cstr m a s →
  malloc m (Z.of_nat (length s) + 1) = Done (p, m1) → p ≠ 0 →
  strdup malloc m a = Done (p, write_bytes m1 p (s ++ [0])) ∧
  cstr (write_bytes m1 p (s ++ [0])) p s ∧
  ∀ x b, m !! x = Some b → write_bytes m1 p (s ++ [0]) !! x = Some b.
Proof.
  intros Hok Hs Hm Hp. set (n := Z.of_nat (length s) + 1) in *. assert (0 < n) as Hn by lia. assert (0 ≤ n) as Hn0 by lia.
  assert (∀ x b, m !! x = Some b → ¬ (p ≤ x < p + n)) as Hout.
  { intros x b Hx. by apply (malloc_old _ _ _ _ _ _ Hn0 Hm Hp Hx). }
  assert (cstr m1 a s) as Hs1.
  { destruct Hs as [Hb Hf]. split; [|done]. apply bytes_at_lookup. intros i c Hc.
    apply (malloc_old _ _ _ _ _ _ Hn0 Hm Hp). by apply (proj1 (bytes_at_lookup _ _ _) Hb). }
  pose proof (bytes_at_disjoint m p n a (s ++ [0]) Hout Hn ltac:(by destruct s) (proj1 Hs)) as Hdis.
  rewrite length_app in Hdis. cbn [length] in Hdis.
  split; [|split].
  - unfold strdup. rewrite (strlen_cstr _ _ _ Hs). cbn [mbind outcome_bind]. fold n. rewrite Hm. cbn [mbind outcome_bind].
    rewrite (strcpy_spec m1 p a s); [done|by eapply malloc_bytes_ok|done| |lia].
    intros i Hi. destruct (malloc_block _ _ _ _ Hn0 Hm) as [[-> _]|(_&Hnew&_)]; [done|].
    destruct (Hnew i Hi) as (_&b&->&_). done.
  - split; [apply bytes_at_write|apply Hs].
  - intros x b Hx. rewrite write_bytes_lookup, length_app. cbn [length].
    rewrite decide_False; [by apply (malloc_old _ _ _ _ _ _ Hn0 Hm Hp Hx)|].
    intros ?. apply (Hout x b Hx). lia.
Qed.

(** ** Theorems *)

(** [strcmp] decides a total order on strings: zero exactly for equal
    strings, opposite signs for the two orders of the arguments, and transitive;
    [strncmp] is the same order on the first [n] characters. *)
Theorem strcmp_order m s1 s2 s3 a b c n : bytes_ok m → cstr m s1 a → cstr m s2 b → cstr m s3 c → 0 ≤ n →
  ∃ r12 r21 r23 r13, strcmp m s1 s2 = Done r12 ∧ strcmp m s2 s1 = Done r21 ∧ strcmp m s2 s3 = Done r23 ∧
    strcmp m s1 s3 = Done r13 ∧ (r12 = 0 ↔ a = b) ∧ r21 = - r12 ∧ (r12 < 0 → r23 < 0 → r13 < 0) ∧
    ∃ rn, strncmp m s1 s2 n = Done rn ∧ (rn = 0 ↔ take (Z.to_nat n) a = take (Z.to_nat n) b).
Proof.
  intros Hok Ha Hb Hc Hn. pose proof (cstr_chars _ _ _ Hok Ha). pose proof (cstr_chars _ _ _ Hok Hb).
  pose proof (cstr_chars _ _ _ Hok Hc). eexists _, _, _, _.
  rewrite !(strcmp_spec m _ _ _ _) by done. split_and!; [done..|by apply str_compare_eq|apply str_compare_sym| |].
  - by apply str_compare_trans.
  - eexists. rewrite (strncmp_spec m s1 s2 a b) by done. split; [done|].
    apply str_compare_eq; by apply Forall_take.
Qed.

(** A token with no delimiter in it reaches to the end of the string. *)
Lemma tok_delims_none k m x d c ds : m !! x = Some c → bytes_at m d ds → c ∉ ds → length ds = k →
  ∀ ts te f, tok_delims k m x d ts te f = Done (ts, f).
Proof.
  intros Hx Hd Hc Hk ts te f. revert d ds Hd Hc Hk. induction k as [|k IH]; intros d [|y ds]; try done; cbn.
  intros [Hy Hd] Hc [= Hk]. rewrite (load_Done _ _ _ Hx), (load_Done _ _ _ Hy). cbn.
  apply not_elem_of_cons in Hc as [Hcy Hc]. rewrite (proj2 (Z.eqb_neq c y) Hcy). by eapply IH.
Qed.

Lemma tok_loop_none m a d ds s : bytes_at m d ds → Forall (λ c, c ∉ ds) s →
  ∀ i, bytes_at m (a + i) s →
  tok_loop (length s) m a i d (Z.of_nat (length ds)) 0 i = Done (0, i + Z.of_nat (length s)).
Proof.
  intros Hd Hs. induction Hs as [|c s Hc Hs IH]; intros i; cbn [length tok_loop bytes_at].
  { intros _. by rewrite Z.add_0_r. }
  intros [Hx Hb]. rewrite Nat2Z.id, (tok_delims_none _ _ _ _ c ds) by done. cbn [mbind outcome_bind].
  rewrite IH by by rewrite Z.add_assoc. f_equal. f_equal. lia.
Qed.

(** After the last token [strtok_r] has saved the address behind the
    string's terminator, so that the call that should return null reads the
    memory that follows the string; it is undefined when nothing is mapped
    there. *)
Theorem strtok_overruns m a s d ds saved : bytes_ok m → 0 < a → s ≠ [] → cstr m a s → cstr m d ds → Forall (λ c, c ∉ ds) s →
  m !! (a + Z.of_nat (length s) + 1) = None →
  ∃ m', strtok_r m a d saved = Done (a, a + Z.of_nat (length s) + 1, m') ∧
    strtok_r m' 0 d (a + Z.of_nat (length s) + 1) = Undef.
Proof.
  intros Hok Ha Hs Hcs Hcd Hf Hend. destruct s as [|c s]; [done|]. pose proof Hcs as [Hb _].
  apply bytes_at_app in Hb as [Hb Hz]. destruct Hz as [Hz _]. pose proof (proj1 (cstr_cons _ _ _ _) Hcs) as (Hc&Hc0&_).
  assert (bytes_at m d ds) as Hd by (by destruct Hcd as [[Hd _]%bytes_at_app _]).
  set (e := a + Z.of_nat (length (c :: s))) in *. exists (<[e := 0]> m). split.
  - unfold strtok_r. rewrite (proj2 (Z.eqb_neq a 0)) by lia. cbn [andb].
    rewrite (strlen_cstr _ _ _ Hcs), (strlen_cstr _ _ _ Hcd). cbn [mbind outcome_bind]. rewrite Nat2Z.id.
    rewrite (tok_loop_none m a d ds (c :: s) Hd Hf 0) by by rewrite Z.add_0_r. cbn [mbind outcome_bind].
    rewrite Z.add_0_r, (load_Done _ _ _ Hc). cbn [mbind outcome_bind]. rewrite (proj2 (Z.eqb_neq c 0) Hc0).
    rewrite Z.add_0_l. rewrite (proj2 (Z.eqb_neq (Z.of_nat (length (c :: s))) 0)) by (cbn [length]; lia). fold e.
    rewrite store_Done by (lia || by rewrite Hz). done.
  - unfold strtok_r. rewrite (proj2 (Z.eqb_neq (e + 1) 0)) by lia. cbn [Z.eqb andb].
    destruct (strlen_terminates (<[e := 0]> m) (e + 1)) as [(t&_&[Ht _])| ->]; [|done].
    exfalso. apply bytes_at_mapped in Ht. destruct (Ht 0) as [b Hb']; [rewrite length_app; cbn; lia|].
    rewrite Z.add_0_r, lookup_insert_ne in Hb' by lia. congruence.
Qed.

(** *** [strstr] *)

(** Whether [t] is a prefix of [s]. *)
Fixpoint is_prefix (t s : list Z) : bool :=
  match t, s with
  | [], _ => true
  | x :: t, y :: s => (x =? y) && is_prefix t s
  | _ :: _, [] => false
  end.

Lemma match_at_spec m a d s t : bytes_at m a s → bytes_at m d t → (length t ≤ length s)%nat →
  match_at (length t) m a d = Done (is_prefix t s).
Proof.
  revert a d s. induction t as [|y t IH]; intros a d [|x s]; cbn; try done; try lia.
  intros [Hx Ha] [Hy Hd] Hlen. rewrite (load_Done _ _ _ Hx), (load_Done _ _ _ Hy). cbn. rewrite Z.eqb_sym.
  destruct (y =? x); cbn; [|done]. apply IH; (done || lia).
Qed.

(** The positions that are tried, from the first. *)
Lemma strstr_loop_spec m d t k : bytes_at m d t → ∀ a s, bytes_at m a s → (k + length t ≤ length s)%nat →
  (∃ i, (i < k)%nat ∧ is_prefix t (drop i s) = true ∧ (∀ j, (j < i)%nat → is_prefix t (drop j s) = false) ∧
     strstr_loop k m a d (Z.of_nat (length t)) = Done (a + Z.of_nat i)) ∨
  ((∀ i, (i < k)%nat → is_prefix t (drop i s) = false) ∧ strstr_loop k m a d (Z.of_nat (length t)) = Done 0).
Proof.
  intros Hd. induction k as [|k IH]; intros a s Ha Hlen; cbn [strstr_loop]; [right; split; [lia|done]|].
  rewrite Nat2Z.id, (match_at_spec m a d s t) by (done || lia). cbn [mbind outcome_bind].
  destruct (is_prefix t s) eqn:Hp.
  { left. exists 0%nat. rewrite drop_0, Z.add_0_r. split_and!; [lia|done|lia|done]. }
  destruct s as [|x s]; [cbn in Hlen; lia|]. destruct Ha as [_ Ha].
  destruct (IH (a + 1) s Ha ltac:(cbn in Hlen; lia)) as [(i&Hi&Hm&Hj& ->)|[Hn ->]].
  - left. exists (S i). split_and!; [lia|done| |f_equal; lia]. intros [|j] ?; [done|]. apply Hj. lia.
  - right. split; [|done]. intros [|i] ?; [done|]. apply Hn. lia.
Qed.

(** [strstr] gives the first occurrence that does not end where the string
    ends, and null when there is no such one: an occurrence at the very end of
    the string is never found, and neither is the empty string. *)
Theorem strstr_misses_suffix m a d s t : cstr m a s → cstr m d t → 
  (∃ i, (i + length t < length s)%nat ∧ t ≠ [] ∧ is_prefix t (drop i s) = true ∧
     (∀ j, (j < i)%nat → is_prefix t (drop j s) = false) ∧ strstr m a d = Done (a + Z.of_nat i)) ∨
  ((t = [] ∨ ∀ i, (i + length t < length s)%nat → is_prefix t (drop i s) = false) ∧ strstr m a d = Done 0).
Proof.
  intros Ha Hd. unfold strstr. rewrite (strlen_cstr _ _ _ Ha), (strlen_cstr _ _ _ Hd). cbn [mbind outcome_bind].
  destruct t as [|c t]; [right; split; [by left|done]|]. set (t' := c :: t) in *.
  rewrite (proj2 (Z.eqb_neq (Z.of_nat (length t')) 0)) by (cbn [t' length]; lia). cbn [orb].
  destruct (Z.ltb_spec (Z.of_nat (length s)) (Z.of_nat (length t'))) as [|Hle].
  { right. split; [|done]. right. intros i. lia. }
  destruct Ha as [[Ha _]%bytes_at_app _]. destruct Hd as [[Hd _]%bytes_at_app _].
  replace (Z.to_nat (Z.of_nat (length s) - Z.of_nat (length t'))) with (length s - length t')%nat by lia.
  destruct (strstr_loop_spec m d t' (length s - length t') Hd a s Ha ltac:(lia)) as [(i&Hi&Hm&Hj& ->)|[Hn ->]].
  - left. exists i. split_and!; [lia|done|done|done|done].
  - right. split; [|done]. right. intros i ?. apply Hn. lia.
Qed.

(** Three strings in memory. *)
Definition string_memory : memory :=
  write_bytes (write_bytes (write_bytes ∅ 200 [97; 98; 99; 0]) 300 [97; 98; 0]) 400 [120; 0].

Lemma string_memory_ok : bytes_ok string_memory.
Proof. repeat apply bytes_ok_write; [by apply map_Forall_empty|repeat constructor; lia..]. Qed.

Lemma string_memory_strings : cstr string_memory 200 [97; 98; 99] ∧ cstr string_memory 300 [97; 98] ∧
  cstr string_memory 400 [120].
Proof. split_and!; (split; [by vm_compute; intuition|repeat constructor; lia]). Qed.

Lemma strcmp_order_witness :
  ∃ r12 r21 r23 r13, strcmp string_memory 300 200 = Done r12 ∧ strcmp string_memory 200 300 = Done r21 ∧
    strcmp string_memory 200 400 = Done r23 ∧ strcmp string_memory 300 400 = Done r13 ∧ r21 = - r12 ∧
    (r12 < 0 → r23 < 0 → r13 < 0).
Proof.
  destruct string_memory_strings as (H1&H2&H3).
  destruct (strcmp_order string_memory 300 200 400 _ _ _ 2 string_memory_ok H2 H1 H3 ltac:(lia))
    as (r1&r2&r3&r4&?&?&?&?&_&?&?&_). by exists r1, r2, r3, r4.
Defined.

Lemma strtok_overruns_witness :
  ∃ m', strtok_r string_memory 200 400 0 = Done (200, 204, m') ∧ strtok_r m' 0 400 204 = Undef.
Proof.
  destruct string_memory_strings as (H1&H2&H3).
  apply (strtok_overruns string_memory 200 [97; 98; 99] 400 [120] 0 string_memory_ok ltac:(lia)); try done.
  repeat constructor; by intros ?%list_elem_of_singleton.
Defined.

Lemma strstr_misses_suffix_witness :
  strstr string_memory 200 201 = Done 0 ∧ strstr string_memory 200 300 = Done 200.
Proof.
  destruct string_memory_strings as (H1&H2&_).
  assert (cstr string_memory 201 [98; 99]) as H1' by by apply cstr_cons in H1 as (_&_&H1).
  split.
  - destruct (strstr_misses_suffix string_memory 200 201 _ _ H1 H1') as [(i&Hi&_&Hp&_)|[_ ->]]; [|done].
    destruct i as [|i]; [done|cbn in Hi; lia].
  - destruct (strstr_misses_suffix string_memory 200 300 _ _ H1 H2) as [(i&Hi&_&Hp&_& ->)|[[?|Hn] _]];
      [destruct i; [done|cbn in Hi; lia]|done|]. specialize (Hn 0%nat ltac:(cbn; lia)). done.
Defined.
