(* ===== verification/KernelString.v ===== *)
(** * Strings and numbers in the kernel (kernel/kstd/cstring.cpp, kstdlib.cpp)

    The kernel has string functions of its own, next to those of the C library.
    They work on the memory of [ByteMem].  Numbers are printed by [itoa], [ltoa]
    and [lltoa] and read by [atoi]. *)

From stdpp Require Import base numbers list option gmap sets.
From S2P Require Import Prelude.
From S2P Require Import ByteMem.

Local Open Scope Z_scope.

(** ** Memory and strings *)

(** The block operations have the text of the C library's. *)
Definition k_memset (m : memory) (dest c n : Z) : outcome memory := memset m dest c n.
Definition k_memcpy (m : memory) (dest src count : Z) : outcome memory := memcpy m dest src count.
Definition k_memmove (m : memory) (dest src n : Z) : outcome memory := memmove m dest src n.

(** [rep movsl]: four bytes at a time. *)
Fixpoint movsl (n : nat) (m : memory) (d s : Z) : outcome memory :=
  match n with
  | O => Done m
  | S n =>
      b0 ← load m s; b1 ← load m (s + 1); b2 ← load m (s + 2); b3 ← load m (s + 3);
      m ← store m d b0; m ← store m (d + 1) b1; m ← store m (d + 2) b2; m ← store m (d + 3) b3;
      movsl n m (d + 4) (s + 4)
  end.
Definition memcpy_uint32 (m : memory) (d s n : Z) : outcome memory := movsl (Z.to_nat n) m d s.

(** [int strlen]: the length as an [int]. *)
Definition k_strlen (m : memory) (str : Z) : outcome Z := n ← strlen m str; Done (s32 n).

(** [strcat]: the loop over [src] from index [j]. *)
Fixpoint cat_loop (fuel : nat) (m : memory) (dest src j : Z) : outcome (Z * memory) :=
  match fuel with
  | O => NoFuel
  | S fuel =>
      c ← load m (src + j);
      if c =? 0 then Done (j, m) else m ← store m (dest + j) c; cat_loop fuel m dest src (j + 1)
  end.
Definition k_strcat (m : memory) (dest src : Z) : outcome memory :=
  e ← strlen_loop (scan_fuel m) m dest;
  '(j, m) ← cat_loop (scan_fuel m) m e src 0;
  store m (e + j) 0.

(** [strcmp], which is true for equal strings. The loop ends with the index. *)
Fixpoint k_strcmp_loop (fuel : nat) (m : memory) (str1 str2 : Z) : outcome bool :=
  match fuel with
  | O => NoFuel
  | S fuel =>
      a ← load m str1;
      if a =? 0 then b ← load m str2; Done (b =? 0)
      else
        b ← load m str2;
        if b =? 0 then Done false
        else if negb (a =? b) then Done false
        else k_strcmp_loop fuel m (str1 + 1) (str2 + 1)
  end.
Definition k_strcmp (m : memory) (str1 str2 : Z) : outcome bool := k_strcmp_loop (scan_fuel m) m str1 str2.

Definition substr (m : memory) (i src dest : Z) : outcome memory :=
  m ← k_memcpy m dest src i; store m (dest + i) 0.
Definition substri (m : memory) (i src dest : Z) : outcome memory :=
  m ← k_memcpy m dest src (i + 1); store m (dest + (i + 1)) 0.
Definition substrr (m : memory) (s e src dest : Z) : outcome memory :=
  m ← k_memcpy m dest (src + s) (u32 (e - s)); store m (dest + (e - s)) 0.

Definition k_strcpy (m : memory) (dest src : Z) : outcome memory :=
  length ← k_strlen m src;
  m ← k_memcpy m dest src length;
  store m (dest + length) 0.

(** [to_upper], in place. *)
Fixpoint upper_loop (fuel : nat) (m : memory) (str : Z) : outcome memory :=
  match fuel with
  | O => NoFuel
  | S fuel =>
      c ← load m str;
      if c =? 0 then Done m
      else
        m ← (if (97 <=? c) && (c <=? 122) then store m str (c - 32) else Done m);
        upper_loop fuel m (str + 1)
  end.
Definition to_upper (m : memory) (str : Z) : outcome memory := upper_loop (scan_fuel m) m str.

(** ** Numbers *)

(** The loop of [atoi]; a [char] is signed. *)
Fixpoint atoi_loop (k : nat) (m : memory) (str ret : Z) : outcome Z :=
  match k with
  | O => Done ret
  | S k =>
      c ← load m str;
      r ← signed 32 (ret * 10);
      r ← signed 32 (r + (sext 8 c - 48));
      atoi_loop k m (str + 1) r
  end.
Definition atoi (m : memory) (str : Z) : outcome Z :=
  len ← k_strlen m str; atoi_loop (Z.to_nat len) m str 0.

Definition sgn (x : Z) : Z := if 0 <? x then 1 else -1.

Definition nibble_to_hex (num : Z) : Z :=
  let tmp := Z.land num 15 in
  if tmp <? 10 then tmp + 48 else tmp + 87.

(** [parse_hex_char]: the test of the last case has [c <= 'f']. *)
Definition parse_hex_char (c : Z) : Z :=
  if (48 <=? c) && (c <=? 57) then u8 (c - 48)
  else if (97 <=? c) && (c <=? 102) then u8 (10 + c - 97)
  else if (65 <=? c) && (c <=? 102) then u8 (10 + c - 65)
  else 0.

(** The loop [do { ++p; shifter = shifter / 10; } while (shifter);]. *)
Fixpoint count_digits (fuel : nat) (p shifter : Z) : outcome Z :=
  match fuel with
  | O => NoFuel
  | S fuel =>
      let shifter := Z.quot shifter 10 in
      if shifter =? 0 then Done (p + 1) else count_digits fuel (p + 1) shifter
  end.

(** The loop that writes the digits, from the last one. *)
Fixpoint put_digits (fuel : nat) (m : memory) (p i : Z) : outcome (Z * memory) :=
  match fuel with
  | O => NoFuel
  | S fuel =>
      m ← store m (p - 1) (48 + Z.rem i 10);
      let i := Z.quot i 10 in
      if i =? 0 then Done (p - 1, m) else put_digits fuel m (p - 1) i
  end.

(** The loop over the mask [a] that counts the digits of base 2 and 16. *)
Fixpoint count_nibbles (fuel : nat) (a i shift nbcount : Z) (flag : bool) : outcome Z :=
  match fuel with
  | O => NoFuel
  | S fuel =>
      if 0 <? a then
        if negb (Z.land i a =? 0) || flag then count_nibbles fuel (Z.shiftr a shift) i shift (nbcount + 1) true
        else count_nibbles fuel (Z.shiftr a shift) i shift nbcount flag
      else Done nbcount
  end.

(** The loop [while(ind--)]: [ind] from [nbcount - 1] to 0. *)
Fixpoint put_nibbles (ind : nat) (m : memory) (p i base nbcount : Z) : outcome memory :=
  match ind with
  | O => Done m
  | S ind =>
      let d := if base =? 16 then nibble_to_hex (Z.land (Z.shiftr i (Z.of_nat ind * 4)) 15)
               else if negb (Z.land (Z.shiftr i (Z.of_nat ind)) 1 =? 0) then 49 else 48 in
      m ← store m (p + (- Z.of_nat ind + nbcount - 1)) d;
      put_nibbles ind m p i base nbcount
  end.

(** More than the digits of any [long long]. *)
Definition digit_fuel : nat := 70.

(** [lltoa]: the address of the text, and the memory. *)
Definition lltoa (m : memory) (i p base : Z) : outcome (Z * memory) :=
  if base =? 10 then
    let neg := i <? 0 in
    '(m, p, i) ← (if neg then
        m ← store m p 45;
        i ← signed 64 (i * -1);
        Done (m, p + 1, i)
      else Done (m, p, i));
    p ← count_digits digit_fuel p (s32 i);
    m ← store m p 0;
    '(p, m) ← put_digits digit_fuel m p i;
    Done (if neg then p - 1 else p, m)
  else if (base =? 2) || (base =? 16) then
    if i =? 0 then
      m ← store m p 48; m ← store m (p + 1) 0; Done (p, m)
    else
      let shift := if base =? 16 then 4 else 1 in
      let mask := if base =? 16 then Z.shiftl 15 56 else Z.shiftl 8 56 in
      nbcount ← count_nibbles digit_fuel mask (i mod 2 ^ 64) shift 0 false;
      m ← put_nibbles (Z.to_nat nbcount) m p i base nbcount;
      m ← store m (p + nbcount) 0;
      Done (p, m)
  else Done (p, m).

(** [i & ~0x0u] converts to [unsigned int]. *)
Definition itoa (m : memory) (i p base : Z) : outcome (Z * memory) :=
  if negb (base =? 10) then lltoa m (u32 i) p base else lltoa m i p base.
(** A [long] has 32 bits on i386. *)
Definition ltoa (m : memory) (i p base : Z) : outcome (Z * memory) :=
  if negb (base =? 10) then lltoa m (u32 i) p base else lltoa m i p base.

(** ** Decimal numerals *)

(** The digits of a number, most significant first. *)
Fixpoint decimal (fuel : nat) (n : Z) : list Z :=
  match fuel with
  | O => []
  | S fuel => (if n <? 10 then [] else decimal fuel (n / 10)) ++ [48 + n mod 10]
  end.

Lemma decimal_length_pos fuel n : (0 < fuel)%nat → (0 < length (decimal fuel n))%nat.
Proof. destruct fuel; cbn; [lia|]. rewrite length_app. cbn. lia. Qed.

Lemma div10_bound n fuel : n < 10 ^ Z.of_nat (S fuel) → n / 10 < 10 ^ Z.of_nat fuel.
Proof. intros Hn. apply Z.div_lt_upper_bound; [lia|]. rewrite <-Z.pow_succ_r, <-Nat2Z.inj_succ by lia. done. Qed.

Lemma count_digits_spec fuel p n : 0 ≤ n < 10 ^ Z.of_nat fuel → (0 < fuel)%nat →
  count_digits fuel p n = Done (p + Z.of_nat (length (decimal fuel n))).
Proof.
  revert p n. induction fuel as [|fuel IH]; intros p n Hn Hf; [lia|]. cbn [count_digits decimal].
  rewrite Z.quot_div_nonneg by lia. rewrite length_app. cbn [length].
  destruct (Z.ltb_spec n 10) as [Hs|Hs].
  - rewrite Z.div_small by lia. cbn. by f_equal.
  - assert (1 ≤ n / 10) by (apply Z.div_le_lower_bound; lia). rewrite (proj2 (Z.eqb_neq _ 0)) by lia.
    destruct fuel as [|fuel]; [cbn in Hn; lia|].
    rewrite IH; [f_equal; lia| |lia]. split; [lia|]. apply div10_bound, Hn.
Qed.

Lemma decimal_chars fuel n : 0 ≤ n → Forall (λ c, 48 ≤ c ≤ 57) (decimal fuel n).
Proof.
  revert n. induction fuel as [|fuel IH]; intros n Hn; cbn; [constructor|].
  pose proof (Z.mod_pos_bound n 10). apply Forall_app. split; [|repeat constructor; lia].
  destruct (n <? 10); [constructor|]. apply IH, Z.div_pos; lia.
Qed.

Lemma put_digits_spec fuel m p n : 0 ≤ n < 10 ^ Z.of_nat fuel → (0 < fuel)%nat →
  mapped m (p - Z.of_nat (length (decimal fuel n))) (Z.of_nat (length (decimal fuel n))) →
  put_digits fuel m p n = Done (p - Z.of_nat (length (decimal fuel n)),
    write_bytes m (p - Z.of_nat (length (decimal fuel n))) (decimal fuel n)).
Proof.
  revert m p n. induction fuel as [|fuel IH]; intros m p n Hn Hf Hm; [lia|]. cbn [put_digits].
  rewrite Z.quot_div_nonneg, Z.rem_mod_nonneg by lia. pose proof (Z.mod_pos_bound n 10).
  cbn [decimal] in *. rewrite length_app in *. cbn [length] in *.
  rewrite store_Done; [|replace (p - 1) with (p - Z.of_nat (length (if n <? 10 then [] else decimal fuel (n / 10)) + 1) +
    Z.of_nat (length (if n <? 10 then [] else decimal fuel (n / 10)))) by lia; apply Hm; lia|lia].
  cbn [mbind outcome_bind]. destruct (Z.ltb_spec n 10) as [Hs|Hs].
  - rewrite (Z.div_small n 10) by lia. cbn. done.
  - assert (1 ≤ n / 10) by (apply Z.div_le_lower_bound; lia). rewrite (proj2 (Z.eqb_neq _ 0)) by lia.
    destruct fuel as [|fuel]; [cbn in Hn; lia|].
    assert (0 ≤ n / 10 < 10 ^ Z.of_nat (S fuel)) by (split; [lia|apply div10_bound, Hn]).
    set (l := decimal (S fuel) (n / 10)) in *. rewrite IH; [|done|lia|].
    + f_equal. fold l. replace (p - 1 - Z.of_nat (length l)) with (p - Z.of_nat (length l + 1)) by lia. f_equal.
      rewrite write_bytes_app, write_bytes_insert by lia. cbn. f_equal. lia.
    + fold l. apply mapped_insert. intros i Hi.
      replace (p - 1 - Z.of_nat (length l) + i) with (p - Z.of_nat (length l + 1) + i) by lia. apply Hm. lia.
Qed.

(** The value of a numeral, read from the left after [ret]. *)
Definition dec_value (ret : Z) (l : list Z) : Z := foldl (λ r c, r * 10 + (c - 48)) ret l.

Lemma dec_value_app r l1 l2 : dec_value r (l1 ++ l2) = dec_value (dec_value r l1) l2.
Proof. apply foldl_app. Qed.

Lemma dec_value_ge l : ∀ r, 0 ≤ r → Forall (λ c, 48 ≤ c ≤ 57) l → r ≤ dec_value r l.
Proof.
  induction l as [|c l IH]; intros r Hr Hl; [done|]. apply Forall_cons in Hl as [Hc Hl].
  specialize (IH (r * 10 + (c - 48)) ltac:(lia) Hl). change (dec_value r (c :: l)) with (dec_value (r * 10 + (c - 48)) l). lia.
Qed.

Lemma decimal_value fuel n : 0 ≤ n < 10 ^ Z.of_nat fuel → dec_value 0 (decimal fuel n) = n.
Proof.
  revert n. induction fuel as [|fuel IH]; intros n Hn; [change (10 ^ Z.of_nat 0) with 1 in Hn; cbn; lia|]. cbn [decimal]. rewrite dec_value_app.
  pose proof (Z.div_mod n 10). destruct (Z.ltb_spec n 10).
  - cbn. rewrite Z.mod_small by lia. lia.
  - rewrite IH; [cbn; lia|]. split; [apply Z.div_pos; lia|apply div10_bound, Hn].
Qed.

Lemma atoi_loop_spec m l : ∀ str r, bytes_at m str l → Forall (λ c, 48 ≤ c ≤ 57) l → 0 ≤ r →
  dec_value r l < 2 ^ 31 → atoi_loop (length l) m str r = Done (dec_value r l).
Proof.
  induction l as [|c l IH]; intros str r Hb Hl Hr Hv; cbn [length atoi_loop]; [done|].
  destruct Hb as [Hc Hb]. apply Forall_cons in Hl as [Hc' Hl]. rewrite (load_Done _ _ _ Hc). cbn [mbind outcome_bind].
  rewrite (sext_id 8) by lia. cbn [dec_value foldl] in *. fold (dec_value (r * 10 + (c - 48)) l) in *.
  pose proof (dec_value_ge l (r * 10 + (c - 48)) ltac:(lia) Hl).
  rewrite !signed_Done by lia. cbn [mbind outcome_bind]. rewrite signed_Done by lia. cbn [mbind outcome_bind].
  apply IH; (done || lia).
Qed.

Lemma decimal_length fuel k n : n < 10 ^ Z.of_nat (S k) → (length (decimal fuel n) ≤ S k)%nat.
Proof.
  revert k n. induction fuel as [|fuel IH]; intros k n Hn; cbn [decimal]; [cbn; lia|]. rewrite length_app.
  cbn [length]. destruct (Z.ltb_spec n 10); [cbn; lia|].
  destruct k as [|k]; [change (10 ^ Z.of_nat 1) with 10 in Hn; lia|].
  specialize (IH k (n / 10) (div10_bound _ _ Hn)). lia.
Qed.

Lemma atoi_spec m str l : cstr m str l → Forall (λ c, 48 ≤ c ≤ 57) l → Z.of_nat (length l) < 2 ^ 31 →
  dec_value 0 l < 2 ^ 31 → atoi m str = Done (dec_value 0 l).
Proof.
  intros Hs Hl Hlen Hv. unfold atoi, k_strlen. rewrite (strlen_cstr _ _ _ Hs). cbn [mbind outcome_bind].
  rewrite s32_id, Nat2Z.id by lia. apply atoi_loop_spec; [|done|lia|done]. by destruct Hs as [[Hb _]%bytes_at_app _].
Qed.

(** The text of an [int]. *)
Definition int_text (i : Z) : list Z :=
  if i <? 0 then 45 :: decimal digit_fuel (- i) else decimal digit_fuel i.

(** The digits of a number that fits an [int], with the terminator written first. *)
Lemma put_decimal m p n : 0 ≤ n < 2 ^ 31 → mapped m p (Z.of_nat (length (decimal digit_fuel n)) + 1) →
  (q ← count_digits digit_fuel p (s32 n);
   m ← store m q 0;
   put_digits digit_fuel m q n) = Done (p, write_bytes m p (decimal digit_fuel n ++ [0])).
Proof.
  intros Hn Hm. assert (n < 10 ^ Z.of_nat digit_fuel) by (etrans; [apply Hn|by vm_compute]).
  rewrite s32_id, count_digits_spec by (done || lia || unfold digit_fuel; lia). cbn [mbind outcome_bind].
  set (l := decimal digit_fuel n) in *. rewrite store_Done by (lia || apply Hm; lia). cbn [mbind outcome_bind].
  rewrite put_digits_spec; [|lia|unfold digit_fuel; lia|]; fold l;
    replace (p + Z.of_nat (length l) - Z.of_nat (length l)) with p by lia.
  - f_equal. f_equal. rewrite write_bytes_app, write_bytes_insert by lia. done.
  - apply mapped_insert. intros i Hi. apply Hm. lia.
Qed.

Lemma itoa_spec m i p : - 2 ^ 31 < i < 2 ^ 31 → mapped m p (Z.of_nat (length (int_text i)) + 1) →
  itoa m i p 10 = Done (p, write_bytes m p (int_text i ++ [0])).
Proof.
  intros Hi Hm. unfold itoa, lltoa, int_text in *. cbn [Z.eqb Pos.eqb negb]. destruct (Z.ltb_spec i 0).
  - cbn [length] in Hm. rewrite store_Done; [|rewrite <-(Z.add_0_r p); apply Hm; lia|lia]. cbn [mbind outcome_bind].
    rewrite signed_Done by lia. cbn [mbind outcome_bind]. replace (i * -1) with (- i) by lia.
    pose proof (put_decimal (<[p := 45]> m) (p + 1) (- i) ltac:(lia)) as Hput.
    assert (mapped (<[p:=45]> m) (p + 1) (Z.of_nat (length (decimal digit_fuel (- i))) + 1)) as Hm'.
    { apply mapped_insert. intros j Hj. replace (p + 1 + j) with (p + (j + 1)) by lia. apply Hm. lia. }
    specialize (Hput Hm').
    destruct (count_digits digit_fuel (p + 1) (s32 (- i))) as [q| | |]; cbn [mbind outcome_bind] in *; try done.
    destruct (store _ q 0) as [m1| | |]; cbn [mbind outcome_bind] in *; try done. rewrite Hput. cbn. by replace (p + 1 - 1) with p by lia.
  - cbn [mbind outcome_bind]. pose proof (put_decimal m p i ltac:(lia) Hm) as Hput.
    destruct (count_digits digit_fuel p (s32 i)) as [q| | |]; cbn [mbind outcome_bind] in *; try done.
    destruct (store _ q 0) as [m1| | |]; cbn [mbind outcome_bind] in *; try done. by rewrite Hput.
Qed.

(** ** Theorems *)

(** [itoa] in base 10 writes the text of an [int] (other than the smallest)
    as a string at the place given, and nothing else; [atoi] reads a number that
    is not negative back from it. *)
Theorem itoa_atoi m i p : - 2 ^ 31 < i < 2 ^ 31 → mapped m p 12 →
  ∃ m', itoa m i p 10 = Done (p, m') ∧ cstr m' p (int_text i) ∧
    (∀ x, ¬ (p ≤ x < p + 12) → m' !! x = m !! x) ∧ (0 ≤ i → atoi m' p = Done i).
Proof.
  intros Hi Hm. assert (length (int_text i) ≤ 11)%nat as Hlen.
  { unfold int_text. assert (2 ^ 31 < 10 ^ Z.of_nat 10) by by vm_compute. destruct (i <? 0); cbn [length];
      [pose proof (decimal_length digit_fuel 9 (- i))|pose proof (decimal_length digit_fuel 9 i)]; lia. }
  assert (Forall (λ c, c ≠ 0) (int_text i)) as Hnz.
  { unfold int_text. destruct (Z.ltb_spec i 0); [constructor; [done|]|];
      (eapply Forall_impl; [apply decimal_chars; lia|cbn; lia]). }
  eexists. rewrite itoa_spec; [|done|intros j Hj; apply Hm; lia]. split; [done|].
  assert (cstr (write_bytes m p (int_text i ++ [0])) p (int_text i)) as Hc by (split; [apply bytes_at_write|done]).
  split_and!; [done| |].
  - intros x Hx. rewrite write_bytes_lookup, length_app, decide_False by (cbn [length]; lia). done.
  - intros Hpos. assert (int_text i = decimal digit_fuel i) as Ht.
    { unfold int_text. by rewrite (proj2 (Z.ltb_ge i 0)). }
    rewrite Ht in *. assert (0 ≤ i < 10 ^ Z.of_nat digit_fuel) by (split; [done|etrans; [apply Hi|by vm_compute]]).
    rewrite (atoi_spec _ _ _ Hc); rewrite ?decimal_value; try done; try lia. by apply decimal_chars.
Qed.

(** Twelve bytes of memory for a number. *)
Definition number_memory : memory := write_bytes ∅ 100 (replicate 12 255).

Lemma itoa_atoi_witness : ∃ m', itoa number_memory 2147483647 100 10 = Done (100, m') ∧
  atoi m' 100 = Done 2147483647.
Proof.
  destruct (itoa_atoi number_memory 2147483647 100) as (m'&H1&_&_&H2).
  - lia.
  - intros j Hj. unfold number_memory. rewrite write_bytes_lookup, length_replicate, decide_True by lia.
    apply lookup_lt_is_Some_2. rewrite length_replicate. lia.
  - exists m'. split; [done|]. apply H2. lia.
Defined.

(** The top four bits of a number are not printed in base 16. *)
Lemma lltoa_drops_top_nibble :
  ('(p, m) ← lltoa number_memory (2 ^ 60 + 10) 100 16; a ← load m p; b ← load m (p + 1); Done (p, a, b))
    = Done (100, 97, 0).
Proof. vm_compute. reflexivity. Qed.

(** A number of more than 31 bits has more digits than places are counted for
    it: the digits are written before the place given. *)
Lemma lltoa_underruns : lltoa number_memory (2 ^ 32) 100 10 = Undef.
Proof. vm_compute. reflexivity. Qed.
