(* ===== verification/KString.v ===== *)
(** * [kstd::string] (kernel/kstd/string.cpp, string.h)

    A string owns a buffer of [_size] characters, of which [_length] and a
    terminating zero are in use.  Characters of a new buffer have no value until
    they are written ([None]); they may be copied but not looked at.  The theorems
    show that strings behave as lists of characters, and what their search
    functions find. *)

From stdpp Require Import base numbers list option.
From S2P Require Import Prelude.

Local Open Scope Z_scope.

(** ** Buffers *)

Abbreviation buffer := (list (option Z)).

Definition new_char (n : Z) : buffer := replicate (Z.to_nat n) None.

Definition buf_get (b : buffer) (i : Z) : outcome Z :=
  if (0 <=? i) && (i <? Z.of_nat (length b)) then
    match b !! Z.to_nat i with Some (Some c) => Done c | _ => Undef end
  else Undef.

Definition buf_set (b : buffer) (i c : Z) : outcome buffer :=
  if (0 <=? i) && (i <? Z.of_nat (length b)) then Done (<[Z.to_nat i := Some c]> b) else Undef.

(** [memcpy(dst + doff, src + soff, n)]. *)
Definition buf_memcpy (dst : buffer) (doff : Z) (src : buffer) (soff n : Z) : outcome buffer :=
  if (soff + n <=? Z.of_nat (length src)) && (doff + n <=? Z.of_nat (length dst)) then
    Done (take (Z.to_nat doff) dst ++ take (Z.to_nat n) (drop (Z.to_nat soff) src) ++ drop (Z.to_nat (doff + n)) dst)
  else Undef.

(** [strlen] and [strcmp] (kernel/kstd/cstring.cpp) on buffers. *)
Fixpoint buf_strlen (b : buffer) : outcome Z :=
  match b with
  | Some c :: b => if c =? 0 then Done 0 else n ← buf_strlen b; Done (n + 1)
  | _ => Undef
  end.

Fixpoint buf_strcmp (a b : buffer) : outcome bool :=
  match a, b with
  | Some x :: a, Some y :: b =>
      if x =? 0 then Done (y =? 0)
      else if y =? 0 then Done false
      else if negb (x =? y) then Done false
      else buf_strcmp a b
  | _, _ => Undef
  end.

(** [strcpy]. *)
Definition buf_strcpy (dst src : buffer) : outcome buffer :=
  n ← buf_strlen src;
  dst ← buf_memcpy dst 0 src 0 n;
  buf_set dst n 0.

(** ** Strings *)

Record kstring : Type := mk_string {
  _size : Z;
  _length : Z;
  _cstring : option buffer;
}.

(** The buffer behind a pointer; a null pointer has none. *)
Definition chars (k : kstring) : outcome buffer :=
  match _cstring k with Some b => Done b | None => Undef end.

Definition string_new : kstring := mk_string 1 0 (Some [Some 0]).

Definition string_copy (s : kstring) : outcome kstring :=
  match _cstring s with
  | Some src =>
      b ← buf_memcpy (new_char (_size s)) 0 src 0 (_size s);
      Done (mk_string (_size s) (_length s) (Some b))
  | None => if _size s =? 0 then Done (mk_string 0 (_length s) (Some [])) else Undef
  end.

(** The new string, and the one moved from. *)
Definition string_move (s : kstring) : kstring * kstring := (s, mk_string 0 0 None).

Definition string_of_cstr (str : buffer) : outcome kstring :=
  n ← buf_strlen str;
  let sz := u32 (n + 1) in
  b ← buf_memcpy (new_char sz) 0 str 0 sz;
  Done (mk_string sz n (Some b)).

(** [string(a, size_a, b, size_b)]. *)
Definition string_concat (a : buffer) (size_a : Z) (b : buffer) (size_b : Z) : outcome kstring :=
  let len := u32 (size_a + size_b) in
  let sz := u32 (len + 1) in
  c ← buf_memcpy (new_char sz) 0 a 0 size_a;
  c ← buf_memcpy c size_a b 0 size_b;
  c ← buf_set c len 0;
  Done (mk_string sz len (Some c)).

Definition assign_copy (k str : kstring) : outcome kstring :=
  src ← chars str;
  b ← buf_strcpy (new_char (_size str)) src;
  Done (mk_string (_size str) (_length str) (Some b)).

Definition assign_move (k str : kstring) : kstring * kstring := (str, mk_string 0 0 None).

Definition assign_cstr (k : kstring) (str : buffer) : outcome kstring :=
  n ← buf_strlen str;
  b ← buf_strcpy (new_char (u32 (n + 1))) str;
  Done (mk_string (u32 (n + 1)) n (Some b)).

(** [expand_to]: [krealloc] keeps the characters of the old buffer. *)
Definition expand_to (k : kstring) (min_size : Z) : kstring :=
  if min_size <=? _size k then k
  else
    let sz := Z.max min_size (u32 (_size k * 2)) in
    match _cstring k with
    | Some b => mk_string sz (_length k) (Some (b ++ new_char (sz - Z.of_nat (length b))))
    | None => mk_string sz (_length k) (Some (new_char sz))
    end.

Definition append (k : kstring) (str : buffer) (len : Z) : outcome kstring :=
  let new_length := u32 (_length k + len) in
  let k := expand_to k (u32 (new_length + 1)) in
  b ← chars k;
  b ← buf_memcpy b (_length k) str 0 len;
  b ← buf_set b new_length 0;
  Done (mk_string (_size k) new_length (Some b)).

(** [operator+=(const string&)], of another string. *)
Definition plus_assign (k str : kstring) : outcome kstring :=
  b ← chars str; append k b (_length str).
Definition plus_assign_cstr (k : kstring) (str : buffer) : outcome kstring :=
  n ← buf_strlen str; append k str n.

(** [s += s]: the characters are read after [expand_to] may have moved them. *)
Definition plus_assign_self (k : kstring) : outcome kstring :=
  b ← chars k;
  if u32 (u32 (_length k + _length k) + 1) <=? _size k then append k b (_length k) else Undef.

Definition plus (k str : kstring) : outcome kstring :=
  a ← chars k; b ← chars str; string_concat a (_length k) b (_length str).
Definition plus_cstr (k : kstring) (str : buffer) : outcome kstring :=
  a ← chars k; n ← buf_strlen str; string_concat a (_length k) str n.

Definition equal (k str : kstring) : outcome bool := a ← chars k; b ← chars str; buf_strcmp a b.
Definition equal_cstr (k : kstring) (str : buffer) : outcome bool := a ← chars k; buf_strcmp str a.
Definition not_equal (k str : kstring) : outcome bool := e ← equal k str; Done (negb e).
Definition not_equal_cstr (k : kstring) (str : buffer) : outcome bool := e ← equal_cstr k str; Done (negb e).

Definition char_at (k : kstring) (index : Z) : outcome Z := b ← chars k; buf_get b index.

Definition string_substr (k : kstring) (start len : Z) : outcome kstring :=
  b ← chars k;
  tmp ← buf_memcpy (new_char (u32 (len + 1))) 0 b start len;
  tmp ← buf_set tmp len 0;
  string_of_cstr tmp.

(** ** Search *)

(** [(size_t) -1]. *)
Definition npos : Z := 2 ^ 32 - 1.

(** Every turn of a search looks at another character of the buffer. *)
Definition find_fuel (b : buffer) : nat := S (S (length b)).

Fixpoint find_char_loop (fuel : nat) (b : buffer) (c i bound : Z) : outcome Z :=
  match fuel with
  | O => NoFuel
  | S fuel =>
      if i <=? bound then
        x ← buf_get b i;
        if x =? c then Done i else find_char_loop fuel b c (u32 (i + 1)) bound
      else Done npos
  end.
Definition find_char (k : kstring) (c start : Z) : outcome Z :=
  b ← chars k; find_char_loop (find_fuel b) b c start (_length k).

(** The loop over [j], which is left at the first difference and has no other
    effect. *)
Fixpoint compare_at (n : nat) (b : buffer) (i : Z) (str : buffer) (j : Z) : outcome unit :=
  match n with
  | O => Done tt
  | S n =>
      x ← buf_get b (i + j); y ← buf_get str j;
      if negb (x =? y) then Done tt else compare_at n b i str (j + 1)
  end.

Fixpoint find_str_loop (fuel : nat) (b str : buffer) (len i bound : Z) : outcome Z :=
  match fuel with
  | O => NoFuel
  | S fuel =>
      if i <=? bound then
        x ← buf_get b i; y ← buf_get str 0;
        if x =? y then _ ← compare_at (Z.to_nat len) b i str 0; Done i
        else find_str_loop fuel b str len (u32 (i + 1)) bound
      else Done npos
  end.
Definition find_cstr (k : kstring) (str : buffer) (start : Z) : outcome Z :=
  len ← buf_strlen str;
  b ← chars k;
  find_str_loop (find_fuel b) b str len start (u32 (_length k - len)).
Definition find_str (k str : kstring) (start : Z) : outcome Z := b ← chars str; find_cstr k b start.

(** The loops that count down to zero. *)
Fixpoint find_last_char_loop (fuel : nat) (b : buffer) (c i : Z) : outcome Z :=
  match fuel with
  | O => NoFuel
  | S fuel =>
      if 0 <? i then x ← buf_get b (i - 1); if x =? c then Done i else find_last_char_loop fuel b c (i - 1)
      else Done npos
  end.
Definition find_last_of_char (k : kstring) (c e : Z) : outcome Z :=
  let e := if e =? npos then u32 (_length k - 1) else e in
  b ← chars k;
  find_last_char_loop (find_fuel b) b c (u32 (e + 1)).

Fixpoint find_last_str_loop (fuel : nat) (b str : buffer) (find_len i : Z) : outcome Z :=
  match fuel with
  | O => NoFuel
  | S fuel =>
      if 0 <? i then
        x ← buf_get b (i - 1); y ← buf_get str 0;
        if x =? y then _ ← compare_at (Z.to_nat find_len) b i str 0; Done i
        else find_last_str_loop fuel b str find_len (i - 1)
      else Done npos
  end.
Definition find_last_of_cstr (k : kstring) (str : buffer) (e : Z) : outcome Z :=
  find_len ← buf_strlen str;
  if find_len =? 0 then Done npos
  else
    let e := if e =? npos then u32 (_length k - 1) else e in
    b ← chars k;
    find_last_str_loop (find_fuel b) b str find_len (u32 (e - find_len)).
Definition find_last_of (k str : kstring) (e : Z) : outcome Z := b ← chars str; find_last_of_cstr k b e.

(** ** Strings as lists of characters *)

(** A buffer that holds [s] and a zero, and anything after it. *)
Definition holds (b : buffer) (s : list Z) : Prop :=
  ∃ tail, b = (Some <$> s) ++ Some 0 :: tail ∧ Forall (λ c, c ≠ 0) s.

(** A C string. *)
Definition cbuf (s : list Z) : buffer := (Some <$> s) ++ [Some 0].

Lemma cbuf_holds s : Forall (λ c, c ≠ 0) s → holds (cbuf s) s.
Proof. intros Hs. by exists []. Qed.

Definition krep (k : kstring) (s : list Z) : Prop :=
  ∃ tail, _cstring k = Some ((Some <$> s) ++ Some 0 :: tail) ∧ _length k = Z.of_nat (length s) ∧
    _size k = Z.of_nat (length s) + 1 + Z.of_nat (length tail) ∧ Forall (λ c, c ≠ 0) s ∧ _size k < 2 ^ 32.

Lemma buf_strlen_holds b s : holds b s → buf_strlen b = Done (Z.of_nat (length s)).
Proof.
  intros (tail&->&Hs). induction Hs as [|c s Hc Hs IH]; cbn; [done|].
  rewrite (proj2 (Z.eqb_neq c 0) Hc), IH. cbn. f_equal. lia.
Qed.

Lemma buf_strcmp_holds a b s t : holds a s → holds b t → buf_strcmp a b = Done (bool_decide (s = t)).
Proof.
  intros (ta&->&Hs) (tb&->&Ht). revert t Ht. induction Hs as [|x s Hx Hs IH]; intros t Ht; destruct Ht as [|y t Hy Ht]; cbn.
  - done.
  - rewrite (proj2 (Z.eqb_neq y 0) Hy). by rewrite bool_decide_false.
  - rewrite (proj2 (Z.eqb_neq x 0) Hx). by rewrite bool_decide_false.
  - rewrite (proj2 (Z.eqb_neq x 0) Hx), (proj2 (Z.eqb_neq y 0) Hy). destruct (Z.eqb_spec x y) as [->|Hxy]; cbn.
    + rewrite IH by done. f_equal. apply bool_decide_ext. split; [by intros ->|by intros [= ->]].
    + rewrite bool_decide_false; [done|congruence].
Qed.

Lemma buf_memcpy_app (d1 d2 d3 s1 x s2 : buffer) dst doff src soff n : length d2 = length x →
  dst = d1 ++ d2 ++ d3 → src = s1 ++ x ++ s2 → doff = Z.of_nat (length d1) → soff = Z.of_nat (length s1) →
  n = Z.of_nat (length x) → buf_memcpy dst doff src soff n = Done (d1 ++ x ++ d3).
Proof.
  intros Hlen -> -> -> -> ->. unfold buf_memcpy. rewrite !length_app, Hlen.
  rewrite !(proj2 (Z.leb_le _ _)) by lia. cbn [andb]. rewrite <-Nat2Z.inj_add, !Nat2Z.id. f_equal.
  rewrite take_app_length, drop_app_length, take_app_length. f_equal. f_equal.
  rewrite app_assoc, drop_app_length'; [done|]. rewrite length_app. lia.
Qed.

Lemma buf_set_app l1 o l2 i c : i = Z.of_nat (length l1) → buf_set (l1 ++ o :: l2) i c = Done (l1 ++ Some c :: l2).
Proof.
  intros ->. unfold buf_set. rewrite length_app. cbn [length]. rewrite (proj2 (Z.leb_le 0 _)), (proj2 (Z.ltb_lt _ _)) by lia.
  cbn [andb]. rewrite Nat2Z.id. f_equal. rewrite insert_app_r_alt, Nat.sub_diag by lia. done.
Qed.

Lemma new_char_split n (a b : nat) : n = Z.of_nat (a + b) → new_char n = replicate a None ++ replicate b None.
Proof. intros ->. unfold new_char. by rewrite Nat2Z.id, replicate_add. Qed.

Lemma string_new_rep : krep string_new [].
Proof. exists []. cbn. split_and!; (done || constructor). Qed.

Lemma string_of_cstr_rep b s : holds b s → Z.of_nat (length s) + 1 < 2 ^ 32 →
  ∃ k, string_of_cstr b = Done k ∧ krep k s.
Proof.
  intros Hb Hlen. unfold string_of_cstr. rewrite (buf_strlen_holds _ _ Hb). cbn [mbind outcome_bind].
  rewrite u32_id by lia. destruct Hb as (tail&->&Hs).
  rewrite (buf_memcpy_app [] (new_char (Z.of_nat (length s) + 1)) [] [] (cbuf s) tail); [|..].
  - cbn [mbind outcome_bind]. eexists. split; [done|]. exists []. cbn. rewrite ?app_nil_r. split_and!; (done || lia).
  - unfold new_char, cbuf. rewrite length_replicate, length_app, length_fmap. cbn. lia.
  - by rewrite app_nil_r.
  - unfold cbuf. by rewrite <-app_assoc.
  - done.
  - done.
  - unfold cbuf. rewrite length_app, length_fmap. cbn. lia.
Qed.

Lemma string_copy_rep k s : krep k s → ∃ k', string_copy k = Done k' ∧ krep k' s.
Proof.
  intros (tail&Hc&Hl&Hsz&Hs&Hlt). unfold string_copy. rewrite Hc.
  set (b := (Some <$> s) ++ Some 0 :: tail). assert (Z.of_nat (length b) = _size k) as Hb.
  { unfold b. rewrite length_app, length_fmap. cbn. lia. }
  rewrite (buf_memcpy_app [] (new_char (_size k)) [] [] b []); rewrite ?app_nil_r; try done.
  - cbn [mbind outcome_bind]. eexists. split; [done|]. exists tail. cbn. rewrite ?app_nil_r. by split_and!.
  - unfold new_char. rewrite length_replicate. lia.
Qed.

(** [strcpy] into a fresh buffer that is large enough. *)
Lemma buf_strcpy_new b s (t : nat) : holds b s →
  buf_strcpy (new_char (Z.of_nat (length s) + 1 + Z.of_nat t)) b =
    Done ((Some <$> s) ++ Some 0 :: replicate t None).
Proof.
  intros Hb. unfold buf_strcpy. rewrite (buf_strlen_holds _ _ Hb). cbn [mbind outcome_bind]. destruct Hb as (tail&->&Hs).
  rewrite (new_char_split _ (length s) (S t)) by lia.
  rewrite (buf_memcpy_app [] (replicate (length s) None) (replicate (S t) None) [] (Some <$> s) (Some 0 :: tail));
    rewrite ?length_replicate, ?length_fmap; try done.
  cbn [mbind outcome_bind]. rewrite app_nil_l. cbn [replicate]. apply buf_set_app. by rewrite length_fmap.
Qed.

Lemma assign_copy_rep k str s : krep str s → ∃ k', assign_copy k str = Done k' ∧ krep k' s.
Proof.
  intros (tail&Hc&Hl&Hsz&Hs&Hlt). unfold assign_copy, chars. rewrite Hc. cbn [mbind outcome_bind].
  rewrite Hsz, (buf_strcpy_new _ s) by by exists tail. cbn [mbind outcome_bind]. eexists. split; [done|].
  exists (replicate (length tail) None). cbn. rewrite length_replicate. split_and!; (done || lia).
Qed.

Lemma assign_cstr_rep k b s : holds b s → Z.of_nat (length s) + 1 < 2 ^ 32 →
  ∃ k', assign_cstr k b = Done k' ∧ krep k' s.
Proof.
  intros Hb Hlen. unfold assign_cstr. rewrite (buf_strlen_holds _ _ Hb). cbn [mbind outcome_bind].
  rewrite u32_id by lia. replace (Z.of_nat (length s) + 1) with (Z.of_nat (length s) + 1 + Z.of_nat 0) by lia.
  rewrite (buf_strcpy_new _ s) by done. cbn [mbind outcome_bind replicate]. eexists. split; [done|]. exists [].
  destruct Hb as (_&_&Hs). cbn. split_and!; (done || lia).
Qed.

Lemma expand_to_rep k s n : krep k s → n < 2 ^ 32 →
  ∃ tail, krep (expand_to k n) s ∧ _cstring (expand_to k n) = Some ((Some <$> s) ++ Some 0 :: tail) ∧
    _size (expand_to k n) = Z.of_nat (length s) + 1 + Z.of_nat (length tail) ∧ n ≤ _size (expand_to k n) ∧
    _length (expand_to k n) = Z.of_nat (length s).
Proof.
  intros (tail&Hc&Hl&Hsz&Hs&Hlt) Hn. unfold expand_to. destruct (Z.leb_spec n (_size k)).
  { exists tail. split_and!; try done. by exists tail. }
  rewrite Hc. set (b := (Some <$> s) ++ Some 0 :: tail). set (sz := Z.max n (u32 (_size k * 2))).
  assert (n ≤ sz < 2 ^ 32) as [? ?] by (unfold sz; pose proof (u32_range (_size k * 2)); lia).
  assert (Z.of_nat (length b) = _size k) as Hb by (unfold b; rewrite length_app, length_fmap; cbn; lia).
  assert (b ++ new_char (sz - Z.of_nat (length b)) =
    (Some <$> s) ++ Some 0 :: (tail ++ new_char (sz - Z.of_nat (length b)))) as Heq
    by (unfold b; rewrite <-app_assoc; done).
  assert (sz = Z.of_nat (length s) + 1 + Z.of_nat (length (tail ++ new_char (sz - Z.of_nat (length b))))) as Hsz'
    by (rewrite length_app; unfold new_char; rewrite length_replicate; lia).
  exists (tail ++ new_char (sz - Z.of_nat (length b))). cbn. rewrite Heq. split_and!; [|done|done|lia|done].
  eexists. cbn. split_and!; [done|done|done|done|done].
Qed.

Lemma append_rep k s b t : krep k s → holds b t → Z.of_nat (length (s ++ t)) + 1 < 2 ^ 32 →
  ∃ k', append k b (Z.of_nat (length t)) = Done k' ∧ krep k' (s ++ t).
Proof.
  intros Hk (tb&->&Ht) Hlen. rewrite length_app in Hlen. unfold append.
  pose proof Hk as (_&_&Hl&_&Hs&_). rewrite Hl. rewrite (u32_id (Z.of_nat (length s) + Z.of_nat (length t))), u32_id by lia.
  set (n := Z.of_nat (length s) + Z.of_nat (length t)) in *.
  destruct (expand_to_rep k s (n + 1) Hk ltac:(lia)) as (tail&(_&_&_&_&_&Hlt)&Hc&Hsz&Hge&Hl').
  unfold chars. rewrite Hc, Hl'. cbn [mbind outcome_bind].
  rewrite <-(take_drop (length t) (Some 0 :: tail)). set (d2 := take (length t) (Some 0 :: tail)).
  set (d3 := drop (length t) (Some 0 :: tail)).
  assert (length d2 = length t) as Hd2 by (unfold d2; rewrite length_take; cbn; lia).
  assert (Z.of_nat (length d3) = 1 + Z.of_nat (length tail) - Z.of_nat (length t)) as Hd3
    by (unfold d3; rewrite length_drop; cbn; lia).
  rewrite (buf_memcpy_app (Some <$> s) d2 d3 [] (Some <$> t) (Some 0 :: tb)); rewrite ?length_fmap; try done.
  cbn [mbind outcome_bind]. destruct d3 as [|o d3]; [cbn in Hd3; lia|]. rewrite app_assoc.
  rewrite buf_set_app by (rewrite length_app, !length_fmap; lia). cbn [mbind outcome_bind]. eexists. split; [done|].
  exists d3. cbn in *. rewrite fmap_app, length_app. split_and!; [done|lia|lia| |done].
  by apply Forall_app.
Qed.

Lemma plus_rep k s k2 t : krep k s → krep k2 t → Z.of_nat (length (s ++ t)) + 1 < 2 ^ 32 →
  ∃ k', plus k k2 = Done k' ∧ krep k' (s ++ t).
Proof.
  intros (ta&Ha&Hla&_&Hs&_) (tb&Hb&Hlb&_&Ht&_) Hlen. rewrite length_app in Hlen.
  unfold plus, chars, string_concat. rewrite Ha, Hb, Hla, Hlb. cbn [mbind outcome_bind].
  rewrite (u32_id (Z.of_nat (length s) + Z.of_nat (length t))), u32_id by lia.
  rewrite (new_char_split _ (length s) (length t + 1)) by lia.
  rewrite (buf_memcpy_app [] (replicate (length s) None) (replicate (length t + 1) None) [] (Some <$> s) (Some 0 :: ta));
    rewrite ?length_replicate, ?length_fmap; try done. cbn [mbind outcome_bind app].
  rewrite replicate_add.
  rewrite (buf_memcpy_app (Some <$> s) (replicate (length t) None) [None] [] (Some <$> t) (Some 0 :: tb));
    rewrite ?length_replicate, ?length_fmap; try done. cbn [mbind outcome_bind].
  rewrite app_assoc, buf_set_app by (rewrite length_app, !length_fmap; lia). cbn [mbind outcome_bind].
  eexists. split; [done|]. exists []. cbn. rewrite fmap_app, length_app. split_and!; [done|lia|lia| |lia].
  by apply Forall_app.
Qed.

Lemma substr_rep k s start len : krep k s → 0 ≤ start → 0 ≤ len → start + len ≤ Z.of_nat (length s) →
  ∃ k', string_substr k start len = Done k' ∧ krep k' (take (Z.to_nat len) (drop (Z.to_nat start) s)).
Proof.
  intros (ta&Ha&Hla&Hsz&Hs&Hlt) Hst Hln Hlen. unfold string_substr, chars. rewrite Ha. cbn [mbind outcome_bind].
  rewrite u32_id by lia. set (x := take (Z.to_nat len) (drop (Z.to_nat start) s)).
  assert (Z.of_nat (length x) = len) as Hx by (unfold x; rewrite length_take, length_drop; lia).
  rewrite (new_char_split _ (length x) 1) by lia.
  rewrite (buf_memcpy_app [] (replicate (length x) None) [None] (Some <$> take (Z.to_nat start) s) (Some <$> x)
    ((Some <$> drop (Z.to_nat len) (drop (Z.to_nat start) s)) ++ Some 0 :: ta)).
  - cbn [mbind outcome_bind app]. rewrite buf_set_app by (rewrite length_fmap; lia). cbn [mbind outcome_bind].
    assert (Forall (λ c, c ≠ 0) x) by by apply Forall_take, Forall_drop.
    apply string_of_cstr_rep; [by exists []|lia].
  - by rewrite length_replicate, length_fmap.
  - done.
  - rewrite !app_assoc, <-!fmap_app. unfold x. rewrite <-!app_assoc, take_drop, take_drop. done.
  - done.
  - rewrite length_fmap, length_take. lia.
  - rewrite length_fmap. lia.
Qed.

(** *** Search *)

Lemma buf_get_char s tail i c : s !! i = Some c → buf_get ((Some <$> s) ++ Some 0 :: tail) (Z.of_nat i) = Done c.
Proof.
  intros Hi. pose proof (lookup_lt_Some _ _ _ Hi). unfold buf_get. rewrite length_app, length_fmap.
  rewrite (proj2 (Z.leb_le 0 _)), (proj2 (Z.ltb_lt _ _)) by (cbn; lia). cbn [andb].
  rewrite Nat2Z.id, lookup_app_l by (rewrite length_fmap; lia). by rewrite list_lookup_fmap, Hi.
Qed.

Lemma buf_get_end s tail : buf_get ((Some <$> s) ++ Some 0 :: tail) (Z.of_nat (length s)) = Done 0.
Proof.
  unfold buf_get. rewrite length_app, length_fmap. rewrite (proj2 (Z.leb_le 0 _)), (proj2 (Z.ltb_lt _ _)) by (cbn; lia).
  cbn [andb]. rewrite Nat2Z.id, lookup_app_r, length_fmap, Nat.sub_diag by (rewrite length_fmap; lia). done.
Qed.

(** The position of the first [c] in [l], counted from [i]. *)
Fixpoint first_index (c : Z) (l : list Z) (i : Z) : Z :=
  match l with [] => npos | x :: l => if x =? c then i else first_index c l (i + 1) end.

(** The position of the last [c] in [l]. *)
Fixpoint last_pos (c : Z) (l : list Z) : option nat :=
  match l with
  | [] => None
  | x :: l =>
      match last_pos c l with
      | Some j => Some (S j)
      | None => if x =? c then Some 0%nat else None
      end
  end.

Lemma find_char_loop_spec tail c s2 : c ≠ 0 → ∀ s1 fuel, Z.of_nat (length (s1 ++ s2)) + 1 < 2 ^ 32 →
  (length s2 + 1 < fuel)%nat →
  find_char_loop fuel ((Some <$> (s1 ++ s2)) ++ Some 0 :: tail) c (Z.of_nat (length s1)) (Z.of_nat (length (s1 ++ s2))) =
    Done (first_index c s2 (Z.of_nat (length s1))).
Proof.
  intros Hc. induction s2 as [|x s2 IH]; intros s1 [|fuel] Hlen Hf; try lia; cbn [find_char_loop].
  - rewrite app_nil_r in *. rewrite (proj2 (Z.leb_le _ _)), buf_get_end by lia. cbn [mbind outcome_bind].
    rewrite (proj2 (Z.eqb_neq 0 c)) by done. destruct fuel as [|fuel]; [cbn in Hf; lia|]. cbn [find_char_loop first_index].
    rewrite u32_id by lia. by rewrite (proj2 (Z.leb_gt _ _)) by lia.
  - rewrite length_app in Hlen. cbn [length] in *. rewrite length_app. cbn [length].
    rewrite (proj2 (Z.leb_le _ _)) by lia.
    rewrite (buf_get_char (s1 ++ x :: s2) tail (length s1) x) by (by rewrite lookup_app_r, Nat.sub_diag).
    cbn [mbind outcome_bind first_index]. destruct (x =? c); [done|]. rewrite u32_id by lia.
    specialize (IH (s1 ++ [x]) fuel). rewrite <-app_assoc, !length_app in IH. cbn [app length] in IH.
    replace (Z.of_nat (length s1 + 1)) with (Z.of_nat (length s1) + 1) in IH by lia.
    apply IH; lia.
Qed.

Lemma find_char_rep k s c start : krep k s → c ≠ 0 → 0 ≤ start ≤ Z.of_nat (length s) →
  find_char k c start = Done (first_index c (drop (Z.to_nat start) s) start).
Proof.
  intros (tail&Hc&Hl&Hsz&Hs&Hlt) Hc0 Hst. unfold find_char, chars. rewrite Hc, Hl. cbn [mbind outcome_bind].
  pose proof (find_char_loop_spec tail c (drop (Z.to_nat start) s) Hc0 (take (Z.to_nat start) s)
    (find_fuel ((Some <$> s) ++ Some 0 :: tail))) as Hf. rewrite take_drop in Hf.
  rewrite length_take, Nat.min_l, Z2Nat.id in Hf by lia. apply Hf; [lia|].
  unfold find_fuel. rewrite length_app, length_fmap, length_drop. cbn. lia.
Qed.

Lemma last_pos_snoc c l x : last_pos c (l ++ [x]) = if x =? c then Some (length l) else last_pos c l.
Proof.
  induction l as [|y l IH]; cbn; [by destruct (x =? c)|]. rewrite IH. by destruct (x =? c).
Qed.

(** What [find_last_of(c)] gives: the position after the last [c]. *)
Definition after_last (c : Z) (s : list Z) : Z :=
  match last_pos c s with Some j => Z.of_nat j + 1 | None => npos end.

Lemma find_last_char_loop_spec tail c s1 : ∀ s2 fuel, (length s1 < fuel)%nat →
  find_last_char_loop fuel ((Some <$> (s1 ++ s2)) ++ Some 0 :: tail) c (Z.of_nat (length s1)) = Done (after_last c s1).
Proof.
  induction s1 as [|x s1 IH] using rev_ind; intros s2 [|fuel] Hf; try lia; [done|]. cbn [find_last_char_loop].
  rewrite length_app in *. cbn [length] in *. rewrite (proj2 (Z.ltb_lt _ _)) by lia.
  replace (Z.of_nat (length s1 + 1) - 1) with (Z.of_nat (length s1)) by lia. rewrite <-app_assoc.
  rewrite (buf_get_char (s1 ++ [x] ++ s2) tail (length s1) x) by (by rewrite lookup_app_r, Nat.sub_diag).
  cbn [mbind outcome_bind]. unfold after_last. rewrite last_pos_snoc. destruct (x =? c); [f_equal; lia|].
  rewrite IH by lia. done.
Qed.

Lemma find_last_of_char_rep k s c : krep k s → find_last_of_char k c npos = Done (after_last c s).
Proof.
  intros (tail&Hc&Hl&Hsz&Hs&Hlt). unfold find_last_of_char, chars. rewrite Hc, Hl, Z.eqb_refl. cbn [mbind outcome_bind].
  assert (u32 (u32 (Z.of_nat (length s) - 1) + 1) = Z.of_nat (length s)) as ->.
  { rewrite u32_add_l. replace (Z.of_nat (length s) - 1 + 1) with (Z.of_nat (length s)) by lia. apply u32_id. lia. }
  pose proof (find_last_char_loop_spec tail c s [] (find_fuel ((Some <$> s) ++ Some 0 :: tail))) as Hf.
  rewrite app_nil_r in Hf. apply Hf. unfold find_fuel. rewrite length_app, length_fmap. cbn. lia.
Qed.

(** ** Runs *)

Inductive ks_op : Type :=
  | KAppend (t : list Z)
  | KAppendCstr (t : list Z)
  | KAssign (t : list Z)
  | KAssignCstr (t : list Z)
  | KPlus (t : list Z)
  | KSubstr (start len : Z)
  | KCopy
  | KMove.

(** The operation on a string; the other string is made from a literal. *)
Definition ks_exec (k : kstring) (op : ks_op) : outcome kstring :=
  match op with
  | KAppend t => str ← string_of_cstr (cbuf t); plus_assign k str
  | KAppendCstr t => plus_assign_cstr k (cbuf t)
  | KAssign t => str ← string_of_cstr (cbuf t); assign_copy k str
  | KAssignCstr t => assign_cstr k (cbuf t)
  | KPlus t => str ← string_of_cstr (cbuf t); plus k str
  | KSubstr start len => string_substr k start len
  | KCopy => string_copy k
  | KMove => Done (assign_move string_new (string_move k).1).1
  end.

(** The same on lists. *)
Definition ks_spec (s : list Z) (op : ks_op) : list Z :=
  match op with
  | KAppend t | KAppendCstr t | KPlus t => s ++ t
  | KAssign t | KAssignCstr t => t
  | KSubstr start len => take (Z.to_nat len) (drop (Z.to_nat start) s)
  | KCopy | KMove => s
  end.

(** Arguments are strings without zeros; ranges are inside the string; and no
    string has four gigabytes. *)
Definition ks_ok (s : list Z) (op : ks_op) : Prop :=
  match op with
  | KAppend t | KAppendCstr t | KPlus t | KAssign t | KAssignCstr t =>
      Forall (λ c, c ≠ 0) t ∧ Z.of_nat (length (s ++ t)) + 1 < 2 ^ 32
  | KSubstr start len => 0 ≤ start ∧ 0 ≤ len ∧ start + len ≤ Z.of_nat (length s)
  | KCopy | KMove => True
  end.

Fixpoint ks_run (k : kstring) (ops : list ks_op) : outcome kstring :=
  match ops with [] => Done k | op :: ops => k ← ks_exec k op; ks_run k ops end.
Fixpoint ks_all_ok (s : list Z) (ops : list ks_op) : Prop :=
  match ops with [] => True | op :: ops => ks_ok s op ∧ ks_all_ok (ks_spec s op) ops end.

Lemma ks_exec_rep k s op : krep k s → ks_ok s op → ∃ k', ks_exec k op = Done k' ∧ krep k' (ks_spec s op).
Proof.
  intros Hk Hop. pose proof Hk as (tail&Hc&Hl&_).
  destruct op as [t|t|t|t|t|start len| |]; cbn [ks_exec ks_ok ks_spec] in *.
  1-5: destruct Hop as [Ht Hlen]; pose proof Hlen as Hlen'; rewrite length_app in Hlen';
    pose proof (cbuf_holds t Ht) as Hb; destruct (string_of_cstr_rep (cbuf t) t Hb ltac:(lia)) as (k2&Hk2e&Hk2);
    rewrite ?Hk2e; cbn [mbind outcome_bind].
  - destruct Hk2 as (tail2&Hc2&Hl2&_). unfold plus_assign, chars. rewrite Hc2, Hl2. cbn [mbind outcome_bind].
    apply append_rep; [done|by exists tail2|done].
  - unfold plus_assign_cstr. rewrite (buf_strlen_holds _ _ Hb). cbn [mbind outcome_bind]. by apply append_rep.
  - by apply assign_copy_rep.
  - apply assign_cstr_rep; [done|lia].
  - by apply plus_rep.
  - apply substr_rep; (done || lia).
  - by apply string_copy_rep.
  - by exists k.
Qed.

Lemma ks_run_rep ops : ∀ k s, krep k s → ks_all_ok s ops →
  ∃ k', ks_run k ops = Done k' ∧ krep k' (foldl ks_spec s ops).
Proof.
  induction ops as [|op ops IH]; intros k s Hk Hops; cbn; [by exists k|]. destruct Hops as [Hop Hops].
  destruct (ks_exec_rep k s op Hk Hop) as (k'&->&Hk'). by apply IH.
Qed.

(** ** Theorems *)

(** C29: Every sequence of string operations ends, and leaves a string that
    behaves as the list of characters the same operations give on lists: its
    length, its comparison with other strings, its characters, the first
    position of a character from any start, and the position after the last
    one. *)
Theorem kstring_refines_list ops : ks_all_ok [] ops →
  ∃ k, ks_run string_new ops = Done k ∧ let s := foldl ks_spec [] ops in
    _length k = Z.of_nat (length s) ∧
    (∀ t, Forall (λ c, c ≠ 0) t → equal_cstr k (cbuf t) = Done (bool_decide (t = s)) ∧
       not_equal_cstr k (cbuf t) = Done (negb (bool_decide (t = s)))) ∧
    (∀ i c, s !! i = Some c → char_at k (Z.of_nat i) = Done c) ∧
    (∀ c start, c ≠ 0 → 0 ≤ start ≤ Z.of_nat (length s) →
       find_char k c start = Done (first_index c (drop (Z.to_nat start) s) start)) ∧
    ∀ c, find_last_of_char k c npos = Done (after_last c s).
Proof.
  intros Hops. destruct (ks_run_rep ops string_new [] string_new_rep Hops) as (k&Hr&Hk).
  exists k. split; [done|]. cbv zeta. set (s := foldl ks_spec [] ops) in *. pose proof Hk as (tail&Hc&Hl&_&Hs&_).
  split_and!; [done| | |intros; by apply find_char_rep|intros; by apply find_last_of_char_rep].
  - intros t Ht. unfold not_equal_cstr, equal_cstr, chars. rewrite Hc. cbn [mbind outcome_bind].
    rewrite (buf_strcmp_holds _ _ t s) by (by apply cbuf_holds || by exists tail). done.
  - intros i c Hi. unfold char_at, chars. rewrite Hc. by apply buf_get_char.
Qed.

Lemma kstring_refines_list_witness :
  ∃ k, ks_run string_new [KAssignCstr [47; 97; 47; 98]; KAppend [47; 99]; KSubstr 2 4; KCopy; KMove] = Done k ∧
    _length k = 4 ∧ find_last_of_char k 47 npos = Done 3.
Proof.
  destruct (kstring_refines_list [KAssignCstr [47; 97; 47; 98]; KAppend [47; 99]; KSubstr 2 4; KCopy; KMove])
    as (k&Hr&Hl&_&_&_&Hf).
  - cbn. split_and!; try done; try (repeat constructor; lia); lia.
  - exists k. split; [done|]. split; [exact Hl|]. exact (Hf 47).
Defined.

(** *** Searching for a string *)

Lemma compare_at_total s tail (i : nat) t n : ∀ j : nat, (i + j + n ≤ length s)%nat → (j + n ≤ length t)%nat →
  ∃ u, compare_at n ((Some <$> s) ++ Some 0 :: tail) (Z.of_nat i) (cbuf t) (Z.of_nat j) = Done u.
Proof.
  induction n as [|n IH]; intros j H1 H2; cbn [compare_at]; [by eexists|].
  destruct (lookup_lt_is_Some_2 s (i + j)) as [x Hx]; [lia|]. destruct (lookup_lt_is_Some_2 t j) as [y Hy]; [lia|].
  rewrite <-Nat2Z.inj_add, (buf_get_char s tail _ x Hx). cbn [mbind outcome_bind].
  change (cbuf t) with ((Some <$> t) ++ Some 0 :: []). rewrite (buf_get_char t [] j y Hy). cbn [mbind outcome_bind]. destruct (x =? y); cbn [negb]; [|by eexists].
  replace (Z.of_nat j + 1) with (Z.of_nat (S j)) by lia. apply IH; lia.
Qed.

(** [find] of a string gives the first place where the first character of
    the string occurs, whatever follows there. *)
Theorem kstring_find_first_char k s c t i : krep k s → c ≠ 0 → Forall (λ c, c ≠ 0) t →
  Z.of_nat i + Z.of_nat (length (c :: t)) ≤ Z.of_nat (length s) → s !! i = Some c →
  (∀ j, (j < i)%nat → s !! j ≠ Some c) → find_cstr k (cbuf (c :: t)) 0 = Done (Z.of_nat i).
Proof.
  intros (tail&Hc&Hl&Hsz&Hs&Hlt) Hc0 Ht Hlen Hi Hbefore.
  assert (holds (cbuf (c :: t)) (c :: t)) as Hb by (apply cbuf_holds; by constructor).
  unfold find_cstr, chars. rewrite (buf_strlen_holds _ _ Hb), Hc, Hl. cbn [mbind outcome_bind].
  rewrite u32_id by lia. set (bound := Z.of_nat (length s) - Z.of_nat (length (c :: t))).
  pose proof (lookup_lt_Some _ _ _ Hi). assert (buf_get (cbuf (c :: t)) 0 = Done c) as Hhd by (apply (buf_get_char (c :: t) [] 0 c eq_refl)).
  enough (∀ n j fuel, (j + n = i)%nat → (n < fuel)%nat →
    find_str_loop fuel ((Some <$> s) ++ Some 0 :: tail) (cbuf (c :: t)) (Z.of_nat (length (c :: t))) (Z.of_nat j) bound =
      Done (Z.of_nat i)) as Hloop.
  { apply (Hloop i 0%nat); [lia|]. unfold find_fuel. rewrite length_app, length_fmap. lia. }
  induction n as [|n IH]; intros j [|fuel] Hj Hf; try lia; cbn [find_str_loop].
  - replace j with i by lia. rewrite (proj2 (Z.leb_le _ _)) by lia. rewrite (buf_get_char s tail i c Hi). cbn [mbind outcome_bind].
    rewrite Hhd. cbn [mbind outcome_bind]. rewrite Z.eqb_refl.
    assert (∃ u, compare_at (Z.to_nat (Z.of_nat (length (c :: t)))) ((Some <$> s) ++ Some 0 :: tail) (Z.of_nat i) (cbuf (c :: t)) 0
      = Done u) as [u ->]; [|done].
    rewrite Nat2Z.id. apply (compare_at_total s tail i (c :: t) _ 0); lia.
  - destruct (lookup_lt_is_Some_2 s j) as [x Hx]; [lia|]. rewrite (proj2 (Z.leb_le _ _)) by lia.
    rewrite (buf_get_char s tail j x Hx). cbn [mbind outcome_bind].
    rewrite Hhd. cbn [mbind outcome_bind].
    rewrite (proj2 (Z.eqb_neq x c)) by (intros ->; by apply (Hbefore j); [lia|]).
    rewrite u32_id by lia. replace (Z.of_nat j + 1) with (Z.of_nat (S j)) by lia. apply IH; lia.
Qed.

(** Looking for "ab" in "axab". *)
Lemma kstring_find_first_char_witness :
  ∃ k, string_of_cstr (cbuf [97; 120; 97; 98]) = Done k ∧ find_cstr k (cbuf [97; 98]) 0 = Done 0.
Proof.
  destruct (string_of_cstr_rep (cbuf [97; 120; 97; 98]) [97; 120; 97; 98]) as (k&Hk&Hr).
  - apply cbuf_holds. repeat constructor; lia.
  - cbn. lia.
  - exists k. split; [done|]. apply (kstring_find_first_char k _ 97 [98] 0 Hr); [lia|repeat constructor; lia|cbn; lia|done|lia].
Defined.
