(* ===== verification/Ctype.v ===== *)
(** * Character classes (libraries/libc/ctype.c, ctype.h)

    The classes are bits of a table with an entry for every byte.  The theorem
    shows that the table encodes the ASCII classes. *)

From stdpp Require Import base numbers list.
From S2P Require Import Prelude.

Local Open Scope Z_scope.

Definition _U : Z := 1.
Definition _L : Z := 2.
Definition _N : Z := 4.
Definition _S : Z := 8.
Definition _P : Z := 16.
Definition _C : Z := 32.
Definition _X : Z := 64.
Definition _B : Z := 128.

(** [_ctype_]: the entries that are written out, and zeros. *)
Definition _ctype_ : list Z :=
  [_C; _C; _C; _C; _C; _C; _C; _C;
   _C; Z.lor _C _S; Z.lor _C _S; Z.lor _C _S; Z.lor _C _S; Z.lor _C _S; _C; _C;
   _C; _C; _C; _C; _C; _C; _C; _C;
   _C; _C; _C; _C; _C; _C; _C; _C;
   sext 8 (Z.lor _S _B); _P; _P; _P; _P; _P; _P; _P;
   _P; _P; _P; _P; _P; _P; _P; _P;
   _N; _N; _N; _N; _N; _N; _N; _N;
   _N; _N; _P; _P; _P; _P; _P; _P;
   _P; Z.lor _U _X; Z.lor _U _X; Z.lor _U _X; Z.lor _U _X; Z.lor _U _X; Z.lor _U _X; _U;
   _U; _U; _U; _U; _U; _U; _U; _U;
   _U; _U; _U; _U; _U; _U; _U; _U;
   _U; _U; _U; _P; _P; _P; _P; _P;
   _P; Z.lor _L _X; Z.lor _L _X; Z.lor _L _X; Z.lor _L _X; Z.lor _L _X; Z.lor _L _X; _L;
   _L; _L; _L; _L; _L; _L; _L; _L;
   _L; _L; _L; _L; _L; _L; _L; _L;
   _L; _L; _L; _P; _P; _P; _P; _C] ++ replicate 128 0.

(** [_ctype_[(unsigned char) c] & mask]. *)
Definition ctype (c mask : Z) : Z := Z.land (nth (Z.to_nat (u8 c)) _ctype_ 0) mask.

Definition isalnum (c : Z) : bool := negb (ctype c (Z.lor (Z.lor _U _L) _N) =? 0).
Definition isalpha (c : Z) : bool := negb (ctype c (Z.lor _U _L) =? 0).
Definition isblank (c : Z) : bool := negb (ctype c _B =? 0) || (c =? 9).
Definition iscntrl (c : Z) : bool := negb (ctype c _C =? 0).
Definition isdigit (c : Z) : bool := negb (ctype c _N =? 0).
Definition isxdigit (c : Z) : bool := negb (ctype c (Z.lor _N _X) =? 0).
Definition isspace (c : Z) : bool := negb (ctype c _S =? 0).
Definition ispunct (c : Z) : bool := negb (ctype c _P =? 0).
Definition isprint (c : Z) : bool := negb (ctype c (Z.lor (Z.lor (Z.lor (Z.lor _P _U) _L) _N) _B) =? 0).
Definition isgraph (c : Z) : bool := negb (ctype c (Z.lor (Z.lor (Z.lor _P _U) _L) _N) =? 0).
Definition islower (c : Z) : bool := ctype c (Z.lor _U _L) =? _L.
Definition isupper (c : Z) : bool := ctype c (Z.lor _U _L) =? _U.
Definition tolower (c : Z) : Z := if (65 <=? c) && (c <=? 90) then Z.lor c 32 else c.
Definition toupper (c : Z) : Z := if (97 <=? c) && (c <=? 122) then Z.land c (Z.lnot 32) else c.

(** ** ASCII *)

Definition between (a b c : Z) : bool := (a <=? c) && (c <=? b).
Definition ascii_upper : Z → bool := between 65 90.
Definition ascii_lower : Z → bool := between 97 122.
Definition ascii_digit : Z → bool := between 48 57.
Definition ascii_graph : Z → bool := between 33 126.

Definition class_ok (c : Z) : bool :=
  eqb (isupper c) (ascii_upper c) && eqb (islower c) (ascii_lower c) &&
  eqb (isalpha c) (ascii_upper c || ascii_lower c) && eqb (isdigit c) (ascii_digit c) &&
  eqb (isalnum c) (ascii_upper c || ascii_lower c || ascii_digit c) &&
  eqb (isxdigit c) (ascii_digit c || between 65 70 c || between 97 102 c) &&
  eqb (isspace c) ((c =? 32) || between 9 13 c) && eqb (isblank c) ((c =? 32) || (c =? 9)) &&
  eqb (iscntrl c) (between 0 31 c || (c =? 127)) && eqb (isgraph c) (ascii_graph c) &&
  eqb (isprint c) (ascii_graph c || (c =? 32)) &&
  eqb (ispunct c) (ascii_graph c && negb (ascii_upper c || ascii_lower c || ascii_digit c)) &&
  (tolower c =? if ascii_upper c then c + 32 else c) &&
  (toupper c =? if ascii_lower c then c - 32 else c).

(** The table agrees with ASCII for every byte: each of the twelve classes,
    and the conversion of letters. *)
Theorem ctype_is_ascii c : 0 ≤ c < 256 → class_ok c = true.
Proof.
  intros Hc. assert (forallb class_ok (seqZ 0 256) = true) as Hall by (vm_compute; reflexivity).
  rewrite forallb_forall in Hall. apply Hall, list_elem_of_In, elem_of_seqZ. lia.
Qed.

Lemma ctype_is_ascii_witness : class_ok 65 = true.
Proof. apply ctype_is_ascii. lia. Defined.
