(* ===== verification/LibcStdlib.v ===== *)
(** * Numbers and sorting (libraries/libc/stdlib.c)

    Reading numbers, and [qsort] (which is bubble sort).  Numbers and arrays are in the memory of [ByteMem]. *)

From stdpp Require Import base numbers list option gmap sets sorting.
From S2P Require Import Prelude.
From S2P Require Import ByteMem.
From S2P Require Import CString.
From S2P Require Import Ctype.

Local Open Scope Z_scope.

(** ** Reading numbers *)

Definition LONG_MAX : Z := 2147483647.
Definition LONG_MIN : Z := -2147483648.
Definition ULONG_MAX : Z := 4294967295.
Definition LONG_LONG_MAX : Z := 9223372036854775807.
Definition LONG_LONG_MIN : Z := - LONG_LONG_MAX - 1.
Definition ULONG_LONG_MAX : Z := 18446744073709551615.
Definition EINVAL : Z := 22.
Definition ERANGE : Z := 34.

(** A [char] is signed. *)
Definition is_valid_digit (digit base : Z) : bool :=
  let digit := sext 8 digit in
  if digit <? 48 then false
  else if base <=? 10 then digit <=? 48 + base - 1
  else if (48 <=? digit) && (digit <=? 57) then true
  else if (65 <=? digit) && (digit <? 65 + (base - 10)) then true
  else if (97 <=? digit) && (digit <? 97 + (base - 10)) then true
  else false.

Definition digit_value (digit : Z) : Z :=
  let digit := sext 8 digit in
  if (48 <=? digit) && (digit <=? 57) then digit - 48
  else if (97 <=? digit) && (digit <=? 122) then digit - 97 + 10
  else if (65 <=? digit) && (digit <=? 90) then digit - 65 + 10
  else -1.

(** The address of the first character that is not white space. *)
Fixpoint skip_space (fuel : nat) (m : memory) (ch : Z) : outcome Z :=
  match fuel with
  | O => NoFuel
  | S fuel =>
      c ← load m ch;
      if negb (c =? 0) && isspace c then skip_space fuel m (ch + 1) else Done ch
  end.

(** The sign, and what follows it. *)
Definition read_sign (m : memory) (ch : Z) : outcome (Z * Z) :=
  c ← load m ch;
  if c =? 45 then Done (-1, ch + 1) else if c =? 43 then Done (1, ch + 1) else Done (1, ch).

(** The base to use when none is given, and what follows its prefix. *)
Definition guess_base (m : memory) (ch base : Z) : outcome (Z * Z) :=
  if base =? 0 then
    c ← load m ch;
    if c =? 48 then
      c1 ← load m (ch + 1);
      if tolower c1 =? 120 then Done (ch + 2, 16) else Done (ch + 1, 8)
    else Done (ch, 10)
  else Done (ch, base).

Definition skip_hex_prefix (m : memory) (ch base : Z) : outcome Z :=
  if base =? 16 then
    c ← load m ch;
    if c =? 48 then
      c1 ← load m (ch + 1);
      Done (if tolower c1 =? 120 then ch + 2 else ch + 1)
    else Done ch
  else Done ch.

(** The loop of [strtoll]; [long long] overflow is undefined. *)
Fixpoint parse_signed (fuel : nat) (m : memory) (ch base val : Z) (overflow : bool) : outcome (Z * Z * bool) :=
  match fuel with
  | O => NoFuel
  | S fuel =>
      c ← load m ch;
      if is_valid_digit c base then
        val ← signed 64 (val * base);
        val ← signed 64 (val + digit_value c);
        parse_signed fuel m (ch + 1) base val (if val <? 0 then true else overflow)
      else Done (ch, val, overflow)
  end.

(** [strtoll(nptr, endptr, base)]: the value, what is stored through [endptr]
    and in [errno], if anything is. *)
Definition strtoll (m : memory) (nptr base : Z) : outcome (Z * option Z * option Z) :=
  if (base <? 0) || (36 <? base) || (base =? 1) then Done (LONG_LONG_MAX, None, Some EINVAL)
  else
    ch ← skip_space (scan_fuel m) m nptr;
    '(sign, ch) ← read_sign m ch;
    '(ch, base) ← guess_base m ch base;
    ch ← skip_hex_prefix m ch base;
    '(ch, val, overflow) ← parse_signed (scan_fuel m) m ch base 0 false;
    if overflow : bool then
      Done (if sign =? 1 then LONG_LONG_MAX else LONG_LONG_MIN, Some ch, Some ERANGE)
    else Done (if sign =? -1 then - val else val, Some ch, None).

Definition strtol (m : memory) (nptr base : Z) : outcome (Z * option Z * option Z) :=
  '(val, e, err) ← strtoll m nptr base;
  if LONG_MAX <? val then Done (LONG_MAX, e, Some ERANGE)
  else if val <? LONG_MIN then Done (LONG_MIN, e, Some ERANGE)
  else Done (val, e, err).

(** [atoi]: the conversion to [int] keeps the low 32 bits. *)
Definition libc_atoi (m : memory) (nptr : Z) : outcome Z :=
  '(value, _, _) ← strtoll m nptr 10;
  Done (if 2147483647 <? value then 2147483647 else s32 value).
Definition atol (m : memory) (nptr : Z) : outcome Z := '(v, _, _) ← strtol m nptr 10; Done v.
Definition atoll (m : memory) (nptr : Z) : outcome Z := '(v, _, _) ← strtoll m nptr 10; Done v.

Definition u64 (z : Z) : Z := z mod 2 ^ 64.

(** The loop of [strtoull], on [unsigned long long]. *)
Fixpoint parse_unsigned (fuel : nat) (m : memory) (ch base val : Z) (overflow : bool) : outcome (Z * Z * bool) :=
  match fuel with
  | O => NoFuel
  | S fuel =>
      c ← load m ch;
      if is_valid_digit c base then
        let overflow := if u64 (val * base) <? val then true else overflow in
        parse_unsigned fuel m (ch + 1) base (u64 (u64 (val * base) + digit_value c)) overflow
      else Done (ch, val, overflow)
  end.

Definition strtoull (m : memory) (nptr base : Z) : outcome (Z * option Z * option Z) :=
  if (base <? 0) || (36 <? base) || (base =? 1) then Done (ULONG_LONG_MAX, None, Some EINVAL)
  else
    ch ← skip_space (scan_fuel m) m nptr;
    '(ch, base) ← guess_base m ch base;
    ch ← skip_hex_prefix m ch base;
    '(ch, val, overflow) ← parse_unsigned (scan_fuel m) m ch base 0 false;
    if overflow : bool then Done (ULONG_LONG_MAX, Some ch, Some ERANGE) else Done (val, Some ch, None).

Definition strtoul (m : memory) (nptr base : Z) : outcome (Z * option Z * option Z) :=
  '(val, e, err) ← strtoull m nptr base;
  if ULONG_MAX <? val then Done (ULONG_MAX, e, Some ERANGE) else Done (val, e, err).

(** ** Random numbers and absolute values *)

(** [rand]: the number and the next state; [unsigned long] has 32 bits. *)
Definition rand (next : Z) : Z * Z :=
  let next := u32 (next * 1103515245 + 12345) in (next / 65536 mod 32768, next).
Definition srand (seed : Z) : Z := u32 seed.

(** The negation of the smallest number is undefined. *)
Definition abs (j : Z) : outcome Z := if j <? 0 then signed 32 (- j) else Done j.
Definition labs (j : Z) : outcome Z := if j <? 0 then signed 32 (- j) else Done j.
Definition llabs (j : Z) : outcome Z := if j <? 0 then signed 64 (- j) else Done j.

(** ** Sorting *)

Section qsort.
(** The comparison function, on the addresses of two elements. *)
Context (compar : memory → Z → Z → outcome Z).

(** The loop over [i]: whether any elements were exchanged. *)
Fixpoint qsort_pass (n : nat) (m : memory) (array sz switchbuf : Z) (switches : bool) : outcome (memory * bool) :=
  match n with
  | O => Done (m, switches)
  | S n =>
      c ← compar m array (array + sz);
      if 0 <? c then
        m ← memcpy m switchbuf array sz;
        m ← memcpy m array (array + sz) sz;
        m ← memcpy m (array + sz) switchbuf sz;
        qsort_pass n m (array + sz) sz switchbuf true
      else qsort_pass n m (array + sz) sz switchbuf switches
  end.

Fixpoint qsort_loop (ncompar : nat) (m : memory) (base sz switchbuf : Z) : outcome memory :=
  match ncompar with
  | O => Done m
  | S ncompar' =>
      '(m, switches) ← qsort_pass ncompar m base sz switchbuf false;
      if switches : bool then qsort_loop ncompar' m base sz switchbuf else Done m
  end.

(** [qsort(base, nmemb, size, compar)]; [switchbuf] is the address of the array on
    its stack.  [ncompar] is an [int]: when it is negative, the first pass has no
    steps, and ends the loop. *)
Definition qsort (m : memory) (base nmemb sz switchbuf : Z) : outcome memory :=
  if nmemb =? 0 then Done m
  else
    let ncompar := s32 (nmemb - 1) in
    if ncompar <? 0 then Done m else qsort_loop (Z.to_nat ncompar) m base sz switchbuf.
End qsort.

(** ** Numerals *)

Definition digit_char (d : Z) : Z := if d <? 10 then 48 + d else 87 + d.

(** The digits of [n] in a base, most significant first. *)
Fixpoint numeral (fuel : nat) (base n : Z) : list Z :=
  match fuel with
  | O => []
  | S fuel => (if n <? base then [] else numeral fuel base (n / base)) ++ [digit_char (n mod base)]
  end.

(** Sixty-four digits are enough for any number of 63 bits. *)
Definition numeral_of (base n : Z) : list Z := numeral 64 base n.

(** A character that stands for the digit [d] of the base. *)
Definition is_digit_char (base c d : Z) : Prop :=
  0 ≤ d < base ∧ c = digit_char d ∧ is_valid_digit c base = true ∧ digit_value c = d ∧ 48 ≤ c ≤ 122 ∧ isspace c = false ∧
  (c = 48 → d = 0).

Lemma digit_char_ok base d : 2 ≤ base ≤ 36 → 0 ≤ d < base → is_digit_char base (digit_char d) d.
Proof.
  intros Hb Hd.
  assert (forallb (λ base, forallb (λ d, is_valid_digit (digit_char d) base && (digit_value (digit_char d) =? d) &&
    (48 <=? digit_char d) && (digit_char d <=? 122) && negb (isspace (digit_char d)) &&
    (negb (digit_char d =? 48) || (d =? 0))) (seqZ 0 base)) (seqZ 2 35) = true) as Hall by (vm_compute; reflexivity).
  rewrite forallb_forall in Hall. specialize (Hall base). rewrite <-list_elem_of_In, elem_of_seqZ in Hall.
  specialize (Hall ltac:(lia)). rewrite forallb_forall in Hall. specialize (Hall d).
  rewrite <-list_elem_of_In, elem_of_seqZ in Hall. specialize (Hall ltac:(lia)).
  rewrite !andb_true_iff, orb_true_iff, !negb_true_iff in Hall. destruct Hall as (((((H1&H2)&H3)&H4)&H5)&H6).
  unfold is_digit_char. split_and!; try done; lia.
Qed.

Lemma numeral_chars fuel base n : 2 ≤ base ≤ 36 → 0 ≤ n → Forall (λ c, ∃ d, is_digit_char base c d) (numeral fuel base n).
Proof.
  intros Hb. revert n. induction fuel as [|fuel IH]; intros n Hn; cbn; [constructor|].
  apply Forall_app. split.
  - destruct (n <? base); [constructor|]. apply IH, Z.div_pos; lia.
  - repeat constructor. exists (n mod base). apply digit_char_ok; [done|]. apply Z.mod_pos_bound. lia.
Qed.

Definition num_value (base r : Z) (l : list Z) : Z := foldl (λ r c, r * base + digit_value c) r l.

Lemma num_value_app base r l1 l2 : num_value base r (l1 ++ l2) = num_value base (num_value base r l1) l2.
Proof. apply foldl_app. Qed.

Lemma div_bound base n fuel : 2 ≤ base → n < 2 ^ Z.of_nat (S fuel) → 0 ≤ n → n / base < 2 ^ Z.of_nat fuel.
Proof.
  intros Hb Hn H0. apply Z.div_lt_upper_bound; [lia|]. rewrite Nat2Z.inj_succ, Z.pow_succ_r in Hn by lia.
  assert (0 < 2 ^ Z.of_nat fuel) by (apply Z.pow_pos_nonneg; lia). nia.
Qed.

Lemma numeral_value fuel base n : 2 ≤ base ≤ 36 → 0 ≤ n < 2 ^ Z.of_nat fuel → num_value base 0 (numeral fuel base n) = n.
Proof.
  intros Hb. revert n. induction fuel as [|fuel IH]; intros n Hn.
  { change (2 ^ Z.of_nat 0) with 1 in Hn. cbn. lia. }
  cbn [numeral]. rewrite num_value_app. pose proof (Z.mod_pos_bound n base ltac:(lia)).
  destruct (digit_char_ok base (n mod base) Hb ltac:(done)) as (_&_&_&Hv&_).
  pose proof (Z.div_mod n base ltac:(lia)). destruct (Z.ltb_spec n base) as [Hs|Hs].
  - cbn. rewrite Hv, Z.mod_small by lia. done.
  - rewrite IH; [cbn; rewrite Hv; lia|]. split; [apply Z.div_pos; lia|]. apply div_bound; lia.
Qed.

(** A numeral starts with a zero only if it is the numeral of zero. *)
Lemma numeral_head fuel base n : 2 ≤ base ≤ 36 → 0 ≤ n → (0 < fuel)%nat → n < 2 ^ Z.of_nat fuel →
  ∃ c l, numeral fuel base n = c :: l ∧ (c = 48 → l = []).
Proof.
  intros Hb. revert n. induction fuel as [|fuel IH]; intros n Hn Hf Hlt; [lia|]. cbn [numeral].
  destruct (Z.ltb_spec n base) as [Hs|Hs]; [by eexists _, []|].
  assert (1 ≤ n / base) by (apply Z.div_le_lower_bound; lia).
  destruct fuel as [|fuel]; [change (2 ^ Z.of_nat 1) with 2 in Hlt; lia|].
  destruct (IH (n / base) ltac:(lia) ltac:(lia)) as (c&l&Hcl&Hl); [apply div_bound; lia|].
  rewrite Hcl. exists c, (l ++ [digit_char (n mod base)]). split; [done|]. intros Hc. exfalso.
  rewrite (Hl Hc) in Hcl. assert (num_value base 0 [c] = n / base) as Hv.
  { rewrite <-Hcl. apply numeral_value; [done|]. split; [lia|]. apply div_bound; lia. }
  cbn in Hv. subst c. change (digit_value 48) with 0 in Hv. lia.
Qed.

Lemma num_value_ge base l : 2 ≤ base → ∀ r, 0 ≤ r → Forall (λ c, ∃ d, is_digit_char base c d) l → r ≤ num_value base r l.
Proof.
  intros Hb. induction l as [|c l IH]; intros r Hr Hl; [done|]. apply Forall_cons in Hl as [(d&Hd&_&_&Hv&_) Hl].
  change (num_value base r (c :: l)) with (num_value base (r * base + digit_value c) l).
  specialize (IH (r * base + digit_value c) ltac:(nia) Hl). nia.
Qed.

(** The loop reads the digits up to a character that is none. *)
Lemma parse_signed_spec m base l e : 2 ≤ base ≤ 36 → is_valid_digit e base = false →
  ∀ fuel ch r, bytes_at m ch (l ++ [e]) → Forall (λ c, ∃ d, is_digit_char base c d) l → 0 ≤ r →
  num_value base r l < 2 ^ 63 → (length l < fuel)%nat →
  parse_signed fuel m ch base r false = Done (ch + Z.of_nat (length l), num_value base r l, false).
Proof.
  intros Hb He. induction l as [|c l IH]; intros [|fuel] ch r Hm Hl Hr Hv Hf; cbn [length] in *; try lia; cbn [parse_signed].
  - destruct Hm as [Hm _]. rewrite (load_Done _ _ _ Hm). cbn [mbind outcome_bind]. rewrite He. by rewrite Z.add_0_r.
  - destruct Hm as [Hc Hm]. apply Forall_cons in Hl as [(d&Hd&_&Hval&Hdv&_) Hl]. rewrite (load_Done _ _ _ Hc).
    cbn [mbind outcome_bind]. rewrite Hval, Hdv.
    change (num_value base r (c :: l)) with (num_value base (r * base + digit_value c) l) in *. rewrite Hdv in *.
    pose proof (num_value_ge base l ltac:(lia) (r * base + d) ltac:(nia) Hl).
    rewrite signed_Done by nia. cbn [mbind outcome_bind]. rewrite signed_Done by nia. cbn [mbind outcome_bind].
    rewrite (proj2 (Z.ltb_ge _ _)) by nia. rewrite IH; [|done|done|nia|lia|lia]. f_equal. f_equal. f_equal. lia.
Qed.

Lemma skip_space_spec m ws c : isspace c = false → ∀ fuel a, bytes_at m a (ws ++ [c]) → Forall (λ w, isspace w = true ∧ w ≠ 0) ws →
  (length ws < fuel)%nat → skip_space fuel m a = Done (a + Z.of_nat (length ws)).
Proof.
  intros Hc. induction ws as [|w ws IH]; intros [|fuel] a Hb Hw Hf; cbn [length] in *; try lia; cbn [skip_space];
    destruct Hb as [Hx Hb]; rewrite (load_Done _ _ _ Hx); cbn [mbind outcome_bind].
  - rewrite Hc, andb_false_r. by rewrite Z.add_0_r.
  - apply Forall_cons in Hw as [[Hw1 Hw2] Hw]. rewrite Hw1, (proj2 (Z.eqb_neq w 0) Hw2). cbn [negb andb].
    rewrite IH; [f_equal; lia|done|done|lia].
Qed.

(** The signs a number may start with. *)
Definition sign_text (neg : option bool) : list Z :=
  match neg with None => [] | Some false => [43] | Some true => [45] end.

Definition signed_value (neg : option bool) (n : Z) : Z := match neg with Some true => - n | _ => n end.

(** The parts of [strtoll] after the white space, on a numeral. *)
Lemma read_sign_spec m a c : m !! a = Some c → c ≠ 45 → c ≠ 43 → read_sign m a = Done (1, a).
Proof.
  intros Ha H1 H2. unfold read_sign. rewrite (load_Done _ _ _ Ha). cbn [mbind outcome_bind].
  by rewrite (proj2 (Z.eqb_neq c 45) H1), (proj2 (Z.eqb_neq c 43) H2).
Qed.

(** The digits, with the prefix that base 16 allows: the first zero of a numeral
    is its only digit. *)
Lemma parse_numeral m a base n : 2 ≤ base ≤ 36 → 0 ≤ n < 2 ^ 63 → bytes_at m a (numeral_of base n ++ [0]) →
  ∃ a', skip_hex_prefix m a base = Done a' ∧
    parse_signed (scan_fuel m) m a' base 0 false = Done (a + Z.of_nat (length (numeral_of base n)), n, false).
Proof.
  intros Hb Hn Hm. assert (n < 2 ^ Z.of_nat 64) by (change (2 ^ Z.of_nat 64) with (2 * 2 ^ 63); lia).
  pose proof (numeral_chars 64 base n Hb ltac:(lia)) as Hch. pose proof (numeral_value 64 base n Hb ltac:(lia)) as Hval.
  destruct (numeral_head 64 base n Hb ltac:(lia) ltac:(lia) ltac:(done)) as (c&l&Hcl&Hc48). unfold numeral_of in *.
  assert (is_valid_digit 0 base = false) as H0 by done.
  assert (length (numeral 64 base n) < scan_fuel m)%nat as Hf.
  { apply bytes_at_mapped, mapped_size in Hm. rewrite length_app in Hm. unfold scan_fuel. cbn [length] in Hm. lia. }
  pose proof (parse_signed_spec m base (numeral 64 base n) 0 Hb H0 (scan_fuel m) a 0 Hm Hch ltac:(lia)) as Hp.
  rewrite Hval in Hp. specialize (Hp ltac:(lia) Hf). unfold skip_hex_prefix.
  destruct (Z.eqb_spec base 16) as [->|]; [|by exists a].
  rewrite Hcl in Hm. destruct Hm as [Hc Hm]. rewrite (load_Done _ _ _ Hc). cbn [mbind outcome_bind].
  destruct (Z.eqb_spec c 48) as [->|]; [|by exists a]. specialize (Hc48 eq_refl). subst l.
  destruct Hm as [Hz _]. rewrite (load_Done _ _ _ Hz). cbn [mbind outcome_bind]. eexists. split; [done|].
  change (tolower 0 =? 120) with false. cbv iota. unfold scan_fuel. cbn [parse_signed].
  rewrite (load_Done _ _ _ Hz). cbn [mbind outcome_bind]. rewrite H0, Hcl. cbn [length].
  rewrite Hcl in Hval. cbn in Hval. subst n. done.
Qed.

(** C40: Printing a number of up to 63 bits in any base from 2 to 36, with white
    space and a sign before it, and reading it with [strtoll] gives the number
    back, with [endptr] at the end of the text and no error. *)
Theorem strtoll_reads_numerals m p base ws neg n : bytes_ok m → 2 ≤ base ≤ 36 → 0 ≤ n < 2 ^ 63 →
  Forall (λ w, isspace w = true ∧ w ≠ 0) ws → cstr m p (ws ++ sign_text neg ++ numeral_of base n) →
  strtoll m p base = Done (signed_value neg n,
    Some (p + Z.of_nat (length (ws ++ sign_text neg ++ numeral_of base n))), None).
Proof.
  intros Hok Hb Hn Hw Hs. pose proof (cstr_fuel _ _ _ Hs) as Hf. destruct Hs as [Hs _].
  destruct (numeral_head 64 base n Hb ltac:(lia) ltac:(lia) ltac:(change (2 ^ Z.of_nat 64) with (2 * 2 ^ 63); lia))
    as (c&l&Hcl&_). fold (numeral_of base n) in Hcl.
  pose proof (numeral_chars 64 base n Hb ltac:(lia)) as Hch. fold (numeral_of base n) in Hch. rewrite Hcl in Hch.
  apply Forall_cons in Hch as [(d&_&_&_&_&Hcr&Hsp&_) _].
  rewrite <-!app_assoc in Hs. apply bytes_at_app in Hs as [Hws Hs]. set (a := p + Z.of_nat (length ws)) in *.
  apply bytes_at_app in Hs as [Hsg Hs]. set (b := a + Z.of_nat (length (sign_text neg))) in *.
  destruct (parse_numeral m b base n Hb Hn Hs) as (a'&Hpre&Hpar).
  assert (m !! b = Some c) as Hbc by (rewrite Hcl in Hs; apply Hs).
  assert (skip_space (scan_fuel m) m p = Done a) as Hskip.
  { rewrite !length_app in Hf. destruct neg as [[|]|]; cbn in Hsg.
    - apply (skip_space_spec m ws 45); [done|apply bytes_at_app; split; [done|exact Hsg]|done|lia].
    - apply (skip_space_spec m ws 43); [done|apply bytes_at_app; split; [done|exact Hsg]|done|lia].
    - apply (skip_space_spec m ws c); [done| |done|lia]. apply bytes_at_app. split; [done|]. split; [|done].
      unfold b in Hbc. cbn in Hbc. by rewrite Z.add_0_r in Hbc. }
  assert (read_sign m a = Done (match neg with Some true => -1 | _ => 1 end, b)) as Hsign.
  { unfold b. destruct neg as [[|]|]; cbn in Hsg |- *.
    - unfold read_sign. by rewrite (load_Done _ _ _ (proj1 Hsg)).
    - unfold read_sign. by rewrite (load_Done _ _ _ (proj1 Hsg)).
    - unfold b in Hbc. cbn in Hbc. rewrite Z.add_0_r in *. apply (read_sign_spec m a c); (done || lia). }
  unfold strtoll. rewrite (proj2 (Z.ltb_ge base 0)), (proj2 (Z.ltb_ge 36 base)), (proj2 (Z.eqb_neq base 1)) by lia.
  cbn [orb]. rewrite Hskip. cbn [mbind outcome_bind]. rewrite Hsign. cbn [mbind outcome_bind].
  unfold guess_base. rewrite (proj2 (Z.eqb_neq base 0)) by lia. cbn [mbind outcome_bind].
  rewrite Hpre. cbn [mbind outcome_bind]. rewrite Hpar. cbn [mbind outcome_bind].
  assert (b + Z.of_nat (length (numeral_of base n)) = p + Z.of_nat (length (ws ++ sign_text neg ++ numeral_of base n))) as ->
    by (rewrite !length_app; lia).
  by destruct neg as [[|]|].
Qed.

(** The text "  -ff". *)
Definition text_memory : memory := write_bytes ∅ 100 [32; 32; 45; 102; 102; 0].

Lemma strtoll_reads_numerals_witness : strtoll text_memory 100 16 = Done (-255, Some 105, None).
Proof.
  apply (strtoll_reads_numerals text_memory 100 16 [32; 32] (Some true) 255).
  - apply bytes_ok_write; [by apply map_Forall_empty|repeat constructor; lia].
  - lia.
  - lia.
  - by repeat constructor.
  - change ([32; 32] ++ sign_text (Some true) ++ numeral_of 16 255) with [32; 32; 45; 102; 102].
    split; [apply bytes_at_write|repeat constructor; lia].
Defined.

(** The check for overflow comes too late: it looks at a value that has been
    computed with overflow. The text is 2 ^ 63. *)
Lemma strtoll_overflow_undefined :
  strtoll (write_bytes ∅ 100 (numeral_of 10 (2 ^ 63) ++ [0])) 100 10 = Undef.
Proof. vm_compute. reflexivity. Qed.

(** And [strtoull] misses an overflow after which the product is not smaller
    than before: the text is 30000000000000000000. *)
Lemma strtoull_overflow_missed :
  strtoull (write_bytes ∅ 100 (numeral 64 10 30000000000000000000 ++ [0])) 100 10 =
    Done (30000000000000000000 - 2 ^ 64, Some 120, None).
Proof. vm_compute. reflexivity. Qed.

(** ** Bubble sort *)

Section bubble.
Context {A : Type} (gt : A → A → bool).

(** One pass over the first [n + 1] elements. *)
Fixpoint pass (n : nat) (l : list A) : list A * bool :=
  match n, l with
  | S n, x :: y :: l =>
      if gt x y then let '(l, _) := pass n (x :: l) in (y :: l, true)
      else let '(l, b) := pass n (y :: l) in (x :: l, b)
  | _, _ => (l, false)
  end.

Fixpoint bubble (n : nat) (l : list A) : list A :=
  match n with
  | O => l
  | S n' => let '(l, b) := pass n l in if b then bubble n' l else l
  end.

Lemma pass_perm n l : (pass n l).1 ≡ₚ l.
Proof.
  revert l. induction n as [|n IH]; intros [|x [|y l]]; cbn; try done. destruct (gt x y).
  - specialize (IH (x :: l)). destruct (pass n (x :: l)) as [l' b]. cbn in *. rewrite IH. apply Permutation_swap.
  - specialize (IH (y :: l)). destruct (pass n (y :: l)) as [l' b]. cbn in *. by rewrite IH.
Qed.

Lemma bubble_perm n l : bubble n l ≡ₚ l.
Proof.
  revert l. induction n as [|n IH]; intros l; [done|]. cbn [bubble]. pose proof (pass_perm (S n) l) as Hp.
  destruct (pass (S n) l) as [l' b]. cbn in Hp. destruct b; [by rewrite IH|done].
Qed.

(** The order that the comparison describes. *)
Definition le (x y : A) : Prop := gt x y = false.
Hypothesis le_total : ∀ x y, gt x y = true → gt y x = false.
Hypothesis le_trans : Transitive le.

(** After a pass, the last of the elements passed over is the largest of them,
    and if nothing was exchanged they are in order. *)
Lemma pass_spec n l : length l = S n →
  ∃ l' z, (pass n l).1 = l' ++ [z] ∧ Forall (λ x, le x z) l' ∧
    ((pass n l).2 = false → (pass n l).1 = l ∧ StronglySorted le l).
Proof.
  revert l. induction n as [|n IH]; intros [|x [|y l]] Hlen; try done.
  { exists [], x. cbn. split_and!; [done|constructor|]. intros _. split; [done|by repeat constructor]. }
  injection Hlen as Hlen. cbn [pass]. destruct (gt x y) eqn:Hgt.
  - destruct (IH (x :: l) ltac:(cbn; lia)) as (l'&z&Hl&Hz&_). pose proof (pass_perm n (x :: l)) as Hp.
    destruct (pass n (x :: l)) as [r b]. cbn in *. subst r. exists (y :: l'), z. split_and!; [done| |done].
    constructor; [|done]. assert (x ∈ l' ++ [z]) as Hx by (rewrite Hp; left).
    apply elem_of_app in Hx as [Hx| ->%list_elem_of_singleton].
    + rewrite Forall_forall in Hz. eapply (le_trans y x z); [by apply le_total|by apply Hz].
    + by apply le_total.
  - destruct (IH (y :: l) ltac:(cbn; lia)) as (l'&z&Hl&Hz&Hs). pose proof (pass_perm n (y :: l)) as Hp.
    destruct (pass n (y :: l)) as [r b]. cbn in *. subst r. exists (x :: l'), z. split_and!; [done| |].
    + constructor; [|done]. assert (y ∈ l' ++ [z]) as Hy by (rewrite Hp; left).
      apply elem_of_app in Hy as [Hy| ->%list_elem_of_singleton]; [|done].
      rewrite Forall_forall in Hz. eapply (le_trans x y z); [done|by apply Hz].
    + intros Hb. destruct (Hs Hb) as [Heq Hsort]. split; [by rewrite Heq|]. constructor; [done|].
      constructor; [done|]. apply StronglySorted_inv in Hsort as [_ Hall]. eapply Forall_impl; [exact Hall|].
      intros w Hw. by eapply (le_trans x y w).
Qed.

(** A pass does not look at what comes after. *)
Lemma pass_app n l r : length l = S n → pass n (l ++ r) = ((pass n l).1 ++ r, (pass n l).2).
Proof.
  revert l. induction n as [|n IH]; intros [|x [|y l]] Hlen; try done. injection Hlen as Hlen. cbn [pass app].
  destruct (gt x y).
  - change (x :: l ++ r) with ((x :: l) ++ r). rewrite IH by (cbn; lia). by destruct (pass n (x :: l)).
  - change (y :: l ++ r) with ((y :: l) ++ r). rewrite IH by (cbn; lia). by destruct (pass n (y :: l)).
Qed.

Lemma sorted_app l r : StronglySorted le l → StronglySorted le r → (∀ x y, x ∈ l → y ∈ r → le x y) →
  StronglySorted le (l ++ r).
Proof.
  intros Hl Hr Hlr. induction Hl as [|x l Hl IH Hx]; [done|]. cbn. constructor.
  - apply IH. intros ? ? ?. apply Hlr. by right.
  - apply Forall_app. split; [done|]. apply Forall_forall. intros y Hy. apply Hlr; [left|done].
Qed.

Lemma bubble_sorted n l r : length l = S n → StronglySorted le r → (∀ x y, x ∈ l → y ∈ r → le x y) →
  StronglySorted le (bubble n (l ++ r)).
Proof.
  revert l r. induction n as [|n IH]; intros l r Hlen Hr Hlr.
  { destruct l as [|x [|? ?]]; try done. cbn. apply (sorted_app [x] r); [by repeat constructor|done|done]. }
  cbn [bubble]. rewrite pass_app by done. destruct (pass_spec (S n) l Hlen) as (l'&z&Hl&Hz&Hs).
  pose proof (pass_perm (S n) l) as Hp. destruct (pass (S n) l) as [p b]. cbn in Hl, Hs, Hp |- *. subst p.
  destruct b.
  - rewrite <-app_assoc. apply (IH l' ([z] ++ r)).
    + apply Permutation_length in Hp. rewrite length_app in Hp. cbn in Hp. lia.
    + apply (sorted_app [z] r); [by repeat constructor|done|].
      intros x y ->%list_elem_of_singleton Hy. apply Hlr; [|done]. rewrite <-Hp. apply elem_of_app. right. by left.
    + intros x y Hx [->%list_elem_of_singleton|Hy]%elem_of_app.
      * by rewrite Forall_forall in Hz; apply Hz.
      * apply Hlr; [|done]. rewrite <-Hp. apply elem_of_app. by left.
  - destruct (Hs eq_refl) as [Heq Hsort]. rewrite Heq. by apply sorted_app.
Qed.
End bubble.

(** ** [qsort] on memory *)

(** An array of elements of [sz] bytes each. *)
Definition array_at (m : memory) (base sz : Z) (l : list (list Z)) : Prop :=
  bytes_at m base (concat l) ∧ Forall (λ x, Z.of_nat (length x) = sz) l.

(** The addresses from [a] on and those from [b] on do not meet. *)
Definition apart (a n b k : Z) : Prop := a + n ≤ b ∨ b + k ≤ a.

Lemma array_cons m base sz x l : array_at m base sz (x :: l) ↔
  bytes_at m base x ∧ Z.of_nat (length x) = sz ∧ array_at m (base + sz) sz l.
Proof.
  unfold array_at. cbn [concat]. rewrite bytes_at_app, Forall_cons. split.
  - intros ((H1&H2)&Hx&Hl). rewrite Hx in H2. done.
  - intros (H1&Hx&H2&Hl). rewrite Hx. done.
Qed.

(** Memory that differs from [m] only in two places. *)
Definition same_but (m m' : memory) (a n b k : Z) : Prop :=
  bytes_ok m' ∧ (∀ x, is_Some (m !! x) → is_Some (m' !! x)) ∧
  ∀ x, ¬ (a ≤ x < a + n) → ¬ (b ≤ x < b + k) → m' !! x = m !! x.

Lemma same_but_bytes m m' a n b k x l : same_but m m' a n b k → apart a n x (Z.of_nat (length l)) →
  apart b k x (Z.of_nat (length l)) → bytes_at m x l → bytes_at m' x l.
Proof.
  intros (_&_&Hs) Ha Hb. rewrite !bytes_at_lookup. intros Hl i c Hc. pose proof (lookup_lt_Some _ _ _ Hc).
  unfold apart in *. rewrite Hs by lia. by apply Hl.
Qed.

Lemma same_but_trans m1 m2 m3 a n b k a' n' : same_but m1 m2 a n b k → same_but m2 m3 a' n' b k →
  a ≤ a' → a' + n' ≤ a + n → same_but m1 m3 a n b k.
Proof.
  intros (_&H1&H2) (Hok&H3&H4) Ha Hn. split_and!; [done|eauto|]. intros x Hx Hy. rewrite H4, H2; (done || lia).
Qed.

Lemma same_but_write m a n b k x l : bytes_ok m → Forall (λ c, 0 ≤ c < 256) l →
  (a ≤ x ∧ x + Z.of_nat (length l) ≤ a + n) ∨ (b ≤ x ∧ x + Z.of_nat (length l) ≤ b + k) →
  same_but m (write_bytes m x l) a n b k.
Proof.
  intros Hok Hl Hx. split_and!; [by apply bytes_ok_write| |].
  - intros y Hy. rewrite write_bytes_lookup. case_decide; [|done]. apply lookup_lt_is_Some_2. lia.
  - intros y H1 H2. rewrite write_bytes_lookup, decide_False by lia. done.
Qed.

Section qsort_spec.
Context (compar : memory → Z → Z → outcome Z) (gt : list Z → list Z → bool) (sz : Z).
(** The comparison depends on the bytes of the two elements only. *)
Hypothesis compar_ok : ∀ m a b x y, bytes_at m a x → bytes_at m b y →
  Z.of_nat (length x) = sz → Z.of_nat (length y) = sz → ∃ c, compar m a b = Done c ∧ (0 <? c) = gt x y.
Context (sb : Z).

(** Exchanging two neighbours through the buffer. *)
Lemma exchange_ok m array x y l : bytes_ok m → array_at m array sz (x :: y :: l) → mapped m sb sz →
  apart sb sz array (sz * Z.of_nat (length (x :: y :: l))) →
  ∃ m1 m2 m3, memcpy m sb array sz = Done m1 ∧ memcpy m1 array (array + sz) sz = Done m2 ∧
    memcpy m2 (array + sz) sb sz = Done m3 ∧ array_at m3 array sz (y :: x :: l) ∧
    same_but m m3 array (sz * Z.of_nat (length (x :: y :: l))) sb sz.
Proof.
  intros Hok Ha Hsb Hap. apply array_cons in Ha as (Hx&Hxl&Ha). apply array_cons in Ha as (Hy&Hyl&Ha).
  unfold apart in Hap. cbn [length] in *. rewrite !Nat2Z.inj_succ in *.
  pose proof (bytes_at_ok _ _ _ Hok Hx) as Hxok. pose proof (bytes_at_ok _ _ _ Hok Hy) as Hyok.
  assert (0 ≤ sz) by lia. assert (0 ≤ sz * Z.of_nat (length l)) by nia.
  exists (write_bytes m sb x), (write_bytes (write_bytes m sb x) array y),
    (write_bytes (write_bytes (write_bytes m sb x) array y) (array + sz) x).
  assert (bytes_ok (write_bytes m sb x)) by by apply bytes_ok_write.
  assert (bytes_ok (write_bytes (write_bytes m sb x) array y)) by by apply bytes_ok_write.
  split_and!.
  - apply memcpy_spec; (done || lia).
  - apply memcpy_spec; [done|lia|done|apply bytes_at_write_other; [lia|done]|].
    intros i Hi. rewrite write_bytes_lookup. case_decide; [apply lookup_lt_is_Some_2; lia|].
    apply (bytes_at_mapped _ _ _ Hx). lia.
  - apply memcpy_spec; [done|lia|done| |].
    + apply bytes_at_write_other; [lia|]. apply bytes_at_write.
    + intros i Hi. rewrite !write_bytes_lookup. case_decide; [apply lookup_lt_is_Some_2; lia|].
      case_decide; [apply lookup_lt_is_Some_2; lia|]. apply (bytes_at_mapped _ _ _ Hy). lia.
  - apply array_cons. split_and!; [|done|].
    { apply bytes_at_write_other; [lia|]. apply bytes_at_write. }
    apply array_cons. split_and!; [apply bytes_at_write|done|].
    destruct Ha as [Ha Hall]. split; [|done].
    assert (Z.of_nat (length (concat l)) = sz * Z.of_nat (length l)) as Hlen.
    { clear -Hall. induction Hall as [|z l Hz Hl IH]; cbn; [lia|]. rewrite length_app. lia. }
    do 3 (apply bytes_at_write_other; [lia|]). done.
  - eapply (same_but_trans _ (write_bytes (write_bytes m sb x) array y) _ _ _ _ _ array (sz * Z.succ (Z.succ (Z.of_nat (length l)))));
      [|apply same_but_write; [done|done|left; lia]|lia|lia].
    eapply (same_but_trans _ (write_bytes m sb x) _ _ _ _ _ array (sz * Z.succ (Z.succ (Z.of_nat (length l)))));
      [apply same_but_write; [done|done|right; lia]|apply same_but_write; [done|done|left; lia]|lia|lia].
Qed.

Lemma array_apart m array x l : array_at m array sz (x :: l) →
  apart sb sz array (sz * Z.of_nat (length (x :: l))) → apart sb sz (array + sz) (sz * Z.of_nat (length l)).
Proof. intros (_&Hx&_)%array_cons Hap. unfold apart in *. cbn [length] in *. rewrite Nat2Z.inj_succ in *. lia. Qed.

Lemma qsort_pass_spec n : ∀ m array l sw, length l = S n → bytes_ok m → array_at m array sz l → mapped m sb sz →
  apart sb sz array (sz * Z.of_nat (length l)) →
  ∃ m', qsort_pass compar n m array sz sb sw = Done (m', (pass gt n l).2 || sw) ∧
    array_at m' array sz (pass gt n l).1 ∧ same_but m m' array (sz * Z.of_nat (length l)) sb sz.
Proof.
  induction n as [|n IH]; intros m array l sw Hlen Hok Ha Hsb Hap.
  { destruct l as [|x [|? ?]]; try done. exists m. cbn. split_and!; [done|done|]. by split_and!. }
  destruct l as [|x [|y l]]; try done. injection Hlen as Hlen. cbn [qsort_pass].
  pose proof (proj1 (array_cons _ _ _ _ _) Ha) as (Hx&Hxl&Ha2). pose proof (proj1 (array_cons _ _ _ _ _) Ha2) as (Hy&Hyl&Ha3).
  destruct (compar_ok m array (array + sz) x y Hx Hy Hxl Hyl) as (c&->&Hc). cbn [mbind outcome_bind]. rewrite Hc.
  cbn [pass]. destruct (gt x y) eqn:Hgt.
  - destruct (exchange_ok m array x y l Hok Ha Hsb Hap) as (m1&m2&m3&->&H2&H3&Ha'&Hs). cbn [mbind outcome_bind].
    rewrite H2. cbn [mbind outcome_bind]. rewrite H3. cbn [mbind outcome_bind].
    pose proof (proj1 (array_cons _ _ _ _ _) Ha') as (Hy'&_&Ha2').
    destruct (IH m3 (array + sz) (x :: l) true) as (m'&->&Har&Hs'); [cbn; lia|apply Hs|done| | |].
    { intros i Hi. apply Hs. by apply Hsb. }
    { eapply array_apart; [exact Ha'|done]. }
    exists m'. destruct (pass gt n (x :: l)) as [l' b]. cbn in *. split_and!; [by rewrite orb_true_r| |].
    + apply array_cons. split_and!; [|done|done]. eapply same_but_bytes; [exact Hs'| | |done]; unfold apart in *; lia.
    + eapply same_but_trans; [exact Hs|exact Hs'|lia|lia].
  - destruct (IH m (array + sz) (y :: l) sw) as (m'&->&Har&Hs'); [cbn; lia|done|done|done| |].
    { eapply array_apart; [exact Ha|done]. }
    exists m'. destruct (pass gt n (y :: l)) as [l' b]. cbn in *. split_and!; [done| |].
    + apply array_cons. split_and!; [|done|done]. eapply same_but_bytes; [exact Hs'| | |done]; unfold apart in *; lia.
    + eapply (same_but_trans m m); [|exact Hs'|lia|lia]. by split_and!.
Qed.

Lemma array_app m base l1 l2 : array_at m base sz (l1 ++ l2) ↔
  array_at m base sz l1 ∧ array_at m (base + sz * Z.of_nat (length l1)) sz l2.
Proof.
  revert base. induction l1 as [|x l1 IH]; intros base; cbn [app].
  - cbn [length]. replace (base + sz * Z.of_nat 0) with base by lia. unfold array_at at 2. cbn. split; [|tauto].
    intros H. split; [by split|done].
  - rewrite !array_cons, IH. replace (base + sz * Z.of_nat (length (x :: l1))) with (base + sz + sz * Z.of_nat (length l1))
      by (cbn [length]; lia). tauto.
Qed.

Lemma array_length m base l : array_at m base sz l → Z.of_nat (length (concat l)) = sz * Z.of_nat (length l).
Proof. intros [_ Hall]. induction Hall as [|z l Hz Hl IH]; cbn; [lia|]. rewrite length_app. lia. Qed.

(** A pass over part of an array leaves the rest alone. *)
Lemma qsort_pass_app n m base l r : length l = S n → bytes_ok m → array_at m base sz (l ++ r) → mapped m sb sz →
  apart sb sz base (sz * Z.of_nat (length (l ++ r))) → 0 ≤ sz →
  ∃ m', qsort_pass compar n m base sz sb false = Done (m', (pass gt n (l ++ r)).2) ∧
    array_at m' base sz (pass gt n (l ++ r)).1 ∧ same_but m m' base (sz * Z.of_nat (length (l ++ r))) sb sz.
Proof.
  intros Hlen Hok Ha Hsb Hap Hsz. pose proof (proj1 (array_app _ _ _ _) Ha) as [Hl Hr]. rewrite length_app in *.
  destruct (qsort_pass_spec n m base l false Hlen Hok Hl Hsb) as (m'&->&Ha'&Hs); [unfold apart in *; nia|].
  exists m'. rewrite pass_app by done. cbn [fst snd]. rewrite orb_false_r. split_and!; [done| |].
  - apply array_app. split; [done|]. rewrite (Permutation_length (pass_perm gt n l)).
    split; [|by destruct Hr]. eapply same_but_bytes; [exact Hs| | |by destruct Hr];
      rewrite (array_length _ _ _ Hr); unfold apart in *; nia.
  - eapply (same_but_trans m m); [|exact Hs|lia|nia]. by split_and!.
Qed.

Lemma qsort_loop_spec n : ∀ m base l r, length l = S n → bytes_ok m → array_at m base sz (l ++ r) → mapped m sb sz →
  apart sb sz base (sz * Z.of_nat (length (l ++ r))) → 0 ≤ sz →
  ∃ m', qsort_loop compar n m base sz sb = Done m' ∧ array_at m' base sz (bubble gt n (l ++ r)) ∧
    same_but m m' base (sz * Z.of_nat (length (l ++ r))) sb sz.
Proof.
  induction n as [|n IH]; intros m base l r Hlen Hok Ha Hsb Hap Hsz.
  { exists m. split_and!; [done|done|]. by split_and!. }
  cbn [qsort_loop bubble]. destruct (qsort_pass_app (S n) m base l r Hlen Hok Ha Hsb Hap Hsz) as (m1&->&Ha1&Hs1).
  cbn [mbind outcome_bind]. rewrite pass_app in * by done. pose proof (Permutation_length (pass_perm gt (S n) l)) as Hpl.
  destruct (pass gt (S n) l) as [l' b]. cbn in Ha1, Hpl |- *. destruct b; [|by exists m1].
  destruct l' as [|z l' _] using rev_ind; [cbn in Hpl; lia|]. rewrite length_app in Hpl. cbn in Hpl.
  rewrite <-app_assoc in *. destruct (IH m1 base l' ([z] ++ r)) as (m2&->&Ha2&Hs2); [lia|apply Hs1|done| | |done|].
  { intros i Hi. apply Hs1. by apply Hsb. }
  { rewrite !length_app in *. cbn. unfold apart in *. nia. }
  exists m2. split_and!; [done|done|]. eapply same_but_trans; [exact Hs1|exact Hs2|lia|].
  rewrite !length_app. cbn. nia.
Qed.
End qsort_spec.

(** C25: [qsort] ends for every array of at most 2 ^ 31 elements and every comparison that is a total
    preorder of the elements' bytes, with the elements in order, each as often as
    before, and no other memory changed but its buffer. *)
Theorem qsort_sorts compar gt m base nmemb sz sb l :
  (∀ m a b x y, bytes_at m a x → bytes_at m b y → Z.of_nat (length x) = sz → Z.of_nat (length y) = sz →
     ∃ c, compar m a b = Done c ∧ (0 <? c) = gt x y) →
  (∀ x y, gt x y = true → gt y x = false) → Transitive (le gt) →
  bytes_ok m → 0 ≤ sz → array_at m base sz l → nmemb = Z.of_nat (length l) → nmemb ≤ 2 ^ 31 → mapped m sb sz →
  apart sb sz base (sz * nmemb) →
  ∃ m' l', qsort compar m base nmemb sz sb = Done m' ∧ array_at m' base sz l' ∧ l' ≡ₚ l ∧ StronglySorted (le gt) l' ∧
    ∀ x, ¬ (base ≤ x < base + sz * nmemb) → ¬ (sb ≤ x < sb + sz) → m' !! x = m !! x.
Proof.
  intros Hcmp Htot Htr Hok Hsz Ha -> H31 Hsb Hap. unfold qsort. destruct l as [|x l].
  { exists m, []. split_and!; (done || constructor). }
  rewrite (proj2 (Z.eqb_neq _ 0)) by (cbn [length]; lia).
  rewrite s32_id by (cbn [length] in *; lia). rewrite (proj2 (Z.ltb_ge _ 0)) by (cbn [length]; lia).
  replace (Z.to_nat (Z.of_nat (length (x :: l)) - 1)) with (length l) by (cbn [length]; lia).
  destruct (qsort_loop_spec compar gt sz Hcmp sb (length l) m base (x :: l) [] eq_refl Hok) as (m'&->&Ha'&Hs);
    rewrite ?app_nil_r; try done.
  rewrite app_nil_r in *. exists m', (bubble gt (length l) (x :: l)). split_and!; [done|done|apply bubble_perm| |apply Hs].
  rewrite <-(app_nil_r (x :: l)). apply bubble_sorted; [done|done|done|constructor|by intros ?? _ ?%not_elem_of_nil].
Qed.

(** Bytes sorted in descending order. *)
Definition sample_compar (m : memory) (a b : Z) : outcome Z := x ← load m a; y ← load m b; Done (y - x).
Definition sample_gt (x y : list Z) : bool := hd 0 x <? hd 0 y.

Lemma qsort_sorts_witness : ∃ m' l', qsort sample_compar (write_bytes ∅ 100 [1; 3; 2; 255]) 100 3 1 103 = Done m' ∧
  array_at m' 100 1 l' ∧ l' ≡ₚ [[1]; [3]; [2]].
Proof.
  destruct (qsort_sorts sample_compar sample_gt (write_bytes ∅ 100 [1; 3; 2; 255]) 100 3 1 103 [[1]; [3]; [2]])
    as (m'&l'&H1&H2&H3&_).
  - intros m a b [|x [|? ?]] [|y [|? ?]] Hx Hy Hlx Hly; cbn in Hlx, Hly; try lia. exists (y - x).
    unfold sample_compar. rewrite (load_Done _ _ _ (proj1 Hx)), (load_Done _ _ _ (proj1 Hy)). split; [done|]. unfold sample_gt. cbn [hd]. lia.
  - unfold sample_gt. intros x y. lia.
  - unfold le, sample_gt. intros x y z. lia.
  - apply bytes_ok_write; [by apply map_Forall_empty|repeat constructor; lia].
  - lia.
  - split; [vm_compute; by split_and!|repeat constructor].
  - done.
  - lia.
  - intros i Hi. replace i with 0 by lia. by eexists.
  - right. lia.
  - by exists m', l'.
Defined.
