(* ===== verification/LibcEnv.v ===== *)
(** * The environment (libraries/libc/stdlib.c)

    The variables that a program gets ([_start] of crt0.c), and [getenv],
    [setenv], [putenv], [unsetenv] and [clearenv].  The array of the pointers
    is in memory: the one that the program was started with is on its stack,
    those that take its place are allocated, and freed when they are replaced.
    The strings are values: none is ever freed, and a program that goes on to
    change the string that it gave to [putenv] is left out. *)

From stdpp Require Import base numbers list option gmap sets.
From S2P Require Import Prelude.
From S2P Require Import ByteMem.
From S2P Require Import CString.

Local Open Scope Z_scope.

(** ** The state *)

(** An array of pointers to strings, and nulls. *)
Abbreviation env_array := (list (option (list Z))).

(** The variables [environ] and [__original_environ], which are addresses of arrays; the array on the stack, at [__original_environ]; the arrays that [malloc] made room for, and how often it was called. *)
Record env_state : Type := mk_env { environ : Z; original_environ : Z; env_stack : env_array; env_heap : gmap Z env_array; env_mallocs : nat }.

(** [_start(argc, argv, env)]. *)
Definition start (env : Z) (array : env_array) : env_state := mk_env env env array ∅ 0.

(** The array that [environ] points to. *)
Definition env_at (st : env_state) : outcome env_array :=
  if environ st =? 0 then Undef
  else if environ st =? original_environ st then Done (env_stack st)
  else match env_heap st !! environ st with Some env => Done env | None => Undef end.
Definition env_store (st : env_state) (env : env_array) : env_state :=
  if environ st =? original_environ st then mk_env (environ st) (original_environ st) env (env_heap st) (env_mallocs st)
  else mk_env (environ st) (original_environ st) (env_stack st) (<[environ st := env]> (env_heap st)) (env_mallocs st).

(** [free]: only of what [malloc] gave; the null pointer is ignored. *)
Definition env_free (st : env_state) (p : Z) : outcome env_state :=
  if p =? 0 then Done st
  else match env_heap st !! p with
  | Some _ => Done (mk_env (environ st) (original_environ st) (env_stack st) (delete p (env_heap st)) (env_mallocs st))
  | None => Undef
  end.

Definition env_get (env : env_array) (i : Z) : outcome (option (list Z)) :=
  if (0 <=? i) && (i <? Z.of_nat (length env)) then
    match env !! Z.to_nat i with Some e => Done e | None => Undef end
  else Undef.
Definition env_set (env : env_array) (i : Z) (e : option (list Z)) : outcome env_array :=
  if (0 <=? i) && (i <? Z.of_nat (length env)) then Done (<[Z.to_nat i := e]> env) else Undef.

(** The loop of [__resize_environ] that copies the entries, at most [n] and up to the first null. *)
Fixpoint copy_entries (n : nat) (env : env_array) : outcome (list (list Z)) :=
  match n, env with
  | O, _ | S _, None :: _ => Done []
  | S n, Some s :: env => l ← copy_entries n env; Done (s :: l)
  | S _, [] => Undef
  end.

(** [strchr(s, '=')], as an index. *)
Fixpoint index_eq (s : list Z) : option nat :=
  match s with
  | [] => None
  | c :: s => if c =? 61 then Some 0%nat else S <$> index_eq s
  end.

(** Whether an entry is the variable [name]: the names have the same length and
    [strncmp] finds no difference. *)
Definition is_variable (name cur_env : list Z) : bool :=
  match index_eq cur_env with
  | Some n => (Z.of_nat (length name) =? Z.of_nat n) && (str_compare (take n cur_env) (take n name) =? 0)
  | None => false
  end.

(** The loops over [environ]: the index of the variable, or of the null. *)
Fixpoint find_variable (name : list Z) (env : env_array) (i : Z) : outcome (Z * option (list Z)) :=
  match env with
  | [] => Undef
  | None :: _ => Done (i, None)
  | Some cur_env :: env => if is_variable name cur_env then Done (i, Some cur_env) else find_variable name env (i + 1)
  end.

(** The loop of [unsetenv] that moves the entries after [index] down. *)
Fixpoint shift_down (fuel : nat) (env : env_array) (index : Z) : outcome (Z * env_array) :=
  match fuel with
  | O => NoFuel
  | S fuel =>
      e ← env_get env index;
      match e with
      | None => Done (index, env)
      | Some _ => e ← env_get env (index + 1); env ← env_set env index e; shift_down fuel env (index + 1)
      end
  end.

(** ** The operations *)

Definition getenv (st : env_state) (name : list Z) : outcome (option (list Z)) :=
  if environ st =? 0 then Done None
  else
    env ← env_at st;
    '(_, e) ← find_variable name env 0;
    Done (match e with Some s => Some (drop (S (length name)) s) | None => None end).

Section environment.
(** The address that [malloc] returns, which may depend on the arrays that are there and on the calls before. *)
Context (malloc : nat → gmap Z env_array → Z → Z).

(** [__resize_environ(new_size)]: the first entries, and nulls, in a new array; the old one is freed if it was allocated.  The result of [malloc] is not checked. *)
Definition resize_environ (st : env_state) (new_size : Z) : outcome env_state :=
  if new_size <? 2 ^ 30 - 1 then
    let new_environ := malloc (env_mallocs st) (env_heap st) (4 * (new_size + 1)) in
    if new_environ =? 0 then Undef
    else
      old ← (if environ st =? 0 then Done [] else env ← env_at st; copy_entries (Z.to_nat new_size) env);
      let array := (Some <$> old) ++ replicate (Z.to_nat new_size + 1 - length old) None in
      let old_environ := environ st in
      let st := mk_env new_environ (original_environ st) (env_stack st) (<[new_environ := array]> (env_heap st)) (S (env_mallocs st)) in
      if negb (old_environ =? original_environ st) then env_free st old_environ else Done st
  else Undef.

(** [if(!environ) __resize_environ(0);]. *)
Definition make_environ (st : env_state) : outcome env_state := if environ st =? 0 then resize_environ st 0 else Done st.

(** Put an entry in the place of the variable, or at the end. *)
Definition put_variable (st : env_state) (name new_env : list Z) : outcome env_state :=
  env ← env_at st;
  '(i, e) ← find_variable name env 0;
  st ← match e with Some _ => Done st | None => resize_environ st (i + 1) end;
  env ← env_at st;
  env ← env_set env i (Some new_env);
  Done (env_store st env).

Definition setenv (st : env_state) (name value : list Z) (overwrite : bool) : outcome env_state :=
  st ← make_environ st;
  old ← getenv st name;
  if negb overwrite && (match old with Some _ => true | None => false end) then Done st
  else put_variable st name (name ++ 61 :: value).

(** [putenv(string)]: with no ['='] the null pointer that was found is passed to
    [unsetenv], which reads it. *)
Definition putenv (st : env_state) (string : list Z) : outcome env_state :=
  st ← make_environ st;
  match index_eq string with
  | None => Undef
  | Some len => put_variable st (take len string) string
  end.

Definition clearenv (st : env_state) : outcome env_state := resize_environ st 0.

Definition unsetenv (st : env_state) (name : list Z) : outcome env_state :=
  st ← make_environ st;
  env ← env_at st;
  '(i, e) ← find_variable name env 0;
  match e with
  | None => Done st
  | Some _ =>
      '(index, env) ← shift_down (S (length env)) env i;
      resize_environ (env_store st env) (u32 (index - 1))
  end.

(** *** Runs *)

Inductive env_op : Type :=
  | ESet (name value : list Z) (overwrite : bool)
  | EPut (string : list Z)
  | EUnset (name : list Z)
  | EClear.

Definition env_exec (st : env_state) (op : env_op) : outcome env_state :=
  match op with
  | ESet name value overwrite => setenv st name value overwrite
  | EPut string => putenv st string
  | EUnset name => unsetenv st name
  | EClear => clearenv st
  end.

Fixpoint env_run (st : env_state) (ops : list env_op) : outcome env_state :=
  match ops with [] => Done st | op :: ops => st ← env_exec st op; env_run st ops end.
End environment.

(** ** The environment as a map *)

(** The characters of a string, and of a name. *)
Definition is_string (s : list Z) : Prop := Forall (λ c, 0 < c < 256) s.
Definition is_name (s : list Z) : Prop := is_string s ∧ 61 ∉ s.

Definition entry (kv : list Z * list Z) : list Z := kv.1 ++ 61 :: kv.2.

(** The array holds the variables [kv], each once, then a null. *)
Definition env_rep (env : env_array) (kv : list (list Z * list Z)) : Prop :=
  (∃ tail, env = (Some <$> (entry <$> kv)) ++ None :: tail) ∧ NoDup kv.*1 ∧ Forall (λ x, is_name x.1) kv.

(** The map that the variables make. *)
Definition env_map (kv : list (list Z * list Z)) (M : gmap (list Z) (list Z)) : Prop :=
  ∀ n v, (n, v) ∈ kv ↔ M !! n = Some v.

Lemma index_eq_name n v : 61 ∉ n → index_eq (n ++ 61 :: v) = Some (length n).
Proof.
  induction n as [|c n IH]; [done|]. intros [Hc Hn]%not_elem_of_cons. cbn.
  rewrite (proj2 (Z.eqb_neq c 61)) by done. by rewrite IH.
Qed.

Lemma is_variable_entry name n v : is_name n → is_string name → is_variable name (entry (n, v)) = bool_decide (name = n).
Proof.
  intros [Hs Hn] Hname. unfold is_variable, entry. cbn [fst snd]. rewrite index_eq_name by done.
  destruct (Z.eqb_spec (Z.of_nat (length name)) (Z.of_nat (length n))) as [Hlen|Hlen]; cbn [andb].
  - rewrite take_app_length. replace (length n) with (length name) by lia. rewrite take_ge by done.
    destruct (decide (name = n)) as [->|Hne].
    + rewrite bool_decide_true by done. apply Z.eqb_eq. by apply str_compare_eq.
    + rewrite bool_decide_false by done. apply Z.eqb_neq. intros He. apply Hne. symmetry. by apply str_compare_eq.
  - rewrite bool_decide_false; [done|]. by intros ->.
Qed.

(** Looking for a variable. *)
Lemma find_variable_spec name kv tail : is_string name → Forall (λ x, is_name x.1) kv → ∀ i,
  ((name ∉ kv.*1) ∧ find_variable name ((Some <$> (entry <$> kv)) ++ None :: tail) i = Done (i + Z.of_nat (length kv), None)) ∨
  ∃ kv1 v kv2, kv = kv1 ++ (name, v) :: kv2 ∧
    find_variable name ((Some <$> (entry <$> kv)) ++ None :: tail) i = Done (i + Z.of_nat (length kv1), Some (entry (name, v))).
Proof.
  intros Hname Hkv. induction Hkv as [|[n v] kv Hn Hkv IH]; intros i; cbn [fmap list_fmap app find_variable].
  { left. split; [by intros ?%not_elem_of_nil|]. cbn. by rewrite Z.add_0_r. }
  rewrite is_variable_entry by done. case_bool_decide as Heq.
  { subst n. right. exists [], v, kv. split; [done|]. cbn. by rewrite Z.add_0_r. }
  destruct (IH (i + 1)) as [[Hni ->]|(kv1&v'&kv2&->& ->)].
  - left. split; [by apply not_elem_of_cons|]. f_equal. f_equal. cbn. lia.
  - right. exists ((n, v) :: kv1), v', kv2. split; [done|]. f_equal. f_equal. cbn. lia.
Qed.

Lemma env_map_mid kv1 name v kv2 M : NoDup (kv1 ++ (name, v) :: kv2).*1 → env_map (kv1 ++ (name, v) :: kv2) M →
  (∀ w, env_map (kv1 ++ (name, w) :: kv2) (<[name := w]> M)) ∧ env_map (kv1 ++ kv2) (delete name M) ∧ M !! name = Some v.
Proof.
  intros Hnd HM. rewrite fmap_app, fmap_cons in Hnd. cbn in Hnd. apply NoDup_app in Hnd as (_&H12&[H2 _]%NoDup_cons).
  assert (name ∉ kv1.*1) as H1 by (intros Hin; apply (H12 _ Hin); by left).
  assert (∀ n x, (n, x) ∈ kv1 ++ kv2 → n ≠ name) as Hne.
  { intros n x [Hin|Hin]%elem_of_app ->; [apply H1|apply H2]; apply list_elem_of_fmap; by exists (name, x). }
  assert (∀ n x w, (n, x) ∈ kv1 ++ (name, w) :: kv2 ↔ (n, x) ∈ kv1 ++ kv2 ∨ (n = name ∧ x = w)) as Hmid.
  { intros n x w. rewrite !elem_of_app, elem_of_cons. split; [|naive_solver].
    intros [?|[[= -> ->]|?]]; auto. }
  assert (∀ n x, n ≠ name → (n, x) ∈ kv1 ++ kv2 ↔ M !! n = Some x) as HM'.
  { intros n x Hn. rewrite <-(HM n x), Hmid. naive_solver. }
  split_and!.
  - intros w n x. rewrite Hmid. destruct (decide (n = name)) as [->|Hn].
    + rewrite lookup_insert_eq. split; [intros [?%Hne|[_ ->]]; done|intros [= ->]; by right].
    + rewrite lookup_insert_ne, <-(HM' n x) by done. naive_solver.
  - intros n x. destruct (decide (n = name)) as [->|Hn].
    + rewrite lookup_delete_eq. split; [by intros ?%Hne|done].
    + rewrite lookup_delete_ne by done. by apply HM'.
  - apply HM, Hmid. by right.
Qed.

Lemma env_map_absent kv name M : name ∉ kv.*1 → env_map kv M →
  M !! name = None ∧ ∀ w, env_map (kv ++ [(name, w)]) (<[name := w]> M).
Proof.
  intros Hni HM. assert (M !! name = None) as HN.
  { apply eq_None_not_Some. intros [v Hv]. apply HM in Hv. apply Hni, list_elem_of_fmap. by exists (name, v). }
  split; [done|]. intros w n x. rewrite elem_of_app, list_elem_of_singleton, (HM n x). destruct (decide (n = name)) as [->|Hn].
  - rewrite lookup_insert_eq, HN. split; [intros [?|[= ->]]; done|intros [= ->]; by right].
  - rewrite lookup_insert_ne by done. naive_solver.
Qed.

Lemma env_set_app l1 o l2 i e : i = Z.of_nat (length l1) → env_set (l1 ++ o :: l2) i e = Done (l1 ++ e :: l2).
Proof.
  intros ->. unfold env_set. rewrite length_app. cbn [length]. rewrite (proj2 (Z.leb_le 0 _)), (proj2 (Z.ltb_lt _ _)) by lia.
  cbn [andb]. rewrite Nat2Z.id. f_equal. rewrite insert_app_r_alt, Nat.sub_diag by lia. done.
Qed.

Lemma env_get_app l1 o l2 i : i = Z.of_nat (length l1) → env_get (l1 ++ o :: l2) i = Done o.
Proof.
  intros ->. unfold env_get. rewrite length_app. cbn [length]. rewrite (proj2 (Z.leb_le 0 _)), (proj2 (Z.ltb_lt _ _)) by lia.
  cbn [andb]. rewrite Nat2Z.id, lookup_app_r, Nat.sub_diag by lia. done.
Qed.

Lemma env_get_at (l1 : list (list Z)) o l2 : env_get ((Some <$> l1) ++ o :: l2) (Z.of_nat (length l1)) = Done o.
Proof. apply env_get_app. by rewrite length_fmap. Qed.
Lemma env_get_next (l1 : list (list Z)) o o' l2 :
  env_get ((Some <$> l1) ++ o :: o' :: l2) (Z.of_nat (length l1) + 1) = Done o'.
Proof.
  change (o :: o' :: l2) with ([o] ++ o' :: l2). rewrite app_assoc. apply env_get_app.
  rewrite length_app, length_fmap. cbn. lia.
Qed.
Lemma env_set_at (l1 : list (list Z)) o l2 e :
  env_set ((Some <$> l1) ++ o :: l2) (Z.of_nat (length l1)) e = Done ((Some <$> l1) ++ e :: l2).
Proof. apply env_set_app. by rewrite length_fmap. Qed.

(** The entries after the one that is removed move down; the last place that is
    left holds a null. *)
Lemma shift_down_spec l2 tail : ∀ fuel l1 e, (length l2 + 1 < fuel)%nat →
  shift_down fuel ((Some <$> l1) ++ Some e :: (Some <$> l2) ++ None :: tail) (Z.of_nat (length l1)) =
    Done (Z.of_nat (length l1 + 1 + length l2), (Some <$> (l1 ++ l2)) ++ None :: None :: tail).
Proof.
  induction l2 as [|x l2 IH]; intros [|fuel] l1 e Hf; cbn [length] in *; try lia; cbn [shift_down];
    rewrite env_get_at; cbn [mbind outcome_bind fmap list_fmap app]; rewrite env_get_next; cbn [mbind outcome_bind];
    rewrite env_set_at; cbn [mbind outcome_bind].
  - destruct fuel as [|fuel]; [lia|]. cbn [shift_down]. rewrite env_get_next. cbn [mbind outcome_bind].
    rewrite app_nil_r. f_equal. f_equal. lia.
  - specialize (IH fuel (l1 ++ [x]) x ltac:(lia)). rewrite fmap_app, <-!app_assoc, length_app in IH. cbn [length fmap list_fmap app] in IH.
    replace (Z.of_nat (length l1) + 1) with (Z.of_nat (length l1 + 1)) by lia. rewrite IH. f_equal. f_equal. lia.
Qed.


Definition env_spec (M : gmap (list Z) (list Z)) (op : env_op) : option (gmap (list Z) (list Z)) :=
  match op with
  | ESet name value overwrite => Some (if overwrite || bool_decide (M !! name = None) then <[name := value]> M else M)
  | EPut string => len ← index_eq string; Some (<[take len string := drop (S len) string]> M)
  | EUnset name => Some (delete name M)
  | EClear => Some ∅
  end.

Fixpoint env_specs (M : gmap (list Z) (list Z)) (ops : list env_op) : option (gmap (list Z) (list Z)) :=
  match ops with [] => Some M | op :: ops => M ← env_spec M op; env_specs M ops end.

(** The arguments are strings, and the names hold no ['=']. *)
Definition env_op_ok (op : env_op) : Prop :=
  match op with
  | ESet name value _ => is_name name ∧ is_string value
  | EPut string => is_string string
  | EUnset name => is_name name
  | EClear => True
  end.

Lemma index_eq_split string len : is_string string → index_eq string = Some len → string = entry (take len string, drop (S len) string) ∧ is_name (take len string).
Proof.
  intros Hs. revert len. induction Hs as [|c string Hc Hs IH]; intros len; cbn; [done|].
  destruct (Z.eqb_spec c 61) as [->|Hne]; [intros [= <-]; split; [done|split; [constructor|by intros ?%not_elem_of_nil]]|].
  destruct (index_eq string) as [k|]; cbn; [|done]. intros [= <-]. destruct (IH k eq_refl) as (E&Hn&He). split; [cbn; by f_equal|].
  split; [by constructor|]. by apply not_elem_of_cons.
Qed.

Lemma copy_all l tail : ∀ n, (length l ≤ n)%nat → copy_entries n ((Some <$> l) ++ None :: tail) = Done l.
Proof. induction l as [|x l IH]; intros [|n] Hn; cbn in *; try done; [lia|]. by rewrite IH by lia. Qed.

(** ** The arrays in memory *)

Section memory.
Context (malloc : nat → gmap Z env_array → Z → Z) (original : Z).
(** [malloc] gives room of its own. *)
Context (Hmalloc : ∀ n heap size, malloc n heap size ≠ 0 ∧ malloc n heap size ≠ original ∧ heap !! malloc n heap size = None).

(** [environ] points to the array [env], on the stack or allocated; nothing else is allocated. *)
Definition holds (st : env_state) (env : env_array) : Prop :=
  environ st ≠ 0 ∧ original_environ st = original ∧
  ((environ st = original ∧ env_stack st = env ∧ env_heap st = ∅) ∨ (environ st ≠ original ∧ env_heap st = {[environ st := env]})).

Lemma holds_at st env : holds st env → env_at st = Done env.
Proof.
  intros (H0&Ho&Hc). unfold env_at. rewrite (proj2 (Z.eqb_neq _ _) H0), Ho. destruct Hc as [(->&->&_)|(Hne&->)]; [by rewrite Z.eqb_refl|].
  by rewrite (proj2 (Z.eqb_neq _ _) Hne), lookup_singleton_eq.
Qed.

Lemma holds_store st env env' : holds st env → holds (env_store st env') env'.
Proof.
  intros (H0&Ho&Hc). unfold env_store, holds. rewrite Ho. destruct Hc as [(E&_&Eh)|(Hne&Eh)].
  - rewrite E, Z.eqb_refl. cbn. rewrite E in H0. split_and!; [done|done|by left].
  - rewrite (proj2 (Z.eqb_neq _ _) Hne). cbn. split_and!; [done|done|right]. by rewrite Eh, insert_singleton_eq.
Qed.

Lemma holds_one st env : holds st env → (size (env_heap st) ≤ 1)%nat.
Proof. intros (_&_&[(_&_&->)|(_&->)]); [rewrite map_size_empty; lia|by rewrite map_size_singleton]. Qed.

Lemma make_holds st env : holds st env → make_environ malloc st = Done st.
Proof. intros (H0&_). unfold make_environ. by rewrite (proj2 (Z.eqb_neq _ _) H0). Qed.

Lemma resize_holds st env n old : holds st env → n < 2 ^ 30 - 1 → copy_entries (Z.to_nat n) env = Done old →
  ∃ st', resize_environ malloc st n = Done st' ∧ holds st' ((Some <$> old) ++ replicate (Z.to_nat n + 1 - length old) None).
Proof.
  intros Hh Hn Hc. pose proof (holds_at _ _ Hh) as Hat. destruct Hh as (H0&Ho&Hcase). unfold resize_environ. rewrite (proj2 (Z.ltb_lt _ _) Hn).
  destruct (Hmalloc (env_mallocs st) (env_heap st) (4 * (n + 1))) as (Hm0&Hmo&Hmf). set (p := malloc _ _ _) in *. rewrite (proj2 (Z.eqb_neq _ _) Hm0), (proj2 (Z.eqb_neq _ _) H0), Hat. cbn [mbind outcome_bind]. rewrite Hc. cbn [mbind outcome_bind original_environ]. rewrite Ho.
  destruct Hcase as [(E&_&Eh)|(Hne&Eh)].
  - rewrite E, Z.eqb_refl. cbn [negb]. eexists. split; [done|]. split_and!; [done|done|right]. cbn. by rewrite Eh.
  - rewrite (proj2 (Z.eqb_neq _ _) Hne). cbn [negb]. unfold env_free. rewrite (proj2 (Z.eqb_neq _ _) H0). cbn. rewrite Eh in Hmf |- *. apply lookup_singleton_None in Hmf. rewrite lookup_insert_ne, lookup_singleton_eq by done. eexists. split; [done|]. split_and!; [done|done|right]. split; [done|]. cbn.
    by rewrite delete_insert_ne, delete_singleton_eq, insert_empty by done.
Qed.

Lemma resize_all st l tail n : holds st ((Some <$> l) ++ None :: tail) → Z.of_nat (length l) ≤ n < 2 ^ 30 - 1 →
  ∃ st', resize_environ malloc st n = Done st' ∧ holds st' ((Some <$> l) ++ replicate (Z.to_nat n + 1 - length l) None).
Proof. intros Hh Hn. eapply resize_holds; [exact Hh|lia|]. apply copy_all. lia. Qed.

(** ** The operations on the map *)

(** The environment holds a map, in at most [n] variables. *)
Definition environ_rep (st : env_state) (M : gmap (list Z) (list Z)) (n : nat) : Prop :=
  ∃ env kv, holds st env ∧ env_rep env kv ∧ env_map kv M ∧ (length kv ≤ n)%nat.

Lemma getenv_rep st M n name : environ_rep st M n → is_name name → getenv st name = Done (M !! name).
Proof.
  intros (env&kv&Hh&((tail&->)&Hnd&Hall)&HM&_) Hname. unfold getenv. rewrite (holds_at _ _ Hh), (proj2 (Z.eqb_neq _ _) (proj1 Hh)). cbn [mbind outcome_bind].
  destruct (find_variable_spec name kv tail (proj1 Hname) Hall 0) as [[Hni ->]|(kv1&v&kv2&->& ->)]; cbn [mbind outcome_bind].
  - by rewrite (proj1 (env_map_absent kv name M Hni HM)).
  - destruct (env_map_mid _ _ _ _ _ Hnd HM) as (_&_&->). unfold entry. cbn [fst snd].
    rewrite drop_app_ge by lia. by replace (S (length name) - length name)%nat with 1%nat by lia.
Qed.

Lemma env_rep_snoc kv name value : NoDup kv.*1 → Forall (λ x, is_name x.1) kv → name ∉ kv.*1 → is_name name → env_rep ((Some <$> (entry <$> kv)) ++ [Some (entry (name, value)); None]) (kv ++ [(name, value)]).
Proof.
  intros Hnd Hall Hni Hname. split_and!.
  - exists []. by rewrite !fmap_app, <-app_assoc.
  - rewrite fmap_app. apply NoDup_app. split_and!; [done| |apply NoDup_singleton]. intros n Hin ->%list_elem_of_singleton. done.
  - apply Forall_app. split; [done|by repeat constructor; apply Hname].
Qed.

Lemma put_variable_rep st name value M n : environ_rep st M n → is_name name → Z.of_nat n < 2 ^ 30 - 2 →
  ∃ st', put_variable malloc st name (entry (name, value)) = Done st' ∧ environ_rep st' (<[name := value]> M) (S n).
Proof.
  intros (env&kv&Hh&((tail&->)&Hnd&Hall)&HM&Hlen) Hname Hn. unfold put_variable. rewrite (holds_at _ _ Hh). cbn [mbind outcome_bind].
  destruct (find_variable_spec name kv tail (proj1 Hname) Hall 0) as [[Hni ->]|(kv1&v&kv2&->& ->)]; cbn [mbind outcome_bind].
  - rewrite Z.add_0_l. destruct (resize_all st (entry <$> kv) tail (Z.of_nat (length kv) + 1) Hh) as (st1&->&Hh1); [rewrite length_fmap; lia|]. cbn [mbind outcome_bind]. rewrite (holds_at _ _ Hh1). cbn [mbind outcome_bind].
    rewrite length_fmap in Hh1 |- *. replace (Z.to_nat (Z.of_nat (length kv) + 1) + 1 - length kv)%nat with 2%nat in * by lia. cbn [replicate] in *.
    rewrite env_set_app by (by rewrite !length_fmap). cbn [mbind outcome_bind]. eexists. split; [done|]. eexists _, (kv ++ [(name, value)]). split; [by eapply holds_store|].
    split_and!; [by apply env_rep_snoc|by apply (env_map_absent kv name M Hni HM)|rewrite length_app; cbn; lia].
  - rewrite (holds_at _ _ Hh). cbn [mbind outcome_bind]. rewrite Z.add_0_l, !fmap_app, <-app_assoc, !fmap_cons. cbn [app].
    rewrite env_set_app by (by rewrite !length_fmap). cbn [mbind outcome_bind]. eexists. split; [done|]. eexists _, (kv1 ++ (name, value) :: kv2). split; [by eapply holds_store|].
    split_and!; [|by apply (env_map_mid _ _ _ _ _ Hnd HM)|rewrite length_app in *; cbn in *; lia]. split_and!.
    + exists tail. rewrite !fmap_app, <-app_assoc, !fmap_cons. done.
    + rewrite fmap_app, fmap_cons in *. done.
    + apply Forall_app in Hall as [? [? ?]%Forall_cons]. apply Forall_app. split; [done|by constructor].
Qed.

Lemma env_rep_removed kv1 name v kv2 : NoDup (kv1 ++ (name, v) :: kv2).*1 → Forall (λ x, is_name x.1) (kv1 ++ (name, v) :: kv2) → env_rep ((Some <$> (entry <$> (kv1 ++ kv2))) ++ [None]) (kv1 ++ kv2).
Proof.
  intros Hnd Hall. split_and!; [by exists []| |].
  - rewrite fmap_app, fmap_cons in Hnd. rewrite fmap_app. apply NoDup_app in Hnd as (?&Hd&[_ ?]%NoDup_cons).
    apply NoDup_app. split_and!; [done| |done]. intros n Hn Hn2. apply (Hd n Hn). by right.
  - apply Forall_app in Hall as [? [? ?]%Forall_cons]. apply Forall_app. done.
Qed.

Lemma env_map_delete_absent kv name M : name ∉ kv.*1 → env_map kv M → env_map kv (delete name M).
Proof.
  intros Hni HM n x. destruct (decide (n = name)) as [->|Hn]; [|rewrite lookup_delete_ne by done; apply HM].
  rewrite lookup_delete_eq. split; [|done]. intros Hin. exfalso. apply Hni, list_elem_of_fmap. by exists (name, x).
Qed.

Lemma unsetenv_rep st name M n : environ_rep st M n → is_name name → Z.of_nat n < 2 ^ 30 - 2 →
  ∃ st', unsetenv malloc st name = Done st' ∧ environ_rep st' (delete name M) n.
Proof.
  intros (env&kv&Hh&((tail&->)&Hnd&Hall)&HM&Hlen) Hname Hn. unfold unsetenv. rewrite (make_holds _ _ Hh). cbn [mbind outcome_bind]. rewrite (holds_at _ _ Hh). cbn [mbind outcome_bind].
  destruct (find_variable_spec name kv tail (proj1 Hname) Hall 0) as [[Hni ->]|(kv1&v&kv2&->& ->)]; cbn [mbind outcome_bind].
  - eexists. split; [done|]. eexists _, kv. split_and!; [exact Hh|split_and!; [by exists tail|done|done]|by apply env_map_delete_absent|done].
  - rewrite Z.add_0_l. pose proof (shift_down_spec (entry <$> kv2) tail
      (S (length ((Some <$> (entry <$> kv1 ++ (name, v) :: kv2)) ++ None :: tail))) (entry <$> kv1) (entry (name, v))) as Hsh.
    pose proof (env_rep_removed _ _ _ _ Hnd Hall) as Hrep. destruct (env_map_mid _ _ _ _ _ Hnd HM) as (_&HM'&_).
    rewrite !length_fmap in Hsh. rewrite !fmap_app, <-app_assoc, !fmap_cons in *. cbn [app] in *.
    rewrite Hsh by (rewrite !length_app; cbn [length]; rewrite !length_app, !length_fmap; lia). cbn [mbind outcome_bind].
    rewrite length_app in Hlen. cbn [length] in Hlen. rewrite u32_id by lia.
    match goal with |- context [env_store st ?e] => destruct (resize_all (env_store st e) (entry <$> kv1 ++ kv2) (None :: tail) (Z.of_nat (length kv1 + 1 + length kv2) - 1)) as (st1&E1&Hh1) end.
    { rewrite !fmap_app. eapply holds_store. exact Hh. }
    { rewrite length_fmap, length_app. lia. }
    rewrite !fmap_app in *. rewrite E1. eexists. split; [done|]. eexists _, (kv1 ++ kv2). split; [exact Hh1|].
    rewrite length_app, !length_fmap. replace (Z.to_nat (Z.of_nat (length kv1 + 1 + length kv2) - 1) + 1 - (length kv1 + length kv2))%nat with 1%nat by lia.
    split; [rewrite <-app_assoc; exact Hrep|]. split; [done|rewrite length_app; lia].
Qed.

Lemma environ_rep_mono st M n : environ_rep st M n → environ_rep st M (S n).
Proof. intros (env&kv&?&?&?&?). exists env, kv. split_and!; (done || lia). Qed.

Lemma env_exec_rep st M n op : environ_rep st M n → env_op_ok op → Z.of_nat n < 2 ^ 30 - 2 →
  match env_spec M op with Some M' => ∃ st', env_exec malloc st op = Done st' ∧ environ_rep st' M' (S n) | None => env_exec malloc st op = Undef end.
Proof.
  intros Hrep Hop Hn. pose proof Hrep as (env&kv&Hh&_). destruct op as [name value o|string|name|]; cbn [env_exec env_spec env_op_ok] in *.
  - destruct Hop as [Hname _]. unfold setenv. rewrite (make_holds _ _ Hh). cbn [mbind outcome_bind]. rewrite (getenv_rep _ _ _ _ Hrep Hname). cbn [mbind outcome_bind].
    destruct (put_variable_rep st name value M n Hrep Hname Hn) as (st'&Hput&Hr'). destruct o; cbn [negb andb orb]; [by exists st'|].
    destruct (M !! name) as [v|]; cbn; [exists st; split; [done|by apply environ_rep_mono]|by exists st'].
  - unfold putenv. rewrite (make_holds _ _ Hh). cbn [mbind outcome_bind]. destruct (index_eq string) as [len|] eqn:E; cbn [mbind option_bind]; [|done].
    destruct (index_eq_split string len Hop E) as [Es Hname]. destruct (put_variable_rep st _ (drop (S len) string) M n Hrep Hname Hn) as (st'&Hput&Hr'). exists st'. by rewrite Es at 2.
  - destruct (unsetenv_rep st name M n Hrep Hop Hn) as (st'&->&Hr'). exists st'. split; [done|by apply environ_rep_mono].
  - unfold clearenv. destruct (resize_holds st env 0 [] Hh) as (st'&->&Hh'); [done|by destruct env|]. exists st'. split; [done|]. exists [None], []. split; [done|]. split; [split_and!; [by exists []|constructor|constructor]|]. split; [|cbn; lia].
    intros a v. rewrite lookup_empty. split; [by intros ?%not_elem_of_nil|done].
Qed.

Lemma env_run_rep ops : ∀ st M n, environ_rep st M n → Forall env_op_ok ops → Z.of_nat (n + length ops) < 2 ^ 30 - 2 →
  match env_specs M ops with Some M' => ∃ st', env_run malloc st ops = Done st' ∧ environ_rep st' M' (n + length ops) | None => env_run malloc st ops = Undef end.
Proof.
  induction ops as [|op ops IH]; intros st M n Hrep Hops Hn; cbn [env_run env_specs length] in *.
  { exists st. by rewrite Nat.add_0_r. }
  apply Forall_cons in Hops as [Hop Hops]. pose proof (env_exec_rep st M n op Hrep Hop ltac:(lia)) as He. destruct (env_spec M op) as [M1|]; cbn [mbind option_bind]; [|by rewrite He].
  destruct He as (st1&->&He). cbn [mbind outcome_bind]. specialize (IH st1 M1 _ He Hops ltac:(lia)). by replace (n + S (length ops))%nat with (S n + length ops)%nat by lia.
Qed.
End memory.

(** C30: the environment is a finite map.  A program is started with an array of variables, each with a name of its own; whatever it then sets, puts, unsets and clears in whatever order, [getenv] gives the value of every name, or null, and at most one array is allocated: those that are replaced are freed, the one on the stack never is.  The names of [setenv] and [unsetenv] hold no ['='], and [malloc] gives room of its own (it is not checked for null).  If a string without ['='] is put, the program crashes at the first such [putenv] (the null pointer is read), where the comment says that the variable is unset. *)
Theorem environment_refines_map malloc (env : Z) kv M array ops :
  env ≠ 0 → (∀ n heap size, malloc n heap size ≠ 0 ∧ malloc n heap size ≠ env ∧ heap !! malloc n heap size = None) →
  env_rep array kv → env_map kv M → Forall env_op_ok ops → Z.of_nat (length kv + length ops) < 2 ^ 30 - 2 →
  match env_specs M ops with
  | Some M' => ∃ st, env_run malloc (start env array) ops = Done st ∧ (size (env_heap st) ≤ 1)%nat ∧ ∀ name, is_name name → getenv st name = Done (M' !! name)
  | None => env_run malloc (start env array) ops = Undef
  end.
Proof.
  intros H0 Hm Hrep HM Hops Hn. assert (environ_rep env (start env array) M (length kv)) as Hs.
  { exists array, kv. split_and!; [|done|done|done]. split_and!; [done|done|by left]. }
  pose proof (env_run_rep malloc env Hm ops _ _ _ Hs Hops Hn) as Hr. destruct (env_specs M ops) as [M'|]; [|done].
  destruct Hr as (st&Hr&He). exists st. split_and!; [done|destruct He as (a&?&Hh&_); by eapply holds_one|]. intros name. by eapply getenv_rep.
Qed.

(** Room that is not in use. *)
Definition first_free (n : nat) (heap : gmap Z env_array) (size : Z) : Z := fresh (dom heap ∪ {[0; 4096]}).

Lemma first_free_ok n heap size : first_free n heap size ≠ 0 ∧ first_free n heap size ≠ 4096 ∧ heap !! first_free n heap size = None.
Proof. unfold first_free. pose proof (is_fresh (dom heap ∪ {[0; 4096]})) as Hf. rewrite <-not_elem_of_dom. set_solver. Qed.

(** A program that is started with [A=1]. *)
Definition some_ops : list env_op := [ESet [66] [50] true; ESet [65] [51] false; EPut [67; 61; 52]; EUnset [66]].

Lemma environment_refines_map_witness :
  ∃ st, env_run first_free (start 4096 [Some [65; 61; 49]; None]) some_ops = Done st ∧
    getenv st [65] = Done (Some [49]) ∧ getenv st [66] = Done None ∧ getenv st [67] = Done (Some [52]).
Proof.
  destruct (environment_refines_map first_free 4096 [([65], [49])] {[ [65] := [49] ]} [Some [65; 61; 49]; None] some_ops) as (st&Hr&_&Hg); [done|apply first_free_ok| | | |cbn; lia|].
  - split_and!; [by exists []|apply NoDup_singleton|repeat constructor; try lia; by intros ?%list_elem_of_singleton].
  - intros n v. rewrite list_elem_of_singleton, lookup_singleton_Some. naive_solver.
  - repeat constructor; try lia; by intros ?%list_elem_of_singleton.
  - exists st. split; [done|]. split_and!; (rewrite Hg; [reflexivity|]); (split; [repeat constructor; lia|by intros ?%list_elem_of_singleton]).
Defined.

(** A name that is there twice is still there when it has been unset. *)
Example unset_once : let st := env_run first_free (start 4096 [Some [65; 61; 49]; Some [65; 61; 50]; None]) [EUnset [65]] in
  match st with Done st => getenv st [65] = Done (Some [50]) | _ => False end.
Proof. vm_compute. reflexivity. Qed.
