(* ===== verification/Words.v ===== *)
(** * Words and structures in byte memory

    The memory of [ByteMem] holds bytes; the structures of the memory allocator
    are sequences of 32-bit words in it, in little endian order.  [owns] says
    which words the structures at given addresses hold, that they do not overlap,
    and that the memory outside of them is that of a base memory: the code that
    follows and changes pointers is verified on the map of structures alone. *)

From stdpp Require Import base numbers list option gmap sets.
From S2P Require Import Prelude.
From S2P Require Import ByteMem.

Local Open Scope Z_scope.

(** ** Words *)

Definition load32 (m : memory) (a : Z) : outcome Z :=
  b0 ← load m a; b1 ← load m (a + 1); b2 ← load m (a + 2); b3 ← load m (a + 3);
  Done (b0 + 2 ^ 8 * b1 + 2 ^ 16 * b2 + 2 ^ 24 * b3).

Definition store32 (m : memory) (a v : Z) : outcome memory :=
  m ← store m a v;
  m ← store m (a + 1) (Z.shiftr v 8);
  m ← store m (a + 2) (Z.shiftr v 16);
  store m (a + 3) (Z.shiftr v 24).

(** The field [k] of a structure of words at [a]. *)
Definition get_field (m : memory) (a : Z) (k : nat) : outcome Z := load32 m (a + 4 * Z.of_nat k).
Definition set_field (m : memory) (a : Z) (k : nat) (v : Z) : outcome memory := store32 m (a + 4 * Z.of_nat k) v.

Definition le32 (v : Z) : list Z := [u8 v; u8 (Z.shiftr v 8); u8 (Z.shiftr v 16); u8 (Z.shiftr v 24)].

Definition is_word (v : Z) : Prop := 0 ≤ v < 2 ^ 32.

Lemma le32_value v : is_word v →
  u8 v + 2 ^ 8 * u8 (Z.shiftr v 8) + 2 ^ 16 * u8 (Z.shiftr v 16) + 2 ^ 24 * u8 (Z.shiftr v 24) = v.
Proof.
  intros Hv. unfold is_word in Hv. unfold u8. rewrite !Z.shiftr_div_pow2 by lia.
  change (2 ^ 8) with 256. change (2 ^ 16) with 65536. change (2 ^ 24) with 16777216. change (2 ^ 32) with 4294967296 in Hv.
  Z.to_euclidean_division_equations. lia.
Qed.

Lemma le32_bytes v : Forall (λ b, 0 ≤ b < 256) (le32 v).
Proof. unfold le32, u8. repeat constructor; apply Z.mod_pos_bound; lia. Qed.

(** Four bytes are a word. *)
Lemma bytes_word l : length l = 4%nat → Forall (λ b, 0 ≤ b < 256) l → ∃ v, is_word v ∧ le32 v = l.
Proof.
  destruct l as [|b0 [|b1 [|b2 [|b3 [|]]]]]; try done. intros _. rewrite !Forall_cons. intros (H0&H1&H2&H3&_).
  exists (b0 + 256 * b1 + 65536 * b2 + 16777216 * b3). unfold is_word, le32, u8. split; [lia|].
  rewrite !Z.shiftr_div_pow2 by lia. change (2 ^ 8) with 256. change (2 ^ 16) with 65536. change (2 ^ 24) with 16777216.
  repeat f_equal; Z.to_euclidean_division_equations; lia.
Qed.

Lemma load32_le32 m a v : is_word v → bytes_at m a (le32 v) → load32 m a = Done v.
Proof.
  intros Hv (H0&H1&H2&H3&_). unfold load32. rewrite (load_Done _ _ _ H0). cbn [mbind outcome_bind].
  rewrite (load_Done _ _ _ H1). cbn [mbind outcome_bind].
  replace (a + 1 + 1) with (a + 2) in H2 by lia. rewrite (load_Done _ _ _ H2). cbn [mbind outcome_bind].
  replace (a + 1 + 1 + 1) with (a + 3) in H3 by lia. rewrite (load_Done _ _ _ H3). cbn [mbind outcome_bind].
  f_equal. by apply le32_value.
Qed.

Lemma store_mod m a v : is_Some (m !! a) → store m a v = Done (<[a := u8 v]> m).
Proof. unfold store. by intros [b ->]. Qed.

Lemma store_Done_inv m a v m' : store m a v = Done m' → is_Some (m !! a).
Proof. unfold store. by destruct (m !! a). Qed.

Lemma store32_le32 m a v : mapped m a 4 → store32 m a v = Done (write_bytes m a (le32 v)).
Proof.
  intros Hm. unfold store32, le32. cbn [write_bytes].
  replace (a + 1 + 1) with (a + 2) by lia. replace (a + 2 + 1) with (a + 3) by lia.
  rewrite store_mod by (rewrite <-(Z.add_0_r a); apply Hm; lia). cbn [mbind outcome_bind].
  rewrite store_mod by (apply (mapped_insert _ a 4); [done|lia]). cbn [mbind outcome_bind].
  rewrite store_mod by (apply (mapped_insert _ a 4); [by apply mapped_insert|lia]). cbn [mbind outcome_bind].
  by rewrite store_mod by (apply (mapped_insert _ a 4); [by do 2 apply mapped_insert|lia]).
Qed.

Lemma is_Some_write m a l x : mapped m a (Z.of_nat (length l)) → is_Some (write_bytes m a l !! x) ↔ is_Some (m !! x).
Proof.
  intros Hm. rewrite write_bytes_lookup. case_decide as Hx; [|done]. split; intros _.
  - replace x with (a + (x - a)) by lia. apply Hm. lia.
  - apply lookup_lt_is_Some. lia.
Qed.

(** ** Structures *)

Abbreviation structs := (gmap Z (list Z)).

Definition words (m : memory) (a : Z) (ws : list Z) : Prop :=
  ∀ k v, ws !! k = Some v → is_word v ∧ bytes_at m (a + 4 * Z.of_nat k) (le32 v).

Definition span (ws : list Z) : Z := 4 * Z.of_nat (length ws).

Definition outside (H : structs) (x : Z) : Prop := ∀ a ws, H !! a = Some ws → ¬ (a ≤ x < a + span ws).

Record owns (m0 : memory) (H : structs) (m : memory) : Prop := {
  ow_bytes : bytes_ok m;
  ow_dom x : is_Some (m !! x) ↔ is_Some (m0 !! x);
  ow_words a ws : H !! a = Some ws → words m a ws;
  ow_apart a ws b ws' : H !! a = Some ws → H !! b = Some ws' → a ≠ b → a + span ws ≤ b ∨ b + span ws' ≤ a;
  ow_out x : outside H x → m !! x = m0 !! x;
}.

Lemma words_mapped m a ws : words m a ws → mapped m a (span ws).
Proof.
  intros Hw i Hi. unfold span in Hi. destruct (lookup_lt_is_Some_2 ws (Z.to_nat (i / 4))) as [v Hv].
  { apply Nat2Z.inj_lt. rewrite Z2Nat.id; Z.to_euclidean_division_equations; lia. }
  destruct (Hw _ _ Hv) as [_ Hb]. apply bytes_at_mapped in Hb. rewrite Z2Nat.id in Hb by (apply Z.div_pos; lia).
  replace (a + i) with (a + 4 * (i / 4) + i mod 4) by (Z.to_euclidean_division_equations; lia).
  apply Hb. cbn. apply Z.mod_pos_bound. lia.
Qed.

Lemma words_ext m m' a ws : words m a ws → (∀ x, a ≤ x < a + span ws → m' !! x = m !! x) → words m' a ws.
Proof.
  intros Hw Hm k v Hk. destruct (Hw k v Hk) as [Hv Hb]. split; [done|]. pose proof (lookup_lt_Some _ _ _ Hk).
  rewrite bytes_at_lookup in *. intros i b Hi. pose proof (lookup_lt_Some _ _ _ Hi) as Hl. cbn in Hl.
  rewrite Hm by (unfold span; lia). by apply Hb.
Qed.

Lemma words_insert m a ws k v : words m a ws → (k < length ws)%nat → is_word v →
  words (write_bytes m (a + 4 * Z.of_nat k) (le32 v)) a (<[k := v]> ws).
Proof.
  intros Hw Hk Hv j w Hj. destruct (decide (j = k)) as [->|Hne].
  - rewrite list_lookup_insert_eq in Hj by done. injection Hj as <-. split; [done|]. apply bytes_at_write.
  - rewrite list_lookup_insert_ne in Hj by done. destruct (Hw j w Hj) as [Hw' Hb]. split; [done|].
    apply bytes_at_write_other; [cbn [length le32]; lia|done].
Qed.

Lemma get_field_owns m0 H m a ws k v : owns m0 H m → H !! a = Some ws → ws !! k = Some v → get_field m a k = Done v.
Proof.
  intros Ho Ha Hk. destruct (ow_words _ _ _ Ho a ws Ha k v Hk) as [Hv Hb]. by apply load32_le32.
Qed.

Lemma set_field_owns m0 H m a ws k v : owns m0 H m → H !! a = Some ws → (k < length ws)%nat → is_word v →
  ∃ m', set_field m a k v = Done m' ∧ owns m0 (<[a := <[k := v]> ws]> H) m'.
Proof.
  intros Ho Ha Hk Hv. pose proof (ow_words _ _ _ Ho a ws Ha) as Hw. pose proof (words_mapped _ _ _ Hw) as Hm.
  assert (mapped m (a + 4 * Z.of_nat k) 4) as Hm4.
  { intros i Hi. rewrite <-Z.add_assoc. apply Hm. unfold span. lia. }
  eexists. split; [by apply store32_le32|].
  assert (span (<[k := v]> ws) = span ws) as Hsp by (unfold span; by rewrite length_insert).
  split.
  - apply bytes_ok_write; [apply Ho|apply le32_bytes].
  - intros x. rewrite is_Some_write by done. apply Ho.
  - intros b ws' [[<- <-]|[Hne Hb]]%lookup_insert_Some; [by apply words_insert|].
    apply (words_ext m); [by apply (ow_words _ _ _ Ho)|]. intros x Hx. rewrite write_bytes_lookup, decide_False; [done|].
    cbn [length le32]. destruct (ow_apart _ _ _ Ho _ _ _ _ Ha Hb Hne); unfold span in *; lia.
  - intros b ws1 c ws2 [[<- <-]|[Hb1 Hb]]%lookup_insert_Some [[<- <-]|[Hc1 Hc]]%lookup_insert_Some Hne; rewrite ?Hsp;
      [done|by eapply (ow_apart _ _ _ Ho)|by eapply (ow_apart _ _ _ Ho)|by eapply (ow_apart _ _ _ Ho)].
  - intros x Hx. rewrite write_bytes_lookup, decide_False.
    + apply (ow_out _ _ _ Ho). intros b ws' Hb. destruct (decide (a = b)) as [<-|].
      * simplify_eq. rewrite <-Hsp. apply (Hx a). by rewrite lookup_insert_eq.
      * apply (Hx b). by rewrite lookup_insert_ne.
    + intros Hin. apply (Hx a (<[k := v]> ws)); [by rewrite lookup_insert_eq|]. rewrite Hsp. cbn [length le32] in Hin.
      unfold span. lia.
Qed.

(** A store outside the structures changes the base. *)
Lemma store_owns m0 H m x v : owns m0 H m → outside H x → is_Some (m !! x) →
  ∃ m', store m x v = Done m' ∧ owns (<[x := u8 v]> m0) H m' ∧ m' !! x = Some (u8 v).
Proof.
  intros Ho Hx Hm. eexists. split; [by apply store_mod|]. split; [|by rewrite lookup_insert_eq].
  assert (0 ≤ u8 v < 256) by (apply Z.mod_pos_bound; lia). split.
  - apply bytes_ok_insert; [apply Ho|done].
  - intros y. destruct (decide (x = y)) as [<-|]; [by rewrite !lookup_insert_eq|]. rewrite !lookup_insert_ne by done. apply Ho.
  - intros a ws Ha. apply (words_ext m); [by apply (ow_words _ _ _ Ho)|]. intros y Hy. rewrite lookup_insert_ne; [done|].
    intros <-. by apply (Hx a ws).
  - apply Ho.
  - intros y Hy. destruct (decide (x = y)) as [<-|]; [by rewrite !lookup_insert_eq|]. rewrite !lookup_insert_ne by done.
    by apply Ho.
Qed.

Lemma mapped_words m a (n : nat) : bytes_ok m → mapped m a (4 * Z.of_nat n) → ∃ ws, length ws = n ∧ words m a ws.
Proof.
  intros Hok. revert a. induction n as [|n IH]; intros a Hm.
  { exists []. by split; [|intros k v Hk]. }
  destruct (mapped_bytes m a 4) as (l&Hl&Hb); [intros i Hi; apply Hm; lia|].
  destruct (bytes_word l Hl (bytes_at_ok _ _ _ Hok Hb)) as (v&Hv&<-).
  destruct (IH (a + 4)) as (ws&Hlen&Hw).
  { intros i Hi. replace (a + 4 + i) with (a + (i + 4)) by lia. apply Hm. lia. }
  exists (v :: ws). cbn. split; [by rewrite Hlen|]. intros [|k] w Hk; cbn in Hk.
  - injection Hk as <-. split; [done|]. by rewrite Z.mul_0_r, Z.add_0_r.
  - destruct (Hw k w Hk). split; [done|]. by replace (a + 4 * Z.of_nat (S k)) with (a + 4 + 4 * Z.of_nat k) by lia.
Qed.

(** Mapped memory apart from the structures can be taken for a new one, whatever
    it holds. *)
Lemma owns_add m0 H m a (n : nat) : owns m0 H m → mapped m a (4 * Z.of_nat n) →
  (∀ b ws, H !! b = Some ws → a + 4 * Z.of_nat n ≤ b ∨ b + span ws ≤ a) → H !! a = None →
  ∃ ws, length ws = n ∧ owns m0 (<[a := ws]> H) m.
Proof.
  intros Ho Hm Hap Hn. destruct (mapped_words m a n (ow_bytes _ _ _ Ho) Hm) as (ws&Hlen&Hw). exists ws. split; [done|].
  assert (span ws = 4 * Z.of_nat n) as Hsp by (unfold span; by rewrite Hlen). split.
  - apply Ho.
  - apply Ho.
  - intros b ws' [[<- <-]|[_ Hb]]%lookup_insert_Some; [done|]. by apply (ow_words _ _ _ Ho).
  - intros b ws1 c ws2 [[<- <-]|[Hb1 Hb]]%lookup_insert_Some [[<- <-]|[Hc1 Hc]]%lookup_insert_Some Hne; [done| | |].
    + rewrite Hsp. by apply Hap.
    + rewrite Hsp. destruct (Hap _ _ Hb); [by right|by left].
    + by eapply (ow_apart _ _ _ Ho).
  - intros x Hx. apply (ow_out _ _ _ Ho). intros b ws' Hb. apply (Hx b ws'). rewrite lookup_insert_ne by congruence. done.
Qed.

(** Structures can be forgotten; the memory becomes its own base. *)
Lemma owns_sub m0 H H' m : owns m0 H m → (∀ a ws, H' !! a = Some ws → H !! a = Some ws) → owns m H' m.
Proof.
  intros Ho Hs. split; [apply Ho|done| | |done].
  - intros a ws Ha. by apply (ow_words _ _ _ Ho), Hs.
  - intros a ws b ws' Ha Hb. apply (ow_apart _ _ _ Ho); by apply Hs.
Qed.

Lemma owns_rebase m0 H m : owns m0 H m → owns m H m.
Proof. intros Ho. by apply (owns_sub m0 H). Qed.

(** The structures do not depend on the memory outside of them. *)
Lemma owns_ext m0 H m m' : owns m0 H m → bytes_ok m' →
  (∀ a ws x, H !! a = Some ws → a ≤ x < a + span ws → m' !! x = m !! x) → owns m' H m'.
Proof.
  intros Ho Hok Hm. split; [done|done| |apply Ho|done]. intros a ws Ha. apply (words_ext m); [by apply (ow_words _ _ _ Ho)|].
  intros x Hx. by eapply Hm.
Qed.

(** Writing fields keeps the places and sizes of the structures. *)
Definition same_shape (H H' : structs) : Prop := ∀ a, length <$> H' !! a = length <$> H !! a.

Lemma same_shape_insert H0 H a ws k v : H !! a = Some ws → same_shape H0 H → same_shape H0 (<[a := <[k := v]> ws]> H).
Proof.
  intros Ha Hs b. rewrite <-Hs. destruct (decide (a = b)) as [<-|].
  - rewrite lookup_insert_eq, Ha. cbn. by rewrite length_insert.
  - by rewrite lookup_insert_ne.
Qed.

Lemma same_shape_outside H H' z : same_shape H H' → outside H z → outside H' z.
Proof.
  intros Hs Ho a ws Ha. specialize (Hs a). rewrite Ha in Hs. destruct (H !! a) as [ws0|] eqn:E; [|done]. injection Hs as Hs.
  specialize (Ho a ws0 E). unfold span in *. by rewrite Hs.
Qed.
