(* ===== verification/Liballoc.v ===== *)
(** * The memory allocator (libraries/libc/sys/liballoc.cpp, kernel/memory/liballoc.cpp)

    [malloc], [free], [calloc] and [realloc].  The allocator gets pages from the
    system in major blocks, a list of structures of six words, and cuts them into
    minor blocks, each with a header of six words of its own, linked in the order
    of their addresses.  All headers are in the memory that is handed out, next to
    the bytes of the user, and the model keeps them there: a header is read and
    written word by word in the memory of [ByteMem].

    The C library and the kernel have one text with different constants; the
    definitions take [ALIGNMENT] and [l_pageCount] as arguments.  The functions that
    get pages from the system and give them back are arguments too; what they
    promise is the class [PageSource].  The kernel's version calls
    [liballoc_afteralloc] before it returns, to register the pages it got; [KernelHeap]
    adds that call. *)

From stdpp Require Import base numbers list option gmap sets.
From S2P Require Import Prelude.
From S2P Require Import ByteMem.
From S2P Require Import Words.

Local Open Scope Z_scope.

(** ** Constants and structures *)

Definition ALIGN_INFO : Z := 16.
Definition LIBALLOC_MAGIC : Z := 3221340382.
Definition LIBALLOC_DEAD : Z := 3735936685.
Definition l_pageSize : Z := 4096.

(** The fields of [struct liballoc_major] and [struct liballoc_minor]; both have
    six words. *)
Definition maj_prev : nat := 0.
Definition maj_next : nat := 1.
Definition maj_pages : nat := 2.
Definition maj_size : nat := 3.
Definition maj_usage : nat := 4.
Definition maj_first : nat := 5.
Definition min_prev : nat := 0.
Definition min_next : nat := 1.
Definition min_block : nat := 2.
Definition min_magic : nat := 3.
Definition min_size : nat := 4.
Definition min_req_size : nat := 5.
Definition sizeof_major : Z := 24.
Definition sizeof_minor : Z := 24.

(** The variables of the allocator, with the memory and the state of the system
    that pages come from. *)
Record heap (Sys : Type) := mk_heap {
  h_mem : memory;
  h_sys : Sys;
  l_memRoot : Z;
  l_bestBet : Z;
  l_allocated : Z;
  l_inuse : Z;
  l_warningCount : Z;
  l_errorCount : Z;
  l_possibleOverruns : Z;
}.
Arguments mk_heap {Sys} _ _ _ _ _ _ _ _ _.
Arguments h_mem {Sys} _.
Arguments h_sys {Sys} _.
Arguments l_memRoot {Sys} _.
Arguments l_bestBet {Sys} _.
Arguments l_allocated {Sys} _.
Arguments l_inuse {Sys} _.
Arguments l_warningCount {Sys} _.
Arguments l_errorCount {Sys} _.
Arguments l_possibleOverruns {Sys} _.

Definition u64 (z : Z) : Z := z mod 2 ^ 64.

Section setters.
Context {Sys : Type}.
Implicit Types h : heap Sys.

Definition with_mem h (m : memory) : heap Sys :=
  mk_heap m (h_sys h) (l_memRoot h) (l_bestBet h) (l_allocated h) (l_inuse h) (l_warningCount h) (l_errorCount h)
    (l_possibleOverruns h).
Definition with_sys h (s : Sys) (m : memory) : heap Sys :=
  mk_heap m s (l_memRoot h) (l_bestBet h) (l_allocated h) (l_inuse h) (l_warningCount h) (l_errorCount h)
    (l_possibleOverruns h).
Definition with_root h (a : Z) : heap Sys :=
  mk_heap (h_mem h) (h_sys h) a (l_bestBet h) (l_allocated h) (l_inuse h) (l_warningCount h) (l_errorCount h)
    (l_possibleOverruns h).
Definition with_best h (a : Z) : heap Sys :=
  mk_heap (h_mem h) (h_sys h) (l_memRoot h) a (l_allocated h) (l_inuse h) (l_warningCount h) (l_errorCount h)
    (l_possibleOverruns h).
Definition add_allocated h (d : Z) : heap Sys :=
  mk_heap (h_mem h) (h_sys h) (l_memRoot h) (l_bestBet h) (u64 (l_allocated h + d)) (l_inuse h) (l_warningCount h)
    (l_errorCount h) (l_possibleOverruns h).
Definition add_inuse h (d : Z) : heap Sys :=
  mk_heap (h_mem h) (h_sys h) (l_memRoot h) (l_bestBet h) (l_allocated h) (u64 (l_inuse h + d)) (l_warningCount h)
    (l_errorCount h) (l_possibleOverruns h).
Definition warn h : heap Sys :=
  mk_heap (h_mem h) (h_sys h) (l_memRoot h) (l_bestBet h) (l_allocated h) (l_inuse h) (l_warningCount h + 1)
    (l_errorCount h) (l_possibleOverruns h).
Definition count_error h (overrun : bool) : heap Sys :=
  mk_heap (h_mem h) (h_sys h) (l_memRoot h) (l_bestBet h) (l_allocated h) (l_inuse h) (l_warningCount h)
    (l_errorCount h + 1) (l_possibleOverruns h + if overrun then 1 else 0).

End setters.

(** ** Helper functions *)

(** [liballoc_memset(s, c, n)]. *)
Fixpoint liballoc_memset (n : nat) (m : memory) (s c : Z) : outcome memory :=
  match n with
  | O => Done m
  | S n => m ← store m s c; liballoc_memset n m (s + 1) c
  end.

(** [liballoc_memcpy(s1, s2, n)]: words, then the rest byte by byte. *)
Fixpoint copy_words (n : nat) (m : memory) (ldest lsrc : Z) : outcome memory :=
  match n with
  | O => Done m
  | S n => w ← load32 m lsrc; m ← store32 m ldest w; copy_words n m (ldest + 4) (lsrc + 4)
  end.
Fixpoint copy_rest (n : nat) (m : memory) (cdest csrc : Z) : outcome memory :=
  match n with
  | O => Done m
  | S n => b ← load m csrc; m ← store m cdest b; copy_rest n m (cdest + 1) (csrc + 1)
  end.
Definition liballoc_memcpy (m : memory) (s1 s2 n : Z) : outcome memory :=
  m ← copy_words (Z.to_nat (n / 4)) m s1 s2;
  copy_rest (Z.to_nat (n mod 4)) m (s1 + 4 * (n / 4)) (s2 + 4 * (n / 4)).

Section liballoc.
Context {Sys : Type} (ALIGNMENT l_pageCount : Z).
Context (liballoc_alloc : Sys → memory → Z → outcome (Z * Sys * memory)).
Context (liballoc_free : Sys → memory → Z → Z → outcome (Sys * memory)).
Implicit Types h : heap Sys.

(** [ALIGN(ptr)]: the distance is kept in a byte 16 bytes before the pointer. *)
Definition ALIGN (m : memory) (ptr : Z) : outcome (Z * memory) :=
  if 1 <? ALIGNMENT then
    let ptr := u32 (ptr + ALIGN_INFO) in
    let diff := Z.land ptr (ALIGNMENT - 1) in
    let '(ptr, diff) := if negb (diff =? 0) then (u32 (ptr + (ALIGNMENT - diff)), ALIGNMENT - diff) else (ptr, diff) in
    m ← store m (u32 (ptr - ALIGN_INFO)) (diff + ALIGN_INFO);
    Done (ptr, m)
  else Done (ptr, m).

(** [UNALIGN(ptr)]; the byte is a [char] and signed. *)
Definition UNALIGN (m : memory) (ptr : Z) : outcome Z :=
  if 1 <? ALIGNMENT then
    b ← load m (u32 (ptr - ALIGN_INFO));
    let diff := u32 (sext 8 b) in
    Done (if diff <? ALIGNMENT + ALIGN_INFO then u32 (ptr - diff) else ptr)
  else Done ptr.

Definition pages_for (size : Z) : Z :=
  let st := u32 (u32 (size + sizeof_major) + sizeof_minor) in
  let st := if st mod l_pageSize =? 0 then st / l_pageSize else st / l_pageSize + 1 in
  if st <? l_pageCount then l_pageCount else st.

Definition allocate_new_page h (size : Z) : outcome (Z * heap Sys) :=
  let st := pages_for size in
  '(maj, sys, m) ← liballoc_alloc (h_sys h) (h_mem h) st;
  let h := with_sys h sys m in
  if maj =? 0 then Done (0, warn h)
  else
    m ← set_field m maj maj_prev 0;
    m ← set_field m maj maj_next 0;
    m ← set_field m maj maj_pages st;
    m ← set_field m maj maj_size (u32 (st * l_pageSize));
    m ← set_field m maj maj_usage sizeof_major;
    m ← set_field m maj maj_first 0;
    Done (maj, add_allocated (with_mem h m) (u32 (st * l_pageSize))).

(** *** The cases of [malloc] *)

Definition add_usage (m : memory) (maj d : Z) : outcome memory :=
  usage ← get_field m maj maj_usage;
  set_field m maj maj_usage (u32 (usage + d)).

(** Case 2: the block has no minors. *)
Definition place_only (m : memory) (maj size req_size : Z) : outcome (Z * memory) :=
  m ← set_field m maj maj_first (u32 (maj + sizeof_major));
  first ← get_field m maj maj_first;
  m ← set_field m first min_magic LIBALLOC_MAGIC;
  m ← set_field m first min_prev 0;
  m ← set_field m first min_next 0;
  m ← set_field m first min_block maj;
  m ← set_field m first min_size size;
  m ← set_field m first min_req_size req_size;
  m ← add_usage m maj (size + sizeof_minor);
  ALIGN m (u32 (first + sizeof_minor)).

(** Case 3: in front of the first minor. *)
Definition place_front (m : memory) (maj size req_size : Z) : outcome (Z * memory) :=
  first ← get_field m maj maj_first;
  m ← set_field m first min_prev (u32 (maj + sizeof_major));
  prev ← get_field m first min_prev;
  m ← set_field m prev min_next first;
  m ← set_field m maj maj_first prev;
  first ← get_field m maj maj_first;
  m ← set_field m first min_magic LIBALLOC_MAGIC;
  m ← set_field m first min_prev 0;
  m ← set_field m first min_block maj;
  m ← set_field m first min_size size;
  m ← set_field m first min_req_size req_size;
  m ← add_usage m maj (size + sizeof_minor);
  ALIGN m (u32 (first + sizeof_minor)).

(** Case 4.1: behind the last minor, of size [msize]. *)
Definition place_last (m : memory) (maj min msize size req_size : Z) : outcome (Z * memory) :=
  m ← set_field m min min_next (u32 (min + sizeof_minor + msize));
  next ← get_field m min min_next;
  m ← set_field m next min_prev min;
  let min := next in
  m ← set_field m min min_next 0;
  m ← set_field m min min_magic LIBALLOC_MAGIC;
  m ← set_field m min min_block maj;
  m ← set_field m min min_size size;
  m ← set_field m min min_req_size req_size;
  m ← add_usage m maj (size + sizeof_minor);
  ALIGN m (u32 (min + sizeof_minor)).

(** Case 4.2: between two minors. *)
Definition place_between (m : memory) (maj min msize size req_size : Z) : outcome (Z * memory) :=
  let new_min := u32 (min + sizeof_minor + msize) in
  m ← set_field m new_min min_magic LIBALLOC_MAGIC;
  next ← get_field m min min_next;
  m ← set_field m new_min min_next next;
  m ← set_field m new_min min_prev min;
  m ← set_field m new_min min_size size;
  m ← set_field m new_min min_req_size req_size;
  m ← set_field m new_min min_block maj;
  next ← get_field m min min_next;
  m ← set_field m next min_prev new_min;
  m ← set_field m min min_next new_min;
  m ← add_usage m maj (size + sizeof_minor);
  ALIGN m (u32 (new_min + sizeof_minor)).

(** Case 4: the loop over the minors. *)
Fixpoint scan_minors (fuel : nat) (m : memory) (maj min size req_size : Z) : outcome (option (Z * memory)) :=
  match fuel with
  | O => NoFuel
  | S fuel =>
      if min =? 0 then Done None
      else
        next ← get_field m min min_next;
        msize ← get_field m min min_size;
        if next =? 0 then
          majsize ← get_field m maj maj_size;
          let diff := u32 (maj + majsize - min - sizeof_minor - msize) in
          if u32 (size + sizeof_minor) <=? diff then
            r ← place_last m maj min msize size req_size; Done (Some r)
          else scan_minors fuel m maj next size req_size
        else
          let diff := u32 (next - min - sizeof_minor - msize) in
          if u32 (size + sizeof_minor) <=? diff then
            r ← place_between m maj min msize size req_size; Done (Some r)
          else scan_minors fuel m maj next size req_size
  end.

(** Cases 2 to 4: the pointer, when the block has a place. *)
Definition place_in_block (m : memory) (maj size req_size : Z) : outcome (option (Z * memory)) :=
  first ← get_field m maj maj_first;
  if first =? 0 then r ← place_only m maj size req_size; Done (Some r)
  else
    let diff := u32 (first - maj - sizeof_major) in
    if u32 (size + sizeof_minor) <=? diff then r ← place_front m maj size req_size; Done (Some r)
    else scan_minors (scan_fuel m) m maj first size req_size.

(** [maj->next = allocate_new_page(size)], and the link back. *)
Definition new_major h (maj size : Z) : outcome (Z * heap Sys) :=
  '(new, h) ← allocate_new_page h size;
  m ← set_field (h_mem h) maj maj_next new;
  if new =? 0 then Done (0, with_mem h m)
  else
    m ← set_field m new maj_prev maj;
    Done (new, with_mem h m).

(** The loop over the majors. *)
Fixpoint malloc_loop (fuel : nat) h (maj : Z) (startedBet : bool) (bestSize size req_size : Z) : outcome (Z * heap Sys) :=
  match fuel with
  | O => NoFuel
  | S fuel =>
      if maj =? 0 then Done (0, h)
      else
        majsize ← get_field (h_mem h) maj maj_size;
        usage ← get_field (h_mem h) maj maj_usage;
        let diff := u32 (majsize - usage) in
        let '(h, bestSize) := if bestSize <? diff then (with_best h maj, diff) else (h, bestSize) in
        next ← get_field (h_mem h) maj maj_next;
        let cases_2_to_5 h maj :=
          r ← place_in_block (h_mem h) maj size req_size;
          match r with
          | Some (p, m) => Done (p, add_inuse (with_mem h m) size)
          | None =>
              next ← get_field (h_mem h) maj maj_next;
              if next =? 0 then
                if startedBet then malloc_loop fuel h (l_memRoot h) false bestSize size req_size
                else
                  '(new, h) ← new_major h maj size;
                  if new =? 0 then Done (0, h) else malloc_loop fuel h new startedBet bestSize size req_size
              else malloc_loop fuel h next startedBet bestSize size req_size
          end in
        if diff <? u32 (size + sizeof_minor) then
          if negb (next =? 0) then malloc_loop fuel h next startedBet bestSize size req_size
          else if startedBet then malloc_loop fuel h (l_memRoot h) false bestSize size req_size
          else
            '(new, h) ← new_major h maj size;
            if new =? 0 then Done (0, h) else cases_2_to_5 h new
        else cases_2_to_5 h maj
  end.

(** Where the search starts: the best bet, when it has room. *)
Definition start_block h (size : Z) : outcome (Z * bool * Z) :=
  if negb (l_bestBet h =? 0) then
    bsize ← get_field (h_mem h) (l_bestBet h) maj_size;
    usage ← get_field (h_mem h) (l_bestBet h) maj_usage;
    let bestSize := u32 (bsize - usage) in
    if u32 (size + sizeof_minor) <? bestSize then Done (l_bestBet h, true, bestSize)
    else Done (l_memRoot h, false, bestSize)
  else Done (l_memRoot h, false, 0).

Definition malloc_fuel (m : memory) : nat := 2 * scan_fuel m + 2.

(** [malloc] with the size it asks for, which is not zero. *)
Definition malloc_sized h (req_size size : Z) : outcome (Z * heap Sys) :=
  h ← (if l_memRoot h =? 0 then '(maj, h) ← allocate_new_page h size; Done (with_root h maj) else Done h);
  if l_memRoot h =? 0 then Done (0, h)
  else
    '(maj, startedBet, bestSize) ← start_block h size;
    malloc_loop (malloc_fuel (h_mem h)) h maj startedBet bestSize size req_size.

Definition padded (req_size : Z) : Z :=
  if 1 <? ALIGNMENT then u32 (req_size + (ALIGNMENT + ALIGN_INFO)) else req_size.

Definition malloc h (req_size : Z) : outcome (Z * heap Sys) :=
  if padded req_size =? 0 then malloc_sized (warn h) 1 (padded 1)
  else malloc_sized h req_size (padded req_size).

(** *** [free], [calloc] and [realloc] *)

(** Whether a damaged magic number looks like the end of an overrun. *)
Definition possible_overrun (magic : Z) : bool :=
  (Z.land magic 16777215 =? Z.land LIBALLOC_MAGIC 16777215) ||
  (Z.land magic 65535 =? Z.land LIBALLOC_MAGIC 65535) ||
  (Z.land magic 255 =? Z.land LIBALLOC_MAGIC 255).

(** The list of majors without an empty one, which goes back to the system. *)
Definition release_major h (maj : Z) : outcome (heap Sys) :=
  next ← get_field (h_mem h) maj maj_next;
  let h := with_root h (if l_memRoot h =? maj then next else l_memRoot h) in
  let h := with_best h (if l_bestBet h =? maj then 0 else l_bestBet h) in
  prev ← get_field (h_mem h) maj maj_prev;
  m ← (if negb (prev =? 0) then set_field (h_mem h) prev maj_next next else Done (h_mem h));
  m ← (if negb (next =? 0) then set_field m next maj_prev prev else Done m);
  majsize ← get_field m maj maj_size;
  pages ← get_field m maj maj_pages;
  '(sys, m) ← liballoc_free (h_sys h) m maj pages;
  Done (with_sys (add_allocated h (- majsize)) sys m).

Definition update_best h (maj : Z) : outcome (heap Sys) :=
  if negb (l_bestBet h =? 0) then
    bsize ← get_field (h_mem h) (l_bestBet h) maj_size;
    busage ← get_field (h_mem h) (l_bestBet h) maj_usage;
    msize ← get_field (h_mem h) maj maj_size;
    musage ← get_field (h_mem h) maj maj_usage;
    Done (if sext 32 (bsize - busage) <? sext 32 (msize - musage) then with_best h maj else h)
  else Done h.

(** The list of minors without the one to free. *)
Definition unlink_minor (m : memory) (maj min msize : Z) : outcome memory :=
  usage ← get_field m maj maj_usage;
  m ← set_field m maj maj_usage (u32 (usage - (msize + sizeof_minor)));
  m ← set_field m min min_magic LIBALLOC_DEAD;
  next ← get_field m min min_next;
  prev ← get_field m min min_prev;
  m ← (if negb (next =? 0) then set_field m next min_prev prev else Done m);
  m ← (if negb (prev =? 0) then set_field m prev min_next next else Done m);
  if prev =? 0 then set_field m maj maj_first next else Done m.

Definition free h (ptr : Z) : outcome (heap Sys) :=
  if ptr =? 0 then Done (warn h)
  else
    ptr ← UNALIGN (h_mem h) ptr;
    let min := u32 (ptr - sizeof_minor) in
    magic ← get_field (h_mem h) min min_magic;
    if negb (magic =? LIBALLOC_MAGIC) then Done (count_error h (possible_overrun magic))
    else
      maj ← get_field (h_mem h) min min_block;
      msize ← get_field (h_mem h) min min_size;
      m ← unlink_minor (h_mem h) maj min msize;
      let h := add_inuse (with_mem h m) (- msize) in
      first ← get_field m maj maj_first;
      if first =? 0 then release_major h maj else update_best h maj.

(** The product is an [int], and goes to [malloc] as a [size_t]. *)
Definition calloc h (nobj size : Z) : outcome (Z * heap Sys) :=
  let real_size := u32 (nobj * size) in
  '(p, h) ← malloc h real_size;
  m ← liballoc_memset (Z.to_nat real_size) (h_mem h) p 0;
  Done (p, with_mem h m).

Definition realloc h (p size : Z) : outcome (Z * heap Sys) :=
  if size =? 0 then h ← free h p; Done (0, h)
  else if p =? 0 then malloc h size
  else
    ptr ← UNALIGN (h_mem h) p;
    let min := u32 (ptr - sizeof_minor) in
    magic ← get_field (h_mem h) min min_magic;
    if negb (magic =? LIBALLOC_MAGIC) then Done (0, count_error h (possible_overrun magic))
    else
      real_size ← get_field (h_mem h) min min_req_size;
      if size <=? real_size then
        m ← set_field (h_mem h) min min_req_size size;
        Done (p, with_mem h m)
      else
        '(ptr, h) ← malloc h size;
        m ← liballoc_memcpy (h_mem h) ptr p real_size;
        h ← free (with_mem h m) p;
        Done (ptr, h).

End liballoc.
