(* ===== verification/LiballocHeap.v ===== *)
(** * The blocks of the memory allocator

    The invariant of [Liballoc]: a list of majors, each a list of minors in the
    order of their addresses, whose headers are in memory with their links.  The
    theorems show that the allocator keeps it and that every block belongs to its
    user: it is aligned, in mapped memory, apart from every other block and every
    header, and no call changes its bytes. *)

From stdpp Require Import base numbers list option gmap sets.
From S2P Require Import Prelude.
From S2P Require Import ByteMem.
From S2P Require Import Words.
From S2P Require Import Liballoc.

Local Open Scope Z_scope.

(** ** Blocks *)

Record minor := mk_minor { mn_addr : Z; mn_size : Z; mn_req : Z }.
Record major := mk_major { mj_addr : Z; mj_pages : Z; mj_minors : list minor }.

#[export] Instance minor_eq_dec : EqDecision minor.
Proof. solve_decision. Defined.

Definition mj_size (g : major) : Z := mj_pages g * 4096.
Definition mj_end (g : major) : Z := mj_addr g + mj_size g.
Definition mn_end (x : minor) : Z := mn_addr x + 24 + mn_size x.

Fixpoint minors_sum (l : list minor) : Z := match l with [] => 0 | x :: l => 24 + mn_size x + minors_sum l end.
Definition mj_used (g : major) : Z := 24 + minors_sum (mj_minors g).

Definition live (G : list major) : list minor := G ≫= mj_minors.
Definition addrs (G : list major) : list Z := G ≫= λ g, mj_addr g :: (mn_addr <$> mj_minors g).
Definition regions (G : list major) : list (Z * Z) := (λ g, (mj_addr g, mj_pages g)) <$> G.

(** *** Lists of headers *)

Definition head_minor (l : list minor) (n : Z) : Z := match l with [] => n | x :: _ => mn_addr x end.
Definition last_minor (p : Z) (l : list minor) : Z := foldl (λ _ x, mn_addr x) p l.
Definition head_major (G : list major) (n : Z) : Z := match G with [] => n | g :: _ => mj_addr g end.
Definition last_major (p : Z) (G : list major) : Z := foldl (λ _ g, mj_addr g) p G.

Definition minor_words (x : minor) (prev next block : Z) : list Z :=
  [prev; next; block; LIBALLOC_MAGIC; mn_size x; mn_req x].
Definition major_words (g : major) (prev next : Z) : list Z :=
  [prev; next; mj_pages g; mj_size g; mj_used g; head_minor (mj_minors g) 0].

Fixpoint minors_seg (H : structs) (block prev : Z) (l : list minor) (next : Z) : Prop :=
  match l with
  | [] => True
  | x :: l =>
      H !! mn_addr x = Some (minor_words x prev (head_minor l next) block) ∧ minors_seg H block (mn_addr x) l next
  end.

Fixpoint majors_seg (H : structs) (prev : Z) (G : list major) (next : Z) : Prop :=
  match G with
  | [] => True
  | g :: G =>
      H !! mj_addr g = Some (major_words g prev (head_major G next)) ∧
      minors_seg H (mj_addr g) 0 (mj_minors g) 0 ∧ majors_seg H (mj_addr g) G next
  end.

Lemma minors_seg_app H block p l1 l2 n : minors_seg H block p (l1 ++ l2) n ↔
  minors_seg H block p l1 (head_minor l2 n) ∧ minors_seg H block (last_minor p l1) l2 n.
Proof.
  revert p. induction l1 as [|x l1 IH]; intros p; cbn; [tauto|]. rewrite IH.
  replace (head_minor (l1 ++ l2) n) with (head_minor l1 (head_minor l2 n)) by by destruct l1. tauto.
Qed.

Lemma majors_seg_app H p G1 G2 n : majors_seg H p (G1 ++ G2) n ↔
  majors_seg H p G1 (head_major G2 n) ∧ majors_seg H (last_major p G1) G2 n.
Proof.
  revert p. induction G1 as [|g G1 IH]; intros p; cbn; [tauto|]. rewrite IH.
  replace (head_major (G1 ++ G2) n) with (head_major G1 (head_major G2 n)) by by destruct G1. tauto.
Qed.

Lemma minors_seg_ext H H' block p l n : minors_seg H block p l n → (∀ x, x ∈ l → H' !! mn_addr x = H !! mn_addr x) →
  minors_seg H' block p l n.
Proof.
  revert p. induction l as [|x l IH]; intros p; cbn; [done|]. intros [Hx Hl] He. split.
  - rewrite He by set_solver. done.
  - apply IH; [done|set_solver].
Qed.

Lemma majors_seg_ext H H' p G n : majors_seg H p G n → (∀ a, a ∈ addrs G → H' !! a = H !! a) → majors_seg H' p G n.
Proof.
  revert p. induction G as [|g G IH]; intros p; cbn; [done|]. intros (Hg&Hm&HG) He. split_and!.
  - rewrite He by set_solver. done.
  - apply (minors_seg_ext H); [done|]. intros x Hx. apply He. set_solver.
  - apply IH; [done|]. intros a Ha. apply He. set_solver.
Qed.

Lemma head_minor_app l x l' n : head_minor (l ++ x :: l') n = head_minor l (mn_addr x).
Proof. by destruct l. Qed.

Lemma last_minor_app p l x : last_minor p (l ++ [x]) = mn_addr x.
Proof. unfold last_minor. by rewrite foldl_app. Qed.

Lemma head_major_app G g G' n : head_major (G ++ g :: G') n = head_major G (mj_addr g).
Proof. by destruct G. Qed.

Lemma last_major_app p G g : last_major p (G ++ [g]) = mj_addr g.
Proof. unfold last_major. by rewrite foldl_app. Qed.

(** *** Geometry *)

Section geometry.
Context (ALIGNMENT : Z).

(** The minors in ascending order from [lo], with room for the bytes asked for. *)
Fixpoint minors_in (lo : Z) (l : list minor) (hi : Z) : Prop :=
  match l with
  | [] => lo ≤ hi
  | x :: l => lo ≤ mn_addr x ∧ 0 ≤ mn_req x ∧ mn_req x + ALIGNMENT + 16 ≤ mn_size x ∧ minors_in (mn_end x) l hi
  end.

(** Where the minors end. *)
Definition fin (lo : Z) (l : list minor) : Z := foldl (λ _ x, mn_end x) lo l.

Definition major_ok (g : major) : Prop :=
  0 < mj_addr g ∧ 0 < mj_pages g ∧ mj_end g ≤ 2 ^ 32 ∧ minors_in (mj_addr g + 24) (mj_minors g) (mj_end g).

Definition apart (r r' : Z * Z) : Prop := r.1 + r.2 * 4096 ≤ r'.1 ∨ r'.1 + r'.2 * 4096 ≤ r.1.

Definition geom (G : list major) : Prop := Forall major_ok G ∧ pairwise apart (regions G).

Lemma fin_app lo l x : fin lo (l ++ [x]) = mn_end x.
Proof. unfold fin. by rewrite foldl_app. Qed.

Lemma minors_in_weaken lo lo' l hi : minors_in lo l hi → lo' ≤ lo → minors_in lo' l hi.
Proof. destruct l; cbn; intros; intuition lia. Qed.

Context (HA : 0 < ALIGNMENT).

Lemma minors_in_le lo l hi : minors_in lo l hi → lo + minors_sum l ≤ hi.
Proof.
  revert lo. induction l as [|x l IH]; intros lo; cbn; [lia|]. intros (?&?&?&Hl). apply IH in Hl. unfold mn_end in Hl. lia.
Qed.

Lemma minors_sum_nonneg lo l hi : minors_in lo l hi → 0 ≤ minors_sum l.
Proof.
  revert lo. induction l as [|x l IH]; intros lo; cbn; [lia|]. intros (?&?&?&Hl). apply IH in Hl. lia.
Qed.

Lemma minors_in_app lo l1 l2 hi : minors_in lo (l1 ++ l2) hi ↔
  minors_in lo l1 (fin lo l1) ∧ minors_in (fin lo l1) l2 hi.
Proof.
  revert lo. induction l1 as [|x l1 IH]; intros lo; cbn.
  - split; [intros; split; [lia|done]|tauto].
  - rewrite IH. tauto.
Qed.

Lemma minors_in_lo lo l hi : minors_in lo l hi → lo ≤ fin lo l.
Proof.
  revert lo. induction l as [|x l IH]; intros lo; cbn; [lia|]. intros (?&?&?&Hl). apply IH in Hl. unfold mn_end in Hl at 1.
  fold (fin (mn_end x) l). lia.
Qed.

(** Every minor is between the bounds. *)
Lemma minors_in_elem lo l hi x : minors_in lo l hi → x ∈ l →
  lo ≤ mn_addr x ∧ mn_end x ≤ hi ∧ 0 ≤ mn_req x ∧ mn_req x + ALIGNMENT + 16 ≤ mn_size x.
Proof.
  intros Hl (l1&l2&->)%list_elem_of_split. apply minors_in_app in Hl as [H1 (Hx&H0&Hr&H2)].
  apply minors_in_lo in H1. apply minors_in_le in H2 as H3. apply minors_sum_nonneg in H2. lia.
Qed.

(** A minor in the gap between two parts of the list. *)
Lemma minors_in_insert lo l1 x l2 hi : minors_in lo (l1 ++ l2) hi → mn_addr x = fin lo l1 →
  mn_end x ≤ head_minor l2 hi → 0 ≤ mn_req x → mn_req x + ALIGNMENT + 16 ≤ mn_size x → minors_in lo (l1 ++ x :: l2) hi.
Proof.
  rewrite !minors_in_app. intros [H1 H2] Ha He H0 Hr. split; [done|]. cbn. split_and!; [lia|done|done|].
  destruct l2 as [|y l2]; cbn in *; [done|]. intuition lia.
Qed.

Lemma minors_sum_app l1 l2 : minors_sum (l1 ++ l2) = minors_sum l1 + minors_sum l2.
Proof. induction l1; cbn; lia. Qed.

Lemma minors_in_delete lo l1 x l2 hi : minors_in lo (l1 ++ x :: l2) hi → minors_in lo (l1 ++ l2) hi.
Proof.
  rewrite !minors_in_app. cbn. intros [H1 (Hx&H0&Hr&H2)]. split; [done|]. eapply minors_in_weaken; [done|].
  unfold mn_end. lia.
Qed.

Lemma apart_sym r r' : apart r r' → apart r' r.
Proof. unfold apart. tauto. Qed.

End geometry.

(** ** The headers of the blocks *)

Definition rep (G : list major) (H : structs) : Prop :=
  majors_seg H 0 G 0 ∧ ∀ a, is_Some (H !! a) → a ∈ addrs G.

Definition with_minors (g : major) (l : list minor) : major := mk_major (mj_addr g) (mj_pages g) l.

Lemma addrs_app G1 G2 : addrs (G1 ++ G2) = addrs G1 ++ addrs G2.
Proof. apply bind_app. Qed.

Lemma live_app G1 G2 : live (G1 ++ G2) = live G1 ++ live G2.
Proof. apply bind_app. Qed.

Lemma regions_app G1 G2 : regions (G1 ++ G2) = regions G1 ++ regions G2.
Proof. apply fmap_app. Qed.

Lemma elem_addrs a G : a ∈ addrs G ↔ ∃ g, g ∈ G ∧ (a = mj_addr g ∨ ∃ x, x ∈ mj_minors g ∧ a = mn_addr x).
Proof.
  unfold addrs. rewrite list_elem_of_bind. split.
  - intros (g&Ha&Hg). exists g. split; [done|]. apply elem_of_cons in Ha as [->|Ha]; [by left|right].
    apply list_elem_of_fmap in Ha as (x&->&Hx). by exists x.
  - intros (g&Hg&Ha). exists g. split; [|done]. apply elem_of_cons. destruct Ha as [->|(x&Hx&->)]; [by left|right].
    apply list_elem_of_fmap. by exists x.
Qed.

Lemma elem_live x G : x ∈ live G ↔ ∃ g, g ∈ G ∧ x ∈ mj_minors g.
Proof. unfold live. rewrite list_elem_of_bind. naive_solver. Qed.

Lemma rep_span G H a ws : rep G H → H !! a = Some ws → span ws = 24.
Proof.
  intros [Hs Hd] Ha. assert (a ∈ addrs G) as Hin by (apply Hd; by rewrite Ha). apply elem_addrs in Hin as (g&Hg&Hin).
  apply list_elem_of_split in Hg as (K1&K2&->). apply majors_seg_app in Hs as [_ (Hs&Hms&_)].
  destruct Hin as [->|(x&Hx&->)]; [by simplify_eq|]. apply list_elem_of_split in Hx as (k1&k2&Hx). rewrite Hx in Hms.
  apply minors_seg_app in Hms as [_ [Hms _]]. by simplify_eq.
Qed.

Section headers.
Context (ALIGNMENT : Z) (HA : 0 < ALIGNMENT).
Implicit Types G : list major.

Abbreviation geom := (geom ALIGNMENT).
Abbreviation major_ok := (major_ok ALIGNMENT).

Lemma geom_split G1 g G2 : geom (G1 ++ g :: G2) → major_ok g ∧ geom (G1 ++ G2) ∧
  ∀ g', g' ∈ G1 ++ G2 → mj_end g' ≤ mj_addr g ∨ mj_end g ≤ mj_addr g'.
Proof.
  intros [HF Ha]. rewrite Forall_app, Forall_cons in HF. destruct HF as (H1&Hg&H2).
  rewrite regions_app in Ha. cbn in Ha. split_and!; [done| |].
  - split; [by apply Forall_app|]. rewrite regions_app.
    apply (pairwise_perm _ apart_sym _ ((mj_addr g, mj_pages g) :: regions G1 ++ regions G2)) in Ha; [apply Ha|].
    by rewrite Permutation_middle.
  - intros g' Hg'. destruct (pairwise_elem _ apart_sym _ _ _ (mj_addr g', mj_pages g') Ha) as [Hr|Hr].
    + rewrite <-regions_app. apply list_elem_of_fmap. by exists g'.
    + right. by unfold mj_end, mj_size; cbn in Hr.
    + left. by unfold mj_end, mj_size; cbn in Hr.
Qed.

(** The headers of a major are inside of it. *)
Lemma header_range g a : major_ok g → a = mj_addr g ∨ (∃ x, x ∈ mj_minors g ∧ a = mn_addr x) →
  mj_addr g ≤ a ∧ a + 24 ≤ mj_end g.
Proof.
  intros (H0&Hp&He&Hm) [->|(x&Hx&->)].
  - apply minors_in_le in Hm as Hs. apply minors_sum_nonneg in Hm; [|done]. lia.
  - apply (minors_in_elem _ HA _ _ _ _ Hm) in Hx. unfold mn_end in Hx. lia.
Qed.

Lemma header_bounds G a : geom G → a ∈ addrs G → 0 < a ∧ a + 24 ≤ 2 ^ 32.
Proof.
  intros [HF _] (g&Hg&Ha)%elem_addrs. rewrite Forall_forall in HF. specialize (HF g Hg).
  pose proof (header_range g a HF Ha). destruct HF as (?&?&?&_). lia.
Qed.

(** The headers of other majors are outside. *)
Lemma header_other G1 g G2 a : geom (G1 ++ g :: G2) → a ∈ addrs (G1 ++ G2) → a + 24 ≤ mj_addr g ∨ mj_end g ≤ a.
Proof.
  intros (_&[HF _]&Ho)%geom_split (g'&Hg'&Ha)%elem_addrs. rewrite Forall_forall in HF.
  pose proof (header_range g' a (HF g' Hg') Ha). destruct (Ho g' Hg'); lia.
Qed.

Lemma minors_NoDup lo l hi : minors_in ALIGNMENT lo l hi → NoDup (mn_addr <$> l).
Proof.
  revert lo. induction l as [|x l IH]; intros lo; cbn; [constructor|]. intros (Hx&H0&Hr&Hl). constructor; [|by eapply IH].
  intros (y&Hy&Hin)%list_elem_of_fmap. apply (minors_in_elem _ HA _ _ _ _ Hl) in Hin. unfold mn_end in Hin. lia.
Qed.

Lemma addrs_NoDup G : geom G → NoDup (addrs G).
Proof.
  induction G as [|g G IH]; intros HG; [constructor|].
  pose proof (geom_split [] g G HG) as (Hg&HG'&_). pose proof Hg as (Hg0&_&_&Hm).
  change (addrs (g :: G)) with ((mj_addr g :: (mn_addr <$> mj_minors g)) ++ addrs G).
  apply NoDup_app. split_and!.
  - constructor; [|by eapply minors_NoDup]. intros (x&Hx&Hin)%list_elem_of_fmap.
    apply (minors_in_elem _ HA _ _ _ _ Hm) in Hin. lia.
  - intros a Ha Ha'. pose proof (header_other [] g G a HG Ha').
    assert (mj_addr g ≤ a ∧ a + 24 ≤ mj_end g); [|lia]. apply header_range; [done|].
    apply elem_of_cons in Ha as [->|(x&->&Hx)%list_elem_of_fmap]; [by left|right; by exists x].
  - by apply IH.
Qed.

(** A gap between two minors holds no header. *)
Lemma gap_free G1 g G2 l1 l2 t n a : geom (G1 ++ g :: G2) → mj_minors g = l1 ++ l2 →
  fin (mj_addr g + 24) l1 ≤ t → 0 ≤ n → t + n ≤ head_minor l2 (mj_end g) → a ∈ addrs (G1 ++ g :: G2) → a + 24 ≤ t ∨ t + n ≤ a.
Proof.
  intros HG Hl Ht Hn He Ha. pose proof (geom_split _ _ _ HG) as (Hg&_&_). pose proof Hg as (_&_&_&Hm).
  rewrite Hl in Hm. rewrite minors_in_app in Hm. destruct Hm as [H1 H2]. pose proof (minors_in_lo _ HA _ _ _ H1) as Hlo.
  assert (head_minor l2 (mj_end g) ≤ mj_end g) as Hend.
  { destruct l2 as [|y l2]; cbn; [lia|]. destruct (minors_in_elem _ HA _ _ _ y H2) as (?&Hy&?&?); [set_solver|].
    unfold mn_end in Hy. lia. }
  rewrite addrs_app in Ha. cbn in Ha. rewrite Hl, fmap_app in Ha.
  rewrite elem_of_app in Ha. destruct Ha as [Ha|Ha].
  { destruct (header_other G1 g G2 a HG); [rewrite addrs_app; set_solver|lia|lia]. }
  rewrite elem_of_cons, !elem_of_app in Ha. destruct Ha as [->|[[Ha|Ha]|Ha]].
  - lia.
  - apply list_elem_of_fmap in Ha as (x&->&Hx). apply (minors_in_elem _ HA _ _ _ _ H1) in Hx. unfold mn_end in Hx. lia.
  - right. apply list_elem_of_fmap in Ha as (x&->&Hx). destruct l2 as [|y l2]; [by apply not_elem_of_nil in Hx|].
    cbn in He. cbn in H2. destruct H2 as (?&?&?&H2). apply elem_of_cons in Hx as [->|Hx]; [done|].
    apply (minors_in_elem _ HA _ _ _ _ H2) in Hx. unfold mn_end in Hx. lia.
  - destruct (header_other G1 g G2 a HG); [rewrite addrs_app; set_solver|lia|lia].
Qed.

(** No header is in the bytes of a minor. *)
Lemma payload_free G x a z : geom G → x ∈ live G → a ∈ addrs G → mn_addr x + 24 ≤ z < mn_end x → ¬ (a ≤ z < a + 24).
Proof.
  intros HG (g&Hg&Hx)%elem_live Ha Hz. apply list_elem_of_split in Hg as (G1&G2&->).
  pose proof (geom_split _ _ _ HG) as (Hok&_&_). pose proof Hok as (_&_&_&Hm). apply list_elem_of_split in Hx as (l1&l2&Hl).
  pose proof Hm as Hx. rewrite Hl in Hx. apply minors_in_app in Hx as [H1 (Hx1&Hx2&Hx3&H2)].
  assert (x ∈ mj_minors g) as Hin by (rewrite Hl; set_solver).
  assert (mn_end x ≤ mj_end g) by (apply (minors_in_elem _ HA _ _ _ _ Hm) in Hin; tauto).
  pose proof (minors_in_lo _ HA _ _ _ H1).
  rewrite addrs_app, elem_of_app in Ha. destruct Ha as [Ha|Ha].
  { destruct (header_other G1 g G2 a HG); [rewrite addrs_app; set_solver|lia|lia]. }
  cbn in Ha. rewrite Hl, fmap_app in Ha. cbn in Ha. rewrite elem_of_cons, !elem_of_app, elem_of_cons in Ha.
  destruct Ha as [->|[[Ha|[->|Ha]]|Ha]]; [lia| |lia| |].
  - apply list_elem_of_fmap in Ha as (y&->&Hy). apply (minors_in_elem _ HA _ _ _ _ H1) in Hy. unfold mn_end in Hy. lia.
  - apply list_elem_of_fmap in Ha as (y&->&Hy). apply (minors_in_elem _ HA _ _ _ _ H2) in Hy. lia.
  - destruct (header_other G1 g G2 a HG); [rewrite addrs_app; set_solver|lia|lia].
Qed.

(** *** Putting a minor in, and taking it out *)

Lemma geom_with G1 g G2 l : geom (G1 ++ g :: G2) → minors_in ALIGNMENT (mj_addr g + 24) l (mj_end g) →
  geom (G1 ++ with_minors g l :: G2).
Proof.
  intros [HF Ha] Hl. rewrite Forall_app, Forall_cons in HF. destruct HF as (H1&(?&?&?&_)&H2). split.
  - rewrite Forall_app, Forall_cons. by split_and!.
  - rewrite regions_app in *. done.
Qed.

Lemma live_with G1 g G2 l1 l2 x : mj_minors g = l1 ++ l2 →
  live (G1 ++ with_minors g (l1 ++ x :: l2) :: G2) ≡ₚ x :: live (G1 ++ g :: G2).
Proof. intros Hl. rewrite !live_app. cbn. rewrite Hl, <-!app_assoc. cbn. rewrite <-!Permutation_middle. done. Qed.

Lemma addrs_with G1 g G2 l1 l2 x : mj_minors g = l1 ++ l2 →
  addrs (G1 ++ with_minors g (l1 ++ x :: l2) :: G2) ≡ₚ mn_addr x :: addrs (G1 ++ g :: G2).
Proof.
  intros Hl. rewrite !addrs_app. cbn. rewrite Hl, !fmap_app. cbn. rewrite <-!app_assoc. cbn.
  rewrite <-!Permutation_middle. apply Permutation_swap.
Qed.

(** The neighbours of the place between [l1] and [l2]. *)
Definition is_last (l1 : list minor) (a : Z) : Prop := ∃ l0 y, l1 = l0 ++ [y] ∧ a = mn_addr y.
Definition is_head (l2 : list minor) (a : Z) : Prop := ∃ y l3, l2 = y :: l3 ∧ a = mn_addr y.

Lemma NoDup_parts (w u : Z) P1 Q1 Q2 P2 : NoDup (w :: P1 ++ u :: (Q1 ++ Q2) ++ P2) →
  (∀ a, a ∈ P1 ∨ a ∈ P2 → a ≠ w ∧ a ≠ u ∧ (a ∉ Q1) ∧ (a ∉ Q2)) ∧
  (∀ a, a ∈ Q1 → a ≠ w ∧ a ≠ u ∧ (a ∉ Q2)) ∧ (∀ a, a ∈ Q2 → a ≠ w ∧ a ≠ u ∧ (a ∉ Q1)) ∧ NoDup Q1 ∧ NoDup Q2.
Proof.
  rewrite NoDup_cons, NoDup_app, NoDup_cons, !NoDup_app. intros (Hw&H1&Hd1&Hu&(HQ1&Hd2&HQ2)&Hd3&H2).
  rewrite !elem_of_app, elem_of_cons, !elem_of_app in Hw. rewrite !elem_of_app in Hu.
  setoid_rewrite elem_of_cons in Hd1. setoid_rewrite elem_of_app in Hd1. setoid_rewrite elem_of_app in Hd1.
  setoid_rewrite elem_of_app in Hd3. naive_solver.
Qed.

Lemma rep_place G1 g G2 l1 x l2 H H' :
  mj_minors g = l1 ++ l2 → rep (G1 ++ g :: G2) H → NoDup (mn_addr x :: addrs (G1 ++ g :: G2)) →
  H' !! mn_addr x = Some (minor_words x (last_minor 0 l1) (head_minor l2 0) (mj_addr g)) →
  H' !! mj_addr g = Some (major_words (with_minors g (l1 ++ x :: l2)) (last_major 0 G1) (head_major G2 0)) →
  (∀ l0 y, l1 = l0 ++ [y] → H' !! mn_addr y = Some (minor_words y (last_minor 0 l0) (mn_addr x) (mj_addr g))) →
  (∀ y l3, l2 = y :: l3 → H' !! mn_addr y = Some (minor_words y (mn_addr x) (head_minor l3 0) (mj_addr g))) →
  (∀ a, a ≠ mn_addr x → a ≠ mj_addr g → ¬ is_last l1 a → ¬ is_head l2 a → H' !! a = H !! a) →
  rep (G1 ++ with_minors g (l1 ++ x :: l2) :: G2) H'.
Proof.
  intros Hl [Hs Hd] Hnd Hx Hg Hlast Hhead Hrest.
  rewrite addrs_app in Hnd. cbn in Hnd. rewrite Hl, fmap_app in Hnd.
  apply NoDup_parts in Hnd as (HP&HQ1&HQ2&Hn1&Hn2).
  apply majors_seg_app in Hs as [H1 (Hg0&Hm&H2)]. rewrite Hl in Hm. apply minors_seg_app in Hm as [Hm1 Hm2].
  assert (∀ a, is_last l1 a → a ∈ mn_addr <$> l1) as Hil.
  { intros a (l0&y&->&->). rewrite fmap_app. apply elem_of_app. right. by left. }
  assert (∀ a, is_head l2 a → a ∈ mn_addr <$> l2) as Hih by (intros a (y&l3&->&->); by left).
  assert (∀ a, a ∈ addrs G1 ∨ a ∈ addrs G2 → H' !! a = H !! a) as Hout.
  { intros a (?&?&?&?)%HP. apply Hrest; [done|done|by intros ?%Hil|by intros ?%Hih]. }
  split.
  - apply majors_seg_app. split; [by apply (majors_seg_ext H); [|intros; apply Hout; left]|]. cbn. split_and!; [done| |].
    + apply minors_seg_app. split.
      * destruct l1 as [|y l0 _] using rev_ind; [done|]. apply minors_seg_app in Hm1 as [Hm0 _].
        apply minors_seg_app. split; [|cbn; split; [by apply Hlast|done]].
        apply (minors_seg_ext H); [done|]. intros z Hz. rewrite fmap_app in *. apply NoDup_app in Hn1 as (_&Hn1&_).
        assert (mn_addr z ∈ mn_addr <$> l0) as Hzin by (apply list_elem_of_fmap; eauto).
        destruct (HQ1 (mn_addr z)) as (?&?&?); [apply elem_of_app; by left|]. apply Hrest; [done|done| |by intros ?%Hih].
        intros (l'&y'&[-> [= ->]]%app_inj_tail&Hzy). apply (Hn1 _ Hzin). rewrite Hzy. by left.
      * cbn. split; [done|]. destruct l2 as [|y l3]; [done|]. cbn. split; [by apply Hhead|]. destruct Hm2 as [_ Hm2].
        apply (minors_seg_ext H); [done|]. intros z Hz. cbn in Hn2. apply NoDup_cons in Hn2 as [Hn2 _].
        assert (mn_addr z ∈ mn_addr <$> l3) as Hzin by (apply list_elem_of_fmap; eauto).
        destruct (HQ2 (mn_addr z)) as (?&?&?); [by right|]. apply Hrest; [done|done|by intros ?%Hil|].
        intros (y'&l'&[= <- <-]&Hzy). apply Hn2. by rewrite <-Hzy.
    + apply (majors_seg_ext H); [done|]. intros; apply Hout; by right.
  - intros a Ha. rewrite (addrs_with _ _ _ _ _ _ Hl), elem_of_cons.
    destruct (decide (a ∈ addrs (G1 ++ g :: G2))) as [|Hin]; [by right|left].
    destruct (decide (a = mn_addr x)) as [|Hax]; [done|exfalso]. apply Hin. rewrite addrs_app in Hin. cbn in Hin.
    rewrite Hl, fmap_app, !elem_of_app, elem_of_cons, !elem_of_app in Hin. apply Hd. rewrite <-Hrest; [done|done|tauto| |].
    + intros ?%Hil. tauto.
    + intros ?%Hih. tauto.
Qed.

Lemma rep_remove G1 g G2 l1 x l2 H H' :
  mj_minors g = l1 ++ x :: l2 → rep (G1 ++ g :: G2) H → NoDup (addrs (G1 ++ g :: G2)) →
  H' !! mn_addr x = None →
  H' !! mj_addr g = Some (major_words (with_minors g (l1 ++ l2)) (last_major 0 G1) (head_major G2 0)) →
  (∀ l0 y, l1 = l0 ++ [y] → H' !! mn_addr y = Some (minor_words y (last_minor 0 l0) (head_minor l2 0) (mj_addr g))) →
  (∀ y l3, l2 = y :: l3 → H' !! mn_addr y = Some (minor_words y (last_minor 0 l1) (head_minor l3 0) (mj_addr g))) →
  (∀ a, a ≠ mn_addr x → a ≠ mj_addr g → ¬ is_last l1 a → ¬ is_head l2 a → H' !! a = H !! a) →
  rep (G1 ++ with_minors g (l1 ++ l2) :: G2) H'.
Proof.
  intros Hl [Hs Hd] Hnd Hx Hg Hlast Hhead Hrest. set (g0 := with_minors g (l1 ++ l2)).
  assert (addrs (G1 ++ g :: G2) ≡ₚ mn_addr x :: addrs (G1 ++ g0 :: G2)) as HP.
  { rewrite <-(addrs_with G1 g0 G2 l1 l2 x) by done. unfold g0, with_minors. cbn. rewrite <-Hl. by destruct g. }
  rewrite HP in Hnd. rewrite addrs_app in Hnd. cbn in Hnd. rewrite fmap_app in Hnd.
  apply NoDup_parts in Hnd as (HP'&HQ1&HQ2&Hn1&Hn2).
  apply majors_seg_app in Hs as [H1 (Hg0&Hm&H2)]. rewrite Hl in Hm. apply minors_seg_app in Hm as [Hm1 [_ Hm2]].
  assert (∀ a, is_last l1 a → a ∈ mn_addr <$> l1) as Hil.
  { intros a (l0&y&->&->). rewrite fmap_app. apply elem_of_app. right. by left. }
  assert (∀ a, is_head l2 a → a ∈ mn_addr <$> l2) as Hih by (intros a (y&l3&->&->); by left).
  assert (∀ a, a ∈ addrs G1 ∨ a ∈ addrs G2 → H' !! a = H !! a) as Hout.
  { intros a (?&?&?&?)%HP'. apply Hrest; [done|done|by intros ?%Hil|by intros ?%Hih]. }
  split.
  - apply majors_seg_app. split; [by apply (majors_seg_ext H); [|intros; apply Hout; left]|]. cbn. split_and!; [done| |].
    + apply minors_seg_app. split.
      * destruct l1 as [|y l0 _] using rev_ind; [done|]. apply minors_seg_app in Hm1 as [Hm0 _].
        apply minors_seg_app. split; [|cbn; split; [by apply Hlast|done]].
        apply (minors_seg_ext H); [done|]. intros z Hz. rewrite fmap_app in *. apply NoDup_app in Hn1 as (_&Hn1&_).
        assert (mn_addr z ∈ mn_addr <$> l0) as Hzin by (apply list_elem_of_fmap; eauto).
        destruct (HQ1 (mn_addr z)) as (?&?&?); [apply elem_of_app; by left|]. apply Hrest; [done|done| |by intros ?%Hih].
        intros (l'&y'&[-> [= ->]]%app_inj_tail&Hzy). apply (Hn1 _ Hzin). rewrite Hzy. by left.
      * destruct l2 as [|y l3]; [done|]. cbn. split; [by apply Hhead|]. destruct Hm2 as [_ Hm2].
        apply (minors_seg_ext H); [done|]. intros z Hz. cbn in Hn2. apply NoDup_cons in Hn2 as [Hn2 _].
        assert (mn_addr z ∈ mn_addr <$> l3) as Hzin by (apply list_elem_of_fmap; eauto).
        destruct (HQ2 (mn_addr z)) as (?&?&?); [by right|]. apply Hrest; [done|done|by intros ?%Hil|].
        intros (y'&l'&[= <- <-]&Hzy). apply Hn2. by rewrite <-Hzy.
    + apply (majors_seg_ext H); [done|]. intros; apply Hout; by right.
  - intros a Ha. destruct (decide (a = mn_addr x)) as [->|Hax]; [rewrite Hx in Ha; by destruct Ha|].
    destruct (decide (a ∈ addrs (G1 ++ g0 :: G2))) as [|Hin]; [done|exfalso].
    pose proof Hin as Hin'. rewrite addrs_app in Hin. cbn in Hin. rewrite fmap_app, !elem_of_app, elem_of_cons, !elem_of_app in Hin.
    rewrite Hrest in Ha by (done || tauto || (intros ?%Hil; tauto) || (intros ?%Hih; tauto)).
    specialize (Hd a Ha). rewrite HP in Hd. apply elem_of_cons in Hd as [|]; done.
Qed.

End headers.

(** Changing the size a minor was asked for. *)
Lemma rep_resize G1 g G2 l1 x l2 H n : mj_minors g = l1 ++ x :: l2 → rep (G1 ++ g :: G2) H → NoDup (addrs (G1 ++ g :: G2)) →
  let x' := mk_minor (mn_addr x) (mn_size x) n in
  rep (G1 ++ with_minors g (l1 ++ x' :: l2) :: G2)
    (<[mn_addr x := minor_words x' (last_minor 0 l1) (head_minor l2 0) (mj_addr g)]> H).
Proof.
  intros Hl [Hs Hd] Hnd x'. set (g0 := with_minors g (l1 ++ l2)).
  assert (addrs (G1 ++ g :: G2) ≡ₚ mn_addr x :: addrs (G1 ++ g0 :: G2)) as HP.
  { rewrite <-(addrs_with G1 g0 G2 l1 l2 x) by done. unfold g0, with_minors. cbn. rewrite <-Hl. by destruct g. }
  assert (addrs (G1 ++ with_minors g (l1 ++ x' :: l2) :: G2) ≡ₚ mn_addr x :: addrs (G1 ++ g0 :: G2)) as HP'.
  { exact (addrs_with G1 g0 G2 l1 l2 x' eq_refl). }
  rewrite HP, addrs_app in Hnd. cbn in Hnd. rewrite fmap_app in Hnd.
  assert (mj_addr g ≠ mn_addr x) as Hgx.
  { intros E. apply NoDup_cons in Hnd as [Hn _]. apply Hn, elem_of_app. right. rewrite E. by left. }
  apply NoDup_parts in Hnd as (HPd&HQ1&HQ2&_&_).
  apply majors_seg_app in Hs as [H1 (Hg0&Hm&H2)]. rewrite Hl in Hm. apply minors_seg_app in Hm as [Hm1 [Hx Hm2]]. split.
  - apply majors_seg_app. split; [|cbn; split_and!].
    + apply (majors_seg_ext H); [done|]. intros a Ha. destruct (HPd a (or_introl Ha)) as [? _]. by rewrite lookup_insert_ne.
    + rewrite lookup_insert_ne by done. rewrite Hg0. f_equal. unfold major_words, mj_used. cbn.
      rewrite Hl, !minors_sum_app, !head_minor_app. done.
    + apply minors_seg_app. split; [|cbn; split; [by rewrite lookup_insert_eq|]].
      * apply (minors_seg_ext H); [done|]. intros y Hy.
        assert (mn_addr y ∈ mn_addr <$> l1) as Hin by (apply list_elem_of_fmap; eauto). destruct (HQ1 _ Hin) as [? _]. by rewrite lookup_insert_ne.
      * apply (minors_seg_ext H); [done|]. intros y Hy.
        assert (mn_addr y ∈ mn_addr <$> l2) as Hin by (apply list_elem_of_fmap; eauto). destruct (HQ2 _ Hin) as [? _]. by rewrite lookup_insert_ne.
    + apply (majors_seg_ext H); [done|]. intros a Ha. destruct (HPd a (or_intror Ha)) as [? _]. by rewrite lookup_insert_ne.
  - intros a Ha. rewrite HP', <-HP. destruct (decide (a = mn_addr x)) as [->|]; [rewrite HP; by left|].
    rewrite lookup_insert_ne in Ha by done. by apply Hd.
Qed.

(** Taking an empty major out of the list. *)
Lemma rep_release G1 g G2 H H' : mj_minors g = [] → rep (G1 ++ g :: G2) H → NoDup (addrs (G1 ++ g :: G2)) →
  H' !! mj_addr g = None →
  (∀ K k, G1 = K ++ [k] → H' !! mj_addr k = Some (major_words k (last_major 0 K) (head_major G2 0))) →
  (∀ k K, G2 = k :: K → H' !! mj_addr k = Some (major_words k (last_major 0 G1) (head_major K 0))) →
  (∀ a, a ≠ mj_addr g → (∀ K k, G1 = K ++ [k] → a ≠ mj_addr k) → (∀ k K, G2 = k :: K → a ≠ mj_addr k) → H' !! a = H !! a) →
  rep (G1 ++ G2) H'.
Proof.
  intros Hmin [Hs Hd] Hnd Hg Hlast Hhead Hrest. apply majors_seg_app in Hs as [H1 (_&_&H2)].
  assert (NoDup (addrs G1 ++ addrs G2) ∧ (mj_addr g ∉ addrs G1) ∧ (mj_addr g ∉ addrs G2)) as (Hnd'&Hg1&Hg2).
  { rewrite addrs_app in Hnd. cbn in Hnd. rewrite Hmin in Hnd. cbn in Hnd. rewrite <-Permutation_middle in Hnd.
    apply NoDup_cons in Hnd as [Hn Hnd]. rewrite elem_of_app in Hn. split; [done|tauto]. }
  apply NoDup_app in Hnd' as (Hn1&Hd12&Hn2).
  assert (∀ K k, G1 = K ++ [k] → mj_addr k ∈ addrs G1) as Hl1.
  { intros K k ->. rewrite addrs_app. apply elem_of_app. right. by left. }
  assert (∀ k K, G2 = k :: K → mj_addr k ∈ addrs G2) as Hh2 by (intros k K ->; by left).
  split.
  - apply majors_seg_app. split.
    + destruct G1 as [|k K _] using rev_ind; [done|]. apply majors_seg_app in H1 as [H1 (_&Hm&_)].
      rewrite addrs_app in Hn1. apply NoDup_app in Hn1 as (_&HdK&Hnk). cbn in HdK, Hnk. rewrite app_nil_r in HdK, Hnk.
      apply NoDup_cons in Hnk as [Hnk _].
      apply majors_seg_app. split; [|cbn; split_and!; [by apply Hlast| |done]].
      * apply (majors_seg_ext H); [done|]. intros a Ha. apply Hrest.
        -- intros ->. apply Hg1. rewrite addrs_app. apply elem_of_app. by left.
        -- intros K' k' [-> [= ->]]%app_inj_tail ->. apply (HdK _ Ha). by left.
        -- intros k' K' E ->. apply (Hd12 (mj_addr k')); [rewrite addrs_app; apply elem_of_app; by left|by eapply Hh2].
      * apply (minors_seg_ext H); [done|]. intros x Hx.
        assert (mn_addr x ∈ mn_addr <$> mj_minors k) as Hin by (apply list_elem_of_fmap; eauto). apply Hrest.
        -- intros E. apply Hg1. rewrite <-E. apply elem_addrs. exists k. split; [set_solver|right; eauto].
        -- intros K' k' [-> [= ->]]%app_inj_tail E. apply Hnk. by rewrite <-E.
        -- intros k' K' E E'. apply (Hd12 (mj_addr k')); [|by eapply Hh2]. rewrite <-E'. apply elem_addrs. exists k.
           split; [set_solver|right; eauto].
    + destruct G2 as [|k K]; [done|]. cbn in H2. destruct H2 as (_&Hm&H2). cbn in Hn2.
      apply NoDup_cons in Hn2 as [Hnk Hn2]. apply NoDup_app in Hn2 as (_&HdK&_). cbn. split_and!; [by apply Hhead| |].
      * apply (minors_seg_ext H); [done|]. intros x Hx.
        assert (mn_addr x ∈ mn_addr <$> mj_minors k) as Hin by (apply list_elem_of_fmap; eauto). apply Hrest.
        -- intros E. apply Hg2. rewrite <-E. apply elem_addrs. exists k. split; [set_solver|right; eauto].
        -- intros K' k' E E'. apply (Hd12 (mj_addr k')); [by eapply Hl1|]. rewrite <-E'. apply elem_addrs. exists k.
           split; [set_solver|right; eauto].
        -- intros k' K' [= <- <-] E. apply Hnk. apply elem_of_app. left. by rewrite <-E.
      * apply (majors_seg_ext H); [done|]. intros a Ha. apply Hrest.
        -- intros ->. apply Hg2. right. apply elem_of_app. by right.
        -- intros K' k' E ->. apply (Hd12 (mj_addr k')); [by eapply Hl1|]. right. apply elem_of_app. by right.
        -- intros k' K' [= <- <-] ->. apply Hnk. apply elem_of_app. by right.
  - intros a Ha. destruct (decide (a ∈ addrs (G1 ++ G2))) as [|Hin]; [done|exfalso]. rewrite addrs_app, elem_of_app in Hin.
    assert (a ≠ mj_addr g) by (intros ->; rewrite Hg in Ha; by destruct Ha).
    rewrite Hrest in Ha; [|done|intros K k E ->; apply Hin; left; by eapply Hl1|intros k K E ->; apply Hin; right; by eapply Hh2].
    specialize (Hd a Ha). rewrite addrs_app in Hd. cbn in Hd. rewrite Hmin in Hd. cbn in Hd.
    rewrite elem_of_app, elem_of_cons in Hd. tauto.
Qed.


(** ** Alignment *)

Section align.
Context (ALIGNMENT : Z).

(** An alignment of the compiler's: a power of two, small enough for the byte that
    keeps the distance. *)
Definition alignment_ok : Prop := ∃ k, 0 < k ≤ 6 ∧ ALIGNMENT = 2 ^ k.

Definition round_up (a : Z) : Z := if a mod ALIGNMENT =? 0 then a else a + (ALIGNMENT - a mod ALIGNMENT).

(** The pointer to the user's bytes of the minor at [a]. *)
Definition user_ptr (a : Z) : Z := round_up (a + 40).

Context (HA : alignment_ok).

Lemma alignment_bounds : 2 ≤ ALIGNMENT ≤ 64.
Proof.
  destruct HA as (k&Hk&->). split; [change 2 with (2 ^ 1) at 1|change 64 with (2 ^ 6)]; apply Z.pow_le_mono_r; lia.
Qed.

Lemma alignment_pos : 0 < ALIGNMENT.
Proof. pose proof alignment_bounds. lia. Qed.

Lemma round_up_spec a : a ≤ round_up a < a + ALIGNMENT ∧ round_up a mod ALIGNMENT = 0.
Proof.
  pose proof alignment_bounds. unfold round_up. pose proof (Z.mod_pos_bound a ALIGNMENT ltac:(lia)).
  destruct (Z.eqb_spec (a mod ALIGNMENT) 0); [lia|]. split; [lia|].
  rewrite (Z.div_mod a ALIGNMENT) at 1 by lia.
  replace (ALIGNMENT * (a / ALIGNMENT) + a mod ALIGNMENT + (ALIGNMENT - a mod ALIGNMENT)) with
    ((a / ALIGNMENT + 1) * ALIGNMENT) by lia. by apply Z.mod_mul; lia.
Qed.

Lemma user_ptr_spec a : a + 40 ≤ user_ptr a < a + 40 + ALIGNMENT ∧ user_ptr a mod ALIGNMENT = 0.
Proof. apply round_up_spec. Qed.

Lemma land_mask a : 0 ≤ a → Z.land a (ALIGNMENT - 1) = a mod ALIGNMENT.
Proof.
  intros Ha. destruct HA as (k&Hk&->). replace (2 ^ k - 1) with (Z.ones k) by (rewrite Z.ones_equiv; lia).
  apply Z.land_ones. lia.
Qed.

Lemma ALIGN_eq m a : 0 ≤ a → a + 40 + ALIGNMENT ≤ 2 ^ 32 →
  ALIGN ALIGNMENT m (a + 24) =
  (m ← store m (user_ptr a - 16) (user_ptr a - (a + 24)); Done (user_ptr a, m)).
Proof.
  intros Ha Hb. pose proof alignment_bounds. pose proof (user_ptr_spec a) as [Hu _]. unfold ALIGN, ALIGN_INFO.
  rewrite (proj2 (Z.ltb_lt 1 ALIGNMENT)) by lia. replace (a + 24 + 16) with (a + 40) by lia.
  rewrite (u32_id (a + 40)) by lia. rewrite land_mask by lia. unfold user_ptr, round_up in *.
  pose proof (Z.mod_pos_bound (a + 40) ALIGNMENT ltac:(lia)).
  destruct (Z.eqb_spec ((a + 40) mod ALIGNMENT) 0) as [He|He]; cbn [negb].
  - rewrite (u32_id (a + 40 - 16)) by lia. rewrite He. do 2 f_equal. lia.
  - rewrite (u32_id (a + 40 + (ALIGNMENT - (a + 40) mod ALIGNMENT))) by lia.
    rewrite u32_id by lia. do 2 f_equal. lia.
Qed.

Lemma UNALIGN_eq m a : 0 ≤ a → a + 40 + ALIGNMENT ≤ 2 ^ 32 →
  m !! (user_ptr a - 16) = Some (user_ptr a - (a + 24)) → UNALIGN ALIGNMENT m (user_ptr a) = Done (a + 24).
Proof.
  intros Ha Hb Hm. pose proof alignment_bounds. pose proof (user_ptr_spec a) as [Hu _]. unfold UNALIGN, ALIGN_INFO.
  rewrite (proj2 (Z.ltb_lt 1 ALIGNMENT)) by lia. rewrite (u32_id (user_ptr a - 16)) by lia.
  rewrite (load_Done _ _ _ Hm). cbn [mbind outcome_bind].
  rewrite (sext_id 8) by (change (2 ^ (8 - 1)) with 128; lia). rewrite (u32_id (user_ptr a - (a + 24))) by lia.
  rewrite (proj2 (Z.ltb_lt _ _)) by lia. rewrite u32_id by lia. f_equal. lia.
Qed.

End align.

(** ** Placing a block *)

(** Reading and writing fields of owned structures. *)
Ltac find_struct :=
  repeat first [ apply lookup_insert_eq | eassumption | rewrite lookup_insert_ne by (congruence || lia) ].
Ltac step_get :=
  match goal with
  | Ho : owns ?m0 ?H ?m |- context [get_field ?m ?a ?k] =>
      let Hw := fresh "Hw" in
      eassert (H !! a = Some _) as Hw by find_struct;
      rewrite (get_field_owns m0 H m a _ k _ Ho Hw eq_refl); clear Hw; cbn [mbind outcome_bind]
  end.
Ltac step_set :=
  match goal with
  | Ho : owns ?m0 ?H ?m |- context [set_field ?m ?a ?k ?v] =>
      let m1 := fresh "m" in let E := fresh "E" in let Ho1 := fresh "Ho" in let Hw := fresh "Hw" in
      eassert (H !! a = Some _) as Hw by find_struct;
      destruct (set_field_owns m0 H m a _ k v Ho Hw) as (m1&E&Ho1);
        [by apply Nat.ltb_lt|unfold is_word; (assumption || lia)|rewrite E; clear E Hw; try clear Ho; cbn [mbind outcome_bind]]
  end.
Ltac read_struct :=
  repeat first [ rewrite lookup_insert_eq | rewrite lookup_insert_ne by (congruence || lia) ].

Section place.
Context (ALIGNMENT : Z) (HA : alignment_ok ALIGNMENT).
Context (m : memory) (H : structs) (G1 G2 : list major) (g : major) (l1 l2 : list minor) (size req : Z).

Definition new_addr : Z := fin (mj_addr g + 24) l1.
Definition new_minor : minor := mk_minor new_addr size req.
Definition placed_major : major := with_minors g (l1 ++ new_minor :: l2).

Context (Ho : owns m H m) (Hr : rep (G1 ++ g :: G2) H) (HG : geom ALIGNMENT (G1 ++ g :: G2)).
Context (Hl : mj_minors g = l1 ++ l2) (Hm : mapped m (mj_addr g) (mj_size g)).
Context (Hreq : 0 ≤ req) (Hsize : req + ALIGNMENT + 16 ≤ size) (Hroom : new_addr + 24 + size ≤ head_minor l2 (mj_end g)).

Lemma place_geom : geom ALIGNMENT (G1 ++ placed_major :: G2).
Proof.
  apply geom_with; [done|]. apply minors_in_insert; [|done|done|done|done].
  rewrite <-Hl. by apply geom_split in HG as ((_&_&_&?)&_).
Qed.

Lemma place_bounds : mj_addr g + 24 ≤ new_addr ∧ new_addr + 24 + size ≤ mj_end g ∧ 0 < mj_addr g ∧ mj_end g ≤ 2 ^ 32 ∧
  24 ≤ mj_used g ∧ mj_used placed_major = mj_used g + (size + 24) ∧ mj_used placed_major ≤ mj_size g.
Proof.
  pose proof (geom_split _ _ _ _ place_geom) as ((H0&_&H1&Hp)&_&_). pose proof (geom_split _ _ _ _ HG) as ((_&_&_&Hq)&_&_).
  cbn in H0, H1. change (mj_end placed_major) with (mj_end g) in *.
  apply minors_in_le in Hp as Hs. change (mj_addr placed_major) with (mj_addr g) in Hs.
  destruct (minors_in_elem _ (alignment_pos _ HA) _ _ _ new_minor Hp) as (Ha&Hb&_); [cbn; set_solver|]. cbn in Ha, Hb. unfold mn_end in Hb. cbn in Hb.
  apply minors_sum_nonneg in Hq; [|by apply alignment_pos].
  unfold mj_used, placed_major, with_minors in *. cbn in *. rewrite Hl in *.
  rewrite !minors_sum_app in *. cbn in *. unfold mj_end in *. lia.
Qed.

Lemma place_fresh : NoDup (new_addr :: addrs (G1 ++ g :: G2)).
Proof.
  change new_addr with (mn_addr new_minor). rewrite <-(addrs_with G1 g G2 l1 l2 new_minor Hl).
  apply (addrs_NoDup ALIGNMENT (alignment_pos _ HA)), place_geom.
Qed.

(** The header of the new minor can be taken for a structure. *)
Lemma place_header : H !! new_addr = None ∧ ∃ w0 w1 w2 w3 w4 w5, owns m (<[new_addr := [w0; w1; w2; w3; w4; w5]]> H) m.
Proof.
  pose proof place_fresh as [Hn _]%NoDup_cons. destruct Hr as [_ Hd].
  assert (H !! new_addr = None) as HN. { destruct (H !! new_addr) eqn:E; [|done]. exfalso. apply Hn, Hd. by rewrite E. }
  split; [done|]. pose proof place_bounds as (?&?&?&?&_). pose proof (alignment_bounds _ HA).
  destruct (owns_add m H m new_addr 6 Ho) as (ws&Hlen&How).
  - intros i Hi. replace (new_addr + i) with (mj_addr g + (new_addr + i - mj_addr g)) by lia. apply Hm.
    unfold mj_end in *. lia.
  - intros b ws Hb.
    assert (b ∈ addrs (G1 ++ g :: G2)) as Hin by (apply Hd; by rewrite Hb).
    rewrite (rep_span _ _ _ _ Hr Hb).
    destruct (gap_free ALIGNMENT (alignment_pos _ HA) G1 g G2 l1 l2 new_addr 24 b HG Hl); [done|lia|lia|done|lia|lia].
  - done.
  - destruct ws as [|w0 [|w1 [|w2 [|w3 [|w4 [|w5 [|]]]]]]]; try done. eauto 10.
Qed.

Lemma place_major_words : H !! mj_addr g = Some (major_words g (last_major 0 G1) (head_major G2 0)).
Proof. destruct Hr as [Hs _]. by apply majors_seg_app in Hs as [_ [Hg _]]. Qed.

Lemma place_last_words l0 y : l1 = l0 ++ [y] →
  H !! mn_addr y = Some (minor_words y (last_minor 0 l0) (head_minor l2 0) (mj_addr g)).
Proof.
  intros E. destruct Hr as [Hs _]. apply majors_seg_app in Hs as [_ (_&Hms&_)]. rewrite Hl, E in Hms.
  apply minors_seg_app in Hms as [Hms _]. by apply minors_seg_app in Hms as [_ [Hy _]].
Qed.

Lemma place_head_words y l3 : l2 = y :: l3 →
  H !! mn_addr y = Some (minor_words y (last_minor 0 l1) (head_minor l3 0) (mj_addr g)).
Proof.
  intros E. destruct Hr as [Hs _]. apply majors_seg_app in Hs as [_ (_&Hms&_)]. rewrite Hl, E in Hms.
  by apply minors_seg_app in Hms as [_ [Hy _]].
Qed.

(** What every case has to show. *)
Definition place_result (e : outcome (Z * memory)) : Prop :=
  ∃ m2 H2, e = ALIGN ALIGNMENT m2 (new_addr + 24) ∧ owns m H2 m2 ∧ rep (G1 ++ placed_major :: G2) H2.

(** The words that the cases write are words. *)
Lemma place_words : is_word new_addr ∧ is_word (mj_addr g) ∧ is_word size ∧ is_word req ∧ is_word LIBALLOC_MAGIC ∧
  is_word 0 ∧ u32 (mj_used g + (size + sizeof_minor)) = mj_used placed_major ∧ is_word (mj_used placed_major) ∧
  u32 (mj_addr g + sizeof_major) = mj_addr g + 24 ∧ u32 (new_addr + sizeof_minor) = new_addr + 24.
Proof.
  pose proof place_bounds as (H1&H2&H3&H4&H5&H6&H7). pose proof (alignment_bounds _ HA). unfold mj_end in *.
  unfold is_word, sizeof_major, sizeof_minor, LIBALLOC_MAGIC.
  split_and!; try lia; rewrite u32_id; lia.
Qed.

Lemma placed_head : l1 = [] → head_minor (mj_minors placed_major) 0 = new_addr.
Proof. intros E. cbn. rewrite head_minor_app. by rewrite E at 1. Qed.

Lemma placed_head_old l0 y : l1 = l0 ++ [y] → head_minor (mj_minors placed_major) 0 = head_minor (mj_minors g) 0.
Proof. intros E. cbn. rewrite Hl, E, <-!app_assoc. cbn. by rewrite !head_minor_app. Qed.

Lemma place_only_ok : l1 = [] → l2 = [] → place_result (place_only ALIGNMENT m (mj_addr g) size req).
Proof.
  intros E1 E2. destruct place_words as (?&?&?&?&?&?&Eu&?&Ea&En). destruct place_header as [HN (w0&w1&w2&w3&w4&w5&Hh)].
  pose proof place_major_words as Hg. pose proof place_fresh as Hf. pose proof place_bounds as (?&_).
  assert (new_addr = mj_addr g + 24) as Hna by (unfold new_addr; by rewrite E1).
  unfold place_result, place_only. rewrite Ea, <-Hna. clear Ho. step_set. step_get. do 6 step_set.
  unfold add_usage. step_get. cbn [major_words]. rewrite Eu. step_set. rewrite En.
  eexists _, _. split; [done|]. split; [done|]. apply (rep_place G1 g G2 l1 new_minor l2 H); [done|done|done| | | | |].
  - cbn [mn_addr new_minor]. read_struct. rewrite E1, E2. done.
  - fold placed_major. unfold major_words. rewrite placed_head by done. by read_struct.
  - intros l0 y El. rewrite E1 in El. by destruct l0.
  - intros y l3 El. by rewrite E2 in El.
  - intros a Ha1 Ha2 _ _. cbn in Ha1. by read_struct.
Qed.

Lemma place_head_range y l3 : l2 = y :: l3 → new_addr + 24 + size ≤ mn_addr y ∧ mn_addr y + 24 ≤ mj_end g.
Proof.
  intros E. split; [by rewrite E in Hroom|]. apply (header_range ALIGNMENT (alignment_pos _ HA)).
  - by apply geom_split in HG as [? _].
  - right. exists y. split; [|done]. rewrite Hl, E. set_solver.
Qed.

Lemma place_last_range l0 y : l1 = l0 ++ [y] →
  mj_addr g + 24 ≤ mn_addr y ∧ mn_addr y + 24 + mn_size y = new_addr ∧ 0 ≤ mn_size y.
Proof.
  intros E. apply geom_split in HG as ((_&_&_&Hi)&_). pose proof (alignment_pos _ HA).
  destruct (minors_in_elem _ (alignment_pos _ HA) _ _ _ y Hi) as (?&_&?&?); [rewrite Hl, E; set_solver|].
  split_and!; [done| |lia]. unfold new_addr. rewrite E, fin_app. done.
Qed.

Lemma place_front_ok y l3 : l1 = [] → l2 = y :: l3 → place_result (place_front ALIGNMENT m (mj_addr g) size req).
Proof.
  intros E1 E2. destruct place_words as (?&?&?&?&?&?&Eu&?&Ea&En). destruct place_header as [HN (w0&w1&w2&w3&w4&w5&Hh)].
  pose proof place_major_words as Hg. pose proof place_fresh as Hf. pose proof place_bounds as (?&?&?&?&?).
  pose proof (place_head_words y l3 E2) as Hy. destruct (place_head_range y l3 E2). pose proof (alignment_pos _ HA).
  assert (is_word (mn_addr y)) by (unfold is_word; lia).
  assert (new_addr = mj_addr g + 24) as Hna by (unfold new_addr; by rewrite E1).
  unfold place_result, place_front. rewrite Ea, <-Hna. clear Ho. step_get.
  replace (head_minor (mj_minors g) 0) with (mn_addr y) by (by rewrite Hl, E1, E2).
  step_set. step_get. do 2 step_set. step_get. do 5 step_set.
  unfold add_usage. step_get. rewrite Eu. step_set. rewrite En.
  eexists _, _. split; [done|]. split; [done|]. apply (rep_place G1 g G2 l1 new_minor l2 H); [done|done|done| | | | |].
  - cbn [mn_addr new_minor]. read_struct. rewrite E1, E2. done.
  - fold placed_major. unfold major_words. rewrite placed_head by done. by read_struct.
  - intros l0 z El. rewrite E1 in El. by destruct l0.
  - intros z l4 El. rewrite E2 in El. injection El as <- <-. read_struct. by rewrite E1.
  - intros a Ha1 Ha2 _ Ha3. cbn in Ha1. assert (a ≠ mn_addr y) by (intros ->; apply Ha3; by exists y, l3).
    by read_struct.
Qed.

Lemma place_last_ok l0 y : l1 = l0 ++ [y] → l2 = [] →
  place_result (place_last ALIGNMENT m (mj_addr g) (mn_addr y) (mn_size y) size req).
Proof.
  intros E1 E2. destruct place_words as (?&?&?&?&?&?&Eu&?&Ea&En). destruct place_header as [HN (w0&w1&w2&w3&w4&w5&Hh)].
  pose proof place_major_words as Hg. pose proof place_fresh as Hf. pose proof place_bounds as (?&?&?&?&?).
  pose proof (place_last_words l0 y E1) as Hy. destruct (place_last_range l0 y E1) as (?&Hna&?). pose proof (alignment_pos _ HA).
  assert (is_word (mn_addr y)) by (unfold is_word; lia).
  unfold place_result, place_last. clear Ho.
  replace (u32 (mn_addr y + sizeof_minor + mn_size y)) with new_addr by (unfold sizeof_minor; by rewrite Hna, u32_id).
  step_set. step_get. do 6 step_set. unfold add_usage. step_get. rewrite Eu. step_set. rewrite En.
  eexists _, _. split; [done|]. split; [done|]. apply (rep_place G1 g G2 l1 new_minor l2 H); [done|done|done| | | | |].
  - cbn [mn_addr new_minor]. read_struct. rewrite E1, last_minor_app, E2. done.
  - fold placed_major. unfold major_words. rewrite (placed_head_old l0 y) by done. by read_struct.
  - intros l0' y' El. rewrite E1 in El. apply app_inj_tail in El as [<- <-]. by read_struct.
  - intros z l4 El. by rewrite E2 in El.
  - intros a Ha1 Ha2 Ha3 _. cbn in Ha1. assert (a ≠ mn_addr y) by (intros ->; apply Ha3; by exists l0, y).
    by read_struct.
Qed.

Lemma place_between_ok l0 y z l3 : l1 = l0 ++ [y] → l2 = z :: l3 →
  place_result (place_between ALIGNMENT m (mj_addr g) (mn_addr y) (mn_size y) size req).
Proof.
  intros E1 E2. destruct place_words as (?&?&?&?&?&?&Eu&?&Ea&En). destruct place_header as [HN (w0&w1&w2&w3&w4&w5&Hh)].
  pose proof place_major_words as Hg. pose proof place_fresh as Hf. pose proof place_bounds as (?&?&?&?&?).
  pose proof (place_last_words l0 y E1) as Hy. destruct (place_last_range l0 y E1) as (?&Hna&?). pose proof (alignment_pos _ HA).
  pose proof (place_head_words z l3 E2) as Hz. destruct (place_head_range z l3 E2).
  rewrite E2 in Hy. cbn [head_minor] in Hy.
  assert (is_word (mn_addr y) ∧ is_word (mn_addr z)) as [??] by (unfold is_word; lia).
  unfold place_result, place_between. clear Ho.
  replace (u32 (mn_addr y + sizeof_minor + mn_size y)) with new_addr by (unfold sizeof_minor; by rewrite Hna, u32_id).
  step_set. step_get. do 5 step_set. step_get. do 2 step_set. unfold add_usage. step_get. rewrite Eu. step_set. rewrite En.
  eexists _, _. split; [done|]. split; [done|]. apply (rep_place G1 g G2 l1 new_minor l2 H); [done|done|done| | | | |].
  - cbn [mn_addr new_minor]. read_struct. rewrite E1, last_minor_app, E2. done.
  - fold placed_major. unfold major_words. rewrite (placed_head_old l0 y) by done. by read_struct.
  - intros l0' y' El. rewrite E1 in El. apply app_inj_tail in El as [<- <-]. by read_struct.
  - intros z' l4 El. rewrite E2 in El. injection El as <- <-. by read_struct.
  - intros a Ha1 Ha2 Ha3 Ha4. cbn in Ha1. assert (a ≠ mn_addr y) by (intros ->; apply Ha3; by exists l0, y).
    assert (a ≠ mn_addr z) by (intros ->; apply Ha4; by exists z, l3). by read_struct.
Qed.

End place.

(** ** Blocks of different users *)

Definition mn_apart (x y : minor) : Prop := mn_end x ≤ mn_addr y ∨ mn_end y ≤ mn_addr x.

Lemma mn_apart_sym x y : mn_apart x y → mn_apart y x.
Proof. unfold mn_apart. tauto. Qed.

Section apart.
Context (ALIGNMENT : Z) (HA : 0 < ALIGNMENT).

Lemma minors_apart lo l hi : minors_in ALIGNMENT lo l hi → pairwise mn_apart l.
Proof.
  revert lo. induction l as [|x l IH]; intros lo; cbn; [done|]. intros (Hx&H0&Hr&Hl). split; [|by eapply IH].
  apply Forall_forall. intros y Hy. apply (minors_in_elem _ HA _ _ _ _ Hl) in Hy. left. lia.
Qed.

Lemma live_range G x : geom ALIGNMENT G → x ∈ live G → ∃ g, g ∈ G ∧ mj_addr g + 24 ≤ mn_addr x ∧ mn_end x ≤ mj_end g ∧
  0 ≤ mn_req x ∧ mn_req x + ALIGNMENT + 16 ≤ mn_size x ∧ 0 < mj_addr g ∧ mj_end g ≤ 2 ^ 32.
Proof.
  intros [HF _] (g&Hg&Hx)%elem_live. rewrite Forall_forall in HF. destruct (HF g Hg) as (?&_&?&Hm).
  apply (minors_in_elem _ HA _ _ _ _ Hm) in Hx. exists g. intuition.
Qed.

Lemma live_apart G : geom ALIGNMENT G → pairwise mn_apart (live G).
Proof.
  induction G as [|g G IH]; intros HG; [done|]. destruct (geom_split _ [] g G HG) as ((_&_&_&Hm)&HG'&Ho).
  change (live (g :: G)) with (mj_minors g ++ live G). apply pairwise_app; [by eapply minors_apart|by apply IH|].
  intros x y Hx Hy. apply (minors_in_elem _ HA _ _ _ _ Hm) in Hx. destruct (live_range G y HG' Hy) as (g'&Hg'&?).
  destruct (Ho g' Hg'); unfold mn_apart; lia.
Qed.

End apart.

(** The bytes of the blocks, between their headers. *)
Definition same_payload (G : list major) (m m' : memory) : Prop :=
  ∀ x z, x ∈ live G → mn_addr x + 24 ≤ z < mn_end x → m' !! z = m !! z.

Definition same_dom (m m' : memory) : Prop := ∀ z, is_Some (m' !! z) ↔ is_Some (m !! z).

Section finish.
Context (ALIGNMENT : Z) (HA : alignment_ok ALIGNMENT).

(** The byte that keeps the distance from the pointer to the block. *)
Definition aligned_byte (m : memory) (x : minor) : Prop :=
  m !! (user_ptr ALIGNMENT (mn_addr x) - 16) = Some (user_ptr ALIGNMENT (mn_addr x) - (mn_addr x + 24)).

Lemma aligned_byte_ext G x m m' : geom ALIGNMENT G → x ∈ live G → same_payload G m m' → aligned_byte m x → aligned_byte m' x.
Proof.
  intros HG Hx Hs Hb. unfold aligned_byte. rewrite (Hs x); [done|done|].
  destruct (user_ptr_spec _ HA (mn_addr x)) as [Hu _].
  destruct (live_range ALIGNMENT (alignment_pos _ HA) G x HG Hx) as (g&_&_&_&?&?&_).
  unfold mn_end. lia.
Qed.

Lemma payload_outside G H x z : geom ALIGNMENT G → rep G H → x ∈ live G → mn_addr x + 24 ≤ z < mn_end x → outside H z.
Proof.
  intros HG Hr Hx Hz a ws Ha. rewrite (rep_span _ _ _ _ Hr Ha).
  apply (payload_free _ (alignment_pos _ HA) G x a z HG Hx); [|done]. destruct Hr as [_ Hd]. apply Hd. by rewrite Ha.
Qed.

Lemma finish_place m H G1 G2 g l1 l2 size req e :
  owns m H m → rep (G1 ++ g :: G2) H → geom ALIGNMENT (G1 ++ g :: G2) → mj_minors g = l1 ++ l2 →
  mapped m (mj_addr g) (mj_size g) → 0 ≤ req → req + ALIGNMENT + 16 ≤ size →
  new_addr g l1 + 24 + size ≤ head_minor l2 (mj_end g) → Forall (aligned_byte m) (live (G1 ++ g :: G2)) →
  place_result ALIGNMENT m G1 G2 g l1 l2 size req e →
  let G' := G1 ++ placed_major g l1 l2 size req :: G2 in
  ∃ m' H', e = Done (user_ptr ALIGNMENT (new_addr g l1), m') ∧ rep G' H' ∧ owns m' H' m' ∧
    Forall (aligned_byte m') (live G') ∧ same_payload (G1 ++ g :: G2) m m' ∧ same_dom m m'.
Proof.
  intros Ho Hr HG Hl Hm Hreq Hsize Hroom Hb (m2&H2&->&Ho2&Hr2) G'.
  assert (geom ALIGNMENT G') as HG' by by apply (place_geom ALIGNMENT).
  pose proof (place_bounds ALIGNMENT HA m H G1 G2 g l1 l2 size req Ho Hr HG Hl Hm Hreq Hsize Hroom) as (?&?&?&?&_).
  pose proof (alignment_bounds _ HA). set (a := new_addr g l1) in *. set (x := new_minor g l1 size req).
  destruct (user_ptr_spec _ HA a) as [Hu _].
  assert (live G' ≡ₚ x :: live (G1 ++ g :: G2)) as HP by by apply live_with.
  assert (x ∈ live G') as Hx by (rewrite HP; by left).
  assert (mn_addr x + 24 ≤ user_ptr ALIGNMENT a - 16 < mn_end x) as Hin by (unfold mn_end; cbn; fold a; lia).
  rewrite ALIGN_eq by (done || lia).
  destruct (store_owns m H2 m2 (user_ptr ALIGNMENT a - 16) (user_ptr ALIGNMENT a - (a + 24))) as (m'&E&Ho'&Hbyte); [done| | |].
  { by apply (payload_outside G' H2 x). }
  { apply (ow_dom _ _ _ Ho2). replace (user_ptr ALIGNMENT a - 16) with (mj_addr g + (user_ptr ALIGNMENT a - 16 - mj_addr g)) by lia.
    apply Hm. unfold mj_end in *. lia. }
  rewrite u8_id in Hbyte by lia. rewrite E. cbn [mbind outcome_bind]. exists m', H2.
  assert (same_payload (G1 ++ g :: G2) m m') as Hsame.
  { intros y z Hy Hz. rewrite (ow_out _ _ _ Ho').
    - rewrite lookup_insert_ne; [done|]. intros <-. pose proof (live_apart _ (alignment_pos _ HA) G' HG') as Hap.
      apply (pairwise_perm _ mn_apart_sym _ _ HP) in Hap as [Hap _]. rewrite Forall_forall in Hap.
      destruct (Hap y Hy); lia.
    - apply (payload_outside G' H2 y); [done|done| |done]. rewrite HP. by right. }
  split_and!; [done|done|by eapply owns_rebase| |done|].
  - rewrite HP. constructor; [done|]. apply Forall_forall. intros y Hy. rewrite Forall_forall in Hb.
    by apply (aligned_byte_ext (G1 ++ g :: G2) y m); [| |done|apply Hb].
  - intros z. rewrite (ow_dom _ _ _ Ho' z). destruct (decide (user_ptr ALIGNMENT a - 16 = z)) as [<-|].
    + rewrite lookup_insert_eq. split; [intros _|eauto]. rewrite <-(ow_dom _ _ _ Ho2).
      by apply (store_Done_inv _ _ _ _ E).
    + by rewrite lookup_insert_ne.
Qed.

End finish.
