(* ===== verification/LiballocOps.v ===== *)
(** * What the memory allocator does

    The specifications of [malloc], [free], [calloc] and [realloc] on the blocks of
    [LiballocHeap], against what the allocator expects of the source of its pages. *)

From stdpp Require Import base numbers list option gmap sets.
From S2P Require Import Prelude.
From S2P Require Import ByteMem.
From S2P Require Import Words.
From S2P Require Import Liballoc.
From S2P Require Import LiballocHeap.

Local Open Scope Z_scope.

(** ** Pages from the system *)

(** What the allocator expects of [liballoc_alloc] and [liballoc_free]: the regions
    given out are mapped and apart, null means no change, and only the memory of a
    region changes when it comes or goes.  Neither needs to return; and [liballoc_alloc]
    may give an address at which there is no memory, as the one of the C library does
    when there are no pages.  It is asked for [max_pages] pages at most. *)
Class PageSource {Sys} (max_pages : Z) (liballoc_alloc : Sys → memory → Z → outcome (Z * Sys * memory))
    (liballoc_free : Sys → memory → Z → Z → outcome (Sys * memory))
    (sys_inv : Sys → memory → list (Z * Z) → Prop) : Prop := {
  ps_perm s m L L' : L ≡ₚ L' → sys_inv s m L → sys_inv s m L';
  ps_ext s m m' L : same_dom m m' → bytes_ok m' → sys_inv s m L → sys_inv s m' L;
  ps_ok s m L : sys_inv s m L → bytes_ok m ∧ pairwise apart L ∧
    Forall (λ r, 0 < r.1 ∧ 0 < r.2 ∧ r.1 + r.2 * 4096 ≤ 2 ^ 32 ∧ mapped m r.1 (r.2 * 4096)) L;
  ps_alloc s m L n a s' m' : sys_inv s m L → 0 < n ≤ max_pages → liballoc_alloc s m n = Done (a, s', m') →
    (a = 0 ∧ m' = m ∧ sys_inv s' m L) ∨
    (a ≠ 0 ∧ m' !! a = None) ∨
    (a ≠ 0 ∧ sys_inv s' m' ((a, n) :: L) ∧ ∀ z, ¬ (a ≤ z < a + n * 4096) → m' !! z = m !! z);
  ps_free s m L a n s' m' : sys_inv s m ((a, n) :: L) → liballoc_free s m a n = Done (s', m') → sys_inv s' m' L ∧
    ∀ z, ¬ (a ≤ z < a + n * 4096) → m' !! z = m !! z;
}.

Fixpoint sizes (l : list minor) : Z := match l with [] => 0 | x :: l => mn_size x + sizes l end.
Fixpoint pages_total (L : list (Z * Z)) : Z := match L with [] => 0 | r :: L => r.2 * 4096 + pages_total L end.

Lemma sizes_perm l l' : l ≡ₚ l' → sizes l = sizes l'.
Proof. induction 1; cbn; lia. Qed.

Lemma pages_total_perm L L' : L ≡ₚ L' → pages_total L = pages_total L'.
Proof. induction 1; cbn; lia. Qed.

Lemma u64_add a b : u64 (u64 a + b) = u64 (a + b).
Proof. unfold u64. by rewrite Zplus_mod_idemp_l. Qed.

Lemma regions_with G1 g G2 l : regions (G1 ++ with_minors g l :: G2) = regions (G1 ++ g :: G2).
Proof. by rewrite !regions_app. Qed.

(** An address that is null or that of a major. *)
Definition major_or_null (G : list major) (a : Z) : Prop := a = 0 ∨ ∃ g, g ∈ G ∧ a = mj_addr g.

Lemma best_with G1 g G2 l a : major_or_null (G1 ++ g :: G2) a → major_or_null (G1 ++ with_minors g l :: G2) a.
Proof.
  intros [|(g'&Hg'&->)]; [by left|right]. apply elem_of_app in Hg' as [Hg'|[->|Hg']%elem_of_cons].
  - exists g'. set_solver.
  - exists (with_minors g l). set_solver.
  - exists g'. set_solver.
Qed.

(** *** Blocks of bytes *)

Lemma liballoc_memset_spec n m s c : mapped m s (Z.of_nat n) →
  liballoc_memset n m s c = Done (write_bytes m s (replicate n (u8 c))).
Proof.
  revert m s. induction n as [|n IH]; intros m s Hm; cbn [liballoc_memset replicate write_bytes]; [done|].
  rewrite store_mod by (rewrite <-(Z.add_0_r s); apply Hm; lia). cbn [mbind outcome_bind]. apply IH, mapped_insert.
  intros i Hi. replace (s + 1 + i) with (s + (i + 1)) by lia. apply Hm. lia.
Qed.

Lemma mapped_write m a l x n : mapped m x n → mapped (write_bytes m a l) x n.
Proof. revert m a. induction l as [|b l IH]; intros m a Hm; cbn; [done|]. by apply IH, mapped_insert. Qed.

Lemma mapped_sub m a n b k : mapped m a n → a ≤ b → b + k ≤ a + n → mapped m b k.
Proof. intros Hm ?? i Hi. replace (b + i) with (a + (b - a + i)) by lia. apply Hm. lia. Qed.

Lemma copy_words_spec n m d s l : bytes_ok m → length l = (4 * n)%nat → bytes_at m s l → mapped m d (4 * Z.of_nat n) →
  d + 4 * Z.of_nat n ≤ s ∨ s + 4 * Z.of_nat n ≤ d → copy_words n m d s = Done (write_bytes m d l).
Proof.
  revert m d s l. induction n as [|n IH]; intros m d s l Hok Hlen Hl Hm Hd; [by destruct l|].
  assert (length (take 4 l) = 4%nat) as Hl4 by (rewrite length_take; lia).
  rewrite <-(take_drop 4 l) in Hl. apply bytes_at_app in Hl as [Hw Hl]. rewrite Hl4 in Hl.
  destruct (bytes_word (take 4 l) Hl4 (bytes_at_ok _ _ _ Hok Hw)) as (v&Hv&Ev). cbn [copy_words].
  rewrite (load32_le32 m s v) by (rewrite ?Ev; done). cbn [mbind outcome_bind].
  rewrite store32_le32 by (eapply mapped_sub; [exact Hm|lia|lia]). cbn [mbind outcome_bind]. rewrite Ev.
  rewrite (IH _ _ _ (drop 4 l)).
  - f_equal. rewrite <-(take_drop 4 l) at 3. rewrite write_bytes_app, Hl4. done.
  - apply bytes_ok_write; [done|]. by eapply bytes_at_ok.
  - rewrite length_drop. lia.
  - apply bytes_at_write_other; [rewrite length_drop; lia|done].
  - apply mapped_write. eapply mapped_sub; [exact Hm|lia|lia].
  - lia.
Qed.

Lemma copy_rest_spec n m d s l : bytes_ok m → length l = n → bytes_at m s l → mapped m d (Z.of_nat n) →
  d + Z.of_nat n ≤ s ∨ s + Z.of_nat n ≤ d → copy_rest n m d s = Done (write_bytes m d l).
Proof. intros. change (copy_rest n m d s) with (movsb n m d s). apply movsb_spec; (done || lia). Qed.

Lemma liballoc_memcpy_spec m d s n l : bytes_ok m → Z.of_nat (length l) = n → bytes_at m s l → mapped m d n →
  d + n ≤ s ∨ s + n ≤ d → liballoc_memcpy m d s n = Done (write_bytes m d l).
Proof.
  intros Hok Hlen Hl Hm Hd. unfold liballoc_memcpy. set (k := (4 * Z.to_nat (n / 4))%nat).
  assert (Z.of_nat k = 4 * (n / 4)) as Ek by (unfold k; pose proof (Z.div_pos n 4 ltac:(lia) ltac:(lia)); lia).
  pose proof (Z.div_mod n 4 ltac:(lia)). pose proof (Z.mod_pos_bound n 4 ltac:(lia)).
  assert (length (take k l) = k) as Hk by (rewrite length_take; lia).
  rewrite <-(take_drop k l) in Hl. apply bytes_at_app in Hl as [H1 H2]. rewrite Hk in H2.
  rewrite (copy_words_spec _ m d s (take k l)) by (done || lia || (eapply mapped_sub; [exact Hm|lia|lia])).
  cbn [mbind outcome_bind]. rewrite <-Ek. rewrite (copy_rest_spec _ _ _ _ (drop k l)).
  - f_equal. by rewrite <-(take_drop k l) at 3; rewrite write_bytes_app, Hk.
  - apply bytes_ok_write; [done|]. by eapply bytes_at_ok.
  - rewrite length_drop. lia.
  - apply bytes_at_write_other; [rewrite length_drop; lia|done].
  - apply mapped_write. eapply mapped_sub; [exact Hm|lia|lia].
  - lia.
Qed.

Section ops.
Context {Sys : Type} (ALIGNMENT l_pageCount : Z).
Context (liballoc_alloc : Sys → memory → Z → outcome (Z * Sys * memory)).
Context (liballoc_free : Sys → memory → Z → Z → outcome (Sys * memory)).
Context (sys_inv : Sys → memory → list (Z * Z) → Prop).
Context {max_pages : Z} `{PS : !PageSource max_pages liballoc_alloc liballoc_free sys_inv}.
Context (HA : alignment_ok ALIGNMENT) (HP : 0 < l_pageCount < 2 ^ 20).
Implicit Types (h : heap Sys) (G : list major) (g : major).

Abbreviation geom := (geom ALIGNMENT).
Abbreviation user_ptr := (user_ptr ALIGNMENT).

(** ** The invariant *)

Record heap_rep h G (H : structs) : Prop := {
  hr_geom : geom G;
  hr_rep : rep G H;
  hr_owns : owns (h_mem h) H (h_mem h);
  hr_bytes : Forall (aligned_byte ALIGNMENT (h_mem h)) (live G);
  hr_sys : sys_inv (h_sys h) (h_mem h) (regions G);
  hr_root : l_memRoot h = head_major G 0;
  hr_best : major_or_null G (l_bestBet h);
  hr_inuse : l_inuse h = u64 (sizes (live G));
  hr_allocated : l_allocated h = u64 (pages_total (regions G));
}.

Definition heap_inv h G : Prop := ∃ H, heap_rep h G H.

Lemma heap_rep_best h G H a : heap_rep h G H → major_or_null G a → heap_rep (with_best h a) G H.
Proof. by intros [] Ha. Qed.

Lemma heap_rep_warn h G H : heap_rep h G H → heap_rep (warn h) G H.
Proof. by intros []. Qed.

Lemma heap_rep_mapped h G H g : heap_rep h G H → g ∈ G → mapped (h_mem h) (mj_addr g) (mj_size g).
Proof.
  intros Hh Hg. destruct (ps_ok _ _ _ (hr_sys _ _ _ Hh)) as (_&_&HF). rewrite Forall_forall in HF.
  destruct (HF (mj_addr g, mj_pages g)) as (_&_&_&Hm); [|done]. apply list_elem_of_fmap. by exists g.
Qed.

(** The words of a major. *)
Lemma heap_rep_major h G1 g G2 H : heap_rep h (G1 ++ g :: G2) H →
  H !! mj_addr g = Some (major_words g (last_major 0 G1) (head_major G2 0)).
Proof. intros Hh. destruct (hr_rep _ _ _ Hh) as [Hs _]. by apply majors_seg_app in Hs as [_ [Hg _]]. Qed.

Lemma heap_rep_geom h G1 g G2 H : heap_rep h (G1 ++ g :: G2) H →
  0 < mj_addr g ∧ mj_end g ≤ 2 ^ 32 ∧ 24 ≤ mj_used g ∧ mj_used g ≤ mj_size g.
Proof.
  intros Hh. destruct (geom_split _ _ _ _ (hr_geom _ _ _ Hh)) as ((?&_&?&Hm)&_).
  apply minors_in_le in Hm as Hs. apply minors_sum_nonneg in Hm; [|by apply alignment_pos]. unfold mj_used, mj_end in *. lia.
Qed.

(** There are no more headers than bytes. *)
Lemma heap_rep_count h G H : heap_rep h G H → (length (addrs G) ≤ size (h_mem h))%nat.
Proof.
  intros Hh. pose proof (addrs_NoDup _ (alignment_pos _ HA) G (hr_geom _ _ _ Hh)) as Hnd.
  rewrite <-size_dom, <-(size_list_to_set (C := gset Z)) by done.
  apply subseteq_size. intros a Ha. apply elem_of_list_to_set, elem_addrs in Ha as (g&Hg&Ha). apply elem_of_dom.
  destruct (hr_geom _ _ _ Hh) as [HF _]. rewrite Forall_forall in HF.
  destruct (header_range _ (alignment_pos _ HA) g a (HF g Hg) Ha). replace a with (mj_addr g + (a - mj_addr g)) by lia.
  apply (heap_rep_mapped h G H g Hh Hg). unfold mj_end in *. lia.
Qed.

Lemma length_addrs G1 g G2 : (length (mj_minors g) < length (addrs (G1 ++ g :: G2)))%nat.
Proof. rewrite addrs_app. cbn. rewrite length_app. cbn. rewrite length_app, length_fmap. lia. Qed.

Lemma length_majors G : (length G ≤ length (addrs G))%nat.
Proof. induction G as [|g G IH]; cbn; [lia|]. rewrite length_app. unfold addrs in IH. lia. Qed.

(** ** Looking for a place in a major *)

Section block.
Context (m : memory) (H : structs) (G1 G2 : list major) (g : major) (size req : Z).
Context (Ho : owns m H m) (Hr : rep (G1 ++ g :: G2) H) (HG : geom (G1 ++ g :: G2)).
Context (Hm : mapped m (mj_addr g) (mj_size g)) (Hreq : 0 ≤ req) (Hsize : req + ALIGNMENT + 16 ≤ size).
Context (Hfit : size + 24 < 2 ^ 32).

(** A place that was found: between [l1] and [l2]. *)
Definition found (e : outcome (option (Z * memory))) : Prop :=
  ∃ l1 l2 e', mj_minors g = l1 ++ l2 ∧ new_addr g l1 + 24 + size ≤ head_minor l2 (mj_end g) ∧
    place_result ALIGNMENT m G1 G2 g l1 l2 size req e' ∧ e = (r ← e'; Done (Some r)).

Lemma minor_words_at l1 y l2 : mj_minors g = l1 ++ y :: l2 →
  H !! mn_addr y = Some (minor_words y (last_minor 0 l1) (head_minor l2 0) (mj_addr g)).
Proof.
  intros E. destruct Hr as [Hs _]. apply majors_seg_app in Hs as [_ (_&Hms&_)]. rewrite E in Hms.
  by apply minors_seg_app in Hms as [_ [Hy _]].
Qed.

Lemma minor_range l1 y l2 : mj_minors g = l1 ++ y :: l2 →
  0 < mj_addr g ∧ mj_addr g + 24 ≤ mn_addr y ∧ 0 ≤ mn_size y ∧ mn_end y ≤ head_minor l2 (mj_end g) ∧
  head_minor l2 (mj_end g) ≤ mj_end g ∧ mj_end g ≤ 2 ^ 32.
Proof.
  intros E. pose proof (alignment_pos _ HA) as HA0. destruct (geom_split _ _ _ _ HG) as ((?&_&?&Hi)&_). rewrite E in Hi.
  pose proof Hi as Hi'. apply minors_in_app in Hi' as [Hl1 (Hy&?&?&Hl2)]. apply minors_in_lo in Hl1; [|done].
  split_and!; [done|lia|lia| | |done].
  - destruct l2 as [|z l2]; cbn in *; lia.
  - destruct l2 as [|z l2]; cbn; [lia|]. destruct (minors_in_elem _ HA0 _ _ _ z Hl2) as (_&Hz&?&?); [by left|].
    unfold mn_end in Hz. lia.
Qed.

Lemma scan_minors_ok fuel l1 y l2 : mj_minors g = l1 ++ y :: l2 → (length l2 + 1 < fuel)%nat →
  scan_minors ALIGNMENT fuel m (mj_addr g) (mn_addr y) size req = Done None ∨
  found (scan_minors ALIGNMENT fuel m (mj_addr g) (mn_addr y) size req).
Proof.
  revert fuel l1 y. induction l2 as [|z l2 IH]; intros [|fuel] l1 y E Hf; try (cbn in Hf; lia).
  all: pose proof (minor_words_at _ _ _ E) as Hy; pose proof (minor_range _ _ _ E) as (?&?&?&Hend&?&?).
  all: pose proof (alignment_pos _ HA); unfold mn_end in Hend; cbn [scan_minors]; rewrite (proj2 (Z.eqb_neq (mn_addr y) 0)) by lia.
  all: unfold sizeof_minor; rewrite (u32_id (size + 24)) by lia; do 2 step_get; cbn [head_minor] in *.
  - cbn [Z.eqb]. destruct Hr as [Hs _]. apply majors_seg_app in Hs as [_ [Hgw _]]. step_get.
    replace (mj_addr g + mj_size g) with (mj_end g) by done. rewrite u32_id by lia.
    destruct (Z.leb_spec (size + 24) (mj_end g - mn_addr y - 24 - mn_size y)) as [Hle|Hle].
    + right. eexists (l1 ++ [y]), [], _. split; [by rewrite app_nil_r|]. split_and!; [| |done].
      * unfold new_addr. rewrite fin_app. unfold mn_end. cbn. lia.
      * eapply place_last_ok with (H := H); try done. { by rewrite app_nil_r. }
        unfold new_addr. rewrite fin_app. unfold mn_end. cbn. lia.
    + left. destruct fuel; [cbn in Hf; lia|]. done.
  - assert (mj_minors g = (l1 ++ [y]) ++ z :: l2) as E' by (by rewrite <-app_assoc).
    pose proof (minor_range _ _ _ E') as (_&?&?&_&_&_). rewrite (proj2 (Z.eqb_neq (mn_addr z) 0)) by lia. rewrite u32_id by lia.
    destruct (Z.leb_spec (size + 24) (mn_addr z - mn_addr y - 24 - mn_size y)) as [Hle|Hle].
    + right. eexists (l1 ++ [y]), (z :: l2), _. split; [done|]. split_and!; [| |done].
      * unfold new_addr. rewrite fin_app. unfold mn_end. cbn. lia.
      * eapply place_between_ok with (H := H); try done.
        unfold new_addr. rewrite fin_app. unfold mn_end. cbn. lia.
    + by apply (IH fuel (l1 ++ [y]) z); [|cbn in Hf; lia].
Qed.

Lemma place_in_block_found : size + 24 ≤ mj_size g - mj_used g → (length (mj_minors g) < scan_fuel m)%nat →
  (place_in_block ALIGNMENT m (mj_addr g) size req = Done None ∧ mj_minors g ≠ []) ∨
  found (place_in_block ALIGNMENT m (mj_addr g) size req).
Proof.
  intros Hroom Hf. pose proof (alignment_pos _ HA). pose proof Hr as [Hs _]. apply majors_seg_app in Hs as [_ [Hgw _]].
  unfold place_in_block. step_get. unfold sizeof_minor, sizeof_major. rewrite (u32_id (size + 24)) by lia.
  destruct (mj_minors g) as [|y l] eqn:E; cbn [head_minor].
  - right. cbn [Z.eqb]. unfold found. eexists [], [], _. split; [done|]. split_and!; [| |done].
    + unfold new_addr, mj_end, mj_used in *. rewrite E in Hroom. cbn in *. lia.
    + eapply place_only_ok with (H := H); try done. unfold new_addr, mj_end, mj_used in *. rewrite E in Hroom. cbn in *. lia.
  - destruct (minor_range [] y l E) as (?&?&?&Hend&?&?). unfold mn_end in Hend.
    rewrite (proj2 (Z.eqb_neq (mn_addr y) 0)) by lia. rewrite u32_id by lia.
    destruct (Z.leb_spec (size + 24) (mn_addr y - mj_addr g - 24)) as [Hle|Hle].
    + right. eexists [], (y :: l), _. split; [done|]. split_and!; [| |done].
      * unfold new_addr. cbn. lia.
      * eapply place_front_ok with (H := H); try done. unfold new_addr. cbn. lia.
    + destruct (scan_minors_ok (scan_fuel m) [] y l E) as [Hd|Hd]; [cbn in Hf; lia|by left|by right].
Qed.

End block.

(** A heap with a block more. *)
Definition grown h G (req : Z) (p : Z) h' : Prop :=
  ∃ G' x, p = user_ptr (mn_addr x) ∧ heap_inv h' G' ∧ live G' ≡ₚ x :: live G ∧ mn_req x = req ∧
    same_payload G (h_mem h) (h_mem h').

Lemma place_in_block_ok h G1 g G2 H size req : heap_rep h (G1 ++ g :: G2) H → 0 ≤ req → req + ALIGNMENT + 16 ≤ size →
  size + 24 < 2 ^ 32 → size + 24 ≤ mj_size g - mj_used g →
  (place_in_block ALIGNMENT (h_mem h) (mj_addr g) size req = Done None ∧ mj_minors g ≠ []) ∨
  ∃ p m', place_in_block ALIGNMENT (h_mem h) (mj_addr g) size req = Done (Some (p, m')) ∧
    grown h (G1 ++ g :: G2) req p (add_inuse (with_mem h m') size).
Proof.
  intros Hh Hreq Hsize Hfit Hroom. assert (mapped (h_mem h) (mj_addr g) (mj_size g)) as Hm
    by (apply (heap_rep_mapped h _ H g Hh); set_solver).
  assert (length (mj_minors g) < scan_fuel (h_mem h))%nat as Hf.
  { pose proof (heap_rep_count h _ H Hh). pose proof (length_addrs G1 g G2). unfold scan_fuel. lia. }
  destruct (place_in_block_found (h_mem h) H G1 G2 g size req) as [|(l1&l2&e&Hl&Hr&He&->)];
    [by eapply hr_owns|by eapply hr_rep|by eapply hr_geom|done|done|done|done|done|done|by left|right].
  destruct (finish_place ALIGNMENT HA (h_mem h) H G1 G2 g l1 l2 size req e) as (m'&H'&->&Hrep&Hown&Hby&Hsame&Hdom);
    [by eapply hr_owns|by eapply hr_rep|by eapply hr_geom|done|done|done|done|done|by eapply hr_bytes|done|].
  eexists _, m'. split; [done|]. eexists _, (new_minor g l1 size req).
  split_and!; [done| |by apply live_with|done|done]. exists H'. split; cbn; try done.
  - apply (place_geom ALIGNMENT); try done. by eapply hr_geom.
  - unfold placed_major. rewrite regions_with. apply (ps_ext _ (h_mem h)); [done|apply Hown|by eapply hr_sys].
  - rewrite (hr_root _ _ _ Hh). by rewrite !head_major_app.
  - apply best_with. by eapply hr_best.
  - rewrite (hr_inuse _ _ _ Hh), u64_add. f_equal. rewrite (sizes_perm _ _ (live_with G1 g G2 l1 l2 _ Hl)). cbn. lia.
  - unfold placed_major. by rewrite regions_with, (hr_allocated _ _ _ Hh).
Qed.

(** ** New majors *)

Lemma pages_for_spec size : 0 < size → size + 48 < 2 ^ 32 →
  0 < pages_for l_pageCount size ≤ 2 ^ 20 ∧ size + 48 ≤ pages_for l_pageCount size * 4096.
Proof.
  intros H0 H1. unfold pages_for, sizeof_major, sizeof_minor, l_pageSize.
  rewrite (u32_id (size + 24)) by lia. rewrite u32_id by lia. replace (size + 24 + 24) with (size + 48) by lia.
  change (2 ^ 20) with 1048576 in *. change (2 ^ 32) with 4294967296 in *.
  destruct (Z.eqb_spec ((size + 48) mod 4096) 0); match goal with |- context [?a <? ?b] => destruct (Z.ltb_spec a b) end;
    Z.to_euclidean_division_equations; lia.
Qed.

(** A major that was just made, and is not in the list yet. *)
Record new_page h G (H : structs) g h' : Prop := {
  np_minors : mj_minors g = [];
  np_geom : geom (G ++ [g]);
  np_none : H !! mj_addr g = None;
  np_owns : owns (h_mem h') (<[mj_addr g := major_words g 0 0]> H) (h_mem h');
  np_bytes : Forall (aligned_byte ALIGNMENT (h_mem h')) (live G);
  np_sys : sys_inv (h_sys h') (h_mem h') (regions (G ++ [g]));
  np_root : l_memRoot h' = l_memRoot h;
  np_best : l_bestBet h' = l_bestBet h;
  np_inuse : l_inuse h' = l_inuse h;
  np_allocated : l_allocated h' = u64 (pages_total (regions (G ++ [g])));
  np_same : same_payload G (h_mem h) (h_mem h');
}.

(** Regions that come later leave the headers and blocks alone. *)
Lemma region_apart_headers G a n b : geom G → pairwise apart ((a, n) :: regions G) → b ∈ addrs G →
  b + 24 ≤ a ∨ a + n * 4096 ≤ b.
Proof.
  intros [HF _] [Hap _] (g&Hg&Hb)%elem_addrs. rewrite Forall_forall in HF. rewrite Forall_forall in Hap.
  pose proof (header_range _ (alignment_pos _ HA) g b (HF g Hg) Hb).
  destruct (Hap (mj_addr g, mj_pages g)) as [Hr|Hr]; [apply list_elem_of_fmap; by exists g| |]; cbn in Hr;
    unfold mj_end, mj_size in *; lia.
Qed.

Lemma region_apart_payload G a n x z : geom G → pairwise apart ((a, n) :: regions G) → x ∈ live G →
  mn_addr x ≤ z < mn_end x → ¬ (a ≤ z < a + n * 4096).
Proof.
  intros HG [Hap _] Hx Hz. destruct (live_range _ (alignment_pos _ HA) G x HG Hx) as (g&Hg&?&?&_). rewrite Forall_forall in Hap.
  destruct (Hap (mj_addr g, mj_pages g)) as [Hr|Hr]; [apply list_elem_of_fmap; by exists g| |]; cbn in Hr;
    unfold mj_end, mj_size in *; lia.
Qed.

(** What a call may do when it asks the system for pages: the system does not return or gives an address without memory, or it gives null. *)
Definition pages_fail h (size : Z) : Prop :=
  not_done (liballoc_alloc (h_sys h) (h_mem h) (pages_for l_pageCount size)) ∨
  ∃ a s' m', liballoc_alloc (h_sys h) (h_mem h) (pages_for l_pageCount size) = Done (a, s', m') ∧ a ≠ 0 ∧ m' !! a = None.
Definition pages_null h (size : Z) : Prop :=
  ∃ s', liballoc_alloc (h_sys h) (h_mem h) (pages_for l_pageCount size) = Done (0, s', h_mem h).

(** The region of the block at [p] does not go back to the system. *)
Definition free_fails (s : Sys) (p : Z) : Prop :=
  ∃ m a n L, sys_inv s m ((a, n) :: L) ∧ a ≤ p < a + n * 4096 ∧ not_done (liballoc_free s m a n).

Lemma set_first_unmapped m a v : m !! a = None → set_field m a maj_prev v = Undef.
Proof. intros E. unfold set_field, store32, store. rewrite Z.add_0_r. by rewrite E. Qed.

Lemma alloc_page_ok h G H size : heap_rep h G H → 0 < size → size + 48 < 2 ^ 32 → pages_for l_pageCount size ≤ max_pages →
  (pages_fail h size ∧ not_done (allocate_new_page l_pageCount liballoc_alloc h size)) ∨
  (∃ s', liballoc_alloc (h_sys h) (h_mem h) (pages_for l_pageCount size) = Done (0, s', h_mem h) ∧
     let h' := warn (with_sys h s' (h_mem h)) in
     allocate_new_page l_pageCount liballoc_alloc h size = Done (0, h') ∧ heap_rep h' G H) ∨
  ∃ g h', allocate_new_page l_pageCount liballoc_alloc h size = Done (mj_addr g, h') ∧ new_page h G H g h' ∧
    size + 48 ≤ mj_size g.
Proof.
  intros Hh H0 Hsz Hmax. destruct (pages_for_spec size H0 Hsz) as [Hn Hns]. set (n := pages_for l_pageCount size) in *.
  unfold allocate_new_page, pages_fail. fold n.
  destruct (liballoc_alloc (h_sys h) (h_mem h) n) as [[[a s'] m']| | |] eqn:E; [|left; split; [by left|done]..].
  cbn [mbind outcome_bind].
  destruct (ps_alloc _ _ _ _ _ _ _ (hr_sys _ _ _ Hh) (conj (proj1 Hn) Hmax) E) as [(->&->&Hs)|[(Ha&Hnone)|(Ha&Hs&Hm)]].
  { right; left. exists s'. split; [done|]. split; [done|]. destruct Hh. by split. }
  { left. split; [right; by exists a, s', m'|]. rewrite (proj2 (Z.eqb_neq a 0)) by done. by rewrite set_first_unmapped. }
  right; right. rewrite (proj2 (Z.eqb_neq a 0)) by done. destruct (ps_ok _ _ _ Hs) as (Hok&Hap&HF).
  apply Forall_cons in HF as [(Ha0&_&Hend&Hmap) _]. cbn in Ha0, Hend, Hmap.
  set (g := mk_major a n []). pose proof (hr_geom _ _ _ Hh) as HG. destruct (hr_rep _ _ _ Hh) as [_ Hd].
  assert (∀ b ws, H !! b = Some ws → span ws = 24 ∧ (b + 24 ≤ a ∨ a + n * 4096 ≤ b)) as HHa.
  { intros b ws Hb. split; [exact (rep_span G H b ws (hr_rep _ _ _ Hh) Hb)|]. apply (region_apart_headers G a n); [done|done|].
    apply Hd. by rewrite Hb. }
  assert (owns m' H m') as Ho1.
  { apply (owns_ext (h_mem h) H (h_mem h)); [by eapply hr_owns|done|]. intros b ws x Hb Hx. apply Hm.
    destruct (HHa _ _ Hb) as [Hsp ?]. rewrite Hsp in Hx. lia. }
  assert (H !! a = None) as HN. { destruct (H !! a) eqn:Hb; [|done]. destruct (HHa _ _ Hb). lia. }
  destruct (owns_add m' H m' a 6 Ho1) as (ws&Hlen&Ho2); [intros i Hi; apply Hmap; lia| |done|].
  { intros b ws Hb. destruct (HHa _ _ Hb) as [Hsp ?]. rewrite Hsp. lia. }
  destruct ws as [|w0 [|w1 [|w2 [|w3 [|w4 [|w5 [|]]]]]]]; try done. clear Ho1.
  unfold l_pageSize, sizeof_major. rewrite (u32_id (n * 4096)) by lia.
  do 6 step_set. match goal with Ho : owns m' _ ?mm |- _ => rename Ho into Hof; rename mm into mf end.
  eexists g, _. split; [done|]. split; [|done].
  assert (∀ x z, x ∈ live G → mn_addr x + 24 ≤ z < mn_end x → mf !! z = h_mem h !! z) as Hsame.
  { intros x z Hx Hz. rewrite (ow_out _ _ _ Hof).
    - apply Hm. apply (region_apart_payload G a n x); [done|done|done|lia].
    - rewrite !insert_insert_eq. intros b ws' [[<- <-]|[_ Hb]]%lookup_insert_Some.
      + pose proof (region_apart_payload G a n x z HG Hap Hx ltac:(lia)). change (¬ (a ≤ z < a + 24)). lia.
      + apply (payload_outside ALIGNMENT HA G H x z); [done|by eapply hr_rep|done|done|done]. }
  split; cbn; try done.
  - split; [apply Forall_app; split; [apply HG|]|].
    + constructor; [|constructor]. unfold major_ok, mj_end, mj_size. cbn. lia.
    + rewrite regions_app. apply (pairwise_perm _ apart_sym ((a, n) :: regions G)); [apply Permutation_cons_append|done].
  - rewrite !insert_insert_eq in Hof. eapply owns_rebase. exact Hof.
  - apply Forall_forall. intros x Hx. apply (aligned_byte_ext ALIGNMENT HA G x (h_mem h)); [done|done|done|].
    pose proof (hr_bytes _ _ _ Hh) as HB. rewrite Forall_forall in HB. by apply HB.
  - apply (ps_perm _ _ ((a, n) :: regions G)); [rewrite regions_app; apply Permutation_cons_append|].
    apply (ps_ext _ m'); [intros z; apply Hof|apply Hof|done].
  - rewrite (hr_allocated _ _ _ Hh), u64_add. f_equal. rewrite regions_app.
    change (regions [g]) with [(a, n)].
    rewrite <-(pages_total_perm ((a, n) :: regions G) _ (Permutation_cons_append _ _)). cbn. lia.
Qed.

Lemma rep_append G1 g0 g H : rep (G1 ++ [g0]) H → NoDup (addrs (G1 ++ [g0])) → H !! mj_addr g = None → mj_minors g = [] →
  rep ((G1 ++ [g0]) ++ [g]) (<[mj_addr g := major_words g (mj_addr g0) 0]>
    (<[mj_addr g0 := major_words g0 (last_major 0 G1) (mj_addr g)]> H)).
Proof.
  intros [Hs Hd] Hnd HN Hmin. pose proof Hs as Hs0. apply majors_seg_app in Hs as [H1 (Hg0&Hm0&_)].
  assert (mj_addr g0 ≠ mj_addr g) as Hne by (intros E; rewrite E in Hg0; congruence).
  rewrite addrs_app in Hnd. apply NoDup_app in Hnd as (_&Hdis&Hnd0). cbn in Hnd0, Hdis. rewrite app_nil_r in Hnd0, Hdis.
  apply NoDup_cons in Hnd0 as [Hn0 _].
  assert (∀ b, b ∈ addrs (G1 ++ [g0]) → b ≠ mj_addr g) as Hout.
  { intros b Hb ->. apply elem_addrs in Hb as (g'&Hg'&Hb). apply list_elem_of_split in Hg' as (K1&K2&EK).
    rewrite EK in Hs0. apply majors_seg_app in Hs0 as [_ (Hx&Hms&_)]. destruct Hb as [E|(x&Hx'&E)]; [congruence|].
    apply list_elem_of_split in Hx' as (k1&k2&Ek). rewrite Ek in Hms. apply minors_seg_app in Hms as [_ [Hy _]].
    congruence. }
  split.
  - apply majors_seg_app. split; [apply majors_seg_app; split|].
    + apply (majors_seg_ext H); [done|]. intros b Hb.
      assert (b ≠ mj_addr g) by (apply Hout; rewrite addrs_app; set_solver).
      assert (b ≠ mj_addr g0) by (intros ->; apply (Hdis _ Hb); by left). by rewrite !lookup_insert_ne.
    + cbn. split_and!; [by rewrite lookup_insert_ne, lookup_insert_eq| |done].
      apply (minors_seg_ext H); [done|]. intros x Hx.
      assert (mn_addr x ∈ mn_addr <$> mj_minors g0) as Hin by (apply list_elem_of_fmap; eauto).
      assert (mn_addr x ≠ mj_addr g) by (apply Hout; rewrite addrs_app; apply elem_of_app; right; cbn; set_solver).
      assert (mn_addr x ≠ mj_addr g0) by (intros E; by rewrite E in Hin). by rewrite !lookup_insert_ne.
    + rewrite last_major_app. cbn. rewrite Hmin. split_and!; [by rewrite lookup_insert_eq|done|done].
  - intros b Hb. rewrite addrs_app. apply elem_of_app. cbn. rewrite Hmin. cbn.
    destruct (decide (b = mj_addr g)) as [->|Hb1]; [right; by left|left].
    destruct (decide (b = mj_addr g0)) as [->|Hb2]; [rewrite addrs_app; apply elem_of_app; right; by left|].
    rewrite !lookup_insert_ne in Hb by done. by apply Hd.
Qed.

Lemma new_major_ok h G1 g0 H size : heap_rep h (G1 ++ [g0]) H → 0 < size → size + 48 < 2 ^ 32 → pages_for l_pageCount size ≤ max_pages →
  (pages_fail h size ∧ not_done (new_major l_pageCount liballoc_alloc h (mj_addr g0) size)) ∨
  (pages_null h size ∧ ∃ h', new_major l_pageCount liballoc_alloc h (mj_addr g0) size = Done (0, h') ∧
     heap_inv h' (G1 ++ [g0]) ∧ same_payload (G1 ++ [g0]) (h_mem h) (h_mem h')) ∨
  ∃ g h' H', new_major l_pageCount liballoc_alloc h (mj_addr g0) size = Done (mj_addr g, h') ∧
    heap_rep h' ((G1 ++ [g0]) ++ [g]) H' ∧ mj_minors g = [] ∧ size + 48 ≤ mj_size g ∧
    same_payload (G1 ++ [g0]) (h_mem h) (h_mem h').
Proof.
  intros Hh H0 Hsz Hmax. pose proof (heap_rep_major h G1 g0 [] H Hh) as Hg0. cbn [head_major] in Hg0.
  pose proof (heap_rep_geom h G1 g0 [] H Hh) as (Ha0&Hae&Hu0&Hus).
  destruct (alloc_page_ok h _ H size Hh H0 Hsz Hmax) as [[Hf Hnd]|[(s'&E&Ea&Hh')|(g&h'&Ea&Hnp&Hfit)]];
    [left; split; [done|by apply not_done_bind]|right; left|right; right].
  - split; [by exists s'|]. unfold new_major. rewrite Ea. cbn [mbind outcome_bind h_mem warn with_sys].
    pose proof (hr_owns _ _ _ Hh) as Ho. step_set. cbn [Z.eqb]. eexists. split; [done|].
    rewrite insert_id in Ho0 by done.
    split.
    + exists H. destruct Hh'. split; try done.
      * by eapply owns_rebase.
      * apply Forall_forall. intros x Hx. apply (aligned_byte_ext ALIGNMENT HA (G1 ++ [g0]) x (h_mem h)); [done|done| |].
        -- intros y z Hy Hz. cbn. apply (ow_out _ _ _ Ho0). by apply (payload_outside ALIGNMENT HA (G1 ++ [g0]) H y).
        -- rewrite Forall_forall in hr_bytes0. by apply hr_bytes0.
      * cbn. apply (ps_ext _ (h_mem h)); [intros z; apply Ho0|apply Ho0|done].
    + intros y z Hy Hz. cbn. apply (ow_out _ _ _ Ho0).
      apply (payload_outside ALIGNMENT HA (G1 ++ [g0]) H y); [by eapply hr_geom|by eapply hr_rep|done|done].
  - unfold new_major. rewrite Ea. cbn [mbind outcome_bind].
    destruct (geom_split _ (G1 ++ [g0]) g [] (np_geom _ _ _ _ _ Hnp)) as ((Hga&_&Hge&_)&_&_).
    assert (mj_addr g0 ≠ mj_addr g) as Hne by (intros E; pose proof (np_none _ _ _ _ _ Hnp); congruence).
    unfold mj_end, mj_size in *. pose proof (np_owns _ _ _ _ _ Hnp) as Ho.
    assert (0 < mj_pages g * 4096) by lia.
    step_set. rewrite (proj2 (Z.eqb_neq (mj_addr g) 0)) by lia. step_set.
    match goal with Ho : owns (h_mem h') _ ?mm |- _ => rename Ho into Hof; rename mm into mf end.
    rewrite insert_insert_ne in Hof by done. rewrite !insert_insert_eq in Hof.
    eexists g, _, _. split; [done|].
    assert (NoDup (addrs (G1 ++ [g0]))) as Hnd by (apply (addrs_NoDup _ (alignment_pos _ HA)); by eapply hr_geom).
    pose proof (rep_append G1 g0 g H (hr_rep _ _ _ Hh) Hnd (np_none _ _ _ _ _ Hnp) (np_minors _ _ _ _ _ Hnp)) as Hrep.
    rewrite insert_insert_ne in Hrep by congruence.
    assert (same_payload (G1 ++ [g0]) (h_mem h') mf) as Hsame.
    { intros y z Hy Hz. apply (ow_out _ _ _ Hof).
      apply (payload_outside ALIGNMENT HA ((G1 ++ [g0]) ++ [g]) _ y); [by eapply np_geom|exact Hrep| |done].
      rewrite live_app. apply elem_of_app. by left. }
    split_and!; [|by eapply np_minors|done|].
    + split; cbn.
      * by eapply np_geom.
      * exact Hrep.
      * by eapply owns_rebase.
      * rewrite live_app. apply Forall_app. split; [|cbn; by rewrite (np_minors _ _ _ _ _ Hnp)].
        apply Forall_forall. intros x Hx. apply (aligned_byte_ext ALIGNMENT HA (G1 ++ [g0]) x (h_mem h'));
          [by eapply hr_geom|done|done|]. pose proof (np_bytes _ _ _ _ _ Hnp) as HB. rewrite Forall_forall in HB. by apply HB.
      * apply (ps_ext _ (h_mem h')); [intros z; apply Hof|apply Hof|by eapply np_sys].
      * rewrite (np_root _ _ _ _ _ Hnp), (hr_root _ _ _ Hh). by destruct G1.
      * rewrite (np_best _ _ _ _ _ Hnp). destruct (hr_best _ _ _ Hh) as [|(g'&Hg'&->)]; [by left|right].
        exists g'. split; [|done]. apply elem_of_app. by left.
      * rewrite (np_inuse _ _ _ _ _ Hnp), (hr_inuse _ _ _ Hh), (live_app (G1 ++ [g0])).
        change (live [g]) with (mj_minors g ++ []). by rewrite (np_minors _ _ _ _ _ Hnp), app_nil_r.
      * by eapply np_allocated.
    + intros y z Hy Hz. cbn. rewrite (Hsame y z Hy Hz). by apply (np_same _ _ _ _ _ Hnp y).
Qed.

(** ** [malloc] *)

Section malloc.
Context (size req : Z) (Hreq : 0 ≤ req) (Hsize : req + ALIGNMENT + 16 ≤ size) (Hfit : size + 48 < 2 ^ 32) (Hmax : pages_for l_pageCount size ≤ max_pages).

(** The system does not return, or has no pages, or there is a block more. *)
Definition malloc_post h G (r : outcome (Z * heap Sys)) : Prop :=
  (pages_fail h size ∧ not_done r) ∨
  (pages_null h size ∧ ∃ h', r = Done (0, h') ∧ heap_inv h' G ∧ same_payload G (h_mem h) (h_mem h')) ∨
  ∃ p h', r = Done (p, h') ∧ grown h G req p h'.

Lemma grown_trans h0 h G g p h' : mj_minors g = [] → same_payload G (h_mem h0) (h_mem h) →
  grown h (G ++ [g]) req p h' → grown h0 G req p h'.
Proof.
  intros Hg Hs (G'&x&->&Hi&HP'&Hx&Hs'). assert (live (G ++ [g]) = live G) as E.
  { rewrite live_app. change (live [g]) with (mj_minors g ++ []). by rewrite Hg, !app_nil_r. }
  exists G', x. rewrite E in HP'. split_and!; [done|done|done|done|]. intros y z Hy Hz.
  rewrite (Hs' y z) by (rewrite ?E; done). by apply (Hs y).
Qed.

Lemma place_fresh_ok h G g H : heap_rep h (G ++ [g]) H → mj_minors g = [] → size + 48 ≤ mj_size g →
  ∃ p m', place_in_block ALIGNMENT (h_mem h) (mj_addr g) size req = Done (Some (p, m')) ∧
    grown h (G ++ [g]) req p (add_inuse (with_mem h m') size).
Proof.
  intros Hh Hg Hs. destruct (place_in_block_ok h G g [] H size req) as [[_ ?]|]; [done|done|done|lia| |done|done].
  unfold mj_used. rewrite Hg. cbn. lia.
Qed.

(** The loop's choice of the best bet. *)
Lemma better_bet h G1 g G2 H (b : bool) (diff bestSize : Z) : heap_rep h (G1 ++ g :: G2) H →
  ∃ (h2 : heap Sys) best2, (if b then (with_best h (mj_addr g), diff) else (h, bestSize)) = (h2, best2) ∧
    heap_rep h2 (G1 ++ g :: G2) H ∧ h_mem h2 = h_mem h ∧ h_sys h2 = h_sys h.
Proof.
  intros Hh. destruct b; [|by exists h, bestSize]. exists (with_best h (mj_addr g)), diff. split_and!; try done.
  apply heap_rep_best; [done|]. right. exists g. set_solver.
Qed.

Lemma loop_fresh fuel h G g H st bestSize : heap_rep h (G ++ [g]) H → mj_minors g = [] → size + 48 ≤ mj_size g →
  ∃ p h', malloc_loop ALIGNMENT l_pageCount liballoc_alloc (S fuel) h (mj_addr g) st bestSize size req = Done (p, h') ∧
    grown h (G ++ [g]) req p h'.
Proof.
  intros Hh Hg Hs. pose proof (alignment_pos _ HA). pose proof (heap_rep_geom h G g [] H Hh) as (?&?&?&?). pose proof (heap_rep_major h G g [] H Hh) as Hw.
  cbn [malloc_loop]. rewrite (proj2 (Z.eqb_neq (mj_addr g) 0)) by lia. pose proof (hr_owns _ _ _ Hh) as Ho. do 2 step_get.
  unfold mj_end in *. rewrite (u32_id (mj_size g - mj_used g)) by lia.
  destruct (better_bet h G g [] H (bestSize <? mj_size g - mj_used g) (mj_size g - mj_used g) bestSize Hh)
    as (h2&best2&->&Hh2&Em&Es). rewrite <-Em in Ho. step_get.
  unfold sizeof_minor. rewrite (u32_id (size + 24)) by lia.
  assert (mj_used g = 24) as Eu by (unfold mj_used; by rewrite Hg).
  rewrite (proj2 (Z.ltb_ge _ _)) by lia. destruct (place_fresh_ok h2 G g H Hh2 Hg Hs) as (p&m'&->&Hgr).
  cbn [mbind outcome_bind]. eexists _, _. split; [done|]. unfold grown in *. by rewrite Em in Hgr.
Qed.

Lemma malloc_post_eq h (h2 : heap Sys) G r : h_mem h2 = h_mem h → h_sys h2 = h_sys h → malloc_post h2 G r → malloc_post h G r.
Proof. unfold malloc_post, pages_fail, pages_null, grown. by intros -> ->. Qed.

Lemma malloc_loop_ok fuel : ∀ h G1 g G2 H (st : bool) bestSize, heap_rep h (G1 ++ g :: G2) H →
  ((if st then length (G1 ++ g :: G2) else 0) + length (g :: G2) + 1 ≤ fuel)%nat →
  malloc_post h (G1 ++ g :: G2)
    (malloc_loop ALIGNMENT l_pageCount liballoc_alloc fuel h (mj_addr g) st bestSize size req).
Proof.
  induction fuel as [|fuel IH]; intros h G1 g G2 H st bestSize Hh Hf; [cbn in Hf; lia|].
  pose proof (heap_rep_geom h G1 g G2 H Hh) as (?&?&?&?). pose proof (heap_rep_major h G1 g G2 H Hh) as Hw.
  cbn [malloc_loop]. rewrite (proj2 (Z.eqb_neq (mj_addr g) 0)) by lia. pose proof (hr_owns _ _ _ Hh) as Ho. do 2 step_get.
  unfold mj_end in *. rewrite (u32_id (mj_size g - mj_used g)) by lia.
  destruct (better_bet h G1 g G2 H (bestSize <? mj_size g - mj_used g) (mj_size g - mj_used g) bestSize Hh)
    as (h2&best2&->&Hh2&Em&Es). apply (malloc_post_eq h h2); [done|done|]. rewrite <-Em in Ho. step_get.
  pose proof (alignment_pos _ HA). unfold sizeof_minor. rewrite (u32_id (size + 24)) by lia.
  (* what to do when this block has no place: go on, start over, or get a new block *)
  assert (∀ (k : Z * heap Sys → outcome (Z * heap Sys)),
    (∀ G gn (hn : heap Sys) Hn, G = G1 ++ g :: G2 → heap_rep hn (G ++ [gn]) Hn → mj_minors gn = [] → size + 48 ≤ mj_size gn →
       ∃ p h', k (mj_addr gn, hn) = Done (p, h') ∧ grown hn (G ++ [gn]) req p h') →
    (∀ hn : heap Sys, k (0, hn) = Done (0, hn)) →
    malloc_post h2 (G1 ++ g :: G2)
      (if negb (head_major G2 0 =? 0)
       then malloc_loop ALIGNMENT l_pageCount liballoc_alloc fuel h2 (head_major G2 0) st best2 size req
       else if st then malloc_loop ALIGNMENT l_pageCount liballoc_alloc fuel h2 (l_memRoot h2) false best2 size req
       else r ← new_major l_pageCount liballoc_alloc h2 (mj_addr g) size; k r)) as Hnext.
  { intros k Hk Hk0. destruct G2 as [|g' G2]; cbn [head_major].
    - cbn [Z.eqb negb]. destruct st.
      + rewrite (hr_root _ _ _ Hh2). destruct G1 as [|g1 G1]; cbn [head_major app].
        * apply (IH h2 [] g [] H false best2 Hh2). cbn in *. lia.
        * apply (IH h2 [] g1 (G1 ++ [g]) H false best2 Hh2). cbn in *. lia.
      + destruct (new_major_ok h2 G1 g H size Hh2) 
          as [[Hpf Hnd]|[(Hpn&h'&->&Hi&Hs)|(gn&h'&H'&->&Hh'&Hgn&Hsn&Hs)]]; [lia|lia|done|left; split; [done|by apply not_done_bind]| |].
        * right; left. split; [done|]. cbn [mbind outcome_bind]. rewrite Hk0. by exists h'.
        * right; right. cbn [mbind outcome_bind]. destruct (Hk _ gn h' H' eq_refl Hh' Hgn Hsn) as (p&h''&->&Hgr).
          eexists _, _. split; [done|]. by eapply grown_trans.
    - pose proof (heap_rep_geom h2 (G1 ++ [g]) g' G2 H) as (Hg0&_); [by rewrite <-app_assoc|].
      rewrite (proj2 (Z.eqb_neq (mj_addr g') 0)) by lia. cbn [negb].
      replace (G1 ++ g :: g' :: G2) with ((G1 ++ [g]) ++ g' :: G2) in * by by rewrite <-app_assoc.
      apply (IH h2 (G1 ++ [g]) g' G2 H st best2 Hh2). cbn in *. lia. }
  destruct (Z.ltb_spec (mj_size g - mj_used g) (size + 24)) as [Hlt|Hge].
  - apply Hnext; [|done]. intros G gn hn Hn -> Hhn Hgn Hsn.
    pose proof (heap_rep_geom _ _ _ _ _ Hhn) as (?&_). rewrite (proj2 (Z.eqb_neq (mj_addr gn) 0)) by lia.
    destruct (place_fresh_ok hn _ gn Hn Hhn Hgn Hsn) as (p&m'&->&Hgr). cbn [mbind outcome_bind]. by eexists _, _.
  - destruct (place_in_block_ok h2 G1 g G2 H size req Hh2) as [[-> _]|(p&m'&->&Hgr)]; [done|done|lia|lia| |].
    + cbn [mbind outcome_bind].
      pose proof (Hnext (λ '(new, h), if new =? 0 then Done (0, h) else
          malloc_loop ALIGNMENT l_pageCount liballoc_alloc fuel h new st best2 size req)) as Hn.
      destruct (head_major G2 0 =? 0); cbn [negb] in Hn; (apply Hn; [|done]); intros G gn hn H' -> Hhn Hgn Hsn;
        pose proof (heap_rep_geom _ _ _ _ _ Hhn) as (?&_); rewrite (proj2 (Z.eqb_neq (mj_addr gn) 0)) by lia;
        (destruct fuel as [|fuel]; [cbn in Hf; lia|]); by eapply loop_fresh.
    + cbn [mbind outcome_bind]. right; right. by eexists _, _.
Qed.

Lemma new_root_ok h H g h' : heap_rep h [] H → new_page h [] H g h' →
  heap_rep (with_root h' (mj_addr g)) ([] ++ [g]) (<[mj_addr g := major_words g 0 0]> H).
Proof.
  intros Hh Hnp. destruct (hr_rep _ _ _ Hh) as [_ Hd]. split; cbn; try done; try by eapply Hnp.
  - split.
    + cbn. rewrite (np_minors _ _ _ _ _ Hnp). split_and!; [by rewrite lookup_insert_eq|done|done].
    + intros b Hb. destruct (decide (b = mj_addr g)) as [->|Hne]; [by left|]. rewrite lookup_insert_ne in Hb by done.
      apply Hd in Hb. by apply not_elem_of_nil in Hb.
  - rewrite (np_minors _ _ _ _ _ Hnp). constructor.
  - left. rewrite (np_best _ _ _ _ _ Hnp). destruct (hr_best _ _ _ Hh) as [|(?&?%not_elem_of_nil&_)]; done.
  - rewrite (np_minors _ _ _ _ _ Hnp), (np_inuse _ _ _ _ _ Hnp). by rewrite (hr_inuse _ _ _ Hh).
Qed.

Lemma start_block_ok h G H : heap_rep h G H → G ≠ [] → ∃ G1 g G2 st bestSize, G = G1 ++ g :: G2 ∧
  start_block h size = Done (mj_addr g, st, bestSize).
Proof.
  intros Hh HG. assert (∃ g G2, G = [] ++ g :: G2 ∧ l_memRoot h = mj_addr g) as (g&G2&EG&Er).
  { rewrite (hr_root _ _ _ Hh). destruct G as [|g G]; [done|]. by exists g, G. }
  pose proof (alignment_pos _ HA). unfold start_block. destruct (Z.eqb_spec (l_bestBet h) 0) as [E|E]; cbn [negb].
  { exists [], g, G2, false, 0. by rewrite Er. }
  destruct (hr_best _ _ _ Hh) as [|(g'&Hg'&Eb)]; [done|]. rewrite Eb. apply list_elem_of_split in Hg' as (K1&K2&EK).
  rewrite EK in Hh. pose proof (heap_rep_major h K1 g' K2 H Hh) as Hw. pose proof (hr_owns _ _ _ Hh) as Ho. do 2 step_get.
  match goal with |- context [?a <? ?b] => destruct (a <? b) end.
  - by eexists K1, g', K2, _, _.
  - rewrite Er. by eexists [], g, G2, _, _.
Qed.

Lemma malloc_sized_ok h G : heap_inv h G →
  malloc_post h G (malloc_sized ALIGNMENT l_pageCount liballoc_alloc h req size).
Proof.
  intros [H Hh]. pose proof (alignment_pos _ HA). unfold malloc_sized. rewrite (hr_root _ _ _ Hh). destruct G as [|g0 G0].
  - cbn [head_major Z.eqb].
    destruct (alloc_page_ok h [] H size Hh) as [[Hf Hnd]|[(s'&E&Ea&Hh')|(g&h'&Ea&Hnp&Hfits)]];
      [lia|lia|done|left; split; [done|by do 2 apply not_done_bind]| |].
    + right; left. split; [by exists s'|]. rewrite Ea. cbn [mbind outcome_bind]. eexists. split; [done|]. split; [|done].
      exists H. destruct Hh'. by split.
    + rewrite Ea. cbn [mbind outcome_bind with_root l_memRoot]. pose proof (new_root_ok h H g h' Hh Hnp) as Hr.
      pose proof (heap_rep_geom _ [] g [] _ Hr) as (?&_). rewrite (proj2 (Z.eqb_neq (mj_addr g) 0)) by lia.
      destruct (loop_fresh (2 * scan_fuel (h_mem h') + 1) _ [] g _ false 0 Hr) as (p&h''&El&Hgr); [by eapply np_minors|done|].
      unfold start_block. cbn [with_root l_bestBet]. rewrite (np_best _ _ _ _ _ Hnp).
      assert (l_bestBet h = 0) as -> by (destruct (hr_best _ _ _ Hh) as [|(?&?%not_elem_of_nil&_)]; done).
      cbn [Z.eqb negb mbind outcome_bind]. change (h_mem (with_root h' (mj_addr g))) with (h_mem h').
      change (l_memRoot (with_root h' (mj_addr g))) with (mj_addr g).
      replace (malloc_fuel (h_mem h')) with (S (2 * scan_fuel (h_mem h') + 1)) by (unfold malloc_fuel; lia).
      right; right. exists p, h''. split; [exact El|]. eapply (grown_trans h (with_root h' (mj_addr g)) []); [by eapply np_minors| |done].
      intros y z Hy. by apply not_elem_of_nil in Hy.
  - pose proof (heap_rep_geom _ [] g0 G0 _ Hh) as (?&_). cbn [head_major]. rewrite (proj2 (Z.eqb_neq (mj_addr g0) 0)) by lia.
    cbn [mbind outcome_bind]. rewrite (hr_root _ _ _ Hh). cbn [head_major]. rewrite (proj2 (Z.eqb_neq (mj_addr g0) 0)) by lia.
    destruct (start_block_ok h _ H Hh) as (G1&g&G2&st&bs&EG&->); [done|]. cbn [mbind outcome_bind]. rewrite EG in *.
    apply (malloc_loop_ok _ h G1 g G2 H st bs Hh). pose proof (heap_rep_count _ _ _ Hh). pose proof (length_majors (G1 ++ g :: G2)).
    assert (length (g :: G2) ≤ length (G1 ++ g :: G2))%nat by (rewrite length_app; lia). unfold malloc_fuel, scan_fuel.
    destruct st; lia.
Qed.

End malloc.

(** The bytes that [malloc] can give out: with the headers they fit into the address space, and into the pages that may be asked for. *)
Definition fits (req : Z) : Prop := 0 ≤ req ∧ req + ALIGNMENT + 64 < 2 ^ 32 ∧ pages_for l_pageCount (padded ALIGNMENT req) ≤ max_pages.

Lemma padded_eq req : fits req → padded ALIGNMENT req = req + ALIGNMENT + 16.
Proof.
  intros (H0&H1&_). pose proof (alignment_bounds _ HA). unfold padded, ALIGN_INFO. rewrite (proj2 (Z.ltb_lt 1 ALIGNMENT)) by lia.
  rewrite u32_id; lia.
Qed.

Lemma malloc_ok h G req : heap_inv h G → fits req →
  malloc_post (padded ALIGNMENT req) req h G (malloc ALIGNMENT l_pageCount liballoc_alloc h req).
Proof.
  intros Hh Hf. pose proof (padded_eq req Hf) as E. pose proof (alignment_pos _ HA). destruct Hf as (?&?&?). unfold malloc.
  rewrite (proj2 (Z.eqb_neq (padded ALIGNMENT req) 0)) by lia. apply malloc_sized_ok; (done || lia).
Qed.

(** ** [free] *)

Section unlink.
Context (h : heap Sys) (H : structs) (G1 G2 : list major) (g : major) (l1 l2 : list minor) (x : minor).
Context (Hh : heap_rep h (G1 ++ g :: G2) H) (Hl : mj_minors g = l1 ++ x :: l2).

Definition left_major : major := with_minors g (l1 ++ l2).

Lemma left_geom : geom (G1 ++ left_major :: G2).
Proof.
  pose proof (hr_geom _ _ _ Hh) as HG. apply geom_with; [done|]. destruct (geom_split _ _ _ _ HG) as ((_&_&_&Hm)&_).
  rewrite Hl in Hm. by eapply minors_in_delete; [apply alignment_pos|].
Qed.

Lemma left_live : live (G1 ++ g :: G2) ≡ₚ x :: live (G1 ++ left_major :: G2).
Proof.
  rewrite <-(live_with G1 left_major G2 l1 l2 x) by done. unfold left_major, with_minors. cbn. rewrite <-Hl. by destruct g.
Qed.

Lemma minor_words_in k1 y k2 : mj_minors g = k1 ++ y :: k2 →
  H !! mn_addr y = Some (minor_words y (last_minor 0 k1) (head_minor k2 0) (mj_addr g)).
Proof. by apply (minor_words_at H G1 G2 g), (hr_rep _ _ _ Hh). Qed.

(** The places of the headers around the one to unlink. *)
Lemma unlink_bounds : 0 < mj_addr g ∧ mj_addr g + 24 ≤ mn_addr x ∧ mn_end x ≤ mj_end g ∧ mj_end g ≤ 2 ^ 32 ∧
  0 ≤ mn_size x ∧ (∀ l0 y, l1 = l0 ++ [y] → mj_addr g + 24 ≤ mn_addr y ∧ mn_addr y + 24 ≤ mn_addr x) ∧
  (∀ z l3, l2 = z :: l3 → mn_addr x + 24 ≤ mn_addr z ∧ mn_addr z + 24 ≤ mj_end g) ∧
  u32 (mj_used g - (mn_size x + sizeof_minor)) = mj_used left_major ∧ is_word (mj_used left_major).
Proof.
  pose proof (alignment_pos _ HA) as HA0. pose proof (heap_rep_geom _ _ _ _ _ Hh) as (?&?&?&?).
  destruct (geom_split _ _ _ _ (hr_geom _ _ _ Hh)) as ((_&_&_&Hm)&_). rewrite Hl in Hm.
  pose proof (minors_in_elem _ HA0 _ _ _ x Hm ltac:(set_solver)) as (?&?&?&?).
  assert (mj_used left_major = mj_used g - (mn_size x + 24)) as E.
  { unfold mj_used, left_major. cbn. rewrite Hl, !minors_sum_app. cbn. lia. }
  pose proof (left_geom) as HG'. destruct (geom_split _ _ _ _ HG') as ((_&_&_&Hm')&_). apply minors_sum_nonneg in Hm'; [|done].
  assert (24 ≤ mj_used left_major) by (unfold mj_used; lia).
  apply minors_in_app in Hm as [Hi1 (?&?&?&Hi2)]. unfold mj_end in *.
  split_and!; try lia.
  - intros l0 y E1. rewrite E1 in Hi1. destruct (minors_in_elem _ HA0 _ _ _ y Hi1) as (?&?&?&?); [set_solver|]. 
    rewrite E1, fin_app in *. unfold mn_end in *. lia.
  - intros z l3 E2. rewrite E2 in Hi2. destruct (minors_in_elem _ HA0 _ _ _ z Hi2) as (?&?&?&?); [by left|]. unfold mn_end in *. lia.
  - unfold sizeof_minor. rewrite <-E. apply u32_id. lia.
  - unfold is_word. lia.
Qed.

Lemma left_head_nil : l1 = [] → head_minor (mj_minors left_major) 0 = head_minor l2 0.
Proof. intros E. cbn. by rewrite E. Qed.

Lemma left_head_snoc l0 y : l1 = l0 ++ [y] → head_minor (mj_minors left_major) 0 = head_minor (mj_minors g) 0.
Proof. intros E. cbn. rewrite Hl, E, <-!app_assoc. cbn. by rewrite !head_minor_app. Qed.

(** The neighbours: none, or one with its words. *)
Lemma last_cases : (last_minor 0 l1 = 0 ∧ l1 = []) ∨ ∃ l0 y, l1 = l0 ++ [y] ∧ last_minor 0 l1 = mn_addr y ∧
  H !! mn_addr y = Some (minor_words y (last_minor 0 l0) (mn_addr x) (mj_addr g)).
Proof.
  destruct l1 as [|y l0 _] using rev_ind; [by left|right]. exists l0, y. split; [done|]. split; [apply last_minor_app|].
  apply (minor_words_in l0 y (x :: l2)). by rewrite Hl, <-app_assoc.
Qed.

Lemma head_cases : (head_minor l2 0 = 0 ∧ l2 = []) ∨ ∃ z l3, l2 = z :: l3 ∧ head_minor l2 0 = mn_addr z ∧
  H !! mn_addr z = Some (minor_words z (mn_addr x) (head_minor l3 0) (mj_addr g)).
Proof.
  destruct l2 as [|z l3]; [by left|right]. exists z, l3. split; [done|]. split; [done|].
  replace (mn_addr x) with (last_minor 0 (l1 ++ [x])) by apply last_minor_app.
  apply (minor_words_in (l1 ++ [x]) z l3). by rewrite Hl, <-app_assoc.
Qed.

Lemma unlink_minor_words : ∃ m' H', unlink_minor (h_mem h) (mj_addr g) (mn_addr x) (mn_size x) = Done m' ∧
  owns (h_mem h) H' m' ∧ same_shape H H' ∧ rep (G1 ++ left_major :: G2) (delete (mn_addr x) H').
Proof.
  destruct unlink_bounds as (?&?&Hx&?&?&Hlast&Hhead&Eu&?). unfold mn_end in Hx.
  pose proof (hr_owns _ _ _ Hh) as Ho. pose proof (heap_rep_major _ _ _ _ _ Hh) as Hg.
  pose proof (minor_words_in _ _ _ Hl) as Hxw.
  assert (is_word LIBALLOC_DEAD) by (unfold is_word, LIBALLOC_DEAD; lia).
  pose proof (addrs_NoDup _ (alignment_pos _ HA) _ (hr_geom _ _ _ Hh)) as Hnd.
  unfold unlink_minor. step_get. rewrite Eu. do 2 step_set. do 2 step_get.
  assert (is_word (mn_addr x) ∧ is_word 0) as [? ?] by (unfold is_word; unfold mj_end in *; lia).
  destruct last_cases as [[Ep E1]|(l0&y&E1&Ep&Hy)], head_cases as [[En E2]|(z&l3&E2&En&Hz)]; rewrite Ep, En.
  - cbn [Z.eqb negb mbind outcome_bind]. step_set. eexists _, _. split; [done|]. split; [done|].
    split; [by repeat (apply same_shape_insert; [by find_struct|])|].
    apply (rep_remove G1 g G2 l1 x l2 H); [done|by eapply hr_rep|done|by rewrite lookup_delete_eq| | | |].
    + fold left_major. rewrite lookup_delete_ne by lia. unfold major_words. rewrite left_head_nil, En by done. by read_struct.
    + intros l0 y E. rewrite E1 in E. by destruct l0.
    + intros z l3 E. by rewrite E2 in E.
    + intros a ???. rewrite lookup_delete_ne by done. by read_struct.
  - destruct (Hhead z l3 E2). assert (is_word (mn_addr z)) by (unfold is_word; lia).
    rewrite (proj2 (Z.eqb_neq (mn_addr z) 0)) by lia. cbn [Z.eqb negb mbind outcome_bind]. do 2 step_set.
    eexists _, _. split; [done|]. split; [done|].
    split; [by repeat (apply same_shape_insert; [by find_struct|])|].
    apply (rep_remove G1 g G2 l1 x l2 H); [done|by eapply hr_rep|done|by rewrite lookup_delete_eq| | | |].
    + fold left_major. rewrite lookup_delete_ne by lia. unfold major_words. rewrite left_head_nil, En by done. by read_struct.
    + intros l0 y E. rewrite E1 in E. by destruct l0.
    + intros z' l3' E. rewrite E2 in E. injection E as <- <-. rewrite lookup_delete_ne by lia. read_struct. by rewrite Ep.
    + intros a ?? _ Ha. assert (a ≠ mn_addr z) by (intros ->; apply Ha; by exists z, l3). rewrite lookup_delete_ne by done. by read_struct.
  - destruct (Hlast l0 y E1). assert (is_word (mn_addr y)) by (unfold is_word; unfold mj_end in *; lia).
    rewrite (proj2 (Z.eqb_neq (mn_addr y) 0)) by lia. cbn [Z.eqb negb mbind outcome_bind]. step_set.
    eexists _, _. split; [done|]. split; [done|].
    split; [by repeat (apply same_shape_insert; [by find_struct|])|].
    apply (rep_remove G1 g G2 l1 x l2 H); [done|by eapply hr_rep|done|by rewrite lookup_delete_eq| | | |].
    + fold left_major. rewrite lookup_delete_ne by lia. unfold major_words. rewrite (left_head_snoc l0 y E1). by read_struct.
    + intros l0' y' E. rewrite E1 in E. apply app_inj_tail in E as [<- <-]. rewrite lookup_delete_ne by lia. read_struct. by rewrite En.
    + intros z l3 E. by rewrite E2 in E.
    + intros a ?? Ha _. assert (a ≠ mn_addr y) by (intros ->; apply Ha; by exists l0, y). rewrite lookup_delete_ne by done. by read_struct.
  - destruct (Hlast l0 y E1). assert (is_word (mn_addr y)) by (unfold is_word; unfold mj_end in *; lia).
    destruct (Hhead z l3 E2). assert (is_word (mn_addr z)) by (unfold is_word; lia).
    rewrite (proj2 (Z.eqb_neq (mn_addr y) 0)) by lia. rewrite (proj2 (Z.eqb_neq (mn_addr z) 0)) by lia.
    cbn [negb mbind outcome_bind]. do 2 step_set. eexists _, _. split; [done|]. split; [done|].
    split; [by repeat (apply same_shape_insert; [by find_struct|])|].
    apply (rep_remove G1 g G2 l1 x l2 H); [done|by eapply hr_rep|done|by rewrite lookup_delete_eq| | | |].
    + fold left_major. rewrite lookup_delete_ne by lia. unfold major_words. rewrite (left_head_snoc l0 y E1). by read_struct.
    + intros l0' y' E. rewrite E1 in E. apply app_inj_tail in E as [<- <-]. rewrite lookup_delete_ne by lia. read_struct. by rewrite En.
    + intros z' l3' E. rewrite E2 in E. injection E as <- <-. rewrite lookup_delete_ne by lia. read_struct. by rewrite Ep.
    + intros a ?? Ha Hb. assert (a ≠ mn_addr y) by (intros ->; apply Ha; by exists l0, y).
      assert (a ≠ mn_addr z) by (intros ->; apply Hb; by exists z, l3). rewrite lookup_delete_ne by done. by read_struct.
Qed.

(** The heap without the minor; the major may be empty. *)
Lemma unlink_minor_ok : ∃ m', unlink_minor (h_mem h) (mj_addr g) (mn_addr x) (mn_size x) = Done m' ∧
  heap_inv (add_inuse (with_mem h m') (- mn_size x)) (G1 ++ left_major :: G2) ∧
  same_payload (G1 ++ left_major :: G2) (h_mem h) m'.
Proof.
  destruct unlink_minor_words as (m'&H'&->&Ho&Hsh&Hr). exists m'. split; [done|].
  pose proof left_geom as HG'. pose proof left_live as HL.
  assert (same_payload (G1 ++ left_major :: G2) (h_mem h) m') as Hs.
  { intros y z Hy Hz. apply (ow_out _ _ _ Ho), (same_shape_outside H); [done|].
    apply (payload_outside ALIGNMENT HA (G1 ++ g :: G2) H y); [by eapply hr_geom|by eapply hr_rep| |done].
    rewrite HL. by right. }
  split; [|done]. exists (delete (mn_addr x) H'). split; cbn; try done.
  - eapply owns_sub; [exact Ho|]. intros a ws [_ Ha]%lookup_delete_Some. done.
  - apply Forall_forall. intros y Hy. pose proof (hr_bytes _ _ _ Hh) as HB. rewrite Forall_forall in HB.
    apply (aligned_byte_ext ALIGNMENT HA (G1 ++ left_major :: G2) y (h_mem h)); [done|done|done|]. apply HB. rewrite HL. by right.
  - unfold left_major. rewrite regions_with. apply (ps_ext _ (h_mem h)); [intros z; apply Ho|apply Ho|by eapply hr_sys].
  - rewrite (hr_root _ _ _ Hh). by rewrite !head_major_app.
  - apply best_with. by eapply hr_best.
  - rewrite (hr_inuse _ _ _ Hh), u64_add, (sizes_perm _ _ HL). cbn. f_equal. lia.
  - unfold left_major. by rewrite regions_with, (hr_allocated _ _ _ Hh).
Qed.

End unlink.

Section release.
Context (h : heap Sys) (H : structs) (G1 G2 : list major) (g : major).
Context (Hh : heap_rep h (G1 ++ g :: G2) H) (Hmin : mj_minors g = []).

Lemma last_major_cases : (last_major 0 G1 = 0 ∧ G1 = []) ∨ ∃ K k, G1 = K ++ [k] ∧ last_major 0 G1 = mj_addr k ∧
  H !! mj_addr k = Some (major_words k (last_major 0 K) (mj_addr g)) ∧ is_word (mj_addr k) ∧ mj_addr k ≠ 0.
Proof.
  destruct G1 as [|k K _] using rev_ind; [by left|right]. exists K, k. split; [done|]. split; [apply last_major_app|].
  assert (heap_rep h (K ++ k :: g :: G2) H) as Hh' by (by rewrite <-app_assoc in Hh).
  split; [by apply (heap_rep_major h K k (g :: G2))|]. pose proof (heap_rep_geom _ _ _ _ _ Hh') as (?&?&?&?).
  unfold is_word, mj_end in *. lia.
Qed.

Lemma head_major_cases : (head_major G2 0 = 0 ∧ G2 = []) ∨ ∃ k K, G2 = k :: K ∧ head_major G2 0 = mj_addr k ∧
  H !! mj_addr k = Some (major_words k (mj_addr g) (head_major K 0)) ∧ is_word (mj_addr k) ∧ mj_addr k ≠ 0.
Proof.
  destruct G2 as [|k K]; [by left|right]. exists k, K. split; [done|]. split; [done|].
  assert (heap_rep h ((G1 ++ [g]) ++ k :: K) H) as Hh' by (by rewrite <-app_assoc).
  replace (mj_addr g) with (last_major 0 (G1 ++ [g])) by apply last_major_app.
  split; [by apply (heap_rep_major h (G1 ++ [g]) k K)|]. pose proof (heap_rep_geom _ _ _ _ _ Hh') as (?&?&?&?).
  unfold is_word, mj_end in *. lia.
Qed.

(** The links around the major. *)
Definition relink (m : memory) : outcome memory :=
  m ← (if negb (last_major 0 G1 =? 0) then set_field m (last_major 0 G1) maj_next (head_major G2 0) else Done m);
  if negb (head_major G2 0 =? 0) then set_field m (head_major G2 0) maj_prev (last_major 0 G1) else Done m.

Lemma major_ne k K : G1 = K ++ [k] ∨ G2 = k :: K → mj_addr k ≠ mj_addr g.
Proof.
  pose proof (addrs_NoDup _ (alignment_pos _ HA) _ (hr_geom _ _ _ Hh)) as Hnd. rewrite addrs_app in Hnd.
  intros Hk E. apply NoDup_app in Hnd as (_&Hd&Hnd). cbn in Hd, Hnd. apply NoDup_cons in Hnd as [Hn _].
  destruct Hk as [-> | ->].
  - apply (Hd (mj_addr k)); [rewrite addrs_app; apply elem_of_app; right; by left|]. rewrite E. by left.
  - apply Hn. rewrite <-E. apply elem_of_app. right. by left.
Qed.

Lemma relink_ok : ∃ m' H', relink (h_mem h) = Done m' ∧ owns (h_mem h) H' m' ∧ same_shape H H' ∧
  H' !! mj_addr g = H !! mj_addr g ∧ rep (G1 ++ G2) (delete (mj_addr g) H').
Proof.
  pose proof (hr_owns _ _ _ Hh) as Ho. pose proof (addrs_NoDup _ (alignment_pos _ HA) _ (hr_geom _ _ _ Hh)) as Hnd.
  assert (is_word 0) by (unfold is_word; lia). unfold relink.
  destruct last_major_cases as [[Ep E1]|(K1&k1&E1&Ep&Hk1&?&?)], head_major_cases as [[En E2]|(k2&K2&E2&En&Hk2&?&?)]; rewrite Ep, En.
  - cbn [Z.eqb negb mbind outcome_bind]. eexists _, H. split; [done|]. split_and!; [done|done|done|].
    apply (rep_release G1 g G2 H); [done|by eapply hr_rep|done|by rewrite lookup_delete_eq| | |].
    + intros K k E. rewrite E1 in E. by destruct K.
    + intros k K E. by rewrite E2 in E.
    + intros a ? _ _. by rewrite lookup_delete_ne.
  - pose proof (major_ne k2 K2 (or_intror E2)). rewrite (proj2 (Z.eqb_neq (mj_addr k2) 0)) by done.
    cbn [Z.eqb negb mbind outcome_bind]. step_set. eexists _, _. split; [done|]. split; [done|].
    split; [by repeat (apply same_shape_insert; [by find_struct|])|]. split; [by read_struct|].
    apply (rep_release G1 g G2 H); [done|by eapply hr_rep|done|by rewrite lookup_delete_eq| | |].
    + intros K k E. rewrite E1 in E. by destruct K.
    + intros k K E. rewrite E2 in E. injection E as <- <-. rewrite lookup_delete_ne by done. read_struct. by rewrite Ep.
    + intros a ? _ Ha. pose proof (Ha _ _ E2). rewrite lookup_delete_ne by done. by read_struct.
  - pose proof (major_ne k1 K1 (or_introl E1)). rewrite (proj2 (Z.eqb_neq (mj_addr k1) 0)) by done.
    cbn [Z.eqb negb mbind outcome_bind]. step_set. eexists _, _. split; [done|]. split; [done|].
    split; [by repeat (apply same_shape_insert; [by find_struct|])|]. split; [by read_struct|].
    apply (rep_release G1 g G2 H); [done|by eapply hr_rep|done|by rewrite lookup_delete_eq| | |].
    + intros K k E. rewrite E1 in E. apply app_inj_tail in E as [<- <-]. rewrite lookup_delete_ne by done. read_struct. by rewrite En.
    + intros k K E. by rewrite E2 in E.
    + intros a ? Ha _. pose proof (Ha _ _ E1). rewrite lookup_delete_ne by done. by read_struct.
  - pose proof (major_ne k1 K1 (or_introl E1)). pose proof (major_ne k2 K2 (or_intror E2)).
    assert (mj_addr k1 ≠ mj_addr k2) as Hne.
    { intros E. rewrite E1, E2, addrs_app, addrs_app in Hnd. apply NoDup_app in Hnd as (_&Hd&_).
      apply (Hd (mj_addr k1)); [apply elem_of_app; right; by left|]. rewrite E. cbn. rewrite Hmin. right. by left. }
    rewrite (proj2 (Z.eqb_neq (mj_addr k1) 0)), (proj2 (Z.eqb_neq (mj_addr k2) 0)) by done.
    cbn [Z.eqb negb mbind outcome_bind]. do 2 step_set. eexists _, _. split; [done|]. split; [done|].
    split; [by repeat (apply same_shape_insert; [by find_struct|])|]. split; [by read_struct|].
    apply (rep_release G1 g G2 H); [done|by eapply hr_rep|done|by rewrite lookup_delete_eq| | |].
    + intros K k E. rewrite E1 in E. apply app_inj_tail in E as [<- <-]. rewrite lookup_delete_ne by done. read_struct. by rewrite En.
    + intros k K E. rewrite E2 in E. injection E as <- <-. rewrite lookup_delete_ne by done. read_struct. by rewrite Ep.
    + intros a ? Ha Hb. pose proof (Ha _ _ E1). pose proof (Hb _ _ E2). rewrite lookup_delete_ne by done. by read_struct.
Qed.

Lemma release_root : (if l_memRoot h =? mj_addr g then head_major G2 0 else l_memRoot h) = head_major (G1 ++ G2) 0.
Proof.
  rewrite (hr_root _ _ _ Hh), head_major_app. destruct G1 as [|k K] eqn:E1; cbn [head_major app]; [by rewrite Z.eqb_refl|].
  rewrite (proj2 (Z.eqb_neq (mj_addr k) (mj_addr g))); [done|]. intros E.
  pose proof (addrs_NoDup _ (alignment_pos _ HA) _ (hr_geom _ _ _ Hh)) as Hnd. cbn in Hnd. apply NoDup_cons in Hnd as [Hn _].
  apply Hn, elem_of_app. right. rewrite E. apply elem_addrs. exists g. split; [set_solver|by left].
Qed.

Lemma release_best : major_or_null (G1 ++ G2) (if l_bestBet h =? mj_addr g then 0 else l_bestBet h).
Proof.
  destruct (Z.eqb_spec (l_bestBet h) (mj_addr g)) as [|Hne]; [by left|]. destruct (hr_best _ _ _ Hh) as [|(k&Hk&E)]; [by left|right].
  exists k. split; [|done]. apply elem_of_app in Hk as [Hk|[->|Hk]%elem_of_cons]; [set_solver|done|set_solver].
Qed.

Lemma release_major_ok :
  (∃ h', release_major liballoc_free h (mj_addr g) = Done h' ∧ heap_inv h' (G1 ++ G2) ∧ same_payload (G1 ++ G2) (h_mem h) (h_mem h')) ∨
  (∀ p, mj_addr g ≤ p < mj_end g → free_fails (h_sys h) p) ∧ not_done (release_major liballoc_free h (mj_addr g)).
Proof.
  pose proof (hr_owns _ _ _ Hh) as Ho. pose proof (heap_rep_major _ _ _ _ _ Hh) as Hg. pose proof (hr_geom _ _ _ Hh) as HG.
  destruct (geom_split _ _ _ _ HG) as (_&HG'&_). destruct relink_ok as (m1&H1&E1&Ho1&Hsh&Hg1&Hr).
  assert (regions (G1 ++ g :: G2) ≡ₚ (mj_addr g, mj_pages g) :: regions (G1 ++ G2)) as HP'.
  { rewrite !regions_app. symmetry. apply Permutation_middle. }
  assert (sys_inv (h_sys h) m1 ((mj_addr g, mj_pages g) :: regions (G1 ++ G2))) as Hs1.
  { apply (ps_perm _ _ _ _ HP'), (ps_ext _ (h_mem h)); [intros z; apply Ho1|apply Ho1|by eapply hr_sys]. }
  pose proof (ps_ok _ _ _ (hr_sys _ _ _ Hh)) as (_&Hap&_). apply (pairwise_perm _ apart_sym _ _ HP') in Hap.
  unfold release_major. step_get. cbn [h_mem with_best with_root]. step_get.
  rewrite <-(bind_assoc (if negb (last_major 0 G1 =? 0) then _ else _)). fold (relink (h_mem h)). rewrite E1.
  cbn [mbind outcome_bind]. rewrite (get_field_owns _ _ _ _ _ maj_size _ Ho1 (eq_trans Hg1 Hg) eq_refl). cbn [mbind outcome_bind].
  rewrite (get_field_owns _ _ _ _ _ maj_pages _ Ho1 (eq_trans Hg1 Hg) eq_refl). cbn [mbind outcome_bind].
  cbn [h_sys with_best with_root].
  destruct (liballoc_free (h_sys h) m1 (mj_addr g) (mj_pages g)) as [[s' m2]| | |] eqn:Ef; [left|right; (split; [|done]; intros p Hp; exists m1, (mj_addr g), (mj_pages g), (regions (G1 ++ G2)); unfold mj_end, mj_size in Hp; by rewrite Ef)..].
  cbn [mbind outcome_bind]. destruct (ps_free _ _ _ _ _ _ _ Hs1 Ef) as [Hs Hm2].
  assert (same_payload (G1 ++ G2) (h_mem h) m2) as Hsame.
  { intros y z Hy Hz. rewrite Hm2 by (apply (region_apart_payload (G1 ++ G2) _ _ y); [done|done|done|lia]).
    apply (ow_out _ _ _ Ho1), (same_shape_outside H); [done|].
    apply (payload_outside ALIGNMENT HA (G1 ++ g :: G2) H y); [done|by eapply hr_rep| |done].
    rewrite live_app in *. set_solver. }
  eexists. split; [done|]. split; [|done].
  exists (delete (mj_addr g) H1). split; cbn; try done.
  - apply (owns_ext m1 (delete (mj_addr g) H1) m1); [|by eapply (ps_ok s' m2)|].
    + eapply owns_sub; [exact Ho1|]. by intros a ws [_ Ha]%lookup_delete_Some.
    + intros a ws z Ha Hz. apply Hm2. rewrite (rep_span _ _ _ _ Hr Ha) in Hz.
      destruct (region_apart_headers (G1 ++ G2) (mj_addr g) (mj_pages g) a HG' Hap); [|lia|lia].
      destruct Hr as [_ Hd]. apply Hd. by rewrite Ha.
  - apply Forall_forall. intros y Hy. pose proof (hr_bytes _ _ _ Hh) as HB. rewrite Forall_forall in HB.
    apply (aligned_byte_ext ALIGNMENT HA (G1 ++ G2) y (h_mem h)); [done|done|done|]. apply HB. rewrite live_app in *. set_solver.
  - apply release_root.
  - apply release_best.
  - rewrite (hr_inuse _ _ _ Hh). f_equal. rewrite !live_app. cbn. by rewrite Hmin.
  - rewrite (hr_allocated _ _ _ Hh), u64_add, (pages_total_perm _ _ HP'). cbn. f_equal. unfold mj_size. lia.
Qed.

End release.

Lemma update_best_ok h G1 g G2 H : heap_rep h (G1 ++ g :: G2) H →
  ∃ h', update_best h (mj_addr g) = Done h' ∧ heap_inv h' (G1 ++ g :: G2) ∧ h_mem h' = h_mem h.
Proof.
  intros Hh. pose proof (hr_owns _ _ _ Hh) as Ho. pose proof (heap_rep_major _ _ _ _ _ Hh) as Hg. unfold update_best.
  destruct (Z.eqb_spec (l_bestBet h) 0) as [E|E]; cbn [negb]; [exists h; split; [done|]; split; [by exists H|done]|].
  destruct (hr_best _ _ _ Hh) as [|(k&Hk&Eb)]; [done|]. rewrite Eb. apply list_elem_of_split in Hk as (K1&K2&EK).
  pose proof Hh as Hh'. rewrite EK in Hh'. pose proof (heap_rep_major _ _ _ _ _ Hh') as Hk. do 4 step_get.
  eexists. split; [done|]. case_match; (split; [exists H|done]); [|done].
  apply heap_rep_best; [done|]. right. exists g. set_solver.
Qed.

Lemma live_header h G H x : heap_rep h G H → x ∈ live G → ∃ G1 g G2 l1 l2, G = G1 ++ g :: G2 ∧ mj_minors g = l1 ++ x :: l2 ∧
  H !! mn_addr x = Some (minor_words x (last_minor 0 l1) (head_minor l2 0) (mj_addr g)).
Proof.
  intros Hh (g&Hg&Hx)%elem_live. apply list_elem_of_split in Hg as (G1&G2&->). apply list_elem_of_split in Hx as (l1&l2&Hl).
  exists G1, g, G2, l1, l2. split_and!; [done|done|]. by apply (minor_words_in h H G1 G2 g Hh).
Qed.

(** The pointer of a block, and its way back to the header. *)
Lemma user_ptr_range G x : geom G → x ∈ live G → 0 < mn_addr x ∧ mn_addr x + 40 ≤ user_ptr (mn_addr x) ∧
  user_ptr (mn_addr x) + mn_req x ≤ mn_end x ∧ mn_end x ≤ 2 ^ 32 ∧ 0 ≤ mn_req x ∧ mn_addr x + 40 + ALIGNMENT ≤ 2 ^ 32 ∧
  user_ptr (mn_addr x) mod ALIGNMENT = 0.
Proof.
  intros HG Hx. destruct (live_range _ (alignment_pos _ HA) G x HG Hx) as (g&_&?&?&?&?&?&?).
  destruct (user_ptr_spec _ HA (mn_addr x)). unfold mn_end in *. split_and!; (done || lia).
Qed.

Lemma find_header h G H x : heap_rep h G H → x ∈ live G → user_ptr (mn_addr x) ≠ 0 ∧
  UNALIGN ALIGNMENT (h_mem h) (user_ptr (mn_addr x)) = Done (mn_addr x + 24) ∧
  u32 (mn_addr x + 24 - sizeof_minor) = mn_addr x.
Proof.
  intros Hh Hx. destruct (user_ptr_range G x (hr_geom _ _ _ Hh) Hx) as (?&?&?&?&?&?&_).
  split_and!; [lia| |].
  - apply UNALIGN_eq; [done|lia|lia|]. pose proof (hr_bytes _ _ _ Hh) as HB. rewrite Forall_forall in HB. by apply HB.
  - unfold sizeof_minor. replace (mn_addr x + 24 - 24) with (mn_addr x) by lia. apply u32_id. lia.
Qed.

Lemma free_ok h G x : heap_inv h G → x ∈ live G →
  (∃ h' G', free ALIGNMENT liballoc_free h (user_ptr (mn_addr x)) = Done h' ∧
    heap_inv h' G' ∧ live G ≡ₚ x :: live G' ∧ same_payload G' (h_mem h) (h_mem h')) ∨
  (free_fails (h_sys h) (user_ptr (mn_addr x)) ∧ not_done (free ALIGNMENT liballoc_free h (user_ptr (mn_addr x)))).
Proof.
  intros [H Hh] Hx. destruct (find_header h G H x Hh Hx) as (Hp&Hu&Eu).
  destruct (live_header h G H x Hh Hx) as (G1&g&G2&l1&l2&->&Hl&Hw). pose proof (hr_owns _ _ _ Hh) as Ho.
  unfold free. rewrite (proj2 (Z.eqb_neq _ 0)) by done. rewrite Hu. cbn [mbind outcome_bind]. rewrite Eu. do 3 step_get.
  rewrite Z.eqb_refl. cbn [negb].
  destruct (unlink_minor_ok h H G1 G2 g l1 l2 x Hh Hl) as (m'&->&[H' Hh']&Hs). cbn [mbind outcome_bind].
  pose proof (left_live h H G1 G2 g l1 l2 x Hh Hl) as HL.
  set (h1 := add_inuse (with_mem h m') (- mn_size x)) in *. change m' with (h_mem h1).
  pose proof (heap_rep_major _ _ _ _ _ Hh') as Hgw. cbn [mj_addr left_major with_minors] in Hgw.
  rewrite (get_field_owns _ _ _ _ _ maj_first _ (hr_owns _ _ _ Hh') Hgw eq_refl). cbn [mbind outcome_bind].
  destruct (decide (l1 ++ l2 = [])) as [E|E].
  - cbn [left_major with_minors mj_minors]. rewrite E. cbn [head_minor Z.eqb].
    destruct (release_major_ok h1 H' G1 G2 (left_major g l1 l2) Hh' E) as [(h2&E2&Hi&Hs2)|[Hff Hnd]].
    2:{ right. split; [|exact Hnd]. apply (Hff (user_ptr (mn_addr x))). destruct (unlink_bounds h H G1 G2 g l1 l2 x Hh Hl) as (?&?&?&_).
        destruct (user_ptr_spec _ HA (mn_addr x)). destruct (live_range _ (alignment_pos _ HA) _ x (hr_geom _ _ _ Hh) Hx) as (k&_&?&?&?&?&?&?).
        change (mj_addr g ≤ user_ptr (mn_addr x) < mj_end g). unfold mn_end in *. lia. }
    left. exists h2, (G1 ++ G2).
    split; [done|]. split; [done|].
    assert (live (G1 ++ left_major g l1 l2 :: G2) = live (G1 ++ G2)) as EL by (rewrite !live_app; cbn; by rewrite E).
    split; [by rewrite HL, EL|]. intros y z Hy Hz. rewrite (Hs2 y z Hy Hz). apply (Hs y); [by rewrite EL|done].
  - destruct (update_best_ok h1 _ _ _ _ Hh') as (h2&E2&Hi&Em2). left. exists h2, (G1 ++ left_major g l1 l2 :: G2).
    rewrite (proj2 (Z.eqb_neq _ 0)); [split; [done|]; split; [done|]; split; [done|]; intros y z Hy Hz; rewrite Em2; by apply (Hs y)|].
    cbn [left_major with_minors mj_minors]. destruct (l1 ++ l2) as [|y l] eqn:El; [done|]. cbn [head_minor].
    assert (y ∈ live (G1 ++ left_major g l1 l2 :: G2)) as Hy.
    { apply elem_live. exists (left_major g l1 l2). split; [set_solver|]. cbn. rewrite El. by left. }
    pose proof (user_ptr_range _ y (hr_geom _ _ _ Hh') Hy). lia.
Qed.

(** ** The bytes of the user *)

(** Where the user of a block may write. *)
Definition in_block (x : minor) (a n : Z) : Prop :=
  user_ptr (mn_addr x) ≤ a ∧ a + n ≤ user_ptr (mn_addr x) + mn_req x.

Lemma block_mapped h G x : heap_inv h G → x ∈ live G → mapped (h_mem h) (user_ptr (mn_addr x)) (mn_req x).
Proof.
  intros [H Hh] Hx. destruct (user_ptr_range G x (hr_geom _ _ _ Hh) Hx) as (?&?&?&_).
  destruct (live_range _ (alignment_pos _ HA) G x (hr_geom _ _ _ Hh) Hx) as (g&Hg&?&?&_).
  eapply mapped_sub; [by eapply heap_rep_mapped|lia|unfold mj_end in *; lia].
Qed.

(** A write to a block leaves the heap and the other blocks alone. *)
Lemma heap_write h G x a l : heap_inv h G → x ∈ live G → in_block x a (Z.of_nat (length l)) → Forall (λ b, 0 ≤ b < 256) l →
  heap_inv (with_mem h (write_bytes (h_mem h) a l)) G ∧
  ∀ y, mn_apart x y → ∀ z, mn_addr y + 24 ≤ z < mn_end y → write_bytes (h_mem h) a l !! z = h_mem h !! z.
Proof.
  intros [H Hh] Hx [Ha1 Ha2] Hl. pose proof (hr_geom _ _ _ Hh) as HG.
  destruct (user_ptr_range G x HG Hx) as (?&?&?&?&?&?&_).
  assert (mapped (h_mem h) a (Z.of_nat (length l))) as Hm.
  { eapply mapped_sub; [by apply (block_mapped h G x); [exists H|]|done|done]. }
  assert (∀ y, mn_apart x y → ∀ z, mn_addr y + 24 ≤ z < mn_end y → write_bytes (h_mem h) a l !! z = h_mem h !! z) as Hout.
  { intros y Hy z Hz. rewrite write_bytes_lookup, decide_False; [done|]. destruct Hy; lia. }
  split; [|done]. exists H. pose proof (hr_rep _ _ _ Hh) as Hr.
  assert (bytes_ok (write_bytes (h_mem h) a l)) as Hok by (apply bytes_ok_write; [apply (hr_owns _ _ _ Hh)|done]).
  destruct Hh; split; cbn; try done.
  - apply (owns_ext (h_mem h) H (h_mem h)); [done|done|]. intros b ws z Hb Hz. rewrite write_bytes_lookup, decide_False; [done|].
    intros Hin. assert (outside H z) as Hoz; [|by apply (Hoz b ws)].
    apply (payload_outside ALIGNMENT HA G H x); [done|done|done|lia].
  - apply Forall_forall. intros y Hy. rewrite Forall_forall in hr_bytes0. specialize (hr_bytes0 y Hy).
    unfold aligned_byte in *. destruct (user_ptr_range G y HG Hy) as (?&?&?&?&?&_). rewrite write_bytes_lookup, decide_False; [done|].
    intros Hin. apply list_elem_of_split in Hx as (L1&L2&EL). rewrite EL in Hy. pose proof (live_apart _ (alignment_pos _ HA) G HG) as Hap.
    rewrite EL in Hap. destruct (decide (y = x)) as [->|Hne]; [lia|].
    destruct (pairwise_elem _ mn_apart_sym L1 x L2 y Hap); [set_solver|lia|lia].
  - apply (ps_ext _ (h_mem h)); [|done|done]. intros z. by apply is_Some_write.
Qed.

(** The bytes a block holds. *)
Definition holds (m : memory) (x : minor) (l : list Z) : Prop :=
  Z.of_nat (length l) = mn_req x ∧ bytes_at m (user_ptr (mn_addr x)) l.

Lemma holds_ext G m m' x l : geom G → x ∈ live G → same_payload G m m' → holds m x l → holds m' x l.
Proof.
  intros HG Hx Hs [Hlen Hl]. split; [done|]. destruct (user_ptr_range G x HG Hx) as (?&?&?&_).
  rewrite bytes_at_lookup in *. intros i b Hi. pose proof (lookup_lt_Some _ _ _ Hi). rewrite (Hs x); [by apply Hl|done|lia].
Qed.

Lemma holds_exists h G x : heap_inv h G → x ∈ live G → ∃ l, holds (h_mem h) x l ∧ Forall (λ b, 0 ≤ b < 256) l.
Proof.
  intros Hh Hx. pose proof (block_mapped h G x Hh Hx) as Hm. destruct Hh as [H Hh].
  destruct (user_ptr_range G x (hr_geom _ _ _ Hh) Hx) as (_&_&_&_&?&_).
  destruct (mapped_bytes (h_mem h) (user_ptr (mn_addr x)) (Z.to_nat (mn_req x))) as (l&Hlen&Hl); [by rewrite Z2Nat.id|].
  exists l. split; [split; [lia|done]|]. eapply bytes_at_ok; [apply (hr_owns _ _ _ Hh)|done].
Qed.

(** ** [calloc] *)

Lemma calloc_ok h G nobj size : heap_inv h G → 0 ≤ nobj * size → fits (nobj * size) →
  (pages_fail h (padded ALIGNMENT (nobj * size)) ∧ not_done (calloc ALIGNMENT l_pageCount liballoc_alloc h nobj size)) ∨
  (pages_null h (padded ALIGNMENT (nobj * size)) ∧ ∃ h', calloc ALIGNMENT l_pageCount liballoc_alloc h nobj size =
     (m ← liballoc_memset (Z.to_nat (nobj * size)) (h_mem h') 0 0; Done (0, with_mem h' m))) ∨
  ∃ h' G' x, calloc ALIGNMENT l_pageCount liballoc_alloc h nobj size = Done (user_ptr (mn_addr x), h') ∧ heap_inv h' G' ∧
    live G' ≡ₚ x :: live G ∧ mn_req x = nobj * size ∧ holds (h_mem h') x (replicate (Z.to_nat (nobj * size)) 0) ∧
    same_payload G (h_mem h) (h_mem h').
Proof.
  intros Hh H0 Hf. unfold calloc. assert (u32 (nobj * size) = nobj * size) as Eu by (apply u32_id; destruct Hf; pose proof (alignment_pos _ HA); lia).
  rewrite Eu. destruct (malloc_ok h G (nobj * size) Hh Hf) as [[Hpf Hnd]|[(Hpn&h'&->&_)|(p&h'&->&G'&x&->&Hh'&HPm&Hx&Hs)]];
    [left; split; [done|by apply not_done_bind]|right; left; split; [done|by exists h']|].
  right; right. cbn [mbind outcome_bind]. assert (x ∈ live G') as Hin by (rewrite HPm; by left).
  pose proof (block_mapped h' G' x Hh' Hin) as Hm. rewrite Hx in Hm.
  rewrite liballoc_memset_spec by (by rewrite Z2Nat.id). cbn [mbind outcome_bind]. change (u8 0) with 0.
  set (l := replicate (Z.to_nat (nobj * size)) 0). assert (Z.of_nat (length l) = nobj * size) as El by (unfold l; rewrite length_replicate; lia).
  destruct (heap_write h' G' x (user_ptr (mn_addr x)) l Hh' Hin) as [Hw Ho].
  { split; lia. }
  { apply Forall_replicate. lia. }
  eexists _, G', x. split; [done|]. split; [done|]. split; [done|]. split; [done|]. split; [split; [by rewrite Hx|apply bytes_at_write]|].
  intros y z Hy Hz. cbn. rewrite Ho with (y := y); [by apply (Hs y)| |done].
  destruct Hh' as [H' Hh']. pose proof (live_apart _ (alignment_pos _ HA) G' (hr_geom _ _ _ Hh')) as Hap.
  apply (pairwise_perm _ mn_apart_sym _ _ HPm) in Hap as [Hap _]. rewrite Forall_forall in Hap. by apply Hap.
Qed.

(** ** [realloc] *)

(** The block [x] has become a block of [n] bytes at [p] that starts with its bytes. *)
Definition moved h G (x : minor) (n p : Z) h' : Prop :=
  ∃ G' y L, p = user_ptr (mn_addr y) ∧ heap_inv h' G' ∧ live G ≡ₚ x :: L ∧ live G' ≡ₚ y :: L ∧ mn_req y = n ∧
    (∀ i, 0 ≤ i < Z.min n (mn_req x) → h_mem h' !! (p + i) = h_mem h !! (user_ptr (mn_addr x) + i)) ∧
    ∀ y' z, y' ∈ L → mn_addr y' + 24 ≤ z < mn_end y' → h_mem h' !! z = h_mem h !! z.

Lemma resize_ok h G1 g G2 H l1 x l2 n : heap_rep h (G1 ++ g :: G2) H → mj_minors g = l1 ++ x :: l2 → 0 ≤ n ≤ mn_req x →
  ∃ m', set_field (h_mem h) (mn_addr x) min_req_size n = Done m' ∧
    moved h (G1 ++ g :: G2) x n (user_ptr (mn_addr x)) (with_mem h m').
Proof.
  intros Hh Hl Hn. pose proof (alignment_pos _ HA) as HA0. pose proof (hr_geom _ _ _ Hh) as HG. pose proof (hr_owns _ _ _ Hh) as Ho.
  pose proof (minor_words_in h H G1 G2 g Hh l1 x l2 Hl) as Hw.
  assert (x ∈ live (G1 ++ g :: G2)) as Hx by (apply elem_live; exists g; rewrite Hl; set_solver).
  destruct (user_ptr_range _ x HG Hx) as (?&?&?&?&?&_). unfold mn_end in *.
  destruct (set_field_owns _ _ _ _ _ min_req_size n Ho Hw) as (m'&E&Ho'); [by apply Nat.ltb_lt|unfold is_word; lia|].
  exists m'. split; [done|]. set (x' := mk_minor (mn_addr x) (mn_size x) n).
  set (G' := G1 ++ with_minors g (l1 ++ x' :: l2) :: G2). set (L := live (G1 ++ left_major g l1 l2 :: G2)).
  assert (live (G1 ++ g :: G2) ≡ₚ x :: L) as HL by by apply (left_live h H).
  assert (live G' ≡ₚ x' :: L) as HL' by exact (live_with G1 (left_major g l1 l2) G2 l1 l2 x' eq_refl).
  assert (geom G') as HG'.
  { apply geom_with; [done|]. destruct (geom_split _ _ _ _ HG) as ((_&_&_&Hm)&_). rewrite Hl in Hm.
    apply minors_in_app in Hm as [Hm1 Hm2]. apply minors_in_app. split; [done|]. cbn in *. unfold mn_end in *. cbn. intuition lia. }
  pose proof (rep_resize G1 g G2 l1 x l2 H n Hl (hr_rep _ _ _ Hh) (addrs_NoDup _ HA0 _ HG)) as Hr.
  assert (∀ y z, y ∈ live (G1 ++ g :: G2) → mn_addr y + 24 ≤ z < mn_end y → m' !! z = h_mem h !! z) as Hsame.
  { intros y z Hy Hz. apply (ow_out _ _ _ Ho'), (same_shape_outside H).
    - apply same_shape_insert; [done|]. done.
    - apply (payload_outside ALIGNMENT HA (G1 ++ g :: G2) H y); [done|by eapply hr_rep|done|done]. }
  exists G', x', L. split_and!; [done| |done|done|done| |].
  - exists (<[mn_addr x := minor_words x' (last_minor 0 l1) (head_minor l2 0) (mj_addr g)]> H). split; cbn; try done.
    + by eapply owns_rebase.
    + rewrite HL'. pose proof (hr_bytes _ _ _ Hh) as HB. rewrite HL in HB. inversion HB as [|?? Hb1 Hb2]; subst.
      constructor.
      * unfold aligned_byte in *. cbn. rewrite (Hsame x); [done|done|]. unfold mn_end. lia.
      * apply Forall_forall. intros y Hy. rewrite Forall_forall in Hb2.
        apply (aligned_byte_ext ALIGNMENT HA (G1 ++ g :: G2) y (h_mem h)); [done|rewrite HL; by right|done|by apply Hb2].
    + unfold G'. rewrite regions_with. apply (ps_ext _ (h_mem h)); [intros z; apply Ho'|apply Ho'|by eapply hr_sys].
    + rewrite (hr_root _ _ _ Hh). unfold G'. by rewrite !head_major_app.
    + apply best_with. by eapply hr_best.
    + rewrite (hr_inuse _ _ _ Hh), (sizes_perm _ _ HL), (sizes_perm _ _ HL'). done.
    + unfold G'. by rewrite regions_with, (hr_allocated _ _ _ Hh).
  - intros i Hi. cbn. apply (Hsame x); [done|]. unfold mn_end. lia.
  - intros y z Hy Hz. cbn. apply (Hsame y); [rewrite HL; by right|done].
Qed.

Lemma realloc_ok h G x size : heap_inv h G → x ∈ live G → 0 < size → fits size →
  (pages_fail h (padded ALIGNMENT size) ∧
     not_done (realloc ALIGNMENT l_pageCount liballoc_alloc liballoc_free h (user_ptr (mn_addr x)) size)) ∨
  (pages_null h (padded ALIGNMENT size) ∧ ∃ h',
     realloc ALIGNMENT l_pageCount liballoc_alloc liballoc_free h (user_ptr (mn_addr x)) size =
     (m ← liballoc_memcpy (h_mem h') 0 (user_ptr (mn_addr x)) (mn_req x);
      h ← free ALIGNMENT liballoc_free (with_mem h' m) (user_ptr (mn_addr x)); Done (0, h))) ∨
  ((∃ s, free_fails s (user_ptr (mn_addr x))) ∧
     not_done (realloc ALIGNMENT l_pageCount liballoc_alloc liballoc_free h (user_ptr (mn_addr x)) size)) ∨
  ∃ p h', realloc ALIGNMENT l_pageCount liballoc_alloc liballoc_free h (user_ptr (mn_addr x)) size = Done (p, h') ∧
    moved h G x size p h'.
Proof.
  intros Hh Hx H0 Hf. pose proof Hh as [H Hr]. destruct (find_header h G H x Hr Hx) as (Hp&Hu&Eu).
  destruct (live_header h G H x Hr Hx) as (G1&g&G2&l1&l2&EG&Hl&Hw). pose proof (hr_owns _ _ _ Hr) as Ho.
  unfold realloc. rewrite (proj2 (Z.eqb_neq size 0)) by lia. rewrite (proj2 (Z.eqb_neq _ 0)) by done. rewrite Hu.
  cbn [mbind outcome_bind]. rewrite Eu. do 2 step_get. rewrite Z.eqb_refl. cbn [negb].
  destruct (Z.leb_spec size (mn_req x)) as [Hle|Hgt].
  { right; right; right. rewrite EG in Hr |- *. destruct (resize_ok h G1 g G2 H l1 x l2 size Hr Hl) as (m'&->&Hm); [lia|].
    cbn [mbind outcome_bind]. by eexists _, _. }
  destruct (malloc_ok h G size Hh Hf) as [[Hpf Hnd]|[(Hpn&h1&->&_)|(p&h1&->&G'&y&->&Hh1&HPm&Hy&Hs)]];
    [left; split; [done|by apply not_done_bind]|right; left; split; [done|by exists h1]|].
  right; right. cbn [mbind outcome_bind]. clear EG Hl Hw Ho Hu Eu G1 G2 g l1 l2.
  assert (y ∈ live G') as Hyin by (rewrite HPm; by left). assert (x ∈ live G') as Hxin by (rewrite HPm; by right).
  pose proof Hh1 as [H1 Hr1]. pose proof (hr_geom _ _ _ Hr1) as HG1.
  assert (mn_apart y x) as Hyx.
  { pose proof (live_apart _ (alignment_pos _ HA) G' HG1) as Hap. apply (pairwise_perm _ mn_apart_sym _ _ HPm) in Hap as [Hap _].
    rewrite Forall_forall in Hap. by apply Hap. }
  destruct (holds_exists h G x Hh Hx) as (l&Hl&Hlb). pose proof (holds_ext G _ _ x l (hr_geom _ _ _ Hr) Hx Hs Hl) as [Hlen Hl1].
  destruct (user_ptr_range G' x HG1 Hxin) as (?&?&?&?&?&_). destruct (user_ptr_range G' y HG1 Hyin) as (?&?&?&_).
  rewrite (liballoc_memcpy_spec _ _ _ _ l); [|apply (hr_owns _ _ _ Hr1)|done|done| |destruct Hyx; lia].
  2:{ eapply mapped_sub; [by apply (block_mapped h1 G' y)|lia|lia]. }
  cbn [mbind outcome_bind].
  destruct (heap_write h1 G' y (user_ptr (mn_addr y)) l Hh1 Hyin) as [Hh2 Hout]; [split; lia|done|].
  destruct (free_ok _ G' x Hh2 Hxin) as [(h3&G3&->&Hh3&HL3&Hs3)|[Hff Hnd]]; [right|left; split; [by eexists|by apply not_done_bind]]. cbn [mbind outcome_bind]. eexists _, h3. split; [done|].
  assert (∃ L, live G ≡ₚ x :: L) as [L HL].
  { apply list_elem_of_split in Hx as (L1&L2&->). exists (L1 ++ L2). symmetry. apply Permutation_middle. }
  assert (live G3 ≡ₚ y :: L) as HG3.
  { apply (Permutation_cons_inv (a := x)). rewrite <-HL3, HPm, HL. apply Permutation_swap. }
  exists G3, y, L. split_and!; [done|done|done|done|done| |].
  - intros i Hi. rewrite (Hs3 y); [|rewrite HG3; by left|lia]. cbn [h_mem with_mem].
    rewrite write_bytes_lookup, decide_True by lia. replace (user_ptr (mn_addr y) + i - user_ptr (mn_addr y)) with i by lia.
    destruct (lookup_lt_is_Some_2 l (Z.to_nat i)) as [b Hb]; [lia|]. rewrite Hb. destruct Hl as [_ Hl].
    symmetry. rewrite <-(Z2Nat.id i) by lia. by apply (proj1 (bytes_at_lookup _ _ _) Hl).
  - intros y' z Hy' Hz. rewrite (Hs3 y'); [|rewrite HG3; by right|done]. cbn [h_mem with_mem].
    assert (y' ∈ live G) as Hy'G by (rewrite HL; by right). rewrite (Hout y'); [by apply (Hs y')| |done].
    pose proof (live_apart _ (alignment_pos _ HA) G' HG1) as Hap. apply (pairwise_perm _ mn_apart_sym _ _ HPm) in Hap as [Hap _].
    rewrite Forall_forall in Hap. by apply Hap.
Qed.

End ops.
Arguments fits ALIGNMENT l_pageCount max_pages req : clear implicits.
