(* ===== verification/LiballocPages.v ===== *)
(** * The pages of the allocator in the C library (libraries/libc/sys/liballoc.cpp, sys/mman.c)

    [liballoc_alloc] and [liballoc_free] of the C library, over the system calls
    [mmap] and [munmap]: what these promise is the class [Mmap], and under it the
    library keeps to what the allocator expects ([PageSource]).  When there is no
    room, the allocator is given [MAP_FAILED], which it takes for a region. *)

From stdpp Require Import base numbers list option gmap sets.
From S2P Require Import Prelude.
From S2P Require Import ByteMem.
From S2P Require Import Words.
From S2P Require Import Liballoc.
From S2P Require Import LiballocHeap.
From S2P Require Import LiballocOps.

Local Open Scope Z_scope.

(** [(void* ) -1]. *)
Definition MAP_FAILED : Z := 2 ^ 32 - 1.

Section libc.
Context {Sys : Type}.
(** The system calls, for memory that is anonymous and may be read and written: the address of the region, if there is room, and whether a region was found. *)
Context (sys_mmap : Sys → memory → Z → outcome (option Z * Sys * memory)).
Context (sys_munmap : Sys → memory → Z → Z → outcome (bool * Sys * memory)).

Definition mmap_named (s : Sys) (m : memory) (length : Z) : outcome (Z * Sys * memory) :=
  '(ret, s, m) ← sys_mmap s m length;
  Done (match ret with Some a => a | None => MAP_FAILED end, s, m).

Definition libc_alloc (s : Sys) (m : memory) (pages : Z) : outcome (Z * Sys * memory) := mmap_named s m (u32 (pages * 4096)).

(** If the region is not found, a warning is printed, and that is all. *)
Definition libc_free (s : Sys) (m : memory) (ptr pages : Z) : outcome (Sys * memory) :=
  '(_, s, m) ← sys_munmap s m ptr (u32 (pages * 4096));
  Done (s, m).

(** What the system promises: the regions of a program are mapped and apart, and there is no memory at [MAP_FAILED]; nothing changes when there is no room; a region of no bytes starts where there is no memory; and only the memory of a region changes when it comes or goes. *)
Class Mmap (sys_inv : Sys → memory → list (Z * Z) → Prop) : Prop := {
  mm_perm s m L L' : L ≡ₚ L' → sys_inv s m L → sys_inv s m L';
  mm_ext s m m' L : same_dom m m' → bytes_ok m' → sys_inv s m L → sys_inv s m' L;
  mm_ok s m L : sys_inv s m L → bytes_ok m ∧ pairwise apart L ∧ m !! MAP_FAILED = None ∧
    Forall (λ r, 0 < r.1 ∧ 0 < r.2 ∧ r.1 + r.2 * 4096 ≤ 2 ^ 32 ∧ mapped m r.1 (r.2 * 4096)) L;
  mm_full s m L len s' m' : sys_inv s m L → sys_mmap s m len = Done (None, s', m') → m' = m ∧ sys_inv s' m L;
  mm_empty s m L a s' m' : sys_inv s m L → sys_mmap s m 0 = Done (Some a, s', m') → a ≠ 0 ∧ m' !! a = None;
  mm_map s m L n a s' m' : sys_inv s m L → 0 < n < 2 ^ 20 → sys_mmap s m (n * 4096) = Done (Some a, s', m') →
    sys_inv s' m' ((a, n) :: L) ∧ ∀ z, ¬ (a ≤ z < a + n * 4096) → m' !! z = m !! z;
  mm_unmap s m L a n r s' m' : sys_inv s m ((a, n) :: L) → sys_munmap s m a (n * 4096) = Done (r, s', m') → sys_inv s' m' L ∧
    ∀ z, ¬ (a ≤ z < a + n * 4096) → m' !! z = m !! z;
}.

#[export] Instance libc_source sys_inv : Mmap sys_inv → PageSource (2 ^ 20) libc_alloc libc_free sys_inv.
Proof.
  intros MM. split; [apply mm_perm|apply mm_ext| | |].
  - intros s m L Hs. destruct (mm_ok s m L Hs) as (?&?&_&?). done.
  - intros s m L n a s' m' Hs Hn E. unfold libc_alloc, mmap_named in E. apply bind_Done in E as ([[r s1] m1]&E&E1). injection E1 as <- <- <-. right.
    destruct r as [a|]; [|left; destruct (mm_full _ _ _ _ _ _ Hs E) as [-> _]; split; [done|by apply (mm_ok _ _ _ Hs)]].
    destruct (decide (n = 2 ^ 20)) as [->|Hne]; [left; by apply (mm_empty _ _ _ _ _ _ Hs E)|right].
    assert (0 < n < 2 ^ 20) as Hn' by lia. rewrite u32_id in E by lia. destruct (mm_map _ _ _ _ _ _ _ Hs Hn' E) as [Hs' Hm]. split; [|done].
    destruct (mm_ok _ _ _ Hs') as (_&_&_&[(?&_) _]%Forall_cons). cbn in *. lia.
  - intros s m L a n s' m' Hs E. unfold libc_free in E. apply bind_Done in E as ([[r s1] m1]&E&E1). injection E1 as <- <-.
    destruct (mm_ok _ _ _ Hs) as (_&_&_&[(?&?&?&_) _]%Forall_cons). cbn in *. rewrite u32_id in E by lia. by eapply mm_unmap.
Qed.
End libc.

(** ** An address space *)

(** Pages of zeros, one region behind the other, in an address space that is empty from [s] up to [limit]; a region that is given back stays mapped. *)
Definition bump_mmap (limit s : Z) (m : memory) (len : Z) : outcome (option Z * Z * memory) :=
  if (len =? 0) || (limit <? s + len) then Done (None, s, m)
  else Done (Some s, s + len, write_bytes m s (replicate (Z.to_nat len) 0)).
Definition bump_munmap (s : Z) (m : memory) (a len : Z) : outcome (bool * Z * memory) := Done (true, s, m).

Definition bump_inv (s : Z) (m : memory) (L : list (Z * Z)) : Prop :=
  0 < s ∧ bytes_ok m ∧ m !! MAP_FAILED = None ∧ pairwise apart L ∧
  Forall (λ r, 0 < r.1 ∧ 0 < r.2 ∧ r.1 + r.2 * 4096 ≤ 2 ^ 32 ∧ mapped m r.1 (r.2 * 4096)) L ∧
  Forall (λ r, r.1 + r.2 * 4096 ≤ s) L.

Lemma bump_map limit s m L n a s' m' : limit ≤ MAP_FAILED → bump_inv s m L → 0 < n → bump_mmap limit s m (n * 4096) = Done (Some a, s', m') →
  bump_inv s' m' ((a, n) :: L) ∧ ∀ z, ¬ (a ≤ z < a + n * 4096) → m' !! z = m !! z.
Proof.
  unfold MAP_FAILED. intros Hlim (Hs&Hok&Hf&Hap&HF&HF') Hn. unfold bump_mmap. rewrite (proj2 (Z.eqb_neq (n * 4096) 0)) by lia. cbn [orb]. destruct (Z.ltb_spec limit (s + n * 4096)) as [|Hle]; [done|]. intros [= <- <- <-].
  assert (Z.of_nat (length (replicate (Z.to_nat (n * 4096)) 0)) = n * 4096) as Hlen by (rewrite length_replicate; lia).
  assert (∀ z, ¬ (s ≤ z < s + n * 4096) → write_bytes m s (replicate (Z.to_nat (n * 4096)) 0) !! z = m !! z) as Hout.
  { intros z Hz. by rewrite write_bytes_lookup, decide_False by lia. }
  split; [|done]. split_and!; [lia| | | | |].
  - apply bytes_ok_write; [done|]. apply Forall_replicate. lia.
  - rewrite Hout; [done|unfold MAP_FAILED; lia].
  - split; [|done]. rewrite Forall_forall in HF'. apply Forall_forall. intros r Hr. right. by apply HF'.
  - constructor; [|eapply Forall_impl; [exact HF|]; intros r (?&?&?&?); split_and!; [done|done|done|by apply mapped_write]].
    cbn. split_and!; [done|done|lia|].
    pose proof (bytes_at_mapped _ _ _ (bytes_at_write m s (replicate (Z.to_nat (n * 4096)) 0))) as Hm. by rewrite Hlen in Hm.
  - constructor; [done|]. eapply Forall_impl; [exact HF'|]. cbn. intros r ?. lia.
Qed.

#[export] Instance bump_space limit : limit ≤ MAP_FAILED → Mmap (bump_mmap limit) bump_munmap bump_inv.
Proof.
  intros Hlim. split.
  - intros s m L L' HL (?&?&?&Hap&HF&HF'). split_and!; [done|done|done|by eapply pairwise_perm; [apply apart_sym| |]|by rewrite <-HL|by rewrite <-HL].
  - intros s m m' L Hd Hok (?&?&Hf&Hap&HF&HF'). split_and!; [done|done| |done| |done].
    + apply eq_None_not_Some. intros H'. apply Hd in H'. rewrite Hf in H'. by destruct H'.
    + eapply Forall_impl; [exact HF|]. intros r (?&?&?&Hm). split_and!; [done|done|done|]. intros i Hi. by apply Hd, Hm.
  - intros s m L (?&?&?&?&?&?). done.
  - intros s m L len s' m' Hs. unfold bump_mmap. destruct (_ || _); [|done]. by intros [= <- <-].
  - intros s m L a s' m' _. done.
  - intros s m L n a s' m' Hs Hn. apply (bump_map limit); [done|done|lia].
  - intros s m L a n r s' m' (Hs&Hok&Hf&[_ Hap]&HF&HF') [= _ <- <-]. split; [|done].
    inversion HF; inversion HF'; subst. by split_and!.
Qed.
