(* ===== verification/LiballocClient.v ===== *)
(** * Programs that use the memory allocator

    What a program can rely on when it uses the allocator in any order: the blocks
    it holds are apart and keep their bytes, and a request fails only for lack of
    pages.  At the end, a program of the C library, and what goes wrong when the
    size of a request wraps. *)

From stdpp Require Import base numbers list option gmap sets relations.
From S2P Require Import Prelude.
From S2P Require Import ByteMem.
From S2P Require Import Words.
From S2P Require Import Liballoc.
From S2P Require Import LiballocHeap.
From S2P Require Import LiballocOps.
From S2P Require Import LiballocPages.

Local Open Scope Z_scope.

(** The state of a program: the heap, and the blocks it holds with their bytes. *)
Record client (Sys : Type) := mk_client { c_heap : heap Sys; c_live : list (Z * list Z) }.
Arguments mk_client {Sys} _ _.
Arguments c_heap {Sys} _.
Arguments c_live {Sys} _.

(** The first bytes of two blocks agree, as far as both reach. *)
Definition same_start (l l' : list Z) : Prop := ∀ i b b', l !! i = Some b → l' !! i = Some b' → b = b'.

Definition empty_heap {Sys} (s : Sys) (m : memory) : heap Sys := mk_heap m s 0 0 0 0 0 0 0.

Section client.
Context {Sys : Type} (ALIGNMENT l_pageCount max_pages : Z).
Context (liballoc_alloc : Sys → memory → Z → outcome (Z * Sys * memory)).
Context (liballoc_free : Sys → memory → Z → Z → outcome (Sys * memory)).

Implicit Types h : heap Sys.

Abbreviation malloc := (malloc ALIGNMENT l_pageCount liballoc_alloc).
Abbreviation calloc := (calloc ALIGNMENT l_pageCount liballoc_alloc).
Abbreviation free := (free ALIGNMENT liballoc_free).
Abbreviation realloc := (realloc ALIGNMENT l_pageCount liballoc_alloc liballoc_free).
Abbreviation fits := (fits ALIGNMENT l_pageCount max_pages).

(** One call, or one write of a byte to a block. *)
Inductive client_step : client Sys → client Sys → Prop :=
  | step_malloc h h' B n p l :
      fits n → malloc h n = Done (p, h') → p ≠ 0 → Z.of_nat (length l) = n → bytes_at (h_mem h') p l →
      client_step (mk_client h B) (mk_client h' ((p, l) :: B))
  | step_malloc_null h h' B n :
      fits n → malloc h n = Done (0, h') → client_step (mk_client h B) (mk_client h' B)
  | step_calloc h h' B nobj size p :
      0 ≤ nobj * size → fits (nobj * size) → calloc h nobj size = Done (p, h') → p ≠ 0 →
      client_step (mk_client h B) (mk_client h' ((p, replicate (Z.to_nat (nobj * size)) 0) :: B))
  | step_free h h' B1 p l B2 :
      free h p = Done h' → client_step (mk_client h (B1 ++ (p, l) :: B2)) (mk_client h' (B1 ++ B2))
  | step_realloc h h' B1 p l B2 n p' l' :
      0 < n → fits n → realloc h p n = Done (p', h') → p' ≠ 0 →
      Z.of_nat (length l') = n → bytes_at (h_mem h') p' l' →
      client_step (mk_client h (B1 ++ (p, l) :: B2)) (mk_client h' (B1 ++ (p', l') :: B2))
  | step_write h B1 p l B2 (i : nat) b :
      (i < length l)%nat → 0 ≤ b < 256 →
      client_step (mk_client h (B1 ++ (p, l) :: B2))
        (mk_client (with_mem h (<[p + Z.of_nat i := b]> (h_mem h))) (B1 ++ (p, <[i := b]> l) :: B2)).

Context (sys_inv : Sys → memory → list (Z * Z) → Prop).
Context `{PS : !PageSource max_pages liballoc_alloc liballoc_free sys_inv}.
Context (HA : alignment_ok ALIGNMENT) (HP : 0 < l_pageCount < 2 ^ 20).

Abbreviation heap_inv := (heap_inv ALIGNMENT sys_inv).

(** A minor and the block its user sees. *)
Definition is_block (m : memory) (x : minor) (b : Z * list Z) : Prop :=
  b.1 = user_ptr ALIGNMENT (mn_addr x) ∧ holds ALIGNMENT m x b.2.

Definition client_inv (c : client Sys) : Prop :=
  ∃ G L, heap_inv (c_heap c) G ∧ live G ≡ₚ L ∧ Forall2 (is_block (h_mem (c_heap c))) L (c_live c).

Lemma empty_heap_inv s m : sys_inv s m [] → heap_inv (empty_heap s m) [].
Proof.
  intros Hs. exists ∅. split; cbn; try done.
  - split; [done|]. intros a [ws Ha]. by rewrite lookup_empty in Ha.
  - split; try done. by apply (ps_ok _ _ _ Hs).
  - by left.
Qed.

Lemma is_block_ext G L B m m' : geom ALIGNMENT G → (∀ x, x ∈ L → x ∈ live G) →
  (∀ x z, x ∈ L → mn_addr x + 24 ≤ z < mn_end x → m' !! z = m !! z) → Forall2 (is_block m) L B → Forall2 (is_block m') L B.
Proof.
  intros HG HL Hs HF. induction HF as [|x b L B [Hp [Hlen Hb]] HF IH]; constructor.
  - split; [done|]. split; [done|]. destruct (user_ptr_range ALIGNMENT HA G x HG) as (?&?&?&_); [apply HL; by left|].
    rewrite bytes_at_lookup in *. intros i c Hi. pose proof (lookup_lt_Some _ _ _ Hi). rewrite (Hs x); [by apply Hb|by left|lia].
  - apply IH; [intros y Hy; apply HL; by right|intros y z Hy; apply Hs; by right].
Qed.

Lemma Forall2_middle {A B} (P : A → B → Prop) L B1 b B2 : Forall2 P L (B1 ++ b :: B2) →
  ∃ L1 x L2, L = L1 ++ x :: L2 ∧ Forall2 P L1 B1 ∧ P x b ∧ Forall2 P L2 B2.
Proof. intros (L1&L'&H1&(x&L2&Hx&H2&->)%Forall2_cons_inv_r&->)%Forall2_app_inv_r. by exists L1, x, L2. Qed.

Lemma heap_inv_geom h G : heap_inv h G → geom ALIGNMENT G.
Proof. intros [H Hh]. by eapply hr_geom. Qed.

(** The blocks that a call does not touch. *)
Lemma blocks_kept h (h' : heap Sys) G L B : heap_inv h G → (∀ x, x ∈ L → x ∈ live G) →
  (∀ x z, x ∈ L → mn_addr x + 24 ≤ z < mn_end x → h_mem h' !! z = h_mem h !! z) →
  Forall2 (is_block (h_mem h)) L B → Forall2 (is_block (h_mem h')) L B.
Proof. intros Hh%heap_inv_geom. by apply is_block_ext. Qed.

Lemma client_malloc h h' B n p : client_inv (mk_client h B) → fits n → malloc h n = Done (p, h') →
  (p = 0 ∧ client_inv (mk_client h' B)) ∨
  p ≠ 0 ∧ ∀ l, Z.of_nat (length l) = n → bytes_at (h_mem h') p l → client_inv (mk_client h' ((p, l) :: B)).
Proof.
  intros (G&L&Hh&HL&HB) Hf E. cbn [c_heap c_live] in *.
  destruct (malloc_ok ALIGNMENT l_pageCount _ _ sys_inv HA HP h G n Hh Hf) as [[_ Hnd]|[(_&h1&E1&Hh1&Hs)|(p1&h1&E1&G'&x&->&Hh'&HP'&Hx&Hs)]];
    rewrite E in *; [by destruct (Hnd (p, h'))|injection E1 as -> ->; left|injection E1 as -> ->; right].
  - split; [done|]. exists G, L. split_and!; [done|done|].
    apply (blocks_kept h h1 G); [done|intros y Hy; by rewrite HL|intros y z Hy; apply Hs; by rewrite HL|done].
  - split.
    { destruct (user_ptr_range ALIGNMENT HA G' x) as (?&?&_); [by eapply heap_inv_geom|rewrite HP'; by left|lia]. }
    intros l Hlen Hl. exists G', (x :: L). split_and!; [done|by rewrite HP', HL|]. cbn. constructor.
    + split; [done|]. split; [by rewrite Hx|done].
    + apply (blocks_kept h h1 G); [done|intros y Hy; by rewrite HL|intros y z Hy; apply Hs; by rewrite HL|done].
Qed.

Lemma client_calloc h h' B nobj size p : client_inv (mk_client h B) → 0 ≤ nobj * size → fits (nobj * size) →
  calloc h nobj size = Done (p, h') → p ≠ 0 →
  client_inv (mk_client h' ((p, replicate (Z.to_nat (nobj * size)) 0) :: B)).
Proof.
  intros (G&L&Hh&HL&HB) H0 Hf E Hp. cbn [c_heap c_live] in *.
  destruct (calloc_ok ALIGNMENT l_pageCount _ _ sys_inv HA HP h G nobj size Hh H0 Hf) as [[_ Hnd]|[(_&h1&E1)|(h1&G'&x&E1&Hh'&HP'&Hx&Hz&Hs)]];
    rewrite E in *; [by destruct (Hnd (p, h'))| |injection E1 as -> ->].
  { symmetry in E1. apply bind_Done in E1 as (m&_&E1). congruence. }
  exists G', (x :: L). split_and!; [done|by rewrite HP', HL|]. cbn. constructor; [by split|].
  apply (blocks_kept h h1 G); [done|intros y Hy; by rewrite HL|intros y z Hy; apply Hs; by rewrite HL|done].
Qed.

Lemma client_free h h' B1 p l B2 : client_inv (mk_client h (B1 ++ (p, l) :: B2)) → free h p = Done h' →
  client_inv (mk_client h' (B1 ++ B2)).
Proof.
  intros (G&L&Hh&HL&HB) E. cbn [c_heap c_live] in *. apply Forall2_middle in HB as (L1&x&L2&->&HB1&[Hpx _]&HB2). cbn in Hpx. subst p.
  assert (x ∈ live G) as Hx by (rewrite HL; set_solver).
  destruct (free_ok ALIGNMENT l_pageCount _ _ sys_inv HA HP h G x Hh Hx) as [(h1&G'&E1&Hh'&HP'&Hs)|[_ Hnd]]; [|by destruct (Hnd h')]. rewrite E in E1. injection E1 as <-.
  assert (live G' ≡ₚ L1 ++ L2) as HL'.
  { apply (Permutation_cons_inv (a := x)). by rewrite <-HP', HL, Permutation_middle. }
  exists G', (L1 ++ L2). split_and!; [done|done|].
  apply (blocks_kept h h' G); [done|intros y Hy; rewrite HL; set_solver|intros y z Hy; apply Hs; by rewrite HL'|by apply Forall2_app].
Qed.

Lemma client_realloc h h' B1 p l B2 n p' : client_inv (mk_client h (B1 ++ (p, l) :: B2)) → 0 < n → fits n →
  realloc h p n = Done (p', h') → p' ≠ 0 →
  ∃ l', Z.of_nat (length l') = n ∧ same_start l l' ∧ bytes_at (h_mem h') p' l' ∧ client_inv (mk_client h' (B1 ++ (p', l') :: B2)).
Proof.
  intros (G&L&Hh&HL&HB) H0 Hf E Hp. cbn [c_heap c_live] in *.
  apply Forall2_middle in HB as (L1&x&L2&->&HB1&[Hpx [Hxl Hxb]]&HB2). cbn in Hpx, Hxl, Hxb. subst p.
  assert (x ∈ live G) as Hx by (rewrite HL; set_solver).
  destruct (realloc_ok ALIGNMENT l_pageCount _ _ sys_inv HA HP h G x n Hh Hx H0 Hf) as [[_ Hnd]|[(_&h1&E1)|[[_ Hnd]|(p1&h1&E1&Hmv)]]];
    rewrite E in *; [by destruct (Hnd (p', h'))| |by destruct (Hnd (p', h'))|injection E1 as <- <-].
  { symmetry in E1. apply bind_Done in E1 as (m&_&E1). apply bind_Done in E1 as (h2&_&E1). congruence. }
  destruct Hmv as (G'&y&L0&->&Hh'&HLx&HLy&Hy&Hst&Hs).
  assert (L0 ≡ₚ L1 ++ L2) as HL0 by (apply (Permutation_cons_inv (a := x)); by rewrite <-HLx, HL, Permutation_middle).
  destruct (holds_exists ALIGNMENT _ _ sys_inv HA h' G' y Hh') as (l'&[Hlen Hl']&_); [rewrite HLy; by left|].
  exists l'. split_and!; [by rewrite <-Hy| |done|].
  - intros i b b' Hi Hi'. rewrite bytes_at_lookup in Hxb, Hl'. pose proof (lookup_lt_Some _ _ _ Hi). pose proof (lookup_lt_Some _ _ _ Hi').
    apply Hxb in Hi. apply Hl' in Hi'. rewrite Hst in Hi' by lia. congruence.
  - exists G', (L1 ++ y :: L2). split_and!; [done|by rewrite HLy, HL0, Permutation_middle|]. cbn.
    assert (∀ K C, (∀ z, z ∈ K → z ∈ L1 ++ L2) → Forall2 (is_block (h_mem h)) K C → Forall2 (is_block (h_mem h')) K C) as Hk.
    { intros K C HK. apply (blocks_kept h h' G); [done|intros z Hz; rewrite HL; set_solver|]. intros z w Hz. apply Hs.
      rewrite HL0. by apply HK. }
    apply Forall2_app; [apply Hk; [set_solver|done]|]. constructor; [by split; [|split]|]. apply Hk; [set_solver|done].
Qed.

Lemma client_write h B1 p l B2 (i : nat) b : client_inv (mk_client h (B1 ++ (p, l) :: B2)) → (i < length l)%nat → 0 ≤ b < 256 →
  client_inv (mk_client (with_mem h (<[p + Z.of_nat i := b]> (h_mem h))) (B1 ++ (p, <[i := b]> l) :: B2)).
Proof.
  intros (G&L&Hh&HL&HB) Hi Hb. cbn [c_heap c_live] in *.
  apply Forall2_middle in HB as (L1&x&L2&->&HB1&[Hpx [Hxl Hxb]]&HB2). cbn in Hpx, Hxl, Hxb. subst p.
  assert (x ∈ live G) as Hx by (rewrite HL; set_solver). set (a := user_ptr ALIGNMENT (mn_addr x) + Z.of_nat i).
  destruct (heap_write ALIGNMENT l_pageCount _ _ sys_inv HA HP h G x a [b] Hh Hx) as [Hh' Hout].
  { split; cbn; unfold a; lia. }
  { by constructor. }
  change (write_bytes (h_mem h) a [b]) with (<[a := b]> (h_mem h)) in *.
  pose proof (live_apart _ (alignment_pos _ HA) G (heap_inv_geom _ _ Hh)) as Hap. apply (pairwise_perm _ mn_apart_sym _ _ HL) in Hap.
  exists G, (L1 ++ x :: L2). split_and!; [done|done|]. cbn [c_heap c_live h_mem with_mem].
  assert (∀ K C, (∀ z, z ∈ K → z ∈ L1 ++ L2) → Forall2 (is_block (h_mem h)) K C → Forall2 (is_block (<[a := b]> (h_mem h))) K C) as Hk.
  { intros K C HK. apply (is_block_ext G); [by eapply heap_inv_geom|intros z Hz; rewrite HL; set_solver|].
    intros z w Hz. apply Hout. by apply (pairwise_elem _ mn_apart_sym L1 x L2 z Hap), HK. }
  apply Forall2_app; [apply Hk; [set_solver|done]|]. constructor; [|apply Hk; [set_solver|done]].
  split; [done|]. cbn. split; [by rewrite length_insert|]. rewrite bytes_at_lookup in *. intros j c Hj.
  destruct (decide (j = i)) as [->|Hne].
  - rewrite list_lookup_insert_eq in Hj by done. injection Hj as <-. unfold a. by rewrite lookup_insert_eq.
  - rewrite list_lookup_insert_ne in Hj by done. unfold a. rewrite lookup_insert_ne by lia. by apply Hxb.
Qed.

Lemma client_step_inv c c' : client_inv c → client_step c c' → client_inv c'.
Proof.
  intros Hc Hstep. destruct Hstep.
  - edestruct client_malloc as [[? _]|[_ Hl]]; [done|done|done|done|]. by apply Hl.
  - edestruct client_malloc as [[_ ?]|[? _]]; [done|done|done|done|done].
  - by eapply client_calloc.
  - by eapply client_free.
  - edestruct client_realloc as (l0&Hlen&_&Hb&Hi); [done|done|done|done|done|].
    replace l' with l0; [done|]. eapply bytes_at_unique; [done|done|]. lia.
  - by apply client_write.
Qed.

Lemma client_reach s m c : sys_inv s m [] → rtc client_step (mk_client (empty_heap s m) []) c → client_inv c.
Proof.
  intros Hs Hr. assert (client_inv (mk_client (empty_heap s m) [])) as H0.
  { exists [], []. split_and!; [by apply empty_heap_inv|done|constructor]. }
  induction Hr as [|c1 c2 c3 Hst _ IH]; [done|]. apply IH. by eapply client_step_inv.
Qed.

Definition block_apart (b b' : Z * list Z) : Prop :=
  b.1 + Z.of_nat (length b.2) ≤ b'.1 ∨ b'.1 + Z.of_nat (length b'.2) ≤ b.1.

Lemma blocks_apart c : client_inv c → pairwise block_apart (c_live c).
Proof.
  intros (G&L&Hh%heap_inv_geom&HL&HB). pose proof (live_apart _ (alignment_pos _ HA) G Hh) as Hap.
  apply (pairwise_perm _ mn_apart_sym _ _ HL) in Hap.
  assert (∀ x, x ∈ L → x ∈ live G) as Hin by (intros x; by rewrite HL). clear HL.
  induction HB as [|x b L B Hx HB IH]; [done|]. destruct Hap as [Hap1 Hap2].
  split; [|apply IH; [done|intros y Hy; apply Hin; by right]]. apply Forall_forall. intros b' Hb'.
  apply list_elem_of_lookup in Hb' as [i Hi]. destruct (Forall2_lookup_r _ _ _ _ _ HB Hi) as (y&Hy&[Ep' [El' _]]).
  destruct Hx as [Ep [El _]]. apply list_elem_of_lookup_2 in Hy. rewrite Forall_forall in Hap1. specialize (Hap1 y Hy).
  destruct (user_ptr_range ALIGNMENT HA G x Hh) as (?&?&?&_); [apply Hin; by left|].
  destruct (user_ptr_range ALIGNMENT HA G y Hh) as (?&?&?&_); [apply Hin; by right|].
  unfold block_apart. destruct Hap1; lia.
Qed.

Lemma client_block c p l : client_inv c → (p, l) ∈ c_live c → ∃ G x, heap_inv (c_heap c) G ∧ x ∈ live G ∧
  p = user_ptr ALIGNMENT (mn_addr x) ∧ holds ALIGNMENT (h_mem (c_heap c)) x l.
Proof.
  intros (G&L&Hh&HL&HB) [i Hi]%list_elem_of_lookup. destruct (Forall2_lookup_r _ _ _ _ _ HB Hi) as (x&Hx&[Ep Hb]).
  exists G, x. split_and!; [done| |done|done]. rewrite HL. by apply list_elem_of_lookup_2 in Hx.
Qed.

End client.

(** ** Theorems *)

(** C9: a block belongs to the program that asked for it.  Whatever calls and
    writes a program makes, in whatever order, each block it holds is aligned, in
    the address space, and holds exactly the bytes the program last wrote; no two
    blocks overlap. *)
Theorem liballoc_blocks_private {Sys} ALIGNMENT l_pageCount max_pages liballoc_alloc liballoc_free
    (sys_inv : Sys → memory → list (Z * Z) → Prop) s m c :
  PageSource max_pages liballoc_alloc liballoc_free sys_inv → alignment_ok ALIGNMENT → 0 < l_pageCount < 2 ^ 20 → sys_inv s m [] →
  rtc (client_step ALIGNMENT l_pageCount max_pages liballoc_alloc liballoc_free) (mk_client (empty_heap s m) []) c →
  (∀ p l, (p, l) ∈ c_live c → 0 < p ∧ p mod ALIGNMENT = 0 ∧ p + Z.of_nat (length l) ≤ 2 ^ 32 ∧
     bytes_at (h_mem (c_heap c)) p l) ∧
  pairwise block_apart (c_live c).
Proof.
  intros PS HA HP Hs Hr. pose proof (client_reach _ _ _ _ _ sys_inv HA HP s m c Hs Hr) as Hc. split; [|by eapply blocks_apart].
  intros p l Hp. destruct (client_block ALIGNMENT sys_inv c p l Hc Hp) as (G&x&Hh&Hx&->&Hlen&Hl).
  destruct (user_ptr_range ALIGNMENT HA G x) as (?&?&?&?&?&?&?); [by eapply heap_inv_geom|done|]. split_and!; (done || lia).
Qed.

(** C31: the calls of a program end.  At any time [malloc] gives a block, unless it needs pages and the system has none: then
    it gives null if the system does, and does not return if the system does not return or gives an address without memory
    (the C library's [MAP_FAILED], which is taken for a region and written to).  Every block can be freed,
    unless the system does not return when the block's region is given back (the kernel stops when it is its first region). *)
Theorem liballoc_progress {Sys} ALIGNMENT l_pageCount max_pages liballoc_alloc liballoc_free
    (sys_inv : Sys → memory → list (Z * Z) → Prop) s m c :
  PageSource max_pages liballoc_alloc liballoc_free sys_inv → alignment_ok ALIGNMENT → 0 < l_pageCount < 2 ^ 20 → sys_inv s m [] →
  rtc (client_step ALIGNMENT l_pageCount max_pages liballoc_alloc liballoc_free) (mk_client (empty_heap s m) []) c →
  (∀ n, fits ALIGNMENT l_pageCount max_pages n →
     let r := malloc ALIGNMENT l_pageCount liballoc_alloc (c_heap c) n in
     (∃ p h', r = Done (p, h') ∧ p ≠ 0) ∨
     (pages_null l_pageCount liballoc_alloc (c_heap c) (padded ALIGNMENT n) ∧ ∃ h', r = Done (0, h')) ∨
     (pages_fail l_pageCount liballoc_alloc (c_heap c) (padded ALIGNMENT n) ∧ not_done r)) ∧
  ∀ p l, (p, l) ∈ c_live c → let r := free ALIGNMENT liballoc_free (c_heap c) p in
    (∃ h', r = Done h') ∨ (free_fails liballoc_free sys_inv (h_sys (c_heap c)) p ∧ not_done r).
Proof.
  intros PS HA HP Hs Hr. pose proof (client_reach _ _ _ _ _ sys_inv HA HP s m c Hs Hr) as Hc. split.
  - intros n Hf. destruct Hc as (G&L&Hh&_&_).
    destruct (malloc_ok ALIGNMENT l_pageCount _ _ sys_inv HA HP _ G n Hh Hf) as [|[(?&h'&?&_)|(p&h'&E&G'&x&->&Hh'&HP'&_)]];
      [by right; right|right; left; eauto|left].
    eexists _, h'. split; [done|].
    destruct (user_ptr_range ALIGNMENT HA G' x) as (?&?&_); [by eapply heap_inv_geom|rewrite HP'; by left|lia].
  - intros p l Hp. destruct (client_block ALIGNMENT sys_inv c p l Hc Hp) as (G&x&Hh&Hx&->&_).
    destruct (free_ok ALIGNMENT l_pageCount _ _ sys_inv HA HP _ G x Hh Hx) as [(h'&_&E&_)|]; [left; by exists h'|by right].
Qed.

(** C33: [realloc] keeps the bytes: the new block has the size asked for and starts
    with the bytes of the old one, as many as both have.  It fails only when
    pages are needed and the system has none, or when the region of the old block
    cannot be given back. *)
Theorem realloc_keeps_bytes {Sys} ALIGNMENT l_pageCount max_pages liballoc_alloc liballoc_free
    (sys_inv : Sys → memory → list (Z * Z) → Prop) s m c p l n :
  PageSource max_pages liballoc_alloc liballoc_free sys_inv → alignment_ok ALIGNMENT → 0 < l_pageCount < 2 ^ 20 → sys_inv s m [] →
  rtc (client_step ALIGNMENT l_pageCount max_pages liballoc_alloc liballoc_free) (mk_client (empty_heap s m) []) c →
  (p, l) ∈ c_live c → 0 < n → fits ALIGNMENT l_pageCount max_pages n →
  let r := realloc ALIGNMENT l_pageCount liballoc_alloc liballoc_free (c_heap c) p n in
  (∃ p' h' l', r = Done (p', h') ∧ p' ≠ 0 ∧ Z.of_nat (length l') = n ∧ same_start l l' ∧ bytes_at (h_mem h') p' l') ∨
  pages_null l_pageCount liballoc_alloc (c_heap c) (padded ALIGNMENT n) ∨
  (pages_fail l_pageCount liballoc_alloc (c_heap c) (padded ALIGNMENT n) ∧ not_done r) ∨
  ((∃ s', free_fails liballoc_free sys_inv s' p) ∧ not_done r).
Proof.
  intros PS HA HP Hs Hr Hp H0 Hf. pose proof (client_reach _ _ _ _ _ sys_inv HA HP s m c Hs Hr) as Hc.
  destruct (client_block ALIGNMENT sys_inv c p l Hc Hp) as (G&x&Hh&Hx&->&_).
  destruct (realloc_ok ALIGNMENT l_pageCount _ _ sys_inv HA HP _ G x n Hh Hx H0 Hf) as [|[(?&_)|[|(p'&h'&E&Hmv)]]];
    [by right; right; left|by right; left|by right; right; right|left].
  assert (p' ≠ 0) as Hp'.
  { destruct Hmv as (G'&y&L&->&Hh'&_&HLy&_). destruct (user_ptr_range ALIGNMENT HA G' y) as (?&?&_);
      [by eapply heap_inv_geom|rewrite HLy; by left|lia]. }
  apply list_elem_of_split in Hp as (B1&B2&EB). destruct c as [h B]. cbn in EB, E. subst B.
  destruct (client_realloc _ _ _ _ _ sys_inv HA HP h h' B1 _ l B2 n p' Hc H0 Hf E Hp') as (l'&?&?&?&_). by exists p', h', l'.
Qed.

(** ** A program of the C library *)

(** The allocator of the C library, with the address space below 2 GiB. *)
Definition sample_source : Z → memory → Z → outcome (Z * Z * memory) := libc_alloc (bump_mmap (2 ^ 31)).
Definition sample_back : Z → memory → Z → Z → outcome (Z * memory) := libc_free bump_munmap.
Definition sample_heap : heap Z := empty_heap 4096 ∅.
Definition libc_step := client_step (Sys := Z) 4 4 (2 ^ 20) sample_source sample_back.

Definition done_or {A} (d : A) (o : outcome A) : A := match o with Done a => a | _ => d end.

(** A program that asks for 5 bytes and writes to them. *)
Definition sample_block : Z * heap Z := done_or (0, sample_heap) (malloc 4 4 sample_source sample_heap 5).
Definition sample_client : client Z :=
  mk_client (with_mem (sample_block.2) (<[sample_block.1 + 2 := 7]> (h_mem sample_block.2))) [(sample_block.1, [0; 0; 7; 0; 0])].

Lemma sample_start : bump_inv 4096 ∅ [].
Proof. split_and!; [lia|apply map_Forall_empty|done|done|constructor|constructor]. Qed.

Lemma sample_pages : PageSource (2 ^ 20) sample_source sample_back bump_inv.
Proof. apply libc_source, bump_space. unfold MAP_FAILED. lia. Qed.

Lemma done_or_eq {A} (d : A) o : match o with Done _ => true | _ => false end = true → o = Done (done_or d o).
Proof. by destruct o. Qed.

Lemma sample_malloc : malloc 4 4 sample_source sample_heap 5 = Done (sample_block.1, sample_block.2).
Proof. rewrite <-surjective_pairing. apply done_or_eq. vm_compute. reflexivity. Qed.

Lemma sample_nonzero : sample_block.1 ≠ 0.
Proof. apply Z.eqb_neq. vm_compute. reflexivity. Qed.

Lemma sample_bytes : bytes_at (h_mem sample_block.2) sample_block.1 [0; 0; 0; 0; 0].
Proof. split_and!; [vm_compute; reflexivity..|done]. Qed.

Lemma sample_client_reach : rtc libc_step (mk_client sample_heap []) sample_client.
Proof.
  apply (rtc_l _ _ (mk_client sample_block.2 [(sample_block.1, [0; 0; 0; 0; 0])])).
  - apply (step_malloc _ _ _ _ _ _ _ _ 5); [split_and!; [lia|lia|by vm_compute]|apply sample_malloc|apply sample_nonzero|reflexivity|apply sample_bytes].
  - apply rtc_once. apply (step_write _ _ _ _ _ sample_block.2 [] sample_block.1 [0; 0; 0; 0; 0] [] 2 7); [apply Nat.ltb_lt; reflexivity|lia].
Qed.

Lemma alignment_4 : alignment_ok 4.
Proof. by exists 2. Qed.

Lemma liballoc_blocks_private_witness :
  (∀ p l, (p, l) ∈ c_live sample_client → 0 < p ∧ p mod 4 = 0 ∧ p + Z.of_nat (length l) ≤ 2 ^ 32 ∧
     bytes_at (h_mem (c_heap sample_client)) p l) ∧ pairwise block_apart (c_live sample_client).
Proof.
  apply (liballoc_blocks_private 4 4 (2 ^ 20) sample_source sample_back bump_inv 4096 ∅).
  - apply sample_pages.
  - apply alignment_4.
  - lia.
  - apply sample_start.
  - apply sample_client_reach.
Defined.

Lemma liballoc_progress_witness : let r := free 4 sample_back (c_heap sample_client) sample_block.1 in
  (∃ h', r = Done h') ∨ (free_fails sample_back bump_inv (h_sys (c_heap sample_client)) sample_block.1 ∧ not_done r).
Proof.
  apply (liballoc_progress 4 4 (2 ^ 20) sample_source sample_back bump_inv 4096 ∅ sample_client sample_pages alignment_4
    ltac:(lia) sample_start sample_client_reach) with (l := [0; 0; 7; 0; 0]). by left.
Defined.

Lemma realloc_keeps_bytes_witness :
  let r := realloc 4 4 sample_source sample_back (c_heap sample_client) sample_block.1 9 in
  (∃ p' h' l', r = Done (p', h') ∧ p' ≠ 0 ∧ Z.of_nat (length l') = 9 ∧ same_start [0; 0; 7; 0; 0] l' ∧ bytes_at (h_mem h') p' l') ∨
  pages_null 4 sample_source (c_heap sample_client) (padded 4 9) ∨
  (pages_fail 4 sample_source (c_heap sample_client) (padded 4 9) ∧ not_done r) ∨
  ((∃ s', free_fails sample_back bump_inv s' sample_block.1) ∧ not_done r).
Proof.
  apply (realloc_keeps_bytes 4 4 (2 ^ 20) sample_source sample_back bump_inv 4096 ∅ sample_client _ _ _ sample_pages alignment_4
    ltac:(lia) sample_start sample_client_reach); [by left|lia|split_and!; [lia|lia|by vm_compute]].
Defined.

(** The size with the room for the alignment wraps: a request for almost all of
    the address space gets a block of twelve bytes. *)
Lemma malloc_wraps : padded 4 (2 ^ 32 - 8) = 12 ∧
  match malloc 4 4 sample_source sample_heap (2 ^ 32 - 8) with Done (p, _) => negb (p =? 0) | _ => false end = true.
Proof. split; vm_compute; reflexivity. Qed.

(** When there is no room, the program crashes: [MAP_FAILED] is not null. *)
Lemma malloc_map_failed : malloc 4 4 (libc_alloc (bump_mmap 8192)) (empty_heap 4096 ∅) 5 = Undef.
Proof. vm_compute. reflexivity. Qed.
