(* ===== verification/KernelHeap.v ===== *)
(** * The pages of the kernel heap (kernel/memory/MemoryManager.cpp)

    Where the kernel's [malloc] gets its pages: an array of two megabytes until it
    is used up, and the memory manager from then on.  What the memory manager does
    then ([alloc_heap_pages], [finalize_heap_pages] and the release of a region)
    is an argument here: these call [malloc] themselves.  Until paging is set up,
    the array keeps to what the allocator expects ([PageSource]), for requests of
    less than the whole address space. *)

From stdpp Require Import base numbers list option gmap.
From S2P Require Import Prelude.
From S2P Require Import ByteMem.
From S2P Require Import VMSpace.
From S2P Require Import KernelString.
From S2P Require Import Words.
From S2P Require Import Liballoc.
From S2P Require Import LiballocHeap.
From S2P Require Import LiballocOps.
From S2P Require Import LiballocPages.
From S2P Require Import LiballocClient.

Local Open Scope Z_scope.

Definition sizeof_early_kheap : Z := 2097152.

(** The counters of the kernel heap, and the space its later regions lie in. *)
Record kheap := mk_kheap {
  used_kheap_mem : Z;
  used_early_kheap_memory : Z;
  did_setup_paging : bool;
  m_heap_space : VMSpace;
}.

Section kernel_heap.
Context (early_kheap_memory : Z).
Context (alloc_heap_pages : kheap → memory → Z → outcome (result Z * kheap * memory)).
Context (finalize_heap_pages : kheap → memory → outcome (kheap * memory)).
Context (leak_unref : kheap → memory → Z → outcome (kheap * memory)).

Implicit Types (k : kheap) (m : memory).

Definition add_used (k : kheap) (d : Z) : kheap :=
  mk_kheap (u32 (used_kheap_mem k + d)) (used_early_kheap_memory k) (did_setup_paging k) (m_heap_space k).

(** [kernel/memory/MemoryManager.cpp]: [liballoc_alloc].  Arithmetic on [size_t]. *)
Definition liballoc_alloc k m (pages : Z) : outcome (Z * kheap * memory) :=
  let bytes := u32 (pages * 4096) in
  let k := add_used k bytes in
  if bytes <? u32 (sizeof_early_kheap - used_early_kheap_memory k) then
    let ptr := u32 (early_kheap_memory + used_early_kheap_memory k) in
    let k := mk_kheap (used_kheap_mem k) (u32 (used_early_kheap_memory k + bytes)) (did_setup_paging k) (m_heap_space k) in
    m ← k_memset m ptr 0 bytes;
    Done (ptr, k, m)
  else
    _ ← kassert (did_setup_paging k);
    '(r, k, m) ← alloc_heap_pages k m pages;
    match r with
    | Ok a => Done (a, k, m)
    | Err _ => Panic
    end.

Definition liballoc_afteralloc k m : outcome (kheap * memory) :=
  if did_setup_paging k then finalize_heap_pages k m else Done (k, m).

Definition liballoc_free k m (ptr pages : Z) : outcome (kheap * memory) :=
  let k := add_used k (- u32 (pages * 4096)) in
  if (early_kheap_memory <? ptr) && (ptr <? early_kheap_memory + sizeof_early_kheap) then Done (k, m)
  else
    r ← get_region_at (m_heap_space k) ptr;
    match r with
    | Ok region => leak_unref k m region
    | Err _ => Panic
    end.

(** The kernel's [malloc] and [free]: the allocator with 16 bytes of alignment and
    16 pages at a time; [malloc] calls [liballoc_afteralloc] wherever it returns. *)
Definition kmalloc (h : heap kheap) (size : Z) : outcome (Z * heap kheap) :=
  '(p, h) ← malloc 16 16 liballoc_alloc h size;
  '(k, m) ← liballoc_afteralloc (h_sys h) (h_mem h);
  Done (p, with_sys h k m).

Definition kfree (h : heap kheap) (ptr : Z) : outcome (heap kheap) := free 16 liballoc_free h ptr.

(** While the array has more room than asked for, the pages follow the ones given
    out before, are zero, and nothing else changes. *)
Lemma liballoc_alloc_early k m n : 0 < early_kheap_memory → early_kheap_memory + sizeof_early_kheap ≤ 2 ^ 32 →
  0 ≤ used_early_kheap_memory k → 0 < n → used_early_kheap_memory k + n * 4096 < sizeof_early_kheap →
  mapped m early_kheap_memory sizeof_early_kheap →
  let a := early_kheap_memory + used_early_kheap_memory k in
  liballoc_alloc k m n = Done (a, mk_kheap (u32 (used_kheap_mem k + n * 4096)) (used_early_kheap_memory k + n * 4096)
    (did_setup_paging k) (m_heap_space k), write_bytes m a (replicate (Z.to_nat (n * 4096)) 0)).
Proof.
  unfold sizeof_early_kheap. intros H0 H1 Hu Hn Hroom Hm. unfold liballoc_alloc, add_used, sizeof_early_kheap. cbn.
  rewrite (u32_id (n * 4096)), (u32_id (2097152 - _)) by lia. destruct (Z.ltb_spec (n * 4096) (2097152 - used_early_kheap_memory k)); [|lia].
  rewrite (u32_id (early_kheap_memory + _)), (u32_id (used_early_kheap_memory k + _)) by lia.
  unfold k_memset, memset. rewrite stosb_spec; [done|done|]. intros i Hi.
  replace (early_kheap_memory + used_early_kheap_memory k + i) with (early_kheap_memory + (used_early_kheap_memory k + i)) by lia.
  apply Hm. lia.
Qed.

(** When the array is used up before paging is set up, the kernel stops. *)
Lemma liballoc_alloc_no_paging k m n : did_setup_paging k = false → 0 ≤ used_early_kheap_memory k ≤ sizeof_early_kheap →
  sizeof_early_kheap ≤ used_early_kheap_memory k + n * 4096 → 0 < n < 2 ^ 20 → liballoc_alloc k m n = Panic.
Proof.
  unfold sizeof_early_kheap. intros Hp Hu Hr Hn. unfold liballoc_alloc, add_used, sizeof_early_kheap. cbn.
  rewrite (u32_id (n * 4096)), (u32_id (2097152 - _)) by lia.
  destruct (Z.ltb_spec (n * 4096) (2097152 - used_early_kheap_memory k)); [lia|]. by rewrite Hp.
Qed.

(** ** The heap before paging is set up *)

(** The regions that were given out lie in the part of the array that is used, and the array is not in the heap space. *)
Definition boot_inv k m (L : list (Z * Z)) : Prop :=
  did_setup_paging k = false ∧ 0 < early_kheap_memory ∧ early_kheap_memory + sizeof_early_kheap ≤ 2 ^ 32 ∧
  0 ≤ used_early_kheap_memory k ≤ sizeof_early_kheap ∧ bytes_ok m ∧ mapped m early_kheap_memory sizeof_early_kheap ∧ pairwise apart L ∧
  Forall (λ r, early_kheap_memory ≤ r.1 ∧ 0 < r.2 ∧ r.1 + r.2 * 4096 ≤ early_kheap_memory + used_early_kheap_memory k) L ∧
  ∃ e, get_region_at (m_heap_space k) early_kheap_memory = Done (Err e).

Lemma boot_alloc k m L n a k' m' : boot_inv k m L → 0 < n ≤ 2 ^ 20 - 1 → liballoc_alloc k m n = Done (a, k', m') →
  a ≠ 0 ∧ boot_inv k' m' ((a, n) :: L) ∧ ∀ z, ¬ (a ≤ z < a + n * 4096) → m' !! z = m !! z.
Proof.
  intros (Hp&H0&H1&Hu&Hok&Hm&Hap&HF&He) Hn E. destruct (Z.lt_ge_cases (used_early_kheap_memory k + n * 4096) sizeof_early_kheap) as [Hroom|Hfull].
  2:{ by rewrite liballoc_alloc_no_paging in E by (done || lia). }
  rewrite liballoc_alloc_early in E by (done || lia). injection E as <- <- <-. set (l := replicate (Z.to_nat (n * 4096)) 0).
  assert (Z.of_nat (length l) = n * 4096) as Hlen by (unfold l; rewrite length_replicate; lia). split; [lia|]. split.
  - split_and!; [done|done|done|cbn; lia|cbn; lia| | | | |done].
    + apply bytes_ok_write; [done|]. apply Forall_replicate. lia.
    + by apply mapped_write.
    + split; [|done]. rewrite Forall_forall in HF. apply Forall_forall. intros r Hr. destruct (HF r Hr) as (?&?&?). right. cbn. lia.
    + constructor; [cbn; lia|]. eapply Forall_impl; [exact HF|]. cbn. intros r. lia.
  - intros z Hz. by rewrite write_bytes_lookup, decide_False by lia.
Qed.

#[export] Instance kernel_source : PageSource (2 ^ 20 - 1) liballoc_alloc liballoc_free boot_inv.
Proof.
  split.
  - intros k m L L' HL (?&?&?&?&?&?&Hap&HF&?). split_and!; try done; try lia; [by eapply pairwise_perm; [apply apart_sym| |]|by rewrite <-HL].
  - intros k m m' L Hd Hok (?&?&?&?&?&Hm&Hap&HF&?). split_and!; try done; try lia. intros i Hi. by apply Hd, Hm.
  - intros k m L (_&H0&H1&Hu&?&Hm&?&HF&_). split_and!; [done|done|]. eapply Forall_impl; [exact HF|]. intros r (?&?&?). split_and!; [lia|done|lia|].
    eapply mapped_sub; [exact Hm|lia|lia].
  - intros k m L n a k' m' Hi Hn E. right; right. by eapply boot_alloc.
  - intros k m L a n k' m' (Hp&H0&H1&Hu&Hok&Hm&[_ Hap]&HF&e&He). unfold liballoc_free. apply Forall_cons in HF as [(Ha&Hn&Hend) HF]. cbn in Ha, Hn, Hend.
    destruct (Z.ltb_spec early_kheap_memory a); [|replace a with early_kheap_memory by lia; cbn [andb add_used m_heap_space]; by rewrite He].
    rewrite (proj2 (Z.ltb_lt a _)) by lia. intros [= <- <-]. split; [|done]. unfold boot_inv. cbn [add_used did_setup_paging used_early_kheap_memory m_heap_space]. split_and!; [done|lia..|done|done|done|done|by exists e].
Qed.

End kernel_heap.

(** ** The first block *)

(** [liballoc_free] tests [ptr > early_kheap_memory]: the first block of the heap
    starts at the array itself, is looked for in the heap space, and the kernel
    stops when its last allocation is freed. *)
Definition boot_kheap : kheap := mk_kheap 0 0 false (space_new 3758096384 536866816).

Definition first_block_cycle (early : Z) : outcome (heap kheap) :=
  '(p, h) ← kmalloc early (λ k m _, Done (Err ENOMEM, k, m)) (λ k m, Done (k, m))
    (empty_heap boot_kheap (write_bytes ∅ early (replicate (Z.to_nat 65536) 170))) 100;
  kfree early (λ k m _, Done (k, m)) h p.

Lemma kernel_first_block_panics : first_block_cycle 3222274048 = Panic.
Proof. vm_compute. reflexivity. Qed.
