(* ===== verification/Mutex.v ===== *)
(** * Mutexes and critical sections (kernel/tasking/Mutex.cpp, Lock.cpp, and the
    critical sections of TaskManager.cpp and Thread.cpp)

    A mutex is recursive: it has the thread that holds it and the number of times
    that thread locked it.  A thread that finds it taken yields and tries again.
    The kernel runs on one processor: a thread can lose it between any two
    atomic operations, but not while [g_critical_count] is positive, which stands
    for interrupts being disabled.  [acquire_step] is [acquire_with_mode] cut
    at the points where another thread can run; [release] is a critical section from
    beginning to end.

    Every thread keeps the locks it holds, in a [circular_queue] of 100, and the
    kernel stops when they are not released in reverse order. *)

From stdpp Require Import base numbers list option gmap relations.
From S2P Require Import Prelude.
From S2P Require Import Ring.
From S2P Require Import CircularQueue.

Local Open Scope Z_scope.

(** ** State *)

Record mutex := mk_mutex {
  m_holding_thread : Z;
  m_times_locked : Z;
}.
Definition mutex_new : mutex := mk_mutex (-1) 0.

Inductive AcquireMode := EnterCritical | Normal | Try.

Definition enters_critical (mode : AcquireMode) : bool := match mode with EnterCritical => true | _ => false end.
Definition is_normal (mode : AcquireMode) : bool := match mode with Normal => true | _ => false end.

(** The variables of the task manager; [held_locks] has the queue of each thread. *)
Record tasks := mk_tasks {
  tasking_enabled : bool;
  g_panicking : bool;
  cur_thread : option Z;
  g_critical_count : Z;
  mutexes : gmap Z mutex;
  held_locks : gmap Z (circular_queue Z);
}.

Definition with_cur (s : tasks) (t : option Z) : tasks :=
  mk_tasks (tasking_enabled s) (g_panicking s) t (g_critical_count s) (mutexes s) (held_locks s).
Definition with_count (s : tasks) (n : Z) : tasks :=
  mk_tasks (tasking_enabled s) (g_panicking s) (cur_thread s) n (mutexes s) (held_locks s).
Definition with_mutex (s : tasks) (m : Z) (x : mutex) : tasks :=
  mk_tasks (tasking_enabled s) (g_panicking s) (cur_thread s) (g_critical_count s) (<[m := x]> (mutexes s)) (held_locks s).
Definition with_held (s : tasks) (t : Z) (q : circular_queue Z) : tasks :=
  mk_tasks (tasking_enabled s) (g_panicking s) (cur_thread s) (g_critical_count s) (mutexes s) (<[t := q]> (held_locks s)).

Definition get {A} (o : option A) : outcome A := match o with Some a => Done a | None => Undef end.

(** ** Critical sections *)

Definition enter_critical (s : tasks) : outcome tasks := Done (with_count s (s32 (g_critical_count s + 1))).

Definition leave_critical (s : tasks) : outcome tasks :=
  _ ← kassert (0 <? g_critical_count s);
  Done (with_count s (s32 (g_critical_count s - 1))).

Definition in_critical (s : tasks) : bool := negb (g_critical_count s =? 0).

(** [yield], up to the point where the next thread is picked: [preempt] requires
    that no critical section is open. *)
Definition yield (s : tasks) : outcome tasks :=
  if tasking_enabled s then _ ← kassert (g_critical_count s =? 0); Done s else Done s.

Section mutex.
(** The two locks that threads do not keep track of: [MM.s_liballoc_lock] and
    [TaskManager::g_tasking_lock]. *)
Context (s_liballoc_lock g_tasking_lock : Z).

Definition tracked (m : Z) : bool := negb (m =? s_liballoc_lock) && negb (m =? g_tasking_lock).

(** [Thread::acquired_lock]. *)
Definition acquired_lock (s : tasks) (t lock : Z) : outcome tasks :=
  s ← enter_critical s;
  q ← get (held_locks s !! t);
  s ← (if size q =? capacity q then Panic
       else if tracked lock then '(_, q) ← push_back q lock; Done (with_held s t q)
       else Done s);
  leave_critical s.

(** [Thread::released_lock]. *)
Definition released_lock (s : tasks) (t lock : Z) : outcome tasks :=
  s ← enter_critical s;
  s ← (if tracked lock then
         q ← get (held_locks s !! t);
         _ ← kassert (negb (size q =? 0));
         '(last_held, q) ← pop_back q;
         if last_held =? lock then Done (with_held s t q) else Panic
       else Done s);
  leave_critical s.

(** ** Mutex *)

Definition locked (s : tasks) (m : Z) : outcome bool :=
  x ← get (mutexes s !! m); Done (negb (m_holding_thread x =? -1)).

Definition held_by_current_thread (s : tasks) (m : Z) : outcome bool :=
  match cur_thread s with
  | None => Done true
  | Some t => x ← get (mutexes s !! m); Done (t =? m_holding_thread x)
  end.

Definition release (s : tasks) (m : Z) : outcome tasks :=
  if negb (tasking_enabled s) || g_panicking s then Done s
  else
    s ← enter_critical s;
    x ← get (mutexes s !! m);
    let s := with_mutex s m (mk_mutex (m_holding_thread x) (s32 (m_times_locked x - 1))) in
    s ← (if m_times_locked x =? 1 then
           t ← get (cur_thread s);
           s ← released_lock s t m;
           x ← get (mutexes s !! m);
           Done (with_mutex s m (mk_mutex (-1) (m_times_locked x)))
         else Done s);
    leave_critical s.

(** Where a thread is in [acquire_with_mode]: at the beginning, before a turn of the
    loop, after the exchange succeeded, before the count, or back with a result. *)
Inductive position :=
  | Entered
  | Looping
  | Exchanged
  | Counting
  | Returned (success : bool).

(** [acquire] checks, when it has the lock, that no critical section is open. *)
Definition returned (s : tasks) (mode : AcquireMode) (success : bool) : outcome (tasks * position) :=
  _ ← (if is_normal mode then kassert (negb (in_critical s) || g_panicking s) else Done tt);
  Done (s, Returned success).

(** One turn of the loop. *)
Definition acquire_turn (s : tasks) (mode : AcquireMode) (cur_tid m : Z) : outcome (tasks * position) :=
  s ← (if enters_critical mode then enter_critical s else Done s);
  x ← get (mutexes s !! m);
  if m_holding_thread x =? -1 then Done (with_mutex s m (mk_mutex cur_tid (m_times_locked x)), Exchanged)
  else if m_holding_thread x =? cur_tid then Done (s, Counting)
  else
    match mode with
    | Try => returned s mode false
    | EnterCritical =>
        s ← leave_critical s;
        _ ← kassert (negb (in_critical s));
        s ← yield s; Done (s, Looping)
    | Normal => s ← yield s; Done (s, Looping)
    end.

Definition acquire_step (s : tasks) (mode : AcquireMode) (m : Z) (p : position) : outcome (tasks * position) :=
  match p with
  | Entered =>
      if negb (tasking_enabled s) || negb (bool_decide (is_Some (cur_thread s))) || g_panicking s then returned s mode true
      else Done (s, Looping)
  | Looping => cur_tid ← get (cur_thread s); acquire_turn s mode cur_tid m
  | Exchanged => cur_tid ← get (cur_thread s); s ← acquired_lock s cur_tid m; Done (s, Counting)
  | Counting =>
      x ← get (mutexes s !! m);
      returned (with_mutex s m (mk_mutex (m_holding_thread x) (s32 (m_times_locked x + 1)))) mode true
  | Returned b => Done (s, Returned b)
  end.

(** [acquire_with_mode] when no other thread runs in between. *)
Fixpoint acquire_with_mode (fuel : nat) (s : tasks) (mode : AcquireMode) (m : Z) (p : position) : outcome (tasks * bool) :=
  match fuel with
  | O => NoFuel
  | S fuel =>
      '(s, p) ← acquire_step s mode m p;
      match p with Returned b => Done (s, b) | _ => acquire_with_mode fuel s mode m p end
  end.

(** The end of a [ScopedLocker] or, in critical mode, a [ScopedCriticalLocker]. *)
Definition scoped_release (s : tasks) (mode : AcquireMode) (m : Z) : outcome tasks :=
  s ← release s m;
  if enters_critical mode then leave_critical s else Done s.

End mutex.

(** ** Threads that use mutexes *)

(** A thread as far as mutexes go: the call it is in, if any, and the locks it has,
    the last one first, with the mode each was acquired in. *)
Record actor := mk_actor {
  a_call : option (AcquireMode * Z * position);
  a_locks : list (AcquireMode * Z);
}.

Fixpoint has (m : Z) (l : list (AcquireMode * Z)) : bool :=
  match l with [] => false | e :: l => (e.2 =? m) || has m l end.
Fixpoint depth (m : Z) (l : list (AcquireMode * Z)) : Z :=
  match l with [] => 0 | e :: l => (if e.2 =? m then 1 else 0) + depth m l end.

Section threads.
Context (s_liballoc_lock g_tasking_lock : Z).
Abbreviation tracked := (tracked s_liballoc_lock g_tasking_lock).
Abbreviation acquire_step := (acquire_step s_liballoc_lock g_tasking_lock).
Abbreviation scoped_release := (scoped_release s_liballoc_lock g_tasking_lock).

Implicit Types (s : tasks) (A : gmap Z actor) (a : actor) (l : list (AcquireMode * Z)).

(** The steps of a kernel on one processor.  Another thread gets the processor at
    any moment without an open critical section.  A thread may try a lock at any
    time and wait for one outside of critical sections; it has less than 100 locks,
    and releases the last one first, as scopes do. *)
Inductive lock_step : tasks * gmap Z actor → tasks * gmap Z actor → Prop :=
  | step_switch s A t :
      g_critical_count s = 0 → is_Some (A !! t) → lock_step (s, A) (with_cur s (Some t), A)
  | step_call s A t l mode m :
      cur_thread s = Some t → A !! t = Some (mk_actor None l) → is_Some (mutexes s !! m) → (length l < 100)%nat →
      mode = Try ∨ g_critical_count s = 0 →
      lock_step (s, A) (s, <[t := mk_actor (Some (mode, m, Entered)) l]> A)
  | step_acquire s A t l mode m p s' p' :
      cur_thread s = Some t → A !! t = Some (mk_actor (Some (mode, m, p)) l) → acquire_step s mode m p = Done (s', p') →
      lock_step (s, A) (s', <[t := match p' with
                                   | Returned true => mk_actor None ((mode, m) :: l)
                                   | Returned false => mk_actor None l
                                   | _ => mk_actor (Some (mode, m, p')) l
                                   end]> A)
  | step_release s A t l mode m s' :
      cur_thread s = Some t → A !! t = Some (mk_actor None ((mode, m) :: l)) → scoped_release s mode m = Done s' →
      lock_step (s, A) (s', <[t := mk_actor None l]> A).

(** ** The invariant *)

Definition at_lock (a : actor) (m : Z) : bool :=
  match a_call a with Some (_, m', (Exchanged | Counting)) => m =? m' | _ => false end.

(** The thread is past the exchange of [m]. *)
Definition owner (a : actor) (m : Z) : bool := has m (a_locks a) || at_lock a m.

(** The locks in the queue of a thread: those it has, and the one it is about to count. *)
Fixpoint firsts (l : list Z) : list Z :=
  match l with
  | [] => []
  | m :: l => if bool_decide (m ∈ l) || negb (tracked m) then firsts l else firsts l ++ [m]
  end.
Definition queued (a : actor) : list Z :=
  match a_call a with Some (_, m, Counting) => m :: (a_locks a).*2 | _ => (a_locks a).*2 end.

(** The critical sections a thread has open. *)
Fixpoint criticals (l : list (AcquireMode * Z)) : Z :=
  match l with [] => 0 | e :: l => (if enters_critical e.1 then 1 else 0) + criticals l end.
Definition critical (a : actor) : Z :=
  criticals (a_locks a) +
  match a_call a with Some (EnterCritical, _, (Exchanged | Counting)) => 1 | _ => 0 end.

(** What holds of a call: it is not back yet, its lock is there, it waits outside of critical
    sections, and a lock just exchanged is new. *)
Definition call_ok (ms : gmap Z mutex) (a : actor) : Prop :=
  match a_call a with
  | Some (mode, m, p) =>
      is_Some (ms !! m) ∧ (length (a_locks a) < 100)%nat ∧ (mode = Try ∨ criticals (a_locks a) = 0) ∧
      (∀ b, p ≠ Returned b) ∧ (p = Exchanged → has m (a_locks a) = false)
  | None => True
  end.

Definition mutex_ok (A : gmap Z actor) (m : Z) (x : mutex) : Prop :=
  (∀ t a, A !! t = Some a → owner a m = true ↔ m_holding_thread x = t) ∧
  (∀ t a, A !! t = Some a → m_holding_thread x = t → m_times_locked x = depth m (a_locks a)) ∧
  (m_holding_thread x = -1 ∧ m_times_locked x = 0 ∨ is_Some (A !! m_holding_thread x)).

Record locks_inv (s : tasks) (A : gmap Z actor) : Prop := {
  li_enabled : tasking_enabled s = true;
  li_calm : g_panicking s = false;
  li_tids t : is_Some (A !! t) → 0 ≤ t;
  li_cur : ∃ t a, cur_thread s = Some t ∧ A !! t = Some a ∧ g_critical_count s = critical a;
  li_others t a : A !! t = Some a → cur_thread s ≠ Some t → critical a = 0;
  li_calls t a : A !! t = Some a → call_ok (mutexes s) a ∧ (length (a_locks a) ≤ 100)%nat ∧
    (∀ m, has m (a_locks a) = true → is_Some (mutexes s !! m)) ∧ 0 ≤ critical a ≤ 1;
  li_mutexes m x : mutexes s !! m = Some x → mutex_ok A m x;
  li_queues t a : A !! t = Some a →
    ∃ q, held_locks s !! t = Some q ∧ repr q (firsts (queued a)) ∧ _capacity q = 100;
}.

(** ** Lists of locks *)

Lemma has_elem m l : has m l = true ↔ m ∈ l.*2.
Proof.
  induction l as [|e l IH]; cbn; [split; [done|by intros ?%elem_of_nil]|].
  rewrite orb_true_iff, Z.eqb_eq, IH, elem_of_cons. naive_solver.
Qed.

Lemma depth_nonneg m l : 0 ≤ depth m l.
Proof. induction l as [|e l IH]; cbn; [done|]. destruct (e.2 =? m); lia. Qed.

Lemma depth_length m l : depth m l ≤ Z.of_nat (length l).
Proof. induction l as [|e l IH]; cbn; [done|]. destruct (e.2 =? m); lia. Qed.

Lemma depth_has m l : has m l = (0 <? depth m l).
Proof.
  induction l as [|e l IH]; cbn; [done|]. pose proof (depth_nonneg m l). destruct (Z.eqb_spec e.2 m); cbn.
  - symmetry. apply Z.ltb_lt. lia.
  - by rewrite IH.
Qed.

Lemma criticals_nonneg l : 0 ≤ criticals l.
Proof. induction l as [|e l IH]; cbn; [done|]. destruct (enters_critical _); lia. Qed.

Lemma firsts_length ls : (length (firsts ls) ≤ length ls)%nat.
Proof. induction ls as [|m ls IH]; cbn; [done|]. destruct (_ || _); [lia|]. rewrite length_app. cbn. lia. Qed.

Lemma firsts_old m ls : m ∈ ls → firsts (m :: ls) = firsts ls.
Proof. intros Hm. cbn. by rewrite bool_decide_true. Qed.

Lemma firsts_new m ls : m ∉ ls → firsts (m :: ls) = if tracked m then firsts ls ++ [m] else firsts ls.
Proof. intros Hm. cbn. rewrite bool_decide_false by done. by destruct (tracked m). Qed.

(** ** What the operations do *)

Lemma s32_small z : 0 ≤ z ≤ 1000 → s32 z = z.
Proof. intros. apply s32_id. lia. Qed.

Lemma leave_critical_ok s : 0 < g_critical_count s ≤ 1000 → leave_critical s = Done (with_count s (g_critical_count s - 1)).
Proof.
  intros Hc. unfold leave_critical. rewrite (proj2 (Z.ltb_lt _ _)) by lia. cbn. by rewrite s32_small by lia.
Qed.

Lemma acquired_lock_ok s t m q ls : 0 ≤ g_critical_count s ≤ 10 → held_locks s !! t = Some q → repr q ls → _capacity q = 100 →
  (length ls < 100)%nat → ∃ q', acquired_lock s_liballoc_lock g_tasking_lock s t m = Done (with_held s t q') ∧
    repr q' (if tracked m then ls ++ [m] else ls) ∧ _capacity q' = 100.
Proof.
  intros Hc Hq Hr Hcap Hlen. destruct s as [en pan cur c ms hs]. cbn in *. unfold acquired_lock. cbn -[leave_critical].
  rewrite Hq. cbn -[leave_critical]. destruct (cq_repr_size q ls Hr) as [Hsz _]. unfold size, capacity. rewrite Hcap, Hsz.
  destruct (Z.eqb_spec (Z.of_nat (length ls)) 100); [lia|].
  rewrite (s32_small (c + 1)) by lia. destruct (tracked m).
  - destruct (cq_push_back_repr q ls m) as (q'&E&Hcap'&Hr'); [done|lia|]. rewrite E. cbn -[leave_critical].
    rewrite leave_critical_ok by (cbn; lia). exists q'. split_and!; [|done|by rewrite Hcap'].
    unfold with_held, with_count. cbn. repeat f_equal. lia.
  - cbn -[leave_critical]. rewrite leave_critical_ok by (cbn; lia). exists q. split_and!; [|done|done].
    unfold with_held, with_count. cbn. rewrite insert_id by done. repeat f_equal. lia.
Qed.

Lemma released_lock_ok s t m q ls : 0 ≤ g_critical_count s ≤ 10 → held_locks s !! t = Some q → _capacity q = 100 →
  repr q (if tracked m then ls ++ [m] else ls) → ∃ q', released_lock s_liballoc_lock g_tasking_lock s t m = Done (with_held s t q') ∧
    repr q' ls ∧ _capacity q' = 100.
Proof.
  intros Hc Hq Hcap Hr. destruct s as [en pan cur c ms hs]. cbn in *. unfold released_lock. cbn -[leave_critical].
  rewrite (s32_small (c + 1)) by lia. destruct (tracked m).
  - rewrite Hq. cbn -[leave_critical]. destruct (cq_repr_size q _ Hr) as [Hsz _]. rewrite length_app in Hsz. cbn in Hsz. unfold size.
    destruct (Z.eqb_spec (_size q) 0); [lia|]. cbn -[leave_critical].
    destruct (cq_pop_back_repr q m ls Hr) as (q'&E&Hcap'&Hr'). rewrite E. cbn -[leave_critical]. rewrite Z.eqb_refl. cbn -[leave_critical].
    rewrite leave_critical_ok by (cbn; lia). exists q'. split_and!; [|done|by rewrite Hcap'].
    unfold with_held, with_count. cbn. repeat f_equal. lia.
  - cbn -[leave_critical]. rewrite leave_critical_ok by (cbn; lia). exists q. split_and!; [|done|done].
    unfold with_held, with_count. cbn. rewrite insert_id by done. repeat f_equal. lia.
Qed.

(** [release] by the holder: one level less, and the lock is free after the last. *)
Lemma release_ok s t m k q ls : tasking_enabled s = true → g_panicking s = false → cur_thread s = Some t →
  0 ≤ g_critical_count s ≤ 1 → mutexes s !! m = Some (mk_mutex t k) → 1 ≤ k ≤ 1000 →
  held_locks s !! t = Some q → _capacity q = 100 → repr q (if (k =? 1) && tracked m then ls ++ [m] else ls) →
  ∃ q', release s_liballoc_lock g_tasking_lock s m =
      Done (with_held (with_mutex s m (mk_mutex (if k =? 1 then -1 else t) (k - 1))) t q') ∧ repr q' ls ∧ _capacity q' = 100.
Proof.
  intros He Hp Ht Hc Hm Hk Hq Hcap Hr. unfold release. rewrite He, Hp. cbn -[released_lock leave_critical]. rewrite Hm. cbn -[released_lock leave_critical].
  destruct (Z.eqb_spec k 1) as [->|Hk1]; cbn -[released_lock leave_critical] in *.
  - rewrite Ht. cbn -[released_lock leave_critical]. rewrite (s32_small (g_critical_count s + 1)) by lia.
    set (s1 := with_mutex _ m _). destruct (released_lock_ok s1 t m q ls) as (q'&E&Hr'&Hcap'); [cbn; lia|done|done|done|].
    rewrite E. cbn -[leave_critical]. rewrite lookup_insert_eq. cbn -[leave_critical]. rewrite leave_critical_ok by (cbn; lia).
    exists q'. split_and!; [|done|done]. unfold with_count, with_mutex, with_held. cbn. rewrite insert_insert_eq.
    rewrite !s32_small by lia. do 2 f_equal. lia.
  - rewrite (s32_small (g_critical_count s + 1)) by lia. rewrite leave_critical_ok by (cbn; lia). exists q.
    split_and!; [|done|done]. unfold with_count, with_mutex, with_held. cbn.
    rewrite (insert_id (held_locks s)) by done. rewrite s32_small by lia. do 2 f_equal. lia.
Qed.

(** ** The invariant holds *)

Lemma mutex_ok_others A t a a' m x : A !! t = Some a → mutex_ok A m x → owner a' m = owner a m →
  depth m (a_locks a') = depth m (a_locks a) → mutex_ok (<[t := a']> A) m x.
Proof.
  intros Ha (H1&H2&H3) Ho Hd. split_and!.
  - intros t' b. destruct (decide (t' = t)) as [->|]; simplify_map_eq; [intros [= <-]; rewrite Ho; by apply H1|by apply H1].
  - intros t' b. destruct (decide (t' = t)) as [->|]; simplify_map_eq; [intros [= <-]; rewrite Hd; by apply H2|by apply H2].
  - destruct H3 as [?|[b Hb]]; [by left|right]. destruct (decide (m_holding_thread x = t)) as [->|]; simplify_map_eq; eauto.
Qed.

Lemma mutex_ok_own A t a' m x : (∀ t, is_Some (A !! t) → 0 ≤ t) → 0 ≤ t → mutex_ok A m x →
  m_holding_thread x = t ∨ m_holding_thread x = -1 → (owner a' m = false → depth m (a_locks a') = 0) →
  mutex_ok (<[t := a']> A) m (mk_mutex (if owner a' m then t else -1) (depth m (a_locks a'))).
Proof.
  intros Htid Ht (H1&H2&H3) Hh Hd.
  assert (∀ t' b, t' ≠ t → A !! t' = Some b → owner b m = true ↔ (if owner a' m then t else -1) = t') as Hother.
  { intros t' b Hne Hb. pose proof (Htid t' (mk_is_Some _ _ Hb)). rewrite (H1 _ _ Hb). destruct (owner a' m); lia. }
  split_and!; cbn.
  - intros t' b. destruct (decide (t' = t)) as [->|]; simplify_map_eq; [|by apply Hother].
    intros [= <-]. destruct (owner a' m); split; try done; lia.
  - intros t' b. destruct (decide (t' = t)) as [->|Hne]; simplify_map_eq; [by intros [= <-]|].
    intros Hb Ho. pose proof (Htid t' (mk_is_Some _ _ Hb)). destruct (owner a' m); lia.
  - destruct (owner a' m) eqn:Eo; [right; by rewrite lookup_insert_eq|left]. auto.
Qed.

(** The state after a step of thread [t] on mutex [m]. *)
Definition after (s : tasks) (t c m : Z) (x : mutex) (q : circular_queue Z) : tasks :=
  with_held (with_mutex (with_count s c) m x) t q.

Lemma after_same s t m x q : mutexes s !! m = Some x → held_locks s !! t = Some q → after s t (g_critical_count s) m x q = s.
Proof.
  intros Hm Hq. destruct s. unfold after, with_held, with_mutex, with_count. cbn in *. by rewrite !insert_id.
Qed.

Lemma locks_inv_after s A t a a' m x x' q : locks_inv s A → cur_thread s = Some t → A !! t = Some a →
  mutexes s !! m = Some x → mutex_ok (<[t := a']> A) m x' →
  (∀ m', m' ≠ m → owner a' m' = owner a m' ∧ depth m' (a_locks a') = depth m' (a_locks a)) →
  repr q (firsts (queued a')) → _capacity q = 100 → (∀ ms, is_Some (ms !! m) → call_ok ms a') →
  (length (a_locks a') ≤ 100)%nat → (∀ m', has m' (a_locks a') = true → m' = m ∨ has m' (a_locks a) = true) → 0 ≤ critical a' ≤ 1 →
  locks_inv (after s t (critical a') m x' q) (<[t := a']> A).
Proof.
  intros Hi Hcur Ha Hm Hx' Hsame Hq Hcap Hcall Hlen Hhas Hcrit. destruct Hi as [He Hp Htid Hc Hoth Hcalls Hms Hqs].
  assert (∀ m', is_Some (mutexes s !! m') → is_Some (<[m := x']> (mutexes s) !! m')) as Hdom.
  { intros m' Hm'. destruct (decide (m' = m)) as [->|]; simplify_map_eq; eauto. }
  split; cbn; [done|done| | | | | |].
  - intros t' Ht'. apply Htid. destruct (decide (t' = t)) as [->|]; simplify_map_eq; eauto.
  - exists t, a'. by rewrite lookup_insert_eq.
  - intros t' b Hb Hne. rewrite lookup_insert_ne in Hb by congruence. by apply (Hoth t').
  - intros t' b Hb. destruct (decide (t' = t)) as [->|].
    + rewrite lookup_insert_eq in Hb. simplify_eq. destruct (Hcalls t a Ha) as (_&_&Hd&_). split_and!; [|done| |lia|lia].
      * apply Hcall. by rewrite lookup_insert_eq.
      * intros m' [->|Hm']%Hhas; apply Hdom; eauto.
    + rewrite lookup_insert_ne in Hb by done. destruct (Hcalls t' b Hb) as (Hco&?&Hd&?). split_and!; [|done| |lia|lia].
      * unfold call_ok in *. destruct (a_call b) as [[[??]?]|]; [|done]. destruct Hco as (?&?&?&?&?). split_and!; eauto.
      * intros m' Hm'. by apply Hdom, Hd.
  - intros m' y Hy. destruct (decide (m' = m)) as [->|Hne]; simplify_map_eq; [done|].
    destruct (Hsame m' Hne). apply (mutex_ok_others A t a); auto.
  - intros t' b Hb. destruct (decide (t' = t)) as [->|]; simplify_map_eq; eauto.
Qed.

Lemma li_count s A t a : locks_inv s A → cur_thread s = Some t → A !! t = Some a → g_critical_count s = critical a.
Proof. intros Hi Hcur Ha. destruct (li_cur _ _ Hi) as (t'&a'&?&?&Hcc). by simplify_eq. Qed.

(** The actor after a step of [acquire_with_mode] that ended at [p]. *)
Definition moved (mode : AcquireMode) (m : Z) (p : position) (l : list (AcquireMode * Z)) : actor :=
  match p with
  | Returned true => mk_actor None ((mode, m) :: l)
  | Returned false => mk_actor None l
  | _ => mk_actor (Some (mode, m, p)) l
  end.

Definition step_to (s : tasks) (A : gmap Z actor) (t : Z) (mode : AcquireMode) (m : Z) (l : list (AcquireMode * Z))
    (p p' : position) : Prop :=
  ∃ s', acquire_step s mode m p = Done (s', p') ∧ cur_thread s' = Some t ∧ locks_inv s' (<[t := moved mode m p' l]> A).

(** A step that changes neither the mutexes nor what the thread owns. *)
Lemma locks_inv_stays s A t mode m p p' l : locks_inv s A → cur_thread s = Some t →
  A !! t = Some (mk_actor (Some (mode, m, p)) l) → p = Entered ∨ p = Looping → p' = Looping ∨ p' = Returned false →
  locks_inv s (<[t := moved mode m p' l]> A).
Proof.
  intros Hi Hcur Ha Hp Hp'. pose proof (li_calls _ _ Hi t _ Ha) as (([x Hx]&Hl&Hm&_&_)&Hl'&Hd&Hcr). cbn in *.
  destruct (li_queues _ _ Hi t _ Ha) as (q&Hq&Hr&Hcap). pose proof (li_count s A t _ Hi Hcur Ha) as Hcc.
  set (a' := moved mode m p' l).
  assert (critical a' = critical (mk_actor (Some (mode, m, p)) l) ∧ (∀ m', owner a' m' = owner (mk_actor (Some (mode, m, p)) l) m') ∧
    a_locks a' = l ∧ queued a' = queued (mk_actor (Some (mode, m, p)) l)) as (Ec&Eo&El&Eq).
  { subst a'. by destruct Hp, Hp'; subst; destruct mode. }
  rewrite <-(after_same s t m x q) by done. rewrite Hcc, <-Ec.
  apply (locks_inv_after s A t (mk_actor (Some (mode, m, p)) l) a' m x); try done.
  - apply (mutex_ok_others A t (mk_actor (Some (mode, m, p)) l)); [done|by apply (li_mutexes _ _ Hi)|apply Eo|by rewrite El].
  - intros m' _. by rewrite Eo, El.
  - by rewrite Eq.
  - intros ms Hms. subst a'. destruct Hp' as [-> | ->]; cbn; [|done]. by split_and!.
  - by rewrite El.
  - intros m' Hm'. right. by rewrite El in Hm'.
  - by rewrite Ec.
Qed.

Lemma entered_ok s A t mode m l : locks_inv s A → cur_thread s = Some t →
  A !! t = Some (mk_actor (Some (mode, m, Entered)) l) → step_to s A t mode m l Entered Looping.
Proof.
  intros Hi Hcur Ha. exists s. split_and!; [|done|by apply (locks_inv_stays s A t mode m Entered); auto].
  cbn. rewrite (li_enabled _ _ Hi), (li_calm _ _ Hi), Hcur. by rewrite bool_decide_true by eauto.
Qed.

Lemma with_count_id s c : c = g_critical_count s → with_count s c = s.
Proof. intros ->. by destruct s. Qed.

Lemma yield_ok s : g_critical_count s = 0 → yield s = Done s.
Proof. intros Hc. unfold yield. rewrite Hc. by destruct (tasking_enabled s). Qed.

(** The beginning of a turn. *)
Lemma turn_count s c mode : 0 ≤ g_critical_count s ≤ 1 → c = g_critical_count s + (if enters_critical mode then 1 else 0) →
  (if enters_critical mode then enter_critical s else Done s) = Done (with_count s c).
Proof.
  intros Hc ->. destruct (enters_critical mode); unfold enter_critical; [by rewrite s32_small by lia|].
  rewrite Z.add_0_r. by destruct s.
Qed.

(** A turn of the loop on a lock that is free or the thread's own. *)
Lemma turn_takes s A t mode m l x : locks_inv s A → cur_thread s = Some t → A !! t = Some (mk_actor (Some (mode, m, Looping)) l) →
  mutexes s !! m = Some x → m_holding_thread x = -1 ∨ m_holding_thread x = t →
  step_to s A t mode m l Looping (if m_holding_thread x =? -1 then Exchanged else Counting).
Proof.
  intros Hi Hcur Ha Hx Hh. pose proof (li_calls _ _ Hi t _ Ha) as ((_&Hl&Hm&_&_)&Hl'&Hd&Hcr). cbn in *.
  destruct (li_queues _ _ Hi t _ Ha) as (q&Hq&Hr&Hcap). pose proof (li_count s A t _ Hi Hcur Ha) as Hcc.
  pose proof (li_mutexes _ _ Hi m x Hx) as Hok. pose proof (li_tids _ _ Hi t (mk_is_Some _ _ Ha)) as Ht.
  assert (m_times_locked x = depth m l ∧ (m_holding_thread x = t → has m l = true) ∧
    (m_holding_thread x = -1 → has m l = false)) as (Htimes&Hhas&Hfree).
  { destruct Hok as (Ho&Hn&Hf). specialize (Ho t _ Ha). unfold owner in Ho. cbn in Ho. rewrite orb_false_r in Ho.
    assert (m_holding_thread x = -1 → has m l = false) as Hfree.
    { intros Hh1. destruct (has m l); [|done]. assert (m_holding_thread x = t) by by apply Ho. lia. }
    split_and!; [|by intros ?%Ho|done]. destruct Hh as [Hh|Hh]; [|by apply (Hn t _ Ha)].
    specialize (Hfree Hh). rewrite depth_has in Hfree. apply Z.ltb_ge in Hfree. pose proof (depth_nonneg m l).
    destruct Hf as [[_ ->]|[b Hb]]; [lia|]. rewrite Hh in Hb. pose proof (li_tids _ _ Hi _ (mk_is_Some _ _ Hb)). lia. }
  set (p' := if m_holding_thread x =? -1 then Exchanged else Counting). set (a' := mk_actor (Some (mode, m, p')) l).
  assert (critical a' = g_critical_count s + if enters_critical mode then 1 else 0) as Ec.
  { rewrite Hcc. subst a' p'. unfold critical. cbn. destruct (_ =? _), mode; cbn; lia. }
  assert (owner a' m = true) as Eown.
  { subst a' p'. unfold owner, at_lock. cbn. rewrite Z.eqb_refl. destruct (_ =? _); apply orb_true_r. }
  exists (after s t (critical a') m (mk_mutex t (depth m l)) q).
  replace (moved mode m p' l) with a' by (subst a' p'; by destruct (_ =? _)). split_and!; [|done|].
  - cbn. rewrite Hcur. cbn. unfold acquire_turn. rewrite (turn_count s (critical a')) by (done || lia). cbn. rewrite Hx. cbn.
    subst p'. destruct x as [h n]. cbn in *. subst n. unfold after, with_held, with_mutex, with_count. cbn.
    rewrite (insert_id (held_locks s)) by done. destruct (Z.eqb_spec h (-1)); [done|].
    destruct Hh as [?| ->]; [done|]. rewrite Z.eqb_refl. by rewrite (insert_id (mutexes s)).
  - apply (locks_inv_after s A t (mk_actor (Some (mode, m, Looping)) l) a' m x); try done.
    + pose proof (mutex_ok_own A t a' m x (li_tids _ _ Hi) Ht Hok) as Hown. rewrite Eown in Hown. apply Hown; [lia|done].
    + intros m' Hm'. subst a' p'. unfold owner, at_lock. cbn. destruct (Z.eqb_spec m' m); [done|]. by destruct (_ =? -1).
    + subst a' p'. unfold queued in *. cbn in *. destruct (Z.eqb_spec (m_holding_thread x) (-1)); [done|].
      destruct Hh as [?|Hh]; [done|]. rewrite firsts_old; [done|]. by apply has_elem, Hhas.
    + intros ms Hms. subst a' p'. unfold call_ok. cbn. split_and!; [done|done|done|by destruct (_ =? _)|].
      destruct (Z.eqb_spec (m_holding_thread x) (-1)); [|done]. intros _. by apply Hfree.
    + intros m' Hm'. by right.
    + rewrite Ec, Hcc. unfold critical in *. cbn in *. pose proof (criticals_nonneg l). destruct mode; cbn in *; lia || (destruct Hm; [done|lia]).
Qed.

Lemma looping_ok s A t mode m l : locks_inv s A → cur_thread s = Some t →
  A !! t = Some (mk_actor (Some (mode, m, Looping)) l) → ∃ p', step_to s A t mode m l Looping p'.
Proof.
  intros Hi Hcur Ha. pose proof (li_calls _ _ Hi t _ Ha) as (([x Hx]&_&Hm&_&_)&_&_&Hcr). cbn in Hx, Hm.
  destruct (decide (m_holding_thread x = -1 ∨ m_holding_thread x = t)) as [Hh|Hh].
  { eexists. by apply (turn_takes s A t mode m l x). }
  assert (m_holding_thread x ≠ -1 ∧ m_holding_thread x ≠ t) as [Hh1 Hh2] by tauto. pose proof (li_count s A t _ Hi Hcur Ha) as Hcc.
  exists (match mode with Try => Returned false | _ => Looping end), s.
  assert (critical (mk_actor (Some (mode, m, Looping)) l) = criticals l) as Ecr by (unfold critical; destruct mode; cbn; lia).
  split_and!; [|done|apply (locks_inv_stays s A t mode m Looping); try done; [by right|by destruct mode; auto]].
  cbn. rewrite Hcur. cbn. unfold acquire_turn. rewrite (turn_count s (g_critical_count s + if enters_critical mode then 1 else 0)) by lia.
  cbn. rewrite Hx. cbn. apply Z.eqb_neq in Hh1, Hh2. rewrite Hh1, Hh2. rewrite Ecr in Hcc.
  destruct mode; cbn [enters_critical].
  - destruct Hm as [|Hm]; [done|]. rewrite leave_critical_ok by (cbn; lia). cbn [mbind outcome_bind].
    change (with_count (with_count s ?b) ?c) with (with_count s c). rewrite with_count_id by (cbn; lia). unfold in_critical. rewrite Hcc, Hm. cbn. by rewrite yield_ok by lia.
  - destruct Hm as [|Hm]; [done|]. rewrite with_count_id by (cbn; lia). by rewrite yield_ok by lia.
  - cbn. by rewrite with_count_id by lia.
Qed.

Lemma exchanged_ok s A t mode m l : locks_inv s A → cur_thread s = Some t →
  A !! t = Some (mk_actor (Some (mode, m, Exchanged)) l) → step_to s A t mode m l Exchanged Counting.
Proof.
  intros Hi Hcur Ha. pose proof (li_calls _ _ Hi t _ Ha) as (([x Hx]&Hl&Hm&_&Hnew)&Hl'&Hd&Hcr). cbn in Hx, Hm, Hl, Hnew.
  specialize (Hnew eq_refl). destruct (li_queues _ _ Hi t _ Ha) as (q&Hq&Hr&Hcap).
  pose proof (li_count s A t _ Hi Hcur Ha) as Hcc.
  destruct (acquired_lock_ok s t m q (firsts l.*2)) as (q'&E&Hr'&Hcap'); [lia|done|done|done| |].
  { pose proof (firsts_length l.*2). rewrite length_fmap in *. lia. }
  eexists. split_and!; [cbn -[acquired_lock]; rewrite Hcur; cbn -[acquired_lock]; by rewrite E|done|].
  set (a' := mk_actor (Some (mode, m, Counting)) l).
  assert (critical a' = g_critical_count s) as Ec by (rewrite Hcc; by destruct mode).
  assert (with_held s t q' = after s t (critical a') m x q') as ->.
  { rewrite Ec. unfold after, with_held, with_mutex, with_count. cbn. by rewrite (insert_id (mutexes s)). }
  apply (locks_inv_after s A t (mk_actor (Some (mode, m, Exchanged)) l) a' m x); try done.
  - apply (mutex_ok_others A t (mk_actor (Some (mode, m, Exchanged)) l)); try done. by apply (li_mutexes _ _ Hi).
  - unfold queued. cbn [a_call a_locks a']. rewrite firsts_new; [done|]. rewrite <-has_elem. by rewrite Hnew.
  - intros m' Hm'. by right.
Qed.

Lemma counting_ok s A t mode m l : locks_inv s A → cur_thread s = Some t →
  A !! t = Some (mk_actor (Some (mode, m, Counting)) l) → step_to s A t mode m l Counting (Returned true).
Proof.
  intros Hi Hcur Ha. pose proof (li_calls _ _ Hi t _ Ha) as (([x Hx]&Hl&Hm&_&_)&Hl'&Hd&Hcr). cbn in Hx, Hm, Hl.
  destruct (li_queues _ _ Hi t _ Ha) as (q&Hq&Hr&Hcap). pose proof (li_count s A t _ Hi Hcur Ha) as Hcc.
  pose proof (li_mutexes _ _ Hi m x Hx) as Hok. pose proof (li_tids _ _ Hi t (mk_is_Some _ _ Ha)) as Ht.
  assert (m_holding_thread x = t) as Hh.
  { apply (proj1 Hok t _ Ha). unfold owner, at_lock. cbn. rewrite Z.eqb_refl. apply orb_true_r. }
  pose proof (proj1 (proj2 Hok) t _ Ha Hh) as Hn. cbn in Hn. pose proof (depth_nonneg m l). pose proof (depth_length m l).
  set (a' := mk_actor None ((mode, m) :: l)).
  assert (critical a' = g_critical_count s) as Ec by (rewrite Hcc; unfold critical; destruct mode; cbn; lia).
  exists (after s t (critical a') m (mk_mutex t (depth m ((mode, m) :: l))) q). split_and!; [|done|].
  - cbn. rewrite Hx. cbn. rewrite Hh, Hn, Z.eqb_refl, s32_small, Ec by lia.
    assert (is_normal mode = true → g_critical_count s = 0) as Hnorm.
    { intros ?. destruct mode; try done. destruct Hm as [|Hm]; [done|]. rewrite Hcc. unfold critical. cbn. lia. }
    unfold after, with_held, with_mutex, with_count, returned, in_critical. cbn. rewrite (insert_id (held_locks s)) by done.
    rewrite (Z.add_comm 1). destruct (is_normal mode); [by rewrite Hnorm|done].
  - apply (locks_inv_after s A t (mk_actor (Some (mode, m, Counting)) l) a' m x); try done.
    + pose proof (mutex_ok_own A t a' m x (li_tids _ _ Hi) Ht Hok) as Hown.
      assert (owner a' m = true) as Eown by (unfold owner; cbn; by rewrite Z.eqb_refl).
      rewrite Eown in Hown. apply Hown; [lia|done].
    + intros m' Hm'. unfold owner, at_lock. cbn. rewrite (proj2 (Z.eqb_neq m m')), (proj2 (Z.eqb_neq m' m)) by done.
      by rewrite !orb_false_r.
    + intros m' Hm'. cbn in Hm'. apply orb_true_iff in Hm' as [Hm'%Z.eqb_eq|Hm']; auto.
    + by rewrite Ec, Hcc.
Qed.

Lemma acquire_step_ok s A t mode m p l : locks_inv s A → cur_thread s = Some t →
  A !! t = Some (mk_actor (Some (mode, m, p)) l) → ∃ p', step_to s A t mode m l p p'.
Proof.
  intros Hi Hcur Ha. destruct p; [eexists; by apply entered_ok|by apply looping_ok|eexists; by apply exchanged_ok|eexists; by apply counting_ok|].
  destruct (li_calls _ _ Hi t _ Ha) as ((_&_&_&Hr&_)&_). by destruct (Hr success).
Qed.

Lemma scoped_release_ok s A t mode m l : locks_inv s A → cur_thread s = Some t → A !! t = Some (mk_actor None ((mode, m) :: l)) →
  ∃ s', scoped_release s mode m = Done s' ∧ locks_inv s' (<[t := mk_actor None l]> A).
Proof.
  intros Hi Hcur Ha. pose proof (li_calls _ _ Hi t _ Ha) as (_&Hl'&Hd&Hcr). cbn [a_locks] in *.
  destruct (Hd m) as [x Hx]; [cbn; by rewrite Z.eqb_refl|].
  destruct (li_queues _ _ Hi t _ Ha) as (q&Hq&Hr&Hcap). pose proof (li_count s A t _ Hi Hcur Ha) as Hcc.
  pose proof (li_mutexes _ _ Hi m x Hx) as Hok. pose proof (li_tids _ _ Hi t (mk_is_Some _ _ Ha)) as Ht.
  assert (m_holding_thread x = t) as Hh by (apply (proj1 Hok t _ Ha); unfold owner; cbn; by rewrite Z.eqb_refl).
  pose proof (proj1 (proj2 Hok) t _ Ha Hh) as Hn. pose proof (depth_nonneg m l). pose proof (depth_length m l).
  cbn in Hn, Hl'. rewrite Z.eqb_refl in Hn. destruct x as [h k]. cbn in Hh, Hn. subst h k.
  assert ((1 + depth m l =? 1) = negb (has m l)) as Elast.
  { rewrite depth_has. destruct (Z.ltb_spec 0 (depth m l)); cbn; [apply Z.eqb_neq|apply Z.eqb_eq]; lia. }
  set (a' := mk_actor None l). assert (owner a' m = has m l) as Eo by (unfold owner; cbn; by rewrite orb_false_r).
  destruct (release_ok s t m (1 + depth m l) q (firsts l.*2)) as (q'&E&Hr'&Hcap'); try done; try lia.
  - by apply (li_enabled _ _ Hi).
  - by apply (li_calm _ _ Hi).
  - unfold queued in Hr. cbn [a_call a_locks fmap list_fmap snd] in Hr. rewrite Elast. pose proof (has_elem m l) as He.
    destruct (has m l); cbn; [by rewrite firsts_old in Hr by (by apply He)|]. rewrite firsts_new in Hr by (by rewrite <-He). done.
  - assert (critical a' = g_critical_count s - if enters_critical mode then 1 else 0) as Ec.
    { rewrite Hcc. unfold critical. cbn. destruct (enters_critical mode); lia. }
    exists (after s t (critical a') m (mk_mutex (if owner a' m then t else -1) (depth m l)) q'). split.
    + unfold scoped_release. rewrite E, Elast, Eo. cbn [mbind outcome_bind]. rewrite Ec.
      replace (if negb (has m l) then -1 else t) with (if has m l then t else -1) by (by destruct (has m l)).
      replace (1 + depth m l - 1) with (depth m l) by lia.
      destruct (enters_critical mode) eqn:Em; [|rewrite Z.sub_0_r; by destruct s].
      rewrite leave_critical_ok; [done|]. change (0 < g_critical_count s ≤ 1000). rewrite Hcc. split; [|lia].
      unfold critical. cbn. rewrite Em. pose proof (criticals_nonneg l). lia.
    + apply (locks_inv_after s A t (mk_actor None ((mode, m) :: l)) a' m (mk_mutex t (1 + depth m l))); try done.
      * apply (mutex_ok_own A t a' m _ (li_tids _ _ Hi) Ht Hok); [by left|]. rewrite Eo, depth_has. intros ?%Z.ltb_ge. cbn. lia.
      * intros m' Hm'. unfold owner. cbn. by rewrite (proj2 (Z.eqb_neq m m')) by done.
      * cbn. lia.
      * intros m' Hm'. right. cbn in Hm' |- *. rewrite Hm'. apply orb_true_r.
      * pose proof (criticals_nonneg l). unfold critical in *. cbn in *. destruct (enters_critical mode); lia.
Qed.

Lemma lock_step_inv c c' : lock_step c c' → locks_inv c.1 c.2 → locks_inv c'.1 c'.2.
Proof.
  intros Hs Hi. destruct Hs as [s A t Hc [a Ha]|s A t l mode m Hcur Ha [x Hx] Hl Hm|s A t l mode m p s' p' Hcur Ha E|s A t l mode m s' Hcur Ha E];
    cbn in *.
  - destruct Hi as [He Hp Htid (t0&a0&Hcur&Ha0&Hcc) Hoth Hcalls Hms Hqs]. split; cbn; try done.
    + exists t, a. split_and!; [done|done|]. destruct (decide (t = t0)) as [->|Hne]; [by simplify_eq|].
      rewrite Hc. symmetry. apply (Hoth t a Ha). congruence.
    + intros t' b Hb Hne. destruct (decide (t' = t0)) as [->|Hne']; [|apply (Hoth t'); [done|congruence]]. simplify_eq. lia.
  - destruct (li_queues _ _ Hi t _ Ha) as (q&Hq&Hr&Hcap). pose proof (li_count s A t _ Hi Hcur Ha) as Hcc.
    pose proof (li_calls _ _ Hi t _ Ha) as (_&Hl'&Hd&Hcr). set (a' := mk_actor (Some (mode, m, Entered)) l).
    assert (critical a' = g_critical_count s) as Ec by (rewrite Hcc; unfold critical; destruct mode; cbn; lia).
    rewrite <-(after_same s t m x q) by done. rewrite <-Ec.
    apply (locks_inv_after s A t (mk_actor None l) a' m x); try done.
    + apply (mutex_ok_others A t (mk_actor None l)); try done. by apply (li_mutexes _ _ Hi).
    + intros ms Hms. split_and!; try done. destruct Hm as [|Hm]; [by left|right]. rewrite Hcc in Hm. unfold critical in Hm. cbn in *. lia.
    + by auto.
    + rewrite Ec, Hcc. done.
  - destruct (acquire_step_ok s A t mode m p l Hi Hcur Ha) as (p1&s1&E1&_&Hi1). by rewrite E in E1; simplify_eq.
  - destruct (scoped_release_ok s A t mode m l Hi Hcur Ha) as (s1&E1&Hi1). by rewrite E in E1; simplify_eq.
Qed.

(** Tasking before any lock is taken. *)
Definition unlocked (s : tasks) (A : gmap Z actor) : Prop :=
  tasking_enabled s = true ∧ g_panicking s = false ∧ g_critical_count s = 0 ∧
  (∃ t, cur_thread s = Some t ∧ is_Some (A !! t)) ∧
  (∀ t a, A !! t = Some a → 0 ≤ t ∧ a = mk_actor None [] ∧ held_locks s !! t = Some (circular_queue_new 100)) ∧
  (∀ m x, mutexes s !! m = Some x → x = mutex_new).

Lemma unlocked_inv s A : unlocked s A → locks_inv s A.
Proof.
  intros (He&Hp&Hc&(t&Ht&[a Ha])&HA&Hm). split; try done.
  - intros t' [b Hb]. by apply (HA t' b).
  - exists t, a. destruct (HA _ _ Ha) as (_&->&_). done.
  - intros t' b Hb _. by destruct (HA _ _ Hb) as (_&->&_).
  - intros t' b Hb. destruct (HA _ _ Hb) as (_&->&_). split_and!; try done. cbn. lia.
  - intros m x ->%Hm. split_and!; [| |by left]; intros t' b Hb; destruct (HA _ _ Hb) as (?&->&_); cbn; [split; [done|lia]|done].
  - intros t' b Hb. destruct (HA _ _ Hb) as (_&->&Hq). exists (circular_queue_new 100). split_and!; [done| |done].
    by apply cq_repr_new.
Qed.

Lemma locks_reach s A c : unlocked s A → rtc lock_step (s, A) c → locks_inv c.1 c.2.
Proof.
  intros Hu Hr. pose proof (unlocked_inv s A Hu) as Hi. remember (s, A) as c0 eqn:E0.
  assert (locks_inv c0.1 c0.2) as Hi0 by by subst. clear E0 Hi Hu. induction Hr as [|c0 c1 c2 H1 _ IH]; [done|].
  apply IH. by eapply lock_step_inv.
Qed.

(** [acquire_with_mode] on a lock that no other thread has, when no other thread runs. *)
Lemma acquire_free s A t mode m l x : locks_inv s A → cur_thread s = Some t →
  A !! t = Some (mk_actor (Some (mode, m, Entered)) l) → mutexes s !! m = Some x → m_holding_thread x = -1 ∨ m_holding_thread x = t →
  ∃ s', acquire_with_mode s_liballoc_lock g_tasking_lock 4 s mode m Entered = Done (s', true).
Proof.
  intros Hi Hcur Ha Hx Hh. destruct (entered_ok s A t mode m l Hi Hcur Ha) as (s1&E1&Hcur1&Hi1).
  assert (s1 = s) as ->.
  { cbn in E1. rewrite (li_enabled _ _ Hi), (li_calm _ _ Hi), Hcur, bool_decide_true in E1 by eauto. cbn in E1. congruence. }
  cbn [moved] in Hi1. cbn [acquire_with_mode]. rewrite E1. cbn [mbind outcome_bind].
  destruct (turn_takes s _ t mode m l x Hi1 Hcur1) as (s2&E2&Hcur2&Hi2); [by rewrite lookup_insert_eq|done|done|].
  rewrite E2. cbn [mbind outcome_bind]. rewrite insert_insert_eq in Hi2. destruct (m_holding_thread x =? -1); cbn [moved] in Hi2.
  - destruct (exchanged_ok s2 _ t mode m l Hi2 Hcur2) as (s3&E3&Hcur3&Hi3); [by rewrite lookup_insert_eq|].
    rewrite E3. cbn [mbind outcome_bind]. rewrite insert_insert_eq in Hi3.
    destruct (counting_ok s3 _ t mode m l Hi3 Hcur3) as (s4&E4&_); [by rewrite lookup_insert_eq|]. rewrite E4. by exists s4.
  - destruct (counting_ok s2 _ t mode m l Hi2 Hcur2) as (s4&E4&_); [by rewrite lookup_insert_eq|]. rewrite E4. by exists s4.
Qed.

End threads.

(** ** What threads can rely on *)

(** C10: Mutual exclusion: whatever threads do and whenever they are preempted, a mutex
    belongs to at most one of them; it names that thread, and counts how often
    that thread has locked it. *)
Theorem mutex_exclusion s_liballoc_lock g_tasking_lock s A c m x :
  unlocked s A → rtc (lock_step s_liballoc_lock g_tasking_lock) (s, A) c → mutexes c.1 !! m = Some x →
  (∀ t1 a1 t2 a2, c.2 !! t1 = Some a1 → c.2 !! t2 = Some a2 → has m (a_locks a1) = true → has m (a_locks a2) = true → t1 = t2) ∧
  (∀ t a, c.2 !! t = Some a → has m (a_locks a) = true → m_holding_thread x = t ∧ m_times_locked x = depth m (a_locks a)).
Proof.
  intros Hu Hr Hx. pose proof (locks_reach _ _ s A c Hu Hr) as Hi. destruct (li_mutexes _ _ _ _ Hi m x Hx) as (Ho&Hn&_).
  assert (∀ t a, c.2 !! t = Some a → has m (a_locks a) = true → m_holding_thread x = t) as Hh.
  { intros t a Ha Hm. apply (Ho t a Ha). unfold owner. by rewrite Hm. }
  split; [|by eauto]. intros t1 a1 t2 a2 H1 H2 Hm1 Hm2. rewrite <-(Hh t1 a1), <-(Hh t2 a2); done.
Qed.

(** C32: Threads that release their locks in reverse order, have less than 100 of
    them and wait for none inside a critical section never make the kernel stop:
    every step of an acquisition and every release succeeds, and an acquisition
    of a lock that no other thread has ends with it after four steps. *)
Theorem mutex_progress s_liballoc_lock g_tasking_lock s A c :
  unlocked s A → rtc (lock_step s_liballoc_lock g_tasking_lock) (s, A) c →
  ∃ t a, cur_thread c.1 = Some t ∧ c.2 !! t = Some a ∧
    match a with
    | mk_actor (Some (mode, m, p)) _ => ∃ r, acquire_step s_liballoc_lock g_tasking_lock c.1 mode m p = Done r
    | mk_actor None ((mode, m) :: _) => ∃ s', scoped_release s_liballoc_lock g_tasking_lock c.1 mode m = Done s'
    | mk_actor None [] => True
    end ∧
    ∀ mode m x, a_call a = Some (mode, m, Entered) → mutexes c.1 !! m = Some x → m_holding_thread x = -1 ∨ m_holding_thread x = t →
      ∃ s', acquire_with_mode s_liballoc_lock g_tasking_lock 4 c.1 mode m Entered = Done (s', true).
Proof.
  intros Hu Hr. pose proof (locks_reach _ _ s A c Hu Hr) as Hi. destruct (li_cur _ _ _ _ Hi) as (t&a&Hcur&Ha&_).
  exists t, a. split_and!; [done|done| |].
  - destruct a as [[[[mode m] p]|] l].
    + destruct (acquire_step_ok _ _ _ _ t mode m p l Hi Hcur Ha) as (p'&s'&E&_). by eexists.
    + destruct l as [|[mode m] l]; [done|]. destruct (scoped_release_ok _ _ _ _ t mode m l Hi Hcur Ha) as (s'&E&_). by eexists.
  - intros mode m x Hc Hx Hh. destruct a as [call l]. cbn in Hc. subst call. by apply (acquire_free _ _ c.1 c.2 t mode m l x).
Qed.

(** ** Two threads *)

Inductive lock_op := OpSwitch (t : Z) | OpCall (mode : AcquireMode) (m : Z) | OpAcquire | OpRelease.

Section run.
Context (s_liballoc_lock g_tasking_lock : Z).

Definition lock_do (c : tasks * gmap Z actor) (o : lock_op) : outcome (tasks * gmap Z actor) :=
  let '(s, A) := c in
  match o with
  | OpSwitch t => if (g_critical_count s =? 0) && bool_decide (is_Some (A !! t)) then Done (with_cur s (Some t), A) else Undef
  | _ =>
      t ← get (cur_thread s);
      a ← get (A !! t);
      match o, a with
      | OpCall mode m, mk_actor None l =>
          if bool_decide (is_Some (mutexes s !! m)) && (length l <? 100)%nat &&
             (match mode with Try => true | _ => false end || (g_critical_count s =? 0))
          then Done (s, <[t := mk_actor (Some (mode, m, Entered)) l]> A) else Undef
      | OpAcquire, mk_actor (Some (mode, m, p)) l =>
          '(s', p') ← acquire_step s_liballoc_lock g_tasking_lock s mode m p; Done (s', <[t := moved mode m p' l]> A)
      | OpRelease, mk_actor None ((mode, m) :: l) =>
          s' ← scoped_release s_liballoc_lock g_tasking_lock s mode m; Done (s', <[t := mk_actor None l]> A)
      | _, _ => Undef
      end
  end.

Fixpoint lock_run (os : list lock_op) (c : tasks * gmap Z actor) : outcome (tasks * gmap Z actor) :=
  match os with [] => Done c | o :: os => c ← lock_do c o; lock_run os c end.

Lemma lock_do_step c o c' : lock_do c o = Done c' → lock_step s_liballoc_lock g_tasking_lock c c'.
Proof.
  destruct c as [s A]. unfold lock_do.
  destruct o as [t|mode m| |]; [|destruct (cur_thread s) as [t|] eqn:Ht; cbn; [|done]; destruct (A !! t) as [[call l]|] eqn:Ha; cbn; [|done]..].
  - destruct (Z.eqb_spec (g_critical_count s) 0), (bool_decide_reflect (is_Some (A !! t))); cbn; try done. intros [= <-]. by apply step_switch.
  - destruct call as [[[??]?]|]; [done|]. destruct (_ && _ && _) eqn:E; [|done]. intros [= <-].
    apply andb_true_iff in E as [[Hm%bool_decide_eq_true Hl%Nat.leb_le]%andb_true_iff E].
    apply step_call; [done|done|done|lia|]. apply orb_true_iff in E as [E|E%Z.eqb_eq]; [left; by destruct mode|by right].
  - destruct call as [[[mode m] p]|]; [|by destruct l as [|[??]]]. destruct (acquire_step _ _ _ _ _ _) as [[s' p']| | |] eqn:E; cbn; try done.
    intros [= <-]. by eapply (step_acquire _ _ s A t l mode m p).
  - destruct call as [[[??]?]|]; [done|]. destruct l as [|[mode m] l]; [done|].
    destruct (scoped_release _ _ _ _ _) as [s'| | |] eqn:E; cbn; try done. intros [= <-]. by eapply (step_release _ _ s A t l mode m).
Qed.

Lemma lock_run_reach os c c' : lock_run os c = Done c' → rtc (lock_step s_liballoc_lock g_tasking_lock) c c'.
Proof.
  revert c. induction os as [|o os IH]; intros c; cbn; [by intros [= ->]|].
  destruct (lock_do c o) as [c1| | |] eqn:E; cbn; try done. intros Hr. eapply rtc_l; [by eapply lock_do_step|by apply IH].
Qed.

End run.

(** Thread 1 locks mutex 12 twice; thread 2 waits for it. *)
Definition two_threads : tasks * gmap Z actor :=
  (mk_tasks true false (Some 1) 0 {[10 := mutex_new; 11 := mutex_new; 12 := mutex_new]}
     {[1 := circular_queue_new 100; 2 := circular_queue_new 100]},
   {[1 := mk_actor None []; 2 := mk_actor None []]}).

Definition contention : list lock_op :=
  [OpCall Normal 12; OpAcquire; OpAcquire; OpAcquire; OpSwitch 2; OpCall Normal 12; OpAcquire; OpAcquire;
   OpSwitch 1; OpAcquire; OpCall Normal 12; OpAcquire; OpAcquire; OpAcquire].

Definition contended : tasks * gmap Z actor := match lock_run 10 11 contention two_threads with Done c => c | _ => two_threads end.

Lemma contended_reach : rtc (lock_step 10 11) two_threads contended.
Proof. apply (lock_run_reach 10 11 contention). vm_compute. reflexivity. Qed.

Lemma two_threads_unlocked : unlocked two_threads.1 two_threads.2.
Proof.
  split_and!; [done|done|done|by exists 1|..].
  - intros t a Ha. cbn in Ha. apply lookup_insert_Some in Ha as [[<- <-]|[_ Ha]]; [by split_and!|].
    apply lookup_singleton_Some in Ha as [<- <-]. by split_and!.
  - intros m x Hx. cbn in Hx. apply lookup_insert_Some in Hx as [[<- <-]|[_ Hx]]; [done|].
    apply lookup_insert_Some in Hx as [[<- <-]|[_ Hx]]; [done|]. by apply lookup_singleton_Some in Hx as [<- <-].
Qed.

Lemma mutex_exclusion_witness :
  mutexes contended.1 !! 12 = Some (mk_mutex 1 2) ∧
  (∀ t a, contended.2 !! t = Some a → has 12 (a_locks a) = true → 1 = t ∧ 2 = depth 12 (a_locks a)).
Proof.
  split; [vm_compute; reflexivity|].
  apply (mutex_exclusion 10 11 two_threads.1 two_threads.2 contended 12 (mk_mutex 1 2) two_threads_unlocked contended_reach).
  vm_compute. reflexivity.
Defined.

Lemma mutex_progress_witness : ∃ t a, cur_thread contended.1 = Some t ∧ contended.2 !! t = Some a.
Proof.
  destruct (mutex_progress 10 11 two_threads.1 two_threads.2 contended two_threads_unlocked contended_reach) as (t&a&?&?&_).
  by exists t, a.
Defined.
