(* ===== verification/Scheduler.v ===== *)
(** * The scheduler (kernel/tasking/TaskManager.cpp, and the parts of Thread.cpp,
    Process.cpp and Reaper.cpp that work on the run queue and the states of threads)

    Threads that can run are in a list linked through [m_next] and [m_prev], whose
    head is [g_next_thread].  [preempt] wakes the threads whose blockers are ready,
    takes the next thread from the list and puts the old one at its end.  Thread
    objects are a map from thread id to thread: a pointer to a thread that is not in
    the map dangles, and reading it is [Undef].  Processes are a map in the same way; a process that
    replaces another ([exec]) is one more process, with numbers of its own.

    [preempt] runs in a critical section and is one step here; so are the other
    operations, which the kernel runs in critical sections or on the current thread
    only. *)

From stdpp Require Import base numbers list option gmap relations.
From S2P Require Import Prelude.

Local Open Scope Z_scope.

(** ** State *)

(** [Thread::State]; [Process::State] has the same numbers, with [PROC_SLEEPING] for
    [BLOCKED]. *)
Inductive state := ALIVE | ZOMBIE | DEAD | BLOCKED | STOPPED.

#[export] Instance state_eq_dec : EqDecision state.
Proof. solve_decision. Defined.

Record thread := mk_thread {
  _process : Z;
  _state : state;
  _blocker : option Z;
  _pending_signals : Z;
  m_next : option Z;
  m_prev : option Z;
  _in_signal : bool;
  _ready_to_handle_signal : bool;
  _just_finished_signal : bool;
}.

Record process := mk_process {
  p_state : state;
  _kernel_mode : bool;
  _tids : list Z;
  _stopping : bool;
  _last_active_thread : Z;
}.

(** What the scheduler sees of a [Blocker]. *)
Record blocker := mk_blocker {
  is_ready : bool;
  can_be_interrupted : bool;
  _interrupted : bool;
}.

(** [kidle] is the thread of [kernel_process] that runs when no other can. *)
Record sched := mk_sched {
  threads : gmap Z thread;
  procs : gmap Z process;
  processes : list Z;
  blockers : gmap Z blocker;
  g_next_thread : option Z;
  cur_thread : Z;
  kidle : Z;
}.

Definition with_threads (s : sched) (ts : gmap Z thread) : sched :=
  mk_sched ts (procs s) (processes s) (blockers s) (g_next_thread s) (cur_thread s) (kidle s).
Definition with_procs (s : sched) (ps : gmap Z process) : sched :=
  mk_sched (threads s) ps (processes s) (blockers s) (g_next_thread s) (cur_thread s) (kidle s).
Definition with_blockers (s : sched) (bs : gmap Z blocker) : sched :=
  mk_sched (threads s) (procs s) (processes s) bs (g_next_thread s) (cur_thread s) (kidle s).
Definition with_next_thread (s : sched) (t : option Z) : sched :=
  mk_sched (threads s) (procs s) (processes s) (blockers s) t (cur_thread s) (kidle s).
Definition with_cur_thread (s : sched) (t : Z) : sched :=
  mk_sched (threads s) (procs s) (processes s) (blockers s) (g_next_thread s) t (kidle s).

Definition set_state (x : state) (th : thread) : thread :=
  mk_thread (_process th) x (_blocker th) (_pending_signals th) (m_next th) (m_prev th) (_in_signal th) (_ready_to_handle_signal th) (_just_finished_signal th).
Definition set_blocker (b : option Z) (th : thread) : thread :=
  mk_thread (_process th) (_state th) b (_pending_signals th) (m_next th) (m_prev th) (_in_signal th) (_ready_to_handle_signal th) (_just_finished_signal th).
Definition set_next (n : option Z) (th : thread) : thread :=
  mk_thread (_process th) (_state th) (_blocker th) (_pending_signals th) n (m_prev th) (_in_signal th) (_ready_to_handle_signal th) (_just_finished_signal th).
Definition set_prev (p : option Z) (th : thread) : thread :=
  mk_thread (_process th) (_state th) (_blocker th) (_pending_signals th) (m_next th) p (_in_signal th) (_ready_to_handle_signal th) (_just_finished_signal th).
Definition set_signal (i r j : bool) (th : thread) : thread :=
  mk_thread (_process th) (_state th) (_blocker th) (_pending_signals th) (m_next th) (m_prev th) i r j.
Definition set_pending (x : Z) (th : thread) : thread :=
  mk_thread (_process th) (_state th) (_blocker th) x (m_next th) (m_prev th) (_in_signal th) (_ready_to_handle_signal th) (_just_finished_signal th).

(** Reading and writing through a pointer. *)
Definition the {A} (m : gmap Z A) (t : Z) : outcome A := match m !! t with Some x => Done x | None => Undef end.
Definition change (s : sched) (t : Z) (f : thread → thread) : outcome sched :=
  th ← the (threads s) t; Done (with_threads s (<[t := f th]> (threads s))).

(** ** States of threads *)

(** [Thread::state]: a process that is not alive decides for its threads. *)
Definition thread_state (s : sched) (t : Z) : outcome state :=
  th ← the (threads s) t;
  p ← the (procs s) (_process th);
  Done (if decide (p_state p = ALIVE) then _state th else p_state p).

Definition can_be_run (s : sched) (t : Z) : outcome bool :=
  x ← thread_state s t; Done (bool_decide (x = ALIVE)).

(** ** The run queue *)

(** [this->enqueue_thread(thread)]. *)
Fixpoint enqueue_thread (fuel : nat) (s : sched) (this t : Z) : outcome sched :=
  match fuel with
  | O => NoFuel
  | S fuel =>
      if t =? this then Done s
      else
        th ← the (threads s) this;
        match m_next th with
        | Some n => enqueue_thread fuel s n t
        | None => s ← change s this (set_next (Some t)); change s t (set_prev (Some this))
        end
  end.

Definition queue_fuel (s : sched) : nat := S (size (threads s)).

(** [next_thread]: the successor, which is taken off. *)
Definition next_thread (s : sched) (t : Z) : outcome (option Z * sched) :=
  th ← the (threads s) t;
  s ← change s t (set_next None);
  Done (m_next th, s).

Definition queue_thread (s : sched) (t : Z) : outcome sched :=
  if t =? kidle s then Done s
  else
    x ← thread_state s t;
    if decide (x = ALIVE) then
      match g_next_thread s with
      | Some n => enqueue_thread (queue_fuel s) s n t
      | None => Done (with_next_thread s (Some t))
      end
    else Done s.

(** The loop of [pick_next_thread]. *)
Fixpoint skip_stopped (fuel : nat) (s : sched) : outcome sched :=
  match fuel with
  | O => NoFuel
  | S fuel =>
      match g_next_thread s with
      | Some t =>
          r ← can_be_run s t;
          if (r : bool) then Done s
          else '(n, s) ← next_thread s t; skip_stopped fuel (with_next_thread s n)
      | None => Done s
      end
  end.

Definition pick_next_thread (s : sched) : outcome (Z * sched) :=
  s ← skip_stopped (queue_fuel s) s;
  match g_next_thread s with
  | None =>
      r ← can_be_run s (cur_thread s);
      if (r : bool) then Done (cur_thread s, s)
      else
        x ← thread_state s (kidle s);
        if decide (x = ALIVE) then Done (kidle s, s) else Panic
  | Some t => '(n, s) ← next_thread s t; Done (t, with_next_thread s n)
  end.

(** ** Blocking *)

Definition should_unblock (s : sched) (t : Z) : outcome bool :=
  th ← the (threads s) t;
  match _blocker th with
  | Some b => b ← the (blockers s) b; Done (is_ready b || _interrupted b)
  | None => Done false
  end.

Definition unblock (s : sched) (t : Z) : outcome sched :=
  th ← the (threads s) t;
  match _blocker th with
  | None => Done s
  | Some _ =>
      s ← change s t (set_blocker None);
      s ← (if decide (_state th = BLOCKED) then change s t (set_state ALIVE) else Done s);
      queue_thread s t
  end.

Definition set_interrupted (b : blocker) : blocker := mk_blocker (is_ready b) (can_be_interrupted b) true.

(** [Thread::interrupt]. *)
Definition interrupt (s : sched) (t : Z) : outcome (bool * sched) :=
  th ← the (threads s) t;
  match _blocker th with
  | None => Done (false, s)
  | Some b =>
      x ← the (blockers s) b;
      if can_be_interrupted x then
        s ← unblock (with_blockers s (<[b := set_interrupted x]> (blockers s))) t;
        Done (true, s)
      else Done (false, s)
  end.

(** [Process::get_thread]; the loops over a process's threads skip those that it has no longer. *)
Definition get_thread (s : sched) (t : Z) : option thread := threads s !! t.

(** ** Preemption *)

(** The threads of a process that [preempt] looks at. *)
Fixpoint unblock_threads (s : sched) (tids : list Z) : outcome sched :=
  match tids with
  | [] => Done s
  | t :: tids =>
      match get_thread s t with
      | None => unblock_threads s tids
      | Some _ =>
          x ← thread_state s t;
          s ← (if decide (x = BLOCKED) then r ← should_unblock s t; if (r : bool) then unblock s t else Done s else Done s);
          unblock_threads s tids
      end
  end.

Fixpoint unblock_processes (s : sched) (ps : list Z) : outcome sched :=
  match ps with
  | [] => Done s
  | p :: ps =>
      x ← the (procs s) p;
      s ← (if decide (p_state x = ALIVE ∨ p_state x = STOPPED) then unblock_threads s (_tids x) else Done s);
      unblock_processes s ps
  end.

(** The signal flags on the way from [old] to [next], and whether to switch. *)
Definition switch_signals (s : sched) (old next : Z) : outcome (bool * sched) :=
  th ← the (threads s) old;
  '(b, s) ← (if _just_finished_signal th
             then s ← change s old (set_signal false (_ready_to_handle_signal th) false); Done (true, s)
             else Done (negb (old =? next), s));
  th ← the (threads s) next;
  if _ready_to_handle_signal th
  then s ← change s next (set_signal true false (_just_finished_signal th)); Done (true, s)
  else Done (b, s).

Definition set_last_active (s : sched) (t : Z) : outcome sched :=
  th ← the (threads s) t;
  p ← the (procs s) (_process th);
  Done (with_procs s (<[_process th := mk_process (p_state p) (_kernel_mode p) (_tids p) (_stopping p) t]> (procs s))).

(** [preempt], from the point where it has the tasking lock; [try_processes] says whether it got
    the process lock.  The stack pointers that go to [preempt_asm] are not part of the
    model. *)
Definition preempt (s : sched) (try_processes : bool) : outcome sched :=
  s ← (if try_processes then unblock_processes s (processes s) else Done s);
  let old := cur_thread s in
  '(next, s) ← pick_next_thread s;
  '(should_preempt, s) ← switch_signals s old next;
  s ← (if (should_preempt : bool) then set_last_active s next else Done s);
  r ← can_be_run s next;
  '(next, should_preempt) ← (if (r : bool) then Done (next, should_preempt)
                             else
                               r ← can_be_run s (kidle s);
                               if (r : bool) then Done (kidle s, negb (old =? kidle s)) else Panic);
  if (should_preempt : bool) then
    r ← can_be_run s old;
    s ← (if negb (old =? kidle s) && r then queue_thread s old else Done s);
    Done (with_cur_thread s next)
  else Done s.

(** ** Threads that stop, continue, block and end *)

(** [Thread::block] of the current thread, up to [yield]; the flag says whether it yields.  No
    blocker of the kernel has a [responsible_thread], so that the search for a deadlock
    finds none. *)
Definition block (s : sched) (b : Z) : outcome (bool * sched) :=
  let t := cur_thread s in
  x ← thread_state s t;
  th ← the (threads s) t;
  p ← the (procs s) (_process th);
  if decide (x = ALIVE) then
    _ ← kassert (bool_decide (_blocker th = None));
    bl ← the (blockers s) b;
    if is_ready bl then Done (false, s)
    else if negb (_pending_signals th =? 0) && can_be_interrupted bl
    then Done (false, with_blockers s (<[b := set_interrupted bl]> (blockers s)))
    else
      s ← change s t (set_blocker (Some b));
      s ← change s t (set_state BLOCKED);
      Done (true, s)
  else if _kernel_mode p then Panic else Done (false, s).

Fixpoint all_stopped (s : sched) (stopping : Z) (tids : list Z) : outcome bool :=
  match tids with
  | [] => Done true
  | t :: tids =>
      match get_thread s t with
      | None => all_stopped s stopping tids
      | Some _ =>
          x ← thread_state s t;
          if negb (t =? stopping) && negb (bool_decide (x = STOPPED)) then Done false else all_stopped s stopping tids
      end
  end.

Definition set_p_state (x : state) (p : process) : process := mk_process x (_kernel_mode p) (_tids p) (_stopping p) (_last_active_thread p).
Definition set_stopping (b : bool) (p : process) : process := mk_process (p_state p) (_kernel_mode p) (_tids p) b (_last_active_thread p).

(** [stop_if_should_stop] on the current thread outside its critical sections, with [notify_thread_stopping], up to [yield]. *)
Definition stop_if_should_stop (s : sched) : outcome sched :=
  let t := cur_thread s in
  th ← the (threads s) t;
  p ← the (procs s) (_process th);
  if _stopping p && bool_decide (_state th = ALIVE) then
    b ← all_stopped s t (_tids p);
    let s := if (b : bool) then with_procs s (<[_process th := set_p_state STOPPED p]> (procs s)) else s in
    change s t (set_state STOPPED)
  else Done s.

(** The loop of [Process::stop] over the threads. *)
Fixpoint interrupt_all (s : sched) (tids : list Z) : outcome sched :=
  match tids with
  | [] => Done s
  | t :: tids =>
      match get_thread s t with
      | None => interrupt_all s tids
      | Some th =>
          s ← (if decide (_state th = BLOCKED) then '(_, s) ← interrupt s t; Done s else Done s);
          interrupt_all s tids
      end
  end.

(** [Process::stop]; whoever waits for the process is told elsewhere. *)
Definition stop (s : sched) (pid : Z) : outcome (bool * sched) :=
  p ← the (procs s) pid;
  if _stopping p then Done (false, s)
  else s ← interrupt_all (with_procs s (<[pid := set_stopping true p]> (procs s))) (_tids p); Done (true, s).

(** The loop of [Process::cont]. *)
Fixpoint continue_all (s : sched) (tids : list Z) : outcome sched :=
  match tids with
  | [] => Done s
  | t :: tids =>
      match get_thread s t with
      | None => continue_all s tids
      | Some _ => s ← change s t (set_state ALIVE); s ← queue_thread s t; continue_all s tids
      end
  end.

Definition cont (s : sched) (pid : Z) : outcome sched :=
  p ← the (procs s) pid;
  if decide (p_state p = STOPPED) then
    s ← continue_all (with_procs s (<[pid := set_p_state ALIVE p]> (procs s))) (_tids p);
    p ← the (procs s) pid;
    Done (with_procs s (<[pid := set_stopping false p]> (procs s)))
  else Done s.

(** The end of the current thread in [Reaper::reap]. *)
Definition die (s : sched) : outcome sched := change s (cur_thread s) (set_state DEAD).

(** [Process::remove_thread]: the first entry with the number goes. *)
Fixpoint erase_tid (t : Z) (l : list Z) : list Z :=
  match l with [] => [] | x :: l => if x =? t then l else x :: erase_tid t l end.

(** The critical section of [Thread::reap]: the thread leaves the queue, and the last pointer to it goes. *)
Definition unlink_thread (s : sched) (t : Z) (th : thread) : outcome sched :=
  let s := if decide (g_next_thread s = Some t) then with_next_thread s (m_next th) else s in
  s ← match m_prev th with
      | Some q => thq ← the (threads s) q; if decide (m_next thq = Some t) then change s q (set_next (m_next th)) else Done s
      | None => Done s
      end;
  s ← match m_next th with Some n => change s n (set_prev (m_prev th)) | None => Done s end;
  Done (with_threads s (delete t (threads s))).

(** [Thread::reap]; the end of the process ([alert_thread_died] after [remove_thread]) is [end_process] and [remove_process]. *)
Definition reap (s : sched) (t : Z) : outcome sched :=
  th ← the (threads s) t;
  p ← the (procs s) (_process th);
  unlink_thread (with_procs s (<[_process th := mk_process (p_state p) (_kernel_mode p) (erase_tid t (_tids p)) (_stopping p)
    (_last_active_thread p)]> (procs s))) t th.

(** [queue_signal]: no other thread changes the set in between. *)
Definition queue_signal (s : sched) (t sig : Z) : outcome sched :=
  th ← the (threads s) t; change s t (set_pending (Z.lor (_pending_signals th) (u32 (Z.shiftl 1 sig)))).

(** A new thread of a process ([insert_thread] and [queue_thread]). *)
Definition spawn (s : sched) (pid t : Z) : outcome sched :=
  p ← the (procs s) pid;
  let s := with_threads s (<[t := mk_thread pid ALIVE None 0 None None false false false]> (threads s)) in
  let s := with_procs s (<[pid := mk_process (p_state p) (_kernel_mode p) (_tids p ++ [t]) (_stopping p) (_last_active_thread p)]> (procs s)) in
  queue_thread s t.

(** ** Processes that start and end *)

Definition with_processes (s : sched) (l : list Z) : sched :=
  mk_sched (threads s) (procs s) l (blockers s) (g_next_thread s) (cur_thread s) (kidle s).

(** The constructor of [Process], for a kernel process, a program or a fork: the process [pid] with its main thread [t], not known to
    the scheduler yet. *)
Definition new_process (s : sched) (pid t : Z) (kernel : bool) : sched :=
  with_procs (with_threads s (<[t := mk_thread pid ALIVE None 0 None None false false false]> (threads s)))
    (<[pid := mk_process ALIVE kernel [t] false 1]> (procs s)).

(** The loop of [add_process]. *)
Fixpoint queue_all (s : sched) (tids : list Z) : outcome sched :=
  match tids with
  | [] => Done s
  | t :: tids => match get_thread s t with None => queue_all s tids | Some _ => s ← queue_thread s t; queue_all s tids end
  end.

Definition add_process (s : sched) (pid : Z) : outcome sched :=
  p ← the (procs s) pid; queue_all (with_processes s (processes s ++ [pid])) (_tids p).

(** The end of [alert_thread_died] for the last thread of a process: it is a zombie until its parent has asked for it, ... *)
Definition end_process (s : sched) (pid : Z) : outcome sched :=
  p ← the (procs s) pid; Done (with_procs s (<[pid := set_p_state ZOMBIE p]> (procs s))).

(** ... and then it goes: the destructor with [remove_process]. *)
Definition remove_process (s : sched) (pid : Z) : sched :=
  with_procs (with_processes s (erase_tid pid (processes s))) (delete pid (procs s)).

(** ** The list behind the run queue *)

Lemma the_Done {A} (m : gmap Z A) t x : m !! t = Some x → the m t = Done x.
Proof. intros H. unfold the. by rewrite H. Qed.

Lemma change_Done s t th f : threads s !! t = Some th → change s t f = Done (with_threads s (<[t := f th]> (threads s))).
Proof. intros H. unfold change. by rewrite (the_Done _ _ th). Qed.

Implicit Types (ts : gmap Z thread) (l r : list Z) (s : sched) (t x y : Z).

(** The first of [l], or what follows when it is empty. *)
Definition first l (n : option Z) : option Z := match l with [] => n | x :: _ => Some x end.

(** The threads of [l] are linked, and [n] follows. *)
Fixpoint linked ts l (n : option Z) : Prop :=
  match l with
  | [] => True
  | x :: r => (∃ th, ts !! x = Some th ∧ m_next th = first r n) ∧ linked ts r n
  end.

(** The threads of [r] are linked back, to [x] in front of them. *)
Fixpoint linked_back ts x r : Prop :=
  match r with
  | [] => True
  | y :: r => (∃ th, ts !! y = Some th ∧ m_prev th = Some x) ∧ linked_back ts y r
  end.

Definition back_ok ts l : Prop := match l with [] => True | x :: r => linked_back ts x r end.

(** The run queue of [s] is [l]. *)
Record queue_of s l : Prop := {
  qo_head : g_next_thread s = first l None;
  qo_nodup : NoDup l;
  qo_next : linked (threads s) l None;
  qo_prev : back_ok (threads s) l;
  qo_others t th : threads s !! t = Some th → (t ∉ l) → m_next th = None;
  qo_idle : (kidle s ∉ l);
}.

Lemma linked_app ts l r n : linked ts (l ++ r) n ↔ linked ts l (first r n) ∧ linked ts r n.
Proof.
  induction l as [|x l IH]; cbn; [tauto|]. rewrite IH. replace (first (l ++ r) n) with (first l (first r n)) by (by destruct l). tauto.
Qed.

Lemma linked_ext ts ts' l n : linked ts l n → (∀ x, x ∈ l → m_next <$> ts' !! x = m_next <$> ts !! x) → linked ts' l n.
Proof.
  induction l as [|x l IH]; cbn; [done|]. intros [(th&Hx&Hn) Hl] He. split; [|apply IH; [done|intros y Hy; apply He; by right]].
  specialize (He x ltac:(by left)). rewrite Hx in He. cbn in He. destruct (ts' !! x) as [th'|]; [|done]. injection He as He.
  exists th'. by rewrite He.
Qed.

Lemma linked_back_ext ts ts' x r : linked_back ts x r → (∀ y, y ∈ r → m_prev <$> ts' !! y = m_prev <$> ts !! y) → linked_back ts' x r.
Proof.
  revert x. induction r as [|y r IH]; intros x; cbn; [done|]. intros [(th&Hy&Hp) Hr] He. split; [|apply IH; [done|intros z Hz; apply He; by right]].
  specialize (He y ltac:(by left)). rewrite Hy in He. cbn in He. destruct (ts' !! y) as [th'|]; [|done]. injection He as He.
  exists th'. by rewrite He.
Qed.

Lemma linked_dom ts l n x : linked ts l n → x ∈ l → is_Some (ts !! x).
Proof.
  induction l as [|y l IH]; cbn; [by intros _ ?%elem_of_nil|]. intros [(th&Hy&_) Hl] [->|Hx]%elem_of_cons; [by eauto|by apply IH].
Qed.

Lemma linked_back_app ts x l y r : linked_back ts x (l ++ y :: r) ↔
  linked_back ts x l ∧ (∃ th, ts !! y = Some th ∧ m_prev th = Some (default x (last l))) ∧ linked_back ts y r.
Proof.
  revert x. induction l as [|z l IH]; intros x; cbn [app linked_back]; [cbn; tauto|]. rewrite IH.
  replace (default x (last (z :: l))) with (default z (last l)) by (rewrite last_cons; by destruct (last l)). tauto.
Qed.

Lemma queue_length s l : queue_of s l → (length l ≤ size (threads s))%nat.
Proof.
  intros Hq. rewrite <-(size_dom (threads s)), <-(size_list_to_set (C := gset Z) l) by apply (qo_nodup _ _ Hq).
  apply subseteq_size. intros x Hx%elem_of_list_to_set. apply elem_of_dom. by eapply linked_dom; [apply (qo_next _ _ Hq)|].
Qed.

Lemma enqueue_spec fuel s x r t tht : linked (threads s) (x :: r) None → threads s !! t = Some tht → (length r < fuel)%nat →
  (t ∈ x :: r ∧ enqueue_thread fuel s x t = Done s) ∨
  ((t ∉ x :: r) ∧ ∃ z thz, last (x :: r) = Some z ∧ threads s !! z = Some thz ∧
    enqueue_thread fuel s x t = Done (with_threads s (<[t := set_prev (Some z) tht]> (<[z := set_next (Some t) thz]> (threads s))))).
Proof.
  revert x r. induction fuel as [|fuel IH]; intros x r Hl Ht Hf; [lia|]. cbn [enqueue_thread].
  destruct (Z.eqb_spec t x) as [->|Hne]; [left; split; [by left|done]|]. destruct Hl as [(th&Hx&Hn) Hl].
  rewrite (the_Done _ _ _ Hx). cbn [mbind outcome_bind]. rewrite Hn. destruct r as [|y r]; cbn [first].
  - right. split; [by intros [?|?%elem_of_nil]%elem_of_cons|]. exists x, th. split_and!; [done|done|].
    rewrite (change_Done _ _ _ _ Hx). cbn [mbind outcome_bind]. erewrite change_Done; [done|]. cbn. by rewrite lookup_insert_ne.
  - destruct (IH y r Hl Ht) as [[Hin E]|(Hin&z&thz&Hz&Hthz&E)]; [cbn in Hf; lia| |].
    + left. split; [by right|done].
    + right. split; [by intros [?|?]%elem_of_cons|]. exists z, thz. split_and!; [|done|done]. by rewrite last_cons, Hz.
Qed.

Lemma queue_append s l z thz t tht : queue_of s (l ++ [z]) → threads s !! z = Some thz → threads s !! t = Some tht → (t ∉ l ++ [z]) →
  t ≠ kidle s → queue_of (with_threads s (<[t := set_prev (Some z) tht]> (<[z := set_next (Some t) thz]> (threads s)))) (l ++ [z; t]).
Proof.
  intros Hq Hz Ht Hni Hid. assert (t ≠ z) as Htz by (intros ->; apply Hni, elem_of_app; right; by left).
  assert (t ∉ l) as Htl by (intros ?; apply Hni, elem_of_app; by left).
  destruct Hq as [Hh Hnd Hnext Hprev Hoth Hidle]. pose proof (Hoth _ _ Ht Hni) as Htn.
  apply linked_app in Hnext as [Hnl _]. pose proof Hnd as (_&Hzl&_)%NoDup_app.
  assert (z ∉ l) as Hzl' by (intros ?; by apply (Hzl z); [|left]). split; cbn.
  - rewrite Hh. by destruct l.
  - replace (l ++ [z; t]) with ((l ++ [z]) ++ [t]) by by rewrite <-app_assoc. apply NoDup_app. split_and!; [done| |apply NoDup_singleton].
    intros x Hx ->%list_elem_of_singleton. done.
  - apply linked_app. split; [|cbn; split; [|split; [|done]]].
    + eapply linked_ext; [exact Hnl|]. intros x Hx. by rewrite !lookup_insert_ne by (by intros <-).
    + exists (set_next (Some t) thz). by rewrite lookup_insert_ne, lookup_insert_eq by done.
    + exists (set_prev (Some z) tht). by rewrite lookup_insert_eq.
  - destruct l as [|x l]; cbn in *.
    + split; [|done]. exists (set_prev (Some z) tht). by rewrite lookup_insert_eq.
    + apply linked_back_app in Hprev as (Hb&(th&Hth&Hp)&_). simplify_eq. apply linked_back_app. split_and!.
      * eapply linked_back_ext; [exact Hb|]. intros y Hy. rewrite !lookup_insert_ne; [done|..]; intros <-; [apply Hzl'|apply Htl]; by right.
      * exists (set_next (Some t) th). by rewrite lookup_insert_ne, lookup_insert_eq by done.
      * cbn. split; [|done]. exists (set_prev (Some z) tht). by rewrite lookup_insert_eq.
  - intros x th Hx Hxl. assert (x ≠ z ∧ x ≠ t) as [? ?].
    { split; intros ->; apply Hxl, elem_of_app; right; [by left|right; by left]. }
    rewrite !lookup_insert_ne in Hx by done. apply (Hoth _ _ Hx). intros [?|Hk%list_elem_of_singleton]%elem_of_app; [|done].
    apply Hxl, elem_of_app. by left.
  - intros Hk. replace (l ++ [z; t]) with ((l ++ [z]) ++ [t]) in Hk by by rewrite <-app_assoc.
    by apply elem_of_app in Hk as [?|Hk%list_elem_of_singleton].
Qed.

Lemma queue_pop s x r th : queue_of s (x :: r) → threads s !! x = Some th →
  queue_of (with_next_thread (with_threads s (<[x := set_next None th]> (threads s))) (m_next th)) r.
Proof.
  intros [Hh Hnd Hnext Hprev Hoth Hidle] Hx. apply NoDup_cons in Hnd as [Hxr Hnd]. destruct Hnext as [(th'&?&Hn) Hnext]. simplify_eq.
  split; cbn; [done|done| | | |].
  - eapply linked_ext; [exact Hnext|]. intros y Hy. by rewrite lookup_insert_ne by (by intros <-).
  - destruct r as [|y r]; [done|]. destruct Hprev as [_ Hprev]. eapply linked_back_ext; [exact Hprev|].
    intros z Hz. rewrite lookup_insert_ne; [done|]. intros <-. apply Hxr. by right.
  - intros t tht Ht Htr. destruct (decide (t = x)) as [->|]; simplify_map_eq; [done|].
    apply (Hoth t tht Ht). by intros [?|?]%elem_of_cons.
  - intros ?. apply Hidle. by right.
Qed.

Lemma queue_of_ext s s' l : queue_of s l → g_next_thread s' = g_next_thread s → kidle s' = kidle s →
  (∀ t, (λ th, (m_next th, m_prev th)) <$> threads s' !! t = (λ th, (m_next th, m_prev th)) <$> threads s !! t) → queue_of s' l.
Proof.
  intros [Hh Hnd Hnext Hprev Hoth Hidle] Hg Hk Hl.
  assert (∀ t, m_next <$> threads s' !! t = m_next <$> threads s !! t) as Hl1.
  { intros t. specialize (Hl t). destruct (threads s' !! t), (threads s !! t); cbn in *; congruence. }
  assert (∀ t, m_prev <$> threads s' !! t = m_prev <$> threads s !! t) as Hl2.
  { intros t. specialize (Hl t). destruct (threads s' !! t), (threads s !! t); cbn in *; congruence. }
  split; [congruence|done|by eapply linked_ext| | |congruence].
  - destruct l as [|x r]; [done|]. by eapply linked_back_ext.
  - intros t th Ht Htl. specialize (Hl1 t). rewrite Ht in Hl1. cbn in Hl1. destruct (threads s !! t) as [th'|] eqn:E; [|done].
    injection Hl1 as ->. by apply (Hoth t th').
Qed.
