(* ===== verification/SchedulerInv.v ===== *)
(** * What the scheduler promises

    The invariant of [Scheduler]: the run queue is a list without repetitions, and
    every thread that can run is running, idle, or in it.  From it: preemption
    never fails and always finds a thread that can run, a thread whose blocker is ready
    is woken, and a thread in the queue waits for no more preemptions than there
    are threads before it. *)

From stdpp Require Import base numbers list option gmap relations.
From S2P Require Import Prelude.
From S2P Require Import Scheduler.

Local Open Scope Z_scope.

Implicit Types (l r : list Z) (s : sched) (t x y : Z).

(** ** States *)

Definition state_of s t : option state :=
  th ← threads s !! t; p ← procs s !! _process th;
  Some (if decide (p_state p = ALIVE) then _state th else p_state p).

Definition runnable s t : Prop := state_of s t = Some ALIVE.

#[export] Instance runnable_dec s t : Decision (runnable s t).
Proof. unfold runnable. apply _. Defined.

Lemma thread_state_of s t (st : state) : state_of s t = Some st → thread_state s t = Done st.
Proof.
  unfold state_of, thread_state, the. destruct (threads s !! t) as [th|]; cbn; [|done].
  destruct (procs s !! _process th) as [p|]; cbn; [|done]. by intros [= ->].
Qed.

Record wf s : Prop := {
  w_process t th : threads s !! t = Some th → ∃ p, procs s !! _process th = Some p ∧ t ∈ _tids p ∧ _process th ∈ processes s;
  w_tids pid p t : procs s !! pid = Some p → t ∈ _tids p → ∃ th, threads s !! t = Some th ∧ _process th = pid;
  w_nodup pid p : procs s !! pid = Some p → NoDup (_tids p);
  w_processes pid : pid ∈ processes s → is_Some (procs s !! pid);
  w_listed : NoDup (processes s);
  w_blocked t th : threads s !! t = Some th →
    match _blocker th with Some b => _state th = BLOCKED ∧ is_Some (blockers s !! b) | None => _state th ≠ BLOCKED end;
  w_stopped pid p t th : procs s !! pid = Some p → p_state p = STOPPED → t ∈ _tids p → threads s !! t = Some th → _state th = STOPPED;
  w_cur : is_Some (threads s !! cur_thread s);
  w_idle : runnable s (kidle s);
}.

(** Every thread that can run is running, idle or in the queue, apart from those in [e]. *)
Definition covered s l (e : Z → Prop) : Prop := ∀ t, runnable s t → t = kidle s ∨ t = cur_thread s ∨ t ∈ l ∨ e t.

Definition sched_inv s l : Prop := wf s ∧ queue_of s l ∧ covered s l (λ _, False).

Lemma wf_state s t : wf s → is_Some (threads s !! t) → ∃ st, state_of s t = Some st.
Proof.
  intros Hw [th Ht]. destruct (w_process s Hw t th Ht) as (p&Hp&_). unfold state_of. rewrite Ht. cbn. rewrite Hp. by eexists.
Qed.

Lemma can_be_run_of s t : wf s → is_Some (threads s !! t) → can_be_run s t = Done (bool_decide (runnable s t)).
Proof.
  intros Hw Ht. destruct (wf_state s t Hw Ht) as [x Hx]. unfold can_be_run, runnable. rewrite (thread_state_of _ _ _ Hx). cbn.
  f_equal. apply bool_decide_ext. rewrite Hx. split; congruence.
Qed.

(** ** Changes of links and flags only *)

Definition core (th : thread) : Z * state * option Z := (_process th, _state th, _blocker th).
Definition pcore (p : process) : state * list Z := (p_state p, _tids p).

Record same_core s s' : Prop := {
  sc_threads t : core <$> threads s' !! t = core <$> threads s !! t;
  sc_procs pid : pcore <$> procs s' !! pid = pcore <$> procs s !! pid;
  sc_processes : processes s' = processes s;
  sc_blockers : blockers s' = blockers s;
  sc_idle : kidle s' = kidle s;
}.

#[export] Instance same_core_preorder : PreOrder same_core.
Proof.
  split; [done|]. intros s1 s2 s3 [H1 H2 H3 H4 H5] [K1 K2 K3 K4 K5]. split; [|..]; intros; congruence.
Qed.

Lemma same_core_state s s' t : same_core s s' → state_of s' t = state_of s t.
Proof.
  intros [Ht Hp _ _ _]. unfold state_of. specialize (Ht t). destruct (threads s' !! t) as [th'|], (threads s !! t) as [th|]; cbn in *; try done.
  injection Ht as E1 E2 _. rewrite E1. specialize (Hp (_process th)).
  destruct (procs s' !! _process th) as [p'|], (procs s !! _process th) as [p|]; cbn in *; try done. injection Hp as E3 _. by rewrite E2, E3.
Qed.

Lemma same_core_runnable s s' t : same_core s s' → runnable s' t ↔ runnable s t.
Proof. intros H. unfold runnable. by rewrite (same_core_state _ _ _ H). Qed.

Lemma same_core_thread s s' t th' : same_core s s' → threads s' !! t = Some th' → ∃ th, threads s !! t = Some th ∧ core th' = core th.
Proof.
  intros [Ht _ _ _ _] Hth. specialize (Ht t). rewrite Hth in Ht. cbn in Ht. destruct (threads s !! t) as [th|]; [|done].
  exists th. split; [done|]. by apply (inj Some) in Ht.
Qed.

Lemma same_core_proc s s' pid p' : same_core s s' → procs s' !! pid = Some p' → ∃ p, procs s !! pid = Some p ∧ pcore p' = pcore p.
Proof.
  intros [_ Hp _ _ _] Hpr. specialize (Hp pid). rewrite Hpr in Hp. cbn in Hp. destruct (procs s !! pid) as [p|]; [|done].
  exists p. split; [done|]. by apply (inj Some) in Hp.
Qed.

Lemma same_core_sym s s' : same_core s s' → same_core s' s.
Proof. by intros [? ? ? ? ?]; split. Qed.

Lemma same_core_dom s s' t : same_core s s' → is_Some (threads s' !! t) ↔ is_Some (threads s !! t).
Proof. intros [Ht _ _ _ _]. specialize (Ht t). by rewrite <-(fmap_is_Some core), Ht, fmap_is_Some. Qed.

Lemma same_core_wf s s' : same_core s s' → wf s → is_Some (threads s !! cur_thread s') → wf s'.
Proof.
  intros H Hw Hc. pose proof (same_core_sym _ _ H) as H'. split.
  - intros t th' Ht. destruct (same_core_thread _ _ _ _ H Ht) as (th&Hth&Ec). injection Ec as E1 _ _.
    destruct (w_process _ Hw t th Hth) as (p&Hp&Hin&Hps). destruct (same_core_proc _ _ _ _ H' Hp) as (p'&Hp'&Ep). injection Ep as _ Ep.
    exists p'. rewrite E1, (sc_processes _ _ H). by rewrite <-Ep.
  - intros pid p' t Hp' Hin. destruct (same_core_proc _ _ _ _ H Hp') as (p&Hp&Ep). injection Ep as _ Ep. rewrite Ep in Hin.
    destruct (w_tids _ Hw pid p t Hp Hin) as (th&Hth&E). destruct (same_core_thread _ _ _ _ H' Hth) as (th'&Hth'&Ec). injection Ec as Ec _ _.
    exists th'. split; [done|congruence].
  - intros pid p' Hp'. destruct (same_core_proc _ _ _ _ H Hp') as (p&Hp&Ep). injection Ep as _ ->. by apply (w_nodup _ Hw pid).
  - intros pid Hin. rewrite (sc_processes _ _ H) in Hin. destruct (w_processes _ Hw pid Hin) as [p Hp].
    destruct (same_core_proc _ _ _ _ H' Hp) as (p'&Hp'&_). by eauto.
  - rewrite (sc_processes _ _ H). apply (w_listed _ Hw).
  - intros t th' Ht. destruct (same_core_thread _ _ _ _ H Ht) as (th&Hth&Ec). injection Ec as _ -> ->. rewrite (sc_blockers _ _ H).
    by apply (w_blocked _ Hw t).
  - intros pid p' t th' Hp' Hst Hin Ht. destruct (same_core_proc _ _ _ _ H Hp') as (p&Hp&Ep). injection Ep as Ep1 Ep2.
    destruct (same_core_thread _ _ _ _ H Ht) as (th&Hth&Ec). injection Ec as _ -> _. apply (w_stopped _ Hw pid p t); congruence.
  - by apply (same_core_dom _ _ _ H).
  - rewrite (sc_idle _ _ H). by apply (same_core_runnable _ _ _ H), w_idle.
Qed.

(** Changing the links or flags of one thread, or the head of the queue. *)
Lemma same_core_change s t th f n : threads s !! t = Some th → core (f th) = core th →
  same_core s (with_next_thread (with_threads s (<[t := f th]> (threads s))) n).
Proof.
  intros Ht Hf. split; cbn; try done. intros x. destruct (decide (x = t)) as [->|]; [by rewrite lookup_insert_eq, Ht; cbn; rewrite Hf|by rewrite lookup_insert_ne].
Qed.

(** ** The queue operations *)

(** The queue after [queue_thread]. *)
Definition enqueued s l t : list Z := if decide (t ≠ kidle s ∧ runnable s t ∧ t ∉ l) then l ++ [t] else l.

Lemma enqueued_prefix s l t : l `prefix_of` enqueued s l t.
Proof. unfold enqueued. case_decide; [by apply prefix_app_r|done]. Qed.

Lemma enqueued_in s l t : t ≠ kidle s → runnable s t → t ∈ enqueued s l t.
Proof. intros Hk Hr. unfold enqueued. case_decide as Hd; [apply elem_of_app; right; by left|]. destruct (decide (t ∈ l)); [done|tauto]. Qed.

Lemma queue_thread_spec s l t : wf s → queue_of s l → is_Some (threads s !! t) →
  ∃ s', queue_thread s t = Done s' ∧ same_core s s' ∧ cur_thread s' = cur_thread s ∧ queue_of s' (enqueued s l t).
Proof.
  intros Hw Hq [tht Ht]. destruct (wf_state s t Hw ltac:(by eauto)) as [st Hst]. unfold queue_thread, enqueued.
  destruct (Z.eqb_spec t (kidle s)) as [->|Hk]; [exists s; rewrite decide_False by tauto; done|].
  rewrite (thread_state_of _ _ _ Hst). cbn [mbind outcome_bind]. destruct (decide (st = ALIVE)) as [->|Hna].
  2:{ exists s. rewrite decide_False; [done|]. unfold runnable. rewrite Hst. intros (_&?&_). congruence. }
  rewrite (qo_head _ _ Hq). destruct l as [|x r]; cbn [first].
  - eexists. split; [done|]. split; [|split; [done|]].
    + by split.
    + rewrite decide_True by (split_and!; [done|done|apply not_elem_of_nil]). split; cbn; [done|apply NoDup_singleton| |done| |].
      * split; [|done]. exists tht. split; [done|]. apply (qo_others _ _ Hq _ _ Ht), not_elem_of_nil.
      * intros y th Hy _. apply (qo_others _ _ Hq _ _ Hy), not_elem_of_nil.
      * by intros ?%list_elem_of_singleton.
  - destruct (enqueue_spec (queue_fuel s) s x r t tht) as [[Hin E]|(Hin&z&thz&Hz&Hthz&E)]; [apply (qo_next _ _ Hq)|done| | |].
    + pose proof (queue_length _ _ Hq). unfold queue_fuel. cbn in *. lia.
    + exists s. rewrite decide_False by tauto. done.
    + rewrite E. rewrite decide_True by (split_and!; done). eexists. split; [done|]. apply last_Some in Hz as [l' El].
      rewrite El in Hq, Hin |- *. rewrite <-app_assoc. cbn. split; [|split; [done|by apply queue_append]].
      assert (t ≠ z) by (intros ->; apply Hin, elem_of_app; right; by left). split; cbn; try done. intros y.
      destruct (decide (y = t)) as [->|]; [by rewrite lookup_insert_eq, Ht|]. rewrite lookup_insert_ne by done.
      destruct (decide (y = z)) as [->|]; [by rewrite lookup_insert_eq, Hthz|by rewrite lookup_insert_ne].
Qed.

(** The queue without the threads at its head that cannot run. *)
Fixpoint from_runnable s l : list Z :=
  match l with [] => [] | x :: r => if decide (runnable s x) then x :: r else from_runnable s r end.

Lemma from_runnable_ext s s' l : same_core s s' → from_runnable s' l = from_runnable s l.
Proof.
  intros H. induction l as [|x r IH]; [done|]. cbn. by rewrite (decide_ext _ _ _ _ (same_core_runnable s s' x H)), IH.
Qed.

Lemma next_thread_spec s x r : queue_of s (x :: r) →
  ∃ s' n, next_thread s x = Done (n, s') ∧ same_core s (with_next_thread s' n) ∧ cur_thread s' = cur_thread s ∧ queue_of (with_next_thread s' n) r.
Proof.
  intros Hq. destruct (linked_dom _ _ _ x (qo_next _ _ Hq)) as [th Hth]; [by left|]. unfold next_thread.
  rewrite (the_Done _ _ _ Hth), (change_Done _ _ _ _ Hth). cbn. eexists _, _. split_and!; [done| |done|].
  - by apply same_core_change.
  - by apply queue_pop.
Qed.

Lemma skip_stopped_spec fuel s l : wf s → queue_of s l → (length l < fuel)%nat →
  ∃ s', skip_stopped fuel s = Done s' ∧ same_core s s' ∧ cur_thread s' = cur_thread s ∧ queue_of s' (from_runnable s l).
Proof.
  revert s l. induction fuel as [|fuel IH]; intros s l Hw Hq Hf; [lia|]. cbn [skip_stopped]. rewrite (qo_head _ _ Hq).
  destruct l as [|x r]; cbn [first from_runnable]; [by exists s|].
  rewrite can_be_run_of by (done || by eapply linked_dom; [apply (qo_next _ _ Hq)|left]). cbn [mbind outcome_bind].
  destruct (decide (runnable s x)) as [Hx|Hx]; [rewrite bool_decide_true by done; by exists s|]. rewrite bool_decide_false by done.
  destruct (next_thread_spec s x r Hq) as (s1&n&E&Hs1&Hc1&Hq1). rewrite E. cbn [mbind outcome_bind].
  destruct (IH _ r (same_core_wf _ _ Hs1 Hw ltac:(cbn; rewrite Hc1; apply (w_cur _ Hw))) Hq1) as (s2&E2&Hs2&Hc2&Hq2); [cbn in Hf; lia|].
  exists s2. split_and!; [done|by etrans|cbn in Hc2; congruence|]. by rewrite (from_runnable_ext _ _ _ Hs1) in Hq2.
Qed.

Lemma pick_next_spec s l : wf s → queue_of s l → ∃ t s', pick_next_thread s = Done (t, s') ∧ same_core s s' ∧ cur_thread s' = cur_thread s ∧
  runnable s t ∧
  match from_runnable s l with
  | x :: r => t = x ∧ queue_of s' r
  | [] => (t = cur_thread s ∨ t = kidle s) ∧ (runnable s (cur_thread s) → t = cur_thread s) ∧ queue_of s' []
  end.
Proof.
  intros Hw Hq. unfold pick_next_thread.
  destruct (skip_stopped_spec (queue_fuel s) s l Hw Hq) as (s1&E1&Hs1&Hc1&Hq1).
  { pose proof (queue_length _ _ Hq). unfold queue_fuel. lia. }
  assert (wf s1) as Hw1 by (apply (same_core_wf s); [done|done|rewrite Hc1; apply (w_cur _ Hw)]).
  rewrite E1. cbn [mbind outcome_bind]. rewrite (qo_head _ _ Hq1). destruct (from_runnable s l) as [|x r] eqn:El; cbn [first].
  - rewrite can_be_run_of by (done || apply (w_cur _ Hw1)). cbn [mbind outcome_bind]. rewrite Hc1.
    destruct (decide (runnable s (cur_thread s))) as [Hr|Hr].
    + rewrite bool_decide_true by by apply (same_core_runnable s s1). exists (cur_thread s), s1. by split_and!; auto.
    + rewrite bool_decide_false by by rewrite (same_core_runnable s s1). pose proof (w_idle _ Hw1) as Hi. unfold runnable in Hi.
      rewrite (thread_state_of _ _ _ Hi). cbn. exists (kidle s1), s1. rewrite (sc_idle _ _ Hs1). split_and!; auto; try done.
      by apply w_idle.
  - destruct (next_thread_spec s1 x r Hq1) as (s2&n&E2&Hs2&Hc2&Hq2). rewrite E2. cbn. exists x, (with_next_thread s2 n).
    split_and!; [done|by etrans|cbn; congruence| |done|done].
    clear -El. induction l as [|y l IH]; cbn in El; [done|]. destruct (decide (runnable s y)); [by simplify_eq|by apply IH].
Qed.

Lemma covered_ext s s' l e : same_core s s' → cur_thread s' = cur_thread s → covered s l e → covered s' l e.
Proof.
  intros Hs Hc H t Ht. rewrite (sc_idle _ _ Hs), Hc. apply H. by apply (same_core_runnable s s').
Qed.

(** Queueing a thread covers it. *)
Lemma queue_thread_covers s l t e : wf s → queue_of s l → is_Some (threads s !! t) → covered s l (λ x, x = t ∨ e x) →
  ∃ s' l', queue_thread s t = Done s' ∧ same_core s s' ∧ cur_thread s' = cur_thread s ∧ wf s' ∧ queue_of s' l' ∧ l `prefix_of` l' ∧
    covered s' l' e.
Proof.
  intros Hw Hq Ht Hc. destruct (queue_thread_spec s l t Hw Hq Ht) as (s'&E&Hs&Hcur&Hq'). exists s', (enqueued s l t).
  split_and!; [done|done|done| |done|apply enqueued_prefix|].
  - apply (same_core_wf s); [done|done|rewrite Hcur; apply (w_cur _ Hw)].
  - apply (covered_ext s); [done|done|]. intros x Hx. destruct (Hc x Hx) as [?|[?|[Hin|[->|?]]]]; [tauto|tauto| | |tauto].
    + right; right; left. by eapply elem_of_prefix, enqueued_prefix.
    + destruct (decide (t = kidle s)); [tauto|]. right; right; left. by apply enqueued_in.
Qed.

(** ** Changes of one thread *)

Definition put s t (th : thread) : sched := with_threads s (<[t := th]> (threads s)).

Lemma change_put s t th f : threads s !! t = Some th → change s t f = Done (put s t (f th)).
Proof. apply change_Done. Qed.

Lemma put_put s t th th' : put (put s t th) t th' = put s t th'.
Proof. unfold put, with_threads. cbn. by rewrite insert_insert_eq. Qed.

Lemma put_lookup s t th : threads (put s t th) !! t = Some th.
Proof. apply lookup_insert_eq. Qed.

Lemma put_state s t th th' x : threads s !! t = Some th → _process th' = _process th →
  state_of (put s t th') x = if decide (x = t) then (p ← procs s !! _process th; Some (if decide (p_state p = ALIVE) then _state th' else p_state p))
                             else state_of s x.
Proof.
  intros Ht Hp. unfold state_of, put. cbn. case_decide as Hx; [subst x|by rewrite lookup_insert_ne].
  rewrite lookup_insert_eq. cbn. by rewrite Hp.
Qed.

Lemma put_wf s t th th' : wf s → threads s !! t = Some th → _process th' = _process th →
  match _blocker th' with Some b => _state th' = BLOCKED ∧ is_Some (blockers s !! b) | None => _state th' ≠ BLOCKED end →
  (∀ p, procs s !! _process th = Some p → p_state p = STOPPED → _state th' = STOPPED) → (t = kidle s → _state th' = ALIVE) → wf (put s t th').
Proof.
  intros Hw Ht Hp Hb Hst Hi. split; cbn.
  - intros x thx Hx. destruct (decide (x = t)) as [->|]; simplify_map_eq; [rewrite Hp|]; by apply (w_process _ Hw).
  - intros pid p x Hpr Hin. destruct (w_tids _ Hw pid p x Hpr Hin) as (thx&Hx&E).
    destruct (decide (x = t)) as [->|]; simplify_map_eq; by eauto.
  - apply (w_nodup _ Hw).
  - apply (w_processes _ Hw).
  - apply (w_listed _ Hw).
  - intros x thx Hx. destruct (decide (x = t)) as [->|]; simplify_map_eq; [done|by apply (w_blocked _ Hw x)].
  - intros pid p x thx Hpr Hs Hin Hx. destruct (decide (x = t)) as [->|]; simplify_map_eq; [|by apply (w_stopped _ Hw pid p x)].
    destruct (w_tids _ Hw pid p t Hpr Hin) as (?&?&<-). simplify_eq. by apply (Hst p).
  - destruct (decide (cur_thread s = t)) as [->|]; simplify_map_eq; [done|apply (w_cur _ Hw)].
  - pose proof (w_idle _ Hw) as Hidle. unfold runnable in *. cbn. rewrite (put_state s t th) by done. case_decide as E; [|done].
    specialize (Hi (eq_sym E)). rewrite E in Hidle. unfold state_of in Hidle. rewrite Ht in Hidle. cbn in Hidle.
    destruct (procs s !! _process th) as [p|]; [|done]. cbn in *. destruct (decide (p_state p = ALIVE)); [by rewrite Hi|done].
Qed.

Lemma put_queue s t th th' l : queue_of s l → threads s !! t = Some th → m_next th' = m_next th → m_prev th' = m_prev th → queue_of (put s t th') l.
Proof.
  intros Hq Ht Hn Hp. apply (queue_of_ext s); [done|done|done|]. intros x. cbn.
  destruct (decide (x = t)) as [->|]; [rewrite lookup_insert_eq, Ht; cbn; by rewrite Hn, Hp|by rewrite lookup_insert_ne].
Qed.

Lemma put_covered s t th th' l e : threads s !! t = Some th → _process th' = _process th → covered s l e →
  covered (put s t th') l (λ x, x = t ∨ e x).
Proof.
  intros Ht Hp Hc x Hx. unfold runnable in Hx. rewrite (put_state s t th) in Hx by done. case_decide; [tauto|].
  destruct (Hc x Hx) as [?|[?|[?|?]]]; tauto.
Qed.

(** A thread that stops running leaves nothing to cover. *)
Lemma put_covered_stops s t th th' l e : threads s !! t = Some th → _process th' = _process th → _state th' ≠ ALIVE → covered s l e →
  covered (put s t th') l e.
Proof.
  intros Ht Hp Hn Hc x Hx. unfold runnable in Hx. rewrite (put_state s t th) in Hx by done. case_decide; [|by apply Hc].
  destruct (procs s !! _process th) as [p|]; [|done]. cbn in Hx. injection Hx as Hx. destruct (decide (p_state p = ALIVE)); congruence.
Qed.

(** ** Waking threads *)

Definition ready s (th : thread) : Prop :=
  ∃ b bl, _blocker th = Some b ∧ blockers s !! b = Some bl ∧ is_ready bl || _interrupted bl = true.

(** From [s] to [s'] threads have been woken, and nothing else happened to states. *)
Record woken s s' : Prop := {
  wk_cur : cur_thread s' = cur_thread s;
  wk_idle : kidle s' = kidle s;
  wk_procs pid : pcore <$> procs s' !! pid = pcore <$> procs s !! pid;
  wk_processes : processes s' = processes s;
  wk_blockers : blockers s' = blockers s;
  wk_threads t th : threads s !! t = Some th → ∃ th', threads s' !! t = Some th' ∧ _process th' = _process th ∧
    (core th' = core th ∨ (_state th = BLOCKED ∧ _state th' = ALIVE ∧ _blocker th' = None));
}.

#[export] Instance woken_preorder : PreOrder woken.
Proof.
  split.
  - intros s. split; try done. intros t th Ht. exists th. auto.
  - intros s1 s2 s3 [H1 H2 H3 H4 H5 H6] [K1 K2 K3 K4 K5 K6]. split; [congruence|congruence|intros; congruence|congruence|congruence|].
    intros t th Ht. destruct (H6 t th Ht) as (th2&Ht2&Ep2&Hc2). destruct (K6 t th2 Ht2) as (th3&Ht3&Ep3&Hc3).
    exists th3. split_and!; [done|congruence|]. unfold core in *. destruct Hc2 as [Hc2|(?&?&?)], Hc3 as [Hc3|(?&?&?)].
    + left. congruence.
    + right. injection Hc2 as _ E _. split_and!; congruence.
    + right. injection Hc3 as _ E1 E2. split_and!; congruence.
    + congruence.
Qed.

Lemma same_core_woken s s' : same_core s s' → cur_thread s' = cur_thread s → woken s s'.
Proof.
  intros Hs Hc. split; [done|apply Hs..|]. intros t th Ht. destruct (same_core_thread s' s t th (same_core_sym _ _ Hs) Ht) as (th'&Ht'&E).
  exists th'. injection E as E1 E2 E3. split_and!; [done|done|left]. unfold core. congruence.
Qed.

Lemma unblock_spec s l t th : sched_inv s l → threads s !! t = Some th → is_Some (_blocker th) →
  ∃ s' l', unblock s t = Done s' ∧ sched_inv s' l' ∧ l `prefix_of` l' ∧ woken s s' ∧
    ∃ th', threads s' !! t = Some th' ∧ _state th' = ALIVE.
Proof.
  intros (Hw&Hq&Hc) Ht [b Hb]. pose proof (w_blocked _ Hw t th Ht) as Hbl. rewrite Hb in Hbl. destruct Hbl as [Hst _].
  unfold unblock. rewrite (the_Done _ _ _ Ht). cbn [mbind outcome_bind]. rewrite Hb, (change_put _ _ _ _ Ht). cbn [mbind outcome_bind].
  rewrite decide_True by done. rewrite (change_put _ _ _ _ (put_lookup _ _ _)), put_put. cbn [mbind outcome_bind].
  set (th1 := set_state ALIVE (set_blocker None th)).
  destruct (queue_thread_covers (put s t th1) l t (λ _, False)) as (s'&l'&E&Hs'&Hc'&Hw'&Hq'&Hp'&Hcv').
  - apply (put_wf s t th); try done. intros p Hp Hps. destruct (w_process _ Hw t th Ht) as (p0&?&Hin&_). simplify_eq.
    pose proof (w_stopped _ Hw _ _ t th Hp Hps Hin Ht). congruence.
  - by apply (put_queue s t th).
  - cbn. by rewrite lookup_insert_eq.
  - by apply (put_covered s t th).
  - exists s', l'. rewrite E. split_and!; [done|by split_and!|done| |].
    + etrans; [|by apply same_core_woken]. split; try done. intros x thx Hx. cbn. destruct (decide (x = t)) as [->|Hne].
      * rewrite lookup_insert_eq. simplify_eq. exists th1. split_and!; [done|done|right]. by split_and!.
      * rewrite lookup_insert_ne by done. exists thx. auto.
    + destruct (same_core_thread s' (put s t th1) t th1 (same_core_sym _ _ Hs')) as (th'&Ht'&Ec); [cbn; by rewrite lookup_insert_eq|].
      exists th'. split; [done|]. injection Ec as _ Ec _. done.
Qed.

Lemma woken_alive s s' t th : woken s s' → threads s !! t = Some th → _state th = ALIVE →
  ∃ th', threads s' !! t = Some th' ∧ _process th' = _process th ∧ _state th' = ALIVE.
Proof.
  intros Hk Ht Hst. destruct (wk_threads _ _ Hk t th Ht) as (th'&Ht'&Ep&[Ec|(?&?&_)]); exists th'; [|congruence].
  injection Ec as _ Ec _. split_and!; congruence.
Qed.

Lemma woken_dom s s' t : woken s s' → is_Some (threads s !! t) → is_Some (threads s' !! t).
Proof. intros Hk [th Ht]. destruct (wk_threads _ _ Hk t th Ht) as (th'&Ht'&_). by eauto. Qed.

(** A thread that can be woken is awake in [s']. *)
Definition wakes s s' t : Prop := ∀ th p, threads s !! t = Some th → procs s !! _process th = Some p → p_state p = ALIVE → ready s th →
  ∃ th', threads s' !! t = Some th' ∧ _process th' = _process th ∧ _state th' = ALIVE.

Lemma wakes_trans_l s s1 s' t : woken s s1 → wakes s1 s' t → woken s1 s' → wakes s s' t.
Proof.
  intros Hk Hw Hk' th p Ht Hp Hal (b&bl&Hb&Hbl&Hr). destruct (wk_threads _ _ Hk t th Ht) as (th1&Ht1&Ep&[Ec|(?&Hst&_)]).
  - injection Ec as _ _ Ec. pose proof (wk_procs _ _ Hk (_process th)) as Hpr. rewrite Hp in Hpr. cbn in Hpr.
    destruct (procs s1 !! _process th) as [p1|] eqn:Ep1; [|done]. injection Hpr as Epp _.
    destruct (Hw th1 p1 Ht1) as (th'&?&?&?); [congruence|congruence| |exists th'; split_and!; congruence].
    exists b, bl. rewrite (wk_blockers _ _ Hk). split_and!; congruence.
  - destruct (woken_alive s1 s' t th1 Hk' Ht1 Hst) as (th'&?&?&?). exists th'. split_and!; congruence.
Qed.

Lemma wakes_trans_r s s1 s' t : wakes s s1 t → woken s1 s' → wakes s s' t.
Proof.
  intros Hw Hk th p Ht Hp Hal Hr. destruct (Hw th p Ht Hp Hal Hr) as (th1&Ht1&Ep&Hst).
  destruct (woken_alive s1 s' t th1 Hk Ht1 Hst) as (th'&?&?&?). exists th'. split_and!; congruence.
Qed.

Lemma unblock_threads_spec tids s l : sched_inv s l → (∀ t, t ∈ tids → is_Some (threads s !! t)) →
  ∃ s' l', unblock_threads s tids = Done s' ∧ sched_inv s' l' ∧ l `prefix_of` l' ∧ woken s s' ∧ ∀ t, t ∈ tids → wakes s s' t.
Proof.
  revert s l. induction tids as [|t tids IH]; intros s l Hi Hd.
  { exists s, l. split_and!; [done|done|done|done|]. by intros t ?%elem_of_nil. }
  cbn [unblock_threads]. pose proof Hi as (Hw&Hq&Hc). destruct (Hd t ltac:(by left)) as [th Ht]. unfold get_thread. rewrite Ht.
  destruct (wf_state s t Hw ltac:(by eauto)) as [st Hst]. rewrite (thread_state_of _ _ _ Hst). cbn [mbind outcome_bind].
  assert (∃ s1 l1, (if decide (st = BLOCKED) then r ← should_unblock s t; if (r : bool) then unblock s t else Done s else Done s) = Done s1 ∧
    sched_inv s1 l1 ∧ l `prefix_of` l1 ∧ woken s s1 ∧ wakes s s1 t) as (s1&l1&E1&Hi1&Hp1&Hk1&Hwk1).
  { unfold state_of in Hst. rewrite Ht in Hst. cbn in Hst. destruct (procs s !! _process th) as [p|] eqn:Ep; [|done]. cbn in Hst.
    injection Hst as Hst. pose proof (w_blocked _ Hw t th Ht) as Hbl. destruct (decide (st = BLOCKED)) as [->|Hnb].
    - unfold should_unblock. rewrite (the_Done _ _ _ Ht). cbn [mbind outcome_bind].
      destruct (_blocker th) as [b|] eqn:Eb; [destruct Hbl as [_ [bl Hb]]|].
      + rewrite (the_Done _ _ _ Hb). cbn [mbind outcome_bind]. destruct (is_ready bl || _interrupted bl) eqn:Er.
        * destruct (unblock_spec s l t th Hi Ht) as (s1&l1&?&?&?&Hk&th'&Ht'&Hal); [by rewrite Eb|]. exists s1, l1. split_and!; try done.
          intros th0 p0 Ht0 _ _ _. simplify_eq. exists th'. destruct (wk_threads _ _ Hk t _ Ht) as (th2&?&?&_). by simplify_eq.
        * exists s, l. split_and!; try done. intros th0 p0 Ht0 _ _ (b0&bl0&?&?&?). simplify_eq. congruence.
      + exists s, l. split_and!; try done. intros th0 p0 Ht0 _ _ (b0&bl0&?&?&?). simplify_eq.
    - exists s, l. split_and!; try done. intros th0 p0 Ht0 Hp0 Hal (b0&bl0&Hb0&_). simplify_eq. rewrite Hb0 in Hbl.
      destruct Hbl as [Hbl _]. rewrite decide_True in Hnb by done. done. }
  rewrite E1. cbn [mbind outcome_bind]. destruct (IH s1 l1 Hi1) as (s2&l2&E2&Hi2&Hp2&Hk2&Hwk2).
  { intros x Hx. eapply woken_dom; [done|]. apply Hd. by right. }
  exists s2, l2. split_and!; [done|done|by etrans|by etrans|]. intros x [->|Hx]%elem_of_cons; [by eapply wakes_trans_r|].
  eapply wakes_trans_l; [done| |done]. by apply Hwk2.
Qed.

Lemma unblock_processes_spec ps s l : sched_inv s l → (∀ pid, pid ∈ ps → is_Some (procs s !! pid)) →
  ∃ s' l', unblock_processes s ps = Done s' ∧ sched_inv s' l' ∧ l `prefix_of` l' ∧ woken s s' ∧
    ∀ t pid p, pid ∈ ps → procs s !! pid = Some p → t ∈ _tids p → wakes s s' t.
Proof.
  revert s l. induction ps as [|pid ps IH]; intros s l Hi Hd.
  { exists s, l. split_and!; [done|done|done|done|]. by intros t pid p ?%elem_of_nil. }
  cbn [unblock_processes]. pose proof Hi as (Hw&Hq&Hc). destruct (Hd pid ltac:(by left)) as [p Hp]. rewrite (the_Done _ _ _ Hp).
  cbn [mbind outcome_bind].
  assert (∃ s1 l1, (if decide (p_state p = ALIVE ∨ p_state p = STOPPED) then unblock_threads s (_tids p) else Done s) = Done s1 ∧
    sched_inv s1 l1 ∧ l `prefix_of` l1 ∧ woken s s1 ∧ ∀ t, t ∈ _tids p → wakes s s1 t) as (s1&l1&E1&Hi1&Hp1&Hk1&Hwk1).
  { case_decide as Hdec.
    - apply unblock_threads_spec; [done|]. intros t Hin. destruct (w_tids _ Hw pid p t Hp Hin) as (th&?&_). by eauto.
    - exists s, l. split_and!; try done. intros t Hin th p0 Ht Hp0 Hal _. destruct (w_tids _ Hw pid p t Hp Hin) as (th0&?&E). simplify_eq. tauto. }
  rewrite E1. cbn [mbind outcome_bind]. destruct (IH s1 l1 Hi1) as (s2&l2&E2&Hi2&Hp2&Hk2&Hwk2).
  { intros q Hqin. destruct (Hd q ltac:(by right)) as [pq Hpq]. pose proof (wk_procs _ _ Hk1 q) as Hpr. rewrite Hpq in Hpr.
    destruct (procs s1 !! q); [by eauto|done]. }
  exists s2, l2. split_and!; [done|done|by etrans|by etrans|]. intros t q pq [->|Hx]%elem_of_cons Hpq Hin.
  - simplify_eq. eapply wakes_trans_r; [by apply Hwk1|done].
  - pose proof (wk_procs _ _ Hk1 q) as Hpr. rewrite Hpq in Hpr. cbn in Hpr. destruct (procs s1 !! q) as [pq1|] eqn:Eq1; [|done].
    injection Hpr as _ Et. eapply wakes_trans_l; [done| |done]. apply (Hwk2 t q pq1); [done|done|congruence].
Qed.

(** ** Preemption *)

(** A change of flags keeps the states and the queue. *)
Definition only_flags s s' : Prop := same_core s s' ∧ cur_thread s' = cur_thread s ∧ ∀ l, queue_of s l → queue_of s' l.

Lemma change_signal_spec s t i rd j : is_Some (threads s !! t) → ∃ s', change s t (set_signal i rd j) = Done s' ∧ only_flags s s'.
Proof.
  intros [th Ht]. rewrite (change_Done _ _ _ _ Ht). eexists. split; [done|]. split_and!; [|done|].
  - split; cbn; try done. intros x. destruct (decide (x = t)) as [->|]; [by rewrite lookup_insert_eq, Ht|by rewrite lookup_insert_ne].
  - intros l Hq. by apply (put_queue s t th).
Qed.

Lemma only_flags_trans s s1 s' : only_flags s s1 → only_flags s1 s' → only_flags s s'.
Proof. intros (?&?&?) (?&?&?). split_and!; [by etrans|congruence|auto]. Qed.

Lemma switch_signals_spec s old next : is_Some (threads s !! old) → is_Some (threads s !! next) →
  ∃ b s', switch_signals s old next = Done (b, s') ∧ only_flags s s' ∧ (old ≠ next → b = true).
Proof.
  intros Ho Hn. pose proof Ho as [tho Hto]. unfold switch_signals. rewrite (the_Done _ _ _ Hto). cbn [mbind outcome_bind].
  assert (∃ b s1, (if _just_finished_signal tho
             then s ← change s old (set_signal false (_ready_to_handle_signal tho) false); Done (true, s)
             else Done (negb (old =? next), s)) = Done (b, s1) ∧ only_flags s s1 ∧ (old ≠ next → b = true)) as (b&s1&E1&Hf1&Hb).
  { destruct (_just_finished_signal tho).
    - destruct (change_signal_spec s old false (_ready_to_handle_signal tho) false Ho) as (s1&E&Hf). rewrite E. by exists true, s1.
    - exists (negb (old =? next)), s. split; [done|split; [by split_and!|]]. intros Hne. by rewrite (proj2 (Z.eqb_neq _ _)). }
  rewrite E1. cbn [mbind outcome_bind]. destruct Hf1 as (Hs1&?&?). apply (same_core_dom _ _ _ Hs1) in Hn as Hn1. pose proof Hn1 as [thn Htn].
  rewrite (the_Done _ _ _ Htn). cbn [mbind outcome_bind]. destruct (_ready_to_handle_signal thn).
  - destruct (change_signal_spec s1 next true false (_just_finished_signal thn) Hn1) as (s2&E&Hf). rewrite E. exists true, s2.
    split; [done|split; [|done]]. by apply (only_flags_trans s s1).
  - by exists b, s1.
Qed.

Lemma set_last_active_spec s t : wf s → is_Some (threads s !! t) → ∃ s', set_last_active s t = Done s' ∧ only_flags s s'.
Proof.
  intros Hw [th Ht]. destruct (w_process _ Hw t th Ht) as (p&Hp&_). unfold set_last_active. rewrite (the_Done _ _ _ Ht). cbn [mbind outcome_bind].
  rewrite (the_Done _ _ _ Hp). cbn [mbind outcome_bind]. eexists. split; [done|]. split_and!; [|done|].
  - split; cbn; try done. intros pid. destruct (decide (pid = _process th)) as [->|]; [by rewrite lookup_insert_eq, Hp|by rewrite lookup_insert_ne].
  - intros l Hq. by apply (queue_of_ext s).
Qed.

(** The end of [preempt]: the old thread goes to the end of the queue, unless it is idle or cannot run. *)
Lemma requeue_spec s l old next : wf s → queue_of s l → cur_thread s = old → runnable s next → covered s l (λ x, x = next) →
  ∃ s' l', (r ← can_be_run s old; s ← (if negb (old =? kidle s) && r then queue_thread s old else Done s); Done (with_cur_thread s next)) = Done s' ∧
    sched_inv s' l' ∧ l `prefix_of` l' ∧ same_core s s' ∧ cur_thread s' = next.
Proof.
  intros Hw Hq Hcur Hn Hc. assert (is_Some (threads s !! old)) as Ho by (rewrite <-Hcur; apply (w_cur _ Hw)).
  assert (is_Some (threads s !! next)) as Hnd by (unfold runnable, state_of in Hn; destruct (threads s !! next); [by eauto|done]).
  rewrite can_be_run_of by done. cbn [mbind outcome_bind].
  assert (∃ s1 l1, (if negb (old =? kidle s) && bool_decide (runnable s old) then queue_thread s old else Done s) = Done s1 ∧
    same_core s s1 ∧ cur_thread s1 = old ∧ queue_of s1 l1 ∧ l `prefix_of` l1 ∧
    (∀ t, runnable s1 t → t = kidle s1 ∨ t ∈ l1 ∨ t = next)) as (s1&l1&E1&Hs1&Hc1&Hq1&Hp1&Hcov1).
  { destruct (Z.eqb_spec old (kidle s)) as [Hk|Hk]; cbn.
    - exists s, l. split_and!; try done. intros t Ht. destruct (Hc t Ht) as [?|[->|[?|?]]]; [tauto|left; congruence|tauto|tauto].
    - destruct (bool_decide_reflect (runnable s old)) as [Hr|Hr]; cbn.
      + destruct (queue_thread_spec s l old Hw Hq Ho) as (s1&E&Hs&Hcs&Hqs). exists s1, (enqueued s l old).
        split_and!; [done|done|congruence|done|apply enqueued_prefix|]. intros t Ht. apply (same_core_runnable s s1) in Ht; [|done].
        rewrite (sc_idle _ _ Hs). destruct (Hc t Ht) as [?|[->|[Hin|?]]]; [tauto| | |tauto]; right; left.
        * rewrite Hcur. by apply enqueued_in.
        * by eapply elem_of_prefix, enqueued_prefix.
      + exists s, l. split_and!; try done. intros t Ht. destruct (Hc t Ht) as [?|[->|[?|?]]]; [tauto|congruence|tauto|tauto]. }
  rewrite E1. cbn. exists (with_cur_thread s1 next), l1. assert (same_core s (with_cur_thread s1 next)) as Hs2 by (by destruct Hs1; split).
  split_and!; [done| |done|done|done]. split_and!.
  - by apply (same_core_wf s).
  - by apply (queue_of_ext s1).
  - intros t Ht. destruct (Hcov1 t Ht) as [?|[?|?]]; cbn; tauto.
Qed.

Lemma woken_runnable s s' t : woken s s' → runnable s t → runnable s' t.
Proof.
  intros Hk Hr. unfold runnable, state_of in *. destruct (threads s !! t) as [th|] eqn:Ht; [|done]. cbn in Hr.
  destruct (procs s !! _process th) as [p|] eqn:Ep; [|done]. cbn in Hr. pose proof (wk_procs _ _ Hk (_process th)) as Hpr. rewrite Ep in Hpr.
  cbn in Hpr. destruct (procs s' !! _process th) as [p'|] eqn:Ep'; [|done]. injection Hpr as Es _.
  destruct (decide (p_state p = ALIVE)) as [Hal|Hal]; [|congruence]. injection Hr as Hr.
  destruct (woken_alive s s' t th Hk Ht Hr) as (th'&->&E&Hst). cbn. rewrite E, Ep'. cbn. rewrite decide_True by congruence. congruence.
Qed.

Lemma wakes_runnable s s' t th p : wakes s s' t → woken s s' → threads s !! t = Some th → procs s !! _process th = Some p →
  p_state p = ALIVE → ready s th → runnable s' t.
Proof.
  intros Hw Hk Ht Hp Hal Hr. destruct (Hw th p Ht Hp Hal Hr) as (th'&Ht'&E&Hst). unfold runnable, state_of. rewrite Ht'. cbn. rewrite E.
  pose proof (wk_procs _ _ Hk (_process th)) as Hpr. rewrite Hp in Hpr. cbn in Hpr.
  destruct (procs s' !! _process th) as [p'|]; [|done]. injection Hpr as Es _. cbn. rewrite decide_True by congruence. congruence.
Qed.

(** A thread that can run stays when those before it are dropped. *)
Lemma from_runnable_split s l1 t l2 : runnable s t → ∃ l1', from_runnable s (l1 ++ t :: l2) = l1' ++ t :: l2 ∧ (length l1' ≤ length l1)%nat.
Proof.
  intros Ht. induction l1 as [|x l1 (l1'&E&Hl)]; cbn.
  - exists []. by rewrite decide_True.
  - destruct (decide (runnable s x)); [by exists (x :: l1)|]. exists l1'. split; [done|lia].
Qed.

(** Where a waiting thread is after a preemption: running, or nearer to the head of the queue. *)
Definition advances s l s' l' : Prop := ∀ l1 t l2, l = l1 ++ t :: l2 → runnable s t →
  cur_thread s' = t ∨ ∃ l1' l2', l' = l1' ++ t :: l2' ∧ (length l1' < length l1)%nat.

(** The part of [preempt] after the threads have been woken. *)
Lemma switch_spec s l : sched_inv s l →
  ∃ s' l', ('(next, s1) ← pick_next_thread s;
    '(should_preempt, s1) ← switch_signals s1 (cur_thread s) next;
    s1 ← (if (should_preempt : bool) then set_last_active s1 next else Done s1);
    r ← can_be_run s1 next;
    '(next, should_preempt) ← (if (r : bool) then Done (next, should_preempt)
                               else
                                 r ← can_be_run s1 (kidle s1);
                                 if (r : bool) then Done (kidle s1, negb (cur_thread s =? kidle s1)) else Panic);
    if (should_preempt : bool) then
      r ← can_be_run s1 (cur_thread s);
      s1 ← (if negb (cur_thread s =? kidle s1) && r then queue_thread s1 (cur_thread s) else Done s1);
      Done (with_cur_thread s1 next)
    else Done s1) = Done s' ∧ sched_inv s' l' ∧ same_core s s' ∧ runnable s' (cur_thread s') ∧ advances s l s' l'.
Proof.
  intros (Hw&Hq&Hc). destruct (pick_next_spec s l Hw Hq) as (next&s1&E1&Hs1&Hc1&Hrn&Hl). rewrite E1. cbn [mbind outcome_bind].
  assert (∃ r, queue_of s1 r ∧ covered s1 r (λ x, x = next) ∧
    ∀ l1 t l2, l = l1 ++ t :: l2 → runnable s t → next = t ∨ ∃ l1' l2', r = l1' ++ t :: l2' ∧ (length l1' < length l1)%nat)
    as (r&Hq1&Hcov1&Hadv1).
  { assert (∀ y, y ∈ l → runnable s y → y ∈ from_runnable s l) as Hfr.
    { intros y (l1&l2&->)%list_elem_of_split Hy. destruct (from_runnable_split s l1 y l2 Hy) as (l1'&->&_). apply elem_of_app. right. by left. }
    destruct (from_runnable s l) as [|x r] eqn:El.
    - destruct Hl as (Hor&Hcur&Hq1). exists []. split_and!; [done| |].
      + apply (covered_ext s); [done|done|]. intros t Ht. destruct (Hc t Ht) as [?|[?|[Hin|[]]]]; [tauto|tauto|].
        by apply Hfr, elem_of_nil in Hin.
      + intros l1 t l2 -> Ht. destruct (from_runnable_split s l1 t l2 Ht) as (l1'&E&_). rewrite E in El. by destruct l1'.
    - destruct Hl as [-> Hq1]. exists r. split_and!; [done| |].
      + apply (covered_ext s); [done|done|]. intros t Ht. destruct (Hc t Ht) as [?|[?|[Hin|[]]]]; [tauto|tauto|].
        apply Hfr in Hin; [|done]. apply elem_of_cons in Hin. tauto.
      + intros l1 t l2 -> Ht. destruct (from_runnable_split s l1 t l2 Ht) as (l1'&E&Hlen). rewrite E in El.
        destruct l1' as [|y l1']; cbn in El; [left; congruence|right]. injection El as -> <-. exists l1', l2. split; [done|cbn in Hlen; lia]. }
  assert (wf s1) as Hw1 by (apply (same_core_wf s); [done|done|rewrite Hc1; apply (w_cur _ Hw)]).
  assert (runnable s1 next) as Hrn1 by by apply (same_core_runnable s s1).
  assert (is_Some (threads s1 !! next)) as Hnd by (unfold runnable, state_of in Hrn1; destruct (threads s1 !! next); [by eauto|done]).
  destruct (switch_signals_spec s1 (cur_thread s) next) as (b&s2&E2&(Hs2&Hc2&Hq2)&Hb); [rewrite <-Hc1; apply (w_cur _ Hw1)|done|].
  rewrite E2. cbn [mbind outcome_bind]. assert (wf s2) as Hw2 by (apply (same_core_wf s1); [done|done|rewrite Hc2; apply (w_cur _ Hw1)]).
  assert (∃ s3, (if b then set_last_active s2 next else Done s2) = Done s3 ∧ only_flags s2 s3) as (s3&E3&(Hs3&Hc3&Hq3)).
  { destruct b; [|by exists s2]. apply set_last_active_spec; [done|by apply (same_core_dom s1 s2)]. }
  rewrite E3. cbn [mbind outcome_bind]. assert (wf s3) as Hw3 by (apply (same_core_wf s2); [done|done|rewrite Hc3; apply (w_cur _ Hw2)]).
  assert (same_core s1 s3) as Hs13 by by etrans. assert (cur_thread s3 = cur_thread s) as Hc3' by congruence.
  assert (runnable s3 next) as Hrn3 by by apply (same_core_runnable s1 s3). assert (covered s3 r (λ x, x = next)) as Hcov3.
  { apply (covered_ext s1); [done|congruence|done]. }
  rewrite (can_be_run_of s3 next) by (done || by apply (same_core_dom s1 s3)). rewrite bool_decide_true by done. cbn [mbind outcome_bind].
  destruct b.
  - destruct (requeue_spec s3 r (cur_thread s) next) as (s'&l'&E&Hi&Hp&Hs&Hcur); [done|by auto|done|done|done|]. cbn zeta in E. rewrite E.
    exists s', l'. split; [done|]. split; [done|]. split; [by do 2 (etrans; [done|])|]. split; [rewrite Hcur; by apply (same_core_runnable s3)|].
    intros l1 t l2 El Ht. rewrite Hcur. destruct (Hadv1 l1 t l2 El Ht) as [?|(l1'&l2'&->&Hlen)]; [by left|right].
    destruct Hp as [l3 ->]. exists l1', (l2' ++ l3). rewrite <-app_assoc. done.
  - assert (next = cur_thread s) as -> by (destruct (decide (next = cur_thread s)) as [?|Hne]; [done|]; by specialize (Hb (not_eq_sym Hne))).
    exists s3, r. split; [done|]. split.
    { split_and!; [done|by auto|]. intros t Ht. destruct (Hcov3 t Ht) as [?|[?|[?|?]]]; [tauto|tauto|tauto|right; left; congruence]. }
    split; [by etrans|]. split; [by rewrite Hc3'|]. intros l1 t l2 El Ht. rewrite Hc3'. by apply (Hadv1 l1 t l2).
Qed.

Lemma preempt_spec s l b : sched_inv s l → ∃ s' l', preempt s b = Done s' ∧ sched_inv s' l' ∧ runnable s' (cur_thread s') ∧
  (∀ t, runnable s t → runnable s' t) ∧ advances s l s' l' ∧
  (b = true → ∀ t th p, threads s !! t = Some th → procs s !! _process th = Some p → p_state p = ALIVE → ready s th → runnable s' t).
Proof.
  intros Hi. unfold preempt.
  assert (∃ s1 l1, (if b then unblock_processes s (processes s) else Done s) = Done s1 ∧ sched_inv s1 l1 ∧ l `prefix_of` l1 ∧ woken s s1 ∧
    (b = true → ∀ t th p, threads s !! t = Some th → procs s !! _process th = Some p → p_state p = ALIVE → ready s th → runnable s1 t))
    as (s1&l1&E1&Hi1&Hp1&Hk1&Hwk1).
  { destruct b; [|by exists s, l]. pose proof Hi as (Hw&_&_).
    destruct (unblock_processes_spec (processes s) s l Hi) as (s1&l1&?&?&?&?&Hwk); [apply (w_processes _ Hw)|]. exists s1, l1.
    split_and!; try done. intros _ t th p Ht Hp Hal Hr. destruct (w_process _ Hw t th Ht) as (p0&Hp0&Hin&Hps). simplify_eq.
    by eapply wakes_runnable; [eapply Hwk|..]. }
  rewrite E1. cbn [mbind outcome_bind]. destruct (switch_spec s1 l1 Hi1) as (s'&l'&E&Hi'&Hs'&Hrun&Hadv). cbn zeta. rewrite E.
  exists s', l'. split_and!; [done|apply Hi'..|done| | |].
  - intros t Ht. apply (same_core_runnable s1 s' t Hs'). by apply (woken_runnable s).
  - intros m1 t m2 -> Ht. destruct Hp1 as [l3 ->]. apply (Hadv m1 t (m2 ++ l3)); [by rewrite <-app_assoc|by apply (woken_runnable s)].
  - intros Hb t th p Ht Hp Hal Hr. apply (same_core_runnable s1 s'); [done|]. by eapply Hwk1.
Qed.
