(* ===== verification/SchedulerSteps.v ===== *)
(** * The scheduler under all operations

    Blocking, interrupting, stopping, continuing, ending and reaping threads keep the
    invariant of [SchedulerInv]; the theorems about every run of the scheduler. *)

From stdpp Require Import base numbers list option gmap relations.
From S2P Require Import Prelude.
From S2P Require Import Scheduler.
From S2P Require Import SchedulerInv.

Local Open Scope Z_scope.

Implicit Types (l r : list Z) (s : sched) (t x y pid : Z).

(** ** Blockers and processes *)

Lemma inv_blockers s l bs : sched_inv s l → (∀ b, is_Some (blockers s !! b) → is_Some (bs !! b)) → sched_inv (with_blockers s bs) l.
Proof.
  intros (Hw&Hq&Hc) Hb. split_and!; [|by apply (queue_of_ext s)|done]. destruct Hw. split; try done.
  intros t th Ht. specialize (w_blocked t th Ht). cbn. destruct (_blocker th); [|done]. destruct w_blocked. split; [done|by apply Hb].
Qed.

Lemma state_of_alive s t th p : threads s !! t = Some th → procs s !! _process th = Some p → runnable s t →
  p_state p = ALIVE ∧ _state th = ALIVE.
Proof.
  intros Ht Hp Hr. unfold runnable, state_of in Hr. rewrite Ht in Hr. cbn in Hr. rewrite Hp in Hr. cbn in Hr. injection Hr as Hr.
  destruct (decide (p_state p = ALIVE)); [done|congruence].
Qed.

(** A process whose threads stay and of which no thread gets to run. *)
Lemma put_proc_inv s l pid p p' : sched_inv s l → procs s !! pid = Some p → _tids p' = _tids p →
  (p_state p' = STOPPED → ∀ t th, t ∈ _tids p → threads s !! t = Some th → _state th = STOPPED) →
  (∀ t th, t ∈ _tids p → threads s !! t = Some th → _state th = ALIVE → p_state p' = ALIVE → p_state p = ALIVE) →
  (kidle s ∈ _tids p → p_state p' = ALIVE) →
  sched_inv (with_procs s (<[pid := p']> (procs s))) l.
Proof.
  intros (Hw&Hq&Hc) Hp Ht Hs Hrun Hidle. set (s' := with_procs s _).
  assert (∀ x, runnable s' x → runnable s x) as Hle.
  { intros x Hx. unfold runnable, state_of in *. cbn in Hx. destruct (threads s !! x) as [th|] eqn:Ex; [|done]. cbn in *.
    destruct (w_process _ Hw x th Ex) as (p0&Hp0&Hin&_). rewrite Hp0. cbn. destruct (decide (_process th = pid)) as [E|E].
    - rewrite E in *. simplify_eq. rewrite lookup_insert_eq in Hx. cbn in Hx. injection Hx as Hx.
      destruct (decide (p_state p' = ALIVE)) as [Ha|]; [|congruence]. rewrite decide_True; [congruence|]. by apply (Hrun x th).
    - rewrite lookup_insert_ne in Hx by done. by rewrite Hp0 in Hx. }
  split_and!; [|by apply (queue_of_ext s)|intros x Hx; by apply Hc, Hle]. split; cbn.
  - intros t th Hth. destruct (w_process _ Hw t th Hth) as (p0&Hp0&Hin&?). destruct (decide (_process th = pid)) as [E|E].
    + rewrite E in *. simplify_eq. exists p'. rewrite lookup_insert_eq, Ht. done.
    + exists p0. by rewrite lookup_insert_ne.
  - intros pid' q t Hq' Hin. destruct (decide (pid' = pid)) as [->|]; simplify_map_eq; [rewrite Ht in Hin|]; by eapply (w_tids _ Hw).
  - intros pid' q Hq'. destruct (decide (pid' = pid)) as [->|]; simplify_map_eq; [rewrite Ht|]; by eapply (w_nodup _ Hw).
  - intros pid' Hin. destruct (w_processes _ Hw pid' Hin) as [q Hq']. destruct (decide (pid' = pid)) as [->|]; simplify_map_eq; by eauto.
  - apply (w_listed _ Hw).
  - apply (w_blocked _ Hw).
  - intros pid' q t th Hq' Hst Hin Hth. destruct (decide (pid' = pid)) as [->|]; simplify_map_eq; [|by eapply (w_stopped _ Hw pid')].
    rewrite Ht in Hin. by apply (Hs Hst t).
  - apply (w_cur _ Hw).
  - pose proof (w_idle _ Hw) as Hi. unfold runnable, state_of in *. cbn. destruct (threads s !! kidle s) as [th|] eqn:Ek; [|done]. cbn in *.
    destruct (w_process _ Hw _ th Ek) as (p0&Hp0&Hin&_). rewrite Hp0 in Hi. cbn in Hi. destruct (decide (_process th = pid)) as [E|E].
    + rewrite E in *. simplify_eq. rewrite lookup_insert_eq. cbn. rewrite decide_True by auto.
      destruct (decide (p_state p = ALIVE)); congruence.
    + by rewrite lookup_insert_ne, Hp0.
Qed.

Lemma inv_same_core s s' l : sched_inv s l → same_core s s' → cur_thread s' = cur_thread s → queue_of s' l → sched_inv s' l.
Proof.
  intros (Hw&Hq&Hc) Hs Hcur Hq'. split_and!; [|done|by apply (covered_ext s)].
  apply (same_core_wf s); [done|done|rewrite Hcur; apply (w_cur _ Hw)].
Qed.

(** ** Blocking and waking *)

Lemma interrupt_spec s l t : sched_inv s l → is_Some (threads s !! t) → ∃ b s' l', interrupt s t = Done (b, s') ∧ sched_inv s' l' ∧
  l `prefix_of` l' ∧ ∀ x, is_Some (threads s !! x) → is_Some (threads s' !! x).
Proof.
  intros Hi [th Ht]. pose proof Hi as (Hw&_&_). unfold interrupt. rewrite (the_Done _ _ _ Ht). cbn [mbind outcome_bind].
  pose proof (w_blocked _ Hw t th Ht) as Hb. destruct (_blocker th) as [b|] eqn:Eb; [|by exists false, s, l].
  destruct Hb as [_ [bl Hbl]]. rewrite (the_Done _ _ _ Hbl). cbn [mbind outcome_bind]. destruct (can_be_interrupted bl); [|by exists false, s, l].
  set (s1 := with_blockers s _). assert (sched_inv s1 l) as Hi1.
  { apply inv_blockers; [done|]. intros b' Hb'. destruct (decide (b' = b)) as [->|]; simplify_map_eq; by eauto. }
  destruct (unblock_spec s1 l t th Hi1 Ht) as (s'&l'&E&Hi'&Hp&Hk&_); [by rewrite Eb|]. rewrite E. exists true, s', l'.
  split_and!; [done|apply Hi'..|done|]. intros x Hx. by apply (woken_dom s1).
Qed.

Lemma block_spec s l b yields s' : sched_inv s l → cur_thread s ≠ kidle s → block s b = Done (yields, s') → sched_inv s' l.
Proof.
  intros Hi Hk. pose proof Hi as (Hw&Hq&Hc). unfold block. destruct (w_cur _ Hw) as [th Ht]. set (t := cur_thread s) in *.
  destruct (wf_state s t Hw ltac:(by eauto)) as [st Hst]. rewrite (thread_state_of _ _ _ Hst). cbn [mbind outcome_bind].
  rewrite (the_Done _ _ _ Ht). cbn [mbind outcome_bind]. destruct (w_process _ Hw t th Ht) as (p&Hp&Hin&_).
  rewrite (the_Done _ _ _ Hp). cbn [mbind outcome_bind]. destruct (decide (st = ALIVE)) as [->|].
  2:{ destruct (_kernel_mode p); [done|by intros [= <- <-]]. }
  destruct (bool_decide_reflect (_blocker th = None)) as [Hb|]; cbn [kassert mbind outcome_bind]; [|done].
  unfold the. destruct (blockers s !! b) as [bl|] eqn:Ebl; cbn [mbind outcome_bind]; [|done].
  destruct (is_ready bl); [by intros [= <- <-]|]. destruct (_ && _).
  - intros [= <- <-]. apply inv_blockers; [done|]. intros b' Hb'. destruct (decide (b' = b)) as [->|]; simplify_map_eq; by eauto.
  - rewrite (change_put _ _ _ _ Ht). cbn [mbind outcome_bind]. rewrite (change_put _ _ _ _ (put_lookup _ _ _)), put_put.
    intros [= <- <-].
    destruct (state_of_alive s t th p Ht Hp Hst) as [Hpa _]. split_and!.
    + apply (put_wf s t th); try done. intros p0 Hp0 Hps. simplify_eq. congruence.
    + by apply (put_queue s t th).
    + by apply (put_covered_stops s t th).
Qed.

(** ** Stopping and continuing *)

Lemma all_stopped_spec s t tids : all_stopped s t tids = Done true →
  ∀ x, x ∈ tids → x ≠ t → is_Some (threads s !! x) → thread_state s x = Done STOPPED.
Proof.
  induction tids as [|y tids IH]; cbn; [by intros _ x ?%elem_of_nil|]. unfold get_thread. destruct (threads s !! y) eqn:Ey.
  2:{ intros H x [->|Hx]%elem_of_cons Hxt [? Hs]; [congruence|by apply IH]. }
  destruct (thread_state s y) as [st| | |] eqn:E; cbn; try done.
  destruct (Z.eqb_spec y t) as [->|Hne]; cbn.
  - intros H x [->|Hx]%elem_of_cons Hxt ?; [done|by apply IH].
  - destruct (bool_decide_reflect (st = STOPPED)) as [->|]; cbn; [|done]. intros H x [->|Hx]%elem_of_cons Hxt ?; [done|by apply IH].
Qed.

Lemma state_of_thread s t (st : state) : thread_state s t = Done st → state_of s t = Some st.
Proof.
  unfold state_of, thread_state, the. destruct (threads s !! t) as [th|]; cbn; [|done].
  destruct (procs s !! _process th) as [p|]; cbn; [|done]. by intros [= ->].
Qed.

Lemma stop_self_spec s l s' : sched_inv s l → runnable s (cur_thread s) →
  (∀ th p, threads s !! cur_thread s = Some th → procs s !! _process th = Some p → kidle s ∉ _tids p) →
  stop_if_should_stop s = Done s' → sched_inv s' l.
Proof.
  intros Hi Hrun Hk. pose proof Hi as (Hw&Hq&Hc). unfold stop_if_should_stop. destruct (w_cur _ Hw) as [th Ht]. set (t := cur_thread s) in *.
  rewrite (the_Done _ _ _ Ht). cbn [mbind outcome_bind]. destruct (w_process _ Hw t th Ht) as (p&Hp&Hin&_).
  rewrite (the_Done _ _ _ Hp). cbn [mbind outcome_bind]. destruct (state_of_alive s t th p Ht Hp Hrun) as [Hpa Hta]. specialize (Hk th p Ht Hp).
  destruct (_ && _); [|by intros [= <-]]. destruct (all_stopped s t (_tids p)) as [b| | |] eqn:Eb; cbn [mbind outcome_bind]; try done.
  set (th1 := set_state STOPPED th). assert (sched_inv (put s t th1) l) as Hi1.
  { pose proof (w_blocked _ Hw t th Ht) as Hbl. split_and!.
    - apply (put_wf s t th); try done; cbn; [destruct (_blocker th); [destruct Hbl; congruence|done]|]. intros ->. by destruct Hk.
    - by apply (put_queue s t th).
    - by apply (put_covered_stops s t th). }
  destruct b; rewrite (change_put _ _ th) by done; intros [= <-]; [|done].
  apply (put_proc_inv (put s t th1) l (_process th) p (set_p_state STOPPED p)) in Hi1; try done.
  intros _ x thx Hx Hthx. cbn in Hthx. destruct (decide (x = t)) as [->|Hne]; simplify_map_eq; [done|].
  pose proof (all_stopped_spec s t _ Eb x Hx Hne ltac:(by eauto)) as Hst. apply state_of_thread in Hst. unfold state_of in Hst. rewrite Hthx in Hst. cbn in Hst.
  destruct (w_tids _ Hw _ p x Hp Hx) as (?&?&E). simplify_eq. rewrite E, Hp in Hst. cbn in Hst. rewrite decide_True in Hst by done. congruence.
Qed.

Lemma interrupt_all_spec tids s l : sched_inv s l → (∀ t, t ∈ tids → is_Some (threads s !! t)) →
  ∃ s' l', interrupt_all s tids = Done s' ∧ sched_inv s' l' ∧ l `prefix_of` l'.
Proof.
  revert s l. induction tids as [|t tids IH]; intros s l Hi Hd; [by exists s, l|]. cbn [interrupt_all].
  pose proof (Hd t ltac:(by left)) as Ht. pose proof Ht as [th Hth]. unfold get_thread. rewrite Hth. case_decide.
  - destruct (interrupt_spec s l t Hi Ht) as (b&s1&l1&E&Hi1&Hp1&Hd1). rewrite E. cbn [mbind outcome_bind].
    destruct (IH s1 l1 Hi1) as (s2&l2&?&?&?); [intros x Hx; apply Hd1, Hd; by right|]. exists s2, l2. split_and!; [done|done..|by etrans].
  - cbn [mbind outcome_bind]. apply IH; [done|]. intros x Hx. apply Hd. by right.
Qed.

Lemma stop_spec s l pid : sched_inv s l → is_Some (procs s !! pid) →
  ∃ b s' l', stop s pid = Done (b, s') ∧ sched_inv s' l' ∧ l `prefix_of` l'.
Proof.
  intros Hi [p Hp]. pose proof Hi as (Hw&Hq&Hc). unfold stop. rewrite (the_Done _ _ _ Hp). cbn [mbind outcome_bind].
  destruct (_stopping p); [by exists false, s, l|].
  destruct (interrupt_all_spec (_tids p) (with_procs s (<[pid := set_stopping true p]> (procs s))) l) as (s'&l'&E&Hi'&Hpre).
  - apply (inv_same_core s); [done| |done|by apply (queue_of_ext s)]. split; try done. intros x. cbn.
    destruct (decide (x = pid)) as [->|]; [by rewrite lookup_insert_eq, Hp|by rewrite lookup_insert_ne].
  - intros t Hin. destruct (w_tids _ Hw pid p t Hp Hin) as (th&Hth&_). cbn. by eauto.
  - rewrite E. exists true, s', l'. by split_and!; [|apply Hi'..|].
Qed.

(** A stopped thread that is set going and queued. *)
Lemma continue_spec s l t th : sched_inv s l → threads s !! t = Some th → _blocker th = None →
  (∀ p, procs s !! _process th = Some p → p_state p ≠ STOPPED) →
  ∃ s' l', (s ← change s t (set_state ALIVE); queue_thread s t) = Done s' ∧ sched_inv s' l' ∧ l `prefix_of` l' ∧
    (∀ x, x ≠ t → core <$> threads s' !! x = core <$> threads s !! x) ∧ (∀ pid, pcore <$> procs s' !! pid = pcore <$> procs s !! pid).
Proof.
  intros (Hw&Hq&Hc) Ht Hb Hp. rewrite (change_put _ _ _ _ Ht). cbn [mbind outcome_bind].
  destruct (queue_thread_covers (put s t (set_state ALIVE th)) l t (λ _, False)) as (s'&l'&E&Hs'&Hc'&Hw'&Hq'&Hp'&Hcv').
  - apply (put_wf s t th); try done; [cbn; by rewrite Hb|]. intros p Hpr Hps. by destruct (Hp p).
  - by apply (put_queue s t th).
  - by rewrite put_lookup.
  - by apply (put_covered s t th).
  - exists s', l'. split; [done|]. split; [by split_and!|]. split_and!; [done| |apply (sc_procs _ _ Hs')].
    intros x Hx. rewrite (sc_threads _ _ Hs'). cbn. by rewrite lookup_insert_ne.
Qed.

Lemma continue_all_spec tids s l : sched_inv s l → NoDup tids →
  (∀ t, t ∈ tids → ∃ th p, threads s !! t = Some th ∧ _blocker th = None ∧ procs s !! _process th = Some p ∧ p_state p ≠ STOPPED) →
  ∃ s' l', continue_all s tids = Done s' ∧ sched_inv s' l' ∧ l `prefix_of` l' ∧ (∀ pid, pcore <$> procs s' !! pid = pcore <$> procs s !! pid).
Proof.
  revert s l. induction tids as [|t tids IH]; intros s l Hi Hnd Hd; [by exists s, l|]. apply NoDup_cons in Hnd as [Hnt Hnd]. cbn [continue_all].
  destruct (Hd t ltac:(by left)) as (th&p&Ht&Hb&Hp&Hps). unfold get_thread. rewrite Ht.
  destruct (continue_spec s l t th Hi Ht Hb) as (s1&l1&E1&Hi1&Hp1&Hth1&Hpr1); [intros p0 Hp0; by simplify_eq|].
  destruct (change s t (set_state ALIVE)) as [s0| | |]; cbn [mbind outcome_bind] in E1 |- *; try done. rewrite E1. cbn [mbind outcome_bind].
  destruct (IH s1 l1 Hi1 Hnd) as (s2&l2&E2&Hi2&Hp2&Hpr2).
  - intros x Hx. destruct (Hd x ltac:(by right)) as (thx&px&Htx&Hbx&Hpx&Hpsx). assert (x ≠ t) as Hxt by by intros ->.
    specialize (Hth1 x Hxt). rewrite Htx in Hth1. destruct (threads s1 !! x) as [thx1|]; [|done]. cbn in Hth1. injection Hth1 as E3 _ E4.
    specialize (Hpr1 (_process thx)). rewrite Hpx in Hpr1. destruct (procs s1 !! _process thx) as [px1|] eqn:Epx; [|done]. injection Hpr1 as E5 _.
    exists thx1, px1. rewrite E3, Epx, E4, E5. done.
  - exists s2, l2. split; [done|]. split; [done|]. split; [by etrans|]. intros pid. by rewrite Hpr2.
Qed.

Lemma cont_spec s l pid : sched_inv s l → is_Some (procs s !! pid) →
  ∃ s' l', cont s pid = Done s' ∧ sched_inv s' l' ∧ l `prefix_of` l'.
Proof.
  intros Hi [p Hp]. pose proof Hi as (Hw&Hq&Hc). unfold cont. rewrite (the_Done _ _ _ Hp). cbn [mbind outcome_bind].
  case_decide as Hst; [|by exists s, l].
  assert (sched_inv (with_procs s (<[pid := set_p_state ALIVE p]> (procs s))) l) as Hi1.
  { apply (put_proc_inv s l pid p); try done. intros t th Hin Ht Hal _. pose proof (w_stopped _ Hw pid p t th Hp Hst Hin Ht). congruence. }
  destruct (continue_all_spec (_tids p) _ l Hi1) as (s2&l2&E2&Hi2&Hp2&Hpr2); [by apply (w_nodup _ Hw pid)| |].
  { intros t Hin. destruct (w_tids _ Hw pid p t Hp Hin) as (th&Ht&<-). exists th, (set_p_state ALIVE p). cbn. rewrite lookup_insert_eq.
    split_and!; try done. pose proof (w_stopped _ Hw _ p t th Hp Hst Hin Ht). pose proof (w_blocked _ Hw t th Ht) as Hb.
    destruct (_blocker th); [destruct Hb; congruence|done]. }
  rewrite E2. cbn [mbind outcome_bind]. specialize (Hpr2 pid). cbn in Hpr2. rewrite lookup_insert_eq in Hpr2.
  destruct (procs s2 !! pid) as [p2|] eqn:Ep2; [|done]. rewrite (the_Done _ _ _ Ep2). cbn [mbind outcome_bind].
  eexists _, l2. split; [done|]. split; [|done]. pose proof Hi2 as (_&Hq2&_). apply (inv_same_core s2); [done| |done|by apply (queue_of_ext s2)].
  split; try done. intros x. cbn. destruct (decide (x = pid)) as [->|]; [by rewrite lookup_insert_eq, Ep2|by rewrite lookup_insert_ne].
Qed.

(** ** The end of a thread *)

Lemma die_spec s l : sched_inv s l → cur_thread s ≠ kidle s → runnable s (cur_thread s) → ∃ s', die s = Done s' ∧ sched_inv s' l.
Proof.
  intros (Hw&Hq&Hc) Hk Hrun. unfold die. destruct (w_cur _ Hw) as [th Ht]. destruct (w_process _ Hw _ th Ht) as (p&Hp&Hin&_).
  destruct (state_of_alive s _ th p Ht Hp Hrun) as [Hpa Hta]. pose proof (w_blocked _ Hw _ th Ht) as Hb.
  rewrite (change_put _ _ _ _ Ht). eexists. split; [done|]. split_and!.
  - apply (put_wf s _ th); try done; cbn; [destruct (_blocker th); [destruct Hb; congruence|done]|]. intros p0 Hp0 Hps. simplify_eq. congruence.
  - by apply (put_queue s _ th).
  - by apply (put_covered_stops s _ th).
Qed.

Lemma queue_signal_spec s l t sig : sched_inv s l → is_Some (threads s !! t) → ∃ s', queue_signal s t sig = Done s' ∧ sched_inv s' l.
Proof.
  intros Hi [th Ht]. pose proof Hi as (Hw&Hq&Hc). unfold queue_signal. rewrite (the_Done _ _ _ Ht). cbn [mbind outcome_bind].
  rewrite (change_put _ _ _ _ Ht). eexists. split; [done|]. apply (inv_same_core s); [done| |done|by apply (put_queue s t th)].
  split; try done. intros x. cbn. destruct (decide (x = t)) as [->|]; [by rewrite lookup_insert_eq, Ht|by rewrite lookup_insert_ne].
Qed.

Lemma queue_delete s l t : queue_of s l → (t ∉ l) → queue_of (with_threads s (delete t (threads s))) l.
Proof.
  intros [Hh Hnd Hnext Hprev Hoth Hidle] Ht. split; cbn; [done|done| | | |done].
  - eapply linked_ext; [exact Hnext|]. intros x Hx. by rewrite lookup_delete_ne by (by intros <-).
  - destruct l as [|x r]; [done|]. eapply linked_back_ext; [exact Hprev|]. intros y Hy. rewrite lookup_delete_ne; [done|].
    intros <-. apply Ht. by right.
  - intros x th Hx. apply lookup_delete_Some in Hx as [_ Hx]. by apply Hoth.
Qed.

(** The link back of the head of the queue does not matter. *)
Lemma queue_head_prev s x r th p : queue_of s (x :: r) → threads s !! x = Some th → queue_of (put s x (set_prev p th)) (x :: r).
Proof.
  intros [Hh Hnd Hnext Hprev Hoth Hidle] Hx. split; cbn -[linked linked_back]; [done|done| | | |done].
  - eapply linked_ext; [exact Hnext|]. intros y _. destruct (decide (y = x)) as [->|]; [by rewrite lookup_insert_eq, Hx|by rewrite lookup_insert_ne].
  - apply NoDup_cons in Hnd as [Hnx _]. eapply linked_back_ext; [exact Hprev|]. intros y Hy. rewrite lookup_insert_ne; [done|]. by intros <-.
  - intros y thy Hy Hin. destruct (decide (y = x)) as [->|]; [destruct Hin; by left|]. rewrite lookup_insert_ne in Hy by done. by apply Hoth in Hy.
Qed.

Definition update_prev (ts : gmap Z thread) (n : option Z) (p : option Z) : gmap Z thread :=
  match n with Some n => alter (set_prev p) n ts | None => ts end.

(** Taking a thread out of the middle of the queue. *)
Lemma queue_unlink s l1 q t l2 thq th : queue_of s (l1 ++ q :: t :: l2) → threads s !! q = Some thq → threads s !! t = Some th →
  queue_of (with_threads s (delete t (update_prev (<[q := set_next (m_next th) thq]> (threads s)) (m_next th) (Some q)))) (l1 ++ q :: l2).
Proof.
  intros [Hh Hnd Hnext Hprev Hoth Hidle] Hq Ht. apply linked_app in Hnext as [Hn1 Hn2]. cbn in Hn1. destruct Hn2 as [_ [(th'&?&Hnt) Hn2]].
  simplify_eq. rewrite Hnt. apply NoDup_app in Hnd as (Hnd1&Hnd12&[Hq2 [Ht2 Hnd2]%NoDup_cons]%NoDup_cons).
  assert (q ≠ t) as Hqt by (intros ->; apply Hq2; by left). assert (q ∉ l1) as Hq1 by (intros Hin; apply (Hnd12 q Hin); by left).
  assert (t ∉ l1) as Ht1 by (intros Hin; apply (Hnd12 t Hin); right; by left).
  set (ts' := delete t _).
  assert (∀ x, x ≠ q → x ≠ t → m_next <$> ts' !! x = m_next <$> threads s !! x) as Hnx.
  { intros x Hxq Hxt. subst ts'. rewrite lookup_delete_ne by done. unfold update_prev. destruct (first l2 None) as [n|].
    - rewrite lookup_alter. destruct (decide (n = x)) as [->|]; rewrite lookup_insert_ne by done; [|done]. by destruct (threads s !! x).
    - by rewrite lookup_insert_ne. }
  assert (∀ x, x ≠ t → first l2 None ≠ Some x → m_prev <$> ts' !! x = m_prev <$> threads s !! x) as Hpx.
  { intros x Hxt Hxn. subst ts'. rewrite lookup_delete_ne by done. unfold update_prev.
    assert (m_prev <$> <[q := set_next (first l2 None) thq]> (threads s) !! x = m_prev <$> threads s !! x) as Hins.
    { destruct (decide (x = q)) as [->|]; [by rewrite lookup_insert_eq, Hq|by rewrite lookup_insert_ne]. }
    destruct (first l2 None) as [n|]; [|done]. rewrite lookup_alter, decide_False; [done|]. by intros ->. }
  split; cbn -[linked linked_back]; [rewrite Hh; by destruct l1| | | | |].
  - apply NoDup_app. split_and!; [done| |apply NoDup_cons; split; [|done]].
    + intros x Hx [->|Hx2]%elem_of_cons; [done|]. apply (Hnd12 x Hx). right. by right.
    + intros ?. apply Hq2. by right.
  - apply linked_app. cbn. split_and!.
    + eapply linked_ext; [exact Hn1|]. intros x Hx. apply Hnx; by intros ->.
    + subst ts'. rewrite lookup_delete_ne by done. unfold update_prev. destruct (first l2 None) as [n|] eqn:En.
      * rewrite lookup_alter. case_decide as Hnq; [subst n|]; rewrite lookup_insert_eq; by eexists.
      * rewrite lookup_insert_eq. by eexists.
    + eapply linked_ext; [exact Hn2|]. intros x Hx. apply Hnx; intros ->; [apply Hq2; by right|done].
  - assert (∀ n r, l2 = n :: r → ∃ thn, ts' !! n = Some thn ∧ m_prev thn = Some q) as Hnext'.
    { intros n r ->. cbn in *. destruct Hn2 as [(thn&Hthn&_) _]. assert (n ≠ t ∧ n ≠ q) as [? ?].
      { split; intros ->; [apply Ht2; by left|apply Hq2; right; by left]. }
      exists (set_prev (Some q) thn). split; [|done]. subst ts'. rewrite lookup_delete_ne, lookup_alter, decide_True, lookup_insert_ne by done.
      by rewrite Hthn. }
    assert (∀ n r, l2 = n :: r → linked_back (threads s) n r → linked_back ts' n r) as Hrest.
    { intros n r -> Hb. eapply linked_back_ext; [exact Hb|]. intros x Hx. apply Hpx.
      - intros ->. apply Ht2. by right.
      - cbn. intros [= ->]. by apply NoDup_cons in Hnd2 as [? _]. }
    destruct l1 as [|x l1]; cbn in Hprev |- *.
    + destruct Hprev as [_ Hprev]. destruct l2 as [|n r]; [done|]. cbn in Hprev |- *. split; [by eapply Hnext'|]. by apply Hrest; [|destruct_and?].
    + apply linked_back_app in Hprev as (Hb1&(thq0&Hthq0&Hpq)&Hb2). assert (thq0 = thq) as -> by congruence. apply linked_back_app. destruct Hb2 as [_ Hb2]. split_and!.
      * eapply linked_back_ext; [exact Hb1|]. intros y Hy. apply Hpx; [intros ->; apply Ht1; by right|].
        intros Hf. destruct l2 as [|n r]; [done|]. cbn in Hf. simplify_eq. apply (Hnd12 y); [by right|right; right; by left].
      * specialize (Hpx q Hqt). rewrite Hq in Hpx. destruct (ts' !! q) as [thq'|] eqn:Eq.
        -- exists thq'. split; [done|]. destruct l2 as [|n r]; cbn in *; [specialize (Hpx ltac:(done)); cbn in Hpx; congruence|].
           specialize (Hpx ltac:(intros [= ->]; apply Hq2; right; by left)). cbn in Hpx. congruence.
        -- destruct l2 as [|n r]; cbn in *; [by specialize (Hpx ltac:(done))|].
           by specialize (Hpx ltac:(intros [= ->]; apply Hq2; right; by left)).
      * destruct l2 as [|n r]; [done|]. cbn in Hb2 |- *. split; [by eapply Hnext'|]. by apply Hrest; [|destruct_and?].
  - intros x thx Hx Hin. assert (x ≠ q) as Hxq by (intros ->; apply Hin, elem_of_app; right; by left).
    assert (x ≠ t) as Hxt by (intros ->; subst ts'; by rewrite lookup_delete_eq in Hx). specialize (Hnx x Hxq Hxt).
    rewrite Hx in Hnx. destruct (threads s !! x) as [thx0|] eqn:Ex; [|done]. cbn in Hnx. injection Hnx as ->. apply (Hoth x thx0 Ex).
    intros [?|[?|[?|?]%elem_of_cons]%elem_of_cons]%elem_of_app; try done; apply Hin, elem_of_app; [by left|right; by right].
  - intros [?|[Hk|?]%elem_of_cons]%elem_of_app; [|rewrite Hk in Hidle|]; apply Hidle, elem_of_app; [by left|right; by left|right; right; by right].
Qed.

Lemma erase_tid_elem t l x : NoDup l → x ∈ erase_tid t l ↔ x ∈ l ∧ x ≠ t.
Proof.
  induction l as [|y l IH]; cbn; [intros _; split; [by intros ?%elem_of_nil|by intros [?%elem_of_nil _]]|].
  intros [Hy Hl]%NoDup_cons. destruct (Z.eqb_spec y t) as [->|Hne].
  - split; [intros Hx; split; [by right|by intros ->]|]. by intros [[->|?]%elem_of_cons ?].
  - rewrite !elem_of_cons, IH by done. split; [intros [->|[? ?]]; auto|intros [[->|?] ?]; auto].
Qed.

Lemma erase_tid_nodup t l : NoDup l → NoDup (erase_tid t l).
Proof.
  induction l as [|y l IH]; cbn; [done|]. intros [Hy Hl]%NoDup_cons. destruct (y =? t); [done|]. apply NoDup_cons. split; [|by apply IH].
  rewrite erase_tid_elem by done. tauto.
Qed.

(** The thread that points to [t] is before it in the queue. *)
Lemma queue_pred s l q t thq : queue_of s l → threads s !! q = Some thq → m_next thq = Some t → ∃ l1 l2, l = l1 ++ q :: t :: l2.
Proof.
  intros Hq Hth Hn. destruct (decide (q ∈ l)) as [Hin|Hin]; [|rewrite (qo_others _ _ Hq q thq Hth Hin) in Hn; done].
  apply list_elem_of_split in Hin as (l1&r&->). pose proof (qo_next _ _ Hq) as Hl. apply linked_app in Hl as [_ [(th'&?&Hf) _]].
  simplify_eq. rewrite Hn in Hf. destruct r as [|y r]; cbn in Hf; [done|]. injection Hf as ->. by exists l1, r.
Qed.

Lemma filter_not_in t l : (t ∉ l) → filter (λ x, x ≠ t) l = l.
Proof.
  induction l as [|x l IH]; [done|]. intros [Hx Hl]%not_elem_of_cons. rewrite filter_cons_True by done. by rewrite IH.
Qed.

(** The states, and the queue, after a thread is gone. *)
Record removed s t l s' : Prop := {
  rm_queue : queue_of s' (filter (λ x, x ≠ t) l);
  rm_procs : procs s' = procs s;
  rm_processes : processes s' = processes s;
  rm_blockers : blockers s' = blockers s;
  rm_cur : cur_thread s' = cur_thread s;
  rm_idle : kidle s' = kidle s;
  rm_gone : threads s' !! t = None;
  rm_others x : x ≠ t → core <$> threads s' !! x = core <$> threads s !! x;
}.

Lemma unlinked_outside s l t th s' : queue_of s l → threads s !! t = Some th → (t ∉ l) → unlink_thread s t th = Done s' → removed s t l s'.
Proof.
  intros Hq Ht Hin. unfold unlink_thread. rewrite (qo_others _ _ Hq t th Ht Hin), decide_False.
  2:{ rewrite (qo_head _ _ Hq). destruct l as [|x l]; cbn; [done|]. intros [= ->]. apply Hin. by left. }
  assert (∀ q thq, threads s !! q = Some thq → m_next thq ≠ Some t) as Hpred.
  { intros q thq Hthq Hn. destruct (queue_pred s l q t thq Hq Hthq Hn) as (l1&l2&->). apply Hin, elem_of_app. right. right. by left. }
  intros E. assert (s' = with_threads s (delete t (threads s))) as ->.
  { destruct (m_prev th) as [q|]; cbn in E; [|by simplify_eq]. unfold the in E. destruct (threads s !! q) as [thq|] eqn:Eq; cbn in E; [|done].
    rewrite decide_False in E by by apply (Hpred q). cbn in E. by simplify_eq. }
  split; cbn; try done; [rewrite filter_not_in by done; by apply queue_delete|apply lookup_delete_eq|]. intros x Hx. by rewrite lookup_delete_ne.
Qed.

Lemma unlinked_head s t l th s' : queue_of s (t :: l) → threads s !! t = Some th → unlink_thread s t th = Done s' → removed s t (t :: l) s'.
Proof.
  intros Hq Ht. unfold unlink_thread. rewrite (qo_head _ _ Hq). cbn [first]. rewrite decide_True by done.
  pose proof (qo_nodup _ _ Hq) as [Htl _]%NoDup_cons. pose proof (qo_next _ _ Hq) as [(th'&Ht'&Hn) Hnl]. assert (th' = th) as -> by congruence.
  pose proof (queue_pop s t l th Hq Ht) as Hpop. rewrite Hn in *.
  assert (∀ q thq, threads s !! q = Some thq → m_next thq ≠ Some t) as Hpred.
  { intros q thq Hthq Hnq. destruct (queue_pred s (t :: l) q t thq Hq Hthq Hnq) as (l1&l2&E). destruct l1 as [|x l1]; cbn in E; simplify_eq.
    - apply Htl. by left.
    - apply Htl, elem_of_app. right. right. by left. }
  intros E. set (s1 := with_next_thread s (first l None)) in E.
  assert ((s1 ← match first l None with Some n => change s1 n (set_prev (m_prev th)) | None => Done s1 end;
    Done (with_threads s1 (delete t (threads s1)))) = Done s') as E'.
  { destruct (m_prev th) as [q|]; cbn [mbind outcome_bind] in E; [|done]. unfold the in E. cbn in E.
    destruct (threads s !! q) as [thq|] eqn:Eq; cbn in E; [|done]. rewrite decide_False in E by by apply (Hpred q). done. }
  clear E. set (s2 := put s t (set_next None th)) in Hpop.
  assert (filter (λ x, x ≠ t) (t :: l) = l) as Hf by (rewrite filter_cons_False by (by intros ?); by apply filter_not_in).
  destruct l as [|n r]; cbn [first] in *.
  - cbn in E'. simplify_eq. split; cbn -[filter]; try done; [rewrite Hf|apply lookup_delete_eq|intros x Hx; by rewrite lookup_delete_ne].
    apply (queue_of_ext (with_threads (with_next_thread s2 None) (delete t (threads s2)))); [by apply (queue_delete _ _ t Hpop)|done|done|].
    intros x. cbn. by rewrite delete_insert_eq.
  - destruct Hnl as [(thn&Hthn&_) _]. assert (n ≠ t) as Hnt by (intros ->; apply Htl; by left).
    rewrite (change_put s1 n thn) in E' by done. cbn in E'. simplify_eq. split; cbn -[filter]; try done; [rewrite Hf|apply lookup_delete_eq|].
    + assert (threads (with_next_thread s2 (Some n)) !! n = Some thn) as Hthn2 by (cbn; by rewrite lookup_insert_ne).
      pose proof (queue_delete _ _ t (queue_head_prev _ n r thn (m_prev th) Hpop Hthn2) Htl) as Hq'.
      eapply queue_of_ext; [exact Hq'|done|done|]. intros x. cbn. by rewrite insert_insert_ne, delete_insert_eq by done.
    + intros x Hx. rewrite lookup_delete_ne by done. destruct (decide (x = n)) as [->|]; [by rewrite lookup_insert_eq, Hthn|by rewrite lookup_insert_ne].
Qed.

Lemma unlinked_middle s l1 q t l2 th s' : queue_of s (l1 ++ q :: t :: l2) → threads s !! t = Some th → unlink_thread s t th = Done s' →
  removed s t (l1 ++ q :: t :: l2) s'.
Proof.
  intros Hq Ht. pose proof (qo_nodup _ _ Hq) as (Hnd1&Hnd12&[Hq2 [Ht2 _]%NoDup_cons]%NoDup_cons)%NoDup_app.
  assert (q ≠ t) as Hqt by (intros ->; apply Hq2; by left). assert (t ∉ l1) as Ht1 by (intros Hin; apply (Hnd12 t Hin); right; by left).
  pose proof (qo_next _ _ Hq) as Hl. apply linked_app in Hl as [_ [(thq&Hthq&Hnq) [(th'&Ht'&Hn) Hn2]]].
  assert (th' = th) as -> by congruence. clear Ht'.
  assert (m_prev th = Some q) as Hp.
  { pose proof (qo_prev _ _ Hq) as Hb. destruct l1 as [|x l1]; cbn in Hb; [destruct Hb as [(?&?&?) _]; congruence|].
    apply linked_back_app in Hb as (_&_&[(?&?&?) _]). congruence. }
  unfold unlink_thread. rewrite decide_False.
  2:{ rewrite (qo_head _ _ Hq). destruct l1 as [|x l1]; cbn; intros [= ->]; [done|]. apply Ht1. by left. }
  rewrite Hp, (the_Done _ _ _ Hthq). cbn [mbind outcome_bind]. rewrite decide_True by done. rewrite (change_put _ _ _ _ Hthq). cbn [mbind outcome_bind].
  intros E. assert (filter (λ x, x ≠ t) (l1 ++ q :: t :: l2) = l1 ++ q :: l2) as Hf.
  { rewrite filter_app, filter_cons_True, filter_cons_False, !filter_not_in by (done || by intros ?). done. }
  pose proof (queue_unlink s l1 q t l2 thq th Hq Hthq Ht) as Hq'.
  assert (s' = with_threads s (delete t (update_prev (<[q := set_next (m_next th) thq]> (threads s)) (m_next th) (Some q)))) as ->.
  { destruct (m_next th) as [n|]; cbn in E |- *; [|by simplify_eq]. unfold change, the in E. cbn in E.
    destruct (<[q := set_next (Some n) thq]> (threads s) !! n) as [thn|] eqn:En; cbn in E; [|done]. simplify_eq. unfold with_threads. cbn.
    do 2 f_equal. apply map_eq. intros x. rewrite lookup_alter. case_decide; [subst; by rewrite lookup_insert_eq, En|by rewrite lookup_insert_ne]. }
  split; cbn -[filter]; try done; [by rewrite Hf|apply lookup_delete_eq|]. intros x Hx. rewrite lookup_delete_ne by done.
  assert (∀ y, core <$> <[q := set_next (m_next th) thq]> (threads s) !! y = core <$> threads s !! y) as Hins.
  { intros y. destruct (decide (y = q)) as [->|]; [by rewrite lookup_insert_eq, Hthq|by rewrite lookup_insert_ne]. }
  unfold update_prev. destruct (m_next th) as [n|]; [|done]. rewrite lookup_alter. case_decide; [subst x|done]. rewrite <-Hins.
  by destruct (_ !! n).
Qed.

Lemma unlinked_spec s l t th s' : queue_of s l → threads s !! t = Some th → unlink_thread s t th = Done s' → removed s t l s'.
Proof.
  intros Hq Ht E. destruct (decide (t ∈ l)) as [Hin|Hin]; [|by apply (unlinked_outside s l t th)].
  apply list_elem_of_split in Hin as (l1&l2&->). destruct l1 as [|x l1 _] using rev_ind; [by apply (unlinked_head s t l2 th)|].
  rewrite <-app_assoc in Hq |- *. by apply (unlinked_middle s l1 x t l2 th).
Qed.

(** What is left of threads and processes when [t] is reaped. *)
Record left_over s t s' : Prop := {
  lo_thread x th' : threads s' !! x = Some th' → x ≠ t ∧ ∃ th, threads s !! x = Some th ∧ core th' = core th;
  lo_thread' x th : x ≠ t → threads s !! x = Some th → ∃ th', threads s' !! x = Some th' ∧ core th' = core th;
  lo_proc pid p' : procs s' !! pid = Some p' → ∃ p, procs s !! pid = Some p ∧ p_state p' = p_state p ∧
    (∀ x, x ∈ _tids p' → x ≠ t ∧ x ∈ _tids p) ∧ NoDup (_tids p');
  lo_proc' pid p : procs s !! pid = Some p → ∃ p', procs s' !! pid = Some p' ∧ p_state p' = p_state p ∧
    ∀ x, x ≠ t → x ∈ _tids p → x ∈ _tids p';
  lo_processes : processes s' = processes s;
  lo_blockers : blockers s' = blockers s;
  lo_cur : cur_thread s' = cur_thread s;
  lo_idle : kidle s' = kidle s;
}.

Lemma reap_left_over s l t s' : wf s → queue_of s l → reap s t = Done s' → left_over s t s' ∧ queue_of s' (filter (λ x, x ≠ t) l).
Proof.
  intros Hw Hq. unfold reap, the. destruct (threads s !! t) as [th|] eqn:Ht; cbn [mbind outcome_bind]; [|done].
  destruct (w_process _ Hw t th Ht) as (p&Hp&Hin&_). rewrite Hp. cbn [mbind outcome_bind]. set (p' := mk_process _ _ _ _ _).
  set (s0 := with_procs s _). intros E. destruct (unlinked_spec s0 l t th s') as [Rq Rp Rps Rb Rc Rk Rg Ro]; [by apply (queue_of_ext s)|done|done|].
  cbn in Rp, Rps, Rb, Rc, Rk, Ro. pose proof (w_nodup _ Hw _ p Hp) as Hnd. split; [|done]. split; try done.
  - intros x th' Hx. assert (x ≠ t) as Hxt by congruence. split; [done|]. specialize (Ro x Hxt). rewrite Hx in Ro.
    destruct (threads s !! x) as [th0|]; [|done]. exists th0. split; [done|]. by apply (inj Some) in Ro.
  - intros x th0 Hxt Hx. specialize (Ro x Hxt). rewrite Hx in Ro. destruct (threads s' !! x) as [th'|]; [|done]. exists th'.
    split; [done|]. by apply (inj Some) in Ro.
  - intros pid q' Hq'. rewrite Rp in Hq'. destruct (decide (pid = _process th)) as [->|Hne].
    + rewrite lookup_insert_eq in Hq'. assert (q' = p') as -> by congruence. exists p. split_and!; [done|done| |by apply erase_tid_nodup].
      intros x Hx. apply erase_tid_elem in Hx; tauto.
    + rewrite lookup_insert_ne in Hq' by done. exists q'. split_and!; [done|done| |by apply (w_nodup _ Hw pid)]. intros x Hx. split; [|done].
      intros ->. destruct (w_tids _ Hw pid q' t Hq' Hx) as (?&?&?). congruence.
  - intros pid q Hq0. rewrite Rp. destruct (decide (pid = _process th)) as [->|].
    + assert (q = p) as -> by congruence. exists p'. rewrite lookup_insert_eq. split_and!; [done|done|]. intros x Hxt Hx. by apply erase_tid_elem.
    + exists q. by rewrite lookup_insert_ne.
Qed.

Lemma left_over_state s t s' x : left_over s t s' → x ≠ t → state_of s' x = state_of s x.
Proof.
  intros Hl Hxt. unfold state_of. destruct (threads s' !! x) as [th'|] eqn:Ex'; cbn.
  - destruct (lo_thread _ _ _ Hl x th' Ex') as (_&th&->&Ec). injection Ec as -> -> _. cbn.
    destruct (procs s !! _process th) as [q|] eqn:Eq; cbn.
    + destruct (lo_proc' _ _ _ Hl _ q Eq) as (q'&->&E&_). cbn. by rewrite E.
    + destruct (procs s' !! _process th) as [q'|] eqn:Eq'; [|done]. destruct (lo_proc _ _ _ Hl _ q' Eq') as (?&?&_). congruence.
  - destruct (threads s !! x) as [th|] eqn:Ex; [|done]. destruct (lo_thread' _ _ _ Hl x th Hxt Ex) as (?&?&_). congruence.
Qed.

Lemma left_over_wf s t s' : left_over s t s' → wf s → t ≠ cur_thread s → t ≠ kidle s → wf s'.
Proof.
  intros Hl Hw Hcur Hk. split.
  - intros x th' Hx. destruct (lo_thread _ _ _ Hl x th' Hx) as (Hxt&th&Hx0&Ec). injection Ec as -> _ _.
    destruct (w_process _ Hw x th Hx0) as (q&Hq&Hin&?). destruct (lo_proc' _ _ _ Hl _ q Hq) as (q'&?&_&Hin'). exists q'.
    rewrite (lo_processes _ _ _ Hl). auto.
  - intros pid q' x Hq' Hx. destruct (lo_proc _ _ _ Hl pid q' Hq') as (q&Hq&_&Hsub&_). destruct (Hsub x Hx) as [Hxt Hin].
    destruct (w_tids _ Hw pid q x Hq Hin) as (th&Hth&Ep). destruct (lo_thread' _ _ _ Hl x th Hxt Hth) as (th'&?&Ec). injection Ec as Ec _ _.
    exists th'. split; [done|congruence].
  - intros pid q' Hq'. by destruct (lo_proc _ _ _ Hl pid q' Hq') as (?&_&_&_&?).
  - intros pid Hpid. rewrite (lo_processes _ _ _ Hl) in Hpid. destruct (w_processes _ Hw pid Hpid) as [q Hq].
    destruct (lo_proc' _ _ _ Hl pid q Hq) as (q'&?&_). by eauto.
  - rewrite (lo_processes _ _ _ Hl). apply (w_listed _ Hw).
  - intros x th' Hx. destruct (lo_thread _ _ _ Hl x th' Hx) as (_&th&Hth&Ec). injection Ec as _ -> ->. rewrite (lo_blockers _ _ _ Hl).
    by apply (w_blocked _ Hw x).
  - intros pid q' x th' Hq' Hs Hx Hth2. destruct (lo_proc _ _ _ Hl pid q' Hq') as (q&Hq&E1&Hsub&_).
    destruct (lo_thread _ _ _ Hl x th' Hth2) as (_&th&Hth&Ec). injection Ec as _ -> _.
    apply (w_stopped _ Hw pid q x); [done|congruence|by apply Hsub|done].
  - rewrite (lo_cur _ _ _ Hl). destruct (w_cur _ Hw) as [th Hth]. destruct (lo_thread' _ _ _ Hl _ th (not_eq_sym Hcur) Hth) as (th'&?&_). by eauto.
  - rewrite (lo_idle _ _ _ Hl). unfold runnable. rewrite (left_over_state s t s') by done. apply (w_idle _ Hw).
Qed.

Lemma reap_spec s l t s' : sched_inv s l → t ≠ cur_thread s → t ≠ kidle s → reap s t = Done s' →
  sched_inv s' (filter (λ x, x ≠ t) l) ∧ ∀ x, runnable s' x → x ≠ t.
Proof.
  intros (Hw&Hq&Hc) Hcur Hk E. destruct (reap_left_over s l t s' Hw Hq E) as [Hl Hq'].
  assert (∀ x, runnable s' x → x ≠ t) as Hne.
  { intros x Hx ->. unfold runnable, state_of in Hx. destruct (threads s' !! t) as [th|] eqn:Et; [|done].
    by destruct (lo_thread _ _ _ Hl t th Et). }
  split; [|done]. split_and!; [by apply (left_over_wf s t)|done|]. intros x Hx. specialize (Hne x Hx).
  unfold runnable in Hx. rewrite (left_over_state s t s') in Hx by done. rewrite (lo_idle _ _ _ Hl), (lo_cur _ _ _ Hl).
  destruct (Hc x Hx) as [?|[?|[?|[]]]]; [tauto|tauto|]. right; right; left. by apply list_elem_of_filter.
Qed.

(** ** New threads *)

Definition new_thread pid : thread := mk_thread pid ALIVE None 0 None None false false false.
Definition more_tids (p : process) t : process := mk_process (p_state p) (_kernel_mode p) (_tids p ++ [t]) (_stopping p) (_last_active_thread p).
Definition spawned s pid (p : process) t : sched :=
  with_procs (put s t (new_thread pid)) (<[pid := more_tids p t]> (procs s)).

Lemma spawned_state s pid p t x : procs s !! pid = Some p → x ≠ t → state_of (spawned s pid p t) x = state_of s x.
Proof.
  intros Hp Hxt. unfold state_of. cbn. rewrite lookup_insert_ne by done. destruct (threads s !! x) as [thx|]; [|done]. cbn.
  destruct (decide (_process thx = pid)) as [->|]; [by rewrite lookup_insert_eq, Hp|by rewrite lookup_insert_ne].
Qed.

Lemma fresh_thread s t : wf s → threads s !! t = None → kidle s ≠ t ∧ cur_thread s ≠ t.
Proof.
  intros Hw Hfresh. split; intros E; [pose proof (w_idle _ Hw) as Hi; unfold runnable, state_of in Hi; by rewrite E, Hfresh in Hi|].
  destruct (w_cur _ Hw) as [? Hcur]. rewrite E in Hcur. congruence.
Qed.

Lemma spawned_wf s pid p t : wf s → procs s !! pid = Some p → pid ∈ processes s → p_state p = ALIVE → threads s !! t = None →
  wf (spawned s pid p t).
Proof.
  intros Hw Hp Hpid Hal Hfresh. destruct (fresh_thread s t Hw Hfresh) as [Hkt Hct]. set (p' := more_tids p t).
  assert (t ∉ _tids p) as Htp by (intros Hin; destruct (w_tids _ Hw pid p t Hp Hin) as (?&?&_); congruence). split; cbn.
  - intros x thx Hx. destruct (decide (x = t)) as [->|].
    + rewrite lookup_insert_eq in Hx. injection Hx as <-. cbn. exists p'. rewrite lookup_insert_eq. split_and!; [done| |done].
      apply elem_of_app. right. by left.
    + rewrite lookup_insert_ne in Hx by done. destruct (w_process _ Hw x thx Hx) as (q&Hq0&Hin&?). destruct (decide (_process thx = pid)) as [E|].
      * exists p'. rewrite E in *. rewrite lookup_insert_eq. split_and!; [done| |done]. apply elem_of_app. left. congruence.
      * exists q. by rewrite lookup_insert_ne.
  - intros pid' q x Hq0 Hin. assert (x = t ∧ pid' = pid ∨ ∃ q0, procs s !! pid' = Some q0 ∧ x ∈ _tids q0) as [[-> ->]|(q0&Hq1&Hin')].
    { destruct (decide (pid' = pid)) as [->|]; [|rewrite lookup_insert_ne in Hq0 by done; by eauto]. rewrite lookup_insert_eq in Hq0.
      injection Hq0 as <-. cbn in Hin. apply elem_of_app in Hin as [?|?%list_elem_of_singleton]; [by eauto|by left]. }
    + exists (new_thread pid). by rewrite lookup_insert_eq.
    + destruct (w_tids _ Hw pid' q0 x Hq1 Hin') as (thx&Hx&?). exists thx. rewrite lookup_insert_ne by congruence. done.
  - intros pid' q Hq0. destruct (decide (pid' = pid)) as [->|]; [|rewrite lookup_insert_ne in Hq0 by done; by apply (w_nodup _ Hw pid')].
    rewrite lookup_insert_eq in Hq0. injection Hq0 as <-. cbn. apply NoDup_app. split_and!; [by apply (w_nodup _ Hw pid)| |apply NoDup_singleton].
    intros x Hx ->%list_elem_of_singleton. done.
  - intros pid' Hin. destruct (w_processes _ Hw pid' Hin) as [q Hq0].
    destruct (decide (pid' = pid)) as [->|]; [rewrite lookup_insert_eq|rewrite lookup_insert_ne by done]; by eauto.
  - apply (w_listed _ Hw).
  - intros x thx Hx. destruct (decide (x = t)) as [->|].
    + rewrite lookup_insert_eq in Hx. by injection Hx as <-.
    + rewrite lookup_insert_ne in Hx by done. by apply (w_blocked _ Hw x).
  - intros pid' q x thx Hq0 Hs Hin Hx. destruct (decide (pid' = pid)) as [->|].
    + rewrite lookup_insert_eq in Hq0. injection Hq0 as <-. cbn in Hs. congruence.
    + rewrite lookup_insert_ne in Hq0 by done. destruct (w_tids _ Hw pid' q x Hq0 Hin) as (thx0&Hx0&_).
      rewrite lookup_insert_ne in Hx by congruence. by apply (w_stopped _ Hw pid' q x).
  - rewrite lookup_insert_ne by done. apply (w_cur _ Hw).
  - unfold runnable. rewrite spawned_state by done. apply (w_idle _ Hw).
Qed.

Lemma spawned_queue s l pid p t : queue_of s l → threads s !! t = None → queue_of (spawned s pid p t) l.
Proof.
  intros [Hh Hnd Hnext Hprev Hoth Hidle] Hfresh. assert (t ∉ l) as Htl.
  { intros Hin. destruct (linked_dom _ _ _ t Hnext Hin) as [? ?]. congruence. }
  split; cbn; [done|done| | | |done].
  - eapply linked_ext; [exact Hnext|]. intros x Hx. by rewrite lookup_insert_ne by (by intros <-).
  - destruct l as [|x r]; [done|]. eapply linked_back_ext; [exact Hprev|]. intros y Hy. rewrite lookup_insert_ne; [done|]. intros <-. apply Htl. by right.
  - intros x thx Hx Hxl. destruct (decide (x = t)) as [->|]; [rewrite lookup_insert_eq in Hx; by injection Hx as <-|].
    rewrite lookup_insert_ne in Hx by done. by apply (Hoth x).
Qed.

Lemma spawn_spec s l pid p t : sched_inv s l → procs s !! pid = Some p → pid ∈ processes s → p_state p = ALIVE → threads s !! t = None →
  ∃ s' l', spawn s pid t = Done s' ∧ sched_inv s' l' ∧ l `prefix_of` l'.
Proof.
  intros (Hw&Hq&Hc) Hp Hpid Hal Hfresh. unfold spawn. rewrite (the_Done _ _ _ Hp). cbn [mbind outcome_bind].
  destruct (queue_thread_covers (spawned s pid p t) l t (λ _, False)) as (s'&l'&E&_&_&Hw'&Hq'&Hp'&Hcv').
  - by apply spawned_wf.
  - by apply spawned_queue.
  - cbn. by rewrite lookup_insert_eq.
  - intros x Hx. destruct (decide (x = t)); [tauto|]. unfold runnable in Hx. rewrite spawned_state in Hx by done.
    destruct (Hc x Hx) as [?|[?|[?|[]]]]; tauto.
  - exists s', l'. split; [done|]. split; [by split_and!|done].
Qed.

(** ** New processes *)

Definition created s pid t (kernel : bool) : sched := with_processes (new_process s pid t kernel) (processes s ++ [pid]).

Lemma thread_not_of s pid t th : wf s → procs s !! pid = None → threads s !! t = Some th → _process th ≠ pid.
Proof. intros Hw Hp Ht E. destruct (w_process _ Hw t th Ht) as (q&Hq&_). congruence. Qed.

Lemma created_state s pid t kernel x : wf s → procs s !! pid = None → x ≠ t → state_of (created s pid t kernel) x = state_of s x.
Proof.
  intros Hw Hp Hxt. unfold state_of. cbn. rewrite lookup_insert_ne by done. destruct (threads s !! x) as [thx|] eqn:Ex; [|done]. cbn.
  rewrite lookup_insert_ne; [done|]. intros E. by apply (thread_not_of s pid x thx).
Qed.

Lemma created_wf s pid t kernel : wf s → procs s !! pid = None → threads s !! t = None → wf (created s pid t kernel).
Proof.
  intros Hw Hp Hfresh. destruct (fresh_thread s t Hw Hfresh) as [Hkt Hct]. set (p' := mk_process ALIVE kernel [t] false 1).
  assert (pid ∉ processes s) as Hnew by (intros [? ?]%(w_processes _ Hw); congruence). split; cbn.
  - intros x thx. rewrite lookup_insert_Some. intros [[<- <-]|[Hne Hx]]; cbn.
    + exists p'. rewrite lookup_insert_eq. split_and!; [done|by left|]. apply elem_of_app. right. by left.
    + destruct (w_process _ Hw x thx Hx) as (q&Hq&Hin&Hps). exists q. rewrite lookup_insert_ne by (intros E; by apply (thread_not_of s pid x thx)).
      split_and!; [done|done|]. apply elem_of_app. by left.
  - intros pid' q x. rewrite lookup_insert_Some. intros [[<- <-]|[Hne Hq]] Hin; cbn in Hin.
    + apply list_elem_of_singleton in Hin as ->. eexists. by rewrite lookup_insert_eq.
    + destruct (w_tids _ Hw pid' q x Hq Hin) as (thx&Hx&?). exists thx. by rewrite lookup_insert_ne by congruence.
  - intros pid' q. rewrite lookup_insert_Some. intros [[<- <-]|[Hne Hq]]; [apply NoDup_singleton|by apply (w_nodup _ Hw pid')].
  - intros pid' Hin. apply elem_of_app in Hin as [Hin|Hin%list_elem_of_singleton]; [|subst pid'; rewrite lookup_insert_eq; by eauto].
    rewrite lookup_insert_ne by (by intros <-). by apply (w_processes _ Hw).
  - apply NoDup_app. split_and!; [apply (w_listed _ Hw)| |apply NoDup_singleton]. by intros x Hx ->%list_elem_of_singleton.
  - intros x thx. rewrite lookup_insert_Some. intros [[<- <-]|[Hne Hx]]; [done|]. by apply (w_blocked _ Hw x).
  - intros pid' q x thx. rewrite !lookup_insert_Some. intros [[<- <-]|[Hne Hq]] Hs Hin; [done|]. destruct (w_tids _ Hw pid' q x Hq Hin) as (?&Hx0&_).
    intros [[<- _]|[_ Hx]]; [congruence|]. by apply (w_stopped _ Hw pid' q x).
  - rewrite lookup_insert_ne by done. apply (w_cur _ Hw).
  - unfold runnable. rewrite created_state by done. apply (w_idle _ Hw).
Qed.

Lemma created_queue s l pid t kernel : queue_of s l → threads s !! t = None → queue_of (created s pid t kernel) l.
Proof. intros Hq Hfresh. by apply (queue_of_ext _ _ _ (spawned_queue s l pid (mk_process ALIVE kernel [] false 1) t Hq Hfresh)). Qed.

Lemma create_spec s l pid t kernel : sched_inv s l → procs s !! pid = None → threads s !! t = None →
  ∃ s' l', add_process (new_process s pid t kernel) pid = Done s' ∧ sched_inv s' l' ∧ l `prefix_of` l'.
Proof.
  intros (Hw&Hq&Hc) Hp Hfresh. unfold add_process. cbn [new_process procs with_procs]. rewrite (the_Done _ _ (mk_process ALIVE kernel [t] false 1)) by apply lookup_insert_eq.
  cbn [mbind outcome_bind _tids queue_all]. change (get_thread _ t) with (threads (created s pid t kernel) !! t). cbn [created threads with_processes new_process with_procs with_threads].
  rewrite lookup_insert_eq. fold (created s pid t kernel).
  destruct (queue_thread_covers (created s pid t kernel) l t (λ _, False)) as (s'&l'&E&_&_&Hw'&Hq'&Hp'&Hcv').
  - by apply created_wf.
  - by apply created_queue.
  - cbn. by rewrite lookup_insert_eq.
  - intros x Hx. destruct (decide (x = t)); [tauto|]. unfold runnable in Hx. rewrite created_state in Hx by done.
    destruct (Hc x Hx) as [?|[?|[?|[]]]]; tauto.
  - exists s', l'. split; [|split; [by split_and!|done]]. change (with_processes (new_process s pid t kernel) (processes (new_process s pid t kernel) ++ [pid])) with (created s pid t kernel).
    by rewrite E.
Qed.

(** ** Processes without threads *)

(** Threads are of the other processes. *)
Lemma empty_process s pid p x th : wf s → procs s !! pid = Some p → _tids p = [] → threads s !! x = Some th → _process th ≠ pid.
Proof.
  intros Hw Hp Hnil Hx E. destruct (w_process _ Hw x th Hx) as (q&Hq&Hin&_). rewrite E, Hp in Hq. injection Hq as <-. rewrite Hnil in Hin. by apply elem_of_nil in Hin.
Qed.

(** The state after a process without threads has changed or gone. *)
Lemma other_procs_inv s l pid p ps (ls : list Z) : sched_inv s l → procs s !! pid = Some p → _tids p = [] →
  (∀ q, q ≠ pid → ps !! q = procs s !! q) → (∀ p', ps !! pid = Some p' → _tids p' = []) →
  NoDup ls → (∀ q, q ∈ ls → q ∈ processes s ∧ is_Some (ps !! q)) → (∀ q, q ∈ processes s → q ≠ pid → q ∈ ls) →
  sched_inv (with_procs (with_processes s ls) ps) l.
Proof.
  intros (Hw&Hq&Hc) Hp Hnil Hps Hpid Hnd Hls Hls'.
  assert (∀ x, state_of (with_procs (with_processes s ls) ps) x = state_of s x) as Hst.
  { intros x. unfold state_of. cbn. destruct (threads s !! x) as [th|] eqn:Ex; [|done]. cbn. by rewrite Hps by (by apply (empty_process s pid p x)). }
  split_and!; [split; cbn|by apply (queue_of_ext s)|].
  - intros x th Hx. pose proof (empty_process s pid p x th Hw Hp Hnil Hx) as Hne. destruct (w_process _ Hw x th Hx) as (q&Hq0&Hin&?). exists q. rewrite Hps by done. auto.
  - intros pid' q x Hq0 Hin. destruct (decide (pid' = pid)) as [->|]; [rewrite (Hpid q Hq0) in Hin; by apply elem_of_nil in Hin|]. rewrite Hps in Hq0 by done. by apply (w_tids _ Hw pid' q).
  - intros pid' q Hq0. destruct (decide (pid' = pid)) as [->|]; [rewrite (Hpid q Hq0); apply NoDup_nil_2|]. rewrite Hps in Hq0 by done. by apply (w_nodup _ Hw pid').
  - intros pid' Hin. by apply Hls.
  - done.
  - apply (w_blocked _ Hw).
  - intros pid' q x thx Hq0 Hs Hin. destruct (decide (pid' = pid)) as [->|]; [rewrite (Hpid q Hq0) in Hin; by apply elem_of_nil in Hin|]. rewrite Hps in Hq0 by done. by apply (w_stopped _ Hw pid' q x).
  - apply (w_cur _ Hw).
  - unfold runnable. rewrite Hst. apply (w_idle _ Hw).
  - intros x Hx. apply (Hc x). unfold runnable in *. by rewrite <-Hst.
Qed.

Lemma end_process_spec s l pid p : sched_inv s l → procs s !! pid = Some p → _tids p = [] → ∃ s', end_process s pid = Done s' ∧ sched_inv s' l.
Proof.
  intros Hi Hp Hnil. unfold end_process. rewrite (the_Done _ _ _ Hp). eexists. split; [done|]. pose proof Hi as (Hw&_).
  apply (other_procs_inv s l pid p (<[pid := set_p_state ZOMBIE p]> (procs s)) (processes s)); try done.
  - intros q Hne. by rewrite lookup_insert_ne.
  - intros p'. rewrite lookup_insert_eq. by intros [= <-].
  - apply (w_listed _ Hw).
  - intros q Hin. split; [done|]. destruct (decide (q = pid)) as [->|]; [rewrite lookup_insert_eq; by eauto|rewrite lookup_insert_ne by done; by apply (w_processes _ Hw)].
Qed.

Lemma remove_process_spec s l pid p : sched_inv s l → procs s !! pid = Some p → _tids p = [] → sched_inv (remove_process s pid) l.
Proof.
  intros Hi Hp Hnil. pose proof Hi as (Hw&_). apply (other_procs_inv s l pid p); try done.
  - intros q Hne. by rewrite lookup_delete_ne.
  - intros p'. by rewrite lookup_delete_eq.
  - apply erase_tid_nodup, (w_listed _ Hw).
  - intros q [Hin Hne]%erase_tid_elem; [|apply (w_listed _ Hw)]. split; [done|]. rewrite lookup_delete_ne by done. by apply (w_processes _ Hw).
  - intros q Hin Hne. by apply erase_tid_elem; [apply (w_listed _ Hw)|].
Qed.
