(* ===== verification/SchedulerRun.v ===== *)
(** * Runs of the scheduler

    The steps of a kernel that schedules threads, and what holds in every run: no thread
    that can run is lost, preemption never fails, and waiting is bounded. *)

From stdpp Require Import base numbers list option gmap relations.
From S2P Require Import Prelude.
From S2P Require Import Scheduler.
From S2P Require Import SchedulerInv.
From S2P Require Import SchedulerSteps.

Local Open Scope Z_scope.

Implicit Types (l : list Z) (s : sched) (t x y pid : Z).

(** ** Steps *)

(** What happens between preemptions: blockers get ready or come into being, the current thread blocks,
    stops or ends, threads are interrupted, get signals, are created and reaped, processes are created, stopped
    and continued, and end when they have no thread left.  The idle thread does none of these, and the threads of its
    process do not stop. *)
Inductive other_step : sched → sched → Prop :=
  | step_ready s bs : (∀ b, is_Some (blockers s !! b) → is_Some (bs !! b)) → other_step s (with_blockers s bs)
  | step_block s b yields s' : cur_thread s ≠ kidle s → block s b = Done (yields, s') → other_step s s'
  | step_interrupt s t r s' : is_Some (threads s !! t) → interrupt s t = Done (r, s') → other_step s s'
  | step_signal s t sig s' : is_Some (threads s !! t) → queue_signal s t sig = Done s' → other_step s s'
  | step_stop s pid r s' : is_Some (procs s !! pid) → stop s pid = Done (r, s') → other_step s s'
  | step_stop_self s s' : runnable s (cur_thread s) →
      (∀ th p, threads s !! cur_thread s = Some th → procs s !! _process th = Some p → kidle s ∉ _tids p) →
      stop_if_should_stop s = Done s' → other_step s s'
  | step_cont s pid s' : is_Some (procs s !! pid) → cont s pid = Done s' → other_step s s'
  | step_die s s' : cur_thread s ≠ kidle s → runnable s (cur_thread s) → die s = Done s' → other_step s s'
  | step_reap s t s' : state_of s t = Some DEAD → t ≠ cur_thread s → t ≠ kidle s → reap s t = Done s' → other_step s s'
  | step_spawn s pid p t s' : procs s !! pid = Some p → pid ∈ processes s → p_state p = ALIVE → threads s !! t = None →
      spawn s pid t = Done s' → other_step s s'
  | step_create s pid t kernel s' : procs s !! pid = None → threads s !! t = None →
      add_process (new_process s pid t kernel) pid = Done s' → other_step s s'
  | step_end s pid p s' : procs s !! pid = Some p → _tids p = [] → end_process s pid = Done s' → other_step s s'
  | step_remove s pid p : procs s !! pid = Some p → _tids p = [] → other_step s (remove_process s pid).

Inductive sched_step : sched → sched → Prop :=
  | step_preempt s b s' : preempt s b = Done s' → sched_step s s'
  | step_other s s' : other_step s s' → sched_step s s'.

(** A thread in the queue does not move back. *)
Definition keeps l s' l' : Prop := ∀ l1 t l2, l = l1 ++ t :: l2 → runnable s' t →
  ∃ l1' l2', l' = l1' ++ t :: l2' ∧ (length l1' ≤ length l1)%nat.

Lemma keeps_prefix l s' l' : l `prefix_of` l' → keeps l s' l'.
Proof. intros [r ->] l1 t l2 -> _. exists l1, (l2 ++ r). by rewrite <-app_assoc. Qed.

Lemma other_step_inv s l s' : sched_inv s l → other_step s s' → ∃ l', sched_inv s' l' ∧ keeps l s' l'.
Proof.
  intros Hi Hst. destruct Hst as [s bs Hb|s b yields s' Hk E|s t r s' Ht E|s t sig s' Ht E|s pid r s' Hp E|s s' Hr Hk E|s pid s' Hp E|
    s s' Hk Hr E|s t s' Hd Hc Hk E|s pid p t s' Hp Hin Ha Hf E|s pid t kernel s' Hp Hf E|s pid p s' Hp Hnil E|s pid p Hp Hnil].
  - exists l. split; [by apply inv_blockers|by apply keeps_prefix].
  - exists l. split; [by eapply block_spec|by apply keeps_prefix].
  - destruct (interrupt_spec s l t Hi Ht) as (r'&s1&l1&E1&Hi1&Hp1&_). assert (s1 = s') as -> by congruence. exists l1. split; [done|by apply keeps_prefix].
  - destruct (queue_signal_spec s l t sig Hi Ht) as (s1&E1&Hi1). assert (s1 = s') as -> by congruence. exists l. split; [done|by apply keeps_prefix].
  - destruct (stop_spec s l pid Hi Hp) as (r'&s1&l1&E1&Hi1&Hp1). assert (s1 = s') as -> by congruence. exists l1. split; [done|by apply keeps_prefix].
  - exists l. split; [by eapply stop_self_spec|by apply keeps_prefix].
  - destruct (cont_spec s l pid Hi Hp) as (s1&l1&E1&Hi1&Hp1). assert (s1 = s') as -> by congruence. exists l1. split; [done|by apply keeps_prefix].
  - destruct (die_spec s l Hi Hk Hr) as (s1&E1&Hi1). assert (s1 = s') as -> by congruence. exists l. split; [done|by apply keeps_prefix].
  - destruct (reap_spec s l t s' Hi Hc Hk E) as [Hi' Hne]. eexists. split; [exact Hi'|]. intros l1 x l2 -> Hx. specialize (Hne x Hx).
    exists (filter (λ y, y ≠ t) l1), (filter (λ y, y ≠ t) l2). rewrite filter_app, filter_cons_True by done. split; [done|]. apply length_filter.
  - destruct (spawn_spec s l pid p t Hi Hp Hin Ha Hf) as (s1&l1&E1&Hi1&Hp1). assert (s1 = s') as -> by congruence. exists l1. split; [done|by apply keeps_prefix].
  - destruct (create_spec s l pid t kernel Hi Hp Hf) as (s1&l1&E1&Hi1&Hp1). assert (s1 = s') as -> by congruence. exists l1. split; [done|by apply keeps_prefix].
  - destruct (end_process_spec s l pid p Hi Hp Hnil) as (s1&E1&Hi1). assert (s1 = s') as -> by congruence. exists l. split; [done|by apply keeps_prefix].
  - exists l. split; [by apply (remove_process_spec s l pid p)|by apply keeps_prefix].
Qed.

(** The scheduler when it starts: the idle thread runs, alone.  The other processes and threads of [TaskManager::init] are created by steps. *)
Definition booted s : Prop := ∃ pid th p, threads s = {[ kidle s := th ]} ∧ procs s = {[ pid := p ]} ∧ processes s = [pid] ∧
  _process th = pid ∧ _state th = ALIVE ∧ _blocker th = None ∧ m_next th = None ∧ p_state p = ALIVE ∧ _tids p = [kidle s] ∧
  g_next_thread s = None ∧ cur_thread s = kidle s.

Lemma booted_inv s : booted s → sched_inv s [].
Proof.
  intros (pid&th&p&Ht&Hp&Hps&Epid&Hst&Hb&Hn&Hpst&Htids&Hg&Hc).
  assert (∀ t th', threads s !! t = Some th' → t = kidle s ∧ th' = th) as Hth by (rewrite Ht; by intros t th' [<- <-]%lookup_singleton_Some).
  assert (∀ q p', procs s !! q = Some p' → q = pid ∧ p' = p) as Hpr by (rewrite Hp; by intros q p' [<- <-]%lookup_singleton_Some).
  assert (threads s !! kidle s = Some th) as Htk by (rewrite Ht; apply lookup_singleton_eq).
  assert (procs s !! pid = Some p) as Hpp by (rewrite Hp; apply lookup_singleton_eq).
  assert (state_of s (kidle s) = Some ALIVE) as Hal by (unfold state_of; rewrite Htk; cbn; rewrite Epid, Hpp; cbn; by rewrite decide_True, Hst).
  split_and!.
  - split.
    + intros t th' [-> ->]%Hth. exists p. rewrite Epid, Htids, Hps. split_and!; [done|by left|by left].
    + intros q p' t [-> ->]%Hpr. rewrite Htids. intros ->%list_elem_of_singleton. eauto.
    + intros q p' [-> ->]%Hpr. rewrite Htids. apply NoDup_singleton.
    + rewrite Hps. intros q ->%list_elem_of_singleton. eauto.
    + rewrite Hps. apply NoDup_singleton.
    + intros t th' [-> ->]%Hth. rewrite Hb, Hst. done.
    + intros q p' t th' [-> ->]%Hpr ?. congruence.
    + rewrite Hc. eauto.
    + done.
  - split; try done; [apply NoDup_nil_2| |apply not_elem_of_nil]. intros t th' [-> ->]%Hth _. done.
  - intros t Hrun. left. unfold runnable, state_of in Hrun. destruct (threads s !! t) as [th'|] eqn:E; [|done]. by destruct (Hth t th' E).
Qed.

Lemma sched_step_inv s l s' : sched_inv s l → sched_step s s' → ∃ l', sched_inv s' l'.
Proof.
  intros Hi Hst. destruct Hst as [s0 b s1 E|s0 s1 Ho].
  - destruct (preempt_spec s0 l b Hi) as (s2&l2&E2&Hi2&_). assert (s2 = s1) as -> by congruence. eauto.
  - destruct (other_step_inv s0 l s1 Hi Ho) as (l'&Hi'&_). eauto.
Qed.

Lemma sched_reach s s' : booted s → rtc sched_step s s' → ∃ l, sched_inv s' l.
Proof.
  intros Hb Hr. assert (∃ l, sched_inv s l) as Hi by (eexists; by apply booted_inv). clear Hb.
  induction Hr as [|s1 s2 s3 Hst _ IH]; [done|]. apply IH. destruct Hi as [l Hi]. by eapply sched_step_inv.
Qed.

Lemma can_runnable s t : wf s → can_be_run s t = Done true → runnable s t.
Proof.
  intros Hw Ht. assert (is_Some (threads s !! t)) as Hd; [|rewrite (can_be_run_of s t Hw Hd) in Ht; by injection Ht as Ht%bool_decide_eq_true].
  unfold can_be_run, thread_state, the in Ht. destruct (threads s !! t); by eauto.
Qed.

Lemma runnable_can s t : runnable s t → can_be_run s t = Done true.
Proof. intros H. unfold can_be_run. by rewrite (thread_state_of s t ALIVE H). Qed.

(** [runs t n s s']: a run from [s] to [s'] in which [n] preemptions picked another thread, and [t] could run all along. *)
Inductive runs t : nat → sched → sched → Prop :=
  | runs_nil s : runs t 0 s s
  | runs_preempt n s b s1 s2 : runnable s t → preempt s b = Done s1 → cur_thread s1 ≠ t → runs t n s1 s2 → runs t (S n) s s2
  | runs_other n s s1 s2 : other_step s s1 → runnable s1 t → runs t n s1 s2 → runs t n s s2.

Lemma runs_bounded t n s s' : runs t n s s' → ∀ l l1 l2, sched_inv s l → l = l1 ++ t :: l2 → (n ≤ length l1)%nat.
Proof.
  induction 1 as [s|n s b s1 s2 Hrun E Hne _ IH|n s s1 s2 Ho Hrun _ IH]; intros l l1 l2 Hi El; [lia| |].
  - destruct (preempt_spec s l b Hi) as (s3&l3&E3&Hi3&_&_&Hadv&_). assert (s3 = s1) as -> by congruence.
    destruct (Hadv l1 t l2 El Hrun) as [?|(l1'&l2'&El'&Hlt)]; [done|]. specialize (IH l3 l1' l2' Hi3 El'). lia.
  - destruct (other_step_inv s l s1 Hi Ho) as (l'&Hi'&Hk). destruct (Hk l1 t l2 El Hrun) as (l1'&l2'&El'&Hle).
    specialize (IH l' l1' l2' Hi' El'). lia.
Qed.

(** ** The promises of the scheduler *)

(** C7: In every state that a run from boot reaches, the run queue is a well-formed doubly linked list
    without the idle thread, in which no thread is twice, and every thread that can run is the idle thread, the current thread or
    in the queue: none is lost, whatever threads and processes were blocked, stopped, continued, interrupted, signalled, created, ended
    or reaped.  (The process of the idle thread is not stopped.) *)
Theorem scheduler_loses_no_thread s s' : booted s → rtc sched_step s s' →
  ∃ l, queue_of s' l ∧ ∀ t, can_be_run s' t = Done true → t = kidle s' ∨ t = cur_thread s' ∨ t ∈ l.
Proof.
  intros Hb Hr. destruct (sched_reach s s' Hb Hr) as [l (Hw&Hq&Hc)]. exists l. split; [done|]. intros t Ht.
  destruct (Hc t (can_runnable s' t Hw Ht)) as [?|[?|[?|[]]]]; auto.
Qed.

(** C20: In every state that a run from boot reaches, [preempt] returns: it meets no assertion, no dangling pointer and no cycle in the
    queue.  The thread it switches to can run, and every thread that could run still can.  When it got the
    process lock, every thread of a live process whose blocker is ready or interrupted can run after it.  Runs are those of
    [scheduler_loses_no_thread]: any number of processes is created, stopped, continued and ended in them. *)
Theorem scheduler_preempts s s' try_processes : booted s → rtc sched_step s s' →
  ∃ s2, preempt s' try_processes = Done s2 ∧ can_be_run s2 (cur_thread s2) = Done true ∧
    (∀ t, can_be_run s' t = Done true → can_be_run s2 t = Done true) ∧
    (try_processes = true → ∀ t th p, threads s' !! t = Some th → procs s' !! _process th = Some p → p_state p = ALIVE →
      should_unblock s' t = Done true → can_be_run s2 t = Done true).
Proof.
  intros Hb Hr. destruct (sched_reach s s' Hb Hr) as [l Hi]. destruct (preempt_spec s' l try_processes Hi) as (s2&l2&E&(Hw2&_)&Hcur&Hkeep&_&Hwake).
  destruct Hi as (Hw&_). exists s2. split; [done|]. split; [by apply runnable_can|]. split.
  - intros t Ht. by apply runnable_can, Hkeep, can_runnable.
  - intros Ht t th p Hth Hp Hal Hu. apply runnable_can, (Hwake Ht t th p Hth Hp Hal). unfold should_unblock in Hu. rewrite (the_Done _ _ _ Hth) in Hu.
    cbn in Hu. destruct (_blocker th) as [b|] eqn:Eb; [|done]. unfold the in Hu. destruct (blockers s' !! b) as [bl|] eqn:Ebl; [|done].
    exists b, bl. by injection Hu as Hu.
Qed.

(** C19: Waiting is bounded.  In every state that a run from boot reaches, a thread at position [k] of the queue that stays able to
    run sees at most [k] preemptions that pick another thread, however the other
    operations of the scheduler interleave: at the latest the next one runs it. *)
Theorem scheduler_waits_bounded s s' s2 t n : booted s → rtc sched_step s s' → runs t n s' s2 → can_be_run s' t = Done true →
  t ≠ kidle s' → t ≠ cur_thread s' →
  ∃ l1 l2, queue_of s' (l1 ++ t :: l2) ∧ (n ≤ length l1)%nat.
Proof.
  intros Hb Hr Hruns Ht Hk Hc. destruct (sched_reach s s' Hb Hr) as [l Hi]. pose proof Hi as (Hw&Hq&Hcov).
  destruct (Hcov t (can_runnable s' t Hw Ht)) as [?|[?|[Hin|[]]]]; [done..|]. apply list_elem_of_split in Hin as (l1&l2&->).
  exists l1, l2. split; [done|]. by apply (runs_bounded t n s' s2 Hruns (l1 ++ t :: l2) l1 l2).
Qed.

(** ** A run *)

(** The kernel process 0 with the idle thread 1. *)
Definition boot : sched :=
  mk_sched {[ 1 := mk_thread 0 ALIVE None 0 None None false false false ]} {[ 0 := mk_process ALIVE true [1] false 1 ]} [0] ∅ None 1 1.

Lemma boot_booted : booted boot.
Proof. eexists _, _, _. split_and!; reflexivity. Qed.

Definition ran {A} (f : A → sched) (o : outcome A) : sched := match o with Done x => f x | _ => boot end.

(** Threads 2 and 3 start; 2 runs. *)
Definition run1 := ran id (spawn boot 0 2).
Definition run2 := ran id (spawn run1 0 3).
Definition run3 := ran id (preempt run2 true).

Lemma reach2 : rtc sched_step boot run2.
Proof.
  apply (rtc_l _ _ run1); [|apply (rtc_l _ _ run2); [|apply rtc_refl]]; apply step_other.
  - by apply (step_spawn boot 0 (mk_process ALIVE true [1] false 1) 2 run1); vm_compute; try constructor.
  - by apply (step_spawn run1 0 (mk_process ALIVE true [1; 2] false 1) 3 run2); vm_compute; try constructor.
Qed.

Lemma reach3 : rtc sched_step boot run3.
Proof. eapply rtc_r; [apply reach2|]. apply (step_preempt run2 true). by vm_compute. Qed.

(** Thread 2 blocks on 7, thread 3 runs, and 7 gets ready. *)
Definition run4 := with_blockers run3 {[ 7 := mk_blocker false true false ]}.
Definition run5 := ran snd (block run4 7).
Definition run6 := ran id (preempt run5 true).
Definition run7 := with_blockers run6 {[ 7 := mk_blocker true true false ]}.

Lemma reach7 : rtc sched_step boot run7.
Proof.
  etrans; [apply reach3|].
  apply (rtc_l _ _ run4); [apply step_other, step_ready; vm_compute; by intros b [? ?]|].
  apply (rtc_l _ _ run5); [apply step_other, (step_block run4 7 true); by vm_compute|].
  apply (rtc_l _ _ run6); [apply (step_preempt run5 true); by vm_compute|].
  apply (rtc_l _ _ run7); [|apply rtc_refl]. apply step_other, step_ready. intros b [x Hx].
  assert (b = 7) as ->; [|eexists; vm_compute; reflexivity]. change (blockers run6) with ({[ 7 := mk_blocker false true false ]} : gmap Z blocker) in Hx.
  by apply lookup_singleton_Some in Hx as [<- _].
Qed.

(** Process 5 starts with thread 5, which runs; the process is stopped and then continued. *)
Definition life1 := ran id (add_process (new_process boot 5 5 false) 5).
Definition life2 := ran id (preempt life1 true).
Definition life3 := ran snd (stop life2 5).
Definition life4 := ran id (stop_if_should_stop life3).
Definition life5 := ran id (preempt life4 true).
Definition life6 := ran id (cont life5 5).

Lemma process_stopped : p_state <$> procs life5 !! 5 = Some STOPPED ∧ cur_thread life5 = kidle life5.
Proof. by vm_compute. Qed.

Lemma reach_life6 : rtc sched_step boot life6.
Proof.
  apply (rtc_l _ _ life1); [apply step_other, (step_create boot 5 5 false); by vm_compute|].
  apply (rtc_l _ _ life2); [apply (step_preempt life1 true); by vm_compute|].
  apply (rtc_l _ _ life3); [apply step_other, (step_stop life2 5 true); [vm_compute; by eexists|by vm_compute]|].
  apply (rtc_l _ _ life4); [apply step_other, step_stop_self; [by vm_compute| |by vm_compute]|].
  { intros th p Hth Hp. vm_compute in Hth. injection Hth as <-. vm_compute in Hp. injection Hp as <-. by intros ?%list_elem_of_singleton. }
  apply (rtc_l _ _ life5); [apply (step_preempt life4 true); by vm_compute|].
  apply (rtc_l _ _ life6); [apply step_other, (step_cont life5 5); [vm_compute; by eexists|by vm_compute]|apply rtc_refl].
Qed.

(** The thread that was stopped is in the queue again. *)
Lemma scheduler_loses_no_thread_witness : ∃ l, queue_of life6 l ∧ 5 ∈ l.
Proof.
  destruct (scheduler_loses_no_thread boot life6 boot_booted reach_life6) as (l&Hq&Hl). exists l. split; [exact Hq|].
  destruct (Hl 5) as [E|[E|Hin]]; [vm_compute; reflexivity|vm_compute in E; discriminate E|vm_compute in E; discriminate E|exact Hin].
Defined.

(** Preemption wakes thread 2. *)
Lemma scheduler_preempts_witness : ∃ s2, preempt run7 true = Done s2 ∧ can_be_run s2 2 = Done true.
Proof.
  destruct (scheduler_preempts boot run7 true boot_booted reach7) as (s2&E&_&_&Hw). exists s2. split; [exact E|].
  eapply (Hw eq_refl 2); vm_compute; reflexivity.
Defined.

(** Thread 3 waits while thread 2 runs. *)
Lemma scheduler_waits_bounded_witness : ∃ l1 l2, queue_of run2 (l1 ++ 3 :: l2) ∧ (1 ≤ length l1)%nat.
Proof.
  apply (scheduler_waits_bounded boot run2 run3 3 1 boot_booted reach2); try (by vm_compute).
  apply (runs_preempt 3 0 run2 true run3); [by vm_compute..|apply runs_nil].
Defined.

(** ** What reaping reads *)

(** Thread 2 ends and is reaped while 3 runs; then 3 ends.  Thread 3 still has 2 as the one in front of it
    when it is reaped, which has been freed. *)
Definition end1 := ran id (die run3).
Definition end2 := ran id (preempt end1 true).
Definition end3 := ran id (reap end2 2).
Definition end4 := ran id (die end3).
Definition end5 := ran id (preempt end4 true).

Lemma reap_reads_freed : rtc sched_step boot end5 ∧ state_of end5 3 = Some DEAD ∧ reap end5 3 = Undef.
Proof.
  split_and!; [|by vm_compute..]. etrans; [apply reach3|].
  apply (rtc_l _ _ end1); [apply step_other, step_die; by vm_compute|].
  apply (rtc_l _ _ end2); [apply (step_preempt end1 true); by vm_compute|].
  apply (rtc_l _ _ end3); [apply step_other, (step_reap end2 2); by vm_compute|].
  apply (rtc_l _ _ end4); [apply step_other, step_die; by vm_compute|].
  apply (rtc_l _ _ end5); [apply (step_preempt end4 true); by vm_compute|apply rtc_refl].
Qed.
