(* ===== verification/ByteBuf.v ===== *)
(** * Buffers of bytes

    Blocks of a disk and structures in them as lists of bytes: slices, copies into a
    buffer, and little-endian fields of 16 and 32 bits. *)

From stdpp Require Import base numbers list list_numbers option.
From S2P Require Import Prelude.

Local Open Scope Z_scope.

Implicit Types (l b : list Z) (off n i x : Z).

Abbreviation zlength l := (Z.of_nat (length l)).

(** [n] bytes at [off]; [memcpy] of [b] to [off]; [n] zero bytes. *)
Definition slice off n l : list Z := take (Z.to_nat n) (drop (Z.to_nat off) l).
Definition splice l off b : list Z := take (Z.to_nat off) l ++ b ++ drop (Z.to_nat off + length b) l.
Definition zeroes n : list Z := replicate (Z.to_nat n) 0.

Definition bytes l : Prop := Forall (λ x, 0 ≤ x < 2 ^ 8) l.

(** ** Slices *)

Lemma length_slice off n l : 0 ≤ off → 0 ≤ n → off + n ≤ zlength l → zlength (slice off n l) = n.
Proof. intros. unfold slice. rewrite length_take, length_drop. lia. Qed.

Lemma lookup_slice off n l (i : nat) : 0 ≤ off → slice off n l !! i = if decide (Z.of_nat i < n) then l !! (Z.to_nat off + i)%nat else None.
Proof.
  intros. unfold slice. case_decide.
  - rewrite lookup_take_lt by lia. by rewrite lookup_drop.
  - rewrite lookup_take_ge; [done|lia].
Qed.

Lemma slice_all n l : zlength l ≤ n → slice 0 n l = l.
Proof. intros. unfold slice. rewrite drop_0. apply take_ge. lia. Qed.

Lemma length_zeroes n : 0 ≤ n → zlength (zeroes n) = n.
Proof. intros. unfold zeroes. rewrite length_replicate. lia. Qed.

Lemma lookup_zeroes n (i : nat) : zeroes n !! i = if decide (Z.of_nat i < n) then Some 0 else None.
Proof.
  unfold zeroes. case_decide; [apply lookup_replicate_2; lia|]. apply lookup_ge_None. rewrite length_replicate. lia.
Qed.

Lemma bytes_zeroes n : bytes (zeroes n).
Proof. unfold bytes, zeroes. apply Forall_replicate. lia. Qed.

Lemma bytes_slice off n l : bytes l → bytes (slice off n l).
Proof. intros. unfold bytes, slice. by apply Forall_take, Forall_drop. Qed.

(** ** Copying into a buffer *)

Lemma length_splice l off b : 0 ≤ off → off + zlength b ≤ zlength l → length (splice l off b) = length l.
Proof. intros. unfold splice. rewrite !length_app, length_take, length_drop. lia. Qed.

Lemma lookup_splice l off b (i : nat) : 0 ≤ off → off + zlength b ≤ zlength l →
  splice l off b !! i = if decide (off ≤ Z.of_nat i < off + zlength b) then b !! (i - Z.to_nat off)%nat else l !! i.
Proof.
  intros. unfold splice. case_decide.
  - rewrite lookup_app_r by (rewrite length_take; lia). rewrite length_take. rewrite lookup_app_l by lia. f_equal. lia.
  - destruct (decide (Z.of_nat i < off)).
    + rewrite lookup_app_l by (rewrite length_take; lia). apply lookup_take_lt. lia.
    + rewrite lookup_app_r by (rewrite length_take; lia). rewrite length_take. rewrite lookup_app_r by lia. rewrite lookup_drop. f_equal. lia.
Qed.

Lemma bytes_splice l off b : bytes l → bytes b → bytes (splice l off b).
Proof. intros. unfold bytes, splice. by apply Forall_app_2; [apply Forall_take|apply Forall_app_2; [|apply Forall_drop]]. Qed.

Lemma slice_splice l off b : 0 ≤ off → off + zlength b ≤ zlength l → slice off (zlength b) (splice l off b) = b.
Proof.
  intros. apply list_eq. intros i. rewrite lookup_slice by done. case_decide.
  - rewrite lookup_splice by done. rewrite decide_True by lia. f_equal. lia.
  - symmetry. apply lookup_ge_None. lia.
Qed.

Lemma slice_splice_eq l off n b : zlength b = n → 0 ≤ off → off + n ≤ zlength l → slice off n (splice l off b) = b.
Proof. intros <-. apply slice_splice. Qed.

Lemma slice_splice_other l off b o n : 0 ≤ off → 0 ≤ o → off + zlength b ≤ zlength l → o + n ≤ off ∨ off + zlength b ≤ o →
  slice o n (splice l off b) = slice o n l.
Proof.
  intros. apply list_eq. intros i. rewrite !lookup_slice by done. case_decide; [|done]. rewrite lookup_splice by done. by rewrite decide_False by lia.
Qed.

(** A slice of what has been copied, or around it. *)
Lemma slice_slice o n o' n' l : 0 ≤ o → 0 ≤ o' → o' + n' ≤ n → slice o' n' (slice o n l) = slice (o + o') n' l.
Proof.
  intros. apply list_eq. intros i. rewrite !lookup_slice by lia. case_decide; [|done]. rewrite decide_True by lia. f_equal. lia.
Qed.

Lemma slice_splice_around l off b o n : 0 ≤ o → o ≤ off → off + zlength b ≤ o + n → o + n ≤ zlength l →
  slice o n (splice l off b) = splice (slice o n l) (off - o) b.
Proof.
  intros. assert (zlength (slice o n l) = n) as Hn by (apply length_slice; lia). apply list_eq. intros i.
  rewrite lookup_slice, !lookup_splice by lia. rewrite lookup_slice by lia. destruct (decide (Z.of_nat i < n)).
  - case_decide; [rewrite decide_True by lia; f_equal; lia|by rewrite decide_False by lia].
  - rewrite decide_False by lia. done.
Qed.

Lemma splice_all l b : length b = length l → splice l 0 b = b.
Proof. intros Hl. unfold splice. cbn. rewrite drop_ge by lia. by rewrite app_nil_r. Qed.

Lemma splice_slice l off n : 0 ≤ off → 0 ≤ n → off + n ≤ zlength l → splice l off (slice off n l) = l.
Proof.
  intros. assert (zlength (slice off n l) = n) as Hn by (apply length_slice; lia). apply list_eq. intros i. rewrite lookup_splice by lia.
  case_decide; [|done]. rewrite lookup_slice by lia. rewrite decide_True by lia. f_equal. lia.
Qed.

Lemma slice_app off n m l : 0 ≤ off → 0 ≤ n → 0 ≤ m → slice off n l ++ slice (off + n) m l = slice off (n + m) l.
Proof.
  intros. unfold slice. rewrite (Z2Nat.inj_add n m), (Z2Nat.inj_add off n) by lia. rewrite <-drop_drop. generalize (drop (Z.to_nat off) l) as k. intros k. rewrite <-(take_drop (Z.to_nat n) k) at 3.
  destruct (decide (Z.to_nat n ≤ length k)%nat).
  - rewrite take_app_ge by (rewrite length_take; lia). rewrite length_take. do 2 f_equal. lia.
  - rewrite (drop_ge k) by lia. rewrite take_nil, !app_nil_r, take_take. f_equal. lia.
Qed.

Lemma splice_app l off b1 b2 : 0 ≤ off → off + zlength b1 + zlength b2 ≤ zlength l →
  splice (splice l off b1) (off + zlength b1) b2 = splice l off (b1 ++ b2).
Proof.
  intros. assert (zlength (splice l off b1) = zlength l) as Hl by (rewrite length_splice; lia). apply list_eq. intros i.
  rewrite lookup_splice by lia. rewrite (lookup_splice _ _ (b1 ++ b2)) by (rewrite ?length_app; lia). rewrite (lookup_splice _ _ b1) by lia.
  rewrite length_app. destruct (decide (Z.of_nat i < off)); [by rewrite !decide_False by lia|].
  destruct (decide (Z.of_nat i < off + zlength b1)); [rewrite decide_False, !decide_True by lia; by rewrite lookup_app_l by lia|].
  destruct (decide (Z.of_nat i < off + zlength b1 + zlength b2)); [|by rewrite !decide_False by lia].
  rewrite !decide_True by lia. rewrite lookup_app_r by lia. f_equal. lia.
Qed.

Lemma splice_splice v o n p b : 0 ≤ o → 0 ≤ p → p + zlength b ≤ n → o + n ≤ zlength v → splice v o (splice (slice o n v) p b) = splice v (o + p) b.
Proof.
  intros. replace p with (o + p - o) at 1 by lia. rewrite <-slice_splice_around by lia. apply list_eq. intros i.
  assert (zlength (splice v (o + p) b) = zlength v) as Hl by (rewrite length_splice; lia).
  rewrite lookup_splice; rewrite ?length_slice; try lia. case_decide; [|by rewrite lookup_splice, decide_False by lia].
  rewrite lookup_slice by lia. rewrite decide_True by lia. f_equal. lia.
Qed.

Lemma slice_nil off l : slice off 0 l = [].
Proof. done. Qed.

Lemma splice_nil l off : 0 ≤ off → off ≤ zlength l → splice l off [] = l.
Proof. intros. unfold splice. cbn. rewrite Nat.add_0_r. apply take_drop. Qed.

(** ** Little-endian fields *)

Definition le16 x : list Z := Z_to_little_endian 2 8 x.
Definition le32 x : list Z := Z_to_little_endian 4 8 x.
Definition get8 l off : Z := little_endian_to_Z 8 (slice off 1 l).
Definition get16 l off : Z := little_endian_to_Z 8 (slice off 2 l).
Definition get32 l off : Z := little_endian_to_Z 8 (slice off 4 l).
Definition put8 l off x : list Z := splice l off [u8 x].
Definition put16 l off x : list Z := splice l off (le16 x).
Definition put32 l off x : list Z := splice l off (le32 x).

Lemma length_le16 x : length (le16 x) = 2%nat.
Proof. pose proof (length_Z_to_little_endian 2 8 x ltac:(lia)). unfold le16. lia. Qed.
Lemma length_le32 x : length (le32 x) = 4%nat.
Proof. pose proof (length_Z_to_little_endian 4 8 x ltac:(lia)). unfold le32. lia. Qed.
Lemma bytes_le16 x : bytes (le16 x).
Proof. apply Z_to_little_endian_bound; lia. Qed.
Lemma bytes_le32 x : bytes (le32 x).
Proof. apply Z_to_little_endian_bound; lia. Qed.

Lemma length_put16 l off x : 0 ≤ off → off + 2 ≤ zlength l → length (put16 l off x) = length l.
Proof. intros. apply length_splice; [done|]. by rewrite length_le16. Qed.
Lemma length_put32 l off x : 0 ≤ off → off + 4 ≤ zlength l → length (put32 l off x) = length l.
Proof. intros. apply length_splice; [done|]. by rewrite length_le32. Qed.
Lemma bytes_put16 l off x : bytes l → bytes (put16 l off x).
Proof. intros. apply bytes_splice; [done|apply bytes_le16]. Qed.
Lemma bytes_put32 l off x : bytes l → bytes (put32 l off x).
Proof. intros. apply bytes_splice; [done|apply bytes_le32]. Qed.

Lemma get16_range l off : bytes l → 0 ≤ get16 l off < 2 ^ 16.
Proof.
  intros Hl. pose proof (little_endian_to_Z_bound 8 (slice off 2 l) ltac:(lia) (bytes_slice off 2 l Hl)) as Hb.
  unfold get16. assert (length (slice off 2 l) ≤ 2)%nat by (unfold slice; rewrite length_take; lia).
  pose proof (Z.pow_le_mono_r 2 (zlength (slice off 2 l) * 8) 16 ltac:(lia) ltac:(lia)). lia.
Qed.

Lemma get32_range l off : bytes l → 0 ≤ get32 l off < 2 ^ 32.
Proof.
  intros Hl. pose proof (little_endian_to_Z_bound 8 (slice off 4 l) ltac:(lia) (bytes_slice off 4 l Hl)) as Hb.
  unfold get32. assert (length (slice off 4 l) ≤ 4)%nat by (unfold slice; rewrite length_take; lia).
  pose proof (Z.pow_le_mono_r 2 (zlength (slice off 4 l) * 8) 32 ltac:(lia) ltac:(lia)). lia.
Qed.

Lemma get16_put16 l off x : 0 ≤ off → off + 2 ≤ zlength l → get16 (put16 l off x) off = u16 x.
Proof.
  intros. unfold get16, put16. change 2 with (Z.of_nat 2) at 1. rewrite <-(length_le16 x). rewrite slice_splice by (rewrite ?length_le16; lia).
  unfold le16. rewrite little_endian_to_Z_to_little_endian by lia. done.
Qed.

Lemma get32_put32 l off x : 0 ≤ off → off + 4 ≤ zlength l → get32 (put32 l off x) off = u32 x.
Proof.
  intros. unfold get32, put32. change 4 with (Z.of_nat 4) at 1. rewrite <-(length_le32 x). rewrite slice_splice by (rewrite ?length_le32; lia).
  unfold le32. rewrite little_endian_to_Z_to_little_endian by lia. done.
Qed.

(** Fields that do not overlap. *)
Lemma get16_put16_other l off x o : 0 ≤ off → off + 2 ≤ zlength l → 0 ≤ o → o + 2 ≤ off ∨ off + 2 ≤ o → get16 (put16 l off x) o = get16 l o.
Proof. intros. unfold get16, put16. by rewrite slice_splice_other by (rewrite ?length_le16; lia). Qed.
Lemma get16_put32_other l off x o : 0 ≤ off → off + 4 ≤ zlength l → 0 ≤ o → o + 2 ≤ off ∨ off + 4 ≤ o → get16 (put32 l off x) o = get16 l o.
Proof. intros. unfold get16, put32. by rewrite slice_splice_other by (rewrite ?length_le32; lia). Qed.
Lemma get32_put16_other l off x o : 0 ≤ off → off + 2 ≤ zlength l → 0 ≤ o → o + 4 ≤ off ∨ off + 2 ≤ o → get32 (put16 l off x) o = get32 l o.
Proof. intros. unfold get32, put16. by rewrite slice_splice_other by (rewrite ?length_le16; lia). Qed.
Lemma get32_put32_other l off x o : 0 ≤ off → off + 4 ≤ zlength l → 0 ≤ o → o + 4 ≤ off ∨ off + 4 ≤ o → get32 (put32 l off x) o = get32 l o.
Proof. intros. unfold get32, put32. by rewrite slice_splice_other by (rewrite ?length_le32; lia). Qed.

(** A field of a slice. *)
Lemma get16_slice l o n off : 0 ≤ o → 0 ≤ off → off + 2 ≤ n → get16 (slice o n l) off = get16 l (o + off).
Proof. intros. unfold get16. by rewrite slice_slice by lia. Qed.
Lemma get32_slice l o n off : 0 ≤ o → 0 ≤ off → off + 4 ≤ n → get32 (slice o n l) off = get32 l (o + off).
Proof. intros. unfold get32. by rewrite slice_slice by lia. Qed.

Lemma get32_zeroes n off : 0 ≤ off → get32 (zeroes n) off = 0.
Proof.
  intros. unfold get32, slice, zeroes. rewrite drop_replicate, take_replicate. generalize (Z.to_nat 4 `min` (Z.to_nat n - Z.to_nat off))%nat as k.
  induction k as [|k IH]; [done|]. cbn [replicate little_endian_to_Z]. by rewrite IH.
Qed.

(** Fields hold numbers modulo their width, and the last write counts. *)
Lemma le32_u32 x : le32 (u32 x) = le32 x.
Proof.
  rewrite <-(Z_to_little_endian_to_Z 4 8 (le32 x)) at 1; [|by rewrite length_le32|lia|apply bytes_le32].
  unfold le32 at 2. rewrite little_endian_to_Z_to_little_endian by lia. done.
Qed.

Lemma splice_twice l off b1 b2 : length b1 = length b2 → 0 ≤ off → off + zlength b1 ≤ zlength l → splice (splice l off b1) off b2 = splice l off b2.
Proof.
  intros Hb Ho Hl. assert (zlength (splice l off b1) = zlength l) as Hs by (rewrite length_splice; lia). apply list_eq. intros i.
  rewrite !lookup_splice by lia. rewrite <-Hb. by case_decide.
Qed.

Lemma put32_twice l off x y : 0 ≤ off → off + 4 ≤ zlength l → put32 (put32 l off x) off y = put32 l off y.
Proof. intros. unfold put32. rewrite splice_twice; rewrite ?length_le32; lia || done. Qed.

Lemma bytes_app l1 l2 : bytes l1 → bytes l2 → bytes (l1 ++ l2).
Proof. apply Forall_app_2. Qed.

(** Bytes of a list of which a part is known. *)
Lemma slice_app_l n l1 l2 : zlength l1 = n → slice 0 n (l1 ++ l2) = l1.
Proof. intros <-. unfold slice. rewrite drop_0, Nat2Z.id. apply take_app_length. Qed.
Lemma slice_app_r off n l1 l2 : zlength l1 ≤ off → 0 ≤ off → slice off n (l1 ++ l2) = slice (off - zlength l1) n l2.
Proof. intros. unfold slice. rewrite drop_app_ge by lia. do 2 f_equal. lia. Qed.

Lemma get32_le32 x l : 0 ≤ x < 2 ^ 32 → get32 (le32 x ++ l) 0 = x.
Proof.
  intros. unfold get32. rewrite slice_app_l by (by rewrite length_le32). unfold le32. rewrite little_endian_to_Z_to_little_endian by lia. by rewrite Z.mod_small.
Qed.
Lemma get16_le16 x l : 0 ≤ x < 2 ^ 16 → get16 (le16 x ++ l) 0 = x.
Proof.
  intros. unfold get16. rewrite slice_app_l by (by rewrite length_le16). unfold le16. rewrite little_endian_to_Z_to_little_endian by lia. by rewrite Z.mod_small.
Qed.
Lemma get32_skip off l1 l2 : zlength l1 ≤ off → 0 ≤ off → get32 (l1 ++ l2) off = get32 l2 (off - zlength l1).
Proof. intros. unfold get32. by rewrite slice_app_r. Qed.
Lemma get16_skip off l1 l2 : zlength l1 ≤ off → 0 ≤ off → get16 (l1 ++ l2) off = get16 l2 (off - zlength l1).
Proof. intros. unfold get16. by rewrite slice_app_r. Qed.

Lemma put32_get32 l off : bytes l → 0 ≤ off → off + 4 ≤ zlength l → put32 l off (get32 l off) = l.
Proof.
  intros Hl Ho Hlen. unfold put32, get32, le32. rewrite Z_to_little_endian_to_Z; [by apply splice_slice; lia|rewrite length_slice; lia|lia|by apply bytes_slice].
Qed.

Lemma put32_u32 l off x : put32 l off (u32 x) = put32 l off x.
Proof. unfold put32. by rewrite le32_u32. Qed.
