(* ===== verification/LRUCache.v ===== *)
(** * Least-recently-used caches (kernel/kstd/LRUCache.h)

    A map and the list of its keys in the order in which they were last used, refined
    to a list of entries in that order.  [m_map] is a finite map, which is what
    [AvlMap] proves of [kstd::map]. *)

From stdpp Require Import base numbers list option gmap relations.
From S2P Require Import Prelude.

Local Open Scope Z_scope.

Section lru.
Context {V : Type}.

Record lru_cache := mk_lru {
  m_map : gmap Z V;
  m_lru_list : list Z;
}.

Definition lru_empty : lru_cache := mk_lru ∅ [].

(** The loop that looks for a key in the list and erases it. *)
Fixpoint erase_key (key : Z) (l : list Z) : list Z :=
  match l with [] => [] | x :: l => if x =? key then l else x :: erase_key key l end.

Definition contains_key (key : Z) (l : list Z) : bool := bool_decide (key ∈ l).

Definition promote (c : lru_cache) (key : Z) : lru_cache :=
  if contains_key key (m_lru_list c) then mk_lru (m_map c) (erase_key key (m_lru_list c) ++ [key]) else c.

Definition lru_insert (c : lru_cache) (key : Z) (value : V) : lru_cache :=
  match m_map c !! key with
  | Some _ => promote (mk_lru (<[key := value]> (m_map c)) (m_lru_list c)) key
  | None => mk_lru (<[key := value]> (m_map c)) (m_lru_list c ++ [key])
  end.

Definition lru_erase (c : lru_cache) (key : Z) : lru_cache := mk_lru (delete key (m_map c)) (erase_key key (m_lru_list c)).

Definition lru_get (c : lru_cache) (key : Z) : option V * lru_cache :=
  match m_map c !! key with Some v => (Some v, promote c key) | None => (None, c) end.

Fixpoint prune (num : nat) (c : lru_cache) : lru_cache :=
  match num, m_lru_list c with
  | S num, key :: l => prune num (mk_lru (delete key (m_map c)) l)
  | _, _ => c
  end.

(** [lru_unsafe]; [m_map[key]] of a key that is not there is not modelled. *)
Definition lru_unsafe (c : lru_cache) : outcome (Z * V) :=
  match m_lru_list c with
  | [] => Panic
  | key :: _ => match m_map c !! key with Some v => Done (key, v) | None => Undef end
  end.

(** ** Entries in the order of their use *)

Implicit Types (l : list (Z * V)) (c : lru_cache).

Record lru_of c l : Prop := {
  lo_keys : m_lru_list c = l.*1;
  lo_map : m_map c = list_to_map l;
  lo_nodup : NoDup l.*1;
}.

Definition without (key : Z) l : list (Z * V) := filter (λ e, e.1 ≠ key) l.

Lemma erase_key_notin key (ks : list Z) : key ∉ ks → erase_key key ks = ks.
Proof.
  induction ks as [|x ks IH]; cbn; [done|]. intros [Hx Hks]%not_elem_of_cons. destruct (Z.eqb_spec x key); [done|]. by rewrite IH.
Qed.

Lemma without_cons key x v l : without key ((x, v) :: l) = if decide (x = key) then without key l else (x, v) :: without key l.
Proof. unfold without. case_decide; [by rewrite filter_cons_False by (cbn; tauto)|by rewrite filter_cons_True]. Qed.

Lemma without_notin key l : key ∉ l.*1 → without key l = l.
Proof.
  induction l as [|[x v] l IH]; [done|]. intros [Hx Hl]%not_elem_of_cons. rewrite without_cons, decide_False by (cbn in *; congruence).
  f_equal. by apply IH.
Qed.

Lemma erase_key_without key l : NoDup l.*1 → erase_key key l.*1 = (without key l).*1.
Proof.
  induction l as [|[x v] l IH]; [done|]. intros [Hx Hl]%NoDup_cons. rewrite without_cons.
  change (((x, v) :: l).*1) with (x :: l.*1). cbn [erase_key]. destruct (Z.eqb_spec x key) as [->|Hne].
  - rewrite decide_True by done. by rewrite (without_notin key l).
  - rewrite decide_False by done. change (((x, v) :: without key l).*1) with (x :: (without key l).*1). f_equal. by apply IH.
Qed.

Lemma elem_without key x l : x ∈ (without key l).*1 ↔ x ≠ key ∧ x ∈ l.*1.
Proof.
  rewrite !list_elem_of_fmap. split.
  - intros ([y v]&->&[Hy Hin]%list_elem_of_filter). cbn in *. split; [done|]. by exists (y, v).
  - intros (Hne&[y v]&->&Hin). exists (y, v). split; [done|]. by apply list_elem_of_filter.
Qed.

Lemma nodup_without key l : NoDup l.*1 → NoDup (without key l).*1.
Proof.
  induction l as [|[x v] l IH]; [done|]. intros [Hx Hl]%NoDup_cons. rewrite without_cons. case_decide; [by apply IH|].
  change (((x, v) :: without key l).*1) with (x :: (without key l).*1). apply NoDup_cons. split; [|by apply IH].
  rewrite (elem_without key x l). by intros [].
Qed.

Lemma map_without key l : (list_to_map (without key l) : gmap Z V) = delete key (list_to_map l).
Proof.
  induction l as [|[x v] l IH]; [symmetry; apply delete_empty|]. rewrite without_cons. change (list_to_map ((x, v) :: l) : gmap Z V) with (<[x := v]> (list_to_map l) : gmap Z V).
  case_decide as Hx.
  - subst x. rewrite IH. by rewrite delete_insert_eq.
  - change (<[x := v]> (list_to_map (without key l) : gmap Z V) = delete key (<[x := v]> (list_to_map l))).
    rewrite IH. by rewrite delete_insert_ne.
Qed.

Lemma map_snoc key v l : key ∉ l.*1 → (list_to_map (l ++ [(key, v)]) : gmap Z V) = <[key := v]> (list_to_map l).
Proof. intros Hk. rewrite list_to_map_snoc; [done|]. done. Qed.

Lemma nodup_snoc key v l : NoDup l.*1 → key ∉ l.*1 → NoDup (l ++ [(key, v)]).*1.
Proof.
  intros Hl Hk. rewrite fmap_app. apply NoDup_app. split_and!; [done| |apply NoDup_singleton].
  intros x Hx ->%list_elem_of_singleton. done.
Qed.

Lemma lru_of_elem c l key : lru_of c l → key ∈ m_lru_list c ↔ is_Some (m_map c !! key).
Proof.
  intros [-> -> _]. split.
  - intros Hk. destruct ((list_to_map l : gmap Z V) !! key) eqn:E; [by eauto|]. by apply not_elem_of_list_to_map_2 in E.
  - intros [v Hv]. apply elem_of_list_to_map_2 in Hv. apply list_elem_of_fmap. by exists (key, v).
Qed.

(** What [promote] and [get] do to an entry. *)
Lemma promote_entry c l key v : lru_of c l → m_map c !! key = Some v → lru_of (promote c key) (without key l ++ [(key, v)]).
Proof.
  intros Hc Hv. pose proof (proj2 (lru_of_elem c l key Hc) ltac:(by eauto)) as Hin. destruct Hc as [Hk Hm Hn].
  unfold promote, contains_key. rewrite bool_decide_true by done.
  assert (key ∉ (without key l).*1) by (rewrite elem_without; by intros []). split; cbn.
  - by rewrite Hk, (erase_key_without key l Hn), fmap_app.
  - rewrite map_snoc, map_without, <-Hm by done. by rewrite insert_delete_id.
  - by apply nodup_snoc; [apply nodup_without|].
Qed.

Lemma get_entry c l key v c' : lru_of c l → lru_get c key = (Some v, c') →
  m_map c !! key = Some v ∧ lru_of c' (without key l ++ [(key, v)]) ∧ m_map c' = m_map c.
Proof.
  intros Hc. unfold lru_get. destruct (m_map c !! key) as [w|] eqn:E; [|done]. intros [= -> <-]. split_and!; [done|by apply promote_entry|].
  unfold promote. by destruct (contains_key _ _).
Qed.

Lemma insert_entry c l key v : lru_of c l → lru_of (lru_insert c key v) (without key l ++ [(key, v)]) ∧
  m_map (lru_insert c key v) = <[key := v]> (m_map c).
Proof.
  intros Hc. unfold lru_insert. destruct (m_map c !! key) as [w|] eqn:E.
  - destruct (promote_entry c l key w Hc E) as [Hk Hm Hn]. pose proof (proj2 (lru_of_elem c l key Hc) ltac:(by eauto)) as Hin.
    unfold promote, contains_key in *. cbn in *. rewrite bool_decide_true in * by done. cbn in *. rewrite fmap_app in *. split; [|done]. split; cbn.
    + by rewrite Hk, fmap_app.
    + rewrite list_to_map_snoc by (rewrite elem_without; by intros []). rewrite map_without, (lo_map _ _ Hc). by rewrite insert_delete_eq.
    + by rewrite fmap_app.
  - assert (key ∉ l.*1) as Hni by (rewrite <-(lo_keys _ _ Hc), (lru_of_elem c l key Hc), E; by intros []). destruct Hc as [Hk Hm Hn].
    split; [|done]. rewrite without_notin by done. split; cbn; [by rewrite Hk, fmap_app| |by apply nodup_snoc].
    by rewrite map_snoc, Hm.
Qed.

Lemma erase_entry c l key : lru_of c l → lru_of (lru_erase c key) (without key l).
Proof. intros [Hk Hm Hn]. split; cbn; [by rewrite Hk, erase_key_without|by rewrite Hm, map_without|by apply nodup_without]. Qed.

Lemma prune_entries num c l : lru_of c l → lru_of (prune num c) (drop num l).
Proof.
  revert c l. induction num as [|num IH]; intros c l Hc; [done|]. destruct Hc as [Hk Hm Hn]. cbn. destruct l as [|[key v] l]; cbn in *; rewrite Hk.
  - by split.
  - apply NoDup_cons in Hn as [Hni Hn]. apply IH. split; cbn; [done| |done]. rewrite Hm, delete_insert_id; [done|]. by apply not_elem_of_list_to_map_1.
Qed.

(** The value of an entry changes in place, as it does through a reference. *)
Definition replace_value (key : Z) (v : V) l : list (Z * V) := (λ e, if decide (e.1 = key) then (key, v) else e) <$> l.

Lemma replace_keys key v l : (replace_value key v l).*1 = l.*1.
Proof.
  unfold replace_value. rewrite <-list_fmap_compose. apply list_fmap_ext. intros i [x w] _. cbn. by case_decide.
Qed.

Lemma set_entry c l key v : lru_of c l → is_Some (m_map c !! key) → lru_of (mk_lru (<[key := v]> (m_map c)) (m_lru_list c)) (replace_value key v l).
Proof.
  intros [Hk Hm Hn] Hin. split; cbn; [by rewrite replace_keys| |by rewrite replace_keys]. rewrite Hm in *. clear Hk Hm c.
  induction l as [|[x w] l IH]; [by destruct Hin|]. apply NoDup_cons in Hn as [Hx Hn]. unfold replace_value. cbn. case_decide as Hxk; cbn in Hxk.
  - subst x. rewrite insert_insert_eq. f_equal. f_equal. fold (replace_value key v l). symmetry.
    unfold replace_value. rewrite <-(list_fmap_id l) at 2. apply list_fmap_ext. intros i [x u] Hi. cbn. rewrite decide_False; [done|].
    intros ->. apply Hx. apply list_elem_of_fmap. exists (key, u). split; [done|]. by eapply list_elem_of_lookup_2.
  - cbn in Hin. rewrite lookup_insert_ne in Hin by done. rewrite insert_insert_ne by done. f_equal. by apply IH.
Qed.

Lemma lru_first c key v l : lru_of c ((key, v) :: l) → lru_unsafe c = Done (key, v).
Proof. intros [Hk Hm Hn]. unfold lru_unsafe. rewrite Hk, Hm. cbn. by rewrite lookup_insert_eq. Qed.

End lru.
Arguments lru_cache : clear implicits.
