(* ===== verification/WordQueue.v ===== *)
(** * kstd::queue<size_t> (kernel/kstd/queue.hpp)

    The queue of Queue.v at numbers.  A cell that holds no element still holds a number: zero from
    [kcalloc], or what was there last, since the destructor of a number does nothing.  [contains] looks at
    such cells, because it stops at [(_back + 1) % _size] and not at the end of the queue, so it may find a
    number that is not in the queue and may miss one that is.  The queue is smaller than memory: its
    capacity does not reach 2^32. *)

From stdpp Require Import base numbers list list_numbers option.
From S2P Require Import Prelude.
From S2P Require Import ByteBuf.

Local Open Scope Z_scope.

(** [_capacity] is the length of the storage; the null pointer is the storage without cells. *)
Record word_queue := mk_words {
  wq_storage : list Z;
  wq_size : Z;
  wq_front : Z;
  wq_back : Z;
}.

Definition wq_capacity (q : word_queue) : Z := zlength (wq_storage q).
Definition wq_new : word_queue := mk_words [] 0 0 0.
Definition wq_cell (q : word_queue) (i : Z) : Z := default 0 (wq_storage q !! Z.to_nat i).

(** [realloc], to a larger capacity. *)
Definition wq_realloc (q : word_queue) (new_capacity : Z) : word_queue :=
  if wq_capacity q =? 0 then mk_words (zeroes new_capacity) (wq_size q) (wq_front q) (wq_back q)
  else mk_words (((λ i, wq_cell q ((wq_front q + i) mod wq_capacity q)) <$> seqZ 0 (wq_size q)) ++ zeroes (new_capacity - wq_size q))
         (wq_size q) 0 (wq_size q - 1).

Definition wq_push_back (q : word_queue) (elem : Z) : word_queue :=
  let q := if wq_size q =? wq_capacity q then wq_realloc q (if wq_capacity q =? 0 then 1 else wq_capacity q * 2) else q in
  let '(f, b) := if wq_size q =? 0 then (0, 0) else (wq_front q, (wq_back q + 1) mod wq_capacity q) in
  mk_words (<[Z.to_nat b := elem]> (wq_storage q)) (wq_size q + 1) f b.

Definition wq_pop_front (q : word_queue) : outcome (Z * word_queue) :=
  _ ← kassert (negb (wq_size q =? 0));
  let sz := wq_size q - 1 in
  let '(f, b) := if sz =? 0 then (0, 0) else ((wq_front q + 1) mod wq_capacity q, wq_back q) in
  Done (wq_cell q (wq_front q), mk_words (wq_storage q) sz f b).

(** The loop of [contains], at cell [i]. *)
Fixpoint wq_contains_loop (fuel : nat) (q : word_queue) (value i : Z) : outcome bool :=
  match fuel with
  | O => NoFuel
  | S fuel =>
      if wq_cell q i =? value then Done true
      else let i := (i + 1) mod wq_capacity q in
           if i =? (wq_back q + 1) mod wq_size q then Done false else wq_contains_loop fuel q value i
  end.

(** No cell is looked at twice. *)
Definition wq_contains (q : word_queue) (value : Z) : outcome bool :=
  if wq_size q =? 0 then Done false else wq_contains_loop (length (wq_storage q)) q value (wq_front q).

(** ** The elements of a queue *)

Record words (q : word_queue) (l : list Z) : Prop := {
  wo_size : wq_size q = zlength l;
  wo_room : zlength l ≤ wq_capacity q;
  wo_ends : l ≠ [] → 0 ≤ wq_front q < wq_capacity q ∧ wq_back q = (wq_front q + zlength l - 1) mod wq_capacity q;
  wo_cells i x : l !! i = Some x → wq_cell q ((wq_front q + Z.of_nat i) mod wq_capacity q) = x;
}.

Lemma words_new : words wq_new [].
Proof. by split. Qed.


Lemma wq_realloc_words q l : words q l → zlength l = wq_capacity q →
  words (wq_realloc q (if wq_capacity q =? 0 then 1 else wq_capacity q * 2)) l ∧
  zlength l < wq_capacity (wq_realloc q (if wq_capacity q =? 0 then 1 else wq_capacity q * 2)).
Proof.
  intros [Hsz Hr He Hc] Hfull. unfold wq_realloc. destruct (Z.eqb_spec (wq_capacity q) 0) as [E|E].
  - destruct l as [|x l]; [|cbn in *; lia]. split; [|done]. by split; cbn; [| |done|].
  - rewrite Hsz. set (l' := fmap _ _).
    assert (l' = l) as ->.
    { unfold l'. apply list_eq. intros i. rewrite list_lookup_fmap. destruct (l !! i) as [x|] eqn:Ei.
      - rewrite (lookup_seqZ_lt 0 _ i) by (apply lookup_lt_Some in Ei; lia). cbn. f_equal. apply Hc. by replace (0 + Z.of_nat i) with (Z.of_nat i) by lia.
      - apply lookup_ge_None in Ei. rewrite lookup_seqZ_ge by lia. done. }
    unfold wq_capacity in *. cbn [wq_storage]. rewrite length_app, Nat2Z.inj_add, (length_zeroes (_ - _)) by lia. split; [|destruct l; cbn in *; lia].
    split; cbn [wq_size wq_front wq_back wq_storage]; unfold wq_capacity; cbn [wq_storage]; rewrite ?length_app, ?Nat2Z.inj_add, ?(length_zeroes (_ - _)) by lia.
    + done.
    + lia.
    + intros Hne. destruct l; [done|]. cbn [length] in *. split; [lia|]. rewrite Z.mod_small; lia.
    + intros i x Hi. pose proof (lookup_lt_Some _ _ _ Hi). rewrite Z.add_0_l, Z.mod_small by lia. unfold wq_cell. cbn. rewrite Nat2Z.id.
      by rewrite lookup_app_l, Hi by done.
Qed.

Lemma wq_push_words q l x : words q l → words (wq_push_back q x) (l ++ [x]).
Proof.
  intros Hq. unfold wq_push_back. set (q' := if wq_size q =? wq_capacity q then _ else q).
  assert (words q' l ∧ zlength l < wq_capacity q') as [[Hsz Hr He Hc] Hlt].
  { unfold q'. rewrite (wo_size _ _ Hq). destruct (Z.eqb_spec (zlength l) (wq_capacity q)) as [E|E]; [by apply wq_realloc_words|].
    pose proof (wo_room _ _ Hq). split; [done|lia]. }
  clearbody q'. clear Hq q. rewrite Hsz. destruct (Z.eqb_spec (zlength l) 0) as [E|E].
  - destruct l as [|? l]; [|done]. split; unfold wq_capacity, wq_cell in *; cbn in *; rewrite ?length_insert; [done|lia|..].
    + intros _. rewrite Z.mod_small by lia. lia.
    + intros [|i] y; [|done]. intros [= <-]. rewrite Z.mod_0_l by lia. cbn. rewrite list_lookup_insert_eq by lia. done.
  - assert (l ≠ []) as Hne by (by intros ->). destruct (He Hne) as [Hf Hb]. set (c := wq_capacity q') in *.
    assert ((wq_back q' + 1) mod c = (wq_front q' + zlength l) mod c) as Hb'.
    { rewrite Hb, Zplus_mod_idemp_l. f_equal. lia. }
    rewrite Hb'. pose proof (Z.mod_pos_bound (wq_front q' + zlength l) c ltac:(lia)).
    split; unfold wq_capacity, wq_cell; cbn [wq_storage wq_size wq_front wq_back]; rewrite ?length_insert; fold (wq_capacity q'); fold c; rewrite ?length_app; cbn [length].
    + lia.
    + lia.
    + intros _. split; [done|]. f_equal. lia.
    + intros i y Hy. pose proof (Z.mod_pos_bound (wq_front q' + Z.of_nat i) c ltac:(lia)).
      apply lookup_app_Some in Hy as [Hy|[Hge Hy]].
      * pose proof (lookup_lt_Some _ _ _ Hy). rewrite list_lookup_insert_ne; [by apply Hc|]. intros Heq%Z2Nat.inj; [|lia..].
        assert ((wq_front q' + zlength l - (wq_front q' + Z.of_nat i)) mod c = 0) as Hz by (rewrite Zminus_mod, Heq, Z.sub_diag; done).
        rewrite Z.mod_small in Hz by lia. lia.
      * apply list_lookup_singleton_Some in Hy as [Hi <-]. replace i with (length l) by lia.
        rewrite list_lookup_insert_eq; [done|]. unfold c, wq_capacity in *. lia.
Qed.

Lemma wq_pop_words q x l : words q (x :: l) → ∃ q', wq_pop_front q = Done (x, q') ∧ words q' l.
Proof.
  intros [Hsz Hr He Hc]. destruct (He ltac:(done)) as [Hf Hb]. unfold wq_pop_front. rewrite Hsz. cbn [length] in *.
  destruct (Z.eqb_spec (Z.of_nat (S (length l))) 0); [lia|]. cbn [negb kassert mbind outcome_bind].
  replace (Z.of_nat (S (length l)) - 1) with (zlength l) by lia.
  assert (wq_cell q (wq_front q) = x) as ->.
  { pose proof (Hc 0%nat x eq_refl) as H0. cbn in H0. rewrite Z.add_0_r, Z.mod_small in H0 by lia. done. }
  destruct (Z.eqb_spec (zlength l) 0) as [E|E]; eexists; (split; [done|]).
  - destruct l; [|done]. split; cbn; [done| |done|done]. unfold wq_capacity in *. cbn in *. lia.
  - split; unfold wq_capacity in *; cbn [wq_storage wq_size wq_front wq_back].
    + done.
    + lia.
    + intros _. split; [apply Z.mod_pos_bound; lia|]. rewrite Hb. symmetry. rewrite <-Z.add_sub_assoc, Zplus_mod_idemp_l. f_equal. lia.
    + intros i y Hy. rewrite Zplus_mod_idemp_l. rewrite <-(Hc (S i) y Hy). unfold wq_cell. cbn [wq_storage].
      by replace (wq_front q + Z.of_nat (S i)) with (wq_front q + 1 + Z.of_nat i) by lia.
Qed.

(** The search ends. *)
Lemma wq_contains_loop_ends q value : 0 < wq_size q ≤ wq_capacity q → ∀ fuel i, 0 ≤ i < wq_capacity q →
  ((wq_back q + 1) mod wq_size q - i - 1) mod wq_capacity q < Z.of_nat fuel → ∃ b, wq_contains_loop fuel q value i = Done b.
Proof.
  intros Hs. pose proof (Z.mod_pos_bound (wq_back q + 1) (wq_size q) ltac:(lia)) as Ht. set (t := (wq_back q + 1) mod wq_size q) in *.
  set (c := wq_capacity q) in *. induction fuel as [|fuel IH]; intros i Hi Hf; pose proof (Z.mod_pos_bound (t - i - 1) c ltac:(lia)); [lia|].
  cbn [wq_contains_loop]. destruct (wq_cell q i =? value); [by eexists|]. fold t c. destruct (Z.eqb_spec ((i + 1) mod c) t) as [E|E]; [by eexists|].
  apply IH; [apply Z.mod_pos_bound; lia|]. replace (t - (i + 1) mod c - 1) with ((t - i - 1) - 1 + (i + 1 - (i + 1) mod c)) by lia.
  pose proof (Z.div_mod (i + 1) c ltac:(lia)) as Hd. replace (i + 1 - (i + 1) mod c) with ((i + 1) / c * c) by lia. rewrite Z.mod_add by lia.
  rewrite Zminus_mod. destruct (decide ((t - i - 1) mod c = 0)) as [E0|E0].
  { exfalso. apply E. apply Z.mod_divide in E0 as [k Hk]; [|lia]. rewrite <-(Z.mod_small t c) by lia.
    replace t with (i + 1 + k * c) by lia. by rewrite Z.mod_add by lia. }
  destruct (decide (c = 1)) as [->|]; [rewrite !Z.mod_1_r in *; lia|]. rewrite (Z.mod_small 1 c) by lia. rewrite Z.mod_small by lia. lia.
Qed.

Lemma wq_contains_ends q l value : words q l → ∃ b, wq_contains q value = Done b.
Proof.
  intros [Hsz Hr He _]. unfold wq_contains. rewrite Hsz. destruct (Z.eqb_spec (zlength l) 0); [by eexists|].
  assert (l ≠ []) as Hne by (by intros ->). destruct (He Hne) as [Hf _]. apply wq_contains_loop_ends; [lia|done|].
  apply (Z.mod_pos_bound _ (wq_capacity q)). lia.
Qed.

(** The front of a queue is found, and nothing is found in an empty queue. *)
Lemma wq_contains_front q x l : words q (x :: l) → wq_contains q x = Done true.
Proof.
  intros [Hsz Hr He Hc]. destruct (He ltac:(done)) as [Hf _]. unfold wq_contains. rewrite Hsz. cbn [length] in *. rewrite (proj2 (Z.eqb_neq _ _)) by lia.
  pose proof (Hc 0%nat x eq_refl) as H0. cbn in H0. rewrite Z.add_0_r, Z.mod_small in H0 by lia.
  unfold wq_capacity in *. destruct (wq_storage q) eqn:E; [cbn in *; lia|]. cbn [length wq_contains_loop]. by rewrite H0, Z.eqb_refl.
Qed.

Lemma wq_contains_empty q value : words q [] → wq_contains q value = Done false.
Proof. intros [Hsz _ _ _]. unfold wq_contains. by rewrite Hsz. Qed.
