(* ===== verification/Disk.v ===== *)
(** * Disks (kernel/device/DiskDevice.cpp, and the byte interface of
    kernel/arch/i386/device/PATADevice.cpp)

    A disk keeps pages of eight sectors in a cache, writes to the cache, and brings
    it back to the drive later: in the writeback task, or when memory is short.
    The drive itself ([read_uncached_blocks], [write_uncached_blocks]) is the class
    [Drive], and what the cache relies on is [DriveSpec]; Pata.v has the drive.

    A region of the cache is a shared object; the variable [cache_region] of the
    loops is the start of the region, under which the cache has it.  The locks make each
    access to a region atomic; here every operation is one step. *)

From stdpp Require Import base numbers list list_numbers option gmap relations.
From S2P Require Import Prelude.
From S2P Require Import ByteBuf.
From S2P Require Import LRUCache.
From S2P Require Import WordQueue.

Local Open Scope Z_scope.

(** ** The drive *)

Class Drive (H : Type) := {
  read_uncached_blocks : H → Z → Z → result (list Z);
  write_uncached_blocks : H → Z → list Z → result unit * H;
}.

(** [PATADevice::block_size], and [PAGE_SIZE]. *)
Definition block_size : Z := 512.
Definition PAGE_SIZE : Z := 4096.

(** The bytes on the drive, and that reads and writes inside it work. *)
Class DriveSpec (H : Type) `{Drive H} := {
  drive_bytes : H → list Z;
  read_uncached_ok h b n : 0 ≤ b → 0 ≤ n → block_size * (b + n) ≤ zlength (drive_bytes h) →
    read_uncached_blocks h b n = Ok (slice (block_size * b) (block_size * n) (drive_bytes h));
  write_uncached_ok h b l : 0 ≤ b → zlength l mod block_size = 0 → block_size * b + zlength l ≤ zlength (drive_bytes h) →
    ∃ h', write_uncached_blocks h b l = (Ok tt, h') ∧ drive_bytes h' = splice (drive_bytes h) (block_size * b) l;
}.

(** ** The cache *)

(** [BlockCacheRegion]; [data] is the page of the region. *)
Record region := mk_region {
  start_block : Z;
  data : list Z;
  last_used : Z;
  dirty : bool;
}.

Definition num_blocks : Z := PAGE_SIZE / block_size.
Definition has_block (r : region) (block : Z) : bool := (start_block r <=? block) && (block <? start_block r + num_blocks).
Definition block_data (r : region) (block : Z) : list Z := slice (block_size * (block - start_block r)) block_size (data r).

Section disk.
Context {H : Type} `{Drive H}.

Record disk := mk_disk {
  drive : H;
  _cache_regions : lru_cache region;
  _dirty_regions : word_queue;
  _max_addressable_block : Z;
}.

Definition with_drive (d : disk) (h : H) : disk := mk_disk h (_cache_regions d) (_dirty_regions d) (_max_addressable_block d).
Definition with_cache (d : disk) (c : lru_cache region) : disk := mk_disk (drive d) c (_dirty_regions d) (_max_addressable_block d).
Definition with_dirty (d : disk) (q : word_queue) : disk := mk_disk (drive d) (_cache_regions d) q (_max_addressable_block d).

Definition block_cache_region_start (block : Z) : Z := block - block mod num_blocks.

(** The region behind a pointer, and a change of it. *)
Definition region_at (d : disk) (start : Z) : outcome region :=
  match m_map (_cache_regions d) !! start with Some r => Done r | None => Undef end.
Definition set_region (d : disk) (start : Z) (r : region) : disk :=
  with_cache d (mk_lru (<[start := r]> (m_map (_cache_regions d))) (m_lru_list (_cache_regions d))).

(** [get_cache_region]; what the page holds when the drive fails is not defined. *)
Definition get_cache_region (d : disk) (now block : Z) : outcome (Z * disk) :=
  let start := block_cache_region_start block in
  match lru_get (_cache_regions d) start with
  | (Some _, c) => Done (start, with_cache d c)
  | (None, c) =>
      match read_uncached_blocks (drive d) start num_blocks with
      | Ok l => Done (start, with_cache d (lru_insert c start (mk_region start l now false)))
      | Err _ => Undef
      end
  end.

(** The region of a block: the one at hand, or another. *)
Definition region_for (d : disk) (now : Z) (cache_region : option Z) (block : Z) : outcome (Z * disk) :=
  match cache_region with
  | None => get_cache_region d now block
  | Some start => r ← region_at d start; if has_block r block then Done (start, d) else get_cache_region d now block
  end.

Fixpoint read_blocks_loop (count : nat) (d : disk) (now : Z) (cache_region : option Z) (block : Z) : outcome (list Z * disk) :=
  match count with
  | O => Done ([], d)
  | S count =>
      '(start, d) ← region_for d now cache_region block;
      r ← region_at d start;
      let d := set_region d start (mk_region (start_block r) (data r) now (dirty r)) in
      '(l, d) ← read_blocks_loop count d now (Some start) (block + 1);
      Done (block_data r block ++ l, d)
  end.

Definition read_blocks (d : disk) (now block count : Z) : outcome (result (list Z) * disk) :=
  '(l, d) ← read_blocks_loop (Z.to_nat count) d now None block; Done (Ok l, d).

(** The local function [invalidate_cache_region] of [write_blocks]. *)
Definition invalidate_cache_region (d : disk) (start : Z) : outcome disk :=
  present ← wq_contains (_dirty_regions d) start;
  Done (if (present : bool) then d else with_dirty d (wq_push_back (_dirty_regions d) start)).

Fixpoint write_blocks_loop (count : nat) (d : disk) (now : Z) (cache_region : option Z) (block : Z) (buffer : list Z) :
    outcome (option Z * disk) :=
  match count with
  | O => Done (cache_region, d)
  | S count =>
      '(start, d) ←
        (match cache_region with
         | None => get_cache_region d now block
         | Some start => r ← region_at d start;
                         if has_block r block then Done (start, d)
                         else d ← invalidate_cache_region d start; get_cache_region d now block
         end);
      r ← region_at d start;
      let d := set_region d start (mk_region (start_block r)
                 (splice (data r) (block_size * (block - start_block r)) (take (Z.to_nat block_size) buffer)) now true) in
      write_blocks_loop count d now (Some start) (block + 1) (drop (Z.to_nat block_size) buffer)
  end.

(** [write_blocks]; with no block at all it reads through a null pointer. *)
Definition write_blocks (d : disk) (now block count : Z) (buffer : list Z) : outcome (result unit * disk) :=
  '(cache_region, d) ← write_blocks_loop (Z.to_nat count) d now None block buffer;
  match cache_region with Some start => d ← invalidate_cache_region d start; Done (Ok tt, d) | None => Undef end.

(** ** Bringing the cache back to the drive *)

(** The search of [free_pages]: the device whose least recently used region is the oldest. *)
Fixpoint find_lru (ds : list disk) (i : nat) (best : option (nat * Z)) (lru_time : Z) : outcome (option (nat * Z)) :=
  match ds with
  | [] => Done best
  | d :: ds =>
      if bool_decide (m_lru_list (_cache_regions d) = []) then find_lru ds (S i) best lru_time
      else
        '(start, r) ← lru_unsafe (_cache_regions d);
        if last_used r <? lru_time then find_lru ds (S i) (Some (i, start)) (last_used r) else find_lru ds (S i) best lru_time
  end.

(** [Time::distant_future], in microseconds. *)
Definition distant_future : Z := 2147483647 * 1000000.

(** One region is written if necessary and goes. *)
Definition evict (d : disk) (start : Z) : outcome disk :=
  r ← region_at d start;
  let d := if dirty r then with_drive d (write_uncached_blocks (drive d) (start_block r) (data r)).2 else d in
  Done (with_cache d (prune 1 (_cache_regions d))).

(** [free_pages]: every turn frees one page. *)
Fixpoint free_pages (num_pages : nat) (ds : list disk) : outcome (Z * list disk) :=
  match num_pages with
  | O => Done (0, ds)
  | S n =>
      best ← find_lru ds 0 None distant_future;
      match best with
      | None => Done (0, ds)
      | Some (i, start) =>
          match ds !! i with
          | None => Undef
          | Some d => d ← evict d start; '(k, ds) ← free_pages n (<[i := d]> ds); Done (k + 1, ds)
          end
      end
  end.

(** What the writeback task does with one device; it ends, for good, when a region is not in the cache any
    more.  A turn takes one number off the queue. *)
Fixpoint writeback (fuel : nat) (d : disk) : outcome (bool * disk) :=
  if wq_size (_dirty_regions d) =? 0 then Done (true, d)
  else
    match fuel with
    | O => NoFuel
    | S fuel =>
        '(start, q) ← wq_pop_front (_dirty_regions d);
        let d := with_dirty d q in
        match lru_get (_cache_regions d) start with
        | (None, _) => Done (false, d)
        | (Some r, c) =>
            let d := with_drive (with_cache d c) (write_uncached_blocks (drive d) (start_block r) (data r)).2 in
            writeback fuel (set_region d start (mk_region (start_block r) (data r) (last_used r) false))
        end
    end.

(** ** Bytes *)

(** The loop of [PATADevice::read]. *)
Fixpoint pata_read_loop (fuel : nat) (d : disk) (now first_block first_block_start bytes_left blk : Z) : outcome (result (list Z) * disk) :=
  if bytes_left =? 0 then Done (Ok [], d)
  else if _max_addressable_block d <? blk then Done (Ok [], d)
  else
    match fuel with
    | O => NoFuel
    | S fuel =>
        '(res, d) ← read_blocks d now blk 1;
        match res with
        | Err e => Done (Err e, d)
        | Ok block_buf =>
            let off := if blk =? first_block then first_block_start else 0 in
            let to_copy := Z.min bytes_left (block_size - off) in
            '(rest, d) ← pata_read_loop fuel d now first_block first_block_start (bytes_left - to_copy) (blk + 1);
            match rest with
            | Err e => Done (Err e, d)
            | Ok l => Done (Ok (slice off to_copy block_buf ++ l), d)
            end
        end
    end.

Definition pata_read (d : disk) (now offset count : Z) : outcome (result (list Z) * disk) :=
  pata_read_loop (S (Z.to_nat count)) d now (offset / block_size) (offset mod block_size) count (offset / block_size).

(** The loop of [PATADevice::write]; [buffer] is what is left to write. *)
Fixpoint pata_write_loop (fuel : nat) (d : disk) (now first_block first_block_start : Z) (buffer : list Z) (blk : Z) : outcome (result unit * disk) :=
  if zlength buffer =? 0 then Done (Ok tt, d)
  else
    match fuel with
    | O => NoFuel
    | S fuel =>
        '(res, d) ← read_blocks d now blk 1;
        match res with
        | Err e => Done (Err e, d)
        | Ok block_buf =>
            let off := if blk =? first_block then first_block_start else 0 in
            let to_copy := Z.min (zlength buffer) (block_size - off) in
            '(res, d) ← write_blocks d now blk 1 (splice block_buf off (take (Z.to_nat to_copy) buffer));
            match res with
            | Err e => Done (Err e, d)
            | Ok _ => pata_write_loop fuel d now first_block first_block_start (drop (Z.to_nat to_copy) buffer) (blk + 1)
            end
        end
    end.

Definition pata_write (d : disk) (now offset : Z) (buffer : list Z) : outcome (result Z * disk) :=
  let count := zlength buffer in
  if _max_addressable_block d <? u32 (offset + count - 1) / block_size then Done (Err (- ENOSPC), d)
  else
    '(res, d) ← pata_write_loop (S (Z.to_nat count)) d now (offset / block_size) (offset mod block_size) buffer (offset / block_size);
    Done (match res with Err e => Err e | Ok _ => Ok count end, d).

End disk.
Arguments disk : clear implicits.
