(* ===== verification/Pata.v ===== *)
(** * The drive behind the disk cache (kernel/arch/i386/device/PATADevice.cpp)

    [read_uncached_blocks] and [write_uncached_blocks] cut a transfer into commands that the
    controller can do at once: 256 sectors by direct memory access, 255 by port access.  The
    controller is a parameter. *)

From stdpp Require Import base numbers list list_numbers option.
From S2P Require Import Prelude.
From S2P Require Import ByteBuf.
From S2P Require Import LRUCache.
From S2P Require Import Disk.

Local Open Scope Z_scope.

Definition ATA_MAX_SECTORS_AT_ONCE : Z := PAGE_SIZE / 512.

(** What the commands do: [read_sectors_dma], [write_sectors_dma], [read_sectors_pio] and [write_sectors_pio] talk to the hardware. *)
Class Controller (H : Type) := {
  read_sectors_dma : H → Z → Z → result (list Z);
  write_sectors_dma : H → Z → list Z → result unit * H;
  read_sectors_pio : H → Z → Z → list Z;
  write_sectors_pio : H → Z → list Z → H;
}.

(** Commands for sectors of the drive, no more at once than the command allows, work. *)
Class ControllerSpec (H : Type) `{Controller H} := {
  sector_bytes : H → list Z;
  read_dma_ok h b n : 0 ≤ b → 0 < n ≤ ATA_MAX_SECTORS_AT_ONCE → 512 * (b + n) ≤ zlength (sector_bytes h) →
    read_sectors_dma h b n = Ok (slice (512 * b) (512 * n) (sector_bytes h));
  write_dma_ok h b l : 0 ≤ b → 0 < zlength l ≤ 512 * ATA_MAX_SECTORS_AT_ONCE → 512 * b + zlength l ≤ zlength (sector_bytes h) →
    ∃ h', write_sectors_dma h b l = (Ok tt, h') ∧ sector_bytes h' = splice (sector_bytes h) (512 * b) l;
  read_pio_ok h b n : 0 ≤ b → 0 < n ≤ 255 → 512 * (b + n) ≤ zlength (sector_bytes h) → read_sectors_pio h b n = slice (512 * b) (512 * n) (sector_bytes h);
  write_pio_ok h b l : 0 ≤ b → 0 < zlength l ≤ 512 * 255 → 512 * b + zlength l ≤ zlength (sector_bytes h) → sector_bytes (write_sectors_pio h b l) = splice (sector_bytes h) (512 * b) l;
}.

Record pata (H : Type) := mk_pata {
  _use_pio : bool;
  controller : H;
}.
Arguments mk_pata {H}.
Arguments _use_pio {H}.
Arguments controller {H}.

Section pata.
Context {H : Type} `{Controller H}.

(** The loops over the chunks of a transfer. *)
Fixpoint read_chunks_dma (chunks : nat) (h : H) (block count : Z) : result (list Z) :=
  match chunks with
  | O => Ok []
  | S chunks =>
      let num_sectors := Z.min ATA_MAX_SECTORS_AT_ONCE count in
      match read_sectors_dma h block num_sectors with
      | Err e => Err e
      | Ok l => match read_chunks_dma chunks h (block + ATA_MAX_SECTORS_AT_ONCE) (count - num_sectors) with Ok l' => Ok (l ++ l') | Err e => Err e end
      end
  end.

Fixpoint read_chunks_pio (fuel : nat) (h : H) (block count : Z) : list Z :=
  match fuel with
  | O => []
  | S fuel =>
      if count =? 0 then []
      else let to_read := Z.min count 255 in read_sectors_pio h block to_read ++ read_chunks_pio fuel h (block + to_read) (count - to_read)
  end.

Fixpoint write_chunks_dma (chunks : nat) (h : H) (block count : Z) (l : list Z) : result unit * H :=
  match chunks with
  | O => (Ok tt, h)
  | S chunks =>
      let num_sectors := Z.min ATA_MAX_SECTORS_AT_ONCE count in
      match write_sectors_dma h block (slice 0 (512 * num_sectors) l) with
      | (Err e, h) => (Err e, h)
      | (Ok _, h) => write_chunks_dma chunks h (block + ATA_MAX_SECTORS_AT_ONCE) (count - num_sectors) (slice (512 * ATA_MAX_SECTORS_AT_ONCE) (zlength l - 512 * ATA_MAX_SECTORS_AT_ONCE) l)
      end
  end.

Fixpoint write_chunks_pio (fuel : nat) (h : H) (block count : Z) (l : list Z) : H :=
  match fuel with
  | O => h
  | S fuel =>
      if count =? 0 then h
      else
        let to_write := Z.min count 255 in
        write_chunks_pio fuel (write_sectors_pio h block (slice 0 (512 * to_write) l)) (block + to_write) (count - to_write) (slice (512 * to_write) (zlength l - 512 * to_write) l)
  end.

Definition num_chunks (count : Z) : nat := Z.to_nat ((count + ATA_MAX_SECTORS_AT_ONCE - 1) / ATA_MAX_SECTORS_AT_ONCE).

#[export] Instance pata_drive : Drive (pata H) := {|
  read_uncached_blocks p block count :=
    if negb (_use_pio p) then read_chunks_dma (num_chunks count) (controller p) block count
    else Ok (read_chunks_pio (Z.to_nat count) (controller p) block count);
  write_uncached_blocks p block l :=
    let count := zlength l / 512 in
    if negb (_use_pio p) then let '(r, h) := write_chunks_dma (num_chunks count) (controller p) block count l in (r, mk_pata (_use_pio p) h)
    else (Ok tt, mk_pata (_use_pio p) (write_chunks_pio (Z.to_nat count) (controller p) block count l));
|}.
End pata.

Section spec.
Context {H : Type} `{ControllerSpec H}.

Lemma chunks_step (chunks : nat) count : 0 ≤ count → (count + 7) / 8 = Z.of_nat (S chunks) → 0 < count ∧ (count - Z.min 8 count + 7) / 8 = Z.of_nat chunks.
Proof.
  intros Hc E. assert (0 < count) as Hp. { destruct (decide (count = 0)) as [->|]; [change ((0 + 7) / 8) with 0 in E; lia|lia]. } split; [done|].
  destruct (decide (count ≤ 8)).
  - rewrite Z.min_r by lia. replace (count - count + 7) with 7 by lia. assert ((count + 7) / 8 = 1) as E1 by (symmetry; apply (Z.div_unique_pos _ _ _ (count - 1)); lia). rewrite E1 in E. change (7 / 8) with 0. lia.
  - rewrite Z.min_l by lia. replace (count - 8 + 7) with (count + 7 + (-1) * 8) by lia. rewrite Z.div_add by lia. lia.
Qed.

Lemma read_chunks_dma_ok h : ∀ chunks block count, 0 ≤ block → 0 ≤ count → (count + 7) / 8 = Z.of_nat chunks → 512 * (block + count) ≤ zlength (sector_bytes h) →
  read_chunks_dma chunks h block count = Ok (slice (512 * block) (512 * count) (sector_bytes h)).
Proof.
  induction chunks as [|chunks IH]; intros block count Hb Hc E Hl; cbn [read_chunks_dma].
  - assert (count = 0) as ->; [|by rewrite slice_nil]. pose proof (Z.div_mod (count + 7) 8 ltac:(lia)). pose proof (Z.mod_pos_bound (count + 7) 8 ltac:(lia)). lia.
  - destruct (chunks_step chunks count Hc E) as [Hp E']. change ATA_MAX_SECTORS_AT_ONCE with 8. cbv zeta. rewrite read_dma_ok by (change ATA_MAX_SECTORS_AT_ONCE with 8; lia).
    destruct (decide (count ≤ 8)).
    + rewrite Z.min_r, Z.sub_diag in * by lia. change ((0 + 7) / 8) with 0 in E'. destruct chunks; [cbn; by rewrite app_nil_r|lia].
    + rewrite Z.min_l in * by lia. rewrite IH by lia. do 2 f_equal. replace (512 * (block + 8)) with (512 * block + 512 * 8) by lia. rewrite slice_app by lia. f_equal. lia.
Qed.

Lemma read_chunks_pio_ok h : ∀ fuel block count, 0 ≤ block → 0 ≤ count ≤ Z.of_nat fuel → 512 * (block + count) ≤ zlength (sector_bytes h) → read_chunks_pio fuel h block count = slice (512 * block) (512 * count) (sector_bytes h).
Proof.
  induction fuel as [|fuel IH]; intros block count Hb Hc Hl; cbn [read_chunks_pio]; [replace count with 0 by lia; by rewrite slice_nil|]. destruct (Z.eqb_spec count 0) as [->|]; [by rewrite slice_nil|]. cbv zeta.
  rewrite read_pio_ok, IH by lia. replace (512 * (block + Z.min count 255)) with (512 * block + 512 * Z.min count 255) by lia. rewrite slice_app by lia. f_equal. lia.
Qed.

Lemma write_chunks_dma_ok : ∀ chunks h block count l, 0 ≤ block → 0 ≤ count → zlength l = 512 * count → (count + 7) / 8 = Z.of_nat chunks → 512 * (block + count) ≤ zlength (sector_bytes h) →
  ∃ h', write_chunks_dma chunks h block count l = (Ok tt, h') ∧ sector_bytes h' = splice (sector_bytes h) (512 * block) l.
Proof.
  induction chunks as [|chunks IH]; intros h block count l Hb Hc Hll E Hl; cbn [write_chunks_dma].
  - exists h. split; [done|]. assert (l = []) as ->; [|by rewrite splice_nil by lia]. apply nil_length_inv. pose proof (Z.div_mod (count + 7) 8 ltac:(lia)). pose proof (Z.mod_pos_bound (count + 7) 8 ltac:(lia)). lia.
  - destruct (chunks_step chunks count Hc E) as [Hp E']. change ATA_MAX_SECTORS_AT_ONCE with 8. cbv zeta. set (k := Z.min 8 count) in *. assert (zlength (slice 0 (512 * k) l) = 512 * k) as Hls by (apply length_slice; lia).
    destruct (write_dma_ok h block (slice 0 (512 * k) l)) as (h1&->&Hh1); [lia|rewrite Hls; change ATA_MAX_SECTORS_AT_ONCE with 8; lia|lia|]. destruct (decide (count ≤ 8)).
    + assert (k = count) as -> by lia. rewrite Z.sub_diag in *. change ((0 + 7) / 8) with 0 in E'. destruct chunks; [|lia]. cbn. exists h1. split; [done|]. rewrite Hh1. f_equal. apply slice_all. lia.
    + assert (k = 8) as -> by lia. destruct (IH h1 (block + 8) (count - 8) (slice (512 * 8) (zlength l - 512 * 8) l)) as (h2&E2&Hh2); [lia|lia|rewrite length_slice; lia|done|rewrite Hh1, length_splice; lia|].
      exists h2. split; [done|]. rewrite Hh2, Hh1. assert (slice 0 (512 * 8) l ++ slice (512 * 8) (zlength l - 512 * 8) l = l) as El by (rewrite slice_app by lia; apply slice_all; lia).
      transitivity (splice (sector_bytes h) (512 * block) (slice 0 (512 * 8) l ++ slice (512 * 8) (zlength l - 512 * 8) l)); [|by rewrite El]. rewrite <-splice_app by (rewrite ?length_slice; lia). f_equal. lia.
Qed.

Lemma write_chunks_pio_ok : ∀ fuel h block count l, 0 ≤ block → 0 ≤ count ≤ Z.of_nat fuel → zlength l = 512 * count → 512 * (block + count) ≤ zlength (sector_bytes h) →
  sector_bytes (write_chunks_pio fuel h block count l) = splice (sector_bytes h) (512 * block) l.
Proof.
  induction fuel as [|fuel IH]; intros h block count l Hb Hc Hll Hl; cbn [write_chunks_pio]; [assert (l = []) as -> by (apply nil_length_inv; lia); by rewrite splice_nil by lia|].
  destruct (Z.eqb_spec count 0) as [->|]; [assert (l = []) as -> by (apply nil_length_inv; lia); by rewrite splice_nil by lia|]. cbv zeta. set (k := Z.min count 255). assert (zlength (slice 0 (512 * k) l) = 512 * k) as Hls by (apply length_slice; lia).
  assert (sector_bytes (write_sectors_pio h block (slice 0 (512 * k) l)) = splice (sector_bytes h) (512 * block) (slice 0 (512 * k) l)) as Hh1 by (apply write_pio_ok; lia).
  rewrite IH; [|lia|lia|rewrite length_slice; lia|rewrite Hh1, length_splice; lia]. rewrite Hh1.
  assert (slice 0 (512 * k) l ++ slice (512 * k) (zlength l - 512 * k) l = l) as El by (rewrite slice_app by lia; apply slice_all; lia).
  transitivity (splice (sector_bytes h) (512 * block) (slice 0 (512 * k) l ++ slice (512 * k) (zlength l - 512 * k) l)); [|by rewrite El]. rewrite <-splice_app by (rewrite ?length_slice; lia). f_equal. lia.
Qed.

Lemma num_chunks_eq count : 0 ≤ count → (count + 7) / 8 = Z.of_nat (num_chunks count).
Proof. intros Hc. unfold num_chunks. change ATA_MAX_SECTORS_AT_ONCE with 8. replace (count + 8 - 1) with (count + 7) by lia. rewrite Z2Nat.id; [done|]. apply Z.div_pos; lia. Qed.

(** The drive does what the cache relies on, whichever commands it uses. *)
#[export] Instance pata_drive_spec : DriveSpec (pata H).
Proof.
  refine {| drive_bytes p := sector_bytes (controller p) |}; unfold block_size.
  - intros p b n Hb Hn Hl. cbn [read_uncached_blocks pata_drive]. destruct (_use_pio p); cbn [negb]; [by rewrite read_chunks_pio_ok by lia|]. apply read_chunks_dma_ok; [done|done|by apply num_chunks_eq|done].
  - intros p b l Hb Hm Hl. cbn [write_uncached_blocks pata_drive]. cbv zeta. pose proof (Z.div_mod (zlength l) 512 ltac:(lia)). set (count := zlength l / 512) in *. destruct (_use_pio p); cbn [negb].
    + eexists. split; [done|]. cbn. apply write_chunks_pio_ok; lia.
    + destruct (write_chunks_dma_ok (num_chunks count) (controller p) b count l) as (h'&->&Hh'); [lia|lia|lia|apply num_chunks_eq; lia|lia|]. by eexists.
Defined.
End spec.
