(* ===== verification/DiskCache.v ===== *)
(** * The cache of a disk is transparent

    What a disk holds, as reads and writes see it: the pages of the cache, and the
    drive where there is none ([disk_rep]).  Reads give it, writes change it, and neither
    eviction nor writeback does. *)

From stdpp Require Import base numbers list list_numbers option gmap relations.
From S2P Require Import Prelude.
From S2P Require Import ByteBuf.
From S2P Require Import LRUCache.
From S2P Require Import WordQueue.
From S2P Require Import Disk.

Local Open Scope Z_scope.

Section disk_cache.
Context {H : Type} `{DriveSpec H}.
Implicit Types (d : disk H) (v : list Z) (r : region) (start block now : Z).

Abbreviation cached d := (m_map (_cache_regions d)).

(** The regions hold what the disk holds, and so does the drive where no dirty region is. *)
Record disk_rep d v : Prop := {
  dr_len : zlength v = zlength (drive_bytes (drive d));
  dr_pages : zlength v mod PAGE_SIZE = 0;
  dr_max : zlength v ≤ block_size * _max_addressable_block d;
  dr_lru : ∃ l, lru_of (_cache_regions d) l;
  dr_queue : ∃ l, words (_dirty_regions d) l;
  dr_region start r : cached d !! start = Some r → start_block r = start ∧ 0 ≤ start ∧ start mod num_blocks = 0 ∧
    block_size * start + PAGE_SIZE ≤ zlength v ∧ data r = slice (block_size * start) PAGE_SIZE v;
  dr_clean start : 0 ≤ start → start mod num_blocks = 0 → block_size * start + PAGE_SIZE ≤ zlength v →
    (∀ r, cached d !! start = Some r → dirty r = false) →
    slice (block_size * start) PAGE_SIZE v = slice (block_size * start) PAGE_SIZE (drive_bytes (drive d));
}.

Lemma region_start block n : 0 ≤ block → n mod PAGE_SIZE = 0 → block_size * (block + 1) ≤ n →
  0 ≤ block_cache_region_start block ∧ block_cache_region_start block mod num_blocks = 0 ∧
  block_size * block_cache_region_start block + PAGE_SIZE ≤ n ∧
  block_cache_region_start block ≤ block < block_cache_region_start block + num_blocks.
Proof.
  intros Hb Hn Hle. unfold block_cache_region_start. change num_blocks with 8. unfold block_size, PAGE_SIZE in *.
  pose proof (Z.mod_pos_bound block 8 ltac:(lia)). pose proof (Z.div_mod block 8 ltac:(lia)). pose proof (Z.div_mod n 4096 ltac:(lia)).
  replace (block - block mod 8) with (block / 8 * 8) by lia. assert (block / 8 < n / 4096) by (apply Z.div_lt_upper_bound; lia).
  assert ((block / 8 * 8) mod 8 = 0) by apply Z_mod_mult. lia.
Qed.

Lemma start_unique start block : start mod num_blocks = 0 → start ≤ block < start + num_blocks → start = block_cache_region_start block.
Proof.
  unfold block_cache_region_start. change num_blocks with 8. intros Hs Hb. pose proof (Z.div_mod start 8 ltac:(lia)).
  rewrite <-(Z.mod_unique block 8 (start / 8) (block - start)) by lia. lia.
Qed.

Lemma aligned_apart s start : s mod 8 = 0 → start mod 8 = 0 → s ≠ start → s + 8 ≤ start ∨ start + 8 ≤ s.
Proof. intros. pose proof (Z.div_mod s 8 ltac:(lia)). pose proof (Z.div_mod start 8 ltac:(lia)). lia. Qed.

(** The cache changes in its order only. *)
Lemma rep_order d v c : disk_rep d v → (∃ l, lru_of c l) → m_map c = cached d → disk_rep (with_cache d c) v.
Proof. intros [] Hl Hm. split; try assumption; cbn; by rewrite Hm. Qed.

Lemma get_cache_region_spec d v now block : disk_rep d v → 0 ≤ block → block_size * (block + 1) ≤ zlength v →
  ∃ d', get_cache_region d now block = Done (block_cache_region_start block, d') ∧ disk_rep d' v ∧
    is_Some (cached d' !! block_cache_region_start block) ∧ _dirty_regions d' = _dirty_regions d.
Proof.
  intros Hd Hb Hlen. destruct (region_start block (zlength v) Hb (dr_pages _ _ Hd) Hlen) as (Hs0&Hs8&Hsl&_).
  unfold get_cache_region. set (start := block_cache_region_start block) in *. destruct (dr_lru _ _ Hd) as [l Hl].
  destruct (lru_get (_cache_regions d) start) as [[r|] c] eqn:E.
  - destruct (get_entry _ _ _ _ _ Hl E) as (Hr&Hc&Hm). eexists. split; [done|]. split; [by eapply rep_order; eauto|]. cbn. split; [rewrite Hm, Hr; by eexists|done].
  - unfold lru_get in E. destruct (m_map (_cache_regions d) !! start) eqn:Em; [done|]. injection E as <-.
    rewrite read_uncached_ok by (rewrite <-?(dr_len _ _ Hd); change num_blocks with 8; unfold block_size, PAGE_SIZE in *; lia).
    set (r := mk_region start _ now false). destruct (insert_entry _ _ start r Hl) as [Hl' Hm']. eexists. split; [done|].
    assert (data r = slice (block_size * start) PAGE_SIZE v) as Hdata by (cbn; symmetry; apply (dr_clean _ _ Hd); try done; intros ?; by rewrite Em).
    split; [|cbn; split; [rewrite Hm', lookup_insert_eq; by eexists|done]]. destruct Hd. split; try assumption; cbn; [by eauto| |]; rewrite Hm'.
    + intros s r' [[<- <-]|[_ Hr']]%lookup_insert_Some; [by split_and!|by eauto].
    + intros s Hs1 Hs2 Hs3 Hr. apply dr_clean0; try done. intros r' Hr'. apply Hr. rewrite lookup_insert_ne; [done|]. intros <-. congruence.
Qed.

(** A region is used. *)
Lemma touch_spec d v start r now : disk_rep d v → cached d !! start = Some r →
  disk_rep (set_region d start (mk_region (start_block r) (data r) now (dirty r))) v.
Proof.
  intros Hd Hr. destruct (dr_region _ _ Hd start r Hr) as (Hs&Hrest). destruct Hd as [? ? ? [l Hl] ? Hreg Hcl]. split; try assumption; cbn.
  - eexists. apply set_entry; [done|by eexists].
  - intros s r' [[<- <-]|[_ Hr']]%lookup_insert_Some; [exact (conj Hs Hrest)|by eauto].
  - intros s Hs1 Hs2 Hs3 Hr'. apply Hcl; try done. intros r' Hr''. destruct (decide (s = start)) as [->|Hne].
    + assert (r' = r) as -> by congruence. apply (Hr' (mk_region (start_block r) (data r) now (dirty r))). by rewrite lookup_insert_eq.
    + apply Hr'. by rewrite lookup_insert_ne.
Qed.

(** A block of a region is written. *)
Lemma store_spec d v start r now block b : disk_rep d v → cached d !! start = Some r → has_block r block = true → zlength b = block_size →
  disk_rep (set_region d start (mk_region (start_block r) (splice (data r) (block_size * (block - start_block r)) b) now true))
    (splice v (block_size * block) b).
Proof.
  intros Hd Hr Hblk Hb. destruct (dr_region _ _ Hd start r Hr) as (Hs&Hs0&Hs8&Hsl&Hdata).
  unfold has_block in Hblk. rewrite Hs in Hblk. apply andb_true_iff in Hblk as [Hb1%Z.leb_le Hb2%Z.ltb_lt]. change num_blocks with 8 in *.
  unfold block_size, PAGE_SIZE in *. assert (zlength (splice v (512 * block) b) = zlength v) as Hlen by (rewrite length_splice; lia).
  destruct Hd as [? ? ? [l Hl] ? Hreg Hcl]. split; cbn; rewrite ?Hlen; try assumption.
  - eexists. apply set_entry; [done|by eexists].
  - intros s r' [[<- <-]|[Hne Hr']]%lookup_insert_Some; cbn.
    + split_and!; try assumption. rewrite Hdata, Hs. unfold block_size, PAGE_SIZE.
      rewrite slice_splice_around by lia. f_equal. lia.
    + destruct (Hreg s r' Hr') as (E&?&Hm&?&->). unfold block_size, PAGE_SIZE in *. split_and!; try assumption.
      symmetry. apply slice_splice_other; try lia. assert (s + 8 ≤ start ∨ start + 8 ≤ s) by (apply aligned_apart; done). lia.
  - intros s Hs1 Hs2 Hs3 Hr'. destruct (decide (s = start)) as [->|Hne].
    + specialize (Hr' _ (lookup_insert_eq _ _ _)). done.
    + unfold block_size, PAGE_SIZE in *. rewrite slice_splice_other; try lia.
      * apply Hcl; try done. intros r' Hr''. apply Hr'. by rewrite lookup_insert_ne.
      * assert (s + 8 ≤ start ∨ start + 8 ≤ s) by (apply aligned_apart; done). lia.
Qed.

(** The queue of dirty regions changes only. *)
Lemma rep_queue d v q l : disk_rep d v → words q l → disk_rep (with_dirty d q) v.
Proof. intros [] Hq. split; try assumption. by exists l. Qed.

Lemma invalidate_spec d v start : disk_rep d v →
  ∃ d', invalidate_cache_region d start = Done d' ∧ disk_rep d' v ∧ cached d' = cached d.
Proof.
  intros Hd. destruct (dr_queue _ _ Hd) as [l Hl]. unfold invalidate_cache_region. destruct (wq_contains_ends _ _ start Hl) as [b E]. rewrite E.
  eexists. split; [done|]. destruct b; [done|]. split; [|done]. by eapply rep_queue, wq_push_words.
Qed.

(** ** Reading and writing blocks *)

Lemma region_for_spec d v now (cr : option Z) block : disk_rep d v → (∀ s, cr = Some s → is_Some (cached d !! s)) →
  0 ≤ block → block_size * (block + 1) ≤ zlength v →
  ∃ d', region_for d now cr block = Done (block_cache_region_start block, d') ∧ disk_rep d' v ∧
    is_Some (cached d' !! block_cache_region_start block) ∧ _dirty_regions d' = _dirty_regions d.
Proof.
  intros Hd Hcr Hb Hlen. unfold region_for. destruct cr as [s|]; [|by apply get_cache_region_spec].
  destruct (Hcr s eq_refl) as [r Hr]. unfold region_at. rewrite Hr. cbn. destruct (has_block r block) eqn:Eb; [|by apply get_cache_region_spec].
  destruct (dr_region _ _ Hd s r Hr) as (Hs&_&Hs8&_). unfold has_block in Eb. rewrite Hs in Eb.
  apply andb_true_iff in Eb as [Hb1%Z.leb_le Hb2%Z.ltb_lt]. rewrite <-(start_unique s block) by done. exists d. split; [done|]. split; [done|]. split; [by eexists|done].
Qed.

Lemma block_data_spec d v start r block : disk_rep d v → cached d !! start = Some r → start ≤ block < start + num_blocks →
  block_data r block = slice (block_size * block) block_size v.
Proof.
  intros Hd Hr Hb. destruct (dr_region _ _ Hd start r Hr) as (Hs&?&?&?&Hdata). unfold block_data. rewrite Hdata, Hs.
  change num_blocks with 8 in *. unfold block_size, PAGE_SIZE in *. rewrite slice_slice by lia. f_equal. lia.
Qed.

Lemma read_blocks_loop_spec count : ∀ d v now (cr : option Z) block, disk_rep d v → (∀ s, cr = Some s → is_Some (cached d !! s)) →
  0 ≤ block → block_size * (block + Z.of_nat count) ≤ zlength v →
  ∃ d', read_blocks_loop count d now cr block = Done (slice (block_size * block) (block_size * Z.of_nat count) v, d') ∧ disk_rep d' v ∧
    _dirty_regions d' = _dirty_regions d.
Proof.
  induction count as [|count IH]; intros d v now cr block Hd Hcr Hb Hlen; cbn [read_blocks_loop]; [by exists d|].
  unfold block_size in Hlen. destruct (region_for_spec d v now cr block Hd Hcr Hb) as (d1&E1&Hd1&[r Hr]&Hq1); [unfold block_size; lia|].
  rewrite E1. cbn [mbind outcome_bind]. unfold region_at. rewrite Hr. cbn [mbind outcome_bind].
  destruct (region_start block (zlength v) Hb (dr_pages _ _ Hd)) as (_&_&_&Hin); [unfold block_size; lia|].
  pose proof (touch_spec d1 v _ r now Hd1 Hr) as Hd2. set (d2 := set_region _ _ _) in *.
  destruct (IH d2 v now (Some (block_cache_region_start block)) (block + 1) Hd2) as (d3&E3&Hd3&Hq3).
  - intros s [= <-]. cbn. rewrite lookup_insert_eq. by eexists.
  - lia.
  - unfold block_size. lia.
  - rewrite E3. cbn. exists d3. split; [|split; [done|by rewrite Hq3, <-Hq1]]. rewrite (block_data_spec d1 v _ r block Hd1 Hr Hin). do 2 f_equal.
    replace (block_size * (block + 1)) with (block_size * block + block_size) by (unfold block_size; lia).
    rewrite slice_app by (unfold block_size; lia). f_equal. unfold block_size. lia.
Qed.

Lemma read_blocks_spec d v now block count : disk_rep d v → 0 ≤ block → 0 ≤ count → block_size * (block + count) ≤ zlength v →
  ∃ d', read_blocks d now block count = Done (Ok (slice (block_size * block) (block_size * count) v), d') ∧ disk_rep d' v ∧
    _dirty_regions d' = _dirty_regions d.
Proof.
  intros Hd Hb Hc Hlen. unfold read_blocks.
  destruct (read_blocks_loop_spec (Z.to_nat count) d v now None block Hd) as (d'&E&Hd'); [done|done|rewrite Z2Nat.id; done|].
  rewrite E. cbn. rewrite Z2Nat.id by done. by exists d'.
Qed.

(** The region that the next block of a write goes to. *)
Lemma next_region_spec d v (cr : option Z) now block : disk_rep d v → (∀ s, cr = Some s → is_Some (cached d !! s)) →
  0 ≤ block → block_size * (block + 1) ≤ zlength v →
  ∃ d', (match cr with
         | None => get_cache_region d now block
         | Some start => r ← region_at d start;
                         if has_block r block then Done (start, d)
                         else d ← invalidate_cache_region d start; get_cache_region d now block
         end) = Done (block_cache_region_start block, d') ∧ disk_rep d' v ∧ is_Some (cached d' !! block_cache_region_start block).
Proof.
  intros Hd Hcr Hb Hlen. destruct cr as [s|].
  - destruct (Hcr s eq_refl) as [r Hr]. unfold region_at. rewrite Hr. cbn [mbind outcome_bind]. destruct (has_block r block) eqn:Eb.
    + destruct (dr_region _ _ Hd s r Hr) as (Hs&_&Hs8&_). unfold has_block in Eb. rewrite Hs in Eb.
      apply andb_true_iff in Eb as [Hb1%Z.leb_le Hb2%Z.ltb_lt]. rewrite <-(start_unique s block) by done. exists d. split_and!; auto.
    + destruct (invalidate_spec d v s Hd) as (d1&E1&Hd1&_). rewrite E1. cbn [mbind outcome_bind].
      destruct (get_cache_region_spec d1 v now block Hd1 Hb Hlen) as (d'&E&Hd'&?&_). by exists d'.
  - destruct (get_cache_region_spec d v now block Hd Hb Hlen) as (d'&E&Hd'&?&_). by exists d'.
Qed.

Lemma write_blocks_loop_spec count : ∀ d v now (cr : option Z) block buffer, disk_rep d v → (∀ s, cr = Some s → is_Some (cached d !! s)) →
  0 ≤ block → block_size * (block + Z.of_nat count) ≤ zlength v → zlength buffer = block_size * Z.of_nat count →
  ∃ d' cr', write_blocks_loop count d now cr block buffer = Done (cr', d') ∧ disk_rep d' (splice v (block_size * block) buffer) ∧
    (cr' = None → count = O).
Proof.
  induction count as [|count IH]; intros d v now cr block buffer Hd Hcr Hb Hlen Hbuf; cbn [write_blocks_loop].
  { exists d, cr. split; [done|]. destruct buffer; [|done]. unfold block_size in *. by rewrite splice_nil by lia. }
  unfold block_size in Hlen, Hbuf. destruct (next_region_spec d v cr now block Hd Hcr Hb) as (d1&E1&Hd1&[r Hr]); [unfold block_size; lia|].
  rewrite E1. cbn [mbind outcome_bind]. unfold region_at at 1. rewrite Hr. cbn [mbind outcome_bind].
  destruct (region_start block (zlength v) Hb (dr_pages _ _ Hd)) as (_&_&_&Hin); [unfold block_size; lia|].
  set (b := take (Z.to_nat block_size) buffer). assert (zlength b = block_size) as Hbl by (unfold b, block_size; rewrite length_take; lia).
  destruct (dr_region _ _ Hd1 _ r Hr) as (Hs&_). assert (has_block r block = true) as Hblk by (unfold has_block; rewrite Hs; lia).
  pose proof (store_spec d1 v _ r now block b Hd1 Hr Hblk Hbl) as Hd2. set (d2 := set_region _ _ _) in *.
  assert (zlength (splice v (block_size * block) b) = zlength v) as Hl2 by (rewrite length_splice; unfold block_size in *; lia).
  destruct (IH d2 _ now (Some (block_cache_region_start block)) (block + 1) (drop (Z.to_nat block_size) buffer) Hd2) as (d3&cr3&E3&Hd3&Hne).
  - intros s [= <-]. cbn. rewrite lookup_insert_eq. by eexists.
  - lia.
  - rewrite Hl2. unfold block_size. lia.
  - rewrite length_drop. unfold block_size. lia.
  - exists d3, cr3. split; [done|]. split.
    + replace (block_size * (block + 1)) with (block_size * block + zlength b) in Hd3 by (unfold block_size in *; lia).
      rewrite splice_app in Hd3 by (rewrite ?length_drop; unfold block_size in *; lia). unfold b in Hd3. by rewrite take_drop in Hd3.
    + destruct cr3; [done|]. destruct count; [|by specialize (Hne eq_refl)]. by injection E3.
Qed.

Lemma write_blocks_spec d v now block count buffer : disk_rep d v → 0 ≤ block → 0 < count → block_size * (block + count) ≤ zlength v →
  zlength buffer = block_size * count →
  ∃ d', write_blocks d now block count buffer = Done (Ok tt, d') ∧ disk_rep d' (splice v (block_size * block) buffer).
Proof.
  intros Hd Hb Hc Hlen Hbuf. unfold write_blocks.
  destruct (write_blocks_loop_spec (Z.to_nat count) d v now None block buffer Hd) as (d'&cr&E&Hd'&Hne); [done|done|rewrite Z2Nat.id; lia|lia|].
  rewrite E. cbn. destruct cr as [s|]; [|specialize (Hne eq_refl); lia]. destruct (invalidate_spec d' _ s Hd') as (d2&E2&Hd2&_). rewrite E2. by exists d2.
Qed.

(** ** Back to the drive *)

(** After a region has been written to the drive, the drive has its bytes, and the others as before. *)
Lemma flush_spec d v start r : disk_rep d v → cached d !! start = Some r →
  ∃ h, (write_uncached_blocks (drive d) (start_block r) (data r)).2 = h ∧ zlength (drive_bytes h) = zlength v ∧
    slice (block_size * start) PAGE_SIZE (drive_bytes h) = slice (block_size * start) PAGE_SIZE v ∧
    ∀ s, 0 ≤ s → s mod num_blocks = 0 → s ≠ start → slice (block_size * s) PAGE_SIZE (drive_bytes h) = slice (block_size * s) PAGE_SIZE (drive_bytes (drive d)).
Proof.
  intros Hd Hr. destruct (dr_region _ _ Hd start r Hr) as (->&Hs0&Hs8&Hsl&Hdata). pose proof (dr_len _ _ Hd) as Hlen.
  assert (zlength (data r) = PAGE_SIZE) as Hdl by (rewrite Hdata, length_slice; unfold block_size, PAGE_SIZE in *; lia).
  destruct (write_uncached_ok (drive d) start (data r)) as (h&E&Hh); [done|by rewrite Hdl|lia|]. exists h. rewrite E, Hh. split; [done|].
  unfold block_size in *. split_and!.
  - rewrite length_splice by lia. done.
  - rewrite <-Hdl at 1. rewrite slice_splice by lia. done.
  - intros s Hs Hsm Hne. apply slice_splice_other; try lia. pose proof (aligned_apart s start Hsm Hs8 Hne). unfold PAGE_SIZE in *. lia.
Qed.

Lemma evict_spec d v start l : disk_rep d v → m_lru_list (_cache_regions d) = start :: l → ∃ d', evict d start = Done d' ∧ disk_rep d' v.
Proof.
  intros Hd Hl. destruct (dr_lru _ _ Hd) as [es Hes]. pose proof (proj1 (lru_of_elem _ _ start Hes)) as Hin. rewrite Hl in Hin.
  destruct (Hin ltac:(by left)) as [r Hr]. unfold evict, region_at. rewrite Hr. cbn [mbind outcome_bind].
  destruct (flush_spec d v start r Hd Hr) as (h&Eh&Hhl&Hhs&Hho).
  assert (m_map (prune 1 (_cache_regions d)) = delete start (cached d)) as Hm by (unfold prune; by rewrite Hl).
  pose proof (prune_entries 1 _ _ Hes) as Hes'. rewrite Eh. eexists. split; [done|].
  destruct Hd as [? ? ? _ ? Hreg Hcl]. assert (∀ s r', delete start (cached d) !! s = Some r' → s ≠ start ∧ cached d !! s = Some r') as Hdel.
  { intros s r' [? ?]%lookup_delete_Some. done. }
  destruct (dirty r) eqn:Edr; split; cbn [drive with_cache with_drive _cache_regions _dirty_regions _max_addressable_block]; try assumption; try (symmetry; assumption); try (eexists; eassumption); rewrite Hm.
  - intros s r' [_ Hr']%Hdel. by apply Hreg.
  - intros s Hs Hs8 Hsl Hcln. destruct (decide (s = start)) as [->|Hne]; [done|]. rewrite Hho by done. apply Hcl; try done.
    intros r' Hr'. apply Hcln. by rewrite lookup_delete_ne.
  - intros s r' [_ Hr']%Hdel. by apply Hreg.
  - intros s Hs Hs8 Hsl Hcln. apply Hcl; try done. intros r' Hr'. destruct (decide (s = start)) as [->|Hne]; [congruence|]. apply Hcln. by rewrite lookup_delete_ne.
Qed.

(** The device that [free_pages] chooses has the region as its first. *)
Definition chosen (ds : list (disk H)) (best : option (nat * Z)) : Prop :=
  match best with
  | None => True
  | Some (i, start) => ∃ d l, ds !! i = Some d ∧ m_lru_list (_cache_regions d) = start :: l
  end.

Lemma find_lru_spec ds : ∀ all i best t, (∀ d, d ∈ ds → ∃ v, disk_rep d v) → (∀ j d, ds !! j = Some d → all !! (i + j)%nat = Some d) →
  chosen all best → ∃ best', find_lru ds i best t = Done best' ∧ chosen all best'.
Proof.
  induction ds as [|d ds IH]; intros all i best t Hds Hall Hb; cbn [find_lru]; [by exists best|].
  assert (∀ best t, chosen all best → ∃ best', find_lru ds (S i) best t = Done best' ∧ chosen all best') as Hnext.
  { intros best1 t1 Hb1. apply IH; [intros d' Hd'; apply Hds; by right| |done]. intros j d' Hj. replace (S i + j)%nat with (i + S j)%nat by lia. by apply Hall. }
  case_bool_decide as Hne; [by apply Hnext|]. destruct (Hds d ltac:(by left)) as [v Hd]. destruct (dr_lru _ _ Hd) as [es Hes].
  destruct es as [|[s r] es]; [by rewrite (lo_keys _ _ Hes) in Hne|]. rewrite (lru_first _ _ _ _ Hes). cbn [mbind outcome_bind].
  destruct (last_used r <? t); [|by apply Hnext]. apply Hnext. exists d, es.*1. split; [|by rewrite (lo_keys _ _ Hes)].
  rewrite <-(Nat.add_0_r i). by apply Hall.
Qed.

Lemma free_pages_spec n : ∀ ds vs, Forall2 (λ d v, disk_rep d v) ds vs →
  ∃ k ds', free_pages n ds = Done (k, ds') ∧ Forall2 (λ d v, disk_rep d v) ds' vs ∧ 0 ≤ k ≤ Z.of_nat n.
Proof.
  induction n as [|n IH]; intros ds vs Hds; cbn [free_pages]; [exists 0, ds; split_and!; [done|done|lia..]|].
  destruct (find_lru_spec ds ds 0 None distant_future) as (best&E&Hch); [|done|done|].
  { intros d [i Hi]%list_elem_of_lookup. destruct (Forall2_lookup_l _ _ _ _ _ Hds Hi) as (v&_&?). by eauto. }
  rewrite E. cbn [mbind outcome_bind]. destruct best as [[i start]|]; [|exists 0, ds; split_and!; [done|done|lia..]].
  destruct Hch as (d&l&Hi&Hl). rewrite Hi. destruct (Forall2_lookup_l _ _ _ _ _ Hds Hi) as (v&Hv&Hd).
  destruct (evict_spec d v start l Hd Hl) as (d'&E'&Hd'). rewrite E'. cbn [mbind outcome_bind].
  destruct (IH (<[i := d']> ds) vs) as (k&ds'&Ek&Hds'&Hk).
  { rewrite <-(list_insert_id vs i v Hv). by apply Forall2_insert. }
  rewrite Ek. cbn. exists (k + 1), ds'. split_and!; [done|done|lia..].
Qed.

(** After a region has been taken off the queue and written, it is clean, and the others are as before. *)
Lemma writeback_region d v q start r c l : disk_rep d v → lru_get (_cache_regions d) start = (Some r, c) → words q l →
  ∃ d', set_region (with_drive (with_cache (with_dirty d q) c) (write_uncached_blocks (drive d) (start_block r) (data r)).2) start
      (mk_region (start_block r) (data r) (last_used r) false) = d' ∧
    disk_rep d' v ∧ _dirty_regions d' = q ∧
    ∀ s r', cached d' !! s = Some r' → dirty r' = true → s ≠ start ∧ cached d !! s = Some r'.
Proof.
  intros Hd E Hq. eexists. split; [done|]. destruct (dr_lru _ _ Hd) as [es Hes]. destruct (get_entry _ _ _ _ _ Hes E) as (Hr&Hc&Hm).
  destruct (flush_spec d v start r Hd Hr) as (h&Eh&Hhl&Hhs&Hho). rewrite Eh. destruct Hd as [? ? ? _ _ Hreg Hcl].
  destruct (Hreg start r Hr) as (?&?&?&?&?). split; [|split; [done|]].
  - split; cbn; rewrite ?Hm; try assumption; try (symmetry; assumption); [| |intros s r' [[<- <-]|[Hne Hr']]%lookup_insert_Some; [by split_and!|by apply Hreg]|].
    + eexists. rewrite <-Hm. apply set_entry; [done|]. rewrite Hm. by eexists.
    + by exists l.
    + intros s Hs Hs8 Hsl Hcln. destruct (decide (s = start)) as [->|Hne]; [done|]. rewrite Hho by done. apply Hcl; try done.
      intros r' Hr'. apply Hcln. by rewrite lookup_insert_ne.
  - cbn. rewrite Hm. intros s r' [[<- <-]|[Hne Hr']]%lookup_insert_Some; [done|]. by intros _.
Qed.

(** A page of the disk is on the drive. *)
Definition on_drive d v (start : Z) : Prop :=
  slice (block_size * start) PAGE_SIZE (drive_bytes (drive d)) = slice (block_size * start) PAGE_SIZE v.

(** The pages of a disk, by their first blocks. *)
Definition page_of v (start : Z) : Prop := 0 ≤ start ∧ start mod num_blocks = 0 ∧ block_size * start + PAGE_SIZE ≤ zlength v.

Definition clean d (start : Z) : Prop := ∀ r, cached d !! start = Some r → dirty r = false.

(** A writeback that runs to its end leaves on the drive the pages that waited, and those that were clean; it runs to its
    end when what waits is in the cache. *)
Lemma writeback_spec fuel : ∀ d v l, disk_rep d v → words (_dirty_regions d) l → (length l ≤ fuel)%nat →
  ∃ finished d', writeback fuel d = Done (finished, d') ∧ disk_rep d' v ∧
    (finished = true → ∀ s, page_of v s → s ∈ l ∨ clean d s → on_drive d' v s) ∧
    ((∀ s, s ∈ l → is_Some (cached d !! s)) → finished = true).
Proof.
  induction fuel as [|fuel IH]; intros d v l Hd Hl Hf; cbn [writeback]; rewrite (wo_size _ _ Hl); destruct l as [|start l]; cbn in Hf; try lia.
  1,2: exists true, d; split; [done|]; split; [done|]; split; [|done]; intros _ s (?&?&?) [Hin|Hcl]; [by apply elem_of_nil in Hin|];
    symmetry; by apply (dr_clean _ _ Hd).
  cbn [length]. rewrite (proj2 (Z.eqb_neq _ _)) by lia. destruct (wq_pop_words _ _ _ Hl) as (q&Eq&Hq). rewrite Eq. cbn [mbind outcome_bind].
  destruct (lru_get (_cache_regions (with_dirty d q)) start) as [[r|] c] eqn:E.
  - destruct (writeback_region d v q start r c l Hd E Hq) as (d1&E1&Hd1&Hq1&Hold). cbn [drive with_dirty]. rewrite E1.
    destruct (IH d1 v l Hd1) as (b&d2&E2&Hd2&Hon&Hfin); [by rewrite Hq1|lia|]. exists b, d2. split; [done|]. split; [done|].
    assert (∀ s, is_Some (cached d !! s) → is_Some (cached d1 !! s)) as Hkeep.
    { intros s Hs. subst d1. cbn. destruct (dr_lru _ _ Hd) as [es Hes]. destruct (get_entry _ _ _ _ _ Hes E) as (Hr&Hc&Hm). rewrite Hm.
      destruct (decide (s = start)) as [->|]; [rewrite lookup_insert_eq; by eexists|by rewrite lookup_insert_ne]. }
    split.
    + intros Hb s Hp Hs. apply Hon; [done|done|]. destruct (decide (s ∈ l)) as [|Hnl]; [by left|]. right. intros r' Hr'.
      destruct (dirty r') eqn:Edr; [|done]. destruct (Hold s r' Hr' Edr) as [Hne Hr0]. destruct Hs as [Hin|Hcl]; [|by rewrite (Hcl _ Hr0) in Edr].
      by apply elem_of_cons in Hin as [?|?].
    + intros Hall. apply Hfin. intros s Hs. apply Hkeep, Hall. by right.
  - exists false, (with_dirty d q). split; [done|]. split; [by eapply rep_queue|]. split; [done|]. intros Hall.
    destruct (Hall start ltac:(by left)) as [r Hr]. unfold lru_get in E. cbn in E. by rewrite Hr in E.
Qed.

(** ** Bytes *)

Lemma whole_blocks n blk : n mod PAGE_SIZE = 0 → block_size * blk < n → block_size * (blk + 1) ≤ n.
Proof. unfold PAGE_SIZE, block_size. intros Hm Hlt. pose proof (Z.div_mod n 4096 ltac:(lia)). lia. Qed.

Lemma pata_read_loop_spec fuel : ∀ d v now fb fs left blk, disk_rep d v → 0 ≤ fb ≤ blk → 0 ≤ fs < block_size → 0 ≤ left → left < Z.of_nat fuel →
  block_size * blk + (if blk =? fb then fs else 0) + left ≤ zlength v →
  ∃ d', pata_read_loop fuel d now fb fs left blk = Done (Ok (slice (block_size * blk + (if blk =? fb then fs else 0)) left v), d') ∧ disk_rep d' v.
Proof.
  induction fuel as [|fuel IH]; intros d v now fb fs left blk Hd Hfb Hfs Hleft Hfuel Hlen; [lia|]. cbn [pata_read_loop].
  destruct (Z.eqb_spec left 0) as [->|Hne]; [by exists d|]. set (off := if blk =? fb then fs else 0) in *.
  assert (0 ≤ off < block_size) as Hoff by (unfold off; destruct (blk =? fb); unfold block_size in *; lia).
  pose proof (dr_max _ _ Hd) as Hmax. destruct (Z.ltb_spec (_max_addressable_block d) blk); [unfold block_size in *; lia|].
  pose proof (whole_blocks (zlength v) blk (dr_pages _ _ Hd) ltac:(lia)) as Hblk.
  destruct (read_blocks_spec d v now blk 1 Hd ltac:(lia) ltac:(lia) Hblk) as (d1&E1&Hd1&_). rewrite E1. cbn [mbind outcome_bind].
  set (n := Z.min left (block_size - off)). assert (1 ≤ n ≤ left ∧ n ≤ block_size - off) as Hn by (unfold n; lia).
  replace (off + Z.min left (block_size - off)) with (off + n) by done.
  assert ((blk + 1 =? fb) = false) as Hnf by lia.
  destruct (IH d1 v now fb fs (left - n) (blk + 1) Hd1) as (d2&E2&Hd2); [lia|done|lia|lia|rewrite Hnf; unfold block_size in *; lia|].
  rewrite E2. cbn. exists d2. split; [|done]. rewrite Hnf. do 3 f_equal. rewrite slice_slice by (unfold block_size in *; lia).
  destruct (decide (n = left)) as [Heq|].
  - rewrite Heq, Z.sub_diag, slice_nil, app_nil_r. done.
  - replace (block_size * (blk + 1) + 0) with (block_size * blk + off + n) by (unfold n, block_size in *; lia). rewrite slice_app by (unfold block_size in *; lia). f_equal. lia.
Qed.

Lemma pata_read_spec d v now offset count : disk_rep d v → 0 ≤ offset → 0 ≤ count → offset + count ≤ zlength v →
  ∃ d', pata_read d now offset count = Done (Ok (slice offset count v), d') ∧ disk_rep d' v.
Proof.
  intros Hd Ho Hc Hlen. unfold pata_read. pose proof (Z.div_mod offset block_size ltac:(done)). pose proof (Z.mod_pos_bound offset block_size ltac:(done)).
  destruct (pata_read_loop_spec (S (Z.to_nat count)) d v now (offset / block_size) (offset mod block_size) count (offset / block_size) Hd) as (d'&E&Hd').
  - split; [by apply Z.div_pos|lia].
  - done.
  - done.
  - lia.
  - rewrite Z.eqb_refl. lia.
  - rewrite E, Z.eqb_refl. exists d'. split; [|done]. do 4 f_equal. lia.
Qed.

Lemma pata_write_loop_spec fuel : ∀ d v now fb fs buffer blk, disk_rep d v → 0 ≤ fb ≤ blk → 0 ≤ fs < block_size → zlength buffer < Z.of_nat fuel →
  block_size * blk + (if blk =? fb then fs else 0) + zlength buffer ≤ zlength v →
  ∃ d', pata_write_loop fuel d now fb fs buffer blk = Done (Ok tt, d') ∧ disk_rep d' (splice v (block_size * blk + (if blk =? fb then fs else 0)) buffer).
Proof.
  induction fuel as [|fuel IH]; intros d v now fb fs buffer blk Hd Hfb Hfs Hfuel Hlen; [lia|]. cbn [pata_write_loop].
  set (off := if blk =? fb then fs else 0) in *.
  assert (0 ≤ off < block_size) as Hoff by (unfold off; destruct (blk =? fb); unfold block_size in *; lia).
  destruct (Z.eqb_spec (zlength buffer) 0) as [Hz|Hne].
  { exists d. split; [done|]. destruct buffer; [|done]. rewrite splice_nil by (unfold block_size in *; lia). done. }
  pose proof (whole_blocks (zlength v) blk (dr_pages _ _ Hd) ltac:(lia)) as Hblk.
  destruct (read_blocks_spec d v now blk 1 Hd ltac:(lia) ltac:(lia) Hblk) as (d1&E1&Hd1&_). rewrite E1. cbn [mbind outcome_bind].
  set (n := Z.min (zlength buffer) (block_size - off)). assert (1 ≤ n ≤ zlength buffer ∧ n ≤ block_size - off) as Hn by (unfold n; lia).
  set (b := take (Z.to_nat n) buffer). assert (zlength b = n) as Hbl by (unfold b; rewrite length_take; lia).
  assert (zlength (slice (block_size * blk) (block_size * 1) v) = block_size) as Hsl by (rewrite length_slice; unfold block_size in *; lia).
  destruct (write_blocks_spec d1 v now blk 1 (splice (slice (block_size * blk) (block_size * 1) v) off b) Hd1) as (d2&E2&Hd2); [lia|lia|done|rewrite length_splice; unfold block_size in *; lia|].
  rewrite E2. cbn [mbind outcome_bind].
  assert (splice v (block_size * blk) (splice (slice (block_size * blk) (block_size * 1) v) off b) = splice v (block_size * blk + off) b) as Hv.
  { apply splice_splice; unfold block_size in *; lia. }
  rewrite Hv in Hd2. assert (zlength (splice v (block_size * blk + off) b) = zlength v) as Hlv by (rewrite length_splice; unfold block_size in *; lia).
  assert ((blk + 1 =? fb) = false) as Hnf by lia.
  destruct (IH d2 _ now fb fs (drop (Z.to_nat n) buffer) (blk + 1) Hd2) as (d3&E3&Hd3); [lia|done|rewrite length_drop; lia|rewrite Hnf, length_drop, Hlv; unfold n, block_size in *; lia|].
  exists d3. split; [done|]. rewrite Hnf in Hd3. destruct (decide (n = zlength buffer)) as [Heq|].
  - rewrite (drop_ge buffer) in Hd3 by lia. rewrite splice_nil in Hd3 by (rewrite ?Hlv; unfold block_size in *; lia).
    unfold b in Hd3. rewrite take_ge in Hd3 by lia. done.
  - replace (block_size * (blk + 1) + 0) with (block_size * blk + off + zlength b) in Hd3 by (unfold n, block_size in *; lia).
    rewrite splice_app in Hd3 by (rewrite ?length_drop; unfold block_size in *; lia). unfold b in Hd3. by rewrite take_drop in Hd3.
Qed.

Lemma pata_write_spec d v now offset buffer : disk_rep d v → 0 ≤ offset → 0 < zlength buffer → offset + zlength buffer ≤ zlength v → zlength v ≤ 2 ^ 32 →
  ∃ d', pata_write d now offset buffer = Done (Ok (zlength buffer), d') ∧ disk_rep d' (splice v offset buffer).
Proof.
  intros Hd Ho Hb Hlen H32. unfold pata_write. pose proof (Z.div_mod offset block_size ltac:(done)). pose proof (Z.mod_pos_bound offset block_size ltac:(done)).
  pose proof (dr_max _ _ Hd) as Hmax. rewrite u32_id by lia.
  destruct (Z.ltb_spec (_max_addressable_block d) ((offset + zlength buffer - 1) / block_size)) as [Hlt|_].
  { pose proof (Z.div_lt_upper_bound (offset + zlength buffer - 1) block_size (_max_addressable_block d)). unfold block_size in *. lia. }
  destruct (pata_write_loop_spec (S (Z.to_nat (zlength buffer))) d v now (offset / block_size) (offset mod block_size) buffer (offset / block_size) Hd) as (d'&E&Hd').
  - split; [by apply Z.div_pos|lia].
  - done.
  - lia.
  - rewrite Z.eqb_refl. lia.
  - rewrite E. cbn. rewrite Z.eqb_refl in Hd'. replace (block_size * (offset / block_size) + offset mod block_size) with offset in Hd' by lia. by exists d'.
Qed.

(** ** Which regions wait *)

(** Nothing waits but the region at [start]. *)
Definition alone d (start : Z) : Prop := words (_dirty_regions d) [start] ∧ is_Some (cached d !! start).

Lemma invalidate_alone d d' start : invalidate_cache_region d start = Done d' → is_Some (cached d !! start) →
  words (_dirty_regions d) [] ∨ words (_dirty_regions d) [start] → alone d' start.
Proof.
  unfold invalidate_cache_region. intros E Hc [Hq|Hq].
  - rewrite (wq_contains_empty _ _ Hq) in E. cbn in E. injection E as <-. split; [|done]. cbn. by apply (wq_push_words _ []).
  - rewrite (wq_contains_front _ _ _ Hq) in E. cbn in E. by injection E as <-.
Qed.

Lemma write_block_alone d v now block b res d' : disk_rep d v → 0 ≤ block → block_size * (block + 1) ≤ zlength v →
  write_blocks d now block 1 b = Done (res, d') →
  words (_dirty_regions d) [] ∨ words (_dirty_regions d) [block_cache_region_start block] → alone d' (block_cache_region_start block).
Proof.
  intros Hd Hb Hl E Hq. unfold write_blocks in E. change (Z.to_nat 1) with 1%nat in E. cbn [write_blocks_loop] in E.
  destruct (get_cache_region_spec d v now block Hd Hb Hl) as (d1&E1&_&[r1 Hr1]&Hq1). rewrite E1 in E. cbn [mbind outcome_bind] in E.
  unfold region_at in E. rewrite Hr1 in E. cbn [mbind outcome_bind] in E.
  set (d2 := set_region _ _ _) in E. assert (_dirty_regions d2 = _dirty_regions d) as Hq2 by exact Hq1.
  assert (is_Some (cached d2 !! block_cache_region_start block)) as Hc2 by (cbn; rewrite lookup_insert_eq; by eexists).
  destruct (invalidate_cache_region d2 _) as [d3| | |] eqn:E3; try done. injection E as _ <-.
  eapply invalidate_alone; [exact E3|exact Hc2|by rewrite Hq2].
Qed.

(** After a write inside one page, with nothing else waiting, its region waits. *)
Lemma pata_write_loop_alone start : start mod num_blocks = 0 → ∀ fuel d v now fb fs buffer blk res d', disk_rep d v → 0 ≤ fb ≤ blk → 0 ≤ fs < block_size →
  0 ≤ start ≤ blk →
  block_size * blk + (if blk =? fb then fs else 0) + zlength buffer ≤ Z.min (zlength v) (block_size * (start + num_blocks)) →
  pata_write_loop fuel d now fb fs buffer blk = Done (res, d') →
  (buffer ≠ [] ∧ words (_dirty_regions d) []) ∨ alone d start → alone d' start.
Proof.
  intros Hst. induction fuel as [|fuel IH]; intros d v now fb fs buffer blk r d' Hd Hfb Hfs Hblk Hlen E Hq; cbn [pata_write_loop] in E.
  { destruct (Z.eqb_spec (zlength buffer) 0); [|done]. injection E as _ <-. destruct Hq as [[Hne _]|?]; [|done]. by destruct buffer. }
  destruct (Z.eqb_spec (zlength buffer) 0) as [Hz|Hnz].
  { injection E as _ <-. destruct Hq as [[Hne _]|?]; [|done]. by destruct buffer. }
  set (off := if blk =? fb then fs else 0) in *.
  assert (0 ≤ off < block_size) as Hoff by (unfold off; destruct (blk =? fb); unfold block_size in *; lia).
  pose proof (whole_blocks (zlength v) blk (dr_pages _ _ Hd) ltac:(lia)) as Hb1.
  assert (start = block_cache_region_start blk) as Hs by (apply start_unique; [done|unfold block_size in *; change num_blocks with 8 in *; lia]).
  destruct (read_blocks_spec d v now blk 1 Hd ltac:(lia) ltac:(lia) Hb1) as (d1&E1&Hd1&Hq1). rewrite E1 in E. cbn [mbind outcome_bind] in E.
  set (b := splice _ _ _) in E. assert (zlength b = block_size) as Hbl.
  { unfold b. assert (zlength (slice (block_size * blk) (block_size * 1) v) = block_size) as Hsl by (rewrite length_slice; unfold block_size in *; lia).
    rewrite length_splice; [done|lia|]. rewrite length_take. unfold block_size in *. lia. }
  destruct (write_blocks_spec d1 v now blk 1 b Hd1 ltac:(lia) ltac:(lia) Hb1 ltac:(rewrite Hbl; lia)) as (d2&E2&Hd2).
  assert (alone d2 start) as Ha2.
  { rewrite Hs. apply (write_block_alone d1 v now blk b (Ok tt) d2 Hd1 ltac:(lia) Hb1 E2). rewrite Hq1, <-Hs. destruct Hq as [[_ Hq]|[Hq _]]; auto. }
  rewrite E2 in E. cbn [mbind outcome_bind] in E. assert ((blk + 1 =? fb) = false) as Hnf by lia.
  apply (IH d2 _ now fb fs _ (blk + 1) r d' Hd2) in E; [done|lia|done|lia| |by right].
  rewrite Hnf, length_drop, length_splice by (rewrite ?Hbl; unfold block_size in *; lia). unfold block_size in *. lia.
Qed.
End disk_cache.

(** ** Histories *)

(** What can happen to a disk: its owner reads and writes bytes, memory is short, and the writeback task runs. *)
Inductive disk_op :=
  | ReadBytes (now offset count : Z)
  | WriteBytes (now offset : Z) (buffer : list Z)
  | FreePages (num_pages : nat)
  | Writeback.

Definition run_op `{Drive H} (d : disk H) (op : disk_op) : outcome (result (list Z) * disk H) :=
  match op with
  | ReadBytes now offset count => pata_read d now offset count
  | WriteBytes now offset buffer => '(r, d) ← pata_write d now offset buffer; Done (match r with Ok _ => Ok [] | Err e => Err e end, d)
  | FreePages n => '(_, ds) ← free_pages n [d]; match ds with [d] => Done (Ok [], d) | _ => Undef end
  | Writeback => '(_, d) ← writeback (Z.to_nat (wq_size (_dirty_regions d))) d; Done (Ok [], d)
  end.

Fixpoint run_ops `{Drive H} (d : disk H) (ops : list disk_op) : outcome (list (result (list Z)) * disk H) :=
  match ops with
  | [] => Done ([], d)
  | op :: ops => '(r, d) ← run_op d op; '(rs, d) ← run_ops d ops; Done (r :: rs, d)
  end.

(** The same on an array of bytes. *)
Definition array_op (v : list Z) (op : disk_op) : list Z * list Z :=
  match op with
  | ReadBytes _ offset count => (slice offset count v, v)
  | WriteBytes _ offset buffer => ([], splice v offset buffer)
  | _ => ([], v)
  end.

Fixpoint array_ops (v : list Z) (ops : list disk_op) : list (list Z) * list Z :=
  match ops with
  | [] => ([], v)
  | op :: ops => let '(r, v) := array_op v op in let '(rs, v) := array_ops v ops in (r :: rs, v)
  end.

Definition in_range (n : Z) (op : disk_op) : Prop :=
  match op with
  | ReadBytes _ offset count => 0 ≤ offset ∧ 0 ≤ count ∧ offset + count ≤ n
  | WriteBytes _ offset buffer => 0 ≤ offset ∧ 0 < zlength buffer ∧ offset + zlength buffer ≤ n
  | _ => True
  end.

Section histories.
Context {H : Type} `{DriveSpec H}.
Implicit Types (d : disk H) (v : list Z).

Lemma array_op_length v op : in_range (zlength v) op → zlength (array_op v op).2 = zlength v.
Proof. destruct op; cbn; try done. intros (?&?&?). rewrite length_splice; lia. Qed.

Lemma array_ops_length ops : ∀ v, Forall (in_range (zlength v)) ops → zlength (array_ops v ops).2 = zlength v.
Proof.
  induction ops as [|op ops IH]; intros v Hops; [done|]. apply list.Forall_cons in Hops as [Hop Hops]. pose proof (array_op_length v op Hop) as Hl.
  cbn [array_ops]. destruct (array_op v op) as [r v1]. cbn in Hl. specialize (IH v1 ltac:(by rewrite Hl)). destruct (array_ops v1 ops). cbn in *. lia.
Qed.

Lemma run_op_spec d v op : disk_rep d v → zlength v ≤ 2 ^ 32 → in_range (zlength v) op →
  ∃ d', run_op d op = Done (Ok (array_op v op).1, d') ∧ disk_rep d' (array_op v op).2.
Proof.
  intros Hd H32 Hop. destruct op as [now offset count|now offset buffer|n|]; cbn in *.
  - destruct Hop as (?&?&?). by apply pata_read_spec.
  - destruct Hop as (?&?&?). destruct (pata_write_spec d v now offset buffer) as (d'&E&Hd'); try done. rewrite E. cbn. by exists d'.
  - destruct (free_pages_spec n [d] [v]) as (k&ds&E&Hds&_); [by constructor|]. rewrite E. cbn. inversion Hds as [|d' ? ? ? Hd' Hnil]; subst.
    inversion Hnil; subst. by exists d'.
  - destruct (dr_queue _ _ Hd) as [l Hl]. destruct (writeback_spec (Z.to_nat (wq_size (_dirty_regions d))) d v l Hd Hl) as (b&d'&E&Hd'&_); [rewrite (wo_size _ _ Hl); lia|]. rewrite E. cbn. by exists d'.
Qed.

(** A disk as it is when it has been found: nothing is cached. *)
Definition fresh_disk d v : Prop :=
  drive_bytes (drive d) = v ∧ zlength v mod PAGE_SIZE = 0 ∧ zlength v ≤ block_size * _max_addressable_block d ∧ zlength v ≤ 2 ^ 32 ∧
  _cache_regions d = lru_empty ∧ _dirty_regions d = wq_new.

Lemma fresh_rep d v : fresh_disk d v → disk_rep d v.
Proof.
  intros (Hv&?&?&?&Hc&Hq). split; try assumption.
  - by rewrite Hv.
  - exists []. rewrite Hc. by split; [| |apply NoDup_nil_2].
  - exists []. rewrite Hq. apply words_new.
  - intros start r. rewrite Hc. cbn. by rewrite lookup_empty.
  - intros. by rewrite Hv.
Qed.

Lemma run_ops_spec ops : ∀ d v, disk_rep d v → zlength v ≤ 2 ^ 32 → Forall (in_range (zlength v)) ops →
  ∃ d', run_ops d ops = Done (Ok <$> (array_ops v ops).1, d') ∧ disk_rep d' (array_ops v ops).2.
Proof.
  induction ops as [|op ops IH]; intros d v Hd H32 Hops; [by exists d|]. apply list.Forall_cons in Hops as [Hop Hops].
  destruct (run_op_spec d v op Hd H32 Hop) as (d1&E1&Hd1). pose proof (array_op_length v op Hop) as Hl. cbn [run_ops array_ops]. rewrite E1. cbn [mbind outcome_bind].
  destruct (array_op v op) as [r v1] eqn:Ev. cbn in *. destruct (IH d1 v1 Hd1) as (d2&E2&Hd2); [lia|by rewrite Hl|]. rewrite E2. cbn.
  destruct (array_ops v1 ops) as [rs v2]. cbn in *. by exists d2.
Qed.
End histories.

(** Writing inside one page when nothing waits, and then writing back. *)
Lemma page_written_back {H} `{DriveSpec H} (d : disk H) v now offset buffer start : disk_rep d v → zlength v ≤ 2 ^ 32 → words (_dirty_regions d) [] →
  in_range (zlength v) (WriteBytes now offset buffer) → page_of v start →
  block_size * start ≤ offset → offset + zlength buffer ≤ block_size * start + PAGE_SIZE →
  ∃ d1 d2, run_op d (WriteBytes now offset buffer) = Done (Ok [], d1) ∧ writeback 1 d1 = Done (true, d2) ∧ on_drive d2 (splice v offset buffer) start.
Proof.
  intros Hd H32 Hq (Ho&Hb&Hlen) (Hs0&Hs8&Hsl) Hlo Hhi. cbn [run_op].
  destruct (pata_write_spec d v now offset buffer Hd Ho Hb Hlen H32) as (d1&E1&Hd1). rewrite E1. cbn [mbind outcome_bind].
  pose proof (Z.div_mod offset block_size ltac:(done)) as Hdm. pose proof (Z.mod_pos_bound offset block_size ltac:(done)) as Hmb.
  assert (alone d1 start) as [Hw Hc].
  { unfold pata_write in E1. destruct (_ <? _); [done|]. destruct (pata_write_loop _ _ _ _ _ _ _) as [[r d']| | |] eqn:E; try done.
    cbn in E1. injection E1 as _ <-. eapply (pata_write_loop_alone start Hs8 _ d v) in E; try done.
    - split; [by apply Z.div_pos|lia].
    - split; [done|]. unfold block_size in *. apply Z.div_le_lower_bound; lia.
    - rewrite Z.eqb_refl. unfold PAGE_SIZE, block_size in *. change num_blocks with 8. lia.
    - left. split; [|done]. by intros ->. }
  destruct (writeback_spec 1 d1 _ [start] Hd1 Hw) as (b&d2&E2&Hd2&Hon&Hfin); [done|].
  assert (b = true) as -> by (apply Hfin; intros s ->%list_elem_of_singleton; done).
  exists d1, d2. split; [done|]. split; [done|]. apply Hon; [done| |left; by left]. split; [done|]. split; [done|]. rewrite length_splice; lia.
Qed.

(** C12: The cache of a disk is transparent: whatever is read and written, and whenever memory is reclaimed or the cache written
    back, every operation succeeds, and reads give what they give on an array of bytes.  A writeback always returns, and when
    it runs to its end the drive has the bytes of every page that waited in the queue and of every page whose region was
    clean; and what is written inside one page when nothing waits is on the drive after the next writeback, which runs to its
    end.  (The queue may refuse a dirty region that it does not hold, see [region_never_queued], so that a finished writeback
    need not leave the drive with all bytes.) *)
Theorem disk_is_array {H} `{DriveSpec H} (d : disk H) v ops : fresh_disk d v → Forall (in_range (zlength v)) ops →
  ∃ d', run_ops d ops = Done (Ok <$> (array_ops v ops).1, d') ∧
    (∃ waiting, words (_dirty_regions d') waiting ∧
      ∀ fuel, (length waiting ≤ fuel)%nat → ∃ finished d2, writeback fuel d' = Done (finished, d2) ∧
        (finished = true → ∀ start, page_of v start → start ∈ waiting ∨ clean d' start → on_drive d2 (array_ops v ops).2 start)) ∧
    (words (_dirty_regions d') [] → ∀ now offset buffer start, in_range (zlength v) (WriteBytes now offset buffer) → page_of v start →
      block_size * start ≤ offset → offset + zlength buffer ≤ block_size * start + PAGE_SIZE →
      ∃ d1 d2, run_op d' (WriteBytes now offset buffer) = Done (Ok [], d1) ∧ writeback 1 d1 = Done (true, d2) ∧
        on_drive d2 (splice (array_ops v ops).2 offset buffer) start).
Proof.
  intros Hf Hops. pose proof (fresh_rep d v Hf) as Hd. destruct Hf as (_&_&_&H32&_). destruct (run_ops_spec ops d v Hd H32 Hops) as (d'&E&Hd').
  pose proof (array_ops_length ops v Hops) as Hl. exists d'. split; [done|]. split.
  - destruct (dr_queue _ _ Hd') as [l Hq]. exists l. split; [done|]. intros fuel Hfuel.
    destruct (writeback_spec fuel d' _ l Hd' Hq Hfuel) as (b&d2&E2&_&Hb&_). exists b, d2. split; [done|]. intros -> s (?&?&?) Hs.
    apply Hb; [done| |done]. split; [done|]. split; [done|]. by rewrite Hl.
  - intros Hq now offset buffer start Hr (?&?&?) Hlo Hhi. apply page_written_back; try done; [by rewrite Hl..|]. split; [done|]. split; [done|]. by rewrite Hl.
Qed.

(** ** A drive in memory *)

#[export] Instance memory_drive : Drive (list Z) := {|
  read_uncached_blocks h b n := Ok (slice (block_size * b) (block_size * n) h);
  write_uncached_blocks h b l := (Ok tt, splice h (block_size * b) l);
|}.

#[export] Instance memory_drive_spec : DriveSpec (list Z).
Proof. refine {| drive_bytes h := h |}; [done|]. intros h b l ? ? ?. by eexists. Defined.

Definition blank_disk : disk (list Z) := mk_disk (zeroes 8192) lru_empty wq_new 16.

(** Bytes are written across two pages, the pages are taken away, and the bytes are read back. *)
Definition example_ops : list disk_op := [WriteBytes 1 4094 [1; 2; 3; 4]; FreePages 2; ReadBytes 2 4093 6; Writeback].

Lemma blank_fresh : fresh_disk blank_disk (zeroes 8192).
Proof. unfold fresh_disk. rewrite (length_zeroes 8192) by lia. split_and!; done. Qed.

Lemma example_ranges : Forall (in_range (zlength (zeroes 8192))) example_ops.
Proof.
  rewrite (length_zeroes 8192) by lia. unfold example_ops. repeat apply list.Forall_cons_2; cbn; try lia; [done..|]. by apply list.Forall_nil.
Qed.

Lemma disk_is_array_witness : ∃ d', run_ops blank_disk example_ops = Done ([Ok []; Ok []; Ok [0; 1; 2; 3; 4; 0]; Ok []], d').
Proof.
  destruct (disk_is_array blank_disk (zeroes 8192) example_ops blank_fresh example_ranges) as (d'&E&_).
  exists d'. rewrite E. apply (f_equal (λ r, Done (r, d'))). vm_compute. reflexivity.
Defined.

(** Three regions wait in four cells, the last of which is zero: the region at block 0 seems to wait as well, is not
    queued, and is not on the drive after a writeback that runs to its end. *)
Example region_never_queued : ∃ d',
  run_ops (mk_disk (zeroes 16384) lru_empty wq_new 32)
    [WriteBytes 1 4096 [1]; WriteBytes 2 8192 [2]; WriteBytes 3 12288 [3]; WriteBytes 4 0 [7]; ReadBytes 5 0 1; Writeback]
  = Done ([Ok []; Ok []; Ok []; Ok []; Ok [7]; Ok []], d') ∧
  wq_size (_dirty_regions d') = 0 ∧ slice 0 1 (drive d') = [0] ∧ slice 4096 1 (drive d') = [1].
Proof. eexists. vm_compute. by split_and!. Qed.
