(* ===== verification/FileBlocks.v ===== *)
(** * Filesystems on a file (kernel/filesystem/FileBasedFilesystem.cpp)

    Blocks of a filesystem on the file that holds it.  [ByteFile] is what [File::read] and
    [File::write] give, [ByteFileSpec] what the filesystem relies on: the file is an array
    of bytes.  A disk with its cache is one ([DiskCache]). *)

From stdpp Require Import base numbers list list_numbers option gmap.
From S2P Require Import Prelude.
From S2P Require Import ByteBuf.
From S2P Require Import LRUCache.
From S2P Require Import Disk.
From S2P Require Import DiskCache.

Local Open Scope Z_scope.

Class ByteFile (D : Type) := {
  file_read : D → Z → Z → outcome (result (list Z) * D);
  file_write : D → Z → list Z → outcome (result Z * D);
}.

Class ByteFileSpec (D : Type) `{ByteFile D} := {
  file_rep : D → list Z → Prop;
  file_bound d v : file_rep d v → zlength v ≤ 2 ^ 32;
  file_read_ok d v off n : file_rep d v → 0 ≤ off → 0 ≤ n → off + n ≤ zlength v →
    ∃ d', file_read d off n = Done (Ok (slice off n v), d') ∧ file_rep d' v;
  file_write_ok d v off b : file_rep d v → 0 ≤ off → 0 < zlength b → off + zlength b ≤ zlength v →
    ∃ d', file_write d off b = Done (Ok (zlength b), d') ∧ file_rep d' (splice v off b);
}.

(** A disk, with the clock that its accesses read. *)
#[export] Instance disk_file {H} `{Drive H} : ByteFile (Z * disk H) := {|
  file_read '(now, d) off n := '(r, d) ← pata_read d now off n; Done (r, (now + 1, d));
  file_write '(now, d) off b := '(r, d) ← pata_write d now off b; Done (r, (now + 1, d));
|}.

#[export] Instance disk_file_spec {H} `{DriveSpec H} : ByteFileSpec (Z * disk H).
Proof.
  refine {| file_rep x v := disk_rep x.2 v ∧ zlength v ≤ 2 ^ 32 |}.
  - by intros [now d] v [_ ?].
  - intros [now d] v off n [Hd ?] ? ? ?. destruct (pata_read_spec d v now off n) as (d'&E&Hd'); [done..|].
    cbn [file_read disk_file]. rewrite E. by eexists.
  - intros [now d] v off b [Hd ?] ? ? ?. destruct (pata_write_spec d v now off b) as (d'&E&Hd'); [done..|].
    cbn [file_write disk_file]. rewrite E. eexists.
    split; [done|]. cbn. split; [done|]. rewrite length_splice; lia.
Defined.

(** A file in memory. *)
#[export] Instance memory_file : ByteFile (list Z) := {|
  file_read v off n := Done (Ok (slice off n v), v);
  file_write v off b := Done (Ok (zlength b), splice v off b);
|}.

#[export] Instance memory_file_spec : ByteFileSpec (list Z).
Proof.
  refine {| file_rep x v := x = v ∧ zlength v ≤ 2 ^ 32 |}.
  - by intros d v [_ ?].
  - intros d v off n [-> ?] ? ? ?. by eexists.
  - intros d v off b [-> ?] ? ? ?. eexists. split; [done|]. split; [done|]. rewrite length_splice; lia.
Defined.

(** ** Blocks *)

Section blocks.
Context {D : Type} `{ByteFile D}.
Implicit Types (d : D) (bs block : Z).

(** The buffer of a read that gave less than it was asked for has bytes without a value. *)
Definition whole (n : Z) (l : list Z) : outcome (list Z) := if zlength l =? n then Done l else Undef.

Definition logical_block_size : Z := 512.

Definition read_logical_blocks d block count : outcome (result (list Z) * D) :=
  '(r, d) ← file_read d (u32 (block * logical_block_size)) (u32 (count * logical_block_size));
  match r with
  | Err e => Done (Err e, d)
  | Ok l => Done (if zlength l =? u32 (count * logical_block_size) then Ok l else Err (- EIO), d)
  end.

Definition write_logical_blocks d block (buffer : list Z) : outcome (result unit * D) :=
  '(r, d) ← file_write d (u32 (block * logical_block_size)) buffer;
  match r with
  | Err e => Done (Err e, d)
  | Ok n => Done (if n =? zlength buffer then Ok tt else Err (- EIO), d)
  end.

Definition read_block d bs block : outcome (result (list Z) * D) :=
  '(r, d) ← file_read d (u32 (block * bs)) bs;
  match r with
  | Err e => Done (Err e, d)
  | Ok l => if zlength l =? 0 then Done (Err (- EIO), d) else l ← whole bs l; Done (Ok l, d)
  end.

Definition write_block d bs block (buffer : list Z) : outcome (result unit * D) :=
  '(r, d) ← file_write d (u32 (block * bs)) buffer;
  match r with
  | Err e => Done (Err e, d)
  | Ok n => Done (if n =? 0 then Err (- EIO) else Ok tt, d)
  end.

Fixpoint read_fs_blocks d bs block (count : nat) : outcome (result (list Z) * D) :=
  match count with
  | O => Done (Ok [], d)
  | S count =>
      '(r, d) ← read_block d bs block;
      match r with
      | Err e => Done (Err e, d)
      | Ok l => '(r, d) ← read_fs_blocks d bs (block + 1) count; Done (match r with Ok l' => Ok (l ++ l') | Err e => Err e end, d)
      end
  end.

Definition zero_block d bs block : outcome (result unit * D) := write_block d bs block (zeroes bs).

Definition truncate_block d bs block new_size : outcome (result unit * D) :=
  if bs <=? new_size then Done (Err (- EOVERFLOW), d)
  else
    '(r, d) ← file_read d (u32 (block * bs)) bs;
    match r with
    | Err e => Done (Err e, d)
    | Ok buf => buf ← whole bs buf; write_block d bs block (splice buf new_size (zeroes (bs - new_size)))
    end.

End blocks.

(** ** What the blocks are *)

(** Block [b] of a file of bytes. *)
Definition blk (bs : Z) (v : list Z) (b : Z) : list Z := slice (b * bs) bs v.

Section blocks_spec.
Context {D : Type} `{ByteFileSpec D}.
Implicit Types (d : D) (v : list Z) (bs b : Z).

Definition in_file bs v b : Prop := 0 ≤ b ∧ (b + 1) * bs ≤ zlength v.

Lemma length_blk bs v b : 0 ≤ bs → in_file bs v b → zlength (blk bs v b) = bs.
Proof. intros ? [? ?]. unfold blk. apply length_slice; nia. Qed.

Lemma blk_offset d bs v b : file_rep d v → 0 < bs → in_file bs v b → u32 (b * bs) = b * bs.
Proof. intros Hd ? [? ?]. apply u32_id. pose proof (file_bound d v Hd). nia. Qed.

Lemma read_block_ok d bs v b : file_rep d v → 0 < bs → in_file bs v b →
  ∃ d', read_block d bs b = Done (Ok (blk bs v b), d') ∧ file_rep d' v.
Proof.
  intros Hd Hbs Hb. unfold read_block. rewrite (blk_offset d bs v b) by done. pose proof (length_blk bs v b ltac:(lia) Hb) as Hl. destruct Hb as [? ?].
  destruct (file_read_ok d v (b * bs) bs) as (d'&E&Hd'); [done|nia..|]. rewrite E. cbn [mbind outcome_bind]. fold (blk bs v b). rewrite Hl.
  destruct (Z.eqb_spec bs 0); [lia|]. unfold whole. rewrite Hl, Z.eqb_refl. by exists d'.
Qed.

Lemma write_block_ok d bs v b l : file_rep d v → 0 < bs → in_file bs v b → zlength l = bs →
  ∃ d', write_block d bs b l = Done (Ok tt, d') ∧ file_rep d' (splice v (b * bs) l).
Proof.
  intros Hd Hbs Hb Hl. unfold write_block. rewrite (blk_offset d bs v b) by done. destruct Hb as [? ?].
  destruct (file_write_ok d v (b * bs) l) as (d'&E&Hd'); [done|nia..|]. rewrite E. cbn [mbind outcome_bind]. destruct (Z.eqb_spec (zlength l) 0); [lia|]. by exists d'.
Qed.

Lemma zero_block_ok d bs v b : file_rep d v → 0 < bs → in_file bs v b →
  ∃ d', zero_block d bs b = Done (Ok tt, d') ∧ file_rep d' (splice v (b * bs) (zeroes bs)).
Proof. intros. apply write_block_ok; try done. apply length_zeroes. lia. Qed.

Lemma truncate_block_ok d bs v b n : file_rep d v → 0 < bs → in_file bs v b → 0 ≤ n < bs →
  ∃ d', truncate_block d bs b n = Done (Ok tt, d') ∧ file_rep d' (splice v (b * bs) (splice (blk bs v b) n (zeroes (bs - n)))).
Proof.
  intros Hd Hbs Hb Hn. unfold truncate_block. destruct (Z.leb_spec bs n); [lia|]. rewrite (blk_offset d bs v b) by done.
  pose proof (length_blk bs v b ltac:(lia) Hb) as Hl. pose proof Hb as [? ?].
  destruct (file_read_ok d v (b * bs) bs) as (d'&E&Hd'); [done|nia..|]. rewrite E. cbn [mbind outcome_bind]. fold (blk bs v b).
  unfold whole. rewrite Hl, Z.eqb_refl. cbn [mbind outcome_bind]. apply write_block_ok; try done.
  rewrite length_splice; rewrite ?length_zeroes; lia.
Qed.

(** A block that has been written, and the others. *)
Lemma blk_splice bs v b l b' : 0 < bs → in_file bs v b → zlength l = bs → 0 ≤ b' →
  blk bs (splice v (b * bs) l) b' = if decide (b' = b) then l else blk bs v b'.
Proof.
  intros Hbs [? ?] Hl Hb'. unfold blk. case_decide as Hd.
  - subst b'. rewrite <-Hl at 2. apply slice_splice; nia.
  - apply slice_splice_other; nia.
Qed.

Lemma length_splice_blk bs v b l : 0 < bs → in_file bs v b → zlength l = bs → zlength (splice v (b * bs) l) = zlength v.
Proof. intros ? [? ?] ?. rewrite length_splice; nia. Qed.

End blocks_spec.
