(* ===== verification/Partition.v ===== *)
(** * Partitions (kernel/device/PartitionDevice.cpp)

    A partition is a file that starts at an offset of another one; what is proved of a
    filesystem on a file holds on a partition. *)

From stdpp Require Import base numbers list list_numbers option.
From S2P Require Import Prelude.
From S2P Require Import ByteBuf.
From S2P Require Import Disk.
From S2P Require Import FileBlocks.

Local Open Scope Z_scope.

Record partition (D : Type) := mk_partition {
  _parent : D;
  _offset : Z;
}.
Arguments mk_partition {D}.
Arguments _parent {D}.
Arguments _offset {D}.

(** The constructor: the partition starts [offset_blocks] blocks of the parent behind its start. *)
Definition PartitionDevice {D} (parent : D) (offset_blocks : Z) : partition D := mk_partition parent (u32 (offset_blocks * block_size)).

#[export] Instance partition_file {D} `{ByteFile D} : ByteFile (partition D) := {|
  file_read p start count := '(r, d) ← file_read (_parent p) (u32 (start + _offset p)) count; Done (r, mk_partition d (_offset p));
  file_write p start buffer := '(r, d) ← file_write (_parent p) (u32 (start + _offset p)) buffer; Done (r, mk_partition d (_offset p));
|}.

Section spec.
Context {D : Type} `{ByteFileSpec D}.
Implicit Types (v w : list Z).

(** The bytes of the partition are a part of the bytes of the parent. *)
Definition partition_rep (p : partition D) v : Prop := ∃ w, file_rep (_parent p) w ∧ 0 ≤ _offset p ∧ _offset p + zlength v ≤ zlength w ∧ v = slice (_offset p) (zlength v) w.

(** An offset behind the last byte can be 0 modulo the width of the type; only nothing is read there. *)
Lemma partition_read p v off n : partition_rep p v → 0 ≤ off → 0 ≤ n → off + n ≤ zlength v → ∃ p', file_read p off n = Done (Ok (slice off n v), p') ∧ partition_rep p' v.
Proof.
  intros (w&Hw&Ho&Hle&Hv) ? ? ?. pose proof (file_bound _ _ Hw). cbn [file_read partition_file].
  assert (∃ o, u32 (off + _offset p) = o ∧ 0 ≤ o ∧ o + n ≤ zlength w ∧ slice o n w = slice off n v) as (o&->&?&?&Hs).
  { rewrite Hv, slice_slice by lia. destruct (decide (off + _offset p = 2 ^ 32)) as [E|].
    - exists 0. rewrite E. replace n with 0 by lia. rewrite !slice_nil. split_and!; [done|lia..|done].
    - exists (off + _offset p). rewrite u32_id by lia. split_and!; [done|lia..|]. by rewrite (Z.add_comm off). }
  destruct (file_read_ok (_parent p) w o n) as (d'&E&Hd'); [done|lia..|]. rewrite E, Hs. eexists. split; [done|]. by exists w.
Qed.

Lemma partition_write p v off b : partition_rep p v → 0 ≤ off → 0 < zlength b → off + zlength b ≤ zlength v →
  ∃ p', file_write p off b = Done (Ok (zlength b), p') ∧ partition_rep p' (splice v off b).
Proof.
  intros (w&Hw&Ho&Hle&Hv) ? ? ?. pose proof (file_bound _ _ Hw). cbn [file_write partition_file]. rewrite u32_id by lia.
  destruct (file_write_ok (_parent p) w (off + _offset p) b) as (d'&E&Hd'); [done|lia..|]. rewrite E. eexists. split; [done|]. exists (splice w (off + _offset p) b). cbn.
  rewrite !length_splice by lia. split_and!; [done..|]. rewrite slice_splice_around by lia. rewrite <-Hv. by replace (off + _offset p - _offset p) with off by lia.
Qed.

#[export] Instance partition_file_spec : ByteFileSpec (partition D).
Proof.
  refine {| file_rep := partition_rep; file_read_ok := partition_read; file_write_ok := partition_write |}.
  intros p v (w&Hw&?&?&_). pose proof (file_bound _ _ Hw). lia.
Defined.
End spec.
