(* ===== verification/Ext2.v ===== *)
(** * ext2: superblock, block groups and the allocation of blocks
    (kernel/filesystem/ext2/Ext2Filesystem.cpp, Ext2BlockGroup.cpp)

    The filesystem keeps its superblock and the block groups it has seen in memory and
    writes them through.  A block group in memory is a shared object; here a
    pointer to one is its number.

    Structures on the disk are their bytes, with the offsets of the packed structures of
    Ext2.h.  An operation of the filesystem is a function on its state ([eff]); the file that holds the
    filesystem is any [ByteFile].  The locks make the operations atomic. *)

From stdpp Require Import base numbers list list_numbers option gmap.
From S2P Require Import Prelude.
From S2P Require Import ByteBuf.
From S2P Require Import FileBlocks.

Local Open Scope Z_scope.

(** ** State *)

(** [Ext2BlockGroup]. *)
Record group := mk_group {
  block_bitmap_block : Z;
  inode_bitmap_block : Z;
  inode_table_block : Z;
  free_blocks : Z;
  free_inodes : Z;
  num_directories : Z;
}.

Definition set_free_blocks (n : Z) (g : group) : group :=
  mk_group (block_bitmap_block g) (inode_bitmap_block g) (inode_table_block g) (u16 n) (free_inodes g) (num_directories g).
Definition set_free_inodes (n : Z) (g : group) : group :=
  mk_group (block_bitmap_block g) (inode_bitmap_block g) (inode_table_block g) (free_blocks g) (u16 n) (num_directories g).
Definition set_num_directories (n : Z) (g : group) : group :=
  mk_group (block_bitmap_block g) (inode_bitmap_block g) (inode_table_block g) (free_blocks g) (free_inodes g) (u16 n).

Record ext2 (D : Type) := mk_ext2 {
  dev : D;
  _block_size : Z;
  superblock : list Z;
  num_block_groups : Z;
  inodes_per_block : Z;
  block_pointers_per_block : Z;
  block_groups : gmap Z group;
}.
Arguments mk_ext2 {D}.
Arguments dev {D}.
Arguments _block_size {D}.
Arguments superblock {D}.
Arguments num_block_groups {D}.
Arguments inodes_per_block {D}.
Arguments block_pointers_per_block {D}.
Arguments block_groups {D}.

Definition with_dev {D} (s : ext2 D) (d : D) : ext2 D :=
  mk_ext2 d (_block_size s) (superblock s) (num_block_groups s) (inodes_per_block s) (block_pointers_per_block s) (block_groups s).
Definition with_superblock {D} (s : ext2 D) (sb : list Z) : ext2 D :=
  mk_ext2 (dev s) (_block_size s) sb (num_block_groups s) (inodes_per_block s) (block_pointers_per_block s) (block_groups s).
Definition with_groups {D} (s : ext2 D) (gs : gmap Z group) : ext2 D :=
  mk_ext2 (dev s) (_block_size s) (superblock s) (num_block_groups s) (inodes_per_block s) (block_pointers_per_block s) gs.

(** The fields of [ext2_superblock] that the code uses. *)
Definition total_blocks (sb : list Z) : Z := get32 sb 4.
Definition sb_free_blocks (sb : list Z) : Z := get32 sb 12.
Definition sb_free_inodes (sb : list Z) : Z := get32 sb 16.
Definition sb_block_size (sb : list Z) : Z := get32 sb 24.
Definition blocks_per_group (sb : list Z) : Z := get32 sb 32.
Definition inodes_per_group (sb : list Z) : Z := get32 sb 40.
Definition version_major (sb : list Z) : Z := get32 sb 76.
Definition inode_size (sb : list Z) : Z := get16 sb 88.
Definition set_sb_free_blocks (n : Z) (sb : list Z) : list Z := put32 sb 12 n.
Definition set_sb_free_inodes (n : Z) (sb : list Z) : list Z := put32 sb 16 n.

(** ** Operations on the state *)

Definition eff (D A : Type) : Type := ext2 D → outcome (A * ext2 D).

#[export] Instance eff_ret {D} : MRet (eff D) := λ A a s, Done (a, s).
#[export] Instance eff_bind {D} : MBind (eff D) := λ A B f m s, match m s with Done (a, s) => f a s | Panic => Panic | Undef => Undef | NoFuel => NoFuel end.

Definition ret {D A} (a : A) : eff D A := λ s, Done (a, s).
Definition lift {D A} (o : outcome A) : eff D A := λ s, a ← o; Done (a, s).
Definition get_state {D} : eff D (ext2 D) := λ s, Done (s, s).
Definition modify {D} (f : ext2 D → ext2 D) : eff D unit := λ s, Done (tt, f s).

(** ** Bitmaps *)

Definition get_bitmap_bit (bitmap : list Z) (index : Z) : outcome bool :=
  match bitmap !! Z.to_nat (index / 8) with
  | Some x => Done (negb (Z.land x (Z.shiftl 1 (index mod 8)) =? 0))
  | None => Undef
  end.

Definition set_bitmap_bit (bitmap : list Z) (index : Z) (state : bool) : outcome (list Z) :=
  match bitmap !! Z.to_nat (index / 8) with
  | Some x => Done (<[Z.to_nat (index / 8) :=
      if state then Z.lor x (u8 (Z.shiftl 1 (index mod 8))) else Z.land x (u8 (Z.lnot (Z.shiftl 1 (index mod 8))))]> bitmap)
  | None => Undef
  end.

Section ext2.
Context {D : Type} `{ByteFile D}.

(** The bytes that the structure on the stack has where it is not set: [unused] of the block group descriptor. *)
Context (stack_bytes : list Z).

Definition fs_read_block (block : Z) : eff D (result (list Z)) := λ s,
  '(r, d) ← read_block (dev s) (_block_size s) block; Done (r, with_dev s d).
Definition fs_write_block (block : Z) (buffer : list Z) : eff D (result unit) := λ s,
  '(r, d) ← write_block (dev s) (_block_size s) block buffer; Done (r, with_dev s d).
Definition fs_zero_block (block : Z) : eff D (result unit) := λ s,
  '(r, d) ← zero_block (dev s) (_block_size s) block; Done (r, with_dev s d).
Definition fs_truncate_block (block new_size : Z) : eff D (result unit) := λ s,
  '(r, d) ← truncate_block (dev s) (_block_size s) block new_size; Done (r, with_dev s d).

(** A buffer whose error the code does not look at: it has a value only when there is none. *)
Definition buffer (r : result (list Z)) : eff D (list Z) := match r with Ok l => ret l | Err _ => lift Undef end.

Definition write_superblock : eff D unit := λ s,
  '(_, d) ← write_logical_blocks (dev s) 2 (superblock s); Done (tt, with_dev s d).

(** ** Block groups *)

Definition sizeof_descriptor : Z := 32.

Definition descriptor_block (s : ext2 D) (g : Z) : Z := 2 + (g * sizeof_descriptor) / _block_size s.
Definition descriptor_offset (s : ext2 D) (g : Z) : Z := (g mod (_block_size s / sizeof_descriptor)) * sizeof_descriptor.

Definition read_block_group_raw (g : Z) : eff D (list Z) :=
  s ← get_state;
  r ← fs_read_block (descriptor_block s g);
  buf ← buffer r;
  ret (slice (descriptor_offset s g) sizeof_descriptor buf).

Definition write_block_group_raw (g : Z) (d : list Z) : eff D (result unit) :=
  s ← get_state;
  r ← fs_read_block (descriptor_block s g);
  match r with
  | Err e => ret (Err e)
  | Ok buf => fs_write_block (descriptor_block s g) (splice buf (descriptor_offset s g) d)
  end.

(** [Ext2BlockGroup::Ext2BlockGroup], and the structure that [write] fills. *)
Definition group_of_bytes (d : list Z) : group := mk_group (get32 d 0) (get32 d 4) (get32 d 8) (get16 d 12) (get16 d 14) (get16 d 16).
Definition group_bytes (g : group) : list Z :=
  le32 (block_bitmap_block g) ++ le32 (inode_bitmap_block g) ++ le32 (inode_table_block g) ++ le16 (free_blocks g) ++ le16 (free_inodes g) ++
  le16 (num_directories g) ++ stack_bytes.

(** [get_block_group]. *)
Definition get_block_group (g : Z) : eff D (option group) :=
  s ← get_state;
  if num_block_groups s <=? g then ret None
  else
    match block_groups s !! g with
    | Some x => ret (Some x)
    | None =>
        d ← read_block_group_raw g;
        _ ← modify (λ s, with_groups s (<[g := group_of_bytes d]> (block_groups s)));
        ret (Some (group_of_bytes d))
    end.

(** Reading and changing a block group through its pointer. *)
Definition the_group (g : Z) : eff D group :=
  s ← get_state; match block_groups s !! g with Some x => ret x | None => lift Undef end.
Definition change_group (g : Z) (f : group → group) : eff D unit :=
  x ← the_group g; modify (λ s, with_groups s (<[g := f x]> (block_groups s))).

(** [Ext2BlockGroup::write]. *)
Definition write_group (g : Z) : eff D unit := x ← the_group g; _ ← write_block_group_raw g (group_bytes x); ret tt.

(** [Ext2BlockGroup::first_block]. *)
Definition first_block (s : ext2 D) (g : Z) : Z := u32 (g * blocks_per_group (superblock s) + (if _block_size s =? 1024 then 1 else 0)).

Definition change_sb_free_blocks (k : Z) : eff D unit :=
  modify (λ s, with_superblock s (set_sb_free_blocks (sb_free_blocks (superblock s) + k) (superblock s))).

(** ** Allocation *)

(** The loop of [allocate_blocks_in_group] over the bits, from [bi] on; [left] blocks are still wanted. *)
Fixpoint allocate_bits (fuel : nat) (g bi left : Z) (zero_out : bool) (bitmap : list Z) : eff D (list Z * list Z) :=
  match fuel with
  | O => ret ([], bitmap)
  | S fuel =>
      bit ← lift (get_bitmap_bit bitmap bi);
      if (bit : bool) then allocate_bits fuel g (bi + 1) left zero_out bitmap
      else
        bitmap ← lift (set_bitmap_bit bitmap bi true);
        s ← get_state;
        let block := u32 (bi + first_block s g) in
        _ ← (if zero_out then r ← fs_zero_block block; ret tt else ret tt);
        x ← the_group g;
        _ ← change_group g (set_free_blocks (free_blocks x - 1));
        _ ← change_sb_free_blocks (- 1);
        if left =? 1 then ret ([block], bitmap)
        else '(bs, bitmap) ← allocate_bits fuel g (bi + 1) (left - 1) zero_out bitmap; ret (block :: bs, bitmap)
  end.

Definition allocate_blocks_in_group (g num : Z) (zero_out : bool) : eff D (result (list Z)) :=
  x ← the_group g;
  if free_blocks x <? num then ret (Err (- ENOSPC))
  else if num =? 0 then ret (Ok [])
  else
    r ← fs_read_block (block_bitmap_block x);
    match r with
    | Err e => ret (Err e)
    | Ok bitmap =>
        s ← get_state;
        '(bs, bitmap) ← allocate_bits (Z.to_nat (blocks_per_group (superblock s))) g 0 num zero_out bitmap;
        _ ← (if zlength bs =? num then ret tt else change_group g (set_free_blocks 0));
        r ← fs_write_block (block_bitmap_block x) bitmap;
        match r with
        | Err e =>
            y ← the_group g;
            _ ← change_group g (set_free_blocks (free_blocks y + zlength bs));
            _ ← change_sb_free_blocks (zlength bs);
            ret (Err e)
        | Ok _ => _ ← write_superblock; _ ← write_group g; ret (Ok bs)
        end
    end.

(** The first loop of [allocate_blocks]: the first group with enough blocks. *)
Fixpoint find_group (fuel : nat) (bgi num : Z) : eff D (option Z) :=
  match fuel with
  | O => ret None
  | S fuel =>
      x ← get_block_group bgi;
      match x with
      | None => ret None
      | Some x => if num <=? free_blocks x then ret (Some bgi) else find_group fuel (bgi + 1) num
      end
  end.

(** The group with the most free blocks. *)
Fixpoint most_spacious (fuel : nat) (bgi : Z) (best : option (Z * Z)) : eff D (option (Z * Z)) :=
  match fuel with
  | O => ret best
  | S fuel =>
      x ← get_block_group bgi;
      most_spacious fuel (bgi + 1)
        (match x, best with
         | None, _ => best
         | Some x, None => Some (bgi, free_blocks x)
         | Some x, Some (_, n) => if n <? free_blocks x then Some (bgi, free_blocks x) else best
         end)
  end.

Definition free_block (block : Z) : eff D unit :=
  if block =? 0 then ret tt
  else
    s ← get_state;
    let g := u32 (block - 1) / blocks_per_group (superblock s) in
    x ← get_block_group g;
    match x with
    | None => ret tt
    | Some x =>
        r ← fs_read_block (block_bitmap_block x);
        match r with
        | Err _ => ret tt
        | Ok bitmap =>
            let bit_index := u32 (block - first_block s g) in
            bit ← lift (get_bitmap_bit bitmap bit_index);
            if negb bit then ret tt
            else
              bitmap ← lift (set_bitmap_bit bitmap bit_index false);
              r ← fs_write_block (block_bitmap_block x) bitmap;
              match r with
              | Err _ => ret tt
              | Ok _ =>
                  _ ← change_group g (set_free_blocks (free_blocks x + 1));
                  _ ← write_group g;
                  _ ← change_sb_free_blocks 1;
                  write_superblock
              end
        end
    end.

(** [free_blocks] of [Ext2Filesystem]. *)
Fixpoint free_block_list (blocks : list Z) : eff D unit :=
  match blocks with [] => ret tt | b :: blocks => _ ← free_block b; free_block_list blocks end.

(** The loop of [allocate_blocks] across groups; every turn allocates a block, or makes a group empty. *)
Fixpoint allocate_across (fuel : nat) (remaining : Z) (zero_out : bool) (acc : list Z) : eff D (result (list Z)) :=
  if remaining =? 0 then ret (Ok acc)
  else
    match fuel with
    | O => lift NoFuel
    | S fuel =>
        s ← get_state;
        best ← most_spacious (Z.to_nat (num_block_groups s)) 0 None;
        match best with
        | Some (g, n) =>
            if n =? 0 then _ ← free_block_list acc; ret (Err (- ENOSPC))
            else
              r ← allocate_blocks_in_group g (Z.min n remaining) zero_out;
              match r with
              | Err e => _ ← free_block_list acc; ret (Err e)
              | Ok bs => allocate_across fuel (remaining - zlength bs) zero_out (acc ++ bs)
              end
        | None => _ ← free_block_list acc; ret (Err (- ENOSPC))
        end
    end.

Definition allocate_blocks (num : Z) (zero_out : bool) : eff D (result (list Z)) :=
  if num =? 0 then ret (Err (- EINVAL))
  else
    s ← get_state;
    target ← find_group (Z.to_nat (num_block_groups s)) 0 num;
    match target with
    | Some g => allocate_blocks_in_group g num zero_out
    | None => allocate_across (Z.to_nat num + Z.to_nat (num_block_groups s)) num zero_out []
    end.

Definition allocate_block (zero_out : bool) : eff D Z :=
  r ← allocate_blocks 1 zero_out;
  ret (match r with Ok (b :: _) => b | _ => 0 end).

End ext2.
