(* ===== verification/Ext2Inv.v ===== *)
(** * ext2: what a well-formed filesystem is

    The invariant of the block allocator, against the static layout of the disk and the set of
    blocks in use, and a calculus for operations on the filesystem. *)

From stdpp Require Import base numbers list list_numbers option gmap sets.
From S2P Require Import Prelude.
From S2P Require Import ByteBuf.
From S2P Require Import FileBlocks.
From S2P Require Import Ext2.

Local Open Scope Z_scope.

(** ** Running an operation *)

(** [m] ends in [s], with a value and a state for which [Q] holds. *)
Definition run {D A} (m : eff D A) (s : ext2 D) (Q : A → ext2 D → Prop) : Prop := ∃ a s', m s = Done (a, s') ∧ Q a s'.

Lemma run_mono {D A} (m : eff D A) s (P Q : A → ext2 D → Prop) : run m s P → (∀ a s', P a s' → Q a s') → run m s Q.
Proof. intros (a&s'&E&Ha) HQ. exists a, s'. split; [done|by apply HQ]. Qed.

Lemma run_bind {D A B} (m : eff D A) (f : A → eff D B) s Q : run m s (λ a s', run (f a) s' Q) → run (m ≫= f) s Q.
Proof. intros (a&s'&E&b&s2&E2&HQ). exists b, s2. split; [|done]. unfold mbind, eff_bind. by rewrite E. Qed.

Lemma run_ret {D A} (a : A) (s : ext2 D) (Q : A → ext2 D → Prop) : Q a s → run (ret a) s Q.
Proof. intros. by exists a, s. Qed.

Lemma run_get {D} (s : ext2 D) (Q : ext2 D → ext2 D → Prop) : Q s s → run get_state s Q.
Proof. intros. by exists s, s. Qed.

Lemma run_modify {D} (f : ext2 D → ext2 D) (s : ext2 D) (Q : unit → ext2 D → Prop) : Q tt (f s) → run (modify f) s Q.
Proof. intros. by exists tt, (f s). Qed.

Lemma run_lift {D A} (o : outcome A) a (s : ext2 D) (Q : A → ext2 D → Prop) : o = Done a → Q a s → run (lift o) s Q.
Proof. intros -> HQ. by exists a, s. Qed.

Lemma run_buffer {D} l (s : ext2 D) (Q : list Z → ext2 D → Prop) : Q l s → run (buffer (Ok l)) s Q.
Proof. apply run_ret. Qed.

(** The next step of an operation. *)
Ltac wp := repeat match goal with
  | |- run (_ ≫= _) _ _ => apply run_bind
  | |- run (ret _) _ _ => apply run_ret
  | |- run get_state _ _ => apply run_get
  | |- run (buffer (Ok _)) _ _ => apply run_buffer
  | |- run (modify _) _ _ => apply run_modify
  end.

(** Use a specification. *)
Tactic Notation "wp_apply" uconstr(H) := eapply run_mono; [eapply H|].

(** ** Bits *)

Definition bit (l : list Z) (i : Z) : bool := match l !! Z.to_nat (i / 8) with Some x => Z.testbit x (i mod 8) | None => false end.

Lemma one_bit k n : 0 ≤ k → Z.testbit (Z.shiftl 1 k) n = (k =? n).
Proof. intros. rewrite Z.shiftl_1_l. by apply Z.pow2_bits_eqb. Qed.

Lemma bit_byte (l : list Z) i : 0 ≤ i < 8 * zlength l → ∃ x, l !! Z.to_nat (i / 8) = Some x.
Proof.
  intros Hi. apply lookup_lt_is_Some_2. pose proof (Z.div_lt_upper_bound i 8 (zlength l) ltac:(lia) ltac:(lia)).
  pose proof (Z.div_pos i 8 ltac:(lia) ltac:(lia)). lia.
Qed.

Lemma get_bitmap_bit_ok l i : 0 ≤ i < 8 * zlength l → get_bitmap_bit l i = Done (bit l i).
Proof.
  intros Hi. unfold get_bitmap_bit, bit. destruct (bit_byte l i Hi) as [x ->]. f_equal.
  pose proof (Z.mod_pos_bound i 8 ltac:(lia)) as Hm. set (k := i mod 8) in *. destruct (Z.eqb_spec (Z.land x (Z.shiftl 1 k)) 0) as [E|E]; cbn.
  - pose proof (f_equal (λ z, Z.testbit z k) E) as Ek. cbn in Ek. rewrite Z.bits_0, Z.land_spec, one_bit, Z.eqb_refl, andb_true_r in Ek by lia. done.
  - destruct (Z.testbit x k) eqn:Ek; [done|]. exfalso. apply E. apply Z.bits_inj'. intros n Hn. rewrite Z.bits_0, Z.land_spec, one_bit by lia.
    destruct (Z.eqb_spec k n) as [<-|]; [by rewrite Ek|apply andb_false_r].
Qed.

(** A byte with one bit set or cleared is a byte, and has the other bits as before. *)
Definition with_bit (state : bool) (x k : Z) : Z :=
  if state then Z.lor x (u8 (Z.shiftl 1 k)) else Z.land x (u8 (Z.lnot (Z.shiftl 1 k))).

Lemma byte_bits x : (0 ≤ x < 2 ^ 8) ↔ 0 ≤ x ∧ ∀ n, 8 ≤ n → Z.testbit x n = false.
Proof.
  split.
  - intros Hx. split; [lia|]. intros n Hn. destruct (decide (x = 0)) as [->|]; [apply Z.bits_0|]. apply Z.bits_above_log2; [lia|].
    assert (Z.log2 x < 8) by (apply Z.log2_lt_pow2; lia). lia.
  - intros [Hx Hb]. split; [done|]. assert (x = x mod 2 ^ 8) as ->; [|apply Z.mod_pos_bound; lia].
    apply Z.bits_inj'. intros n Hn. destruct (decide (n < 8)); [by rewrite Z.mod_pow2_bits_low by lia|]. rewrite Z.mod_pow2_bits_high by lia. apply Hb. lia.
Qed.

Lemma with_bit_spec state x k : 0 ≤ x < 2 ^ 8 → 0 ≤ k < 8 → 0 ≤ with_bit state x k < 2 ^ 8 ∧
  ∀ n, 0 ≤ n → Z.testbit (with_bit state x k) n = if n =? k then state else Z.testbit x n.
Proof.
  intros Hx Hk. assert (∀ n, 0 ≤ n → Z.testbit (with_bit state x k) n = if n =? k then state else Z.testbit x n) as Hb.
  { intros n Hn. apply byte_bits in Hx as [_ Hx]. unfold with_bit, u8. destruct state.
    - rewrite Z.lor_spec. destruct (decide (n < 8)); [|rewrite Z.mod_pow2_bits_high, orb_false_r by lia; destruct (Z.eqb_spec n k); [lia|done]].
      rewrite Z.mod_pow2_bits_low, one_bit by lia. rewrite (Z.eqb_sym k n). destruct (n =? k); [apply orb_true_r|apply orb_false_r].
    - rewrite Z.land_spec. destruct (decide (n < 8)); [|rewrite Z.mod_pow2_bits_high, (Hx n) by lia; by destruct (n =? k)].
      rewrite Z.mod_pow2_bits_low, Z.lnot_spec, one_bit by lia. rewrite (Z.eqb_sym k n). destruct (n =? k); [apply andb_false_r|apply andb_true_r]. }
  split; [|done]. apply byte_bits. split.
  - unfold with_bit, u8. destruct state; [apply Z.lor_nonneg|apply Z.land_nonneg; left; lia]. split; [lia|]. apply Z.mod_pos_bound. lia.
  - intros n Hn. rewrite Hb by lia. destruct (Z.eqb_spec n k); [lia|]. by apply byte_bits.
Qed.

Lemma set_bitmap_bit_ok l i state : bytes l → 0 ≤ i < 8 * zlength l → ∃ l', set_bitmap_bit l i state = Done l' ∧ length l' = length l ∧ bytes l' ∧
  ∀ j, 0 ≤ j → bit l' j = if decide (j = i) then state else bit l j.
Proof.
  intros Hl Hi. unfold set_bitmap_bit. destruct (bit_byte l i Hi) as [x Hx]. rewrite Hx. pose proof (Z.mod_pos_bound i 8 ltac:(lia)) as Hm.
  pose proof (proj1 (Forall_lookup _ _) Hl _ _ Hx) as Hxb. destruct (with_bit_spec state x (i mod 8) Hxb Hm) as [Hw Hbits]. fold (with_bit state x (i mod 8)).
  eexists. split; [done|]. split; [by rewrite length_insert|]. split; [by apply Forall_insert|]. intros j Hj. unfold bit.
  pose proof (Z.div_mod i 8 ltac:(lia)). pose proof (Z.div_mod j 8 ltac:(lia)). pose proof (Z.mod_pos_bound j 8 ltac:(lia)).
  pose proof (Z.div_pos i 8 ltac:(lia) ltac:(lia)). pose proof (Z.div_pos j 8 ltac:(lia) ltac:(lia)).
  destruct (decide (j / 8 = i / 8)) as [E|E].
  - rewrite E, list_lookup_insert_eq by (by eapply lookup_lt_Some). rewrite Hx, Hbits by lia. destruct (Z.eqb_spec (j mod 8) (i mod 8)); case_decide; (done || lia).
  - rewrite list_lookup_insert_ne by lia. rewrite decide_False; [done|]. intros ->. done.
Qed.

(** ** Layout *)

(** Where the structures of the filesystem lie: for every group its block bitmap, inode bitmap and inode table.  The
    layout has blocks of 1024 bytes and inodes of 128, which are the only ones the code handles.  The inodes in
    use and the numbers of free inodes that the descriptors and the superblock state are a part of it, since the
    operations on blocks do not change them. *)
Record layout := mk_layout {
  l_total : Z;
  l_bpg : Z;
  l_ipg : Z;
  l_groups : list (Z * Z * Z);
  l_inodes : gset Z;
  l_group_inodes : Z → Z;
  l_sb_inodes : Z;
}.

Implicit Types (L : layout) (U : gset Z) (g b i : Z).

Definition ng L : Z := Z.of_nat (length (l_groups L)).
Definition bb L g : Z := (l_groups L !!! Z.to_nat g).1.1.
Definition ib L g : Z := (l_groups L !!! Z.to_nat g).1.2.
Definition it L g : Z := (l_groups L !!! Z.to_nat g).2.

(** Blocks of the descriptor table, and of an inode table. *)
Definition dtb L : Z := (ng L * 32 + 1023) / 1024.
Definition itb L : Z := l_ipg L / 8.

Definition first L g : Z := g * l_bpg L + 1.
Definition group_blocks L g : list Z := seqZ (first L g) (l_bpg L).
Definition all_blocks L : list Z := seqZ 1 (ng L * l_bpg L).

Definition group_meta L : Z * Z * Z → list Z := λ '(b, i, t), b :: i :: seqZ t (itb L).
Definition meta L : list Z := seqZ 0 (2 + dtb L) ++ concat (group_meta L <$> l_groups L).

(** The blocks that the allocators write. *)
Definition volatile L b : Prop := 1 ≤ b < 2 + dtb L ∨ ∃ g, 0 ≤ g < ng L ∧ (b = bb L g ∨ b = ib L g).

Record layout_ok L : Prop := {
  lo_bpg : 0 < l_bpg L ≤ 8192;
  lo_ipg : 0 < l_ipg L ≤ 8192 ∧ l_ipg L mod 8 = 0;
  lo_ng : 0 < ng L;
  lo_blocks : ng L * l_bpg L < 2 ^ 31;
  lo_inodes : ng L * l_ipg L < 2 ^ 31;
  lo_total : l_total L ≤ 2 ^ 22;
  lo_meta : NoDup (meta L);
  lo_range b : b ∈ meta L → 0 ≤ b < l_total L;
}.

Lemma group_lookup L g : 0 ≤ g < ng L → l_groups L !! Z.to_nat g = Some (bb L g, ib L g, it L g).
Proof.
  intros Hg. unfold ng in Hg. destruct (lookup_lt_is_Some_2 (l_groups L) (Z.to_nat g)) as [[[x y] z] E]; [lia|].
  unfold bb, ib, it. by rewrite (list_lookup_total_correct _ _ _ E).
Qed.

Lemma group_meta_in L g b : 0 ≤ g < ng L → b ∈ group_meta L (bb L g, ib L g, it L g) → b ∈ meta L.
Proof.
  intros Hg Hb. apply elem_of_app. right. apply list_elem_of_In, in_concat. exists (group_meta L (bb L g, ib L g, it L g)).
  split; apply list_elem_of_In; [|done]. apply list_elem_of_fmap. eexists. split; [done|]. eapply list_elem_of_lookup_2. by apply group_lookup.
Qed.

Lemma bb_meta L g : 0 ≤ g < ng L → bb L g ∈ meta L.
Proof. intros. apply (group_meta_in L g); [done|]. by left. Qed.

Lemma ib_meta L g : 0 ≤ g < ng L → ib L g ∈ meta L.
Proof. intros. apply (group_meta_in L g); [done|]. right. by left. Qed.

Lemma table_meta L b : 0 ≤ b < 2 + dtb L → b ∈ meta L.
Proof. intros. apply elem_of_app. left. apply elem_of_seqZ. lia. Qed.

Lemma volatile_meta L b : layout_ok L → volatile L b → b ∈ meta L.
Proof. intros HL [?|(g&?&[->| ->])]; [apply table_meta; lia|by apply bb_meta|by apply ib_meta]. Qed.

(** Parts of the layout do not overlap. *)
Lemma concat_apart {A} (ls : list (list A)) (i j : nat) l1 l2 x : NoDup (concat ls) → ls !! i = Some l1 → ls !! j = Some l2 → x ∈ l1 → x ∈ l2 → i = j.
Proof.
  revert i j. induction ls as [|l ls IH]; intros i j Hn Hi Hj H1 H2; [by rewrite lookup_nil in Hi|]. cbn in Hn. apply NoDup_app in Hn as (Hl&Hd&Hls).
  assert (∀ k l', ls !! k = Some l' → x ∈ l' → x ∈ concat ls) as Hin.
  { intros k l' Hk Hx. apply list_elem_of_In, in_concat. exists l'. split; apply list_elem_of_In; [by eapply list_elem_of_lookup_2|done]. }
  destruct i as [|i], j as [|j]; cbn in *; simplify_eq; [done|exfalso; eapply Hd; eauto..|f_equal; by eapply IH].
Qed.

Lemma group_meta_lookup L g : 0 ≤ g < ng L → (group_meta L <$> l_groups L) !! Z.to_nat g = Some (group_meta L (bb L g, ib L g, it L g)).
Proof. intros. by rewrite list_lookup_fmap, group_lookup. Qed.

Lemma group_meta_apart L g g' b : layout_ok L → 0 ≤ g < ng L → 0 ≤ g' < ng L → b ∈ group_meta L (bb L g, ib L g, it L g) →
  b ∈ group_meta L (bb L g', ib L g', it L g') → g = g'.
Proof.
  intros HL Hg Hg' Hb Hb'. pose proof (lo_meta L HL) as Hn. apply NoDup_app in Hn as (_&_&Hn).
  pose proof (concat_apart _ _ _ _ _ b Hn (group_meta_lookup L g Hg) (group_meta_lookup L g' Hg') Hb Hb'). lia.
Qed.

Lemma group_meta_nodup L g : layout_ok L → 0 ≤ g < ng L → NoDup (group_meta L (bb L g, ib L g, it L g)).
Proof.
  intros HL Hg. pose proof (lo_meta L HL) as Hn. apply NoDup_app in Hn as (_&_&Hn). pose proof (group_meta_lookup L g Hg) as Hl.
  apply list_elem_of_split_length in Hl as (l1&l2&E&_). rewrite E, concat_app in Hn. apply NoDup_app in Hn as (_&_&Hn). rewrite concat_cons in Hn. by apply NoDup_app in Hn as (?&_).
Qed.

Lemma table_apart L g b : layout_ok L → 0 ≤ g < ng L → b ∈ group_meta L (bb L g, ib L g, it L g) → 2 + dtb L ≤ b.
Proof.
  intros HL Hg Hb. pose proof (lo_meta L HL) as Hn. apply NoDup_app in Hn as (_&Hd&_). pose proof (lo_range L HL b (group_meta_in L g b Hg Hb)) as Hr.
  destruct (decide (b < 2 + dtb L)); [|lia]. exfalso. apply (Hd b); [apply elem_of_seqZ; lia|]. apply list_elem_of_In, in_concat.
  exists (group_meta L (bb L g, ib L g, it L g)). split; apply list_elem_of_In; [|done]. by eapply list_elem_of_lookup_2, group_meta_lookup.
Qed.

Lemma dtb_pos L : layout_ok L → 1 ≤ dtb L.
Proof. intros HL. pose proof (lo_ng L HL). unfold dtb. apply Z.div_le_lower_bound; lia. Qed.

Lemma descriptor_in L g : layout_ok L → 0 ≤ g < ng L → 0 ≤ g / 32 < dtb L.
Proof.
  intros HL Hg. split; [apply Z.div_pos; lia|]. unfold dtb. pose proof (Z.div_mod g 32 ltac:(lia)). pose proof (Z.mod_pos_bound g 32 ltac:(lia)).
  assert (g / 32 + 1 ≤ (ng L * 32 + 1023) / 1024); [|lia]. apply Z.div_le_lower_bound; lia.
Qed.

(** ** Counting free blocks *)

Definition free_of (l : list Z) U : list Z := filter (λ b, b ∉ U) l.
Definition count_free (l : list Z) U : Z := Z.of_nat (length (free_of l U)).

Lemma free_of_cons b l U : free_of (b :: l) U = if decide (b ∈ U) then free_of l U else b :: free_of l U.
Proof. unfold free_of. case_decide; [by rewrite filter_cons_False by tauto|by rewrite filter_cons_True]. Qed.

Lemma elem_free_of b l U : b ∈ free_of l U ↔ b ∈ l ∧ b ∉ U.
Proof. unfold free_of. rewrite list_elem_of_filter. tauto. Qed.

Lemma free_of_ext l U U' : (∀ b, b ∈ l → b ∈ U ↔ b ∈ U') → free_of l U = free_of l U'.
Proof.
  induction l as [|b l IH]; intros HU; [done|]. rewrite !free_of_cons. assert (free_of l U = free_of l U') as -> by (apply IH; intros; apply HU; by right).
  pose proof (HU b ltac:(by left)). do 2 case_decide; tauto.
Qed.

Lemma count_free_ext l U U' : (∀ b, b ∈ l → b ∈ U ↔ b ∈ U') → count_free l U = count_free l U'.
Proof. intros. unfold count_free. by rewrite (free_of_ext l U U'). Qed.

Lemma count_add l U b : NoDup l → b ∈ l → b ∉ U → count_free l (U ∪ {[b]}) = count_free l U - 1.
Proof.
  unfold count_free. induction l as [|x l IH]; intros Hn Hb HU; [by apply elem_of_nil in Hb|]. apply NoDup_cons in Hn as [Hx Hn]. rewrite !free_of_cons.
  apply elem_of_cons in Hb as [<-|Hb].
  - rewrite decide_True by set_solver. rewrite decide_False by done. assert (count_free l (U ∪ {[b]}) = count_free l U) as E.
    { apply count_free_ext. intros y Hy. assert (y ≠ b) by (by intros ->). set_solver. }
    unfold count_free in E. cbn. lia.
  - assert (x ≠ b) by (by intros ->). destruct (decide (x ∈ U)); [rewrite decide_True by set_solver; by apply IH|].
    rewrite decide_False by set_solver. cbn. specialize (IH Hn Hb HU). lia.
Qed.

Lemma count_adds l U bs : NoDup l → NoDup bs → (∀ b, b ∈ bs → b ∈ l ∧ b ∉ U) → count_free l (U ∪ list_to_set bs) = count_free l U - zlength bs.
Proof.
  intros Hl. revert U. induction bs as [|b bs IH]; intros U Hn Hb; [cbn; rewrite union_empty_r_L; lia|]. apply NoDup_cons in Hn as [Hnb Hn].
  replace (U ∪ list_to_set (b :: bs)) with ((U ∪ {[b]}) ∪ list_to_set bs : gset Z) by (cbn; by rewrite (assoc_L (∪))).
  destruct (Hb b ltac:(by left)) as [? ?]. rewrite IH; [rewrite count_add by done; cbn; lia|done|]. intros y Hy. destruct (Hb y ltac:(by right)).
  assert (y ≠ b) by (by intros ->). set_solver.
Qed.

Lemma count_remove l U b : NoDup l → b ∈ l → b ∈ U → count_free l (U ∖ {[b]}) = count_free l U + 1.
Proof.
  intros Hn Hb HU. assert (count_free l U = count_free l (U ∖ {[b]} ∪ {[b]})) as ->; [|rewrite count_add; [lia|done|done|set_solver]].
  f_equal. apply set_eq. intros x. destruct (decide (x = b)); set_solver.
Qed.

Lemma count_free_le l U : 0 ≤ count_free l U ≤ zlength l.
Proof. unfold count_free, free_of. pose proof (length_filter (λ b, b ∉ U) l). lia. Qed.

Lemma group_blocks_all L g b : layout_ok L → 0 ≤ g < ng L → b ∈ group_blocks L g → b ∈ all_blocks L.
Proof.
  intros HL Hg Hb. apply elem_of_seqZ in Hb. apply elem_of_seqZ. unfold first in Hb. pose proof (lo_bpg L HL). nia.
Qed.

Lemma group_blocks_apart L g g' b : layout_ok L → b ∈ group_blocks L g → b ∈ group_blocks L g' → g = g'.
Proof. intros HL H1%elem_of_seqZ H2%elem_of_seqZ. unfold first in *. pose proof (lo_bpg L HL). nia. Qed.

(** The group of a block, and its place there. *)
Lemma block_group L b : layout_ok L → b ∈ all_blocks L → 0 ≤ (b - 1) / l_bpg L < ng L ∧ b ∈ group_blocks L ((b - 1) / l_bpg L).
Proof.
  intros HL Hb%elem_of_seqZ. pose proof (lo_bpg L HL). pose proof (Z.div_mod (b - 1) (l_bpg L) ltac:(lia)).
  pose proof (Z.mod_pos_bound (b - 1) (l_bpg L) ltac:(lia)). pose proof (Z.div_pos (b - 1) (l_bpg L) ltac:(lia) ltac:(lia)).
  assert ((b - 1) / l_bpg L < ng L) by (apply Z.div_lt_upper_bound; nia). split; [lia|]. apply elem_of_seqZ. unfold first. lia.
Qed.

(** ** The invariant *)

Definition tf L U : Z := count_free (all_blocks L) U.
Definition fc L U g : Z := count_free (group_blocks L g) U.

(** The descriptor of a group on the disk. *)
Definition gdesc (v : list Z) g : group := group_of_bytes (slice (2048 + 32 * g) 32 v).

(** ** Inodes *)

(** The numbers of the inodes of a group, and the free ones. *)
Definition group_inodes L g : list Z := seqZ (g * l_ipg L + 1) (l_ipg L).
Definition fic L g : Z := count_free (group_inodes L g) (l_inodes L).
Definition tif L : Z := count_free (seqZ 1 (ng L * l_ipg L)) (l_inodes L).

(** The numbers of free inodes are right. *)
Definition counts_ok L : Prop := l_sb_inodes L = tif L ∧ ∀ g, 0 ≤ g < ng L → l_group_inodes L g = fic L g.

(** The superblock [sb], the descriptors and the inode bitmaps agree with the layout. *)
Record inodes_inv (sb v : list Z) L : Prop := {
  in_sb : sb_free_inodes sb = l_sb_inodes L;
  in_group g : 0 ≤ g < ng L → free_inodes (gdesc v g) = l_group_inodes L g;
  in_bits g i : 0 ≤ g < ng L → 0 ≤ i < l_ipg L → bit (blk 1024 v (ib L g)) i = bool_decide (g * l_ipg L + 1 + i ∈ l_inodes L);
}.

Lemma inodes_keep sb v sb' v' L : inodes_inv sb v L → sb_free_inodes sb' = sb_free_inodes sb → (∀ g, 0 ≤ g < ng L → free_inodes (gdesc v' g) = free_inodes (gdesc v g)) →
  (∀ g, 0 ≤ g < ng L → blk 1024 v' (ib L g) = blk 1024 v (ib L g)) → inodes_inv sb' v' L.
Proof.
  intros [Hsb Hg Hb] Esb Eg Eb. split; [congruence| |].
  - intros g Hg'. rewrite Eg by done. by apply Hg.
  - intros g i Hg' Hi. rewrite Eb by done. by apply Hb.
Qed.

Section inv.
Context {D : Type} `{ByteFileSpec D}.
Implicit Types (s : ext2 D) (v : list Z).

(** What never changes. *)
Record fs_base s v L : Prop := {
  fb_rep : file_rep (dev s) v;
  fb_bytes : bytes v;
  fb_len : 1024 * l_total L ≤ zlength v;
  fb_bs : _block_size s = 1024;
  fb_ng : num_block_groups s = ng L;
  fb_ipb : inodes_per_block s = 8;
  fb_bppb : block_pointers_per_block s = 256;
  fb_sb_len : length (superblock s) = 512%nat;
  fb_sb_bytes : bytes (superblock s);
  fb_bpg : blocks_per_group (superblock s) = l_bpg L;
  fb_ipg : inodes_per_group (superblock s) = l_ipg L;
  fb_isz : inode_size (superblock s) = 128;
}.

(** [U] are the blocks in use. *)
Record fs_inv s v L U : Prop := {
  fi_base : fs_base s v L;
  fi_sb : slice 1024 512 v = superblock s;
  fi_sb_free : sb_free_blocks (superblock s) = tf L U;
  fi_group g : 0 ≤ g < ng L → block_bitmap_block (gdesc v g) = bb L g ∧ inode_bitmap_block (gdesc v g) = ib L g ∧ inode_table_block (gdesc v g) = it L g ∧
    free_blocks (gdesc v g) = fc L U g;
  fi_loaded g x : block_groups s !! g = Some x → 0 ≤ g < ng L ∧ x = gdesc v g;
  fi_bits g i : 0 ≤ g < ng L → 0 ≤ i < l_bpg L → bit (blk 1024 v (bb L g)) i = bool_decide (first L g + i ∈ U);
  fi_meta b : b ∈ meta L → b ∈ U;
  fi_free b : b ∈ all_blocks L → b ∉ U → b < l_total L;
  fi_inodes : inodes_inv (superblock s) v L;
}.

(** Used blocks keep their contents, apart from those the allocator writes. *)
Definition frame L U v v' : Prop := ∀ b, b ∈ U → 0 ≤ b → ¬ volatile L b → blk 1024 v' b = blk 1024 v b.

Lemma kept_refl L U v : frame L U v v.
Proof. by intros b. Qed.

Lemma kept_trans L U U' v1 v2 v3 : U ⊆ U' → frame L U v1 v2 → frame L U' v2 v3 → frame L U v1 v3.
Proof. intros HU H1 H2 b Hb Hb0 Hv. rewrite (H2 b); [by apply H1|by apply HU|done|done]. Qed.

Lemma base_dev s v L d v' : fs_base s v L → file_rep d v' → bytes v' → zlength v' = zlength v → fs_base (with_dev s d) v' L.
Proof. intros [] ? ? Hl. split; try done. by rewrite Hl. Qed.

Lemma base_sb s v L sb : fs_base s v L → length sb = 512%nat → bytes sb → blocks_per_group sb = l_bpg L → inodes_per_group sb = l_ipg L → inode_size sb = 128 →
  fs_base (with_superblock s sb) v L.
Proof. intros [] ? ? ? ? ?. by split. Qed.

Lemma base_groups s v L gs : fs_base s v L → fs_base (with_groups s gs) v L.
Proof. intros []. by split. Qed.

Lemma base_in_file s v L b : fs_base s v L → 0 ≤ b < l_total L → in_file 1024 v b.
Proof. intros Hs Hb. pose proof (fb_len s v L Hs). split; lia. Qed.

(** ** Blocks *)

(** [s'] is [s] with other contents of the file. *)
Definition stored s L v' s' : Prop := (∃ d, s' = with_dev s d) ∧ fs_base s' v' L.

Lemma stored_dev s v L d b l : fs_base s v L → 0 ≤ b < l_total L → zlength l = 1024 → bytes l → file_rep d (splice v (b * 1024) l) →
  stored s L (splice v (b * 1024) l) (with_dev s d).
Proof.
  intros Hs Hb Hl Hlb Hd. split; [by eexists|]. apply (base_dev s v); try done; [apply bytes_splice; [apply Hs|done]|].
  apply length_splice_blk; [lia|by apply (base_in_file s v L)|done].
Qed.

Lemma fs_read_block_run s v L b : fs_base s v L → 0 ≤ b < l_total L →
  run (fs_read_block b) s (λ r s', r = Ok (blk 1024 v b) ∧ stored s L v s').
Proof.
  intros Hs Hb. unfold run, fs_read_block. rewrite (fb_bs _ _ _ Hs). destruct (read_block_ok (dev s) 1024 v b) as (d'&E&Hd'); [apply Hs|lia|by apply (base_in_file s v L)|].
  rewrite E. cbn. eexists _, _. split; [done|]. split; [done|]. split; [by eexists|]. apply (base_dev s v); try done. apply Hs.
Qed.

Lemma fs_write_block_run s v L b l : fs_base s v L → 0 ≤ b < l_total L → zlength l = 1024 → bytes l →
  run (fs_write_block b l) s (λ r s', r = Ok tt ∧ stored s L (splice v (b * 1024) l) s').
Proof.
  intros Hs Hb Hl Hlb. unfold run, fs_write_block. rewrite (fb_bs _ _ _ Hs).
  destruct (write_block_ok (dev s) 1024 v b l) as (d'&E&Hd'); [apply Hs|lia|by apply (base_in_file s v L)|done|].
  rewrite E. cbn. eexists _, _. split; [done|]. split; [done|by apply stored_dev].
Qed.

Lemma fs_zero_block_run s v L b : fs_base s v L → 0 ≤ b < l_total L →
  run (fs_zero_block b) s (λ r s', r = Ok tt ∧ stored s L (splice v (b * 1024) (zeroes 1024)) s').
Proof.
  intros Hs Hb. unfold run, fs_zero_block. rewrite (fb_bs _ _ _ Hs). destruct (zero_block_ok (dev s) 1024 v b) as (d'&E&Hd'); [apply Hs|lia|by apply (base_in_file s v L)|].
  rewrite E. cbn. eexists _, _. split; [done|]. split; [done|]. apply (stored_dev s v); [done|done|apply length_zeroes; lia|apply bytes_zeroes|done].
Qed.

Lemma fs_truncate_block_run s v L b n : fs_base s v L → 0 ≤ b < l_total L → 0 ≤ n < 1024 →
  run (fs_truncate_block b n) s (λ r s', r = Ok tt ∧ stored s L (splice v (b * 1024) (splice (blk 1024 v b) n (zeroes (1024 - n)))) s').
Proof.
  intros Hs Hb Hn. unfold run, fs_truncate_block. rewrite (fb_bs _ _ _ Hs). pose proof (base_in_file s v L b Hs Hb) as Hf.
  destruct (truncate_block_ok (dev s) 1024 v b n) as (d'&E&Hd'); [apply Hs|lia|done|done|].
  pose proof (length_blk 1024 v b ltac:(lia) Hf) as Hl. rewrite E. cbn. eexists _, _. split; [done|]. split; [done|]. apply (stored_dev s v); try done.
  - rewrite length_splice; rewrite ?length_zeroes; lia.
  - apply bytes_splice; [apply bytes_slice, Hs|apply bytes_zeroes].
Qed.

End inv.
