(* ===== verification/Ext2Alloc.v ===== *)
(** * ext2: the block allocator is correct

    Allocation gives blocks that were free and marks them, all or none; freeing gives
    them back; counts and bitmaps stay in step, and blocks in use keep their bytes. *)

From stdpp Require Import base numbers list list_numbers option gmap sets.
From S2P Require Import Prelude.
From S2P Require Import ByteBuf.
From S2P Require Import FileBlocks.
From S2P Require Import Ext2.
From S2P Require Import Ext2Inv.

Local Open Scope Z_scope.

(** ** What a change of the file leaves alone *)

Implicit Types (v l : list Z) (L : layout) (U : gset Z) (g b i : Z).

Lemma blk_other v off l b : 0 ≤ off → off + zlength l ≤ zlength v → 0 ≤ b → off + zlength l ≤ b * 1024 ∨ (b + 1) * 1024 ≤ off →
  blk 1024 (splice v off l) b = blk 1024 v b.
Proof. intros. unfold blk. apply slice_splice_other; lia. Qed.

Lemma gdesc_other v off l g : 0 ≤ off → off + zlength l ≤ zlength v → 0 ≤ g → off + zlength l ≤ 2048 + 32 * g ∨ 2048 + 32 * g + 32 ≤ off →
  gdesc (splice v off l) g = gdesc v g.
Proof. intros. unfold gdesc. rewrite slice_splice_other; [done|lia..]. Qed.

(** ** Descriptors *)

Definition group_range (x : group) : Prop := 0 ≤ block_bitmap_block x < 2 ^ 32 ∧ 0 ≤ inode_bitmap_block x < 2 ^ 32 ∧ 0 ≤ inode_table_block x < 2 ^ 32 ∧
  0 ≤ free_blocks x < 2 ^ 16 ∧ 0 ≤ free_inodes x < 2 ^ 16 ∧ 0 ≤ num_directories x < 2 ^ 16.

Lemma gdesc_range v g : bytes v → group_range (gdesc v g).
Proof.
  intros Hv. pose proof (bytes_slice (2048 + 32 * g) 32 v Hv) as Hb. unfold gdesc, group_of_bytes. split_and!; cbn [block_bitmap_block inode_bitmap_block inode_table_block free_blocks free_inodes num_directories];
    first [apply get32_range | apply get16_range]; done.
Qed.

Lemma length_group_bytes (sb : list Z) x : length sb = 14%nat → length (group_bytes sb x) = 32%nat.
Proof. intros. unfold group_bytes. rewrite !length_app, !length_le32, !length_le16. lia. Qed.

Lemma bytes_group_bytes (sb : list Z) x : bytes sb → bytes (group_bytes sb x).
Proof. intros. unfold group_bytes. repeat apply bytes_app; try apply bytes_le32; try apply bytes_le16; done. Qed.

Lemma group_roundtrip (sb : list Z) x : group_range x → group_of_bytes (group_bytes sb x) = x.
Proof.
  intros (?&?&?&?&?&?). destruct x as [a1 a2 a3 a4 a5 a6]. unfold group_of_bytes, group_bytes. cbn [block_bitmap_block inode_bitmap_block inode_table_block free_blocks free_inodes num_directories] in *.
  f_equal; repeat first [rewrite get32_le32 by lia | rewrite get16_le16 by lia | rewrite get32_skip by (rewrite ?length_le32, ?length_le16; lia)
    | rewrite get16_skip by (rewrite ?length_le32, ?length_le16; lia) | rewrite length_le32 | rewrite length_le16 ]; done.
Qed.

Section alloc.
Context {D : Type} `{ByteFileSpec D}.
Context (L : layout) (HL : layout_ok L).
Implicit Types (s : ext2 D).

Lemma table_total : 2 + dtb L ≤ l_total L.
Proof. pose proof (lo_range L HL (1 + dtb L)) as Hr. pose proof (dtb_pos L HL). assert (0 ≤ 1 + dtb L < l_total L); [|lia]. apply Hr. apply table_meta. lia. Qed.

(** The place of a descriptor. *)
Lemma descriptor_place s v g : fs_base s v L → 0 ≤ g < ng L →
  2 ≤ descriptor_block s g < 2 + dtb L ∧ 0 ≤ descriptor_offset s g ∧ descriptor_offset s g + 32 ≤ 1024 ∧
  descriptor_block s g * 1024 + descriptor_offset s g = 2048 + 32 * g.
Proof.
  intros Hs Hg. unfold descriptor_block, descriptor_offset, sizeof_descriptor. rewrite (fb_bs _ _ _ Hs). change (1024 / 32) with 32.
  replace (g * 32 / 1024) with (g / 32) by (rewrite <-(Z.div_mul_cancel_r g 32 32) by lia; done). pose proof (descriptor_in L g HL Hg).
  pose proof (Z.div_mod g 32 ltac:(lia)). pose proof (Z.mod_pos_bound g 32 ltac:(lia)). lia.
Qed.

Lemma read_block_group_raw_run s v g : fs_base s v L → 0 ≤ g < ng L →
  run (read_block_group_raw g) s (λ d s', group_of_bytes d = gdesc v g ∧ stored s L v s').
Proof.
  intros Hs Hg. destruct (descriptor_place s v g Hs Hg) as (Hb&Ho&Ho'&Hp). pose proof table_total. unfold read_block_group_raw. wp.
  wp_apply fs_read_block_run; [done|lia|]. intros r s1 [-> Hs1]. wp. split; [|done]. unfold gdesc, blk, sizeof_descriptor. rewrite slice_slice by lia. by rewrite Hp.
Qed.

Lemma get_block_group_run s v U g : fs_inv s v L U → 0 ≤ g < ng L →
  run (get_block_group g) s (λ r s', r = Some (gdesc v g) ∧ fs_inv s' v L U ∧ block_groups s' !! g = Some (gdesc v g)).
Proof.
  intros Hi Hg. pose proof (fi_base _ _ _ _ Hi) as Hs. unfold get_block_group. wp. rewrite (fb_ng _ _ _ Hs). destruct (Z.leb_spec (ng L) g); [lia|].
  destruct (block_groups s !! g) as [x|] eqn:E.
  - wp. destruct (fi_loaded _ _ _ _ Hi g x E) as [_ ->]. done.
  - wp. wp_apply read_block_group_raw_run; [done|done|]. intros d s1 [Hd [[dv ->] Hs1]]. wp. rewrite Hd. split; [done|]. split; [|cbn; by rewrite lookup_insert_eq].
    pose proof (fi_loaded _ _ _ _ Hi) as Hl. destruct Hi. split; try done; [by apply base_groups|]. cbn.
    intros g' x [[<- <-]|[_ Hx]]%lookup_insert_Some; [done|by apply Hl].
Qed.

Lemma get_block_group_none s g : num_block_groups s ≤ g → get_block_group g s = Done (None, s).
Proof. intros Hg. unfold get_block_group, get_state, mbind, eff_bind. destruct (Z.leb_spec (num_block_groups s) g); [done|lia]. Qed.

Lemma the_group_run s g x (Q : group → ext2 D → Prop) : block_groups s !! g = Some x → Q x s → run (the_group g) s Q.
Proof. intros E HQ. unfold the_group. wp. rewrite E. by wp. Qed.

Lemma change_group_run s g x f (Q : unit → ext2 D → Prop) : block_groups s !! g = Some x → Q tt (with_groups s (<[g := f x]> (block_groups s))) → run (change_group g f) s Q.
Proof. intros E HQ. unfold change_group. wp. apply (the_group_run s g x); [done|]. by wp. Qed.

Lemma ib_apart g g' : 0 ≤ g < ng L → 0 ≤ g' < ng L → 2 + dtb L ≤ ib L g < l_total L ∧ ib L g ≠ bb L g'.
Proof.
  intros Hg Hg'. pose proof (table_apart L g (ib L g) HL Hg ltac:(right; by left)). pose proof (lo_range L HL _ (ib_meta L g Hg)). split; [lia|]. intros E.
  assert (g = g') as -> by (apply (group_meta_apart L g g' (ib L g) HL Hg Hg'); [right; by left|rewrite E; by left]). pose proof (group_meta_nodup L g' HL Hg') as [Hn _]%NoDup_cons. apply Hn. rewrite <-E. by left.
Qed.

Context (stack_bytes : list Z) (stack_len : length stack_bytes = 14%nat) (stack_ok : bytes stack_bytes).

Lemma write_group_run s v g x : fs_base s v L → 0 ≤ g < ng L → block_groups s !! g = Some x →
  run (write_group stack_bytes g) s (λ _ s', stored s L (splice v (2048 + 32 * g) (group_bytes stack_bytes x)) s').
Proof.
  intros Hs Hg E. destruct (descriptor_place s v g Hs Hg) as (Hb&Ho&Ho'&Hp). pose proof table_total as Ht. pose proof (fb_len _ _ _ Hs) as Hlen.
  unfold write_group. wp. apply (the_group_run s g x); [done|]. unfold write_block_group_raw. wp.
  wp_apply fs_read_block_run; [done|lia|]. intros r s1 [-> [[d1 ->] Hs1]]. pose proof (base_in_file s v L (descriptor_block s g) Hs ltac:(lia)) as Hf.
  pose proof (length_blk 1024 v (descriptor_block s g) ltac:(lia) Hf) as Hbl. pose proof (length_group_bytes stack_bytes x stack_len) as Hgl.
  wp_apply (fs_write_block_run _ v L); [done|lia|rewrite length_splice; lia|apply bytes_splice; [apply bytes_slice, Hs|by apply bytes_group_bytes]|].
  intros r s2 [-> [[d2 ->] Hs2]]. wp. unfold blk in Hs2. rewrite splice_splice in Hs2 by lia. rewrite Hp in Hs2. split; [by eexists|done].
Qed.

Lemma write_superblock_run s v : fs_base s v L → run write_superblock s (λ _ s', stored s L (splice v 1024 (superblock s)) s').
Proof.
  intros Hs. unfold run, write_superblock, write_logical_blocks. pose proof (fb_sb_len _ _ _ Hs) as Hsl. pose proof table_total. pose proof (dtb_pos L HL). pose proof (fb_len _ _ _ Hs).
  change (u32 (2 * logical_block_size)) with 1024. destruct (file_write_ok (dev s) v 1024 (superblock s)) as (d&E&Hd); [apply Hs|lia..|]. rewrite E. cbn [mbind outcome_bind].
  eexists _, _. split; [done|]. split; [by eexists|]. apply (base_dev s v); [done|done|apply bytes_splice; apply Hs|rewrite length_splice; lia].
Qed.

(** ** Taking blocks from a group *)

(** The contents after blocks have been cleared. *)
Definition cleared (zero_out : bool) v (bs : list Z) : list Z :=
  if zero_out then foldl (λ v b, splice v (b * 1024) (zeroes 1024)) v bs else v.

Lemma cleared_cons z v b bs : cleared z v (b :: bs) = cleared z (cleared z v [b]) bs.
Proof. by destruct z. Qed.

(** [k] blocks have been counted off. *)
Definition counted s g x k s' : Prop := ∃ d, s' = with_superblock (with_groups (with_dev s d) (<[g := set_free_blocks (free_blocks x - k) x]> (block_groups s)))
  (set_sb_free_blocks (sb_free_blocks (superblock s) - k) (superblock s)).

Lemma set_free_blocks_twice a c x : set_free_blocks a (set_free_blocks c x) = set_free_blocks a x.
Proof. done. Qed.

Lemma u16_sub_l a c : u16 (u16 a - c) = u16 (a - c).
Proof. apply Zminus_mod_idemp_l. Qed.

Lemma counted_zero s v g x : fs_base s v L → group_range x → block_groups s !! g = Some x → counted s g x 0 s.
Proof.
  intros Hs (_&_&_&Hf&_) Hx. exists (dev s). rewrite !Z.sub_0_r. unfold set_free_blocks. rewrite u16_id by done. unfold set_sb_free_blocks, sb_free_blocks.
  rewrite put32_get32; [|apply Hs|lia|rewrite (fb_sb_len _ _ _ Hs); lia]. destruct x, s; cbn in *. by rewrite insert_id.
Qed.

Lemma counted_sb_base s v : fs_base s v L → ∀ k, fs_base (with_superblock s (set_sb_free_blocks k (superblock s))) v L.
Proof.
  intros Hs k. pose proof (fb_sb_len _ _ _ Hs) as Hl. unfold set_sb_free_blocks. apply base_sb; [done|rewrite length_put32; lia|apply bytes_put32, Hs|..].
  - unfold blocks_per_group. rewrite get32_put32_other by lia. apply Hs.
  - unfold inodes_per_group. rewrite get32_put32_other by lia. apply Hs.
  - unfold inode_size. rewrite get16_put32_other by lia. apply Hs.
Qed.

Lemma counted_more s v g x k s1 s2 : fs_base s v L → counted s g x 1 s1 → counted s1 g (set_free_blocks (free_blocks x - 1) x) k s2 → counted s g x (k + 1) s2.
Proof.
  intros Hs [d1 ->] [d2 ->]. exists d2. pose proof (fb_sb_len _ _ _ Hs) as Hl. cbn. unfold with_superblock, with_groups, with_dev. cbn. f_equal.
  - unfold set_sb_free_blocks, sb_free_blocks. rewrite get32_put32 by lia. rewrite <-put32_u32, u32_sub_l, put32_u32, put32_twice by lia. f_equal. lia.
  - rewrite insert_insert_eq. f_equal. unfold set_free_blocks. cbn. rewrite u16_sub_l. do 2 f_equal. lia.
Qed.

Lemma first_block_ok s v g : fs_base s v L → 0 ≤ g < ng L → first_block s g = first L g.
Proof.
  intros Hs Hg. unfold first_block, first. rewrite (fb_bs _ _ _ Hs), (fb_bpg _ _ _ Hs). cbn. apply u32_id. pose proof (lo_blocks L HL). pose proof (lo_bpg L HL). nia.
Qed.

Definition bits_of g U (bitmap : list Z) : Prop := ∀ i, 0 ≤ i < l_bpg L → bit bitmap i = bool_decide (first L g + i ∈ U).

Lemma bits_add g U bitmap bi bitmap' : bits_of g U bitmap → (∀ j, 0 ≤ j → bit bitmap' j = if decide (j = bi) then true else bit bitmap j) →
  bits_of g (U ∪ {[first L g + bi]}) bitmap'.
Proof.
  intros Hb Hb' i Hi. rewrite Hb' by lia. case_decide as E; [subst; symmetry; apply bool_decide_eq_true_2; set_solver|]. rewrite Hb by done.
  apply bool_decide_ext. assert (first L g + i ≠ first L g + bi) by lia. set_solver.
Qed.

Lemma allocate_bits_run fuel g : ∀ s v U bi left (z : bool) bitmap x,
  fs_base s v L → 0 ≤ g < ng L → block_groups s !! g = Some x → group_range x → bytes bitmap → zlength bitmap = 1024 → 0 ≤ bi → bi + Z.of_nat fuel ≤ l_bpg L → 0 < left →
  bits_of g U bitmap → (∀ b, b ∈ group_blocks L g → b ∉ U → b < l_total L) →
  run (allocate_bits fuel g bi left z bitmap) s (λ r s', r.1 = take (Z.to_nat left) (free_of (seqZ (first L g + bi) (Z.of_nat fuel)) U) ∧
    zlength r.2 = 1024 ∧ bytes r.2 ∧ bits_of g (U ∪ list_to_set r.1) r.2 ∧ counted s g x (zlength r.1) s' ∧ fs_base s' (cleared z v r.1) L).
Proof.
  induction fuel as [|fuel IH]; intros s v U bi left z bitmap x Hs Hg Hx Hxr Hbm Hbl Hbi Hf Hleft Hbits Hfree; cbn [allocate_bits].
  { wp. cbn [fst snd]. rewrite seqZ_nil by lia. split_and!; [symmetry; apply take_nil|done|done| |by apply (counted_zero s v)|by destruct z].
    by rewrite list_to_set_nil, union_empty_r_L. }
  pose proof (lo_bpg L HL) as Hbpg. wp. eapply run_lift; [apply get_bitmap_bit_ok; lia|]. rewrite (Hbits bi) by lia.
  rewrite seqZ_cons by lia. rewrite free_of_cons. replace (Z.pred (Z.of_nat (S fuel))) with (Z.of_nat fuel) by lia.
  replace (Z.succ (first L g + bi)) with (first L g + (bi + 1)) by lia. case_bool_decide as HU.
  { rewrite decide_True by done. apply IH; try done; lia. }
  rewrite decide_False by done. set (b := first L g + bi) in *. assert (b ∈ group_blocks L g) as Hbg by (apply elem_of_seqZ; lia).
  assert (0 ≤ first L g) as Hf0 by (unfold first; nia). pose proof (Hfree b Hbg HU) as Hbt. pose proof (lo_total L HL) as Htot.
  destruct (set_bitmap_bit_ok bitmap bi true Hbm) as (bm&Ebm&Hbml&Hbmb&Hbits'); [lia|]. wp. eapply run_lift; [exact Ebm|]. wp.
  rewrite (first_block_ok s v g) by done. replace (bi + first L g) with b by lia. rewrite u32_id by lia.
  assert (run (if z then r ← fs_zero_block b; ret tt else ret tt) s (λ _ s', stored s L (cleared z v [b]) s')) as Hz.
  { destruct z; wp; [|split; [exists (dev s); by destruct s|done]]. wp_apply (fs_zero_block_run s v L); [done|lia|]. intros r s1 [_ Hs1]. by wp. }
  eapply run_mono; [apply Hz|]. intros _ s1 [[d1 ->] Hs1]. wp. apply (the_group_run _ g x); [done|]. wp. apply (change_group_run _ g x); [done|].
  unfold change_sb_free_blocks. wp. set (s2 := with_superblock _ _).
  assert (counted s g x 1 s2) as Hc by (exists d1; done).
  assert (fs_base s2 (cleared z v [b]) L) as Hs2 by (apply (counted_sb_base (with_groups (with_dev s d1) _)); by apply base_groups).
  pose proof (bits_add g U bitmap bi bm Hbits Hbits') as Hbm2. fold b in Hbm2. destruct (Z.eqb_spec left 1) as [->|Hne].
  { wp. cbn [fst snd]. rewrite list_to_set_singleton_L. split_and!; try done; lia. }
  wp. wp_apply (IH s2 (cleared z v [b]) (U ∪ {[b]}) (bi + 1) (left - 1) z bm (set_free_blocks (free_blocks x - 1) x)); try done; try lia.
  - cbn. by rewrite lookup_insert_eq.
  - destruct Hxr as (?&?&?&?&?&?). unfold group_range. cbn. split_and!; try lia; unfold u16; apply Z.mod_pos_bound; lia.
  - intros c Hc1 Hc2. apply Hfree; set_solver.
  - intros [bs bm'] s3 (Ebs&Hl3&Hb3&Hbits3&Hc3&Hs3). cbn [fst snd] in *. wp. cbn [fst snd].
    assert (free_of (seqZ (first L g + (bi + 1)) (Z.of_nat fuel)) (U ∪ {[b]}) = free_of (seqZ (first L g + (bi + 1)) (Z.of_nat fuel)) U) as Efree.
    { apply free_of_ext. intros c Hc0%elem_of_seqZ. assert (c ≠ b) by (unfold b; lia). set_solver. }
    split_and!; try done.
    + rewrite Ebs, Efree. replace (Z.to_nat left) with (S (Z.to_nat (left - 1))) by lia. done.
    + intros i Hi. rewrite Hbits3 by done. apply bool_decide_ext. cbn. set_solver.
    + cbn. replace (Z.of_nat (S (length bs))) with (zlength bs + 1) by lia. by apply (counted_more s v g x _ s2).
    + by rewrite cleared_cons.
Qed.

(** ** The invariant after a change of one group *)

Lemma cleared_spec z v bs : (∀ b, b ∈ bs → 2 + dtb L ≤ b < l_total L) → 1024 * l_total L ≤ zlength v →
  zlength (cleared z v bs) = zlength v ∧
  (∀ off n, 0 ≤ off → off + n ≤ (2 + dtb L) * 1024 → slice off n (cleared z v bs) = slice off n v) ∧
  (∀ b, 0 ≤ b → b ∉ bs → blk 1024 (cleared z v bs) b = blk 1024 v b) ∧
  (z = true → ∀ b, b ∈ bs → blk 1024 (cleared z v bs) b = zeroes 1024).
Proof.
  intros Hbs Hlen. destruct z; [|by split_and!]. revert v Hlen Hbs. induction bs as [|b bs IH] using rev_ind; intros v Hlen Hbs.
  { split_and!; try done. by intros _ b ?%elem_of_nil. }
  destruct (IH v Hlen) as (Hl&Hs&Ho&Hz); [intros c Hc; apply Hbs, elem_of_app; by left|]. unfold cleared in *. rewrite foldl_app. cbn [foldl].
  set (v1 := foldl _ v bs) in *. pose proof (Hbs b ltac:(apply elem_of_app; right; by left)) as Hb. pose proof (dtb_pos L HL).
  pose proof (length_zeroes 1024 ltac:(lia)) as Hzl. assert (in_file 1024 v1 b) as Hf by (split; lia). split_and!.
  - rewrite length_splice_blk by (done || lia). done.
  - intros off n ? ?. rewrite slice_splice_other by lia. by apply Hs.
  - intros c Hc [Hc1 Hc2%not_elem_of_cons]%not_elem_of_app. rewrite blk_splice by (done || lia). rewrite decide_False by tauto. by apply Ho.
  - intros _ c Hc. rewrite blk_splice by (done || lia || (apply elem_of_app in Hc as [?|[-> |?%elem_of_nil]%elem_of_cons]; [pose proof (Hbs c ltac:(apply elem_of_app; by left)); lia|lia|done])).
    case_decide; [done|]. apply elem_of_app in Hc as [?|[-> |?%elem_of_nil]%elem_of_cons]; [by apply Hz|done|done].
Qed.

Lemma inv_update s v U s' v' U' g : fs_inv s v L U → 0 ≤ g < ng L → fs_base s' v' L →
  slice 1024 512 v' = superblock s' → sb_free_blocks (superblock s') = tf L U' →
  (∀ g', 0 ≤ g' < ng L → g' ≠ g → gdesc v' g' = gdesc v g' ∧ blk 1024 v' (bb L g') = blk 1024 v (bb L g')) →
  gdesc v' g = set_free_blocks (fc L U' g) (gdesc v g) → bits_of g U' (blk 1024 v' (bb L g)) →
  block_groups s' = <[g := gdesc v' g]> (block_groups s) →
  (∀ b, b ∉ group_blocks L g → b ∈ U ↔ b ∈ U') → (∀ b, b ∈ meta L → b ∈ U') → (∀ b, b ∈ all_blocks L → b ∉ U' → b < l_total L) →
  inodes_inv (superblock s') v' L → fs_inv s' v' L U'.
Proof.
  intros Hi Hg Hs' Hsb Hsbf Hother Hdesc Hbits Hgs HU Hmeta Hfree Hino. split; try done.
  - intros g' Hg'. destruct (decide (g' = g)) as [->|Hne].
    + rewrite Hdesc. destruct (fi_group _ _ _ _ Hi g Hg) as (?&?&?&_). unfold set_free_blocks. cbn. split_and!; try done. apply u16_id. unfold fc.
      pose proof (count_free_le (group_blocks L g) U') as Hc. unfold group_blocks in Hc. rewrite length_seqZ in Hc. pose proof (lo_bpg L HL). unfold group_blocks. lia.
    + destruct (Hother g' Hg' Hne) as [-> _]. destruct (fi_group _ _ _ _ Hi g' Hg') as (?&?&?&->). split_and!; try done. apply count_free_ext.
      intros b Hb. apply HU. intros Hb'. by pose proof (group_blocks_apart L g' g b HL Hb Hb').
  - intros g' x. rewrite Hgs. intros [[<- <-]|[Hne Hx]]%lookup_insert_Some; [done|]. destruct (fi_loaded _ _ _ _ Hi g' x Hx) as [Hg' ->].
    split; [done|]. symmetry. by apply Hother.
  - intros g' i Hg' Hi'. destruct (decide (g' = g)) as [->|Hne]; [by apply Hbits|]. destruct (Hother g' Hg' Hne) as [_ ->]. rewrite (fi_bits _ _ _ _ Hi) by done.
    apply bool_decide_ext. apply HU. intros Hb'. apply Hne, (group_blocks_apart L g' g (first L g' + i) HL); [|done]. apply elem_of_seqZ. lia.
Qed.

(** The three writes of the allocator: the bitmap and the descriptor of a group, and the superblock. *)
Lemma written_spec v g bitmap sb gb v' : 0 ≤ g < ng L → 1024 * l_total L ≤ zlength v → zlength bitmap = 1024 → zlength sb = 512 → zlength gb = 32 →
  (v' = splice (splice (splice v (bb L g * 1024) bitmap) 1024 sb) (2048 + 32 * g) gb ∨ v' = splice (splice (splice v (bb L g * 1024) bitmap) (2048 + 32 * g) gb) 1024 sb) →
  zlength v' = zlength v ∧ slice 1024 512 v' = sb ∧ slice (2048 + 32 * g) 32 v' = gb ∧ blk 1024 v' (bb L g) = bitmap ∧
  (∀ g', 0 ≤ g' < ng L → g' ≠ g → gdesc v' g' = gdesc v g') ∧ (∀ b, 2 + dtb L ≤ b → b ≠ bb L g → blk 1024 v' b = blk 1024 v b) ∧ blk 1024 v' 0 = blk 1024 v 0.
Proof.
  intros Hg Hlen Hbm Hsb Hgb Hv. assert (2 + dtb L ≤ bb L g < l_total L) as Hbb.
  { pose proof (table_apart L g (bb L g) HL Hg ltac:(by left)). pose proof (lo_range L HL (bb L g) (bb_meta L g Hg)). lia. }
  pose proof (dtb_pos L HL) as Hd1. assert (32 * ng L ≤ 1024 * dtb L) as Hd2.
  { unfold dtb. pose proof (Z.div_mod (ng L * 32 + 1023) 1024 ltac:(lia)). pose proof (Z.mod_pos_bound (ng L * 32 + 1023) 1024 ltac:(lia)). lia. }
  set (v1 := splice v (bb L g * 1024) bitmap) in *. assert (zlength v1 = zlength v) as H1 by (unfold v1; rewrite length_splice; lia).
  assert (blk 1024 v1 (bb L g) = bitmap) as Hb1 by (unfold v1; rewrite blk_splice by first [done | lia | split; lia]; by rewrite decide_True).
  destruct Hv as [->| ->].
  - set (v2 := splice v1 1024 sb). assert (zlength v2 = zlength v) as H2 by (unfold v2; rewrite length_splice; lia). split_and!.
    + rewrite length_splice; lia.
    + rewrite slice_splice_other by lia. unfold v2. apply slice_splice_eq; lia.
    + apply slice_splice_eq; lia.
    + rewrite blk_other by lia. unfold v2. by rewrite blk_other by lia.
    + intros g' Hg' Hne. rewrite gdesc_other by lia. unfold v2. rewrite gdesc_other by lia. unfold v1. by rewrite gdesc_other by lia.
    + intros b Hb Hne. rewrite blk_other by lia. unfold v2. rewrite blk_other by lia. unfold v1. by rewrite blk_other by lia.
    + rewrite blk_other by lia. unfold v2. rewrite blk_other by lia. unfold v1. by rewrite blk_other by lia.
  - set (v2 := splice v1 (2048 + 32 * g) gb). assert (zlength v2 = zlength v) as H2 by (unfold v2; rewrite length_splice; lia). split_and!.
    + rewrite length_splice; lia.
    + apply slice_splice_eq; lia.
    + rewrite slice_splice_other by lia. unfold v2. apply slice_splice_eq; lia.
    + rewrite blk_other by lia. unfold v2. by rewrite blk_other by lia.
    + intros g' Hg' Hne. rewrite gdesc_other by lia. unfold v2. rewrite gdesc_other by lia. unfold v1. by rewrite gdesc_other by lia.
    + intros b Hb Hne. rewrite blk_other by lia. unfold v2. rewrite blk_other by lia. unfold v1. by rewrite blk_other by lia.
    + rewrite blk_other by lia. unfold v2. rewrite blk_other by lia. unfold v1. by rewrite blk_other by lia.
Qed.

(** [n] blocks [bs] have been taken. *)
Record granted (z : bool) v U (n : Z) (bs : list Z) v' s' : Prop := {
  gr_inv : fs_inv s' v' L (U ∪ list_to_set bs);
  gr_length : zlength bs = n;
  gr_nodup : NoDup bs;
  gr_free b : b ∈ bs → b ∈ all_blocks L ∧ b ∉ U;
  gr_frame : frame L U v v';
  gr_zero b : z = true → b ∈ bs → blk 1024 v' b = zeroes 1024;
}.

Lemma free_block_range s v U b : fs_inv s v L U → b ∈ all_blocks L → b ∉ U → 2 + dtb L ≤ b < l_total L.
Proof.
  intros Hi Hb HU. pose proof (fi_free _ _ _ _ Hi b Hb HU). split; [|done]. destruct (decide (b < 2 + dtb L)); [|lia]. exfalso. apply HU, (fi_meta _ _ _ _ Hi), table_meta.
  apply elem_of_seqZ in Hb. lia.
Qed.

Lemma frame_written v v1 v' U g (bs : list Z) : (∀ b, b ∈ bs → b ∉ U) → 0 ≤ g < ng L →
  (∀ b, 0 ≤ b → b ∉ bs → blk 1024 v1 b = blk 1024 v b) → (∀ b, 2 + dtb L ≤ b → b ≠ bb L g → blk 1024 v' b = blk 1024 v1 b) → blk 1024 v' 0 = blk 1024 v1 0 → frame L U v v'.
Proof.
  intros Hbs Hg H1 H2 H3 b Hb Hb0 Hv. assert (b ∉ bs) as Hnb by (intros Hin; by apply (Hbs b Hin)). rewrite <-(H1 b) by done.
  destruct (decide (b = 0)) as [->|]; [done|]. apply H2; [|intros ->; apply Hv; right; exists g; tauto]. destruct (decide (b < 2 + dtb L)); [|lia]. exfalso. apply Hv. left. lia.
Qed.

Lemma gdesc_slices v v' g : (∀ off n, 0 ≤ off → off + n ≤ (2 + dtb L) * 1024 → slice off n v' = slice off n v) → 0 ≤ g < ng L → gdesc v' g = gdesc v g.
Proof.
  intros Hs Hg. unfold gdesc. rewrite Hs; [done|lia|]. unfold dtb. pose proof (Z.div_mod (ng L * 32 + 1023) 1024 ltac:(lia)).
  pose proof (Z.mod_pos_bound (ng L * 32 + 1023) 1024 ltac:(lia)). lia.
Qed.

Lemma set_free_range k x : group_range x → group_range (set_free_blocks k x).
Proof. intros (?&?&?&?&?&?). unfold group_range. cbn. split_and!; try lia; unfold u16; apply Z.mod_pos_bound; lia. Qed.

Lemma group_free_nodup g U k : NoDup (take k (free_of (group_blocks L g) U)).
Proof. apply (sublist_NoDup _ (group_blocks L g)); [apply NoDup_seqZ|]. etrans; [apply sublist_take|apply sublist_filter]. Qed.

Lemma allocate_blocks_in_group_run s v U g n z : fs_inv s v L U → 0 ≤ g < ng L → block_groups s !! g = Some (gdesc v g) → 0 < n ≤ fc L U g →
  run (allocate_blocks_in_group stack_bytes g n z) s (λ r s', ∃ bs v', r = Ok bs ∧ granted z v U n bs v' s' ∧ ∀ b, b ∈ bs → b ∈ group_blocks L g).
Proof.
  intros Hi Hg Hx Hn. pose proof (fi_base _ _ _ _ Hi) as Hs. destruct (fi_group _ _ _ _ Hi g Hg) as (Hbb&Hib&Hit&Hfc). set (x := gdesc v g) in *.
  pose proof (gdesc_range v g (fb_bytes _ _ _ Hs)) as Hxr. fold x in Hxr. unfold allocate_blocks_in_group. wp. apply (the_group_run s g x); [done|]. rewrite Hfc.
  destruct (Z.ltb_spec (fc L U g) n); [lia|]. destruct (Z.eqb_spec n 0); [lia|]. pose proof (lo_range L HL _ (bb_meta L g Hg)) as Hbr. rewrite Hbb. wp.
  wp_apply (fs_read_block_run s v L); [done|lia|]. intros r s0 [-> [[d0 ->] Hs0]]. wp. change (superblock (with_dev s d0)) with (superblock s). rewrite (fb_bpg _ _ _ Hs).
  pose proof (base_in_file s v L (bb L g) Hs ltac:(lia)) as Hbf. pose proof (lo_bpg L HL) as Hbpg.
  wp_apply (allocate_bits_run (Z.to_nat (l_bpg L)) g (with_dev s d0) v U 0 n z _ x); try done; try lia.
  { apply bytes_slice, Hs. } { by apply length_blk. } { intros i ?. by apply (fi_bits _ _ _ _ Hi). }
  { intros b Hb HU. apply (fi_free _ _ _ _ Hi); [by apply (group_blocks_all L g)|done]. }
  intros [bs bm] s1 (Ebs&Hbml&Hbmb&Hbits&[d1 Es1]&Hs1). cbn [fst snd] in *. rewrite Z2Nat.id, Z.add_0_r in Ebs by lia. fold (group_blocks L g) in Ebs.
  assert (zlength bs = n) as Hbsl by (rewrite Ebs, length_take; unfold fc, count_free in Hn; lia).
  assert (∀ b, b ∈ bs → b ∈ group_blocks L g ∧ b ∉ U) as Hbs by (intros b; rewrite Ebs; intros (j&Hj%list_elem_of_lookup_2&_)%elem_of_take; by apply elem_free_of in Hj).
  assert (NoDup bs) as Hnd by (rewrite Ebs; apply group_free_nodup). rewrite Hbsl, Z.eqb_refl. wp.
  wp_apply (fs_write_block_run s1 _ L); [done|lia|done|done|]. intros r s2 [-> [[d2 Es2] Hs2]]. wp. wp_apply write_superblock_run; [done|]. intros _ s3 [[d3 Es3] Hs3]. wp.
  wp_apply (write_group_run _ _ g (set_free_blocks (free_blocks x - n) x)); [done|done|subst; cbn; by rewrite Hbsl, lookup_insert_eq|]. intros _ s4 [[d4 Es4] Hs4]. wp.
  set (sb' := superblock s2) in *. assert (superblock s4 = sb') as Esb by (by subst).
  set (gb := group_bytes stack_bytes _) in *. set (v1 := cleared z v bs) in *. set (v4 := splice _ (2048 + 32 * g) gb) in Hs4.
  destruct (cleared_spec z v bs) as (Hl1&Hsl1&Ho1&Hz1); [intros b Hb; destruct (Hbs b Hb); apply (free_block_range s v U); [done|by apply (group_blocks_all L g)|done]|apply Hs|]. fold v1 in Hl1, Hsl1, Ho1, Hz1.
  destruct (written_spec v1 g bm sb' gb v4) as (Hl4&Hsb4&Hgb4&Hbm4&Hg4&Hb4&H04); [done|rewrite Hl1; apply Hs|done|rewrite <-Esb, (fb_sb_len _ _ _ Hs4); lia|unfold gb; by rewrite length_group_bytes|by left|].
  assert (∀ b, b ∈ bs → b ∈ all_blocks L ∧ b ∉ U) as Hbsa by (intros b Hb; destruct (Hbs b Hb); split; [by apply (group_blocks_all L g)|done]).
  exists bs, v4. split; [done|]. split; [|intros b Hb; by apply Hbs]. split; try done.
  2:{ apply (frame_written v v1 v4 U g bs); try done. intros b Hb. by apply Hbs. }
  2:{ intros b Hz Hb. rewrite <-(Hz1 Hz b Hb). destruct (Hbsa b Hb) as [Hba HU]. destruct (free_block_range s v U b Hi Hba HU). apply Hb4; [lia|]. intros ->. apply HU, (fi_meta _ _ _ _ Hi). by apply bb_meta. }
  apply (inv_update s v U s4 v4 _ g); try done.
  - by rewrite Hsb4.
  - rewrite Esb. subst sb' s2 s1. cbn [superblock with_dev with_superblock with_groups]. rewrite Hbsl. unfold sb_free_blocks, set_sb_free_blocks. rewrite get32_put32 by (rewrite ?(fb_sb_len _ _ _ Hs); lia). fold (sb_free_blocks (superblock s)). rewrite (fi_sb_free _ _ _ _ Hi).
    unfold tf. rewrite (count_adds (all_blocks L)); [|apply NoDup_seqZ|done|done]. rewrite Hbsl. apply u32_id.
    pose proof (count_free_le (all_blocks L) (U ∪ list_to_set bs)) as Hc. rewrite (count_adds (all_blocks L)) in Hc; [|apply NoDup_seqZ|done|done].
    pose proof (count_free_le (all_blocks L) U) as Hc'. unfold all_blocks in Hc, Hc'. rewrite length_seqZ in Hc, Hc'. pose proof (lo_blocks L HL). unfold all_blocks. lia.
  - intros g' Hg' Hne. split; [rewrite Hg4 by done; by apply gdesc_slices|]. assert (bb L g' ≠ bb L g) as Hbbn.
    { intros E. apply Hne. apply (group_meta_apart L g' g (bb L g') HL Hg' Hg); [by left|]. rewrite E. by left. }
    rewrite Hb4; [|by apply (table_apart L g' (bb L g') HL Hg'); left|done]. apply Ho1; [pose proof (lo_range L HL _ (bb_meta L g' Hg')); lia|].
    intros Hin. apply (Hbs _ Hin). apply (fi_meta _ _ _ _ Hi). by apply bb_meta.
  - unfold gdesc at 1. rewrite Hgb4. unfold gb. rewrite group_roundtrip by (by apply set_free_range). f_equal. rewrite Hfc. unfold fc. rewrite count_adds; [lia|apply NoDup_seqZ|done|done].
  - by rewrite Hbm4.
  - unfold gdesc at 1. rewrite Hgb4. unfold gb. rewrite group_roundtrip by (by apply set_free_range). rewrite Es4, Es3, Es2, Es1. cbn. by rewrite Hbsl.
  - intros b Hb. assert (b ∉ bs) as Hnb by (intros Hin; by apply Hb, Hbs). rewrite elem_of_union, elem_of_list_to_set. tauto.
  - intros b Hb. apply elem_of_union_l. by apply (fi_meta _ _ _ _ Hi).
  - intros b Hb HU. apply (fi_free _ _ _ _ Hi); [done|]. intros ?. apply HU. by apply elem_of_union_l.
  - apply (inodes_keep (superblock s) v); [apply Hi|rewrite Esb; subst sb' s2 s1; cbn [superblock with_dev with_superblock with_groups]; apply get32_put32_other; rewrite ?(fb_sb_len _ _ _ Hs); lia| |].
    + intros g' Hg'. destruct (decide (g' = g)) as [->|]; [unfold gdesc at 1; rewrite Hgb4; unfold gb; by rewrite group_roundtrip by (by apply set_free_range)|]. rewrite Hg4 by done. by rewrite (gdesc_slices v v1 g' Hsl1 Hg').
    + intros g' Hg'. destruct (ib_apart g' g Hg' Hg) as [Hr Hne]. pose proof (dtb_pos L HL). rewrite Hb4 by (done || lia). apply Ho1; [lia|]. intros Hin. apply (Hbs _ Hin). apply (fi_meta _ _ _ _ Hi). by apply ib_meta.
Qed.

(** ** Giving blocks back *)

Lemma bits_remove g U bitmap bi bitmap' : bits_of g U bitmap → (∀ j, 0 ≤ j → bit bitmap' j = if decide (j = bi) then false else bit bitmap j) →
  bits_of g (U ∖ {[first L g + bi]}) bitmap'.
Proof.
  intros Hb Hb' i Hi. rewrite Hb' by lia. case_decide as E; [subst; symmetry; apply bool_decide_eq_false_2; set_solver|]. rewrite Hb by done.
  apply bool_decide_ext. assert (first L g + i ≠ first L g + bi) by lia. set_solver.
Qed.

Lemma free_block_run s v U b : fs_inv s v L U → b ∈ all_blocks L → b ∈ U → b ∉ meta L → b < l_total L →
  run (free_block stack_bytes b) s (λ _ s', ∃ v', fs_inv s' v' L (U ∖ {[b]}) ∧ frame L U v v').
Proof.
  intros Hi Hb HU Hm Ht. pose proof (fi_base _ _ _ _ Hi) as Hs. destruct (block_group L b HL Hb) as [Hg Hbg]. pose proof Hb as Hb0%elem_of_seqZ. unfold free_block.
  destruct (Z.eqb_spec b 0); [lia|]. wp. rewrite (fb_bpg _ _ _ Hs). pose proof (lo_total L HL) as Htot. rewrite u32_id by lia. set (g := (b - 1) / l_bpg L) in *.
  wp_apply get_block_group_run; [done|done|]. intros x0 s0 (->&Hi0&Hx). pose proof (fi_base _ _ _ _ Hi0) as Hs0. destruct (fi_group _ _ _ _ Hi g Hg) as (Hbb&Hib&Hit&Hfc). set (x := gdesc v g) in *.
  pose proof (gdesc_range v g (fb_bytes _ _ _ Hs)) as Hxr. fold x in Hxr. pose proof (lo_range L HL _ (bb_meta L g Hg)) as Hbr. rewrite Hbb. wp.
  wp_apply (fs_read_block_run s0 v L); [done|lia|]. intros r s1 [-> [[d1 ->] Hs1]]. wp. rewrite (first_block_ok s v g) by done.
  apply elem_of_seqZ in Hbg as Hbi. pose proof (lo_bpg L HL) as Hbpg. assert (0 ≤ first L g) by (unfold first; nia). rewrite u32_id by lia. set (bi := b - first L g) in *.
  pose proof (base_in_file s v L (bb L g) Hs ltac:(lia)) as Hbf. pose proof (length_blk 1024 v (bb L g) ltac:(lia) Hbf) as Hbl.
  eapply run_lift; [apply get_bitmap_bit_ok; lia|]. rewrite (fi_bits _ _ _ _ Hi) by lia. replace (first L g + bi) with b by lia. rewrite bool_decide_true by done. cbn [negb].
  destruct (set_bitmap_bit_ok (blk 1024 v (bb L g)) bi false) as (bm&Ebm&Hbml&Hbmb&Hbits'); [apply bytes_slice, Hs|lia|]. wp. eapply run_lift; [exact Ebm|]. wp.
  wp_apply (fs_write_block_run _ v L); [done|lia|lia|done|]. intros r s2 [-> [[d2 Es2] Hs2]]. wp. apply (change_group_run _ g x); [by rewrite Es2|]. wp. set (s3 := with_groups s2 _).
  wp_apply (write_group_run s3 _ g (set_free_blocks (free_blocks x + 1) x)); [by apply base_groups|done|cbn; by rewrite lookup_insert_eq|]. intros _ s4 [[d4 Es4] Hs4]. wp.
  unfold change_sb_free_blocks. wp. set (s5 := with_superblock s4 _). wp_apply write_superblock_run; [by apply counted_sb_base|]. intros _ s6 [[d6 Es6] Hs6].
  set (sb' := superblock s5) in *. assert (superblock s6 = sb') as Esb by (by rewrite Es6). set (gb := group_bytes stack_bytes _) in *. set (v6 := splice _ 1024 sb') in Hs6. exists v6.
  destruct (written_spec v g bm sb' gb v6) as (Hl6&Hsb6&Hgb6&Hbm6&Hg6&Hb6&H06); [done|apply Hs|lia|rewrite <-Esb, (fb_sb_len _ _ _ Hs6); lia|unfold gb; by rewrite length_group_bytes|by right|].
  split; [|apply (frame_written v v v6 U g []); [by intros ? ?%elem_of_nil|done..]].
  assert (superblock s4 = superblock s) as Esb4 by (rewrite Es4; cbn; rewrite Es2; cbn; by rewrite <-(fi_sb _ _ _ _ Hi), <-(fi_sb _ _ _ _ Hi0)).
  assert (gdesc v6 g = set_free_blocks (free_blocks x + 1) x) as Egd by (unfold gdesc; rewrite Hgb6; unfold gb; by rewrite group_roundtrip by (by apply set_free_range)).
  apply (inv_update s0 v U s6 v6 _ g); try done.
  - by rewrite Hsb6.
  - rewrite Esb. unfold sb', s5. cbn [superblock with_superblock]. rewrite Esb4. unfold sb_free_blocks, set_sb_free_blocks. rewrite get32_put32 by (rewrite ?(fb_sb_len _ _ _ Hs); lia). fold (sb_free_blocks (superblock s)).
    rewrite (fi_sb_free _ _ _ _ Hi). unfold tf. rewrite count_remove; [|apply NoDup_seqZ|done|done]. apply u32_id.
    pose proof (count_free_le (all_blocks L) U) as Hc'. unfold all_blocks in *. rewrite length_seqZ in Hc'. pose proof (lo_blocks L HL). lia.
  - intros g' Hg' Hne. split; [by apply Hg6|]. apply Hb6; [by apply (table_apart L g' (bb L g') HL Hg'); left|]. intros E. apply Hne. apply (group_meta_apart L g' g (bb L g') HL Hg' Hg); [by left|]. rewrite E. by left.
  - rewrite Egd, Hfc. f_equal. unfold fc. rewrite count_remove; [done|apply NoDup_seqZ|done|done].
  - rewrite Hbm6. replace b with (first L g + bi) by lia. apply (bits_remove g U (blk 1024 v (bb L g))); [|done]. intros i ?. by apply (fi_bits _ _ _ _ Hi).
  - rewrite Egd, Es6. unfold s5. cbn. rewrite Es4. cbn. by rewrite Es2.
  - intros c Hc. assert (c ≠ b) by (by intros ->). set_solver.
  - intros c Hc. apply elem_of_difference. split; [by apply (fi_meta _ _ _ _ Hi)|]. intros ->%elem_of_singleton. done.
  - intros c Hc HcU. destruct (decide (c = b)) as [->|]; [done|]. apply (fi_free _ _ _ _ Hi); [done|]. set_solver.
  - apply (inodes_keep (superblock s) v); [apply Hi|rewrite Esb; unfold sb', s5; cbn [superblock with_superblock]; rewrite Esb4; apply get32_put32_other; rewrite ?(fb_sb_len _ _ _ Hs); lia| |].
    + intros g' Hg'. destruct (decide (g' = g)) as [->|]; [by rewrite Egd|]. by rewrite Hg6.
    + intros g' Hg'. destruct (ib_apart g' g Hg' Hg) as [Hr Hne]. pose proof (dtb_pos L HL). apply Hb6; (done || lia).
Qed.

Lemma frame_sub U U' v v' : U' ⊆ U → frame L U v v' → frame L U' v v'.
Proof. intros HU Hf b Hb. apply Hf. by apply HU. Qed.

Lemma free_block_list_run bs : ∀ s v U, fs_inv s v L U → NoDup bs → (∀ b, b ∈ bs → b ∈ all_blocks L ∧ b ∈ U ∧ (b ∉ meta L) ∧ b < l_total L) →
  run (free_block_list stack_bytes bs) s (λ _ s', ∃ v', fs_inv s' v' L (U ∖ list_to_set bs) ∧ frame L (U ∖ list_to_set bs) v v').
Proof.
  induction bs as [|b bs IH]; intros s v U Hi Hn Hbs; cbn [free_block_list]; wp.
  { exists v. rewrite list_to_set_nil, difference_empty_L. split; [done|apply kept_refl]. }
  apply NoDup_cons in Hn as [Hnb Hn]. destruct (Hbs b ltac:(by left)) as (?&?&?&?). wp_apply (free_block_run s v U); try done. intros _ s1 (v1&Hi1&Hf1).
  assert (U ∖ {[b]} ∖ list_to_set bs = U ∖ list_to_set (b :: bs)) as EU by (rewrite list_to_set_cons, difference_difference_l_L; done).
  wp_apply (IH s1 v1 (U ∖ {[b]})); [done|done| |].
  - intros c Hc. destruct (Hbs c ltac:(by right)) as (?&?&?&?). assert (c ≠ b) by (by intros ->). split_and!; try done. set_solver.
  - intros _ s2 (v2&Hi2&Hf2). rewrite EU in *. exists v2. split; [done|]. apply (kept_trans L _ (U ∖ list_to_set (b :: bs)) v v1 v2); [done| |done]. apply (frame_sub U); [set_solver|done].
Qed.

(** ** Choosing a group *)

Lemma find_group_run fuel n : ∀ s v U g, fs_inv s v L U → 0 ≤ g → g + Z.of_nat fuel ≤ ng L →
  run (find_group fuel g n) s (λ r s', fs_inv s' v L U ∧ match r with
    | Some g' => 0 ≤ g' < ng L ∧ n ≤ fc L U g' ∧ block_groups s' !! g' = Some (gdesc v g')
    | None => True
    end).
Proof.
  induction fuel as [|fuel IH]; intros s v U g Hi Hg Hf; cbn [find_group]; wp; [done|]. wp_apply get_block_group_run; [done|lia|]. intros x s1 (->&Hi1&Hx).
  destruct (fi_group _ _ _ _ Hi g ltac:(lia)) as (_&_&_&->). destruct (Z.leb_spec n (fc L U g)); wp; [split_and!; (done || lia)|]. apply IH; [done|lia..].
Qed.

(** [best] is the best of the groups up to [g]. *)
Definition best_of s v U g (best : option (Z * Z)) : Prop :=
  match best with
  | None => g = 0
  | Some (g', n) => 0 ≤ g' < g ∧ n = fc L U g' ∧ block_groups s !! g' = Some (gdesc v g') ∧ ∀ h, 0 ≤ h < g → fc L U h ≤ n
  end.

Lemma get_keeps_groups s g : ∀ r s', get_block_group g s = Done (r, s') → ∀ h x, block_groups s !! h = Some x → block_groups s' !! h = Some x.
Proof.
  intros r s'. unfold get_block_group, get_state, mbind, eff_bind. destruct (num_block_groups s <=? g); [by intros [= <- <-]|].
  destruct (block_groups s !! g) eqn:E; [by intros [= <- <-]|]. destruct (read_block_group_raw g s) as [[d s1]| | |] eqn:Er; try done. unfold modify, ret. intros [= <- <-] h x Hx. cbn.
  rewrite lookup_insert_ne by (intros ->; congruence). revert Er. unfold read_block_group_raw, get_state, mbind, eff_bind, fs_read_block.
  destruct (read_block (dev s) (_block_size s) (descriptor_block s g)) as [[r0 d0]| | |]; cbn; try done. destruct r0; cbn; [|done]. by intros [= _ <-].
Qed.

Lemma most_spacious_run fuel : ∀ s v U g best, fs_inv s v L U → 0 ≤ g → g + Z.of_nat fuel = ng L → best_of s v U g best →
  run (most_spacious fuel g best) s (λ r s', fs_inv s' v L U ∧ best_of s' v U (ng L) r).
Proof.
  induction fuel as [|fuel IH]; intros s v U g best Hi Hg Hf Hb; cbn [most_spacious]; wp; [replace (ng L) with g by lia; done|].
  destruct (get_block_group_run s v U g Hi ltac:(lia)) as (x&s1&E&->&Hi1&Hx). exists (Some (gdesc v g)), s1. split; [done|].
  pose proof (get_keeps_groups s g _ _ E) as Hkeep. destruct (fi_group _ _ _ _ Hi g ltac:(lia)) as (_&_&_&->). apply IH; [done|lia..|].
  destruct best as [[g' n]|]; cbn in Hb |- *.
  - destruct Hb as (Hg'&->&Hl&Hmax). destruct (Z.ltb_spec (fc L U g') (fc L U g)); cbn; split_and!; try lia; try done; auto.
    + intros h Hh. destruct (decide (h = g)) as [->|]; [lia|]. specialize (Hmax h ltac:(lia)). lia.
    + intros h Hh. destruct (decide (h = g)) as [->|]; [lia|]. apply Hmax. lia.
  - subst g. split_and!; try lia; try done. intros h Hh. assert (h = 0) as -> by lia. lia.
Qed.

(** ** Allocation *)

Definition refused v U n v' s' : Prop := fs_inv s' v' L U ∧ frame L U v v' ∧ tf L U < n.

(** What [allocate_blocks] gives. *)
Definition allocated z v U n (r : result (list Z)) s' : Prop :=
  match r with
  | Ok bs => ∃ v', granted z v U n bs v' s'
  | Err e => e = - ENOSPC ∧ ∃ v', refused v U n v' s'
  end.

Lemma tf_zero U : (∀ g, 0 ≤ g < ng L → fc L U g ≤ 0) → tf L U = 0.
Proof.
  intros Hz. unfold tf, count_free. destruct (free_of (all_blocks L) U) as [|b l] eqn:E; [done|]. exfalso. assert (b ∈ free_of (all_blocks L) U) as Hb by (rewrite E; by left).
  apply elem_free_of in Hb as [Hb HU]. destruct (block_group L b HL Hb) as [Hg Hbg]. specialize (Hz _ Hg). unfold fc, count_free in Hz.
  assert (b ∈ free_of (group_blocks L ((b - 1) / l_bpg L)) U) as Hin by (by apply elem_free_of). destruct (free_of (group_blocks L ((b - 1) / l_bpg L)) U); [by apply elem_of_nil in Hin|]. cbn in Hz. lia.
Qed.

(** More blocks have been taken after the first ones. *)
Lemma granted_app s z v U n1 bs1 v1 s1 n2 bs2 v2 s2 : fs_inv s v L U → granted z v U n1 bs1 v1 s1 → granted z v1 (U ∪ list_to_set bs1) n2 bs2 v2 s2 → granted z v U (n1 + n2) (bs1 ++ bs2) v2 s2.
Proof.
  intros Hi [Hi1 Hl1 Hn1 Hf1 Hfr1 Hz1] [Hi2 Hl2 Hn2 Hf2 Hfr2 Hz2]. split.
  - rewrite list_to_set_app_L. by rewrite (assoc_L (∪)).
  - rewrite length_app. lia.
  - apply NoDup_app. split_and!; try done. intros b Hb1 Hb2. destruct (Hf2 b Hb2) as [_ HU]. apply HU. apply elem_of_union_r. by apply elem_of_list_to_set.
  - intros b [Hb|Hb]%elem_of_app; [by apply Hf1|]. destruct (Hf2 b Hb) as [? HU]. split; [done|]. intros ?. apply HU. by apply elem_of_union_l.
  - apply (kept_trans L U (U ∪ list_to_set bs1) v v1 v2); [set_solver|done|done].
  - intros b Hz [Hb|Hb]%elem_of_app; [|by apply Hz2]. rewrite <-(Hz1 b Hz Hb). destruct (Hf1 b Hb) as [Hba HU].
    apply Hfr2; [apply elem_of_union_r; by apply elem_of_list_to_set|apply elem_of_seqZ in Hba; lia|]. intros Hv%volatile_meta; [|done]. by apply HU, (fi_meta _ _ _ _ Hi).
Qed.

(** What has been taken is given back. *)
Lemma granted_back s z v U n bs v1 s1 : fs_inv s v L U → granted z v U n bs v1 s1 →
  run (free_block_list stack_bytes bs) s1 (λ _ s', ∃ v', fs_inv s' v' L U ∧ frame L U v v').
Proof.
  intros Hi [Hi1 Hl1 Hn1 Hf1 Hfr1 _]. assert ((U ∪ list_to_set bs) ∖ list_to_set bs = U) as EU by (apply set_eq; intros b; specialize (Hf1 b); set_solver).
  wp_apply (free_block_list_run bs s1 v1 (U ∪ list_to_set bs)); [done|done| |].
  - intros b Hb. destruct (Hf1 b Hb) as [Hba HU]. assert (b ∉ meta L) by (intros Hm; by apply HU, (fi_meta _ _ _ _ Hi)). split_and!; [done|set_solver|done|by apply (fi_free _ _ _ _ Hi)].
  - intros _ s2 (v2&Hi2&Hf2). rewrite EU in *. exists v2. split; [done|]. by apply (kept_trans L U U v v1 v2).
Qed.

Lemma fc_tf U g : 0 ≤ g < ng L → fc L U g ≤ tf L U.
Proof.
  intros Hg. unfold fc, tf, count_free. apply inj_le, submseteq_length, NoDup_submseteq; [apply NoDup_filter, NoDup_seqZ|].
  intros b [Hb HU]%elem_free_of. apply elem_free_of. split; [by apply (group_blocks_all L g)|done].
Qed.

Lemma allocate_across_run fuel : ∀ s0 v0 U s v acc n remaining z, fs_inv s0 v0 L U → granted z v0 U (n - remaining) acc v s → 0 ≤ remaining → remaining ≤ Z.of_nat fuel →
  run (allocate_across stack_bytes fuel remaining z acc) s (λ r s', allocated z v0 U n r s').
Proof.
  induction fuel as [|fuel IH]; intros s0 v0 U s v acc n remaining z Hi0 Hgr Hr Hf; cbn [allocate_across]; (destruct (Z.eqb_spec remaining 0) as [->|Hne]; [wp; exists v; by rewrite Z.sub_0_r in Hgr|]); [lia|].
  pose proof (gr_inv _ _ _ _ _ _ _ Hgr) as Hi. pose proof (fi_base _ _ _ _ Hi) as Hs. wp. rewrite (fb_ng _ _ _ Hs). pose proof (lo_ng L HL) as Hng.
  wp_apply (most_spacious_run (Z.to_nat (ng L)) s v _ 0 None); [done|lia|lia|done|]. intros best s1 [Hi1 Hb].
  assert (granted z v0 U (n - remaining) acc v s1) as Hgr1 by (destruct Hgr; by split). assert (frame L U v0 v) as Hfr by apply Hgr.
  destruct best as [[g k]|]; cbn in Hb; [|lia]. destruct Hb as (Hg&->&Hl&Hmax). destruct (Z.eqb_spec (fc L (U ∪ list_to_set acc) g) 0) as [Hz|Hnz].
  - wp. wp_apply (granted_back s0 z v0 U _ acc v s1); [done|done|]. intros _ s2 (v2&Hi2&Hf2). wp. split; [done|]. exists v2. split_and!; try done.
    assert (tf L (U ∪ list_to_set acc) = 0) as Htf by (apply tf_zero; intros h Hh; specialize (Hmax h Hh); lia). destruct Hgr as [_ Hal Han Haf _ _].
    unfold tf in *. rewrite count_adds in Htf; [lia|apply NoDup_seqZ|done|done].
  - assert (0 < fc L (U ∪ list_to_set acc) g) by (unfold fc, count_free in *; lia). set (m := Z.min (fc L (U ∪ list_to_set acc) g) remaining). wp.
    wp_apply (allocate_blocks_in_group_run s1 v _ g m z); [done|done|done|unfold m; lia|]. intros r s2 (bs&v2&->&Hg2&_). rewrite (gr_length _ _ _ _ _ _ _ Hg2).
    pose proof (granted_app s0 z v0 U _ acc v s1 m bs v2 s2 Hi0 Hgr1 Hg2) as Hg3. apply (IH s0 v0 U s2 v2); [done| |unfold m; lia..].
    by replace (n - (remaining - m)) with (n - remaining + m) by lia.
Qed.

Lemma allocate_blocks_run s v U n z : fs_inv s v L U → 0 < n → run (allocate_blocks stack_bytes n z) s (λ r s', allocated z v U n r s').
Proof.
  intros Hi Hn. pose proof (fi_base _ _ _ _ Hi) as Hs. pose proof (lo_ng L HL) as Hng. unfold allocate_blocks. destruct (Z.eqb_spec n 0); [lia|]. wp. rewrite (fb_ng _ _ _ Hs).
  wp_apply (find_group_run (Z.to_nat (ng L)) n s v U 0); [done|lia..|]. intros [g|] s1 [Hi1 Hg].
  - destruct Hg as (Hg&Hfc&Hl). wp_apply (allocate_blocks_in_group_run s1 v U g n z); [done|done|done|lia|]. intros r s2 (bs&v2&->&Hgr&_). by exists v2.
  - apply (allocate_across_run _ s v U s1 v [] n n z); [done| |lia..]. rewrite Z.sub_diag. split; try done; [by rewrite list_to_set_nil, union_empty_r_L|apply NoDup_nil_2|by intros ? ?%elem_of_nil|by intros ? _ ?%elem_of_nil].
Qed.

(** [allocate_block] gives a cleared block, or 0 when there is none. *)
Lemma allocate_block_run s v U z : fs_inv s v L U → run (allocate_block stack_bytes z) s (λ b s', ∃ v',
  if decide (b = 0) then refused v U 1 v' s' else granted z v U 1 [b] v' s').
Proof.
  intros Hi. unfold allocate_block. wp. wp_apply allocate_blocks_run; [done|lia|]. intros [bs|e] s1 Hr; wp.
  - destruct Hr as [v1 Hgr]. pose proof (gr_length _ _ _ _ _ _ _ Hgr) as Hl. destruct bs as [|b [|]]; cbn in Hl; try lia. exists v1. rewrite decide_False; [done|].
    destruct (gr_free _ _ _ _ _ _ _ Hgr b ltac:(by left)) as [Hb%elem_of_seqZ _]. lia.
  - destruct Hr as (_&v1&Hr). exists v1. by rewrite decide_True.
Qed.
End alloc.
