(* ===== verification/Ext2Inode.v ===== *)
(** * ext2: inodes (kernel/filesystem/ext2/Ext2Inode.cpp, InodeMetadata.cpp)

    An inode in memory has its 128 bytes on the disk, the numbers of its blocks and
    of the blocks that hold these numbers.  The operations are functions on the inode
    and the filesystem.  The buffer of a read or write of the user is a list of
    bytes. *)

From stdpp Require Import base numbers list list_numbers option gmap.
From S2P Require Import Prelude.
From S2P Require Import ByteBuf.
From S2P Require Import FileBlocks.
From S2P Require Import Ext2.

Local Open Scope Z_scope.

(** ** Data *)

(** [InodeMetadata]. *)
Record metadata := mk_metadata {
  uid : Z;
  gid : Z;
  mode : Z;
  size : Z;
  inode_id : Z;
  dev_major : Z;
  dev_minor : Z;
}.

Definition MODE_CHAR_DEVICE : Z := 0x2000.
Definition MODE_DIRECTORY : Z := 0x4000.
Definition MODE_BLOCK_DEVICE : Z := 0x6000.
Definition MODE_FILE : Z := 0x8000.
Definition MODE_SYMLINK : Z := 0xA000.

Definition mode_type (m : metadata) : Z := Z.land (mode m) 0xF000.
Definition is_directory (m : metadata) : bool := mode_type m =? MODE_DIRECTORY.
Definition is_simple_file (m : metadata) : bool := mode_type m =? MODE_FILE.
Definition is_block_device (m : metadata) : bool := mode_type m =? MODE_BLOCK_DEVICE.
Definition is_character_device (m : metadata) : bool := mode_type m =? MODE_CHAR_DEVICE.
Definition is_device (m : metadata) : bool := (mode_type m =? MODE_CHAR_DEVICE) || (mode_type m =? MODE_BLOCK_DEVICE).
Definition is_symlink (m : metadata) : bool := mode_type m =? MODE_SYMLINK.

Definition set_size (n : Z) (m : metadata) : metadata := mk_metadata (uid m) (gid m) (mode m) n (inode_id m) (dev_major m) (dev_minor m).
Definition set_mode (n : Z) (m : metadata) : metadata := mk_metadata (uid m) (gid m) n (size m) (inode_id m) (dev_major m) (dev_minor m).
Definition set_owner (u g : Z) (m : metadata) : metadata := mk_metadata u g (mode m) (size m) (inode_id m) (dev_major m) (dev_minor m).

(** The fields of [Ext2Inode::Raw]. *)
Definition sizeof_raw : Z := 128.
Definition raw_mode (r : list Z) : Z := get16 r 0.
Definition raw_uid (r : list Z) : Z := get16 r 2.
Definition raw_size (r : list Z) : Z := get32 r 4.
Definition raw_gid (r : list Z) : Z := get16 r 24.
Definition hard_links (r : list Z) : Z := get16 r 26.
Definition raw_pointer (r : list Z) (i : Z) : Z := get32 r (40 + 4 * i).
Definition s_pointer (r : list Z) : Z := get32 r 88.
Definition d_pointer (r : list Z) : Z := get32 r 92.
Definition t_pointer (r : list Z) : Z := get32 r 96.

Record inode := mk_inode {
  id : Z;
  raw : list Z;
  block_pointers : list Z;
  pointer_blocks : list Z;
  _metadata : metadata;
  _dirty : bool;
  _exists : bool;
}.

Definition with_raw (n : inode) (r : list Z) : inode := mk_inode (id n) r (block_pointers n) (pointer_blocks n) (_metadata n) (_dirty n) (_exists n).
Definition with_pointers (n : inode) (l : list Z) : inode := mk_inode (id n) (raw n) l (pointer_blocks n) (_metadata n) (_dirty n) (_exists n).
Definition with_pointer_blocks (n : inode) (l : list Z) : inode := mk_inode (id n) (raw n) (block_pointers n) l (_metadata n) (_dirty n) (_exists n).
Definition with_metadata (n : inode) (m : metadata) : inode := mk_inode (id n) (raw n) (block_pointers n) (pointer_blocks n) m (_dirty n) (_exists n).
Definition with_dirty (n : inode) (d : bool) : inode := mk_inode (id n) (raw n) (block_pointers n) (pointer_blocks n) (_metadata n) d (_exists n).
Definition with_exists (n : inode) (e : bool) : inode := mk_inode (id n) (raw n) (block_pointers n) (pointer_blocks n) (_metadata n) (_dirty n) e.

Definition get_block_pointer (n : inode) (i : Z) : Z :=
  if zlength (block_pointers n) <=? i then 0 else block_pointers n !!! Z.to_nat i.

Definition set_block_pointer (n : inode) (i b : Z) : bool * inode :=
  if i <? zlength (block_pointers n) then (true, with_dirty (with_pointers n (<[Z.to_nat i := b]> (block_pointers n))) true)
  else if i =? zlength (block_pointers n) then (true, with_dirty (with_pointers n (block_pointers n ++ [b])) true)
  else (false, n).

(** [create_metadata]. *)
Definition create_metadata (n : inode) : inode :=
  let r := raw n in
  let m := mk_metadata (raw_uid r) (raw_gid r) (raw_mode r) (raw_size r) (id n) 0 0 in
  if is_device m then
    let device := if raw_pointer r 0 =? 0 then raw_pointer r 1 else raw_pointer r 0 in
    with_metadata n (mk_metadata (uid m) (gid m) (mode m) (size m) (id n) (Z.shiftr (Z.land device 0xfff00) 8)
      (Z.lor (Z.land device 0xff) (Z.land (Z.shiftr device 12) 0xfff00)))
  else with_metadata n m.

Section inode.
Context {D : Type} `{ByteFile D}.
Context (stack_bytes : list Z).

Definition block_group_of (s : ext2 D) (n : inode) : Z := u32 (id n - 1) / inodes_per_group (superblock s).
Definition index_of (s : ext2 D) (n : inode) : Z := u32 (id n - 1) mod inodes_per_group (superblock s).
Definition block_of (s : ext2 D) (n : inode) : Z := u32 (index_of s n * inode_size (superblock s)) / _block_size s.

Definition inline_symlink (n : inode) : bool := is_symlink (_metadata n) && (size (_metadata n) <? 60).

Definition num_blocks (s : ext2 D) (n : inode) : Z :=
  if inline_symlink n then 0 else u32 (size (_metadata n) + _block_size s - 1) / _block_size s.

(** ** Reading block pointers *)

(** The loop over the numbers in a block of pointers. *)
Fixpoint push_pointers (fuel : nat) (buf : list Z) (i block_index limit : Z) (acc : list Z) : list Z * Z :=
  match fuel with
  | O => (acc, block_index)
  | S fuel => if block_index <? limit then push_pointers fuel buf (i + 1) (block_index + 1) limit (acc ++ [get32 buf (4 * i)]) else (acc, block_index)
  end.

Definition read_singly_indirect (n : inode) (b block_index : Z) : eff D (inode * Z) :=
  s ← get_state;
  if (b =? 0) || (num_blocks s n <=? block_index) then ret (n, block_index)
  else
    r ← fs_read_block b;
    buf ← buffer r;
    let '(bp, i) := push_pointers (Z.to_nat (block_pointers_per_block s)) buf 0 block_index (num_blocks s n) (block_pointers n) in
    ret (with_pointers (with_pointer_blocks n (pointer_blocks n ++ [b])) bp, i).

(** The loop of [read_doubly_indirect], and of [read_triply_indirect], over the blocks of the next level. *)
Fixpoint read_level (read : inode → Z → Z → eff D (inode * Z)) (fuel : nat) (n : inode) (buf : list Z) (i block_index : Z) : eff D (inode * Z) :=
  match fuel with
  | O => ret (n, block_index)
  | S fuel =>
      s ← get_state;
      if block_index <? num_blocks s n then
        '(n, block_index) ← read n (get32 buf (4 * i)) block_index;
        read_level read fuel n buf (i + 1) block_index
      else ret (n, block_index)
  end.

(** [read_singly_indirect], [read_doubly_indirect] and [read_triply_indirect] (levels 0, 1 and 2). *)
Fixpoint read_tree (k : nat) (n : inode) (b block_index : Z) : eff D (inode * Z) :=
  match k with
  | O => read_singly_indirect n b block_index
  | S k =>
      s ← get_state;
      if (b =? 0) || (num_blocks s n <=? block_index) then ret (n, block_index)
      else
        r ← fs_read_block b;
        buf ← buffer r;
        read_level (read_tree k) (Z.to_nat (block_pointers_per_block s)) (with_pointer_blocks n (pointer_blocks n ++ [b])) buf 0 block_index
  end.

Definition read_block_pointers (n : inode) : eff D inode :=
  s ← get_state;
  let n := with_pointers (with_pointer_blocks n []) [] in
  if inline_symlink n then ret n
  else
    let k := Z.min 12 (num_blocks s n) in
    let n := with_pointers n ((λ i, raw_pointer (raw n) i) <$> seqZ 0 k) in
    '(n, i) ← (if s_pointer (raw n) =? 0 then ret (n, k) else read_tree 0 n (s_pointer (raw n)) k);
    '(n, i) ← (if d_pointer (raw n) =? 0 then ret (n, i) else read_tree 1 n (d_pointer (raw n)) i);
    '(n, i) ← (if t_pointer (raw n) =? 0 then ret (n, i) else read_tree 2 n (t_pointer (raw n)) i);
    ret n.

(** ** Writing block pointers *)

(** The loops that fill a block with numbers of blocks, from number [start] of the inode on. *)
Fixpoint fill_pointers (fuel : nat) (n : inode) (buf : list Z) (i start : Z) : list Z :=
  match fuel with
  | O => buf
  | S fuel => fill_pointers fuel n (put32 buf (4 * i) (get_block_pointer n (start + i))) (i + 1) start
  end.

(** A block of a level: the one that is there, or a new one. *)
Definition ensure_block (b : Z) : eff D Z := if b =? 0 then allocate_block stack_bytes true else ret b.

Definition write_singly (n : inode) (b start : Z) : eff D unit :=
  s ← get_state;
  _ ← fs_write_block b (fill_pointers (Z.to_nat (block_pointers_per_block s)) n (zeroes (_block_size s)) 0 start);
  ret tt.

(** The loop over the blocks of the next level, which [write] fills: from number [cur] of the inode on, as long as there are blocks.  Gives
    whether there was space, the block of pointers, the number of the next block, and the blocks of pointers seen. *)
Fixpoint write_level (write : Z → Z → list Z → eff D (bool * Z * list Z)) (fuel : nat) (n : inode) (buf : list Z) (i cur : Z) (pb : list Z) :
    eff D (bool * list Z * Z * list Z) :=
  match fuel with
  | O => ret (true, buf, cur, pb)
  | S fuel =>
      if zlength (block_pointers n) <=? cur then ret (true, buf, cur, pb)
      else
        b ← ensure_block (get32 buf (4 * i));
        if b =? 0 then ret (false, buf, cur, pb)
        else
          '(ok, cur, pb) ← write b cur pb;
          if negb (ok : bool) then ret (false, buf, cur, pb)
          else write_level write fuel n (put32 buf (4 * i) b) (i + 1) cur pb
  end.

(** The singly, doubly and triply indirect blocks (levels 0, 1 and 2): the block itself is there. *)
Fixpoint write_tree (k : nat) (n : inode) (b cur : Z) (pb : list Z) : eff D (bool * Z * list Z) :=
  s ← get_state;
  match k with
  | O => _ ← write_singly n b cur; ret (true, cur + block_pointers_per_block s, pb ++ [b])
  | S k =>
      r ← fs_read_block b;
      buf ← buffer r;
      '(ok, buf, cur, pb) ← write_level (write_tree k n) (Z.to_nat (block_pointers_per_block s)) n buf 0 cur (pb ++ [b]);
      if negb (ok : bool) then ret (false, cur, pb) else _ ← fs_write_block b buf; ret (true, cur, pb)
  end.

Definition direct_pointers (n : inode) : list Z := foldl (λ r i, put32 r (40 + 4 * i) (get_block_pointer n i)) (raw n) (seqZ 0 12).

(** The three parts of [write_block_pointers]: the tree of level [k] has its root at offset [off] of the inode, and holds the blocks from
    [start] on; [false] is the return with [ENOSPC]. *)
Definition write_part (k : nat) (off start : Z) (n : inode) : eff D (bool * inode) :=
  s ← get_state;
  if start <? num_blocks s n then
    b ← ensure_block (get32 (raw n) off);
    let n := with_raw n (put32 (raw n) off b) in
    if b =? 0 then ret (false, n)
    else '(ok, _, pb) ← write_tree k n b start (pointer_blocks n); ret (ok, with_pointer_blocks n pb)
  else ret (true, with_raw n (put32 (raw n) off 0)).

Definition write_block_pointers (n : inode) : eff D (result unit * inode) :=
  if inline_symlink n then ret (Ok tt, n)
  else
    let n := with_pointer_blocks n [] in
    if is_device (_metadata n) then ret (Ok tt, n)
    else
      let n := with_raw n (direct_pointers n) in
      s ← get_state;
      let N := block_pointers_per_block s in
      '(ok, n) ← write_part 0 88 12 n;
      if negb ok then ret (Err (- ENOSPC), n)
      else
        '(ok, n) ← write_part 1 92 (12 + N) n;
        if negb ok then ret (Err (- ENOSPC), n)
        else
          '(ok, n) ← write_part 2 96 (12 + N + N * N) n;
          if negb ok then ret (Err (- ENOSPC), n)
          else
            let k := u32 ((zlength (block_pointers n) + zlength (pointer_blocks n)) * (_block_size s / 512)) in
            ret (Ok tt, with_dirty (with_raw n (put32 (raw n) 28 k)) true).

(** ** The inode table *)

Definition entry_block (s : ext2 D) (x : group) (n : inode) : Z := u32 (inode_table_block x + block_of s n).
Definition entry_offset (s : ext2 D) (n : inode) : Z := (index_of s n mod inodes_per_block s) * sizeof_raw.

Definition write_inode_entry (n : inode) : eff D inode :=
  let m := _metadata n in
  let r := put16 (put16 (put16 (put32 (raw n) 4 (size m)) 0 (mode m)) 2 (uid m)) 24 (gid m) in
  let n := with_raw n r in
  s ← get_state;
  x ← get_block_group (block_group_of s n);
  match x with
  | None => lift Undef
  | Some x =>
      res ← fs_read_block (entry_block s x n);
      buf ← buffer res;
      _ ← fs_write_block (entry_block s x n) (splice buf (entry_offset s n) r);
      ret (with_dirty n false)
  end.

Definition write_to_disk (n : inode) : eff D (result unit * inode) :=
  '(res, n) ← write_block_pointers n;
  match res with
  | Err e => ret (Err e, n)
  | Ok _ => n ← write_inode_entry n; ret (Ok tt, n)
  end.

(** [Ext2Inode::Ext2Inode] of an inode on the disk. *)
Definition load_inode (i : Z) : eff D inode :=
  s ← get_state;
  let n := mk_inode i [] [] [] (mk_metadata 0 0 0 0 0 0 0) false true in
  x ← get_block_group (block_group_of s n);
  match x with
  | None => lift Undef
  | Some x =>
      res ← fs_read_block (entry_block s x n);
      buf ← buffer res;
      let n := create_metadata (with_raw n (slice (entry_offset s n) sizeof_raw buf)) in
      if is_device (_metadata n) then ret n else read_block_pointers n
  end.

End inode.
