(* ===== verification/Ext2Tree.v ===== *)
(** * ext2: trees of block pointers

    The numbers of an inode's blocks beyond the first twelve are the leaves of three trees of
    blocks of pointers.  [tree] says what a tree holds, [skel] what of it is there before it
    is written.  Reading gives the leaves, and writing makes a tree that holds them. *)

From stdpp Require Import base numbers list list_numbers option gmap sets.
From S2P Require Import Prelude.
From S2P Require Import ByteBuf.
From S2P Require Import FileBlocks.
From S2P Require Import Ext2.
From S2P Require Import Ext2Inv.
From S2P Require Import Ext2Alloc.
From S2P Require Import Ext2Inode.

Local Open Scope Z_scope.

Implicit Types (v buf ps pbs bs : list Z) (b i m : Z) (k : nat).

(** ** Blocks of pointers *)

Definition ptrs_of buf : list Z := (λ i, get32 buf (4 * i)) <$> seqZ 0 256.
Definition ptrs v b : list Z := ptrs_of (blk 1024 v b).

Lemma length_ptrs_of buf : length (ptrs_of buf) = 256%nat.
Proof. unfold ptrs_of. rewrite length_fmap, length_seqZ. done. Qed.

Lemma lookup_ptrs_of buf (j : nat) : (j < 256)%nat → ptrs_of buf !! j = Some (get32 buf (4 * Z.of_nat j)).
Proof. intros Hj. unfold ptrs_of. rewrite list_lookup_fmap, lookup_seqZ_lt by lia. cbn. do 2 f_equal. Qed.

Lemma ptrs_of_eq buf (l : list Z) : length l = 256%nat → (∀ j : nat, (j < 256)%nat → l !! j = Some (get32 buf (4 * Z.of_nat j))) → ptrs_of buf = l.
Proof.
  intros Hl Hj. apply list_eq. intros j. destruct (decide (j < 256)%nat) as [Hlt|]; [by rewrite lookup_ptrs_of, Hj|].
  rewrite !lookup_ge_None_2; rewrite ?length_ptrs_of; (done || lia).
Qed.

Lemma ptrs_of_put buf i x : zlength buf = 1024 → 0 ≤ i < 256 → ptrs_of (put32 buf (4 * i) x) = <[Z.to_nat i := u32 x]> (ptrs_of buf).
Proof.
  intros Hl Hi. apply ptrs_of_eq; [by rewrite length_insert, length_ptrs_of|]. intros j Hj. destruct (decide (j = Z.to_nat i)) as [->|Hne].
  - rewrite list_lookup_insert_eq by (rewrite length_ptrs_of; lia). rewrite Z2Nat.id by lia. by rewrite get32_put32 by lia.
  - rewrite list_lookup_insert_ne by done. rewrite lookup_ptrs_of by done. by rewrite get32_put32_other by lia.
Qed.

Lemma ptrs_of_zeroes : ptrs_of (zeroes 1024) = replicate 256 0.
Proof. apply ptrs_of_eq; [by rewrite length_replicate|]. intros j Hj. rewrite lookup_replicate_2 by done. by rewrite get32_zeroes by lia. Qed.

Lemma fill_pointers_spec fuel n : ∀ buf i start, zlength buf = 1024 → bytes buf → 0 ≤ i → i + Z.of_nat fuel ≤ 256 →
  zlength (fill_pointers fuel n buf i start) = 1024 ∧ bytes (fill_pointers fuel n buf i start) ∧
  ∀ j : nat, (j < 256)%nat → get32 (fill_pointers fuel n buf i start) (4 * Z.of_nat j) =
    if decide (i ≤ Z.of_nat j < i + Z.of_nat fuel) then u32 (get_block_pointer n (start + Z.of_nat j)) else get32 buf (4 * Z.of_nat j).
Proof.
  induction fuel as [|fuel IH]; intros buf i start Hl Hb Hi Hf; cbn [fill_pointers]; [split_and!; try done; intros j Hj; by rewrite decide_False by lia|].
  set (buf1 := put32 buf (4 * i) (get_block_pointer n (start + i))). assert (zlength buf1 = 1024) as Hl1 by (unfold buf1; rewrite length_put32; lia).
  destruct (IH buf1 (i + 1) start Hl1) as (Hl2&Hb2&Hg); [by apply bytes_put32|lia..|]. split_and!; try done. intros j Hj. rewrite Hg by done.
  destruct (decide (Z.of_nat j = i)) as [<-|Hne].
  - rewrite decide_False, decide_True by lia. unfold buf1. by rewrite get32_put32 by lia.
  - destruct (decide (i ≤ Z.of_nat j < i + Z.of_nat (S fuel))); [by rewrite decide_True by lia|]. rewrite decide_False by lia. unfold buf1. by rewrite get32_put32_other by lia.
Qed.

Lemma push_pointers_spec fuel : ∀ buf i idx limit acc, 0 ≤ i → i + Z.of_nat fuel ≤ 256 → idx ≤ limit →
  push_pointers fuel buf i idx limit acc =
    (acc ++ take (Z.to_nat (Z.min (Z.of_nat fuel) (limit - idx))) (drop (Z.to_nat i) (ptrs_of buf)), idx + Z.min (Z.of_nat fuel) (limit - idx)).
Proof.
  induction fuel as [|fuel IH]; intros buf i idx limit acc Hi Hf Hlim; cbn [push_pointers].
  { rewrite Z.min_l by lia. cbn. by rewrite take_0, app_nil_r, Z.add_0_r. }
  destruct (Z.ltb_spec idx limit).
  - rewrite IH by lia. assert (drop (Z.to_nat i) (ptrs_of buf) = get32 buf (4 * i) :: drop (Z.to_nat (i + 1)) (ptrs_of buf)) as Ed.
    { rewrite Z2Nat.inj_add by lia. rewrite Nat.add_1_r. apply drop_S. rewrite lookup_ptrs_of by lia. by rewrite Z2Nat.id. }
    rewrite Ed. replace (Z.to_nat (Z.min (Z.of_nat (S fuel)) (limit - idx))) with (S (Z.to_nat (Z.min (Z.of_nat fuel) (limit - (idx + 1))))) by lia.
    cbn [take]. rewrite <-app_assoc. cbn [app]. f_equal. lia.
  - replace (Z.min (Z.of_nat (S fuel)) (limit - idx)) with 0 by lia. cbn. by rewrite take_0, app_nil_r, Z.add_0_r.
Qed.

(** ** Trees *)

(** The number of leaves of a full tree of a level. *)
Fixpoint cap k : Z := match k with O => 256 | S k => 256 * cap k end.

Lemma cap_pos k : 256 ≤ cap k.
Proof. induction k as [|k IH]; cbn; lia. Qed.

(** A row of trees [bs], of which all but the last are full, with the leaves [ps] and the blocks [pbs]. *)
Inductive forest (T : Z → list Z → list Z → Prop) (c : Z) : list Z → list Z → list Z → Prop :=
  | forest_nil : forest T c [] [] []
  | forest_cons b ps pbs bs ps' pbs' : T b ps pbs → (bs = [] ∨ zlength ps = c) → forest T c bs ps' pbs' → forest T c (b :: bs) (ps ++ ps') (pbs ++ pbs').

(** The root is [b]; the unused pointers of a block of trees are 0. *)
Fixpoint tree v k b ps pbs : Prop :=
  b ≠ 0 ∧
  match k with
  | O => pbs = [b] ∧ 0 < zlength ps ≤ 256 ∧ ps `prefix_of` ptrs v b
  | S k => ∃ bs pbs', pbs = b :: pbs' ∧ bs ≠ [] ∧ (length bs ≤ 256)%nat ∧ ptrs v b = bs ++ replicate (256 - length bs) 0 ∧ forest (tree v k) (cap k) bs ps pbs'
  end.

(** The blocks of a tree for [m] leaves, whatever the leaves are. *)
Inductive sforest (T : Z → Z → list Z → Prop) (c : Z) : list Z → Z → list Z → Prop :=
  | sforest_nil : sforest T c [] 0 []
  | sforest_cons b m pbs bs m' pbs' : T b m pbs → 0 < m ≤ c → (bs = [] ∨ m = c) → sforest T c bs m' pbs' → sforest T c (b :: bs) (m + m') (pbs ++ pbs').

Fixpoint skel v k b m pbs : Prop :=
  b ≠ 0 ∧
  match k with
  | O => pbs = [b] ∧ 0 ≤ m ≤ 256
  | S k => ∃ bs pbs', pbs = b :: pbs' ∧ (length bs ≤ 256)%nat ∧ ptrs v b = bs ++ replicate (256 - length bs) 0 ∧ sforest (skel v k) (cap k) bs m pbs'
  end.

Lemma skel_root v k b m pbs : skel v k b m pbs → b ∈ pbs.
Proof. destruct k; [intros (?&->&_)|intros (?&bs&pbs'&->&_)]; by left. Qed.

Lemma tree_root v k b ps pbs : tree v k b ps pbs → b ≠ 0 ∧ b ∈ pbs.
Proof. destruct k; [intros (?&->&_)|intros (?&bs&pbs'&->&_)]; (split; [done|by left]). Qed.

Lemma forest_bound (T : Z → list Z → list Z → Prop) c bs ps pbs : (∀ b ps pbs, T b ps pbs → 0 < zlength ps ≤ c) → forest T c bs ps pbs →
  (zlength bs - 1) * c < zlength ps ≤ zlength bs * c ∨ (bs = [] ∧ ps = []).
Proof.
  intros HT. induction 1 as [|b ps pbs bs ps' pbs' Ht Hfull Hf IH]; [by right|]. left. destruct (HT _ _ _ Ht). rewrite length_app. cbn [length].
  destruct IH as [IH|[-> ->]]; [|cbn; lia]. destruct Hfull as [->|Hc]; [inversion Hf; subst; cbn in *; lia|]. nia.
Qed.

Lemma forest_empty (T : Z → list Z → list Z → Prop) c bs pbs : (∀ b ps pbs, T b ps pbs → 0 < zlength ps ≤ c) → forest T c bs [] pbs → bs = [] ∧ pbs = [].
Proof. intros HT. inversion 1 as [|b ps1 pbs1 bs1 ps' pbs' Ht Hfull Hf E1 E]; [done|]. apply app_eq_nil in E as [-> ->]. apply HT in Ht. cbn in Ht. lia. Qed.

Lemma tree_bound v k : ∀ b ps pbs, tree v k b ps pbs → 0 < zlength ps ≤ cap k.
Proof.
  induction k as [|k IH]; intros b ps pbs; [by intros (_&_&?&_)|]. intros (_&bs&pbs'&->&Hne&Hlen&_&Hf). pose proof (cap_pos k). cbn [cap].
  destruct (forest_bound _ _ _ _ _ IH Hf) as [Hb|[-> _]]; [|done]. destruct bs; [done|]. cbn [length] in *. nia.
Qed.

Lemma forest_mono (T T' : Z → list Z → list Z → Prop) c bs ps pbs : forest T c bs ps pbs → (∀ b ps pbs1, (∀ x, x ∈ pbs1 → x ∈ pbs) → T b ps pbs1 → T' b ps pbs1) → forest T' c bs ps pbs.
Proof.
  induction 1 as [|b ps pbs bs ps' pbs' Ht Hfull Hf IH]; intros HT; constructor; [|done|].
  - apply HT; [|done]. intros x Hx. apply elem_of_app. by left.
  - apply IH. intros b1 ps1 pbs1 Hin. apply HT. intros x Hx. apply elem_of_app. right. by apply Hin.
Qed.

(** A tree depends on its own blocks. *)
Lemma tree_ext v v' k : ∀ b ps pbs, tree v k b ps pbs → (∀ x, x ∈ pbs → blk 1024 v' x = blk 1024 v x) → tree v' k b ps pbs.
Proof.
  induction k as [|k IH]; intros b ps pbs.
  - intros (?&->&?&?) Heq. split; [done|]. unfold ptrs. rewrite Heq by (by left). done.
  - intros (?&bs&pbs'&->&?&?&Hp&Hf) Heq. split; [done|]. exists bs, pbs'. unfold ptrs in *. rewrite Heq by (by left). split_and!; try done.
    apply (forest_mono _ _ _ _ _ _ Hf). intros b1 ps1 pbs1 Hin Ht. apply (IH _ _ _ Ht). intros x Hx. apply Heq. right. by apply Hin.
Qed.

Lemma sforest_mono (T T' : Z → Z → list Z → Prop) c bs m pbs : sforest T c bs m pbs → (∀ b m pbs1, (∀ x, x ∈ pbs1 → x ∈ pbs) → T b m pbs1 → T' b m pbs1) → sforest T' c bs m pbs.
Proof.
  induction 1 as [|b m pbs bs m' pbs' Ht Hm Hfull Hf IH]; intros HT; constructor; try done.
  - apply HT; [|done]. intros x Hx. apply elem_of_app. by left.
  - apply IH. intros b1 m1 pbs1 Hin. apply HT. intros x Hx. apply elem_of_app. right. by apply Hin.
Qed.

Lemma skel_ext v v' k : ∀ b m pbs, skel v k b m pbs → (∀ x, x ∈ pbs → blk 1024 v' x = blk 1024 v x) → skel v' k b m pbs.
Proof.
  induction k as [|k IH]; intros b m pbs; [done|].
  intros (?&bs&pbs'&->&?&Hp&Hf) Heq. split; [done|]. exists bs, pbs'. unfold ptrs in *. rewrite Heq by (by left). split_and!; try done.
  apply (sforest_mono _ _ _ _ _ _ Hf). intros b1 ps1 pbs1 Hin Ht. apply (IH _ _ _ Ht). intros x Hx. apply Heq. right. by apply Hin.
Qed.

Lemma tree_skel v k : ∀ b ps pbs, tree v k b ps pbs → skel v k b (zlength ps) pbs.
Proof.
  induction k as [|k IH]; intros b ps pbs; [intros (?&->&?&_); split_and!; (done || lia)|]. intros (?&bs&pbs'&->&_&?&Hp&Hf). split; [done|]. exists bs, pbs'. split_and!; try done.
  clear Hp. revert Hf. generalize dependent bs. induction 2 as [|c ps pbs bs ps' pbs' Ht Hfull Hf IHf]; [constructor|]. rewrite length_app, Nat2Z.inj_add.
  constructor; [by apply IH|by apply (tree_bound v k c ps pbs)|done|]. apply IHf. cbn in *. lia.
Qed.

(** A new block is a tree without leaves. *)
Lemma skel_fresh v k b : b ≠ 0 → blk 1024 v b = zeroes 1024 → skel v k b 0 [b].
Proof.
  intros Hb Hz. destruct k; cbn; split_and!; try done. exists [], []. split_and!; [done|cbn; lia| |constructor]. unfold ptrs. rewrite Hz. apply ptrs_of_zeroes.
Qed.

(** ** Reading *)

Section read.
Context {D : Type} `{ByteFileSpec D}.
Implicit Types (s : ext2 D) (n : inode).
Context (L : layout).

Lemma stored_trans s L0 v1 s1 v2 s2 : stored s L0 v1 s1 → stored s1 L0 v2 s2 → stored s L0 v2 s2.
Proof. intros [[d1 ->] _] [[d2 ->] Hb]. split; [by exists d2|done]. Qed.

Lemma stored_refl s v : fs_base s v L → stored s L v s.
Proof. intros Hs. split; [|done]. exists (dev s). by destruct s. Qed.

Lemma stored_num_blocks s v s' n : stored s L v s' → num_blocks s' n = num_blocks s n.
Proof. by intros [[d ->] _]. Qed.

(** What reading a tree adds to the inode. *)
Definition with_tree n ps pbs : inode := with_pointers (with_pointer_blocks n (pointer_blocks n ++ pbs)) (block_pointers n ++ ps).

Lemma with_tree_app n ps pbs ps' pbs' : with_tree (with_tree n ps pbs) ps' pbs' = with_tree n (ps ++ ps') (pbs ++ pbs').
Proof. unfold with_tree. cbn. by rewrite !app_assoc. Qed.

Lemma with_tree_nil n : with_tree n [] [] = n.
Proof. unfold with_tree. rewrite !app_nil_r. by destruct n. Qed.

Definition read_ok (read : inode → Z → Z → eff D (inode * Z)) v k : Prop := ∀ s n b i ps pbs,
  fs_base s v L → tree v k b ps pbs → (∀ x, x ∈ pbs → 0 ≤ x < l_total L) → zlength ps = Z.min (cap k) (num_blocks s n - i) →
  run (read n b i) s (λ r s', r = (with_tree n ps pbs, i + zlength ps) ∧ stored s L v s').

Lemma read_level_run read v k : read_ok read v k → ∀ fuel bs s n buf i j ps pbs,
  fs_base s v L → forest (tree v k) (cap k) bs ps pbs → (∀ x, x ∈ pbs → 0 ≤ x < l_total L) →
  0 ≤ i → (Z.to_nat i + fuel = 256)%nat → drop (Z.to_nat i) (ptrs_of buf) = bs ++ replicate (fuel - length bs) 0 → (length bs ≤ fuel)%nat →
  zlength ps = Z.min (Z.of_nat fuel * cap k) (num_blocks s n - j) →
  run (read_level read fuel n buf i j) s (λ r s', r = (with_tree n ps pbs, j + zlength ps) ∧ stored s L v s').
Proof.
  intros Hread. pose proof (cap_pos k) as Hcap. induction fuel as [|fuel IH]; intros bs s n buf i j ps pbs Hs Hf Hin Hi Hfuel Hbuf Hlen Hps; cbn [read_level]; wp.
  { destruct bs; [|cbn in Hlen; lia]. inversion Hf; subst. rewrite with_tree_nil, Z.add_0_r. by split; [|apply stored_refl]. }
  destruct (Z.ltb_spec j (num_blocks s n)) as [Hj|Hj]; wp.
  - destruct Hf as [|c ps1 pbs1 bs ps' pbs' Ht Hfull Hf]; [cbn in Hps; nia|]. cbn [length] in Hlen. pose proof (tree_bound v k _ _ _ Ht) as Hb1.
    rewrite length_app, Nat2Z.inj_add in Hps.
    assert (zlength ps1 = Z.min (cap k) (num_blocks s n - j) ∧ zlength ps' = Z.min (Z.of_nat fuel * cap k) (num_blocks s n - (j + zlength ps1))) as [Hp1 Hp'].
    { destruct Hfull as [->|Hc]; [inversion Hf; subst; cbn [length] in *|]; nia. }
    assert (get32 buf (4 * i) = c ∧ drop (Z.to_nat (i + 1)) (ptrs_of buf) = bs ++ replicate (fuel - length bs) 0) as [-> Hd].
    { pose proof (f_equal (λ l, l !! 0%nat) Hbuf) as E0. cbn in E0. rewrite lookup_drop, Nat.add_0_r, lookup_ptrs_of, Z2Nat.id in E0 by lia. split; [congruence|].
      apply (f_equal (drop 1)) in Hbuf. rewrite drop_drop in Hbuf. by replace (Z.to_nat (i + 1)) with (Z.to_nat i + 1)%nat by lia. }
    wp_apply (Hread s n c j ps1 pbs1); [done|done|intros; apply Hin, elem_of_app; by left|done|]. intros r s1 (->&Hst). cbn [fst snd].
    wp_apply (IH bs s1 _ buf (i + 1) _ ps' pbs'); [apply Hst|done|intros; apply Hin, elem_of_app; by right|lia|lia|done|lia| |].
    + by rewrite (stored_num_blocks s v).
    + intros r s2 (->&Hst2). rewrite with_tree_app. split; [|by apply (stored_trans s L v s1)]. f_equal. rewrite length_app. lia.
  - assert (ps = []) as -> by (destruct ps; [done|cbn in Hps; nia]). destruct (forest_empty _ _ _ _ (tree_bound v k) Hf) as [-> ->].
    rewrite with_tree_nil, Z.add_0_r. by split; [|apply stored_refl].
Qed.

(** Reading a tree gives its leaves and its blocks. *)
Lemma read_tree_run v k : read_ok (read_tree k) v k.
Proof.
  induction k as [|k IH]; intros s n b i ps pbs Hs Ht Hin Hps; pose proof (tree_bound v _ _ _ _ Ht) as Hb; destruct (tree_root _ _ _ _ _ Ht) as [Hb0 Hroot];
    cbn [read_tree]; unfold read_singly_indirect; wp; rewrite (proj2 (Z.eqb_neq b 0) Hb0); (destruct (Z.leb_spec (num_blocks s n) i); [lia|]); cbn [orb]; wp;
    (wp_apply (fs_read_block_run s v L b); [done|by apply Hin|]); intros ? s1 (->&Hst); wp; rewrite (fb_bppb _ _ _ Hs).
  - destruct Ht as (_&->&_&[rest Hpre]). rewrite push_pointers_spec by lia. wp. cbn [cap] in *. rewrite Z2Nat.id by lia. rewrite <-Hps. split; [|done]. unfold with_tree. cbn [Z.to_nat]. rewrite drop_0.
    change (ptrs_of (blk 1024 v b)) with (ptrs v b). rewrite Hpre, Nat2Z.id, take_app_length. done.
  - destruct Ht as (_&bs&pbs'&->&Hne&Hlen&Hp&Hf).
    wp_apply (read_level_run _ v k IH 256 bs s1 _ (blk 1024 v b) 0 i ps pbs'); [apply Hst|done|intros; apply Hin; by right|done|done|done|done| |].
    + rewrite (stored_num_blocks s v) by done. cbn [cap] in Hps. done.
    + intros r s2 (->&Hst2). split; [|by apply (stored_trans s L v s1)]. f_equal. unfold with_tree. cbn. by rewrite <-app_assoc.
Qed.
End read.

(** ** The number of blocks of a tree *)

Definition cdiv (m c : Z) : Z := (m + c - 1) / c.

(** The blocks of pointers in a row of trees of level [k] with [m] leaves. *)
Fixpoint nodes k m : Z := match k with O => cdiv m 256 | S k => cdiv m (cap (S k)) + nodes k m end.

Lemma cdiv_add q m c : 0 < c → cdiv (q * c + m) c = q + cdiv m c.
Proof. intros Hc. unfold cdiv. replace (q * c + m + c - 1) with (m + c - 1 + q * c) by lia. rewrite Z.div_add by lia. lia. Qed.

Lemma cdiv_one m c : 0 < m ≤ c → cdiv m c = 1.
Proof. intros Hm. unfold cdiv. symmetry. apply (Z.div_unique_pos _ _ _ (m - 1)); lia. Qed.

Lemma cdiv_mono m m' c : 0 < c → m ≤ m' → cdiv m c ≤ cdiv m' c.
Proof. intros. apply Z.div_le_mono; lia. Qed.

Lemma cdiv_zero c : 0 < c → cdiv 0 c = 0.
Proof. intros. apply Z.div_small. lia. Qed.

Lemma cap_div k : ∀ j, (j ≤ k)%nat → ∃ q, cap k = q * cap j.
Proof. induction k as [|k IH]; intros j Hj; [exists 1; replace j with 0%nat by lia; done|]. destruct (decide (j = S k)) as [->|]; [exists 1; lia|]. destruct (IH j) as [q Hq]; [lia|]. exists (256 * q). cbn [cap]. lia. Qed.

Lemma nodes_add k : ∀ j q m, (j ≤ k)%nat → nodes j (q * cap k + m) = nodes j (q * cap k) + nodes j m.
Proof.
  assert (∀ j q m, (j ≤ k)%nat → cdiv (q * cap k + m) (cap j) = cdiv (q * cap k) (cap j) + cdiv m (cap j)) as Hc.
  { intros j q m Hj. pose proof (cap_pos j). destruct (cap_div k j Hj) as [p ->]. rewrite !Z.mul_assoc. rewrite cdiv_add by lia.
    rewrite <-(Z.add_0_r (q * p * cap j)). rewrite cdiv_add, cdiv_zero by lia. lia. }
  induction j as [|j IH]; intros q m Hj; cbn [nodes]; [by apply (Hc 0%nat)|]. rewrite (Hc (S j)), IH by lia. lia.
Qed.

Lemma nodes_split k m : cap k ≤ m → nodes k m = nodes k (cap k) + nodes k (m - cap k).
Proof. intros. replace m with (1 * cap k + (m - cap k)) at 1 by lia. rewrite nodes_add by lia. by rewrite Z.mul_1_l. Qed.

Lemma nodes_zero k : nodes k 0 = 0.
Proof. induction k as [|k IH]; cbn [nodes]; [done|]. pose proof (cap_pos (S k)). rewrite cdiv_zero, IH by lia. done. Qed.

Lemma nodes_mono k m m' : m ≤ m' → nodes k m ≤ nodes k m'.
Proof. intros Hm. induction k as [|k IH]; cbn [nodes]; [by apply cdiv_mono|]. pose proof (cap_pos (S k)). pose proof (cdiv_mono m m' (cap (S k)) ltac:(lia) Hm). lia. Qed.

Lemma nodes_pos k m : 0 < m → 1 ≤ nodes k m.
Proof.
  intros Hm. induction k as [|k IH]; cbn [nodes]; [rewrite <-(cdiv_one 1 256) by lia; apply cdiv_mono; lia|].
  pose proof (cap_pos (S k)). pose proof (cdiv_mono 0 m (cap (S k)) ltac:(lia) ltac:(lia)) as Hc. rewrite cdiv_zero in Hc; lia.
Qed.

Lemma nodes_root k m : 0 < m ≤ cap (S k) → nodes (S k) m = 1 + nodes k m.
Proof. intros Hm. cbn [nodes]. by rewrite cdiv_one. Qed.

Lemma sforest_size (T : Z → Z → list Z → Prop) k bs m pbs : (∀ b m pbs, T b m pbs → 0 < m → zlength pbs = nodes k m) → sforest T (cap k) bs m pbs → 0 ≤ m ∧ zlength pbs = nodes k m.
Proof.
  intros HT. induction 1 as [|b m pbs bs m' pbs' Ht Hm Hfull Hf [IH0 IH]]; [by rewrite nodes_zero|]. split; [lia|]. rewrite length_app, Nat2Z.inj_add, IH, (HT b m) by (done || lia).
  destruct Hfull as [->| ->]; [inversion Hf; subst; rewrite nodes_zero, !Z.add_0_r; done|]. symmetry. rewrite nodes_split by lia. f_equal. f_equal. lia.
Qed.

Lemma sforest_bound (T : Z → Z → list Z → Prop) c bs m pbs : sforest T c bs m pbs → 0 ≤ m ≤ zlength bs * c.
Proof. induction 1; cbn [length]; nia. Qed.

Lemma skel_size v k : ∀ b m pbs, skel v k b m pbs → 0 < m → zlength pbs = nodes k m.
Proof.
  induction k as [|k IH]; intros b m pbs; [intros (_&->&?) ?; cbn [nodes]; by rewrite cdiv_one by lia|]. intros (_&bs&pbs'&->&Hlen&_&Hf) Hm.
  pose proof (sforest_bound _ _ _ _ _ Hf). pose proof (cap_pos k). destruct (sforest_size _ k _ _ _ IH Hf) as [_ Hl]. rewrite nodes_root by (cbn [cap]; nia). cbn [length]. lia.
Qed.

(** Fewer leaves in the same blocks. *)
Lemma sforest_shrink (T : Z → Z → list Z → Prop) k bs m pbs : (∀ b m pbs m', T b m pbs → 0 < m' ≤ m → nodes k m' = nodes k m → T b m' pbs) → sforest T (cap k) bs m pbs →
  ∀ m', 0 < m' ≤ m → nodes k m' = nodes k m → sforest T (cap k) bs m' pbs.
Proof.
  intros HT Hf. induction Hf as [|b m pbs bs mr pbs' Ht Hm Hfull Hf IH]; intros m' Hm' Hn; [lia|]. destruct (decide (bs = [])) as [->|Hne].
  - inversion Hf; subst. rewrite Z.add_0_r in *. rewrite <-(Z.add_0_r m'). constructor; [by apply (HT b m)|lia|by left|constructor].
  - destruct Hfull as [->| ->]; [done|]. assert (0 < mr) as Hmr by (destruct Hf as [|? ? ? ? ? ? _ ? _ Hf]; [done|]; pose proof (sforest_bound _ _ _ _ _ Hf); lia).
    rewrite (nodes_split k (cap k + mr)) in Hn by lia. replace (cap k + mr - cap k) with mr in Hn by lia. destruct (decide (m' ≤ cap k)).
    + pose proof (nodes_mono k m' (cap k) ltac:(lia)). pose proof (nodes_pos k mr Hmr). lia.
    + rewrite (nodes_split k m') in Hn by lia. replace m' with (cap k + (m' - cap k)) by lia. pose proof (cap_pos k). constructor; [done|lia|by right|]. apply IH; lia.
Qed.

Lemma skel_shrink v k : ∀ b m pbs m', skel v k b m pbs → 0 < m' ≤ m → nodes k m' = nodes k m → skel v k b m' pbs.
Proof.
  induction k as [|k IH]; intros b m pbs m' Hsk Hm Hn; [destruct Hsk as (?&->&?); cbn; split_and!; (done || lia)|]. destruct Hsk as (Hb&bs&pbs'&->&Hlen&Hp&Hf). split; [done|]. exists bs, pbs'. split_and!; try done.
  pose proof (sforest_bound _ _ _ _ _ Hf). pose proof (cap_pos k). apply (sforest_shrink _ k bs m); [by apply IH|done|done|]. rewrite !nodes_root in Hn by (cbn [cap]; nia). lia.
Qed.

Lemma tree_size v k b ps pbs : tree v k b ps pbs → zlength pbs = nodes k (zlength ps).
Proof. intros Ht. apply (skel_size v k b); [by apply tree_skel|by apply (tree_bound v k b ps pbs)]. Qed.

(** ** Writing *)

(** The leaves of the tree of level [k] from number [cur] of the inode on. *)
Definition chunk (n : inode) (c cur : Z) : list Z := take (Z.to_nat c) (drop (Z.to_nat cur) (block_pointers n)).

Lemma length_chunk (n : inode) c cur : 0 ≤ c → 0 ≤ cur ≤ zlength (block_pointers n) → zlength (chunk n c cur) = Z.min c (zlength (block_pointers n) - cur).
Proof. intros. unfold chunk. rewrite length_take, length_drop. lia. Qed.

Lemma chunk_split (n : inode) c c' cur : 0 ≤ c → 0 ≤ c' → 0 ≤ cur → chunk n (c + c') cur = chunk n c cur ++ chunk n c' (cur + c).
Proof.
  intros. unfold chunk. rewrite !Z2Nat.inj_add by lia. rewrite <-drop_drop. set (l := drop (Z.to_nat cur) _). rewrite <-(take_drop (Z.to_nat c) l) at 1.
  rewrite take_app. rewrite length_take. f_equal.
  - rewrite take_take. f_equal. lia.
  - destruct (decide (Z.to_nat c ≤ length l)%nat); [f_equal; lia|]. rewrite (drop_ge l) by lia. by rewrite !take_nil.
Qed.

Lemma chunk_end (n : inode) c cur cur' : Z.min cur (zlength (block_pointers n)) = Z.min cur' (zlength (block_pointers n)) → chunk n c cur = chunk n c cur'.
Proof. intros. unfold chunk. destruct (decide (cur < zlength (block_pointers n))); [by replace cur' with cur by lia|]. by rewrite !drop_ge by lia. Qed.

Lemma sforest_empty (T : Z → Z → list Z → Prop) c bs m pbs : sforest T c bs m pbs → m ≤ 0 → bs = [] ∧ pbs = [].
Proof. intros Hf Hm. destruct Hf as [|b m pbs bs m' pbs' _ ? _ Hf]; [done|]. pose proof (sforest_bound _ _ _ _ _ Hf). lia. Qed.

Lemma ptrs_drop buf (i : nat) bs (fuel : nat) : drop i (ptrs_of buf) = bs ++ replicate (S fuel - length bs) 0 → (length bs ≤ S fuel)%nat → drop (S i) (ptrs_of buf) = tail bs ++ replicate (fuel - length (tail bs)) 0.
Proof. intros E Hl. apply (f_equal tail) in E. change tail with (drop (A:=Z) 1) in E at 1. rewrite drop_drop, Nat.add_1_r in E. rewrite E. destruct bs; cbn; by rewrite ?Nat.sub_0_r. Qed.

Lemma prefix_lookups (l l' : list Z) : (∀ (i : nat) x, l !! i = Some x → l' !! i = Some x) → l `prefix_of` l'.
Proof.
  revert l'. induction l as [|x l IH]; intros l' Hl; [apply prefix_nil|]. pose proof (Hl 0%nat x eq_refl) as H0'. destruct l' as [|y l']; [done|]. injection H0' as ->.
  apply prefix_cons, IH. intros i z Hz. by apply (Hl (S i)).
Qed.

(** The pointers of a block of level 0. *)
Lemma write_singly_pointers (n : inode) cur : 0 ≤ cur < zlength (block_pointers n) → Forall (λ x, 0 ≤ x < 2 ^ 32) (block_pointers n) →
  chunk n 256 cur `prefix_of` ptrs_of (fill_pointers 256 n (zeroes 1024) 0 cur).
Proof.
  intros Hcur Hbp. destruct (fill_pointers_spec 256 n (zeroes 1024) 0 cur) as (_&_&Hg); [by apply length_zeroes|apply bytes_zeroes|lia..|].
  pose proof (length_chunk n 256 cur ltac:(lia) ltac:(lia)) as Hl. apply prefix_lookups. intros i x Hx. assert (Z.of_nat i < Z.min 256 (zlength (block_pointers n) - cur)) as Hi by (apply lookup_lt_Some in Hx; lia).
  rewrite lookup_ptrs_of, Hg, decide_True by lia. unfold chunk in Hx. apply lookup_take_Some in Hx as [Hx _]. rewrite lookup_drop in Hx.
  unfold get_block_pointer. rewrite (proj2 (Z.leb_gt _ _)) by lia. replace (Z.to_nat (cur + Z.of_nat i)) with (Z.to_nat cur + i)%nat by lia.
  rewrite (list_lookup_total_correct _ _ _ Hx). f_equal. apply u32_id. rewrite Forall_lookup in Hbp. by apply (Hbp _ _ Hx).
Qed.

(** The leaves of the next tree, and those of the trees after it. *)
Lemma level_space v k (n : inode) (fuel : nat) cur bs m m1 pbs2 : 0 ≤ cur < zlength (block_pointers n) → sforest (skel v k) (cap k) bs (m - m1) pbs2 → 0 ≤ m1 ≤ cap k → (bs ≠ [] → m1 = cap k) →
  m ≤ zlength (chunk n (Z.of_nat (S fuel) * cap k) cur) →
  chunk n (Z.of_nat (S fuel) * cap k) cur = chunk n (cap k) cur ++ chunk n (Z.of_nat fuel * cap k) (cur + cap k) ∧ m1 ≤ zlength (chunk n (cap k) cur) ∧
  m - m1 ≤ zlength (chunk n (Z.of_nat fuel * cap k) (cur + cap k)) ∧ zlength pbs2 ≤ nodes k (zlength (chunk n (Z.of_nat fuel * cap k) (cur + cap k))) ∧
  nodes k (zlength (chunk n (Z.of_nat (S fuel) * cap k) cur)) = nodes k (zlength (chunk n (cap k) cur)) + nodes k (zlength (chunk n (Z.of_nat fuel * cap k) (cur + cap k))) ∧
  (chunk n (Z.of_nat fuel * cap k) (cur + cap k) = [] ∨ zlength (chunk n (cap k) cur) = cap k).
Proof.
  intros Hcur Hf Hm1 Hfull Hm. pose proof (cap_pos k) as Hcap. replace (Z.of_nat (S fuel) * cap k) with (cap k + Z.of_nat fuel * cap k) in * by lia. rewrite chunk_split in * by lia.
  rewrite length_app, Nat2Z.inj_add in *. pose proof (length_chunk n (cap k) cur ltac:(lia) ltac:(lia)) as HA. set (B := chunk n (Z.of_nat fuel * cap k) (cur + cap k)) in *.
  assert (B = [] ∨ zlength (chunk n (cap k) cur) = cap k) as HB.
  { destruct (decide (cur + cap k < zlength (block_pointers n))); [right; lia|]. left. unfold B, chunk. by rewrite drop_ge, take_nil by lia. }
  assert (m - m1 ≤ zlength B) as HmB. { destruct (decide (bs = [])) as [->|Hne]; [inversion Hf; lia|]. rewrite (Hfull Hne) in *. lia. }
  destruct (sforest_size _ k _ _ _ (skel_size v k) Hf) as [Hm0 ->]. split_and!; [done| |done|by apply nodes_mono| |done].
  - destruct HB as [->|HB]; [cbn in Hm|]; lia.
  - destruct HB as [->|HB]; [by rewrite nodes_zero, !Z.add_0_r|]. rewrite HB. rewrite nodes_split by lia. do 2 f_equal. lia.
Qed.

Section write.
Context {D : Type} `{ByteFileSpec D}.
Context (L : layout) (HL : layout_ok L).
Implicit Types (s : ext2 D) (n : inode) (U : gset Z).

(** A block in use that is not one of the filesystem's own. *)
Definition data_block U x : Prop := x ∈ U ∧ x ∈ all_blocks L ∧ (x ∉ meta L) ∧ x < l_total L.

Lemma data_block_range U x : data_block U x → 2 + dtb L ≤ x < l_total L.
Proof.
  intros (_&Hall&Hm&Ht). split; [|done]. destruct (decide (x < 2 + dtb L)); [|lia]. exfalso. apply Hm, table_meta. apply elem_of_seqZ in Hall. lia.
Qed.

Lemma data_block_fixed U x : data_block U x → ¬ volatile L x.
Proof. intros (_&_&Hm&_) Hv. by apply Hm, volatile_meta. Qed.

Lemma data_block_sub U U' x : U ⊆ U' → data_block U x → data_block U' x.
Proof. intros HU (Hx&Hr). split; [by apply HU|done]. Qed.

Lemma fresh_data_block s v U x U' : fs_inv s v L U → x ∈ all_blocks L → x ∉ U → x ∈ U' → data_block U' x.
Proof. intros Hi Hx HU Hin. split_and!; [done|done|intros Hm; by apply HU, (fi_meta _ _ _ _ Hi)|by apply (fi_free _ _ _ _ Hi)]. Qed.

(** Writing a block of a file, or of an inode table, does not touch what the allocator relies on. *)
Lemma inv_write s v U b l s' : fs_inv s v L U → 2 + dtb L ≤ b < l_total L → ¬ volatile L b → zlength l = 1024 → stored s L (splice v (b * 1024) l) s' → fs_inv s' (splice v (b * 1024) l) L U.
Proof.
  intros Hi Hb Hv Hl [[d ->] Hs']. pose proof (fb_len _ _ _ (fi_base _ _ _ _ Hi)) as Hlen. pose proof (dtb_pos L HL) as Hdt.
  assert (∀ g, 0 ≤ g < ng L → gdesc (splice v (b * 1024) l) g = gdesc v g) as Hg.
  { intros g Hg. assert (32 * ng L ≤ 1024 * dtb L). { unfold dtb. pose proof (Z.div_mod (ng L * 32 + 1023) 1024 ltac:(lia)). pose proof (Z.mod_pos_bound (ng L * 32 + 1023) 1024 ltac:(lia)). lia. }
    apply gdesc_other; lia. }
  assert (∀ g, 0 ≤ g < ng L → blk 1024 (splice v (b * 1024) l) (bb L g) = blk 1024 v (bb L g)) as Hbb.
  { intros g Hg'. pose proof (lo_range L HL (bb L g) (bb_meta L g Hg')). assert (b ≠ bb L g) by (intros ->; apply Hv; right; exists g; tauto). apply blk_other; lia. }
  split; try done.
  - rewrite slice_splice_other by lia. apply Hi.
  - apply Hi.
  - intros g Hg'. rewrite Hg by done. by apply Hi.
  - intros g x Hx. destruct (fi_loaded _ _ _ _ Hi g x Hx) as [Hg' ->]. split; [done|]. by rewrite Hg.
  - intros g i Hg' Hi'. rewrite Hbb by done. by apply Hi.
  - apply Hi.
  - apply Hi.
  - apply (inodes_keep (superblock s) v); [apply Hi|done|intros g Hg'; by rewrite Hg|]. intros g Hg'. pose proof (lo_range L HL (ib L g) (ib_meta L g Hg')). assert (b ≠ ib L g) by (intros ->; apply Hv; right; exists g; tauto). apply blk_other; lia.
Qed.

Lemma inv_stored s v U s' : fs_inv s v L U → stored s L v s' → fs_inv s' v L U.
Proof. intros [] [[d ->] Hs]. by split. Qed.

(** The blocks [pbs] may have changed, and the blocks [new] have been taken. *)
Record grown v U pbs (new : list Z) v' s' : Prop := {
  gw_inv : fs_inv s' v' L (U ∪ list_to_set new);
  gw_nodup : NoDup new;
  gw_free b : b ∈ new → b ∈ all_blocks L ∧ b ∉ U;
  gw_keep b : b ∈ U → 0 ≤ b → ¬ volatile L b → b ∉ pbs → blk 1024 v' b = blk 1024 v b;
}.

Lemma grown_refl s v U pbs : fs_inv s v L U → grown v U pbs [] v s.
Proof. intros Hi. split; [by rewrite list_to_set_nil, union_empty_r_L|apply NoDup_nil_2|by intros b ?%elem_of_nil|done]. Qed.

Lemma grown_granted v U (c : Z) bs v' s' : granted L true v U c bs v' s' → grown v U [] bs v' s'.
Proof. intros []. split; try done. intros b ? ? ? _. by apply gr_frame. Qed.

Lemma grown_step_trans v U p0 new1 v1 s1 p1 new2 v2 s2 p2 : grown v U p0 new1 v1 s1 → grown v1 (U ∪ list_to_set new1) p1 new2 v2 s2 →
  (∀ x, x ∈ p0 → x ∈ p2) → (∀ x, x ∈ p1 → x ∈ p2 ∨ x ∈ new1) → grown v U p2 (new1 ++ new2) v2 s2.
Proof.
  intros [Hi1 Hn1 Hf1 Hk1] [Hi2 Hn2 Hf2 Hk2] H02 H12. split.
  - by rewrite list_to_set_app_L, union_assoc_L.
  - apply NoDup_app. split_and!; [done| |done]. intros x Hx1 Hx2. apply (proj2 (Hf2 x Hx2)). apply elem_of_union. right. by apply elem_of_list_to_set.
  - intros x [Hx|Hx]%elem_of_app; [by apply Hf1|]. destruct (Hf2 x Hx) as [? Hu]. split; [done|]. intros ?. apply Hu, elem_of_union. by left.
  - intros x HxU Hx0 Hv Hnp. rewrite Hk2; [apply Hk1; try done; naive_solver| |done|done|].
    + apply elem_of_union. by left.
    + intros Hx. destruct (H12 x Hx) as [|Hn]; [done|]. by apply (Hf1 x Hn).
Qed.

Lemma grown_tf s v U pbs new v' s' : fs_inv s v L U → grown v U pbs new v' s' → tf L (U ∪ list_to_set new) = tf L U - zlength new.
Proof. intros Hi [Hi' Hn Hf _]. apply count_adds; [apply NoDup_seqZ|done|done]. Qed.

Lemma grown_data s v U pbs new v' s' x : fs_inv s v L U → grown v U pbs new v' s' → x ∈ new → data_block (U ∪ list_to_set new) x.
Proof. intros Hi Hg Hx. destruct (gw_free _ _ _ _ _ _ Hg x Hx). apply (fresh_data_block s v U); try done. apply elem_of_union. right. by apply elem_of_list_to_set. Qed.

Lemma grown_data_app s v U p pbs new v' s' x : fs_inv s v L U → grown v U p new v' s' → (∀ x, x ∈ pbs → data_block U x) → x ∈ pbs ++ new → data_block (U ∪ list_to_set new) x.
Proof. intros Hi Hg Hd [Hx|Hx]%elem_of_app; [|by apply (grown_data s v U p new v' s')]. apply (data_block_sub U); [apply union_subseteq_l|by apply Hd]. Qed.

Lemma grown_apart v U p pbs new v' s' : grown v U p new v' s' → (∀ x, x ∈ pbs → data_block U x) → NoDup pbs → NoDup (pbs ++ new).
Proof. intros Hg Hd Hn. apply NoDup_app. split_and!; [done| |apply Hg]. intros x Hx Hx'. by apply (gw_free _ _ _ _ _ _ Hg x Hx'), Hd. Qed.

(** Other blocks of files keep their contents. *)
Lemma grown_other v U p new v' s' x : grown v U p new v' s' → data_block U x → x ∉ p → blk 1024 v' x = blk 1024 v x.
Proof. intros Hg Hd Hx. pose proof (data_block_range U x Hd). pose proof (dtb_pos L HL). apply (gw_keep _ _ _ _ _ _ Hg); [apply Hd|lia|by apply (data_block_fixed U)|done]. Qed.

(** Writing the block [b] itself. *)
Lemma grown_write s v U b l s' : fs_inv s v L U → data_block U b → zlength l = 1024 → stored s L (splice v (b * 1024) l) s' → grown v U [b] [] (splice v (b * 1024) l) s'.
Proof.
  intros Hi Hd Hl Hst. pose proof (data_block_range U b Hd). pose proof (dtb_pos L HL). pose proof (fb_len _ _ _ (fi_base _ _ _ _ Hi)).
  split; [|apply NoDup_nil_2|by intros x ?%elem_of_nil|].
  - rewrite list_to_set_nil, union_empty_r_L. apply (inv_write s v U b l); try done. by apply (data_block_fixed U).
  - intros x _ Hx0 _ Hne%not_elem_of_cons. rewrite blk_splice by first [done | lia | split; lia]. rewrite decide_False; [done|naive_solver].
Qed.

(** What [write], which is for trees of level [k], does. *)
Definition write_ok (write : Z → Z → list Z → eff D (bool * Z * list Z)) n k : Prop := ∀ s v U b cur pb m pbs,
  fs_inv s v L U → skel v k b m pbs → NoDup pbs → (∀ x, x ∈ pbs → data_block U x) → 0 ≤ cur < zlength (block_pointers n) →
  m ≤ zlength (chunk n (cap k) cur) → nodes k (zlength (chunk n (cap k) cur)) - zlength pbs ≤ tf L U →
  run (write b cur pb) s (λ r s', ∃ cur' pbs' new v', r = (true, cur', pb ++ pbs') ∧ tree v' k b (chunk n (cap k) cur) pbs' ∧ pbs' ≡ₚ pbs ++ new ∧
    grown v U pbs new v' s' ∧ Z.min cur' (zlength (block_pointers n)) = Z.min (cur + cap k) (zlength (block_pointers n))).

Context (stack_bytes : list Z) (stack_len : length stack_bytes = 14%nat) (stack_ok : bytes stack_bytes).

(** The block for the next tree: the one that is there, or a new one. *)
Lemma ensure_block_run s v U k bs (fuel : nat) m pbs c : fs_inv s v L U → sforest (skel v k) (cap k) bs m pbs → (∀ x, x ∈ pbs → data_block U x) → NoDup pbs →
  (bs ++ replicate (S fuel - length bs) 0) !! 0%nat = Some c → (bs = [] → 1 ≤ tf L U) →
  run (ensure_block stack_bytes c) s (λ b s1, ∃ new v1 m1 pbs1 pbs2, b ≠ 0 ∧ grown v U [] new v1 s1 ∧ skel v1 k b m1 pbs1 ∧ sforest (skel v1 k) (cap k) (tail bs) (m - m1) pbs2 ∧
    pbs1 ++ pbs2 ≡ₚ pbs ++ new ∧ 0 ≤ m1 ≤ cap k ∧ (tail bs ≠ [] → m1 = cap k) ∧ (∀ x, x ∈ pbs1 → x ∈ pbs ∨ x ∈ new) ∧ (∀ x, x ∈ pbs2 → x ∈ pbs)).
Proof.
  intros Hi Hf Hd Hnd Hc Hsp. unfold ensure_block. destruct Hf as [|b m1 pbs1 bs m' pbs2 Ht Hm Hfull Hf].
  - cbn in Hc. injection Hc as <-. cbn. wp_apply allocate_block_run; [done..|]. intros b s1 [v1 Hg]. case_decide as Hb; [exfalso; destruct Hg as (_&_&Hlt); pose proof (Hsp eq_refl); lia|].
    exists [b], v1, 0, [b], []. split_and!; try done.
    + by eapply grown_granted.
    + apply skel_fresh; [done|]. apply (gr_zero _ _ _ _ _ _ _ _ Hg); [done|by left].
    + exact (sforest_nil _ _).
    + pose proof (cap_pos k). lia.
    + intros x Hx. by right.
  - cbn in Hc. injection Hc as <-. assert (b ≠ 0) as Hb by (destruct k; apply Ht). rewrite (proj2 (Z.eqb_neq b 0) Hb). wp. exists [], v, m1, pbs1, pbs2. cbn [tail].
    replace (m1 + m' - m1) with m' by lia. split_and!; try done; [by apply grown_refl|by rewrite app_nil_r|lia|lia|naive_solver|intros x Hx; left; apply elem_of_app; by left|intros x Hx; apply elem_of_app; by right].
Qed.

(** The loop ends: there are no more leaves. *)
Lemma write_level_stop n k s v U bs buf i (fuel : nat) cur pb m pbs c : fs_inv s v L U → (Z.to_nat i + fuel = 256)%nat → zlength buf = 1024 → bytes buf →
  drop (Z.to_nat i) (ptrs_of buf) = bs ++ replicate (fuel - length bs) 0 → sforest (skel v k) (cap k) bs m pbs → chunk n c cur = [] → m ≤ zlength (chunk n c cur) →
  Z.min cur (zlength (block_pointers n)) = Z.min (cur + c) (zlength (block_pointers n)) →
  ∃ buf' cur' bs' pbs' new v', (true, buf, cur, pb) = (true, buf', cur', pb ++ pbs') ∧
    zlength buf' = 1024 ∧ bytes buf' ∧ (length bs' ≤ fuel)%nat ∧ ptrs_of buf' = take (Z.to_nat i) (ptrs_of buf) ++ bs' ++ replicate (fuel - length bs') 0 ∧
    forest (tree v' k) (cap k) bs' (chunk n c cur) pbs' ∧ pbs' ≡ₚ pbs ++ new ∧ grown v U pbs new v' s ∧ Z.min cur' (zlength (block_pointers n)) = Z.min (cur + c) (zlength (block_pointers n)).
Proof.
  intros Hi Hfuel Hl Hb Hbuf Hf Hch Hm Hcur. rewrite Hch in *. destruct (sforest_empty _ _ _ _ _ Hf Hm) as [-> ->]. exists buf, cur, [], [], [], v. rewrite app_nil_r.
  split_and!; try done; [cbn; lia| |constructor|by apply grown_refl]. cbn [length app] in *. rewrite <-Hbuf. by rewrite take_drop.
Qed.

Lemma write_level_run write n k : write_ok write n k → ∀ fuel s v U bs buf i cur pb m pbs,
  fs_inv s v L U → zlength buf = 1024 → bytes buf → 0 ≤ i → (Z.to_nat i + fuel = 256)%nat → (length bs ≤ fuel)%nat →
  drop (Z.to_nat i) (ptrs_of buf) = bs ++ replicate (fuel - length bs) 0 → sforest (skel v k) (cap k) bs m pbs → NoDup pbs → (∀ x, x ∈ pbs → data_block U x) →
  0 ≤ cur → m ≤ zlength (chunk n (Z.of_nat fuel * cap k) cur) → nodes k (zlength (chunk n (Z.of_nat fuel * cap k) cur)) - zlength pbs ≤ tf L U →
  run (write_level stack_bytes write fuel n buf i cur pb) s (λ r s', ∃ buf' cur' bs' pbs' new v', r = (true, buf', cur', pb ++ pbs') ∧
    zlength buf' = 1024 ∧ bytes buf' ∧ (length bs' ≤ fuel)%nat ∧ ptrs_of buf' = take (Z.to_nat i) (ptrs_of buf) ++ bs' ++ replicate (fuel - length bs') 0 ∧
    forest (tree v' k) (cap k) bs' (chunk n (Z.of_nat fuel * cap k) cur) pbs' ∧ pbs' ≡ₚ pbs ++ new ∧ grown v U pbs new v' s' ∧
    Z.min cur' (zlength (block_pointers n)) = Z.min (cur + Z.of_nat fuel * cap k) (zlength (block_pointers n))).
Proof.
  intros Hwrite. pose proof (cap_pos k) as Hcap. induction fuel as [|fuel IH]; intros s v U bs buf i cur pb m pbs Hi Hl Hby Hi0 Hfuel Hlen Hbuf Hf Hnd Hd Hcur Hm Hsp; cbn [write_level].
  - wp. eapply (write_level_stop n k s v U bs buf i 0%nat); try done. lia.
  - destruct (Z.leb_spec (zlength (block_pointers n)) cur) as [Hend|Hcur'].
    { wp. apply (write_level_stop n k s v U bs buf i (S fuel) cur pb m pbs); try done; [unfold chunk; by rewrite drop_ge, take_nil by lia|nia]. }
    wp. wp_apply (ensure_block_run s v U k bs fuel m pbs); [done|done|done|done| | |].
    + rewrite <-Hbuf, lookup_drop, Nat.add_0_r, lookup_ptrs_of, Z2Nat.id by lia. done.
    + intros ->. inversion Hf; subst. cbn [length] in Hsp. pose proof (length_chunk n (Z.of_nat (S fuel) * cap k) cur ltac:(lia) ltac:(lia)) as Hcl.
      pose proof (nodes_pos k (zlength (chunk n (Z.of_nat (S fuel) * cap k) cur)) ltac:(nia)). lia.
    + intros b s1 (new1&v1&m1&pbs1&pbs2&Hb&Hg1&Hsk&Hsf&Hperm&Hm1&Hfull&Hin1&Hin2). rewrite (proj2 (Z.eqb_neq b 0) Hb). wp.
      destruct (level_space v1 k n fuel cur (tail bs) m m1 pbs2) as (Hch&HmA&HmB&Hnb&Hsplit&Hlast); [lia|done..|].
      pose proof (Permutation_length Hperm) as Hpl. rewrite !length_app in Hpl. pose proof (grown_tf s v U [] new1 v1 s1 Hi Hg1) as Htf1.
      assert (NoDup (pbs1 ++ pbs2)) as Hnd12 by (rewrite Hperm; by apply (grown_apart v U [] pbs new1 v1 s1)).
      assert (∀ x, x ∈ pbs1 ++ pbs2 → data_block (U ∪ list_to_set new1) x) as Hd12 by (intros x; rewrite Hperm; by apply (grown_data_app s v U [] pbs new1 v1 s1)).
      pose proof Hnd12 as (Hnd1&Hap&Hnd2)%NoDup_app.
      wp_apply (Hwrite s1 v1 (U ∪ list_to_set new1) b cur pb m1 pbs1); [apply Hg1|done|done|intros x Hx; apply Hd12, elem_of_app; by left|lia|done|lia|].
      intros r s2 (cur2&pbs1'&new2&v2&->&Htree&Hperm2&Hg2&Hcur2). cbn. wp. pose proof (tree_size _ _ _ _ _ Htree) as Hts.
      pose proof (Permutation_length Hperm2) as Hpl2. rewrite length_app in Hpl2. pose proof (grown_tf s1 v1 _ pbs1 new2 v2 s2 (gw_inv _ _ _ _ _ _ Hg1) Hg2) as Htf2.
      rewrite (chunk_end n (Z.of_nat fuel * cap k) (cur + cap k) cur2) in * by lia.
      wp_apply (IH s2 v2 _ (tail bs) (put32 buf (4 * i) b) (i + 1) cur2 (pb ++ pbs1') (m - m1) pbs2); [apply Hg2|by rewrite length_put32 by lia|by apply bytes_put32|lia|lia|destruct bs; cbn in *; lia| | |done| |lia|done|lia|].
      { rewrite ptrs_of_put, Z2Nat.inj_add by lia. rewrite drop_insert_lt by lia. rewrite Nat.add_1_r. by apply ptrs_drop. }
      { apply (sforest_mono _ _ _ _ _ _ Hsf). intros b1 ms ps1 Hsub Hk. apply (skel_ext v1 v2 k _ _ _ Hk). intros x Hx. apply (grown_other v1 (U ∪ list_to_set new1) pbs1 new2 v2 s2); [done|apply Hd12, elem_of_app; right; by apply Hsub|].
        intros Hx1. by apply (Hap x Hx1), Hsub. }
      { intros x Hx. apply (data_block_sub (U ∪ list_to_set new1)); [apply union_subseteq_l|]. apply Hd12, elem_of_app. by right. }
      intros r s3 (buf'&cur'&bs'&pbs'&new3&v3&->&Hl'&Hby'&Hlen'&Hbuf'&Hfor&Hperm3&Hg3&Hcur3).
      exists buf', cur', (b :: bs'), (pbs1' ++ pbs'), (new1 ++ new2 ++ new3), v3. split_and!; [by rewrite app_assoc|done|done|cbn; lia| | | | |lia].
      * rewrite Hbuf'. rewrite ptrs_of_put by lia. rewrite insert_take_drop by (rewrite length_ptrs_of; lia). rewrite Z2Nat.inj_add by lia.
        pose proof (data_block_range _ b (Hd12 b ltac:(apply elem_of_app; left; by apply (skel_root v1 k b m1)))) as Hbr. pose proof (dtb_pos L HL). pose proof (lo_total L HL).
        rewrite u32_id by lia. rewrite (take_app_add' _ _ (Z.to_nat i) 1) by (rewrite length_take, length_ptrs_of; lia). cbn. by rewrite <-app_assoc.
      * rewrite Hch. constructor; [|destruct Hlast as [E|]; [left; rewrite E in Hfor; by apply (forest_empty _ _ _ _ (tree_bound v3 k) Hfor)|by right]|done]. apply (tree_ext v2 v3 k _ _ _ Htree). intros x Hx. rewrite Hperm2 in Hx. apply (grown_other v2 (U ∪ list_to_set new1 ∪ list_to_set new2) pbs2 new3 v3 s3); [done| |].
        -- apply (grown_data_app s1 v1 (U ∪ list_to_set new1) pbs1 pbs1 new2 v2 s2); [apply Hg1|done| |done]. intros y Hy. apply Hd12, elem_of_app. by left.
        -- intros Hx2. apply elem_of_app in Hx as [Hx|Hx]; [by apply (Hap x)|]. apply (gw_free _ _ _ _ _ _ Hg2 x Hx), Hd12, elem_of_app. by right.
      * rewrite Hperm2, Hperm3. rewrite (app_assoc pbs new1), <-Hperm. solve_Permutation.
      * rewrite app_assoc. apply (grown_step_trans v U pbs (new1 ++ new2) v2 s2 pbs2 new3).
        -- apply (grown_step_trans v U [] new1 v1 s1 pbs1 new2); [done|done|by intros x ?%elem_of_nil|done].
        -- by rewrite list_to_set_app_L, union_assoc_L.
        -- done.
        -- intros x Hx. left. by apply Hin2.
Qed.

(** Writing the leaves makes a tree of them. *)
Lemma write_tree_run n k : Forall (λ x, 0 ≤ x < 2 ^ 32) (block_pointers n) → write_ok (write_tree stack_bytes k n) n k.
Proof.
  intros Hbp. induction k as [|k IH]; intros s v U b cur pb m pbs Hi Hsk Hnd Hd Hcur Hm Hsp; cbn [write_tree]; pose proof (fi_base _ _ _ _ Hi) as Hs.
  - destruct Hsk as (Hb&->&Hm'). unfold write_singly. wp. rewrite (fb_bppb _ _ _ Hs), (fb_bs _ _ _ Hs). change (Z.to_nat 256) with 256%nat.
    destruct (fill_pointers_spec 256 n (zeroes 1024) 0 cur) as (Hl&Hby&_); [by apply length_zeroes|apply bytes_zeroes|lia..|]. pose proof (write_singly_pointers n cur Hcur Hbp) as Hpre.
    generalize dependent (fill_pointers 256 n (zeroes 1024) 0 cur). intros buf Hl Hby Hpre.
    pose proof (data_block_range _ _ (Hd b ltac:(by left))) as Hbr. pose proof (dtb_pos L HL). wp_apply (fs_write_block_run s v L b buf); [done|lia|done..|]. intros ? s1 (->&Hst). wp.
    exists (cur + 256), [b], [], (splice v (b * 1024) buf). split_and!; [done| |by rewrite app_nil_r|apply (grown_write s); try done; apply Hd; by left|done].
    pose proof (fb_len _ _ _ Hs). pose proof (length_chunk n 256 cur ltac:(lia) ltac:(lia)). split_and!; [done|done|cbn [cap]; lia..|]. unfold ptrs. rewrite blk_splice by first [done | lia | split; lia].
    by rewrite decide_True by done.
  - destruct Hsk as (Hb&bs&pbs'&->&Hlen&Hp&Hf). wp. pose proof (Hd b ltac:(by left)) as Hdb. pose proof (data_block_range _ _ Hdb) as Hbr. pose proof (dtb_pos L HL).
    pose proof (fb_len _ _ _ Hs) as Hlv. apply NoDup_cons in Hnd as [Hnb Hnd]. wp_apply (fs_read_block_run s v L b); [done|lia|]. intros ? s1 (->&Hst). wp. rewrite (fb_bppb _ _ _ Hs). change (Z.to_nat 256) with 256%nat.
    pose proof (inv_stored s v U s1 Hi Hst) as Hi1. pose proof (length_chunk n (cap (S k)) cur ltac:(pose proof (cap_pos (S k)); lia) ltac:(lia)) as Hcl.
    wp_apply (write_level_run _ n k IH 256 s1 v U bs (blk 1024 v b) 0 cur (pb ++ [b]) m pbs'); [done|apply length_blk; first [lia|split; lia]|apply bytes_slice, Hs|lia|done|done|done|done|done|intros x Hx; apply Hd; by right|lia|done| |].
    { change (Z.of_nat 256 * cap k) with (cap (S k)). rewrite nodes_root in Hsp by (pose proof (cap_pos (S k)); lia). cbn [length] in Hsp. lia. }
    intros r s2 (buf'&cur'&bs'&pbs2&new&v2&->&Hl'&Hby'&Hlen'&Hbuf'&Hfor&Hperm&Hg&Hcur2). change (Z.of_nat 256 * cap k) with (cap (S k)) in *. cbn [negb]. wp.
    wp_apply (fs_write_block_run s2 v2 L b buf'); [apply Hg|lia|done|done|]. intros ? s3 (->&Hst3). wp.
    exists cur', (b :: pbs2), new, (splice v2 (b * 1024) buf').
    pose proof (fb_len _ _ _ (fi_base _ _ _ _ (gw_inv _ _ _ _ _ _ Hg))) as Hlv2. pose proof (data_block_sub U (U ∪ list_to_set new) b ltac:(apply union_subseteq_l) Hdb) as Hdb2. split_and!.
    + by rewrite <-app_assoc.
    + split; [done|]. exists bs', pbs2. split_and!; [done| |done| |].
      * intros ->. assert (chunk n (cap (S k)) cur = []) as E by (by inversion Hfor). rewrite E in Hcl. cbn in Hcl. pose proof (cap_pos k). lia.
      * unfold ptrs. rewrite blk_splice by first [done | lia | split; lia]. rewrite decide_True by done. exact Hbuf'.
      * apply (forest_mono _ _ _ _ _ _ Hfor). intros b1 ps1 pbs1 Hsub Ht. apply (tree_ext _ _ k _ _ _ Ht). intros x Hx%Hsub. rewrite Hperm in Hx.
        pose proof (grown_data_app s1 v U pbs' pbs' new v2 s2 x Hi1 Hg ltac:(intros y Hy; apply Hd; by right) Hx) as Hdx. pose proof (data_block_range _ _ Hdx).
        rewrite blk_splice by first [done | lia | split; lia]. rewrite decide_False; [done|]. intros ->. apply elem_of_app in Hx as [|Hx]; [done|]. by apply (gw_free _ _ _ _ _ _ Hg b Hx), Hdb.
    + by rewrite Hperm.
    + rewrite <-(app_nil_r new). apply (grown_step_trans v U pbs' new v2 s2 [b] []); [done| |by right|intros x ->%list_elem_of_singleton; left; by left].
      apply (grown_write s2); try done. apply Hg.
    + done.
Qed.
End write.
