(* ===== verification/Ext2Pointers.v ===== *)
(** * ext2: the blocks of an inode

    What the pointers of an inode say of its blocks, that writing an inode to the disk
    keeps them, and that the inode read back has them again. *)

From stdpp Require Import base numbers list list_numbers option gmap sets.
From S2P Require Import Prelude.
From S2P Require Import ByteBuf.
From S2P Require Import FileBlocks.
From S2P Require Import Ext2.
From S2P Require Import Ext2Inv.
From S2P Require Import Ext2Alloc.
From S2P Require Import Ext2Inode.
From S2P Require Import Ext2Tree.

Local Open Scope Z_scope.

Implicit Types (v buf ps pbs bs : list Z) (b i m : Z) (k : nat) (n : inode) (U : gset Z).

(** ** The parts of an inode *)

(** The number of the first block of the tree of a level, and the offset of the root. *)
Definition part_start k : Z := match k with O => 12 | 1%nat => 268 | _ => 65804 end.
Definition part_root k : Z := 88 + 4 * Z.of_nat k.
Definition part n k : list Z := chunk n (cap k) (part_start k).
Definition max_blocks : Z := 65804 + cap 2.

(** A tree, or no block at all. *)
Definition rooted v k b ps pbs : Prop := (ps = [] ∧ b = 0 ∧ pbs = []) ∨ tree v k b ps pbs.

(** The pointers of the inode lead to its blocks, through its blocks of pointers. *)
Record inode_tree v n : Prop := {
  nt_max : zlength (block_pointers n) ≤ max_blocks;
  nt_direct i : 0 ≤ i < 12 → raw_pointer (raw n) i = get_block_pointer n i;
  nt_parts : ∃ p0 p1 p2, pointer_blocks n = p0 ++ p1 ++ p2 ∧ rooted v 0 (s_pointer (raw n)) (part n 0) p0 ∧ rooted v 1 (d_pointer (raw n)) (part n 1) p1 ∧
    rooted v 2 (t_pointer (raw n)) (part n 2) p2;
}.

Lemma rooted_ext v v' k b ps pbs : rooted v k b ps pbs → (∀ x, x ∈ pbs → blk 1024 v' x = blk 1024 v x) → rooted v' k b ps pbs.
Proof. intros [?|Ht] Hx; [by left|right]. by apply (tree_ext v v'). Qed.

Lemma rooted_size v k b ps pbs : rooted v k b ps pbs → zlength pbs = nodes k (zlength ps).
Proof. intros [(->&_&->)|Ht]; [by rewrite nodes_zero|by apply (tree_size v k b)]. Qed.

Lemma part_length n k : 0 ≤ zlength (block_pointers n) → zlength (part n k) = Z.max 0 (Z.min (cap k) (zlength (block_pointers n) - part_start k)).
Proof. intros Hz. unfold part, chunk. rewrite length_take, length_drop. pose proof (cap_pos k). assert (0 ≤ part_start k) by (destruct k as [|[|]]; cbn; lia). lia. Qed.

(** The first twelve blocks and the three parts are all the blocks. *)
Lemma parts_all n : zlength (block_pointers n) ≤ max_blocks → block_pointers n = chunk n 12 0 ++ part n 0 ++ part n 1 ++ part n 2.
Proof.
  intros Hm. transitivity (chunk n (12 + (cap 0 + (cap 1 + cap 2))) 0).
  { unfold chunk. change (Z.to_nat 0) with 0%nat. rewrite drop_0, take_ge; [reflexivity|]. unfold max_blocks in Hm. cbn [cap] in *. lia. }
  rewrite (chunk_split n 12), (chunk_split n (cap 0)), (chunk_split n (cap 1)) by (cbn; lia). unfold part. replace (0 + 12) with (part_start 0) by reflexivity.
  replace (part_start 0 + cap 0) with (part_start 1) by reflexivity. replace (part_start 1 + cap 1) with (part_start 2) by reflexivity. reflexivity.
Qed.

(** The blocks of a part start where those before it end. *)
Lemma part_span n k : zlength (block_pointers n) ≤ max_blocks → part n k ≠ [] → zlength (part n k) = Z.min (cap k) (zlength (block_pointers n) - part_start k) ∧ part_start k < zlength (block_pointers n).
Proof. intros Hm Hne. pose proof (part_length n k ltac:(lia)) as Hl. pose proof (cap_pos k). assert (0 < zlength (part n k)) by (destruct (part n k); [done|cbn; lia]). lia. Qed.

Lemma part_before n k : zlength (block_pointers n) ≤ max_blocks → part n (S k) ≠ [] → (k < 2)%nat → zlength (part n k) = cap k ∧ part_start (S k) = part_start k + cap k.
Proof.
  intros Hm [_ Hs]%part_span Hk; [|done]. pose proof (part_length n k ltac:(lia)) as Hl. assert (part_start (S k) = part_start k + cap k) as E by (destruct k as [|[|]]; [reflexivity..|lia]).
  pose proof (cap_pos k). split; [|done]. lia.
Qed.

Lemma part_eq n k : part n k = chunk n (cap k) (part_start k).
Proof. reflexivity. Qed.

(** ** The bytes of an inode *)

Lemma puts_spec (f : Z → Z) (l r : list Z) : NoDup l → (∀ i, i ∈ l → 0 ≤ i < 12) → zlength r = 128 → bytes r → let r' := foldl (λ r i, put32 r (40 + 4 * i) (f i)) r l in
  zlength r' = 128 ∧ bytes r' ∧ (∀ i, i ∈ l → get32 r' (40 + 4 * i) = u32 (f i)) ∧ (∀ o, 0 ≤ o → o + 4 ≤ 40 ∨ 88 ≤ o → get32 r' o = get32 r o) ∧
  (∀ o, 0 ≤ o → o + 2 ≤ 40 ∨ 88 ≤ o → get16 r' o = get16 r o).
Proof.
  induction l as [|i l IH] using rev_ind; intros Hnd Hl Hr Hb; [split_and!; try done; by intros i ?%elem_of_nil|]. apply NoDup_app in Hnd as (Hnd&Hap&_).
  destruct IH as (IHl&IHb&IHg&IHo&IHo'); [done|intros; apply Hl, elem_of_app; by left|done|done|]. pose proof (Hl i ltac:(apply elem_of_app; right; by left)) as Hi.
  rewrite foldl_app. cbn [foldl]. set (r1 := foldl _ r l) in *. cbv zeta. split_and!.
  - rewrite length_put32; lia.
  - by apply bytes_put32.
  - intros j [Hj| ->%list_elem_of_singleton]%elem_of_app; [|by rewrite get32_put32 by lia]. pose proof (Hl j ltac:(apply elem_of_app; by left)). assert (j ≠ i) by (intros ->; apply (Hap i Hj); by left).
    rewrite get32_put32_other by lia. by apply IHg.
  - intros o Ho Hor. rewrite get32_put32_other by lia. by apply IHo.
  - intros o Ho Hor. rewrite get16_put32_other by lia. by apply IHo'.
Qed.

Lemma direct_pointers_spec n : zlength (raw n) = 128 → bytes (raw n) → Forall (λ x, 0 ≤ x < 2 ^ 32) (block_pointers n) →
  zlength (direct_pointers n) = 128 ∧ bytes (direct_pointers n) ∧ (∀ i, 0 ≤ i < 12 → get32 (direct_pointers n) (40 + 4 * i) = get_block_pointer n i) ∧
  (∀ o, 88 ≤ o → get32 (direct_pointers n) o = get32 (raw n) o) ∧ (∀ o, 0 ≤ o → o + 2 ≤ 40 ∨ 88 ≤ o → get16 (direct_pointers n) o = get16 (raw n) o).
Proof.
  intros Hl Hb Hbp. destruct (puts_spec (get_block_pointer n) (seqZ 0 12) (raw n)) as (?&?&Hg&Ho&Ho'); [apply NoDup_seqZ|intros i ?%elem_of_seqZ; lia|done|done|].
  split_and!; try done; [|intros o ?; apply Ho; lia]. intros i Hi. unfold direct_pointers. rewrite Hg by (apply elem_of_seqZ; lia). apply u32_id. unfold get_block_pointer.
  destruct (Z.leb_spec (zlength (block_pointers n)) i); [lia|]. rewrite Forall_lookup in Hbp. destruct (lookup_lt_is_Some_2 (block_pointers n) (Z.to_nat i) ltac:(lia)) as [x Hx].
  rewrite (list_lookup_total_correct _ _ _ Hx). by apply (Hbp (Z.to_nat i)).
Qed.

Lemma roots_spec (r : list Z) b0 b1 b2 (k : Z) : zlength r = 128 → bytes r → 0 ≤ b0 < 2 ^ 32 → 0 ≤ b1 < 2 ^ 32 → 0 ≤ b2 < 2 ^ 32 → let r' := put32 (put32 (put32 (put32 r 88 b0) 92 b1) 96 b2) 28 k in
  zlength r' = 128 ∧ bytes r' ∧ s_pointer r' = b0 ∧ d_pointer r' = b1 ∧ t_pointer r' = b2 ∧ (∀ i, 0 ≤ i < 12 → raw_pointer r' i = raw_pointer r i) ∧ hard_links r' = hard_links r.
Proof.
  intros Hl Hb Hb0 Hb1 Hb2 r'. unfold s_pointer, d_pointer, t_pointer, raw_pointer, hard_links. assert (zlength (put32 r 88 b0) = 128) as L0 by (rewrite length_put32; lia).
  assert (zlength (put32 (put32 r 88 b0) 92 b1) = 128) as L1 by (rewrite length_put32; lia). assert (zlength (put32 (put32 (put32 r 88 b0) 92 b1) 96 b2) = 128) as L2 by (rewrite length_put32; lia). unfold r'. split_and!.
  - rewrite length_put32; lia.
  - by repeat apply bytes_put32.
  - rewrite !get32_put32_other by lia. rewrite get32_put32 by lia. by apply u32_id.
  - rewrite !get32_put32_other by lia. rewrite get32_put32 by lia. by apply u32_id.
  - rewrite get32_put32_other by lia. rewrite get32_put32 by lia. by apply u32_id.
  - intros i Hi. by rewrite !get32_put32_other by lia.
  - by rewrite !get16_put32_other by lia.
Qed.

#[local] Opaque part cap.

Section pointers.
Context {D : Type} `{ByteFileSpec D}.
Context (L : layout) (HL : layout_ok L).
Implicit Types (s : ext2 D).

(** ** Reading *)

Lemma raw_with_tree n ps pbs : raw (with_tree n ps pbs) = raw n.
Proof. done. Qed.

Lemma num_blocks_with_tree s n ps pbs : num_blocks s (with_tree n ps pbs) = num_blocks s n.
Proof. done. Qed.

Lemma read_part_run v k s n0 b i ps pbs : fs_base s v L → rooted v k b ps pbs → (∀ x, x ∈ pbs → 0 ≤ x < l_total L) → (ps ≠ [] → zlength ps = Z.min (cap k) (num_blocks s n0 - i)) →
  run (if b =? 0 then ret (n0, i) else read_tree k n0 b i) s (λ r s', r = (with_tree n0 ps pbs, i + zlength ps) ∧ stored s L v s').
Proof.
  intros Hs Hr Hin Hl. destruct Hr as [(->&->&->)|Ht].
  - rewrite Z.eqb_refl. wp. rewrite with_tree_nil, Z.add_0_r. by split; [|apply stored_refl].
  - destruct (tree_root _ _ _ _ _ Ht) as [Hb _]. rewrite (proj2 (Z.eqb_neq b 0) Hb). apply read_tree_run; try done. apply Hl. intros ->. pose proof (tree_bound v k _ _ _ Ht) as Hb'. cbn in Hb'. lia.
Qed.

Lemma read_parts_run v s n n0 i p0 p1 p2 : fs_base s v L → zlength (block_pointers n) ≤ max_blocks →
  rooted v 0 (s_pointer (raw n)) (part n 0) p0 → rooted v 1 (d_pointer (raw n)) (part n 1) p1 → rooted v 2 (t_pointer (raw n)) (part n 2) p2 →
  raw n0 = raw n → num_blocks s n0 = zlength (block_pointers n) → (∀ x, x ∈ p0 ++ p1 ++ p2 → 0 ≤ x < l_total L) → i = Z.min 12 (zlength (block_pointers n)) →
  run ('(n, i) ← (if s_pointer (raw n0) =? 0 then ret (n0, i) else read_tree 0 n0 (s_pointer (raw n0)) i);
       '(n, i) ← (if d_pointer (raw n) =? 0 then ret (n, i) else read_tree 1 n (d_pointer (raw n)) i);
       '(n, i) ← (if t_pointer (raw n) =? 0 then ret (n, i) else read_tree 2 n (t_pointer (raw n)) i);
       ret n) s (λ n' s', n' = with_tree n0 (part n 0 ++ part n 1 ++ part n 2) (p0 ++ p1 ++ p2) ∧ stored s L v s').
Proof.
  intros Hs Hmax H0' H1 H2 Hraw Hnb Hin ->. wp. rewrite Hraw.
  wp_apply (read_part_run v 0 s n0 (s_pointer (raw n)) _ (part n 0) p0); [done|done|intros; apply Hin, elem_of_app; by left| |].
  { intros [-> ?]%part_span; [|done]. unfold part_start in *. lia. }
  intros r s1 (->&Hst1). cbn beta iota. wp. rewrite ?raw_with_tree, Hraw.
  wp_apply (read_part_run v 1 s1 _ (d_pointer (raw n)) _ (part n 1) p1); [apply Hst1|exact H1|intros; apply Hin; rewrite !elem_of_app; by right; left| |].
  { intros Hne. pose proof (part_before n 0 Hmax Hne ltac:(lia)) as [-> ?]. apply part_span in Hne as [-> ?]; [|done]. rewrite (stored_num_blocks L s v s1), num_blocks_with_tree by done. unfold part_start in *. lia. }
  intros r s2 (->&Hst2). cbn beta iota. wp. rewrite ?raw_with_tree, Hraw.
  wp_apply (read_part_run v 2 s2 _ (t_pointer (raw n)) _ (part n 2) p2); [apply Hst2|exact H2|intros; apply Hin; rewrite !elem_of_app; by right; right| |].
  { intros Hne. pose proof (part_before n 1 Hmax Hne ltac:(lia)) as [-> ?]. apply part_span in Hne as [-> ?]; [|done]. pose proof (part_length n 0 ltac:(lia)) as ->.
    rewrite (stored_num_blocks L s1 v s2), (stored_num_blocks L s v s1), !num_blocks_with_tree by done. unfold part_start in *. change (cap 0) with 256. change (cap 1) with 65536 in *. lia. }
  intros r s3 (->&Hst3). wp. split; [|eapply stored_trans; [|done]; by eapply stored_trans]. by rewrite !with_tree_app.
Qed.

Lemma direct_blocks n r : (∀ i, 0 ≤ i < 12 → raw_pointer r i = get_block_pointer n i) → (λ i, raw_pointer r i) <$> seqZ 0 (Z.min 12 (zlength (block_pointers n))) = chunk n 12 0.
Proof.
  intros Hd. apply list_eq_same_length with (Z.to_nat (Z.min 12 (zlength (block_pointers n)))); [|by rewrite length_fmap, length_seqZ|].
  - pose proof (length_chunk n 12 0 ltac:(lia) ltac:(lia)). lia.
  - intros j x y Hj. rewrite list_lookup_fmap, lookup_seqZ_lt by lia. cbn. unfold chunk. rewrite lookup_take_lt, lookup_drop by lia. intros [= <-] Hy. rewrite Hd by lia.
    unfold get_block_pointer. rewrite (proj2 (Z.leb_gt _ _)) by lia. replace (Z.to_nat (0 + Z.of_nat j)) with (Z.to_nat 0 + j)%nat by lia. by apply list_lookup_total_correct.
Qed.

(** The inode [n] on the disk: reading the pointers of [n0], which is its entry, gives its blocks. *)
Lemma read_block_pointers_run v s n n0 : fs_base s v L → inode_tree v n → raw n0 = raw n → inline_symlink n0 = false → num_blocks s n0 = zlength (block_pointers n) →
  (∀ x, x ∈ pointer_blocks n → 0 ≤ x < l_total L) →
  run (read_block_pointers n0) s (λ n' s', n' = with_pointers (with_pointer_blocks n0 (pointer_blocks n)) (block_pointers n) ∧ stored s L v s').
Proof.
  intros Hs [Hmax Hdir (p0&p1&p2&Hpb&H0'&H1&H2)] Hraw Hsym Hnb Hin. rewrite Hpb in *. unfold read_block_pointers. wp.
  change (inline_symlink (with_pointers (with_pointer_blocks n0 []) [])) with (inline_symlink n0). rewrite Hsym.
  change (num_blocks s (with_pointers (with_pointer_blocks n0 []) [])) with (num_blocks s n0). rewrite Hnb. cbn zeta.
  change (raw (with_pointers (with_pointer_blocks n0 []) [])) with (raw n0). rewrite Hraw, (direct_blocks n (raw n) Hdir).
  wp_apply (read_parts_run v s n (with_pointers (with_pointers (with_pointer_blocks n0 []) []) (chunk n 12 0)) _ p0 p1 p2); [done|done|exact H0'|exact H1|exact H2|done|done|done|done|].
  intros n' s' (->&Hst). split; [|done]. unfold with_tree. cbn. by rewrite <-(parts_all n).
Qed.

(** ** Writing *)

(** The blocks of pointers [pbs] that writing [c] leaves in a tree with root [b] uses again. *)
Definition reusable v k b (c : Z) pbs : Prop := (c = 0 ∧ pbs = []) ∨ (0 < c ∧ ((b = 0 ∧ pbs = []) ∨ ∃ m, 0 < m ≤ c ∧ skel v k b m pbs)).

Lemma reusable_size v k b c pbs : reusable v k b c pbs → zlength pbs ≤ nodes k c.
Proof.
  intros [[-> ->]|[Hc [[_ ->]|(m&Hm&Hsk)]]]; [by rewrite nodes_zero|pose proof (nodes_pos k c Hc); cbn; lia|]. rewrite (skel_size v k b m pbs) by (done || lia). apply nodes_mono. lia.
Qed.

Lemma reusable_ext v v' k b c pbs : reusable v k b c pbs → (∀ x, x ∈ pbs → blk 1024 v' x = blk 1024 v x) → reusable v' k b c pbs.
Proof. intros [?|[Hc [?|(m&Hm&Hsk)]]] Hx; [by left|right; by split; [|left]|]. right. split; [done|]. right. exists m. split; [done|]. by apply (skel_ext v v'). Qed.

(** A tree can be written again with as many leaves, or more. *)
Lemma rooted_reusable v k b ps pbs c : rooted v k b ps pbs → zlength ps ≤ c → reusable v k b c pbs.
Proof.
  intros [(->&->&->)|Ht] Hl.
  - destruct (decide (c = 0)) as [->|]; [by left|]. right. cbn in Hl. split; [lia|by left].
  - right. pose proof (tree_bound v k _ _ _ Ht). split; [lia|]. right. exists (zlength ps). split; [lia|by apply tree_skel].
Qed.

Context (stack_bytes : list Z) (stack_len : length stack_bytes = 14%nat) (stack_ok : bytes stack_bytes).

Lemma write_part_run s v U k n pbs : fs_inv s v L U → Forall (λ x, 0 ≤ x < 2 ^ 32) (block_pointers n) → zlength (block_pointers n) ≤ max_blocks → num_blocks s n = zlength (block_pointers n) →
  reusable v k (get32 (raw n) (part_root k)) (zlength (part n k)) pbs → NoDup pbs → (∀ x, x ∈ pbs → data_block L U x) → nodes k (zlength (part n k)) - zlength pbs ≤ tf L U →
  run (write_part stack_bytes k (part_root k) (part_start k) n) s (λ r s', ∃ b pbs' new v',
    r = (true, with_pointer_blocks (with_raw n (put32 (raw n) (part_root k) b)) (pointer_blocks n ++ pbs')) ∧ 0 ≤ b < 2 ^ 32 ∧ rooted v' k b (part n k) pbs' ∧
    pbs' ≡ₚ pbs ++ new ∧ grown L v U pbs new v' s').
Proof.
  intros Hi Hbp Hmax Hnb Hre Hnd Hd Hsp. unfold write_part. wp. rewrite Hnb. pose proof (part_length n k ltac:(lia)) as Hl. pose proof (cap_pos k) as Hcap. assert (0 ≤ part_start k) as Hst0 by (destruct k as [|[|]]; cbn; lia).
  destruct (Z.ltb_spec (part_start k) (zlength (block_pointers n))) as [Hlt|Hge].
  - destruct Hre as [[? _]|[_ Hre]]; [lia|]. wp.
    assert (∃ bs m, sforest (skel v k) (cap k) bs m pbs ∧ (bs ++ replicate (1 - length bs) 0) !! 0%nat = Some (get32 (raw n) (part_root k)) ∧ m ≤ zlength (part n k) ∧ (tail bs = [])) as (bs&m&Hsf&Hhd&Hm&Htl).
    { destruct Hre as [[-> ->]|(m&Hm&Hsk)]; [exists [], 0; split_and!; [constructor|done|lia|done]|]. exists [get32 (raw n) (part_root k)], (m + 0). rewrite <-(app_nil_r pbs).
      split_and!; [constructor; [done|lia|by left|constructor]|done|lia|done]. }
    wp_apply (ensure_block_run L HL stack_bytes stack_len stack_ok s v U k bs 0 m pbs); [done|done|done|done|done| |].
    { intros ->. inversion Hsf; subst. pose proof (nodes_pos k (zlength (part n k)) ltac:(lia)). cbn [length] in Hsp. lia. }
    intros b s1 (new1&v1&m1&pbs1&pbs2&Hb&Hg1&Hsk&Hsf2&Hperm&Hm1&_&Hin1&Hin2). rewrite (proj2 (Z.eqb_neq b 0) Hb). cbv zeta. wp.
    rewrite Htl in Hsf2. assert (m = m1 ∧ pbs2 = []) as [<- ->] by (inversion Hsf2; split; [lia|done]). rewrite app_nil_r in Hperm. pose proof (Permutation_length Hperm) as Hpl. rewrite length_app in Hpl.
    pose proof (grown_tf L s v U [] new1 v1 s1 Hi Hg1) as Htf. set (n1 := with_raw n (put32 (raw n) (part_root k) b)).
    assert (∀ x, x ∈ pbs1 → data_block L (U ∪ list_to_set new1) x) as Hd1 by (intros x; rewrite Hperm; by apply (grown_data_app L s v U [] pbs new1 v1 s1)).
    pose proof (write_tree_run L HL stack_bytes stack_len stack_ok n1 k Hbp s1 v1 (U ∪ list_to_set new1) b (part_start k) (pointer_blocks n1) m pbs1) as Hrun.
    change (chunk n1 (cap k) (part_start k)) with (chunk n (cap k) (part_start k)) in Hrun. rewrite <-part_eq in Hrun.
    wp_apply Hrun; [apply Hg1|done|rewrite Hperm; by apply (grown_apart L v U [] pbs new1 v1 s1)|done|cbn; lia|done|lia|]. clear Hrun.
    intros r s2 (cur'&pbs'&new2&v2&->&Ht&Hperm2&Hg2&_). wp. exists b, pbs', (new1 ++ new2), v2.
    pose proof (data_block_range L (U ∪ list_to_set new1) b (Hd1 b ltac:(by apply (skel_root v1 k b m)))). pose proof (dtb_pos L HL). pose proof (lo_total L HL).
    split_and!; [done|lia|lia|by right| |].
    + by rewrite Hperm2, Hperm, <-app_assoc.
    + apply (grown_step_trans L v U [] new1 v1 s1 pbs1 new2); [done|done|by intros x ?%elem_of_nil|done].
  - assert (part n k = []) as E by (apply nil_length_inv; lia). rewrite E in *. destruct Hre as [[_ ->]|[? _]]; [|cbn in *; lia]. wp. exists 0, [], [], v.
    split_and!; try lia; [|by left|done|by apply grown_refl]. rewrite app_nil_r. by destruct n.
Qed.

(** An inode whose blocks of pointers [p0 ++ p1 ++ p2] can be written. *)
Record writable v U n p0 p1 p2 : Prop := {
  wr_raw : zlength (raw n) = 128 ∧ bytes (raw n);
  wr_pointers : Forall (λ x, 0 ≤ x < 2 ^ 32) (block_pointers n);
  wr_max : zlength (block_pointers n) ≤ max_blocks;
  wr_0 : reusable v 0 (s_pointer (raw n)) (zlength (part n 0)) p0;
  wr_1 : reusable v 1 (d_pointer (raw n)) (zlength (part n 1)) p1;
  wr_2 : reusable v 2 (t_pointer (raw n)) (zlength (part n 2)) p2;
  wr_nodup : NoDup (p0 ++ p1 ++ p2);
  wr_data x : x ∈ p0 ++ p1 ++ p2 → data_block L U x;
  wr_space : nodes 0 (zlength (part n 0)) + nodes 1 (zlength (part n 1)) + nodes 2 (zlength (part n 2)) - zlength (p0 ++ p1 ++ p2) ≤ tf L U;
}.

Lemma part_same n n' k : block_pointers n' = block_pointers n → part n' k = part n k.
Proof. intros E. rewrite !part_eq. unfold chunk. by rewrite E. Qed.

(** Only the pointers and the roots matter. *)
Lemma writable_same v U n n' p0 p1 p2 : writable v U n p0 p1 p2 → block_pointers n' = block_pointers n → zlength (raw n') = 128 → bytes (raw n') → (∀ o, 88 ≤ o → get32 (raw n') o = get32 (raw n) o) → writable v U n' p0 p1 p2.
Proof.
  intros [_ Hbp Hmax H0' H1 H2 Hnd Hd Hsp] E Hl Hb Ho. unfold s_pointer, d_pointer, t_pointer in *.
  split; unfold s_pointer, d_pointer, t_pointer; rewrite ?(part_same n n') by exact E; rewrite ?E, ?Ho by lia; [split; [exact Hl|exact Hb]|exact Hbp|exact Hmax|exact H0'|exact H1|exact H2|exact Hnd|exact Hd|exact Hsp].
Qed.

Lemma num_blocks_base s s' v v' n : fs_base s v L → fs_base s' v' L → num_blocks s' n = num_blocks s n.
Proof. intros Hs Hs'. unfold num_blocks. by rewrite (fb_bs _ _ _ Hs), (fb_bs _ _ _ Hs'). Qed.

Lemma num_blocks_written s n r l : num_blocks s (with_pointer_blocks (with_raw n r) l) = num_blocks s n.
Proof. done. Qed.

Lemma part_written n r l k : part (with_pointer_blocks (with_raw n r) l) k = part n k.
Proof. by rewrite !part_eq. Qed.

(** Blocks of pointers that are not of the part just written stay. *)
Lemma grown_reusable v U p new v' s' k b c pbs : grown L v U p new v' s' → reusable v k b c pbs → (∀ x, x ∈ pbs → data_block L U x) → (∀ x, x ∈ pbs → x ∉ p) → reusable v' k b c pbs.
Proof. intros Hg Hr Hd Hp. apply (reusable_ext v v' _ _ _ _ Hr). intros x Hx. apply (grown_other L HL v U p new v' s'); [done|by apply Hd|by apply Hp]. Qed.

Lemma grown_rooted v U p new v' s' k b ps pbs : grown L v U p new v' s' → rooted v k b ps pbs → (∀ x, x ∈ pbs → data_block L U x) → (∀ x, x ∈ pbs → x ∉ p) → rooted v' k b ps pbs.
Proof. intros Hg Hr Hd Hp. apply (rooted_ext v v' _ _ _ _ Hr). intros x Hx. apply (grown_other L HL v U p new v' s'); [done|by apply Hd|by apply Hp]. Qed.

Lemma grown_beside v U p new v' s' pbs (other : list Z) x : grown L v U p new v' s' → (∀ y, y ∈ other → data_block L U y) → (∀ y, y ∈ pbs → y ∉ other) → x ∈ pbs ++ new → x ∉ other.
Proof. intros Hg Ho Hap [Hx|Hx]%elem_of_app; [by apply Hap|]. intros Hx'. by apply (gw_free _ _ _ _ _ _ _ Hg x Hx), Ho. Qed.

(** The three parts, one after the other, and what follows. *)
Lemma write_parts_run s v U n p0 p1 p2 (K : inode → eff D (result unit * inode)) Q : fs_inv s v L U → writable v U n p0 p1 p2 → num_blocks s n = zlength (block_pointers n) → pointer_blocks n = [] →
  (∀ b0 b1 b2 q0 q1 q2 new v' s', 0 ≤ b0 < 2 ^ 32 → 0 ≤ b1 < 2 ^ 32 → 0 ≤ b2 < 2 ^ 32 → rooted v' 0 b0 (part n 0) q0 → rooted v' 1 b1 (part n 1) q1 → rooted v' 2 b2 (part n 2) q2 →
    q0 ++ q1 ++ q2 ≡ₚ (p0 ++ p1 ++ p2) ++ new → grown L v U (p0 ++ p1 ++ p2) new v' s' →
    run (K (with_pointer_blocks (with_raw n (put32 (put32 (put32 (raw n) 88 b0) 92 b1) 96 b2)) (q0 ++ q1 ++ q2))) s' Q) →
  run ('(ok, n) ← write_part stack_bytes 0 88 12 n;
       if negb ok then ret (Err (- ENOSPC), n)
       else
         '(ok, n) ← write_part stack_bytes 1 92 268 n;
         if negb ok then ret (Err (- ENOSPC), n) else '(ok, n) ← write_part stack_bytes 2 96 65804 n; if negb ok then ret (Err (- ENOSPC), n) else K n) s Q.
Proof.
  intros Hi [[Hrl Hrb] Hbp Hmax H0' H1 H2 Hnd Hd Hsp] Hnb Hpb HK. pose proof Hnd as (Hnd0&Hap0&(Hnd1&Hap1&Hnd2)%NoDup_app)%NoDup_app. rewrite !length_app in Hsp.
  assert (∀ x, x ∈ p0 → data_block L U x) as Hd0 by (intros; apply Hd, elem_of_app; by left). assert (∀ x, x ∈ p1 → data_block L U x) as Hd1 by (intros; apply Hd; rewrite !elem_of_app; by right; left).
  assert (∀ x, x ∈ p2 → data_block L U x) as Hd2 by (intros; apply Hd; rewrite !elem_of_app; by right; right). assert (∀ x, x ∈ p0 → (x ∉ p1) ∧ x ∉ p2) as Hap0' by (intros x Hx; specialize (Hap0 x Hx); rewrite elem_of_app in Hap0; tauto).
  pose proof (reusable_size _ _ _ _ _ H1) as Hs1. pose proof (reusable_size _ _ _ _ _ H2) as Hs2. wp.
  wp_apply (write_part_run s v U 0 n p0); [done|done|done|done|done|done|done|lia|]. intros r s1 (b0&q0&new0&v1&->&Hb0&Hq0&Hperm0&Hg0). cbn [negb]. wp. change (part_root 0) with 88.
  pose proof (rooted_size _ _ _ _ _ Hq0) as Hl0. pose proof (Permutation_length Hperm0) as Hpl0. rewrite length_app in Hpl0. pose proof (grown_tf L s v U p0 new0 v1 s1 Hi Hg0) as Htf0.
  assert (∀ x, x ∈ p1 ++ p2 → data_block L (U ∪ list_to_set new0) x) as Hd12 by (intros x Hx; apply (data_block_sub L U); [apply union_subseteq_l|]; apply Hd, elem_of_app; by right).
  wp_apply (write_part_run s1 v1 (U ∪ list_to_set new0) 1 _ p1); [apply Hg0|done|done| | |done|intros; apply Hd12, elem_of_app; by left|rewrite part_written; lia|].
  { rewrite num_blocks_written, (num_blocks_base s s1 v v1); [done|apply Hi|apply Hg0]. }
  { rewrite part_written. apply (grown_reusable v U p0 new0 v1 s1); [done| |done|naive_solver]. cbn. rewrite get32_put32_other by (unfold part_root; lia). done. }
  intros r s2 (b1&q1&new1&v2&->&Hb1&Hq1&Hperm1&Hg1). cbn [negb]. wp. change (part_root 1) with 92. rewrite part_written in Hq1.
  pose proof (rooted_size _ _ _ _ _ Hq1) as Hl1. pose proof (Permutation_length Hperm1) as Hpl1. rewrite length_app in Hpl1. pose proof (grown_tf L s1 v1 _ p1 new1 v2 s2 (gw_inv _ _ _ _ _ _ _ Hg0) Hg1) as Htf1.
  assert (∀ x, x ∈ p2 → data_block L (U ∪ list_to_set new0 ∪ list_to_set new1) x) as Hd2' by (intros x Hx; apply (data_block_sub L (U ∪ list_to_set new0)); [apply union_subseteq_l|]; apply Hd12, elem_of_app; by right).
  wp_apply (write_part_run s2 v2 (U ∪ list_to_set new0 ∪ list_to_set new1) 2 _ p2); [apply Hg1|done|done| | |done|done|rewrite !part_written; lia|].
  { rewrite !num_blocks_written, (num_blocks_base s s2 v v2); [done|apply Hi|apply Hg1]. }
  { rewrite !part_written. apply (grown_reusable v1 (U ∪ list_to_set new0) p1 new1 v2 s2); [done| |intros; apply Hd12, elem_of_app; by right|naive_solver].
    apply (grown_reusable v U p0 new0 v1 s1); [done| |done|naive_solver]. cbn. rewrite !get32_put32_other by (rewrite ?length_put32; unfold part_root; lia). done. }
  intros r s3 (b2&q2&new2&v3&->&Hb2&Hq2&Hperm2&Hg2). cbn [negb]. change (part_root 2) with 96. rewrite !part_written in Hq2.
  match goal with |- run (K ?x) _ _ => replace x with (with_pointer_blocks (with_raw n (put32 (put32 (put32 (raw n) 88 b0) 92 b1) 96 b2)) (q0 ++ q1 ++ q2)) by (unfold with_pointer_blocks; cbn; by rewrite Hpb, <-app_assoc) end.
  apply (HK b0 b1 b2 q0 q1 q2 (new0 ++ new1 ++ new2) v3 s3 Hb0 Hb1 Hb2).
  - assert (∀ x, x ∈ q0 → data_block L (U ∪ list_to_set new0) x) as Hdq0 by (intros x; rewrite Hperm0; by apply (grown_data_app L s v U p0 p0 new0 v1 s1)).
    apply (grown_rooted v2 (U ∪ list_to_set new0 ∪ list_to_set new1) p2 new2 v3 s3 0 _ _ _ Hg2).
    + apply (grown_rooted v1 (U ∪ list_to_set new0) p1 new1 v2 s2 0 _ _ _ Hg1 Hq0 Hdq0). intros x. rewrite Hperm0. apply (grown_beside v U p0 new0 v1 s1 p0 p1 x Hg0 Hd1). naive_solver.
    + intros x Hx. apply (data_block_sub L (U ∪ list_to_set new0)); [apply union_subseteq_l|by apply Hdq0].
    + intros x. rewrite Hperm0. apply (grown_beside v U p0 new0 v1 s1 p0 p2 x Hg0 Hd2). naive_solver.
  - apply (grown_rooted v2 (U ∪ list_to_set new0 ∪ list_to_set new1) p2 new2 v3 s3 1 _ _ _ Hg2 Hq1); intros x; rewrite Hperm1.
    + apply (grown_data_app L s1 v1 (U ∪ list_to_set new0) p1 p1 new1 v2 s2); [apply Hg0|done|]. intros; apply Hd12, elem_of_app; by left.
    + apply (grown_beside v1 (U ∪ list_to_set new0) p1 new1 v2 s2 p1 p2 x Hg1); [|done]. intros; apply Hd12, elem_of_app; by right.
  - exact Hq2.
  - rewrite Hperm0, Hperm1, Hperm2. solve_Permutation.
  - rewrite (app_assoc new0). apply (grown_step_trans L v U (p0 ++ p1) (new0 ++ new1) v2 s2 p2 new2).
    + apply (grown_step_trans L v U p0 new0 v1 s1 p1 new1); [done|done|intros; apply elem_of_app; by left|]. intros; left; apply elem_of_app; by right.
    + by rewrite list_to_set_app_L, union_assoc_L.
    + intros x. rewrite !elem_of_app. tauto.
    + intros x. rewrite !elem_of_app. tauto.
Qed.

(** What is left of the inode when its pointers are written. *)
Definition same_file n n' : Prop := id n' = id n ∧ block_pointers n' = block_pointers n ∧ _metadata n' = _metadata n ∧ _exists n' = _exists n ∧ hard_links (raw n') = hard_links (raw n).

(** [write_block_pointers] makes a tree of the pointers of the inode, in its old blocks of pointers and in new ones. *)
Lemma write_block_pointers_run s v U n p0 p1 p2 : fs_inv s v L U → writable v U n p0 p1 p2 → num_blocks s n = zlength (block_pointers n) → inline_symlink n = false → is_device (_metadata n) = false →
  run (write_block_pointers stack_bytes n) s (λ r s', ∃ n' new v', r = (Ok tt, n') ∧ same_file n n' ∧ zlength (raw n') = 128 ∧ bytes (raw n') ∧ inode_tree v' n' ∧
    pointer_blocks n' ≡ₚ (p0 ++ p1 ++ p2) ++ new ∧ grown L v U (p0 ++ p1 ++ p2) new v' s').
Proof.
  intros Hi Hw Hnb Hsym Hdev. destruct (direct_pointers_spec (with_pointer_blocks n [])) as (Hdl&Hdb&Hdg&Hd32&Hd16); [apply Hw..|]. cbn [raw with_pointer_blocks] in *.
  unfold write_block_pointers. rewrite Hsym. cbv zeta. change (is_device (_metadata (with_pointer_blocks n []))) with (is_device (_metadata n)). rewrite Hdev. apply run_bind, run_get. rewrite (fb_bppb _ _ _ (fi_base _ _ _ _ Hi)).
  change (12 + 256) with 268. change (268 + 256 * 256) with 65804. set (n0 := with_raw (with_pointer_blocks n []) (direct_pointers (with_pointer_blocks n []))) in *.
  assert (writable v U n0 p0 p1 p2) as Hw0.
  { by apply (writable_same v U n). }
  apply (write_parts_run s v U n0 p0 p1 p2 (λ n, _) _ Hi Hw0); [done|done|]. intros b0 b1 b2 q0 q1 q2 new v' s' Hb0 Hb1 Hb2 H0' H1 H2 Hperm Hg. wp. eexists _, new, v'. split; [done|].
  set (k := u32 _). clearbody k. destruct (roots_spec (direct_pointers (with_pointer_blocks n [])) b0 b1 b2 k Hdl Hdb Hb0 Hb1 Hb2) as (Hl'&Hb'&E0&E1&E2&Hdir&Hhl). split_and!; [|exact Hl'|exact Hb'| |exact Hperm|exact Hg].
  - split_and!; try done. cbn. rewrite Hhl. apply Hd16; lia.
  - split; [apply Hw| |].
    + intros i Hi'. cbn. rewrite Hdir by done. by apply Hdg.
    + exists q0, q1, q2. rewrite (part_same n0 _ 0), (part_same n0 _ 1), (part_same n0 _ 2) by reflexivity. cbn [raw pointer_blocks with_dirty with_raw with_pointer_blocks n0]. split_and!; [done|rewrite E0; exact H0'|rewrite E1; exact H1|rewrite E2; exact H2].
Qed.
End pointers.
