(* ===== verification/Ext2Entry.v ===== *)
(** * ext2: the inode table

    Where the entry of an inode lies, and that writing an inode to the disk and reading it
    back gives the same inode. *)

From stdpp Require Import base numbers list list_numbers option gmap sets.
From S2P Require Import Prelude.
From S2P Require Import ByteBuf.
From S2P Require Import FileBlocks.
From S2P Require Import Ext2.
From S2P Require Import Ext2Inv.
From S2P Require Import Ext2Alloc.
From S2P Require Import Ext2Inode.
From S2P Require Import Ext2Tree.
From S2P Require Import Ext2Pointers.

Local Open Scope Z_scope.

Implicit Types (v buf ps pbs bs : list Z) (b i m : Z) (k : nat) (n : inode) (U : gset Z).

(** The block of the entry of inode [i], and its place there. *)
Definition inode_block (L : layout) i : Z := it L ((i - 1) / l_ipg L) + ((i - 1) mod l_ipg L) / 8.
Definition inode_offset (L : layout) i : Z := ((i - 1) mod l_ipg L) mod 8 * 128.
Definition inode_addr (L : layout) i : Z := inode_block L i * 1024 + inode_offset L i.
Definition entry (L : layout) v i : list Z := slice (inode_addr L i) 128 v.

Definition inode_number (L : layout) i : Prop := 1 ≤ i ≤ ng L * l_ipg L.

Section entry.
Context {D : Type} `{ByteFileSpec D}.
Context (L : layout) (HL : layout_ok L).
Implicit Types (s : ext2 D).

Lemma inode_group i : inode_number L i → 0 ≤ (i - 1) / l_ipg L < ng L ∧ 0 ≤ (i - 1) mod l_ipg L < l_ipg L.
Proof.
  intros Hi. destruct (lo_ipg L HL). unfold inode_number in Hi. split; [|apply Z.mod_pos_bound; lia]. split; [apply Z.div_pos; lia|]. apply Z.div_lt_upper_bound; lia.
Qed.

Lemma inode_block_table i : inode_number L i → inode_block L i ∈ seqZ (it L ((i - 1) / l_ipg L)) (itb L).
Proof.
  intros Hi. destruct (inode_group i Hi) as [_ Hm]. destruct (lo_ipg L HL) as [_ H8]. apply elem_of_seqZ. unfold inode_block, itb. pose proof (Z.div_pos ((i - 1) mod l_ipg L) 8 ltac:(lia) ltac:(lia)).
  assert ((i - 1) mod l_ipg L / 8 < l_ipg L / 8); [|lia]. apply Z.div_lt_upper_bound; [lia|]. pose proof (Z.div_mod (l_ipg L) 8 ltac:(lia)). lia.
Qed.

Lemma inode_block_range i : inode_number L i → 2 + dtb L ≤ inode_block L i < l_total L ∧ inode_block L i ∈ meta L ∧ ¬ volatile L (inode_block L i).
Proof.
  intros Hi. destruct (inode_group i Hi) as [Hg _]. pose proof (inode_block_table i Hi) as Ht. set (g := (i - 1) / l_ipg L) in *.
  assert (inode_block L i ∈ group_meta L (bb L g, ib L g, it L g)) as Hin by (by right; right). pose proof (group_meta_in L _ _ Hg Hin) as Hmeta. pose proof (lo_range L HL _ Hmeta) as Hr.
  pose proof (table_apart L _ _ HL Hg Hin) as Hta. split_and!; [done|lia|done|]. intros [Hv|(g'&Hg'&E)]; [lia|]. assert (g' = g) as ->.
  { apply (group_meta_apart L _ _ (inode_block L i) HL Hg' Hg); [destruct E as [-> | ->]; [by left|right; by left]|done]. }
  pose proof (group_meta_nodup L _ HL Hg) as [Hnot Hnot']%NoDup_cons. destruct E as [E|E]; [apply Hnot; rewrite <-E; by right|]. apply NoDup_cons in Hnot' as [Hnot' _]. apply Hnot'. by rewrite <-E.
Qed.

Lemma inode_offset_range i : inode_number L i → 0 ≤ inode_offset L i ≤ 896.
Proof. intros Hi. unfold inode_offset. pose proof (Z.mod_pos_bound ((i - 1) mod l_ipg L) 8 ltac:(lia)). lia. Qed.

(** What [block_group], [block] and [index] give. *)
Lemma entry_place s v n : fs_base s v L → inode_number L (id n) → block_group_of s n = (id n - 1) / l_ipg L ∧ entry_offset s n = inode_offset L (id n) ∧
  (∀ x, inode_table_block x = it L ((id n - 1) / l_ipg L) → entry_block s x n = inode_block L (id n)).
Proof.
  intros Hs Hn. destruct (inode_group (id n) Hn) as [Hg Hm]. destruct (inode_block_range (id n) Hn) as (Hr&_&_). pose proof (lo_inodes L HL). pose proof (lo_total L HL). pose proof (lo_ipg L HL). pose proof (dtb_pos L HL).
  unfold inode_number in Hn. assert (u32 (id n - 1) = id n - 1) as E by (apply u32_id; lia). unfold entry_offset, entry_block, block_of, block_group_of, index_of.
  rewrite (fb_ipg _ _ _ Hs), (fb_ipb _ _ _ Hs), (fb_isz _ _ _ Hs), (fb_bs _ _ _ Hs), E. split_and!; [done|done|]. intros x ->. rewrite (u32_id (_ * 128)) by lia.
  replace ((id n - 1) mod l_ipg L * 128 / 1024) with ((id n - 1) mod l_ipg L / 8); [unfold inode_block in *; apply u32_id; lia|].
  change 1024 with (8 * 128). by rewrite Z.div_mul_cancel_r by lia.
Qed.

Lemma entry_blk v i : inode_number L i → slice (inode_offset L i) 128 (blk 1024 v (inode_block L i)) = entry L v i.
Proof.
  intros Hi. destruct (inode_block_range i Hi) as (Hr&_&_). pose proof (inode_offset_range i Hi). pose proof (dtb_pos L HL). unfold blk, entry, inode_addr. by rewrite slice_slice by lia.
Qed.

(** The bytes [write_inode_entry] writes. *)
Definition entry_bytes n : list Z := let m := _metadata n in put16 (put16 (put16 (put32 (raw n) 4 (size m)) 0 (mode m)) 2 (uid m)) 24 (gid m).

(** The fields fit in their places. *)
Definition metadata_ok (m : metadata) : Prop := 0 ≤ size m < 2 ^ 32 ∧ 0 ≤ mode m < 2 ^ 16 ∧ 0 ≤ uid m < 2 ^ 16 ∧ 0 ≤ gid m < 2 ^ 16.

Lemma entry_bytes_spec n : zlength (raw n) = 128 → bytes (raw n) → metadata_ok (_metadata n) → let r := entry_bytes n in
  zlength r = 128 ∧ bytes r ∧ raw_size r = size (_metadata n) ∧ raw_mode r = mode (_metadata n) ∧ raw_uid r = uid (_metadata n) ∧ raw_gid r = gid (_metadata n) ∧
  (∀ o, 28 ≤ o → get32 r o = get32 (raw n) o) ∧ hard_links r = hard_links (raw n).
Proof.
  intros Hl Hb (Hs&Hm&Hu&Hg) r. unfold r, entry_bytes, raw_size, raw_mode, raw_uid, raw_gid, hard_links. cbv zeta. set (m := _metadata n) in *.
  set (r1 := put32 (raw n) 4 (size m)). assert (zlength r1 = 128) as L1 by (unfold r1; rewrite length_put32; lia). set (r2 := put16 r1 0 (mode m)). assert (zlength r2 = 128) as L2 by (unfold r2; rewrite length_put16; lia).
  set (r3 := put16 r2 2 (uid m)). assert (zlength r3 = 128) as L3 by (unfold r3; rewrite length_put16; lia). split_and!.
  - rewrite length_put16; lia.
  - unfold r3, r2, r1. repeat apply bytes_put16. by apply bytes_put32.
  - rewrite get32_put16_other by lia. unfold r3. rewrite get32_put16_other by lia. unfold r2. rewrite get32_put16_other by lia. unfold r1. rewrite get32_put32 by lia. by apply u32_id.
  - rewrite get16_put16_other by lia. unfold r3. rewrite get16_put16_other by lia. unfold r2. rewrite get16_put16 by lia. by apply u16_id.
  - rewrite get16_put16_other by lia. unfold r3. rewrite get16_put16 by lia. by apply u16_id.
  - rewrite get16_put16 by lia. by apply u16_id.
  - intros o Ho. rewrite get32_put16_other by lia. unfold r3. rewrite get32_put16_other by lia. unfold r2. rewrite get32_put16_other by lia. unfold r1. by rewrite get32_put32_other by lia.
  - rewrite get16_put16_other by lia. unfold r3. rewrite get16_put16_other by lia. unfold r2. rewrite get16_put16_other by lia. unfold r1. by rewrite get16_put32_other by lia.
Qed.

Lemma blk_range s v i : fs_base s v L → inode_number L i → inode_addr L i + 128 ≤ zlength v ∧ 0 ≤ inode_addr L i.
Proof. intros Hs Hi. destruct (inode_block_range i Hi) as (Hr&_&_). pose proof (inode_offset_range i Hi). pose proof (dtb_pos L HL). pose proof (fb_len _ _ _ Hs). unfold inode_addr. lia. Qed.

(** [write_inode_entry] writes the entry, and nothing else. *)
Lemma write_inode_entry_run s v U n : fs_inv s v L U → inode_number L (id n) → zlength (raw n) = 128 → bytes (raw n) → metadata_ok (_metadata n) →
  run (write_inode_entry n) s (λ r s', r = with_dirty (with_raw n (entry_bytes n)) false ∧ fs_inv s' (splice v (inode_addr L (id n)) (entry_bytes n)) L U).
Proof.
  intros Hi Hn Hl Hb Hm. pose proof (fi_base _ _ _ _ Hi) as Hs. destruct (inode_group (id n) Hn) as [Hg _]. destruct (inode_block_range (id n) Hn) as (Hr&_&Hv). pose proof (inode_offset_range (id n) Hn) as Ho.
  destruct (entry_bytes_spec n Hl Hb Hm) as (Hl'&Hb'&_). pose proof (dtb_pos L HL). pose proof (fb_len _ _ _ Hs) as Hlen. unfold write_inode_entry. cbv zeta. fold (entry_bytes n). wp.
  set (n1 := with_raw n (entry_bytes n)). destruct (entry_place s v n1 Hs Hn) as (-> & -> & Heb). wp_apply (get_block_group_run L HL s v U); [done|done|]. intros r s1 (->&Hi1&_).
  destruct (fi_group _ _ _ _ Hi1 _ Hg) as (_&_&Hit&_). rewrite Heb by done. wp. change (id n1) with (id n). wp_apply (fs_read_block_run s1 v L (inode_block L (id n))); [apply Hi1|lia|]. intros r s2 (->&Hst). wp.
  set (buf := splice _ _ _). assert (zlength (blk 1024 v (inode_block L (id n))) = 1024) as Hbl by (apply length_blk; [lia|split; lia]).
  assert (zlength buf = 1024) as Hbufl by (unfold buf; rewrite length_splice; lia). wp_apply (fs_write_block_run s2 v L (inode_block L (id n)) buf); [apply Hst|lia|done|apply bytes_splice; [apply bytes_slice, Hs|done]|].
  intros r s3 (->&Hst3). wp. split; [done|]. replace (splice v (inode_addr L (id n)) (entry_bytes n)) with (splice v (inode_block L (id n) * 1024) buf).
  - apply (inv_write L HL s2 v U); try done. by apply (inv_stored L s1).
  - unfold buf, blk, inode_addr. rewrite splice_splice by lia. done.
Qed.

(** The entries of two inodes do not overlap. *)
Lemma inode_addr_apart i j : inode_number L i → inode_number L j → i ≠ j → inode_addr L i + 128 ≤ inode_addr L j ∨ inode_addr L j + 128 ≤ inode_addr L i.
Proof.
  intros Hi Hj Hne. pose proof (inode_offset_range i Hi). pose proof (inode_offset_range j Hj). unfold inode_addr.
  destruct (decide (inode_block L i = inode_block L j)) as [E|]; [|lia]. rewrite E. assert (inode_offset L i ≠ inode_offset L j) as Ho; [|unfold inode_offset in *; lia].
  destruct (inode_group i Hi) as [Hgi Hmi]. destruct (inode_group j Hj) as [Hgj Hmj]. assert ((i - 1) / l_ipg L = (j - 1) / l_ipg L) as Eg.
  { apply (group_meta_apart L _ _ (inode_block L j) HL Hgi Hgj); right; right; [rewrite <-E|]; by apply inode_block_table. }
  unfold inode_block in E. rewrite Eg in E. unfold inode_offset. intros Eo. apply Hne. pose proof (Z.div_mod ((i - 1) mod l_ipg L) 8 ltac:(lia)). pose proof (Z.div_mod ((j - 1) mod l_ipg L) 8 ltac:(lia)).
  pose proof (lo_ipg L HL). pose proof (Z.div_mod (i - 1) (l_ipg L) ltac:(lia)) as Hi'. pose proof (Z.div_mod (j - 1) (l_ipg L) ltac:(lia)) as Hj'. rewrite Eg in Hi'. lia.
Qed.

Lemma entry_other s v i j (l : list Z) : fs_base s v L → inode_number L i → inode_number L j → i ≠ j → zlength l = 128 → entry L (splice v (inode_addr L i) l) j = entry L v j.
Proof.
  intros Hs Hi Hj Hne Hl. pose proof (blk_range s v i Hs Hi). pose proof (blk_range s v j Hs Hj). pose proof (inode_addr_apart i j Hi Hj Hne). unfold entry. apply slice_splice_other; lia.
Qed.

(** An inode of a file or directory. *)
Record inode_ok U n : Prop := {
  ok_number : inode_number L (id n);
  ok_raw : zlength (raw n) = 128 ∧ bytes (raw n);
  ok_metadata : metadata_ok (_metadata n) ∧ size (_metadata n) ≤ 2 ^ 32 - 1024;
  ok_device : inode_id (_metadata n) = id n ∧ dev_major (_metadata n) = 0 ∧ dev_minor (_metadata n) = 0 ∧ is_device (_metadata n) = false;
  ok_symlink : inline_symlink n = false;
  ok_blocks : zlength (block_pointers n) = (size (_metadata n) + 1023) / 1024;
  ok_nodup : NoDup (block_pointers n ++ pointer_blocks n);
  ok_data x : x ∈ block_pointers n ++ pointer_blocks n → data_block L U x;
}.

(** Its entry and its blocks of pointers are on the disk. *)
Record on_disk v n : Prop := {
  od_entry : entry L v (id n) = raw n;
  od_size : raw_size (raw n) = size (_metadata n);
  od_mode : raw_mode (raw n) = mode (_metadata n);
  od_uid : raw_uid (raw n) = uid (_metadata n);
  od_gid : raw_gid (raw n) = gid (_metadata n);
  od_tree : inode_tree v n;
}.

Lemma num_blocks_ok s v U n : fs_base s v L → inode_ok U n → num_blocks s n = zlength (block_pointers n).
Proof.
  intros Hs Hn. unfold num_blocks. rewrite (ok_symlink _ _ Hn), (fb_bs _ _ _ Hs), (ok_blocks _ _ Hn). destruct (ok_metadata _ _ Hn) as [[? _] ?].
  replace (size (_metadata n) + 1024 - 1) with (size (_metadata n) + 1023) by lia. by rewrite u32_id by lia.
Qed.

(** An inode on the disk is read as it is. *)
Lemma load_inode_run s v U n : fs_inv s v L U → inode_ok U n → on_disk v n →
  run (load_inode (id n)) s (λ r s', r = mk_inode (id n) (raw n) (block_pointers n) (pointer_blocks n) (_metadata n) false true ∧ fs_inv s' v L U).
Proof.
  intros Hi Hn Hd. pose proof (fi_base _ _ _ _ Hi) as Hs. pose proof (ok_number _ _ Hn) as Hnum. destruct (inode_group (id n) Hnum) as [Hg _]. destruct (inode_block_range (id n) Hnum) as (Hr&_&_).
  unfold load_inode. cbv zeta. wp. set (n0 := mk_inode _ _ _ _ _ _ _). destruct (entry_place s v n0 Hs Hnum) as (-> & -> & Heb). wp_apply (get_block_group_run L HL s v U); [done|done|]. intros r s1 (->&Hi1&_).
  destruct (fi_group _ _ _ _ Hi1 _ Hg) as (_&_&Hit&_). rewrite Heb by done. wp. pose proof (dtb_pos L HL). change (id n0) with (id n). wp_apply (fs_read_block_run s1 v L (inode_block L (id n))); [apply Hi1|lia|]. intros r s2 (->&Hst). wp.
  rewrite entry_blk, (od_entry _ _ Hd) by done. set (n1 := create_metadata _). destruct (ok_device _ _ Hn) as (Eid&Ema&Emi&Edev).
  assert (n1 = mk_inode (id n) (raw n) [] [] (_metadata n) false true) as ->.
  { assert (mk_metadata (raw_uid (raw n)) (raw_gid (raw n)) (raw_mode (raw n)) (raw_size (raw n)) (id n) 0 0 = _metadata n) as Em by (rewrite (od_uid _ _ Hd), (od_gid _ _ Hd), (od_mode _ _ Hd), (od_size _ _ Hd), <-Eid, <-Ema at 1; rewrite <-Emi; by destruct (_metadata n)).
    unfold n1, create_metadata. cbn [raw id n0 with_raw]. rewrite Em, Edev. done. }
  cbn [_metadata]. rewrite Edev. wp_apply (read_block_pointers_run L v s2 n); [apply Hst|apply Hd|done|by apply Hn| | |].
  - rewrite <-(num_blocks_ok s2 v U n); [done|apply Hst|done].
  - intros x Hx. pose proof (data_block_range L U x (ok_data _ _ Hn x ltac:(apply elem_of_app; by right))). lia.
  - intros n' s' (->&Hst'). split; [done|]. apply (inv_stored L s2); [|done]. by apply (inv_stored L s1).
Qed.

(** The entry of inode [i] and the blocks [pbs] may have changed, and the blocks [new] have been taken. *)
Record updated v U i pbs (new : list Z) v' s' : Prop := {
  up_inv : fs_inv s' v' L (U ∪ list_to_set new);
  up_nodup : NoDup new;
  up_free b : b ∈ new → b ∈ all_blocks L ∧ b ∉ U;
  up_keep b : data_block L U b → b ∉ pbs → blk 1024 v' b = blk 1024 v b;
  up_entries j : inode_number L j → j ≠ i → entry L v' j = entry L v j;
}.

Lemma grown_entry v U pbs new v' s' j : fs_inv s' v' L (U ∪ list_to_set new) → grown L v U pbs new v' s' → (∀ x, x ∈ pbs → data_block L U x) → (∀ b, b ∈ meta L → b ∈ U) → inode_number L j → entry L v' j = entry L v j.
Proof.
  intros Hi Hg Hd HU Hj. destruct (inode_block_range j Hj) as (Hr&Hm&Hv). pose proof (dtb_pos L HL). rewrite <-!entry_blk by done. f_equal. apply (gw_keep _ _ _ _ _ _ _ Hg); [by apply HU|lia|done|].
  intros Hx. by apply (Hd _ Hx).
Qed.

(** A block of a file is not changed by writing an entry. *)
Lemma entry_keeps_blk s v U i (l : list Z) b : fs_base s v L → inode_number L i → zlength l = 128 → data_block L U b → blk 1024 (splice v (inode_addr L i) l) b = blk 1024 v b.
Proof.
  intros Hs Hi Hl Hb. destruct (inode_block_range i Hi) as (Hr&Hm&_). pose proof (inode_offset_range i Hi). pose proof (data_block_range L U b Hb). pose proof (dtb_pos L HL). pose proof (blk_range s v i Hs Hi).
  assert (b ≠ inode_block L i) by (intros ->; by apply (proj1 (proj2 (proj2 Hb)))). apply blk_other; unfold inode_addr in *; lia.
Qed.

Lemma inode_tree_same v v' n n' : inode_tree v n → block_pointers n' = block_pointers n → pointer_blocks n' = pointer_blocks n → (∀ o, 28 ≤ o → get32 (raw n') o = get32 (raw n) o) →
  (∀ x, x ∈ pointer_blocks n → blk 1024 v' x = blk 1024 v x) → inode_tree v' n'.
Proof.
  intros [Hmax Hdir (q0&q1&q2&Hq&H0'&H1&H2)] Eb Ep Ho Hx. split.
  - by rewrite Eb.
  - intros i Hi. unfold raw_pointer. rewrite Ho by lia. unfold get_block_pointer. rewrite Eb. by apply Hdir.
  - exists q0, q1, q2. rewrite (part_same n n' 0), (part_same n n' 1), (part_same n n' 2) by exact Eb. unfold s_pointer, d_pointer, t_pointer in *. rewrite !Ho by lia. rewrite Hq in Hx.
    split_and!; [by rewrite Ep|apply (rooted_ext v v' 0 _ _ _ H0')|apply (rooted_ext v v' 1 _ _ _ H1)|apply (rooted_ext v v' 2 _ _ _ H2)]; intros x Hin; apply Hx; rewrite !elem_of_app; tauto.
Qed.

Lemma inode_ok_written s v U n n1 new v1 s1 r : fs_inv s v L U → inode_ok U n → id n1 = id n → block_pointers n1 = block_pointers n → _metadata n1 = _metadata n → zlength r = 128 → bytes r →
  pointer_blocks n1 ≡ₚ pointer_blocks n ++ new → grown L v U (pointer_blocks n) new v1 s1 → inode_ok (U ∪ list_to_set new) (with_dirty (with_raw n1 r) false).
Proof.
  intros Hi Hn Eid Ebp Em Hl Hb Hperm Hg. assert (block_pointers n1 ++ pointer_blocks n1 ≡ₚ (block_pointers n ++ pointer_blocks n) ++ new) as Hp by (by rewrite Ebp, Hperm, app_assoc).
  destruct Hn as [? ? ? ? Hsym ? Hnd Hd]. split; unfold inline_symlink; cbn; rewrite ?Eid, ?Em, ?Ebp; try done.
  - rewrite <-Ebp, Hp. by apply (grown_apart L v U (pointer_blocks n) _ new v1 s1).
  - intros x. rewrite <-Ebp, Hp. by apply (grown_data_app L s v U (pointer_blocks n) _ new v1 s1).
Qed.

Lemma updated_entry s v U n1 pbs new v1 s1 s2 : fs_inv s v L U → grown L v U pbs new v1 s1 → (∀ x, x ∈ pbs → data_block L U x) → inode_number L (id n1) → zlength (entry_bytes n1) = 128 →
  fs_inv s2 (splice v1 (inode_addr L (id n1)) (entry_bytes n1)) L (U ∪ list_to_set new) → updated v U (id n1) pbs new (splice v1 (inode_addr L (id n1)) (entry_bytes n1)) s2.
Proof.
  intros Hi Hg Hd Hnum Hl Hi2. pose proof (fi_base _ _ _ _ (gw_inv _ _ _ _ _ _ _ Hg)) as Hs1. split; [done|apply Hg|apply Hg| |].
  - intros b Hb Hnb. rewrite (entry_keeps_blk s1 v1 U) by done. by apply (grown_other L HL v U pbs new v1 s1).
  - intros j Hj Hne. rewrite (entry_other s1 v1) by done. apply (grown_entry v U pbs new v1 s1); try done; [apply Hg|apply Hi].
Qed.

Context (stack_bytes : list Z) (stack_len : length stack_bytes = 14%nat) (stack_ok : bytes stack_bytes).

(** [write_to_disk] puts the inode on the disk; it changes only the entry and the blocks of pointers of the inode, and takes new blocks for more of them. *)
Lemma write_to_disk_run s v U n p0 p1 p2 : fs_inv s v L U → inode_ok U n → pointer_blocks n = p0 ++ p1 ++ p2 → writable L v U n p0 p1 p2 →
  run (write_to_disk stack_bytes n) s (λ r s', ∃ n' new v', r = (Ok tt, n') ∧ same_file n n' ∧ _dirty n' = false ∧ inode_ok (U ∪ list_to_set new) n' ∧ on_disk v' n' ∧ pointer_blocks n' ≡ₚ pointer_blocks n ++ new ∧
    updated v U (id n) (pointer_blocks n) new v' s').
Proof.
  intros Hi Hn Hpb Hw. pose proof (fi_base _ _ _ _ Hi) as Hs. unfold write_to_disk. wp. rewrite Hpb.
  wp_apply (write_block_pointers_run L HL stack_bytes stack_len stack_ok s v U n p0 p1 p2); [done|done|by apply (num_blocks_ok s v U)|apply Hn|apply Hn|].
  intros r s1 (n1&new&v1&->&(Eid&Ebp&Em&Eex&Ehl)&Hl1&Hb1&Ht1&Hperm&Hg). cbn beta iota. wp. rewrite <-Hpb in *. clear Hpb.
  assert (metadata_ok (_metadata n1)) as Hm1 by (rewrite Em; apply Hn). pose proof (ok_number _ _ Hn) as Hnum. rewrite <-Eid in Hnum.
  wp_apply (write_inode_entry_run s1 v1 (U ∪ list_to_set new) n1); [apply Hg|done|done|done|done|]. intros n' s2 (->&Hi2). wp.
  destruct (entry_bytes_spec n1 Hl1 Hb1 Hm1) as (Hl'&Hb'&Es&Emo&Eu&Eg&Ho&Eh). pose proof (fi_base _ _ _ _ (gw_inv _ _ _ _ _ _ _ Hg)) as Hs1. pose proof (blk_range s1 v1 (id n1) Hs1 Hnum) as Hrange.
  assert (∀ x, x ∈ pointer_blocks n ++ new → data_block L (U ∪ list_to_set new) x) as Hdp by (intros x; apply (grown_data_app L s v U (pointer_blocks n) (pointer_blocks n) new v1 s1 x Hi Hg); intros y Hy; apply (ok_data _ _ Hn), elem_of_app; by right).
  exists (with_dirty (with_raw n1 (entry_bytes n1)) false), new, (splice v1 (inode_addr L (id n1)) (entry_bytes n1)). split; [done|]. split_and!; cbn [id raw block_pointers pointer_blocks _metadata _exists with_dirty with_raw].
  - split_and!; cbn; try done. by rewrite Eh.
  - done.
  - by apply (inode_ok_written s v U n n1 new v1 s1).
  - split; cbn [id raw block_pointers pointer_blocks _metadata _exists with_dirty with_raw]; try done; [unfold entry; apply slice_splice_eq; lia|].
    apply (inode_tree_same v1 _ n1); try done. intros x Hx. rewrite Hperm in Hx. apply (entry_keeps_blk s1 v1 (U ∪ list_to_set new)); try done. by apply Hdp.
  - exact Hperm.
  - rewrite <-Eid. apply (updated_entry s v U n1 (pointer_blocks n) new v1 s1); try done. intros x Hx. apply (ok_data _ _ Hn), elem_of_app. by right.
Qed.
End entry.
