(* ===== verification/Ext2File.v ===== *)
(** * ext2: reading and writing files (kernel/filesystem/ext2/Ext2Inode.cpp)

    The operations on the contents of an inode.  The buffer of the user is a list of
    bytes: a read gives the bytes it stores there, in the order it stores them, and a
    write takes them. *)

From stdpp Require Import base numbers list list_numbers option gmap.
From S2P Require Import Prelude.
From S2P Require Import ByteBuf.
From S2P Require Import FileBlocks.
From S2P Require Import Ext2.
From S2P Require Import Ext2Inode.

Local Open Scope Z_scope.

(** The end of a list is cut off, or zeros are added ([kstd::vector::resize]). *)
Definition resize (n : Z) (l : list Z) : list Z := take (Z.to_nat n) l ++ zeroes (n - zlength l).

Section file.
Context {D : Type} `{ByteFile D}.
Context (stack_bytes : list Z).

(** ** Reading *)

(** The loop of [read]: [off] is the place in the first block, 0 in the others. *)
Fixpoint read_loop (fuel : nat) (n : inode) (block_index off bytes_left : Z) (out : list Z) : eff D (list Z * Z) :=
  if bytes_left =? 0 then ret (out, bytes_left)
  else
    match fuel with
    | O => lift NoFuel
    | S fuel =>
        let b := get_block_pointer n block_index in
        if b =? 0 then ret (out, bytes_left)
        else
          r ← fs_read_block b;
          buf ← buffer r;
          s ← get_state;
          let to_copy := Z.min bytes_left (_block_size s - off) in
          read_loop fuel n (block_index + 1) 0 (bytes_left - to_copy) (out ++ slice off to_copy buf)
    end.

(** The result of [Ext2Inode::read] and the bytes that it stores. *)
Definition read (n : inode) (start length : Z) : eff D (Z * list Z) :=
  let m := _metadata n in
  if is_device m then ret (0, [])
  else if size m =? 0 then ret (0, [])
  else if size m <=? start then ret (0, [])
  else if length =? 0 then ret (0, [])
  else if negb (_exists n) then ret (- ENOENT, [])
  else if inline_symlink n then
    let actual := Z.min (size m - start) length in ret (actual, slice (40 + start) actual (raw n))
  else
    s ← get_state;
    let length := if size m <? u32 (start + length) then size m - start else length in
    '(out, bytes_left) ← read_loop (S (List.length (block_pointers n))) n (start / _block_size s) (start mod _block_size s) length [];
    ret (length - bytes_left, out).

(** ** Truncating *)

Definition calculate_num_ptr_blocks (s : ext2 D) (num_data_blocks : Z) : Z :=
  if num_data_blocks <=? 12 then 0
  else
    let N := block_pointers_per_block s in
    let blocks_left := num_data_blocks - 12 in
    let blocks_left := blocks_left - Z.min blocks_left N in
    let ret := 1 in
    if blocks_left =? 0 then ret
    else
      let d_data := Z.min blocks_left (u32 (N * N)) in
      let blocks_left := blocks_left - d_data in
      let ret := ret + 1 + (u32 (d_data + N - 1)) / N in
      if blocks_left =? 0 then ret
      else u32 (ret + 1 + u32 (blocks_left + u32 (N * N) - 1) / u32 (N * N) + u32 (blocks_left + N - 1) / N).

(** The loop that gives the blocks from number [i] down to number [from] back. *)
Fixpoint free_down (count : nat) (get : Z → Z) (i : Z) : eff D unit :=
  match count with
  | O => ret tt
  | S count => _ ← free_block stack_bytes (get (i - 1)); free_down count get (i - 1)
  end.

Definition truncate (n : inode) (length : Z) : eff D (result unit * inode) :=
  if length <? 0 then ret (Err (- EINVAL), n)
  else if length =? size (_metadata n) then ret (Ok tt, n)
  else
    s ← get_state;
    let bs := _block_size s in
    let new_num_blocks := u32 (length + bs - 1) / bs in
    let with_size n := with_metadata n (set_size length (_metadata n)) in
    if num_blocks s n <? new_num_blocks then
      let needed := new_num_blocks - num_blocks s n in
      r ← allocate_blocks stack_bytes needed true;
      match r with
      | Err e => ret (Err e, n)
      | Ok new_blocks =>
          if negb (zlength new_blocks =? needed) then _ ← free_block_list stack_bytes new_blocks; ret (Err (- ENOSPC), n)
          else
            let n := with_size (with_pointers n (block_pointers n ++ new_blocks)) in
            '(_, n) ← write_to_disk stack_bytes n;
            ret (Ok tt, n)
      end
    else if new_num_blocks <? num_blocks s n then
      _ ← free_down (Z.to_nat (num_blocks s n - new_num_blocks)) (get_block_pointer n) (num_blocks s n);
      let n := with_pointers n (resize new_num_blocks (block_pointers n)) in
      let k := calculate_num_ptr_blocks s new_num_blocks in
      _ ← free_down (Z.to_nat (zlength (pointer_blocks n) - k)) (λ i, pointer_blocks n !!! Z.to_nat i) (zlength (pointer_blocks n));
      let n := with_pointer_blocks n (resize k (pointer_blocks n)) in
      _ ← (if negb (length mod bs =? 0) && (0 <? new_num_blocks) then
             _ ← fs_truncate_block (get_block_pointer n (new_num_blocks - 1)) (length mod bs); ret tt
           else ret tt);
      '(_, n) ← write_to_disk stack_bytes (with_size n);
      ret (Ok tt, n)
    else
      n ← write_inode_entry (with_size n);
      ret (Ok tt, n).

(** ** Writing *)

(** The loop of [write]; [false] is the return with [ENOSPC]. *)
Fixpoint write_loop (fuel : nat) (n : inode) (block_index off : Z) (data : list Z) : eff D bool :=
  if zlength data =? 0 then ret true
  else
    match fuel with
    | O => lift NoFuel
    | S fuel =>
        let b := get_block_pointer n block_index in
        if b =? 0 then ret false
        else
          r ← fs_read_block b;
          buf ← buffer r;
          s ← get_state;
          let to_copy := Z.min (zlength data) (_block_size s - off) in
          _ ← fs_write_block b (splice buf off (slice 0 to_copy data));
          write_loop fuel n (block_index + 1) 0 (slice to_copy (zlength data - to_copy) data)
    end.

(** The sum of two [off_t]: an overflow is undefined. *)
Definition off_add (a b : Z) : outcome Z := let r := s32 a + s32 b in if (- 2 ^ 31 <=? r) && (r <? 2 ^ 31) then Done r else Undef.

Definition write (n : inode) (start : Z) (data : list Z) : eff D (Z * inode) :=
  let m := _metadata n in
  let length := zlength data in
  let end_ := u32 (start + length) in
  if is_device m then ret (0, n)
  else if length =? 0 then ret (0, n)
  else if negb (_exists n) then ret (- ENOENT, n)
  else if is_symlink m && (Z.max (size m) end_ <? 60) then
    let n := with_raw n (splice (raw n) (40 + start) data) in
    let n := if size m <? end_ then with_metadata n (set_size end_ m) else n in
    n ← write_inode_entry n;
    ret (length, n)
  else
    '(r, n) ← (if size m <? end_ then l ← lift (off_add start length); truncate n l else ret (Ok tt, n));
    match r with
    | Err e => ret (e, n)
    | Ok _ =>
        s ← get_state;
        ok ← write_loop (S (List.length (block_pointers n))) n (start / _block_size s) (start mod _block_size s) data;
        if negb (ok : bool) then ret (- ENOSPC, n)
        else
          let n := with_dirty (with_raw n (put32 (raw n) 16 0)) true in
          n ← write_inode_entry n;
          ret (length, n)
    end.

(** ** The rest *)

Definition chmod (n : inode) (mode : Z) : eff D (result unit * inode) :=
  n ← write_inode_entry (with_metadata n (set_mode mode (_metadata n))); ret (Ok tt, n).

Definition chown (n : inode) (uid gid : Z) : eff D (result unit * inode) :=
  n ← write_inode_entry (with_metadata n (set_owner uid gid (_metadata n))); ret (Ok tt, n).

Definition free_all_blocks (n : inode) : eff D unit :=
  _ ← free_block_list stack_bytes (block_pointers n); free_block_list stack_bytes (pointer_blocks n).

End file.
