(* ===== verification/Ext2FileOk.v ===== *)
(** * ext2: files are lists of bytes

    The contents of a file are the bytes of its blocks up to its size.  Reading gives a part
    of them; writing, extending and cutting change them as they change a list of bytes, and
    leave every other file alone. *)

From stdpp Require Import base numbers list list_numbers option gmap sets.
From S2P Require Import Prelude.
From S2P Require Import ByteBuf.
From S2P Require Import FileBlocks.
From S2P Require Import Ext2.
From S2P Require Import Ext2Inv.
From S2P Require Import Ext2Alloc.
From S2P Require Import Ext2Inode.
From S2P Require Import Ext2Tree.
From S2P Require Import Ext2Pointers.
From S2P Require Import Ext2Entry.
From S2P Require Import Ext2File.

Local Open Scope Z_scope.

Implicit Types (v buf ps pbs bs : list Z) (b i m : Z) (k : nat) (n : inode) (U : gset Z).

(** ** The bytes of a list of blocks *)

Definition block_bytes v bs : list Z := concat (blk 1024 v <$> bs).

Lemma length_block_bytes v bs : (∀ b, b ∈ bs → in_file 1024 v b) → zlength (block_bytes v bs) = 1024 * zlength bs.
Proof.
  intros Hf. unfold block_bytes. induction bs as [|b bs IH]; [done|]. cbn [fmap list_fmap concat length]. rewrite length_app, Nat2Z.inj_add. rewrite IH by (intros; apply Hf; by right).
  rewrite length_blk by (lia || (apply Hf; by left)). lia.
Qed.

Lemma block_bytes_app v bs1 bs2 : block_bytes v (bs1 ++ bs2) = block_bytes v bs1 ++ block_bytes v bs2.
Proof. unfold block_bytes. by rewrite fmap_app, concat_app. Qed.

Lemma block_bytes_ext v v' bs : (∀ b, b ∈ bs → blk 1024 v' b = blk 1024 v b) → block_bytes v' bs = block_bytes v bs.
Proof. intros Hb. unfold block_bytes. f_equal. apply list_fmap_ext. intros j b Hj. apply Hb. by apply list_elem_of_lookup_2 in Hj. Qed.

Lemma block_bytes_zero v bs : (∀ b, b ∈ bs → blk 1024 v b = zeroes 1024) → block_bytes v bs = zeroes (1024 * zlength bs).
Proof.
  intros Hz. unfold block_bytes. induction bs as [|b bs IH]; [done|]. cbn [fmap list_fmap concat length]. rewrite IH by (intros; apply Hz; by right). rewrite Hz by (by left). unfold zeroes.
  rewrite <-replicate_add. f_equal. lia.
Qed.

Lemma bytes_block_bytes v bs : bytes v → bytes (block_bytes v bs).
Proof. intros Hb. apply Forall_concat, Forall_fmap, Forall_forall. intros b _. by apply bytes_slice. Qed.

(** Block number [j] of the bytes. *)
Lemma block_bytes_split v bs (j : nat) b : (∀ b, b ∈ bs → in_file 1024 v b) → bs !! j = Some b →
  block_bytes v bs = block_bytes v (take j bs) ++ blk 1024 v b ++ block_bytes v (drop (S j) bs) ∧ zlength (block_bytes v (take j bs)) = 1024 * Z.of_nat j ∧ zlength (blk 1024 v b) = 1024.
Proof.
  intros Hf Hj. pose proof (lookup_lt_Some _ _ _ Hj). split_and!.
  - rewrite <-(take_drop_middle _ _ _ Hj) at 1. rewrite block_bytes_app. done.
  - rewrite length_block_bytes; [rewrite length_take; lia|]. intros c Hc. apply Hf. by eapply elem_of_take in Hc as (?&?%list_elem_of_lookup_2&_).
  - apply length_blk; [lia|]. apply Hf. by apply list_elem_of_lookup_2 in Hj.
Qed.

Lemma slice_block_bytes v bs (j : nat) b off c : (∀ b, b ∈ bs → in_file 1024 v b) → bs !! j = Some b → 0 ≤ off → 0 ≤ c → off + c ≤ 1024 →
  slice (1024 * Z.of_nat j + off) c (block_bytes v bs) = slice off c (blk 1024 v b).
Proof.
  intros Hf Hj Ho Hc Hoc. destruct (block_bytes_split v bs j b Hf Hj) as (->&Hl&Hl'). rewrite slice_app_r by lia. rewrite Hl. replace (1024 * Z.of_nat j + off - 1024 * Z.of_nat j) with off by lia.
  unfold slice. rewrite drop_app_le by lia. rewrite take_app_le; [done|]. rewrite length_drop. lia.
Qed.

Lemma splice_mid (A B C l : list Z) p off : p = zlength A → 0 ≤ off → off + zlength l ≤ zlength B → splice (A ++ B ++ C) (p + off) l = A ++ splice B off l ++ C.
Proof.
  intros -> Ho Hl. unfold splice. rewrite Z2Nat.inj_add, Nat2Z.id by lia. rewrite take_app_add'  by done. rewrite take_app_le by lia. rewrite <-Nat.add_assoc, drop_app_add' by done. rewrite drop_app_le by lia.
  by rewrite <-!app_assoc.
Qed.

(** Writing a part of block number [j]. *)
Lemma splice_block_bytes v bs (j : nat) b off (l : list Z) : (∀ b, b ∈ bs → in_file 1024 v b) → NoDup bs → bs !! j = Some b → 0 ≤ off → off + zlength l ≤ 1024 →
  block_bytes (splice v (b * 1024) (splice (blk 1024 v b) off l)) bs = splice (block_bytes v bs) (1024 * Z.of_nat j + off) l.
Proof.
  intros Hf Hnd Hj Ho Hl. pose proof (Hf b ltac:(by eapply list_elem_of_lookup_2)) as Hfb. set (v' := splice v _ _). destruct (block_bytes_split v bs j b Hf Hj) as (E&Hlt&Hlb).
  assert (zlength (splice (blk 1024 v b) off l) = 1024) as Hls by (rewrite length_splice; lia).
  assert (∀ c, c ∈ bs → blk 1024 v' c = if decide (c = b) then splice (blk 1024 v b) off l else blk 1024 v c) as Hblk.
  { intros c Hc. destruct (Hf c Hc). unfold v'. apply blk_splice; try done; lia. }
  assert (∀ c, c ∈ bs → in_file 1024 v' c) as Hf'. { intros c Hc. destruct (Hf c Hc), Hfb. unfold v', in_file. rewrite length_splice by lia. done. }
  assert (NoDup (take j bs ++ b :: drop (S j) bs)) as Hnd' by (by rewrite take_drop_middle). apply NoDup_app in Hnd' as (_&Hap&[Hnb _]%NoDup_cons).
  destruct (block_bytes_split v' bs j b Hf' Hj) as (->&Hlt'&_). rewrite Hblk, decide_True by (done || by eapply list_elem_of_lookup_2). rewrite E.
  rewrite (block_bytes_ext v v' (take j bs)), (block_bytes_ext v v' (drop (S j) bs)).
  - symmetry. apply splice_mid; lia.
  - intros c Hc. rewrite Hblk by (rewrite <-(take_drop_middle _ _ _ Hj); apply elem_of_app; right; by right). rewrite decide_False; [done|]. by intros ->.
  - intros c Hc. rewrite Hblk by (rewrite <-(take_drop_middle _ _ _ Hj); apply elem_of_app; by left). rewrite decide_False; [done|]. intros ->. apply (Hap b Hc). by left.
Qed.

(** ** Files *)

Definition file_bytes v n : list Z := block_bytes v (block_pointers n).
Definition content v n : list Z := slice 0 (size (_metadata n)) (file_bytes v n).
Definition blocks_of n : list Z := block_pointers n ++ pointer_blocks n.

Section file.
Context {D : Type} `{ByteFileSpec D}.
Context (L : layout) (HL : layout_ok L).
Implicit Types (s : ext2 D).

(** A file that is on the disk; the rest of its last block is clear. *)
Record file_ok v U n : Prop := {
  fo_inode : inode_ok L U n;
  fo_disk : on_disk L v n;
  fo_exists : _exists n = true;
}.

Lemma inode_in_file s v U n b : fs_base s v L → inode_ok L U n → b ∈ blocks_of n → in_file 1024 v b.
Proof. intros Hs Hn Hb. pose proof (data_block_range L U b (ok_data _ _ _ Hn b Hb)). pose proof (dtb_pos L HL). apply (base_in_file s v L); [done|lia]. Qed.

Lemma file_in_file s v U n b : fs_base s v L → inode_ok L U n → b ∈ block_pointers n → in_file 1024 v b.
Proof. intros Hs Hn Hb. apply (inode_in_file s v U n); [done|done|]. apply elem_of_app. by left. Qed.

Lemma length_file_bytes s v U n : fs_base s v L → inode_ok L U n → zlength (file_bytes v n) = 1024 * zlength (block_pointers n).
Proof. intros Hs Hn. apply length_block_bytes. intros b Hb. by apply (file_in_file s v U n). Qed.

Lemma size_blocks U n : inode_ok L U n → 0 ≤ size (_metadata n) ≤ 1024 * zlength (block_pointers n) ∧ 1024 * zlength (block_pointers n) < size (_metadata n) + 1024.
Proof.
  intros Hn. destruct (ok_metadata _ _ _ Hn) as [[? _] _]. rewrite (ok_blocks _ _ _ Hn). pose proof (Z.div_mod (size (_metadata n) + 1023) 1024 ltac:(lia)). pose proof (Z.mod_pos_bound (size (_metadata n) + 1023) 1024 ltac:(lia)). lia.
Qed.

Lemma length_content s v U n : fs_base s v L → inode_ok L U n → zlength (content v n) = size (_metadata n).
Proof. intros Hs Hn. pose proof (size_blocks U n Hn). unfold content. rewrite length_slice; [done|lia|lia|]. rewrite (length_file_bytes s v U) by done. lia. Qed.

(** Block number [j] of the file. *)
Lemma file_block U n j : inode_ok L U n → 0 ≤ j < zlength (block_pointers n) → ∃ b, block_pointers n !! Z.to_nat j = Some b ∧ get_block_pointer n j = b ∧ b ≠ 0 ∧ data_block L U b.
Proof.
  intros Hn Hj. destruct (lookup_lt_is_Some_2 (block_pointers n) (Z.to_nat j)) as [b Hb]; [lia|]. exists b. assert (data_block L U b) as Hd by (apply (ok_data _ _ _ Hn), elem_of_app; left; by eapply list_elem_of_lookup_2).
  pose proof (data_block_range L U b Hd). pose proof (dtb_pos L HL). split_and!; [done| |lia|done]. unfold get_block_pointer. rewrite (proj2 (Z.leb_gt _ _)) by lia. by apply list_lookup_total_correct.
Qed.

(** ** Reading *)

Lemma read_loop_run v U n : inode_ok L U n → ∀ fuel s j off left (out : list Z), fs_base s v L → 0 ≤ j → 0 ≤ off < 1024 → 0 ≤ left → 1024 * j + off + left ≤ 1024 * zlength (block_pointers n) →
  zlength (block_pointers n) - j < Z.of_nat fuel →
  run (read_loop fuel n j off left out) s (λ r s', r = (out ++ slice (1024 * j + off) left (file_bytes v n), 0) ∧ stored s L v s').
Proof.
  intros Hn. induction fuel as [|fuel IH]; intros s j off left out Hs Hj Hoff Hl Hend Hfuel; cbn [read_loop]; (destruct (Z.eqb_spec left 0) as [->|Hne]; [wp; rewrite slice_nil, app_nil_r; by split; [|apply stored_refl]|]); [lia|].
  destruct (file_block U n j Hn) as (b&Hb&->&Hb0&Hd); [lia|]. cbv zeta. rewrite (proj2 (Z.eqb_neq b 0) Hb0). wp. pose proof (data_block_range L U b Hd). pose proof (dtb_pos L HL).
  wp_apply (fs_read_block_run s v L b); [done|lia|]. intros r s1 (->&Hst). wp. rewrite (fb_bs _ _ _ (proj2 Hst)). set (c := Z.min left (1024 - off)).
  wp_apply (IH s1 (j + 1) 0 (left - c)); [apply Hst|lia|lia|lia|lia|lia|]. intros r s2 (->&Hst2). split; [|by eapply stored_trans]. f_equal. rewrite <-app_assoc. f_equal.
  rewrite <-(slice_block_bytes v (block_pointers n) (Z.to_nat j) b off c); [|intros; by apply (file_in_file s v U n)|done|lia|lia|lia]. rewrite Z2Nat.id by lia. change (block_bytes v (block_pointers n)) with (file_bytes v n).
  destruct (decide (c = left)) as [->|]; [by rewrite Z.sub_diag, slice_nil, app_nil_r|]. replace (1024 * (j + 1) + 0) with (1024 * j + off + c) by lia. rewrite slice_app by lia. f_equal. lia.
Qed.

Lemma slice_clip (F : list Z) sz start len : 0 ≤ start ≤ sz → 0 ≤ len → slice start len (slice 0 sz F) = slice start (Z.min len (sz - start)) F.
Proof.
  intros Hs Hl. apply list_eq. intros i. rewrite !lookup_slice by lia. change (Z.to_nat 0) with 0%nat. repeat case_decide; (done || lia).
Qed.

(** Reading gives the bytes of the file from [start] on, at most [len] of them. *)
Lemma read_run s v U n start len : fs_inv s v L U → file_ok v U n → 0 ≤ start → 0 ≤ len → start + len < 2 ^ 32 →
  run (read n start len) s (λ r s', r = (zlength (slice start len (content v n)), slice start len (content v n)) ∧ fs_inv s' v L U).
Proof.
  intros Hi [Hn Hdisk Hex] Hst Hlen Hov. pose proof (fi_base _ _ _ _ Hi) as Hs. destruct (ok_device _ _ _ Hn) as (_&_&_&Hdev). pose proof (size_blocks U n Hn) as [Hsz Hsz']. pose proof (length_content s v U n Hs Hn) as Hlc.
  unfold read. cbv zeta. rewrite Hdev. assert (∀ c, size (_metadata n) ≤ start → slice start c (content v n) = []) as Hnil by (intros c Hc; unfold slice; rewrite drop_ge by lia; apply take_nil).
  destruct (Z.eqb_spec (size (_metadata n)) 0); [wp; by rewrite Hnil by lia|]. destruct (Z.leb_spec (size (_metadata n)) start); [wp; by rewrite Hnil by lia|].
  destruct (Z.eqb_spec len 0) as [->|]; [wp; by rewrite slice_nil|]. rewrite Hex, (ok_symlink _ _ _ Hn). cbn [negb]. wp. rewrite (fb_bs _ _ _ Hs), u32_id by lia.
  set (c := if size (_metadata n) <? start + len then size (_metadata n) - start else len). assert (c = Z.min len (size (_metadata n) - start)) as Hc by (unfold c; destruct (Z.ltb_spec (size (_metadata n)) (start + len)); lia).
  pose proof (Z.div_mod start 1024 ltac:(lia)) as Hdm. pose proof (Z.mod_pos_bound start 1024 ltac:(lia)).
  wp_apply (read_loop_run v U n Hn (S (length (block_pointers n))) s (start / 1024) (start mod 1024) c []); [done|lia..|]. intros r s' (->&Hst'). wp.
  rewrite <-Hdm. unfold content. rewrite slice_clip, <-Hc by lia. cbn [app]. rewrite Z.sub_0_r, length_slice; [|lia|lia|rewrite (length_file_bytes s v U) by done; lia].
  split; [done|]. by apply (inv_stored L s).
Qed.

(** ** Writing *)

Lemma grown_same v U pbs v' s' : grown L v U pbs [] v' s' → fs_inv s' v' L U.
Proof. intros Hg. pose proof (gw_inv _ _ _ _ _ _ _ Hg) as Hi. by rewrite list_to_set_nil, union_empty_r_L in Hi. Qed.

Lemma write_loop_run U n : inode_ok L U n → ∀ fuel s v j off (d : list Z), fs_inv s v L U → 0 ≤ j → 0 ≤ off < 1024 → bytes d → 1024 * j + off + zlength d ≤ 1024 * zlength (block_pointers n) →
  zlength (block_pointers n) - j < Z.of_nat fuel →
  run (write_loop fuel n j off d) s (λ r s', r = true ∧ ∃ v', grown L v U (block_pointers n) [] v' s' ∧ file_bytes v' n = splice (file_bytes v n) (1024 * j + off) d).
Proof.
  intros Hn. assert (NoDup (block_pointers n)) as Hnd by (pose proof (ok_nodup _ _ _ Hn) as (?&_)%NoDup_app; done). induction fuel as [|fuel IH]; intros s v j off d Hi Hj Hoff Hbd Hend Hfuel;
    pose proof (fi_base _ _ _ _ Hi) as Hs; pose proof (length_file_bytes s v U n Hs Hn) as Hlf; cbn [write_loop]; cbv zeta;
    (destruct (Z.eqb_spec (zlength d) 0) as [E|Hne]; [destruct d; [|done]; wp; split; [done|]; exists v; split; [by apply grown_refl|by rewrite splice_nil by lia]|]); [lia|].
  destruct (file_block U n j Hn) as (b&Hb&->&Hb0&Hd); [lia|]. rewrite (proj2 (Z.eqb_neq b 0) Hb0). wp. pose proof (data_block_range L U b Hd). pose proof (dtb_pos L HL). pose proof (fb_len _ _ _ Hs).
  wp_apply (fs_read_block_run s v L b); [done|lia|]. intros r s1 (->&Hst). wp. rewrite (fb_bs _ _ _ (proj2 Hst)). set (c := Z.min (zlength d) (1024 - off)).
  assert (zlength (blk 1024 v b) = 1024) as Hlb by (apply length_blk; [lia|split; lia]). assert (zlength (slice 0 c d) = c) as Hlc by (apply length_slice; lia).
  set (l := splice (blk 1024 v b) off (slice 0 c d)). assert (zlength l = 1024) as Hll by (unfold l; rewrite length_splice; lia). pose proof (inv_stored L s v U s1 Hi Hst) as Hi1.
  wp_apply (fs_write_block_run s1 v L b l); [apply Hst|lia|done|apply bytes_splice; [apply bytes_slice, Hs|by apply bytes_slice]|]. intros r s2 (->&Hst2).
  pose proof (grown_write L HL s1 v U b l s2 Hi1 Hd Hll Hst2) as Hg1. wp_apply (IH s2 _ (j + 1) 0 (slice c (zlength d - c) d)); [by apply (grown_same v U [b])|lia|lia|by apply bytes_slice|rewrite length_slice; lia|lia|].
  intros r s3 (->&v3&Hg2&E). split; [done|]. exists v3. split.
  - apply (grown_step_trans L v U [b] [] (splice v (b * 1024) l) s2 (block_pointers n) [] v3 s3); [done|by rewrite list_to_set_nil, union_empty_r_L| |by left].
    intros x ->%list_elem_of_singleton. by eapply list_elem_of_lookup_2.
  - rewrite E. unfold file_bytes, l. rewrite (splice_block_bytes v (block_pointers n) (Z.to_nat j)); [|intros; by apply (file_in_file s v U n)|done|done|lia|lia]. rewrite Z2Nat.id by lia.
    change (block_bytes v (block_pointers n)) with (file_bytes v n). assert (slice 0 c d ++ slice c (zlength d - c) d = d) as Ed by (rewrite slice_app by lia; apply slice_all; lia).
    transitivity (splice (file_bytes v n) (1024 * j + off) (slice 0 c d ++ slice c (zlength d - c) d)); [|by rewrite Ed]. assert (zlength (slice c (zlength d - c) d) = zlength d - c) as Hlr by (apply length_slice; lia). rewrite <-splice_app by lia. rewrite Hlc.
    destruct (decide (c = zlength d)) as [Ec|]; [|f_equal; lia]. assert (slice c (zlength d - c) d = []) as -> by (apply nil_length_inv; lia). by rewrite !splice_nil by (rewrite ?length_splice; lia).
Qed.
End file.
