(* ===== verification/Ext2Trunc.v ===== *)
(** * ext2: changing files

    [truncate], [write], [chmod] and [chown]: what the blocks of the file hold after them, and that
    no other file changes. *)

From stdpp Require Import base numbers list list_numbers option gmap sets.
From S2P Require Import Prelude.
From S2P Require Import ByteBuf.
From S2P Require Import FileBlocks.
From S2P Require Import Ext2.
From S2P Require Import Ext2Inv.
From S2P Require Import Ext2Alloc.
From S2P Require Import Ext2Inode.
From S2P Require Import Ext2Tree.
From S2P Require Import Ext2Pointers.
From S2P Require Import Ext2Entry.
From S2P Require Import Ext2File.
From S2P Require Import Ext2FileOk.

Local Open Scope Z_scope.

Implicit Types (v buf ps pbs bs : list Z) (b i m : Z) (k : nat) (n : inode) (U : gset Z).

(** The blocks in the tree of level [k], and the blocks of pointers, of a file of [nb] blocks. *)
Definition plen k (nb : Z) : Z := Z.max 0 (Z.min (cap k) (nb - part_start k)).
Definition ptr_blocks (nb : Z) : Z := nodes 0 (plen 0 nb) + nodes 1 (plen 1 nb) + nodes 2 (plen 2 nb).

Lemma plen_mono k (nb nb' : Z) : nb ≤ nb' → plen k nb ≤ plen k nb'.
Proof. unfold plen. lia. Qed.

Lemma ptr_blocks_mono (nb nb' : Z) : nb ≤ nb' → ptr_blocks nb ≤ ptr_blocks nb'.
Proof.
  intros Hnb. pose proof (nodes_mono 0 _ _ (plen_mono 0 nb nb' Hnb)) as H0. pose proof (nodes_mono 1 _ _ (plen_mono 1 nb nb' Hnb)) as H1. pose proof (nodes_mono 2 _ _ (plen_mono 2 nb nb' Hnb)) as H2.
  unfold ptr_blocks. apply Z.add_le_mono; [|exact H2]. apply Z.add_le_mono; [exact H0|exact H1].
Qed.

(** ** What the blocks of a file hold

    A file is its blocks and its size; the bytes behind its end stay in the last block. *)

Definition rounded (len : Z) : Z := 1024 * ((len + 1023) / 1024).
Definition grow (w : list Z) (len : Z) : list Z := w ++ zeroes (rounded len - zlength w).

Lemma rounded_bound len : len ≤ rounded len < len + 1024.
Proof. unfold rounded. pose proof (Z.div_mod (len + 1023) 1024 ltac:(lia)). pose proof (Z.mod_pos_bound (len + 1023) 1024 ltac:(lia)). lia. Qed.

Lemma rounded_mono len len' : len ≤ len' → rounded len ≤ rounded len'.
Proof. intros. unfold rounded. apply Z.mul_le_mono_nonneg_l; [lia|]. apply Z.div_le_mono; lia. Qed.

Lemma grow_same w len : rounded len ≤ zlength w → grow w len = w.
Proof. intros. unfold grow, zeroes. replace (Z.to_nat _) with 0%nat by lia. apply app_nil_r. Qed.

Lemma length_grow w len : zlength (grow w len) = Z.max (zlength w) (rounded len).
Proof. unfold grow. rewrite length_app, Nat2Z.inj_add. unfold zeroes. rewrite length_replicate. lia. Qed.

Section step.
Context {D : Type} `{ByteFileSpec D}.
Context (L : layout) (HL : layout_ok L).
Implicit Types (s : ext2 D).

(** A change of one file: the blocks and entries of all others are as before. *)
Record file_step v U n v' U' n' s' : Prop := {
  st_inv : fs_inv s' v' L U';
  st_file : file_ok L v' U' n';
  st_id : id n' = id n;
  st_others b : (b ∈ U' ∧ b ∉ blocks_of n') ↔ (b ∈ U ∧ b ∉ blocks_of n);
  st_keep b : data_block L U b → b ∉ blocks_of n → blk 1024 v' b = blk 1024 v b;
  st_entries j : inode_number L j → j ≠ id n → entry L v' j = entry L v j;
}.

Lemma file_step_refl s v U n : fs_inv s v L U → file_ok L v U n → file_step v U n v U n s.
Proof. by split. Qed.

Lemma file_step_trans v U n v1 U1 n1 s1 v2 U2 n2 s2 : file_step v U n v1 U1 n1 s1 → file_step v1 U1 n1 v2 U2 n2 s2 → file_step v U n v2 U2 n2 s2.
Proof.
  intros [Hi1 Hf1 Hid1 Ho1 Hk1 He1] [Hi2 Hf2 Hid2 Ho2 Hk2 He2]. split; [done|done|congruence|intros b; by rewrite Ho2| |].
  - intros b (Hb&Hr) Hnb. destruct (proj2 (Ho1 b) (conj Hb Hnb)) as [Hb1 Hnb1]. rewrite Hk2; [by apply Hk1|by split|done].
  - intros j Hj Hne. rewrite He2; [by apply He1|done|by rewrite Hid1].
Qed.

(** A file whose blocks and entry are as before is still there, with the same contents. *)
Lemma file_ok_moved v U v' U' n : file_ok L v U n → (∀ b, b ∈ blocks_of n → blk 1024 v' b = blk 1024 v b ∧ b ∈ U') → entry L v' (id n) = entry L v (id n) → file_ok L v' U' n ∧ file_bytes v' n = file_bytes v n.
Proof.
  intros [Hn Hd Hex] Hb He. assert (file_bytes v' n = file_bytes v n) as Hfb by (apply block_bytes_ext; intros b Hin; apply Hb, elem_of_app; by left). split; [|done].
  split; [|split|done]; try apply Hd.
  - destruct Hn as [? ? ? ? ? ? ? Hdata]. split; try done. intros b Hin. destruct (Hdata b Hin) as [_ ?]. split; [by apply Hb|done].
  - rewrite He. apply Hd.
  - destruct Hd as [_ _ _ _ _ Ht]. apply (inode_tree_same v v' n n); try done. intros b Hin. apply Hb, elem_of_app. by right.
Qed.

(** Another file is still there, with the same contents, and still has no block in common. *)
Lemma file_step_other v U n v' U' n' s' n2 : file_step v U n v' U' n' s' → file_ok L v U n2 → id n2 ≠ id n → (∀ b, b ∈ blocks_of n2 → b ∉ blocks_of n) →
  file_ok L v' U' n2 ∧ file_bytes v' n2 = file_bytes v n2 ∧ (∀ b, b ∈ blocks_of n2 → b ∉ blocks_of n').
Proof.
  intros [Hi Hf Hid Ho Hk He] Hf2 Hne Hap. pose proof (fo_inode _ _ _ _ Hf2) as Hn. assert (∀ b, b ∈ blocks_of n2 → b ∈ U' ∧ b ∉ blocks_of n') as Hin by (intros b Hb; apply Ho; split; [by apply (ok_data _ _ _ Hn)|by apply Hap]).
  destruct (file_ok_moved v U v' U' n2 Hf2) as [? ?]; [|apply He; [apply Hn|done]|split_and!; [done|done|intros b Hb; by apply Hin]].
  intros b Hb. split; [apply Hk; [by apply (ok_data _ _ _ Hn)|by apply Hap]|by apply Hin].
Qed.

(** ** Writing the entry alone *)

Lemma write_entry_run s v U n n1 : fs_inv s v L U → inode_ok L U n1 → inode_tree v n1 → id n1 = id n → blocks_of n1 = blocks_of n → _exists n1 = true →
  run (write_inode_entry n1) s (λ n' s', ∃ v', n' = with_dirty (with_raw n1 (entry_bytes n1)) false ∧ file_step v U n v' U n' s' ∧ file_bytes v' n' = file_bytes v n1 ∧ hard_links (raw n') = hard_links (raw n1)).
Proof.
  intros Hi Hn Ht Hid Hbl Hex. pose proof (ok_number _ _ _ Hn) as Hnum. destruct (ok_raw _ _ _ Hn) as [Hl Hb]. destruct (ok_metadata _ _ _ Hn) as [Hm _]. pose proof (fi_base _ _ _ _ Hi) as Hs.
  destruct (entry_bytes_spec n1 Hl Hb Hm) as (Hl'&Hb'&Es&Emo&Eu&Eg&Ho&Eh). pose proof (blk_range L HL s v (id n1) Hs Hnum) as Hr.
  wp_apply (write_inode_entry_run L HL s v U n1); [done..|]. intros n' s' (->&Hi'). set (v' := splice _ _ _) in *. exists v'.
  assert (∀ b, data_block L U b → blk 1024 v' b = blk 1024 v b) as Hblk by (intros b Hd; by apply (entry_keeps_blk L HL s v U)).
  assert (file_bytes v' (with_dirty (with_raw n1 (entry_bytes n1)) false) = file_bytes v n1) as Hfb by (apply block_bytes_ext; intros b Hin; apply Hblk, (ok_data _ _ _ Hn), elem_of_app; by left).
  split_and!; [done| |done|done]. split; [done| |done|intros b; change (blocks_of (with_dirty (with_raw n1 (entry_bytes n1)) false)) with (blocks_of n1); by rewrite Hbl|by intros; apply Hblk|].
  - split; [by destruct Hn; split|split; try done|done].
    + unfold entry. apply slice_splice_eq; cbn; lia.
    + apply (inode_tree_same v v' n1); try done. intros b Hin. apply Hblk, (ok_data _ _ _ Hn), elem_of_app. by right.
  - intros j Hj Hne. apply (entry_other L HL s); try done. congruence.
Qed.

(** ** Extending *)

Lemma on_disk_pointers v n : on_disk L v n → zlength (pointer_blocks n) = ptr_blocks (zlength (block_pointers n)).
Proof.
  intros [_ _ _ _ _ [_ _ (p0&p1&p2&->&H0'&H1&H2)]]. rewrite !length_app, !Nat2Z.inj_add. rewrite (rooted_size _ _ _ _ _ H0'), (rooted_size _ _ _ _ _ H1), (rooted_size _ _ _ _ _ H2).
  rewrite !part_length by lia. unfold ptr_blocks, plen. lia.
Qed.

Definition with_size n (len : Z) : inode := with_metadata n (set_size len (_metadata n)).

(** More blocks at the end. *)
Definition extended n (len : Z) (new : list Z) : inode := with_size (with_pointers n (block_pointers n ++ new)) len.

Lemma inode_ok_extended s v U n len (new : list Z) v1 s1 : fs_inv s v L U → inode_ok L U n → size (_metadata n) < len ≤ 2 ^ 32 - 1024 → zlength (block_pointers n) + zlength new = (len + 1023) / 1024 →
  grown L v U [] new v1 s1 → inode_ok L (U ∪ list_to_set new) (extended n len new).
Proof.
  intros Hi Hn Hlen Hnew Hg. assert (block_pointers (extended n len new) ++ pointer_blocks (extended n len new) ≡ₚ (block_pointers n ++ pointer_blocks n) ++ new) as Hp by (cbn; solve_Permutation).
  destruct Hn as [? ? [[? ?] ?] (?&?&?&?) Hsym ? Hnd Hd]. split; try done.
  - split; [split; [cbn; lia|done]|cbn; lia].
  - revert Hsym. unfold inline_symlink, is_symlink, mode_type. cbn. destruct (Z.land (mode (_metadata n)) 61440 =? MODE_SYMLINK); [|done]. cbn. rewrite !Z.ltb_ge. lia.
  - cbn. rewrite length_app, Nat2Z.inj_add. lia.
  - rewrite Hp. by apply (grown_apart L v U [] _ new v1 s1).
  - intros x. rewrite Hp. by apply (grown_data_app L s v U [] _ new v1 s1).
Qed.

(** The blocks of pointers of a file serve for a longer one. *)
Lemma writable_extended s v U n len (new : list Z) v1 s1 : fs_inv s v L U → file_ok L v U n → inode_ok L (U ∪ list_to_set new) (extended n len new) → grown L v U [] new v1 s1 →
  zlength new + ptr_blocks (zlength (block_pointers n) + zlength new) - ptr_blocks (zlength (block_pointers n)) ≤ tf L U → zlength (block_pointers n) + zlength new ≤ max_blocks →
  ∃ p0 p1 p2, pointer_blocks n = p0 ++ p1 ++ p2 ∧ writable L v1 (U ∪ list_to_set new) (extended n len new) p0 p1 p2.
Proof.
  intros Hi Hf Hn1 Hg Hsp Hmax. pose proof (grown_tf L s v U [] new v1 s1 Hi Hg) as Htf. destruct (fo_disk _ _ _ _ Hf) as [_ _ _ _ _ Ht]. pose proof (on_disk_pointers v n (fo_disk _ _ _ _ Hf)) as Hpl.
  destruct Ht as [_ _ (p0&p1&p2&Hp&H0'&H1&H2)]. rewrite Hp in Hpl. exists p0, p1, p2. split; [done|]. set (n1 := extended n len new) in *.
  assert (zlength (block_pointers n1) = zlength (block_pointers n) + zlength new) as Hbl by (cbn; rewrite length_app; lia).
  assert (∀ k root p, rooted v k root (part n k) p → (∀ x, x ∈ p → x ∈ pointer_blocks n) → reusable v1 k root (zlength (part n1 k)) p) as Hre.
  { intros k root p Hr Hin. apply (rooted_reusable v1 k root (part n k)); [|rewrite !part_length, Hbl by lia; lia]. apply (rooted_ext v v1 _ _ _ _ Hr). intros x Hx. apply (grown_other L HL v U [] new v1 s1); [done| |apply not_elem_of_nil].
    apply (ok_data _ _ _ (fo_inode _ _ _ _ Hf)), elem_of_app. right. by apply Hin. }
  split.
  - apply Hn1.
  - apply Forall_forall. intros x Hx. pose proof (data_block_range L _ x (ok_data _ _ _ Hn1 x ltac:(apply elem_of_app; by left))). pose proof (dtb_pos L HL). pose proof (lo_total L HL). lia.
  - lia.
  - apply (Hre 0%nat); [exact H0'|]. intros x Hx. rewrite Hp, !elem_of_app. tauto.
  - apply (Hre 1%nat); [exact H1|]. intros x Hx. rewrite Hp, !elem_of_app. tauto.
  - apply (Hre 2%nat); [exact H2|]. intros x Hx. rewrite Hp, !elem_of_app. tauto.
  - rewrite <-Hp. by pose proof (ok_nodup _ _ _ Hn1) as (_&_&?)%NoDup_app.
  - intros x Hx. apply (ok_data _ _ _ Hn1), elem_of_app. right. cbn. by rewrite Hp.
  - rewrite Hpl, !part_length, Hbl by lia. fold (plen 0 (zlength (block_pointers n) + zlength new)) (plen 1 (zlength (block_pointers n) + zlength new)) (plen 2 (zlength (block_pointers n) + zlength new)).
    fold (ptr_blocks (zlength (block_pointers n) + zlength new)). lia.
Qed.

(** What the steps of the extension do to the blocks. *)
Lemma extended_bytes s v U n len (new : list Z) v1 s1 n' new2 v2 s2 : fs_inv s v L U → inode_ok L U n → granted L true v U (zlength new) new v1 s1 → inode_ok L (U ∪ list_to_set new) (extended n len new) →
  updated L v1 (U ∪ list_to_set new) (id n) (pointer_blocks n) new2 v2 s2 → block_pointers n' = block_pointers n ++ new → file_bytes v2 n' = file_bytes v n ++ zeroes (1024 * zlength new).
Proof.
  intros Hi Hn Hgr Hn1 Hup Ebp. pose proof (grown_granted L _ _ _ _ _ _ Hgr) as Hg. pose proof (ok_nodup _ _ _ Hn1) as (_&Hap&_)%NoDup_app. cbn [extended with_size with_metadata with_pointers block_pointers pointer_blocks] in Hap.
  assert (∀ b, b ∈ block_pointers n ++ new → blk 1024 v2 b = blk 1024 v1 b) as H21 by (intros b Hb; apply (up_keep _ _ _ _ _ _ _ _ Hup); [apply (ok_data _ _ _ Hn1), elem_of_app; by left|by apply Hap]).
  unfold file_bytes. rewrite Ebp, block_bytes_app. f_equal.
  - apply block_bytes_ext. intros b Hb. rewrite H21 by (apply elem_of_app; by left). apply (grown_other L HL v U [] new v1 s1); [done|apply (ok_data _ _ _ Hn), elem_of_app; by left|apply not_elem_of_nil].
  - apply block_bytes_zero. intros b Hb. rewrite H21 by (apply elem_of_app; by right). by apply (gr_zero _ _ _ _ _ _ _ _ Hgr).
Qed.

Lemma extended_step s v U n (new : list Z) v1 s1 n' new2 v2 s2 : fs_inv s v L U → inode_ok L U n → grown L v U [] new v1 s1 → updated L v1 (U ∪ list_to_set new) (id n) (pointer_blocks n) new2 v2 s2 →
  block_pointers n' = block_pointers n ++ new → pointer_blocks n' ≡ₚ pointer_blocks n ++ new2 → id n' = id n → file_ok L v2 (U ∪ list_to_set new ∪ list_to_set new2) n' →
  file_step v U n v2 (U ∪ list_to_set new ∪ list_to_set new2) n' s2.
Proof.
  intros Hi Hn Hg Hup Ebp Hperm Eid Hf'. split; [apply Hup|done|done| | |].
  - intros b. unfold blocks_of. rewrite Ebp, Hperm, !elem_of_app, !elem_of_union, !elem_of_list_to_set. split; [tauto|]. intros [HU Hnb]. split; [tauto|]. intros [[Hb|Hb]|[Hb|Hb]]; [tauto|by apply (gw_free _ _ _ _ _ _ _ Hg b Hb)|tauto|].
    apply (up_free _ _ _ _ _ _ _ _ Hup b Hb), elem_of_union. by left.
  - intros b Hd Hnb. unfold blocks_of in Hnb. rewrite elem_of_app in Hnb. rewrite (up_keep _ _ _ _ _ _ _ _ Hup); [|apply (data_block_sub L U); [apply union_subseteq_l|done]|tauto].
    apply (grown_other L HL v U [] new v1 s1); [done|done|apply not_elem_of_nil].
  - intros j Hj Hne. rewrite (up_entries _ _ _ _ _ _ _ _ Hup) by done. apply (grown_entry L HL v U [] new v1 s1); [apply Hg|done|by intros x ?%elem_of_nil|apply Hi|done].
Qed.

Context (stack_bytes : list Z) (stack_len : length stack_bytes = 14%nat) (stack_ok : bytes stack_bytes).

(** What [truncate] does to the file: [w] is what is in its blocks then. *)
Definition truncated v U n len (w : list Z) (r : result unit * inode) s' : Prop :=
  ∃ n' v' U', r = (Ok tt, n') ∧ file_step v U n v' U' n' s' ∧ _metadata n' = set_size len (_metadata n) ∧ hard_links (raw n') = hard_links (raw n) ∧ (_dirty n = false → _dirty n' = false) ∧ file_bytes v' n' = w.

(** The blocks a file of [len] bytes needs beyond those it has. *)
Definition space_for n (len : Z) : Z := let nb := (len + 1023) / 1024 in nb + ptr_blocks nb - zlength (block_pointers n) - ptr_blocks (zlength (block_pointers n)).

Lemma truncate_grow_run s v U n len : fs_inv s v L U → file_ok L v U n → size (_metadata n) < len ≤ 2 ^ 32 - 1024 → zlength (block_pointers n) < (len + 1023) / 1024 → space_for n len ≤ tf L U →
  run (truncate stack_bytes n len) s (λ r s', truncated v U n len (grow (file_bytes v n) len) r s').
Proof.
  intros Hi Hf Hlen Hnb Hsp. pose proof (fi_base _ _ _ _ Hi) as Hs. pose proof (fo_inode _ _ _ _ Hf) as Hn. destruct (size_blocks L U n Hn) as [Hsz Hsz']. unfold truncate. rewrite (proj2 (Z.ltb_ge len 0)) by lia.
  destruct (Z.eqb_spec len (size (_metadata n))); [lia|]. wp. cbv zeta. rewrite (num_blocks_ok L s v U n) by done. rewrite (fb_bs _ _ _ Hs), u32_id by lia. replace (len + 1024 - 1) with (len + 1023) by lia.
  set (nb := (len + 1023) / 1024) in *. rewrite (proj2 (Z.ltb_lt _ _)) by done. wp. assert (nb ≤ 2 ^ 22) as Hnb22 by (apply (Z.div_le_upper_bound); lia).
  unfold space_for in Hsp. fold nb in Hsp. assert (ptr_blocks (zlength (block_pointers n)) ≤ ptr_blocks nb) as Hpm by (apply ptr_blocks_mono; lia).
  wp_apply (allocate_blocks_run L HL stack_bytes stack_len stack_ok s v U (nb - zlength (block_pointers n)) true); [done|lia|]. intros [new|e] s1 Hr; [|destruct Hr as (_&v1&_&_&Hlt); lia].
  destruct Hr as [v1 Hgr]. pose proof (gr_length _ _ _ _ _ _ _ _ Hgr) as Hln. rewrite Hln, Z.eqb_refl. cbn [negb]. pose proof (grown_granted L _ _ _ _ _ _ Hgr) as Hg. wp. change (with_metadata _ _) with (extended n len new).
  pose proof (inode_ok_extended s v U n len new v1 s1 Hi Hn Hlen ltac:(unfold nb in *; lia) Hg) as Hn1.
  destruct (writable_extended s v U n len new v1 s1) as (p0&p1&p2&Hp&Hw); [done|done|done|done|rewrite Hln; replace (zlength (block_pointers n) + (nb - zlength (block_pointers n))) with nb by lia; lia|unfold max_blocks; cbn [cap]; lia|].
  wp_apply (write_to_disk_run L HL stack_bytes stack_len stack_ok s1 v1 (U ∪ list_to_set new) (extended n len new) p0 p1 p2); [apply Hg|done|done|done|].
  intros r s2 (n'&new2&v2&->&(Eid&Ebp&Em&Eex&Ehl)&Edi&Hn'&Hd'&Hperm&Hup). wp. exists n', v2, (U ∪ list_to_set new ∪ list_to_set new2). 
  split_and!; [done| |done|by rewrite Ehl|done|].
  - apply (extended_step s v U n new v1 s1 n' new2 v2 s2); try done. split; [done|done|by rewrite Eex; apply Hf].
  - rewrite (extended_bytes s v U n len new v1 s1 n' new2 v2 s2); [|done|done|by rewrite Hln|done|done|done]. unfold grow, rounded. fold nb.
    rewrite (length_file_bytes L HL s v U n Hs Hn), Hln. f_equal. f_equal. lia.
Qed.

Lemma inode_ok_resized U n len : inode_ok L U n → 0 ≤ len ≤ 2 ^ 32 - 1024 → inline_symlink (with_size n len) = false → zlength (block_pointers n) = (len + 1023) / 1024 → inode_ok L U (with_size n len).
Proof. intros [? ? [[? ?] ?] (?&?&?&?) _ ? Hnd Hd] Hlen Hsym Hnb. split; try done. split; [split; [cbn; lia|done]|cbn; lia]. Qed.

Lemma longer_symlink n len : inline_symlink n = false → size (_metadata n) ≤ len → inline_symlink (with_size n len) = false.
Proof.
  unfold inline_symlink, is_symlink, mode_type. cbn. destruct (Z.land (mode (_metadata n)) 61440 =? MODE_SYMLINK); [|done]. cbn. rewrite !Z.ltb_ge. lia.
Qed.

(** [truncate] to a length in the last block changes the size alone. *)
Lemma truncate_resize_run s v U n len : fs_inv s v L U → file_ok L v U n → 0 ≤ len ≤ 2 ^ 32 - 1024 → inline_symlink (with_size n len) = false → (len + 1023) / 1024 = zlength (block_pointers n) →
  run (truncate stack_bytes n len) s (λ r s', truncated v U n len (file_bytes v n) r s').
Proof.
  intros Hi Hf Hlen Hsym Enb. pose proof (fi_base _ _ _ _ Hi) as Hs. pose proof (fo_inode _ _ _ _ Hf) as Hn.
  unfold truncate. rewrite (proj2 (Z.ltb_ge len 0)) by lia. destruct (Z.eqb_spec len (size (_metadata n))) as [->|Hne].
  { wp. exists n, v, U. split_and!; [done|by apply file_step_refl|by destruct n as [? ? ? ? []]|done|done|done]. }
  wp. cbv zeta. rewrite (num_blocks_ok L s v U n) by done. rewrite (fb_bs _ _ _ Hs), u32_id by lia. replace (len + 1024 - 1) with (len + 1023) by lia. rewrite Enb, Z.ltb_irrefl.
  change (with_metadata n (set_size len (_metadata n))) with (with_size n len). wp.
  wp_apply (write_entry_run s v U n (with_size n len)); [done|apply inode_ok_resized; (done || lia)| |done|done|by apply Hf|].
  - apply (inode_tree_same v v n); try done. apply Hf.
  - intros n' s' (v'&->&Hstep&Hfb'&Hh). wp. eexists _, v', U. split_and!; [done|exact Hstep|done|by rewrite Hh|done|exact Hfb'].
Qed.

(** [truncate] to a greater length adds blocks of zeros. *)
Lemma truncate_extend_run s v U n len : fs_inv s v L U → file_ok L v U n → size (_metadata n) ≤ len ≤ 2 ^ 32 - 1024 → space_for n len ≤ tf L U →
  run (truncate stack_bytes n len) s (λ r s', truncated v U n len (grow (file_bytes v n) len) r s').
Proof.
  intros Hi Hf Hlen Hsp. pose proof (fi_base _ _ _ _ Hi) as Hs. pose proof (fo_inode _ _ _ _ Hf) as Hn. destruct (size_blocks L U n Hn) as [Hsz Hsz'].
  pose proof (Z.div_mod (len + 1023) 1024 ltac:(lia)) as Hdm. pose proof (Z.mod_pos_bound (len + 1023) 1024 ltac:(lia)) as Hmb.
  destruct (decide (zlength (block_pointers n) < (len + 1023) / 1024)); [apply truncate_grow_run; (done || lia)|]. assert ((len + 1023) / 1024 = zlength (block_pointers n)) as Enb by lia.
  rewrite grow_same by (rewrite (length_file_bytes L HL s v U n Hs Hn); unfold rounded; lia). apply truncate_resize_run; try done; [lia|]. apply longer_symlink; [apply Hn|lia].
Qed.

(** ** Writing *)

Lemma file_step_grown s v U n v1 s1 v' U' n' s' : fs_inv s v L U → inode_ok L U n → grown L v U (block_pointers n) [] v1 s1 → file_step v1 U n v' U' n' s' → file_step v U n v' U' n' s'.
Proof.
  intros Hi Hn Hg [Hi' Hf' Hid Ho Hk He]. split; try done.
  - intros b Hd Hnb. rewrite Hk by done. apply (grown_other L HL v U (block_pointers n) [] v1 s1); [done|done|]. intros Hb. apply Hnb, elem_of_app. by left.
  - intros j Hj Hne. rewrite He by done. apply (grown_entry L HL v U (block_pointers n) [] v1 s1); [apply Hg|done| |apply Hi|done]. intros x Hx. apply (ok_data _ _ _ Hn), elem_of_app. by left.
Qed.

(** The part of [write] after the file is long enough. *)
Lemma write_tail_run s v U n start (d : list Z) : fs_inv s v L U → file_ok L v U n → 0 ≤ start → start + zlength d ≤ size (_metadata n) → bytes d →
  run (ok ← write_loop (S (List.length (block_pointers n))) n (start / 1024) (start mod 1024) d;
       if negb (ok : bool) then ret (- ENOSPC, n)
       else n ← write_inode_entry (with_dirty (with_raw n (put32 (raw n) 16 0)) true); ret (zlength d, n)) s
    (λ r s', ∃ n' v', r = (zlength d, n') ∧ file_step v U n v' U n' s' ∧ _metadata n' = _metadata n ∧ hard_links (raw n') = hard_links (raw n) ∧ file_bytes v' n' = splice (file_bytes v n) start d).
Proof.
  intros Hi Hf Hst Hend Hd. pose proof (fi_base _ _ _ _ Hi) as Hs. pose proof (fo_inode _ _ _ _ Hf) as Hn. destruct (size_blocks L U n Hn) as [Hsz Hsz']. destruct (ok_raw _ _ _ Hn) as [Hrl Hrb]. pose proof (length_file_bytes L HL s v U n Hs Hn) as Hlf.
  pose proof (Z.div_mod start 1024 ltac:(lia)) as Hdm. pose proof (Z.mod_pos_bound start 1024 ltac:(lia)) as Hmb. wp.
  wp_apply (write_loop_run L HL U n Hn _ s v (start / 1024) (start mod 1024) d); [done|lia|lia|done|lia|lia|]. rewrite <-Hdm. intros r s1 (->&v1&Hg&Hfb). cbn [negb]. wp. set (n1 := with_dirty _ _).
  assert (inode_ok L U n1) as Hn1. { destruct Hn. split; try done. cbn. split; [rewrite length_put32; lia|by apply bytes_put32]. }
  wp_apply (write_entry_run s1 v1 U n n1); [by apply (grown_same L v U (block_pointers n))|done| |done|done|apply Hf|].
  - apply (inode_tree_same v v1 n); try done; [apply Hf|intros o Ho; apply get32_put32_other; lia|]. intros x Hx. apply (grown_other L HL v U (block_pointers n) [] v1 s1); [done|apply (ok_data _ _ _ Hn), elem_of_app; by right|].
    intros Hx'. pose proof (ok_nodup _ _ _ Hn) as (_&Hap&_)%NoDup_app. by apply (Hap x).
  - intros n' s' (v'&->&Hstep&Hfb'&Hh). wp. eexists _, v'. split_and!; [done|by apply (file_step_grown s v U n v1 s1)|done| |].
    + rewrite Hh. cbn. unfold hard_links. apply get16_put32_other; lia.
    + rewrite Hfb'. exact Hfb.
Qed.

(** Writing stores the bytes in the file, which grows if it is too short. *)
Lemma write_run s v U n start (d : list Z) : fs_inv s v L U → file_ok L v U n → 0 ≤ start → 0 < zlength d → start + zlength d < 2 ^ 31 → bytes d → space_for n (start + zlength d) ≤ tf L U →
  run (write stack_bytes n start d) s (λ r s', ∃ n' v' U', r = (zlength d, n') ∧ file_step v U n v' U' n' s' ∧ _metadata n' = set_size (Z.max (size (_metadata n)) (start + zlength d)) (_metadata n) ∧
    hard_links (raw n') = hard_links (raw n) ∧ file_bytes v' n' = splice (grow (file_bytes v n) (start + zlength d)) start d).
Proof.
  intros Hi Hf Hst Hd Hend Hbd Hsp. pose proof (fo_inode _ _ _ _ Hf) as Hn. destruct (ok_device _ _ _ Hn) as (_&_&_&Hdev). unfold write. cbv zeta. rewrite Hdev. destruct (Z.eqb_spec (zlength d) 0); [lia|].
  rewrite (fo_exists _ _ _ _ Hf). cbn [negb]. rewrite u32_id by lia. assert (is_symlink (_metadata n) && (Z.max (size (_metadata n)) (start + zlength d) <? 60) = false) as ->.
  { pose proof (ok_symlink _ _ _ Hn) as Hsym. unfold inline_symlink in Hsym. destruct (is_symlink (_metadata n)); [|done]. cbn in *. rewrite Z.ltb_ge in *. lia. }
  wp. destruct (Z.ltb_spec (size (_metadata n)) (start + zlength d)) as [Hlt|Hge].
  - wp. eapply run_lift; [unfold off_add; rewrite !s32_id by lia; by rewrite (proj2 (Z.leb_le _ _)), (proj2 (Z.ltb_lt _ _)) by lia|]. wp_apply (truncate_extend_run s v U n (start + zlength d)); [done|done|lia|done|].
    intros r s1 (n1&v1&U1&->&Hstep&Em&Eh&_&Ec). apply run_bind, run_get. rewrite (fb_bs _ _ _ (fi_base _ _ _ _ (st_inv _ _ _ _ _ _ _ Hstep))).
    apply (run_mono _ _ _ _ (write_tail_run s1 v1 U1 n1 start d (st_inv _ _ _ _ _ _ _ Hstep) (st_file _ _ _ _ _ _ _ Hstep) Hst ltac:(rewrite Em; cbn; lia) Hbd)).
    intros r s' (n'&v'&->&Hstep'&Em'&Eh'&Ec'). exists n', v', U1. rewrite Em', Eh', Ec', Em, Eh, Ec. split_and!; [done|by apply (file_step_trans v U n v1 U1 n1 s1)|f_equal; lia|done|done].
  - apply run_ret, run_bind, run_get. rewrite (fb_bs _ _ _ (fi_base _ _ _ _ Hi)). apply (run_mono _ _ _ _ (write_tail_run s v U n start d Hi Hf Hst ltac:(lia) Hbd)).
    intros r s' (n'&v'&->&Hstep'&Em'&Eh'&Ec'). exists n', v', U. rewrite Em', Eh', Ec'. split_and!; [done|done|rewrite Z.max_l by lia; by destruct (_metadata n)|done|].
    rewrite grow_same; [done|]. rewrite (length_file_bytes L HL s v U n (fi_base _ _ _ _ Hi) Hn). rewrite (ok_blocks _ _ _ Hn). by apply rounded_mono.
Qed.
End step.
