(* ===== verification/Ext2Shrink.v ===== *)
(** * ext2: cutting files

    [truncate] to a smaller length: the blocks behind the new end go back to the allocator. *)

From stdpp Require Import base numbers list list_numbers option gmap sets.
From S2P Require Import Prelude.
From S2P Require Import ByteBuf.
From S2P Require Import FileBlocks.
From S2P Require Import Ext2.
From S2P Require Import Ext2Inv.
From S2P Require Import Ext2Alloc.
From S2P Require Import Ext2Inode.
From S2P Require Import Ext2Tree.
From S2P Require Import Ext2Pointers.
From S2P Require Import Ext2Entry.
From S2P Require Import Ext2File.
From S2P Require Import Ext2FileOk.
From S2P Require Import Ext2Trunc.

Local Open Scope Z_scope.

Implicit Types (v buf ps pbs bs : list Z) (b i m : Z) (k : nat) (n : inode) (U : gset Z).

Lemma resize_take (c : Z) (l : list Z) : c ≤ zlength l → resize c l = take (Z.to_nat c) l.
Proof. intros Hc. unfold resize, zeroes. replace (Z.to_nat (c - zlength l)) with 0%nat by lia. apply app_nil_r. Qed.

Lemma nodes_0 m : 0 < m ≤ 256 → nodes 0 m = 1.
Proof. intros. by apply cdiv_one. Qed.

Lemma nodes_1 m : 0 < m ≤ 65536 → nodes 1 m = 1 + cdiv m 256.
Proof. intros Hm. rewrite nodes_root by exact Hm. reflexivity. Qed.

Lemma nodes_2 m : 0 < m ≤ 16777216 → nodes 2 m = 1 + cdiv m 65536 + cdiv m 256.
Proof. intros Hm. rewrite nodes_root by exact Hm. cbn [nodes]. change (cap 1) with 65536. lia. Qed.

Lemma cdiv_range m c : 0 < c → 0 ≤ m → 0 ≤ cdiv m c ≤ m.
Proof. intros Hc Hm. unfold cdiv. split; [apply Z.div_pos; lia|]. destruct (decide (m = 0)) as [->|]; [rewrite Z.div_small; lia|]. apply Z.div_le_upper_bound; nia. Qed.

(** [calculate_num_ptr_blocks] counts the blocks of pointers. *)
Lemma calculate_num_ptr_blocks_spec {D} (s : ext2 D) nb : block_pointers_per_block s = 256 → 0 ≤ nb ≤ 2 ^ 22 → calculate_num_ptr_blocks s nb = ptr_blocks nb.
Proof.
  intros HN Hnb. unfold calculate_num_ptr_blocks. rewrite HN. unfold ptr_blocks, plen. change (u32 (256 * 256)) with 65536. change (cap 0) with 256. change (cap 1) with 65536. change (cap 2) with 16777216.
  unfold part_start. cbv zeta. destruct (Z.leb_spec nb 12); [rewrite !Z.max_l by lia; by rewrite !nodes_zero|]. rewrite (Z.max_r 0 (Z.min 256 _)) by lia. rewrite nodes_0 by lia.
  destruct (Z.eqb_spec (nb - 12 - Z.min (nb - 12) 256) 0); [rewrite !Z.max_l by lia; by rewrite !nodes_zero|]. assert (268 < nb) by lia. replace (Z.min (nb - 12) 256) with 256 in * by lia. replace (nb - 12 - 256) with (nb - 268) in * by lia.
  rewrite (Z.max_r 0 (Z.min 65536 _)) by lia. rewrite nodes_1 by lia. rewrite (Z.min_comm (nb - 268)). set (d := Z.min 65536 (nb - 268)) in *. rewrite (u32_id (d + 256 - 1)) by lia. change ((d + 256 - 1) / 256) with (cdiv d 256).
  destruct (Z.eqb_spec (nb - 268 - d) 0); [rewrite Z.max_l by lia; rewrite nodes_zero; lia|]. assert (65804 < nb) by lia. replace d with 65536 in * by lia. replace (nb - 268 - 65536) with (nb - 65804) in * by lia.
  rewrite Z.max_r, Z.min_r by lia. rewrite nodes_2 by lia. rewrite (u32_id (_ + 65536 - 1)), (u32_id (_ + 256 - 1)) by lia.
  change ((nb - 65804 + 65536 - 1) / 65536) with (cdiv (nb - 65804) 65536). change ((nb - 65804 + 256 - 1) / 256) with (cdiv (nb - 65804) 256).
  pose proof (cdiv_range (nb - 65804) 65536 ltac:(lia) ltac:(lia)). pose proof (cdiv_range (nb - 65804) 256 ltac:(lia) ltac:(lia)). change (cdiv 65536 256) with 256. rewrite u32_id by lia. lia.
Qed.

Lemma ptr_blocks_nonneg (nb : Z) : 0 ≤ ptr_blocks nb.
Proof.
  assert (∀ k, 0 ≤ nodes k (plen k nb)) as Hk by (intros k; rewrite <-(nodes_zero k); apply nodes_mono; unfold plen; lia). pose proof (Hk 0%nat). pose proof (Hk 1%nat). pose proof (Hk 2%nat). unfold ptr_blocks. lia.
Qed.

(** The loops that give blocks back, last first. *)
Lemma free_down_eq {D} `{ByteFile D} (stack_bytes : list Z) (get : Z → Z) (l : list Z) : ∀ i, (∀ (j : nat) x, l !! j = Some x → get (i - zlength l + Z.of_nat j) = x) →
  free_down (D:=D) stack_bytes (length l) get i = free_block_list stack_bytes (reverse l).
Proof.
  induction l as [|x l IH] using rev_ind; intros i Hget; [done|]. rewrite length_app, Nat.add_1_r, reverse_app. cbn [free_down reverse rev_append app free_block_list].
  assert (get (i - 1) = x) as ->.
  { pose proof (Hget (length l) x ltac:(by rewrite lookup_app_r, Nat.sub_diag by lia)) as E. rewrite length_app in E. cbn in E. rewrite <-E. f_equal. lia. }
  rewrite IH; [done|]. intros j y Hj. pose proof (Hget j y ltac:(by apply lookup_app_l_Some)) as E. rewrite length_app in E. cbn in E. rewrite <-E. f_equal. lia.
Qed.

(** The inode with the first [nb] of its blocks and the first [c] of its blocks of pointers. *)
Definition shrunk n (len nb c : Z) : inode :=
  with_size (with_pointer_blocks (with_pointers n (take (Z.to_nat nb) (block_pointers n))) (take (Z.to_nat c) (pointer_blocks n))) len.

(** The blocks of pointers left are those of whole trees, or of trees that need all of them: [truncate] does not clear the pointers to the others. *)
Definition shrink_safe (nb nb' : Z) : Prop := (plen 1 nb' = 0 ∨ nodes 1 (plen 1 nb') = nodes 1 (plen 1 nb)) ∧ (plen 2 nb' = 0 ∨ nodes 2 (plen 2 nb') = nodes 2 (plen 2 nb)).

Lemma plen_0 (nb nb' : Z) : nb' ≤ nb → plen 0 nb' = 0 ∨ nodes 0 (plen 0 nb') = nodes 0 (plen 0 nb).
Proof. intros Hnb. unfold plen. change (cap 0) with 256. unfold part_start. destruct (decide (nb' ≤ 12)); [left; lia|]. right. rewrite !nodes_0 by lia. done. Qed.

(** What is left of a part. *)
Definition left_of k (nb' : Z) (p : list Z) : list Z := if decide (plen k nb' = 0) then [] else p.

Lemma left_of_length v k root n nb' p : rooted v k root (part n k) p → plen k nb' = 0 ∨ nodes k (plen k nb') = nodes k (plen k (zlength (block_pointers n))) → zlength (left_of k nb' p) = nodes k (plen k nb').
Proof.
  intros Hr Hs. unfold left_of. case_decide as E; [by rewrite E, nodes_zero|]. destruct Hs as [?| ->]; [done|]. rewrite (rooted_size _ _ _ _ _ Hr), part_length by lia. done.
Qed.

Lemma take_parts (p0 p1 p2 q0 q1 q2 : list Z) c : (q0 = p0 ∨ q0 = [] ∧ q1 = [] ∧ q2 = []) → (q1 = p1 ∨ q1 = [] ∧ q2 = []) → (q2 = p2 ∨ q2 = []) → c = zlength (q0 ++ q1 ++ q2) → take (Z.to_nat c) (p0 ++ p1 ++ p2) = q0 ++ q1 ++ q2.
Proof.
  intros [->|(->&->&->)] H1 H2 ->; [|done]. destruct H1 as [->|(->&->)].
  - destruct H2 as [->| ->]; [apply take_ge; lia|]. rewrite app_nil_r, Nat2Z.id, app_assoc. apply take_app_length.
  - rewrite !app_nil_r, Nat2Z.id. apply take_app_length.
Qed.

(** The parts of a file are filled one after the other. *)
Lemma plen_order (nb : Z) : (plen 0 nb = 0 → plen 1 nb = 0) ∧ (plen 1 nb = 0 → plen 2 nb = 0).
Proof. unfold plen. change (cap 0) with 256. change (cap 1) with 65536. change (cap 2) with 16777216. unfold part_start. lia. Qed.

Lemma left_parts v n (nb' : Z) p0 p1 p2 : rooted v 0 (s_pointer (raw n)) (part n 0) p0 → rooted v 1 (d_pointer (raw n)) (part n 1) p1 → rooted v 2 (t_pointer (raw n)) (part n 2) p2 →
  nb' ≤ zlength (block_pointers n) → shrink_safe (zlength (block_pointers n)) nb' →
  take (Z.to_nat (ptr_blocks nb')) (p0 ++ p1 ++ p2) = left_of 0 nb' p0 ++ left_of 1 nb' p1 ++ left_of 2 nb' p2.
Proof.
  intros H0 H1 H2 Hnb [Hs1 Hs2]. destruct (plen_order nb') as [Ho0 Ho1]. apply take_parts.
  - unfold left_of. destruct (decide (plen 0 nb' = 0)) as [E|]; [|by left]. right. by rewrite !decide_True by tauto.
  - unfold left_of. destruct (decide (plen 1 nb' = 0)) as [E|]; [|by left]. right. by rewrite decide_True by tauto.
  - unfold left_of. case_decide; [by right|by left].
  - rewrite !length_app, !Nat2Z.inj_add. rewrite (left_of_length _ _ _ _ _ _ H0 (plen_0 _ _ Hnb)), (left_of_length _ _ _ _ _ _ H1 Hs1), (left_of_length _ _ _ _ _ _ H2 Hs2). unfold ptr_blocks. lia.
Qed.

Lemma left_of_reusable v k root n nb' p : rooted v k root (part n k) p → plen k nb' = 0 ∨ nodes k (plen k nb') = nodes k (plen k (zlength (block_pointers n))) → nb' ≤ zlength (block_pointers n) →
  reusable v k root (plen k nb') (left_of k nb' p).
Proof.
  intros Hr Hs Hnb. unfold left_of. case_decide as E; [by left|]. destruct Hs as [?|Hs]; [done|]. pose proof (plen_mono k _ _ Hnb) as Hm. assert (0 < plen k nb') as Hpos by (unfold plen in *; lia). right. split; [done|].
  assert (zlength (part n k) = plen k (zlength (block_pointers n))) as Hl by (by rewrite part_length by lia).
  destruct Hr as [(E0&_&_)|Ht]; [rewrite E0 in Hl; cbn in Hl; lia|]. right. exists (plen k nb'). split; [lia|]. apply (skel_shrink v k root (zlength (part n k))); [by apply tree_skel|lia|congruence].
Qed.

Lemma swap_middle (l1 l2 l3 l4 : list Z) : (l1 ++ l3) ++ l2 ++ l4 ≡ₚ (l1 ++ l2) ++ l3 ++ l4.
Proof. solve_Permutation. Qed.

Section shrink.
Context {D : Type} `{ByteFileSpec D}.
Context (L : layout) (HL : layout_ok L).
Implicit Types (s : ext2 D).

(** The rest of the last block is cleared. *)
Lemma cut_block_run s v U n len (nb : Z) : fs_inv s v L U → 0 ≤ len → nb = (len + 1023) / 1024 → zlength (block_pointers n) = nb → NoDup (block_pointers n) → (∀ b, b ∈ block_pointers n → data_block L U b) →
  run (if negb (len mod 1024 =? 0) && (0 <? nb) then _ ← fs_truncate_block (get_block_pointer n (nb - 1)) (len mod 1024); ret tt else ret tt) s
    (λ _ s', ∃ v', grown L v U (block_pointers n) [] v' s' ∧ file_bytes v' n = slice 0 len (file_bytes v n) ++ zeroes (1024 * nb - len)).
Proof.
  intros Hi Hlen Hnb Hl Hnd Hd. pose proof (fi_base _ _ _ _ Hi) as Hs. pose proof (Z.div_mod len 1024 ltac:(lia)) as Hdm. pose proof (Z.mod_pos_bound len 1024 ltac:(lia)) as Hmb. pose proof (dtb_pos L HL). pose proof (fb_len _ _ _ Hs) as Hlv.
  assert (∀ b, b ∈ block_pointers n → in_file 1024 v b) as Hf by (intros b Hb; pose proof (data_block_range L U b (Hd b Hb)); apply (base_in_file s v L); [done|lia]).
  assert (zlength (file_bytes v n) = 1024 * nb) as Hlf by (unfold file_bytes; rewrite length_block_bytes by done; lia).
  pose proof (Z.div_mod (len + 1023) 1024 ltac:(lia)) as Hdm'. pose proof (Z.mod_pos_bound (len + 1023) 1024 ltac:(lia)) as Hmb'.
  destruct (Z.eqb_spec (len mod 1024) 0) as [E|Hne]; cbn [negb andb].
  - wp. exists v. split; [by apply grown_refl|]. assert (1024 * nb = len) as -> by lia. rewrite Z.sub_diag. unfold zeroes. cbn. rewrite app_nil_r. symmetry. apply slice_all. lia.
  - assert (0 < nb) by lia. rewrite (proj2 (Z.ltb_lt _ _)) by done. wp. destruct (lookup_lt_is_Some_2 (block_pointers n) (Z.to_nat (nb - 1))) as [b Hb]; [lia|].
    assert (get_block_pointer n (nb - 1) = b) as -> by (unfold get_block_pointer; rewrite (proj2 (Z.leb_gt _ _)) by lia; by apply list_lookup_total_correct).
    assert (b ∈ block_pointers n) as Hin by (by eapply list_elem_of_lookup_2). pose proof (data_block_range L U b (Hd b Hin)) as Hr. wp_apply (fs_truncate_block_run s v L b (len mod 1024)); [done|lia|lia|].
    intros r s1 (->&Hst). wp. set (l := splice (blk 1024 v b) (len mod 1024) (zeroes (1024 - len mod 1024))) in *. pose proof (length_zeroes (1024 - len mod 1024) ltac:(lia)) as Hlz.
    assert (zlength (blk 1024 v b) = 1024) as Hlb by (apply length_blk; [lia|by apply Hf]). assert (zlength l = 1024) as Hll by (unfold l; rewrite length_splice; lia).
    eexists. split; [|].
    + apply (grown_step_trans L v U [] [] v s [b] []); [by apply grown_refl|rewrite list_to_set_nil, union_empty_r_L; apply (grown_write L HL s v U b l s1 Hi (Hd b Hin) Hll Hst)|by intros x ?%elem_of_nil|].
      intros x ->%list_elem_of_singleton. by left.
    + unfold file_bytes, l. rewrite (splice_block_bytes v (block_pointers n) (Z.to_nat (nb - 1))); [|done|done|done|lia|lia]. fold (file_bytes v n). rewrite Z2Nat.id by lia.
      replace (1024 * (nb - 1) + len mod 1024) with len by lia. replace (1024 - len mod 1024) with (1024 * nb - len) in * by lia.
      unfold splice, slice. change (Z.to_nat 0) with 0%nat. rewrite drop_0, (drop_ge (file_bytes v n)) by lia. by rewrite app_nil_r.
Qed.

(** The blocks of the cut file. *)
Lemma inode_ok_shrunk U n len nb c : inode_ok L U n → 0 ≤ len < size (_metadata n) → nb = (len + 1023) / 1024 → nb < zlength (block_pointers n) → 0 ≤ c → inline_symlink (shrunk n len nb c) = false →
  inode_ok L (U ∖ list_to_set (drop (Z.to_nat nb) (block_pointers n)) ∖ list_to_set (drop (Z.to_nat c) (pointer_blocks n))) (shrunk n len nb c).
Proof.
  intros Hn Hlen Hnb Hlt Hc Hsym. destruct Hn as [? ? [[? ?] ?] (?&?&?&?) _ ? Hnd Hd].
  assert (NoDup ((take (Z.to_nat nb) (block_pointers n) ++ take (Z.to_nat c) (pointer_blocks n)) ++ drop (Z.to_nat nb) (block_pointers n) ++ drop (Z.to_nat c) (pointer_blocks n))) as Hnd'.
  { rewrite <-(take_drop (Z.to_nat nb) (block_pointers n)), <-(take_drop (Z.to_nat c) (pointer_blocks n)) in Hnd.
    by rewrite swap_middle. }
  pose proof (Z.div_pos (len + 1023) 1024 ltac:(lia) ltac:(lia)).
  apply NoDup_app in Hnd' as (Hnd1&Hap&_). split; try done.
  - split; [split; [cbn; lia|done]|cbn; lia].
  - cbn. rewrite length_take. lia.
  - intros x Hx. specialize (Hap x Hx). rewrite not_elem_of_app in Hap. destruct (Hd x) as (HxU&Hr).
    { revert Hx. cbn. rewrite !elem_of_app. intros [Hx|Hx]; [left|right]; by apply elem_of_take in Hx as (?&?%list_elem_of_lookup_2&_). }
    split; [|done]. rewrite !elem_of_difference, !elem_of_list_to_set. tauto.
Qed.

Lemma frame_other U v v' b : frame L U v v' → data_block L U b → blk 1024 v' b = blk 1024 v b.
Proof. intros Hf Hd. pose proof (data_block_range L U b Hd). pose proof (dtb_pos L HL). apply Hf; [apply Hd|lia|by apply (data_block_fixed L HL U)]. Qed.

Lemma frame_entry U v v' j : frame L U v v' → (∀ b, b ∈ meta L → b ∈ U) → inode_number L j → entry L v' j = entry L v j.
Proof. intros Hf HU Hj. destruct (inode_block_range L HL j Hj) as (Hr&Hm&Hv). pose proof (dtb_pos L HL). rewrite <-!(entry_blk L HL) by done. f_equal. apply Hf; [by apply HU|lia|done]. Qed.

(** The blocks of pointers that are left serve for the cut file. *)
Lemma writable_shrunk v v' U U' n len (nb : Z) : file_ok L v U n → nb < zlength (block_pointers n) → 0 ≤ nb → shrink_safe (zlength (block_pointers n)) nb → inode_ok L U' (shrunk n len nb (ptr_blocks nb)) →
  (∀ x, x ∈ take (Z.to_nat (ptr_blocks nb)) (pointer_blocks n) → blk 1024 v' x = blk 1024 v x) →
  ∃ p0 p1 p2, pointer_blocks (shrunk n len nb (ptr_blocks nb)) = p0 ++ p1 ++ p2 ∧ writable L v' U' (shrunk n len nb (ptr_blocks nb)) p0 p1 p2.
Proof.
  intros Hf Hnb Hnb0 Hsafe Hn' Hblk. destruct (fo_disk _ _ _ _ Hf) as [_ _ _ _ _ [_ _ (p0&p1&p2&Hp&H0'&H1&H2)]]. pose proof (left_parts v n nb p0 p1 p2 H0' H1 H2 ltac:(lia) Hsafe) as Hleft. rewrite <-Hp in Hleft.
  set (n' := shrunk n len nb (ptr_blocks nb)) in *. assert (pointer_blocks n' = left_of 0 nb p0 ++ left_of 1 nb p1 ++ left_of 2 nb p2) as Hp' by exact Hleft. rewrite Hleft in Hblk.
  exists (left_of 0 nb p0), (left_of 1 nb p1), (left_of 2 nb p2). split; [done|]. assert (zlength (block_pointers n') = nb) as Hbl by (cbn; rewrite length_take; lia).
  assert (∀ k, zlength (part n' k) = plen k nb) as Hpart by (intros k; rewrite part_length, Hbl by lia; done). destruct Hsafe as [Hs1 Hs2].
  assert (nb ≤ 2 ^ 22) as Hnb22. { pose proof (ok_blocks _ _ _ Hn') as E. rewrite Hbl in E. rewrite E. destruct (ok_metadata _ _ _ Hn') as [_ ?]. apply Z.div_le_upper_bound; lia. }
  split.
  - apply Hn'.
  - apply Forall_forall. intros x Hx. pose proof (data_block_range L _ x (ok_data _ _ _ Hn' x ltac:(apply elem_of_app; by left))). pose proof (dtb_pos L HL). pose proof (lo_total L HL). lia.
  - rewrite Hbl. unfold max_blocks. change (cap 2) with 16777216. lia.
  - rewrite Hpart. apply (reusable_ext v v'); [apply (left_of_reusable v 0 _ n); [exact H0'|apply plen_0; lia|lia]|]. intros x Hx. apply Hblk. rewrite !elem_of_app. tauto.
  - rewrite Hpart. apply (reusable_ext v v'); [apply (left_of_reusable v 1 _ n); [exact H1|done|lia]|]. intros x Hx. apply Hblk. rewrite !elem_of_app. tauto.
  - rewrite Hpart. apply (reusable_ext v v'); [apply (left_of_reusable v 2 _ n); [exact H2|done|lia]|]. intros x Hx. apply Hblk. rewrite !elem_of_app. tauto.
  - rewrite <-Hp'. by pose proof (ok_nodup _ _ _ Hn') as (_&_&?)%NoDup_app.
  - intros x Hx. apply (ok_data _ _ _ Hn'), elem_of_app. right. by rewrite Hp'.
  - rewrite !length_app, !Nat2Z.inj_add, !Hpart. rewrite (left_of_length _ _ _ _ _ _ H0' (plen_0 (zlength (block_pointers n)) nb ltac:(lia))), (left_of_length _ _ _ _ _ _ H1 Hs1), (left_of_length _ _ _ _ _ _ H2 Hs2).
    pose proof (count_free_le (all_blocks L) U') as Hc. fold (tf L U') in Hc. lia.
Qed.

Context (stack_bytes : list Z) (stack_len : length stack_bytes = 14%nat) (stack_ok : bytes stack_bytes).

(** Giving back blocks of a file. *)
Lemma free_down_run s v U (get : Z → Z) (i : Z) (l : list Z) : fs_inv s v L U → NoDup l → (∀ b, b ∈ l → data_block L U b) → (∀ (j : nat) x, l !! j = Some x → get (i - zlength l + Z.of_nat j) = x) →
  run (free_down stack_bytes (length l) get i) s (λ _ s', ∃ v', fs_inv s' v' L (U ∖ list_to_set l) ∧ frame L (U ∖ list_to_set l) v v').
Proof.
  intros Hi Hnd Hd Hget. rewrite (free_down_eq stack_bytes get l i Hget). wp_apply (free_block_list_run L HL stack_bytes stack_len stack_ok (reverse l) s v U); [done|by rewrite reverse_Permutation| |].
  - intros b Hb. rewrite reverse_Permutation in Hb. destruct (Hd b Hb) as (?&?&?&?). done.
  - intros _ s' (v'&Hi'&Hf'). exists v'. assert (list_to_set (C:=gset Z) (reverse l) = list_to_set l) as E by (apply set_eq; intros x; by rewrite !elem_of_list_to_set, reverse_Permutation). by rewrite <-E.
Qed.

Lemma cut_bytes s v U n len (nb : Z) : fs_base s v L → inode_ok L U n → 0 ≤ len < size (_metadata n) → nb = (len + 1023) / 1024 → nb < zlength (block_pointers n) →
  slice 0 len (block_bytes v (take (Z.to_nat nb) (block_pointers n))) = slice 0 len (file_bytes v n).
Proof.
  intros Hs Hn Hlen Hnb Hlt. pose proof (Z.div_mod (len + 1023) 1024 ltac:(lia)). pose proof (Z.mod_pos_bound (len + 1023) 1024 ltac:(lia)).
  unfold file_bytes. rewrite <-(take_drop (Z.to_nat nb) (block_pointers n)) at 2. rewrite block_bytes_app. unfold slice. change (Z.to_nat 0) with 0%nat. rewrite !drop_0. rewrite take_app_le; [done|].
  assert (zlength (block_bytes v (take (Z.to_nat nb) (block_pointers n))) = 1024 * nb); [|lia]. rewrite length_block_bytes; [rewrite length_take; lia|].
  intros b Hb. apply (file_in_file L HL s v U n); [done|done|]. by apply elem_of_take in Hb as (?&?%list_elem_of_lookup_2&_).
Qed.

Lemma shrunk_step v U n len (nb : Z) v2 v3 s3 n4 new v4 s4 : let n' := shrunk n len nb (ptr_blocks nb) in let U2 := U ∖ list_to_set (drop (Z.to_nat nb) (block_pointers n)) ∖ list_to_set (drop (Z.to_nat (ptr_blocks nb)) (pointer_blocks n)) in
  inode_ok L U2 n' → (∀ b, data_block L U2 b → blk 1024 v2 b = blk 1024 v b) → (∀ j, inode_number L j → entry L v2 j = entry L v j) → grown L v2 U2 (block_pointers n') [] v3 s3 → (∀ b, b ∈ meta L → b ∈ U2) →
  updated L v3 U2 (id n') (pointer_blocks n') new v4 s4 → block_pointers n4 = block_pointers n' → pointer_blocks n4 ≡ₚ pointer_blocks n' ++ new → id n4 = id n' → file_ok L v4 (U2 ∪ list_to_set new) n4 →
  file_step L v U n v4 (U2 ∪ list_to_set new) n4 s4.
Proof.
  intros n' U2 Hn2 Hblk Hent Hg3 Hmeta Hup Ebp Hperm Eid Hf4.
  assert (∀ b, b ∈ U2 ∧ b ∉ blocks_of n' ↔ b ∈ U ∧ b ∉ blocks_of n) as Hset.
  { intros b. unfold U2, blocks_of. cbn. rewrite !elem_of_difference, !elem_of_list_to_set. rewrite <-(take_drop (Z.to_nat nb) (block_pointers n)) at 3. rewrite <-(take_drop (Z.to_nat (ptr_blocks nb)) (pointer_blocks n)) at 3.
    rewrite !elem_of_app. tauto. }
  split; [apply Hup|done|done| | |].
  - intros b. rewrite <-Hset. unfold blocks_of. rewrite Ebp, Hperm, !elem_of_app, elem_of_union, elem_of_list_to_set. split; [tauto|]. intros [HU Hnb]. split; [tauto|]. intros [Hb|[Hb|Hb]]; [tauto|tauto|]. by apply (up_free _ _ _ _ _ _ _ _ Hup b Hb).
  - intros b [HbU Hr] Hnb. destruct (proj2 (Hset b) (conj HbU Hnb)) as [Hb2 Hnb2]. assert (data_block L U2 b) as Hd2 by (by split). unfold blocks_of in Hnb2. rewrite elem_of_app in Hnb2.
    rewrite (up_keep _ _ _ _ _ _ _ _ Hup) by (done || tauto). rewrite (grown_other L HL v2 U2 (block_pointers n') [] v3 s3); [by apply Hblk|done|done|tauto].
  - intros j Hj Hne. rewrite (up_entries _ _ _ _ _ _ _ _ Hup) by done. rewrite (grown_entry L HL v2 U2 (block_pointers n') [] v3 s3); [by apply Hent|apply Hg3|done| |done|done]. intros x Hx. apply (ok_data _ _ _ Hn2), elem_of_app. by left.
Qed.

(** The steps of [truncate] after the blocks have been given back. *)
Lemma shrunk_tail_run s v U n len (nb : Z) s2 v2 : let n' := shrunk n len nb (ptr_blocks nb) in let U2 := U ∖ list_to_set (drop (Z.to_nat nb) (block_pointers n)) ∖ list_to_set (drop (Z.to_nat (ptr_blocks nb)) (pointer_blocks n)) in
  fs_base s v L → file_ok L v U n → 0 ≤ len < size (_metadata n) → nb = (len + 1023) / 1024 → nb < zlength (block_pointers n) → shrink_safe (zlength (block_pointers n)) nb → fs_inv s2 v2 L U2 → inode_ok L U2 n' →
  (∀ b, data_block L U2 b → blk 1024 v2 b = blk 1024 v b) → (∀ j, inode_number L j → entry L v2 j = entry L v j) →
  run (_ ← (if negb (len mod 1024 =? 0) && (0 <? nb) then _ ← fs_truncate_block (get_block_pointer n' (nb - 1)) (len mod 1024); ret tt else ret tt);
       '(_, n) ← write_to_disk stack_bytes n';
       ret (Ok tt, n)) s2 (λ r s', truncated L v U n len (slice 0 len (file_bytes v n) ++ zeroes (rounded len - len)) r s').
Proof.
  intros n' U2 Hs Hf Hlen Hnb Hlt Hsafe Hi2 Hn2 Hblk Hent. wp. pose proof (fo_inode _ _ _ _ Hf) as Hn. pose proof (ok_nodup _ _ _ Hn2) as (Hnd1&Hap&Hnd2)%NoDup_app. pose proof (Z.div_pos (len + 1023) 1024 ltac:(lia) ltac:(lia)).
  wp_apply (cut_block_run s2 v2 U2 n' len nb); [done|lia|done|cbn; rewrite length_take; lia|done|intros b Hb; apply (ok_data _ _ _ Hn2), elem_of_app; by left|].
  intros _ s3 (v3&Hg3&Hfb3). destruct (writable_shrunk v v3 U U2 n len nb) as (p0&p1&p2&Hp&Hw); [done|lia|lia|done|done| |].
  { intros x Hx. assert (data_block L U2 x) as Hdx by (apply (ok_data _ _ _ Hn2), elem_of_app; by right). rewrite (grown_other L HL v2 U2 (block_pointers n') [] v3 s3); [by apply Hblk|done|done|]. intros Hx'. by apply (Hap x Hx'). }
  wp. wp_apply (write_to_disk_run L HL stack_bytes stack_len stack_ok s3 v3 U2 n' p0 p1 p2); [by apply (grown_same L v2 U2 (block_pointers n'))|done|done|done|].
  intros r s4 (n4&new&v4&->&(Eid&Ebp&Em&Eex&Ehl)&Edi&Hn4&Hd4&Hperm&Hup). wp. exists n4, v4, (U2 ∪ list_to_set new). 
  assert (file_bytes v4 n4 = slice 0 len (file_bytes v n) ++ zeroes (1024 * nb - len)) as Hfb.
  { rewrite <-(cut_bytes s v U n len nb) by (done || lia). change (take (Z.to_nat nb) (block_pointers n)) with (block_pointers n').
    rewrite <-(block_bytes_ext v v2 (block_pointers n')) by (intros b Hb; apply Hblk, (ok_data _ _ _ Hn2), elem_of_app; by left). fold (file_bytes v2 n'). rewrite <-Hfb3. unfold file_bytes. rewrite Ebp.
    apply block_bytes_ext. intros b Hb. apply (up_keep _ _ _ _ _ _ _ _ Hup); [apply (ok_data _ _ _ Hn2), elem_of_app; by left|by apply Hap]. }
  split_and!; [done| |done|by rewrite Ehl|done|rewrite Hfb; unfold rounded; by rewrite Hnb].
  apply (shrunk_step v U n len nb v2 v3 s3 n4 new v4 s4); [done|done|done|done|apply Hi2|done|done|done|done|]. split; [done|done|by rewrite Eex; apply Hf].
Qed.

Lemma truncate_shrink_run s v U n len : fs_inv s v L U → file_ok L v U n → 0 ≤ len → (len + 1023) / 1024 < zlength (block_pointers n) → inline_symlink (with_size n len) = false →
  shrink_safe (zlength (block_pointers n)) ((len + 1023) / 1024) →
  run (truncate stack_bytes n len) s (λ r s', truncated L v U n len (slice 0 len (file_bytes v n) ++ zeroes (rounded len - len)) r s').
Proof.
  intros Hi Hf Hlen Hnb Hsym Hsafe. pose proof (fi_base _ _ _ _ Hi) as Hs. pose proof (fo_inode _ _ _ _ Hf) as Hn. destruct (size_blocks L U n Hn) as [Hsz Hsz']. destruct (ok_metadata _ _ _ Hn) as [[? _] ?].
  pose proof (Z.div_mod (len + 1023) 1024 ltac:(lia)) as Hdm. pose proof (Z.mod_pos_bound (len + 1023) 1024 ltac:(lia)) as Hmb. set (nb := (len + 1023) / 1024) in *. assert (len < size (_metadata n)) as Hlt by lia.
  pose proof (on_disk_pointers L v n (fo_disk _ _ _ _ Hf)) as Hpl. pose proof (ptr_blocks_mono nb (zlength (block_pointers n)) ltac:(lia)) as Hpm.
  assert (0 ≤ nb) as Hnb0 by lia. assert (nb ≤ 2 ^ 22) as Hnb22 by lia. assert (0 ≤ ptr_blocks nb) as Hpb0 by apply ptr_blocks_nonneg.
  unfold truncate. rewrite (proj2 (Z.ltb_ge len 0)) by lia. destruct (Z.eqb_spec len (size (_metadata n))); [lia|]. wp. cbv zeta. rewrite (num_blocks_ok L s v U n) by done. rewrite (fb_bs _ _ _ Hs), u32_id by lia.
  replace (len + 1024 - 1) with (len + 1023) by lia. fold nb. rewrite (proj2 (Z.ltb_ge _ _)), (proj2 (Z.ltb_lt nb _)) by lia. wp. rewrite (calculate_num_ptr_blocks_spec s nb (fb_bppb _ _ _ Hs)) by lia.
  set (dropped := drop (Z.to_nat nb) (block_pointers n)). replace (Z.to_nat (zlength (block_pointers n) - nb)) with (length dropped) by (unfold dropped; rewrite length_drop; lia).
  assert (∀ b, b ∈ dropped → b ∈ block_pointers n) as Hin1 by (intros b Hb; rewrite <-(take_drop (Z.to_nat nb) (block_pointers n)); apply elem_of_app; by right).
  pose proof (ok_nodup _ _ _ Hn) as (Hnd1&Hap&Hnd2)%NoDup_app.
  wp_apply (free_down_run s v U (get_block_pointer n) (zlength (block_pointers n)) dropped); [done| | | |].
  { rewrite <-(take_drop (Z.to_nat nb) (block_pointers n)) in Hnd1. by apply NoDup_app in Hnd1 as (_&_&?). }
  { intros b Hb. apply (ok_data _ _ _ Hn), elem_of_app. left. by apply Hin1. }
  { intros j x Hj. unfold dropped in Hj. rewrite lookup_drop in Hj. pose proof (lookup_lt_Some _ _ _ Hj). unfold get_block_pointer. unfold dropped. rewrite length_drop. rewrite (proj2 (Z.leb_gt _ _)) by lia.
    apply list_lookup_total_correct. rewrite <-Hj. f_equal. lia. }
  intros _ s1 (v1&Hi1&Hf1). wp. rewrite resize_take by lia. set (n1 := with_pointers n _). change (pointer_blocks n1) with (pointer_blocks n). change (pointer_blocks (with_pointers n (take (Z.to_nat nb) (block_pointers n)))) with (pointer_blocks n).
  set (pdropped := drop (Z.to_nat (ptr_blocks nb)) (pointer_blocks n)). replace (Z.to_nat (zlength (pointer_blocks n) - ptr_blocks nb)) with (length pdropped) by (unfold pdropped; rewrite length_drop; lia).
  assert (∀ b, b ∈ pdropped → b ∈ pointer_blocks n) as Hin2 by (intros b Hb; rewrite <-(take_drop (Z.to_nat (ptr_blocks nb)) (pointer_blocks n)); apply elem_of_app; by right).
  wp_apply (free_down_run s1 v1 (U ∖ list_to_set dropped) (λ i, pointer_blocks n !!! Z.to_nat i) (zlength (pointer_blocks n)) pdropped); [done| | | |].
  { rewrite <-(take_drop (Z.to_nat (ptr_blocks nb)) (pointer_blocks n)) in Hnd2. by apply NoDup_app in Hnd2 as (_&_&?). }
  { intros b Hb. destruct (ok_data _ _ _ Hn b ltac:(apply elem_of_app; right; by apply Hin2)) as (HbU&Hr). split; [|done]. apply elem_of_difference. split; [done|]. rewrite elem_of_list_to_set. intros Hb'. by apply (Hap b (Hin1 b Hb')), Hin2. }
  { intros j x Hj. unfold pdropped in Hj. rewrite lookup_drop in Hj. pose proof (lookup_lt_Some _ _ _ Hj). unfold pdropped. rewrite length_drop. apply list_lookup_total_correct. rewrite <-Hj. f_equal. lia. }
  intros _ s2 (v2&Hi2&Hf2). rewrite resize_take by lia. pose proof (inode_ok_shrunk U n len nb (ptr_blocks nb) Hn ltac:(lia) ltac:(done) ltac:(lia) Hpb0 Hsym) as Hn2. fold dropped pdropped in Hn2.
  set (n2 := with_pointer_blocks n1 _). change (with_metadata n2 (set_size len (_metadata n2))) with (shrunk n len nb (ptr_blocks nb)). change (get_block_pointer n2) with (get_block_pointer (shrunk n len nb (ptr_blocks nb))).
  set (n' := shrunk n len nb (ptr_blocks nb)) in *. set (U2 := U ∖ list_to_set dropped ∖ list_to_set pdropped) in *.
  apply (shrunk_tail_run s v U n len nb s2 v2); try done.
  - intros b Hb. rewrite (frame_other U2 v1 v2) by done. apply (frame_other (U ∖ list_to_set dropped)); [done|]. destruct Hb as [Hb Hr]. split; [|done]. unfold U2 in Hb. by apply elem_of_difference in Hb as [? _].
  - intros j Hj. rewrite (frame_entry U2 v1 v2); [|done|apply Hi2|done]. apply (frame_entry (U ∖ list_to_set dropped)); [done|apply Hi1|done].
Qed.

(** The lengths to which [truncate] is known to work: more, when there are blocks for it; a length in the last block; and less, when no pointer to a
    block that was given back is left in the doubly and triply indirect blocks ([shrink_safe], so in any case in a file of up to 268 blocks).
    A symbolic link is not cut to a length that would be in the inode. *)
Definition truncatable U n len : Prop :=
  (size (_metadata n) ≤ len ≤ 2 ^ 32 - 1024 ∧ space_for n len ≤ tf L U) ∨
  (0 ≤ len < size (_metadata n) ∧ inline_symlink (with_size n len) = false ∧ shrink_safe (zlength (block_pointers n)) ((len + 1023) / 1024)).

(** What the blocks hold afterwards: blocks of zeros are added, or blocks go and the rest of the last one is cleared; in the last block nothing
    changes. *)
Definition resize (w : list Z) (len : Z) : list Z := if rounded len <? zlength w then slice 0 len w ++ zeroes (rounded len - len) else grow w len.

Lemma truncate_run s v U n len : fs_inv s v L U → file_ok L v U n → truncatable U n len →
  run (truncate stack_bytes n len) s (λ r s', truncated L v U n len (resize (file_bytes v n) len) r s').
Proof.
  intros Hi Hf Hal. pose proof (fo_inode _ _ _ _ Hf) as Hn. pose proof (length_file_bytes L HL s v U n (fi_base _ _ _ _ Hi) Hn) as Hlf. pose proof (ok_blocks _ _ _ Hn) as Hbl.
  unfold resize. destruct Hal as [[Hlen Hsp]|(Hlen&Hsym&Hsafe)].
  - pose proof (rounded_mono _ _ (proj1 Hlen)) as Hm. unfold rounded at 1 in Hm. rewrite <-Hbl, <-Hlf in Hm. rewrite (proj2 (Z.ltb_ge _ _)) by lia.
    by apply truncate_extend_run.
  - destruct (ok_metadata _ _ _ Hn) as [[? _] ?]. pose proof (rounded_mono len (size (_metadata n)) ltac:(lia)) as Hm. unfold rounded in Hm at 2. rewrite <-Hbl, <-Hlf in Hm.
    destruct (Z.ltb_spec (rounded len) (zlength (file_bytes v n))) as [Hlt|Hge].
    + apply truncate_shrink_run; try done; [lia|]. unfold rounded in Hlt. lia.
    + rewrite grow_same by lia. apply truncate_resize_run; try done; [lia|]. unfold rounded in *. lia.
Qed.
End shrink.
