(* ===== verification/Ext2Mount.v ===== *)
(** * ext2: mounting (kernel/filesystem/ext2/Ext2Filesystem.cpp)

    [probe], [read_superblock] and [init], and that the state of a filesystem whose structures
    agree with each other satisfies the invariant after [init].  [fsck] checks that they do. *)

From stdpp Require Import base numbers list list_numbers option gmap sets.
From S2P Require Import Prelude.
From S2P Require Import ByteBuf.
From S2P Require Import FileBlocks.
From S2P Require Import Ext2.
From S2P Require Import Ext2Inv.
From S2P Require Import Ext2Alloc.

Local Open Scope Z_scope.

Definition EXT2_SIGNATURE : Z := 0xEF53.
Definition signature (sb : list Z) : Z := get16 sb 56.

Section mount.
Context {D : Type} `{ByteFile D}.

(** The bytes of the buffer have no value when the read fails: the code does not look at the result. *)
Definition probe (d : D) : outcome (bool * D) :=
  '(r, d) ← file_read d 1024 512;
  match r with
  | Err _ => Undef
  | Ok l => buf ← whole 512 l; Done (signature buf =? EXT2_SIGNATURE, d)
  end.

Definition read_superblock (d : D) : outcome (list Z * D) :=
  '(r, d) ← read_logical_blocks d 2 1;
  match r with
  | Err _ => Undef
  | Ok sb => Done (if version_major sb <? 1 then put16 (put32 sb 84 11) 88 128 else sb, d)
  end.

(** A shift by the width of the type, and a division by 0, are undefined. *)
Definition init (d : D) : outcome (ext2 D) :=
  '(sb, d) ← read_superblock d;
  if 32 <=? sb_block_size sb then Undef
  else
    let bs := u32 (Z.shiftl 1024 (sb_block_size sb)) in
    if (bs =? 0) || (blocks_per_group sb =? 0) || (inode_size sb =? 0) then Undef
    else Done (mk_ext2 d bs sb (u32 (total_blocks sb + blocks_per_group sb - 1) / blocks_per_group sb) (bs / inode_size sb) (bs / 4) ∅).

End mount.

(** ** Checking *)

Definition all_b (p : Z → bool) (l : list Z) : bool := forallb p l.

Lemma all_b_spec p l x : all_b p l = true → x ∈ l → p x = true.
Proof. unfold all_b. rewrite forallb_forall. intros Hp Hx. by apply Hp, list_elem_of_In. Qed.

Definition bytes_b (l : list Z) : bool := all_b (λ x, (0 <=? x) && (x <? 256)) l.

Lemma bytes_b_spec l : bytes_b l = true → bytes l.
Proof. intros Hb. apply Forall_forall. intros x Hx. pose proof (all_b_spec _ _ x Hb Hx) as E. cbn in E. apply andb_prop in E as [?%Z.leb_le ?%Z.ltb_lt]. lia. Qed.

Definition layout_b (L : layout) : bool :=
  (0 <? l_bpg L) && (l_bpg L <=? 8192) && (0 <? l_ipg L) && (l_ipg L <=? 8192) && (l_ipg L mod 8 =? 0) && (0 <? ng L) && (ng L * l_bpg L <? 2 ^ 31) && (ng L * l_ipg L <? 2 ^ 31) &&
  (l_total L <=? 2 ^ 22) && bool_decide (NoDup (meta L)) && all_b (λ b, (0 <=? b) && (b <? l_total L)) (meta L).

Lemma layout_b_spec L : layout_b L = true → layout_ok L.
Proof.
  unfold layout_b. rewrite !andb_true_iff, !Z.ltb_lt, !Z.leb_le, Z.eqb_eq. intros ((((((((((?&?)&?)&?)&?)&?)&?)&?)&?)&Hnd)&Hr). split; try lia; [by apply bool_decide_eq_true in Hnd|].
  intros b Hb. pose proof (all_b_spec _ _ b Hr Hb) as E. cbn in E. apply andb_prop in E as [?%Z.leb_le ?%Z.ltb_lt]. lia.
Qed.

(** The superblock, the descriptors of the groups and the bitmaps say that the blocks [U], and the inodes of the
    layout, are in use. *)
Definition fsck (v : list Z) (L : layout) (U : gset Z) : bool :=
  let sb := slice 1024 512 v in
  bytes_b v && (1024 * l_total L <=? zlength v) && (sb_block_size sb =? 0) && (1 <=? version_major sb) && (blocks_per_group sb =? l_bpg L) && (inodes_per_group sb =? l_ipg L) && (inode_size sb =? 128) &&
  (u32 (total_blocks sb + l_bpg L - 1) / l_bpg L =? ng L) && (sb_free_blocks sb =? tf L U) &&
  all_b (λ g, let x := gdesc v g in (block_bitmap_block x =? bb L g) && (inode_bitmap_block x =? ib L g) && (inode_table_block x =? it L g) && (free_blocks x =? fc L U g)) (seqZ 0 (ng L)) &&
  all_b (λ g, let bitmap := blk 1024 v (bb L g) in all_b (λ i, eqb (bit bitmap i) (bool_decide (first L g + i ∈ U))) (seqZ 0 (l_bpg L))) (seqZ 0 (ng L)) &&
  all_b (λ b, bool_decide (b ∈ U)) (meta L) && all_b (λ b, bool_decide (b ∈ U) || (b <? l_total L)) (all_blocks L) &&
  (sb_free_inodes sb =? l_sb_inodes L) && all_b (λ g, free_inodes (gdesc v g) =? l_group_inodes L g) (seqZ 0 (ng L)) && (l_sb_inodes L =? tif L) &&
  all_b (λ g, l_group_inodes L g =? fic L g) (seqZ 0 (ng L)) &&
  all_b (λ g, let bitmap := blk 1024 v (ib L g) in all_b (λ i, eqb (bit bitmap i) (bool_decide (g * l_ipg L + 1 + i ∈ l_inodes L))) (seqZ 0 (l_ipg L))) (seqZ 0 (ng L)).

Section mounted.
Context {D : Type} `{ByteFileSpec D}.

(** A consistent filesystem is mounted with the invariant. *)
Lemma init_run (d : D) v L U : file_rep d v → layout_ok L → fsck v L U = true → ∃ s, init d = Done s ∧ fs_inv s v L U ∧ counts_ok L.
Proof.
  intros Hd HL Hck. unfold fsck in Hck. cbv zeta in Hck. rewrite !andb_true_iff, !Z.leb_le, !Z.eqb_eq in Hck.
  destruct Hck as (((((((((((((((((Hb&Hlen)&Hbs)&Hver)&Hbpg)&Hipg)&Hisz)&Hng)&Hfree)&Hgr)&Hbits)&Hmeta)&Hall)&Hifree)&Higr)&Htif)&Hfic)&Hibits). apply bytes_b_spec in Hb.
  pose proof (lo_bpg L HL). pose proof (dtb_pos L HL). pose proof (table_total L HL) as Htt. unfold init, read_superblock, read_logical_blocks, logical_block_size. change (u32 (2 * 512)) with 1024. change (u32 (1 * 512)) with 512.
  destruct (file_read_ok d v 1024 512) as (d'&E&Hd'); [done|lia..|]. rewrite E. cbn [mbind outcome_bind]. set (sb := slice 1024 512 v) in *. assert (zlength sb = 512) as Hlsb by (apply length_slice; lia).
  rewrite Hlsb, Z.eqb_refl. cbn [mbind outcome_bind]. rewrite (proj2 (Z.ltb_ge _ _)) by lia. cbn [mbind outcome_bind]. rewrite Hbs. change (32 <=? 0) with false. change (u32 (Z.shiftl 1024 0)) with 1024.
  cbv zeta. rewrite Hbpg, Hisz, (proj2 (Z.eqb_neq (l_bpg L) 0)) by lia. cbn [orb Z.eqb]. rewrite Hng. eexists. split; [done|]. split; [|split; [done|]; intros g Hg; pose proof (all_b_spec _ _ g Hfic ltac:(apply elem_of_seqZ; lia)) as E'; by apply Z.eqb_eq in E']. split; try done.
  - split; cbn; try done; [lia|by apply bytes_slice].
  - cbn. intros g Hg. pose proof (all_b_spec _ _ g Hgr ltac:(apply elem_of_seqZ; lia)) as E'. cbv beta zeta in E'. rewrite !andb_true_iff, !Z.eqb_eq in E'. tauto.
  - intros g i Hg Hi. pose proof (all_b_spec _ _ g Hbits ltac:(apply elem_of_seqZ; lia)) as E'. cbv beta zeta in E'. pose proof (all_b_spec _ _ i E' ltac:(apply elem_of_seqZ; lia)) as E2. by apply eqb_prop in E2.
  - intros b Hbm. pose proof (all_b_spec _ _ b Hmeta Hbm) as E'. by apply bool_decide_eq_true in E'.
  - intros b Hba HU. pose proof (all_b_spec _ _ b Hall Hba) as E'. cbv beta in E'. apply orb_prop in E' as [E'|E']; [by apply bool_decide_eq_true in E'|by apply Z.ltb_lt in E'].
  - split; [done| |].
    + intros g Hg. pose proof (all_b_spec _ _ g Higr ltac:(apply elem_of_seqZ; lia)) as E'. by apply Z.eqb_eq in E'.
    + intros g i Hg Hi. pose proof (all_b_spec _ _ g Hibits ltac:(apply elem_of_seqZ; lia)) as E'. cbv beta zeta in E'. pose proof (all_b_spec _ _ i E' ltac:(apply elem_of_seqZ; lia)) as E2. by apply eqb_prop in E2.
Qed.
End mounted.
