(* ===== verification/Ext2Spec.v ===== *)
(** * ext2: the filesystem as a map from inode numbers to lists of bytes

    The theorems about the allocator, the inodes and the files, for every layout of blocks of
    1024 bytes, and a small filesystem that they are applied to. *)

From stdpp Require Import base numbers list list_numbers option gmap sets.
From S2P Require Import Prelude.
From S2P Require Import ByteBuf.
From S2P Require Import LRUCache.
From S2P Require Import WordQueue.
From S2P Require Import Disk.
From S2P Require Import DiskCache.
From S2P Require Import FileBlocks.
From S2P Require Import Partition.
From S2P Require Import Ext2.
From S2P Require Import Ext2Inv.
From S2P Require Import Ext2Alloc.
From S2P Require Import Ext2Inode.
From S2P Require Import Ext2Tree.
From S2P Require Import Ext2Pointers.
From S2P Require Import Ext2Entry.
From S2P Require Import Ext2File.
From S2P Require Import Ext2FileOk.
From S2P Require Import Ext2Trunc.
From S2P Require Import Ext2Shrink.
From S2P Require Import Ext2Mount.

Local Open Scope Z_scope.

Implicit Types (v : list Z) (n : inode) (U : gset Z) (i b : Z).

(** ** Operations on files *)

Inductive fop :=
  | Fread (i start len : Z)
  | Fwrite (i start : Z) (data : list Z)
  | Ftruncate (i len : Z).

(** The result of an operation, and the bytes of a read. *)
Definition fresult : Type := Z * list Z.

Section exec.
Context {D : Type} `{ByteFile D}.
Context (stack_bytes : list Z).

(** The operation on the inodes that are open. *)
Definition fexec (op : fop) (files : gmap Z inode) : eff D (fresult * gmap Z inode) :=
  match op with
  | Fread i start len => match files !! i with Some n => r ← read n start len; ret (r, files) | None => lift Undef end
  | Fwrite i start d => match files !! i with Some n => '(r, n) ← write stack_bytes n start d; ret ((r, []), <[i := n]> files) | None => lift Undef end
  | Ftruncate i len =>
      match files !! i with
      | Some n => '(r, n) ← truncate stack_bytes n len; ret ((match r with Ok _ => 0 | Err e => e end, []), <[i := n]> files)
      | None => lift Undef
      end
  end.
End exec.

(** A file without its blocks: the bytes in the blocks, and the size. *)
Abbreviation body := (list Z * Z)%type.
Definition text (b : body) : list Z := slice 0 b.2 b.1.
Definition file_body v (n : inode) : body := (file_bytes v n, size (_metadata n)).

(** The operation on bodies: what is behind the end in the last block comes back when the file grows. *)
Definition fspec (op : fop) (m : gmap Z body) : fresult * gmap Z body :=
  match op with
  | Fread i start len => let l := slice start len (text (m !!! i)) in ((zlength l, l), m)
  | Fwrite i start d => let b := m !!! i in ((zlength d, []), <[i := (splice (grow b.1 (start + zlength d)) start d, Z.max b.2 (start + zlength d))]> m)
  | Ftruncate i len => let b := m !!! i in ((0, []), <[i := (resize b.1 len, len)]> m)
  end.

(** The operation on lists of bytes. *)
Definition flist (op : fop) (m : gmap Z (list Z)) : fresult * gmap Z (list Z) :=
  match op with
  | Fread i start len => let l := slice start len (m !!! i) in ((zlength l, l), m)
  | Fwrite i start d => let c := m !!! i in ((zlength d, []), <[i := splice (c ++ zeroes (start + zlength d - zlength c)) start d]> m)
  | Ftruncate i len => let c := m !!! i in ((0, []), <[i := slice 0 len c ++ zeroes (len - zlength c)]> m)
  end.

(** There are zeros behind the end. *)
Definition clear (b : body) : Prop := b.1 = text b ++ zeroes (zlength b.1 - b.2).
Definition body_ok (b : body) : Prop := 0 ≤ b.2 ∧ zlength b.1 = rounded b.2.

Definition fop_file (op : fop) : Z := match op with Fread i _ _ | Fwrite i _ _ | Ftruncate i _ => i end.

(** The operation does not cut the file inside its last block. *)
Definition keeps_clear (op : fop) (b : body) : Prop :=
  match op with Ftruncate _ len => b.2 ≤ len ∨ rounded len ≠ rounded b.2 | _ => True end.

Lemma length_text (b : body) : body_ok b → zlength (text b) = b.2.
Proof. intros [? Hl]. pose proof (rounded_bound b.2). apply length_slice; lia. Qed.

Lemma clear_grown (b : body) len : body_ok b → clear b → b.2 ≤ len → grow b.1 len = (text b ++ zeroes (len - b.2)) ++ zeroes (rounded len - len).
Proof.
  intros Hb Hc Hlen. pose proof (rounded_mono _ _ Hlen). pose proof (rounded_bound len). destruct Hb as [? Hl]. unfold grow, clear in *. rewrite Hc at 1. rewrite <-!app_assoc. f_equal.
  unfold zeroes. rewrite <-!replicate_add. f_equal. pose proof (rounded_bound b.2). lia.
Qed.

Lemma text_clear (c : list Z) k (len : Z) : zlength c = len → text (c ++ zeroes k, len) = c ∧ clear (c ++ zeroes k, len).
Proof.
  intros <-. assert (text (c ++ zeroes k, zlength c) = c) as E.
  { unfold text, slice. cbn. rewrite drop_0, Nat2Z.id. apply take_app_length. }
  split; [done|]. unfold clear. rewrite E. cbn. f_equal. unfold zeroes. f_equal. rewrite length_app, length_replicate. lia.
Qed.

Lemma splice_app_front (c t : list Z) start d : 0 ≤ start → start + zlength d ≤ zlength c → splice (c ++ t) start d = splice c start d ++ t.
Proof.
  intros. apply list_eq. intros i. rewrite lookup_splice by (rewrite ?length_app; lia). rewrite !lookup_app, lookup_splice by lia. pose proof (length_splice c start d ltac:(lia) ltac:(lia)) as Hl.
  case_decide; [|destruct (c !! i) eqn:E; [done|by rewrite Hl]]. destruct (lookup_lt_is_Some_2 d (i - Z.to_nat start)) as [x ->]; [lia|]. done.
Qed.

Lemma write_clear (b : body) start d : body_ok b → clear b → 0 ≤ start → 0 < zlength d →
  let b' := (splice (grow b.1 (start + zlength d)) start d, Z.max b.2 (start + zlength d)) in
  text b' = splice (text b ++ zeroes (start + zlength d - zlength (text b))) start d ∧ clear b'.
Proof.
  intros Hb Hc Hst Hd b'. pose proof (length_text b Hb) as Hlt. rewrite Hlt. set (e := start + zlength d) in *. set (c := text b ++ zeroes (e - b.2)).
  assert (zlength c = Z.max b.2 e) as Hlc by (unfold c; rewrite length_app, Nat2Z.inj_add, Hlt; unfold zeroes; rewrite length_replicate; destruct Hb; lia).
  assert (∃ k, grow b.1 e = c ++ zeroes k) as [k Hg].
  { destruct (decide (b.2 ≤ e)) as [Hle|Hgt]; [eexists; by apply clear_grown|]. exists (zlength b.1 - b.2). rewrite grow_same.
    - unfold c, zeroes. replace (Z.to_nat (e - b.2)) with 0%nat by lia. rewrite app_nil_r. exact Hc.
    - destruct Hb as [_ ->]. apply rounded_mono. lia. }
  assert (splice (grow b.1 e) start d = splice c start d ++ zeroes k) as Hs by (rewrite Hg; apply splice_app_front; lia).
  unfold b'. rewrite Hs. apply text_clear. rewrite length_splice by lia. done.
Qed.

Lemma resize_clear (b : body) len : body_ok b → clear b → 0 ≤ len →
  text (resize b.1 len, len) = slice 0 len (text b) ++ zeroes (len - zlength (text b)) ∧ (b.2 ≤ len ∨ rounded len ≠ rounded b.2 → clear (resize b.1 len, len)).
Proof.
  intros Hb Hc Hlen. pose proof (length_text b Hb) as Hlt. rewrite Hlt. pose proof (rounded_bound len). pose proof (rounded_bound b.2). destruct (decide (b.2 ≤ len)) as [Hle|Hgt].
  - pose proof (rounded_mono _ _ Hle). unfold resize. rewrite (proj2 (Z.ltb_ge _ _)) by (destruct Hb; lia). rewrite (clear_grown b len Hb Hc Hle), slice_all by lia.
    assert (zlength (text b ++ zeroes (len - b.2)) = len) as Hl by (rewrite length_app, Nat2Z.inj_add, Hlt, length_zeroes by lia; lia).
    destruct (text_clear (text b ++ zeroes (len - b.2)) (rounded len - len) len Hl). done.
  - assert (zeroes (len - b.2) = []) as -> by (unfold zeroes; by replace (Z.to_nat (len - b.2)) with 0%nat by lia). rewrite app_nil_r.
    assert (slice 0 len (text b) = slice 0 len b.1) as Hsl by (unfold text; rewrite slice_clip, Z.sub_0_r, Z.min_l by lia; done).
    assert (zlength (slice 0 len b.1) = len) as Hl by (destruct Hb; apply length_slice; lia). pose proof (rounded_mono len b.2 ltac:(lia)). destruct Hb as [Hb2 Hbl].
    unfold resize. destruct (Z.ltb_spec (rounded len) (zlength b.1)).
    + rewrite Hsl. destruct (text_clear (slice 0 len b.1) (rounded len - len) len Hl). done.
    + rewrite grow_same by lia. split; [by rewrite Hsl|]. lia.
Qed.

(** On a file with zeros behind its end, the operation is that on lists of bytes. *)
Lemma fspec_flist op m (b : body) : m !! fop_file op = Some b → body_ok b → clear b →
  match op with Fread _ _ _ => True | Fwrite _ start d => 0 ≤ start ∧ 0 < zlength d | Ftruncate _ len => 0 ≤ len end →
  ((fspec op m).1, text <$> (fspec op m).2) = flist op (text <$> m) ∧ (keeps_clear op b → ∃ b' : body, (fspec op m).2 !! fop_file op = Some b' ∧ clear b').
Proof.
  intros Hm Hb Hc Hop. assert (∀ i, i = fop_file op → m !!! i = b ∧ (text <$> m) !!! i = text b) as Hi by (intros i ->; rewrite !lookup_total_alt, lookup_fmap, Hm; done).
  destruct op as [i start len|i start d|i len]; cbn [fspec flist fop_file keeps_clear] in *; destruct (Hi i eq_refl) as [-> ->]; cbn [fst snd].
  - split; [done|]. intros _. by exists b.
  - destruct Hop as [Hst Hd]. destruct (write_clear b start d Hb Hc Hst Hd) as [Ht Hc']. rewrite fmap_insert, Ht. split; [done|]. intros _. eexists. by rewrite lookup_insert_eq.
  - destruct (resize_clear b len Hb Hc Hop) as [Ht Hc']. rewrite fmap_insert, Ht. split; [done|]. intros Hk. eexists. rewrite lookup_insert_eq. split; [done|]. by apply Hc'.
Qed.

Section refine.
Context {D : Type} `{ByteFileSpec D}.
Context (L : layout) (HL : layout_ok L).
Implicit Types (s : ext2 D).

(** The open files are on the disk, and have no block in common. *)
Record fs_rep s v U (files : gmap Z inode) : Prop := {
  rp_inv : fs_inv s v L U;
  rp_file i n : files !! i = Some n → id n = i ∧ file_ok L v U n;
  rp_apart i j n n' : files !! i = Some n → files !! j = Some n' → i ≠ j → ∀ b, b ∈ blocks_of n → b ∉ blocks_of n';
}.

(** The arguments are in range, there are enough free blocks for a longer file, and a cut leaves no pointer to a block that was given back in the
    doubly and triply indirect blocks ([truncatable]). *)
Definition fallowed (op : fop) (files : gmap Z inode) U : Prop :=
  match op with
  | Fread i start len => is_Some (files !! i) ∧ 0 ≤ start ∧ 0 ≤ len ∧ start + len < 2 ^ 32
  | Fwrite i start d => ∃ n, files !! i = Some n ∧ 0 ≤ start ∧ 0 < zlength d ∧ start + zlength d < 2 ^ 31 ∧ bytes d ∧ space_for n (start + zlength d) ≤ tf L U
  | Ftruncate i len => ∃ n, files !! i = Some n ∧ truncatable L U n len
  end.

Lemma rep_step_body s v U files i n v' U' n' s' : fs_rep s v U files → files !! i = Some n → file_step L v U n v' U' n' s' →
  fs_rep s' v' U' (<[i := n']> files) ∧ file_body v' <$> <[i := n']> files = <[i := file_body v' n']> (file_body v <$> files).
Proof.
  intros [Hi Hf Hap] Hn Hst. destruct (Hf i n Hn) as [Hid _].
  assert (∀ j n2, files !! j = Some n2 → j ≠ i → id n2 = j ∧ file_ok L v' U' n2 ∧ file_bytes v' n2 = file_bytes v n2 ∧ (∀ b, b ∈ blocks_of n2 → b ∉ blocks_of n')) as Hother.
  { intros j n2 Hj Hne. destruct (Hf j n2 Hj) as [Hid2 Hf2]. split; [done|]. apply (file_step_other L v U n v' U' n' s'); [done|done|congruence|]. intros b. by apply (Hap j i). }
  split; [split|].
  - apply Hst.
  - intros j n2. rewrite lookup_insert_Some. intros [[<- <-]|[Hne Hj]]; [split; [rewrite (st_id _ _ _ _ _ _ _ _ Hst); done|apply Hst]|]. by destruct (Hother j n2) as (?&?&_).
  - intros j k nj nk. rewrite !lookup_insert_Some. intros [[<- <-]|[Hj Ej]] [[<- <-]|[Hk Ek]] Hne b Hb; [done| | |by apply (Hap j k nj nk)].
    + intros Hb'. destruct (Hother k nk) as (_&_&_&Hd); [done|done|]. by apply (Hd b).
    + destruct (Hother j nj) as (_&_&_&Hd); [done|done|]. by apply Hd.
  - rewrite fmap_insert. apply map_eq. intros j. destruct (decide (j = i)) as [->|Hne]; [by rewrite !lookup_insert_eq|]. rewrite !lookup_insert_ne, !lookup_fmap by done.
    destruct (files !! j) as [nj|] eqn:Ej; [|done]. cbn. unfold file_body. destruct (Hother j nj) as (_&_&->&_); done.
Qed.

Lemma text_file_body v (files : gmap Z inode) : text <$> (file_body v <$> files) = content v <$> files.
Proof. by rewrite <-map_fmap_compose. Qed.

Lemma rep_step s v U files i n v' U' n' s' : fs_rep s v U files → files !! i = Some n → file_step L v U n v' U' n' s' →
  fs_rep s' v' U' (<[i := n']> files) ∧ content v' <$> <[i := n']> files = <[i := content v' n']> (content v <$> files).
Proof.
  intros Hr Hn Hst. destruct (rep_step_body s v U files i n v' U' n' s' Hr Hn Hst) as [Hr' Hm]. split; [done|]. by rewrite <-!text_file_body, Hm, fmap_insert.
Qed.

Lemma rep_content s v U files i n : fs_rep s v U files → files !! i = Some n → (content v <$> files) !!! i = content v n ∧ zlength (content v n) = size (_metadata n).
Proof.
  intros Hr Hn. split; [unfold lookup_total, map_lookup_total; by rewrite lookup_fmap, Hn|]. apply (length_content L HL s v U); [apply Hr|]. by apply (rp_file _ _ _ _ Hr i n).
Qed.

Context (stack_bytes : list Z) (stack_len : length stack_bytes = 14%nat) (stack_ok : bytes stack_bytes).

Lemma rep_body s v U files i n : fs_rep s v U files → files !! i = Some n → (file_body v <$> files) !!! i = file_body v n ∧ body_ok (file_body v n).
Proof.
  intros Hr Hn. split; [by rewrite lookup_total_alt, lookup_fmap, Hn|]. destruct (rp_file _ _ _ _ Hr i n Hn) as [_ Hf]. pose proof (fo_inode _ _ _ _ Hf) as Hi.
  split; [apply (size_blocks L U n Hi)|]. cbn. rewrite (length_file_bytes L HL s v U n (fi_base _ _ _ _ (rp_inv _ _ _ _ Hr)) Hi), (ok_blocks _ _ _ Hi). done.
Qed.

Lemma fexec_run op s v U files : fs_rep s v U files → fallowed op files U →
  run (fexec stack_bytes op files) s (λ r s', ∃ v' U', fs_rep s' v' U' r.2 ∧ (r.1, file_body v' <$> r.2) = fspec op (file_body v <$> files)).
Proof.
  intros Hr Hal. destruct op as [i start len|i start d|i len]; cbn [fexec fspec].
  - destruct Hal as ([n Hn]&?&?&?). rewrite Hn. destruct (rep_body s v U files i n Hr Hn) as [-> _]. wp. wp_apply (read_run L HL s v U n start len); [apply Hr|by apply (rp_file _ _ _ _ Hr i n)|done..|].
    intros r s' (->&Hi'). wp. exists v, U. split; [|done]. destruct Hr. by split.
  - destruct Hal as (n&Hn&?&?&?&?&?). rewrite Hn. destruct (rep_body s v U files i n Hr Hn) as [-> _]. wp. wp_apply (write_run L HL stack_bytes stack_len stack_ok s v U n start d); [apply Hr|by apply (rp_file _ _ _ _ Hr i n)|done..|].
    intros r s' (n'&v'&U'&->&Hst&Em&_&Hc). wp. destruct (rep_step_body s v U files i n v' U' n' s' Hr Hn Hst) as [Hr' Hm]. exists v', U'. split; [done|]. cbn [fst snd]. rewrite Hm. unfold file_body at 1. by rewrite Em, Hc.
  - destruct Hal as (n&Hn&Hal). rewrite Hn. destruct (rep_body s v U files i n Hr Hn) as [-> _]. wp. destruct (rp_file _ _ _ _ Hr i n Hn) as [_ Hf].
    wp_apply (truncate_run L HL stack_bytes stack_len stack_ok s v U n len); [apply Hr|done|done|]. intros r s' (n'&v'&U'&->&Hst&Em&_&_&Hc). wp. destruct (rep_step_body s v U files i n v' U' n' s' Hr Hn Hst) as [Hr' Hm]. exists v', U'. split; [done|]. cbn [fst snd]. rewrite Hm. unfold file_body at 1. by rewrite Em, Hc.
Qed.

Lemma allowed_args op files U : fallowed op files U → (∃ n, files !! fop_file op = Some n ∧ 0 ≤ size (_metadata n)) →
  match op with Fread _ _ _ => True | Fwrite _ start d => 0 ≤ start ∧ 0 < zlength d | Ftruncate _ len => 0 ≤ len end.
Proof.
  intros Hal (n&Hn&Hs). destruct op as [i start len|i start d|i len]; [done| |].
  - by destruct Hal as (_&_&?&?&_).
  - destruct Hal as (n'&Hn'&Ht). cbn in Hn. destruct Ht as [[? _]|[? _]]; [|lia]. assert (n' = n) as -> by congruence. lia.
Qed.

(** C2: every operation on the files of a mounted filesystem returns and acts on one file as on the bytes of its blocks and its size: reading gives the bytes
    below the size; writing adds blocks of zeros if the file is too short, stores the bytes and moves the end; truncating adds blocks of zeros,
    or gives blocks back and clears the rest of the last one, or, inside the last block, moves the end alone, so that the bytes behind it
    come back when the file grows.  On a file with zeros behind its end this is the operation on lists of bytes (a gap is filled
    with zeros, a cut list is extended with zeros), and there are zeros behind the end again, unless the operation cuts the file inside its last block.  Every other open file, the
    bitmaps and the counts of free blocks stay consistent.  Assumed ([fallowed]): the arguments are in range, there are free blocks for a longer
    file, and a cut gives back all or none of the blocks of pointers of the doubly and of the triply indirect tree, as it does in
    every file of up to 268 blocks. *)
Theorem files_refine op s v U files : fs_rep s v U files → fallowed op files U →
  ∃ r files' s' v' U', fexec stack_bytes op files s = Done ((r, files'), s') ∧ fs_rep s' v' U' files' ∧
    (r, file_body v' <$> files') = fspec op (file_body v <$> files) ∧
    ∀ n, files !! fop_file op = Some n → clear (file_body v n) →
      (r, content v' <$> files') = flist op (content v <$> files) ∧
      (keeps_clear op (file_body v n) → ∃ n', files' !! fop_file op = Some n' ∧ clear (file_body v' n')).
Proof.
  intros Hr Hal. destruct (fexec_run op s v U files Hr Hal) as ([r files']&s'&E&v'&U'&Hr'&Hs'). exists r, files', s', v', U'. cbn [fst snd] in *. split_and!; [done..|].
  intros n Hn Hc. destruct (rep_body s v U files _ n Hr Hn) as [_ Hb]. destruct (fspec_flist op (file_body v <$> files) (file_body v n)) as [Hl Hk]; [by rewrite lookup_fmap, Hn|done|done| |].
  - apply (allowed_args op files U Hal). exists n. split; [done|apply Hb].
  - rewrite <-Hs' in Hl, Hk. cbn [fst snd] in Hl, Hk. rewrite !text_file_body in Hl. split; [done|]. intros Hk'. destruct (Hk Hk') as (b'&Hb'&?). rewrite lookup_fmap in Hb'.
    destruct (files' !! fop_file op) as [n'|]; [|done]. injection Hb' as <-. by exists n'.
Qed.

(** C17: [allocate_blocks] gives the number of blocks it is asked for, all different, free before and cleared if asked; it fails only with [ENOSPC]
    and when there are too few free blocks, and then gives back what it took.  Used blocks keep their contents.  Giving the blocks back makes
    them free again, so that the counts are as before. *)
Theorem blocks_allocated s v U num (zero : bool) : fs_inv s v L U → 0 < num →
  ∃ r s', allocate_blocks stack_bytes num zero s = Done (r, s') ∧
    match r with
    | Ok bs => num ≤ tf L U ∧ ∃ v', granted L zero v U num bs v' s' ∧ ∃ s'' v'', free_block_list stack_bytes bs s' = Done (tt, s'') ∧ fs_inv s'' v'' L U ∧ frame L U v v''
    | Err e => e = - ENOSPC ∧ tf L U < num ∧ ∃ v', fs_inv s' v' L U ∧ frame L U v v'
    end.
Proof.
  intros Hi Hn. destruct (allocate_blocks_run L HL stack_bytes stack_len stack_ok s v U num zero Hi Hn) as (r&s'&E&Hr). exists r, s'. split; [done|]. destruct r as [bs|e].
  - destruct Hr as [v' Hgr]. split.
    + pose proof (count_adds (all_blocks L) U bs ltac:(apply NoDup_seqZ) (gr_nodup _ _ _ _ _ _ _ _ Hgr) (gr_free _ _ _ _ _ _ _ _ Hgr)) as Hc. pose proof (count_free_le (all_blocks L) (U ∪ list_to_set bs)) as Hle.
      rewrite (gr_length _ _ _ _ _ _ _ _ Hgr) in Hc. unfold tf. lia.
    + exists v'. split; [done|]. destruct (granted_back L HL stack_bytes stack_len stack_ok s zero v U num bs v' s' Hi Hgr) as ([]&s''&E'&v''&Hi''&Hf''). by exists s'', v''.
  - destruct Hr as (->&v'&Hi'&Hf'&Hlt). split_and!; try done. by exists v'.
Qed.

(** C18: an inode that is written to the disk and read back is the same: its size, owner and mode, the numbers of all its blocks, through the
    singly, doubly and triply indirect blocks, and the blocks that hold these numbers. *)
Theorem inode_roundtrip s v U n p0 p1 p2 : fs_inv s v L U → inode_ok L U n → pointer_blocks n = p0 ++ p1 ++ p2 → writable L v U n p0 p1 p2 →
  ∃ n' s' n'' s'', write_to_disk stack_bytes n s = Done ((Ok tt, n'), s') ∧ load_inode (id n) s' = Done (n'', s'') ∧
    id n'' = id n ∧ block_pointers n'' = block_pointers n ∧ _metadata n'' = _metadata n ∧ hard_links (raw n'') = hard_links (raw n) ∧ pointer_blocks n'' = pointer_blocks n' ∧ raw n'' = raw n'.
Proof.
  intros Hi Hn Hp Hw. destruct (write_to_disk_run L HL stack_bytes stack_len stack_ok s v U n p0 p1 p2 Hi Hn Hp Hw) as (r&s'&E&n'&new&v'&->&(Eid&Ebp&Em&_&Eh)&_&Hn'&Hd'&_&Hup).
  destruct (load_inode_run L HL s' v' (U ∪ list_to_set new) n' (up_inv _ _ _ _ _ _ _ _ Hup) Hn' Hd') as (n''&s''&E'&->&_). exists n', s'. eexists _, s''. split; [done|]. rewrite <-Eid. split; [exact E'|]. cbn. by rewrite Eid.
Qed.
End refine.

(** C34: a disk whose superblock, descriptors and bitmaps agree with each other is recognised as ext2, and mounting it gives a state that satisfies
    the invariant of the filesystem: the groups, the bitmaps and the counts describe the same used blocks and inodes. *)
Theorem mounted_invariant {D} `{ByteFileSpec D} (d : D) v (L : layout) U : file_rep d v → layout_ok L → fsck v L U = true → signature (slice 1024 512 v) = EXT2_SIGNATURE →
  ∃ d' s, probe d = Done (true, d') ∧ init d' = Done s ∧ fs_inv s v L U ∧ counts_ok L.
Proof.
  intros Hd HL Hck Hsig. assert (1024 * l_total L ≤ zlength v) as Hlen.
  { unfold fsck in Hck. cbv zeta in Hck. rewrite !andb_true_iff, !Z.leb_le in Hck. tauto. }
  pose proof (dtb_pos L HL). pose proof (table_total L HL). destruct (file_read_ok d v 1024 512) as (d'&E&Hd'); [done|lia..|]. destruct (init_run d' v L U Hd' HL Hck) as (s&Ei&Hi&Hc).
  exists d', s. split_and!; [|done..]. unfold probe, whole. rewrite E. cbn [mbind outcome_bind]. rewrite (length_slice 1024 512 v), Z.eqb_refl by lia. cbn [mbind outcome_bind]. by rewrite Hsig.
Qed.

(** ** A small filesystem *)

(** 15 blocks in one group: the bitmaps are in blocks 3 and 4, the table of 8 inodes in block 5; file 3 has the bytes "hi" in block 6, and the directory 2
    has the names "." and ".." for itself and "hi" for the file, in block 7. *)
Definition small_layout : layout := mk_layout 15 15 8 [(3, 4, 5)] {[1; 2; 3]} (λ _, 5) 5.
Definition small_used : gset Z := list_to_set ([0; 1; 2; 3; 4; 5; 6; 7] ++ [15]).

Definition small_superblock : list Z :=
  put16 (put32 (put16 (put32 (put32 (put32 (put32 (put32 (zeroes 512) 4 15) 12 7) 16 5) 32 15) 40 8) 56 EXT2_SIGNATURE) 76 1) 88 128.
Definition small_descriptor : list Z := put16 (put16 (put16 (put32 (put32 (put32 (zeroes 32) 0 3) 4 4) 8 5) 12 7) 14 5) 16 1.
Definition small_raw : list Z := put32 (put32 (put16 (put32 (put16 (zeroes 128) 0 0x81A4) 4 2) 26 1) 28 2) 40 6.
Definition small_dir_raw : list Z := put32 (put32 (put16 (put32 (put16 (zeroes 128) 0 0x41ED) 4 1024) 26 2) 28 2) 40 7.
Definition small_dir_bytes : list Z :=
  [2; 0; 0; 0; 12; 0; 1; 2; 46; 0; 0; 0] ++ [2; 0; 0; 0; 12; 0; 2; 2; 46; 46; 0; 0] ++ [3; 0; 0; 0; 12; 0; 2; 1; 104; 105; 0; 0] ++ [0; 0; 0; 0; 0xDC; 3; 0; 0].
Definition small_image : list Z :=
  splice (splice (splice (splice (splice (splice (splice (splice (zeroes 16384) 1024 small_superblock) 2048 small_descriptor) 3072 [0x7F; 0x40]) 4096 [0x07]) (5120 + 128) small_dir_raw)
    (5120 + 256) small_raw) 6144 [104; 105]) 7168 small_dir_bytes.
Definition small_inode : inode := mk_inode 3 small_raw [6] [] (mk_metadata 0 0 0x81A4 2 3 0 0) false true.

(** It is on a partition that starts at block 8 of a disk, behind the cache of the disk. *)
Definition small_disk : partition (Z * disk (list Z)) := PartitionDevice (0, mk_disk (zeroes 4096 ++ small_image) lru_empty wq_new 40) 8.
Definition small_state : ext2 (partition (Z * disk (list Z))) := match init small_disk with Done s => s | _ => mk_ext2 small_disk 0 [] 0 0 0 ∅ end.

Lemma small_layout_ok : layout_ok small_layout.
Proof. apply layout_b_spec. vm_compute. reflexivity. Qed.

Lemma small_disk_rep : file_rep small_disk small_image.
Proof.
  exists (zeroes 4096 ++ small_image). assert (zlength (zeroes 4096 ++ small_image) = 20480) as Hl by (vm_compute; reflexivity). split_and!; [|vm_compute; congruence|vm_compute; congruence|vm_compute; reflexivity].
  split; [apply fresh_rep|rewrite Hl; lia]. unfold fresh_disk. cbn [snd _parent small_disk PartitionDevice]. rewrite Hl. by split_and!.
Qed.

Lemma small_mounted : fs_inv small_state small_image small_layout small_used.
Proof.
  destruct (init_run small_disk small_image small_layout small_used) as (s&E&Hi&_).
  - apply small_disk_rep.
  - apply small_layout_ok.
  - vm_compute. reflexivity.
  - unfold small_state. by rewrite E.
Qed.

Lemma data_block_b L U b : bool_decide (b ∈ U ∧ b ∈ all_blocks L ∧ (b ∉ meta L) ∧ b < l_total L) = true → data_block L U b.
Proof. apply bool_decide_eq_true. Qed.

Lemma one_block_part n b k : block_pointers n = [b] → part n k = [].
Proof. intros E. rewrite part_eq. unfold chunk. rewrite E. rewrite drop_ge, take_nil; [done|]. destruct k as [|[|]]; cbn; lia. Qed.

Lemma one_block_tree v n b : block_pointers n = [b] → pointer_blocks n = [] → all_b (λ i, raw_pointer (raw n) i =? get_block_pointer n i) (seqZ 0 12) = true → (s_pointer (raw n), d_pointer (raw n), t_pointer (raw n)) = (0, 0, 0) → inode_tree v n.
Proof.
  intros Eb Ep E [= Es Ed Et]. split.
  - rewrite Eb. unfold max_blocks. cbn. lia.
  - intros i Hi. apply Z.eqb_eq, (all_b_spec _ _ i E), elem_of_seqZ. lia.
  - exists [], [], []. rewrite !(one_block_part n b) by done. split_and!; [done|left; split_and!; done..].
Qed.

Lemma small_inode_ok : inode_ok small_layout small_used small_inode.
Proof.
  split; try done.
  - split; [by vm_compute|]. apply bytes_b_spec. vm_compute. reflexivity.
  - apply NoDup_singleton.
  - intros x Hx%list_elem_of_singleton. subst x. apply data_block_b. vm_compute. reflexivity.
Qed.

Lemma small_file_ok : file_ok small_layout small_image small_used small_inode.
Proof.
  split; [apply small_inode_ok| |done]. split; [vm_compute; reflexivity..|]. apply (one_block_tree _ _ 6); by vm_compute.
Qed.

Lemma small_rep : fs_rep small_layout small_state small_image small_used {[3 := small_inode]}.
Proof.
  split; [apply small_mounted| |].
  - intros i n [<- <-]%lookup_singleton_Some. split; [done|apply small_file_ok].
  - intros i j n n' [<- <-]%lookup_singleton_Some [<- <-]%lookup_singleton_Some Hne. done.
Qed.

(** The small filesystem is mounted. *)
Lemma mounted_invariant_witness : ∃ d' s, probe small_disk = Done (true, d') ∧ init d' = Done s ∧ fs_inv s small_image small_layout small_used ∧ counts_ok small_layout.
Proof. apply (mounted_invariant small_disk small_image small_layout small_used); [apply small_disk_rep|apply small_layout_ok|vm_compute; reflexivity..]. Defined.

(** The file "hi" is cut to "h", inside its only block. *)
Lemma files_refine_witness : ∃ r files' s' v' U', fexec (zeroes 14) (Ftruncate 3 1) {[3 := small_inode]} small_state = Done ((r, files'), s') ∧ fs_rep small_layout s' v' U' files' ∧
  (r, file_body v' <$> files') = fspec (Ftruncate 3 1) (file_body small_image <$> {[3 := small_inode]}) ∧
  ∀ n, ({[3 := small_inode]} : gmap Z inode) !! 3 = Some n → clear (file_body small_image n) →
    (r, content v' <$> files') = flist (Ftruncate 3 1) (content small_image <$> {[3 := small_inode]}) ∧
    (keeps_clear (Ftruncate 3 1) (file_body small_image n) → ∃ n', files' !! 3 = Some n' ∧ clear (file_body v' n')).
Proof.
  apply (files_refine small_layout small_layout_ok (zeroes 14) eq_refl (bytes_zeroes 14) (Ftruncate 3 1) small_state small_image small_used); [apply small_rep|].
  exists small_inode. split; [by apply lookup_singleton_eq|]. right. split; [split; [done|by vm_compute]|]. split; [by vm_compute|]. by split; left; vm_compute.
Defined.

(** When a byte is written behind a gap then, the "i" comes back in the gap. *)
Example cut_byte_comes_back : let b : body := ([104; 105] ++ zeroes 1022, 2) in
  let m := (fspec (Fwrite 3 2 [33]) (fspec (Ftruncate 3 1) {[3 := b]}).2).2 in text (m !!! 3) = [104; 105; 33].
Proof. vm_compute. reflexivity. Qed.

(** All 7 free blocks. *)
Lemma blocks_allocated_witness : ∃ r s', allocate_blocks (zeroes 14) 7 true small_state = Done (r, s') ∧
  match r with
  | Ok bs => 7 ≤ tf small_layout small_used ∧ ∃ v', granted small_layout true small_image small_used 7 bs v' s' ∧
      ∃ s'' v'', free_block_list (zeroes 14) bs s' = Done (tt, s'') ∧ fs_inv s'' v'' small_layout small_used ∧ frame small_layout small_used small_image v''
  | Err e => e = - ENOSPC ∧ tf small_layout small_used < 7 ∧ ∃ v', fs_inv s' v' small_layout small_used ∧ frame small_layout small_used small_image v'
  end.
Proof. apply (blocks_allocated small_layout small_layout_ok (zeroes 14) eq_refl (bytes_zeroes 14) small_state small_image small_used 7 true); [apply small_mounted|lia]. Defined.

(** File 3. *)
Lemma inode_roundtrip_witness : ∃ n' s' n'' s'', write_to_disk (zeroes 14) small_inode small_state = Done ((Ok tt, n'), s') ∧ load_inode 3 s' = Done (n'', s'') ∧
  id n'' = id small_inode ∧ block_pointers n'' = block_pointers small_inode ∧ _metadata n'' = _metadata small_inode ∧ hard_links (raw n'') = hard_links (raw small_inode) ∧ pointer_blocks n'' = pointer_blocks n' ∧ raw n'' = raw n'.
Proof.
  apply (inode_roundtrip small_layout small_layout_ok (zeroes 14) eq_refl (bytes_zeroes 14) small_state small_image small_used small_inode [] [] []); [apply small_mounted|apply small_inode_ok|done|].
  split; rewrite ?(one_block_part small_inode 6) by done; [apply small_inode_ok|repeat constructor; cbn; lia|unfold max_blocks; cbn; lia|by left..|apply NoDup_nil_2|by intros x ?%elem_of_nil|]. apply Z.leb_le. vm_compute. reflexivity.
Defined.
