(* ===== verification/Ext2Dir.v ===== *)
(** * ext2: directories (kernel/filesystem/ext2/Ext2Inode.cpp, DirectoryEntry.cpp)

    A directory is a file whose blocks hold entries: 8 bytes (inode, size of the entry, length
    of the name, type) and the name.  [iterate_entries] reads them, and
    [write_directory_entries] writes all of them again. *)

From stdpp Require Import base numbers list list_numbers option gmap.
From S2P Require Import Prelude.
From S2P Require Import ByteBuf.
From S2P Require Import FileBlocks.
From S2P Require Import Ext2.
From S2P Require Import Ext2Inode.
From S2P Require Import Ext2File.

Local Open Scope Z_scope.

Definition NAME_MAXLEN : Z := 256.

(** [DirectoryEntry]; the length of the name is its [name_length]. *)
Record dirent := mk_dirent {
  d_id : Z;
  d_type : Z;
  d_name : list Z;
}.

(** The constructor of [DirectoryEntry]: the terminator of a name of 256 bytes is written behind the array. *)
Definition DirectoryEntry (id type : Z) (name : list Z) : outcome dirent := if zlength name <? NAME_MAXLEN then Done (mk_dirent id type name) else Undef.

(** The bytes before the first 0: what a comparison of strings looks at. *)
Fixpoint cstr (l : list Z) : list Z := match l with [] => [] | x :: l => if x =? 0 then [] else x :: cstr l end.
Definition same_name (a b : list Z) : bool := bool_decide (cstr a = cstr b).

Definition sizeof_directory : Z := 8.

(** The fields of the entry at offset [i] of a block. *)
Definition e_inode (buf : list Z) (i : Z) : Z := get32 buf i.
Definition e_size (buf : list Z) (i : Z) : Z := get16 buf (i + 4).
Definition e_name_length (buf : list Z) (i : Z) : Z := get8 buf (i + 6).
Definition e_type (buf : list Z) (i : Z) : Z := get8 buf (i + 7).

(** ** Reading *)

Section read.
Context {A : Type} (callback : A → dirent → A * bool).

(** The loop of [iterate_entries] over a block of [bs] bytes, the first of which is byte [base] of the directory; an entry that is not inside the
    block is read from memory behind it.  The result of the callback says whether to stop. *)
Fixpoint iterate_block (fuel : nat) (bs : Z) (buf : list Z) (base dsize i : Z) (a : A) : outcome (A * bool) :=
  if negb ((i <? bs) && (u32 (base + i) <? dsize)) then Done (a, false)
  else
    match fuel with
    | O => NoFuel
    | S fuel =>
        if bs <? i + 6 then Undef
        else if e_size buf i =? 0 then Done (a, false)
        else if e_inode buf i =? 0 then iterate_block fuel bs buf base dsize (i + e_size buf i) a
        else
          let name_length := Z.min (e_name_length buf i) (NAME_MAXLEN - 1) in
          if bs <? i + sizeof_directory + name_length then Undef
          else
            let '(a, stop) := callback a (mk_dirent (e_inode buf i) (e_type buf i) (slice (i + sizeof_directory) name_length buf)) in
            if (stop : bool) then Done (a, true) else iterate_block fuel bs buf base dsize (i + e_size buf i) a
    end.

Context {D : Type} `{ByteFile D}.

(** The buffer keeps its bytes where a read stores none. *)
Fixpoint iterate_loop (fuel : nat) (n : inode) (buf : list Z) (block : Z) (a : A) : eff D A :=
  match fuel with
  | O => lift NoFuel
  | S fuel =>
      s ← get_state;
      let bs := _block_size s in
      '(r, l) ← read n (u32 (block * bs)) bs;
      if r =? 0 then ret a
      else
        let buf := splice buf 0 l in
        '(a, stop) ← lift (iterate_block (Z.to_nat bs) bs buf (u32 (block * bs)) (size (_metadata n)) 0 a);
        if (stop : bool) then ret a else iterate_loop fuel n buf (block + 1) a
  end.

(** [stack] is the buffer on the stack. *)
Definition iterate_entries (stack : list Z) (n : inode) (a : A) : eff D A := iterate_loop (S (S (length (block_pointers n)))) n stack 0 a.
End read.

Section dir.
Context {D : Type} `{ByteFile D}.
Context (stack_bytes : list Z).

(** The loop of [find_id] over a block; 0 is no inode. *)
Fixpoint find_block (fuel : nat) (name : list Z) (bs : Z) (buf : list Z) (add : Z) : outcome Z :=
  if negb (add <? bs) then Done 0
  else
    match fuel with
    | O => NoFuel
    | S fuel =>
        if bs <? add + 6 then Undef
        else if e_size buf add =? 0 then Done 0
        else if e_inode buf add =? 0 then find_block fuel name bs buf (add + e_size buf add)
        else
          let nl := Z.min (e_name_length buf add) NAME_MAXLEN in
          if bs <? add + sizeof_directory + nl then Undef
          else if same_name name (slice (add + sizeof_directory) nl buf) then Done (e_inode buf add)
          else find_block fuel name bs buf (add + e_size buf add)
    end.

Fixpoint find_loop (fuel : nat) (name : list Z) (n : inode) (buf : list Z) (blk : Z) : eff D Z :=
  match fuel with
  | O => lift NoFuel
  | S fuel =>
      s ← get_state;
      let bs := _block_size s in
      '(r, l) ← read n (u32 (blk * bs)) bs;
      if r =? 0 then ret 0
      else
        let buf := splice buf 0 l in
        id ← lift (find_block (Z.to_nat bs) name bs buf 0);
        if negb (id =? 0) then ret id else find_loop fuel name n buf (blk + 1)
  end.

Definition find_id (stack : list Z) (n : inode) (name : list Z) : eff D Z :=
  if negb (is_directory (_metadata n)) then ret 0 else find_loop (S (S (length (block_pointers n)))) name n stack 0.

(** ** Writing *)

Definition padded (n : Z) : Z := n + (if n mod 4 =? 0 then 0 else 4 - n mod 4).
Definition ent_size (e : dirent) : Z := padded (sizeof_directory + zlength (d_name e)).

Definition directory_size (bs : Z) (entries : list dirent) : Z :=
  let n := u32 (foldr (λ e n, ent_size e + n) 0 entries) in
  let n := if n mod bs =? 0 then n + 1 else n in
  u32 (n + bs - 1) / bs * bs.

(** The 8 bytes before the name; the length of the name is one byte. *)
Definition header (inode size name_length type : Z) : list Z := le32 inode ++ le16 size ++ [u8 name_length; u8 type].
Definition raw_ent_size (e : dirent) : Z := padded (sizeof_directory + u8 (zlength (d_name e))).

(** The loop over the entries: the current block, the byte in it, and the buffer. *)
Fixpoint write_entries (entries : list dirent) (n : inode) (cur_block cur_byte : Z) (buf : list Z) : eff D (Z * Z * list Z) :=
  match entries with
  | [] => ret (cur_block, cur_byte, buf)
  | e :: entries =>
      s ← get_state;
      let bs := _block_size s in
      '(cur_block, cur_byte, buf) ←
        (if bs <=? raw_ent_size e + cur_byte then _ ← fs_write_block (get_block_pointer n cur_block) buf; ret (cur_block + 1, 0, zeroes bs)
         else ret (cur_block, cur_byte, buf));
      if bs <? cur_byte + sizeof_directory + zlength (d_name e) + 1 then lift Undef
      else
        let buf := splice buf cur_byte (header (d_id e) (raw_ent_size e) (zlength (d_name e)) (d_type e)) in
        let buf := splice buf (cur_byte + sizeof_directory) (d_name e ++ [0]) in
        write_entries entries n cur_block (cur_byte + raw_ent_size e) buf
  end.

Definition write_directory_entries (n : inode) (entries : list dirent) : eff D (result unit * inode) :=
  s ← get_state;
  let bs := _block_size s in
  '(r, n) ← truncate stack_bytes n (s32 (directory_size bs entries));
  match r with
  | Err e => ret (Err e, n)
  | Ok _ =>
      '(cur_block, cur_byte, buf) ← write_entries entries n 0 0 (zeroes bs);
      '(cur_block, cur_byte, buf) ←
        (if bs <=? cur_byte then _ ← fs_write_block (get_block_pointer n cur_block) buf; ret (cur_block + 1, 0, zeroes bs)
         else ret (cur_block, cur_byte, buf));
      if bs <? cur_byte + sizeof_directory then lift Undef
      else
        _ ← fs_write_block (get_block_pointer n cur_block) (splice buf cur_byte (header 0 (bs - cur_byte) 0 0));
        ret (Ok tt, n)
  end.

Definition increase_hardlink_count (n : inode) : eff D inode := write_inode_entry (with_raw n (put16 (raw n) 26 (hard_links (raw n) + 1))).

Definition file_type (m : metadata) : Z :=
  if is_simple_file m then 1 else if is_directory m then 2 else if is_symlink m then 7 else if is_block_device m then 4 else if is_character_device m then 3 else 0.

(** The callback of [add_entry]: the entries so far, and whether the name is among them. *)
Definition collect (name : list Z) (acc : list dirent * bool) (e : dirent) : list dirent * bool * bool :=
  if same_name name (d_name e) then (acc.1 ++ [e], true, true) else (acc.1 ++ [e], acc.2, false).

(** The result, the directory and the inode that has the new name. *)
Definition add_entry (stack : list Z) (n : inode) (name : list Z) (child : inode) : eff D (result unit * inode * inode) :=
  if negb (is_directory (_metadata n)) then ret (Err (- ENOTDIR), n, child)
  else if (zlength name =? 0) || (NAME_MAXLEN <? zlength name) then ret (Err (- ENAMETOOLONG), n, child)
  else
    '(entries, exists_) ← iterate_entries (collect name) stack n ([], false);
    if (exists_ : bool) then ret (Err (- EEXIST), n, child)
    else
      child ← increase_hardlink_count child;
      e ← lift (DirectoryEntry (id child) (file_type (_metadata child)) name);
      '(r, n) ← write_directory_entries n (entries ++ [e]);
      match r with
      | Err e => ret (Err e, n, child)
      | Ok _ =>
          if _dirty n then '(r, n) ← write_to_disk stack_bytes n; ret (r, n, child)
          else ret (Ok tt, n, child)
      end.
End dir.
