(* ===== verification/Ext2DirBytes.v ===== *)
(** * ext2: the bytes of directories

    Entries as bytes: a block parses to a list of entries ([parsed]), the loops of
    [iterate_entries] and [find_id] go through that list, and the blocks that
    [write_directory_entries] fills ([pack]) parse to the entries it was given. *)

From stdpp Require Import base numbers list list_numbers option gmap.
From S2P Require Import Prelude.
From S2P Require Import ByteBuf.
From S2P Require Import Ext2Dir.

Local Open Scope Z_scope.

Implicit Types (buf name : list Z) (e : dirent) (es : list dirent) (i : Z).

(** ** Going through entries *)

(** The callback is called on the entries in order, until it stops. *)
Fixpoint visit {A} (callback : A → dirent → A * bool) es (a : A) : A * bool :=
  match es with
  | [] => (a, false)
  | e :: es => let '(a, stop) := callback a e in if stop then (a, true) else visit callback es a
  end.

(** The inode of the first entry with the name; 0 if there is none. *)
Fixpoint lookup_name name es : Z :=
  match es with [] => 0 | e :: es => if same_name name (d_name e) then d_id e else lookup_name name es end.

Lemma visit_app {A} (callback : A → dirent → A * bool) es es' a :
  visit callback (es ++ es') a = let '(a, stop) := visit callback es a in if stop then (a, true) else visit callback es' a.
Proof. revert a. induction es as [|e es IH]; intros a; [done|]. cbn. destruct (callback a e) as [a' []]; [done|]. apply IH. Qed.

Lemma lookup_name_app name es es' : Forall (λ e, d_id e ≠ 0) es → lookup_name name (es ++ es') = if lookup_name name es =? 0 then lookup_name name es' else lookup_name name es.
Proof.
  induction 1 as [|e es He _ IH]; [done|]. cbn. destruct (same_name name (d_name e)); [|done]. by rewrite (proj2 (Z.eqb_neq _ _) He).
Qed.

(** ** Parsing a block *)

Definition entry_at buf i : dirent := mk_dirent (e_inode buf i) (e_type buf i) (slice (i + sizeof_directory) (e_name_length buf i) buf).

(** From offset [i] on, the block holds the entries: up to its end, or up to an entry of size 0; an entry without inode is skipped. *)
Inductive parsed buf : Z → list dirent → Prop :=
  | parsed_end i : 1024 ≤ i → parsed buf i []
  | parsed_stop i : i + 6 ≤ 1024 → e_size buf i = 0 → parsed buf i []
  | parsed_free i es : i + 6 ≤ 1024 → 0 < e_size buf i → e_inode buf i = 0 → parsed buf (i + e_size buf i) es → parsed buf i es
  | parsed_entry i es : i + sizeof_directory + e_name_length buf i ≤ 1024 → 0 < e_size buf i → e_inode buf i ≠ 0 → parsed buf (i + e_size buf i) es → parsed buf i (entry_at buf i :: es).

Lemma get8_range buf i : bytes buf → 0 ≤ get8 buf i < 2 ^ 8.
Proof.
  intros Hl. pose proof (little_endian_to_Z_bound 8 (slice i 1 buf) ltac:(lia) (bytes_slice i 1 buf Hl)) as Hb.
  unfold get8. assert (length (slice i 1 buf) ≤ 1)%nat by (unfold slice; rewrite length_take; lia).
  pose proof (Z.pow_le_mono_r 2 (zlength (slice i 1 buf) * 8) 8 ltac:(lia) ltac:(lia)). lia.
Qed.

Lemma parsed_ids buf i es : parsed buf i es → Forall (λ e, d_id e ≠ 0) es.
Proof. induction 1; try done. by constructor. Qed.

Lemma iterate_block_spec {A} (callback : A → dirent → A * bool) buf i es : bytes buf → parsed buf i es → ∀ fuel base dsize a, 0 ≤ i → 1024 - i ≤ Z.of_nat fuel → 0 ≤ base → base + 1024 ≤ dsize < 2 ^ 32 →
  iterate_block callback fuel 1024 buf base dsize i a = Done (visit callback es a).
Proof.
  intros Hb. assert (∀ i, 0 ≤ e_name_length buf i < 2 ^ 8) as Hnl by (intros; by apply get8_range).
  induction 1 as [i Hi|i Hi Hs|i es Hi Hs Hino Hp IH|i es Hi Hs Hino Hp IH]; intros fuel base dsize a H0 Hfuel Hbase Hd.
  { destruct fuel; cbn [iterate_block]; by rewrite (proj2 (Z.ltb_ge i 1024)) by lia. }
  all: pose proof (Hnl i); unfold sizeof_directory in *; (destruct fuel as [|fuel]; [lia|]); cbn [iterate_block]; rewrite (proj2 (Z.ltb_lt i 1024)) by lia; rewrite u32_id, (proj2 (Z.ltb_lt (base + i) dsize)) by lia; cbn [andb negb];
    rewrite (proj2 (Z.ltb_ge 1024 (i + 6))) by lia.
  - by rewrite Hs.
  - rewrite (proj2 (Z.eqb_neq (e_size buf i) 0)), Hino by lia. cbn [Z.eqb]. apply IH; lia.
  - rewrite (proj2 (Z.eqb_neq (e_size buf i) 0)), (proj2 (Z.eqb_neq (e_inode buf i) 0)) by lia. unfold NAME_MAXLEN, sizeof_directory. rewrite Z.min_l by lia. rewrite (proj2 (Z.ltb_ge 1024 _)) by lia.
    cbn [visit]. change (mk_dirent _ _ _) with (entry_at buf i). destruct (callback a (entry_at buf i)) as [a' []]; [done|]. apply IH; lia.
Qed.

Lemma find_block_spec name buf i es : bytes buf → parsed buf i es → ∀ fuel, 0 ≤ i → 1024 - i ≤ Z.of_nat fuel → find_block fuel name 1024 buf i = Done (lookup_name name es).
Proof.
  intros Hb. assert (∀ i, 0 ≤ e_name_length buf i < 2 ^ 8) as Hnl by (intros; by apply get8_range).
  induction 1 as [i Hi|i Hi Hs|i es Hi Hs Hino Hp IH|i es Hi Hs Hino Hp IH]; intros fuel H0 Hfuel.
  { destruct fuel; cbn [find_block]; by rewrite (proj2 (Z.ltb_ge i 1024)) by lia. }
  all: pose proof (Hnl i); unfold sizeof_directory in *; (destruct fuel as [|fuel]; [lia|]); cbn [find_block]; rewrite (proj2 (Z.ltb_lt i 1024)) by lia; cbn [negb]; rewrite (proj2 (Z.ltb_ge 1024 (i + 6))) by lia.
  - by rewrite Hs.
  - rewrite (proj2 (Z.eqb_neq (e_size buf i) 0)), Hino by lia. cbn [Z.eqb]. apply IH; lia.
  - rewrite (proj2 (Z.eqb_neq (e_size buf i) 0)), (proj2 (Z.eqb_neq (e_inode buf i) 0)) by lia. unfold NAME_MAXLEN, sizeof_directory. rewrite Z.min_l by lia. rewrite (proj2 (Z.ltb_ge 1024 _)) by lia.
    cbn [lookup_name]. unfold entry_at at 1, sizeof_directory. cbn [d_name]. destruct (same_name name _); [done|]. apply IH; lia.
Qed.

(** ** Entries as bytes *)

(** The entries that [write_directory_entries] can write. *)
Record entry_ok e : Prop := {
  eo_id : 0 < d_id e < 2 ^ 32;
  eo_type : 0 ≤ d_type e < 2 ^ 8;
  eo_name : bytes (d_name e) ∧ zlength (d_name e) < 2 ^ 8;
}.

(** The bytes of an entry: 8, the name, and up to 3 more, to a multiple of 4. *)
Definition dirent_size e : Z := (8 + zlength (d_name e) + 3) / 4 * 4.

Definition enc e : list Z := header (d_id e) (dirent_size e) (zlength (d_name e)) (d_type e) ++ d_name e ++ zeroes (dirent_size e - sizeof_directory - zlength (d_name e)).
Definition encs es : list Z := concat (enc <$> es).
Definition used es : Z := foldr (λ e n, dirent_size e + n) 0 es.

Lemma dirent_size_spec e : 8 + zlength (d_name e) ≤ dirent_size e < 12 + zlength (d_name e) ∧ dirent_size e mod 4 = 0.
Proof.
  unfold dirent_size. split; [|apply Z_mod_mult]. pose proof (Z.div_mod (8 + zlength (d_name e) + 3) 4 ltac:(lia)). pose proof (Z.mod_pos_bound (8 + zlength (d_name e) + 3) 4 ltac:(lia)). lia.
Qed.

Lemma entry_padded n : padded n = (n + 3) / 4 * 4.
Proof.
  unfold padded. pose proof (Z.div_mod n 4 ltac:(lia)) as Hn. pose proof (Z.mod_pos_bound n 4 ltac:(lia)). set (r := n mod 4) in *. set (q := n / 4) in *. rewrite Hn. destruct (Z.eqb_spec r 0) as [->|].
  - replace (4 * q + 0 + 3) with (3 + q * 4) by lia. rewrite Z.div_add by lia. change (3 / 4) with 0. lia.
  - replace (4 * q + r + 3) with ((r - 1) + (q + 1) * 4) by lia. rewrite Z.div_add by lia. rewrite (Z.div_small (r - 1) 4) by lia. lia.
Qed.

Lemma ent_size_eq e : ent_size e = dirent_size e.
Proof. apply entry_padded. Qed.

Lemma raw_ent_size_eq e : entry_ok e → raw_ent_size e = dirent_size e.
Proof. intros [_ _ [_ Hn]]. unfold raw_ent_size. rewrite u8_id by lia. apply entry_padded. Qed.

Lemma length_header a b c d : zlength (header a b c d) = 8.
Proof. unfold header. by rewrite !length_app, length_le32, length_le16. Qed.

Lemma bytes_header a b c d : bytes (header a b c d).
Proof. unfold header. apply bytes_app; [apply bytes_le32|]. apply bytes_app; [apply bytes_le16|]. repeat constructor; unfold u8; apply Z.mod_pos_bound; lia. Qed.

Lemma length_enc e : zlength (enc e) = dirent_size e.
Proof.
  destruct (dirent_size_spec e) as [? _]. unfold enc. rewrite !length_app, !Nat2Z.inj_add, length_header, length_zeroes; unfold sizeof_directory; lia.
Qed.

Lemma bytes_enc e : entry_ok e → bytes (enc e).
Proof. intros [_ _ [? _]]. apply bytes_app; [apply bytes_header|]. apply bytes_app; [done|apply bytes_zeroes]. Qed.

Lemma used_nonneg es : 0 ≤ used es ∧ used es mod 4 = 0.
Proof.
  induction es as [|e es [IH1 IH2]]; [done|]. change (used (e :: es)) with (dirent_size e + used es). destruct (dirent_size_spec e) as [? E]. split; [lia|]. rewrite Z.add_mod, E, IH2 by lia. done.
Qed.

Lemma used_one e : used [e] = dirent_size e.
Proof. apply Z.add_0_r. Qed.

Lemma used_app es es' : used (es ++ es') = used es + used es'.
Proof. induction es as [|e es IH]; [done|]. change (used ((e :: es) ++ es')) with (dirent_size e + used (es ++ es')). change (used (e :: es)) with (dirent_size e + used es). lia. Qed.

Lemma encs_app es es' : encs (es ++ es') = encs es ++ encs es'.
Proof. unfold encs. by rewrite fmap_app, concat_app. Qed.

Lemma length_encs es : zlength (encs es) = used es.
Proof. induction es as [|e es IH]; [done|]. change (encs (e :: es)) with (enc e ++ encs es). rewrite length_app, Nat2Z.inj_add, length_enc, IH. done. Qed.

Lemma bytes_encs es : Forall entry_ok es → bytes (encs es).
Proof. induction 1; [constructor|]. apply bytes_app; [by apply bytes_enc|done]. Qed.

(** The fields of a header at its place. *)
Lemma header_fields (pre post : list Z) id size nl type : 0 ≤ id < 2 ^ 32 → 0 ≤ size < 2 ^ 16 → 0 ≤ nl < 2 ^ 8 → 0 ≤ type < 2 ^ 8 → let buf := pre ++ header id size nl type ++ post in
  e_inode buf (zlength pre) = id ∧ e_size buf (zlength pre) = size ∧ e_name_length buf (zlength pre) = nl ∧ e_type buf (zlength pre) = type.
Proof.
  intros Hid Hsz Hnl Hty buf. unfold buf, e_inode, e_size, e_name_length, e_type, header. rewrite <-!app_assoc. split_and!.
  - rewrite get32_skip by lia. rewrite Z.sub_diag. by apply get32_le32.
  - rewrite get16_skip by lia. rewrite get16_skip by (rewrite ?length_le32; lia). rewrite length_le32. replace (zlength pre + 4 - zlength pre - Z.of_nat 4) with 0 by lia. by apply get16_le16.
  - unfold get8. rewrite slice_app_r, slice_app_r, slice_app_r by (rewrite ?length_le32, ?length_le16; lia). rewrite length_le32, length_le16. replace (zlength pre + 6 - zlength pre - Z.of_nat 4 - Z.of_nat 2) with 0 by lia.
    change (Z.lor (u8 nl) 0 = nl). by rewrite Z.lor_0_r, u8_id by lia.
  - unfold get8. rewrite slice_app_r, slice_app_r, slice_app_r by (rewrite ?length_le32, ?length_le16; lia). rewrite length_le32, length_le16. replace (zlength pre + 7 - zlength pre - Z.of_nat 4 - Z.of_nat 2) with 1 by lia.
    change (Z.lor (u8 type) 0 = type). by rewrite Z.lor_0_r, u8_id by lia.
Qed.

Lemma slice_skip (pre l post : list Z) : slice (zlength pre) (zlength l) (pre ++ l ++ post) = l.
Proof. rewrite slice_app_r, Z.sub_diag by lia. by apply slice_app_l. Qed.

Lemma parsed_enc (pre post : list Z) e es : entry_ok e → zlength pre + dirent_size e ≤ 1024 → parsed (pre ++ enc e ++ post) (zlength pre + dirent_size e) es → parsed (pre ++ enc e ++ post) (zlength pre) (e :: es).
Proof.
  intros [Hid Hty [_ Hnl]] Hle Hp. destruct (dirent_size_spec e) as [Hes _]. destruct e as [ino ty nm]. cbn [d_id d_type d_name] in *. set (e := mk_dirent ino ty nm) in *.
  pose proof (header_fields pre ((nm ++ zeroes (dirent_size e - sizeof_directory - zlength nm)) ++ post) ino (dirent_size e) (zlength nm) ty ltac:(lia) ltac:(lia) ltac:(lia) ltac:(lia)) as (E1&E2&E3&E4). cbv zeta in E1, E2, E3, E4.
  rewrite app_assoc in E1, E2, E3, E4. rewrite <-(app_assoc pre) in E1, E2, E3, E4. replace (header ino (dirent_size e) (zlength nm) ty ++ (nm ++ zeroes (dirent_size e - sizeof_directory - zlength nm)) ++ post) with (enc e ++ post) in E1, E2, E3, E4 by (unfold enc; cbn; by rewrite <-!app_assoc).
  assert (slice (zlength pre + sizeof_directory) (zlength nm) (pre ++ enc e ++ post) = nm) as Hnm.
  { etransitivity; [|apply (slice_skip (pre ++ header ino (dirent_size e) (zlength nm) ty) nm (zeroes (dirent_size e - sizeof_directory - zlength nm) ++ post))]. rewrite length_app, Nat2Z.inj_add, length_header. unfold enc. cbn [d_id d_type d_name e]. rewrite <-!app_assoc. reflexivity. }
  assert (entry_at (pre ++ enc e ++ post) (zlength pre) = e) as Ee by (unfold entry_at; by rewrite E1, E3, E4, Hnm).
  rewrite <-Ee at 2. apply parsed_entry; rewrite ?E1, ?E2, ?E3; unfold sizeof_directory; (done || lia).
Qed.

Lemma parsed_encs es : Forall entry_ok es → ∀ (pre post : list Z) es', zlength pre + used es ≤ 1024 → parsed (pre ++ encs es ++ post) (zlength pre + used es) es' → parsed (pre ++ encs es ++ post) (zlength pre) (es ++ es').
Proof.
  induction 1 as [|e es He _ IH]; intros pre post es'; [by rewrite Z.add_0_r|]. change (used (e :: es)) with (dirent_size e + used es). change (encs (e :: es)) with (enc e ++ encs es). intros Hle Hp.
  destruct (used_nonneg es) as [? _]. rewrite <-app_assoc. apply parsed_enc; [done|lia|]. rewrite <-app_assoc in Hp. pose proof (IH (pre ++ enc e) post es') as IH'. rewrite length_app, Nat2Z.inj_add, length_enc, <-!app_assoc in IH'. apply IH'; [lia|].
  by replace (zlength pre + dirent_size e + used es) with (zlength pre + (dirent_size e + used es)) by lia.
Qed.

(** ** Blocks of entries *)

(** A block that is full, and the last one, which ends with an entry without inode. *)
Definition full_block es : list Z := encs es ++ zeroes (1024 - used es).
Definition last_block es : list Z := encs es ++ header 0 (1024 - used es) 0 0 ++ zeroes (1024 - used es - 8).

Fixpoint dir_bytes (gs : list (list dirent)) : list Z :=
  match gs with
  | [] => []
  | g :: gs => match gs with [] => last_block g | _ => full_block g ++ dir_bytes gs end
  end.

Lemma length_full_block es : used es ≤ 1024 → zlength (full_block es) = 1024.
Proof. intros. unfold full_block. rewrite length_app, Nat2Z.inj_add, length_encs, length_zeroes; lia. Qed.

Lemma length_last_block es : used es ≤ 1016 → zlength (last_block es) = 1024.
Proof. intros. unfold last_block. rewrite !length_app, !Nat2Z.inj_add, length_encs, length_header, length_zeroes; lia. Qed.

Lemma length_fulls (gs : list (list dirent)) : Forall (λ g, used g ≤ 1024) gs → zlength (concat (full_block <$> gs)) = 1024 * zlength gs.
Proof. induction 1 as [|g gs Hg _ IH]; [done|]. cbn [fmap list_fmap concat length]. rewrite length_app, Nat2Z.inj_add, IH, length_full_block by done. lia. Qed.

Lemma bytes_full_block es : Forall entry_ok es → bytes (full_block es).
Proof. intros. apply bytes_app; [by apply bytes_encs|apply bytes_zeroes]. Qed.

Lemma bytes_last_block es : Forall entry_ok es → bytes (last_block es).
Proof. intros. apply bytes_app; [by apply bytes_encs|]. apply bytes_app; [apply bytes_header|apply bytes_zeroes]. Qed.

Lemma get16_zeroes n off : 0 ≤ off → get16 (zeroes n) off = 0.
Proof.
  intros. unfold get16, slice, zeroes. rewrite drop_replicate, take_replicate. generalize (Z.to_nat 2 `min` (Z.to_nat n - Z.to_nat off))%nat as k.
  induction k as [|k IH]; [done|]. cbn [replicate little_endian_to_Z]. by rewrite IH.
Qed.

Lemma parsed_full_block es : Forall entry_ok es → used es ≤ 1016 → parsed (full_block es) 0 es.
Proof.
  intros Hok Hu. destruct (used_nonneg es) as [? _]. rewrite <-(app_nil_r es) at 2. apply (parsed_encs es Hok [] (zeroes (1024 - used es)) []); [cbn [length Z.of_nat]; lia|]. apply parsed_stop; [cbn [length Z.of_nat]; lia|]. unfold e_size.
  cbn [app length Z.of_nat Z.add]. rewrite get16_skip by (rewrite ?length_encs; lia). apply get16_zeroes. rewrite length_encs. lia.
Qed.

Lemma parsed_last_block es : Forall entry_ok es → used es ≤ 1016 → parsed (last_block es) 0 es.
Proof.
  intros Hok Hu. destruct (used_nonneg es) as [? _]. rewrite <-(app_nil_r es) at 2. apply (parsed_encs es Hok [] (header 0 (1024 - used es) 0 0 ++ zeroes (1024 - used es - 8)) []); [cbn [length Z.of_nat]; lia|].
  pose proof (header_fields (encs es) (zeroes (1024 - used es - 8)) 0 (1024 - used es) 0 0 ltac:(lia) ltac:(lia) ltac:(lia) ltac:(lia)) as (E1&E2&_&_). cbv zeta in E1, E2. rewrite length_encs in E1, E2. change (zlength [] + used es) with (used es). cbn [app].
  apply parsed_free; rewrite ?E1, ?E2; [lia|lia|done|]. apply parsed_end. lia.
Qed.

(** Adding an entry to a block; the terminator of the name is in the padding, or where the next entry goes. *)
Lemma splice_end (A B l : list Z) p : p = zlength A → splice (A ++ B) p l = A ++ l ++ drop (length l) B.
Proof. intros ->. unfold splice. rewrite Nat2Z.id. by rewrite take_app_length, drop_app_add. Qed.

Lemma zeroes_app a b : 0 ≤ a → 0 ≤ b → zeroes a ++ zeroes b = zeroes (a + b).
Proof. intros. unfold zeroes. rewrite <-replicate_add. f_equal. lia. Qed.

Lemma drop_zeroes (k : nat) n : drop k (zeroes n) = zeroes (n - Z.of_nat k).
Proof. unfold zeroes. rewrite drop_replicate. f_equal. lia. Qed.

(** Sizes are multiples of 4. *)
Lemma used_room es e : dirent_size e + used es < 1024 → used es + dirent_size e ≤ 1020.
Proof.
  intros Hlt. destruct (used_nonneg es) as [? Hm]. destruct (dirent_size_spec e) as [? Hm']. pose proof (Z.div_mod (used es) 4 ltac:(lia)). pose proof (Z.div_mod (dirent_size e) 4 ltac:(lia)). lia.
Qed.

Lemma put_entry es e : entry_ok e → dirent_size e + used es < 1024 →
  splice (splice (full_block es) (used es) (header (d_id e) (dirent_size e) (zlength (d_name e)) (d_type e))) (used es + sizeof_directory) (d_name e ++ [0]) = full_block (es ++ [e]).
Proof.
  intros He Hlt. destruct (used_nonneg es) as [? Hm]. destruct (dirent_size_spec e) as [? Hm']. set (h := header _ _ _ _). pose proof (length_header (d_id e) (dirent_size e) (zlength (d_name e)) (d_type e)) as Hlh. fold h in Hlh.
  pose proof (used_room es e Hlt).
  unfold full_block at 1. rewrite splice_end by (by rewrite length_encs). rewrite drop_zeroes, Hlh, app_assoc. rewrite splice_end by (rewrite length_app, Nat2Z.inj_add, length_encs, Hlh; done). rewrite drop_zeroes, length_app. change (length [0]) with 1%nat.
  unfold full_block. rewrite encs_app, used_app. change (encs [e]) with (enc e ++ []). change (used [e]) with (dirent_size e + 0). rewrite app_nil_r. unfold enc. fold h. rewrite <-!app_assoc. do 3 f_equal.
  rewrite zeroes_app by (unfold sizeof_directory; lia). change [0] with (zeroes 1). rewrite zeroes_app by lia. f_equal. unfold sizeof_directory. lia.
Qed.

(** ** The blocks of a directory *)

(** How [write_directory_entries] puts entries into blocks; [acc] are those of the current block. *)
Fixpoint pack es (acc : list dirent) : list (list dirent) :=
  match es with [] => [acc] | e :: es => if 1024 <=? dirent_size e + used acc then acc :: pack es [e] else pack es (acc ++ [e]) end.

Lemma concat_pack es acc : concat (pack es acc) = acc ++ es.
Proof.
  revert acc. induction es as [|e es IH]; intros acc; cbn [pack]; [cbn; by rewrite app_nil_r|]. destruct (_ <=? _); [cbn [concat]; by rewrite IH|]. rewrite IH, <-app_assoc. done.
Qed.

Lemma pack_cons es acc : ∃ g gs, pack es acc = g :: gs.
Proof. revert acc. induction es as [|e es IH]; intros acc; cbn [pack]; [eauto|]. destruct (_ <=? _); [eauto|apply IH]. Qed.

(** The length of the directory whose entries are put into blocks this way. *)
Definition dir_len es : Z := 1024 * zlength (pack es []).

(** Every block has space for an entry behind the others, and what is left free at the ends of blocks does not make one more block necessary than
    the bytes of the entries and of the entry behind them fill. *)
Definition fits es : Prop := Forall (λ g, used g ≤ 1016) (pack es []) ∧ zlength (pack es []) = used es / 1024 + 1.

(** Then the code makes the directory as long as its blocks are. *)
Lemma directory_size_fits es : fits es → dir_len es < 2 ^ 31 → directory_size 1024 es = dir_len es.
Proof.
  intros [_ Hl] Hlt. unfold dir_len in *. rewrite Hl in *. destruct (used_nonneg es) as [Hu _]. unfold directory_size.
  assert (foldr (λ e n, ent_size e + n) 0 es = used es) as ->. { unfold used. clear. induction es as [|e es IH]; [done|]. cbn. by rewrite IH, ent_size_eq. }
  pose proof (Z.div_mod (used es) 1024 ltac:(lia)) as Hd. pose proof (Z.mod_pos_bound (used es) 1024 ltac:(lia)) as Hm. rewrite (u32_id (used es)) by lia. set (q := used es / 1024) in *. set (r := used es mod 1024) in *.
  cbv zeta. destruct (Z.eqb_spec r 0) as [E|E]; rewrite u32_id by lia.
  - replace (used es + 1 + 1024 - 1) with (0 + (q + 1) * 1024) by lia. rewrite Z.div_add by lia. change (0 / 1024) with 0. lia.
  - replace (used es + 1024 - 1) with ((r - 1) + (q + 1) * 1024) by lia. rewrite Z.div_add by lia. rewrite (Z.div_small (r - 1)) by lia. lia.
Qed.

(** A directory of one block. *)
Lemma pack_small es acc : used acc + used es ≤ 1016 → pack es acc = [acc ++ es].
Proof.
  revert acc. induction es as [|e es IH]; intros acc Hu; cbn [pack]; [by rewrite app_nil_r|]. change (used (e :: es)) with (dirent_size e + used es) in Hu. destruct (used_nonneg es).
  rewrite (proj2 (Z.leb_gt _ _)) by lia. rewrite IH by (rewrite used_app, used_one; lia). by rewrite <-app_assoc.
Qed.

Lemma fits_small es : used es ≤ 1016 → fits es.
Proof.
  intros Hu. destruct (used_nonneg es). unfold fits. rewrite (pack_small es []) by (cbn; lia). split; [by repeat constructor|]. cbn. rewrite Z.div_small by lia. done.
Qed.

#[export] Instance fits_dec es : Decision (fits es).
Proof. apply _. Defined.

(** The contents [c] of a directory are blocks that parse to the entries. *)
Inductive dir_content : list Z → list dirent → Prop :=
  | dir_nil : dir_content [] []
  | dir_block buf es c es' : zlength buf = 1024 → bytes buf → parsed buf 0 es → dir_content c es' → dir_content (buf ++ c) (es ++ es').

Lemma dir_content_bytes gs : Forall (Forall entry_ok) gs → Forall (λ g, used g ≤ 1016) gs → dir_content (dir_bytes gs) (concat gs).
Proof.
  induction 1 as [|g gs Hg _ IH]; [constructor|]. intros [Hu Hus]%Forall_cons. cbn [dir_bytes concat]. destruct gs as [|g' gs].
  - rewrite <-(app_nil_r (last_block g)). apply dir_block; [by apply length_last_block|by apply bytes_last_block|by apply parsed_last_block|constructor].
  - apply dir_block; [apply length_full_block; lia|by apply bytes_full_block|by apply parsed_full_block|by apply IH].
Qed.

Lemma dir_content_ids c es : dir_content c es → Forall (λ e, d_id e ≠ 0) es.
Proof. induction 1; [done|]. apply Forall_app. split; [by eapply parsed_ids|done]. Qed.

Lemma length_dir_bytes gs : Forall (λ g, used g ≤ 1016) gs → zlength (dir_bytes gs) = 1024 * zlength gs.
Proof.
  induction 1 as [|g gs Hg _ IH]; [done|]. cbn [dir_bytes]. destruct gs as [|g' gs]; [rewrite length_last_block by done; done|]. rewrite length_app, Nat2Z.inj_add, length_full_block, IH by lia. cbn [length]. lia.
Qed.

(** The entries of a directory that has been read can be written again. *)
Lemma parsed_entry_ok buf i es : bytes buf → 0 ≤ i → parsed buf i es → Forall entry_ok es.
Proof.
  intros Hb Hi Hp. assert (∀ j, 0 ≤ e_size buf j) as Hs by (intros; by apply get16_range). induction Hp as [| |i es ? ? ? _ IH|i es Hle ? Hino _ IH]; [constructor|constructor|apply IH; specialize (Hs i); lia|].
  constructor; [|apply IH; specialize (Hs i); lia]. pose proof (get32_range buf i Hb). pose proof (get8_range buf (i + 7) Hb). pose proof (get8_range buf (i + 6) Hb). split; cbn [d_id d_type d_name entry_at].
  - unfold e_inode in *. lia.
  - unfold e_type. lia.
  - split; [by apply bytes_slice|]. unfold slice, e_name_length. rewrite length_take. lia.
Qed.

Lemma dir_content_ok c es : dir_content c es → Forall entry_ok es.
Proof. induction 1; [done|]. apply Forall_app. split; [by eapply parsed_entry_ok|done]. Qed.
