(* ===== verification/Ext2DirOk.v ===== *)
(** * ext2: directories are lists of entries

    [iterate_entries] and [find_id] see the entries of a directory in order,
    [write_directory_entries] makes it a directory with the given entries, and [add_entry]
    adds one at the end. *)

From stdpp Require Import base numbers list list_numbers option gmap sets.
From S2P Require Import Prelude.
From S2P Require Import ByteBuf.
From S2P Require Import FileBlocks.
From S2P Require Import Ext2.
From S2P Require Import Ext2Inv.
From S2P Require Import Ext2Alloc.
From S2P Require Import Ext2Inode.
From S2P Require Import Ext2Tree.
From S2P Require Import Ext2Pointers.
From S2P Require Import Ext2Entry.
From S2P Require Import Ext2File.
From S2P Require Import Ext2FileOk.
From S2P Require Import Ext2Trunc.
From S2P Require Import Ext2Shrink.
From S2P Require Import Ext2Dir.
From S2P Require Import Ext2DirBytes.

Local Open Scope Z_scope.

Implicit Types (v buf name : list Z) (e : dirent) (es : list dirent) (n : inode) (U : gset Z).

Section dir.
Context {D : Type} `{ByteFileSpec D}.
Context (L : layout) (HL : layout_ok L).
Implicit Types (s : ext2 D).

(** A directory: its contents are blocks that parse to the entries. *)
Record dir_ok v U n es : Prop := {
  do_file : file_ok L v U n;
  do_directory : is_directory (_metadata n) = true;
  do_content : dir_content (content v n) es;
  do_size : size (_metadata n) < 2 ^ 31;
  do_clean : _dirty n = false;
}.

(** ** Reading *)

Lemma dir_content_length c es : dir_content c es → ∃ k, 0 ≤ k ∧ zlength c = 1024 * k.
Proof. induction 1 as [|buf es c es' Hl _ _ _ (k&?&E)]; [by exists 0|]. exists (k + 1). rewrite length_app, Nat2Z.inj_add, Hl, E. lia. Qed.

(** The next block of a directory, behind the blocks [pre]. *)
Lemma read_dir_run s v U n (pre buf c old : list Z) : fs_inv s v L U → file_ok L v U n → size (_metadata n) < 2 ^ 31 → content v n = pre ++ buf ++ c → zlength buf = 1024 → zlength old = 1024 →
  run (read n (u32 (zlength pre)) 1024) s (λ r s', r.1 = 1024 ∧ splice old 0 r.2 = buf ∧ fs_inv s' v L U).
Proof.
  intros Hi Hf Hsz Hc Hl Hold. pose proof (length_content L HL s v U n (fi_base _ _ _ _ Hi) (fo_inode _ _ _ _ Hf)) as Hlc. rewrite Hc, !length_app, !Nat2Z.inj_add in Hlc. rewrite u32_id by lia.
  wp_apply (read_run L HL s v U n (zlength pre) 1024); [done|done|lia|lia|lia|]. intros r s' (->&Hi'). cbn [fst snd]. assert (slice (zlength pre) 1024 (content v n) = buf) as -> by (rewrite Hc, <-Hl; apply slice_skip).
  split_and!; [done|apply splice_all; lia|done].
Qed.

Lemma read_dir_end_run s v U n : fs_inv s v L U → file_ok L v U n → size (_metadata n) < 2 ^ 31 →
  run (read n (u32 (zlength (content v n))) 1024) s (λ r s', r = (0, []) ∧ fs_inv s' v L U).
Proof.
  intros Hi Hf Hsz. pose proof (length_content L HL s v U n (fi_base _ _ _ _ Hi) (fo_inode _ _ _ _ Hf)) as Hlc. destruct (size_blocks L U n (fo_inode _ _ _ _ Hf)) as [? _]. rewrite u32_id by lia.
  wp_apply (read_run L HL s v U n (zlength (content v n)) 1024); [done|done|lia|lia|lia|]. intros r s' (->&Hi'). assert (slice (zlength (content v n)) 1024 (content v n) = []) as -> by (unfold slice; rewrite drop_ge by lia; apply take_nil). done.
Qed.

Lemma iterate_loop_run {A} (callback : A → dirent → A * bool) v U n : file_ok L v U n → size (_metadata n) < 2 ^ 31 → ∀ c es, dir_content c es → ∀ fuel s (pre old : list Z) block a, fs_inv s v L U → content v n = pre ++ c →
  zlength pre = 1024 * block → zlength old = 1024 → zlength c < 1024 * Z.of_nat fuel → run (iterate_loop callback fuel n old block a) s (λ r s', r = (visit callback es a).1 ∧ fs_inv s' v L U).
Proof.
  intros Hf Hsz. induction 1 as [|buf es c es' Hl Hb Hp _ IH]; intros fuel s pre old block a Hi Hc Hpre Hold Hfuel; (destruct fuel as [|fuel]; [lia|]); cbn [iterate_loop]; wp; rewrite (fb_bs _ _ _ (fi_base _ _ _ _ Hi)), (Z.mul_comm block), <-Hpre.
  - rewrite app_nil_r in Hc. rewrite <-Hc. wp_apply (read_dir_end_run s v U n); [done..|]. intros r s' (->&Hi'). cbn. by wp.
  - rewrite length_app, Nat2Z.inj_add in Hfuel. wp_apply (read_dir_run s v U n pre buf c old); [done..|]. intros [r l] s1 (E&El&Hi1). cbn [fst snd] in E, El. rewrite E, El. cbn [Z.eqb]. wp.
    pose proof (length_content L HL s v U n (fi_base _ _ _ _ Hi) (fo_inode _ _ _ _ Hf)) as Hlc. rewrite Hc, !length_app, !Nat2Z.inj_add in Hlc. rewrite u32_id by lia.
    eapply run_lift; [apply (iterate_block_spec callback buf 0 es Hb Hp); lia|]. rewrite visit_app. destruct (visit callback es a) as [a' []]; [by wp|].
    apply (IH fuel s1 (pre ++ buf)); [done|by rewrite <-app_assoc|rewrite length_app, Nat2Z.inj_add; lia|done|lia].
Qed.

Lemma find_loop_run name v U n : file_ok L v U n → size (_metadata n) < 2 ^ 31 → ∀ c es, dir_content c es → ∀ fuel s (pre old : list Z) block, fs_inv s v L U → content v n = pre ++ c →
  zlength pre = 1024 * block → zlength old = 1024 → zlength c < 1024 * Z.of_nat fuel → run (find_loop fuel name n old block) s (λ r s', r = lookup_name name es ∧ fs_inv s' v L U).
Proof.
  intros Hf Hsz. induction 1 as [|buf es c es' Hl Hb Hp _ IH]; intros fuel s pre old block Hi Hc Hpre Hold Hfuel; (destruct fuel as [|fuel]; [lia|]); cbn [find_loop]; wp; rewrite (fb_bs _ _ _ (fi_base _ _ _ _ Hi)), (Z.mul_comm block), <-Hpre.
  - rewrite app_nil_r in Hc. rewrite <-Hc. wp_apply (read_dir_end_run s v U n); [done..|]. intros r s' (->&Hi'). cbn. by wp.
  - rewrite length_app, Nat2Z.inj_add in Hfuel. wp_apply (read_dir_run s v U n pre buf c old); [done..|]. intros [r l] s1 (E&El&Hi1). cbn [fst snd] in E, El. rewrite E, El. cbn [Z.eqb]. wp.
    eapply run_lift; [apply (find_block_spec name buf 0 es Hb Hp); lia|]. rewrite lookup_name_app by (by eapply parsed_ids). destruct (Z.eqb_spec (lookup_name name es) 0); cbn [negb]; [|by wp].
    apply (IH fuel s1 (pre ++ buf)); [done|by rewrite <-app_assoc|rewrite length_app, Nat2Z.inj_add; lia|done|lia].
Qed.

Lemma dir_fuel s v U n es : fs_inv s v L U → dir_ok v U n es → zlength (content v n) < 1024 * Z.of_nat (S (S (length (block_pointers n)))).
Proof.
  intros Hi Hd. pose proof (do_file _ _ _ _ Hd) as Hf. rewrite (length_content L HL s v U n (fi_base _ _ _ _ Hi) (fo_inode _ _ _ _ Hf)). destruct (size_blocks L U n (fo_inode _ _ _ _ Hf)). lia.
Qed.

(** [iterate_entries] calls the callback on the entries in order, until it stops; [stack] is the buffer before the first read. *)
Lemma iterate_entries_run {A} (callback : A → dirent → A * bool) s v U n es (stack : list Z) a : fs_inv s v L U → dir_ok v U n es → zlength stack = 1024 →
  run (iterate_entries callback stack n a) s (λ r s', r = (visit callback es a).1 ∧ fs_inv s' v L U).
Proof. intros Hi Hd Hst. apply (iterate_loop_run callback v U n (do_file _ _ _ _ Hd) (do_size _ _ _ _ Hd) (content v n) es (do_content _ _ _ _ Hd) _ s []); [done..|by apply (dir_fuel s v U n es)]. Qed.

(** [find_id] gives the inode of the first entry with the name. *)
Lemma find_id_run s v U n es (stack : list Z) name : fs_inv s v L U → dir_ok v U n es → zlength stack = 1024 → run (find_id stack n name) s (λ r s', r = lookup_name name es ∧ fs_inv s' v L U).
Proof.
  intros Hi Hd Hst. unfold find_id. rewrite (do_directory _ _ _ _ Hd). apply (find_loop_run name v U n (do_file _ _ _ _ Hd) (do_size _ _ _ _ Hd) (content v n) es (do_content _ _ _ _ Hd) _ s []); [done..|by apply (dir_fuel s v U n es)].
Qed.

(** ** Writing *)

Lemma write_whole_block_run s v U n j (l : list Z) : fs_inv s v L U → inode_ok L U n → 0 ≤ j < zlength (block_pointers n) → zlength l = 1024 → bytes l →
  run (fs_write_block (get_block_pointer n j) l) s (λ r s', r = Ok tt ∧ ∃ v', grown L v U (block_pointers n) [] v' s' ∧ file_bytes v' n = splice (file_bytes v n) (1024 * j) l).
Proof.
  intros Hi Hn Hj Hl Hb. pose proof (fi_base _ _ _ _ Hi) as Hs. destruct (file_block L HL U n j Hn Hj) as (b&Hbl&->&_&Hd). pose proof (data_block_range L U b Hd). pose proof (dtb_pos L HL).
  assert (NoDup (block_pointers n)) as Hnd by (pose proof (ok_nodup _ _ _ Hn) as (?&_)%NoDup_app; done). pose proof (file_in_file L HL s v U n b Hs Hn ltac:(by eapply list_elem_of_lookup_2)) as Hfb.
  wp_apply (fs_write_block_run s v L b l); [done|lia|done|done|]. intros r s' (->&Hst). split; [done|]. exists (splice v (b * 1024) l). split.
  - apply (grown_step_trans L v U [] [] v s [b] []); [by apply grown_refl|rewrite list_to_set_nil, union_empty_r_L; by apply (grown_write L HL s v U b l s')|by intros x ?%elem_of_nil|].
    intros x ->%list_elem_of_singleton. left. by eapply list_elem_of_lookup_2.
  - pose proof (length_blk 1024 v b ltac:(lia) Hfb) as Hlb. assert (splice (blk 1024 v b) 0 l = l) as E by (apply splice_all; lia). rewrite <-E at 1. unfold file_bytes.
    rewrite (splice_block_bytes v (block_pointers n) (Z.to_nat j)); [|intros; by apply (file_in_file L HL s v U n)|done|done|lia|lia]. f_equal. lia.
Qed.

Lemma grown_trans_same v U p v1 s1 v2 s2 : grown L v U p [] v1 s1 → grown L v1 U p [] v2 s2 → grown L v U p [] v2 s2.
Proof. intros H1 H2. apply (grown_step_trans L v U p [] v1 s1 p []); [done|by rewrite list_to_set_nil, union_empty_r_L|done|by left]. Qed.

(** The loop over the entries: the blocks that are full are written, the last one is in the buffer. *)
Lemma write_entries_run U n : inode_ok L U n → ∀ es s v k acc, fs_inv s v L U → Forall entry_ok (acc ++ es) → 0 ≤ k → used acc < 1024 → Forall (λ g, used g ≤ 1016) (pack es acc) → k + zlength (pack es acc) ≤ zlength (block_pointers n) →
  run (write_entries es n k (used acc) (full_block acc)) s (λ r s', ∃ gs g v', pack es acc = gs ++ [g] ∧ r = (k + zlength gs, used g, full_block g) ∧ grown L v U (block_pointers n) [] v' s' ∧
    file_bytes v' n = splice (file_bytes v n) (1024 * k) (concat (full_block <$> gs))).
Proof.
  intros Hn. induction es as [|e es IH]; intros s v k acc Hi Hok Hk Hacc Hu Hend; pose proof (fi_base _ _ _ _ Hi) as Hs; pose proof (length_file_bytes L HL s v U n Hs Hn) as Hlf; cbn [write_entries pack] in *.
  - wp. exists [], acc, v. split_and!; [done|by rewrite Z.add_0_r|by apply grown_refl|]. cbn [fmap list_fmap concat]. cbn in Hend. rewrite splice_nil by lia. done.
  - assert (entry_ok e) as He by (rewrite Forall_app, Forall_cons in Hok; tauto). destruct (dirent_size_spec e) as [Hes _]. destruct He as [? ? [? ?]] eqn:EHe. clear EHe. pose proof (used_nonneg acc) as [? _].
    wp. rewrite (fb_bs _ _ _ Hs), (raw_ent_size_eq e) by done. destruct (Z.leb_spec 1024 (dirent_size e + used acc)) as [Hge|Hlt].
    + apply Forall_cons in Hu as [Hua Hu]. cbn [length] in Hend. wp. wp_apply (write_whole_block_run s v U n k (full_block acc)); [done|done|lia|apply length_full_block; lia|apply bytes_full_block; by apply Forall_app in Hok as [? _]|].
      intros r s1 (->&v1&Hg1&Hfb1). wp. rewrite (proj2 (Z.ltb_ge 1024 _)) by (unfold sizeof_directory; lia). change (zeroes 1024) with (full_block []). change 0 with (used []) at 2 3. rewrite put_entry by (done || (change (used []) with 0; lia)).
      replace (0 + dirent_size e) with (used [e]) by (rewrite used_one; lia). cbn [app]. wp_apply (IH s1 v1 (k + 1) [e]); [by apply (grown_same L v U (block_pointers n))|by apply Forall_app in Hok as [_ ?]|lia|rewrite used_one; lia|done|lia|].
      intros r s2 (gs&g&v2&Ep&->&Hg2&Hfb2). exists (acc :: gs), g, v2. rewrite Ep. split_and!; [done|cbn [length]; f_equal; f_equal; lia|by apply (grown_trans_same v U _ v1 s1)|].
      rewrite Hfb2, Hfb1. cbn [fmap list_fmap concat]. rewrite Ep, length_app in Hend. cbn [length] in Hend.
      assert (zlength (concat (full_block <$> gs)) = 1024 * zlength gs) as Hfl by (apply length_fulls; rewrite Ep in Hu; apply Forall_app in Hu as [Hu _]; eapply Forall_impl; [exact Hu|]; intros x Hx; cbn beta in Hx; lia).
      rewrite <-splice_app; [|lia|rewrite length_full_block by lia; lia].
      f_equal. rewrite length_full_block by lia. lia.
    + wp. assert (used acc + dirent_size e ≤ 1020) as Hle by (by apply used_room). rewrite (proj2 (Z.ltb_ge 1024 _)) by (unfold sizeof_directory; lia). rewrite put_entry by done.
      replace (used acc + dirent_size e) with (used (acc ++ [e])) by (by rewrite used_app, used_one). apply IH; try done; [by rewrite <-app_assoc|rewrite used_app, used_one; lia].
Qed.

(** The blocks of a file whose size is a number of blocks are written. *)
Lemma file_step_data s v U n v' s' : fs_inv s v L U → file_ok L v U n → size (_metadata n) = 1024 * zlength (block_pointers n) → grown L v U (block_pointers n) [] v' s' → file_step L v U n v' U n s'.
Proof.
  intros Hi Hf Hsz Hg. pose proof (fo_inode _ _ _ _ Hf) as Hn. pose proof (ok_nodup _ _ _ Hn) as (_&Hap&_)%NoDup_app. assert (∀ x, x ∈ block_pointers n → data_block L U x) as Hd by (intros x Hx; apply (ok_data _ _ _ Hn), elem_of_app; by left).
  assert (∀ j, inode_number L j → entry L v' j = entry L v j) as He by (intros j Hj; apply (grown_entry L HL v U (block_pointers n) [] v' s'); [apply Hg|done|done|apply Hi|done]).
  split; [by apply (grown_same L v U (block_pointers n))| |done|done| |by intros; apply He].
  - split; [done| |apply Hf]. destruct (fo_disk _ _ _ _ Hf) as [E ? ? ? ? Ht]. split; try done; [rewrite He; [done|apply Hn]|]. apply (inode_tree_same v v' n); try done.
    intros x Hx. apply (grown_other L HL v U (block_pointers n) [] v' s'); [done|apply (ok_data _ _ _ Hn), elem_of_app; by right|]. intros Hx'. by apply (Hap x).
  - intros b Hb Hnb. apply (grown_other L HL v U (block_pointers n) [] v' s'); [done|done|]. intros Hx. apply Hnb, elem_of_app. by left.
Qed.

(** The last block is written, with the entry that ends the directory. *)
Lemma end_entry es : used es ≤ 1016 → splice (full_block es) (used es) (header 0 (1024 - used es) 0 0) = last_block es.
Proof. intros Hu. unfold full_block, last_block. rewrite splice_end by (by rewrite length_encs). rewrite drop_zeroes, length_header. done. Qed.

Lemma dir_bytes_app (gs : list (list dirent)) g : dir_bytes (gs ++ [g]) = concat (full_block <$> gs) ++ last_block g.
Proof. induction gs as [|g' gs IH]; [done|]. cbn [app fmap list_fmap concat]. rewrite <-app_assoc, <-IH. cbn [dir_bytes]. by destruct gs. Qed.

(** Another number of links: only the count changes. *)
Lemma set_links_run s v U n k : fs_inv s v L U → file_ok L v U n → run (write_inode_entry (with_raw n (put16 (raw n) 26 k))) s (λ n' s', ∃ v', file_step L v U n v' U n' s' ∧ _metadata n' = _metadata n ∧ content v' n' = content v n ∧
  blocks_of n' = blocks_of n ∧ _dirty n' = false ∧ hard_links (raw n') = u16 k).
Proof.
  intros Hi Hf. pose proof (fo_inode _ _ _ _ Hf) as Hn. destruct (ok_raw _ _ _ Hn) as [Hl Hb]. set (n1 := with_raw n _).
  assert (inode_ok L U n1) as Hn1 by (destruct Hn; split; try done; cbn; split; [rewrite length_put16; lia|by apply bytes_put16]).
  wp_apply (write_entry_run L HL s v U n n1); [done|done| |done|done|apply Hf|].
  - apply (inode_tree_same v v n); try done; [apply Hf|]. intros o Ho. apply get32_put16_other; lia.
  - intros n' s' (v'&->&Hst&Hfb&Eh). exists v'. split_and!; [done|done|unfold content; rewrite Hfb; done|done|done|]. rewrite Eh. unfold hard_links, n1. cbn [raw with_raw]. apply get16_put16; lia.
Qed.

Context (stack_bytes : list Z) (stack_len : length stack_bytes = 14%nat) (stack_ok : bytes stack_bytes).

(** What [write_directory_entries] does. *)
Definition dir_written v U n es (r : result unit * inode) s' : Prop :=
  ∃ n' v' U', r = (Ok tt, n') ∧ file_step L v U n v' U' n' s' ∧ _metadata n' = set_size (dir_len es) (_metadata n) ∧ hard_links (raw n') = hard_links (raw n) ∧ dir_ok v' U' n' es.

Lemma write_directory_entries_run s v U n es : fs_inv s v L U → file_ok L v U n → is_directory (_metadata n) = true → _dirty n = false → Forall entry_ok es → fits es → dir_len es < 2 ^ 31 → truncatable L U n (dir_len es) →
  run (write_directory_entries stack_bytes n es) s (λ r s', dir_written v U n es r s').
Proof.
  intros Hi Hf Hdir Hdi Hok Hfit Hlt Htr. unfold write_directory_entries. wp. rewrite (fb_bs _ _ _ (fi_base _ _ _ _ Hi)), (directory_size_fits es Hfit Hlt). cbv zeta. destruct Hfit as [Hu _].
  assert (1024 * zlength (pack es []) = dir_len es) as Hlen by done. set (len := dir_len es) in *. rewrite s32_id by lia.
  wp_apply (truncate_run L HL stack_bytes stack_len stack_ok s v U n len); [done..|]. intros r s1 (n1&v1&U1&->&Hst1&Em1&Eh1&Ed1&_). cbn beta iota. wp.
  pose proof (st_inv _ _ _ _ _ _ _ _ Hst1) as Hi1. pose proof (st_file _ _ _ _ _ _ _ _ Hst1) as Hf1. pose proof (fo_inode _ _ _ _ Hf1) as Hn1. pose proof (ok_blocks _ _ _ Hn1) as Hbl. rewrite Em1 in Hbl. cbn [size set_size] in Hbl.
  assert (zlength (block_pointers n1) = zlength (pack es [])) as Hbl'. { rewrite Hbl, <-Hlen. replace (1024 * zlength (pack es []) + 1023) with (1023 + zlength (pack es []) * 1024) by lia. rewrite Z.div_add by lia. done. }
  change (zeroes 1024) with (full_block []). wp_apply (write_entries_run U1 n1 Hn1 es s1 v1 0 []); [done|done|done|done|done|lia|].
  intros r s2 (gs&g&v2&Ep&->&Hg2&Hfb2). pose proof (length_file_bytes L HL s1 v1 U1 n1 (fi_base _ _ _ _ Hi1) Hn1) as Hlf. rewrite Ep in Hu, Hbl'. rewrite length_app in Hbl'. cbn [length] in Hbl'. apply Forall_app in Hu as [Hus [Hug _]%Forall_cons].
  rewrite (proj2 (Z.leb_gt 1024 (used g))) by lia. wp. rewrite (proj2 (Z.ltb_ge 1024 _)) by (unfold sizeof_directory; lia). rewrite end_entry by done. wp.
  assert (Forall (Forall entry_ok) (gs ++ [g])) as Hokg by (rewrite <-Ep; by rewrite <-Forall_concat, concat_pack). assert (Forall entry_ok g) as Hokl by (apply Forall_app in Hokg as [_ [? _]%Forall_cons]; done).
  wp_apply (write_whole_block_run s2 v2 U1 n1 (0 + zlength gs) (last_block g)); [by apply (grown_same L v1 U1 (block_pointers n1))|done|lia|by apply length_last_block|by apply bytes_last_block|].
  intros r s3 (->&v3&Hg3&Hfb3). wp. assert (size (_metadata n1) = 1024 * zlength (block_pointers n1)) as Hsz1 by (rewrite Em1; cbn [size set_size]; rewrite <-Hlen, Ep, length_app; cbn [length]; lia).
  assert (zlength (concat (full_block <$> gs)) = 1024 * zlength gs) as Hfl by (apply length_fulls; eapply Forall_impl; [exact Hus|]; intros x Hx; cbn beta in Hx; lia).
  assert (file_bytes v3 n1 = dir_bytes (gs ++ [g])) as Hfb.
  { rewrite Hfb3, Hfb2, dir_bytes_app. change (1024 * 0) with 0. replace (1024 * (0 + zlength gs)) with (0 + zlength (concat (full_block <$> gs))) by lia. pose proof (length_last_block g Hug). rewrite splice_app by lia. apply splice_all. rewrite length_app. lia. }
  pose proof (file_step_data s1 v1 U1 n1 v3 s3 Hi1 Hf1 Hsz1 ltac:(by apply (grown_trans_same v1 U1 _ v2 s2))) as Hst3.
  exists n1, v3, U1. split_and!; [done|by apply (file_step_trans L v U n v1 U1 n1 s1)|done|done|]. split; [apply Hst3|rewrite Em1; exact Hdir| |rewrite Em1; done|by apply Ed1].
  unfold content. rewrite Hfb, slice_all by (rewrite length_dir_bytes, Hsz1, length_app by (apply Forall_app; split; [done|by constructor]); cbn [length]; lia).
  assert (es = concat (gs ++ [g])) as -> by (rewrite <-Ep, concat_pack; done). apply dir_content_bytes; [done|]. apply Forall_app. split; [done|by constructor].
Qed.

End dir.

(** Whether there is an entry with the name. *)
Definition has_name name es : bool := existsb (λ e, same_name name (d_name e)) es.

Lemma collect_spec name es acc : has_name name es = false → (visit (collect name) es (acc, false)).1 = (acc ++ es, false).
Proof.
  revert acc. induction es as [|e es IH]; intros acc; cbn; [by rewrite app_nil_r|]. intros [E1 E2]%orb_false_iff. unfold collect at 1. rewrite E1. cbn [fst snd]. rewrite IH by done. by rewrite <-app_assoc.
Qed.

Lemma collect_exists name es acc : has_name name es = true → (visit (collect name) es (acc, false)).1.2 = true.
Proof.
  revert acc. induction es as [|e es IH]; intros acc; cbn; [done|]. unfold collect at 1. destruct (same_name name (d_name e)); [done|]. cbn. apply IH.
Qed.

Lemma lookup_name_absent name es : has_name name es = false → lookup_name name es = 0.
Proof. induction es as [|e es IH]; cbn; [done|]. intros [-> ?]%orb_false_iff. by apply IH. Qed.

Lemma file_type_range m : 0 ≤ file_type m < 2 ^ 8.
Proof. unfold file_type. by repeat case_match. Qed.
