(* ===== verification/Ext2DirSpec.v ===== *)
(** * ext2: adding an entry to a directory

    The theorem about [add_entry], and a small filesystem with a directory that it is
    applied to. *)

From stdpp Require Import base numbers list list_numbers option gmap sets.
From S2P Require Import Prelude.
From S2P Require Import ByteBuf.
From S2P Require Import LRUCache.
From S2P Require Import Disk.
From S2P Require Import DiskCache.
From S2P Require Import FileBlocks.
From S2P Require Import Partition.
From S2P Require Import Ext2.
From S2P Require Import Ext2Inv.
From S2P Require Import Ext2Alloc.
From S2P Require Import Ext2Inode.
From S2P Require Import Ext2Tree.
From S2P Require Import Ext2Pointers.
From S2P Require Import Ext2Entry.
From S2P Require Import Ext2File.
From S2P Require Import Ext2FileOk.
From S2P Require Import Ext2Trunc.
From S2P Require Import Ext2Shrink.
From S2P Require Import Ext2Mount.
From S2P Require Import Ext2Spec.
From S2P Require Import Ext2Dir.
From S2P Require Import Ext2DirBytes.
From S2P Require Import Ext2DirOk.

Local Open Scope Z_scope.

Implicit Types (v name : list Z) (es : list dirent) (n child : inode) (U : gset Z) (i j : Z).

(** The entry that [add_entry] makes. *)
Definition new_entry name child : dirent := mk_dirent (id child) (file_type (_metadata child)) name.

Lemma lookup_name_snoc name es e : lookup_name name (es ++ [e]) = if has_name name es then lookup_name name es else if same_name name (d_name e) then d_id e else 0.
Proof. induction es as [|e' es IH]; cbn; [done|]. by destruct (same_name name (d_name e')). Qed.

Section add.
Context {D : Type} `{ByteFileSpec D}.
Context (L : layout) (HL : layout_ok L).
Implicit Types (s : ext2 D).

Lemma new_entry_ok U name child : inode_ok L U child → bytes name → zlength name < 256 → entry_ok (new_entry name child).
Proof. intros Hn Hb Hl. destruct (ok_number _ _ _ Hn). pose proof (lo_inodes L HL). split; cbn; [lia|apply file_type_range|done]. Qed.

(** The names of the entries are found. *)
Lemma dir_finds s v U n es name (stack : list Z) : fs_inv s v L U → dir_ok L v U n es → zlength stack = 1024 → ∃ s', find_id stack n name s = Done (lookup_name name es, s').
Proof. intros Hi Hd Hst. destruct (find_id_run L HL s v U n es stack name Hi Hd Hst) as (r&s'&E&->&_). by exists s'. Qed.

(** Another file changes. *)
Lemma dir_ok_other v U n v' U' n' s' d es : file_step L v U n v' U' n' s' → dir_ok L v U d es → id d ≠ id n → (∀ b, b ∈ blocks_of d → b ∉ blocks_of n) → dir_ok L v' U' d es.
Proof. intros Hst [Hf ? Hc ? ?] Hne Hap. destruct (file_step_other L v U n v' U' n' s' d Hst Hf Hne Hap) as (?&E&_). split; try done. unfold content. by rewrite E. Qed.

Context (stack_bytes : list Z) (stack_len : length stack_bytes = 14%nat) (stack_ok : bytes stack_bytes).

(** There is room for the entry: with it, the entries still need no more blocks than their bytes fill ([fits]), and there are free blocks for them. *)
Definition addable U n es name child : Prop :=
  fits (es ++ [new_entry name child]) ∧ dir_len (es ++ [new_entry name child]) < 2 ^ 31 ∧ truncatable L U n (dir_len (es ++ [new_entry name child])).

Lemma add_entry_run s v U files i j n child es name (stack : list Z) : fs_rep L s v U files → files !! i = Some n → files !! j = Some child → i ≠ j → dir_ok L v U n es → zlength stack = 1024 →
  bytes name → 0 < zlength name < 256 → has_name name es = false → addable U n es name child →
  run (add_entry stack_bytes stack n name child) s (λ r s', ∃ n' child' v' U', r = (Ok tt, n', child') ∧ fs_rep L s' v' U' (<[i := n']> (<[j := child']> files)) ∧ dir_ok L v' U' n' (es ++ [new_entry name child]) ∧
    content v' <$> <[i := n']> (<[j := child']> files) = <[i := content v' n']> (content v <$> files) ∧ _metadata child' = _metadata child ∧ hard_links (raw child') = u16 (hard_links (raw child) + 1) ∧ hard_links (raw n') = hard_links (raw n) ∧ _metadata n' = set_size (dir_len (es ++ [new_entry name child])) (_metadata n)).
Proof.
  intros Hr Hi Hj Hne Hd Hst Hb Hl Hno (Hfit&Hsz&Htr). destruct (rp_file _ _ _ _ _ Hr i n Hi) as [Ei Hf]. destruct (rp_file _ _ _ _ _ Hr j child Hj) as [Ej Hfc].
  unfold add_entry. rewrite (do_directory _ _ _ _ _ Hd), (proj2 (Z.eqb_neq _ 0)), (proj2 (Z.ltb_ge NAME_MAXLEN _)) by (unfold NAME_MAXLEN; lia). cbn [negb orb]. wp.
  wp_apply (iterate_entries_run L HL (collect name) s v U n es stack ([], false)); [apply Hr|done|done|]. intros r s1 (->&Hi1). rewrite collect_spec by done. cbn [app]. wp.
  unfold increase_hardlink_count. wp_apply (set_links_run L HL s1 v U child); [done|done|]. intros child' s2 (v2&Hst2&Em&Ec&_&_&Eh). wp.
  apply (run_lift _ (new_entry name child)); [unfold DirectoryEntry, new_entry; rewrite (proj2 (Z.ltb_lt _ _)) by (unfold NAME_MAXLEN; lia); by rewrite (st_id _ _ _ _ _ _ _ _ Hst2), Em|].
  assert (fs_rep L s1 v U files) as Hr1 by (destruct Hr; by split). destruct (rep_step L s1 v U files j child v2 U child' s2 Hr1 Hj Hst2) as [Hr2 Hm2].
  assert (dir_ok L v2 U n es) as Hd2 by (eapply (dir_ok_other v U child); [done|done|congruence|]; intros b Hbn; by apply (rp_apart _ _ _ _ _ Hr i j n child)).
  assert (Forall entry_ok (es ++ [new_entry name child])) as Hok.
  { apply Forall_app. split; [apply (dir_content_ok (content v n)), Hd|]. constructor; [|done]. apply (new_entry_ok U); [apply Hfc|done|lia]. }
  wp. wp_apply (write_directory_entries_run L HL stack_bytes stack_len stack_ok s2 v2 U n (es ++ [new_entry name child])); [apply Hr2|apply Hd2|apply Hd2|apply Hd2|done|done|done|done|].
  intros r s3 (n'&v3&U3&->&Hst3&Em3&Eh3&Hd3). cbn beta iota. rewrite (do_clean _ _ _ _ _ Hd3). wp. exists n', child', v3, U3.
  destruct (rep_step L s2 v2 U (<[j := child']> files) i n v3 U3 n' s3 Hr2 ltac:(by rewrite lookup_insert_ne) Hst3) as [Hr3 Hm3]. split_and!; try done.
  rewrite Hm3, Hm2, Ec. f_equal. apply insert_id. by rewrite lookup_fmap, Hj.
Qed.

Lemma add_entry_exists_run s v U n es name child (stack : list Z) : fs_inv s v L U → dir_ok L v U n es → zlength stack = 1024 → 0 < zlength name < 256 → has_name name es = true →
  run (add_entry stack_bytes stack n name child) s (λ r s', r = (Err (- EEXIST), n, child) ∧ fs_inv s' v L U).
Proof.
  intros Hi Hd Hst Hl Hh. unfold add_entry. rewrite (do_directory _ _ _ _ _ Hd), (proj2 (Z.eqb_neq _ 0)), (proj2 (Z.ltb_ge NAME_MAXLEN _)) by (unfold NAME_MAXLEN; lia). cbn [negb orb]. wp.
  wp_apply (iterate_entries_run L HL (collect name) s v U n es stack ([], false)); [done..|]. intros r s1 (->&Hi1). pose proof (collect_exists name es [] Hh) as E. destruct (visit _ _ _).1 as [l b]. cbn in E. subst b. by wp.
Qed.

End add.

(** ** The directory of the small filesystem *)

Definition small_dir : inode := mk_inode 2 small_dir_raw [7] [] (mk_metadata 0 0 0x41ED 1024 2 0 0) false true.
Definition small_entries : list dirent := [mk_dirent 2 2 [46]; mk_dirent 2 2 [46; 46]; mk_dirent 3 1 [104; 105]].

Lemma small_dir_file_ok : file_ok small_layout small_image small_used small_dir.
Proof.
  split; [split; try done| |done].
  - split; [by vm_compute|]. apply bytes_b_spec. vm_compute. reflexivity.
  - apply NoDup_singleton.
  - intros x Hx%list_elem_of_singleton. subst x. apply data_block_b. vm_compute. reflexivity.
  - split; [vm_compute; reflexivity..|]. apply (one_block_tree _ _ 7); by vm_compute.
Qed.

Lemma small_dir_ok : dir_ok small_layout small_image small_used small_dir small_entries.
Proof.
  split; [apply small_dir_file_ok|done| |done|done]. assert (content small_image small_dir = dir_bytes [small_entries]) as -> by (vm_compute; reflexivity).
  replace small_entries with (concat [small_entries]) at 2 by (vm_compute; reflexivity). apply dir_content_bytes; [|by repeat constructor]. repeat constructor; cbn; lia.
Qed.

Definition small_files : gmap Z inode := <[2 := small_dir]> {[3 := small_inode]}.

Lemma small_files_rep : fs_rep small_layout small_state small_image small_used small_files.
Proof.
  split; [apply small_mounted| |].
  - intros i n. unfold small_files. rewrite lookup_insert_Some, lookup_singleton_Some. intros [[<- <-]|[_ [<- <-]]]; (split; [done|]); [apply small_dir_file_ok|apply small_file_ok].
  - intros i j n n'. unfold small_files. rewrite !lookup_insert_Some, !lookup_singleton_Some. intros [[<- <-]|[_ [<- <-]]] [[<- <-]|[_ [<- <-]]] Hne b; try done; by intros ->%list_elem_of_singleton ?%list_elem_of_singleton.
Qed.

