(* ===== verification/Ext2Create.v ===== *)
(** * ext2: creating and removing (kernel/filesystem/ext2/Ext2Filesystem.cpp, Ext2Inode.cpp)

    [allocate_inode], [free_inode], [create_entry] and [remove_entry].  Inodes are objects
    that the directory, its children and open files share: [objects] are those in memory,
    by number, and [cached] the ones that [get_inode] finds there. *)

From stdpp Require Import base numbers list list_numbers option gmap.
From S2P Require Import Prelude.
From S2P Require Import ByteBuf.
From S2P Require Import FileBlocks.
From S2P Require Import Ext2.
From S2P Require Import Ext2Inode.
From S2P Require Import Ext2File.
From S2P Require Import Ext2Dir.

Local Open Scope Z_scope.

(** The inodes in memory, and [m_inode_cache], from which nothing is pruned. *)
Record inodes := mk_inodes {
  objects : gmap Z inode;
  cached : gset Z;
}.

Definition put_inode (n : inode) (f : inodes) : inodes := mk_inodes (<[id n := n]> (objects f)) (cached f).
Definition add_cached_inode (n : inode) (f : inodes) : inodes := mk_inodes (<[id n := n]> (objects f)) ({[id n]} ∪ cached f).
Definition remove_cached_inode (i : Z) (f : inodes) : inodes := mk_inodes (objects f) (cached f ∖ {[i]}).

Definition IS_DIR (mode : Z) : bool := Z.land mode 0xF000 =? MODE_DIRECTORY.
Definition TYPE_DIR : Z := 2.

Section create.
Context {D : Type} `{ByteFile D}.
Context (stack_bytes : list Z).

(** An object that is in use. *)
Definition the_inode (i : Z) (f : inodes) : eff D inode := match objects f !! i with Some n => ret n | None => lift Undef end.

Definition get_inode (i : Z) (f : inodes) : eff D (inode * inodes) :=
  if bool_decide (i ∈ cached f) then n ← the_inode i f; ret (n, f)
  else n ← load_inode i; ret (n, add_cached_inode n f).

(** ** Allocating an inode *)

(** The loop over the groups: the first that has a free inode. *)
Fixpoint free_inode_group (fuel : nat) (i : Z) : eff D (option Z) :=
  match fuel with
  | O => ret None
  | S fuel =>
      x ← get_block_group i;
      match x with
      | None => lift Undef
      | Some x => if 0 <? free_inodes x then ret (Some i) else free_inode_group fuel (i + 1)
      end
  end.

(** The loop over the bitmap: the first bit that is clear. *)
Fixpoint find_clear_bit (fuel : nat) (i : Z) (bitmap : list Z) : outcome (option Z) :=
  match fuel with
  | O => Done None
  | S fuel => b ← get_bitmap_bit bitmap i; if (b : bool) then find_clear_bit fuel (i + 1) bitmap else Done (Some i)
  end.

Definition change_sb_free_inodes (k : Z) : eff D unit :=
  modify (λ s, with_superblock s (set_sb_free_inodes (sb_free_inodes (superblock s) + k) (superblock s))).

(** The structure of a new inode. *)
Definition new_raw (mode uid gid size : Z) : list Z := put16 (put16 (put16 (put32 (put16 (zeroes sizeof_raw) 0 mode) 4 size) 2 uid) 24 gid) 26 1.

(** [Ext2Inode::Ext2Inode] of a new inode; a directory gets its first two entries. *)
Definition new_inode (i : Z) (r : list Z) (blocks : list Z) (parent : Z) : eff D inode :=
  let n := create_metadata (mk_inode i r blocks [] (mk_metadata 0 0 0 0 0 0 0) false true) in
  n ← (if IS_DIR (raw_mode r) then '(_, n) ← write_directory_entries stack_bytes n [mk_dirent i TYPE_DIR [46]; mk_dirent parent TYPE_DIR [46; 46]]; ret n else ret n);
  '(_, n) ← write_to_disk stack_bytes n;
  ret n.

(** Undoing the allocation when there are no blocks. *)
Definition give_inode_back (g index : Z) (dir : bool) : eff D unit :=
  x ← the_group g;
  r ← fs_read_block (inode_bitmap_block x);
  bitmap ← buffer r;
  bitmap ← lift (set_bitmap_bit bitmap index false);
  _ ← fs_write_block (inode_bitmap_block x) bitmap;
  _ ← change_group g (λ x, set_free_inodes (free_inodes x + 1) x);
  _ ← (if dir then change_group g (λ x, set_num_directories (num_directories x - 1) x) else ret tt);
  write_group stack_bytes g.

(** The blocks of a new inode of [size] bytes. *)
Definition new_blocks (size : Z) : eff D (result (list Z)) :=
  s ← get_state;
  let num := u32 (size + _block_size s - 1) / _block_size s in
  if num =? 0 then ret (Ok []) else allocate_blocks stack_bytes num true.

Definition allocate_inode (mode uid gid size parent : Z) (f : inodes) : eff D (result Z * inodes) :=
  s ← get_state;
  bg ← free_inode_group (Z.to_nat (num_block_groups s)) 0;
  match bg with
  | None => ret (Err (- ENOSPC), f)
  | Some g =>
      x ← the_group g;
      r ← fs_read_block (inode_bitmap_block x);
      match r with
      | Err e => ret (Err e, f)
      | Ok bitmap =>
          index ← lift (find_clear_bit (Z.to_nat (inodes_per_group (superblock s))) 0 bitmap);
          match index with
          | None => _ ← change_group g (set_free_inodes 0); _ ← write_group stack_bytes g; ret (Err (- ENOSPC), f)
          | Some index =>
              bitmap ← lift (set_bitmap_bit bitmap index true);
              r ← fs_write_block (inode_bitmap_block x) bitmap;
              match r with
              | Err e => ret (Err e, f)
              | Ok _ =>
                  _ ← change_group g (λ x, set_free_inodes (free_inodes x - 1) x);
                  _ ← (if IS_DIR mode then change_group g (λ x, set_num_directories (num_directories x + 1) x) else ret tt);
                  _ ← write_group stack_bytes g;
                  r ← new_blocks size;
                  match r with
                  | Err e => _ ← give_inode_back g index (IS_DIR mode); ret (Err e, f)
                  | Ok blocks =>
                      let ino := u32 (g * inodes_per_group (superblock s) + (index + 1)) in
                      n ← new_inode ino (new_raw mode uid gid size) blocks parent;
                      _ ← change_sb_free_inodes (-1);
                      _ ← write_superblock;
                      ret (Ok ino, add_cached_inode n f)
                  end
              end
          end
      end
  end.

(** ** Freeing an inode *)

(** The offset of [dtime] in the structure. *)
Definition dtime_offset : Z := 20.

Definition free_inode (n : inode) : eff D (result unit * inode) :=
  s ← get_state;
  x ← get_block_group (block_group_of s n);
  match x with
  | None => lift Undef
  | Some x =>
      r ← fs_read_block (inode_bitmap_block x);
      match r with
      | Err e => ret (Err e, n)
      | Ok bitmap =>
          bitmap ← lift (set_bitmap_bit bitmap (index_of s n) false);
          r ← fs_write_block (inode_bitmap_block x) bitmap;
          match r with
          | Err e => ret (Err e, n)
          | Ok _ =>
              _ ← free_all_blocks stack_bytes n;
              _ ← change_group (block_group_of s n) (λ x, set_free_inodes (free_inodes x + 1) x);
              _ ← (if is_directory (_metadata n) then change_group (block_group_of s n) (λ x, set_num_directories (num_directories x - 1) x) else ret tt);
              _ ← write_group stack_bytes (block_group_of s n);
              r ← fs_read_block (entry_block s x n);
              buf ← buffer r;
              _ ← fs_write_block (entry_block s x n) (put32 buf (entry_offset s n + dtime_offset) 0x42069);
              _ ← change_sb_free_inodes 1;
              _ ← write_superblock;
              ret (Ok tt, with_exists n false)
          end
      end
  end.

(** [Ext2Inode::~Ext2Inode]. *)
Definition destroy (n : inode) : eff D unit := if _dirty n && _exists n then '(_, _) ← write_to_disk stack_bytes n; ret tt else ret tt.

(** One link less; the inode goes with its last one. *)
Definition reduce_hardlink_count (i : Z) (f : inodes) : eff D inodes :=
  n ← the_inode i f;
  n ← write_inode_entry (with_raw n (put16 (raw n) 26 (hard_links (raw n) - 1)));
  let f := put_inode n f in
  if hard_links (raw n) =? 0 then
    let f := remove_cached_inode i f in
    '(_, n) ← free_inode n;
    ret (put_inode n f)
  else ret f.

(** ** Directory entries *)

Definition create_entry (stack : list Z) (i : Z) (name : list Z) (mode uid gid : Z) (f : inodes) : eff D (result Z * inodes) :=
  if (zlength name =? 0) || (NAME_MAXLEN <? zlength name) then ret (Err (- ENAMETOOLONG), f)
  else
    '(r, f) ← allocate_inode mode uid gid 0 i f;
    match r with
    | Err e => ret (Err e, f)
    | Ok c =>
        f ← (if IS_DIR mode then n ← the_inode i f; n ← write_inode_entry (with_raw n (put16 (raw n) 26 (hard_links (raw n) + 1))); ret (put_inode n f) else ret f);
        n ← the_inode i f;
        child ← the_inode c f;
        '(r, n, child) ← add_entry stack_bytes stack n name child;
        let f := put_inode child (put_inode n f) in
        match r with
        | Err e => '(_, child) ← free_inode child; ret (Err e, put_inode child f)
        | Ok _ => ret (Ok c, f)
        end
    end.

(** The entries of a directory. *)
Definition all_entries (acc : list dirent) (e : dirent) : list dirent * bool := (acc ++ [e], false).

(** The loop of [try_remove_dir]: every directory but this one that has an entry here, which is the parent, loses a link. *)
Fixpoint unlink_parents (entries : list dirent) (i : Z) (f : inodes) : eff D inodes :=
  match entries with
  | [] => ret f
  | e :: entries =>
      f ← (if d_id e =? i then ret f else '(_, f) ← get_inode (d_id e) f; reduce_hardlink_count (d_id e) f);
      unlink_parents entries i f
  end.

Definition try_remove_dir (stack : list Z) (i : Z) (f : inodes) : eff D (result unit * inodes) :=
  n ← the_inode i f;
  if negb (is_directory (_metadata n)) then ret (Err (- ENOTDIR), f)
  else
    entries ← iterate_entries all_entries stack n [];
    if 2 <? zlength entries then ret (Err (- ENOTEMPTY), f)
    else
      f ← unlink_parents entries i f;
      n ← the_inode i f;
      n ← write_inode_entry (with_raw n (put16 (raw n) 26 0));
      let f := remove_cached_inode i (put_inode n f) in
      '(_, n) ← free_inode n;
      ret (Ok tt, put_inode n f).

(** The last entry with the name, and its place. *)
Fixpoint last_named (name : list Z) (entries : list dirent) (i : nat) (found : option (nat * dirent)) : option (nat * dirent) :=
  match entries with
  | [] => found
  | e :: entries => last_named name entries (S i) (if same_name name (d_name e) then Some (i, e) else found)
  end.

Definition remove_entry (stack : list Z) (i : Z) (name : list Z) (f : inodes) : eff D (result unit * inodes) :=
  n ← the_inode i f;
  if negb (is_directory (_metadata n)) then ret (Err (- ENOTDIR), f)
  else if (zlength name =? 0) || (NAME_MAXLEN <? zlength name) then ret (Err (- ENAMETOOLONG), f)
  else
    entries ← iterate_entries all_entries stack n [];
    match last_named name entries 0 None with
    | None => ret (Err (- ENOENT), f)
    | Some (k, e) =>
        let c := d_id e in
        '(child, f) ← get_inode c f;
        '(r, f) ← (if is_directory (_metadata child) then try_remove_dir stack c f else f ← reduce_hardlink_count c f; ret (Ok tt, f));
        match r with
        | Err e => ret (Err e, f)
        | Ok _ =>
            n ← the_inode i f;
            '(r, n) ← write_directory_entries stack_bytes n (delete k entries);
            let f := put_inode n f in
            match r with
            | Err e => ret (Err e, f)
            | Ok _ => if _dirty n then '(r, n) ← write_to_disk stack_bytes n; ret (r, put_inode n f) else ret (Ok tt, f)
            end
        end
    end.
End create.
