(* ===== verification/Ext2InodeAlloc.v ===== *)
(** * ext2: the inode allocator is correct

    [allocate_inode] gives a number that was free and marks it, [free_inode] gives it and the
    blocks of the inode back; the inode bitmaps and the counts of free inodes stay in step. *)

From stdpp Require Import base numbers list list_numbers option gmap sets.
From S2P Require Import Prelude.
From S2P Require Import ByteBuf.
From S2P Require Import FileBlocks.
From S2P Require Import Ext2.
From S2P Require Import Ext2Inv.
From S2P Require Import Ext2Alloc.
From S2P Require Import Ext2Inode.
From S2P Require Import Ext2Tree.
From S2P Require Import Ext2Pointers.
From S2P Require Import Ext2Entry.
From S2P Require Import Ext2File.
From S2P Require Import Ext2FileOk.
From S2P Require Import Ext2Trunc.
From S2P Require Import Ext2Shrink.
From S2P Require Import Ext2Dir.
From S2P Require Import Ext2Create.

Local Open Scope Z_scope.

Implicit Types (v : list Z) (n : inode) (U I : gset Z) (g i : Z) (L : layout).

(** ** Running a part of an operation *)

Lemma run_bind_inv {D A B} (m : eff D A) (f : A → eff D B) s Q : run (m ≫= f) s Q → run m s (λ a s', run (f a) s' Q).
Proof. intros (b&s2&E&HQ). unfold mbind, eff_bind in E. destruct (m s) as [[a s1]| | |] eqn:Em; try done. exists a, s1. split; [done|]. by exists b, s2. Qed.

(** The goal starts with the operations that [H] runs. *)
Ltac wp_chain H :=
  repeat (apply run_bind_inv in H; eapply run_mono; [exact H|]; clear H; let a := fresh "a" in let s := fresh "st" in intros a s H; cbn beta in H; apply run_bind);
  eapply run_mono; [exact H|]; clear H.

(** ** Other inodes in use *)

(** The layout with other inodes in use, and other counts. *)
Definition relayout L I (G : Z → Z) (k : Z) : layout := mk_layout (l_total L) (l_bpg L) (l_ipg L) (l_groups L) I G k.

Lemma relayout_ok L I G k : layout_ok L → layout_ok (relayout L I G k).
Proof. intros []. by split. Qed.

Lemma base_relayout {D} `{ByteFileSpec D} (s : ext2 D) v L I G k : fs_base s v L → fs_base s v (relayout L I G k).
Proof. intros []. by split. Qed.

Lemma inv_relayout {D} `{ByteFileSpec D} (s : ext2 D) v L I G k U : fs_inv s v L U → inodes_inv (superblock s) v (relayout L I G k) → fs_inv s v (relayout L I G k) U.
Proof. intros [] ?. split; try done. by apply base_relayout. Qed.

Lemma file_ok_relayout L I G k v U n : file_ok L v U n → file_ok (relayout L I G k) v U n.
Proof. intros [[] [] ?]. split; [by split|by split|done]. Qed.

(** The group of an inode and its place there. *)
Definition igroup L i : Z := (i - 1) / l_ipg L.
Definition iindex L i : Z := (i - 1) mod l_ipg L.

Lemma inode_number_at L g i : layout_ok L → 0 ≤ g < ng L → 0 ≤ i < l_ipg L → inode_number L (g * l_ipg L + 1 + i) ∧ igroup L (g * l_ipg L + 1 + i) = g ∧ iindex L (g * l_ipg L + 1 + i) = i.
Proof.
  intros HL Hg Hi. pose proof (lo_ipg L HL). unfold inode_number, igroup, iindex. replace (g * l_ipg L + 1 + i - 1) with (i + g * l_ipg L) by lia. split_and!; [nia|nia| |].
  - rewrite Z.div_add, Z.div_small by lia. lia.
  - rewrite Z.mod_add by lia. by apply Z.mod_small.
Qed.

Lemma inode_at L i : layout_ok L → inode_number L i → i = igroup L i * l_ipg L + 1 + iindex L i.
Proof. intros HL Hi. pose proof (lo_ipg L HL). unfold igroup, iindex. pose proof (Z.div_mod (i - 1) (l_ipg L) ltac:(lia)). lia. Qed.

(** ** Counting free inodes *)

(** One inode more, or one less, in use. *)
Definition mark (used : bool) I i : gset Z := if used then I ∪ {[i]} else I ∖ {[i]}.
Definition step (used : bool) : Z := if used then -1 else 1.

Definition group_count (G : Z → Z) g (k : Z) : Z → Z := λ g', if decide (g' = g) then k else G g'.

Lemma count_mark (used : bool) I i l : NoDup l → i ∈ l → bool_decide (i ∈ I) = negb used → count_free l (mark used I i) = count_free l I + step used.
Proof. intros Hn Hl HI. destruct used; cbn in *; [apply bool_decide_eq_false in HI; rewrite count_add by done; lia|apply bool_decide_eq_true in HI; by rewrite count_remove]. Qed.

Lemma elem_mark (used : bool) I i j : j ∈ mark used I i ↔ if used then j ∈ I ∨ j = i else j ∈ I ∧ j ≠ i.
Proof. destruct used; cbn; set_solver. Qed.

Lemma mark_other (used : bool) I i j : j ≠ i → j ∈ I ↔ j ∈ mark used I i.
Proof. destruct used; cbn; set_solver. Qed.

Lemma group_inodes_in L i : layout_ok L → inode_number L i → i ∈ group_inodes L (igroup L i) ∧ 0 ≤ igroup L i < ng L.
Proof.
  intros HL Hi. destruct (inode_group L HL i Hi) as [Hg Hm]. split; [|done]. apply elem_of_seqZ. pose proof (inode_at L i HL Hi) as E. unfold igroup, iindex in *. lia.
Qed.

Lemma group_inodes_apart L g i : layout_ok L → 0 ≤ g → i ∈ group_inodes L g → igroup L i = g.
Proof.
  intros HL Hg Hi%elem_of_seqZ. pose proof (lo_ipg L HL). unfold igroup. replace (i - 1) with ((i - 1 - g * l_ipg L) + g * l_ipg L) by lia. rewrite Z.div_add, Z.div_small by lia. lia.
Qed.

(** The layout after the inode has been taken or given back. *)
Definition marked (used : bool) L i : layout :=
  relayout L (mark used (l_inodes L) i) (group_count (l_group_inodes L) (igroup L i) (l_group_inodes L (igroup L i) + step used)) (l_sb_inodes L + step used).

Lemma counts_mark (used : bool) L i : layout_ok L → counts_ok L → inode_number L i → bool_decide (i ∈ l_inodes L) = negb used →
  counts_ok (marked used L i).
Proof.
  intros HL [Hsb Hgr] Hi HI. destruct (group_inodes_in L i HL Hi) as [Hin Hg]. unfold marked. split.
  - cbn. rewrite Hsb. unfold tif. symmetry. apply (count_mark used (l_inodes L) i); [apply NoDup_seqZ|apply elem_of_seqZ; unfold inode_number in Hi; unfold ng in *; cbn; lia|done].
  - intros g Hg'. cbn [l_group_inodes relayout]. unfold group_count. destruct (decide (g = igroup L i)) as [->|Hne].
    + rewrite Hgr by done. symmetry. apply (count_mark used (l_inodes L) i); [apply NoDup_seqZ|done|done].
    + rewrite Hgr by done. apply count_free_ext. intros j Hj. apply mark_other. intros ->. apply Hne. symmetry. apply (group_inodes_apart L g i); [done|lia|done].
Qed.

Lemma fic_range L g : layout_ok L → 0 ≤ fic L g ≤ 8192.
Proof. intros HL. pose proof (count_free_le (group_inodes L g) (l_inodes L)) as Hc. unfold group_inodes in Hc. rewrite length_seqZ in Hc. pose proof (lo_ipg L HL). unfold fic, group_inodes. lia. Qed.

Lemma tif_range L : layout_ok L → 0 ≤ tif L < 2 ^ 31.
Proof. intros HL. pose proof (count_free_le (seqZ 1 (ng L * l_ipg L)) (l_inodes L)) as Hc. rewrite length_seqZ in Hc. pose proof (lo_inodes L HL). unfold tif. pose proof (lo_ng L HL). pose proof (lo_ipg L HL). nia. Qed.

Lemma set_inodes_range k d (x : group) : group_range x → group_range (set_num_directories d (set_free_inodes k x)).
Proof. intros (?&?&?&?&?&?). unfold group_range. cbn. split_and!; try lia; unfold u16; apply Z.mod_pos_bound; lia. Qed.

Lemma set_num_same k (x : group) : group_range x → set_num_directories (num_directories x) (set_free_inodes k x) = set_free_inodes k x.
Proof. intros (_&_&_&_&_&Hd). unfold set_num_directories. by rewrite u16_id. Qed.

(** ** New inodes *)

(** A mode of a regular file, a socket or a pipe. *)
Definition plain_mode (mode : Z) : bool :=
  negb (IS_DIR mode) && negb (Z.land mode 0xF000 =? MODE_CHAR_DEVICE) && negb (Z.land mode 0xF000 =? MODE_BLOCK_DEVICE) && negb (Z.land mode 0xF000 =? MODE_SYMLINK).

Lemma plain_mode_spec mode : plain_mode mode = true → IS_DIR mode = false ∧ (∀ m, Ext2Inode.mode m = mode → is_device m = false) ∧ (∀ m, Ext2Inode.mode m = mode → is_symlink m = false).
Proof.
  unfold plain_mode. rewrite !andb_true_iff, !negb_true_iff. intros (((?&?)&?)&?). split_and!; [done| |]; intros m Em; unfold is_device, is_symlink, mode_type; rewrite Em; [by apply orb_false_iff|done].
Qed.

(** The inode of a new file. *)
Record fresh_inode i mode uid gid n : Prop := {
  fr_id : id n = i;
  fr_blocks : block_pointers n = [];
  fr_pointers : pointer_blocks n = [];
  fr_metadata : _metadata n = mk_metadata uid gid mode 0 i 0 0;
  fr_links : hard_links (raw n) = 1;
  fr_dirty : _dirty n = false;
}.

Lemma new_raw_spec mode uid gid : 0 ≤ mode < 2 ^ 16 → 0 ≤ uid < 2 ^ 16 → 0 ≤ gid < 2 ^ 16 → let r := new_raw mode uid gid 0 in
  zlength r = 128 ∧ bytes r ∧ raw_mode r = mode ∧ raw_uid r = uid ∧ raw_gid r = gid ∧ raw_size r = 0 ∧ hard_links r = 1 ∧ ∀ o, 28 ≤ o → get32 r o = 0.
Proof.
  intros Hm Hu Hg r. unfold r, new_raw, sizeof_raw, raw_mode, raw_uid, raw_gid, raw_size, hard_links. set (r0 := zeroes 128). assert (zlength r0 = 128) as L0 by (apply length_zeroes; lia).
  set (r1 := put16 r0 0 mode). assert (zlength r1 = 128) as L1 by (unfold r1; rewrite length_put16; lia). set (r2 := put32 r1 4 0). assert (zlength r2 = 128) as L2 by (unfold r2; rewrite length_put32; lia).
  set (r3 := put16 r2 2 uid). assert (zlength r3 = 128) as L3 by (unfold r3; rewrite length_put16; lia). set (r4 := put16 r3 24 gid). assert (zlength r4 = 128) as L4 by (unfold r4; rewrite length_put16; lia). split_and!.
  - rewrite length_put16; lia.
  - unfold r4, r3, r2, r1. do 3 apply bytes_put16. apply bytes_put32, bytes_put16, bytes_zeroes.
  - rewrite get16_put16_other by lia. unfold r4. rewrite get16_put16_other by lia. unfold r3. rewrite get16_put16_other by lia. unfold r2. rewrite get16_put32_other by lia. unfold r1. rewrite get16_put16 by lia. by apply u16_id.
  - rewrite get16_put16_other by lia. unfold r4. rewrite get16_put16_other by lia. unfold r3. rewrite get16_put16 by lia. by apply u16_id.
  - rewrite get16_put16_other by lia. unfold r4. rewrite get16_put16 by lia. by apply u16_id.
  - rewrite get32_put16_other by lia. unfold r4. rewrite get32_put16_other by lia. unfold r3. rewrite get32_put16_other by lia. unfold r2. by rewrite get32_put32 by lia.
  - by rewrite get16_put16 by lia.
  - intros o Ho. rewrite get32_put16_other by lia. unfold r4. rewrite get32_put16_other by lia. unfold r3. rewrite get32_put16_other by lia. unfold r2. rewrite get32_put32_other by lia. unfold r1. rewrite get32_put16_other by lia. apply get32_zeroes. lia.
Qed.

(** ** Groups stay in memory *)

Create HintDb keeps.

Section loaded.
Context {D : Type} `{ByteFile D}.

(** The operation removes no group from memory. *)
Definition keeps_groups {A} (m : eff D A) : Prop := ∀ s a s', m s = Done (a, s') → dom (block_groups s) ⊆ dom (block_groups s').

Lemma keeps_bind {A B} (m : eff D A) (f : A → eff D B) : keeps_groups m → (∀ a, keeps_groups (f a)) → keeps_groups (m ≫= f).
Proof. intros Hm Hf s b s'. unfold mbind, eff_bind. destruct (m s) as [[a s1]| | |] eqn:E; try done. intros E'. etrans; [by eapply Hm|by eapply Hf]. Qed.

Lemma keeps_ret {A} (a : A) : keeps_groups (ret a).
Proof. by intros s b s' [= <- <-]. Qed.

Lemma keeps_lift {A} (o : outcome A) : keeps_groups (lift o).
Proof. intros s b s'. unfold lift. destruct o; cbn; try done. by intros [= <- <-]. Qed.

Lemma keeps_state : keeps_groups (get_state (D := D)).
Proof. by intros s b s' [= <- <-]. Qed.

Lemma keeps_dev {A} (o : ext2 D → outcome (A * D)) : keeps_groups (λ s, '(r, d) ← o s; Done (r, with_dev s d)).
Proof. intros s a s'. destruct (o s) as [[r d]| | |]; cbn; try done. by intros [= <- <-]. Qed.

Lemma keeps_sb f : keeps_groups (modify (λ s, with_superblock s (f s) : ext2 D)).
Proof. by intros s a s' [= <- <-]. Qed.

Ltac keeps := repeat match goal with
  | |- ∀ _, _ => intro
  | |- keeps_groups (match ?x with _ => _ end) => destruct x
  | |- keeps_groups (_ ≫= _) => apply keeps_bind
  | |- keeps_groups _ => solve [eauto with keeps | apply keeps_dev]
  end.
#[local] Hint Resolve keeps_ret keeps_lift keeps_state keeps_sb : keeps.

Lemma keeps_change g f : keeps_groups (change_group g f : eff D unit).
Proof.
  intros s a s'. unfold change_group, the_group, modify, get_state, mbind, eff_bind. destruct (block_groups s !! g) as [x|]; [|done]. intros [= <- <-]. cbn. rewrite dom_insert. set_solver.
Qed.

Lemma keeps_superblock : keeps_groups (write_superblock : eff D unit).
Proof. intros s a s'. unfold write_superblock. destruct (write_logical_blocks _ _ _) as [[r d]| | |]; cbn; try done. by intros [= <- <-]. Qed.

Lemma keeps_get g : keeps_groups (get_block_group g : eff D (option group)).
Proof.
  unfold get_block_group, read_block_group_raw. apply keeps_bind; [apply keeps_state|]. intros s. destruct (_ <=? _); [apply keeps_ret|]. destruct (block_groups s !! g); [apply keeps_ret|].
  apply keeps_bind; [unfold buffer; keeps|].
  intros d. apply keeps_bind; [|intros; apply keeps_ret]. intros s1 a s2 [= <- <-]. cbn. rewrite dom_insert. set_solver.
Qed.

#[local] Hint Resolve keeps_change keeps_superblock keeps_get : keeps.

Lemma keeps_write_group (stack_bytes : list Z) g : keeps_groups (write_group stack_bytes g : eff D unit).
Proof. unfold write_group, the_group, write_block_group_raw. keeps. Qed.

#[local] Hint Resolve keeps_write_group : keeps.

Lemma keeps_free_list (stack_bytes bs : list Z) : keeps_groups (free_block_list stack_bytes bs : eff D unit).
Proof.
  induction bs as [|b bs IH]; cbn [free_block_list]; [apply keeps_ret|]. apply keeps_bind; [|done]. unfold free_block, change_sb_free_blocks.
  keeps.
Qed.

Lemma run_keeps {A} (m : eff D A) s (Q : A → ext2 D → Prop) g : keeps_groups m → is_Some (block_groups s !! g) → run m s Q → run m s (λ a s', Q a s' ∧ is_Some (block_groups s' !! g)).
Proof. intros Hk Hg (a&s'&E&HQ). exists a, s'. split_and!; [done|done|]. apply elem_of_dom, (Hk s a s' E), elem_of_dom, Hg. Qed.
End loaded.

Section inodes.
Context {D : Type} `{ByteFileSpec D}.
Context (L : layout) (HL : layout_ok L).
Implicit Types (s : ext2 D).

(** What an operation on the inode [i] keeps, when the blocks [l] are given back. *)
Definition kept U i (l : list Z) v v' : Prop :=
  (∀ b, data_block L U b → b ∉ l → blk 1024 v' b = blk 1024 v b) ∧ ∀ j, inode_number L j → j ≠ i → entry L v' j = entry L v j.

Lemma kept_frame U i v v' : frame L U v v' → (∀ b, b ∈ meta L → b ∈ U) → kept U i [] v v'.
Proof. intros Hf HU. split; [intros; by apply (frame_other L HL U)|intros; by apply (frame_entry L HL U)]. Qed.

(** ** The bitmap *)

(** A block that holds no descriptor changes: what else the invariant says of it is shown apart. *)
Lemma inv_write_bitmap s v U g (l : list Z) I s' : fs_inv s v L U → 0 ≤ g < ng L → zlength l = 1024 → stored s L (splice v (ib L g * 1024) l) s' →
  (∀ i, 0 ≤ i < l_ipg L → bit l i = bool_decide (g * l_ipg L + 1 + i ∈ I)) → (∀ j, igroup L j ≠ g → j ∈ l_inodes L ↔ j ∈ I) →
  fs_inv s' (splice v (ib L g * 1024) l) (relayout L I (l_group_inodes L) (l_sb_inodes L)) U ∧ frame L U v (splice v (ib L g * 1024) l).
Proof.
  intros Hi Hg Hl [[d ->] Hs'] Hbits Hoth. pose proof (fb_len _ _ _ (fi_base _ _ _ _ Hi)) as Hlen. pose proof (dtb_pos L HL) as Hdt. destruct (ib_apart L HL g g Hg Hg) as [Hr _]. set (v' := splice v (ib L g * 1024) l) in *.
  assert (∀ g', 0 ≤ g' < ng L → gdesc v' g' = gdesc v g') as Hgd.
  { intros g' Hg'. assert (32 * ng L ≤ 1024 * dtb L). { unfold dtb. pose proof (Z.div_mod (ng L * 32 + 1023) 1024 ltac:(lia)). pose proof (Z.mod_pos_bound (ng L * 32 + 1023) 1024 ltac:(lia)). lia. }
    apply gdesc_other; lia. }
  assert (∀ b, 0 ≤ b → b ≠ ib L g → blk 1024 v' b = blk 1024 v b) as Hblk by (intros b ? ?; apply blk_other; lia).
  split; [|intros b Hb Hb0 Hv; apply Hblk; [done|]; intros ->; apply Hv; right; exists g; tauto]. split; try done; try apply Hi.
  - by apply base_relayout.
  - unfold v'. rewrite slice_splice_other by lia. apply Hi.
  - intros g' Hg'. rewrite Hgd by done. by apply (fi_group _ _ _ _ Hi).
  - intros g' x Hx. destruct (fi_loaded _ _ _ _ Hi g' x Hx) as [Hg' ->]. split; [done|]. by rewrite Hgd.
  - intros g' i Hg' Hi'. destruct (ib_apart L HL g g' Hg Hg'). pose proof (lo_range L HL (bb L g') (bb_meta L g' Hg')). change (bb (relayout _ _ _ _) g') with (bb L g'). rewrite Hblk by lia. by apply (fi_bits _ _ _ _ Hi).
  - split; [apply Hi|intros g' Hg'; rewrite Hgd by done; by apply (in_group _ _ _ (fi_inodes _ _ _ _ Hi))|]. intros g' i Hg' Hi'. change (ib (relayout _ _ _ _) g') with (ib L g'). cbn [l_ipg l_inodes relayout].
    destruct (decide (g' = g)) as [->|Hne].
    + assert (blk 1024 v' (ib L g) = l) as -> by (unfold v'; rewrite blk_splice by first [done | lia | split; lia]; by rewrite decide_True). by apply Hbits.
    + assert (ib L g' ≠ ib L g) as Hib by (intros E; apply Hne, (group_meta_apart L g' g (ib L g) HL Hg' Hg); [rewrite <-E|]; right; by left). pose proof (lo_range L HL _ (ib_meta L g' Hg')). rewrite Hblk by lia.
      rewrite (in_bits _ _ _ (fi_inodes _ _ _ _ Hi)) by done. apply bool_decide_ext, Hoth. destruct (inode_number_at L g' i HL Hg' Hi') as (_&->&_). done.
Qed.
(** The bit of the inode [i] is set or cleared. *)
Lemma write_bitmap_run s v U i (used : bool) : fs_inv s v L U → inode_number L i → ∃ l, set_bitmap_bit (blk 1024 v (ib L (igroup L i))) (iindex L i) used = Done l ∧
  run (fs_write_block (ib L (igroup L i)) l) s (λ r s', r = Ok tt ∧ block_groups s' = block_groups s ∧ ∃ v', fs_inv s' v' (relayout L (mark used (l_inodes L) i) (l_group_inodes L) (l_sb_inodes L)) U ∧ frame L U v v' ∧
    ∀ g, 0 ≤ g < ng L → gdesc v' g = gdesc v g).
Proof.
  intros Hi Hnum. pose proof (fi_base _ _ _ _ Hi) as Hs. destruct (inode_group L HL i Hnum) as [Hg Hm]. fold (igroup L i) in Hg. fold (iindex L i) in Hm. pose proof (lo_ipg L HL). destruct (ib_apart L HL _ _ Hg Hg) as [Hr _]. pose proof (dtb_pos L HL).
  pose proof (length_blk 1024 v _ ltac:(lia) (base_in_file s v L (ib L (igroup L i)) Hs ltac:(lia))) as Hbl.
  destruct (set_bitmap_bit_ok (blk 1024 v (ib L (igroup L i))) (iindex L i) used (bytes_slice _ _ _ (fb_bytes _ _ _ Hs))) as (l&E&Hl&Hlb&Hbits); [lia|]. exists l. split; [done|].
  wp_apply (fs_write_block_run s v L (ib L (igroup L i)) l); [done|lia|lia|done|]. intros r s' (->&Hst). split; [done|]. split; [by destruct Hst as [[d ->] _]|]. eexists.
  destruct (inv_write_bitmap s v U (igroup L i) l (mark used (l_inodes L) i) s' Hi Hg ltac:(lia) Hst) as [Hi' Hf].
  - intros j Hj. rewrite Hbits by lia. case_decide as Ej.
    + subst j. rewrite <-inode_at by done. symmetry. destruct used; cbn; [apply bool_decide_eq_true_2; set_solver|apply bool_decide_eq_false_2; set_solver].
    + rewrite (in_bits _ _ _ (fi_inodes _ _ _ _ Hi)) by done. apply bool_decide_ext, mark_other. destruct (inode_number_at L (igroup L i) j HL Hg Hj) as (_&_&E'). congruence.
  - intros j Hj. apply mark_other. congruence.
  - split_and!; [done|done|]. intros g Hg'. pose proof (fb_len _ _ _ Hs). assert (32 * ng L ≤ 1024 * dtb L). { unfold dtb. pose proof (Z.div_mod (ng L * 32 + 1023) 1024 ltac:(lia)). pose proof (Z.mod_pos_bound (ng L * 32 + 1023) 1024 ltac:(lia)). lia. }
    apply gdesc_other; lia.
Qed.

(** ** Finding a free inode *)

Lemma free_inode_group_run fuel v U : ∀ s g, fs_inv s v L U → 0 ≤ g → g + Z.of_nat fuel = ng L →
  run (free_inode_group fuel g) s (λ r s', fs_inv s' v L U ∧
    match r with Some g' => g ≤ g' < ng L ∧ 0 < l_group_inodes L g' ∧ block_groups s' !! g' = Some (gdesc v g') | None => ∀ g', g ≤ g' < ng L → l_group_inodes L g' ≤ 0 end).
Proof.
  induction fuel as [|fuel IH]; intros s g Hi Hg Hf; cbn [free_inode_group]; wp; [split; [done|]; lia|]. wp_apply (get_block_group_run L HL s v U g); [done|lia|]. intros r s1 (->&Hi1&Hx). cbn beta iota.
  rewrite (in_group _ _ _ (fi_inodes _ _ _ _ Hi1) g) by lia. destruct (Z.ltb_spec 0 (l_group_inodes L g)); [wp; split_and!; (done || lia)|].
  wp_apply (IH s1 (g + 1)); [done|lia|lia|]. intros [g'|] s2 (Hi2&Hr); (split; [done|]); [split_and!; [lia|lia|tauto..]|]. intros g' Hg'. destruct (decide (g' = g)) as [->|]; [lia|]. apply Hr. lia.
Qed.

Lemma find_clear_bit_spec fuel (l : list Z) : ∀ i, 0 ≤ i → i + Z.of_nat fuel ≤ 8 * zlength l → ∃ r, find_clear_bit fuel i l = Done r ∧
  match r with Some k => i ≤ k < i + Z.of_nat fuel ∧ bit l k = false | None => ∀ k, i ≤ k < i + Z.of_nat fuel → bit l k = true end.
Proof.
  induction fuel as [|fuel IH]; intros i Hi Hl; cbn [find_clear_bit]; [exists None; split; [done|]; lia|]. rewrite get_bitmap_bit_ok by lia. cbn [mbind outcome_bind]. destruct (bit l i) eqn:E; [|exists (Some i); split_and!; (done || lia)].
  destruct (IH (i + 1)) as (r&->&Hr); [lia|lia|]. exists r. split; [done|]. destruct r as [k|]; [split; [lia|tauto]|]. intros k Hk. destruct (decide (k = i)) as [->|]; [done|]. apply Hr. lia.
Qed.

Lemma count_free_zero (l : list Z) U : count_free l U = 0 ↔ ∀ b, b ∈ l → b ∈ U.
Proof.
  unfold count_free. split.
  - intros E b Hb. destruct (decide (b ∈ U)) as [|Hn]; [done|]. pose proof (proj2 (elem_free_of b l U) (conj Hb Hn)) as Hin. destruct (free_of l U); [by apply elem_of_nil in Hin|done].
  - intros Hall. destruct (free_of l U) as [|b l'] eqn:E; [done|]. assert (b ∈ free_of l U) as [Hb Hn]%elem_free_of by (rewrite E; by left). by destruct Hn; apply Hall.
Qed.

(** There is a free inode if some group says so. *)
Lemma free_inode_exists g : counts_ok L → 0 ≤ g < ng L → 0 < l_group_inodes L g → 0 < tif L ∧ ∃ k, 0 ≤ k < l_ipg L ∧ g * l_ipg L + 1 + k ∉ l_inodes L.
Proof.
  intros [Hsb Hgr] Hg Hpos. rewrite Hgr in Hpos by done. assert (∃ k, 0 ≤ k < l_ipg L ∧ g * l_ipg L + 1 + k ∉ l_inodes L) as (k&Hk&HI).
  { destruct (decide (Exists (λ j, j ∉ l_inodes L) (group_inodes L g))) as [(j&Hj&HI)%Exists_exists|Hn].
    - exists (j - (g * l_ipg L + 1)). apply elem_of_seqZ in Hj. split; [lia|]. by replace (g * l_ipg L + 1 + (j - (g * l_ipg L + 1))) with j by lia.
    - exfalso. assert (fic L g = 0); [|lia]. apply count_free_zero. intros b Hb. destruct (decide (b ∈ l_inodes L)); [done|]. destruct Hn. apply Exists_exists. by exists b. }
  split; [|by exists k]. pose proof (tif_range L HL). assert (tif L ≠ 0); [|lia]. intros E. apply HI, (proj1 (count_free_zero _ _) E). destruct (inode_number_at L g k HL Hg Hk) as (Hn&_). unfold inode_number in Hn. apply elem_of_seqZ. lia.
Qed.

Lemma no_free_inode : counts_ok L → (∀ g, 0 ≤ g < ng L → l_group_inodes L g ≤ 0) → tif L = 0.
Proof.
  intros [Hsb Hgr] Hz. apply count_free_zero. intros i Hi%elem_of_seqZ. assert (inode_number L i) as Hn by (unfold inode_number; lia). destruct (group_inodes_in L i HL Hn) as [Hin Hg].
  apply (proj1 (count_free_zero (group_inodes L (igroup L i)) (l_inodes L))); [|done]. pose proof (Hz _ Hg) as Hle. rewrite Hgr in Hle by done. pose proof (fic_range L (igroup L i) HL). unfold fic in *. lia.
Qed.
(** ** The descriptor and the superblock *)

(** The place of a descriptor is before every other structure that the invariant mentions. *)
Lemma descriptor_end g : 0 ≤ g < ng L → 2048 + 32 * g + 32 ≤ (2 + dtb L) * 1024.
Proof. intros Hg. unfold dtb. pose proof (Z.div_mod (ng L * 32 + 1023) 1024 ltac:(lia)). pose proof (Z.mod_pos_bound (ng L * 32 + 1023) 1024 ltac:(lia)). lia. Qed.

(** The entry of the inode gets a time, and no other is touched. *)
Lemma write_dtime_run s v U n (x : group) s0 v0 : fs_inv s v L U → fs_base s0 v0 L → inode_number L (id n) → inode_table_block x = it L (igroup L (id n)) →
  run (r ← fs_read_block (entry_block s0 x n); buf ← buffer r; fs_write_block (entry_block s0 x n) (put32 buf (entry_offset s0 n + dtime_offset) 0x42069)) s
    (λ _ s', ∃ v', fs_inv s' v' L U ∧ kept U (id n) [] v v' ∧ block_groups s' = block_groups s).
Proof.
  intros Hi Hs0 Hnum Hit. pose proof (fi_base _ _ _ _ Hi) as Hs. destruct (inode_block_range L HL (id n) Hnum) as (Hr&Hm&Hv). pose proof (inode_offset_range L (id n) Hnum) as Ho. pose proof (dtb_pos L HL). pose proof (fb_len _ _ _ Hs) as Hlen.
  destruct (entry_place L HL s0 v0 n Hs0 Hnum) as (_&->&Heb). rewrite Heb by done. wp. wp_apply (fs_read_block_run s v L (inode_block L (id n))); [done|lia|]. intros r s1 (->&Hst). wp.
  set (buf := put32 _ _ _). assert (zlength (blk 1024 v (inode_block L (id n))) = 1024) as Hbl by (apply length_blk; [lia|split; lia]). assert (zlength buf = 1024) as Hbufl by (unfold buf, dtime_offset; rewrite length_put32; lia).
  wp_apply (fs_write_block_run s1 v L (inode_block L (id n)) buf); [apply Hst|lia|done|apply bytes_put32, bytes_slice, Hs|]. intros r s2 (->&Hst2). eexists. split_and!; [apply (inv_write L HL s1 v U); try done; by apply (inv_stored L s)| |destruct Hst as [[? ->] _], Hst2 as [[? ->] _]; done]. split.
  - intros b Hd _. pose proof (data_block_range L U b Hd). assert (b ≠ inode_block L (id n)) by (intros ->; by apply Hd). apply blk_other; lia.
  - intros j Hj Hne. unfold buf, blk, dtime_offset, put32. pose proof (length_le32 0x42069). rewrite splice_splice by lia. pose proof (blk_range L HL s v j Hs Hj). pose proof (blk_range L HL s v (id n) Hs Hnum). pose proof (inode_addr_apart L HL (id n) j Hnum Hj ltac:(done)).
    unfold entry. apply slice_splice_other; unfold inode_addr in *; lia.
Qed.
Context (stack_bytes : list Z) (stack_len : length stack_bytes = 14%nat) (stack_ok : bytes stack_bytes).

(** The descriptor of a group is written, with another number of free inodes and of directories. *)
Lemma write_inodes_run s v U g (k d : Z) : fs_inv s v L U → 0 ≤ g < ng L → 0 ≤ k < 2 ^ 16 →
  run (write_group stack_bytes g) (with_groups s (<[g := set_num_directories d (set_free_inodes k (gdesc v g))]> (block_groups s)))
    (λ _ s', ∃ v', fs_inv s' v' (relayout L (l_inodes L) (group_count (l_group_inodes L) g k) (l_sb_inodes L)) U ∧ frame L U v v').
Proof.
  intros Hi Hg Hk. pose proof (fi_base _ _ _ _ Hi) as Hs. set (x := set_num_directories d (set_free_inodes k (gdesc v g))). set (s1 := with_groups s _).
  pose proof (gdesc_range v g (fb_bytes _ _ _ Hs)) as Hxr. pose proof (set_inodes_range k d _ Hxr) as Hx. fold x in Hx.
  wp_apply (write_group_run L HL stack_bytes stack_len stack_ok s1 v g x); [by apply base_groups|done|by apply lookup_insert_eq|].
  intros _ s' [[dv ->] Hs']. set (v' := splice _ _ _) in *. exists v'. pose proof (fb_len _ _ _ Hs) as Hlen. pose proof (table_total L HL). pose proof (dtb_pos L HL). pose proof (length_group_bytes stack_bytes x stack_len) as Hgl. pose proof (descriptor_end g Hg).
  assert (gdesc v' g = x) as Egd by (unfold gdesc, v'; rewrite (slice_splice_eq v (2048 + 32 * g)) by lia; by apply group_roundtrip).
  assert (∀ g', 0 ≤ g' < ng L → g' ≠ g → gdesc v' g' = gdesc v g') as Hgd by (intros; apply gdesc_other; lia).
  assert (∀ b, 2 + dtb L ≤ b → blk 1024 v' b = blk 1024 v b) as Hblk by (intros; apply blk_other; lia).
  split; [split; try done; try apply Hi|].
  - by apply base_relayout.
  - unfold v'. rewrite slice_splice_other by lia. apply Hi.
  - intros g' Hg'. destruct (fi_group _ _ _ _ Hi g' Hg') as (?&?&?&?). destruct (decide (g' = g)) as [->|]; [by rewrite Egd|by rewrite Hgd].
  - intros g' y. cbn. intros [[<- <-]|[Hne Hy]]%lookup_insert_Some; [by rewrite Egd|]. destruct (fi_loaded _ _ _ _ Hi g' y Hy) as [Hg' ->]. split; [done|]. by rewrite Hgd.
  - intros g' i Hg' Hi'. change (bb (relayout _ _ _ _) g') with (bb L g'). rewrite Hblk; [by apply (fi_bits _ _ _ _ Hi)|]. apply (table_apart L g'); [done|done|by left].
  - split; [apply Hi| |].
    + intros g' Hg'. cbn [l_group_inodes relayout]. unfold group_count. destruct (decide (g' = g)) as [->|]; [rewrite Egd; by apply u16_id|]. rewrite Hgd by done. by apply (in_group _ _ _ (fi_inodes _ _ _ _ Hi)).
    + intros g' i Hg' Hi'. change (ib (relayout _ _ _ _) g') with (ib L g'). rewrite Hblk; [by apply (in_bits _ _ _ (fi_inodes _ _ _ _ Hi))|]. apply (table_apart L g'); [done|done|right; by left].
  - intros b Hb Hb0 Hv. destruct (decide (b = 0)) as [->|]; [apply blk_other; lia|]. apply Hblk. destruct (decide (b < 2 + dtb L)); [|lia]. exfalso. apply Hv. left. lia.
Qed.

(** The superblock is written, with another number of free inodes. *)
Lemma write_sb_inodes_run s v U (k : Z) : fs_inv s v L U → 0 ≤ l_sb_inodes L + k < 2 ^ 32 →
  run (change_sb_free_inodes k) s (λ _ s1, run write_superblock s1 (λ _ s', ∃ v', fs_inv s' v' (relayout L (l_inodes L) (l_group_inodes L) (l_sb_inodes L + k)) U ∧ frame L U v v')).
Proof.
  intros Hi Hk. pose proof (fi_base _ _ _ _ Hi) as Hs. pose proof (fb_sb_len _ _ _ Hs) as Hl. unfold change_sb_free_inodes. wp. set (s1 := with_superblock s _). pose proof (in_sb _ _ _ (fi_inodes _ _ _ _ Hi)) as Esb.
  assert (fs_base s1 v L) as Hs1.
  { apply base_sb; [done|unfold set_sb_free_inodes; rewrite length_put32; lia|apply bytes_put32, Hs|..].
    - unfold blocks_per_group. unfold set_sb_free_inodes. rewrite get32_put32_other by lia. apply Hs.
    - unfold inodes_per_group, set_sb_free_inodes. rewrite get32_put32_other by lia. apply Hs.
    - unfold inode_size, set_sb_free_inodes. rewrite get16_put32_other by lia. apply Hs. }
  wp_apply (write_superblock_run L HL stack_bytes stack_len s1 v); [done|]. intros _ s' [[dv ->] Hs']. set (v' := splice _ _ _) in *. exists v'. pose proof (fb_len _ _ _ Hs) as Hlen. pose proof (table_total L HL). pose proof (dtb_pos L HL).
  pose proof (fb_sb_len _ _ _ Hs1) as Hl1. assert (∀ g, 0 ≤ g < ng L → gdesc v' g = gdesc v g) as Hgd by (intros; apply gdesc_other; lia). assert (∀ b, 2 ≤ b → blk 1024 v' b = blk 1024 v b) as Hblk by (intros; apply blk_other; lia).
  split; [split; try done; try apply Hi|].
  - by apply base_relayout.
  - change (superblock (with_dev s1 dv)) with (superblock s1). unfold v'. apply (slice_splice_eq v 1024); lia.
  - cbn. unfold sb_free_blocks, set_sb_free_inodes. rewrite get32_put32_other by lia. apply Hi.
  - intros g Hg. rewrite Hgd by done. by apply (fi_group _ _ _ _ Hi).
  - intros g x Hx. destruct (fi_loaded _ _ _ _ Hi g x Hx) as [Hg ->]. split; [done|]. by rewrite Hgd.
  - intros g i Hg Hi'. change (bb (relayout _ _ _ _) g) with (bb L g). pose proof (table_apart L g (bb L g) HL Hg ltac:(by left)). rewrite Hblk by lia. by apply (fi_bits _ _ _ _ Hi).
  - split.
    + cbn. unfold sb_free_inodes, set_sb_free_inodes. rewrite get32_put32 by lia. fold (sb_free_inodes (superblock s)). rewrite Esb. by apply u32_id.
    + intros g Hg. rewrite Hgd by done. by apply (in_group _ _ _ (fi_inodes _ _ _ _ Hi)).
    + intros g i Hg Hi'. change (ib (relayout _ _ _ _) g) with (ib L g). pose proof (table_apart L g (ib L g) HL Hg ltac:(right; by left)). rewrite Hblk by lia. by apply (in_bits _ _ _ (fi_inodes _ _ _ _ Hi)).
  - intros b Hb Hb0 Hv. destruct (decide (b = 0)) as [->|]; [apply blk_other; lia|]. apply Hblk. destruct (decide (b < 2)); [|lia]. exfalso. apply Hv. left. lia.
Qed.


(** ** A new inode *)

Lemma new_inode_run s v U i mode uid gid parent : fs_inv s v L U → inode_number L i → plain_mode mode = true → 0 ≤ mode < 2 ^ 16 → 0 ≤ uid < 2 ^ 16 → 0 ≤ gid < 2 ^ 16 →
  run (new_inode stack_bytes i (new_raw mode uid gid 0) [] parent) s (λ n s', ∃ v', fs_inv s' v' L U ∧ kept U i [] v v' ∧ file_ok L v' U n ∧ fresh_inode i mode uid gid n).
Proof.
  intros Hi Hnum Hmode Hm Hu Hg. destruct (new_raw_spec mode uid gid Hm Hu Hg) as (Hl&Hb&Emo&Eu&Eg&Es&Eh&Ep). destruct (plain_mode_spec mode Hmode) as (Edir&Edev&Esym).
  unfold new_inode, create_metadata. cbn [raw]. rewrite Emo, Eu, Eg, Es, Edir. cbn [id]. rewrite Edev by done. set (n := with_metadata _ _). wp.
  assert (inode_ok L U n) as Hn.
  { split; try done; [split_and!; try done; by apply Edev|unfold inline_symlink; cbn; by rewrite Esym|by apply NoDup_nil_2|by intros x ?%elem_of_nil]. }
  wp_apply (write_to_disk_run L HL stack_bytes stack_len stack_ok s v U n [] [] []); [done|done|done| |].
  - assert (∀ k, part n k = []) as Hp by (intros k; rewrite part_eq; unfold chunk; cbn; by rewrite drop_nil, take_nil). split; rewrite ?Hp; try done; [by left..|apply NoDup_nil_2|by intros x ?%elem_of_nil|change (zlength (@nil Z)) with 0; rewrite !nodes_zero; cbn [app length Z.of_nat]; pose proof (count_free_le (all_blocks L) U); unfold tf; lia].
  - intros r s' (n'&new&v'&->&(Eid&Ebp&Em&Eex&Ehl)&Hdi&Hn'&Hd'&Hperm&Hup). wp.
    assert (new = []) as ->.
    { pose proof (on_disk_pointers L v' n' Hd') as Hlp. rewrite Ebp in Hlp. change (zlength (block_pointers n)) with 0 in Hlp. assert (ptr_blocks 0 = 0) as E by (vm_compute; reflexivity). rewrite E, Hperm in Hlp. destruct new; [done|]. cbn in Hlp. lia. }
    apply Permutation_nil_r in Hperm. rewrite list_to_set_nil, union_empty_r_L in *. exists v'. split_and!; [| | |].
    + pose proof (up_inv _ _ _ _ _ _ _ _ Hup) as Hi'. by rewrite list_to_set_nil, union_empty_r_L in Hi'.
    + split; [intros; by apply (up_keep _ _ _ _ _ _ _ _ Hup)|intros; by apply (up_entries _ _ _ _ _ _ _ _ Hup)].
    + split; [done|done|by rewrite Eex].
    + split; try done.
Qed.
End inodes.

Section allocate.
Context {D : Type} `{ByteFileSpec D}.
Context (L : layout) (HL : layout_ok L).
Context (stack_bytes : list Z) (stack_len : length stack_bytes = 14%nat) (stack_ok : bytes stack_bytes).
Implicit Types (s : ext2 D).

(** ** Allocating *)

(** The steps of a change keep what each of them keeps. *)
Lemma inode_kept_trans U i v1 v2 v3 : kept L U i [] v1 v2 → kept L U i [] v2 v3 → kept L U i [] v1 v3.
Proof. intros [B1 E1] [B2 E2]. split; [intros b Hb Hn; rewrite B2 by done; by apply B1|intros j Hj Hne; rewrite E2 by done; by apply E1]. Qed.

Lemma new_blocks_run s (Q : result (list Z) → ext2 D → Prop) : _block_size s = 1024 → Q (Ok []) s → run (new_blocks stack_bytes 0) s Q.
Proof. intros Hs HQ. unfold new_blocks. wp. rewrite Hs. cbv zeta. change (u32 (0 + 1024 - 1) / 1024 =? 0) with true. cbv iota. by wp. Qed.

(** What [allocate_inode] gives: the new inode, or [ENOSPC] if there is none. *)
Definition allocated v U mode uid gid f (r : result Z * inodes) s' : Prop :=
  (r = (Err (- ENOSPC), f) ∧ tif L = 0 ∧ fs_inv s' v L U) ∨
  ∃ i n v', r = (Ok i, add_cached_inode n f) ∧ 0 < tif L ∧ inode_number L i ∧ (i ∉ l_inodes L) ∧ counts_ok (marked true L i) ∧ fs_inv s' v' (marked true L i) U ∧ kept L U i [] v v' ∧
    file_ok (marked true L i) v' U n ∧ fresh_inode i mode uid gid n.

(** From the writing of the bitmap on. *)
Lemma take_inode_run s v U i mode uid gid parent f : fs_inv s v L U → counts_ok L → inode_number L i → i ∉ l_inodes L → block_groups s !! igroup L i = Some (gdesc v (igroup L i)) →
  plain_mode mode = true → 0 ≤ mode < 2 ^ 16 → 0 ≤ uid < 2 ^ 16 → 0 ≤ gid < 2 ^ 16 → ∃ l, set_bitmap_bit (blk 1024 v (ib L (igroup L i))) (iindex L i) true = Done l ∧
  run (r ← fs_write_block (ib L (igroup L i)) l;
       match r with
       | Err e => ret (Err e, f)
       | Ok _ =>
           _ ← change_group (igroup L i) (λ x, set_free_inodes (free_inodes x - 1) x);
           _ ← (if IS_DIR mode then change_group (igroup L i) (λ x, set_num_directories (num_directories x + 1) x) else ret tt);
           _ ← write_group stack_bytes (igroup L i);
           r ← new_blocks stack_bytes 0;
           match r with
           | Err e => _ ← give_inode_back stack_bytes (igroup L i) (iindex L i) (IS_DIR mode); ret (Err e, f)
           | Ok blocks =>
               n ← new_inode stack_bytes i (new_raw mode uid gid 0) blocks parent;
               _ ← change_sb_free_inodes (-1);
               _ ← write_superblock;
               ret (Ok i, add_cached_inode n f)
           end
       end) s (allocated v U mode uid gid f).
Proof.
  intros Hi Hc Hnum HI Hx Hmode Hm Hu Hgid. destruct (group_inodes_in L i HL Hnum) as [Hin Hg]. destruct (plain_mode_spec mode Hmode) as (Edir&_). set (g := igroup L i) in *.
  assert (0 < fic L g) as Hpos. { pose proof (fic_range L g HL). assert (fic L g ≠ 0); [|lia]. intros E. by apply HI, (proj1 (count_free_zero _ _) E). }
  assert (0 < tif L) as Hpos'. { pose proof (tif_range L HL). assert (tif L ≠ 0); [|lia]. intros E. apply HI, (proj1 (count_free_zero _ _) E). unfold inode_number in Hnum. apply elem_of_seqZ. lia. }
  pose proof (fic_range L g HL). pose proof (tif_range L HL). pose proof (proj1 Hc) as Etif. pose proof (proj2 Hc g Hg) as Efic. pose proof (in_group _ _ _ (fi_inodes _ _ _ _ Hi) g Hg) as Efi. pose proof (gdesc_range v g (fb_bytes _ _ _ (fi_base _ _ _ _ Hi))) as Hxr.
  destruct (write_bitmap_run L HL s v U i true Hi Hnum) as (l&El&Hrun). exists l. split; [done|]. wp. eapply run_mono; [exact Hrun|]. intros r s1 (->&Egs&v1&Hi1&Hf1&Egd). cbn beta iota. rewrite Edir. wp.
  apply (change_group_run _ g (gdesc v1 g)); [rewrite Egs, Egd by done; done|]. wp. rewrite (Egd g Hg), Efi.
  rewrite <-(set_num_same (l_group_inodes L g - 1) (gdesc v g)) by done.
  set (L1 := relayout L (mark true (l_inodes L) i) (l_group_inodes L) (l_sb_inodes L)) in *. rewrite <-(Egd g Hg).
  wp_apply (write_inodes_run L1 (relayout_ok _ _ _ _ HL) stack_bytes stack_len stack_ok s1 v1 U g (l_group_inodes L g - 1) (num_directories (gdesc v1 g))); [done|done|lia|]. intros _ s2 (v2&Hi2&Hf2). set (L2 := relayout L1 _ _ _) in *.
  apply run_bind, new_blocks_run; [apply (fb_bs _ _ _ (fi_base _ _ _ _ Hi2))|]. cbn beta iota. apply run_bind. pose proof (relayout_ok L1 (l_inodes L1) (group_count (l_group_inodes L1) g (l_group_inodes L g - 1)) (l_sb_inodes L1) (relayout_ok _ _ _ _ HL)) as HL2. fold L2 in HL2.
  wp_apply (new_inode_run L2 HL2 stack_bytes stack_len stack_ok s2 v2 U i mode uid gid parent); [done..|]. intros n s3 (v3&Hi3&Hk3&Hf3&Hfr). wp.
  wp_apply (write_sb_inodes_run L2 HL2 stack_bytes stack_len s3 v3 U (-1)); [done|change (0 ≤ l_sb_inodes L - 1 < 2 ^ 32); lia|]. intros ? s4 Hrun4. cbn beta in Hrun4. wp. eapply run_mono; [exact Hrun4|]. intros _ s5 (v4&Hi4&Hf4). wp.
  pose proof (fi_meta _ _ _ _ Hi) as HU. right. exists i, n, v4. split_and!; [done|done|done|done|apply (counts_mark true); [done..|by apply bool_decide_eq_false_2]|exact Hi4| | |done].
  - apply (inode_kept_trans U i v v1); [by apply kept_frame|]. apply (inode_kept_trans U i v1 v2); [by apply kept_frame|]. apply (inode_kept_trans U i v2 v3); [done|]. by apply kept_frame.
  - apply (file_ok_moved L2 v3 U v4 U n) in Hf3 as [Hf3 _]; [exact (file_ok_relayout L2 _ _ _ _ _ _ Hf3)| |].
    + intros b Hb. pose proof (ok_data _ _ _ (fo_inode _ _ _ _ Hf3) b Hb) as Hd. split; [by apply (frame_other L HL U)|apply Hd].
    + apply (frame_entry L HL U); [done|done|]. rewrite (fr_id _ _ _ _ _ Hfr). done.
Qed.

Lemma allocate_inode_run s v U mode uid gid parent f : fs_inv s v L U → counts_ok L → plain_mode mode = true → 0 ≤ mode < 2 ^ 16 → 0 ≤ uid < 2 ^ 16 → 0 ≤ gid < 2 ^ 16 →
  run (allocate_inode stack_bytes mode uid gid 0 parent f) s (allocated v U mode uid gid f).
Proof.
  intros Hi Hc Hmode Hm Hu Hgid. pose proof (lo_ng L HL). pose proof (lo_ipg L HL) as Hipg. unfold allocate_inode. wp. rewrite (fb_ng _ _ _ (fi_base _ _ _ _ Hi)), (fb_ipg _ _ _ (fi_base _ _ _ _ Hi)).
  wp_apply (free_inode_group_run L HL (Z.to_nat (ng L)) v U s 0); [done|lia|lia|]. intros [g|] s1 (Hi1&Hr); [|wp; left; split_and!; [done|by apply no_free_inode|done]]. destruct Hr as (Hg&Hpos&Hx).
  wp. apply (the_group_run s1 g (gdesc v g)); [done|]. destruct (fi_group _ _ _ _ Hi1 g Hg) as (_&Eib&_&_). rewrite Eib. destruct (ib_apart L HL g g Hg Hg) as [Hr _]. pose proof (dtb_pos L HL). pose proof (fi_base _ _ _ _ Hi1) as Hs1. wp.
  wp_apply (fs_read_block_run s1 v L (ib L g)); [done|lia|]. intros r s2 (->&Hst2). pose proof (inv_stored L s1 v U s2 Hi1 Hst2) as Hi2. cbn beta iota.
  pose proof (length_blk 1024 v _ ltac:(lia) (base_in_file s1 v L (ib L g) Hs1 ltac:(lia))) as Hbl. destruct (find_clear_bit_spec (Z.to_nat (l_ipg L)) (blk 1024 v (ib L g)) 0) as (r&Er&Hk); [lia|lia|]. wp. eapply run_lift; [exact Er|].
  destruct (free_inode_exists L HL g Hc Hg Hpos) as (_&k0&Hk0&HI0). destruct r as [k|].
  2: { exfalso. specialize (Hk k0 ltac:(lia)). rewrite (in_bits _ _ _ (fi_inodes _ _ _ _ Hi1)) in Hk by lia. by apply bool_decide_eq_true in Hk. }
  destruct Hk as [Hk Hbit]. rewrite (in_bits _ _ _ (fi_inodes _ _ _ _ Hi1)) in Hbit by lia. apply bool_decide_eq_false in Hbit. destruct (inode_number_at L g k HL Hg ltac:(lia)) as (Hnum&Eg&Ek). set (i := g * l_ipg L + 1 + k) in *.
  destruct (take_inode_run s2 v U i mode uid gid parent f) as (l&El&Hrun); try done; [rewrite Eg; by destruct Hst2 as [[d ->] _]|]. rewrite Eg, Ek in *. wp. eapply run_lift; [exact El|].
  replace (u32 (g * l_ipg L + (k + 1))) with i; [exact Hrun|]. rewrite u32_id; [unfold i; lia|]. pose proof (lo_inodes L HL). unfold inode_number, i in Hnum. lia.
Qed.

(** ** Freeing *)

Lemma free_all_blocks_run s v U n g : fs_inv s v L U → inode_ok L U n → is_Some (block_groups s !! g) →
  run (free_all_blocks stack_bytes n) s (λ _ s', (∃ v', fs_inv s' v' L (U ∖ list_to_set (blocks_of n)) ∧ frame L (U ∖ list_to_set (blocks_of n)) v v') ∧ is_Some (block_groups s' !! g)).
Proof.
  intros Hi Hn Hx. pose proof (ok_nodup _ _ _ Hn) as (Hnd1&Hap&Hnd2)%NoDup_app. assert (∀ b, b ∈ block_pointers n ++ pointer_blocks n → b ∈ all_blocks L ∧ b ∈ U ∧ (b ∉ meta L) ∧ b < l_total L) as Hd by (intros b Hb; destruct (ok_data _ _ _ Hn b Hb); tauto).
  unfold free_all_blocks. wp. eapply run_mono; [eapply run_keeps; [apply keeps_free_list|exact Hx|]; apply (free_block_list_run L HL stack_bytes stack_len stack_ok (block_pointers n) s v U); [done|done|intros; apply Hd, elem_of_app; by left]|].
  intros _ s1 [(v1&Hi1&Hf1) Hx1]. eapply run_mono; [eapply run_keeps; [apply keeps_free_list|exact Hx1|]; apply (free_block_list_run L HL stack_bytes stack_len stack_ok (pointer_blocks n) s1 v1 (U ∖ list_to_set (block_pointers n))); [done|done|]|].
  - intros b Hb. destruct (Hd b ltac:(apply elem_of_app; by right)) as (?&?&?&?). split_and!; try done. apply elem_of_difference. split; [done|]. rewrite elem_of_list_to_set. intros Hb'. by apply (Hap b).
  - intros _ s2 [(v2&Hi2&Hf2) Hx2]. split; [|done]. exists v2. unfold blocks_of. rewrite list_to_set_app_L, <-difference_difference_l_L. split; [done|]. intros b Hb Hb0 Hv. rewrite Hf2 by done. apply Hf1; [set_solver|done|done].
Qed.
End allocate.

Section free.
Context {D : Type} `{ByteFileSpec D}.
Context (L : layout) (HL : layout_ok L).
Context (stack_bytes : list Z) (stack_len : length stack_bytes = 14%nat) (stack_ok : bytes stack_bytes).
Implicit Types (s : ext2 D).

Lemma kept_cut U i (l : list Z) v v' : kept L (U ∖ list_to_set l) i [] v v' → kept L U i l v v'.
Proof. intros [B E]. split; [|done]. intros b [Hb Hd] Hl. apply B; [|by intros ?%elem_of_nil]. split; [|done]. apply elem_of_difference. by rewrite elem_of_list_to_set. Qed.

(** The number of free inodes goes up by one, and the number of directories is set if [dir]. *)
Lemma change_inodes_run s v U g (dir : bool) : fs_inv s v L U → 0 ≤ g < ng L → is_Some (block_groups s !! g) → 0 ≤ l_group_inodes L g < 2 ^ 16 - 1 →
  run (_ ← change_group g (λ x, set_free_inodes (free_inodes x + 1) x); _ ← (if dir then change_group g (λ x, set_num_directories (num_directories x - 1) x) else ret tt); write_group stack_bytes g) s
    (λ _ s', ∃ v', fs_inv s' v' (relayout L (l_inodes L) (group_count (l_group_inodes L) g (l_group_inodes L g + 1)) (l_sb_inodes L)) U ∧ frame L U v v').
Proof.
  intros Hi Hg [x Hx] Hk. destruct (fi_loaded _ _ _ _ Hi g x Hx) as [_ ->]. pose proof (gdesc_range v g (fb_bytes _ _ _ (fi_base _ _ _ _ Hi))) as Hxr. wp. apply (change_group_run _ g (gdesc v g)); [done|]. rewrite (in_group _ _ _ (fi_inodes _ _ _ _ Hi) g Hg). wp.
  assert (∀ d, run (write_group stack_bytes g) (with_groups s (<[g := set_num_directories d (set_free_inodes (l_group_inodes L g + 1) (gdesc v g))]> (block_groups s)))
    (λ _ s', ∃ v', fs_inv s' v' (relayout L (l_inodes L) (group_count (l_group_inodes L) g (l_group_inodes L g + 1)) (l_sb_inodes L)) U ∧ frame L U v v')) as Hw by (intros d; apply (write_inodes_run L HL stack_bytes stack_len stack_ok); [done|done|lia]).
  destruct dir; wp.
  - eapply change_group_run; [apply lookup_insert_eq|]. cbn [block_groups with_groups]. rewrite insert_insert_eq. apply Hw.
  - rewrite <-(set_num_same _ (gdesc v g)) by done. apply Hw.
Qed.
End free.

Section free_inode.
Context {D : Type} `{ByteFileSpec D}.
Context (L : layout) (HL : layout_ok L).
Context (stack_bytes : list Z) (stack_len : length stack_bytes = 14%nat) (stack_ok : bytes stack_bytes).
Implicit Types (s : ext2 D).

(** [free_inode] gives the number and the blocks back; the inode no longer exists. *)
Lemma free_inode_run s v U n : fs_inv s v L U → counts_ok L → inode_ok L U n → id n ∈ l_inodes L →
  run (free_inode stack_bytes n) s (λ r s', r = (Ok tt, with_exists n false) ∧ counts_ok (marked false L (id n)) ∧ ∃ v', fs_inv s' v' (marked false L (id n)) (U ∖ list_to_set (blocks_of n)) ∧ kept L U (id n) (blocks_of n) v v').
Proof.
  intros Hi Hc Hn HI. pose proof (ok_number _ _ _ Hn) as Hnum. destruct (group_inodes_in L (id n) HL Hnum) as [Hin Hg]. pose proof (fi_base _ _ _ _ Hi) as Hs. pose proof (dtb_pos L HL). set (g := igroup L (id n)) in *.
  assert (counts_ok (marked false L (id n))) as Hc' by (apply counts_mark; [done..|by apply bool_decide_eq_true_2]). pose proof (fic_range L g HL). pose proof (tif_range L HL). destruct Hc as [Etif Efic].
  unfold free_inode. wp. destruct (entry_place L HL s v n Hs Hnum) as (Ebg&_&_). rewrite Ebg. change ((id n - 1) / l_ipg L) with g. wp_apply (get_block_group_run L HL s v U g); [done|done|]. intros r s1 (->&Hi1&Hx1). cbn beta iota.
  destruct (fi_group _ _ _ _ Hi1 g Hg) as (_&Eib&Eit&_). rewrite Eib. destruct (ib_apart L HL g g Hg Hg) as [Hr _]. wp. wp_apply (fs_read_block_run s1 v L (ib L g)); [apply Hi1|lia|]. intros r s2 (->&Hst2). pose proof (inv_stored L s1 v U s2 Hi1 Hst2) as Hi2. cbn beta iota.
  destruct (write_bitmap_run L HL s2 v U (id n) false Hi2 Hnum) as (l&El&Hrun). assert (index_of s n = iindex L (id n)) as Eix by (unfold index_of, iindex; rewrite (fb_ipg _ _ _ Hs), u32_id; [done|]; pose proof (lo_inodes L HL); unfold inode_number in Hnum; lia).
  wp. rewrite Eix. eapply run_lift; [exact El|]. wp. eapply run_mono; [exact Hrun|]. intros r s3 (->&Egs3&v3&Hi3&Hf3&Egd3). cbn beta iota. set (L1 := relayout L _ _ _) in *. pose proof (relayout_ok L (mark false (l_inodes L) (id n)) (l_group_inodes L) (l_sb_inodes L) HL) as HL1. fold L1 in HL1.
  assert (inode_ok L1 U n) as Hn1 by (destruct Hn; by split). wp. wp_apply (free_all_blocks_run L1 HL1 stack_bytes stack_len stack_ok s3 v3 U n g); [done|done|rewrite Egs3; destruct Hst2 as [[d ->] _]; eauto|]. intros _ s4 [(v4&Hi4&Hf4) Hx4]. set (U' := U ∖ _) in *.
  pose proof (change_inodes_run L1 HL1 stack_bytes stack_len stack_ok s4 v4 U' g (is_directory (_metadata n)) Hi4 Hg Hx4 ltac:(change (0 ≤ l_group_inodes L g < 2 ^ 16 - 1); rewrite Efic by done; lia)) as Hch. apply run_bind. wp_chain Hch. intros _ s5 (v5&Hi5&Hf5).
  set (L2 := relayout L1 _ _ _) in *. pose proof (relayout_ok L1 (l_inodes L1) (group_count (l_group_inodes L1) g (l_group_inodes L1 g + 1)) (l_sb_inodes L1) HL1) as HL2. fold L2 in HL2.
  pose proof (write_dtime_run L2 HL2 s5 v5 U' n (gdesc v g) s v Hi5 (base_relayout _ _ _ _ _ _ (base_relayout _ _ _ _ _ _ Hs)) Hnum Eit) as Hdt. apply run_bind. wp_chain Hdt. intros _ s6 (v6&Hi6&Hk6&_). wp.
  wp_apply (write_sb_inodes_run L2 HL2 stack_bytes stack_len s6 v6 U' 1); [done|change (0 ≤ l_sb_inodes L + 1 < 2 ^ 32); lia|]. intros ? s7 Hrun7. cbn beta in Hrun7. wp. eapply run_mono; [exact Hrun7|]. intros _ s8 (v8&Hi8&Hf8). wp.
  split_and!; [done|done|]. exists v8. split; [exact Hi8|]. apply kept_cut. assert (∀ b, b ∈ meta L → b ∈ U') as HU by apply (fi_meta _ _ _ _ Hi4).
  apply (inode_kept_trans L U' (id n) v v3); [apply kept_frame; [done|apply (frame_sub L U); [unfold U'; set_solver|done]|done]|]. apply (inode_kept_trans L U' (id n) v3 v4); [by apply kept_frame|]. apply (inode_kept_trans L U' (id n) v4 v5); [by apply kept_frame|].
  apply (inode_kept_trans L U' (id n) v5 v6); [done|]. by apply kept_frame.
Qed.
End free_inode.
