(* ===== verification/Ext2CreateSpec.v ===== *)
(** * ext2: creating and removing files

    The theorems about [create_entry] and [remove_entry], and what becomes of a file that is
    created and removed. *)

From stdpp Require Import base numbers list list_numbers option gmap sets.
From S2P Require Import Prelude.
From S2P Require Import ByteBuf.
From S2P Require Import LRUCache.
From S2P Require Import Disk.
From S2P Require Import DiskCache.
From S2P Require Import FileBlocks.
From S2P Require Import Partition.
From S2P Require Import Ext2.
From S2P Require Import Ext2Inv.
From S2P Require Import Ext2Alloc.
From S2P Require Import Ext2Inode.
From S2P Require Import Ext2Tree.
From S2P Require Import Ext2Pointers.
From S2P Require Import Ext2Entry.
From S2P Require Import Ext2File.
From S2P Require Import Ext2FileOk.
From S2P Require Import Ext2Trunc.
From S2P Require Import Ext2Shrink.
From S2P Require Import Ext2Mount.
From S2P Require Import Ext2Spec.
From S2P Require Import Ext2Dir.
From S2P Require Import Ext2DirBytes.
From S2P Require Import Ext2DirOk.
From S2P Require Import Ext2DirSpec.
From S2P Require Import Ext2Create.
From S2P Require Import Ext2InodeAlloc.

Local Open Scope Z_scope.

Implicit Types (v name : list Z) (es : list dirent) (n child : inode) (U I : gset Z) (i j c : Z) (f : inodes) (L : layout).

(** ** The inodes in memory *)

(** Those that exist. *)
Definition live f : gmap Z inode := filter (λ x, _exists x.2 = true) (objects f).

Lemma live_lookup f i n : live f !! i = Some n ↔ objects f !! i = Some n ∧ _exists n = true.
Proof. unfold live. rewrite map_lookup_filter_Some. done. Qed.

Lemma live_put n f : live (put_inode n f) = if _exists n then <[id n := n]> (live f) else delete (id n) (live f).
Proof.
  unfold live, put_inode. cbn [objects]. destruct (_exists n) eqn:E; [by rewrite map_filter_insert_True|]. rewrite map_filter_insert_False by (cbn; congruence). apply map_filter_delete.
Qed.

Lemma live_add n f : live (add_cached_inode n f) = live (put_inode n f).
Proof. done. Qed.

Lemma live_uncache i f : live (remove_cached_inode i f) = live f.
Proof. done. Qed.

Section live.
Context {D : Type} `{ByteFileSpec D}.
Implicit Types (s : ext2 D).

(** The filesystem and the inodes in memory: those that exist are in use and on the disk, and the counts are right. *)
Record fs_live L s v U f : Prop := {
  lv_rep : fs_rep L s v U (live f);
  lv_used i n : live f !! i = Some n → i ∈ l_inodes L;
  lv_counts : counts_ok L;
}.

Lemma rep_relayout L I G k s v U files : fs_rep L s v U files → inodes_inv (superblock s) v (relayout L I G k) → fs_rep (relayout L I G k) s v U files.
Proof. intros [Hi Hf Hap] Hino. split; [by apply inv_relayout| |done]. intros i n Hn. destruct (Hf i n Hn). split; [done|by apply file_ok_relayout]. Qed.

Lemma dir_ok_relayout L I G k v U n es : dir_ok L v U n es → dir_ok (relayout L I G k) v U n es.
Proof. intros []. split; try done. by apply file_ok_relayout. Qed.

(** Every file but [i] is as before, and [i] has no block that they have. *)
Lemma rep_kept L I G k s v U files i (l : list Z) s' v' : layout_ok L → fs_rep L s v U files → kept L U i l v v' → (∀ j n, files !! j = Some n → j ≠ i → ∀ b, b ∈ blocks_of n → b ∉ l) →
  fs_inv s' v' (relayout L I G k) (U ∖ list_to_set l) → fs_rep (relayout L I G k) s' v' (U ∖ list_to_set l) (delete i files) ∧ content v' <$> delete i files = content v <$> delete i files.
Proof.
  intros HL Hr [Hb He] Hap Hi'. assert (∀ j n, delete i files !! j = Some n → id n = j ∧ file_ok L v' (U ∖ list_to_set l) n ∧ content v' n = content v n) as Hj.
  { intros j n [Hne Hn]%lookup_delete_Some. destruct (rp_file _ _ _ _ _ Hr j n Hn) as [Eid Hf]. split; [done|].
    destruct (file_ok_moved L v U v' (U ∖ list_to_set l) n Hf) as [? Hfb]; [| |split; [done|unfold content; by rewrite Hfb]].
    - intros b Hbn. pose proof (Hap j n Hn ltac:(done) b Hbn) as Hnl. pose proof (ok_data _ _ _ (fo_inode _ _ _ _ Hf) b Hbn) as Hd. split; [by apply Hb|]. apply elem_of_difference. rewrite elem_of_list_to_set. split; [apply Hd|done].
    - apply He; [apply (fo_inode _ _ _ _ Hf)|congruence]. }
  split.
  - split; [done| |].
    + intros j n Hn. destruct (Hj j n Hn) as (?&?&_). split; [done|by apply file_ok_relayout].
    + intros j k' n n' [_ Hn]%lookup_delete_Some [_ Hn']%lookup_delete_Some. by apply (rp_apart _ _ _ _ _ Hr).
  - apply map_eq. intros j. rewrite !lookup_fmap. destruct (delete i files !! j) as [n|] eqn:E; [|done]. cbn. by destruct (Hj j n E) as (_&_&->).
Qed.

Lemma rep_fresh L s v U files c n : fs_rep L s v U files → files !! c = None → id n = c → file_ok L v U n → blocks_of n = [] → fs_rep L s v U (<[c := n]> files).
Proof.
  intros [Hi Hf Hap] Hc Eid Hn Hb. split; [done| |].
  - intros j n' [[<- <-]|[_ Hj]]%lookup_insert_Some; [done|by apply Hf].
  - intros j k n1 n2. rewrite !lookup_insert_Some. intros [[<- <-]|[_ Hj]] [[<- <-]|[_ Hk]] Hne b; [done|rewrite Hb; by intros ?%elem_of_nil|rewrite Hb; by intros _ ?%elem_of_nil|by apply (Hap j k)].
Qed.

Lemma the_inode_run s i f n (Q : inode → ext2 D → Prop) : objects f !! i = Some n → Q n s → run (the_inode i f) s Q.
Proof. intros E HQ. unfold the_inode. rewrite E. by wp. Qed.
End live.

Lemma fresh_content v i mode uid gid n : fresh_inode i mode uid gid n → content v n = [].
Proof. intros Hfr. unfold content. rewrite (fr_metadata _ _ _ _ _ Hfr). apply take_0. Qed.

Lemma fresh_no_blocks i mode uid gid n : fresh_inode i mode uid gid n → blocks_of n = [].
Proof. intros Hfr. unfold blocks_of. by rewrite (fr_blocks _ _ _ _ _ Hfr), (fr_pointers _ _ _ _ _ Hfr). Qed.

Section create.
Context {D : Type} `{ByteFileSpec D}.
Context (L : layout) (HL : layout_ok L).
Context (stack_bytes : list Z) (stack_len : length stack_bytes = 14%nat) (stack_ok : bytes stack_bytes).
Implicit Types (s : ext2 D).

(** The inode has been allocated: it is a file without bytes, and everything else is as before. *)
Lemma allocated_live s v U f s1 v1 i n es c n0 mode uid gid : fs_live L s v U f → objects f !! i = Some n → dir_ok L v U n es → inode_number L c → (c ∉ l_inodes L) → counts_ok (marked true L c) → fs_inv s1 v1 (marked true L c) U → kept L U c [] v v1 →
  file_ok (marked true L c) v1 U n0 → fresh_inode c mode uid gid n0 → let f1 := add_cached_inode n0 f in
  fs_live (marked true L c) s1 v1 U f1 ∧ content v1 <$> live f1 = <[c := []]> (content v <$> live f) ∧ dir_ok (marked true L c) v1 U n es ∧ objects f1 !! i = Some n ∧ objects f1 !! c = Some n0 ∧ i ≠ c.
Proof.
  intros [Hr Hu Hc] Hn Hd Hnum HI Hc1 Hi1 Hk Hf0 Hfr f1. assert (live f !! i = Some n) as Hln by (apply live_lookup; split; [done|apply Hd]). assert (live f !! c = None) as Hlc by (destruct (live f !! c) eqn:E; [by apply Hu in E|done]).
  assert (i ≠ c) as Hne by (intros ->; congruence). assert (list_to_set [] = ∅ :> gset Z) as E0 by done. assert (U ∖ list_to_set [] = U) as EU by (rewrite E0; apply difference_empty_L).
  destruct (rep_kept L (mark true (l_inodes L) c) (group_count (l_group_inodes L) (igroup L c) (l_group_inodes L (igroup L c) + step true)) (l_sb_inodes L + step true) s v U (live f) c [] s1 v1) as [Hr1 Hm1]; [done|done|done|by intros ? ? _ _ ? _ ?%elem_of_nil|by rewrite EU|].
  rewrite EU, delete_id in Hr1 by done. rewrite delete_id in Hm1 by done. assert (live f1 = <[c := n0]> (live f)) as Ef1 by (unfold f1; rewrite live_add, live_put, (fo_exists _ _ _ _ Hf0), (fr_id _ _ _ _ _ Hfr); done).
  assert (file_ok (marked true L c) v1 U n ∧ content v1 n = content v n) as [Hfn Ecn].
  { split; [by apply (rp_file _ _ _ _ _ Hr1 i n)|]. pose proof (f_equal (λ m, m !! i) Hm1) as E. cbn in E. rewrite !lookup_fmap, Hln in E. cbn in E. congruence. }
  split_and!.
  - split; [rewrite Ef1; apply rep_fresh; [done|done|apply Hfr|done|by eapply fresh_no_blocks]| |done]. intros j m. rewrite Ef1, lookup_insert_Some. intros [[<- _]|[_ Hj]]; apply (elem_mark true); [by right|left]. by apply (Hu j m).
  - rewrite Ef1, fmap_insert, Hm1. by rewrite (fresh_content v1 c mode uid gid n0).
  - destruct Hd. split; try done. by rewrite Ecn.
  - unfold f1, add_cached_inode. cbn [objects]. rewrite (fr_id _ _ _ _ _ Hfr). by rewrite lookup_insert_ne.
  - unfold f1, add_cached_inode. cbn [objects]. rewrite (fr_id _ _ _ _ _ Hfr). apply lookup_insert_eq.
  - done.
Qed.

(** The outcome of [create_entry]. *)
Definition created v U f i es name mode uid gid (r : result Z) f' s' : Prop :=
  if tif L =? 0 then r = Err (- ENOSPC) ∧ f' = f ∧ fs_live L s' v U f
  else if has_name name es then r = Err (- EEXIST) ∧ ∃ G k v' n', fs_live (relayout L (l_inodes L) G k) s' v' U f' ∧ content v' <$> live f' = content v <$> live f ∧ objects f' !! i = Some n' ∧ dir_ok L v' U n' es
  else ∃ c G k v' U' n' child, r = Ok c ∧ inode_number L c ∧ (c ∉ l_inodes L) ∧ fs_live (relayout L (l_inodes L ∪ {[c]}) G k) s' v' U' f' ∧ objects f' !! i = Some n' ∧ objects f' !! c = Some child ∧ c ∈ cached f' ∧
    dir_ok L v' U' n' (es ++ [new_entry name child]) ∧ content v' <$> live f' = <[i := content v' n']> (<[c := []]> (content v <$> live f)) ∧ _metadata child = mk_metadata uid gid mode 0 c 0 0 ∧ hard_links (raw child) = 2 ∧
    live f' = <[i := n']> (<[c := child]> (live f)) ∧ cached f' = {[c]} ∪ cached f ∧ ∃ n k, live f !! i = Some n ∧ _metadata n' = set_size k (_metadata n).

Lemma create_exists_run s v U f i n es c n0 mode uid gid : fs_live (marked true L c) s v U f → objects f !! i = Some n → dir_ok (marked true L c) v U n es → live f !! c = Some n0 → i ≠ c → (c ∉ l_inodes L) → fresh_inode c mode uid gid n0 →
  run (free_inode stack_bytes n0) s (λ r s', ∃ v' G k, fs_live (relayout L (l_inodes L) G k) s' v' U (put_inode r.2 f) ∧ content v' <$> live (put_inode r.2 f) = delete c (content v <$> live f) ∧ objects (put_inode r.2 f) !! i = Some n ∧ dir_ok L v' U n es).
Proof.
  intros [Hr Hu Hc] Hn Hd Hc0 Hne HI Hfr. set (L1 := marked true L c) in *. assert (layout_ok L1) as HL1 by (by apply relayout_ok). pose proof (fr_id _ _ _ _ _ Hfr) as Eid. pose proof (fresh_no_blocks _ _ _ _ _ Hfr) as Hnb.
  assert (live f !! i = Some n) as Hln by (apply live_lookup; split; [done|apply Hd]). destruct (rp_file _ _ _ _ _ Hr c n0 Hc0) as [_ Hf0].
  wp_apply (free_inode_run L1 HL1 stack_bytes stack_len stack_ok s v U n0); [apply Hr|done|apply Hf0|rewrite Eid; cbn; set_solver|]. intros r s' (->&Hc'&v'&Hi'&Hk). cbn [snd]. rewrite Eid, Hnb in *.
  set (G := l_group_inodes (marked false L1 c)). set (k := l_sb_inodes (marked false L1 c)). assert (marked false L1 c = relayout L (l_inodes L) G k) as EL by (unfold marked at 1, relayout; f_equal; cbn; apply set_eq; set_solver). rewrite EL in *.
  assert (U ∖ list_to_set [] = U) as EU by (rewrite list_to_set_nil; apply difference_empty_L).
  destruct (rep_kept L1 (l_inodes L) G k s v U (live f) c [] s' v') as [Hr' Hm']; [done|done|done|by intros ? ? _ _ ? _ ?%elem_of_nil|done|]. rewrite EU in *.
  assert (live (put_inode (with_exists n0 false) f) = delete c (live f)) as Ef by (rewrite live_put; cbn [_exists with_exists id]; by rewrite Eid).
  assert (delete c (live f) !! i = Some n) as Hdi by (by rewrite lookup_delete_ne). exists v', G, k. rewrite Ef. split_and!.
  - split; [by rewrite Ef| |done]. intros j m. rewrite Ef, lookup_delete_Some. intros [Hne' Hj]. apply Hu, (elem_mark true) in Hj as [?|?]; [done|congruence].
  - by rewrite Hm', fmap_delete.
  - cbn. rewrite Eid. by rewrite lookup_insert_ne.
  - destruct (rp_file _ _ _ _ _ Hr' i n Hdi) as [_ Hfn]. assert (content v' n = content v n) as Ecn by (pose proof (f_equal (λ m, m !! i) Hm') as E; cbn in E; rewrite !lookup_fmap, Hdi in E; cbn in E; congruence).
    destruct Hd. split; [|done|by rewrite Ecn|done|done]. by destruct Hfn as [[] [] ? ?]; split; [split|split|..].
Qed.

Lemma create_entry_run s v U f i n es name (stack : list Z) mode uid gid : fs_live L s v U f → objects f !! i = Some n → dir_ok L v U n es → zlength stack = 1024 → bytes name → 0 < zlength name < 256 →
  plain_mode mode = true → 0 ≤ mode < 2 ^ 16 → 0 ≤ uid < 2 ^ 16 → 0 ≤ gid < 2 ^ 16 → (has_name name es = false → ∀ child, addable L U n es name child) →
  run (create_entry stack_bytes stack i name mode uid gid f) s (λ r s', created v U f i es name mode uid gid r.1 r.2 s').
Proof.
  intros Hlive Hn Hd Hst Hb Hl Hmode Hm Hu Hg Hadd. destruct (plain_mode_spec mode Hmode) as (Edir&_). unfold create_entry. rewrite (proj2 (Z.eqb_neq _ 0)), (proj2 (Z.ltb_ge NAME_MAXLEN _)) by (unfold NAME_MAXLEN; lia). cbn [orb]. wp.
  wp_apply (allocate_inode_run L HL stack_bytes stack_len stack_ok s v U mode uid gid i f); [apply Hlive|apply Hlive|done..|]. intros r s1 [(->&Ez&Hi1)|(c&n0&v1&->&Hpos&Hnum&HI&Hc1&Hi1&Hk1&Hf0&Hfr)]; unfold created.
  - rewrite Ez. cbn. wp. cbn [fst snd]. split_and!; [done..|]. destruct Hlive as [[? ? ?] ? ?]. by split; [split|..].
  - rewrite (proj2 (Z.eqb_neq (tif L) 0)) by lia. rewrite Edir. cbn beta iota.
    destruct (allocated_live s v U f s1 v1 i n es c n0 mode uid gid Hlive Hn Hd Hnum HI Hc1 Hi1 Hk1 Hf0 Hfr) as (Hlive1&Hm1&Hd1&Hn1&Hc0&Hne). set (L1 := marked true L c) in *. set (f1 := add_cached_inode n0 f) in *. wp.
    apply (the_inode_run _ i f1 n); [done|]. wp. apply (the_inode_run _ c f1 n0); [done|]. wp.
    assert (live f1 !! c = Some n0) as Hlc by (apply live_lookup; split; [done|apply Hf0]). assert (live f1 !! i = Some n) as Hli by (apply live_lookup; split; [done|apply Hd]). pose proof (fr_id _ _ _ _ _ Hfr) as Ec.
    destruct (rp_file _ _ _ _ _ (lv_rep _ _ _ _ _ Hlive1) i n Hli) as [Ei _]. assert (live f !! c = None) as Hfc by (destruct (live f !! c) eqn:E; [by apply (lv_used _ _ _ _ _ Hlive) in E|done]). destruct (has_name name es) eqn:Hh.
    + wp_apply (add_entry_exists_run L1 (relayout_ok _ _ _ _ HL) stack_bytes stack_len s1 v1 U n es name n0 stack); [apply Hlive1|done..|]. intros r s2 (->&Hi2). cbn beta iota zeta. wp. set (f2 := put_inode n0 (put_inode n f1)).
      assert (objects f2 = objects f1) as Eo by (unfold f2, put_inode; cbn [objects]; rewrite Ei, Ec, (insert_id _ i n), (insert_id _ c n0) by done; done). assert (live f2 = live f1) as El by (unfold live; by rewrite Eo).
      wp_apply (create_exists_run s2 v1 U f2 i n es c n0 mode uid gid); [|rewrite Eo; done|done|rewrite El; done|done|done|done|].
      * destruct Hlive1 as [[? ? ?] ? ?]. split; [rewrite El; by split|by rewrite El|done].
      * intros [r n1] s3 (v3&G&k&Hl3&Hm3&Hn3&Hd3). cbn [snd] in *. wp. cbn [fst snd]. split; [done|]. exists G, k, v3, n. split_and!; try done. rewrite Hm3, El, Hm1, delete_insert_eq. apply delete_id. by rewrite lookup_fmap, Hfc.
    + wp_apply (add_entry_run L1 (relayout_ok _ _ _ _ HL) stack_bytes stack_len stack_ok s1 v1 U (live f1) i c n n0 es name stack); [apply Hlive1|done..|exact (Hadd eq_refl n0)|].
      intros r s2 (n'&child&v2&U2&->&Hr2&Hd2&Hm2&Em&Eh&_&Emn). cbn beta iota zeta. wp. cbn [fst snd].
      destruct (rp_file _ _ _ _ _ Hr2 i n' ltac:(apply lookup_insert_eq)) as [Ei' Hfi']. destruct (rp_file _ _ _ _ _ Hr2 c child ltac:(rewrite lookup_insert_ne by done; apply lookup_insert_eq)) as [Ec' Hfc'].
      set (f2 := put_inode child (put_inode n' f1)). assert (live f2 = <[i := n']> (<[c := child]> (live f1))) as El by (unfold f2; rewrite !live_put, (fo_exists _ _ _ _ Hfc'), (fo_exists _ _ _ _ Hfi'), Ei', Ec'; by rewrite insert_insert_ne).
      exists c, (l_group_inodes L1), (l_sb_inodes L1), v2, U2, n', child. rewrite El. split_and!; try done.
      * split; [by rewrite El| |apply Hlive1]. intros j m. rewrite El, !lookup_insert_Some. intros [[<- _]|[_ [[<- _]|[_ Hj]]]]; [by apply (lv_used _ _ _ _ _ Hlive1 i n)|cbn; set_solver|by apply (lv_used _ _ _ _ _ Hlive1 j m)].
      * unfold f2, put_inode. cbn [objects]. rewrite Ec', Ei', lookup_insert_ne by done. apply lookup_insert_eq.
      * unfold f2, put_inode. cbn [objects]. rewrite Ec'. apply lookup_insert_eq.
      * cbn. rewrite Ec. set_solver.
      * destruct Hd2 as [Hf2 ? Hc2 ? ?]. split; try done; [by destruct Hf2 as [[] [] ? ?]; split; [split|split|..]|]. unfold new_entry in *. rewrite Em, Ec'. by rewrite Ec in Hc2.
      * by rewrite Hm2, Hm1.
      * rewrite Em. apply Hfr.
      * rewrite Eh, (fr_links _ _ _ _ _ Hfr). done.
      * assert (live f1 = <[c := n0]> (live f)) as -> by (unfold f1; rewrite live_add, live_put, (fo_exists _ _ _ _ Hf0), Ec; done). by rewrite insert_insert_eq.
      * cbn. by rewrite Ec.
      * exists n. eexists. split; [|exact Emn]. apply live_lookup. split; [done|apply Hd].
Qed.
End create.

(** ** Removing *)

Lemma count_free_mono (l : list Z) U U' : U' ⊆ U → count_free l U ≤ count_free l U'.
Proof. intros HU. unfold count_free. induction l as [|b l IH]; [done|]. rewrite !free_of_cons. do 2 case_decide; cbn; try lia. set_solver. Qed.

Lemma truncatable_mono L U U' n len : U' ⊆ U → truncatable L U n len → truncatable L U' n len.
Proof. intros HU [[? ?]|?]; [left|by right]. split; [done|]. pose proof (count_free_mono (all_blocks L) U U' HU). unfold tf in *. lia. Qed.

Lemma visit_all es acc : (visit all_entries es acc).1 = acc ++ es.
Proof. revert acc. induction es as [|e es IH]; intros acc; cbn; [by rewrite app_nil_r|]. rewrite IH. by rewrite <-app_assoc. Qed.

Lemma last_named_absent name es k found : has_name name es = false → last_named name es k found = found.
Proof. revert k. induction es as [|e es IH]; intros k; cbn; [done|]. intros [-> ?]%orb_false_iff. by apply IH. Qed.

Lemma last_named_found name es1 e es2 k found : same_name name (d_name e) = true → has_name name es2 = false → last_named name (es1 ++ e :: es2) k found = Some ((k + length es1)%nat, e).
Proof. intros He Hn. revert k found. induction es1 as [|e1 es1 IH]; intros k found; cbn; [rewrite He, last_named_absent by done; do 2 f_equal; lia|]. rewrite IH. do 2 f_equal. lia. Qed.

Section reduce.
Context {D : Type} `{ByteFileSpec D}.
Context (L : layout) (HL : layout_ok L).
Context (stack_bytes : list Z) (stack_len : length stack_bytes = 14%nat) (stack_ok : bytes stack_bytes).
Implicit Types (s : ext2 D).

(** The inode loses a link; the last one takes the inode and its blocks with it. *)
Definition reduced v U f c child f' s' : Prop :=
  ∃ I G k v' U' child', fs_live (relayout L I G k) s' v' U' f' ∧ objects f' = <[c := child']> (objects f) ∧ U' ⊆ U ∧
    if hard_links (raw child) =? 1 then I = l_inodes L ∖ {[c]} ∧ U' = U ∖ list_to_set (blocks_of child) ∧ content v' <$> live f' = delete c (content v <$> live f) ∧ cached f' = cached f ∖ {[c]}
    else I = l_inodes L ∧ U' = U ∧ content v' <$> live f' = content v <$> live f ∧ hard_links (raw child') = hard_links (raw child) - 1 ∧ cached f' = cached f.

Lemma reduce_run s v U f c child : fs_live L s v U f → live f !! c = Some child → 1 ≤ hard_links (raw child) → run (reduce_hardlink_count stack_bytes c f) s (λ f' s', reduced v U f c child f' s').
Proof.
  intros [Hr Hu Hc] Hch Hh. destruct (rp_file _ _ _ _ _ Hr c child Hch) as [Eid Hf]. destruct (ok_raw _ _ _ (fo_inode _ _ _ _ Hf)) as [Hlr Hbr]. pose proof (get16_range (raw child) 26 Hbr) as Hh'. change (get16 (raw child) 26) with (hard_links (raw child)) in Hh'.
  unfold reduce_hardlink_count. wp. apply (the_inode_run _ c f child); [by apply live_lookup in Hch as [? _]|]. wp. wp_apply (set_links_run L HL s v U child); [apply Hr|done|]. intros n1 s1 (v1&Hst&Em&Ec&Eb&_&Eh). rewrite u16_id in Eh by lia. rewrite Eh.
  destruct (rep_step L s v U (live f) c child v1 U n1 s1 Hr Hch Hst) as [Hr1 Hm1]. pose proof (st_file _ _ _ _ _ _ _ _ Hst) as Hf1. pose proof (st_id _ _ _ _ _ _ _ _ Hst) as Eid1. rewrite Eid in Eid1.
  assert (live (put_inode n1 f) = <[c := n1]> (live f)) as El by (by rewrite live_put, (fo_exists _ _ _ _ Hf1), Eid1). assert (content v1 <$> live (put_inode n1 f) = content v <$> live f) as Em1 by (rewrite El, Hm1, Ec; apply insert_id; by rewrite lookup_fmap, Hch).
  assert (c ∈ l_inodes L) as HcI by (by apply (Hu c child)). assert (fs_live L s1 v1 U (put_inode n1 f)) as Hl1.
  { split; [by rewrite El| |done]. intros j m. rewrite El, lookup_insert_Some. intros [[<- _]|[_ Hj]]; [done|by apply (Hu j m)]. }
  unfold reduced. destruct (Z.eqb_spec (hard_links (raw child)) 1) as [E1|E1].
  - rewrite E1. change (1 - 1 =? 0) with true. cbv iota. wp. wp_apply (free_inode_run L HL stack_bytes stack_len stack_ok s1 v1 U n1); [apply Hl1|done|apply Hf1|by rewrite Eid1|]. intros r s2 (->&Hc2&v2&Hi2&Hk2). wp. rewrite Eid1, Eb in *.
    set (f2 := put_inode (with_exists n1 false) _). assert (live f2 = delete c (live f)) as El2 by (unfold f2; rewrite live_put, live_uncache, El; cbn [_exists with_exists id]; by rewrite Eid1, delete_insert_eq).
    destruct (rep_kept L (mark false (l_inodes L) c) (group_count (l_group_inodes L) (igroup L c) (l_group_inodes L (igroup L c) + step false)) (l_sb_inodes L + step false) s1 v1 U (live (put_inode n1 f)) c (blocks_of child) s2 v2) as [Hr2 Hm2]; [done|apply Hl1|done| |done|].
    + rewrite El. intros j m Hj Hne b Hb. rewrite lookup_insert_ne in Hj by done. by apply (rp_apart _ _ _ _ _ Hr j c m child).
    + assert (delete c (live (put_inode n1 f)) = live f2) as Ed by (rewrite El, El2; apply delete_insert_eq). rewrite Ed in *. eexists (mark false (l_inodes L) c), _, _, v2, (U ∖ list_to_set (blocks_of child)), (with_exists n1 false). split_and!; [split; [exact Hr2| |exact Hc2]|..].
      * intros j m. rewrite El2, lookup_delete_Some. intros [Hne Hj]. apply (elem_mark false). split; [by apply (Hu j m)|done].
      * unfold f2, put_inode. cbn [objects remove_cached_inode id with_exists]. by rewrite Eid1, insert_insert_eq.
      * apply subseteq_difference_l. done.
      * done.
      * done.
      * rewrite Hm2, <-Ed, fmap_delete. by rewrite Em1.
      * done.
  - rewrite (proj2 (Z.eqb_neq _ 0)) by lia. wp. exists (l_inodes L), (l_group_inodes L), (l_sb_inodes L), v1, U, n1. split_and!; try done; [by destruct L|]. unfold put_inode. cbn [objects]. by rewrite Eid1.
Qed.
End reduce.

Section remove.
Context {D : Type} `{ByteFileSpec D}.
Context (L : layout) (HL : layout_ok L).
Context (stack_bytes : list Z) (stack_len : length stack_bytes = 14%nat) (stack_ok : bytes stack_bytes).
Implicit Types (s : ext2 D).

(** The directory can be written with the entries [es]. *)
Definition writable_dir U n es : Prop := fits es ∧ dir_len es < 2 ^ 31 ∧ truncatable L U n (dir_len es).

(** The entries are written to the directory; the other files are as before. *)
Lemma rewrite_dir_run I G k s v U f i n es es' : fs_live (relayout L I G k) s v U f → objects f !! i = Some n → dir_ok (relayout L I G k) v U n es → Forall entry_ok es' → writable_dir U n es' →
  run (write_directory_entries stack_bytes n es') s (λ r s', ∃ n' v' U', r = (Ok tt, n') ∧ fs_live (relayout L I G k) s' v' U' (put_inode n' f) ∧ id n' = i ∧ _dirty n' = false ∧ dir_ok L v' U' n' es' ∧
    content v' <$> live (put_inode n' f) = <[i := content v' n']> (content v <$> live f) ∧ ∀ b, b ∈ U' → b ∈ U ∨ b ∈ blocks_of n').
Proof.
  intros [Hr Hu Hc] Hn Hd Hok (Hfit&Hsz&Htr). set (L1 := relayout L I G k) in *. assert (layout_ok L1) as HL1 by (by apply relayout_ok). assert (live f !! i = Some n) as Hln by (apply live_lookup; split; [done|apply Hd]).
  wp_apply (write_directory_entries_run L1 HL1 stack_bytes stack_len stack_ok s v U n es'); [apply Hr|apply Hd|apply Hd|apply Hd|done|done|done|exact Htr|]. intros r s' (n'&v'&U'&->&Hst&_&_&Hd').
  destruct (rep_step L1 s v U (live f) i n v' U' n' s' Hr Hln Hst) as [Hr' Hm']. destruct (rp_file _ _ _ _ _ Hr i n Hln) as [Ei _]. pose proof (st_id _ _ _ _ _ _ _ _ Hst) as Ei'. rewrite Ei in Ei'.
  assert (live (put_inode n' f) = <[i := n']> (live f)) as El by (by rewrite live_put, (fo_exists _ _ _ _ (do_file _ _ _ _ _ Hd')), Ei'). exists n', v', U'. rewrite El. split_and!; try done.
  - split; [by rewrite El| |done]. intros j m. rewrite El, lookup_insert_Some. intros [[<- _]|[_ Hj]]; [by apply (Hu i n)|by apply (Hu j m)].
  - apply Hd'.
  - destruct Hd' as [Hf' ? ? ? ?]. split; try done. by destruct Hf' as [[] [] ? ?]; split; [split|split|..].
  - intros b Hb. destruct (decide (b ∈ blocks_of n')) as [|Hnb]; [by right|left]. by apply (st_others _ _ _ _ _ _ _ _ Hst b).
Qed.

(** The outcome of [remove_entry] for a file. *)
Definition removed v U f i c child es f' s' : Prop :=
  ∃ I G k v' U' n', fs_live (relayout L I G k) s' v' U' f' ∧ objects f' !! i = Some n' ∧ dir_ok L v' U' n' es ∧
    if hard_links (raw child) =? 1 then I = l_inodes L ∖ {[c]} ∧ live f' !! c = None ∧ (c ∉ cached f') ∧ content v' <$> live f' = <[i := content v' n']> (delete c (content v <$> live f)) ∧ ∀ b, b ∈ blocks_of child → b ∈ U' → b ∈ blocks_of n'
    else I = l_inodes L ∧ content v' <$> live f' = <[i := content v' n']> (content v <$> live f) ∧ ∃ child', live f' !! c = Some child' ∧ hard_links (raw child') = hard_links (raw child) - 1.

Lemma remove_entry_run s v U f i n es1 e es2 name (stack : list Z) child : fs_live L s v U f → objects f !! i = Some n → dir_ok L v U n (es1 ++ e :: es2) → live f !! d_id e = Some child → d_id e ∈ cached f → i ≠ d_id e → is_directory (_metadata child) = false →
  1 ≤ hard_links (raw child) → same_name name (d_name e) = true → has_name name es2 = false → zlength stack = 1024 → 0 < zlength name ≤ 256 → writable_dir U n (es1 ++ es2) →
  run (remove_entry stack_bytes stack i name f) s (λ r s', r.1 = Ok tt ∧ removed v U f i (d_id e) child (es1 ++ es2) r.2 s').
Proof.
  intros Hlive Hn Hd Hch Hca Hne Hnd Hh Hname Hlast Hst Hl (Hfit&Hsz&Htr). set (c := d_id e) in *. assert (live f !! i = Some n) as Hln by (apply live_lookup; split; [done|apply Hd]). pose proof (proj1 (live_lookup f c child) Hch) as [Hoc _].
  unfold remove_entry. wp. apply (the_inode_run _ i f n); [done|]. rewrite (do_directory _ _ _ _ _ Hd), (proj2 (Z.eqb_neq _ 0)), (proj2 (Z.ltb_ge NAME_MAXLEN _)) by (unfold NAME_MAXLEN; lia). cbn [negb orb]. wp.
  wp_apply (iterate_entries_run L HL all_entries s v U n (es1 ++ e :: es2) stack []); [apply Hlive|done|done|]. intros r s1 (->&Hi1). rewrite visit_all. cbn [app]. rewrite last_named_found by done. cbn beta iota zeta. wp.
  unfold get_inode. rewrite bool_decide_eq_true_2 by done. wp. apply (the_inode_run _ c f child); [done|]. wp. rewrite Hnd. wp. assert (fs_live L s1 v U f) as Hlive1 by (destruct Hlive as [[? ? ?] ? ?]; by split; [split|..]).
  wp_apply (reduce_run L HL stack_bytes stack_len stack_ok s1 v U f c child); [done|done|done|]. intros f1 s2 (I&G&k&v2&U2&child2&Hl2&Eo&HU2&Hcase). wp. cbn beta iota.
  assert (objects f1 !! i = Some n) as Hn2 by (rewrite Eo; by rewrite lookup_insert_ne). assert (live f1 !! i = Some n) as Hln2 by (apply live_lookup; split; [done|apply Hd]).
  assert (content v2 n = content v n) as Ecn.
  { assert ((content v2 <$> live f1) !! i = (content v <$> live f) !! i) as E. { destruct (hard_links (raw child) =? 1); [destruct Hcase as (_&_&->&_); by rewrite lookup_delete_ne|destruct Hcase as (_&_&->&_); done]. }
    rewrite !lookup_fmap, Hln, Hln2 in E. cbn in E. congruence. }
  assert (dir_ok (relayout L I G k) v2 U2 n (es1 ++ e :: es2)) as Hd2 by (destruct Hd; split; [by apply (rp_file _ _ _ _ _ (lv_rep _ _ _ _ _ Hl2) i n)|done|by rewrite Ecn|done|done]). wp. apply (the_inode_run _ i f1 n); [done|]. wp.
  assert (delete (0 + length es1)%nat (es1 ++ e :: es2) = es1 ++ es2) as -> by (apply delete_middle). assert (Forall entry_ok (es1 ++ es2)) as Hok.
  { pose proof (dir_content_ok _ _ (do_content _ _ _ _ _ Hd)) as [H1 [_ H2]%Forall_cons]%Forall_app. by apply Forall_app. }
  wp_apply (rewrite_dir_run I G k s2 v2 U2 f1 i n (es1 ++ e :: es2) (es1 ++ es2)); [done|done|done|done|split_and!; [done|done|by apply (truncatable_mono L U)]|].
  intros r s3 (n'&v3&U3&->&Hl3&Ei'&Hdi&Hd3&Hm3&HU3). cbn beta iota zeta. rewrite Hdi. wp. cbn [fst snd]. split; [done|]. exists I, G, k, v3, U3, n'. split_and!; [done|unfold put_inode; cbn [objects]; rewrite Ei'; apply lookup_insert_eq|done|].
  destruct (hard_links (raw child) =? 1).
  - destruct Hcase as (->&->&Hm2&Eca). rewrite Hm3, Hm2. split_and!; [done| |unfold put_inode; cbn [cached]; rewrite Eca; set_solver|done|].
    + pose proof (f_equal (λ m, m !! c) Hm3) as E. cbn beta in E. rewrite Hm2, lookup_insert_ne, lookup_delete_eq, lookup_fmap in E by done. by destruct (live (put_inode n' f1) !! c).
    + intros b Hb Hb3. destruct (HU3 b Hb3) as [Hb2|]; [|done]. set_solver.
  - destruct Hcase as (->&->&Hm2&Eh2&Eca). rewrite Hm3, Hm2. split_and!; [done|done|]. exists child2. split; [|done].
    pose proof (f_equal (λ m, m !! c) Hm2) as E. cbn beta in E. rewrite !lookup_fmap, Hch in E. destruct (live f1 !! c) as [m|] eqn:Em; [|done]. pose proof (proj1 (live_lookup _ _ _) Em) as [Eom Exm]. rewrite Eo, lookup_insert_eq in Eom. injection Eom as ->.
    apply live_lookup. split; [|done]. unfold put_inode. cbn [objects]. rewrite Ei', lookup_insert_ne, Eo by done. apply lookup_insert_eq.
Qed.

Lemma remove_absent_run s v U f i n es name (stack : list Z) : fs_live L s v U f → objects f !! i = Some n → dir_ok L v U n es → has_name name es = false → zlength stack = 1024 → 0 < zlength name ≤ 256 →
  run (remove_entry stack_bytes stack i name f) s (λ r s', r = (Err (- ENOENT), f) ∧ fs_live L s' v U f).
Proof.
  intros Hlive Hn Hd Hno Hst Hl. unfold remove_entry. wp. apply (the_inode_run _ i f n); [done|]. rewrite (do_directory _ _ _ _ _ Hd), (proj2 (Z.eqb_neq _ 0)), (proj2 (Z.ltb_ge NAME_MAXLEN _)) by (unfold NAME_MAXLEN; lia). cbn [negb orb]. wp.
  wp_apply (iterate_entries_run L HL all_entries s v U n es stack []); [apply Hlive|done|done|]. intros r s1 (->&Hi1). rewrite visit_all. cbn [app]. rewrite last_named_absent by done. wp. split; [done|]. destruct Hlive as [[? ? ?] ? ?]. by split; [split|..].
Qed.


End remove.

(** ** The small filesystem *)

Definition small_inodes : inodes := mk_inodes small_files {[2; 3]}.

Lemma small_live : fs_live small_layout small_state small_image small_used small_inodes.
Proof.
  assert (live small_inodes = small_files) as E by (unfold live; apply map_filter_id; unfold small_files; intros i n; cbn [objects small_inodes]; rewrite lookup_insert_Some, lookup_singleton_Some; by intros [[_ <-]|[_ [_ <-]]]).
  split; [rewrite E; apply small_files_rep| |split; [vm_compute; reflexivity|]].
  - intros i n. rewrite E. unfold small_files. rewrite lookup_insert_Some, lookup_singleton_Some. intros [[<- _]|[_ [<- _]]]; by apply (bool_decide_unpack _); vm_compute.
  - intros g Hg. change (ng small_layout) with 1 in Hg. replace g with 0 by lia. vm_compute. reflexivity.
Qed.

Lemma small_addable child : addable small_layout small_used small_dir small_entries [97] child.
Proof. split_and!; [by apply (bool_decide_unpack _); vm_compute|by vm_compute|]. left. split_and!; [by vm_compute|by vm_compute|]. apply Z.leb_le. vm_compute. reflexivity. Qed.



(** A file that is created and removed again stays on the disk: the directory is as before, but the inode is still in use. *)
Example created_file_stays :
  match create_entry (zeroes 14) (zeroes 1024) 2 [97] 0x81A4 0 0 small_inodes small_state with
  | Done ((Ok c, f), s) =>
      match remove_entry (zeroes 14) (zeroes 1024) 2 [97] f s with
      | Done ((Ok _, f), s) =>
          match iterate_entries all_entries (zeroes 1024) small_dir [] s with
          | Done (es, _) => Some (c, bool_decide (c ∈ cached f), hard_links ∘ raw <$> objects f !! c, sb_free_inodes (superblock s), (λ e, d_name e) <$> es)
          | _ => None
          end
      | _ => None
      end
  | _ => None
  end = Some (4, true, Some 1, sb_free_inodes (superblock small_state) - 1, [[46]; [46; 46]; [104; 105]]).
Proof. vm_compute. reflexivity. Qed.

(** A directory that cannot be created, because the name is there, still counts as a link of its parent. *)
Example failed_mkdir_counts :
  match create_entry (zeroes 14) (zeroes 1024) 2 [104; 105] 0x41ED 0 0 small_inodes small_state with
  | Done ((r, f), _) => Some (r, hard_links ∘ raw <$> objects f !! 2, hard_links ∘ raw <$> objects small_inodes !! 2)
  | _ => None
  end = Some (Err (- EEXIST), Some 3, Some 2).
Proof. vm_compute. reflexivity. Qed.
