(* ===== verification/Vfs.v ===== *)
(** * The virtual filesystem (kernel/filesystem/VFS.cpp, Inode.cpp, LinkedInode.cpp, InodeMetadata.cpp, User.cpp, FileDescriptor.cpp)

    Paths, permissions and the operations on files by their paths, over any filesystems: the
    virtual functions of [Inode] and [Filesystem] are the operations of the class [Inodes].
    A [kstd::string] is the list of its bytes, as [KString] justifies; the use of a null
    reference is a failed [ASSERT].  Paths are resolved after a root has been mounted; a root
    that is not there counts as used as soon as a path leads to it. *)

From stdpp Require Import base numbers list list_numbers option gmap.
From S2P Require Import Prelude.
From S2P Require Import ByteBuf.
From S2P Require Import KString.
From S2P Require Import Ext2Inode.
From S2P Require Import Ext2Dir.

Local Open Scope Z_scope.

(** ** Operations on filesystems *)

Definition fsop (S A : Type) : Type := S → outcome (A * S).

#[export] Instance fsop_ret {S} : MRet (fsop S) := λ A a s, Done (a, s).
#[export] Instance fsop_bind {S} : MBind (fsop S) := λ A B f m s, match m s with Done (a, s) => f a s | Panic => Panic | Undef => Undef | NoFuel => NoFuel end.

Definition done {S A} (a : A) : fsop S A := λ s, Done (a, s).
Definition raise {S A} (o : outcome A) : fsop S A := λ s, a ← o; Done (a, s).

(** An inode: the filesystem it belongs to ([fs.fsid()]) and its number. *)
Record vnode := mk_vnode {
  fsid : Z;
  vid : Z;
}.

#[export] Instance vnode_eq_dec : EqDecision vnode.
Proof. solve_decision. Defined.

(** The virtual functions of [Inode] and [Filesystem], and those of devices. *)
Class Inodes (S : Type) := {
  get_metadata : vnode → fsop S metadata;
  find_id : vnode → list Z → fsop S Z;
  get_inode : Z → Z → fsop S (result vnode);
  root_inode_id : Z → Z;
  read : vnode → Z → Z → fsop S (Z * list Z);
  write : vnode → Z → list Z → fsop S Z;
  add_entry : vnode → list Z → vnode → fsop S (result unit);
  create_entry : vnode → list Z → Z → Z → Z → fsop S (result vnode);
  remove_entry : vnode → list Z → fsop S (result unit);
  truncate : vnode → Z → fsop S (result unit);
  chmod : vnode → Z → fsop S (result unit);
  chown : vnode → Z → Z → fsop S (result unit);
  open_inode : vnode → Z → fsop S unit;
  close_inode : vnode → fsop S unit;
  get_device : Z → Z → fsop S (result Z);
  device_read : Z → Z → Z → fsop S (Z * list Z);
  device_write : Z → Z → list Z → fsop S Z;
}.

(** ** Users and permissions *)

Record user := mk_user {
  u_uid : Z;
  u_gid : Z;
  euid : Z;
  egid : Z;
  groups : list Z;
}.

Definition in_group (u : user) (grp : Z) : bool := (grp =? egid u) || existsb (λ g, g =? grp) (groups u).
Definition can_override_permissions (u : user) : bool := euid u =? 0.
Definition can_setuid (u : user) : bool := euid u =? 0.
Definition can_setgid (u : user) : bool := euid u =? 0.

(** [User::User(uid_t)]. *)
Definition User (uid : Z) : user := mk_user uid uid uid uid [].


Definition PERM_O_X : Z := 1.
Definition PERM_O_W : Z := 2.
Definition PERM_O_R : Z := 4.
Definition PERM_G_X : Z := 8.
Definition PERM_G_W : Z := 16.
Definition PERM_G_R : Z := 32.
Definition PERM_U_X : Z := 64.
Definition PERM_U_W : Z := 128.
Definition PERM_U_R : Z := 256.
Definition PERM_SETGID : Z := 1024.
Definition PERM_SETUID : Z := 2048.

Definition has (mode bits : Z) : bool := negb (Z.land mode bits =? 0).

(** [can_write], [can_execute] and [can_read] of [InodeMetadata]. *)
Definition permits (o u g : Z) (m : metadata) (usr : user) : bool :=
  can_override_permissions usr || has (mode m) o || (has (mode m) u && (euid usr =? uid m)) || (has (mode m) g && in_group usr (u16 (gid m))).
Definition can_write : metadata → user → bool := permits PERM_O_W PERM_U_W PERM_G_W.
Definition can_execute : metadata → user → bool := permits PERM_O_X PERM_U_X PERM_G_X.
Definition can_read : metadata → user → bool := permits PERM_O_R PERM_U_R PERM_G_R.

(** ** Options *)

Definition O_WRONLY : Z := 0x000001.
Definition O_RDWR : Z := 0x000002.
Definition O_APPEND : Z := 0x000008.
Definition O_CREAT : Z := 0x000200.
Definition O_TRUNC : Z := 0x000400.
Definition O_EXCL : Z := 0x000800.
Definition O_NOFOLLOW : Z := 0x100000.
Definition O_DIRECTORY : Z := 0x200000.
Definition O_INTERNAL_RETLINK : Z := 0x1000000.
Definition VFS_RECURSION_LIMIT : Z := 5.

(** ** Linked inodes *)

(** An inode with the name and the directory it was found under; the root has none. *)
Inductive linked :=
  | link_root (n : vnode) (name : list Z)
  | link_in (n : vnode) (name : list Z) (parent : linked).

Definition l_inode (l : linked) : vnode := match l with link_root n _ => n | link_in n _ _ => n end.
Definition l_name (l : linked) : list Z := match l with link_root _ name => name | link_in _ name _ => name end.
Definition l_parent (l : linked) : option linked := match l with link_root _ _ => None | link_in _ _ p => Some p end.

Definition slash : Z := 47.

(** The inode, its directory, and so on up to the root. *)
Fixpoint chain (l : linked) : list linked := l :: match l with link_in _ _ p => chain p | link_root _ _ => [] end.

(** The array that the chain is stored in has 128 places. *)
Definition get_full_path (l : linked) : outcome (list Z) :=
  match l_parent l with
  | None => Done [slash]
  | Some _ => if (128 <? length (chain l))%nat then Undef else Done (concat ((λ x, slash :: l_name x) <$> tail (reverse (chain l))))
  end.

(** ** The state of the VFS *)

(** [VFS::Mount]. *)
Record mount := mk_mount {
  guest_fs : Z;
  host_inode : vnode;
}.

Record vfs := mk_vfs {
  _root_ref : option linked;
  mounts : list mount;
}.

Definition get_mount (V : vfs) (n : vnode) : option mount := find (λ m, bool_decide (host_inode m = n)) (mounts V).

(** ** Paths *)

(** What comes before the first slash and what comes after it. *)
Definition next_part (path : list Z) : list Z * list Z :=
  let slash_index := first_index slash path 0 in
  if slash_index =? npos then (path, []) else (take (Z.to_nat slash_index) path, drop (Z.to_nat (slash_index + 1)) path).

Definition path_base (path : list Z) : list Z :=
  let slash_index := after_last slash path in
  if slash_index =? npos then path else if slash_index =? zlength path - 1 then [] else drop (Z.to_nat slash_index) path.

Definition path_minus_base (path : list Z) : list Z :=
  let slash_index := after_last slash path in
  if slash_index =? npos then [] else take (Z.to_nat slash_index) path.

Definition starts_with_slash (path : list Z) : bool := bool_decide (head path = Some slash).

(** A slash at the end is removed. *)
Definition strip_slash (path : list Z) : list Z := if bool_decide (last path = Some slash) then take (length path - 1) path else path.

Definition dot : list Z := [46].
Definition dotdot : list Z := [46; 46].

Section vfs.
Context {S : Type} `{Inodes S}.
Context (V : vfs).

(** [Inode::find]. *)
Definition find_child (n : vnode) (name : list Z) : fsop S (result vnode) :=
  m ← get_metadata n;
  if negb (inode_id m =? 0) && negb (is_directory m) then done (Err (- EISDIR))
  else
    i ← find_id n name;
    if negb (i =? 0) then get_inode (fsid n) i else done (Err (- ENOENT)).

(** A result, and what the pointer [parent_storage] points to then. *)
Definition resolved : Type := result linked * option linked.

(** [Inode::resolve_link]; [resolve] is [resolve_path] with the next level of recursion. *)
Definition resolve_link (resolve : list Z → linked → option linked → fsop S resolved) (n : vnode) (base : linked) (parent : option linked) : fsop S resolved :=
  m ← get_metadata n;
  if negb (is_symlink m) then raise Panic
  else
    '(res, buf) ← read n 0 (size m);
    if negb (u32 res =? size m) then done (Err (if res <? 0 then res else - EIO), parent)
    else resolve (cstr buf) base parent.

(** The loop of [resolve_path] over the parts of the path. *)
Fixpoint resolve_parts (resolve : list Z → linked → option linked → fsop S resolved) (u : user) (options : Z) (fuel : nat) (path : list Z) (current : linked) (parent : option linked) : fsop S resolved :=
  match fuel with
  | O => raise NoFuel
  | Datatypes.S fuel =>
      if bool_decide (path = []) then done (Ok current, l_parent current)
      else
        m ← get_metadata (l_inode current);
        if negb (is_directory m) then done (Err (- ENOTDIR), parent)
        else if negb (can_execute m u) then done (Err (- EACCES), parent)
        else
          let '(part, path) := next_part path in
          if bool_decide (part = dotdot) then resolve_parts resolve u options fuel path (default current (l_parent current)) parent
          else if bool_decide (part = dot) then resolve_parts resolve u options fuel path current parent
          else
            r ← find_child (l_inode current) part;
            match r with
            | Err e => done (Err e, if first_index slash path 0 =? npos then Some current else parent)
            | Ok child =>
                cm ← get_metadata child;
                if is_symlink cm then
                  if bool_decide (path = []) && has options O_NOFOLLOW then done (Err (- ELOOP), parent)
                  else if bool_decide (path = []) && has options O_INTERNAL_RETLINK then done (Ok (link_in child part current), Some current)
                  else
                    '(r, parent) ← resolve_link resolve child current parent;
                    if bool_decide (path = []) then done (r, parent)
                    else match r with Err e => done (Err e, parent) | Ok l => resolve path l parent end
                else
                  match get_mount V child with
                  | Some mt =>
                      r ← get_inode (guest_fs mt) (root_inode_id (guest_fs mt));
                      match r with
                      | Err e => done (Err e, parent)
                      | Ok guest => resolve_parts resolve u options fuel path (link_in guest part current) parent
                      end
                  | None => resolve_parts resolve u options fuel path (link_in child part current) parent
                  end
            end
  end.

(** [resolve_path], with [levels] levels of recursion left. *)
Fixpoint resolve_at (levels : nat) (u : user) (options : Z) (path : list Z) (base : linked) (parent : option linked) : fsop S resolved :=
  match levels with
  | O => done (Err (- ELOOP), parent)
  | Datatypes.S levels =>
      let root := raise (match _root_ref V with Some r => Done r | None => Panic end) in
      if bool_decide (path = [slash]) then r ← root; done (Ok r, parent)
      else
        current ← (if starts_with_slash path then root else done base);
        let path := if starts_with_slash path then tail path else path in
        resolve_parts (resolve_at levels u options) u options (Datatypes.S (length path)) path current parent
  end.

Definition resolve_path (path : list Z) (base : linked) (u : user) (options : Z) : fsop S resolved :=
  resolve_at (Z.to_nat (VFS_RECURSION_LIMIT + 1)) u options path base None.

(** ** Open files *)

(** The file of a descriptor: an inode ([InodeFile]) or a device. *)
Inductive file :=
  | InodeFile (n : vnode)
  | DeviceFile (d : Z).

(** [FileDescriptor]. *)
Record descriptor := mk_descriptor {
  _file : file;
  _options : Z;
  _readable : bool;
  _writable : bool;
  _append : bool;
  _can_seek : bool;
  _seek : Z;
}.

Definition set_options (fd : descriptor) (options : Z) : descriptor :=
  mk_descriptor (_file fd) options (negb (has options O_WRONLY) || has options O_RDWR) (has options O_WRONLY || has options O_RDWR) (has options O_APPEND) (_can_seek fd) (_seek fd).

(** A new descriptor with its options. *)
Definition FileDescriptor (f : file) (options : Z) : descriptor := set_options (mk_descriptor f 0 false false false true 0) options.

(** [FileDescriptor::open] of an inode. *)
Definition open_file (n : vnode) (options : Z) : fsop S descriptor := _ ← open_inode n options; done (FileDescriptor (InodeFile n) options).

(** What a descriptor says of its file; a device is no inode. *)
Definition fd_metadata (fd : descriptor) : fsop S metadata := match _file fd with InodeFile n => get_metadata n | DeviceFile _ => done (mk_metadata 0 0 0 0 0 0 0) end.

Definition exists_ (m : metadata) : bool := negb (inode_id m =? 0).

(** [InodeFile::read] and [write], or those of a device. *)
Definition file_read (f : file) (offset count : Z) : fsop S (Z * list Z) :=
  match f with
  | InodeFile n => m ← get_metadata n; if exists_ m && is_directory m then done (- EISDIR, []) else read n offset count
  | DeviceFile d => device_read d offset count
  end.

Definition file_write (f : file) (offset : Z) (buffer : list Z) : fsop S Z :=
  match f with
  | InodeFile n => m ← get_metadata n; if exists_ m && is_directory m then done (- EISDIR) else write n offset buffer
  | DeviceFile d => device_write d offset buffer
  end.

Definition set_seek (k : Z) (fd : descriptor) : descriptor := mk_descriptor (_file fd) (_options fd) (_readable fd) (_writable fd) (_append fd) (_can_seek fd) k.

(** A sum of two numbers of type [off_t]. *)
Definition off_add (a b : Z) : outcome Z := if (- 2 ^ 31 <=? a + b) && (a + b <? 2 ^ 31) then Done (a + b) else Undef.

(** [FileDescriptor::seek]. *)
Definition seek (fd : descriptor) (offset whence : Z) : fsop S (Z * descriptor) :=
  if negb (_can_seek fd) then done (- ESPIPE, fd)
  else
    m ← fd_metadata fd;
    let finish new_seek :=
      if new_seek <? 0 then done (- EINVAL, fd)
      else if exists_ m && is_device m && (size m <? new_seek) then done (- EINVAL, fd)
      else done (new_seek, set_seek new_seek fd) in
    if whence =? 0 then finish offset
    else if whence =? 1 then k ← raise (off_add (_seek fd) offset); finish k
    else if whence =? 2 then (if exists_ m then finish (s32 (u32 (size m + offset))) else done (- EIO, fd))
    else done (- EINVAL, fd).

(** Both tests for a sum below zero are of an unsigned number: they are never true. *)
Definition fd_advance (ret : Z) (fd : descriptor) : fsop S descriptor :=
  if _can_seek fd && (0 <? ret) then k ← raise (off_add (_seek fd) ret); done (set_seek k fd) else done fd.

Definition fd_read (fd : descriptor) (count : Z) : fsop S (Z * list Z * descriptor) :=
  if negb (_readable fd) then done (- EBADF, [], fd)
  else
    '(ret, buf) ← file_read (_file fd) (u32 (_seek fd)) count;
    fd ← fd_advance ret fd;
    done (ret, buf, fd).

Definition fd_write (fd : descriptor) (buffer : list Z) : fsop S (Z * descriptor) :=
  if negb (_writable fd) then done (- EBADF, fd)
  else
    m ← fd_metadata fd;
    let fd := if _append fd && _can_seek fd && exists_ m then set_seek (s32 (size m)) fd else fd in
    ret ← file_write (_file fd) (u32 (_seek fd)) buffer;
    fd ← fd_advance ret fd;
    done (ret, fd).

(** ** Mounting *)

(** [VFS::mount], of the filesystem [fs]. *)
Definition mount_at (fs : Z) (mountpoint : linked) : fsop S (result vfs) :=
  m ← get_metadata (l_inode mountpoint);
  if negb (is_directory m) then done (Err (- ENOTDIR))
  else if existsb (λ x, (guest_fs x =? fs) || bool_decide (host_inode x = l_inode mountpoint)) (mounts V) then done (Err (- EBUSY))
  else done (Ok (mk_vfs (_root_ref V) (mounts V ++ [mk_mount fs (l_inode mountpoint)]))).

(** ** Operations on paths *)

Definition IS_TYPE (mode type : Z) : bool := Z.land mode 0xF000 =? type.
Definition MODE_FIFO : Z := 0x1000.
Definition MODE_SOCKET : Z := 0xC000.

Definition create (path : list Z) (options mode : Z) (u : user) (parent : linked) : fsop S (result descriptor) :=
  let mode := if negb (IS_TYPE mode MODE_BLOCK_DEVICE) && negb (IS_TYPE mode MODE_CHAR_DEVICE) && negb (IS_TYPE mode MODE_FIFO) && negb (IS_TYPE mode MODE_SOCKET) then Z.lor mode MODE_FILE else mode in
  m ← get_metadata (l_inode parent);
  if negb (can_write m u) then done (Err (- EACCES))
  else
    r ← create_entry (l_inode parent) (path_base path) mode (euid u) (egid u);
    match r with Err e => done (Err e) | Ok child => fd ← open_file child options; done (Ok fd) end.

(** [open] once the file has been found. *)
Definition open_found (options : Z) (u : user) (l : linked) : fsop S (result descriptor) :=
  m ← get_metadata (l_inode l);
  if (negb (has options O_WRONLY) || has options O_RDWR) && negb (can_read m u) then done (Err (- EACCES))
  else if (has options O_WRONLY || has options O_RDWR) && negb (can_write m u) then done (Err (- EACCES))
  else if has options O_DIRECTORY && negb (is_directory m) then done (Err (- ENOTDIR))
  else if is_device m then
    r ← get_device (dev_major m) (dev_minor m);
    match r with Err e => done (Err e) | Ok d => done (Ok (FileDescriptor (DeviceFile d) options)) end
  else
    _ ← (if has options O_TRUNC then _ ← truncate (l_inode l) 0; done tt else done tt);
    fd ← open_file (l_inode l) options;
    done (Ok fd).

Definition open (path : list Z) (options mode : Z) (u : user) (base : linked) : fsop S (result descriptor) :=
  if bool_decide (path = []) then done (Err (- ENOENT))
  else if has options O_DIRECTORY && has options O_CREAT then done (Err (- EINVAL))
  else
    let resolve_options := if has options O_NOFOLLOW then O_NOFOLLOW else 0 in
    '(resolv, parent) ← resolve_path path base u 0;
    if has options O_CREAT then
      match parent with
      | None => done (Err (- ENOENT))
      | Some parent =>
          match resolv with
          | Err e =>
              if e =? - ENOENT then
                '(r, _) ← resolve_path (path_minus_base path) base u resolve_options;
                match r with Err e => done (Err e) | Ok _ => create path options mode u parent end
              else done (Err e)
          | Ok l => if has options O_EXCL then done (Err (- EEXIST)) else open_found options u l
          end
      end
    else match resolv with Err e => done (Err e) | Ok l => open_found options u l end.

Definition unlink (path : list Z) (u : user) (base : linked) : fsop S (result unit) :=
  '(resolv, parent) ← resolve_path path base u O_INTERNAL_RETLINK;
  match resolv with
  | Err e => done (Err e)
  | Ok l =>
      match parent with
      | None => raise Panic
      | Some parent =>
          pm ← get_metadata (l_inode parent);
          if negb (can_write pm u) then done (Err (- EACCES))
          else
            m ← get_metadata (l_inode l);
            if is_directory m then done (Err (- EISDIR)) else remove_entry (l_inode parent) (path_base path)
      end
  end.

Definition link (file link_name : list Z) (u : user) (base : linked) : fsop S (result unit) :=
  '(resolv, parent) ← resolve_path link_name base u 0;
  match resolv with
  | Ok _ => done (Err (- EEXIST))
  | Err e =>
      if negb (e =? - ENOENT) then done (Err e)
      else
        match parent with
        | None => done (Err (- ENOENT))
        | Some parent =>
            pm ← get_metadata (l_inode parent);
            if negb (can_write pm u) then done (Err (- EACCES))
            else
              '(resolv, _) ← resolve_path file base u 0;
              match resolv with
              | Err e => done (Err e)
              | Ok old =>
                  m ← get_metadata (l_inode old);
                  if is_directory m then done (Err (- EISDIR))
                  else if negb (fsid (l_inode old) =? fsid (l_inode parent)) then done (Err (- EXDEV))
                  else add_entry (l_inode parent) (path_base link_name) (l_inode old)
              end
        end
  end.

(** The code of the first result is compared with [ENOENT], which is not negative. *)
Definition symlink (file link_name : list Z) (u : user) (base : linked) : fsop S (result unit) :=
  '(resolv, parent) ← resolve_path link_name base u 0;
  match resolv with
  | Ok _ => done (Err (- EEXIST))
  | Err e =>
      if negb (e =? ENOENT) then done (Err e)
      else
        match parent with
        | None => done (Err (- ENOENT))
        | Some parent =>
            pm ← get_metadata (l_inode parent);
            if negb (can_write pm u) then done (Err (- EACCES))
            else
              '(resolv, _) ← resolve_path file base u 0;
              match resolv with
              | Err e => done (Err e)
              | Ok _ =>
                  r ← create_entry (l_inode parent) (path_base link_name) (Z.lor MODE_SYMLINK 0x1FF) (euid u) (egid u);
                  match r with
                  | Err e => done (Err e)
                  | Ok child => nwritten ← write child 0 file; done (if nwritten =? zlength file then Ok tt else Err (if nwritten <? 0 then nwritten else - EIO))
                  end
              end
        end
  end.

Definition readlink (path : list Z) (u : user) (base : linked) : fsop S (result (list Z)) :=
  '(resolv, _) ← resolve_path path base u O_INTERNAL_RETLINK;
  match resolv with
  | Err e => done (Err e)
  | Ok l =>
      m ← get_metadata (l_inode l);
      if negb (is_symlink m) then done (Err (- EINVAL))
      else
        '(r, _) ← resolve_link (resolve_at (Z.to_nat VFS_RECURSION_LIMIT) u 0) (l_inode l) base None;
        match r with Err e => done (Err e) | Ok l => p ← raise (get_full_path l); done (Ok p) end
  end.

Definition rmdir (path : list Z) (u : user) (base : linked) : fsop S (result unit) :=
  let path := strip_slash path in
  if bool_decide (path_base path = dot) then done (Err (- EINVAL))
  else if bool_decide (path_base path = dotdot) then done (Err (- ENOTEMPTY))
  else
    '(resolv, parent) ← resolve_path path base u O_INTERNAL_RETLINK;
    match resolv with
    | Err e => done (Err e)
    | Ok l =>
        m ← get_metadata (l_inode l);
        if negb (is_directory m) then done (Err (- ENOTDIR))
        else if negb (can_write m u) then done (Err (- EACCES))
        else match parent with None => raise Panic | Some parent => remove_entry (l_inode parent) (path_base path) end
    end.

Definition mkdir (path : list Z) (mode : Z) (u : user) (base : linked) : fsop S (result unit) :=
  let path := strip_slash path in
  '(resolv, _) ← resolve_path (path_minus_base path) base u 0;
  match resolv with
  | Err e => done (Err e)
  | Ok parent =>
      m ← get_metadata (l_inode parent);
      if negb (is_directory m) then done (Err (- ENOTDIR))
      else if negb (can_write m u) then done (Err (- EACCES))
      else
        r ← create_entry (l_inode parent) (path_base path) (Z.lor mode MODE_DIRECTORY) (euid u) (egid u);
        done (match r with Err e => Err e | Ok _ => Ok tt end)
  end.

Definition truncate_path (path : list Z) (length : Z) (u : user) (base : linked) : fsop S (result unit) :=
  if length <? 0 then done (Err (- EINVAL))
  else
    '(resolv, _) ← resolve_path path base u 0;
    match resolv with
    | Err e => done (Err e)
    | Ok l =>
        m ← get_metadata (l_inode l);
        if is_directory m then done (Err (- EISDIR))
        else if negb (can_write m u) then done (Err (- EACCES))
        else truncate (l_inode l) length
    end.

Definition chmod_path (path : list Z) (new : Z) (u : user) (base : linked) : fsop S (result unit) :=
  '(resolv, _) ← resolve_path path base u 0;
  match resolv with
  | Err e => done (Err e)
  | Ok l =>
      m ← get_metadata (l_inode l);
      if negb (can_override_permissions u) && negb (euid u =? uid m) then done (Err (- EPERM))
      else chmod (l_inode l) (Z.lor (Z.land (mode m) (Z.lnot 0x9FF)) (Z.land new 0x9FF))
  end.

(** The numbers of a user and a group that stand for none. *)
Definition no_id : Z := 2 ^ 16 - 1.

Definition chown_path (path : list Z) (new_uid new_gid : Z) (u : user) (base : linked) (options : Z) : fsop S (result unit) :=
  '(resolv, _) ← resolve_path path base u options;
  match resolv with
  | Err e => done (Err e)
  | Ok l =>
      m ← get_metadata (l_inode l);
      if negb (can_override_permissions u) && negb (euid u =? uid m) then done (Err (- EPERM))
      else if negb (new_uid =? no_id) && negb (can_override_permissions u) && negb (euid u =? new_uid) then done (Err (- EPERM))
      else if negb (new_gid =? no_id) && negb (can_override_permissions u) && in_group u new_gid then done (Err (- EPERM))
      else
        r ← (if has (mode m) PERM_SETGID || has (mode m) PERM_SETUID then chmod (l_inode l) (Z.land (mode m) (Z.lnot (Z.lor 0x800 0x400))) else done (Ok tt));
        match r with
        | Err e => done (Err e)
        | Ok _ => chown (l_inode l) (if new_uid =? no_id then euid u else new_uid) (if new_gid =? no_id then egid u else new_gid)
        end
  end.

Definition F_OK : Z := 1.
Definition R_OK : Z := 2.
Definition W_OK : Z := 3.
Definition X_OK : Z := 4.

Definition access (path : list Z) (amode : Z) (u : user) (base : linked) : fsop S (result unit) :=
  '(resolv, _) ← resolve_path path base u 0;
  match resolv with
  | Err e => done (Err e)
  | Ok l =>
      m ← get_metadata (l_inode l);
      if amode =? F_OK then done (Ok tt)
      else if has amode R_OK && negb (can_read m u) then done (Err EACCES)
      else if has amode W_OK && negb (can_write m u) then done (Err EACCES)
      else if has amode X_OK && negb (can_execute m u) then done (Err EACCES)
      else done (Ok tt)
  end.
End vfs.

(** [VFS::mount_root]; what [mount] returns is not looked at. *)
Definition mount_root {S} `{Inodes S} (V : vfs) (fs : Z) : fsop S (bool * vfs) :=
  match _root_ref V with
  | Some _ => done (false, V)
  | None =>
      r ← get_inode fs (root_inode_id fs);
      match r with
      | Err _ => done (false, V)
      | Ok n =>
          m ← get_metadata n;
          if negb (is_directory m) then done (false, V)
          else
            let root := link_root n [slash] in
            let V := mk_vfs (Some root) (mounts V) in
            r ← mount_at V fs root;
            done (true, match r with Ok V => V | Err _ => V end)
      end
  end.
