(* ===== verification/VfsSpec.v ===== *)
(** * The virtual filesystem: what a path means

    Against the class [InodesSpec], which says what a filesystem promises, [resolve_path]
    always ends, and gives what a function on the tree of files gives. *)

From stdpp Require Import base numbers list list_numbers option gmap.
From S2P Require Import Prelude.
From S2P Require Import ByteBuf.
From S2P Require Import KString.
From S2P Require Import Ext2Inode.
From S2P Require Import Ext2Dir.
From S2P Require Import Vfs.

Local Open Scope Z_scope.

(** ** Trees *)

(** The files of the filesystems: which inodes there are, their metadata, the entries of directories and the texts of links. *)
Record tree := mk_tree {
  t_valid : vnode → Prop;
  t_meta : vnode → metadata;
  t_child : vnode → list Z → Z;
  t_text : vnode → list Z;
}.

(** What [Inode] and [Filesystem] promise: looking at the files gives what is there, and does not change it. *)
Class InodesSpec (S : Type) `{Inodes S} := {
  tree_rep : S → tree → Prop;
  metadata_ok s w n : tree_rep s w → t_valid w n → ∃ s', get_metadata n s = Done (t_meta w n, s') ∧ tree_rep s' w;
  find_id_ok s w n name : tree_rep s w → t_valid w n → is_directory (t_meta w n) = true → ∃ s', find_id n name s = Done (t_child w n name, s') ∧ tree_rep s' w;
  child_valid s w n name : tree_rep s w → t_valid w n → is_directory (t_meta w n) = true → t_child w n name ≠ 0 → t_valid w (mk_vnode (fsid n) (t_child w n name));
  get_inode_ok s w n : tree_rep s w → t_valid w n → ∃ s', get_inode (fsid n) (vid n) s = Done (Ok n, s') ∧ tree_rep s' w;
  open_ok s w n options : tree_rep s w → t_valid w n → ∃ s', open_inode n options s = Done (tt, s') ∧ tree_rep s' w;
  read_link_ok s w n : tree_rep s w → t_valid w n → is_symlink (t_meta w n) = true →
    0 ≤ size (t_meta w n) < 2 ^ 31 ∧ zlength (t_text w n) = size (t_meta w n) ∧ ∃ s', read n 0 (size (t_meta w n)) s = Done ((size (t_meta w n), t_text w n), s') ∧ tree_rep s' w;
}.

(** ** Parts of a path *)

(** The parts between slashes, each with what follows the slash behind it. *)
Fixpoint splits (path : list Z) : list (list Z * list Z) :=
  match path with
  | [] => []
  | c :: path => if c =? slash then ([], path) :: splits path else match splits path with [] => [([c], [])] | (p, r) :: ps => (c :: p, r) :: ps end
  end.

Definition no_slash (name : list Z) : Prop := slash ∉ name.

Lemma first_index_spec c (l : list Z) : ∀ i, 0 ≤ i → i + zlength l < npos → match list_find (λ x, x = c) l with Some (k, _) => first_index c l i = i + Z.of_nat k | None => first_index c l i = npos end.
Proof.
  induction l as [|x l IH]; intros i Hi Hl; cbn [first_index list_find]; [done|]. destruct (Z.eqb_spec x c) as [->|Hne]; [rewrite decide_True by done; lia|]. rewrite decide_False by done. cbn [length] in Hl. specialize (IH (i + 1) ltac:(lia) ltac:(lia)).
  destruct (list_find _ l) as [[k y]|]; cbn; [rewrite IH; lia|done].
Qed.

Lemma next_part_app name rest : no_slash name → zlength (name ++ slash :: rest) < npos → next_part (name ++ slash :: rest) = (name, rest).
Proof.
  intros Hn Hl. unfold next_part. pose proof (first_index_spec slash (name ++ slash :: rest) 0 ltac:(lia) ltac:(lia)) as E. rewrite list_find_app_r in E.
  - cbn in E. rewrite decide_True in E by done. cbn in E. rewrite E. rewrite length_app in Hl. cbn [length] in Hl. unfold npos in *. rewrite (proj2 (Z.eqb_neq _ _)) by lia.
    f_equal; [rewrite take_app_length' by lia; done|]. rewrite drop_app_ge by lia. replace (_ - _)%nat with 1%nat by lia. done.
  - apply list_find_None. apply Forall_forall. intros x Hx ->. by apply Hn.
Qed.

Lemma next_part_end name : no_slash name → zlength name < npos → next_part name = (name, []).
Proof.
  intros Hn Hl. unfold next_part. pose proof (first_index_spec slash name 0 ltac:(lia) ltac:(lia)) as E. assert (list_find (λ x, x = slash) name = None) as En by (apply list_find_None, Forall_forall; intros x Hx ->; by apply Hn).
  rewrite En in E. by rewrite E.
Qed.

Lemma splits_app name rest : no_slash name → splits (name ++ slash :: rest) = (name, rest) :: splits rest.
Proof.
  induction name as [|c name IH]; intros Hn; cbn; [done|]. destruct (Z.eqb_spec c slash) as [->|]; [destruct Hn; by left|]. rewrite IH; [done|]. intros Hs. apply Hn. by right.
Qed.

Lemma splits_end name : no_slash name → name ≠ [] → splits name = [(name, [])].
Proof.
  induction name as [|c name IH]; intros Hn Hne; [done|]. cbn. destruct (Z.eqb_spec c slash) as [->|]; [destruct Hn; by left|]. destruct name as [|d name]; [done|]. rewrite IH; [done| |done]. intros Hs. apply Hn. by right.
Qed.

(** A path is a part, a slash and a rest, or a part alone. *)
Lemma path_cases (path : list Z) : (∃ name rest, path = name ++ slash :: rest ∧ no_slash name) ∨ no_slash path.
Proof.
  induction path as [|c path [(name&rest&->&Hn)|Hn]]; [right; by intros ?%elem_of_nil| |].
  - left. destruct (decide (c = slash)) as [->|Hc]; [exists [], (name ++ slash :: rest); split; [done|]; by intros ?%elem_of_nil|]. exists (c :: name), rest. split; [done|]. by intros [?|?]%elem_of_cons.
  - destruct (decide (c = slash)) as [->|Hc]; [left; exists [], path; split; [done|]; by intros ?%elem_of_nil|]. right. by intros [?|?]%elem_of_cons.
Qed.

Lemma path_next (path : list Z) : path ≠ [] → zlength path < npos → ∃ part rest, next_part path = (part, rest) ∧ splits path = (part, rest) :: splits rest ∧ (length rest < length path)%nat.
Proof.
  intros Hne Hl. destruct (path_cases path) as [(name&rest&->&Hn)|Hn].
  - exists name, rest. rewrite next_part_app, splits_app by done. split_and!; [done|done|]. rewrite length_app. cbn. lia.
  - exists path, []. rewrite next_part_end, splits_end by done. split_and!; [done|done|]. destruct path; [done|]. cbn. lia.
Qed.

(** ** Walking through the tree *)

Section look.
Context (V : vfs) (root : linked) (guest_root : Z → Z) (w : tree) (u : user) (options : Z).

(** Follows the parts of a path; [rec] is for links. *)
Fixpoint look_parts (rec : list Z → linked → option linked → resolved) (ps : list (list Z * list Z)) (current : linked) (parent : option linked) : resolved :=
  match ps with
  | [] => (Ok current, l_parent current)
  | (part, rest) :: ps =>
      let m := t_meta w (l_inode current) in
      if negb (is_directory m) then (Err (- ENOTDIR), parent)
      else if negb (can_execute m u) then (Err (- EACCES), parent)
      else if bool_decide (part = dotdot) then look_parts rec ps (default current (l_parent current)) parent
      else if bool_decide (part = dot) then look_parts rec ps current parent
      else
        let i := t_child w (l_inode current) part in
        let child := mk_vnode (fsid (l_inode current)) i in
        if i =? 0 then (Err (- ENOENT), if bool_decide (slash ∈ rest) then parent else Some current)
        else if is_symlink (t_meta w child) then
          if bool_decide (rest = []) && has options O_NOFOLLOW then (Err (- ELOOP), parent)
          else if bool_decide (rest = []) && has options O_INTERNAL_RETLINK then (Ok (link_in child part current), Some current)
          else
            let '(r, parent) := rec (cstr (t_text w child)) current parent in
            if bool_decide (rest = []) then (r, parent) else match r with Err e => (Err e, parent) | Ok l => rec rest l parent end
        else
          let found := match get_mount V child with Some mt => mk_vnode (guest_fs mt) (guest_root (guest_fs mt)) | None => child end in
          look_parts rec ps (link_in found part current) parent
  end.

Fixpoint look (levels : nat) (path : list Z) (base : linked) (parent : option linked) : resolved :=
  match levels with
  | O => (Err (- ELOOP), parent)
  | S levels =>
      if bool_decide (path = [slash]) then (Ok root, parent)
      else look_parts (look levels) (splits (if starts_with_slash path then tail path else path)) (if starts_with_slash path then root else base) parent
  end.

(** Every error is a negative number. *)
Lemma look_parts_negative rec : (∀ path base parent e, (rec path base parent).1 = Err e → e < 0) → ∀ ps current parent e, (look_parts rec ps current parent).1 = Err e → e < 0.
Proof.
  intros Hrec. induction ps as [|[part rest] ps IH]; intros current parent e; cbn [look_parts]; [done|]. repeat case_match; cbn; try (by intros [= <-]); try apply IH; try apply Hrec; try done; intros [= ->]; match goal with E : rec _ _ _ = (Err _, _) |- _ => eapply Hrec; by rewrite E end.
Qed.

Lemma look_negative levels : ∀ path base parent e, (look levels path base parent).1 = Err e → e < 0.
Proof.
  induction levels as [|levels IH]; intros path base parent e; cbn [look]; [by intros [= <-]|]. case_bool_decide; [done|]. by apply look_parts_negative.
Qed.
End look.

(** ** Running an operation *)

(** [m] ends in [s], with a value and a state for which [Q] holds. *)
Definition frun {S A} (m : fsop S A) (s : S) (Q : A → S → Prop) : Prop := ∃ a s', m s = Done (a, s') ∧ Q a s'.

Lemma frun_mono {S A} (m : fsop S A) s (P Q : A → S → Prop) : frun m s P → (∀ a s', P a s' → Q a s') → frun m s Q.
Proof. intros (a&s'&E&HP) HQ. exists a, s'. split; [done|by apply HQ]. Qed.

Lemma frun_bind {S A B} (m : fsop S A) (f : A → fsop S B) s Q : frun m s (λ a s', frun (f a) s' Q) → frun (m ≫= f) s Q.
Proof. intros (a&s'&E&b&s2&E2&HQ). exists b, s2. split; [|done]. unfold mbind, fsop_bind. by rewrite E. Qed.

Lemma frun_done {S A} (a : A) (s : S) (Q : A → S → Prop) : Q a s → frun (done a) s Q.
Proof. intros. by exists a, s. Qed.

Lemma frun_raise {S A} (a : A) (s : S) (Q : A → S → Prop) : Q a s → frun (raise (Done a)) s Q.
Proof. intros. by exists a, s. Qed.

Ltac fwp := repeat match goal with
  | |- frun (_ ≫= _) _ _ => apply frun_bind
  | |- frun (done _) _ _ => apply frun_done
  | |- frun (raise (Done _)) _ _ => apply frun_raise
  end.

Section laws.
Context {S : Type} `{InodesSpec S}.
Implicit Types (s : S) (w : tree).

Lemma metadata_run s w n (Q : metadata → S → Prop) : tree_rep s w → t_valid w n → (∀ s', tree_rep s' w → Q (t_meta w n) s') → frun (get_metadata n) s Q.
Proof. intros Hr Hn HQ. destruct (metadata_ok s w n Hr Hn) as (s'&E&Hr'). exists (t_meta w n), s'. split; [done|by apply HQ]. Qed.

(** [Inode::find] in a directory. *)
Lemma find_child_run s w n name (Q : result vnode → S → Prop) : tree_rep s w → t_valid w n → is_directory (t_meta w n) = true →
  (∀ s', tree_rep s' w → Q (if t_child w n name =? 0 then Err (- ENOENT) else Ok (mk_vnode (fsid n) (t_child w n name))) s') → frun (find_child n name) s Q.
Proof.
  intros Hr Hn Hd HQ. unfold find_child. fwp. eapply metadata_run; [done|done|]. intros s1 Hr1. rewrite Hd, andb_false_r. fwp. destruct (find_id_ok s1 w n name Hr1 Hn Hd) as (s2&E2&Hr2). exists (t_child w n name), s2. split; [done|].
  destruct (Z.eqb_spec (t_child w n name) 0) as [Ez|Hnz]; cbn [negb]; [fwp; by apply HQ|]. pose proof (child_valid s w n name Hr Hn Hd Hnz) as Hc. destruct (get_inode_ok s2 w _ Hr2 Hc) as (s3&E3&Hr3). cbn [fsid vid] in E3. exists (Ok (mk_vnode (fsid n) (t_child w n name))), s3. split; [done|by apply HQ].
Qed.

(** ** Resolving paths *)

Context (V : vfs) (root : linked) (w : tree) (u : user) (options : Z).

Definition valid_link (l : linked) : Prop := Forall (λ x, t_valid w (l_inode x)) (chain l).

Definition vfs_ok : Prop := _root_ref V = Some root ∧ valid_link root ∧ Forall (λ m, t_valid w (mk_vnode (guest_fs m) (root_inode_id (guest_fs m)))) (mounts V).

Lemma valid_inode l : valid_link l → t_valid w (l_inode l).
Proof. intros Hl. destruct l; by apply Forall_inv in Hl. Qed.

Lemma valid_parent l : valid_link l → valid_link (default l (l_parent l)).
Proof. destruct l as [n name|n name p]; [done|]. intros Hl. by apply Forall_inv_tail in Hl. Qed.

Lemma valid_in n name p : t_valid w n → valid_link p → valid_link (link_in n name p).
Proof. intros Hn Hp. by constructor. Qed.

Definition valid_opt (o : option linked) : Prop := from_option valid_link True o.

Definition valid_result (r : resolved) : Prop := (∀ l, r.1 = Ok l → valid_link l) ∧ valid_opt r.2.

Lemma valid_up l : valid_link l → valid_opt (l_parent l).
Proof. intros Hl. apply valid_parent in Hl. by destruct l. Qed.

Lemma valid_found l parent : valid_link l → valid_opt parent → valid_result (Ok l, parent).
Proof. split; [by intros ? [= <-]|done]. Qed.

Lemma valid_error e parent : valid_opt parent → valid_result (Err e, parent).
Proof. by split. Qed.

(** The postcondition of the lemmas below. *)
Definition gives (r : resolved) (r' : resolved) (s' : S) : Prop := r' = r ∧ tree_rep s' w ∧ valid_result r'.

Lemma frun_found s l parent : tree_rep s w → valid_link l → valid_opt parent → frun (done (Ok l, parent)) s (gives (Ok l, parent)).
Proof. intros. apply frun_done. split_and!; [done|done|by apply valid_found]. Qed.

Lemma frun_error s e parent : tree_rep s w → valid_opt parent → frun (done (Err e, parent)) s (gives (Err e, parent)).
Proof. intros. apply frun_done. split_and!; [done|done|by apply valid_error]. Qed.

(** What the next level of recursion has to do. *)
Definition resolves (resolve : list Z → linked → option linked → fsop S resolved) (rec : list Z → linked → option linked → resolved) : Prop :=
  ∀ path base parent s, zlength path < npos → valid_link base → valid_opt parent → tree_rep s w → frun (resolve path base parent) s (gives (rec path base parent)).

Lemma cstr_length (l : list Z) : zlength (cstr l) ≤ zlength l.
Proof. induction l as [|x l IH]; [done|]. cbn. destruct (x =? 0); cbn; lia. Qed.

Lemma first_index_slash (path : list Z) : zlength path < npos → (first_index slash path 0 =? npos) = negb (bool_decide (slash ∈ path)).
Proof.
  intros Hl. pose proof (first_index_spec slash path 0 ltac:(lia) ltac:(lia)) as E. destruct (list_find _ path) as [[k y]|] eqn:Ef.
  - apply list_find_Some in Ef as (Hk&->&_). rewrite E, bool_decide_eq_true_2 by (by eapply list_elem_of_lookup_2). cbn. apply Z.eqb_neq. apply lookup_lt_Some in Hk. unfold npos in *. lia.
  - rewrite E, Z.eqb_refl, bool_decide_eq_false_2; [done|]. apply list_find_None in Ef. rewrite Forall_forall in Ef. intros Hs. by apply (Ef slash).
Qed.

Lemma resolve_link_run resolve rec n base parent s : resolves resolve rec → tree_rep s w → t_valid w n → is_symlink (t_meta w n) = true → valid_link base → valid_opt parent →
  frun (resolve_link resolve n base parent) s (gives (rec (cstr (t_text w n)) base parent)).
Proof.
  intros Hrec Hr Hn Hs Hb Hp. unfold resolve_link. fwp. eapply metadata_run; [done|done|]. intros s1 Hr1. rewrite Hs. cbn [negb]. fwp. destruct (read_link_ok s1 w n Hr1 Hn Hs) as (Hsz&Hlen&s2&E&Hr2). eexists _, s2. split; [exact E|]. cbn beta iota.
  rewrite u32_id, Z.eqb_refl by lia. cbn [negb]. apply Hrec; [|done..]. pose proof (cstr_length (t_text w n)). unfold npos. lia.
Qed.

Lemma resolve_parts_run resolve rec : resolves resolve rec → vfs_ok → ∀ fuel path current parent s, (length path < fuel)%nat → zlength path < npos → valid_link current → valid_opt parent → tree_rep s w →
  frun (resolve_parts V resolve u options fuel path current parent) s (gives (look_parts V root_inode_id w u options rec (splits path) current parent)).
Proof.
  intros Hrec (_&_&Hmounts). induction fuel as [|fuel IH]; intros path current parent s Hf Hl Hv Hpar Hr; [lia|]. cbn [resolve_parts]. case_bool_decide as Hp; [subst path; apply frun_found; [done|done|by apply valid_up]|].
  destruct (path_next path Hp Hl) as (part&rest&En&Es&Hrl). rewrite En, Es. cbn [look_parts]. fwp. pose proof (valid_inode current Hv) as Hvi. eapply metadata_run; [done|done|]. intros s1 Hr1.
  destruct (is_directory (t_meta w (l_inode current))) eqn:Hd; cbn [negb]; [|by apply frun_error]. destruct (can_execute _ u); cbn [negb]; [|by apply frun_error].
  case_bool_decide; [apply IH; [lia|lia|by apply valid_parent|done|done]|]. case_bool_decide; [apply IH; [lia|lia|done..]|]. fwp. eapply find_child_run; [done..|]. intros s2 Hr2.
  destruct (Z.eqb_spec (t_child w (l_inode current) part) 0) as [Ez|Hnz]; [rewrite first_index_slash by lia; case_bool_decide; by apply frun_error|].
  set (child := mk_vnode _ _). assert (t_valid w child) as Hvc by (by apply (child_valid s w)). fwp. eapply metadata_run; [done|done|]. intros s3 Hr3. destruct (is_symlink (t_meta w child)) eqn:Hsym.
  - destruct (bool_decide (rest = []) && has options O_NOFOLLOW); [by apply frun_error|]. destruct (bool_decide (rest = []) && has options O_INTERNAL_RETLINK); [apply frun_found; [done|by apply valid_in|done]|].
    fwp. eapply frun_mono; [by apply (resolve_link_run resolve rec)|]. intros [r parent'] s4 (<-&Hr4&Hval). cbn beta iota. case_bool_decide; [by apply frun_done|]. destruct Hval as [Hval Hpar']. destruct r as [l|e]; [|by apply frun_error]. apply Hrec; [lia|by apply Hval|done|done].
  - destruct (get_mount V child) as [mt|] eqn:Hmt; [|apply IH; [lia|lia|by apply valid_in|done|done]]. fwp.
    assert (t_valid w (mk_vnode (guest_fs mt) (root_inode_id (guest_fs mt)))) as Hvg by (rewrite Forall_forall in Hmounts; apply Hmounts; apply find_some in Hmt as [Hin _]; by apply list_elem_of_In).
    destruct (get_inode_ok s3 w _ Hr3 Hvg) as (s4&E4&Hr4). cbn [fsid vid] in E4. eexists _, s4. split; [exact E4|]. cbn beta iota. apply IH; [lia|lia|by apply valid_in|done|done].
Qed.

Lemma resolve_at_run : vfs_ok → ∀ levels, resolves (resolve_at V levels u options) (look V root root_inode_id w u options levels).
Proof.
  intros Hok levels. induction levels as [|levels IH]; intros path base parent s Hl Hv Hpar Hr; cbn [resolve_at look]; [by apply frun_error|]. destruct Hok as (Hroot&Hvr&Hm) eqn:EHok. rewrite Hroot. case_bool_decide; [apply frun_bind, frun_raise; by apply frun_found|].
  apply frun_bind. destruct (starts_with_slash path); fwp; apply (resolve_parts_run _ _ IH Hok); try done; try lia. destruct path; cbn in *; lia.
Qed.

(** [resolve_path] ends, leaves the files alone and finds what [look] finds with six levels. *)
Lemma resolve_path_run : vfs_ok → ∀ path base s, zlength path < npos → valid_link base → tree_rep s w →
  frun (resolve_path V path base u options) s (gives (look V root root_inode_id w u options 6 path base None)).
Proof. intros Hok path base s Hl Hb Hr. by apply (resolve_at_run Hok 6). Qed.
End laws.

(** ** Full paths *)

(** A name that an entry can have: it means no directory of its own. *)
Definition plain_name (name : list Z) : Prop := name ≠ [] ∧ no_slash name ∧ name ≠ dot ∧ name ≠ dotdot.

Section full.
Context (V : vfs) (root : linked) (guest_root : Z → Z) (w : tree) (u : user) (options : Z).

(** The inode that is found under a name: that of the entry, or the root of what is mounted there. *)
Definition found_in (p : linked) (name : list Z) : vnode :=
  let child := mk_vnode (fsid (l_inode p)) (t_child w (l_inode p) name) in
  match get_mount V child with Some mt => mk_vnode (guest_fs mt) (guest_root (guest_fs mt)) | None => child end.

(** A linked inode that is where it says: every name is an entry, which is no link, in a directory that the user can search. *)
Inductive located : linked → Prop :=
  | located_root : located root
  | located_in p name : located p → is_directory (t_meta w (l_inode p)) = true → can_execute (t_meta w (l_inode p)) u = true → plain_name name → t_child w (l_inode p) name ≠ 0 →
      is_symlink (t_meta w (mk_vnode (fsid (l_inode p)) (t_child w (l_inode p) name))) = false → located (link_in (found_in p name) name p).

Fixpoint full (l : linked) : list Z := match l with link_root _ _ => [] | link_in _ name p => full p ++ slash :: name end.

Lemma full_chain l : concat ((λ x, slash :: l_name x) <$> tail (reverse (chain l))) = full l.
Proof.
  induction l as [n name|n name p IH]; [done|]. cbn [chain full]. rewrite reverse_cons. assert (reverse (chain p) ≠ []) as Hne by (intros E; apply (f_equal length) in E; rewrite length_reverse in E; by destruct p).
  destruct (reverse (chain p)) as [|x xs]; [done|]. cbn [tail app] in *. rewrite fmap_app, concat_app, IH. cbn. by rewrite app_nil_r.
Qed.

Lemma look_step rec p name rest ps parent : located (link_in (found_in p name) name p) → link_in (found_in p name) name p ≠ root →
  look_parts V guest_root w u options rec ((name, rest) :: ps) p parent = look_parts V guest_root w u options rec ps (link_in (found_in p name) name p) parent.
Proof.
  intros Hl Hne. inversion Hl as [E|p' name' Hp Hd Hx (Hn&Hs&Hdot&Hdd) Hc Hsym [E1 E2 E3]]; [done|]. subst. cbn [look_parts]. rewrite Hd, Hx. cbn [negb]. rewrite !bool_decide_eq_false_2 by done. rewrite (proj2 (Z.eqb_neq _ 0)) by done. by rewrite Hsym.
Qed.

Context (Hroot : l_parent root = None).

Lemma not_root n name p : link_in n name p ≠ root.
Proof. intros <-. done. Qed.

Lemma full_root l : l_parent l = None → full l = [].
Proof. by destruct l. Qed.

Lemma full_starts l : full l = [] ∨ starts_with_slash (full l) = true.
Proof. induction l as [n name|n name p IH]; [by left|]. right. cbn [full]. destruct IH as [->|IH]; [done|]. unfold starts_with_slash in *. apply bool_decide_eq_true in IH. apply bool_decide_eq_true. by destruct (full p). Qed.

Lemma full_below n name p : name ≠ [] → full (link_in n name p) ≠ [slash].
Proof. cbn. intros Hn. destruct (full p) as [|x [|y xs]]; cbn; [|done|done]. by intros [=]. Qed.

Lemma look_below rec parent l : located l → ∀ t, look_parts V guest_root w u options rec (splits (tail (full l ++ slash :: t))) root parent = look_parts V guest_root w u options rec (splits t) l parent.
Proof.
  intros Hl. pose proof Hl as Hl0. induction Hl as [|p name Hp IH Hd Hx Hname Hc Hsym]; intros t; [by rewrite full_root|]. cbn [full]. rewrite <-app_assoc. cbn [app]. rewrite IH by done. rewrite splits_app by apply Hname. apply look_step; [done|apply not_root].
Qed.

Lemma look_full rec parent n name p : located (link_in n name p) → look_parts V guest_root w u options rec (splits (tail (full (link_in n name p)))) root parent = (Ok (link_in n name p), Some p).
Proof.
  intros Hl. inversion Hl as [E|p' name' Hp Hd Hx Hname Hc Hsym [E1 E2 E3]]; [by destruct (not_root n name p)|]. subst. cbn [full]. rewrite look_below, splits_end by (done || apply Hname). rewrite look_step; [done|done|apply not_root].
Qed.

(** A path from the root leads to what is there. *)
Lemma look_path levels n name p base : located (link_in n name p) → look V root guest_root w u options (S levels) (full (link_in n name p)) base None = (Ok (link_in n name p), Some p).
Proof.
  intros Hl. assert (name ≠ []) as Hne by (inversion Hl as [E|? ? ? ? ? Hname]; [by destruct (not_root n name p)|by apply Hname]). assert (starts_with_slash (full (link_in n name p)) = true) as Hs by (destruct (full_starts (link_in n name p)) as [E|E]; [by apply app_eq_nil in E as [_ E]|done]).
  cbn [look]. rewrite bool_decide_eq_false_2 by (by apply full_below). rewrite Hs. by apply look_full.
Qed.
End full.

Section roundtrip.
Context {S : Type} `{InodesSpec S}.

Lemma get_full_path_full l path : get_full_path l = Done path → path = match l_parent l with Some _ => full l | None => [slash] end.
Proof. unfold get_full_path. destruct (l_parent l); [|by intros [= <-]]. case_match; [done|]. rewrite full_chain. by intros [= <-]. Qed.

Lemma full_path_found (V : vfs) (root : linked) (w : tree) (u : user) (options : Z) (s : S) (base l : linked) (path : list Z) :
  vfs_ok V root w → l_parent root = None → tree_rep s w → valid_link w base → located V root root_inode_id w u l → get_full_path l = Done path → zlength path < npos →
  ∃ s', resolve_path V path base u options s = Done ((Ok l, l_parent l), s') ∧ tree_rep s' w.
Proof.
  intros Hok Hroot Hr Hb Hl Hp Hlen. destruct (resolve_path_run V root w u options Hok path base s Hlen Hb Hr) as (r&s'&E&->&Hr'&_). exists s'. split; [|done]. rewrite E. do 2 f_equal. clear E. apply get_full_path_full in Hp.
  destruct l as [n name|n name p]; [|subst path; by apply look_path]. inversion Hl as [E|]. subst path root. done.
Qed.

(** C16: the full path of a file leads back to the file. For any filesystems behind the VFS: if every name on the way to a linked inode is that of an entry which is no symbolic link, in a directory the user may search, with mounts followed, then [resolve_path] of what [get_full_path] returns ends, from any directory and with any options, with that linked inode and the directory it is in, and leaves the files as they were. *)
Theorem full_path_resolves (V : vfs) (root : linked) (w : tree) (u : user) (options : Z) (s : S) (base l : linked) (path : list Z) :
  vfs_ok V root w → l_parent root = None → tree_rep s w → valid_link w base → located V root root_inode_id w u l → get_full_path l = Done path → zlength path < npos →
  ∃ s', resolve_path V path base u options s = Done ((Ok l, l_parent l), s') ∧ tree_rep s' w.
Proof. apply full_path_found. Qed.
End roundtrip.

(** ** Mounting *)

(** No filesystem is mounted twice, and no directory is used twice. *)
Definition mounts_distinct (V : vfs) : Prop := NoDup (guest_fs <$> mounts V) ∧ NoDup (host_inode <$> mounts V).

Lemma get_mount_snoc V m n : get_mount (mk_vfs (_root_ref V) (mounts V ++ [m])) n = match get_mount V n with Some x => Some x | None => if bool_decide (host_inode m = n) then Some m else None end.
Proof. unfold get_mount. cbn [mounts]. induction (mounts V) as [|x l IH]; [done|]. cbn. by destruct (bool_decide (host_inode x = n)). Qed.

(** What [mount] does: it fails if the place is no directory, or if the filesystem or the place is in use; otherwise the filesystem is found there, and the others where they were. *)
Theorem mount_adds {S} `{InodesSpec S} (V : vfs) (w : tree) (fs : Z) (l : linked) (s : S) : tree_rep s w → valid_link w l → mounts_distinct V →
  ∃ r s', mount_at V fs l s = Done (r, s') ∧ tree_rep s' w ∧
    match r with
    | Err e => (e = - ENOTDIR ∧ is_directory (t_meta w (l_inode l)) = false) ∨ (e = - EBUSY ∧ ∃ m, m ∈ mounts V ∧ (guest_fs m = fs ∨ host_inode m = l_inode l))
    | Ok V' => mounts_distinct V' ∧ _root_ref V' = _root_ref V ∧ ∀ n, get_mount V' n = if bool_decide (n = l_inode l) then Some (mk_mount fs n) else get_mount V n
    end.
Proof.
  intros Hr Hv [Hg Hh]. destruct (metadata_ok s w (l_inode l) Hr (valid_inode w l Hv)) as (s'&E&Hr'). unfold mount_at, mbind, fsop_bind. rewrite E. destruct (is_directory (t_meta w (l_inode l))) eqn:Hd; cbn [negb]; [|eexists _, s'; split_and!; [done|done|by left]].
  destruct (existsb _ _) eqn:Ex.
  - eexists _, s'. split_and!; [done|done|]. right. split; [done|]. apply existsb_exists in Ex as (m&Hm&Hin). exists m. split; [by apply list_elem_of_In|]. apply orb_true_iff in Hin as [Ef%Z.eqb_eq|Eh%bool_decide_eq_true]; [by left|by right].
  - assert (∀ m, m ∈ mounts V → guest_fs m ≠ fs ∧ host_inode m ≠ l_inode l) as Hno.
    { intros m Hm. split; intros Em; assert (existsb (λ x, (guest_fs x =? fs) || bool_decide (host_inode x = l_inode l)) (mounts V) = true) as Ey; try congruence; apply existsb_exists; exists m; (split; [by apply list_elem_of_In|]); apply orb_true_iff; [left; by apply Z.eqb_eq|right; by apply bool_decide_eq_true]. }
    eexists _, s'. split_and!; [done|done|]. split_and!; [|done|].
    + split; cbn [mounts]; rewrite fmap_app; apply NoDup_app; (split_and!; [done| |apply NoDup_singleton]); intros x Hx Hs%list_elem_of_singleton; apply list_elem_of_fmap in Hx as (m&->&Hm); by destruct (Hno m Hm).
    + intros n. rewrite get_mount_snoc. cbn [host_inode]. destruct (get_mount V n) as [m|] eqn:Em.
      * apply find_some in Em as [Hin Eh%bool_decide_eq_true]. apply list_elem_of_In in Hin. rewrite bool_decide_eq_false_2; [done|]. intros ->. by destruct (Hno m Hin).
      * destruct (decide (n = l_inode l)) as [->|]; [by rewrite !bool_decide_eq_true_2|by rewrite !bool_decide_eq_false_2].
Qed.
