(* ===== verification/VfsGuard.v ===== *)
(** * What the virtual filesystem lets a user change

    The operations of [Vfs] run over filesystems that keep a log of the changes they are asked
    for.  [asked] says, for each operation, which changes it asks for and what the user needs to have for that;
    [allowed] says what a user should be able to change, and all operations but those in which the code is wrong
    ([guarded]) keep to it. *)

From stdpp Require Import base numbers list list_numbers option gmap.
From S2P Require Import Prelude.
From S2P Require Import ByteBuf.
From S2P Require Import KString.
From S2P Require Import Ext2Inode.
From S2P Require Import Ext2Dir.
From S2P Require Import Vfs.
From S2P Require Import VfsSpec.

Local Open Scope Z_scope.

(** ** The changes that filesystems are asked for *)

Inductive change :=
  | Writes (n : vnode)
  | Adds (dir : vnode) (name : list Z) (child : vnode)
  | Creates (dir : vnode) (name : list Z) (new owner group : Z)
  | Removes (dir : vnode) (name : list Z)
  | Truncates (n : vnode) (length : Z)
  | Chmods (n : vnode) (new : Z)
  | Chowns (n : vnode) (new_uid new_gid : Z).

Definition unlogged {S A} (m : fsop S A) : fsop (S * list change) A := λ '(s, log), '(a, s) ← m s; Done (a, (s, log)).
Definition logged {S A} (c : change) (m : fsop S A) : fsop (S * list change) A := λ '(s, log), '(a, s) ← m s; Done (a, (s, log ++ [c])).

(** The same filesystems, with a log. *)
#[local] Instance log_inodes {S} `{Inodes S} : Inodes (S * list change) := {
  get_metadata n := unlogged (get_metadata n);
  find_id n name := unlogged (find_id n name);
  get_inode f i := unlogged (get_inode f i);
  root_inode_id f := root_inode_id f;
  read n o c := unlogged (read n o c);
  write n o b := logged (Writes n) (write n o b);
  add_entry n name child := logged (Adds n name child) (add_entry n name child);
  create_entry n name m o g := logged (Creates n name m o g) (create_entry n name m o g);
  remove_entry n name := logged (Removes n name) (remove_entry n name);
  truncate n len := logged (Truncates n len) (truncate n len);
  chmod n m := logged (Chmods n m) (chmod n m);
  chown n o g := logged (Chowns n o g) (chown n o g);
  open_inode n o := unlogged (open_inode n o);
  close_inode n := unlogged (close_inode n);
  get_device ma mi := unlogged (get_device ma mi);
  device_read d o c := unlogged (device_read d o c);
  device_write d o b := unlogged (device_write d o b);
}.

(** Before the first change. *)
Definition log_rep {S} `{InodesSpec S} (sl : S * list change) (w : tree) : Prop := tree_rep sl.1 w ∧ sl.2 = [].

#[local] Instance log_inodes_spec {S} `{InodesSpec S} : InodesSpec (S * list change).
Proof.
  refine {| tree_rep := log_rep |}.
  - intros [s log] w n [Hr Hlog] Hn. cbn in Hlog. subst log. destruct (metadata_ok s w n Hr Hn) as (s'&E&Hr'). exists (s', []). cbn in *. by rewrite E.
  - intros [s log] w n name [Hr Hlog] Hn Hd. cbn in Hlog. subst log. destruct (find_id_ok s w n name Hr Hn Hd) as (s'&E&Hr'). exists (s', []). cbn in *. by rewrite E.
  - intros [s log] w n name [Hr _]. by apply (child_valid s).
  - intros [s log] w n [Hr Hlog] Hn. cbn in Hlog. subst log. destruct (get_inode_ok s w n Hr Hn) as (s'&E&Hr'). exists (s', []). cbn in *. by rewrite E.
  - intros [s log] w n options [Hr Hlog] Hn. cbn in Hlog. subst log. destruct (open_ok s w n options Hr Hn) as (s'&E&Hr'). exists (s', []). cbn in *. by rewrite E.
  - intros [s log] w n [Hr Hlog] Hn Hs. cbn in Hlog. subst log. destruct (read_link_ok s w n Hr Hn Hs) as (H1&H2&s'&E&Hr'). split; [done|split; [done|]]. exists (s', []). cbn in *. by rewrite E.
Defined.

(** ** The operations *)

Inductive vop :=
  | Open (path : list Z) (options mode : Z)
  | Unlink (path : list Z)
  | Link (file link_name : list Z)
  | Symlink (file link_name : list Z)
  | Readlink (path : list Z)
  | Rmdir (path : list Z)
  | Mkdir (path : list Z) (mode : Z)
  | Truncate (path : list Z) (length : Z)
  | Chmod (path : list Z) (new : Z)
  | Chown (path : list Z) (new_uid new_gid options : Z)
  | Access (path : list Z) (amode : Z).

Definition quiet {S A} (m : fsop S A) : fsop S unit := _ ← m; done tt.

(** An operation of a user in a directory, without what it returns. *)
Definition exec {S} `{Inodes S} (V : vfs) (u : user) (base : linked) (op : vop) : fsop S unit :=
  match op with
  | Open path options mode => quiet (open V path options mode u base)
  | Unlink path => quiet (unlink V path u base)
  | Link file link_name => quiet (link V file link_name u base)
  | Symlink file link_name => quiet (symlink V file link_name u base)
  | Readlink path => quiet (readlink V path u base)
  | Rmdir path => quiet (rmdir V path u base)
  | Mkdir path mode => quiet (mkdir V path mode u base)
  | Truncate path length => quiet (truncate_path V path length u base)
  | Chmod path new => quiet (chmod_path V path new u base)
  | Chown path new_uid new_gid options => quiet (chown_path V path new_uid new_gid u base options)
  | Access path amode => quiet (access V path amode u base)
  end.

Definition paths_short (op : vop) : Prop :=
  match op with
  | Open path _ _ | Unlink path | Readlink path | Rmdir path | Mkdir path _ | Truncate path _ | Chmod path _ | Chown path _ _ _ | Access path _ => zlength path < npos
  | Link file link_name | Symlink file link_name => zlength file < npos ∧ zlength link_name < npos
  end.

Definition owns (w : tree) (u : user) (n : vnode) : Prop := can_override_permissions u = true ∨ euid u = uid (t_meta w n).

(** What a user may change: entries of directories that they can write to, the contents of files that they can write to, and the mode and the owner of files that they own; what they make is theirs, and they give files to no other user and only to groups that they are in. *)
Definition allowed (w : tree) (u : user) (c : change) : Prop :=
  match c with
  | Writes n | Truncates n _ => can_write (t_meta w n) u = true
  | Adds dir _ _ | Removes dir _ => can_write (t_meta w dir) u = true
  | Creates dir _ _ o g => can_write (t_meta w dir) u = true ∧ o = euid u ∧ g = egid u
  | Chmods n _ => owns w u n
  | Chowns n o g => owns w u n ∧ (can_override_permissions u = true ∨ o = euid u) ∧ (can_override_permissions u = true ∨ in_group u g = true)
  end.

(** All operations but three: [rmdir] looks at the permissions of the directory to be removed, not of the one it is in, a file opened to be read is truncated all the same, and [chown] gives files to the groups that the user is not in.  The superuser may do everything. *)
Definition guarded (u : user) (op : vop) : bool :=
  can_override_permissions u ||
  match op with
  | Rmdir _ => false
  | Open _ options _ => negb (has options O_TRUNC) || has options O_WRONLY || has options O_RDWR
  | Chown _ _ new_gid _ => new_gid =? no_id
  | _ => true
  end.

Section asked.
Context {S : Type} `{Inodes S} (V : vfs) (root : linked) (w : tree) (u : user) (base : linked).

(** Where a path leads, and the directory that is in. *)
Definition leads (options : Z) (path : list Z) : resolved := look V root root_inode_id w u options 6 path base None.

(** What the user needs to open a file. *)
Definition may_open (m : metadata) (options : Z) : Prop :=
  (negb (has options O_WRONLY) || has options O_RDWR = true → can_read m u = true) ∧ (has options O_WRONLY || has options O_RDWR = true → can_write m u = true).

(** The mode with which a file is created. *)
Definition file_mode (m : Z) : Z :=
  if negb (IS_TYPE m MODE_BLOCK_DEVICE) && negb (IS_TYPE m MODE_CHAR_DEVICE) && negb (IS_TYPE m MODE_FIFO) && negb (IS_TYPE m MODE_SOCKET) then Z.lor m MODE_FILE else m.

(** The changes that an operation asks for, to the files that its paths lead to, with what the user needs for them; [symlink] and the operations that only look at files ask for none. *)
Definition asked (op : vop) (c : change) : Prop :=
  match op, c with
  | Open path options _, Truncates n len => has options O_TRUNC = true ∧ len = 0 ∧ ∃ l, (leads 0 path).1 = Ok l ∧ n = l_inode l ∧ may_open (t_meta w n) options
  | Open path options m, Creates dir name new o g =>
      has options O_CREAT = true ∧ (leads 0 path).1 = Err (- ENOENT) ∧ (∃ p, (leads 0 path).2 = Some p ∧ dir = l_inode p) ∧ name = path_base path ∧ new = file_mode m ∧
      can_write (t_meta w dir) u = true ∧ o = euid u ∧ g = egid u
  | Unlink path, Removes dir name =>
      (∃ l p, leads O_INTERNAL_RETLINK path = (Ok l, Some p) ∧ dir = l_inode p ∧ is_directory (t_meta w (l_inode l)) = false) ∧ name = path_base path ∧ can_write (t_meta w dir) u = true
  | Link file link_name, Adds dir name child =>
      (leads 0 link_name).1 = Err (- ENOENT) ∧ (∃ p, (leads 0 link_name).2 = Some p ∧ dir = l_inode p) ∧ name = path_base link_name ∧ can_write (t_meta w dir) u = true ∧
      ∃ l, (leads 0 file).1 = Ok l ∧ child = l_inode l ∧ is_directory (t_meta w child) = false ∧ fsid child = fsid dir
  | Rmdir path, Removes dir name =>
      ∃ l p, leads O_INTERNAL_RETLINK (strip_slash path) = (Ok l, Some p) ∧ dir = l_inode p ∧ name = path_base (strip_slash path) ∧
        is_directory (t_meta w (l_inode l)) = true ∧ can_write (t_meta w (l_inode l)) u = true
  | Mkdir path m, Creates dir name new o g =>
      (∃ l, (leads 0 (path_minus_base (strip_slash path))).1 = Ok l ∧ dir = l_inode l) ∧ name = path_base (strip_slash path) ∧ new = Z.lor m MODE_DIRECTORY ∧
      is_directory (t_meta w dir) = true ∧ can_write (t_meta w dir) u = true ∧ o = euid u ∧ g = egid u
  | Truncate path len, Truncates n len' => len' = len ∧ 0 ≤ len ∧ (∃ l, (leads 0 path).1 = Ok l ∧ n = l_inode l) ∧ is_directory (t_meta w n) = false ∧ can_write (t_meta w n) u = true
  | Chmod path new, Chmods n m => (∃ l, (leads 0 path).1 = Ok l ∧ n = l_inode l) ∧ m = Z.lor (Z.land (mode (t_meta w n)) (Z.lnot 0x9FF)) (Z.land new 0x9FF) ∧ owns w u n
  | Chown path _ _ options, Chmods n m => (∃ l, (leads options path).1 = Ok l ∧ n = l_inode l) ∧ m = Z.land (mode (t_meta w n)) (Z.lnot 0xC00) ∧ owns w u n
  | Chown path new_uid new_gid options, Chowns n o g =>
      (∃ l, (leads options path).1 = Ok l ∧ n = l_inode l) ∧ o = (if new_uid =? no_id then euid u else new_uid) ∧ g = (if new_gid =? no_id then egid u else new_gid) ∧ owns w u n ∧
      (can_override_permissions u = true ∨ o = euid u) ∧ (can_override_permissions u = true ∨ new_gid = no_id ∨ in_group u new_gid = false)
  | _, _ => False
  end.

Lemma superuser_writes m : can_override_permissions u = true → can_write m u = true.
Proof. intros Hu. unfold can_write, permits. by rewrite Hu. Qed.

(** What the operations that are right ask for is allowed. *)
Lemma asked_allowed op c : guarded u op = true → asked op c → allowed w u c.
Proof.
  unfold guarded. intros Hg Hc. destruct (can_override_permissions u) eqn:Eu; cbn [orb] in Hg.
  - destruct op, c; cbn in *; try done; unfold owns; rewrite ?superuser_writes by done; intuition auto.
  - destruct op as [path options m| | | | | | | | |path new_uid new_gid options|], c as [| | | |n len| |n o g]; cbn in *; try done; try (intuition auto; fail).
    + destruct Hc as (Ht&_&l&_&_&_&Hw). rewrite Ht in Hg. by apply Hw.
    + apply Z.eqb_eq in Hg as ->. destruct Hc as (_&Ho&->&Hown&Ho'&_). cbn. split_and!; [done|done|]. right. unfold in_group. by rewrite Z.eqb_refl.
Qed.
End asked.
Arguments leads : simpl never.
Arguments file_mode : simpl never.

(** ** Changes one by one *)

(** If [m] ends then [Q] holds. *)
Definition fpost {S A} (m : fsop S A) (s : S) (Q : A → S → Prop) : Prop := ∀ a s', m s = Done (a, s') → Q a s'.

Lemma fpost_frun {S A} (m : fsop S A) s (Q : A → S → Prop) : frun m s Q → fpost m s Q.
Proof. intros (a&s'&E&HQ) a' s2 E2. rewrite E in E2. by injection E2 as <- <-. Qed.

Lemma fpost_mono {S A} (m : fsop S A) s (P Q : A → S → Prop) : fpost m s P → (∀ a s', P a s' → Q a s') → fpost m s Q.
Proof. intros HP HQ a s' E. by apply HQ, HP. Qed.

Lemma fpost_bind {S A B} (m : fsop S A) (f : A → fsop S B) s Q : fpost m s (λ a s', fpost (f a) s' Q) → fpost (m ≫= f) s Q.
Proof. intros Hm b s2 E. unfold mbind, fsop_bind in E. destruct (m s) as [[a s1]| | |] eqn:Em; [|done..]. by apply (Hm a s1 Em). Qed.

Lemma fpost_done {S A} (a : A) (s : S) (Q : A → S → Prop) : Q a s → fpost (done a) s Q.
Proof. intros HQ b s' E. by injection E as <- <-. Qed.

Lemma fpost_raise {S A} (o : outcome A) (s : S) (Q : A → S → Prop) : (∀ a, Q a s) → fpost (raise o) s Q.
Proof. intros HQ b s' E. destruct o; [|done..]. by injection E as <- <-. Qed.

Lemma fpost_logged {S A} c (m : fsop S A) (sl : S * list change) (Q : A → S * list change → Prop) : (∀ a s', Q a (s', sl.2 ++ [c])) → fpost (logged c m) sl Q.
Proof. intros HQ a [s' log'] E. destruct sl as [s log]. cbn in E. destruct (m s) as [[b s1]| | |]; [|done..]. injection E as <- <- <-. apply HQ. Qed.

Lemma fpost_unlogged {S A} (m : fsop S A) (sl : S * list change) (Q : A → S * list change → Prop) : (∀ a s', Q a (s', sl.2)) → fpost (unlogged m) sl Q.
Proof. intros HQ a [s' log'] E. destruct sl as [s log]. cbn in E. destruct (m s) as [[b s1]| | |]; [|done..]. injection E as <- <- <-. apply HQ. Qed.

Section guard.
Context {S : Type} `{InodesSpec S} (V : vfs) (root : linked) (w : tree) (u : user).
Context (Hok : vfs_ok V root w) (base : linked) (Hb : valid_link w base).
Implicit Types (sl : S * list change) (P : change → Prop).

(** What is shown of every operation: the changes it logs are of a kind. *)
Definition guards P {A} (_ : A) (sl : S * list change) : Prop := Forall P sl.2.

Lemma guards_start P {A} (a : A) sl : tree_rep sl w → guards P a sl.
Proof. intros [_ E]. unfold guards. by rewrite E. Qed.

Lemma guards_logged P {A B} c (m : fsop S A) (f : A → fsop (S * list change) B) sl : guards P tt sl → P c → (∀ a sl', guards P tt sl' → fpost (f a) sl' (guards P)) → fpost (logged c m ≫= f) sl (guards P).
Proof. intros Hs Hc Hf. apply fpost_bind, fpost_logged. intros a s'. apply Hf. unfold guards in *. cbn. apply Forall_app. by repeat constructor. Qed.

Lemma guards_unlogged P {A B} (m : fsop S A) (f : A → fsop (S * list change) B) sl : guards P tt sl → (∀ a sl', guards P tt sl' → fpost (f a) sl' (guards P)) → fpost (unlogged m ≫= f) sl (guards P).
Proof. intros Hs Hf. apply fpost_bind, fpost_unlogged. intros a s'. by apply Hf. Qed.

Lemma guards_resolve P {A} path options (f : resolved → fsop (S * list change) A) sl : zlength path < npos → tree_rep sl w →
  (∀ r sl', leads V root w u base options path = r → tree_rep sl' w → valid_result w r → fpost (f r) sl' (guards P)) → fpost (resolve_path V path base u options ≫= f) sl (guards P).
Proof. intros Hl Hr Hf. apply fpost_bind, fpost_frun. eapply frun_mono; [by apply (@resolve_path_run _ log_inodes log_inodes_spec V root w u options Hok)|]. intros r sl' (->&Hr'&Hv). by apply Hf. Qed.

Lemma guards_metadata P {A} n (f : metadata → fsop (S * list change) A) sl : t_valid w n → tree_rep sl w → (∀ sl', tree_rep sl' w → fpost (f (t_meta w n)) sl' (guards P)) → fpost (get_metadata n ≫= f) sl (guards P).
Proof. intros Hn Hr Hf. apply fpost_bind, fpost_frun. by eapply metadata_run. Qed.

Lemma guards_done P {A} (a : A) sl : tree_rep sl w → fpost (done a) sl (guards P).
Proof. intros Hr. by apply fpost_done, guards_start. Qed.

Lemma guards_call P {A} c (m : fsop S A) sl : tree_rep sl w → P c → fpost (logged c m) sl (guards P).
Proof. intros Hr Hc. apply fpost_logged. intros a s'. unfold guards. cbn. apply Forall_app. split; [by apply (guards_start P tt)|by repeat constructor]. Qed.

Lemma guards_end P {A} (a : A) sl : guards P tt sl → fpost (done a) sl (guards P).
Proof. intros Hg. by apply fpost_done. Qed.

Lemma guards_panic P {A} sl : fpost (raise Panic : fsop _ A) sl (guards P).
Proof. by intros a s'. Qed.

(** Shorthand for what an operation asks for. *)
Abbreviation asks op := (guards (asked V root w u base op)).

(** The steps of the operations: a guard that fails ends them. *)
Ltac gstep := match goal with
  | |- fpost (done _) _ _ => by apply guards_done
  | |- fpost (raise Panic) _ _ => apply guards_panic
  | |- fpost (get_metadata _ ≫= _) _ _ => apply guards_metadata; [by apply valid_inode|done|]; let sl := fresh "sl" in intros sl ?
  | |- fpost (if negb ?b then _ else _) _ _ => let E := fresh "E" in destruct b eqn:E; cbn [negb]
  | |- fpost (if ?b then _ else _) _ _ => let E := fresh "E" in destruct b eqn:E
  end.

Lemma unlink_guards path sl : zlength path < npos → tree_rep sl w → fpost (unlink V path u base) sl (asks (Unlink path)).
Proof.
  intros Hl Hr. apply guards_resolve; [done..|]. intros [r parent] sl1 E1 Hr1 [Hv Hp]. destruct r as [l|e]; [|gstep]. specialize (Hv l eq_refl). destruct parent as [p|]; [|gstep]. repeat gstep. apply guards_call; [done|]. cbn. split; [by exists l, p|done].
Qed.

Lemma link_guards file link_name sl : zlength file < npos → zlength link_name < npos → tree_rep sl w → fpost (link V file link_name u base) sl (asks (Link file link_name)).
Proof.
  intros Hl1 Hl2 Hr. apply guards_resolve; [done..|]. intros [r parent] sl1 E1 Hr1 [_ Hp]. destruct r as [l|e]; [gstep|]. destruct (Z.eqb_spec e (- ENOENT)) as [->|]; cbn [negb]; [|gstep]. destruct parent as [p|]; [|gstep]. gstep. gstep; [|gstep].
  apply guards_resolve; [done..|]. intros [r parent] sl3 E3 Hr3 [Hv _]. destruct r as [old|e']; [|gstep]. specialize (Hv old eq_refl). gstep. gstep; [gstep|]. destruct (Z.eqb_spec (fsid (l_inode old)) (fsid (l_inode p))) as [Efs|]; cbn [negb]; [|gstep].
  apply guards_call; [done|]. cbn. rewrite E1, E3. cbn. split_and!; try done; [by exists p|by exists old].
Qed.

(** It never gets as far as making a link. *)
Lemma symlink_guards file link_name sl : zlength file < npos → zlength link_name < npos → tree_rep sl w → fpost (symlink V file link_name u base) sl (asks (Symlink file link_name)).
Proof.
  intros Hl1 Hl2 Hr. apply guards_resolve; [done..|]. intros [r parent] sl1 E Hr1 _. destruct r as [l|e]; [gstep|]. assert (e < 0) as He by (eapply look_negative; unfold leads in E; by rewrite E). rewrite (proj2 (Z.eqb_neq e ENOENT)) by (unfold ENOENT; lia). cbn [negb]. gstep.
Qed.

Lemma readlink_guards path sl : zlength path < npos → tree_rep sl w → fpost (readlink V path u base) sl (asks (Readlink path)).
Proof.
  intros Hl Hr. apply guards_resolve; [done..|]. intros [r parent] sl1 _ Hr1 [Hv _]. destruct r as [l|e]; [|gstep]. specialize (Hv l eq_refl). repeat gstep. apply fpost_bind, fpost_frun. eapply frun_mono; [apply (@resolve_link_run _ log_inodes log_inodes_spec w _ _ _ _ _ _ (@resolve_at_run _ log_inodes log_inodes_spec V root w u 0 Hok 5)); [done|by apply valid_inode|done..]|].
  intros [r' parent'] sl2 (_&Hr2&_). destruct r' as [l'|e]; [|gstep]. apply fpost_bind, fpost_raise. intros path'. gstep.
Qed.

Lemma strip_length path : zlength (strip_slash path) ≤ zlength path.
Proof. unfold strip_slash. case_bool_decide; [|lia]. rewrite length_take. lia. Qed.

Lemma minus_base_length path : zlength (path_minus_base path) ≤ zlength path.
Proof. unfold path_minus_base. case_match; cbn; [lia|]. rewrite length_take. lia. Qed.

Lemma mkdir_guards path mode sl : zlength path < npos → tree_rep sl w → fpost (mkdir V path mode u base) sl (asks (Mkdir path mode)).
Proof.
  intros Hl Hr. apply guards_resolve; [pose proof (strip_length path); pose proof (minus_base_length (strip_slash path)); lia|done..|]. intros [r parent] sl1 E1 Hr1 [Hv _]. destruct r as [l|e]; [|gstep]. specialize (Hv l eq_refl). repeat gstep.
  apply guards_logged; [by apply guards_start| |]; [cbn; rewrite E1; split_and!; try done; by exists l|]. intros r sl3 Hg. by apply guards_end.
Qed.

Lemma rmdir_guards path sl : zlength path < npos → tree_rep sl w → fpost (rmdir V path u base) sl (asks (Rmdir path)).
Proof.
  intros Hl Hr. unfold rmdir. case_bool_decide; [gstep|]. case_bool_decide; [gstep|]. apply guards_resolve; [pose proof (strip_length path); lia|done..|]. intros [r parent] sl1 E1 Hr1 [Hv _]. destruct r as [l|e]; [|gstep]. specialize (Hv l eq_refl).
  repeat gstep. destruct parent as [p|]; [|gstep]. apply guards_call; [done|]. cbn. by exists l, p.
Qed.

Lemma truncate_guards path len sl : zlength path < npos → tree_rep sl w → fpost (truncate_path V path len u base) sl (asks (Truncate path len)).
Proof.
  intros Hl Hr. unfold truncate_path. destruct (Z.ltb_spec len 0); [gstep|]. apply guards_resolve; [done..|]. intros [r parent] sl1 E1 Hr1 [Hv _]. destruct r as [l|e]; [|gstep]. specialize (Hv l eq_refl). repeat gstep. apply guards_call; [done|]. cbn. rewrite E1. split_and!; try done. by exists l.
Qed.

Lemma owner_owns n : negb (can_override_permissions u) && negb (euid u =? uid (t_meta w n)) = false → owns w u n.
Proof. intros E. unfold owns. destruct (can_override_permissions u); [by left|]. right. destruct (Z.eqb_spec (euid u) (uid (t_meta w n))); [done|by cbn in E]. Qed.

Lemma chmod_guards path new sl : zlength path < npos → tree_rep sl w → fpost (chmod_path V path new u base) sl (asks (Chmod path new)).
Proof.
  intros Hl Hr. apply guards_resolve; [done..|]. intros [r parent] sl1 E1 Hr1 [Hv _]. destruct r as [l|e]; [|gstep]. specialize (Hv l eq_refl). repeat gstep. apply guards_call; [done|]. cbn. rewrite E1. split_and!; [by exists l|done|by apply owner_owns].
Qed.

Lemma access_guards path amode sl : zlength path < npos → tree_rep sl w → fpost (access V path amode u base) sl (asks (Access path amode)).
Proof. intros Hl Hr. apply guards_resolve; [done..|]. intros [r parent] sl1 _ Hr1 [Hv _]. destruct r as [l|e]; [|gstep]. specialize (Hv l eq_refl). repeat gstep. Qed.

Lemma chown_guards path new_uid new_gid options sl : zlength path < npos → tree_rep sl w → fpost (chown_path V path new_uid new_gid u base options) sl (asks (Chown path new_uid new_gid options)).
Proof.
  intros Hl Hr. apply guards_resolve; [done..|]. intros [r parent] sl1 E1 Hr1 [Hv _]. destruct r as [l|e]; [|gstep]. specialize (Hv l eq_refl). gstep. gstep; [gstep|]. apply owner_owns in E. gstep; [gstep|]. gstep; [gstep|].
  assert (can_override_permissions u = true ∨ (if new_uid =? no_id then euid u else new_uid) = euid u) as Hown.
  { destruct (can_override_permissions u); [by left|right]. destruct (new_uid =? no_id); [done|]. cbn in E0. by apply negb_false_iff, Z.eqb_eq in E0. }
  assert (can_override_permissions u = true ∨ new_gid = no_id ∨ in_group u new_gid = false) as Hgrp.
  { destruct (can_override_permissions u); [by left|right]. destruct (Z.eqb_spec new_gid no_id); [by left|by right]. }
  apply fpost_bind. eapply (fpost_mono _ _ (asks (Chown path new_uid new_gid options))).
  - gstep; [|gstep]. apply guards_call; [done|]. cbn. rewrite E1. split_and!; [by exists l|done|done].
  - intros r sl3 Hg. destruct r; [|by apply fpost_done]. apply fpost_logged. intros a s'. unfold guards in *. cbn. apply Forall_app. split; [done|]. apply Forall_singleton. cbn. rewrite E1. split_and!; try done. by exists l.
Qed.

Lemma open_file_guards P {A} n options (f : descriptor → fsop _ A) sl : guards P tt sl → (∀ fd sl', guards P tt sl' → fpost (f fd) sl' (guards P)) → fpost (open_file n options ≫= f) sl (guards P).
Proof. intros Hg Hf. apply fpost_bind. apply fpost_bind, fpost_unlogged. intros [] s'. apply fpost_done. by apply Hf. Qed.

Lemma open_found_guards path options mode l sl : (leads V root w u base 0 path).1 = Ok l → valid_link w l → tree_rep sl w → fpost (open_found options u l) sl (asks (Open path options mode)).
Proof.
  intros E1 Hv Hr. unfold open_found. gstep. gstep; [gstep|]. gstep; [gstep|]. gstep; [gstep|]. gstep.
  - apply guards_unlogged; [by apply guards_start|]. intros r sl2 Hg. destruct r; by apply fpost_done.
  - apply fpost_bind. eapply (fpost_mono _ _ (asks (Open path options mode))); [|intros [] sl2 Hg; apply open_file_guards; [done|]; intros fd sl3 Hg3; by apply fpost_done]. gstep; [|gstep]. apply guards_logged; [by apply guards_start| |intros ? sl2 Hg; by apply fpost_done].
    cbn. split_and!; [done|done|]. exists l. split_and!; [done|done|]. split; intros Ho; [rewrite Ho in E|rewrite Ho in E0]; by apply negb_false_iff.
Qed.

Lemma create_guards path options mode p sl : has options O_CREAT = true → leads V root w u base 0 path = (Err (- ENOENT), Some p) → valid_link w p → tree_rep sl w → fpost (create path options mode u p) sl (asks (Open path options mode)).
Proof.
  intros Hc E1 Hv Hr. unfold create. repeat gstep; fold (file_mode mode); (apply guards_logged; [by apply guards_start|cbn; rewrite E1; split_and!; try done; by exists p|]); intros r sl2 Hg; (destruct r; [|by apply fpost_done]); (apply open_file_guards; [done|]); intros fd sl3 Hg3; by apply fpost_done.
Qed.

Lemma open_guards path options mode sl : zlength path < npos → tree_rep sl w → fpost (open V path options mode u base) sl (asks (Open path options mode)).
Proof.
  intros Hl Hr. unfold open. gstep; [gstep|]. gstep; [gstep|]. apply guards_resolve; [done..|]. intros [r parent] sl1 E1 Hr1 [Hv Hp]. gstep.
  - destruct parent as [p|]; [|gstep]. destruct r as [l|e].
    + specialize (Hv l eq_refl). gstep; [gstep|]. apply open_found_guards; [by rewrite E1|done..].
    + destruct (Z.eqb_spec e (- ENOENT)) as [->|]; [|gstep]. apply guards_resolve; [pose proof (minus_base_length path); lia|done..|]. intros [r' parent'] sl2 _ Hr2 _. destruct r'; [|gstep]. by apply create_guards.
  - destruct r as [l|e]; [|gstep]. apply open_found_guards; [by rewrite E1|by apply Hv|done].
Qed.

Lemma quiet_guards P {A} (m : fsop (S * list change) A) sl : fpost m sl (guards P) → fpost (quiet m) sl (guards P).
Proof. intros Hm. apply fpost_bind. eapply fpost_mono; [exact Hm|]. intros a sl' Hg. by apply fpost_done. Qed.

(** The changes that an operation asks for. *)
Lemma exec_asks op sl : paths_short op → tree_rep sl w → fpost (exec V u base op) sl (asks op).
Proof.
  intros Hp Hr. destruct op; cbn in Hp |- *; apply quiet_guards; [by apply open_guards|by apply unlink_guards|destruct Hp; by apply link_guards|destruct Hp; by apply symlink_guards|by apply readlink_guards|by apply rmdir_guards|by apply mkdir_guards|by apply truncate_guards|by apply chmod_guards|by apply chown_guards|by apply access_guards].
Qed.
End guard.


(** [symlink] never makes a link: it always fails, and changes nothing. *)
Theorem symlink_fails {S} `{InodesSpec S} (V : vfs) (root : linked) (w : tree) (u : user) (base : linked) (file link_name : list Z) (s : S) :
  vfs_ok V root w → valid_link w base → tree_rep s w → zlength link_name < npos → ∃ e s', symlink V file link_name u base s = Done (Err e, s') ∧ e < 0 ∧ tree_rep s' w.
Proof.
  intros Hok Hb Hr Hl. destruct (resolve_path_run V root w u 0 Hok link_name base s Hl Hb Hr) as ([r parent]&s'&E&Er&Hr'&_). unfold symlink, mbind, fsop_bind. rewrite E. destruct r as [l|e]; [by exists (- EEXIST), s'|]. assert (e < 0) as He by (eapply look_negative; by rewrite <-Er).
  rewrite (proj2 (Z.eqb_neq e ENOENT)) by (unfold ENOENT; lia). by exists e, s'.
Qed.

(** ** Descriptors *)

(** The file of a descriptor can be read and written as the descriptor says. *)
Definition descriptor_allowed (w : tree) (u : user) (n : vnode) (fd : descriptor) : Prop := (_readable fd = true → can_read (t_meta w n) u = true) ∧ (_writable fd = true → can_write (t_meta w n) u = true) ∧ (_file fd = InodeFile n ∨ is_device (t_meta w n) = true).

Lemma open_found_allowed {S} `{InodesSpec S} (w : tree) (u : user) options l (s : S) : valid_link w l → tree_rep s w → fpost (open_found options u l) s (λ r _, ∀ fd, r = Ok fd → descriptor_allowed w u (l_inode l) fd).
Proof.
  intros Hv Hr. unfold open_found. apply fpost_bind, fpost_frun. eapply metadata_run; [done|by apply valid_inode|]. intros s1 _. set (m := t_meta w (l_inode l)).
  destruct ((negb (has options O_WRONLY) || has options O_RDWR) && negb (can_read m u)) eqn:E1; [by apply fpost_done|]. destruct ((has options O_WRONLY || has options O_RDWR) && negb (can_write m u)) eqn:E2; [by apply fpost_done|]. destruct (has options O_DIRECTORY && negb (is_directory m)); [by apply fpost_done|].
  assert (∀ fl, fl = InodeFile (l_inode l) ∨ is_device m = true → descriptor_allowed w u (l_inode l) (FileDescriptor fl options)) as Hfd.
  { intros fl Hf. split_and!; [| |done]; cbn; intros Ho; [rewrite Ho in E1|rewrite Ho in E2]; by apply negb_false_iff. }
  destruct (is_device m) eqn:Edev; apply fpost_bind; intros r s2 _; [destruct r; apply fpost_done; [intros fd [= <-]; apply Hfd; by right|done]|]. apply fpost_bind. intros fd s3 E. unfold open_file, mbind, fsop_bind in E. destruct (open_inode _ _ _) as [[]| | |]; [|done..]. injection E as <- <-. apply fpost_done. intros fd [= <-]. apply Hfd. by left.
Qed.

(** A descriptor of a file that was there can do only what the user is allowed to do with the file that the path leads to. *)
Theorem opened_allowed {S} `{InodesSpec S} (V : vfs) (root : linked) (w : tree) (u : user) (base : linked) path options mode (s s' : S) fd :
  vfs_ok V root w → valid_link w base → tree_rep s w → zlength path < npos → has options O_CREAT = false → open V path options mode u base s = Done (Ok fd, s') →
  ∃ l, (look V root root_inode_id w u 0 6 path base None).1 = Ok l ∧ descriptor_allowed w u (l_inode l) fd.
Proof.
  intros Hok Hb Hr Hl Hc E. cut (fpost (open V path options mode u base) s (λ r _, ∀ fd, r = Ok fd → ∃ l, (look V root root_inode_id w u 0 6 path base None).1 = Ok l ∧ descriptor_allowed w u (l_inode l) fd)); [intros Hp; by apply (Hp _ _ E)|].
  clear E. unfold open. rewrite Hc, andb_false_r. case_bool_decide; [by apply fpost_done|]. apply fpost_bind, fpost_frun. eapply frun_mono; [by apply (resolve_path_run V root w u 0 Hok)|]. intros [r parent] s1 (Er&Hr1&Hv&_). destruct r as [l|e]; [|by apply fpost_done].
  eapply fpost_mono; [apply (open_found_allowed w u options l); [by apply Hv|done]|]. intros r s2 Hfd fd' Ef. exists l. split; [by rewrite <-Er|by apply Hfd].
Qed.
