(* ===== verification/VfsCreate.v ===== *)
(** * The virtual filesystem: creating files

    [open] with [O_CREAT] asks the filesystem for a new entry in the directory that the path
    leads to, and the path then leads to the new file. *)

From stdpp Require Import base numbers list list_numbers option gmap.
From S2P Require Import Prelude.
From S2P Require Import ByteBuf.
From S2P Require Import KString.
From S2P Require Import Ext2Inode.
From S2P Require Import Ext2Dir.
From S2P Require Import Vfs.
From S2P Require Import VfsSpec.

Local Open Scope Z_scope.

(** ** Paths of new files *)

Lemma last_pos_below path name : no_slash name → last_pos slash (path ++ slash :: name) = Some (length path).
Proof.
  intros Hn. induction name as [|x name IH] using rev_ind; [by rewrite last_pos_snoc|]. unfold no_slash in *. rewrite elem_of_app in Hn. change (path ++ slash :: name ++ [x]) with (path ++ (slash :: name) ++ [x]). rewrite app_assoc, last_pos_snoc.
  rewrite (proj2 (Z.eqb_neq x slash)); [apply IH; tauto|]. intros ->. apply Hn. right. by apply list_elem_of_singleton.
Qed.

(** The name, if it has at least two bytes, and what comes before it. *)
Lemma path_base_below path name : no_slash name → 2 ≤ zlength name → zlength (path ++ slash :: name) < npos → path_base (path ++ slash :: name) = name.
Proof.
  intros Hn Hl Hlt. unfold path_base, after_last. rewrite last_pos_below by done. rewrite length_app in *. cbn [length] in *. rewrite !(proj2 (Z.eqb_neq _ _)) by (unfold npos in *; lia). rewrite drop_app_ge by lia. replace (_ - _)%nat with 1%nat by lia. done.
Qed.

Lemma path_minus_base_below path name : no_slash name → zlength (path ++ slash :: name) < npos → path_minus_base (path ++ slash :: name) = path ++ [slash].
Proof.
  intros Hn Hlt. unfold path_minus_base, after_last. rewrite last_pos_below by done. rewrite length_app in *. cbn [length] in *. rewrite (proj2 (Z.eqb_neq _ _)) by (unfold npos in *; lia). rewrite take_app_ge by lia. replace (_ - _)%nat with 1%nat by lia. done.
Qed.

(** A name of one byte after a slash is taken for none. *)
Lemma path_base_short path c : c ≠ slash → zlength (path ++ [slash; c]) < npos → path_base (path ++ [slash; c]) = [].
Proof.
  intros Hc Hlt. unfold path_base, after_last. rewrite (last_pos_below path [c]) by (by intros ?%list_elem_of_singleton). rewrite length_app in *. cbn [length] in *. rewrite (proj2 (Z.eqb_neq _ _)) by (unfold npos in *; lia). by rewrite (proj2 (Z.eqb_eq _ _)) by lia.
Qed.

(** ** Trees with a new file *)

(** [w'] is [w] with the new inode [c] under the name in the directory. *)
Record grown (w w' : tree) (dir : vnode) (name : list Z) (c : Z) : Prop := {
  gr_valid n : t_valid w n → t_valid w' n;
  gr_new : t_valid w' (mk_vnode (fsid dir) c) ∧ ¬ t_valid w (mk_vnode (fsid dir) c) ∧ c ≠ 0;
  gr_meta n : t_valid w n → ∃ k, t_meta w' n = set_size k (t_meta w n);
  gr_child n name' : t_valid w n → is_directory (t_meta w n) = true → t_child w' n name' = if bool_decide (n = dir) && (t_child w n name' =? 0) && same_name name' name then c else t_child w n name';
  gr_text n : t_valid w n → is_symlink (t_meta w n) = true → t_text w' n = t_text w n;
}.

Section grown.
Context {S : Type} `{InodesSpec S} (V : vfs) (root : linked) (w w' : tree) (u : user) (dir : vnode) (name : list Z) (c : Z) (s : S).
Context (Hr : tree_rep s w) (Hg : grown w w' dir name c).

Lemma grown_link l : valid_link w l → valid_link w' l.
Proof. intros Hl. eapply Forall_impl; [exact Hl|]. intros x. apply Hg. Qed.

Lemma tree_grown_same n : t_valid w n → is_directory (t_meta w' n) = is_directory (t_meta w n) ∧ is_symlink (t_meta w' n) = is_symlink (t_meta w n) ∧ can_execute (t_meta w' n) u = can_execute (t_meta w n) u.
Proof. intros Hn. by destruct (gr_meta _ _ _ _ _ Hg n Hn) as [k ->]. Qed.

(** What was somewhere is still there. *)
Lemma grown_located l : located V root root_inode_id w u l → valid_link w l → located V root root_inode_id w' u l.
Proof.
  induction 1 as [|p name' Hp IH Hd Hx Hname Hc Hsym]; intros Hv; [constructor|]. apply Forall_inv_tail in Hv. fold (chain p) in Hv. pose proof (valid_inode w p Hv) as Hvi. destruct (tree_grown_same _ Hvi) as (Ed&_&Ex).
  assert (t_child w' (l_inode p) name' = t_child w (l_inode p) name') as Ec. { rewrite (gr_child _ _ _ _ _ Hg) by done. rewrite (proj2 (Z.eqb_neq _ 0)) by done. by rewrite andb_false_r. }
  assert (found_in V root_inode_id w p name' = found_in V root_inode_id w' p name') as -> by (unfold found_in; by rewrite Ec). constructor; [by apply IH|by rewrite Ed|by rewrite Ex|done|by rewrite Ec|].
  rewrite Ec. pose proof (child_valid s w (l_inode p) name' Hr Hvi Hd Hc) as Hvc. by destruct (tree_grown_same _ Hvc) as (_&->&_).
Qed.

(** The new file is where it was put. *)
Lemma grown_new p : l_inode p = dir → located V root root_inode_id w u p → valid_link w p → is_directory (t_meta w dir) = true → can_execute (t_meta w dir) u = true → plain_name name → t_child w dir name = 0 →
  is_symlink (t_meta w' (mk_vnode (fsid dir) c)) = false → Forall (λ m, t_valid w (host_inode m)) (mounts V) → located V root root_inode_id w' u (link_in (mk_vnode (fsid dir) c) name p).
Proof.
  intros Ep Hp Hv Hd Hx Hname Hno Hsym Hm. pose proof (valid_inode w p Hv) as Hvi. rewrite Ep in Hvi. destruct (gr_new _ _ _ _ _ Hg) as (_&Hfresh&Hnz).
  assert (t_child w' dir name = c) as Ec. { rewrite (gr_child _ _ _ _ _ Hg) by done. rewrite bool_decide_eq_true_2, Hno by done. cbn. unfold same_name. by rewrite bool_decide_eq_true_2. }
  assert (found_in V root_inode_id w' p name = mk_vnode (fsid dir) c) as Ef.
  { unfold found_in. rewrite Ep, Ec. destruct (get_mount V _) as [mt|] eqn:E; [|done]. apply find_some in E as [Hin E]. apply bool_decide_eq_true in E. rewrite Forall_forall in Hm. apply list_elem_of_In, Hm in Hin. by rewrite E in Hin. }
  rewrite <-Ef. destruct (tree_grown_same _ Hvi) as (Ed&_&Ex). constructor; rewrite ?Ep, ?Ec, ?Ed, ?Ex; try done. by apply grown_located.
Qed.
End grown.

(** ** Opening a file that is not there *)

Section missing.
Context {S : Type} `{InodesSpec S} (V : vfs) (root : linked) (w : tree) (u : user).
Context (Hok : vfs_ok V root w) (Hroot : l_parent root = None).

Lemma below_starts p (t : list Z) : starts_with_slash (full p ++ slash :: t) = true.
Proof. destruct (full_starts p) as [->|E]; [done|]. unfold starts_with_slash in *. apply bool_decide_eq_true in E. apply bool_decide_eq_true. by destruct (full p). Qed.

Lemma look_missing levels options p name base : located V root root_inode_id w u p → is_directory (t_meta w (l_inode p)) = true → can_execute (t_meta w (l_inode p)) u = true → plain_name name → t_child w (l_inode p) name = 0 →
  look V root root_inode_id w u options (Datatypes.S levels) (full p ++ slash :: name) base None = (Err (- ENOENT), Some p).
Proof.
  intros Hp Hd Hx (Hn&Hs&Hdot&Hdd) Hc. cbn [look]. rewrite below_starts, bool_decide_eq_false_2 by (apply (full_below (l_inode p) name p Hn)). rewrite look_below, splits_end by done. cbn [look_parts]. rewrite Hd, Hx, Hc. cbn [negb]. by rewrite !bool_decide_eq_false_2 by (done || apply not_elem_of_nil).
Qed.

Lemma look_directory levels options p base : located V root root_inode_id w u p → ∃ parent, look V root root_inode_id w u options (Datatypes.S levels) (full p ++ [slash]) base None = (Ok p, parent).
Proof.
  intros Hp. cbn [look]. rewrite below_starts. case_bool_decide as E.
  - exists None. f_equal. destruct Hp as [|p name Hp]; [done|]. apply (f_equal length) in E. cbn in E. rewrite !length_app in E. cbn in E. lia.
  - exists (l_parent p). by rewrite look_below.
Qed.

(** [open] with [O_CREAT] of a path that leads to a directory without the name comes down to [create_entry] there. *)
Lemma open_missing s options mode p name base : tree_rep s w → valid_link w base → valid_link w p → located V root root_inode_id w u p → is_directory (t_meta w (l_inode p)) = true → can_execute (t_meta w (l_inode p)) u = true → can_write (t_meta w (l_inode p)) u = true →
  plain_name name → 2 ≤ zlength name → t_child w (l_inode p) name = 0 → zlength (full p ++ slash :: name) < npos → has options O_CREAT = true → has options O_DIRECTORY = false → Z.land mode 0xF000 = 0 →
  ∃ s', tree_rep s' w ∧ open V (full p ++ slash :: name) options mode u base s =
    (r ← create_entry (l_inode p) name (Z.lor mode MODE_FILE) (euid u) (egid u); match r with Err e => done (Err e) | Ok child => fd ← open_file child options; done (Ok fd) end) s'.
Proof.
  intros Hr Hb Hv Hp Hd Hx Hw Hname Hl Hno Hlen Hcr Hdir Hmode. unfold open. rewrite Hcr, Hdir, bool_decide_eq_false_2 by (by destruct (full p)). cbn [andb].
  destruct (resolve_path_run V root w u 0 Hok (full p ++ slash :: name) base s Hlen Hb Hr) as (r1&s1&E1&->&Hr1&_). rewrite (look_missing 5 0 p name base) in E1 by done. unfold mbind at 1, fsop_bind at 1. rewrite E1. cbv beta iota zeta. rewrite Z.eqb_refl.
  rewrite path_minus_base_below by (done || apply Hname). assert (zlength (full p ++ [slash]) < npos) as Hlen' by (rewrite length_app in *; cbn [length] in *; lia).
  destruct (resolve_path_run V root w u (if has options O_NOFOLLOW then O_NOFOLLOW else 0) Hok (full p ++ [slash]) base s1 Hlen' Hb Hr1) as (r2&s2&E2&->&Hr2&_). destruct (look_directory 5 (if has options O_NOFOLLOW then O_NOFOLLOW else 0) p base Hp) as [parent E3]. rewrite E3 in E2. unfold mbind at 1, fsop_bind at 1. rewrite E2. cbv beta iota zeta.
  destruct (metadata_ok s2 w (l_inode p) Hr2 (valid_inode w p Hv)) as (s3&E4&Hr3). exists s3. split; [done|]. unfold create, IS_TYPE. rewrite Hmode. cbn [negb andb]. rewrite path_base_below by (done || apply Hname). unfold mbind at 1, fsop_bind at 1. rewrite E4. by rewrite Hw.
Qed.
End missing.
