(* ===== verification/VfsExt2.v ===== *)
(** * The virtual filesystem on ext2

    An ext2 filesystem, with the inodes in memory, as an instance of what the VFS uses, and
    the VFS on it: a file that is created by its path is found by its path. *)

From stdpp Require Import base numbers list list_numbers option gmap sets.
From S2P Require Import Prelude.
From S2P Require Import ByteBuf.
From S2P Require Import KString.
From S2P Require Import LRUCache.
From S2P Require Import Disk.
From S2P Require Import DiskCache.
From S2P Require Import FileBlocks.
From S2P Require Import Partition.
From S2P Require Import Ext2.
From S2P Require Import Ext2Inv.
From S2P Require Import Ext2Inode.
From S2P Require Import Ext2Entry.
From S2P Require Import Ext2File.
From S2P Require Import Ext2FileOk.
From S2P Require Import Ext2Spec.
From S2P Require Import Ext2Dir.
From S2P Require Import Ext2DirBytes.
From S2P Require Import Ext2DirOk.
From S2P Require Import Ext2DirSpec.
From S2P Require Import Ext2Create.
From S2P Require Import Ext2InodeAlloc.
From S2P Require Import Ext2CreateSpec.
From S2P Require Import Vfs.
From S2P Require Import VfsSpec.
From S2P Require Import VfsGuard.
From S2P Require Import VfsCreate.

Local Open Scope Z_scope.

(** ** The operations *)

Section ext2.
Context {D : Type} `{ByteFile D}.
(** The number of the filesystem, and what is on the stack where it is not cleared. *)
Context (F : Z) (stack_bytes stack : list Z).
(** Devices. *)
Context (the_device : Z → Z → result Z) (dev_read : Z → Z → Z → Z * list Z) (dev_write : Z → Z → list Z → Z).

Definition volume : Type := ext2 D * inodes.

(** An operation on the inode that [n] refers to. *)
Definition with_inode {A} (n : vnode) (op : inode → inodes → eff D (A * inodes)) : fsop volume A := λ '(s, f),
  if negb (fsid n =? F) then Undef
  else
    match objects f !! vid n with
    | None => Undef
    | Some o => '((a, f), s) ← op o f s; Done (a, (s, f))
    end.

Definition on_inode {A} (n : vnode) (op : inode → eff D (A * inode)) : fsop volume A :=
  with_inode n (λ o f, '(a, o) ← op o; ret (a, put_inode o f)).

Definition ext2_get_inode (fs i : Z) : fsop volume (result vnode) := λ '(s, f),
  if negb (fs =? F) then Undef else '((_, f), s) ← Ext2Create.get_inode i f s; Done (Ok (mk_vnode F i), (s, f)).

Definition ext2_add_entry (n : vnode) (name : list Z) (child : vnode) : fsop volume (result unit) :=
  with_inode n (λ o f, c ← the_inode (vid child) f; '(r, o, c) ← Ext2Dir.add_entry stack_bytes stack o name c; ret (r, put_inode c (put_inode o f))).

#[local] Instance ext2_inodes : Inodes volume := {
  get_metadata n := with_inode n (λ o f, ret (_metadata o, f));
  find_id n name := with_inode n (λ o f, i ← Ext2Dir.find_id stack o name; ret (i, f));
  get_inode := ext2_get_inode;
  root_inode_id _ := 2;
  read n o c := with_inode n (λ x f, r ← Ext2File.read x o c; ret (r, f));
  write n o b := on_inode n (λ x, Ext2File.write stack_bytes x o b);
  add_entry := ext2_add_entry;
  create_entry n name m o g := with_inode n (λ _ f, '(r, f) ← Ext2Create.create_entry stack_bytes stack (vid n) name m o g f; ret (match r with Ok c => Ok (mk_vnode F c) | Err e => Err e end, f));
  remove_entry n name := with_inode n (λ _ f, Ext2Create.remove_entry stack_bytes stack (vid n) name f);
  truncate n len := on_inode n (λ x, Ext2File.truncate stack_bytes x len);
  chmod n m := on_inode n (λ x, Ext2File.chmod x m);
  chown n o g := on_inode n (λ x, Ext2File.chown x o g);
  open_inode _ _ := done tt;
  close_inode _ := done tt;
  get_device ma mi := done (the_device ma mi);
  device_read d o c := done (dev_read d o c);
  device_write d o b := done (dev_write d o b);
}.
End ext2.

(** ** The tree of an ext2 filesystem *)

(** The tree of the inodes in memory, with [v] on the disk and the entries [es]. *)
Definition tree_of (F : Z) (v : list Z) (f : inodes) (es : Z → list dirent) : tree := {|
  t_valid n := fsid n = F ∧ is_Some (live f !! vid n);
  t_meta n := match objects f !! vid n with Some o => _metadata o | None => mk_metadata 0 0 0 0 0 0 0 end;
  t_child n name := lookup_name name (es (vid n));
  t_text n := match objects f !! vid n with Some o => content v o | None => [] end;
|}.

Section ext2_spec.
Context {D : Type} `{ByteFileSpec D}.
Implicit Types (s : ext2 D) (f : inodes) (L : layout) (v : list Z) (U : gset Z) (es : Z → list dirent).

(** The directories have the entries [es], all files that they name are in memory, and the texts of links are not long. *)
Record tree_ok L v U f es : Prop := {
  to_dirs i n : live f !! i = Some n → is_directory (_metadata n) = true → dir_ok L v U n (es i);
  to_closed i n e : live f !! i = Some n → is_directory (_metadata n) = true → e ∈ es i → is_Some (live f !! d_id e);
  to_cached i n : live f !! i = Some n → i ∈ cached f;
  to_links i n : live f !! i = Some n → is_symlink (_metadata n) = true → size (_metadata n) < 2 ^ 31;
}.

Lemma lookup_name_elem name (l : list dirent) : lookup_name name l ≠ 0 → ∃ e, e ∈ l ∧ d_id e = lookup_name name l.
Proof.
  induction l as [|e l IH]; [done|]. cbn. destruct (same_name name (d_name e)); [exists e; split; [apply list_elem_of_here|done]|]. intros (e'&He&E)%IH. exists e'. split; [by apply list_elem_of_further|done].
Qed.

Context (F : Z) (stack_bytes stack : list Z) (the_device : Z → Z → result Z) (dev_read : Z → Z → Z → Z * list Z) (dev_write : Z → Z → list Z → Z).
Context (Hstack : zlength stack = 1024).

Lemma live_object f i n : live f !! i = Some n → objects f !! i = Some n.
Proof. intros E. by apply live_lookup in E as [? _]. Qed.

Lemma with_inode_done {A} s f s' f' (n : vnode) o (op : inode → inodes → eff D (A * inodes)) a : fsid n = F → live f !! vid n = Some o → op o f s = Done ((a, f'), s') → with_inode F n op (s, f) = Done (a, (s', f')).
Proof. intros Ef Eo E. unfold with_inode. rewrite Ef, Z.eqb_refl, (live_object f (vid n) o Eo). cbn [negb]. by rewrite E. Qed.

(** Looking at an inode changes no inode. *)
Lemma with_inode_run {A} s f (n : vnode) o (op : inode → inodes → eff D (A * inodes)) (Q : A → ext2 D → Prop) : fsid n = F → live f !! vid n = Some o → run (op o f) s (λ r s', r.2 = f ∧ Q r.1 s') → ∃ a s', with_inode F n op (s, f) = Done (a, (s', f)) ∧ Q a s'.
Proof. intros Ef Eo ([a f']&s'&E&Er&HQ). cbn in Er, HQ. subst f'. exists a, s'. split; [|done]. by apply (with_inode_done s f s' f n o). Qed.

Section ghost.
Context (L : layout) (HL : layout_ok L) (v : list Z) (U : gset Z) (f : inodes) (es : Z → list dirent).

Definition volume_rep (x : ext2 D * inodes) (w : tree) : Prop := w = tree_of F v f es ∧ x.2 = f ∧ fs_live L x.1 v U f ∧ tree_ok L v U f es.

Lemma volume_rep_intro s : fs_live L s v U f → tree_ok L v U f es → volume_rep (s, f) (tree_of F v f es).
Proof. intros Hl Ht. unfold volume_rep. cbn. done. Qed.

Lemma live_inv s s' : fs_live L s v U f → fs_inv s' v L U → fs_live L s' v U f.
Proof. intros [[] ? ?] ?. by split; [split|..]. Qed.

#[local] Instance ext2_spec : @InodesSpec _ (ext2_inodes F stack_bytes stack the_device dev_read dev_write).
Proof.
  refine {| tree_rep := volume_rep |}.
  - intros [s f'] w n (->&Ef&Hl&Ht) [Hn [o Ho]]. cbn in Ef, Hl, Hn, Ho. subst f'. destruct (with_inode_run s f n o (λ o f, ret (_metadata o, f)) (λ m s', m = _metadata o ∧ s' = s) Hn Ho) as (m&s'&E&->&->); [by wp|].
    exists (s, f). split; [|by apply volume_rep_intro]. assert (t_meta (tree_of F v f es) n = _metadata o) as -> by (cbn; by rewrite (live_object f _ o Ho)). exact E.
  - intros [s f'] w n name (->&Ef&Hl&Ht) [Hn [o Ho]] Hd. cbn in Ef, Hl, Hn, Ho, Hd. subst f'. rewrite (live_object f _ o Ho) in Hd. pose proof (to_dirs _ _ _ _ _ Ht _ _ Ho Hd) as Hdo.
    destruct (with_inode_run s f n o (λ o f, i ← Ext2Dir.find_id stack o name; ret (i, f)) (λ i s', i = lookup_name name (es (vid n)) ∧ fs_inv s' v L U) Hn Ho) as (i&s'&E&->&Hi).
    { wp. wp_apply (find_id_run L HL s v U o (es (vid n)) stack name); [apply Hl|done|done|]. intros r s' [-> Hi]. by wp. }
    exists (s', f). split; [exact E|]. apply volume_rep_intro; [by apply (live_inv s)|done].
  - intros [s f'] w n name (->&Ef&Hl&Ht) [Hn [o Ho]] Hd Hc. cbn in Ef, Hl, Hn, Ho, Hd, Hc |- *. subst f'. rewrite (live_object f _ o Ho) in Hd. destruct (lookup_name_elem name _ Hc) as (e&He&Eid). split; [done|]. rewrite <-Eid. by apply (to_closed _ _ _ _ _ Ht (vid n) o).
  - intros [s f'] w n (->&Ef&Hl&Ht) [Hn [o Ho]]. cbn in Ef, Hl, Hn, Ho. subst f'. exists (s, f). split; [|by apply volume_rep_intro]. cbn. rewrite Hn, Z.eqb_refl. cbn [negb]. unfold Ext2Create.get_inode. rewrite bool_decide_eq_true_2 by (by apply (to_cached _ _ _ _ _ Ht (vid n) o)).
    unfold the_inode. rewrite (live_object f _ o Ho). cbn. by destruct n; cbn in Hn |- *; subst.
  - intros [s f'] w n options Hr _. by exists (s, f').
  - intros [s f'] w n (->&Ef&Hl&Ht) [Hn [o Ho]] Hs. cbn in Ef, Hl, Hn, Ho. subst f'. assert (t_meta (tree_of F v f es) n = _metadata o) as Em by (cbn; by rewrite (live_object f _ o Ho)).
    assert (t_text (tree_of F v f es) n = content v o) as -> by (cbn; by rewrite (live_object f _ o Ho)). rewrite Em in *. pose proof (to_links _ _ _ _ _ Ht _ _ Ho Hs) as Hsz. destruct (rp_file _ _ _ _ _ (lv_rep _ _ _ _ _ Hl) _ _ Ho) as [_ Hfo].
    pose proof (length_content L HL s v U o (fi_base _ _ _ _ (rp_inv _ _ _ _ _ (lv_rep _ _ _ _ _ Hl))) (fo_inode _ _ _ _ Hfo)) as Hlc. split; [lia|]. split; [done|].
    destruct (with_inode_run s f n o (λ x f, r ← Ext2File.read x 0 (size (_metadata o)); ret (r, f)) (λ r s', r = (size (_metadata o), content v o) ∧ fs_inv s' v L U) Hn Ho) as (r&s'&E&->&Hi).
    { wp. wp_apply (read_run L HL s v U o 0 (size (_metadata o))); [apply Hl|done|lia|lia|lia|]. intros r s' [-> Hi]. wp. cbn. rewrite <-Hlc. unfold slice. cbn [drop]. rewrite Nat2Z.id, drop_0, firstn_all. done. }
    exists (s', f). split; [exact E|]. apply volume_rep_intro; [by apply (live_inv s)|done].
Defined.
End ghost.

(** ** Creating a file *)

Definition new_entries es (i : Z) (e : dirent) : Z → list dirent := λ j, if decide (j = i) then es i ++ [e] else es j.

Lemma directory_no_link m : is_directory m = true → is_symlink m = false.
Proof. unfold is_directory, is_symlink. intros E%Z.eqb_eq. by rewrite E. Qed.

Lemma tree_ids L s v U f es i n : fs_live L s v U f → tree_ok L v U f es → live f !! i = Some n → is_directory (_metadata n) = true → Forall (λ e, d_id e ≠ 0) (es i).
Proof.
  intros Hl Ht Hn Hd. apply Forall_forall. intros e He Ez. destruct (to_closed _ _ _ _ _ Ht i n e Hn Hd He) as [m' Em]. rewrite Ez in Em. destruct (rp_file _ _ _ _ _ (lv_rep _ _ _ _ _ Hl) 0 m' Em) as [E0 Hf]. destruct (ok_number _ _ _ (fo_inode _ _ _ _ Hf)) as [Hnum _]. rewrite E0 in Hnum. by apply Hnum.
Qed.

(** A new inode: where it is in the new maps. *)
Section created.
Context (L : layout) (s s' : ext2 D) (v v' : list Z) (U U' : gset Z) (f f' : inodes) (es : Z → list dirent) (i c : Z) (n n' child : inode) (name : list Z) (I : gset Z) (G : Z → Z) (k kn : Z).
Context (Hl : fs_live L s v U f) (Ht : tree_ok L v U f es) (Hn : live f !! i = Some n) (Hd : is_directory (_metadata n) = true).
Context (Hl' : fs_live (relayout L I G k) s' v' U' f') (Hd' : dir_ok L v' U' n' (es i ++ [new_entry name child])) (Hc : c ∉ l_inodes L) (Hcz : c ≠ 0) (Hid : id child = c) (Hm' : _metadata n' = set_size kn (_metadata n)).
Context (Hlive : live f' = <[i := n']> (<[c := child]> (live f))) (Hcached : cached f' = {[c]} ∪ cached f) (Hcont : content v' <$> live f' = <[i := content v' n']> (<[c := []]> (content v <$> live f))).
Context (Hplain : is_directory (_metadata child) = false) (Hnolink : is_symlink (_metadata child) = false).

Lemma created_fresh : live f !! c = None.
Proof. destruct (live f !! c) as [m|] eqn:E; [|done]. by apply (lv_used _ _ _ _ _ Hl) in E. Qed.

Lemma created_cases j m : live f' !! j = Some m → (j = i ∧ m = n') ∨ (j = c ∧ m = child) ∨ (j ≠ i ∧ j ≠ c ∧ live f !! j = Some m ∧ content v' m = content v m).
Proof.
  intros E. pose proof E as E0. rewrite Hlive, !lookup_insert_Some in E. destruct E as [[<- <-]|[Hne [[<- <-]|[Hne' E]]]]; [by left|by right; left|]. right. right. split_and!; [done|done|done|].
  pose proof (f_equal (λ x, x !! j) Hcont) as Ec. cbn beta in Ec. rewrite !lookup_insert_ne, !lookup_fmap, E0, E in Ec by done. cbn in Ec. congruence.
Qed.

Lemma created_kept j m : live f !! j = Some m → j ≠ c ∧ if decide (j = i) then live f' !! j = Some n' ∧ m = n else live f' !! j = Some m ∧ content v' m = content v m.
Proof.
  intros E. assert (j ≠ c) as Hne by (intros ->; by rewrite created_fresh in E). split; [done|]. case_decide as Ei.
  - subst j. rewrite Hlive, lookup_insert_eq. split; [done|congruence].
  - assert (live f' !! j = Some m) as E' by (by rewrite Hlive, !lookup_insert_ne). split; [done|]. by destruct (created_cases j m E') as [[? _]|[[? _]|(_&_&_&?)]].
Qed.

Lemma created_some j : is_Some (live f !! j) → is_Some (live f' !! j).
Proof. intros [m E]. apply created_kept in E as [_ E]. case_decide; destruct E; eauto. Qed.

Lemma created_tree_ok : tree_ok (relayout L I G k) v' U' f' (new_entries es i (new_entry name child)).
Proof.
  assert (is_directory (_metadata n') = true) as Hdn by (by rewrite Hm'). split; unfold new_entries.
  - intros j m Hj Hdm. destruct (created_cases j m Hj) as [[-> ->]|[[-> ->]|(Hne&_&E&Ec)]]; [rewrite decide_True by done; by apply dir_ok_relayout|congruence|]. rewrite decide_False by done. destruct (to_dirs _ _ _ _ _ Ht j m E Hdm).
    split; [by apply (rp_file _ _ _ _ _ (lv_rep _ _ _ _ _ Hl') j m)|done|by rewrite Ec|done|done].
  - intros j m e Hj Hdm He. destruct (created_cases j m Hj) as [[-> ->]|[[-> ->]|(Hne&_&E&Ec)]]; [|congruence|rewrite decide_False in He by done; apply created_some; by apply (to_closed _ _ _ _ _ Ht j m)].
    rewrite decide_True in He by done. apply elem_of_app in He as [He|He%list_elem_of_singleton]; [apply created_some; by apply (to_closed _ _ _ _ _ Ht i n)|]. subst e. cbn. rewrite Hid, Hlive. destruct (decide (c = i)) as [->|]; [by rewrite lookup_insert_eq|by rewrite lookup_insert_ne, lookup_insert_eq].
  - intros j m Hj. rewrite Hcached. destruct (created_cases j m Hj) as [[-> ->]|[[-> ->]|(Hne&_&E&Ec)]]; apply elem_of_union; [right; by apply (to_cached _ _ _ _ _ Ht i n)|left; by apply elem_of_singleton|right; by apply (to_cached _ _ _ _ _ Ht j m)].
  - intros j m Hj Hs. destruct (created_cases j m Hj) as [[-> ->]|[[-> ->]|(Hne&_&E&Ec)]]; [by rewrite directory_no_link in Hs|congruence|by apply (to_links _ _ _ _ _ Ht j m)].
Qed.

Lemma created_grown : grown (tree_of F v f es) (tree_of F v' f' (new_entries es i (new_entry name child))) (mk_vnode F i) name c.
Proof.
  split.
  - intros x [Hx Hs]. split; [done|by apply created_some].
  - cbn. rewrite created_fresh. split_and!; [done| |by intros [_ [? ?]]|done]. rewrite Hlive. destruct (decide (c = i)) as [->|]; [by rewrite lookup_insert_eq|by rewrite lookup_insert_ne, lookup_insert_eq].
  - intros x [Hx [m E]]. cbn. rewrite (live_object f _ m E). apply created_kept in E as [_ E]. case_decide; destruct E as [E ?]; rewrite (live_object f' _ _ E); [subst m; by exists kn|exists (size (_metadata m)); by destruct (_metadata m)].
  - intros [Fx x] name' [Hx [m E]] Hdm. cbn in Hx, E, Hdm |- *. subst Fx. rewrite (live_object f _ m E) in Hdm. unfold new_entries. case_decide as Ex.
    + subst x. rewrite bool_decide_eq_true_2 by done. rewrite lookup_name_app. cbn.
      * rewrite Hid. by destruct (lookup_name name' (es i) =? 0) eqn:Ez; [destruct (same_name name' name); [|apply Z.eqb_eq in Ez]|].
      * by apply (tree_ids L s v U f es i n).
    + rewrite bool_decide_eq_false_2 by congruence. done.
  - intros x [Hx [m E]] Hs. cbn in Hs |- *. rewrite (live_object f _ m E) in *. apply created_kept in E as [_ E]. case_decide; destruct E as [E Ec]; [subst m; by rewrite directory_no_link in Hs|]. by rewrite (live_object f' _ _ E).
Qed.
End created.

Lemma lookup_name_none name (l : list dirent) : Forall (λ e, d_id e ≠ 0) l → lookup_name name l = 0 → has_name name l = false.
Proof. induction 1 as [|e l He _ IH]; [done|]. cbn. destruct (same_name name (d_name e)); [done|]. done. Qed.

(** The mode of a new file. *)
Lemma file_mode_plain mode : Z.land mode 0xF000 = 0 → Z.land (Z.lor mode MODE_FILE) 0xF000 = MODE_FILE.
Proof. intros E. by rewrite Z.land_lor_distr_l, E. Qed.

Lemma file_mode_range mode : 0 ≤ mode < 2 ^ 16 → 0 ≤ Z.lor mode MODE_FILE < 2 ^ 16.
Proof.
  intros Hm. assert (0 ≤ Z.lor mode MODE_FILE) as Hnn by (apply Z.lor_nonneg; unfold MODE_FILE; lia). split; [done|]. destruct (Z.eq_dec (Z.lor mode MODE_FILE) 0) as [->|]; [lia|]. apply Z.log2_lt_pow2; [lia|]. rewrite Z.log2_lor by (unfold MODE_FILE; lia).
  apply Z.max_lub_lt; [|done]. destruct (Z.eq_dec mode 0) as [->|]; [done|]. apply Z.log2_lt_pow2; lia.
Qed.
End ext2_spec.

(** ** Created by a path, found by the path *)

Section create.
Context {D : Type} `{ByteFileSpec D} (L : layout) (HL : layout_ok L).
Context (stack_bytes : list Z) (stack_len : length stack_bytes = 14%nat) (stack_ok : bytes stack_bytes) (stack : list Z) (Hstack : zlength stack = 1024).
Context (F : Z) (the_device : Z → Z → result Z) (dev_read : Z → Z → Z → Z * list Z) (dev_write : Z → Z → list Z → Z).

#[local] Instance volume_inodes : Inodes (ext2 D * inodes) := ext2_inodes F stack_bytes stack the_device dev_read dev_write.

(** The user may create a file with the name in the directory, and there is no such file. *)
Record creatable (V : vfs) (root : linked) (w : tree) (u : user) (p : linked) (name : list Z) : Prop := {
  cr_located : located V root root_inode_id w u p;
  cr_valid : valid_link w p;
  cr_dir : is_directory (t_meta w (l_inode p)) = true;
  cr_exec : can_execute (t_meta w (l_inode p)) u = true;
  cr_write : can_write (t_meta w (l_inode p)) u = true;
  cr_name : plain_name name ∧ bytes name ∧ 2 ≤ zlength name < 256;
  cr_absent : t_child w (l_inode p) name = 0;
}.

(** A mounted VFS over the tree. *)
Definition mounted V root w : Prop := vfs_ok V root w ∧ l_parent root = None ∧ Forall (λ m, t_valid w (host_inode m)) (mounts V).

Lemma mounted_grown V root w w' dir name c : grown w w' dir name c → mounted V root w → mounted V root w'.
Proof.
  intros Hg ((Hr&Hv&Hm)&Hp&Hh). split_and!; [|done|eapply Forall_impl; [exact Hh|]; intros m; apply Hg]. split_and!; [done|by apply (grown_link w w' dir name c)|]. eapply Forall_impl; [exact Hm|]. intros m. apply Hg.
Qed.

(** What there is after the file has been created. *)
Definition file_at (V : vfs) (root : linked) v f es (u : user) (p : linked) name mode c s' f' : Prop :=
  ∃ L' v' U' es' child, layout_ok L' ∧ fs_live L' s' v' U' f' ∧ tree_ok L' v' U' f' es' ∧ grown (tree_of F v f es) (tree_of F v' f' es') (l_inode p) name c ∧
    live f' !! c = Some child ∧ _metadata child = mk_metadata (euid u) (egid u) (Z.lor mode MODE_FILE) 0 c 0 0 ∧
    ∀ j m, live f !! j = Some m → j ≠ vid (l_inode p) → live f' !! j = Some m ∧ content v' m = content v m.

(** [create_entry] in the directory that [p] refers to. *)
Lemma ext2_creates V root s v U f es u p name mode n : fs_live L s v U f → tree_ok L v U f es → creatable V root (tree_of F v f es) u p name → live f !! vid (l_inode p) = Some n → 0 ≤ mode < 2 ^ 16 → Z.land mode 0xF000 = 0 → 0 ≤ euid u < 2 ^ 16 → 0 ≤ egid u < 2 ^ 16 → tif L ≠ 0 → (∀ child, addable L U n (es (vid (l_inode p))) name child) →
  ∃ c s' f', Vfs.create_entry (l_inode p) name (Z.lor mode MODE_FILE) (euid u) (egid u) (s, f) = Done (Ok (mk_vnode F c), (s', f')) ∧ file_at V root v f es u p name mode c s' f'.
Proof.
  intros Hl Ht [Hloc Hv Hd _ _ (Hname&Hb&Hlen) Hno] Hn Hmode Hm0 Hu Hg Hfree Hadd. set (i := vid (l_inode p)) in *. pose proof (valid_inode _ _ Hv) as [HF _]. cbn in HF. cbn in Hd, Hno. fold i in Hd, Hno. rewrite (live_object f i n Hn) in Hd.
  assert (has_name name (es i) = false) as Hh by (apply lookup_name_none; [by apply (tree_ids L s v U f es i n)|done]). pose proof (file_mode_plain mode Hm0) as Hm1.
  destruct (create_entry_run L HL stack_bytes stack_len stack_ok s v U f i n (es i) name stack (Z.lor mode MODE_FILE) (euid u) (egid u)) as ([r f']&s'&E&Hc); [done|by apply live_object|by apply (to_dirs _ _ _ _ _ Ht)|done|done|lia|unfold plain_mode, IS_DIR; by rewrite Hm1|by apply file_mode_range|done|done|done|].
  cbn [fst snd] in Hc. unfold created in Hc. rewrite (proj2 (Z.eqb_neq _ 0)), Hh in Hc by done. destruct Hc as (c&G&k&v'&U'&n'&child&->&Hnum&HI&Hl'&Hn'&Hc'&_&Hd'&Hcont&Emc&_&Hlive&Hca&n0&kn&En0&Emn). replace n0 with n in * by congruence.
  assert (is_directory (_metadata child) = false ∧ is_symlink (_metadata child) = false) as [Hcd Hcs] by (rewrite Emc; unfold is_directory, is_symlink, mode_type; cbn [Ext2Inode.mode]; by rewrite Hm1).
  assert (c ≠ 0) as Hcz by (unfold inode_number in Hnum; lia). assert (i ≠ c) as Hic by (intros ->; apply (lv_used _ _ _ _ _ Hl) in Hn; done). assert (live f' !! c = Some child) as Hlc by (by rewrite Hlive, lookup_insert_ne, lookup_insert_eq).
  assert (id child = c) as Eid by apply (rp_file _ _ _ _ _ (lv_rep _ _ _ _ _ Hl') c child Hlc). exists c, s', f'. split.
  - apply (with_inode_done F s f s' f' (l_inode p) n); [done|done|]. fold i. cbn beta. unfold mbind, fsop_bind. by rewrite E.
  - exists (relayout L (l_inodes L ∪ {[c]}) G k), v', U', (new_entries es i (new_entry name child)), child. split_and!; [by apply relayout_ok|done| | |done|done|].
    + eapply (created_tree_ok L s s'); done.
    + replace (l_inode p) with (mk_vnode F i) by (unfold i; destruct (l_inode p); cbn in HF; by subst). eapply (created_grown F L s); done.
    + intros j m Hj Hne. assert (j ≠ c ∧ if decide (j = i) then live f' !! j = Some n' ∧ m = n else live f' !! j = Some m ∧ content v' m = content v m) as [_ Hk] by (eapply (created_kept L s); done). rewrite decide_False in Hk by done. done.
Qed.

(** A file that was put there is found there. *)
Lemma found_after V root s v f es u p name mode c f' base options : mounted V root (tree_of F v f es) → (∃ L U s0, layout_ok L ∧ fs_live L s0 v U f ∧ tree_ok L v U f es) → creatable V root (tree_of F v f es) u p name → valid_link (tree_of F v f es) base → Z.land mode 0xF000 = 0 → zlength (full p ++ slash :: name) < npos →
  file_at V root v f es u p name mode c s f' → ∃ s', resolve_path V (full p ++ slash :: name) base u options (s, f') = Done ((Ok (link_in (mk_vnode F c) name p), Some p), (s', f')).
Proof.
  intros Hm (L0&U&s0&HL0&Hl0&Ht0) [Hloc Hv Hd Hx _ (Hname&_) Hno] Hb Hmode Hlen (L'&v'&U'&es'&child&HL'&Hl'&Ht'&Hg&Hc&Emc&_). pose proof (mounted_grown V root _ _ _ _ _ Hg Hm) as (Hok'&Hroot&_). destruct Hm as (_&_&Hh). set (w := tree_of F v f es) in *. set (w' := tree_of F v' f' es') in *.
  pose proof (valid_inode w p Hv) as [HF _]. cbn in HF. assert (located V root root_inode_id w' u (link_in (mk_vnode F c) name p)) as Hloc'.
  { rewrite <-HF. apply (@grown_new _ volume_inodes (ext2_spec F stack_bytes stack the_device dev_read dev_write Hstack L0 HL0 v U f es) V root w w' u (l_inode p) name c (s0, f)); try done. rewrite HF. cbn. rewrite (live_object f' c child Hc), Emc. unfold is_symlink, mode_type. cbn [Ext2Inode.mode]. by rewrite file_mode_plain. }
  pose (I2 := ext2_spec F stack_bytes stack the_device dev_read dev_write Hstack L' HL' v' U' f' es').
  destruct (@resolve_path_run _ volume_inodes I2 V root w' u options Hok' (full p ++ slash :: name) base (s, f') Hlen (grown_link w w' _ _ _ Hg base Hb)) as (r&[s' f'']&E&->&(_&Ef&_)&_); [by apply volume_rep_intro|]. cbn in Ef. subst f''. exists s'.
  rewrite E. do 2 f_equal. by apply (look_path V root root_inode_id w' u options Hroot 5 (mk_vnode F c) name p base).
Qed.


(** ** Reading through a descriptor *)

(** The parts of an inode that an open file uses. *)
Lemma descriptor_metadata s f i n : live f !! i = Some n → Vfs.get_metadata (mk_vnode F i) (s, f) = Done (_metadata n, (s, f)).
Proof. intros Hn. by apply (with_inode_done F s f s f (mk_vnode F i) n). Qed.

(** A descriptor reads the bytes of the file from where it is, and is behind them afterwards. *)
Theorem descriptor_reads s v U f i n fd count : fs_live L s v U f → live f !! i = Some n → is_directory (_metadata n) = false → size (_metadata n) < 2 ^ 31 → _file fd = InodeFile (mk_vnode F i) → _readable fd = true → _can_seek fd = true → 0 ≤ _seek fd < 2 ^ 31 → 0 ≤ count < 2 ^ 31 →
  let data := slice (_seek fd) count (content v n) in
  ∃ s', fd_read fd count (s, f) = Done ((zlength data, data, set_seek (_seek fd + zlength data) fd), (s', f)) ∧ fs_live L s' v U f.
Proof.
  intros Hl Hn Hd Hsz Hf Hr Hc Hk Hcount data. destruct (rp_file _ _ _ _ _ (lv_rep _ _ _ _ _ Hl) i n Hn) as [_ Hfo]. pose proof (rp_inv _ _ _ _ _ (lv_rep _ _ _ _ _ Hl)) as Hi0. pose proof (length_content L HL s v U n (fi_base _ _ _ _ Hi0) (fo_inode _ _ _ _ Hfo)) as Hlc.
  destruct (read_run L HL s v U n (_seek fd) count Hi0 Hfo (proj1 Hk) (proj1 Hcount) ltac:(lia)) as (r&s'&E&->&Hi). fold data in E. exists s'. split; [|by apply (live_inv L v U f s)].
  assert (zlength data = Z.min count (Z.max 0 (zlength (content v n) - _seek fd))) as Hdl by (unfold data, slice; rewrite length_take, length_drop; lia). assert (Vfs.read (mk_vnode F i) (_seek fd) count (s, f) = Done ((zlength data, data), (s', f))) as Er by (apply (with_inode_done F s f s' f (mk_vnode F i) n); [done|done|]; unfold mbind, fsop_bind; by rewrite E).
  pose proof (descriptor_metadata s f i n Hn) as Em. unfold fd_read. rewrite Hr, Hf. cbn [negb]. rewrite u32_id by lia. unfold file_read. unfold mbind, fsop_bind. rewrite Em, Hd, andb_false_r, Er. unfold fd_advance. rewrite Hc. cbn [andb]. destruct (Z.ltb_spec 0 (zlength data)) as [Hp|Hz].
  - unfold mbind, raise, Vfs.off_add. rewrite (proj2 (Z.leb_le _ _)), (proj2 (Z.ltb_lt _ _)) by lia. done.
  - assert (zlength data = 0) as Ez by lia. rewrite Ez, Z.add_0_r. by destruct fd.
Qed.
End create.

(** ** The small filesystem *)

(** There are no devices: [ENODEV]. *)
Definition no_device : Z → Z → result Z := λ _ _, Err (- 19).

Definition small_root : linked := link_root (mk_vnode 1 2) [slash].
Definition small_vfs : vfs := mk_vfs (Some small_root) [mk_mount 1 (mk_vnode 1 2)].
Definition small_tree : tree := tree_of 1 small_image small_inodes (λ _, small_entries).
Definition superuser : user := mk_user 0 0 0 0 [].

Lemma small_live_cases i n : live small_inodes !! i = Some n → (i = 2 ∧ n = small_dir) ∨ (i = 3 ∧ n = small_inode).
Proof. intros E%live_object. cbn [objects small_inodes] in E. unfold small_files in E. rewrite lookup_insert_Some, lookup_singleton_Some in E. destruct E as [[<- <-]|[_ [<- <-]]]; [by left|by right]. Qed.

Lemma small_tree_ok : tree_ok small_layout small_image small_used small_inodes (λ _, small_entries).
Proof.
  split.
  - intros i n [[-> ->]|[-> ->]]%small_live_cases Hd; [apply small_dir_ok|done].
  - intros i n e _ _ He. assert (d_id e = 2 ∨ d_id e = 3) as Hid. { repeat (apply elem_of_cons in He as [->|He]; [by (left + right)|]). by apply elem_of_nil in He. }
    destruct Hid as [->| ->]; eexists; apply live_lookup; done.
  - intros i n [[-> ->]|[-> ->]]%small_live_cases; by apply (bool_decide_unpack _); vm_compute.
  - intros i n [[-> ->]|[-> ->]]%small_live_cases; done.
Qed.

#[local] Instance small_volume : Inodes (ext2 (partition (Z * disk (list Z))) * inodes) := ext2_inodes 1 (zeroes 14) (zeroes 1024) no_device (λ _ _ _, (0, [])) (λ _ _ _, 0).

Lemma small_root_valid : valid_link small_tree small_root.
Proof. apply Forall_singleton. split; [done|]. exists small_dir. apply live_lookup. done. Qed.

Lemma small_vfs_mounted : mounted (D := partition (Z * disk (list Z))) (zeroes 14) (zeroes 1024) 1 no_device (λ _ _ _, (0, [])) (λ _ _ _, 0) small_vfs small_root small_tree.
Proof. pose proof (Forall_inv small_root_valid). split_and!; [|done|by apply Forall_singleton]. split_and!; [done|apply small_root_valid|by apply Forall_singleton]. Qed.

Lemma small_creatable : creatable (D := partition (Z * disk (list Z))) (zeroes 14) (zeroes 1024) 1 no_device (λ _ _ _, (0, [])) (λ _ _ _, 0) small_vfs small_root small_tree superuser small_root [97; 98].
Proof.
  split; [constructor|apply small_root_valid|by vm_compute|by vm_compute|by vm_compute| |by vm_compute]. split_and!; [|repeat constructor; lia|cbn; lia|cbn; lia]. split_and!; [done| |done|done]. intros Hs. repeat (apply elem_of_cons in Hs as [Hs|Hs]; [done|]). by apply elem_of_nil in Hs.
Qed.


#[local] Instance small_spec : InodesSpec _ := ext2_spec 1 (zeroes 14) (zeroes 1024) no_device (λ _ _ _, (0, [])) (λ _ _ _, 0) eq_refl small_layout small_layout_ok small_image small_used small_inodes (λ _, small_entries).

(** The path "/hi" of the file in the root directory. *)
Lemma full_path_resolves_witness : ∃ s', resolve_path small_vfs [47; 104; 105] small_root superuser 0 (small_state, small_inodes) = Done ((Ok (link_in (mk_vnode 1 3) [104; 105] small_root), Some small_root), s') ∧ tree_rep s' small_tree.
Proof.
  apply (full_path_resolves small_vfs small_root small_tree superuser 0 (small_state, small_inodes) small_root (link_in (mk_vnode 1 3) [104; 105] small_root) [47; 104; 105]); [apply small_vfs_mounted|done|apply volume_rep_intro; [apply small_live|apply small_tree_ok]|apply small_root_valid| |done|by vm_compute].
  apply (located_in small_vfs small_root root_inode_id small_tree superuser small_root [104; 105]); [constructor|by vm_compute|by vm_compute| |by vm_compute|by vm_compute].
  split_and!; [done| |done|done]. intros Hs. repeat (apply elem_of_cons in Hs as [Hs|Hs]; [done|]). by apply elem_of_nil in Hs.
Defined.

(** What removing "/hi" changes. *)
Definition small_unlink : outcome (unit * (_ * list change)) := @exec _ log_inodes small_vfs superuser small_root (Unlink [47; 104; 105]) ((small_state, small_inodes), []).


(** ** Where the code differs from what it means to do *)

(** A user who can read "/hi" but not write to it. *)
Definition reader : user := mk_user 7 7 7 7 [].

Definition log_of {A} (r : outcome (A * (ext2 (partition (Z * disk (list Z))) * inodes * list change))) : option (list change) := match r with Done (_, (_, log)) => Some log | _ => None end.

(** A file that is opened only to be read is truncated if the options say so. *)
Example truncated_by_reader : let m := t_meta small_tree (mk_vnode 1 3) in
  can_write m reader = false ∧ log_of (@exec _ log_inodes small_vfs reader small_root (Open [47; 104; 105] O_TRUNC 0) ((small_state, small_inodes), [])) = Some [Truncates (mk_vnode 1 3) 0].
Proof. vm_compute. done. Qed.

(** No file has a name of one byte after a slash. *)
Example short_name_refused : match Vfs.open small_vfs [47; 97] O_CREAT 0x1A4 superuser small_root (small_state, small_inodes) with Done (r, _) => Some r | _ => None end = Some (Err (- ENAMETOOLONG)).
Proof. vm_compute. reflexivity. Qed.

(** Removing the root directory stops the kernel. *)
Example unlink_root_panics : unlink small_vfs [47] reader small_root (small_state, small_inodes) = Panic.
Proof. vm_compute. reflexivity. Qed.

(** [access] to read asks for the permission to write as well. *)
Example access_read_needs_write : let m := t_meta small_tree (mk_vnode 1 3) in
  can_read m reader = true ∧ match access small_vfs [47; 104; 105] R_OK reader small_root (small_state, small_inodes) with Done (r, _) => Some r | _ => None end = Some (Err EACCES).
Proof. vm_compute. done. Qed.
