(* ===== verification/FileCalls.v ===== *)
(** * File system calls of a process (kernel/syscall/read_write.cpp, dup.cpp, link.cpp, mkdir.cpp, chmod.cpp, chdir.cpp, getcwd.cpp, access.cpp, truncate.cpp)

    The table of open files of a process, and the calls that use it and the VFS.  Every place of
    the table has a descriptor of its own: [dup] and [dup2] copy.  Numbers below zero are
    errors. *)

From stdpp Require Import base numbers list list_numbers option gmap.
From S2P Require Import Prelude.
From S2P Require Import ByteBuf.
From S2P Require Import KString.
From S2P Require Import Ext2Inode.
From S2P Require Import Ext2Dir.
From S2P Require Import Vfs.
From S2P Require Import VfsSpec.

Local Open Scope Z_scope.

(** What the calls use of [Process]. *)
Record process := mk_process {
  _file_descriptors : list (option descriptor);
  _user : user;
  _cwd : linked;
  _umask : Z;
}.

Definition set_descriptors (l : list (option descriptor)) (p : process) : process := mk_process l (_user p) (_cwd p) (_umask p).
Definition set_cwd (l : linked) (p : process) : process := mk_process (_file_descriptors p) (_user p) l (_umask p).

(** The descriptor with a number, if the number is valid. *)
Definition descriptor_at (p : process) (n : Z) : option descriptor :=
  if (n <? 0) || (zlength (_file_descriptors p) <=? n) then None else mjoin (_file_descriptors p !! Z.to_nat n).

Definition put_descriptor (p : process) (n : Z) (d : option descriptor) : process := set_descriptors (<[Z.to_nat n := d]> (_file_descriptors p)) p.

(** The number that a call returns for a result. *)
Definition code {A} (r : result A) : Z := match r with Ok _ => 0 | Err e => e end.

Definition O_CLOEXEC : Z := 0x040000.

Section calls.
Context {S : Type} `{Inodes S} (V : vfs).

Definition sys_read (p : process) (n count : Z) : fsop S (Z * list Z * process) :=
  match descriptor_at p n with
  | None => done (- EBADF, [], p)
  | Some d => '(ret, buf, d) ← fd_read d count; done (ret, buf, put_descriptor p n (Some d))
  end.

Definition sys_write (p : process) (n : Z) (buffer : list Z) : fsop S (Z * process) :=
  match descriptor_at p n with
  | None => done (- EBADF, p)
  | Some d => '(ret, d) ← fd_write d buffer; done (ret, put_descriptor p n (Some d))
  end.

Definition sys_lseek (p : process) (n off whence : Z) : fsop S (Z * process) :=
  match descriptor_at p n with
  | None => done (- EBADF, p)
  | Some d => '(ret, d) ← seek d off whence; done (ret, put_descriptor p n (Some d))
  end.

(** A new descriptor comes behind all others. *)
Definition sys_open (p : process) (filename : list Z) (options mode : Z) : fsop S (Z * process) :=
  r ← open V filename options (Z.land (Z.land mode 0x9FF) (Z.lnot (_umask p))) (_user p) (_cwd p);
  match r with
  | Err e => done (e, p)
  | Ok d => done (zlength (_file_descriptors p), set_descriptors (_file_descriptors p ++ [Some d]) p)
  end.

(** The destructor of [FileDescriptor]. *)
Definition release (d : descriptor) : fsop S unit := match _file d with InodeFile n => close_inode n | DeviceFile _ => done tt end.

Definition sys_close (p : process) (n : Z) : fsop S (Z * process) :=
  match descriptor_at p n with None => done (- EBADF, p) | Some d => _ ← release d; done (0, put_descriptor p n None) end.

(** The constructor that copies a [FileDescriptor], without the counts of pipes and terminals, and [unset_options]. *)
Definition copy_descriptor (d : descriptor) : fsop S descriptor :=
  _ ← match _file d with InodeFile n => open_inode n (_options d) | DeviceFile _ => done tt end;
  done (set_options d (Z.land (_options d) (Z.lnot O_CLOEXEC))).

Definition sys_dup (p : process) (oldfd : Z) : fsop S (Z * process) :=
  match descriptor_at p oldfd with
  | None => done (- EBADF, p)
  | Some d => d ← copy_descriptor d; done (zlength (_file_descriptors p), set_descriptors (_file_descriptors p ++ [Some d]) p)
  end.

(** [vector::resize] to a number of type [size_t]; there is no memory for more than [2 ^ 31] places. *)
Definition resize (l : list (option descriptor)) (n : Z) : outcome (list (option descriptor)) :=
  if 2 ^ 31 <? n then Undef else Done (take (Z.to_nat n) l ++ replicate (Z.to_nat n - length l) None).

(** [newfd] is compared as an unsigned number. *)
Definition sys_dup2 (p : process) (oldfd newfd : Z) : fsop S (Z * process) :=
  match descriptor_at p oldfd with
  | None => done (- EBADF, p)
  | Some _ =>
      if newfd =? oldfd then done (oldfd, p)
      else
        l ← raise (if zlength (_file_descriptors p) <=? u32 newfd then resize (_file_descriptors p) (u32 (newfd + 1)) else Done (_file_descriptors p));
        match l !! Z.to_nat oldfd with
        | None => raise Panic
        | Some None => raise Panic
        | Some (Some d) =>
            d ← copy_descriptor d;
            if zlength l <=? u32 newfd then raise Panic
            else
              _ ← match mjoin (l !! Z.to_nat newfd) with Some old => release old | None => done tt end;
              done (newfd, set_descriptors (<[Z.to_nat newfd := Some d]> l) p)
        end
  end.

Definition sys_link (p : process) (oldpath newpath : list Z) : fsop S Z := r ← link V oldpath newpath (_user p) (_cwd p); done (code r).
Definition sys_unlink (p : process) (name : list Z) : fsop S Z := r ← unlink V name (_user p) (_cwd p); done (code r).
Definition sys_symlink (p : process) (file linkname : list Z) : fsop S Z := r ← symlink V file linkname (_user p) (_cwd p); done (code r).
Definition sys_rmdir (p : process) (name : list Z) : fsop S Z := r ← rmdir V name (_user p) (_cwd p); done (code r).
Definition sys_mkdir (p : process) (path : list Z) (mode : Z) : fsop S Z := r ← mkdir V path (Z.land mode 0x9FF) (_user p) (_cwd p); done (code r).
Definition sys_chmod (p : process) (file : list Z) (mode : Z) : fsop S Z := r ← chmod_path V file mode (_user p) (_cwd p); done (code r).
Definition sys_chown (p : process) (file : list Z) (uid gid : Z) : fsop S Z := r ← chown_path V file uid gid (_user p) (_cwd p) 0; done (code r).
Definition sys_lchown (p : process) (file : list Z) (uid gid : Z) : fsop S Z := r ← chown_path V file uid gid (_user p) (_cwd p) O_NOFOLLOW; done (code r).
Definition sys_access (p : process) (pathname : list Z) (mode : Z) : fsop S Z := r ← access V pathname mode (_user p) (_cwd p); done (code r).
Definition sys_truncate (p : process) (path : list Z) (length : Z) : fsop S Z := r ← truncate_path V path length (_user p) (_cwd p); done (code r).

(** What is written to the buffer, and the place of the terminator. *)
Definition sys_readlink (p : process) (file : list Z) (bufsize : Z) : fsop S (Z * list Z * Z) :=
  r ← readlink V file (_user p) (_cwd p);
  match r with
  | Err e => done (e, [], 0)
  | Ok link_value => let n := Z.min (zlength link_value) (u32 (bufsize - 1)) in done (0, take (Z.to_nat n) link_value, n)
  end.

Definition sys_chdir (p : process) (path : list Z) : fsop S (Z * process) :=
  '(r, _) ← resolve_path V path (_cwd p) (_user p) 0;
  match r with
  | Err e => done (e, p)
  | Ok l => m ← get_metadata (l_inode l); if negb (is_directory m) then done (- ENOTDIR, p) else done (0, set_cwd l p)
  end.
End calls.

(** What is written to the buffer of [getcwd], and the place of the terminator, which may be behind the buffer. *)
Definition sys_getcwd (p : process) (length : Z) : outcome (Z * list Z * Z) :=
  if length <? zlength (l_name (_cwd p)) then Done (- ENAMETOOLONG, [], 0)
  else path ← get_full_path (_cwd p); Done (0, take (Z.to_nat (Z.min length (zlength path))) path, zlength path).

(** ** The numbers of open files *)

Section numbers.
Context {S : Type} `{Inodes S} (V : vfs).

(** A call on the table of open files. *)
Inductive fd_call :=
  | Read (n count : Z)
  | Write (n : Z) (buffer : list Z)
  | Lseek (n off whence : Z)
  | Open (filename : list Z) (options mode : Z)
  | Close (n : Z)
  | Dup (oldfd : Z)
  | Dup2 (oldfd newfd : Z).

Definition exec_call (p : process) (c : fd_call) : fsop S (Z * process) :=
  match c with
  | Read n count => '(ret, _, p) ← sys_read p n count; done (ret, p)
  | Write n buffer => sys_write p n buffer
  | Lseek n off whence => sys_lseek p n off whence
  | Open filename options mode => sys_open V p filename options mode
  | Close n => sys_close p n
  | Dup oldfd => sys_dup p oldfd
  | Dup2 oldfd newfd => sys_dup2 p oldfd newfd
  end.

(** The number whose file the call changes, if it returns [ret]. *)
Definition changes (c : fd_call) (ret : Z) : Z := match c with Read n _ | Write n _ | Lseek n _ _ | Close n | Dup2 _ n => n | Open _ _ _ | Dup _ => ret end.

Lemma descriptor_at_lookup p n : descriptor_at p n = if n <? 0 then None else mjoin (_file_descriptors p !! Z.to_nat n).
Proof. unfold descriptor_at. destruct (Z.ltb_spec n 0); [done|]. cbn [orb]. destruct (Z.leb_spec (zlength (_file_descriptors p)) n) as [Hge|]; [|done]. by rewrite lookup_ge_None_2 by lia. Qed.

Lemma put_descriptor_other p n m d : 0 ≤ n → m ≠ n → descriptor_at (put_descriptor p n d) m = descriptor_at p m.
Proof. intros Hn Hne. rewrite !descriptor_at_lookup. destruct (Z.ltb_spec m 0); [done|]. cbn [_file_descriptors put_descriptor set_descriptors]. by rewrite list_lookup_insert_ne by lia. Qed.

Lemma descriptor_at_range p n d : descriptor_at p n = Some d → 0 ≤ n < zlength (_file_descriptors p).
Proof. unfold descriptor_at. destruct (Z.ltb_spec n 0), (Z.leb_spec (zlength (_file_descriptors p)) n); cbn [orb]; (done || lia). Qed.

Lemma add_descriptor_other p m d : m ≠ zlength (_file_descriptors p) → descriptor_at (set_descriptors (_file_descriptors p ++ [Some d]) p) m = descriptor_at p m.
Proof.
  intros Hne. rewrite !descriptor_at_lookup. destruct (Z.ltb_spec m 0); [done|]. cbn [_file_descriptors set_descriptors]. destruct (decide (m < zlength (_file_descriptors p))); [by rewrite lookup_app_l by lia|]. rewrite !lookup_ge_None_2; [done|lia|rewrite length_app; cbn; lia].
Qed.

Lemma resized_other p l n m : 0 ≤ n → zlength (_file_descriptors p) ≤ n → resize (_file_descriptors p) (n + 1) = Done l → descriptor_at (set_descriptors l p) m = descriptor_at p m.
Proof.
  unfold resize. intros Hn Hlen. destruct (2 ^ 31 <? n + 1); [done|]. intros [= <-]. rewrite !descriptor_at_lookup. destruct (Z.ltb_spec m 0); [done|]. cbn [_file_descriptors set_descriptors]. rewrite take_ge by lia.
  destruct (decide (m < zlength (_file_descriptors p))); [by rewrite lookup_app_l by lia|]. rewrite lookup_app_r, (lookup_ge_None_2 (_file_descriptors p)) by lia. destruct (replicate _ _ !! _) eqn:E; [|done]. by apply lookup_replicate in E as [-> _].
Qed.

Lemma bind_inv {A B} (m : fsop S A) (f : A → fsop S B) s x : (m ≫= f) s = Done x → ∃ a s1, m s = Done (a, s1) ∧ f a s1 = Done x.
Proof. unfold mbind, fsop_bind. destruct (m s) as [[a s1]| | |]; [|done..]. intros E. by exists a, s1. Qed.

(** A negative number is taken for a great one; the table is emptied for it, or too great to be allocated. *)
Lemma dup2_negative p oldfd newfd s : zlength (_file_descriptors p) < 2 ^ 31 → is_Some (descriptor_at p oldfd) → - 2 ^ 31 ≤ newfd < 0 → sys_dup2 p oldfd newfd s = if newfd =? -1 then Panic else Undef.
Proof.
  intros Hlen [d Ed] Hr. pose proof (descriptor_at_range _ _ _ Ed) as Ho. assert (u32 newfd = newfd + 2 ^ 32) as E1 by (unfold u32; symmetry; apply (Z.mod_unique _ _ (-1)); lia). unfold sys_dup2. rewrite Ed, E1, (proj2 (Z.eqb_neq newfd oldfd)), (proj2 (Z.leb_le _ _)) by lia.
  destruct (Z.eqb_spec newfd (-1)) as [->|Hne]; [reflexivity|]. assert (u32 (newfd + 1) = newfd + 1 + 2 ^ 32) as -> by (unfold u32; symmetry; apply (Z.mod_unique _ _ (-1)); lia). unfold resize. by rewrite (proj2 (Z.ltb_lt _ _)) by lia.
Qed.

Lemma dup2_others p oldfd newfd s ret p' s' m : zlength (_file_descriptors p) < 2 ^ 31 → - 2 ^ 31 ≤ newfd < 2 ^ 31 → sys_dup2 p oldfd newfd s = Done ((ret, p'), s') → m ≠ newfd → descriptor_at p' m = descriptor_at p m.
Proof.
  intros Hlen Hr E Hne. destruct (descriptor_at p oldfd) as [d|] eqn:Ed; [|unfold sys_dup2 in E; rewrite Ed in E; by injection E as <- <- <-]. destruct (decide (0 ≤ newfd)) as [Hp|Hneg]; [|rewrite dup2_negative in E by (eauto || lia); by destruct (newfd =? -1)].
  unfold sys_dup2 in E. rewrite Ed in E. destruct (newfd =? oldfd); [by injection E as <- <- <-|]. apply bind_inv in E as (l&s1&El&E). rewrite (u32_id newfd), (u32_id (newfd + 1)) in El by lia.
  assert (descriptor_at (set_descriptors l p) m = descriptor_at p m) as <-.
  { destruct (Z.leb_spec (zlength (_file_descriptors p)) newfd); [|injection El as <- <-; by destruct p]. apply (resized_other p l newfd); [done|done|]. unfold raise in El. destruct (resize _ _); [by injection El as -> ->|done..]. }
  destruct (l !! _) as [[d'|]|]; [|done..]. apply bind_inv in E as (d2&s2&_&E). destruct (zlength l <=? u32 newfd); [done|]. apply bind_inv in E as (?&s3&_&E). injection E as <- <- <-. apply (put_descriptor_other (set_descriptors l p) newfd m (Some d2)); lia.
Qed.

(** A number of type [int]. *)
Definition call_ok (c : fd_call) : Prop := match c with Dup2 _ n => - 2 ^ 31 ≤ n < 2 ^ 31 | _ => True end.

(** A call on one number leaves the files of all other numbers and their positions alone, those of a duplicate included. *)
Theorem other_descriptors_kept p c s ret p' s' m : zlength (_file_descriptors p) < 2 ^ 31 → call_ok c → exec_call p c s = Done ((ret, p'), s') → m ≠ changes c ret → descriptor_at p' m = descriptor_at p m.
Proof.
  intros Hlen Hc E Hne. destruct c as [n count|n buffer|n off whence|filename options mode|n|oldfd|oldfd newfd]; cbn [exec_call changes] in *; [| | | | | |by apply (dup2_others p oldfd newfd s ret p' s' m)].
  - apply bind_inv in E as ([[r b] q]&s1&E1&E). injection E as <- <- <-. unfold sys_read in E1. destruct (descriptor_at p n) as [d|] eqn:Ed; [|by injection E1 as <- <- <-]. apply bind_inv in E1 as ([[r' b'] d']&s2&_&E1). injection E1 as <- <- <- <-. apply descriptor_at_range in Ed. apply put_descriptor_other; lia.
  - unfold sys_write in E. destruct (descriptor_at p n) as [d|] eqn:Ed; [|by injection E as <- <- <-]. apply bind_inv in E as ([r d']&s1&_&E). injection E as <- <- <-. apply descriptor_at_range in Ed. apply put_descriptor_other; lia.
  - unfold sys_lseek in E. destruct (descriptor_at p n) as [d|] eqn:Ed; [|by injection E as <- <- <-]. apply bind_inv in E as ([r d']&s1&_&E). injection E as <- <- <-. apply descriptor_at_range in Ed. apply put_descriptor_other; lia.
  - apply bind_inv in E as ([d|e]&s1&_&E); injection E as <- <- <-; [by apply add_descriptor_other|done].
  - unfold sys_close in E. destruct (descriptor_at p n) as [d|] eqn:Ed; [|by injection E as <- <- <-]. apply bind_inv in E as (?&s1&_&E). injection E as <- <- <-. apply descriptor_at_range in Ed. apply put_descriptor_other; lia.
  - unfold sys_dup in E. destruct (descriptor_at p oldfd) as [d|] eqn:Ed; [|by injection E as <- <- <-]. apply bind_inv in E as (d'&s1&_&E). injection E as <- <- <-. by apply add_descriptor_other.
Qed.
End numbers.

(** ** The working directory *)

Section cwd.
Context {S : Type} `{InodesSpec S}.

(** What [getcwd] writes to a buffer that is great enough leads any process of the user back to the directory. *)
Theorem getcwd_chdir (V : vfs) (root : linked) (w : tree) (s : S) (p q : process) (length : Z) (path : list Z) : vfs_ok V root w → l_parent root = None → tree_rep s w → valid_link w (_cwd p) → valid_link w (_cwd q) →
  located V root root_inode_id w (_user q) (_cwd p) → is_directory (t_meta w (l_inode (_cwd p))) = true → get_full_path (_cwd p) = Done path → zlength (l_name (_cwd p)) ≤ length → zlength path ≤ length → zlength path < npos →
  sys_getcwd p length = Done (0, path, zlength path) ∧ ∃ s', sys_chdir V q path s = Done ((0, set_cwd (_cwd p) q), s') ∧ tree_rep s' w.
Proof.
  intros Hok Hroot Hr Hp Hq Hl Hd Ep Hn Hlen Hnpos. split.
  - unfold sys_getcwd. rewrite (proj2 (Z.ltb_ge _ _)), Ep by done. cbn [mbind outcome_bind]. by rewrite Z.min_r, take_ge by lia.
  - destruct (full_path_found V root w (_user q) 0 s (_cwd q) (_cwd p) path Hok Hroot Hr Hq Hl Ep Hnpos) as (s1&E1&Hr1). destruct (metadata_ok s1 w (l_inode (_cwd p)) Hr1 (valid_inode w _ Hp)) as (s2&E2&Hr2). exists s2. split; [|done]. unfold sys_chdir, mbind, fsop_bind. by rewrite E1, E2, Hd.
Qed.
End cwd.

(** The buffer of [getcwd] has two bytes and the path three: the terminator goes behind the buffer. *)
Example getcwd_behind_buffer : let home := link_in (mk_vnode 1 3) [104; 105] (link_root (mk_vnode 1 2) [slash]) in sys_getcwd (mk_process [] (mk_user 0 0 0 0 []) home 0) 2 = Done (0, [slash; 104], 3).
Proof. vm_compute. reflexivity. Qed.
