(* ===== verification/Stdio.v ===== *)
(** * Streams of the C library (libraries/libc/stdio.c)

    [FILE] and its operations over the system calls that read, write and move a descriptor,
    which are the operations of the class [Kernel].  What malloc and free do to the buffer is
    left out: a buffer is the list of its bytes. *)

From stdpp Require Import base numbers list list_numbers option.
From S2P Require Import Prelude.
From S2P Require Import ByteBuf.

Local Open Scope Z_scope.

Record FILE := mk_FILE {
  fd : Z;
  options : Z;
  ungetc_ : Z;
  eof : Z;
  err : Z;
  buffer : list Z;
  bufmode : Z;
  offset : Z;
  bufavail : Z;
  bufsiz : Z;
}.

Definition _IOFBF : Z := 0.
Definition _IOLBF : Z := 1.
Definition _IONBF : Z := 2.
Definition EOF : Z := -1.
Definition BUFSIZ : Z := 8192.
Definition SEEK_SET : Z := 0.
Definition SEEK_CUR : Z := 1.

Definition O_RDONLY : Z := 0.
Definition O_WRONLY : Z := 1.
Definition O_RDWR : Z := 2.
Definition O_APPEND : Z := 8.
Definition O_CREAT : Z := 0x200.
Definition O_TRUNC : Z := 0x400.
Definition O_EXCL : Z := 0x800.
Definition O_CLOEXEC : Z := 0x40000.

Definition has_option (f : FILE) (o : Z) : bool := negb (Z.land (options f) o =? 0).
Definition can_read (f : FILE) : bool := has_option f O_RDWR || negb (has_option f O_WRONLY).
Definition can_write (f : FILE) : bool := has_option f O_RDWR || has_option f O_WRONLY.

Definition set_ungetc (c : Z) (f : FILE) : FILE := mk_FILE (fd f) (options f) c (eof f) (err f) (buffer f) (bufmode f) (offset f) (bufavail f) (bufsiz f).
Definition set_eof (e : Z) (f : FILE) : FILE := mk_FILE (fd f) (options f) (ungetc_ f) e (err f) (buffer f) (bufmode f) (offset f) (bufavail f) (bufsiz f).
Definition set_err (e : Z) (f : FILE) : FILE := mk_FILE (fd f) (options f) (ungetc_ f) (eof f) e (buffer f) (bufmode f) (offset f) (bufavail f) (bufsiz f).
Definition set_window (o a : Z) (f : FILE) : FILE := mk_FILE (fd f) (options f) (ungetc_ f) (eof f) (err f) (buffer f) (bufmode f) o a (bufsiz f).
Definition set_bytes (b : list Z) (f : FILE) : FILE := mk_FILE (fd f) (options f) (ungetc_ f) (eof f) (err f) b (bufmode f) (offset f) (bufavail f) (bufsiz f).
Definition set_buffer (b : list Z) (m n : Z) (f : FILE) : FILE := mk_FILE (fd f) (options f) (ungetc_ f) (eof f) (err f) b m (offset f) (bufavail f) n.

(** ** Operations on a stream *)

(** What the kernel returns: a number, which is negative for an error. *)
Class Kernel (K : Type) := {
  k_read : Z → Z → K → outcome (Z * list Z * K);
  k_write : Z → list Z → K → outcome (Z * K);
  k_lseek : Z → Z → Z → K → outcome (Z * K);
  k_close : Z → K → outcome (Z * K);
  k_open : list Z → Z → K → outcome (Z * K);
  k_truncate : list Z → Z → K → outcome (Z * K);
}.

(** A stream, [errno] and the kernel. *)
Record io (K : Type) := mk_io {
  stream : FILE;
  errno : Z;
  kernel : K;
}.
Arguments mk_io {K}.
Arguments stream {K}.
Arguments errno {K}.
Arguments kernel {K}.

Definition iop (K A : Type) : Type := io K → outcome (A * io K).

#[export] Instance iop_ret {K} : MRet (iop K) := λ A a s, Done (a, s).
#[export] Instance iop_bind {K} : MBind (iop K) := λ A B f m s, match m s with Done (a, s) => f a s | Panic => Panic | Undef => Undef | NoFuel => NoFuel end.

Definition give {K A} (a : A) : iop K A := λ s, Done (a, s).
Definition lifted {K A} (o : outcome A) : iop K A := λ s, a ← o; Done (a, s).
Definition the_file {K} : iop K FILE := λ s, Done (stream s, s).
Definition the_errno {K} : iop K Z := λ s, Done (errno s, s).
Definition change_file {K} (g : FILE → FILE) : iop K unit := λ s, Done (tt, mk_io (g (stream s)) (errno s) (kernel s)).
Definition set_errno {K} (e : Z) : iop K unit := λ s, Done (tt, mk_io (stream s) e (kernel s)).

Section stdio.
Context {K : Type} `{Kernel K}.

(** [__syscall]: an error goes to [errno]. *)
Definition returned (ret : Z) : iop K Z := if ret <? 0 then _ ← set_errno (- ret); give (-1) else give ret.

Definition sys_read (n count : Z) : iop K (Z * list Z) := λ s, '(ret, data, k) ← k_read n count (kernel s); '(ret, s) ← returned ret (mk_io (stream s) (errno s) k); Done ((ret, data), s).
Definition sys_write (n : Z) (data : list Z) : iop K Z := λ s, '(ret, k) ← k_write n data (kernel s); returned ret (mk_io (stream s) (errno s) k).
Definition sys_lseek (n off whence : Z) : iop K Z := λ s, '(ret, k) ← k_lseek n off whence (kernel s); returned ret (mk_io (stream s) (errno s) k).
Definition sys_close (n : Z) : iop K Z := λ s, '(ret, k) ← k_close n (kernel s); returned ret (mk_io (stream s) (errno s) k).
Definition sys_open (path : list Z) (opts : Z) : iop K Z := λ s, '(ret, k) ← k_open path opts (kernel s); returned ret (mk_io (stream s) (errno s) k).
Definition sys_truncate (path : list Z) (n : Z) : iop K Z := λ s, '(ret, k) ← k_truncate path n (kernel s); returned ret (mk_io (stream s) (errno s) k).

(** The bytes from [a] to [a + n] of a buffer, which must have them. *)
Definition bytes_at (b : list Z) (a n : Z) : outcome (list Z) := if a + n <=? zlength b then Done (slice a n b) else Undef.

Definition fflush : iop K Z :=
  f ← the_file;
  if bufmode f =? _IONBF then give 0
  else
    _ ← (if can_write f && (bufavail f =? 0) then
           data ← lifted (bytes_at (buffer f) 0 (offset f));
           res ← sys_write (fd f) data;
           (if res <? 0 then e ← the_errno; change_file (set_err e) else give tt)
         else give tt);
    let clear := _ ← change_file (set_window 0 0); give 0 in
    if can_read f && negb (bufavail f =? 0) then
      res ← sys_lseek (fd f) (s32 (- (bufavail f - offset f))) SEEK_CUR;
      if res <? 0 then
        e ← the_errno;
        if e =? ESPIPE then _ ← set_errno 0; give 0 else _ ← change_file (set_err e); give (-1)
      else clear
    else clear.

(** The loop of [fread]; [out] is what has been stored. *)
Fixpoint fread_loop (fuel : nat) (len : Z) (out : list Z) : iop K (list Z) :=
  match fuel with
  | O => lifted NoFuel
  | S fuel =>
      if len =? 0 then give out
      else
        f ← the_file;
        let bufleft := u32 (bufavail f - offset f) in
        let nbuf := if bufleft <? len then bufleft else len in
        if nbuf =? 0 then
          if negb (eof f =? 0) then give out
          else
            _ ← fflush;
            '(res, data) ← sys_read (fd f) (bufsiz f);
            f ← the_file;
            _ ← change_file (set_bytes (splice (buffer f) 0 data));
            if res <? 0 then e ← the_errno; _ ← change_file (set_err e); give out
            else
              _ ← (if res =? 0 then change_file (set_eof 1) else give tt);
              f ← the_file;
              _ ← change_file (set_window (offset f) res);
              fread_loop fuel len out
        else
          data ← lifted (bytes_at (buffer f) (offset f) nbuf);
          _ ← change_file (set_window (u32 (offset f + nbuf)) (bufavail f));
          fread_loop fuel (len - nbuf) (out ++ data)
  end.

(** The number of elements, and the bytes that have been stored. *)
Definition fread (size count : Z) : iop K (Z * list Z) :=
  if (count =? 0) || (size =? 0) then give (0, [])
  else
    let len := u32 (count * size) in
    f ← the_file;
    _ ← (if 0 <=? ungetc_ f then change_file (set_ungetc (-1)) else give tt);
    let out := if 0 <=? ungetc_ f then [u8 (ungetc_ f)] else [] in
    let len := if 0 <=? ungetc_ f then u32 (len - 1) else len in
    if bufmode f =? _IONBF then
      '(res, data) ← sys_read (fd f) len;
      nread ← (if res <? 0 then _ ← change_file (set_err res); give (zlength out)
               else if res <? len then _ ← change_file (set_eof 1); give (zlength out)
               else give (zlength out + res));
      give (nread / size, out ++ data)
    else
      out ← fread_loop (Z.to_nat (2 * len + 3)) len out;
      give (zlength out / size, out).

(** [memchr(buf, '\n', n)], where [buf] points to [l]. *)
Definition has_newline (l : list Z) (n : Z) : outcome bool :=
  if existsb (λ c, c =? 10) (take (Z.to_nat n) l) then Done true else if zlength l <? n then Undef else Done false.

Fixpoint fwrite_loop (fuel : nat) (data : list Z) (nwrote : Z) : iop K Z :=
  match fuel with
  | O => lifted NoFuel
  | S fuel =>
      let len := zlength data in
      if len =? 0 then give nwrote
      else
        f ← the_file;
        let bufleft := u32 (bufsiz f - offset f) in
        let nbuf := if bufleft <? len then bufleft else len in
        if (nbuf =? 0) || negb (bufavail f =? 0) then _ ← fflush; fwrite_loop fuel data nwrote
        else
          _ ← lifted (if offset f + nbuf <=? zlength (buffer f) then Done tt else Undef);
          _ ← change_file (set_bytes (splice (buffer f) (offset f) (slice 0 nbuf data)));
          _ ← change_file (set_window (u32 (offset f + nbuf)) 0);
          newline ← (if bufmode f =? _IOLBF then lifted (has_newline data (nwrote + nbuf)) else give false);
          _ ← (if (newline : bool) then fflush else give 0);
          fwrite_loop fuel (drop (Z.to_nat nbuf) data) (nwrote + nbuf)
  end.

(** [data] are the [count * size] bytes; there is a division by [size] at the end. *)
Definition fwrite (data : list Z) (size count : Z) : iop K Z :=
  f ← the_file;
  if bufmode f =? _IONBF then
    res ← sys_write (fd f) data;
    if res <? 0 then e ← the_errno; _ ← change_file (set_err e); give 0 else give res
  else
    nwrote ← fwrite_loop (Z.to_nat (2 * zlength data + 2)) data 0;
    if size =? 0 then lifted Undef else give (nwrote / size).

(** ** Characters and lines *)

Definition fgetc : iop K Z :=
  '(n, data) ← fread 1 1;
  match data with c :: _ => if n =? 1 then give (u8 c) else give EOF | [] => give EOF end.

(** The loop of [fgets]; [out] are the characters before the terminator. *)
Fixpoint fgets_loop (fuel : nat) (n : Z) (out : list Z) : iop K (option (list Z)) :=
  match fuel with
  | O => lifted NoFuel
  | S fuel =>
      c ← fgetc;
      if 0 <=? c then
        let out := out ++ [c] in
        let n := n - 1 in
        if n =? 1 then give (Some out) else if c =? 10 then give (Some out) else fgets_loop fuel n out
      else _ ← change_file (set_eof 1); give (if bool_decide (out = []) then None else Some out)
  end.

(** With room for [n] bytes, of which one is for the terminator; a loop with [n <= 0] writes behind the array. *)
Definition fgets (n : Z) : iop K (option (list Z)) :=
  if n =? 1 then give (Some []) else if n <=? 0 then lifted Undef else fgets_loop (Z.to_nat n) n [].

(** [fwrite] does not return -1. *)
Definition fputc (c : Z) : iop K Z := _ ← fwrite [u8 c] 1 1; give c.
Definition fputs (s : list Z) : iop K Z := _ ← fwrite s 1 (zlength s); give 0.
Definition puts (s : list Z) : iop K Z := _ ← fwrite s 1 (zlength s); _ ← fwrite [10] 1 1; give 0.

Definition ungetc (c : Z) : iop K Z :=
  f ← the_file;
  if negb (ungetc_ f =? -1) then give EOF else _ ← change_file (set_ungetc c); give c.

(** ** Positions *)

Definition fseek (off whence : Z) : iop K Z :=
  _ ← fflush;
  _ ← change_file (set_eof 0);
  _ ← change_file (set_ungetc (-1));
  f ← the_file;
  res ← sys_lseek (fd f) off whence;
  if res =? -1 then e ← the_errno; _ ← change_file (set_err e); give (-1) else give 0.

Definition ftell : iop K Z :=
  r ← fflush;
  if r <? 0 then give (-1) else f ← the_file; sys_lseek (fd f) 0 SEEK_CUR.

Definition fgetpos : iop K (Z * option Z) := tell ← ftell; if tell =? EOF then give (EOF, None) else give (0, Some tell).
Definition fsetpos (pos : Z) : iop K Z := fseek pos SEEK_SET.
Definition rewind : iop K unit := _ ← fseek 0 SEEK_SET; give tt.

(** ** Errors *)

Definition clearerr : iop K unit := change_file (set_eof 0 ∘ set_err 0).
Definition feof : iop K Z := f ← the_file; give (eof f).
Definition ferror : iop K Z := f ← the_file; give (err f).

(** ** Buffers, opening and closing *)

(** [b] are the bytes of the new buffer, given or from [malloc]. *)
Definition setvbuf (b : list Z) (mode : Z) (size : Z) : iop K Z :=
  if negb (mode =? _IOFBF) && negb (mode =? _IOLBF) && negb (mode =? _IONBF) then give (-1)
  else
    _ ← fflush;
    _ ← change_file (if mode =? _IONBF then set_buffer [] mode 0 else set_buffer b mode size);
    give 0.

Definition setbuf (b : option (list Z)) : iop K unit := _ ← match b with Some b => setvbuf b _IOFBF BUFSIZ | None => setvbuf [] _IONBF BUFSIZ end; give tt.

Definition fclose : iop K Z :=
  f ← the_file;
  flush_result ← fflush;
  close_result ← sys_close (fd f);
  _ ← (if flush_result <? 0 then f ← the_file; set_errno (err f) else give tt);
  give (if (flush_result =? 0) && (close_result =? 0) then 0 else -1).
End stdio.

Definition extended_char_option (opt : Z) : Z := if opt =? 101 then O_CLOEXEC else if opt =? 120 then O_EXCL else 0.

(** [mode] is a string with its terminator. *)
Definition parse_str_options (mode : list Z) : Z :=
  let at_ i := nth i mode 0 in
  let base := if at_ 0%nat =? 114 then Some O_RDONLY else if at_ 0%nat =? 119 then Some (Z.lor O_WRONLY O_CREAT) else if at_ 0%nat =? 97 then Some (Z.lor O_WRONLY O_APPEND) else None in
  match base with
  | None => -1
  | Some o =>
      if at_ 1%nat =? 43 then
        let o := if o =? O_RDONLY then O_RDWR else if o =? Z.lor O_WRONLY O_CREAT then Z.lor (Z.lor O_RDWR O_CREAT) O_TRUNC else Z.lor O_RDWR O_APPEND in
        Z.lor o (extended_char_option (at_ 2%nat))
      else Z.lor o (extended_char_option (at_ 1%nat))
  end.

(** The new stream, if there is one; [b] are the bytes of its buffer. *)
Definition fopen {K} `{Kernel K} (b : list Z) (filename mode : list Z) : iop K (option FILE) :=
  let opts := parse_str_options mode in
  if opts =? -1 then _ ← set_errno EINVAL; give None
  else
    _ ← (if (opts =? Z.lor O_WRONLY O_CREAT) || (opts =? Z.lor O_RDWR O_CREAT) then sys_truncate filename 0 else give 0);
    n ← sys_open filename opts;
    if n =? -1 then give None
    else
      _ ← change_file (λ _, mk_FILE n opts (-1) 0 0 [] _IOFBF 0 0 0);
      _ ← setvbuf b _IOFBF BUFSIZ;
      f ← the_file;
      give (Some f).
