(* ===== verification/StdioSpec.v ===== *)
(** * Streams behave as files

    Against the class [KernelSpec], which says what the system calls do to an open file, a
    fully buffered stream behaves as the file and a position in it, however reads, writes,
    seeks and flushes are mixed. *)

From stdpp Require Import base numbers list list_numbers option.
From S2P Require Import Prelude.
From S2P Require Import ByteBuf.
From S2P Require Import Stdio.

Local Open Scope Z_scope.

(** ** Files *)

(** [d] is written at [k]; a gap is filled with zeroes. *)
Definition overwrite (c : list Z) (k : Z) (d : list Z) : list Z := if bool_decide (d = []) then c else splice (c ++ zeroes (k + zlength d - zlength c)) k d.

Lemma overwrite_nil c k : overwrite c k [] = c.
Proof. done. Qed.

Lemma overwrite_parts c k d : 0 ≤ k → d ≠ [] → overwrite c k d = take (Z.to_nat k) (c ++ zeroes (k - zlength c)) ++ d ++ drop (Z.to_nat (k + zlength d)) c.
Proof.
  intros Hk Hd. unfold overwrite. rewrite bool_decide_eq_false_2 by done. unfold splice. assert (0 < zlength d) as Hl by (destruct d; [done|]; cbn; lia). f_equal; [|f_equal].
  - apply list_eq. intros i. destruct (decide (i < Z.to_nat k)%nat) as [Hi|Hi]; [|by rewrite !lookup_take_ge by lia]. rewrite !lookup_take_lt by lia. destruct (decide (i < length c)%nat); [by rewrite !lookup_app_l|]. rewrite !lookup_app_r, !lookup_zeroes by lia. by rewrite !decide_True by lia.
  - replace (Z.to_nat k + length d)%nat with (Z.to_nat (k + zlength d)) by lia. destruct (decide (k + zlength d ≤ zlength c)) as [Hle|Hgt].
    + replace (zeroes (k + zlength d - zlength c)) with (@nil Z) by (unfold zeroes; by replace (Z.to_nat _) with 0%nat by lia). by rewrite app_nil_r.
    + rewrite (drop_ge c), (drop_ge (c ++ _)); [done| |lia]. rewrite length_app. pose proof (length_zeroes (k + zlength d - zlength c) ltac:(lia)). lia.
Qed.

Lemma length_overwrite c k d : 0 ≤ k → zlength (overwrite c k d) = if bool_decide (d = []) then zlength c else Z.max (zlength c) (k + zlength d).
Proof.
  intros Hk. case_bool_decide as Hd; [by subst|]. rewrite overwrite_parts by done. assert (0 < zlength d) by (destruct d; [done|]; cbn; lia). rewrite !length_app, length_take, length_app, length_drop.
  destruct (decide (zlength c ≤ k)); [pose proof (length_zeroes (k - zlength c) ltac:(lia)); lia|]. unfold zeroes. replace (Z.to_nat (k - zlength c)) with 0%nat by lia. cbn. lia.
Qed.

(** Two pieces written one after the other are written at once. *)
Lemma overwrite_app c k a b : 0 ≤ k → overwrite (overwrite c k a) (k + zlength a) b = overwrite c k (a ++ b).
Proof.
  intros Hk. destruct (decide (a = [])) as [->|Ha]; [cbn [app]; rewrite overwrite_nil; by rewrite Z.add_0_r|]. destruct (decide (b = [])) as [->|Hb]; [by rewrite overwrite_nil, app_nil_r|].
  rewrite (overwrite_parts (overwrite c k a)) by (done || lia). rewrite !(overwrite_parts c) by (done || by destruct a). set (T := take (Z.to_nat k) (c ++ zeroes (k - zlength c))). set (R := drop (Z.to_nat (k + zlength a)) c).
  assert (length T = Z.to_nat k) as HT. { unfold T. rewrite length_take, length_app. destruct (decide (zlength c ≤ k)); [pose proof (length_zeroes (k - zlength c) ltac:(lia)); lia|lia]. }
  rewrite (app_assoc T a R), <-(app_assoc (T ++ a)). rewrite take_app_length' by (rewrite length_app; lia). rewrite drop_app_ge by (rewrite length_app; lia). unfold R. rewrite drop_drop, !length_app, HT, <-!app_assoc. do 4 f_equal. lia.
Qed.

(** Where [lseek] goes. *)
Definition seek_target (c : list Z) (k off whence : Z) : option Z := if whence =? 0 then Some off else if whence =? 1 then Some (k + off) else if whence =? 2 then Some (zlength c + off) else None.

(** What the system calls do to the descriptor [n] of a file with the bytes [c], at [k]. It can be read if [fd_reads] says so, and written up to [fd_limit], if that is not negative. *)
Class KernelSpec (K : Type) `{Kernel K} := {
  fd_limit : Z;
  fd_limit_ok : fd_limit < 2 ^ 31;
  fd_reads : bool;
  fd_rep : K → Z → list Z → Z → Prop;
  fd_range s n c k : fd_rep s n c k → 0 ≤ k < 2 ^ 31 ∧ zlength c < 2 ^ 31;
  read_ok s n c k count : fd_rep s n c k → fd_reads = true → 0 ≤ count < 2 ^ 31 → ∃ s', k_read n count s = Done (zlength (slice k count c), slice k count c, s') ∧ fd_rep s' n c (k + zlength (slice k count c));
  write_ok s n c k data : fd_rep s n c k → 0 ≤ fd_limit → bytes data → data = [] ∨ k + zlength data ≤ fd_limit → ∃ s', k_write n data s = Done (zlength data, s') ∧ fd_rep s' n (overwrite c k data) (k + zlength data);
  seek_ok s n c k off whence t : fd_rep s n c k → - 2 ^ 31 ≤ off < 2 ^ 31 → seek_target c k off whence = Some t → 0 ≤ t < 2 ^ 31 → ∃ s', k_lseek n off whence s = Done (t, s') ∧ fd_rep s' n c t;
  seek_before s n c k off whence t : fd_rep s n c k → - 2 ^ 31 ≤ off < 2 ^ 31 → seek_target c k off whence = Some t → t < 0 → ∃ s', k_lseek n off whence s = Done (- EINVAL, s') ∧ fd_rep s' n c k;
}.

(** ** Running an operation on a stream *)

Definition irun {K A} (m : iop K A) (s : io K) (Q : A → io K → Prop) : Prop := ∃ a s', m s = Done (a, s') ∧ Q a s'.

Lemma irun_mono {K A} (m : iop K A) s (P Q : A → io K → Prop) : irun m s P → (∀ a s', P a s' → Q a s') → irun m s Q.
Proof. intros (a&s'&E&HP) HQ. exists a, s'. split; [done|by apply HQ]. Qed.

Lemma irun_bind {K A B} (m : iop K A) (f : A → iop K B) s Q : irun m s (λ a s', irun (f a) s' Q) → irun (m ≫= f) s Q.
Proof. intros (a&s'&E&b&s2&E2&HQ). exists b, s2. split; [|done]. unfold mbind, iop_bind. by rewrite E. Qed.

Lemma irun_give {K A} (a : A) (s : io K) (Q : A → io K → Prop) : Q a s → irun (give a) s Q.
Proof. intros. by exists a, s. Qed.

Lemma irun_lifted {K A} (o : outcome A) a (s : io K) (Q : A → io K → Prop) : o = Done a → Q a s → irun (lifted o) s Q.
Proof. intros -> HQ. by exists a, s. Qed.

Lemma irun_file {K} (s : io K) (Q : FILE → io K → Prop) : Q (stream s) s → irun the_file s Q.
Proof. intros. by exists (stream s), s. Qed.

Lemma irun_errno {K} (s : io K) (Q : Z → io K → Prop) : Q (errno s) s → irun the_errno s Q.
Proof. intros. by exists (errno s), s. Qed.

Lemma irun_change {K} g (s : io K) (Q : unit → io K → Prop) : Q tt (mk_io (g (stream s)) (errno s) (kernel s)) → irun (change_file g) s Q.
Proof. intros. by eexists _, _. Qed.

Ltac iwp := repeat match goal with
  | |- irun (_ ≫= _) _ _ => apply irun_bind
  | |- irun (give _) _ _ => apply irun_give
  | |- irun the_file _ _ => apply irun_file; cbn [stream errno kernel]
  | |- irun the_errno _ _ => apply irun_errno; cbn [stream errno kernel]
  | |- irun (change_file _) _ _ => apply irun_change; cbn [stream errno kernel]
  | |- irun (if true then _ else _) _ _ => cbv iota
  | |- irun (if false then _ else _) _ _ => cbv iota
  end.

Section spec.
Context {K : Type} `{KernelSpec K}.
Implicit Types (s : io K) (f : FILE) (c : list Z) (p : Z).

Lemma sys_read_run s n c p count (Q : Z * list Z → io K → Prop) : fd_rep (kernel s) n c p → fd_reads = true → 0 ≤ count < 2 ^ 31 →
  (∀ k', fd_rep k' n c (p + zlength (slice p count c)) → Q (zlength (slice p count c), slice p count c) (mk_io (stream s) (errno s) k')) → irun (sys_read n count) s Q.
Proof.
  intros Hr Hrd Hc HQ. destruct (read_ok _ _ _ _ _ Hr Hrd Hc) as (k'&E&Hr'). eexists _, _. split; [|apply HQ; exact Hr']. unfold sys_read. rewrite E. cbn. unfold returned. by rewrite (proj2 (Z.ltb_ge _ 0)) by lia.
Qed.

Lemma sys_write_run s n c p data (Q : Z → io K → Prop) : fd_rep (kernel s) n c p → 0 ≤ fd_limit → bytes data → data = [] ∨ p + zlength data ≤ fd_limit →
  (∀ k', fd_rep k' n (overwrite c p data) (p + zlength data) → Q (zlength data) (mk_io (stream s) (errno s) k')) → irun (sys_write n data) s Q.
Proof.
  intros Hr Hw Hb Hl HQ. destruct (write_ok _ _ _ _ _ Hr Hw Hb Hl) as (k'&E&Hr'). eexists _, _. split; [|apply HQ; exact Hr']. unfold sys_write. rewrite E. cbn. unfold returned. by rewrite (proj2 (Z.ltb_ge _ 0)) by lia.
Qed.

Lemma sys_lseek_run s n c p off whence t (Q : Z → io K → Prop) : fd_rep (kernel s) n c p → - 2 ^ 31 ≤ off < 2 ^ 31 → seek_target c p off whence = Some t → 0 ≤ t < 2 ^ 31 →
  (∀ k', fd_rep k' n c t → Q t (mk_io (stream s) (errno s) k')) → irun (sys_lseek n off whence) s Q.
Proof.
  intros Hr Ho Ht Hl HQ. destruct (seek_ok _ _ _ _ _ _ _ Hr Ho Ht Hl) as (k'&E&Hr'). eexists _, _. split; [|apply HQ; exact Hr']. unfold sys_lseek. rewrite E. cbn. unfold returned. by rewrite (proj2 (Z.ltb_ge _ 0)) by lia.
Qed.

Lemma sys_lseek_before_run s n c p off whence t (Q : Z → io K → Prop) : fd_rep (kernel s) n c p → - 2 ^ 31 ≤ off < 2 ^ 31 → seek_target c p off whence = Some t → t < 0 →
  (∀ k', fd_rep k' n c p → Q (-1) (mk_io (stream s) EINVAL k')) → irun (sys_lseek n off whence) s Q.
Proof. intros Hr Ho Ht Hl HQ. destruct (seek_before _ _ _ _ _ _ _ Hr Ho Ht Hl) as (k'&E&Hr'). eexists _, _. split; [|apply HQ; exact Hr']. unfold sys_lseek. by rewrite E. Qed.

(** ** A stream and its file *)

(** The buffer is empty or has bytes that are not written yet. *)
Definition writing f (k : K) c p : Prop :=
  bufavail f = 0 ∧ 0 ≤ offset f ≤ bufsiz f ∧ (offset f = 0 ∨ can_write f = true ∧ p ≤ fd_limit) ∧ bytes (slice 0 (offset f) (buffer f)) ∧
  ∃ c0 k0, fd_rep k (fd f) c0 k0 ∧ c = overwrite c0 k0 (slice 0 (offset f) (buffer f)) ∧ p = k0 + offset f.

(** The buffer has bytes of the file, some of which have been read. *)
Definition reading f (k : K) c p : Prop :=
  0 < bufavail f ≤ bufsiz f ∧ 0 ≤ offset f ≤ bufavail f ∧ can_read f = true ∧ offset f ≤ p ∧ p - offset f + bufavail f ≤ zlength c ∧
  fd_rep k (fd f) c (p - offset f + bufavail f) ∧ slice 0 (bufavail f) (buffer f) = slice (p - offset f) (bufavail f) c.

(** The descriptor can do what the options of the stream say. *)
Definition may f : Prop := (can_write f = true → 0 ≤ fd_limit) ∧ (can_read f = true → fd_reads = true).

(** The stream shows the bytes [c] at [p]. *)
Definition shows f (k : K) c p : Prop := bufmode f = _IOFBF ∧ zlength (buffer f) = bufsiz f ∧ 0 < bufsiz f < 2 ^ 31 ∧ (writing f k c p ∨ reading f k c p) ∧ may f.

Lemma shows_may f k c p : shows f k c p → may f.
Proof. by intros (_&_&_&_&Hw). Qed.

Definition pending f : bool := (bufavail f =? 0) && (0 <? offset f).

Lemma shows_range f k c p : shows f k c p → 0 ≤ p < 2 ^ 31 ∧ zlength c < 2 ^ 31.
Proof.
  intros (_&Hl&Hbs&[(_&Ho&Hw&_&c0&k0&Hr&->&->)|(Ha&Ho&_&Hp&Hc&Hr&_)]&_).
  - pose proof (fd_range _ _ _ _ Hr). pose proof fd_limit_ok. destruct Hw as [->|[_ Hw]]; [rewrite slice_nil, overwrite_nil; lia|]. rewrite length_overwrite by lia. case_bool_decide; [lia|]. rewrite length_slice by lia. lia.
  - pose proof (fd_range _ _ _ _ Hr). lia.
Qed.

(** An empty buffer. *)
Lemma shows_empty f k c p : bufmode f = _IOFBF → zlength (buffer f) = bufsiz f → 0 < bufsiz f < 2 ^ 31 → may f → fd_rep k (fd f) c p → shows (set_window 0 0 f) k c p.
Proof.
  intros Hm Hl Hb Hlw Hr. split_and!; [done|done|apply Hb|apply Hb| |done]. left. split_and!; [done|done|cbn; lia|by left|cbn [offset set_window]; rewrite slice_nil; by apply Forall_nil|]. exists c, p. cbn [offset set_window]. by rewrite slice_nil, overwrite_nil, Z.add_0_r.
Qed.

(** [fflush] writes what is pending, or goes back to where the stream is. *)
Lemma fflush_run s c p (Q : Z → io K → Prop) : shows (stream s) (kernel s) c p →
  (∀ k', fd_rep k' (fd (stream s)) c p → shows (set_window 0 0 (stream s)) k' c p → Q 0 (mk_io (set_window 0 0 (stream s)) (errno s) k')) → irun fflush s Q.
Proof.
  intros Hs HQ. pose proof (shows_range _ _ _ _ Hs) as Hrange. destruct Hs as (Hm&Hl&Hbs&Hs&Hlw). destruct s as [f e k]. cbn [stream errno kernel] in *. unfold fflush. iwp. rewrite Hm. cbn [Z.eqb _IOFBF _IONBF].
  assert (∀ k', fd_rep k' (fd f) c p → Q 0 (mk_io (set_window 0 0 f) e k')) as HQ' by (intros k' Hr; apply HQ; [done|by apply shows_empty]). clear HQ. destruct Hs as [(Ha&Ho&Hw&Hby&c0&k0&Hr&->&->)|(Ha&Ho&Hcr&Hp&Hc&Hr&_)].
  - rewrite Ha. cbn [Z.eqb negb]. rewrite andb_true_r, andb_false_r. destruct (can_write f) eqn:Hcw.
    + iwp. eapply irun_lifted; [unfold bytes_at; by rewrite (proj2 (Z.leb_le _ _)) by lia|]. iwp. eapply sys_write_run; [exact Hr|by apply (proj1 Hlw)|done| |].
      { destruct Hw as [->|[_ Hw]]; [left; by rewrite slice_nil|right]. rewrite length_slice by lia. done. }
      intros k' Hr'. cbn [stream errno kernel]. rewrite length_slice in * by lia. rewrite (proj2 (Z.ltb_ge _ 0)) by lia. iwp. by apply HQ'.
    + destruct Hw as [Ho0|[? _]]; [|done]. rewrite Ho0 in *. rewrite slice_nil, overwrite_nil, Z.add_0_r in *. iwp. by apply HQ'.
  - rewrite (proj2 (Z.eqb_neq (bufavail f) 0)) by lia. rewrite andb_false_r, Hcr. cbn [negb andb]. iwp. rewrite s32_id by lia. eapply (sys_lseek_run _ _ _ _ _ _ p); [exact Hr|lia| |lia|].
    + unfold seek_target, SEEK_CUR. cbn. f_equal. lia.
    + intros k' Hr'. cbn [stream errno kernel]. rewrite (proj2 (Z.ltb_ge _ 0)) by lia. iwp. by apply HQ'.
Qed.

(** ** Reading *)

(** What no operation on the buffer changes. *)
Definition same_stream f f' : Prop := fd f' = fd f ∧ options f' = options f ∧ ungetc_ f' = ungetc_ f ∧ err f' = err f ∧ bufmode f' = bufmode f ∧ bufsiz f' = bufsiz f.

Lemma same_trans f1 f2 f3 : same_stream f1 f2 → same_stream f2 f3 → same_stream f1 f3.
Proof. unfold same_stream. intros (?&?&?&?&?&?) (?&?&?&?&?&?). split_and!; congruence. Qed.

(** The end of the file has been seen. *)
Definition eof_ok f c p : Prop := eof f = 0 ∨ (eof f = 1 ∧ zlength c ≤ p).

Lemma slice_ge (l : list Z) o n : zlength l ≤ o → slice o n l = [].
Proof. intros Hl. unfold slice. rewrite drop_ge by lia. apply take_nil. Qed.

Lemma length_slice_le (l : list Z) o n : 0 ≤ o → 0 ≤ n → zlength (slice o n l) ≤ n ∧ zlength (slice o n l) ≤ Z.max 0 (zlength l - o).
Proof. intros Ho Hn. unfold slice. rewrite length_take, length_drop. lia. Qed.

Lemma length_slice_min (l : list Z) o n : 0 ≤ o → 0 ≤ n → zlength (slice o n l) = Z.min n (Z.max 0 (zlength l - o)).
Proof. intros Ho Hn. unfold slice. rewrite length_take, length_drop. lia. Qed.

Lemma slice_length (l : list Z) o n : slice o (zlength (slice o n l)) l = slice o n l.
Proof.
  unfold slice. rewrite Nat2Z.id, length_take. set (x := drop (Z.to_nat o) l). destruct (decide (Z.to_nat n ≤ length x)%nat); [by replace (_ `min` _)%nat with (Z.to_nat n) by lia|]. rewrite !take_ge by lia. done.
Qed.

(** The buffer is empty when the window is. *)
Lemma shows_window f k c p : shows f k c p → pending f = false → 0 ≤ bufavail f - offset f < 2 ^ 31 ∧ (bufavail f - offset f = 0 ∨ reading f k c p).
Proof.
  intros (_&_&Hb&Hs&_) Hp. destruct Hs as [(Ha&Ho&_)|Hs]; [|pose proof Hs as ([??]&[??]&_); split; [lia|by right]]. unfold pending in Hp. rewrite Ha in *. cbn in Hp. apply Z.ltb_ge in Hp. split; [lia|left; lia].
Qed.

(** A buffer that has just been filled. *)
Lemma shows_filled f k c p : bufmode f = _IOFBF → zlength (buffer f) = bufsiz f → 0 < bufsiz f < 2 ^ 31 → can_read f = true → may f → 0 ≤ p → let data := slice p (bufsiz f) c in
  fd_rep k (fd f) c (p + zlength data) → shows (set_window 0 (zlength data) (set_bytes (splice (buffer f) 0 data) f)) k c p.
Proof.
  intros Hm Hl Hb Hcr Hlw Hp data Hr. pose proof (length_slice_le c p (bufsiz f) Hp ltac:(lia)) as [Hd1 Hd2]. fold data in Hd1, Hd2. assert (zlength (splice (buffer f) 0 data) = bufsiz f) as Hl' by (rewrite length_splice by lia; done).
  split_and!; [done|done|apply Hb|apply Hb| |done]. destruct (decide (data = [])) as [Ed|Ed].
  - left. rewrite Ed in *. split_and!; [done|done|cbn; lia|by left|cbn [offset set_window]; rewrite slice_nil; by apply Forall_nil|]. exists c, p. cbn [offset set_window]. rewrite slice_nil, overwrite_nil, Z.add_0_r. cbn in Hr. by rewrite Z.add_0_r in Hr.
  - right. assert (0 < zlength data) by (destruct data; [done|]; cbn; lia). split_and!; cbn [bufavail offset set_window set_bytes bufsiz buffer fd]; try lia; [done|replace (p - 0 + zlength data) with (p + zlength data) by lia; done|].
    rewrite slice_splice_eq by lia. rewrite Z.sub_0_r. symmetry. apply slice_length.
Qed.

(** Bytes have been taken from the buffer. *)
Lemma shows_taken f k c p n : shows f k c p → reading f k c p → 0 ≤ n ≤ bufavail f - offset f → slice (offset f) n (buffer f) = slice p n c ∧ shows (set_window (offset f + n) (bufavail f) f) k c (p + n).
Proof.
  intros (Hm&Hl&Hb&_&Hlw) (Ha&Ho&Hcr&Hp&Hc&Hr&E) Hn. split.
  - rewrite <-(slice_slice 0 (bufavail f) (offset f) n), E, slice_slice by lia. f_equal. lia.
  - split_and!; [done|done|apply Hb|apply Hb| |done]. right. split_and!; cbn [bufavail offset set_window bufsiz buffer fd]; try lia; [done| |]; replace (p + n - (offset f + n)) with (p - offset f) by lia; done.
Qed.

(** The outcome of the loop of [fread]. *)
Definition loop_read s c p len (out r : list Z) s' : Prop :=
  let data := slice p len c in
  r = out ++ data ∧ shows (stream s') (kernel s') c (p + zlength data) ∧ pending (stream s') = false ∧ same_stream (stream s) (stream s') ∧ errno s' = errno s ∧ eof (stream s') = if zlength data <? len then 1 else eof (stream s).

Definition read_fuel f len : Z := if bufavail f - offset f =? 0 then if eof f =? 0 then 2 * len + 2 else 1 else 2 * len + 1.

Lemma fread_loop_run fuel : ∀ len out s c p, shows (stream s) (kernel s) c p → can_read (stream s) = true → pending (stream s) = false → eof_ok (stream s) c p → 0 ≤ len < 2 ^ 31 → read_fuel (stream s) len ≤ Z.of_nat fuel →
  irun (fread_loop fuel len out) s (λ r s', loop_read s c p len out r s').
Proof.
  induction fuel as [|fuel IH]; intros len out s c p Hs Hcr Hpe Heof Hlen Hfuel; [unfold read_fuel in Hfuel; repeat case_match; lia|]. pose proof (shows_range _ _ _ _ Hs) as [Hp Hc]. cbn [fread_loop]. destruct (Z.eqb_spec len 0) as [->|Hlz].
  { iwp. unfold loop_read. rewrite slice_nil, app_nil_r. cbn [length Z.of_nat]. rewrite Z.add_0_r. done. }
  pose proof (shows_window _ _ _ _ Hs Hpe) as [Hw Hcase]. iwp. destruct s as [f e k]. cbn [stream errno kernel] in *. rewrite u32_id by lia. unfold read_fuel in Hfuel. destruct (Z.eqb_spec (bufavail f - offset f) 0) as [Ez|Hnz].
  - rewrite Ez. rewrite (proj2 (Z.ltb_lt 0 len)) by lia. cbn [Z.eqb]. destruct Heof as [E0|[E1 Hend]].
    + rewrite E0 in *. cbn [Z.eqb negb] in *. iwp. eapply fflush_run; [exact Hs|]. cbn [stream errno kernel]. intros k' Hr' Hs'. destruct Hs as (Hm&Hl&Hb&_&Hlw). iwp. eapply sys_read_run; [exact Hr'|by apply (proj2 Hlw)|lia|]. intros k2 Hr2. cbn [stream errno kernel]. set (data := slice p (bufsiz f) c) in *. iwp. rewrite (proj2 (Z.ltb_ge _ 0)) by lia.
      pose proof (length_slice_min c p (bufsiz f) ltac:(lia) ltac:(lia)) as Hdl. fold data in Hdl. assert (shows (set_window 0 (zlength data) (set_bytes (splice (buffer f) 0 data) (set_window 0 0 f))) k2 c p) as Hf by exact (shows_filled (set_window 0 0 f) k2 c p Hm Hl Hb Hcr Hlw (proj1 Hp) Hr2).
      destruct (Z.eqb_spec (zlength data) 0) as [Hd0|Hd0]; iwp; cbn [stream errno kernel].
      * eapply irun_mono; [apply (IH len out _ c p)|]; cbn [stream errno kernel]; [rewrite Hd0 in Hf; rewrite Hd0; exact Hf|done|by rewrite Hd0|right; split; [done|lia]|lia|rewrite Hd0; unfold read_fuel; cbn -[Z.mul Z.add Z.of_nat]; change (0 - 0 =? 0) with true; cbv iota; lia|].
        intros r s' (->&Hsh&Hpe'&Hsame&Ee&Eo). split_and!; [done|done|done|done|done|]. rewrite Eo. rewrite (proj2 (Z.ltb_lt _ len)); [done|]. rewrite length_slice_min by lia. lia.
      * eapply irun_mono; [apply (IH len out _ c p)|]; cbn [stream errno kernel]; [exact Hf|done|unfold pending; cbn [bufavail set_window]; by rewrite (proj2 (Z.eqb_neq _ 0))|by left|lia|unfold read_fuel; cbn [bufavail offset set_window set_bytes]; rewrite Z.sub_0_r, (proj2 (Z.eqb_neq _ 0)) by done; lia|].
        intros r s' (->&Hsh&Hpe'&Hsame&Ee&Eo). by split_and!.
    + rewrite E1. cbn [Z.eqb negb]. iwp. unfold loop_read. rewrite slice_ge by done. rewrite app_nil_r. change (Z.of_nat (length [])) with 0. rewrite (proj2 (Z.ltb_lt 0 len)) by lia. cbn [stream errno kernel]. rewrite Z.add_0_r. done.
  - destruct Hcase as [?|Hrd]; [lia|]. set (nbuf := if bufavail f - offset f <? len then bufavail f - offset f else len). assert (0 < nbuf ≤ len ∧ nbuf ≤ bufavail f - offset f) as Hnb by (unfold nbuf; case_match; lia). rewrite (proj2 (Z.eqb_neq nbuf 0)) by lia.
    destruct (shows_taken f k c p nbuf Hs Hrd ltac:(lia)) as [Ed Hs']. pose proof Hs as (_&Hl&Hb&_). pose proof Hrd as (Ha&Ho&_&Hpo&Hce&_). iwp. eapply irun_lifted; [unfold bytes_at; by rewrite (proj2 (Z.leb_le _ _)) by lia|]. iwp. cbn [stream errno kernel]. rewrite Ed, u32_id by lia.
    destruct Heof as [E0|[_ ?]]; [|lia]. eapply irun_mono; [apply (IH (len - nbuf) (out ++ slice p nbuf c) _ c (p + nbuf))|]; cbn [stream errno kernel]; [exact Hs'|done|unfold pending; cbn [bufavail set_window]; by rewrite (proj2 (Z.eqb_neq _ 0)) by lia|by left|lia| |].
    { unfold read_fuel. cbn [bufavail offset set_window eof]. rewrite E0. cbn [Z.eqb]. case_match; lia. }
    intros r s' (->&Hsh&Hpe'&Hsame&Ee&Eo). assert (slice p len c = slice p nbuf c ++ slice (p + nbuf) (len - nbuf) c) as Es by (rewrite slice_app by lia; f_equal; lia). assert (zlength (slice p nbuf c) = nbuf) as Hln by (rewrite length_slice_min by lia; lia).
    unfold loop_read. rewrite Es, length_app, Nat2Z.inj_add, Hln. split_and!; [by rewrite app_assoc|by rewrite Z.add_assoc|done|done|done|]. cbn [stream eof set_window] in *. rewrite Eo. destruct (Z.ltb_spec (zlength (slice (p + nbuf) (len - nbuf) c)) (len - nbuf)), (Z.ltb_spec (nbuf + zlength (slice (p + nbuf) (len - nbuf) c)) len); lia || done.
Qed.

Definition pushed f : list Z := if 0 <=? ungetc_ f then [u8 (ungetc_ f)] else [].

(** The outcome of [fread]: what was pushed back comes first. *)
Definition read_from s c p size count (r : Z * list Z) s' : Prop :=
  let len := size * count - zlength (pushed (stream s)) in let data := slice p len c in
  r = (zlength (pushed (stream s) ++ data) / size, pushed (stream s) ++ data) ∧ shows (stream s') (kernel s') c (p + zlength data) ∧ pending (stream s') = false ∧
  same_stream (if 0 <=? ungetc_ (stream s) then set_ungetc (-1) (stream s) else stream s) (stream s') ∧ errno s' = errno s ∧ eof (stream s') = if zlength data <? len then 1 else eof (stream s).

Lemma shows_unget f k c p n : shows f k c p → shows (set_ungetc n f) k c p.
Proof. done. Qed.

Lemma fread_run s c p size count : shows (stream s) (kernel s) c p → can_read (stream s) = true → pending (stream s) = false → eof_ok (stream s) c p → 0 < size → 0 < count → size * count < 2 ^ 31 →
  irun (fread size count) s (λ r s', read_from s c p size count r s').
Proof.
  intros Hs Hcr Hpe Heof Hsz Hct Hlen. assert (0 < size * count) as Hpos by nia. unfold fread. rewrite (proj2 (Z.eqb_neq count 0)), (proj2 (Z.eqb_neq size 0)) by lia. cbn [orb]. iwp. rewrite (Z.mul_comm count size), (u32_id (size * count)) by lia. pose proof Hs as (Hm&_). destruct s as [f e k]. cbn [stream errno kernel] in *.
  unfold read_from, pushed. cbn [stream errno kernel]. destruct (0 <=? ungetc_ f) eqn:Eu; iwp; rewrite Hm; cbn [Z.eqb _IOFBF _IONBF]; iwp.
  - rewrite u32_id by lia. eapply irun_mono; [apply (fread_loop_run _ (size * count - 1) [u8 (ungetc_ f)] _ c p); [done|done|done|done|lia|]|].
    + unfold read_fuel. cbn [stream]. repeat case_match; lia.
    + intros r s' (->&Hsh&Hpe'&Hsame&Ee&Eo). iwp. by split_and!.
  - eapply irun_mono; [apply (fread_loop_run _ (size * count) [] _ c p); [done|done|done|done|lia|]|].
    + unfold read_fuel. cbn [stream]. repeat case_match; lia.
    + intros r s' (->&Hsh&Hpe'&Hsame&Ee&Eo). iwp. cbn [length Z.of_nat app stream errno kernel] in *. rewrite Z.sub_0_r. by split_and!.
Qed.

(** ** Writing *)

(** Bytes have been put into the buffer. *)
Lemma shows_put f k c p d : shows f k c p → bufavail f = 0 → can_write f = true → d ≠ [] → bytes d → offset f + zlength d ≤ bufsiz f → p + zlength d ≤ fd_limit →
  shows (set_window (offset f + zlength d) 0 (set_bytes (splice (buffer f) (offset f) d) f)) k (overwrite c p d) (p + zlength d).
Proof.
  intros (Hm&Hl&Hb&[(_&Ho&Hw&Hby&c0&k0&Hr&->&->)|(Ha&_)]&Hlw) Ha0 Hcw Hd Hbd Hroom Hlim; [|lia]. assert (slice 0 (offset f + zlength d) (splice (buffer f) (offset f) d) = slice 0 (offset f) (buffer f) ++ d) as E.
  { rewrite <-slice_app by lia. f_equal; [apply slice_splice_other; lia|]. rewrite Z.add_0_l. apply slice_splice; lia. }
  split_and!; [done|cbn [buffer set_window set_bytes bufsiz]; rewrite length_splice by lia; done|apply Hb|apply Hb| |done]. left. pose proof (fd_range _ _ _ _ Hr). split_and!; cbn [bufavail offset set_window set_bytes bufsiz buffer fd]; [done|lia|lia|right; split; [done|lia]|rewrite E; by apply Forall_app|].
  exists c0, k0. split_and!; [done| |lia]. rewrite E. rewrite <-overwrite_app by lia. by rewrite length_slice by lia.
Qed.

Definition loop_wrote s c p (data : list Z) nwrote r s' : Prop :=
  r = nwrote + zlength data ∧ shows (stream s') (kernel s') (overwrite c p data) (p + zlength data) ∧ pending (stream s') = (if bool_decide (data = []) then pending (stream s) else true) ∧ same_stream (stream s) (stream s') ∧ errno s' = errno s ∧ eof (stream s') = eof (stream s).

Definition write_fuel f (len : Z) : Z := if (bufsiz f - offset f =? 0) || negb (bufavail f =? 0) then 2 * len + 2 else 2 * len + 1.

Lemma shows_room f k c p : shows f k c p → 0 ≤ offset f ≤ bufsiz f ∧ 0 < bufsiz f < 2 ^ 31 ∧ bufmode f = _IOFBF ∧ zlength (buffer f) = bufsiz f.
Proof. intros (Hm&Hl&Hb&[(_&Ho&_)|(Ha&Ho&_)]&_); (split; [lia|done]). Qed.

Lemma fwrite_loop_run fuel : ∀ data nwrote s c p, shows (stream s) (kernel s) c p → can_write (stream s) = true → bytes data → p + zlength data ≤ fd_limit → write_fuel (stream s) (zlength data) ≤ Z.of_nat fuel →
  irun (fwrite_loop fuel data nwrote) s (λ r s', loop_wrote s c p data nwrote r s').
Proof.
  induction fuel as [|fuel IH]; intros data nwrote s c p Hs Hcw Hby Hlim Hfuel; [unfold write_fuel in Hfuel; case_match; lia|]. pose proof (shows_room _ _ _ _ Hs) as (Ho&Hb&Hm&Hl). pose proof (shows_range _ _ _ _ Hs) as [Hp Hc]. pose proof fd_limit_ok. cbn [fwrite_loop]. destruct (Z.eqb_spec (zlength data) 0) as [Hz|Hnz].
  { destruct data; [|done]. iwp. unfold loop_wrote. rewrite overwrite_nil. cbn [length Z.of_nat]. rewrite !Z.add_0_r. by split_and!. }
  iwp. destruct s as [f e k]. cbn [stream errno kernel] in *. rewrite u32_id by lia. unfold write_fuel in Hfuel. set (nbuf := if bufsiz f - offset f <? zlength data then bufsiz f - offset f else zlength data). assert (0 ≤ nbuf ≤ zlength data ∧ nbuf ≤ bufsiz f - offset f) as Hnb by (unfold nbuf; destruct (Z.ltb_spec (bufsiz f - offset f) (zlength data)); lia).
  assert ((nbuf =? 0) = (bufsiz f - offset f =? 0)) as -> by (unfold nbuf; destruct (Z.ltb_spec (bufsiz f - offset f) (zlength data)); [done|]; rewrite !(proj2 (Z.eqb_neq _ 0)) by lia; done). destruct ((bufsiz f - offset f =? 0) || negb (bufavail f =? 0)) eqn:Efl.
  - iwp. eapply fflush_run; [exact Hs|]. cbn [stream errno kernel]. intros k' Hr' Hs'. eapply irun_mono; [apply (IH data nwrote _ c p); cbn [stream errno kernel]; [done|done|done|done|]|].
    + unfold write_fuel. cbn [bufsiz offset bufavail set_window]. rewrite Z.sub_0_r, (proj2 (Z.eqb_neq (bufsiz f) 0)) by lia. cbn [orb negb Z.eqb]. lia.
    + intros r s' (->&Hsh&Hpe&Hsame&Ee&Eo). split_and!; [done|done| |done|done|done]. rewrite Hpe. rewrite !bool_decide_eq_false_2 by (by intros ->). done.
  - apply orb_false_iff in Efl as [Er%Z.eqb_neq Ea%negb_false_iff%Z.eqb_eq]. assert (0 < nbuf) as Hn0 by (unfold nbuf; destruct (Z.ltb_spec (bufsiz f - offset f) (zlength data)); lia). iwp. eapply irun_lifted; [by rewrite (proj2 (Z.leb_le _ _)) by lia|]. iwp. rewrite Hm. cbn [Z.eqb _IOFBF _IOLBF]. iwp. cbn [stream errno kernel].
    set (d := slice 0 nbuf data). assert (zlength d = nbuf) as Hdl by (unfold d; rewrite length_slice by lia; lia). assert (d ≠ []) as Hdn by (intros E; rewrite E in Hdl; cbn in Hdl; lia). assert (bytes d) as Hbd by (by apply bytes_slice). assert (data = d ++ drop (Z.to_nat nbuf) data) as Ed by (unfold d, slice; rewrite drop_0; by rewrite take_drop).
    pose proof (shows_put f k c p d Hs Ea Hcw Hdn Hbd ltac:(lia) ltac:(lia)) as Hput. rewrite Hdl in Hput. rewrite u32_id by lia. assert (zlength (drop (Z.to_nat nbuf) data) = zlength data - nbuf) as Hrl by (rewrite length_drop; lia).
    eapply irun_mono; [apply (IH (drop (Z.to_nat nbuf) data) (nwrote + nbuf) _ (overwrite c p d) (p + nbuf)); cbn [stream errno kernel]; [exact Hput|done|by apply Forall_drop|lia|]|].
    + unfold write_fuel. case_match; lia.
    + intros r s' (->&Hsh&Hpe&Hsame&Ee&Eo). cbn [stream errno kernel] in *. unfold loop_wrote. rewrite <-Hdl in Hsh at 1. rewrite overwrite_app, <-Ed in Hsh by lia. split_and!; [lia|by replace (p + zlength data) with (p + nbuf + zlength (drop (Z.to_nat nbuf) data)) by lia| |done|done|done].
      rewrite (bool_decide_eq_false_2 (data = [])) by (by intros ->). rewrite Hpe. case_bool_decide; [|done]. unfold pending. cbn [bufavail offset set_window]. by rewrite (proj2 (Z.ltb_lt _ _)) by lia.
Qed.
End spec.

(** ** The specification: a file and a position *)

Record view := mk_view {
  v_bytes : list Z;
  v_pos : Z;
  v_back : list Z;
  v_end : bool;
  v_err : Z;
  v_pending : bool;
}.

Inductive sop :=
  | Fread (size count : Z)
  | Fwrite (data : list Z) (size : Z)
  | Fgetc
  | Fgets (n : Z)
  | Fputc (c : Z)
  | Fputs (l : list Z)
  | Ungetc (c : Z)
  | Fseek (off whence : Z)
  | Ftell
  | Fflush
  | Clearerr
  | Feof.

(** The next [len] bytes, the one that was pushed back first. *)
Definition v_take (v : view) (len : Z) : list Z * view :=
  let n := len - zlength (v_back v) in let data := slice (v_pos v) n (v_bytes v) in
  (v_back v ++ data, mk_view (v_bytes v) (v_pos v + zlength data) [] (v_end v || (zlength data <? n)) (v_err v) (v_pending v)).

Definition v_get (v : view) : Z * view := let '(d, v') := v_take v 1 in (match d with c :: _ => u8 c | [] => EOF end, v').

Fixpoint v_gets (fuel : nat) (n : Z) (out : list Z) (v : view) : list Z * view :=
  match fuel with
  | O => (out, v)
  | S fuel => let '(c, v) := v_get v in if 0 <=? c then if (n - 1 =? 1) || (c =? 10) then (out ++ [c], v) else v_gets fuel (n - 1) (out ++ [c]) v else (out, v)
  end.

Definition v_put (v : view) (d : list Z) : view := mk_view (overwrite (v_bytes v) (v_pos v) d) (v_pos v + zlength d) (v_back v) (v_end v) (v_err v) (if bool_decide (d = []) then v_pending v else true).

Definition v_flush (v : view) : view := mk_view (v_bytes v) (v_pos v) (v_back v) (v_end v) (v_err v) false.

Definition v_step (v : view) (op : sop) : (Z * list Z) * view :=
  match op with
  | Fread size count => if (count =? 0) || (size =? 0) then ((0, []), v) else let '(d, v) := v_take v (size * count) in ((zlength d / size, d), v)
  | Fwrite data size => ((zlength data / size, []), v_put v data)
  | Fgetc => let '(c, v) := v_get v in ((c, []), v)
  | Fgets n => if n =? 1 then ((1, []), v) else let '(l, v) := v_gets (Z.to_nat n) n [] v in ((if bool_decide (l = []) then 0 else 1, l), v)
  | Fputc c => ((c, []), v_put v [u8 c])
  | Fputs l => ((0, []), v_put v l)
  | Ungetc c => if bool_decide (v_back v = []) then ((c, []), mk_view (v_bytes v) (v_pos v) [c] (v_end v) (v_err v) (v_pending v)) else ((EOF, []), v)
  | Fseek off whence =>
      match seek_target (v_bytes v) (v_pos v) off whence with
      | Some t => if 0 <=? t then ((0, []), mk_view (v_bytes v) t [] false (v_err v) false) else ((-1, []), mk_view (v_bytes v) (v_pos v) [] false EINVAL false)
      | None => ((0, []), v)
      end
  | Ftell => ((v_pos v, []), v_flush v)
  | Fflush => ((0, []), v_flush v)
  | Clearerr => ((0, []), mk_view (v_bytes v) (v_pos v) (v_back v) false 0 (v_pending v))
  | Feof => ((if v_end v then 1 else 0, []), v)
  end.

Fixpoint v_run (v : view) (ops : list sop) : list (Z * list Z) * view :=
  match ops with [] => ([], v) | op :: ops => let '(a, v) := v_step v op in let '(l, v) := v_run v ops in (a :: l, v) end.

(** What the C standard and the types ask for: no read directly after a write, and positions that can be represented. *)
Definition v_ready (limit : Z) (readable writable : bool) (v : view) (op : sop) : Prop :=
  match op with
  | Fread size count => readable = true ∧ v_pending v = false ∧ 0 ≤ size ∧ 0 ≤ count ∧ size * count < 2 ^ 31
  | Fgetc => readable = true ∧ v_pending v = false
  | Fgets n => readable = true ∧ v_pending v = false ∧ 1 ≤ n
  | Fwrite data size => writable = true ∧ 0 < size ∧ bytes data ∧ v_pos v + zlength data ≤ limit
  | Fputc c => writable = true ∧ v_pos v + 1 ≤ limit
  | Fputs l => writable = true ∧ bytes l ∧ v_pos v + zlength l ≤ limit
  | Ungetc c => 0 ≤ c < 2 ^ 8
  | Fseek off whence => - 2 ^ 31 ≤ off < 2 ^ 31 ∧ ∃ t, seek_target (v_bytes v) (v_pos v) off whence = Some t ∧ t < 2 ^ 31
  | _ => True
  end.

Fixpoint v_all_ready (limit : Z) (readable writable : bool) (v : view) (ops : list sop) : Prop :=
  match ops with [] => True | op :: ops => v_ready limit readable writable v op ∧ v_all_ready limit readable writable (v_step v op).2 ops end.

Definition run_op {K} `{Kernel K} (op : sop) : iop K (Z * list Z) :=
  match op with
  | Fread size count => fread size count
  | Fwrite data size => n ← fwrite data size (zlength data / size); give (n, [])
  | Fgetc => c ← fgetc; give (c, [])
  | Fgets n => r ← fgets n; give (match r with Some l => (1, l) | None => (0, []) end)
  | Fputc c => r ← fputc c; give (r, [])
  | Fputs l => r ← fputs l; give (r, [])
  | Ungetc c => r ← ungetc c; give (r, [])
  | Fseek off whence => r ← fseek off whence; give (r, [])
  | Ftell => r ← ftell; give (r, [])
  | Fflush => r ← fflush; give (r, [])
  | Clearerr => _ ← clearerr; give (0, [])
  | Feof => r ← feof; give (r, [])
  end.

Fixpoint run_ops {K} `{Kernel K} (ops : list sop) : iop K (list (Z * list Z)) :=
  match ops with [] => give [] | op :: ops => a ← run_op op; l ← run_ops ops; give (a :: l) end.

Section refine.
Context {K : Type} `{KernelSpec K} (o : Z).
Implicit Types (s : io K) (v : view).

(** The stream, opened with the options [o], is what [v] says. *)
Record stream_is s v : Prop := {
  si_shows : shows (stream s) (kernel s) (v_bytes v) (v_pos v);
  si_options : options (stream s) = o;
  si_back : (v_back v = [] ∧ ungetc_ (stream s) = -1) ∨ ∃ c, v_back v = [c] ∧ ungetc_ (stream s) = c ∧ 0 ≤ c < 2 ^ 8;
  si_end : eof (stream s) = (if v_end v then 1 else 0) ∧ (v_end v = true → zlength (v_bytes v) ≤ v_pos v);
  si_err : err (stream s) = v_err v;
  si_pending : pending (stream s) = v_pending v;
}.

Definition readable : bool := negb (Z.land o O_RDWR =? 0) || negb (negb (Z.land o O_WRONLY =? 0)).
Definition writable : bool := negb (Z.land o O_RDWR =? 0) || negb (Z.land o O_WRONLY =? 0).

Lemma stream_readable s v : stream_is s v → can_read (stream s) = readable ∧ can_write (stream s) = writable.
Proof. intros Hs. unfold can_read, can_write, has_option. by rewrite (si_options _ _ Hs). Qed.

Lemma stream_pushed s v : stream_is s v → pushed (stream s) = v_back v ∧ (0 <=? ungetc_ (stream s)) = negb (bool_decide (v_back v = [])).
Proof.
  intros Hs. unfold pushed. destruct (si_back _ _ Hs) as [[-> ->]|(c&->&->&Hc)]; [done|]. rewrite (proj2 (Z.leb_le 0 c)) by lia. unfold u8. by rewrite Z.mod_small.
Qed.

Lemma stream_eof_ok s v : stream_is s v → eof_ok (stream s) (v_bytes v) (v_pos v).
Proof. intros Hs. destruct (si_end _ _ Hs) as [E Hend]. unfold eof_ok. destruct (v_end v); [right; by split; [|apply Hend]|by left]. Qed.

(** [fread] of some bytes. *)
Lemma read_some s v size count : stream_is s v → readable = true → v_pending v = false → 0 < size → 0 < count → size * count < 2 ^ 31 →
  irun (fread size count) s (λ r s', r = (zlength (v_take v (size * count)).1 / size, (v_take v (size * count)).1) ∧ stream_is s' (v_take v (size * count)).2).
Proof.
  intros Hs Hrd Hpe Hsz Hct Hlen. destruct (stream_readable _ _ Hs) as [Hcr _]. destruct (stream_pushed _ _ Hs) as [Ep Eu]. assert (0 < size * count) as Hpos by nia. eapply irun_mono; [apply (fread_run s (v_bytes v) (v_pos v)); [apply Hs|congruence|by rewrite (si_pending _ _ Hs)|by apply stream_eof_ok|done..]|].
  intros r s' (->&Hsh&Hpe'&(E1&E2&E3&E4&E5&E6)&Ee&Eo). unfold v_take. rewrite Ep in *. cbn [fst snd]. split; [done|]. set (n := size * count - zlength (v_back v)) in *. set (data := slice (v_pos v) n (v_bytes v)) in *. destruct (si_end _ _ Hs) as [Een Hend]. pose proof (shows_range _ _ _ _ (si_shows _ _ Hs)) as [Hp _].
  assert (0 ≤ n) as Hn by (destruct (si_back _ _ Hs) as [[Eb _]|(c&Eb&_)]; unfold n; rewrite Eb; cbn; lia). pose proof (length_slice_min (v_bytes v) (v_pos v) n ltac:(lia) Hn) as Hdl. fold data in Hdl. split; cbn [v_bytes v_pos v_back v_end v_err v_pending].
  - done.
  - rewrite E2. destruct (0 <=? ungetc_ (stream s)); apply Hs.
  - left. split; [done|]. rewrite E3, Eu. destruct (si_back _ _ Hs) as [[-> Eb]|(c&->&_)]; done.
  - rewrite Eo, Een. destruct (Z.ltb_spec (zlength data) n); [rewrite orb_true_r; split; [done|lia]|]. rewrite orb_false_r. split; [done|]. intros He. specialize (Hend He). lia.
  - rewrite E4. destruct (0 <=? ungetc_ (stream s)); apply Hs.
  - by rewrite Hpe', Hpe.
Qed.

(** [fwrite] of some bytes. *)
Lemma write_some s v data size count : stream_is s v → writable = true → 0 < size → bytes data → v_pos v + zlength data ≤ fd_limit →
  irun (fwrite data size count) s (λ r s', r = zlength data / size ∧ stream_is s' (v_put v data)).
Proof.
  intros Hs Hwr Hsz Hby Hlim. destruct (stream_readable _ _ Hs) as [_ Hcw]. pose proof (si_shows _ _ Hs) as Hsh. pose proof (shows_room _ _ _ _ Hsh) as (Ho&Hb&Hm&Hl). pose proof (shows_range _ _ _ _ Hsh) as [Hp _]. unfold fwrite. iwp. rewrite Hm. cbn [Z.eqb _IOFBF _IONBF]. iwp.
  eapply irun_mono; [apply (fwrite_loop_run _ data 0 s (v_bytes v) (v_pos v)); [done|congruence|done|done|unfold write_fuel; case_match; lia]|]. intros r s' (->&Hsh'&Hpe'&(E1&E2&E3&E4&E5&E6)&Ee&Eo). rewrite (proj2 (Z.eqb_neq size 0)) by lia. iwp. split; [done|]. destruct (si_end _ _ Hs) as [Een Hend].
  split; cbn [v_put v_bytes v_pos v_back v_end v_err v_pending]; [done|rewrite E2; apply Hs|rewrite E3; apply Hs| |rewrite E4; apply Hs|by rewrite Hpe', (si_pending _ _ Hs)].
  split; [by rewrite Eo|]. intros He. specialize (Hend He). rewrite length_overwrite by lia. case_bool_decide; lia.
Qed.

Lemma get_one s v : stream_is s v → readable = true → v_pending v = false → irun fgetc s (λ r s', r = (v_get v).1 ∧ stream_is s' (v_get v).2).
Proof.
  intros Hs Hrd Hpe. unfold fgetc. iwp. eapply irun_mono; [by apply (read_some s v 1 1)|]. intros r s' [-> Hs']. unfold v_get. change (1 * 1) with 1 in *. destruct (v_take v 1) as [d v'] eqn:E. cbn [fst snd] in *.
  assert (zlength d ≤ 1) as Hd. { unfold v_take in E. injection E as <- _. pose proof (shows_range _ _ _ _ (si_shows _ _ Hs)) as [Hp _]. rewrite length_app, Nat2Z.inj_add. destruct (si_back _ _ Hs) as [[-> _]|(c&->&_)]; cbn [length Z.of_nat]; rewrite length_slice_min by lia; lia. }
  destruct d as [|c [|]]; [|change (zlength [c] / 1 =? 1) with true|cbn in Hd; lia]; iwp; done.
Qed.

Lemma gets_run fuel : ∀ n out s v, stream_is s v → readable = true → v_pending v = false → 2 ≤ n → n ≤ Z.of_nat fuel →
  irun (fgets_loop fuel n out) s (λ r s', r = (if bool_decide ((v_gets fuel n out v).1 = []) then None else Some (v_gets fuel n out v).1) ∧ stream_is s' (v_gets fuel n out v).2).
Proof.
  induction fuel as [|fuel IH]; intros n out s v Hs Hrd Hpe Hn Hf; [lia|]. cbn [fgets_loop v_gets]. iwp. eapply irun_mono; [by apply get_one|]. intros c s' [-> Hs']. assert (v_pending (v_get v).2 = false) as Hpe' by (unfold v_get, v_take; done). assert ((0 <=? (v_get v).1) = false → v_end (v_get v).2 = true) as Hend.
  { unfold v_get, v_take. destruct (v_back v ++ _) as [|c l] eqn:E; [|cbn [fst]; unfold u8; rewrite (proj2 (Z.leb_le 0 _)) by (apply Z.mod_pos_bound; lia); done]. apply app_eq_nil in E as [Eb Es]. cbn [snd v_end]. rewrite Es, Eb. cbn. by rewrite orb_true_r. }
  destruct (v_get v) as [c v'] eqn:Eg. cbn [fst snd] in *. destruct (0 <=? c) eqn:Ec.
  - assert (bool_decide (out ++ [c] = []) = false) as Hne by (apply bool_decide_eq_false_2; by destruct out). destruct (n - 1 =? 1) eqn:En; cbn [orb]; [iwp; cbn [fst snd]; by rewrite Hne|]. destruct (c =? 10); [iwp; cbn [fst snd]; by rewrite Hne|]. apply Z.eqb_neq in En. by apply IH; [..|lia|lia].
  - iwp. cbn [fst snd]. split; [done|]. specialize (Hend eq_refl). destruct Hs' as [? ? ? [Ee He] ? ?]. split; try done. split; [by rewrite Hend|done].
Qed.

Lemma flush_stream s v (Q : Z → io K → Prop) : stream_is s v → (∀ k', fd_rep k' (fd (stream s)) (v_bytes v) (v_pos v) → stream_is (mk_io (set_window 0 0 (stream s)) (errno s) k') (v_flush v) → Q 0 (mk_io (set_window 0 0 (stream s)) (errno s) k')) → irun fflush s Q.
Proof. intros Hs HQ. eapply fflush_run; [apply Hs|]. intros k' Hr Hsh. apply HQ; [done|]. destruct Hs. by split. Qed.

Lemma seek_stream s v off whence t : stream_is s v → - 2 ^ 31 ≤ off < 2 ^ 31 → seek_target (v_bytes v) (v_pos v) off whence = Some t → t < 2 ^ 31 →
  irun (fseek off whence) s (λ r s', r = (v_step v (Fseek off whence)).1.1 ∧ stream_is s' (v_step v (Fseek off whence)).2).
Proof.
  intros Hs Ho Ht Hlt. cbn [v_step]. rewrite Ht. pose proof (shows_room _ _ _ _ (si_shows _ _ Hs)) as (_&Hb&Hm&Hl). unfold fseek. iwp. eapply flush_stream; [done|]. intros k Hr _. iwp. set (f := stream s) in *.
  assert (∀ t' er k', fd_rep k' (fd f) (v_bytes v) t' → er = err f ∨ er = EINVAL → stream_is (mk_io (set_err er (set_ungetc (-1) (set_eof 0 (set_window 0 0 f)))) (errno s) k') (mk_view (v_bytes v) t' [] false er false)) as Hnew.
  { intros t' er k' Hr' _. split; cbn [stream kernel v_bytes v_pos v_back v_end v_err v_pending]; [apply (shows_empty f); [done|done|done|by apply (shows_may _ _ _ _ (si_shows _ _ Hs))|done]|apply Hs|by left|done|done|done]. }
  destruct (Z.leb_spec 0 t) as [Htp|Htn]; cbn [fst snd].
  - eapply sys_lseek_run; [exact Hr|done|exact Ht|lia|]. intros k' Hr'. cbn [stream errno kernel]. rewrite (proj2 (Z.eqb_neq t (-1))) by lia. iwp. split; [done|]. rewrite <-(si_err _ _ Hs). apply (Hnew t (err f) k'); [done|by left].
  - eapply sys_lseek_before_run; [exact Hr|done|exact Ht|done|]. intros k' Hr'. change (-1 =? -1) with true. iwp. split; [done|]. destruct (Hnew (v_pos v) EINVAL k' Hr' (or_intror eq_refl)). by split.
Qed.

(** Each operation does what the specification says. *)
Lemma op_run s v op : stream_is s v → v_ready fd_limit readable writable v op → irun (run_op op) s (λ a s', a = (v_step v op).1 ∧ stream_is s' (v_step v op).2).
Proof.
  intros Hs Hop. destruct op as [size count|data size| |n|c|l|c|off whence| | | |]; cbn [v_ready run_op] in *.
  - destruct Hop as (Hrd&Hpe&Hsz&Hct&Hlen). cbn [v_step]. destruct ((count =? 0) || (size =? 0)) eqn:Ez; [unfold fread; rewrite Ez; iwp; done|]. apply orb_false_iff in Ez as [?%Z.eqb_neq ?%Z.eqb_neq]. eapply irun_mono; [apply (read_some s v size count); [done|done|done|lia..]|]. intros r s' [-> Hs']. by destruct (v_take v (size * count)).
  - destruct Hop as (Hwr&Hsz&Hby&Hlim). iwp. eapply irun_mono; [by apply (write_some s v data size)|]. intros r s' [-> Hs']. by iwp.
  - destruct Hop as (Hrd&Hpe). iwp. eapply irun_mono; [by apply get_one|]. intros r s' [-> Hs']. iwp. cbn [v_step]. by destruct (v_get v).
  - destruct Hop as (Hrd&Hpe&Hn). iwp. unfold fgets. cbn [v_step]. destruct (Z.eqb_spec n 1); [by iwp|]. rewrite (proj2 (Z.leb_gt n 0)) by lia. eapply irun_mono; [apply (gets_run (Z.to_nat n) n [] s v); [done|done|done|lia|lia]|]. intros r s' [-> Hs']. iwp. destruct (v_gets _ _ _ _) as [l v']. cbn [fst snd] in *. case_bool_decide; [by subst|done].
  - destruct Hop as (Hwr&Hlim). iwp. unfold fputc. iwp. eapply irun_mono; [apply (write_some s v [u8 c] 1 1); [done|done|lia| |cbn; lia]|]; [repeat constructor; unfold u8; apply Z.mod_pos_bound; lia|]. intros r s' [_ Hs']. by iwp.
  - destruct Hop as (Hwr&Hby&Hlim). iwp. unfold fputs. iwp. eapply irun_mono; [apply (write_some s v l 1); [done|done|lia|done|done]|]. intros r s' [_ Hs']. by iwp.
  - iwp. unfold ungetc. iwp. cbn [v_step]. destruct (si_back _ _ Hs) as [[Eb Eu]|(c'&Eb&Eu&Hc')]; rewrite Eb, Eu; [change (-1 =? -1) with true|rewrite (proj2 (Z.eqb_neq c' (-1))) by lia]; cbn [negb]; iwp; [|by rewrite bool_decide_eq_false_2].
    rewrite bool_decide_eq_true_2 by done. split; [done|]. destruct Hs. split; try done. right. by exists c.
  - destruct Hop as (Ho&t&Ht&Hlt). iwp. eapply irun_mono; [by apply (seek_stream s v off whence t)|]. intros r s' [-> Hs']. iwp. split; [|done]. cbn [v_step]. rewrite Ht. by destruct (0 <=? t).
  - iwp. unfold ftell. iwp. pose proof (shows_range _ _ _ _ (si_shows _ _ Hs)) as [Hp _]. pose proof (shows_room _ _ _ _ (si_shows _ _ Hs)) as (_&Hb&Hm&Hl). eapply flush_stream; [done|]. intros k Hr Hs'. cbn [Z.ltb Z.compare]. iwp. eapply (sys_lseek_run _ _ _ _ _ _ (v_pos v)); [exact Hr|lia|unfold seek_target, SEEK_CUR; cbn; f_equal; lia|lia|]. intros k' Hr'. cbn [stream errno kernel]. iwp. split; [done|].
    pose proof (shows_may _ _ _ _ (si_shows _ _ Hs)). destruct Hs'. split; try done. cbn [stream kernel]. by apply shows_empty.
  - iwp. eapply flush_stream; [done|]. intros k Hr Hs'. by iwp.
  - iwp. unfold clearerr. iwp. split; [done|]. destruct Hs. by split.
  - iwp. unfold feof. iwp. split; [|done]. cbn [v_step fst]. by rewrite (proj1 (si_end _ _ Hs)).
Qed.

Lemma ops_run ops : ∀ s v, stream_is s v → v_all_ready fd_limit readable writable v ops → irun (run_ops ops) s (λ l s', l = (v_run v ops).1 ∧ stream_is s' (v_run v ops).2).
Proof.
  induction ops as [|op ops IH]; intros s v Hs Hops; cbn [run_ops v_run]; [by iwp|]. destruct Hops as [Hop Hops]. iwp.
  eapply irun_mono; [by apply (op_run s v op)|]. intros a s1 [-> Hs1]. iwp. destruct (v_step v op) as [a v1]. cbn [fst snd] in *. eapply irun_mono; [by apply (IH s1 v1)|]. intros l s2 [-> Hs2]. iwp. by destruct (v_run v1 ops).
Qed.

(** C4: a buffered stream is a file and a position. However [fread], [fwrite], [fgetc], [fgets], [fputc], [fputs], [ungetc], [fseek], [ftell], [fflush], [clearerr] and [feof] are mixed (with no read directly after a write, as the C standard asks for, and positions that fit into their type), each of them ends and returns what it would return on the file itself, bytes that are still in the buffer included, and the stream goes on representing that file and that position. *)
Theorem streams_refine (ops : list sop) s v : stream_is s v → v_all_ready fd_limit readable writable v ops → ∃ s', run_ops ops s = Done ((v_run v ops).1, s') ∧ stream_is s' (v_run v ops).2.
Proof. intros Hs Hops. destruct (ops_run ops s v Hs Hops) as (l&s'&E&->&Hs'). by exists s'. Qed.
End refine.
