(* ===== verification/StdioFile.v ===== *)
(** * Streams on files of an ext2 filesystem

    The system calls of a process on an open file of an ext2 filesystem are an instance of
    what streams use, so that a stream of the C library is a file on the disk and a position
    in it. *)

From stdpp Require Import base numbers list list_numbers option gmap sets.
From S2P Require Import Prelude.
From S2P Require Import ByteBuf.
From S2P Require Import KString.
From S2P Require Import LRUCache.
From S2P Require Import Disk.
From S2P Require Import DiskCache.
From S2P Require Import FileBlocks.
From S2P Require Import Partition.
From S2P Require Import Ext2.
From S2P Require Import Ext2Inv.
From S2P Require Import Ext2Inode.
From S2P Require Import Ext2Tree.
From S2P Require Import Ext2Entry.
From S2P Require Import Ext2File.
From S2P Require Import Ext2FileOk.
From S2P Require Import Ext2Spec.
From S2P Require Import Ext2Dir.
From S2P Require Import Ext2DirBytes.
From S2P Require Import Ext2DirOk.
From S2P Require Import Ext2DirSpec.
From S2P Require Import Ext2Create.
From S2P Require Import Ext2InodeAlloc.
From S2P Require Import Ext2CreateSpec.
From S2P Require Import Ext2Trunc.
From S2P Require Import Vfs.
From S2P Require Import VfsSpec.
From S2P Require Import VfsExt2.
From S2P Require Import FileCalls.
From S2P Require Import Stdio.
From S2P Require Import StdioSpec.

Local Open Scope Z_scope.

(** ** Free blocks *)

Section space.
Context {D : Type} `{ByteFileSpec D} (L : layout).

(** What a file gains in blocks, the free blocks lose. *)
Lemma step_balance v U n v' U' n' s' : file_ok L v U n → file_step L v U n v' U' n' s' → tf L U' + zlength (blocks_of n') = tf L U + zlength (blocks_of n).
Proof.
  intros Hf Hst. pose proof (fo_inode _ _ _ _ Hf) as Hn. pose proof (fo_inode _ _ _ _ (st_file _ _ _ _ _ _ _ _ Hst)) as Hn'. assert (free_of (all_blocks L) U' ++ blocks_of n' ≡ₚ free_of (all_blocks L) U ++ blocks_of n) as Hp; [|apply Permutation_length in Hp; rewrite !length_app in Hp; unfold tf, count_free; lia].
  assert (∀ U n, inode_ok L U n → NoDup (free_of (all_blocks L) U ++ blocks_of n)) as Hnd.
  { intros W m Hm. apply NoDup_app. split_and!; [apply NoDup_filter, NoDup_seqZ| |apply Hm]. intros x Hx%elem_free_of Hx2. destruct (ok_data _ _ _ Hm x Hx2). tauto. }
  apply NoDup_Permutation; [by apply Hnd|by apply Hnd|]. intros x. rewrite !elem_of_app, !elem_free_of. pose proof (st_others _ _ _ _ _ _ _ _ Hst x) as Ho. pose proof (ok_data _ _ _ Hn x) as Hd. pose proof (ok_data _ _ _ Hn' x) as Hd'. unfold data_block in Hd, Hd'. fold (blocks_of n) in Hd. fold (blocks_of n') in Hd'.
  destruct (decide (x ∈ U)), (decide (x ∈ U')), (decide (x ∈ blocks_of n)), (decide (x ∈ blocks_of n')); tauto.
Qed.

(** Whatever is written, the blocks that are left for a length stay enough for it. *)
Lemma step_space v U n v' U' n' s' len : file_ok L v U n → file_step L v U n v' U' n' s' → space_for n' len - tf L U' = space_for n len - tf L U.
Proof.
  intros Hf Hst. pose proof (step_balance v U n v' U' n' s' Hf Hst) as Hb. unfold blocks_of in Hb. rewrite !length_app, !Nat2Z.inj_add in Hb. rewrite (on_disk_pointers L v n (fo_disk _ _ _ _ Hf)), (on_disk_pointers L v' n' (fo_disk _ _ _ _ (st_file _ _ _ _ _ _ _ _ Hst))) in Hb. unfold space_for. lia.
Qed.

Lemma space_mono n (len len' : Z) : len ≤ len' → space_for n len ≤ space_for n len'.
Proof.
  intros Hle. assert ((len + 1023) / 1024 ≤ (len' + 1023) / 1024) as Hd by (apply Z.div_le_mono; lia). pose proof (ptr_blocks_mono _ _ Hd). unfold space_for. lia.
Qed.
End space.

(** ** Writing through a descriptor *)

Section write.
Context {D : Type} `{ByteFileSpec D} (L : layout) (HL : layout_ok L).
Context (stack_bytes : list Z) (stack_len : length stack_bytes = 14%nat) (stack_ok : bytes stack_bytes) (stack : list Z).
Context (F : Z) (the_device : Z → Z → result Z) (dev_read : Z → Z → Z → Z * list Z) (dev_write : Z → Z → list Z → Z).

#[local] Instance file_inodes : Inodes (ext2 D * inodes) := ext2_inodes F stack_bytes stack the_device dev_read dev_write.

(** The bytes are stored in the file where the descriptor is, which is behind them afterwards; other files are as before.  There are zeros behind the end of the file
    in its last block (a file that was cut there has others, see [files_refine]). *)
Lemma descriptor_writes s v U f i n fd data : fs_live L s v U f → live f !! i = Some n → clear (file_body v n) → is_directory (_metadata n) = false → _file fd = InodeFile (mk_vnode F i) → _writable fd = true → _can_seek fd = true → _append fd = false → 0 ≤ _seek fd < 2 ^ 31 → bytes data →
  data = [] ∨ (_seek fd + zlength data < 2 ^ 31 ∧ space_for n (_seek fd + zlength data) ≤ tf L U) →
  ∃ s' f' v' U' n', fd_write fd data (s, f) = Done ((zlength data, set_seek (_seek fd + zlength data) fd), (s', f')) ∧ fs_live L s' v' U' f' ∧ live f' !! i = Some n' ∧ content v' n' = overwrite (content v n) (_seek fd) data ∧ clear (file_body v' n') ∧
    _metadata n' = set_size (zlength (content v' n')) (_metadata n) ∧ (∀ len, space_for n' len - tf L U' = space_for n len - tf L U) ∧ ∀ j m, live f !! j = Some m → j ≠ i → live f' !! j = Some m ∧ content v' m = content v m.
Proof.
  intros Hl Hn Hcl Hd Hf Hw Hc Ha Hk Hby Hroom. destruct (rp_file _ _ _ _ _ (lv_rep _ _ _ _ _ Hl) i n Hn) as [Eid Hfo]. pose proof (rp_inv _ _ _ _ _ (lv_rep _ _ _ _ _ Hl)) as Hi0. pose proof (length_content L HL s v U n (fi_base _ _ _ _ Hi0) (fo_inode _ _ _ _ Hfo)) as Hlc.
  assert (∃ s' v' U' n', Ext2File.write stack_bytes n (_seek fd) data s = Done ((zlength data, n'), s') ∧ fs_live L s' v' U' (put_inode n' f) ∧ live (put_inode n' f) = <[i := n']> (live f) ∧ content v' n' = overwrite (content v n) (_seek fd) data ∧ clear (file_body v' n') ∧ _metadata n' = set_size (zlength (content v' n')) (_metadata n) ∧ (∀ len, space_for n' len - tf L U' = space_for n len - tf L U) ∧ content v' <$> live (put_inode n' f) = <[i := content v' n']> (content v <$> live f)) as (s'&v'&U'&n'&E&Hl'&El&Ec&Ecl&Em&Hsp&Hm).
  { destruct (decide (data = [])) as [->|Hne].
    - assert (live (put_inode n f) = <[i := n]> (live f)) as El by (by rewrite live_put, (fo_exists _ _ _ _ Hfo), Eid). exists s, v, U, n. split_and!; [|destruct Hl as [[] ? ?]; split; [|rewrite El, insert_id by done; done|done]; rewrite El, insert_id by done; by split|done|done|done|rewrite Hlc; by destruct (_metadata n)|done|].
      + unfold Ext2File.write. destruct (ok_device _ _ _ (fo_inode _ _ _ _ Hfo)) as (_&_&_&->). done.
      + rewrite El, insert_id by done. symmetry. apply insert_id. by rewrite lookup_fmap, Hn.
    - destruct Hroom as [?|[Hlt Hsp]]; [done|]. assert (0 < zlength data) as Hdl by (destruct data; [done|]; cbn; lia). destruct (write_run L HL stack_bytes stack_len stack_ok s v U n (_seek fd) data Hi0 Hfo ltac:(lia) Hdl ltac:(lia) Hby Hsp) as (r&s'&E&n'&v'&U'&->&Hst&Em&_&Ec).
      destruct (rep_step L s v U (live f) i n v' U' n' s' (lv_rep _ _ _ _ _ Hl) Hn Hst) as [Hr' Hm']. pose proof (st_id _ _ _ _ _ _ _ _ Hst) as Eid'. rewrite Eid in Eid'. assert (live (put_inode n' f) = <[i := n']> (live f)) as El by (by rewrite live_put, (fo_exists _ _ _ _ (st_file _ _ _ _ _ _ _ _ Hst)), Eid').
      assert (body_ok (file_body v n)) as Hbo by (by apply (rep_body L HL s v U (live f) i n); [apply Hl|]).
      destruct (write_clear (file_body v n) (_seek fd) data Hbo Hcl ltac:(lia) Hdl) as [Et Ecl]. assert (file_body v' n' = (splice (grow (file_body v n).1 (_seek fd + zlength data)) (_seek fd) data, Z.max (file_body v n).2 (_seek fd + zlength data))) as Eb by (unfold file_body; by rewrite Em, Ec).
      rewrite <-Eb in Et, Ecl. assert (content v' n' = overwrite (content v n) (_seek fd) data) as Eo by (unfold overwrite; rewrite bool_decide_eq_false_2 by done; exact Et). exists s', v', U', n'. split_and!; [done| |done|done|done| |intros len; by apply (step_space L v U n v' U' n' s')|by rewrite El].
      + split; [by rewrite El| |apply Hl]. intros j m. rewrite El, lookup_insert_Some. intros [[<- _]|[_ Hj]]; [by apply (lv_used _ _ _ _ _ Hl i n)|by apply (lv_used _ _ _ _ _ Hl j m)].
      + rewrite Eo, length_overwrite, bool_decide_eq_false_2, Em by (done || lia). by rewrite Hlc. }
  exists s', (put_inode n' f), v', U', n'. split_and!; [|done|by rewrite El, lookup_insert_eq|done|done|done|done|].
  - assert (Vfs.get_metadata (mk_vnode F i) (s, f) = Done (_metadata n, (s, f))) as Emd by (by apply (with_inode_done F s f s f (mk_vnode F i) n)). assert (Vfs.write (mk_vnode F i) (_seek fd) data (s, f) = Done (zlength data, (s', put_inode n' f))) as Ew by (apply (with_inode_done F s f s' _ (mk_vnode F i) n); [done|done|]; unfold mbind, fsop_bind; by rewrite E).
    unfold fd_write, fd_metadata. rewrite Hw, Hf. cbn [negb]. unfold mbind at 1, fsop_bind at 1. rewrite Emd, Ha. cbn [andb]. rewrite Hf, u32_id by lia. unfold file_write. unfold mbind, fsop_bind. rewrite Emd, Hd, andb_false_r, Ew. unfold fd_advance. rewrite Hc. cbn [andb]. destruct (Z.ltb_spec 0 (zlength data)) as [Hp|Hz].
    + destruct Hroom as [->|[Hlt _]]; [done|]. unfold mbind, raise, Vfs.off_add. rewrite (proj2 (Z.leb_le _ _)), (proj2 (Z.ltb_lt _ _)) by lia. done.
    + assert (zlength data = 0) as Ez by lia. rewrite Ez, Z.add_0_r. by destruct fd.
  - intros j m Hj Hne. assert (live (put_inode n' f) !! j = Some m) as Hj' by (by rewrite El, lookup_insert_ne). split; [done|]. pose proof (f_equal (λ x, x !! j) Hm) as E2. cbn beta in E2. rewrite lookup_insert_ne, !lookup_fmap, Hj', Hj in E2 by done. cbn in E2. congruence.
Qed.
End write.

(** ** The system calls *)

Lemma s32_u32 z : s32 (u32 z) = s32 z.
Proof. unfold s32, sext, u32. by rewrite Z.mod_mod. Qed.

Section kernel.
Context {D : Type} `{ByteFileSpec D}.
Context (stack_bytes : list Z) (stack_len : length stack_bytes = 14%nat) (stack_ok : bytes stack_bytes) (stack : list Z).
Context (F : Z) (the_device : Z → Z → result Z) (dev_read : Z → Z → Z → Z * list Z) (dev_write : Z → Z → list Z → Z).
(** The VFS, and the mode that [fopen] does not pass to [open]. *)
Context (V : vfs) (garbage : Z).

#[local] Instance machine_inodes : Inodes (ext2 D * inodes) := ext2_inodes F stack_bytes stack the_device dev_read dev_write.

(** A filesystem and a process. *)
Definition machine : Type := (ext2 D * inodes) * process.

#[local] Instance machine_kernel : Kernel machine := {
  k_read n count := λ '(x, p), '((ret, buf, p), x) ← FileCalls.sys_read p n count x; Done (ret, buf, (x, p));
  k_write n data := λ '(x, p), '((ret, p), x) ← FileCalls.sys_write p n data x; Done (ret, (x, p));
  k_lseek n off whence := λ '(x, p), '((ret, p), x) ← FileCalls.sys_lseek p n off whence x; Done (ret, (x, p));
  k_close n := λ '(x, p), '((ret, p), x) ← FileCalls.sys_close p n x; Done (ret, (x, p));
  k_open path opts := λ '(x, p), '((ret, p), x) ← FileCalls.sys_open V p path opts (if Z.land opts Stdio.O_CREAT =? 0 then 0 else garbage) x; Done (ret, (x, p));
  k_truncate path n := λ '(x, p), '(ret, x) ← FileCalls.sys_truncate V p path n x; Done (ret, (x, p));
}.

(** The number [n] is that of the open file [i], with the bytes [c], at [k]; it can be read if [reads] says so, and if the limit is not negative it can be written up to there, as there are blocks for a file of that length.  It does not append, and there are zeros behind the end of the file in its last block. *)
Record open_rep (i limit : Z) (reads : bool) (m : machine) (n : Z) (c : list Z) (k : Z) : Prop := {
  fr_state : ∃ L v U o d, layout_ok L ∧ fs_live L m.1.1 v U m.1.2 ∧ live m.1.2 !! i = Some o ∧ clear (file_body v o) ∧ is_directory (_metadata o) = false ∧ c = content v o ∧ zlength c < 2 ^ 31 ∧
    descriptor_at m.2 n = Some d ∧ _file d = InodeFile (mk_vnode F i) ∧ (reads = true → _readable d = true) ∧ (0 ≤ limit → _writable d = true) ∧ _can_seek d = true ∧ _append d = false ∧ _seek d = k ∧ (0 ≤ limit → space_for o limit ≤ tf L U);
  fr_position : 0 ≤ k < 2 ^ 31;
}.

Lemma put_descriptor_at p n d d' : descriptor_at p n = Some d → descriptor_at (put_descriptor p n (Some d')) n = Some d'.
Proof.
  unfold descriptor_at, put_descriptor. cbn [_file_descriptors set_descriptors]. rewrite length_insert. destruct ((n <? 0) || (zlength (_file_descriptors p) <=? n)) eqn:E; [done|]. apply orb_false_iff in E as [?%Z.ltb_ge ?%Z.leb_gt]. intros _. by rewrite list_lookup_insert_eq by lia.
Qed.

Lemma file_seek i m n c k limit reads off whence t : open_rep i limit reads m n c k → - 2 ^ 31 ≤ off < 2 ^ 31 → seek_target c k off whence = Some t → t < 2 ^ 31 →
  ∃ d d', descriptor_at m.2 n = Some d ∧ seek d off whence m.1 = Done ((if t <? 0 then - EINVAL else t, d'), m.1) ∧ open_rep i limit reads (m.1, put_descriptor m.2 n (Some d')) n c (if t <? 0 then k else t).
Proof.
  intros [(L&v&U&o&d&HL&Hl&Ho&Hcl&Hd&Ec&Hlt&Hn&Hf&Hr&Hw&Hc&Ha&Hk&Hlim) Hpos] Hoff Ht Hlt'. destruct m as [[s f] p]. cbn [fst snd] in *. destruct (rp_file _ _ _ _ _ (lv_rep _ _ _ _ _ Hl) i o Ho) as [Eid Hfo]. pose proof (length_content L HL s v U o (fi_base _ _ _ _ (rp_inv _ _ _ _ _ (lv_rep _ _ _ _ _ Hl))) (fo_inode _ _ _ _ Hfo)) as Hlc.
  destruct (ok_device _ _ _ (fo_inode _ _ _ _ Hfo)) as (Ein&_&_&Hdev). pose proof (ok_number _ _ _ (fo_inode _ _ _ _ Hfo)) as [Hnum _]. assert (exists_ (_metadata o) = true) as Hex by (unfold exists_; rewrite Ein, (proj2 (Z.eqb_neq _ 0)) by lia; done).
  exists d, (if t <? 0 then d else set_seek t d). split; [done|]. assert (Vfs.get_metadata (mk_vnode F i) (s, f) = Done (_metadata o, (s, f))) as Em by (by apply (with_inode_done F s f s f (mk_vnode F i) o)). split.
  - unfold seek, fd_metadata. rewrite Hc, Hf. cbn [negb]. unfold mbind at 1, fsop_bind at 1. rewrite Em, Hex, Hdev. cbn [andb]. rewrite Hk. unfold seek_target in Ht. destruct (whence =? 0); [injection Ht as ->; by destruct (t <? 0)|]. destruct (whence =? 1).
    + injection Ht as <-. unfold mbind, fsop_bind, raise, Vfs.off_add. rewrite (proj2 (Z.leb_le _ _)), (proj2 (Z.ltb_lt _ _)) by lia. cbn [andb mbind outcome_bind]. by destruct (k + off <? 0).
    + destruct (whence =? 2); [|done]. injection Ht as <-. rewrite <-Hlc, <-Ec. assert (s32 (u32 (zlength c + off)) = zlength c + off) as -> by (rewrite s32_u32; apply s32_id; lia). by destruct (zlength c + off <? 0).
  - split; cbn [fst snd]; [|destruct (Z.ltb_spec t 0); lia]. exists L, v, U, o, (if t <? 0 then d else set_seek t d). split_and!; try done; [by apply (put_descriptor_at _ _ d)|by destruct (t <? 0)..].
Qed.

Lemma file_read_run i limit reads m n c k count : open_rep i limit reads m n c k → reads = true → 0 ≤ count < 2 ^ 31 → let data := slice k count c in ∃ m', k_read n count m = Done (zlength data, data, m') ∧ open_rep i limit reads m' n c (k + zlength data).
Proof.
  intros [(L&v&U&o&d&HL&Hl&Ho&Hcl&Hd&Ec&Hlt&Hn&Hf&Hr&Hw&Hc&Ha&Hk&Hlim) Hpos] Hrd Hcount data. destruct m as [[s f] p]. cbn [fst snd] in *. destruct (rp_file _ _ _ _ _ (lv_rep _ _ _ _ _ Hl) i o Ho) as [_ Hfo]. pose proof (length_content L HL s v U o (fi_base _ _ _ _ (rp_inv _ _ _ _ _ (lv_rep _ _ _ _ _ Hl))) (fo_inode _ _ _ _ Hfo)) as Hlc.
  edestruct (descriptor_reads L HL stack_bytes stack_len stack F the_device dev_read dev_write s v U f i o d count) as (s'&E&Hl'); [done|done|done|congruence|done|by apply Hr|done|by rewrite Hk|done|]. rewrite Hk, <-Ec in E. fold data in E. exists ((s', f), put_descriptor p n (Some (set_seek (k + zlength data) d))). split.
  - cbn [k_read machine_kernel]. unfold FileCalls.sys_read. rewrite Hn. assert (fd_read d count (s, f) = Done ((zlength data, data, set_seek (k + zlength data) d), (s', f))) as E' by exact E. unfold mbind, fsop_bind, outcome_bind. by rewrite E'.
  - pose proof (length_slice_min c k count ltac:(lia) ltac:(lia)) as Hdl. fold data in Hdl. split; cbn [fst snd]; [|lia]. exists L, v, U, o, (set_seek (k + zlength data) d). split_and!; try done. by apply (put_descriptor_at _ _ d).
Qed.

Lemma file_write_run i limit reads m n c k data : 0 ≤ limit < 2 ^ 31 → open_rep i limit reads m n c k → bytes data → data = [] ∨ k + zlength data ≤ limit → ∃ m', k_write n data m = Done (zlength data, m') ∧ open_rep i limit reads m' n (overwrite c k data) (k + zlength data).
Proof.
  intros Hll [(L&v&U&o&d&HL&Hl&Ho&Hcl&Hd&Ec&Hlt&Hn&Hf&Hr&Hw&Hc&Ha&Hk&Hlim) Hpos] Hby Hroom. destruct m as [[s f] p]. cbn [fst snd] in *. specialize (Hlim ltac:(lia)).
  edestruct (descriptor_writes L HL stack_bytes stack_len stack_ok stack F the_device dev_read dev_write s v U f i o d data) as (s'&f'&v'&U'&o'&E&Hl'&Ho'&Ec'&Hcl'&Em'&Hsp&_); [done|done|done|done|done|apply Hw; lia|done|done|by rewrite Hk|done| |].
  { destruct Hroom as [?|Hroom]; [by left|right]. rewrite Hk. split; [lia|]. pose proof (space_mono o _ _ Hroom). lia. }
  rewrite Hk in E, Ec'. rewrite <-Ec in Ec'. exists ((s', f'), put_descriptor p n (Some (set_seek (k + zlength data) d))). split.
  - cbn [k_write machine_kernel]. unfold FileCalls.sys_write. rewrite Hn. assert (fd_write d data (s, f) = Done ((zlength data, set_seek (k + zlength data) d), (s', f'))) as E2 by exact E. unfold mbind, fsop_bind, outcome_bind. by rewrite E2.
  - assert (zlength (overwrite c k data) < 2 ^ 31) as Hol. { rewrite length_overwrite by lia. case_bool_decide; [done|]. destruct Hroom as [?|?]; [done|lia]. }
    split; cbn [fst snd]; [|destruct Hroom as [->|?]; cbn; lia]. exists L, v', U', o', (set_seek (k + zlength data) d). split_and!; try done; [by rewrite Em'|by apply (put_descriptor_at _ _ d)|intros _; specialize (Hsp limit); lia].
Qed.

Lemma file_lseek_run i limit reads m n c k off whence t : open_rep i limit reads m n c k → - 2 ^ 31 ≤ off < 2 ^ 31 → seek_target c k off whence = Some t → t < 2 ^ 31 → ∃ m', k_lseek n off whence m = Done (if t <? 0 then - EINVAL else t, m') ∧ open_rep i limit reads m' n c (if t <? 0 then k else t).
Proof.
  intros Hr Hoff Ht Hlt. destruct (file_seek i m n c k limit reads off whence t Hr Hoff Ht Hlt) as (d&d'&Hn&E&Hr'). exists (m.1, put_descriptor m.2 n (Some d')). split; [|done]. destruct m as [x p]. cbn [fst snd k_lseek machine_kernel] in *. unfold FileCalls.sys_lseek. rewrite Hn. unfold mbind, fsop_bind, outcome_bind. by rewrite E.
Qed.

(** The system calls on an ext2 filesystem are what streams need. *)
Program Definition machine_spec (i limit : Z) (Hlimit : limit < 2 ^ 31) (reads : bool) : KernelSpec machine := {| fd_limit := limit; fd_reads := reads; fd_rep := open_rep i limit reads |}.
Next Obligation. done. Qed.
Next Obligation. intros i limit _ reads m n c k [(L&v&U&o&d&_&_&_&_&_&_&Hlt&_) Hpos]. done. Qed.
Next Obligation. intros. by apply file_read_run. Qed.
Next Obligation. intros. by apply file_write_run. Qed.
Next Obligation. intros i limit _ reads m n c k off whence t Hr Hoff Ht Hlt. destruct (file_lseek_run i limit reads m n c k off whence t Hr Hoff Ht ltac:(lia)) as (m'&E&Hr'). rewrite (proj2 (Z.ltb_ge t 0)) in * by lia. by exists m'. Qed.
Next Obligation. intros i limit _ reads m n c k off whence t Hr Hoff Ht Hlt. destruct (file_lseek_run i limit reads m n c k off whence t Hr Hoff Ht ltac:(lia)) as (m'&E&Hr'). rewrite (proj2 (Z.ltb_lt t 0)) in * by lia. by exists m'. Qed.

(** C5: what a program writes through a stream ends up on the disk. For a fully buffered stream on an open file of an ext2 filesystem, opened to be written, or to be read and written, but not to append, with blocks left for the length it is to have and zeros behind its end in its last block: after any operations on the stream that are allowed where it is (no read directly after a write, and no write behind that length), [fflush] returns 0, and the filesystem is well-formed and its inode has exactly the bytes that were in the file, overwritten and extended by those written to the stream in their order. *)
Theorem flushed_on_disk i limit (Hlimit : limit < 2 ^ 31) (o : Z) (ops : list sop) (s : io machine) (v : view) (spec := machine_spec i limit Hlimit (readable o)) : stream_is o s v → v_all_ready limit (readable o) (writable o) v ops →
  ∃ s', (_ ← run_ops ops; fflush) s = Done (0, s') ∧ ∃ L d U n, fs_live L (kernel s').1.1 d U (kernel s').1.2 ∧ live (kernel s').1.2 !! i = Some n ∧ content d n = v_bytes (v_run v ops).2.
Proof.
  intros Hs Hops. cut (irun (_ ← run_ops ops; fflush) s (λ r s', r = 0 ∧ ∃ L d U n, fs_live L (kernel s').1.1 d U (kernel s').1.2 ∧ live (kernel s').1.2 !! i = Some n ∧ content d n = v_bytes (v_run v ops).2)); [intros (r&s'&E&->&Hx); by exists s'|]. iwp. eapply irun_mono; [by apply (ops_run o ops s v)|]. intros _ s1 [_ Hs1]. eapply (flush_stream o); [exact Hs1|]. intros k' Hr _. split; [done|]. destruct Hr as [(L&d&U&n&fd&_&Hl&Hn&_&_&Ec&_) _]. by exists L, d, U, n.
Qed.
End kernel.

(** ** A stream on a file of a small filesystem *)

Definition small_descriptor_of_hi : descriptor := FileDescriptor (InodeFile (mk_vnode 1 3)) O_RDWR.
Definition small_process : process := mk_process [Some small_descriptor_of_hi] superuser small_root 0.
Definition small_machine : machine := ((small_state, small_inodes), small_process).
(** The stream of "/hi", with a buffer of four bytes. *)
Definition small_stream : FILE := mk_FILE 0 O_RDWR (-1) 0 0 (zeroes 4) _IOFBF 0 0 4.
Definition small_view : view := mk_view [104; 105] 0 [] false 0 false.

#[local] Instance small_kernel : Kernel (machine (D := partition (Z * disk (list Z)))) := machine_kernel (zeroes 14) (zeroes 1024) 1 no_device (λ _ _ _, (0, [])) (λ _ _ _, 0) small_vfs 0.
#[local] Instance small_kernel_spec : KernelSpec (machine (D := partition (Z * disk (list Z)))) := machine_spec (zeroes 14) eq_refl (bytes_zeroes 14) (zeroes 1024) 1 no_device (λ _ _ _, (0, [])) (λ _ _ _, 0) small_vfs 0 3 2048 eq_refl true.

Lemma small_hi_clear : clear (file_body small_image small_inode).
Proof. vm_compute. reflexivity. Qed.

Lemma small_open : open_rep 1 3 2048 true small_machine 0 [104; 105] 0.
Proof.
  split; [|lia]. exists small_layout, small_image, small_used, small_inode, small_descriptor_of_hi. split_and!; [apply small_layout_ok|apply small_live|apply live_lookup; done|apply small_hi_clear|by vm_compute|by vm_compute|by vm_compute|by vm_compute|done|done|done|done|done|done|]. intros _. apply Z.leb_le. vm_compute. reflexivity.
Qed.

Lemma small_stream_is : stream_is O_RDWR (mk_io small_stream 0 small_machine) small_view.
Proof.
  split; [|done|by left|done|done|done]. split_and!; [done|done|done|done| |by split]. left. split_and!; [done|done|done|by left|constructor|]. exists [104; 105], 0. split_and!; [apply small_open|done|done].
Qed.

(** More is written than the buffer and the first block hold, and read back from inside of it. *)
Definition small_ops : list sop := [Fgetc; Fputs [101; 121; 33; 33; 33]; Ftell; Fseek 1500 0; Fputc 63; Fflush; Feof; Fseek (-1) 1; Fread 1 2; Feof; Fseek 0 0; Ungetc 72; Fgets 10].

(** Discharges what an operation asks for, on concrete values. *)
Ltac ready :=
  lazymatch goal with
  | |- True => exact I
  | |- @eq bool _ _ => vm_compute; reflexivity
  | |- bytes _ => repeat constructor; lia
  | |- ex _ => eexists; split; [vm_compute; reflexivity|reflexivity]
  | |- _ ≤ _ => apply Z.leb_le; vm_compute; reflexivity
  | |- _ < _ => apply Z.ltb_lt; vm_compute; reflexivity
  end.

Lemma small_ready : v_all_ready 2048 (readable O_RDWR) (writable O_RDWR) small_view small_ops.
Proof. cbn [v_all_ready small_ops]. repeat (apply conj; [unfold v_ready; cbv beta iota|]). all: ready. Qed.

Lemma streams_refine_witness : ∃ s', run_ops small_ops (mk_io small_stream 0 small_machine) = Done ((v_run small_view small_ops).1, s') ∧ stream_is O_RDWR s' (v_run small_view small_ops).2.
Proof. exact (streams_refine O_RDWR small_ops (mk_io small_stream 0 small_machine) small_view small_stream_is small_ready). Defined.

(** The same file, opened to be written only. *)
Definition small_writer : descriptor := FileDescriptor (InodeFile (mk_vnode 1 3)) O_WRONLY.
Definition writer_machine : machine := ((small_state, small_inodes), mk_process [Some small_writer] superuser small_root 0).
Definition writer_stream : FILE := mk_FILE 0 O_WRONLY (-1) 0 0 (zeroes 4) _IOFBF 0 0 4.

#[local] Instance writer_kernel_spec : KernelSpec (machine (D := partition (Z * disk (list Z)))) := machine_spec (zeroes 14) eq_refl (bytes_zeroes 14) (zeroes 1024) 1 no_device (λ _ _ _, (0, [])) (λ _ _ _, 0) small_vfs 0 3 2048 eq_refl false.

Lemma writer_open : open_rep 1 3 2048 false writer_machine 0 [104; 105] 0.
Proof.
  split; [|lia]. exists small_layout, small_image, small_used, small_inode, small_writer. split_and!; [apply small_layout_ok|apply small_live|apply live_lookup; done|apply small_hi_clear|by vm_compute|by vm_compute|by vm_compute|by vm_compute|done|done|done|done|done|done|]. intros _. apply Z.leb_le. vm_compute. reflexivity.
Qed.

Lemma writer_stream_is : stream_is O_WRONLY (mk_io writer_stream 0 writer_machine) small_view.
Proof.
  split; [|done|by left|done|done|done]. split_and!; [done|done|done|done| |by split]. left. split_and!; [done|done|done|by left|constructor|]. exists [104; 105], 0. split_and!; [apply writer_open|done|done].
Qed.

(** More than the buffer holds is written at the start and, behind a gap, in the second block. *)
Definition writer_ops : list sop := [Fputs [101; 121; 33; 33; 33]; Ftell; Fseek 1500 0; Fputc 63; Fseek (-1) 1; Fwrite [1; 2; 3; 4; 5; 6] 2].

Lemma writer_ready : v_all_ready 2048 (readable O_WRONLY) (writable O_WRONLY) small_view writer_ops.
Proof. cbn [v_all_ready writer_ops]. repeat (apply conj; [unfold v_ready; cbv beta iota|]). all: ready. Qed.

Lemma flushed_on_disk_witness : ∃ s', (_ ← run_ops writer_ops; fflush) (mk_io writer_stream 0 writer_machine) = Done (0, s') ∧ ∃ L d U n, fs_live L (kernel s').1.1 d U (kernel s').1.2 ∧ live (kernel s').1.2 !! 3 = Some n ∧ content d n = v_bytes (v_run small_view writer_ops).2.
Proof.
  exact (flushed_on_disk (zeroes 14) eq_refl (bytes_zeroes 14) (zeroes 1024) 1 no_device (λ _ _ _, (0, [])) (λ _ _ _, 0) small_vfs 0 3 2048 eq_refl O_WRONLY writer_ops (mk_io writer_stream 0 writer_machine) small_view writer_stream_is writer_ready).
Defined.
